(* ===== verification/_CoqProject ===== *)
-Q . S2P
Prelude.v
Ordered.v
Validate.v
IpAddr.v
Types.v
Wire.v
Ops.v
Desired.v
Actual.v
Render.v
RenderFacts.v
Task.v
Fs.v
World.v
Hardware.v
Commands.v
CommandsFacts.v
Nvmet.v
NvmetSafety.v
NvmetConverge.v
Csi.v
CsiFacts.v
CsiTheorems.v
Traces.v
Nfs.v
NfsFacts.v
Lio.v
Nic.v
Reconcile.v
ReconcileFacts.v
Store.v
StoreFacts.v
PipeKeys.v
PipeKeysFacts.v
Auth.v
Daemon.v
DaemonFacts.v
Replies.v
Tasks.v
TasksFacts.v
TaskTheorems.v
ZfsView.v
ZfsViewFacts.v
Dots.v
DotsFacts.v
Site.v
Exports.v
ExportsFacts.v
Snapshots.v
SnapshotFacts.v
ExportViews.v
ExportViewFacts.v
Sessions.v
SessionFacts.v
Client.v
ClientFacts.v
Inventory.v
DiskPages.v
ZfsPages.v
LvmPages.v
StorageFacts.v
Cli.v
CliFacts.v
AdminPages.v
AdminFacts.v
Metrics.v
MetricsFacts.v
Server.v
ServerFacts.v
