(* ===== verification/Prelude.v ===== *)
(** * greendot: a storage server, its privileged daemon, its web service and its client

    greendot turns a Linux machine into a storage server. Its parts:

    - [crates/greendot-proto] is what the other crates share: string validators,
      validated and enumerated types, the wire conversions and one operation per
      rpc, the desired-state document and its read-only loader, the parsers of
      what the tools print, and the task streams a privileged operation reports
      through.
    - [crates/greendotctl] is the privileged daemon: it validates a request,
      takes one lock for everything that mutates, runs commands and writes
      configfs trees, and streams what happens. Its reconciler renders the export
      tables to kernel state (NVMe-oF, iSCSI, NFS, NICs), compares it with what
      the readers report and applies the difference. The CSI requests of a
      Kubernetes controller act on the same nvmet tree, guarded by durable
      attachment generations. The daemon also keeps the keys of an SSH login that
      may only open a pipe to it, and checks passwords.
    - [crates/greendot-web] is the unprivileged web service: it owns the
      desired-state document the daemon reads, sends the daemon requests, records
      the tasks they start, and shows pages and a client API made of the store and
      of what the daemon and the tools report.
    - [crates/greendot-client] is the client of that API on another machine: it
      registers itself for an export, attaches it and reports its state.
    - [csi/] is the Kubernetes driver, in Go.

    ** Files, in dependency order

    Shared:
    - [Prelude]: the result monad with [?], machine-width integers ([uint w], a bounded
      [N]), [str] operations on byte strings, the
      tactics [inv_ok] and [bool_split], lemmas on lists and strings.
    - [Ordered]: [Ord], [sort], [dedup], [BTreeMap] and [BTreeSet].
    - [IpAddr]: printing, parsing and order of [std::net::IpAddr].

    greendot-proto:
    - [Validate] (validate.rs), [Types] (types.rs), [Wire] and [Replies] (convert.rs:
      requests, replies and task events in both directions), [Ops] (ops.rs: a record,
      an ingress and an egress for every rpc), [Desired] (desired.rs), [Actual]
      (actual/), [Task] (lib.rs: [Task], [SubTask], [Pipe] over the log of delivered
      events).

    greendotctl, pure:
    - [Render], [RenderFacts] (render.rs), [Nic] (actual/nic.rs, actual/rdma.rs
      on both sides), [Lio] (lio.rs, actual/lio.rs).

    greendotctl, effectful:
    - [Fs]: [std::fs] over a tree of path-indexed nodes with modes and owners;
      every mutating call can be refused.
    - [World] (cmd.rs): the monad of the handlers. A state [world] carries the
      tree, the modes, the history of spawned commands, the call clock and the
      task; the result is an error only when the client has gone. Failures of a
      step are recorded on the task, as in the code.
    - [Hardware] (hardware/, modules.rs), [Commands], [CommandsFacts] (zfs.rs,
      lvm.rs, partition.rs, fs.rs, net.rs, smart.rs, install.rs), [Traces] (a
      trace logic on the command history, used for the operations that run
      several commands).
    - [Nvmet], [NvmetSafety], [NvmetConverge] (nvmet.rs, actual/nvmet.rs), [Csi],
      [CsiFacts], [CsiTheorems] (csi.rs, the CSI part of nvmet.rs and exec.rs),
      [Nfs], [NfsFacts] (nfs.rs), [Reconcile], [ReconcileFacts] (reconcile.rs,
      config.rs), [PipeKeys], [PipeKeysFacts] (pipe_keys.rs), [Auth] (pam.rs, the
      options and peer check of main.rs), [Daemon], [DaemonFacts] (exec.rs, the
      service part of main.rs: the table of requests, the lock and its poisoning,
      panics folded into the stream, the typed reads, the start).

    greendot-web:
    - [Store], [StoreFacts] (state.rs: the document, every operation on it, its
      file).
    - [Tasks], [TasksFacts], [TaskTheorems] (helper_client.rs, task_runner.rs,
      routes/tasks.rs and the recorded tasks of state.rs): the daemon's events as a
      client sees them, the runner that records and broadcasts them, the viewers.
    - [ZfsView], [ZfsViewFacts], [Inventory] (actual/zfs.rs, block.rs, lvm.rs,
      smart.rs, fmt.rs): what the tools print.
    - [Site]: the state of a request handler (the store, the database, the requests
      sent) and its monad [hop].
    - [Dots], [DotsFacts] (dot.rs), [Exports], [ExportsFacts] (routes/block_export.rs,
      nvme.rs, iscsi.rs, nfs.rs, client_api.rs: the handlers; the protocols are
      instances of [ExportProtocol]), [ExportViews], [ExportViewFacts] (what those
      pages and the API show).
    - [Snapshots], [SnapshotFacts] (snapshots.rs, routes/snapshots.rs), [Sessions],
      [SessionFacts] (auth.rs, routes/client_access.rs and the client's pairing.rs).
    - [DiskPages], [ZfsPages], [LvmPages], [StorageFacts] (routes/disks.rs, zfs.rs,
      lvm.rs).
    - [AdminPages], [AdminFacts] (routes/nic.rs, settings.rs, ssh_access.rs,
      connections.rs, actual/apt.rs, actual/nic.rs).
    - [Metrics], [MetricsFacts] (metrics/, routes/charts.rs).
    - [Server], [ServerFacts] (config.rs, main.rs, routes/mod.rs): the configuration,
      the start and the routing table with its gates.

    greendot-client:
    - [Client], [ClientFacts] (status.rs, privops.rs, config.rs, agent.rs): its
      readers, its privileged operations and the agent that runs them.
    - [Cli], [CliFacts] (main.rs, api.rs, diagnose.rs): its commands, over a log of
      what is loaded, asked, called and printed.

    ** What stands for code outside the repository

    These are class parameters; a theorem that needs more than their types names
    a class of laws, and is applied at an instance of it.
    - [Task.Client]: whether the client still reads at the n-th event. [Kernel]: which
      file-system calls are refused. [Machine]: what a spawned command prints,
      returns and does to the tree. [Idle]: how the tree changes while the daemon
      sleeps. None of the four is constrained, apart from [Tame] (commands and
      time leave the CSI part of configfs and the attachment files alone),
      [Obliging] (commands leave the exports file alone and exportfs the
      listeners, for the NFS liveness statement) and the
      witnesses.
    - [JsonParser], [JsonPrinter], [Toml], [DocCodec], [StateCodec], [RowCodec],
      [TargetsCodec], [AgentJson], [ApiJson], [LsblkJson], [ReportJson]: the serde
      codecs, with the round trips of [StateCodec], [RowCodec] and [AgentJson] and, in
      [SharedToml], that both programs decode one file alike. [Live]: what the sysfs
      readers return.
    - [SshKey] with [SshKeyLaws] (the ssh_key crate), [Login] and [Accounts] (the
      account database), [Pam], [Sha256], [Random], [Cron] with [CronLaw], [Chrono].
    - The web service's surroundings: [Sqlite] (which statement fails), [Clock],
      [Shell] (what a tool prints), [Helper], [SmartRead] and [SiteReads] (what the
      daemon answers), [Environment], [WebToml], [Pem], [Matcher] (axum's choice of a
      pattern). The client's: [Client.Machine], [Net] (who
      answers a connection with which certificate and body), [Seat] (its terminal and
      its tools).

    ** What the theorems show

    - Reconciliation: for every kernel behaviour a pass changes only what is
      ours ([reconcile_foreign_untouched], [pass_foreign_untouched]); after a pass
      that succeeds the next check is clean if and only if no subsystem is open to
      any host and lists hosts all the same ([reconcile_converges], [pass_converges];
      for NFS it is clean, [nfs_apply_converges]); a clean drift check means the pass
      only looks ([satisfied_pass_only_looks]). [RenderFacts], [Lio] and [Nic] have the lemmas on
      what is rendered: ports without clash or overflow, closed documents, NICs
      classified as specified.
    - CSI: over every sequence of requests one host per volume and fences that are
      never lifted ([csi_mutual_exclusion], [fenced_publish_refused]; both for a
      volume whose state file is not the temporary file of another's, [no_alias]), and
      what a completed publish has done ([publish_complete]).
    - Commands: the options of a command are those of its builder and never come from
      a string of the request, shrink only after the filesystem fits
      ([command_argv_safe], [shrink_filesystem_first]).
    - Streams and requests: every delivered stream is a prefix of a well-framed
      one ([request_stream_framed]); encoding and decoding of every operation, the
      addition of an SSH key included ([request_round_trip]), validated strings
      that are safe where they are put ([validated_string_safe]); a refused request
      changes nothing ([refused_request_untouched]).
    - Access: authorized_keys (without carriage returns) as a refinement of an
      abstract list of keys
      ([key_requests_refine], [grants_only_the_pipe]), the password check
      ([login_gate]), every handler behind the gate of
      its route ([handlers_behind_gates]), a token from the page to the client and back
      ([paired_client_authorized]).
    - The store: an invariant of its five tables by rule induction over requests,
      atomicity of the file, agreement with the daemon's loader ([store_invariant],
      [request_atomic], [daemon_reads_the_store]; after a failed write memory is
      ahead of the file until the next one, and a request that finds nothing to do
      does not write); what the forms store can be rendered, an iSCSI export if
      its name has at most 63 characters ([exports_stay_renderable]); the intent for a
      NIC is stored before the daemon is asked ([nic_intent_first]).
    - Tasks: what is recorded is what arrived of what the daemon sent
      ([recorded_task_faithful]), a viewer that never falls behind the channel's 512
      events sees the record whenever it joins ([viewer_sees_the_record]), and every
      recorded task ends ([recorded_task_ends]). In all three any database
      statement may fail; the run then returns its error and leaves the entry of the
      hub behind.
    - Pages: without drift the dots have the colour that records and hardware
      determine ([dots_agree_with_drift]), endpoints and commands on the pages are those
      of the rendered targets ([advertised_endpoints_served]), storage forms send
      exactly what they say ([storage_forms_exact]), the pool and volume group forms
      offer exactly the free devices ([offered_devices_free]), and every button of a
      pool's device table leads through to the [zpool] command it stands for
      ([pool_actions_accepted]).
    - Snapshots: retention equals a reference definition and a run does what the
      policy says ([retention_matches_reference], [scheduled_run_contract]).
    - Metrics: the store refines a specification that keeps the samples
      ([store_refines_series]) and a collector runs in bounded space, restarts
      included ([collector_bounded]).
    - The client: it attaches only after its registration was applied
      ([attach_after_registration]), sends a token only to the host of its pairing, over a
      pinned connection when the pairing has a fingerprint
      ([tokens_stay_with_their_target]), and leaves no half-open connection
      ([connect_nvme_contract]).

    ** Bounds and fuel

    - [skip_reserved] (the search for a free port id) has as fuel the size of the
      reserved set plus one; [skip_reserved_total] shows that it is enough, and
      [render_nvmet_total] that the [u16] does not overflow below the stated
      number of ports.
    - [exists_at] and [canonicalize] follow at most the 40 links Linux follows
      (fuel 41: the node at the end takes one). The device wait of the CSI
      publish is the code's own 100 rounds, the client's wait for a task its own
      sixty polls, its wait for a controller its own twenty looks. [octal_go] prints
      four digits, enough for the nine mode bits it is given. [shortest] looks at 800
      decimal positions, more than a double has between its largest and its smallest
      digit.
    - Ids, ports, sizes and modes keep their width; the increments that can
      overflow and the saturating operations are written out. Doubles are those of
      the Standard Library's SpecFloat, at 53 bits.

    ** Limits of the model

    Strings are byte strings, and trimming and character classes are those of
    ASCII. [Fs] does not follow links inside a path (configfs links are only
    created, listed and removed) and a write is all or nothing. Operations under
    the mutate lock run one at a time, so a sequence of requests is a sequence of
    steps; reads run against the world between two of them. A panic is a value of
    the model ([panics]); an arithmetic overflow is one, as in a build with
    overflow checks, except in [Metrics], where the counters wrap. Maps that the
    program iterates in no particular order are iterated in the order of their keys'
    encoding.

    ** Not modelled

    The byte relay of pipe.rs, the sockets, gRPC, TLS and HTTP underneath (only I/O or
    other crates); the HTML of the pages, whose data is modelled, and the static files; the
    Go driver, whose requests appear as arbitrary sequences of CSI operations. *)
From Stdlib Require Import Ascii String.
From stdpp Require Import base option list strings gmap pretty sorting.
#[local] Open Scope string_scope.
#[local] Open Scope N_scope.
#[global] Arguments String.append !_ _ / : simpl nomatch.

(** ** The result monad: Rust's [Result<A, E>] and the [?] operator *)

Inductive result (E A : Type) : Type :=
| Ok (a : A)
| Err (e : E).
Arguments Ok {E A} a.
Arguments Err {E A} e.

#[export] Instance result_ret {E} : MRet (result E) := λ A a, Ok a.
#[export] Instance result_bind {E} : MBind (result E) := λ A B f r,
  match r with Ok a => f a | Err e => Err e end.
#[export] Instance result_fmap {E} : FMap (result E) := λ A B f r,
  match r with Ok a => Ok (f a) | Err e => Err e end.
#[export] Instance result_eq_dec {E A} `{EqDecision E, EqDecision A} :
  EqDecision (result E A).
Proof. solve_decision. Defined.

(** Rust's [Result::map_err]. *)
Definition map_err {E F A} (f : E → F) (r : result E A) : result F A :=
  match r with Ok a => Ok a | Err e => Err (f e) end.
(** Rust's [Option::ok_or]. *)
Definition ok_or {E A} (e : E) (o : option A) : result E A :=
  match o with Some a => Ok a | None => Err e end.
(** Rust's [Result::ok]. *)
Definition to_option {E A} (r : result E A) : option A :=
  match r with Ok a => Some a | Err _ => None end.
Definition is_ok {E A} (r : result E A) : bool :=
  match r with Ok _ => true | Err _ => false end.

Lemma bind_Ok {E A B} (f : A → result E B) r b :
  r ≫= f = Ok b ↔ ∃ a, r = Ok a ∧ f a = Ok b.
Proof. destruct r; split; naive_solver. Qed.
Lemma bind_Err {E A B} (f : A → result E B) r e :
  r ≫= f = Err e ↔ r = Err e ∨ ∃ a, r = Ok a ∧ f a = Err e.
Proof. destruct r; split; naive_solver. Qed.
Lemma fmap_Ok {E A B} (f : A → B) (r : result E A) b :
  f <$> r = Ok b ↔ ∃ a, r = Ok a ∧ b = f a.
Proof. destruct r; split; naive_solver. Qed.
Lemma map_err_Ok {E F A} (f : E → F) (r : result E A) a :
  map_err f r = Ok a ↔ r = Ok a.
Proof. destruct r; split; naive_solver. Qed.
Lemma ok_or_Ok {E A} (e : E) (o : option A) a :
  ok_or e o = Ok a ↔ o = Some a.
Proof. destruct o; split; naive_solver. Qed.
Lemma ok_or_Err {E A} (e : E) (o : option A) e' :
  ok_or e o = Err e' ↔ o = None ∧ e' = e.
Proof. destruct o; split; naive_solver. Qed.

(** [mapM] in the result monad succeeds exactly when every element does. *)
Lemma mapM_Ok {E A B} (f : A → result E B) (l : list A) (k : list B) :
  mapM f l = Ok k ↔ Forall2 (λ a b, f a = Ok b) l k.
Proof.
  revert k. induction l as [|a l IH]; intros k; cbn.
  - split; [intros [= <-]; constructor | by intros ->%Forall2_nil_inv_l].
  - split.
    + intros (b & Hb & (k' & Hk & [= <-])%bind_Ok)%bind_Ok.
      constructor; [done|]. by apply IH.
    + intros (b & k' & Hb & Hk & ->)%Forall2_cons_inv_l.
      apply IH in Hk. rewrite Hb; cbn. by rewrite Hk.
Qed.

Lemma mapM_fmap_Ok {E A B} (f : B → result E A) (g : A → B) l :
  (∀ a, f (g a) = Ok a) → mapM f (g <$> l) = Ok (E:=E) l.
Proof.
  intros H. apply mapM_Ok. induction l; cbn; constructor; auto.
Qed.

(** ** Refinement types

    The [validated_string!] newtypes and the machine-width integers are all a
    raw value together with the (boolean) fact that it was accepted. *)

Record refined {A : Type} (p : A → bool) : Type :=
  Refine { raw : A; raw_ok : Is_true (p raw) }.
Arguments Refine {A p} & raw raw_ok : rename.
Arguments raw {A p} r.
Arguments raw_ok {A p} r.
(** A literal whose acceptance is decided by computation. *)
Abbreviation lit a := (Refine a I) (only parsing).

(** The only constructor from run-time data. *)
Definition refine {A} (p : A → bool) (a : A) : option (refined p) :=
  match decide (Is_true (p a)) with
  | left H => Some (Refine a H)
  | right _ => None
  end.

#[export] Instance raw_inj {A} (p : A → bool) : Inj (=) (=) (@raw A p).
Proof.
  intros [a Ha] [b Hb]; cbn; intros ->. f_equal. apply proof_irrel.
Qed.
Lemma refine_raw {A} {p : A → bool} (x : refined p) : refine p (raw x) = Some x.
Proof.
  unfold refine. case_decide as H; [|by destruct H; apply raw_ok].
  f_equal. by apply raw_inj.
Qed.
Lemma refine_Some {A} (p : A → bool) a x : refine p a = Some x ↔ raw x = a.
Proof.
  split; [|intros <-; apply refine_raw].
  unfold refine. case_decide; naive_solver.
Qed.
Lemma refine_None {A} (p : A → bool) a : refine p a = None ↔ ¬ p a.
Proof. unfold refine. case_decide; naive_solver. Qed.
#[export] Instance refined_eq_dec {A} `{EqDecision A} (p : A → bool) :
  EqDecision (refined p).
Proof.
  refine (λ x y, cast_if (decide (raw x = raw y))).
  - by apply raw_inj.
  - by intros ->.
Defined.
#[export] Program Instance refined_countable {A} `{Countable A} (p : A → bool) :
  Countable (refined p) := inj_countable raw (refine p) _.
Next Obligation. intros. apply refine_raw. Qed.

(** ** Machine-width unsigned integers *)

Definition fits (w n : N) : bool := n <? 2 ^ w.
Abbreviation uint w := (refined (fits w)).
Abbreviation u8 := (uint 8).
Abbreviation u16 := (uint 16).
Abbreviation u32 := (uint 32).
Abbreviation u64 := (uint 64).

Lemma uint_lt {w} (x : uint w) : raw x < 2 ^ w.
Proof. destruct x as [n H]. cbn. by apply N.ltb_lt, Is_true_true. Qed.
Lemma fits_spec w n : fits w n ↔ n < 2 ^ w.
Proof. unfold fits. by rewrite Is_true_true, N.ltb_lt. Qed.
(** Rust's [saturating_mul] and [saturating_sub]. *)
Definition saturating_mul (w a b : N) : N := N.min (a * b) (2 ^ w - 1).
Definition saturating_sub (a b : N) : N := a - b.

(** ** Strings: the parts of [str] the program uses

    A Rust [String] is its sequence of UTF-8 bytes, so [len] is [length]; every
    character-class test in the program is on ASCII characters, where the byte
    and the character views agree. *)

Definition slen (s : string) : N := N.of_nat (String.length s).
Definition chars (s : string) : list ascii := list_ascii_of_string s.
Definition all_chars (p : ascii → bool) (s : string) : bool := forallb p (chars s).
Definition first_char (p : ascii → bool) (s : string) : bool :=
  match s with String c _ => p c | EmptyString => false end.
Definition is_empty (s : string) : bool :=
  match s with EmptyString => true | _ => false end.
Definition char_in (set : string) (c : ascii) : bool :=
  existsb (Ascii.eqb c) (chars set).

Definition code (c : ascii) : N := N_of_ascii c.
Definition in_range (lo hi : N) (c : ascii) : bool := (lo <=? code c) && (code c <=? hi).
Definition is_ascii_digit : ascii → bool := in_range 48 57.
Definition is_ascii_lowercase : ascii → bool := in_range 97 122.
Definition is_ascii_uppercase : ascii → bool := in_range 65 90.
Definition is_ascii_alphabetic (c : ascii) : bool :=
  is_ascii_lowercase c || is_ascii_uppercase c.
Definition is_ascii_alphanumeric (c : ascii) : bool :=
  is_ascii_alphabetic c || is_ascii_digit c.
Definition to_ascii_lowercase (c : ascii) : ascii :=
  if is_ascii_uppercase c then ascii_of_N (code c + 32) else c.
Fixpoint eq_ignore_ascii_case (s t : string) : bool :=
  match s, t with
  | EmptyString, EmptyString => true
  | String a s, String b t =>
      Ascii.eqb (to_ascii_lowercase a) (to_ascii_lowercase b)
      && eq_ignore_ascii_case s t
  | _, _ => false
  end.

Fixpoint strip_prefix (p s : string) : option string :=
  match p, s with
  | EmptyString, _ => Some s
  | String a p, String b s => if Ascii.eqb a b then strip_prefix p s else None
  | _, _ => None
  end.
(** [str::replace] of one character by another. *)
Fixpoint replace_char (a b : ascii) (s : string) : string :=
  match s with
  | EmptyString => EmptyString
  | String c r => String (if Ascii.eqb c a then b else c) (replace_char a b r)
  end.
Definition starts_with (p s : string) : bool :=
  match strip_prefix p s with Some _ => true | None => false end.
Fixpoint ends_with_char (c : ascii) (s : string) : bool :=
  match s with
  | EmptyString => false
  | String a EmptyString => Ascii.eqb a c
  | String _ s => ends_with_char c s
  end.
(** [str::split(char)]: always at least one piece. *)
Fixpoint split (c : ascii) (s : string) : list string :=
  match s with
  | EmptyString => [EmptyString]
  | String a r =>
      if Ascii.eqb a c then EmptyString :: split c r
      else match split c r with
           | h :: t => String a h :: t
           | [] => [String a EmptyString]
           end
  end.
(** [str::split_once(char)]. *)
Fixpoint split_once (c : ascii) (s : string) : option (string * string) :=
  match s with
  | EmptyString => None
  | String a r =>
      if Ascii.eqb a c then Some (EmptyString, r)
      else match split_once c r with
           | Some (x, y) => Some (String a x, y)
           | None => None
           end
  end.
(** [[String]::join(sep)]. *)
Fixpoint join (sep : string) (l : list string) : string :=
  match l with
  | [] => EmptyString
  | [s] => s
  | s :: l => s +:+ sep +:+ join sep l
  end.

(** ** String lemmas *)

Lemma app_nil_r_s (s : string) : s +:+ "" = s.
Proof. induction s as [|c s IH]; [done|]. cbn. by rewrite IH. Qed.
Lemma app_assoc_s (a b c : string) : (a +:+ b) +:+ c = a +:+ b +:+ c.
Proof. induction a as [|c' a IH]; [done|]. cbn. by rewrite IH. Qed.
Lemma chars_app s t : chars (s +:+ t) = (chars s ++ chars t)%list.
Proof. induction s as [|c s IH]; cbn; [done|]. by unfold chars in *; rewrite IH. Qed.
Lemma slen_app s t : slen (s +:+ t) = slen s + slen t.
Proof.
  unfold slen. assert (H : String.length (s +:+ t) = (String.length s + String.length t)%nat).
  { induction s; cbn; congruence. }
  rewrite H. lia.
Qed.
#[export] Instance chars_inj : Inj (=) (=) chars.
Proof.
  intros s t H. rewrite <- (string_of_list_ascii_of_string s),
    <- (string_of_list_ascii_of_string t). by f_equal.
Qed.
Lemma all_chars_app p s t : all_chars p (s +:+ t) = all_chars p s && all_chars p t.
Proof. unfold all_chars. rewrite chars_app. apply forallb_app. Qed.
Lemma all_chars_spec p s : all_chars p s ↔ Forall (λ c, Is_true (p c)) (chars s).
Proof.
  unfold all_chars. rewrite Is_true_true, forallb_forall, Forall_forall.
  setoid_rewrite list_elem_of_In. by setoid_rewrite Is_true_true.
Qed.
Lemma all_chars_mono (p q : ascii → bool) s :
  (∀ c, p c → q c) → all_chars p s → all_chars q s.
Proof. rewrite !all_chars_spec. eauto using Forall_impl. Qed.
Lemma all_chars_not_in p s c : all_chars p s → ¬ p c → c ∉ chars s.
Proof. rewrite all_chars_spec, Forall_forall. naive_solver. Qed.
Lemma all_chars_absent p s c : all_chars p s → p c = false → c ∉ chars s.
Proof. intros H Hc. eapply all_chars_not_in; [exact H|]. rewrite Hc. intros []. Qed.

(** Inclusions between character classes are decided by enumeration. *)
Definition class_incl (p q : ascii → bool) : bool :=
  forallb (λ n, implb (p (ascii_of_nat n)) (q (ascii_of_nat n))) (seq 0 256).
Lemma class_incl_sound p q c : class_incl p q = true → p c → q c.
Proof.
  unfold class_incl. rewrite forallb_forall. intros H Hp.
  specialize (H (nat_of_ascii c)). rewrite ascii_nat_embedding in H.
  assert (Hin : In (nat_of_ascii c) (seq 0 256)).
  { apply in_seq. pose proof (nat_ascii_bounded c). lia. }
  apply H in Hin. by destruct (p c), (q c).
Qed.
Lemma all_chars_incl (p q : ascii → bool) s :
  all_chars p s → class_incl p q = true → all_chars q s.
Proof.
  intros Hs H. revert Hs. apply all_chars_mono. intros c. by apply class_incl_sound.
Qed.

Lemma first_char_incl (p q : ascii → bool) s :
  first_char p s → class_incl p q = true → first_char q s.
Proof. destruct s; [done|]. cbn. intros. by apply (class_incl_sound p). Qed.

Lemma strip_prefix_Some p s r : strip_prefix p s = Some r ↔ s = p +:+ r.
Proof.
  revert s; induction p as [|a p IH]; intros [|b s]; cbn; [naive_solver..|].
  destruct (Ascii.eqb_spec a b) as [->|Hne]; [rewrite IH|]; split; intros H; simplify_eq; done.
Qed.
Lemma starts_with_spec p s : starts_with p s ↔ ∃ r, s = p +:+ r.
Proof.
  unfold starts_with. destruct (strip_prefix p s) eqn:H; cbn.
  - apply strip_prefix_Some in H. naive_solver.
  - split; [done|]. intros [r Hr%strip_prefix_Some]. congruence.
Qed.
Lemma starts_with_app p s : starts_with p (p +:+ s).
Proof. apply starts_with_spec. eauto. Qed.

Lemma split_nonempty c s : split c s ≠ [].
Proof. destruct s as [|a s]; cbn; [done|]. destruct (Ascii.eqb a c), (split c s); done. Qed.
Lemma join_split c s : join (String c "") (split c s) = s.
Proof.
  induction s as [|a s IH]; cbn; [done|].
  pose proof (split_nonempty c s) as Hne.
  destruct (Ascii.eqb_spec a c) as [->|_], (split c s) as [|h [|h' t]]; cbn in *; congruence.
Qed.
Lemma split_pieces c s : Forall (λ p, c ∉ chars p) (split c s).
Proof.
  induction s as [|a s IH]; cbn; [repeat constructor; set_solver|].
  pose proof (split_nonempty c s) as Hne.
  destruct (Ascii.eqb_spec a c) as [->|Hac]; [constructor; [set_solver|done]|].
  destruct (split c s) as [|h t]; [done|].
  apply Forall_cons in IH as [Hh Ht]. constructor; [|done].
  cbn. intros [->|?]%elem_of_cons; done.
Qed.
Lemma split_absent c s : c ∉ chars s → split c s = [s].
Proof.
  induction s as [|a s IH]; cbn; [done|]. intros H.
  apply not_elem_of_cons in H as [Ha Hs].
  destruct (Ascii.eqb_spec a c) as [->|_]; [done|]. by rewrite IH.
Qed.
Lemma split_app c s t :
  c ∉ chars s → split c (s +:+ String c t) = s :: split c t.
Proof.
  induction s as [|a s IH]; cbn; intros H.
  - by rewrite Ascii.eqb_refl.
  - apply not_elem_of_cons in H as [Ha Hs].
    destruct (Ascii.eqb_spec a c) as [->|_]; [done|]. by rewrite IH.
Qed.
Lemma split_join c l :
  l ≠ [] → Forall (λ p, c ∉ chars p) l → split c (join (String c "") l) = l.
Proof.
  intros Hne Hl. induction Hl as [|s l Hs Hl IH]; [done|].
  destruct l as [|s' l]; [by apply split_absent|].
  change (join _ (s :: s' :: l)) with (s +:+ String c (join (String c "") (s' :: l))).
  rewrite split_app by done. by rewrite IH.
Qed.
Lemma split_once_Some c s x y :
  split_once c s = Some (x, y) ↔ s = x +:+ String c y ∧ c ∉ chars x.
Proof.
  revert x y; induction s as [|a s IH]; intros x y; cbn.
  - split; [done|]. intros [H _]. by destruct x.
  - destruct (Ascii.eqb_spec a c) as [->|Hac].
    + split.
      * intros [= <- <-]. split; [done|]. cbn. set_solver.
      * intros [H Hx]. destruct x as [|b x]; cbn in *; simplify_eq; [done|].
        by destruct Hx; left.
    + destruct (split_once c s) as [[x' y']|] eqn:Hs.
      * specialize (proj1 (IH x' y') eq_refl) as [-> Hx'].
        split; [intros [= <- <-]|].
        -- split; [done|]. cbn. by intros [?|?]%elem_of_cons.
        -- intros [H Hx]. destruct x as [|b x]; cbn in *; simplify_eq.
           apply not_elem_of_cons in Hx as [_ Hx].
           assert (Hx'' : Some (x', y') = Some (x, y)) by (apply IH; done).
           by simplify_eq.
      * split; [done|]. intros [H Hx]. destruct x as [|b x]; cbn in *; simplify_eq.
        apply not_elem_of_cons in Hx as [_ Hx].
        by specialize (proj2 (IH x y) (conj eq_refl Hx)).
Qed.

Lemma split_once_None c s : split_once c s = None ↔ c ∉ chars s.
Proof.
  induction s as [|a s IH]; cbn; [set_solver|].
  destruct (Ascii.eqb_spec a c) as [->|Hac]; [set_solver|].
  destruct (split_once c s) as [[x y]|] eqn:Hs.
  - apply split_once_Some in Hs as [-> Hx]. split; [done|].
    rewrite not_elem_of_cons, chars_app. cbn. set_solver.
  - rewrite not_elem_of_cons. naive_solver.
Qed.

(** [split] on a class of characters, and [split_whitespace]. *)
Fixpoint split_by (p : ascii → bool) (s : string) : list string :=
  match s with
  | EmptyString => [""]
  | String c s =>
      match split_by p s with
      | w :: ws => if p c then "" :: w :: ws else String c w :: ws
      | [] => []
      end
  end.
Definition nonempty (s : string) : bool := negb (is_empty s).
(** ** Decimal integers: [Display] and [FromStr] of the unsigned types *)

Definition digit_val (c : ascii) : option N :=
  if is_ascii_digit c then Some (code c - 48) else None.
Fixpoint parse_digits (acc : N) (s : string) : option N :=
  match s with
  | EmptyString => Some acc
  | String c s => digit_val c ≫= λ d, parse_digits (10 * acc + d) s
  end.
(** [uN::from_str]: an optional leading [+], at least one digit, no overflow. *)
Definition parse_uint (w : N) (s : string) : option (uint w) :=
  let digits := match s with String "+" r => r | _ => s end in
  if is_empty digits then None else parse_digits 0 digits ≫= refine (fits w).
(** [uN::fmt]. *)
Definition show_uint {w} (x : uint w) : string := pretty (raw x).

(** [iN::fmt]. *)
Definition show_Z (z : Z) : string :=
  if (z <? 0)%Z then "-" +:+ pretty (Z.to_N (- z)) else pretty (Z.to_N z).

Lemma digit_val_pretty n : n < 10 → digit_val (pretty_N_char n) = Some n.
Proof.
  intros H. assert (Hn : n ∈ [0;1;2;3;4;5;6;7;8;9]) by (rewrite !elem_of_cons; lia).
  by repeat (apply elem_of_cons in Hn as [->|Hn]; [done|]); apply elem_of_nil in Hn.
Qed.
Lemma pretty_N_char_digit n : is_ascii_digit (pretty_N_char n).
Proof. unfold pretty_N_char. by repeat case_match. Qed.
Lemma parse_digits_pretty_go n acc s :
  ∃ k, parse_digits acc (pretty_N_go n s) = parse_digits (k * acc + n) s
       ∧ (acc = 0 ∨ k ≠ 0).
Proof.
  revert acc s. induction (N.lt_wf_0 n) as [n _ IH]; intros acc s.
  assert (n = 0 ∨ 0 < n) as [->|Hn] by lia.
  - exists 1. rewrite pretty_N_go_0. split; [f_equal; lia|by right].
  - rewrite pretty_N_go_step by done.
    destruct (IH (n `div` 10)) with (acc := acc)
      (s := String (pretty_N_char (n `mod` 10)) s) as (k & Hk & Hz);
      [by apply N.div_lt|].
    exists (10 * k). rewrite Hk. cbn -[N.mul].
    pose proof (N.mod_lt n 10 ltac:(done)).
    rewrite digit_val_pretty by done. cbn -[N.mul].
    split; [|lia]. f_equal. pose proof (N.div_mod n 10 ltac:(done)). lia.
Qed.
Lemma pretty_N_go_digits n s :
  all_chars is_ascii_digit s → all_chars is_ascii_digit (pretty_N_go n s).
Proof.
  revert s. induction (N.lt_wf_0 n) as [n _ IH]; intros s Hs.
  assert (n = 0 ∨ 0 < n) as [->|Hn] by lia; [by rewrite pretty_N_go_0|].
  rewrite pretty_N_go_step by done. apply IH; [by apply N.div_lt|].
  unfold all_chars. cbn. apply andb_True. split; [apply pretty_N_char_digit|done].
Qed.
Lemma pretty_N_digits (n : N) : all_chars is_ascii_digit (pretty n).
Proof.
  unfold pretty, pretty_N. case_decide; [done|]. by apply pretty_N_go_digits.
Qed.
Lemma pretty_N_nonempty (n : N) : pretty n ≠ "".
Proof.
  unfold pretty, pretty_N. case_decide as Hn; [done|]. intros H.
  assert (Hinj : pretty n = pretty 0 ∨ n ≠ 0) by tauto. clear Hinj.
  destruct (parse_digits_pretty_go n 0 "") as (k & Hk & _).
  rewrite H in Hk. cbn in Hk. injection Hk. lia.
Qed.
Lemma parse_digits_pretty n : parse_digits 0 (pretty n) = Some n.
Proof.
  unfold pretty, pretty_N. case_decide as Hn; [by subst|].
  destruct (parse_digits_pretty_go n 0 "") as (k & -> & _). cbn. f_equal. lia.
Qed.
Lemma first_digit_not_plus s :
  all_chars is_ascii_digit s → match s with String "+" r => r | _ => s end = s.
Proof. destruct s as [|c s]; [done|]. intros H. by repeat case_match. Qed.

(** Printing then parsing an unsigned integer is the identity, at every width. *)
Lemma parse_show_uint {w} (x : uint w) : parse_uint w (show_uint x) = Some x.
Proof.
  unfold parse_uint, show_uint.
  rewrite first_digit_not_plus by apply pretty_N_digits.
  destruct (is_empty (pretty (raw x))) eqn:He.
  { destruct (pretty (raw x)) eqn:Hp; [by apply pretty_N_nonempty in Hp|done]. }
  rewrite parse_digits_pretty. cbn. apply refine_raw.
Qed.

(** ** [format!("{:?}")] of a string

    Rust escapes the quote, the backslash, tab, newline, carriage return and
    NUL by name and the other ASCII control characters as [\u{hex}]; the other
    characters (bytes from 128 on belong to printable characters in every
    message of the program) are copied. *)

Definition chr (n : N) : string := String (ascii_of_N n) "".
Definition dquote : string := chr 34.
(** The UTF-8 bytes of the two non-ASCII characters of the messages. *)
Definition em_dash : string := String (ascii_of_N 226) (String (ascii_of_N 128) (chr 148)).
Definition right_arrow : string := String (ascii_of_N 226) (String (ascii_of_N 134) (chr 146)).
Definition hex_digit (n : N) : ascii :=
  if n <? 10 then ascii_of_N (48 + n) else ascii_of_N (87 + n).
Definition debug_char (c : ascii) : string :=
  let n := code c in
  if (n =? 34) || (n =? 92) then chr 92 +:+ String c ""
  else if n =? 9 then chr 92 +:+ "t"
  else if n =? 10 then chr 92 +:+ "n"
  else if n =? 13 then chr 92 +:+ "r"
  else if n =? 0 then chr 92 +:+ "0"
  else if (n <? 32) || (n =? 127) then
    chr 92 +:+ "u{"
      +:+ (if n <? 16 then "" else String (hex_digit (n / 16)) "")
      +:+ String (hex_digit (n mod 16)) "}"
  else String c "".
Fixpoint concat_s (l : list string) : string :=
  match l with [] => "" | s :: l => s +:+ concat_s l end.
Definition debug_str (s : string) : string :=
  dquote +:+ concat_s (debug_char <$> chars s) +:+ dquote.

(** ** Automation *)

Create HintDb gd.
#[export] Hint Resolve starts_with_app raw_ok : gd.

(** Break boolean facts into propositions. *)
Ltac bool_split :=
  repeat match goal with
  | H : Is_true (_ && _) |- _ => apply andb_True in H as [? ?]
  | H : Is_true (negb _) |- _ => apply negb_True in H
  | H : Is_true (bool_decide _) |- _ => apply bool_decide_spec in H
  | H : ¬ Is_true (bool_decide _) |- _ => rewrite bool_decide_spec in H
  | H : Is_true (_ <=? _) |- _ => apply Is_true_true, N.leb_le in H
  | H : Is_true (_ <? _) |- _ => apply Is_true_true, N.ltb_lt in H
  | H : Is_true (_ =? _) |- _ => apply Is_true_true, N.eqb_eq in H
  | |- Is_true (_ && _) => apply andb_True; split
  end.

(** Invert a successful monadic computation in the result monad. *)
Ltac inv_ok :=
  repeat match goal with
  | H : _ ≫= _ = Ok _ |- _ => apply bind_Ok in H; destruct H as (? & ? & H)
  | H : _ <$> _ = Ok _ |- _ => apply fmap_Ok in H; destruct H as (? & ? & ?)
  | H : map_err _ _ = Ok _ |- _ => apply map_err_Ok in H
  | H : ok_or _ _ = Ok _ |- _ => apply ok_or_Ok in H
  | H : mret _ = Ok _ |- _ => injection H as H
  | H : Ok _ = Ok _ |- _ => injection H as H
  | H : Err _ = Ok _ |- _ => discriminate H
  end; simplify_eq.

(** ** More string lemmas *)

Lemma first_char_app p s t : first_char p s → first_char p (s +:+ t).
Proof. by destruct s. Qed.
Lemma all_first p s : all_chars p s → s ≠ "" → first_char p s.
Proof. destruct s; [done|]. unfold all_chars. cbn. intros H _. by bool_split. Qed.
Lemma all_chars_join p sep l :
  all_chars p sep → Forall (λ s, Is_true (all_chars p s)) l → all_chars p (join sep l).
Proof.
  intros Hsep Hl. induction Hl as [|s l Hs Hl IH]; [done|].
  destruct l; [done|]. cbn [join]. rewrite !all_chars_app. by bool_split.
Qed.
Lemma slen_pos s : 0 < slen s → s ≠ "".
Proof. by intros H ->. Qed.
Lemma is_empty_false s : ¬ is_empty s → s ≠ "".
Proof. by intros H ->. Qed.
Lemma forallb_Forall {A} (p : A → bool) l : forallb p l ↔ Forall (λ a, Is_true (p a)) l.
Proof. induction l; cbn; [done|]. by rewrite andb_True, Forall_cons, IHl. Qed.

(** ** List lemmas *)

Lemma filter_iff_in {A} (P Q : A → Prop) `{!∀ x, Decision (P x)} `{!∀ x, Decision (Q x)} (l : list A) :
  (∀ x, x ∈ l → P x ↔ Q x) → filter P l = filter Q l.
Proof.
  induction l as [|x l IH]; intros Hl; [done|]. rewrite !filter_cons.
  rewrite IH by (intros; apply Hl; by right).
  specialize (Hl x ltac:(left)). repeat case_decide; tauto.
Qed.

(** ** Whitespace

    [str::trim] and [split_whitespace] on the ASCII whitespace characters (the
    files the program trims are ASCII). *)
Definition is_ws (c : ascii) : bool := in_range 9 13 c || (code c =? 32).
(** [str::lines]: newline-terminated pieces, their [\r\n] or [\n] removed. *)
Fixpoint strip_cr (s : string) : string :=
  match s with
  | EmptyString => EmptyString
  | String c EmptyString => if code c =? 13 then EmptyString else s
  | String c r => String c (strip_cr r)
  end.
Fixpoint terminated (pieces : list string) : list string :=
  match pieces with
  | [] => []
  | [p] => if is_empty p then [] else [p]
  | p :: ps => strip_cr p :: terminated ps
  end.
Definition lines (s : string) : list string := terminated (split (ascii_of_N 10) s).
Definition split_whitespace (s : string) : list string := filter nonempty (split_by is_ws s).
Fixpoint trim_start (s : string) : string :=
  match s with
  | String c r => if is_ws c then trim_start r else s
  | EmptyString => EmptyString
  end.
Fixpoint trim_end (s : string) : string :=
  match s with
  | String c r =>
      let r' := trim_end r in
      if is_ws c && is_empty r' then EmptyString else String c r'
  | EmptyString => EmptyString
  end.
Definition trim (s : string) : string := trim_end (trim_start s).

Definition not_ws (c : ascii) : bool := negb (is_ws c).
Lemma trim_end_id s : all_chars not_ws s → trim_end s = s.
Proof.
  induction s as [|c s IH]; cbn; [done|]. unfold all_chars. cbn. intros H. bool_split.
  rewrite IH by done. unfold not_ws in *. by destruct (is_ws c).
Qed.
Lemma trim_start_id s : all_chars not_ws s → trim_start s = s.
Proof.
  destruct s as [|c s]; cbn; [done|]. unfold all_chars. cbn. intros H. bool_split.
  unfold not_ws in *. by destruct (is_ws c).
Qed.
Lemma trim_end_tail s t : all_chars not_ws t → t ≠ "" → trim_end (s +:+ t) = s +:+ t.
Proof.
  intros Ht Hne. induction s as [|c s IH]; cbn; [by apply trim_end_id|]. rewrite IH.
  destruct s; [by destruct t; [|rewrite andb_false_r]|cbn; by rewrite andb_false_r].
Qed.
(** A string without whitespace is its own trim. *)
Lemma trim_id s : all_chars not_ws s → trim s = s.
Proof. intros H. unfold trim. rewrite trim_start_id by done. by apply trim_end_id. Qed.

(** ** Lines and tokens *)

#[local] Open Scope list_scope.

Definition lf : ascii := ascii_of_N 10.
Lemma split_app_general c s t : split c (s +:+ String c t) = split c s ++ split c t.
Proof.
  induction s as [|a s IH]; cbn; [by rewrite Ascii.eqb_refl|]. rewrite IH.
  pose proof (split_nonempty c s). destruct (Ascii.eqb a c), (split c s); done.
Qed.
Lemma terminated_app l1 l2 : l2 ≠ [] → terminated (l1 ++ l2) = (strip_cr <$> l1) ++ terminated l2.
Proof.
  intros Hne. induction l1 as [|p l1 IH]; [done|]. cbn [app fmap list_fmap].
  destruct (l1 ++ l2) eqn:E; [by apply app_nil in E as [_ ?]|]. cbn. by rewrite <- IH.
Qed.
(** A newline cuts a text in two. *)
Lemma lines_app s t : lines (s +:+ String lf t) = (strip_cr <$> split lf s) ++ lines t.
Proof. unfold lines. fold lf. rewrite split_app_general. apply terminated_app, split_nonempty. Qed.

Definition visible (c : ascii) : bool := 32 <=? code c.
Lemma visible_no_lf s : all_chars visible s → lf ∉ chars s.
Proof. intros H. by eapply all_chars_absent. Qed.
Lemma visible_strip_cr s : all_chars visible s → strip_cr s = s.
Proof.
  induction s as [|c s IH]; [done|]. unfold all_chars. cbn. intros H. bool_split. rewrite IH by done.
  destruct s; [|done]. destruct (code c =? 13) eqn:E; [|done]. apply N.eqb_eq in E. unfold visible in *. by rewrite E in *.
Qed.
Lemma lines_cons s t : all_chars visible s → lines (s +:+ String lf t) = s :: lines t.
Proof.
  intros H. rewrite lines_app, split_absent by by apply visible_no_lf. cbn. by rewrite visible_strip_cr.
Qed.
Lemma lines_concat ls t :
  Forall (λ l, Is_true (all_chars visible l)) ls →
  lines (concat_s ((λ l, l +:+ chr 10) <$> ls) +:+ t) = ls ++ lines t.
Proof.
  induction 1 as [|l ls Hl _ IH]; [done|]. cbn [fmap list_fmap concat_s app]. rewrite !app_assoc_s.
  change (chr 10 +:+ ?x) with (String lf x). by rewrite lines_cons, IH.
Qed.

(** Whitespace at the end of a line does not matter to the parsers. *)
Lemma trim_end_strip_cr s : trim_end (strip_cr s) = trim_end s.
Proof.
  induction s as [|c s IH]; [done|]. destruct s as [|c' s].
  - cbn. destruct (code c =? 13) eqn:E; [|done]. apply N.eqb_eq in E.
    assert (is_ws c = true) as -> by (unfold is_ws, in_range; by rewrite E). done.
  - change (strip_cr (String c (String c' s))) with (String c (strip_cr (String c' s))).
    change (trim_end (String c ?x)) with (if is_ws c && is_empty (trim_end x) then "" else String c (trim_end x)).
    by rewrite IH.
Qed.
Lemma trim_strip_cr s : trim (strip_cr s) = trim s.
Proof.
  unfold trim. induction s as [|c s IH]; [done|]. destruct s as [|c' s].
  - cbn. destruct (code c =? 13) eqn:E; [|done]. apply N.eqb_eq in E.
    assert (is_ws c = true) as -> by (unfold is_ws, in_range; by rewrite E). done.
  - change (strip_cr (String c (String c' s))) with (String c (strip_cr (String c' s))).
    change (trim_start (String c ?x)) with (if is_ws c then trim_start x else String c x). destruct (is_ws c) eqn:E; [exact IH|].
    change (trim_end (String c ?x)) with (if is_ws c && is_empty (trim_end x) then "" else String c (trim_end x)).
    by rewrite trim_end_strip_cr.
Qed.

(** Tokens of a text: what [split_whitespace] sees. *)
Lemma split_by_cons p s : ∃ w ws, split_by p s = w :: ws.
Proof. induction s as [|c s (w & ws & IH)]; cbn; [eauto|]. rewrite IH. destruct (p c); eauto. Qed.
Lemma split_by_absent p s : all_chars (λ c, negb (p c)) s → split_by p s = [s].
Proof.
  induction s as [|c s IH]; [done|]. unfold all_chars. cbn. intros H. bool_split. rewrite IH by done.
  by destruct (p c).
Qed.
Lemma split_by_app p s c t :
  all_chars (λ c, negb (p c)) s → p c = true → split_by p (s +:+ String c t) = s :: split_by p t.
Proof.
  intros H Hc. induction s as [|a s IH]; cbn.
  - destruct (split_by_cons p t) as (w & ws & ->). by rewrite Hc.
  - unfold all_chars in H. cbn in H. bool_split. rewrite IH by done. by destruct (p a).
Qed.
Lemma split_whitespace_one s : all_chars not_ws s → s ≠ "" → split_whitespace s = [s].
Proof. intros H Hne. unfold split_whitespace. rewrite split_by_absent by done. by destruct s. Qed.
Lemma split_whitespace_cons s c t :
  all_chars not_ws s → s ≠ "" → is_ws c = true → split_whitespace (s +:+ String c t) = s :: split_whitespace t.
Proof. intros H Hne Hc. unfold split_whitespace. rewrite split_by_app by done. by destruct s. Qed.
Lemma split_whitespace_ws c s : is_ws c = true → split_whitespace (String c s) = split_whitespace s.
Proof. intros Hc. unfold split_whitespace. cbn. destruct (split_by_cons is_ws s) as (w & ws & ->). by rewrite Hc. Qed.
Lemma split_whitespace_trim_start s : split_whitespace (trim_start s) = split_whitespace s.
Proof.
  induction s as [|c s IH]; [done|]. cbn [trim_start]. destruct (is_ws c) eqn:E; [|done].
  by rewrite IH, split_whitespace_ws.
Qed.
(** Dropping the whitespace at the end keeps the first piece and drops only empty
    ones. *)
Lemma split_by_trim_end s :
  ∃ w ws ws', split_by is_ws s = w :: ws ∧ split_by is_ws (trim_end s) = w :: ws' ∧
    filter nonempty ws = filter nonempty ws'.
Proof.
  induction s as [|c s (w & ws & ws' & E & E' & H)]; [by exists "", [], []|]. cbn [split_by trim_end]. rewrite E.
  destruct (is_ws c) eqn:Hc; cbn [andb].
  - destruct (is_empty (trim_end s)) eqn:He.
    + destruct (trim_end s); [|done]. injection E' as <- <-. exists "", ("" :: ws), []. split_and!; [done|done|]. by cbn.
    + cbn [split_by]. rewrite E', Hc. eexists _, _, _. split_and!; [done|done|].
      rewrite !filter_cons. by destruct (decide _); rewrite H.
  - cbn [split_by]. rewrite E', Hc. by eexists _, _, _.
Qed.
Lemma split_whitespace_trim s : split_whitespace (trim s) = split_whitespace s.
Proof.
  unfold trim. rewrite <- (split_whitespace_trim_start s). unfold split_whitespace.
  destruct (split_by_trim_end (trim_start s)) as (w & ws & ws' & -> & -> & H). rewrite !filter_cons. by destruct (decide _); rewrite H.
Qed.
Lemma split_whitespace_strip_cr s : split_whitespace (strip_cr s) = split_whitespace s.
Proof. by rewrite <- split_whitespace_trim, trim_strip_cr, split_whitespace_trim. Qed.

(** ** Searching *)

Lemma find_Some_elem {A} (p : A → bool) l x : List.find p l = Some x → x ∈ l ∧ p x = true.
Proof. intros H%List.find_some. by rewrite list_elem_of_In. Qed.
Fixpoint contains (needle s : string) : bool :=
  starts_with needle s || match s with String _ r => contains needle r | EmptyString => false end.
Fixpoint rsplit_once (c : ascii) (s : string) : option (string * string) :=
  match s with
  | EmptyString => None
  | String x r =>
      match rsplit_once c r with
      | Some (a, b) => Some (String x a, b)
      | None => if Ascii.eqb x c then Some ("", r) else None
      end
  end.
Lemma rsplit_once_absent c s : c ∉ chars s → rsplit_once c s = None.
Proof.
  induction s as [|x s IH]; [done|]. cbn [chars list_ascii_of_string rsplit_once].
  intros [Hx Hs]%not_elem_of_cons. rewrite (IH Hs).
  by destruct (Ascii.eqb_spec x c) as [->|].
Qed.
Lemma rsplit_once_app c s t : c ∉ chars t → rsplit_once c (s +:+ String c t) = Some (s, t).
Proof.
  intros Ht. induction s as [|x s IH]; cbn [rsplit_once String.append].
  - by rewrite rsplit_once_absent, Ascii.eqb_refl.
  - by rewrite IH.
Qed.
