(* ===== verification/Ordered.v ===== *)
(** * Ordered collections: [Ord], [sort], [dedup], [BTreeMap], [BTreeSet]

    Every [Ord] the program relies on is lexicographic on a list of numbers
    (bytes of a string, octets or segments of an address, a derived tuple
    order), so the class [Ordered] maps a type to such a key. A [BTreeMap] is
    the association list in ascending key order it iterates as; a [BTreeSet] that
    is only compared or queried is a [gset]. *)
From Stdlib Require Import Ascii String Sorted.
From stdpp Require Import base option list strings gmap sorting.
From S2P Require Import Prelude.
#[local] Open Scope string_scope.
#[local] Open Scope N_scope.

(** ** Lexicographic comparison of keys *)

Fixpoint lex (a b : list N) : comparison :=
  match a, b with
  | [], [] => Eq
  | [], _ => Lt
  | _, [] => Gt
  | x :: a, y :: b => match N.compare x y with Eq => lex a b | c => c end
  end.

Lemma lex_eq a b : lex a b = Eq ↔ a = b.
Proof.
  revert b; induction a as [|x a IH]; intros [|y b]; cbn; [done..|].
  destruct (N.compare_spec x y) as [->|?|?]; [rewrite IH|..]; split; intros; simplify_eq; try done; lia.
Qed.
Lemma lex_antisym a b : lex b a = CompOpp (lex a b).
Proof.
  revert b; induction a as [|x a IH]; intros [|y b]; cbn; [done..|].
  rewrite (N.compare_antisym x y). destruct (N.compare x y); cbn; auto.
Qed.
Lemma lex_trans a b c : lex a b = Lt → lex b c = Lt → lex a c = Lt.
Proof.
  revert b c; induction a as [|x a IH]; intros [|y b] [|z c]; cbn; try done.
  destruct (N.compare_spec x y) as [->|?|?], (N.compare_spec y z) as [->|?|?]; try done;
    rewrite ?N.compare_refl; eauto; intros _ _;
    rewrite (proj2 (N.compare_lt_iff _ _)) by lia; done.
Qed.

(** ** The class of ordered types *)

Class Ordered (A : Type) := okey : A → list N.
Class OrderedLaw (A : Type) `{Ordered A} := okey_inj : ∀ a b : A, okey a = okey b → a = b.
#[export] Instance okey_Inj `{OrderedLaw A} : Inj (=) (=) (okey (A:=A)).
Proof. intros a b. apply okey_inj. Qed.

Definition ocmp `{Ordered A} (a b : A) : comparison := lex (okey a) (okey b).
Definition olt `{Ordered A} (a b : A) : Prop := ocmp a b = Lt.
Definition ole `{Ordered A} (a b : A) : Prop := ocmp a b ≠ Gt.
Definition oleb `{Ordered A} (a b : A) : bool :=
  match ocmp a b with Gt => false | _ => true end.

#[export] Instance string_Ordered : Ordered string := λ s, code <$> chars s.
#[export] Instance code_inj : Inj (=) (=) code.
Proof.
  intros c d H. rewrite <- (ascii_N_embedding c), <- (ascii_N_embedding d). by f_equal.
Qed.
#[export] Instance string_OrderedLaw : OrderedLaw string.
Proof.
  intros s t H. apply chars_inj. revert H. apply (inj (fmap code)).
Qed.
#[export] Instance uint_Ordered w : Ordered (uint w) := λ x, [raw x].
#[export] Instance uint_OrderedLaw w : OrderedLaw (uint w).
Proof. intros x y [= H]. by apply raw_inj. Qed.
#[export] Instance N_Ordered : Ordered N := λ n, [n].
#[export] Instance N_OrderedLaw : OrderedLaw N.
Proof. by intros x y [= H]. Qed.
#[export] Instance bool_Ordered : Ordered bool := λ b, [if b then 1 else 0].
#[export] Instance bool_OrderedLaw : OrderedLaw bool.
Proof. by intros [] []. Qed.

Section ordered.
Context `{OrderedLaw A}.
Implicit Types a b c : A.

Lemma ocmp_eq a b : ocmp a b = Eq ↔ a = b.
Proof. unfold ocmp. rewrite lex_eq. split; [apply okey_inj|by intros ->]. Qed.
Lemma ocmp_refl a : ocmp a a = Eq.
Proof. by apply ocmp_eq. Qed.
Lemma ocmp_antisym a b : ocmp b a = CompOpp (ocmp a b).
Proof. apply lex_antisym. Qed.
#[export] Instance olt_trans : Transitive (olt (A:=A)).
Proof. intros a b c. apply lex_trans. Qed.
#[export] Instance olt_irrefl : Irreflexive (olt (A:=A)).
Proof. intros a. unfold complement, olt. by rewrite ocmp_refl. Qed.
Lemma olt_ne a b : olt a b → a ≠ b.
Proof. intros Hlt ->. by apply (irreflexivity olt b). Qed.
Lemma ole_lteq a b : ole a b ↔ olt a b ∨ a = b.
Proof.
  unfold ole, olt. rewrite <- ocmp_eq. destruct (ocmp a b); naive_solver.
Qed.
Lemma oleb_spec a b : oleb a b ↔ ole a b.
Proof. unfold oleb, ole. destruct (ocmp a b); naive_solver. Qed.
Lemma oleb_false a b : oleb a b = false ↔ olt b a.
Proof.
  unfold oleb, olt. rewrite (ocmp_antisym a b). destruct (ocmp a b); naive_solver.
Qed.
#[export] Instance ole_trans : Transitive (ole (A:=A)).
Proof.
  intros a b c. rewrite !ole_lteq. intros [?| ->] [?| ->]; eauto. left. by etrans.
Qed.
End ordered.

(** ** [Vec::sort] and [Vec::dedup] *)

(** [sort_by(|a, b| f(a).cmp(&f(b)))]: a stable sort, here by insertion (an element
    goes before the elements with an equal key that follow it in the input). *)
Fixpoint insert_by {A} `{Ordered K} (f : A → K) (a : A) (l : list A) : list A :=
  match l with
  | [] => [a]
  | b :: l => if oleb (f a) (f b) then a :: b :: l else b :: insert_by f a l
  end.
Fixpoint sort_by {A} `{Ordered K} (f : A → K) (l : list A) : list A :=
  match l with [] => [] | a :: l => insert_by f a (sort_by f l) end.
Definition sort `{Ordered A} (l : list A) : list A := sort_by id l.
(** [Vec::dedup]: drops each element equal to its predecessor. *)
Fixpoint dedup `{EqDecision A} (l : list A) : list A :=
  match l with
  | a :: (b :: _) as r => if decide (a = b) then dedup r else a :: dedup r
  | _ => l
  end.

Section sort_by.
Context {A : Type} `{OrderedLaw K} (f : A → K).
Implicit Types (a b : A) (l : list A).

Lemma insert_by_perm a l : insert_by f a l ≡ₚ a :: l.
Proof.
  induction l as [|b l IH]; cbn; [done|]. destruct (oleb (f a) (f b)); [done|].
  rewrite IH. apply Permutation_swap.
Qed.
Lemma sort_by_perm l : sort_by f l ≡ₚ l.
Proof. induction l; cbn; [done|]. rewrite insert_by_perm. by f_equiv. Qed.
Definition le_by a b : Prop := ole (f a) (f b).
Lemma insert_by_sorted a l :
  StronglySorted le_by l → StronglySorted le_by (insert_by f a l).
Proof.
  induction 1 as [|b l Hl IH Hb]; cbn; [repeat constructor|].
  destruct (oleb (f a) (f b)) eqn:Hab.
  - assert (Hle : le_by a b) by (by apply oleb_spec, Is_true_true).
    repeat constructor; try done. eapply Forall_impl; [done|].
    cbn. intros c Hc. unfold le_by in *. by etrans.
  - constructor; [done|]. rewrite insert_by_perm. constructor; [|done].
    apply oleb_false in Hab. apply ole_lteq. by left.
Qed.
Lemma sort_by_sorted l : StronglySorted le_by (sort_by f l).
Proof. induction l; cbn; [constructor|by apply insert_by_sorted]. Qed.
(** Sorting is idempotent: a sorted list is its own sort. *)
Lemma sort_by_id l : StronglySorted le_by l → sort_by f l = l.
Proof.
  induction 1 as [|a l Hl IH Ha]; cbn; [done|]. rewrite IH.
  destruct Ha as [|b l Hab]; cbn; [done|].
  assert (Hb : oleb (f a) (f b) = true) by (by apply Is_true_true, oleb_spec).
  by rewrite Hb.
Qed.
End sort_by.

Section sorting.
Context `{OrderedLaw A} `{EqDecision A}.
Implicit Types (a b : A) (l : list A).

Lemma sort_perm l : sort l ≡ₚ l.
Proof. apply sort_by_perm. Qed.
Lemma sort_sorted l : StronglySorted ole (sort l).
Proof. apply (sort_by_sorted id). Qed.

Lemma elem_of_dedup a l : a ∈ dedup l ↔ a ∈ l.
Proof.
  induction l as [|b [|c l] IH]; [done..|].
  change (dedup (b :: c :: l)) with
    (if decide (b = c) then dedup (c :: l) else b :: dedup (c :: l)).
  case_decide; subst; rewrite ?elem_of_cons, IH; rewrite ?elem_of_cons; tauto.
Qed.
(** A sorted list without repetitions is strictly ascending. *)
Lemma dedup_sorted l : StronglySorted ole l → StronglySorted olt (dedup l).
Proof.
  induction 1 as [|b l Hl IH Hb]; [constructor|]. destruct l as [|c l]; [repeat constructor|].
  change (dedup (b :: c :: l)) with
    (if decide (b = c) then dedup (c :: l) else b :: dedup (c :: l)).
  case_decide as Hbc; [done|]. constructor; [done|].
  apply Forall_forall. intros x Hx. rewrite elem_of_dedup in Hx.
  apply Forall_cons in Hb as [Hbc' _]. apply ole_lteq in Hbc' as [Hlt|]; [|done].
  apply StronglySorted_inv in Hl as [_ Hc].
  apply elem_of_cons in Hx as [->|Hx]; [done|].
  rewrite Forall_forall in Hc. apply Hc, ole_lteq in Hx as [?|<-]; [by etrans|done].
Qed.
Lemma StronglySorted_olt_NoDup l : StronglySorted olt l → NoDup l.
Proof.
  induction 1 as [|a l Hl IH Ha]; constructor; [|done].
  rewrite Forall_forall in Ha. intros Hin. by apply (irreflexivity olt a), Ha.
Qed.
Lemma NoDup_sort_dedup l : NoDup (dedup (sort l)).
Proof. apply StronglySorted_olt_NoDup, dedup_sorted, sort_sorted. Qed.
Lemma elem_of_sort_dedup a l : a ∈ dedup (sort l) ↔ a ∈ l.
Proof. rewrite elem_of_dedup. by rewrite sort_perm. Qed.
End sorting.

Lemma StronglySorted_snoc {A} (R : relation A) l x :
  StronglySorted R l → Forall (λ y, R y x) l → StronglySorted R (l ++ [x]).
Proof.
  induction 1 as [|y l Hl IH Hy]; intros Hx; cbn; [repeat constructor|].
  apply Forall_cons in Hx as [Hyx Hx]. constructor; [auto|].
  apply Forall_app. by split; [|constructor].
Qed.
Lemma StronglySorted_reverse {A} (R : relation A) l :
  StronglySorted R l → StronglySorted (flip R) (reverse l).
Proof.
  induction 1 as [|x l Hl IH Hx]; [constructor|]. rewrite reverse_cons.
  apply StronglySorted_snoc; [done|]. by rewrite Forall_reverse.
Qed.

(** ** [BTreeMap] as its ascending association list *)

Definition btmap (K V : Type) : Type := list (K * V).
(** [*m.entry(k).or_default() = f (that)], in place or at its sorted position. *)
Fixpoint bt_alter `{Ordered K} {V} (k : K) (f : option V → V) (m : btmap K V) : btmap K V :=
  match m with
  | [] => [(k, f None)]
  | (k', v) :: m' =>
      match ocmp k k' with
      | Lt => (k, f None) :: m
      | Eq => (k', f (Some v)) :: m'
      | Gt => (k', v) :: bt_alter k f m'
      end
  end.
Fixpoint bt_lookup `{Ordered K} {V} (k : K) (m : btmap K V) : option V :=
  match m with
  | [] => None
  | (k', v) :: m' =>
      match ocmp k k' with Eq => Some v | _ => bt_lookup k m' end
  end.
Definition bt_wf `{Ordered K} {V} (m : btmap K V) : Prop := StronglySorted olt m.*1.

Section btmap.
Context `{OrderedLaw K} {V : Type}.
Implicit Types (k : K) (m : btmap K V) (f : option V → V).

Lemma bt_alter_keys k f m k' : k' ∈ (bt_alter k f m).*1 ↔ k' = k ∨ k' ∈ m.*1.
Proof.
  induction m as [|[k1 v] m IH]; cbn; [set_solver|].
  destruct (ocmp k k1) eqn:Hc; cbn; rewrite !elem_of_cons; [|tauto|rewrite IH; tauto].
  apply ocmp_eq in Hc as ->. tauto.
Qed.
Lemma bt_alter_wf k f m : bt_wf m → bt_wf (bt_alter k f m).
Proof.
  unfold bt_wf. induction m as [|[k1 v] m IH]; cbn; intros Hm; [repeat constructor|].
  apply StronglySorted_inv in Hm as [Hm Hk1].
  destruct (ocmp k k1) eqn:Hc; cbn.
  - by constructor.
  - constructor; [by constructor|]. constructor; [done|].
    eapply Forall_impl; [done|]. cbn. intros k2 Hk2. by transitivity k1.
  - constructor; [auto|]. apply Forall_forall. intros k2 [->|Hk2]%bt_alter_keys.
    + unfold olt. by rewrite ocmp_antisym, Hc.
    + by rewrite Forall_forall in Hk1; apply Hk1.
Qed.
Lemma bt_lookup_alter k f m : bt_wf m → bt_lookup k (bt_alter k f m) = Some (f (bt_lookup k m)).
Proof.
  unfold bt_wf. induction m as [|[k1 v] m IH]; cbn; intros Hm; [by rewrite ocmp_refl|].
  apply StronglySorted_inv in Hm as [Hm Hk1].
  destruct (ocmp k k1) eqn:Hc; cbn.
  - by rewrite Hc.
  - rewrite ocmp_refl. f_equal. f_equal. symmetry.
    clear IH. induction m as [|[k2 v2] m IH]; cbn in *; [done|].
    apply Forall_cons in Hk1 as [Hk12 Hk1]. apply StronglySorted_inv in Hm as [Hm _].
    assert (olt k k2) as Hlt by (by transitivity k1).
    unfold olt in Hlt. rewrite Hlt. auto.
  - rewrite Hc. auto.
Qed.
Lemma bt_lookup_alter_ne k k' f m : k' ≠ k → bt_lookup k' (bt_alter k f m) = bt_lookup k' m.
Proof.
  intros Hne. induction m as [|[k1 v] m IH]; cbn.
  - destruct (ocmp k' k) eqn:Hc; [by apply ocmp_eq in Hc|done..].
  - destruct (ocmp k k1) eqn:Hc; cbn; [| |by rewrite IH].
    { apply ocmp_eq in Hc as ->.
      destruct (ocmp k' k1) eqn:Hc'; [by apply ocmp_eq in Hc'|done..]. }
    destruct (ocmp k' k) eqn:Hc'; [by apply ocmp_eq in Hc'|done..].
Qed.
Lemma bt_wf_NoDup m : bt_wf m → NoDup m.*1.
Proof. apply StronglySorted_olt_NoDup. Qed.
Lemma bt_elem_lookup k v m : bt_wf m → (k, v) ∈ m ↔ bt_lookup k m = Some v.
Proof.
  unfold bt_wf. induction m as [|[k1 v1] m IH]; cbn; intros Hm; [set_solver|].
  apply StronglySorted_inv in Hm as [Hm Hk1]. rewrite elem_of_cons.
  destruct (ocmp k k1) eqn:Hc.
  - apply ocmp_eq in Hc as ->. split; [|intros; left; congruence].
    intros [|Hin]; [congruence|]. exfalso. rewrite Forall_forall in Hk1.
    apply (irreflexivity olt k1), Hk1, (list_elem_of_fmap_2' fst _ _ _ Hin eq_refl).
  - rewrite <- IH by done. split; [|tauto]. intros [|]; [|done].
    simplify_eq. by rewrite ocmp_refl in Hc.
  - rewrite <- IH by done. split; [|tauto]. intros [|]; [|done].
    simplify_eq. by rewrite ocmp_refl in Hc.
Qed.
End btmap.
