(* ===== verification/Validate.v ===== *)
(** * The string validators (greendot-proto/src/validate.rs)

    One boolean function per validator. The theorems say what an accepted
    string can never be: a path-traversal component, an option flag, a string
    holding an exports-file delimiter, or, for a CSI NQN, a name reconcile
    would take for one of its own. *)
From Stdlib Require Import Ascii String.
From stdpp Require Import base option list strings sets.
From S2P Require Import Prelude.
#[local] Open Scope string_scope.
#[local] Open Scope N_scope.

(** ** Prefix constants of types.rs used by the validators *)

Definition OUR_NQN_PREFIX : string := "nqn.2026-06.io.greendot:".
Definition OUR_IQN_PREFIX : string := "iqn.2026-06.io.greendot:".
Definition CSI_NQN_PREFIX : string := "nqn.2026-06.io.greendot.csi:".

(** ** The validators *)

Definition component_char (c : ascii) : bool :=
  is_ascii_alphanumeric c || char_in "_.:-" c.
Definition component (s : string) : bool :=
  first_char is_ascii_alphanumeric s && all_chars component_char s.

Definition dataset_name (s : string) : bool :=
  negb (is_empty s) && (slen s <=? 255) && forallb component (split "/" s).

Definition snap_name (s : string) : bool :=
  (slen s <=? 255) && component s.

Definition lvm_char (c : ascii) : bool :=
  is_ascii_alphanumeric c || char_in "+_.-" c.
Definition lvm_name (s : string) : bool :=
  negb (is_empty s) && (slen s <=? 127)
  && negb (bool_decide (s = ".")) && negb (bool_decide (s = ".."))
  && negb (starts_with "-" s)
  && all_chars lvm_char s.

Definition nqn (s : string) : bool :=
  (slen s <=? 223)
  && match strip_prefix "nqn." s with
     | Some rest => negb (is_empty rest) && all_chars component_char rest
     | None => false
     end.

Definition csi_nqn (s : string) : bool :=
  nqn s
  && match strip_prefix CSI_NQN_PREFIX s with
     | Some rest => negb (is_empty rest)
     | None => false
     end.

Definition lower_hex_char (c : ascii) : bool :=
  is_ascii_digit c || in_range 97 102 c.
Definition lower_hex (p : string) (len : N) : bool :=
  (slen p =? len) && all_chars lower_hex_char p.

(** The iterator [parts] is consumed by the [all] over the widths, then must be
    exhausted. *)
Fixpoint consume_parts (widths : list N) (parts : list string) : bool :=
  match widths with
  | [] => match parts with [] => true | _ => false end
  | w :: widths =>
      match parts with
      | p :: parts => lower_hex p w && consume_parts widths parts
      | [] => false
      end
  end.
Definition ns_uuid (s : string) : bool :=
  consume_parts [8; 4; 4; 4; 12] (split "-" s).

Definition iqn_char (c : ascii) : bool :=
  is_ascii_lowercase c || is_ascii_digit c || char_in ".:-" c.
Definition iqn (s : string) : bool :=
  (slen s <=? 223)
  && match strip_prefix "iqn." s with
     | Some rest => negb (is_empty rest) && all_chars iqn_char rest
     | None => false
     end.

Definition block_dev (s : string) : bool :=
  negb (is_empty s) && (slen s <=? 32)
  && first_char is_ascii_lowercase s
  && all_chars (λ c, is_ascii_lowercase c || is_ascii_digit c) s.

Definition device_path (s : string) : bool :=
  match strip_prefix "/dev/" s with
  | None => false
  | Some rest =>
      match strip_prefix "zvol/" rest with
      | Some dataset => dataset_name dataset
      | None =>
          match split_once "/" rest with
          | Some (vg, lv) => lvm_name vg && lvm_name lv
          | None => block_dev rest
          end
      end
  end.

Definition RESERVED_VDEV_KEYWORDS : list string :=
  ["mirror"; "raidz"; "raidz1"; "raidz2"; "raidz3";
   "draid"; "draid1"; "draid2"; "draid3";
   "spare"; "log"; "logs"; "cache"; "dedup"; "special"; "replacing"].

Definition pool_name (s : string) : bool :=
  negb (is_empty s) && (slen s <=? 255)
  && first_char is_ascii_alphabetic s
  && all_chars component_char s
  && negb (existsb (λ k, eq_ignore_ascii_case k s) RESERVED_VDEV_KEYWORDS).

Definition vdev_target (s : string) : bool :=
  device_path s
  || match split_once "-" s with
     | Some (kw, idx) =>
         bool_decide (kw ∈ RESERVED_VDEV_KEYWORDS)
         && negb (is_empty idx) && all_chars is_ascii_digit idx
     | None => false
     end.

Definition nfs_path_char (c : ascii) : bool :=
  is_ascii_alphanumeric c || char_in "_-." c.
Definition nfs_path_component (c : string) : bool :=
  negb (is_empty c) && negb (bool_decide (c = ".")) && negb (bool_decide (c = ".."))
  && all_chars nfs_path_char c.
Definition nfs_export_path (s : string) : bool :=
  (slen s <=? 4096) && negb (bool_decide (s = "/")) && negb (ends_with_char "/" s)
  && match strip_prefix "/" s with
     | Some rest => forallb nfs_path_component (split "/" rest)
     | None => false
     end.

Definition nfs_client_char (c : ascii) : bool :=
  is_ascii_alphanumeric c || char_in ".:-/_*" c.
Definition nfs_client (s : string) : bool :=
  negb (is_empty s) && (slen s <=? 128) && negb (starts_with "-" s)
  && all_chars nfs_client_char s.

Definition dash_char (c : ascii) : bool :=
  is_ascii_alphanumeric c || char_in "_.-" c.
Definition netdev (s : string) : bool :=
  (1 <=? slen s) && (slen s <=? 15)
  && negb (bool_decide (s = ".")) && negb (bool_decide (s = ".."))
  && all_chars dash_char s.

Definition pci_address (s : string) : bool :=
  match split_once "." s with
  | None => false
  | Some (bdf, func) =>
      match split ":" bdf with
      | [domain; bus; dev] =>
          lower_hex domain 4 && lower_hex bus 2 && lower_hex dev 2
          && (slen func =? 1) && all_chars (in_range 48 55) func
      | _ => false
      end
  end.

Definition backstore_name (s : string) : bool := (slen s <=? 63) && component s.

Definition part_label (s : string) : bool :=
  (1 <=? slen s) && (slen s <=? 36) && component s.

Definition export_first (c : ascii) : bool := is_ascii_lowercase c || is_ascii_digit c.
Definition export_name (s : string) : bool :=
  (slen s <=? 64) && first_char export_first s
  && all_chars (λ c, export_first c || char_in "-." c) s.

Definition package_name (s : string) : bool :=
  (2 <=? slen s) && (slen s <=? 100) && first_char export_first s
  && all_chars (λ c, export_first c || char_in "+-." c) s.

Definition ssh_fingerprint (s : string) : bool :=
  (slen s <=? 128)
  && match strip_prefix "SHA256:" s with
     | Some digest =>
         negb (is_empty digest)
         && all_chars (λ c, is_ascii_alphanumeric c || char_in "+/" c) digest
     | None => false
     end.

Definition username (s : string) : bool :=
  (slen s <=? 32)
  && first_char (λ c, is_ascii_alphabetic c || Ascii.eqb c "_") s
  && all_chars dash_char s.

(** ** What an accepted string can be *)

(** The characters any validator lets through: no whitespace, no control
    character, no quote, no shell or exports-file metacharacter. *)
Definition plain_char (c : ascii) : bool :=
  is_ascii_alphanumeric c || char_in "_.:+-*/" c.
(** The same without the star, which only the specification of an NFS client admits. *)
Definition word_char (c : ascii) : bool :=
  is_ascii_alphanumeric c || char_in "_.:+-/" c.
(** A string that is one path component: a directory entry other than [.]
    and [..], so that joining it to a directory stays directly below it. *)
Definition path_component (s : string) : Prop :=
  s ≠ "" ∧ s ≠ "." ∧ s ≠ ".." ∧ ("/"%char : ascii) ∉ chars s.
(** Not an option flag when passed as an argument of a command. *)
Definition not_flag (s : string) : Prop := ¬ starts_with "-" s.

Lemma all_chars_no_slash p s :
  all_chars p s → class_incl p (λ c, negb (Ascii.eqb c "/")) = true →
  ("/"%char : ascii) ∉ chars s.
Proof.
  intros Hs Hp. apply (all_chars_not_in (λ c, negb (Ascii.eqb c "/"))); [|exact id].
  by apply (all_chars_incl p).
Qed.
Lemma first_char_path_component p q s :
  first_char p s → all_chars q s →
  class_incl p (λ c, negb (Ascii.eqb c ".")) = true →
  class_incl q (λ c, negb (Ascii.eqb c "/")) = true → path_component s.
Proof.
  intros Hf Hs Hp Hq. split_and!.
  - by intros ->.
  - intros ->. by apply (class_incl_sound _ _ _ Hp) in Hf.
  - intros ->. by apply (class_incl_sound _ _ _ Hp) in Hf.
  - by apply (all_chars_no_slash q).
Qed.
Lemma first_char_not_flag p s :
  first_char p s → class_incl p (λ c, negb (Ascii.eqb c "-")) = true → not_flag s.
Proof.
  intros Hf Hp [r ->]%starts_with_spec. cbn in Hf.
  by apply (class_incl_sound _ _ _ Hp) in Hf.
Qed.
Lemma prefixed_path_component a b p r :
  a ≠ "."%char → ("/"%char : ascii) ∉ chars (String a (String b p)) →
  ("/"%char : ascii) ∉ chars r → path_component (String a (String b p) +:+ r).
Proof.
  intros Ha Hp Hr. split_and!; [done|cbn; congruence|cbn; congruence|].
  rewrite chars_app, elem_of_app. tauto.
Qed.

Lemma component_path s : component s → path_component s.
Proof.
  intros H. unfold component in H. bool_split. by eapply first_char_path_component.
Qed.
Lemma component_not_flag s : component s → not_flag s.
Proof. intros H. unfold component in H. bool_split. by eapply first_char_not_flag. Qed.
Lemma component_word s : component s → all_chars word_char s.
Proof. intros H. unfold component in H. bool_split. by eapply all_chars_incl. Qed.
Lemma lvm_name_path s : lvm_name s → path_component s.
Proof.
  intros H. unfold lvm_name in H. bool_split. split_and!; try done.
  - by intros ->.
  - by eapply all_chars_no_slash.
Qed.
Lemma lvm_name_word s : lvm_name s → all_chars word_char s.
Proof. intros H. unfold lvm_name in H. bool_split. by eapply all_chars_incl. Qed.
Lemma nqn_shape s :
  nqn s → ∃ r, s = "nqn." +:+ r ∧ r ≠ "" ∧ all_chars component_char r.
Proof.
  unfold nqn. intros H. bool_split. destruct (strip_prefix _ s) as [r|] eqn:Hr; [|done].
  apply strip_prefix_Some in Hr as ->. bool_split. exists r. split_and!; try done.
  by intros ->.
Qed.
Lemma iqn_shape s :
  iqn s → ∃ r, s = "iqn." +:+ r ∧ r ≠ "" ∧ all_chars iqn_char r.
Proof.
  unfold iqn. intros H. bool_split. destruct (strip_prefix _ s) as [r|] eqn:Hr; [|done].
  apply strip_prefix_Some in Hr as ->. bool_split. exists r. split_and!; try done.
  by intros ->.
Qed.
Lemma nqn_path s : nqn s → path_component s.
Proof.
  intros (r & -> & Hne & Hr)%nqn_shape.
  apply (prefixed_path_component "n" "q" "n."); [done|cbn; set_solver|].
  by eapply all_chars_no_slash.
Qed.
Lemma iqn_path s : iqn s → path_component s.
Proof.
  intros (r & -> & Hne & Hr)%iqn_shape.
  apply (prefixed_path_component "i" "q" "n."); [done|cbn; set_solver|].
  by eapply all_chars_no_slash.
Qed.
Lemma csi_nqn_nqn s : csi_nqn s → nqn s.
Proof. unfold csi_nqn. intros H. by bool_split. Qed.
Lemma csi_nqn_prefix s : csi_nqn s → starts_with CSI_NQN_PREFIX s.
Proof.
  unfold csi_nqn, starts_with. intros H. bool_split. by destruct (strip_prefix _ s).
Qed.
(** The two prefixes diverge, so no string has both. *)
Lemma prefixes_disjoint s : starts_with CSI_NQN_PREFIX s → ¬ starts_with OUR_NQN_PREFIX s.
Proof. intros [r ->]%starts_with_spec [r' H]%starts_with_spec. discriminate H. Qed.

Lemma dataset_name_components s :
  dataset_name s → Forall (λ c, Is_true (component c)) (split "/" s).
Proof.
  unfold dataset_name. intros H. bool_split.
  apply Forall_forall. intros c Hc%list_elem_of_In.
  apply Is_true_true. by eapply forallb_forall; [apply Is_true_true|].
Qed.

(** ** Whole paths *)

(** The components of a relative or absolute path. *)
Definition path_parts (s : string) : list string :=
  split "/" (default s (strip_prefix "/" s)).

Lemma path_parts_component s : path_component s → path_parts s = [s].
Proof.
  intros (Hne & _ & _ & Hs). unfold path_parts.
  destruct (strip_prefix "/" s) as [r|] eqn:Hr; cbn.
  - apply strip_prefix_Some in Hr as ->. exfalso. apply Hs. cbn. left.
  - by apply split_absent.
Qed.
Lemma path_parts_abs s : path_parts (String "/" s) = split "/" s.
Proof. done. Qed.
Lemma path_components_ok s :
  path_component s → Forall path_component (path_parts s).
Proof. intros H. rewrite path_parts_component by done. by constructor. Qed.

Lemma dataset_name_path s : dataset_name s → Forall path_component (split "/" s).
Proof.
  intros H%dataset_name_components. eapply Forall_impl; [done|]. apply component_path.
Qed.
Lemma dataset_name_first s : dataset_name s → first_char is_ascii_alphanumeric s.
Proof.
  intros H%dataset_name_components. rewrite <- (join_split "/" s).
  pose proof (split_nonempty "/" s). destruct (split "/" s) as [|c l]; [done|].
  apply Forall_cons in H as [Hc _]. unfold component in Hc. bool_split.
  destruct l; [done|]. by apply first_char_app.
Qed.
Lemma dataset_name_word s : dataset_name s → all_chars word_char s.
Proof.
  intros H%dataset_name_components. rewrite <- (join_split "/" s).
  apply all_chars_join; [done|]. eapply Forall_impl; [done|]. apply component_word.
Qed.
Lemma dataset_name_parts s : dataset_name s → Forall path_component (path_parts s).
Proof.
  intros H. unfold path_parts. destruct (strip_prefix "/" s) as [r|] eqn:Hr; cbn.
  - apply strip_prefix_Some in Hr as ->. by apply dataset_name_first in H.
  - by apply dataset_name_path.
Qed.
Lemma block_dev_path s : block_dev s → path_component s.
Proof.
  intros H. unfold block_dev in H. bool_split. by eapply first_char_path_component.
Qed.
Lemma block_dev_word s : block_dev s → all_chars word_char s.
Proof. intros H. unfold block_dev in H. bool_split. by eapply all_chars_incl. Qed.

(** A device path is [/dev/] followed by real components only: a zvol below
    [zvol/], the two names of a logical volume, or one device name. *)
Lemma device_path_shape s :
  device_path s → ∃ r, s = "/dev/" +:+ r ∧
    Forall path_component (split "/" r) ∧ all_chars word_char r.
Proof.
  unfold device_path. destruct (strip_prefix "/dev/" s) as [r|] eqn:Hr; [|done].
  apply strip_prefix_Some in Hr as ->. intros H. exists r. split; [done|].
  destruct (strip_prefix "zvol/" r) as [ds|] eqn:Hz.
  - apply strip_prefix_Some in Hz as ->.
    change ("zvol/" +:+ ds) with ("zvol" +:+ String "/" ds).
    rewrite split_app by (cbn; set_solver). split.
    + constructor; [|by apply dataset_name_path]. apply block_dev_path. by vm_compute.
    + rewrite all_chars_app. unfold all_chars at 2. cbn [chars list_ascii_of_string forallb].
      bool_split; try done. by apply dataset_name_word.
  - destruct (split_once "/" r) as [[vg lv]|] eqn:Ho.
    + apply split_once_Some in Ho as [-> Hvg]. bool_split.
      pose proof (lvm_name_path vg ltac:(done)) as Pvg.
      pose proof (lvm_name_path lv ltac:(done)) as Plv.
      rewrite split_app by done. rewrite split_absent by apply Plv.
      split; [by rewrite !Forall_cons, Forall_nil|].
      rewrite all_chars_app. unfold all_chars at 2. cbn [chars list_ascii_of_string forallb].
      bool_split; try done; by apply lvm_name_word.
    + apply split_once_None in Ho. rewrite split_absent by done.
      split; [constructor; [by apply block_dev_path|constructor]|by apply block_dev_word].
Qed.
Lemma device_path_parts s : device_path s → Forall path_component (path_parts s).
Proof.
  intros (r & -> & Hr & _)%device_path_shape.
  change ("/dev/" +:+ r) with (String "/" ("dev" +:+ String "/" r)).
  rewrite path_parts_abs, split_app by (cbn; set_solver). constructor; [|done].
  apply block_dev_path. by vm_compute.
Qed.
Lemma nfs_path_component_ok c : nfs_path_component c → path_component c.
Proof.
  unfold nfs_path_component. intros H. bool_split. split_and!; try done.
  - by apply is_empty_false.
  - by eapply all_chars_no_slash.
Qed.
Lemma nfs_export_path_shape s :
  nfs_export_path s → ∃ r, s = String "/" r ∧
    Forall (λ c, Is_true (nfs_path_component c)) (split "/" r).
Proof.
  unfold nfs_export_path. intros H. bool_split.
  destruct (strip_prefix "/" s) as [r|] eqn:Hr; [|done].
  apply strip_prefix_Some in Hr as ->. exists r. split; [done|]. by apply forallb_Forall.
Qed.
Lemma nfs_export_path_plain s :
  nfs_export_path s → all_chars (λ c, nfs_path_char c || Ascii.eqb c "/") s.
Proof.
  intros (r & -> & H)%nfs_export_path_shape. unfold all_chars at 1. cbn.
  rewrite <- (join_split "/" r). apply (all_chars_join _ "/"); [done|].
  eapply Forall_impl; [done|]. cbn. intros c Hc. unfold nfs_path_component in Hc. bool_split.
  by eapply all_chars_incl.
Qed.
Lemma nfs_export_path_parts s : nfs_export_path s → Forall path_component (path_parts s).
Proof.
  intros (r & -> & H)%nfs_export_path_shape. rewrite path_parts_abs.
  eapply Forall_impl; [done|]. apply nfs_path_component_ok.
Qed.

(** ** Fixed-width identifiers *)

Lemma consume_parts_spec ws ps :
  consume_parts ws ps ↔ Forall2 (λ w p, Is_true (lower_hex p w)) ws ps.
Proof.
  revert ps; induction ws as [|w ws IH]; intros [|p ps]; cbn;
    try (split; [done|intros H; by inversion H]).
  rewrite andb_True, IH. by rewrite Forall2_cons.
Qed.
Lemma lower_hex_spec p n :
  lower_hex p n → slen p = n ∧ all_chars lower_hex_char p.
Proof. unfold lower_hex. intros H. by bool_split. Qed.
Lemma lower_hex_first p n : lower_hex p n → 0 < n → first_char lower_hex_char p.
Proof. intros [<- Hp]%lower_hex_spec Hn. apply all_first; [done|by apply slen_pos]. Qed.

(** Exactly 36 characters: 32 lowercase hex digits and the four dashes. *)
Lemma ns_uuid_shape s :
  ns_uuid s → slen s = 36 ∧ first_char lower_hex_char s ∧
    all_chars (λ c, lower_hex_char c || Ascii.eqb c "-") s.
Proof.
  unfold ns_uuid. rewrite consume_parts_spec. intros H.
  rewrite <- (join_split "-" s).
  remember (split "-" s) as l eqn:Hl. clear Hl s.
  assert (Hall : Forall (λ p, Is_true (all_chars (λ c, lower_hex_char c || Ascii.eqb c "-") p)) l).
  { clear -H. revert H. generalize [8;4;4;4;12]. intros ws. induction 1; constructor; [|done].
    destruct (lower_hex_spec _ _ H) as [_ ?]. by eapply all_chars_incl. }
  do 5 (apply Forall2_cons_inv_l in H as (? & ? & ? & H & ->)).
  apply Forall2_nil_inv_l in H as ->. split_and!.
  - cbn [join]. rewrite !slen_app.
    repeat match goal with H : Is_true (lower_hex _ _) |- _ =>
      apply lower_hex_spec in H as [-> _] end. done.
  - cbn [join]. apply first_char_app. by eapply lower_hex_first.
  - by apply (all_chars_join _ "-").
Qed.
(** Exactly 12 characters, [dddd:bb:dd.f]. *)
Lemma pci_address_shape s :
  pci_address s → slen s = 12 ∧ first_char lower_hex_char s ∧
    all_chars (λ c, lower_hex_char c || char_in ":." c) s.
Proof.
  unfold pci_address. destruct (split_once "." s) as [[bdf func]|] eqn:Ho; [|done].
  apply split_once_Some in Ho as [-> _].
  destruct (split ":" bdf) as [|d [|b [|v [|]]]] eqn:Hs; try done. intros H. bool_split.
  rewrite <- (join_split ":" bdf), Hs.
  repeat match goal with H : Is_true (lower_hex _ _) |- _ =>
    pose proof (lower_hex_spec _ _ H) as [? ?]; apply lower_hex_first in H; [|done] end.
  split_and!.
  - cbn [join]. change (String "." func) with ("." +:+ func). rewrite !slen_app. cbn -[slen].
    change (slen ":") with 1. change (slen ".") with 1. lia.
  - cbn [join]. rewrite !app_assoc_s. by apply first_char_app.
  - rewrite all_chars_app. bool_split.
    + apply all_chars_join; [done|]. rewrite !Forall_cons, Forall_nil.
      split_and!; try done; by eapply all_chars_incl.
    + change (String "." func) with ("." +:+ func). rewrite all_chars_app. bool_split; [done|].
      by eapply all_chars_incl.
Qed.

(** ** Derived names *)

(** A validated export name always forms a valid NQN, IQN and backstore name, so
    the [expect] in [NvmeExport::nqn] and [IscsiExport::iqn] cannot panic on it. *)
Lemma export_name_forms s :
  export_name s →
  nqn (OUR_NQN_PREFIX +:+ s) ∧ iqn (OUR_IQN_PREFIX +:+ s) ∧
  (slen s <= 63 → backstore_name s).
Proof.
  unfold export_name. intros H. bool_split. split_and!.
  - unfold nqn. rewrite slen_app. bool_split.
    + apply Is_true_true, N.leb_le. change (slen OUR_NQN_PREFIX) with 24. lia.
    + cbn [OUR_NQN_PREFIX strip_prefix String.append Ascii.eqb Bool.eqb].
      bool_split; [done|]. unfold all_chars. cbn -[component_char chars].
      repeat (apply andb_True; split; [done|]). by eapply all_chars_incl.
  - unfold iqn. rewrite slen_app. bool_split.
    + apply Is_true_true, N.leb_le. change (slen OUR_IQN_PREFIX) with 24. lia.
    + cbn [OUR_IQN_PREFIX strip_prefix String.append Ascii.eqb Bool.eqb].
      bool_split; [done|]. unfold all_chars. cbn -[iqn_char chars].
      repeat (apply andb_True; split; [done|]). by eapply all_chars_incl.
  - intros Hl. unfold backstore_name, component. bool_split.
    + by apply Is_true_true, N.leb_le.
    + by eapply first_char_incl.
    + by eapply all_chars_incl.
Qed.
