(* ===== verification/IpAddr.v ===== *)
(** * [std::net::IpAddr]: order, [Display] and [FromStr]

    The addresses an export listens on travel as text (configfs attributes, the
    wire, the config file), so the standard library's printer and parser are
    modelled as written: the IPv6 printer compresses the first longest run of at
    least two zero groups and prints IPv4-mapped addresses as [::ffff:a.b.c.d];
    the parser is the backtracking reader of [std::net::parser]. *)
From Stdlib Require Import Ascii String.
From stdpp Require Import base option list strings gmap pretty.
From S2P Require Import Prelude Ordered.
#[local] Open Scope string_scope.
#[local] Open Scope list_scope.
#[local] Open Scope N_scope.

(** ** Addresses *)

Inductive IpAddr : Type :=
| V4 (a b c d : u8)
| V6 (s0 s1 s2 s3 s4 s5 s6 s7 : u16).

#[export] Instance IpAddr_eq_dec : EqDecision IpAddr.
Proof. solve_decision. Defined.
(** Derived [Ord]: every IPv4 address before every IPv6 one, then octets or
    segments in order. *)
#[export] Instance IpAddr_Ordered : Ordered IpAddr := λ ip,
  match ip with
  | V4 a b c d => [4; raw a; raw b; raw c; raw d]
  | V6 s0 s1 s2 s3 s4 s5 s6 s7 =>
      [6; raw s0; raw s1; raw s2; raw s3; raw s4; raw s5; raw s6; raw s7]
  end.
#[export] Instance IpAddr_OrderedLaw : OrderedLaw IpAddr.
Proof. by intros [] [] H; simplify_eq H; intros; simplify_eq. Qed.

(** ** Display *)

Definition show_v4 (a b c d : N) : string :=
  pretty a +:+ "." +:+ pretty b +:+ "." +:+ pretty c +:+ "." +:+ pretty d.

(** [{:x}] of a u16. *)
Definition show_hex (n : N) : string :=
  let d k := hex_digit (n / k mod 16) in
  if n <? 16 then String (d 1) ""
  else if n <? 256 then String (d 16) (String (d 1) "")
  else if n <? 4096 then String (d 256) (String (d 16) (String (d 1) ""))
  else String (d 4096) (String (d 256) (String (d 16) (String (d 1) ""))).

(** The first longest run of zero segments, as (start, length). *)
Fixpoint zero_span (i : nat) (segs : list N) (cur longest : nat * nat) : nat * nat :=
  match segs with
  | [] => longest
  | s :: segs =>
      if s =? 0 then
        let cur := match cur.2 with O => (i, 1%nat) | S _ => (cur.1, S cur.2) end in
        let longest := if (longest.2 <? cur.2)%nat then cur else longest in
        zero_span (S i) segs cur longest
      else zero_span (S i) segs (0, 0)%nat longest
  end.

Definition fmt_subslice (chunk : list N) : string := join ":" (show_hex <$> chunk).

Definition show_v6 (segs : list N) : string :=
  match segs with
  | [0; 0; 0; 0; 0; 65535; ab; cd] =>
      "::ffff:" +:+ show_v4 (ab / 256) (ab mod 256) (cd / 256) (cd mod 256)
  | _ =>
      let '(start, len) := zero_span 0 segs (0, 0)%nat (0, 0)%nat in
      if (1 <? len)%nat then
        fmt_subslice (take start segs) +:+ "::" +:+ fmt_subslice (drop (start + len) segs)
      else fmt_subslice segs
  end.

Definition show_ip (ip : IpAddr) : string :=
  match ip with
  | V4 a b c d => show_v4 (raw a) (raw b) (raw c) (raw d)
  | V6 s0 s1 s2 s3 s4 s5 s6 s7 =>
      show_v6 [raw s0; raw s1; raw s2; raw s3; raw s4; raw s5; raw s6; raw s7]
  end.

(** ** FromStr

    A reader returns the value and the unread rest, or [None] with the state
    restored ([read_atomically]). *)

Definition reader (A : Type) : Type := string → option (A * string).

Definition hex_val (c : ascii) : option N :=
  if is_ascii_digit c then Some (code c - 48)
  else if in_range 97 102 c then Some (code c - 87)
  else if in_range 65 70 c then Some (code c - 55)
  else None.
Definition to_digit (radix : N) (c : ascii) : option N :=
  match hex_val c with Some d => if d <? radix then Some d else None | None => None end.

Definition read_given_char (target : ascii) : reader unit := λ s,
  match s with
  | String c r => if Ascii.eqb c target then Some (tt, r) else None
  | EmptyString => None
  end.
Definition read_separator {A} (sep : ascii) (index : nat) (inner : reader A) : reader A := λ s,
  match index with
  | O => inner s
  | S _ => match read_given_char sep s with Some (_, r) => inner r | None => None end
  end.
(** Reads digits while there are any; [None] past [max] of them. The counter
    [room] is the number of digits still allowed. *)
Fixpoint read_digits (radix : N) (room : nat) (acc : N) (count : nat) (s : string) {struct s} :
    option (N * nat * string) :=
  match s with
  | EmptyString => Some (acc, count, s)
  | String c r =>
      match to_digit radix c with
      | None => Some (acc, count, s)
      | Some d =>
          match room with
          | O => None
          | S room => read_digits radix room (acc * radix + d) (S count) r
          end
      end
  end.
Definition read_number (w radix : N) (max_digits : nat) (allow_zero_prefix : bool) :
    reader (uint w) := λ s,
  let has_leading_zero := first_char (Ascii.eqb "0") s in
  match read_digits radix max_digits 0 0 s with
  | None => None
  | Some (n, count, r) =>
      match count with
      | O => None
      | S more =>
          if negb allow_zero_prefix && has_leading_zero
             && match more with O => false | S _ => true end
          then None
          else match refine (fits w) n with Some x => Some (x, r) | None => None end
      end
  end.

Definition read_ipv4_addr : reader (u8 * u8 * u8 * u8) := λ s,
  let num i := read_separator "." i (read_number 8 10 3 false) in
  match num 0%nat s with
  | Some (a, s) =>
    match num 1%nat s with
    | Some (b, s) =>
      match num 2%nat s with
      | Some (c, s) =>
        match num 3%nat s with
        | Some (d, s) => Some ((a, b, c, d), s)
        | None => None
        end
      | None => None
      end
    | None => None
    end
  | None => None
  end.

(** Two octets as one group, [u16::from_be_bytes]. *)
Program Definition be16 (a b : u8) : u16 := Refine (raw a * 256 + raw b) _.
Next Obligation.
  intros a b. apply fits_spec. pose proof (uint_lt a). pose proof (uint_lt b).
  change (2 ^ 16) with (256 * 256). change (2 ^ 8) with 256 in *. nia.
Qed.

(** [read_groups]: fills up to [limit - i] groups from index [i]; returns the
    groups read, whether the last two came from an IPv4 address, and the rest. *)
Fixpoint read_groups (room i : nat) (s : string) : list u16 * bool * string :=
  match room with
  | O => ([], false, s)
  | S room' =>
      let hex _ :=
        match read_separator ":" i (read_number 16 16 4 true) s with
        | Some (g, r) => let '(gs, v4, r) := read_groups room' (S i) r in (g :: gs, v4, r)
        | None => ([], false, s)
        end in
      match room' with
      | O => hex tt
      | S _ =>
          match read_separator ":" i read_ipv4_addr s with
          | Some ((a, b, c, d), r) => ([be16 a b; be16 c d], true, r)
          | None => hex tt
          end
      end
  end.

Definition of_groups (l : list u16) : option IpAddr :=
  match l with
  | [s0; s1; s2; s3; s4; s5; s6; s7] => Some (V6 s0 s1 s2 s3 s4 s5 s6 s7)
  | _ => None
  end.

Definition read_ipv6_addr : reader IpAddr := λ s,
  let '(head, head_v4, r) := read_groups 8 0 s in
  if (length head =? 8)%nat then (λ ip, (ip, r)) <$> of_groups head
  else if head_v4 then None
  else
    match read_given_char ":" r with
    | Some (_, r) =>
        match read_given_char ":" r with
        | Some (_, r) =>
            let '(tail, _, r) := read_groups (8 - (length head + 1)) 0 r in
            (λ ip, (ip, r)) <$>
              of_groups (head ++ replicate (8 - length head - length tail) (lit 0 : u16) ++ tail)
        | None => None
        end
    | None => None
    end.

Definition read_ip_addr : reader IpAddr := λ s,
  match read_ipv4_addr s with
  | Some ((a, b, c, d), r) => Some (V4 a b c d, r)
  | None => read_ipv6_addr s
  end.

(** [IpAddr::from_str]: the whole input must be consumed. *)
Definition parse_ip (s : string) : option IpAddr :=
  match read_ip_addr s with
  | Some (ip, EmptyString) => Some ip
  | _ => None
  end.

(** ** The characters of a printed address *)

Definition ip_char (c : ascii) : bool :=
  is_ascii_digit c || in_range 97 102 c || char_in ".:" c.
Lemma pretty_ip_chars (n : N) : all_chars ip_char (pretty n).
Proof. eapply all_chars_incl; [apply pretty_N_digits|]. by vm_compute. Qed.
Lemma hex_digit_ip n : n < 16 → ip_char (hex_digit n).
Proof.
  intros H. assert (Hall : forallb (λ n, ip_char (hex_digit (N.of_nat n))) (seq 0 16)) by by vm_compute.
  rewrite forallb_Forall, Forall_forall in Hall. rewrite <- (N2Nat.id n). apply Hall, elem_of_seq. lia.
Qed.
Lemma show_hex_chars n : all_chars ip_char (show_hex n).
Proof.
  unfold show_hex, all_chars. repeat case_match; cbn; rewrite ?andb_True; split_and?; try done;
    apply hex_digit_ip; by apply N.mod_lt.
Qed.
Lemma show_v4_chars a b c d : all_chars ip_char (show_v4 a b c d).
Proof. unfold show_v4. rewrite !all_chars_app, !andb_True. split_and!; done || apply pretty_ip_chars. Qed.
Lemma fmt_subslice_chars l : all_chars ip_char (fmt_subslice l).
Proof.
  apply all_chars_join; [done|]. apply Forall_fmap, Forall_true. intros n. apply show_hex_chars.
Qed.
Lemma show_v6_chars l : all_chars ip_char (show_v6 l).
Proof.
  assert (Hg : ∀ sp : nat * nat, all_chars ip_char
    (let '(start, len) := sp in
     if (1 <? len)%nat then fmt_subslice (take start l) +:+ "::" +:+ fmt_subslice (drop (start + len) l)
     else fmt_subslice l)).
  { intros [st ln]. case_match; rewrite ?all_chars_app, ?andb_True; split_and?; done || apply fmt_subslice_chars. }
  unfold show_v6.
  repeat (match goal with |- context [match ?x with _ => _ end] => is_var x; destruct x end; try apply Hg).
  rewrite all_chars_app, andb_True. split; [done|apply show_v4_chars].
Qed.
Lemma show_ip_chars ip : all_chars ip_char (show_ip ip).
Proof. destruct ip; [apply show_v4_chars|apply show_v6_chars]. Qed.

(** ** [parse_ip] inverts [show_ip] *)

(** [r] gives a number reader nothing to go on with. *)
Definition stops (r : string) : Prop :=
  match r with EmptyString => True | String c _ => hex_val c = None end.
Lemma stops_digit radix c r : stops (String c r) → to_digit radix c = None.
Proof. unfold stops, to_digit. by intros ->. Qed.
Lemma read_digits_app radix room acc k s r v n :
  read_digits radix room acc k s = Some (v, n, "") → stops r →
  read_digits radix room acc k (s +:+ r) = Some (v, n, r).
Proof.
  revert room acc k. induction s as [|c s IH]; intros room acc k; cbn -[to_digit].
  - intros [= <- <-] Hr. destruct r as [|c r]; [done|]. cbn -[to_digit]. by rewrite (stops_digit _ _ _ Hr).
  - destruct (to_digit radix c); [|done]. destruct room; [done|]. apply IH.
Qed.
Lemma read_number_app w radix m z s r x :
  read_number w radix m z s = Some (x, "") → s ≠ "" → stops r →
  read_number w radix m z (s +:+ r) = Some (x, r).
Proof.
  unfold read_number. intros H Hs Hr.
  destruct (read_digits radix m 0 0 s) as [[[v n] rest]|] eqn:E; [|done].
  assert (rest = "") as ->.
  { destruct n; [done|]. destruct (negb z && _ && _); [done|]. destruct (refine _ v); [|done]. by injection H. }
  rewrite (read_digits_app _ _ _ _ _ r _ _ E Hr).
  assert (first_char (Ascii.eqb "0") (s +:+ r) = first_char (Ascii.eqb "0") s) as -> by by destruct s.
  destruct n; [done|]. destruct (negb z && _ && _); [done|]. destruct (refine _ v); [|done].
  by injection H as <-.
Qed.
Definition reads_back (w radix : N) (m : nat) (z : bool) (show : N → string) (n : N) : bool :=
  match read_number w radix m z (show n) with
  | Some (x, EmptyString) => (raw x =? n) && negb (is_empty (show n))
  | _ => false
  end.
Lemma reads_back_app w radix m z show (x : uint w) r :
  reads_back w radix m z show (raw x) = true → stops r →
  read_number w radix m z (show (raw x) +:+ r) = Some (x, r).
Proof.
  unfold reads_back. intros H Hr. destruct (read_number w radix m z (show (raw x))) as [[y [|c rest]]|] eqn:E; try done.
  apply andb_true_iff in H as [H Hne]. apply N.eqb_eq, raw_inj in H. subst y.
  apply read_number_app; [done| |done]. intros He. by rewrite He in Hne.
Qed.
(** All values below [2 ^ k] by computation. *)
Lemma forall_below (P : N → bool) k n :
  forallb (λ i, P (N.of_nat i)) (seq 0 k) = true → n < N.of_nat k → P n = true.
Proof.
  rewrite forallb_forall. intros H Hn. rewrite <- (N2Nat.id n). apply H, in_seq. lia.
Qed.
Lemma read_octet (x : u8) r : stops r → read_number 8 10 3 false (pretty (raw x) +:+ r) = Some (x, r).
Proof.
  apply reads_back_app. apply (forall_below (reads_back 8 10 3 false pretty) 256).
  - vm_compute. reflexivity.
  - apply (uint_lt x).
Qed.
Lemma to_digit_hex d : d < 16 → to_digit 16 (hex_digit d) = Some d.
Proof.
  intros H. pose proof (forall_below (λ d, match to_digit 16 (hex_digit d) with Some e => e =? d | None => false end)
    16 d ltac:(vm_compute; reflexivity) ltac:(lia)) as Hd. cbv beta in Hd.
  destruct (to_digit 16 (hex_digit d)); [|done]. by apply N.eqb_eq in Hd as ->.
Qed.
Lemma read_digits_hex n :
  n < 65536 → ∃ k, read_digits 16 4 0 0 (show_hex n) = Some (n, S k, "").
Proof.
  intros Hn. unfold show_hex.
  assert (Hd : ∀ k, to_digit 16 (hex_digit (n / k mod 16)) = Some (n / k mod 16)).
  { intros k. apply to_digit_hex. by apply N.mod_lt. }
  destruct (N.ltb_spec n 16); [|destruct (N.ltb_spec n 256); [|destruct (N.ltb_spec n 4096)]];
    cbn -[to_digit hex_digit N.div N.modulo N.mul N.add]; rewrite !Hd; eexists; repeat f_equal;
    zify; Z.to_euclidean_division_equations; lia.
Qed.
Lemma read_hex (x : u16) r : stops r → read_number 16 16 4 true (show_hex (raw x) +:+ r) = Some (x, r).
Proof.
  apply read_number_app; [|unfold show_hex; by repeat case_match].
  destruct (read_digits_hex (raw x)) as [k Hk]; [apply (uint_lt x)|].
  unfold read_number. rewrite Hk. cbn [negb andb]. by rewrite refine_raw.
Qed.
Lemma read_v4 (a b c d : u8) r :
  stops r → read_ipv4_addr (show_v4 (raw a) (raw b) (raw c) (raw d) +:+ r) = Some ((a, b, c, d), r).
Proof.
  intros Hr. unfold read_ipv4_addr, show_v4, read_separator. rewrite !app_assoc_s.
  rewrite read_octet by done. cbn [read_given_char String.append].
  rewrite Ascii.eqb_refl, read_octet by done. cbn [read_given_char String.append].
  rewrite Ascii.eqb_refl, read_octet by done. cbn [read_given_char String.append].
  by rewrite Ascii.eqb_refl, read_octet.
Qed.

(** Without a dot there is no IPv4 address to read. *)
Definition dotless (s : string) : Prop := all_chars (λ c, negb (Ascii.eqb c ".")) s.
Lemma dotless_app s t : dotless (s +:+ t) ↔ dotless s ∧ dotless t.
Proof. unfold dotless. by rewrite all_chars_app, andb_True. Qed.
Lemma dotless_cons c s : dotless (String c s) → dotless s.
Proof. unfold dotless, all_chars. cbn. by intros [_ ?]%andb_True. Qed.
Lemma read_digits_rest radix room acc k s v n r :
  read_digits radix room acc k s = Some (v, n, r) → dotless s → dotless r.
Proof.
  revert room acc k. induction s as [|c s IH]; intros room acc k; cbn -[to_digit]; [by intros [= <- <- <-]|].
  destruct (to_digit radix c); [|by intros [= <- <- <-]]. destruct room; [done|].
  intros H ?%dotless_cons. by eapply IH.
Qed.
Lemma read_v4_dotless s : dotless s → read_ipv4_addr s = None.
Proof.
  intros Hs. unfold read_ipv4_addr, read_separator at 1.
  destruct (read_number 8 10 3 false s) as [[a r]|] eqn:E; [|done].
  assert (Hr : dotless r).
  { unfold read_number in E. destruct (read_digits 10 3 0 0 s) as [[[v n] r']|] eqn:Ed; [|done].
    destruct n; [done|]. destruct (_ && _); [done|]. destruct (refine _ v); [|done].
    injection E as _ <-. by eapply read_digits_rest. }
  unfold read_separator at 1, read_given_char. destruct r as [|c r]; [done|].
  destruct (Ascii.eqb c ".") eqn:Ec; [|done]. unfold dotless, all_chars in Hr. cbn in Hr. by rewrite Ec in Hr.
Qed.
Lemma show_hex_dotless n : dotless (show_hex n).
Proof.
  assert (Hd : ∀ k, Is_true (negb (Ascii.eqb (hex_digit (n / k mod 16)) "."))).
  { intros k. apply Is_true_true. apply (forall_below (λ d, negb (Ascii.eqb (hex_digit d) ".")) 16).
    - vm_compute. reflexivity.
    - pose proof (N.mod_lt (n / k) 16 ltac:(done)). lia. }
  unfold dotless, show_hex, all_chars. repeat case_match; cbn -[hex_digit N.div N.modulo];
    rewrite ?andb_True; split_and?; done || apply Hd.
Qed.

(** The groups of an address, each after a colon. *)
Fixpoint body (gs : list u16) : string :=
  match gs with [] => "" | g :: gs => ":" +:+ show_hex (raw g) +:+ body gs end.
Lemma fmt_subslice_cons g gs : fmt_subslice (raw <$> (g :: gs)) = show_hex (raw g) +:+ body gs.
Proof.
  revert g. induction gs as [|h gs IH]; intros g; [cbn; by rewrite app_nil_r_s|].
  specialize (IH h). unfold fmt_subslice in *. cbn [fmap list_fmap join body] in *.
  by rewrite <- IH.
Qed.
Lemma body_dotless gs : dotless (body gs).
Proof.
  induction gs as [|g gs IH]; [done|]. cbn [body]. rewrite !dotless_app.
  split_and!; [done|apply show_hex_dotless|done].
Qed.
(** Where a group sequence ends: at the end of the input or at the [::]. *)
Definition ends_groups (r : string) : Prop := r = "" ∨ ∃ t, r = "::" +:+ t.
Lemma ends_stops gs r : ends_groups r → stops (body gs +:+ r).
Proof. intros [->|[t ->]]; by destruct gs. Qed.
Lemma sep_v4_dotless i s : dotless s → read_separator ":" i read_ipv4_addr s = None.
Proof.
  intros Hs. destruct i; cbn [read_separator]; [by apply read_v4_dotless|].
  unfold read_given_char. destruct s as [|c s]; [done|]. destruct (Ascii.eqb c ":"); [|done].
  apply read_v4_dotless. by eapply dotless_cons.
Qed.
Lemma sep_hex_ends i r : ends_groups r → read_separator ":" (S i) (read_number 16 16 4 true) r = None.
Proof. by intros [->|[t ->]]. Qed.
Lemma read_groups_unfold room i s :
  dotless s →
  read_groups (S room) i s =
    match read_separator ":" i (read_number 16 16 4 true) s with
    | Some (g, r) => let '(gs, v4, r) := read_groups room (S i) r in (g :: gs, v4, r)
    | None => ([], false, s)
    end.
Proof.
  intros Hs. cbn [read_groups]. destruct room; [done|]. by rewrite sep_v4_dotless.
Qed.
Lemma read_body gs room i r :
  dotless r → ends_groups r → (length gs <= room)%nat →
  read_groups room (S i) (body gs +:+ r) = (gs, false, r).
Proof.
  intros Hd Hr. revert room i. induction gs as [|g gs IH]; intros room i Hl.
  - destruct room; [done|]. rewrite read_groups_unfold by done. by rewrite sep_hex_ends.
  - destruct room as [|room]; [cbn in Hl; lia|].
    rewrite read_groups_unfold by (apply dotless_app; split; [apply body_dotless|done]).
    cbn [body read_separator]. cbn [String.append read_given_char].
    rewrite !app_assoc_s. cbn. rewrite read_hex by by apply ends_stops.
    rewrite IH; [done|]. cbn in Hl. lia.
Qed.
Lemma read_fmt gs room r :
  dotless r → ends_groups r → (length gs <= room)%nat →
  read_groups room 0 (fmt_subslice (@raw N (fits 16) <$> gs) +:+ r) = (gs, false, r).
Proof.
  intros Hd Hr Hl. destruct gs as [|g gs].
  - change (fmt_subslice (raw <$> []) +:+ r) with r. destruct room; [done|].
    rewrite read_groups_unfold by done. by destruct Hr as [->|[t ->]].
  - rewrite fmt_subslice_cons, app_assoc_s. destruct room as [|room]; [cbn in Hl; lia|].
    rewrite read_groups_unfold
      by (rewrite dotless_app; split; [apply show_hex_dotless|apply dotless_app; split; [apply body_dotless|done]]).
    cbn [read_separator]. rewrite read_hex by by apply ends_stops.
    rewrite read_body; [done..|]. cbn in Hl. lia.
Qed.
(** The compressed run consists of zeros. *)
Definition span_ok (segs : list N) (sp : nat * nat) : Prop :=
  (sp.1 + sp.2 <= length segs)%nat ∧ ∀ k, (k < sp.2)%nat → segs !! (sp.1 + k)%nat = Some 0.
Lemma zero_span_ok pre segs cur longest :
  span_ok pre longest → span_ok pre cur → (cur.2 = 0 ∨ cur.1 + cur.2 = length pre)%nat →
  span_ok (pre ++ segs) (zero_span (length pre) segs cur longest).
Proof.
  assert (Hext : ∀ l k sp, span_ok l sp → span_ok (l ++ k) sp).
  { intros l k sp [H1 H2]. split; [rewrite length_app; lia|]. intros j Hj.
    rewrite lookup_app_l; [by apply H2|]. lia. }
  revert pre cur longest. induction segs as [|s segs IH]; intros pre cur longest Hl Hc He; cbn [zero_span].
  { by rewrite app_nil_r. }
  assert (Hlen : S (length pre) = length (pre ++ [s])) by (rewrite length_app; cbn; lia).
  assert (Happ : pre ++ s :: segs = (pre ++ [s]) ++ segs) by by rewrite <- app_assoc.
  destruct (N.eqb_spec s 0) as [->|Hs].
  - set (cur' := match cur.2 with O => (length pre, 1%nat) | S _ => (cur.1, S cur.2) end).
    assert (Hc' : span_ok (pre ++ [0]) cur' ∧ (cur'.1 + cur'.2)%nat = length (pre ++ [0])).
    { unfold cur'. rewrite <- Hlen. destruct (cur.2) as [|m] eqn:Hm; cbn.
      - split; [|lia]. split; [cbn; lia|]. intros k Hk. cbn in Hk. assert (k = 0)%nat as -> by lia.
        cbn. rewrite Nat.add_0_r, lookup_app_r, Nat.sub_diag by lia. done.
      - destruct He as [?|He]; [lia|]. split; [|lia]. split; [cbn; lia|]. intros k Hk. cbn in Hk |- *.
        destruct (decide (k < S m)%nat) as [Hlt|Hge].
        + destruct Hc as [_ Hc]. rewrite lookup_app_l by lia. apply Hc. lia.
        + assert (k = S m) as -> by lia. rewrite lookup_app_r, He, Nat.sub_diag by lia. done. }
    destruct Hc' as [Hc1 Hc2]. rewrite Happ, Hlen. apply IH; [|done|by right].
    destruct (_ <? _)%nat; [done|by apply Hext].
  - rewrite Happ, Hlen. apply IH; [by apply Hext| |by left]. split; cbn; lia.
Qed.
Lemma span_split (segs : list N) st ln :
  span_ok segs (st, ln) → segs = take st segs ++ replicate ln 0 ++ drop (st + ln) segs.
Proof.
  intros [H1 H2]. cbn in *. rewrite <- (take_drop st segs) at 1. f_equal.
  rewrite <- (take_drop ln (drop st segs)) at 1. rewrite drop_drop. f_equal.
  apply list_eq. intros k. destruct (decide (k < ln)%nat) as [Hk|Hk].
  - rewrite lookup_take_lt, lookup_drop, lookup_replicate_2 by lia. by apply H2.
  - rewrite lookup_take_ge by lia. symmetry. apply lookup_replicate_None. lia.
Qed.
Lemma fmap_raw_take (gs : list u16) n : @raw N (fits 16) <$> take n gs = take n (@raw N (fits 16) <$> gs).
Proof. symmetry. apply firstn_map. Qed.
Lemma fmap_raw_drop (gs : list u16) n : @raw N (fits 16) <$> drop n gs = drop n (@raw N (fits 16) <$> gs).
Proof. symmetry. apply skipn_map. Qed.
Lemma fmt_dotless (gs : list u16) : dotless (fmt_subslice (raw <$> gs)).
Proof.
  destruct gs; [done|]. rewrite fmt_subslice_cons, dotless_app. split; [apply show_hex_dotless|apply body_dotless].
Qed.
(** The general printer: groups around the compressed run. *)
Definition show_groups (segs : list N) : string :=
  let '(start, len) := zero_span 0 segs (0, 0)%nat (0, 0)%nat in
  if (1 <? len)%nat then
    fmt_subslice (take start segs) +:+ "::" +:+ fmt_subslice (drop (start + len) segs)
  else fmt_subslice segs.
Lemma read_show_groups (gs : list u16) ip :
  of_groups gs = Some ip → read_ipv6_addr (show_groups (raw <$> gs)) = Some (ip, "").
Proof.
  intros Hip. assert (Hlen : length gs = 8%nat) by (do 9 (destruct gs as [|? gs]; [done|]); done || by do 9 destruct gs as [|? gs]).
  unfold show_groups. pose proof (zero_span_ok [] (raw <$> gs) (0, 0)%nat (0, 0)%nat) as Hsp.
  destruct (zero_span 0 (raw <$> gs) (0, 0)%nat (0, 0)%nat) as [st ln] eqn:Ez. cbn in Hsp. rewrite Ez in Hsp.
  assert (Hok : span_ok (raw <$> gs) (st, ln)) by (apply Hsp; [split; cbn; lia..|by left]).
  unfold read_ipv6_addr. destruct (Nat.ltb_spec 1 ln) as [Hln|Hln].
  - pose proof Hok as [Hb _]. cbn in Hb. rewrite length_fmap, Hlen in Hb.
    rewrite <- fmap_raw_take, <- fmap_raw_drop.
    rewrite read_fmt; [|by rewrite dotless_app; split; [|apply fmt_dotless]|right; by eexists|rewrite length_take; lia].
    rewrite length_take_le by lia. destruct (Nat.eqb_spec st 8); [lia|]. cbn [String.append read_given_char].
    cbn -[fmt_subslice read_groups of_groups]. rewrite <- (app_nil_r_s (fmt_subslice _)).
    rewrite read_fmt; [|done|by left|rewrite length_drop; lia].
    rewrite length_drop, Hlen. assert (8 - st - (8 - (st + ln)) = ln)%nat as -> by lia.
    assert (gs = take st gs ++ replicate ln (lit 0 : u16) ++ drop (st + ln) gs) as Hgs.
    { apply (inj (fmap raw)). rewrite !fmap_app, fmap_replicate, fmap_raw_take, fmap_raw_drop. by apply span_split. }
    rewrite <- Hgs, Hip. done.
  - rewrite <- (app_nil_r_s (fmt_subslice _)), read_fmt; [|done|by left|lia].
    rewrite Hlen. cbn -[of_groups]. by rewrite Hip.
Qed.
Lemma show_v6_cases segs :
  show_v6 segs = show_groups segs ∨
  ∃ ab cd, segs = [0; 0; 0; 0; 0; 65535; ab; cd] ∧
    show_v6 segs = "::ffff:" +:+ show_v4 (ab / 256) (ab mod 256) (cd / 256) (cd mod 256).
Proof.
  unfold show_v6.
  repeat (match goal with |- context [match ?x with _ => _ end] => is_var x; destruct x end; try (left; reflexivity)).
  right. eauto.
Qed.
Lemma octets (x : u16) :
  ∃ a b : u8, raw a = raw x / 256 ∧ raw b = raw x mod 256 ∧ be16 a b = x.
Proof.
  pose proof (uint_lt x) as Hx. change (2 ^ 16) with 65536 in Hx.
  assert (Ha : fits 8 (raw x / 256)).
  { apply fits_spec. change (2 ^ 8) with 256. apply N.Div0.div_lt_upper_bound. lia. }
  assert (Hb : fits 8 (raw x mod 256)).
  { apply fits_spec. change (2 ^ 8) with 256. by apply N.mod_lt. }
  exists (Refine (raw x / 256) Ha), (Refine (raw x mod 256) Hb). split_and!; [done..|].
  apply raw_inj. cbn. rewrite (N.div_mod' (raw x) 256) at 3. lia.
Qed.
Lemma read_mapped (ab cd : u16) :
  read_ip_addr ("::ffff:" +:+ show_v4 (raw ab / 256) (raw ab mod 256) (raw cd / 256) (raw cd mod 256))
  = Some (V6 (lit 0) (lit 0) (lit 0) (lit 0) (lit 0) (lit 65535) ab cd, "").
Proof.
  destruct (octets ab) as (a & b & <- & <- & Hab), (octets cd) as (c & d & <- & <- & Hcd).
  set (v4 := show_v4 _ _ _ _).
  assert (Hv4 : read_ipv4_addr v4 = Some ((a, b, c, d), "")) by (rewrite <- (app_nil_r_s v4); by apply read_v4).
  change ("::ffff:" +:+ v4) with (":" +:+ ":" +:+ "ffff" +:+ ":" +:+ v4).
  assert (Hf : read_ipv4_addr ("ffff:" +:+ v4) = None) by done.
  assert (Hn : read_number 16 16 4 true ("ffff:" +:+ v4) = Some (lit 65535 : u16, ":" +:+ v4))
    by by apply (read_hex (lit 65535 : u16) (":" +:+ v4)).
  assert (Hg : read_groups 7 0 ("ffff:" +:+ v4) = ([lit 65535 : u16; be16 a b; be16 c d], true, "")).
  { cbn [read_groups read_separator]. rewrite Hf, Hn. cbn [String.append read_given_char].
    rewrite Ascii.eqb_refl, Hv4. done. }
  assert (H8 : ∀ x, read_groups 8 0 (":" +:+ x) = ([], false, ":" +:+ x)) by done.
  change (":" +:+ ":" +:+ "ffff" +:+ ":" +:+ v4) with (":" +:+ ":" +:+ "ffff:" +:+ v4).
  assert (Hc : read_ipv4_addr (":" +:+ ":" +:+ "ffff:" +:+ v4) = None) by done.
  unfold read_ip_addr, read_ipv6_addr. rewrite Hc, H8. cbn [length Nat.eqb].
  change (read_given_char ":" (":" +:+ ":" +:+ "ffff:" +:+ v4)) with (Some (tt, ":" +:+ "ffff:" +:+ v4)).
  cbv iota beta.
  change (read_given_char ":" (":" +:+ "ffff:" +:+ v4)) with (Some (tt, "ffff:" +:+ v4)).
  cbv iota beta. change (8 - (0 + 1))%nat with 7%nat. rewrite Hg, Hab, Hcd. done.
Qed.
Lemma show_groups_dotless (gs : list u16) : dotless (show_groups (raw <$> gs)).
Proof.
  unfold show_groups. destruct (zero_span _ _ _ _) as [st ln]. destruct (_ <? _)%nat; [|apply fmt_dotless].
  rewrite <- fmap_raw_take, <- fmap_raw_drop, !dotless_app. split_and!; [apply fmt_dotless|done|apply fmt_dotless].
Qed.
(** An address survives its textual form. *)
Lemma parse_show_ip ip : parse_ip (show_ip ip) = Some ip.
Proof.
  unfold parse_ip. destruct ip as [a b c d|s0 s1 s2 s3 s4 s5 s6 s7]; cbn [show_ip].
  - unfold read_ip_addr. by rewrite <- (app_nil_r_s (show_v4 _ _ _ _)), read_v4.
  - change ([raw s0; raw s1; raw s2; raw s3; raw s4; raw s5; raw s6; raw s7])
      with (raw <$> [s0; s1; s2; s3; s4; s5; s6; s7]).
    destruct (show_v6_cases (raw <$> [s0; s1; s2; s3; s4; s5; s6; s7])) as [->|(ab & cd & Hs & ->)].
    + unfold read_ip_addr. rewrite read_v4_dotless by apply show_groups_dotless.
      by erewrite read_show_groups.
    + cbn in Hs. injection Hs as H0 H1 H2 H3 H4 H5 <- <-. rewrite read_mapped.
      repeat f_equal; by apply raw_inj.
Qed.
