(* ===== verification/Types.v ===== *)
(** * Protocol types (greendot-proto/src/types.rs)

    The [validated_string!] newtypes are one family indexed by [newtype], so a
    theorem about "every validated string" is one theorem; the closed enums
    with their keywords and parsers; the desired-state documents. *)
From Stdlib Require Import Ascii String.
From stdpp Require Import base option list strings sets gmap pretty.
From S2P Require Import Prelude Ordered Validate IpAddr.
#[local] Open Scope string_scope.
#[local] Open Scope list_scope.
#[local] Open Scope N_scope.

(** ** Validated strings *)

Record ValidationError : Type := { ve_what : string; ve_value : string }.
#[export] Instance ValidationError_eq_dec : EqDecision ValidationError.
Proof. solve_decision. Defined.
Definition show_ValidationError (e : ValidationError) : string :=
  "invalid " +:+ ve_what e +:+ ": " +:+ debug_str (ve_value e).

(** One constructor per [validated_string!] invocation. *)
Inductive newtype : Type :=
| NtDatasetName | NtSnapName | NtNqn | NtCsiNqn | NtNsUuid | NtIqn | NtBlockDev
| NtDevicePath | NtVdevTarget | NtNetdevName | NtPciAddress | NtBackstoreName
| NtPartLabel | NtSshFingerprint | NtUsername | NtExportName | NtPackageName
| NtPoolName | NtVgName | NtLvName | NtNfsExportPath | NtMountPoint | NtNfsClient.
#[export] Instance newtype_eq_dec : EqDecision newtype.
Proof. solve_decision. Defined.

Definition validator (k : newtype) : string → bool :=
  match k with
  | NtDatasetName => dataset_name
  | NtSnapName => snap_name
  | NtNqn => nqn
  | NtCsiNqn => csi_nqn
  | NtNsUuid => ns_uuid
  | NtIqn => iqn
  | NtBlockDev => block_dev
  | NtDevicePath => device_path
  | NtVdevTarget => vdev_target
  | NtNetdevName => netdev
  | NtPciAddress => pci_address
  | NtBackstoreName => backstore_name
  | NtPartLabel => part_label
  | NtSshFingerprint => ssh_fingerprint
  | NtUsername => username
  | NtExportName => export_name
  | NtPackageName => package_name
  | NtPoolName => pool_name
  | NtVgName | NtLvName => lvm_name
  | NtNfsExportPath | NtMountPoint => nfs_export_path
  | NtNfsClient => nfs_client
  end.
Definition what_of (k : newtype) : string :=
  match k with
  | NtDatasetName => "dataset name"
  | NtSnapName => "snapshot name"
  | NtNqn => "NQN"
  | NtCsiNqn => "CSI NQN"
  | NtNsUuid => "namespace UUID"
  | NtIqn => "IQN"
  | NtBlockDev => "block device"
  | NtDevicePath => "device path"
  | NtVdevTarget => "vdev target"
  | NtNetdevName => "netdev name"
  | NtPciAddress => "PCI address"
  | NtBackstoreName => "backstore name"
  | NtPartLabel => "partition label"
  | NtSshFingerprint => "SSH fingerprint"
  | NtUsername => "username"
  | NtExportName => "export name"
  | NtPackageName => "package name"
  | NtPoolName => "pool name"
  | NtVgName => "volume group name"
  | NtLvName => "logical volume name"
  | NtNfsExportPath => "NFS export path"
  | NtMountPoint => "mount point"
  | NtNfsClient => "NFS client"
  end.

(** The newtype and its only constructor, [$name::new] (also [FromStr] and
    [Deserialize]); [as_str]/[Display] is [raw]. *)
Definition vstring (k : newtype) : Type := refined (validator k).
Definition new (k : newtype) (s : string) : result ValidationError (vstring k) :=
  ok_or {| ve_what := what_of k; ve_value := s |} (refine (validator k) s).
Definition as_str {k} (v : vstring k) : string := raw v.
#[export] Instance vstring_eq_dec k : EqDecision (vstring k) := refined_eq_dec _.
#[export] Instance vstring_countable k : Countable (vstring k) := refined_countable _.
#[export] Instance vstring_Ordered k : Ordered (vstring k) := λ v, okey (raw v).
#[export] Instance vstring_OrderedLaw k : OrderedLaw (vstring k).
Proof. intros x y H. apply raw_inj, okey_inj, H. Qed.

Abbreviation DatasetName := (vstring NtDatasetName).
Abbreviation SnapName := (vstring NtSnapName).
Abbreviation Nqn := (vstring NtNqn).
Abbreviation CsiNqn := (vstring NtCsiNqn).
Abbreviation NsUuid := (vstring NtNsUuid).
Abbreviation Iqn := (vstring NtIqn).
Abbreviation BlockDev := (vstring NtBlockDev).
Abbreviation DevicePath := (vstring NtDevicePath).
Abbreviation VdevTarget := (vstring NtVdevTarget).
Abbreviation NetdevName := (vstring NtNetdevName).
Abbreviation PciAddress := (vstring NtPciAddress).
Abbreviation BackstoreName := (vstring NtBackstoreName).
Abbreviation PartLabel := (vstring NtPartLabel).
Abbreviation SshFingerprint := (vstring NtSshFingerprint).
Abbreviation Username := (vstring NtUsername).
Abbreviation ExportName := (vstring NtExportName).
Abbreviation PackageName := (vstring NtPackageName).
Abbreviation PoolName := (vstring NtPoolName).
Abbreviation VgName := (vstring NtVgName).
Abbreviation LvName := (vstring NtLvName).
Abbreviation NfsExportPath := (vstring NtNfsExportPath).
Abbreviation MountPoint := (vstring NtMountPoint).
Abbreviation NfsClient := (vstring NtNfsClient).

(** [Secret]: a string whose [Debug] output never shows it. *)
Record Secret : Type := SecretOf { secret : string }.
#[export] Instance Secret_eq_dec : EqDecision Secret.
Proof. solve_decision. Defined.
Definition debug_Secret (_ : Secret) : string := "Secret(***)".

(** ** Closed enums *)

Inductive Transport : Type := Rdma | Tcp | Loop.
#[export] Instance Transport_eq_dec : EqDecision Transport.
Proof. solve_decision. Defined.
Definition trtype_str (t : Transport) : string :=
  match t with Rdma => "rdma" | Tcp => "tcp" | Loop => "loop" end.
(** Derived [Ord]: declaration order. *)
#[export] Instance Transport_Ordered : Ordered Transport := λ t,
  match t with Rdma => [0] | Tcp => [1] | Loop => [2] end.
#[export] Instance Transport_OrderedLaw : OrderedLaw Transport.
Proof. by intros [] []. Qed.

Inductive VdevLayout : Type := Stripe | Mirror | Raidz1 | Raidz2 | Raidz3.
#[export] Instance VdevLayout_eq_dec : EqDecision VdevLayout.
Proof. solve_decision. Defined.
Definition layout_keyword (l : VdevLayout) : option string :=
  match l with
  | Stripe => None
  | Mirror => Some "mirror"
  | Raidz1 => Some "raidz1"
  | Raidz2 => Some "raidz2"
  | Raidz3 => Some "raidz3"
  end.
Definition min_devices (l : VdevLayout) : nat :=
  match l with Stripe => 1 | Mirror | Raidz1 => 2 | Raidz2 => 3 | Raidz3 => 4 end.
Definition parse_layout (s : string) : option VdevLayout :=
  if bool_decide (s = "stripe") then Some Stripe
  else if bool_decide (s = "mirror") then Some Mirror
  else if bool_decide (s = "raidz1") then Some Raidz1
  else if bool_decide (s = "raidz2") then Some Raidz2
  else if bool_decide (s = "raidz3") then Some Raidz3
  else None.

Inductive VdevClass : Type := Data | Special | Log | Dedup | Cache | Spare.
#[export] Instance VdevClass_eq_dec : EqDecision VdevClass.
Proof. solve_decision. Defined.
Definition class_keyword (c : VdevClass) : option string :=
  match c with
  | Data => None
  | Special => Some "special"
  | Log => Some "log"
  | Dedup => Some "dedup"
  | Cache => Some "cache"
  | Spare => Some "spare"
  end.
Definition allows_layout (c : VdevClass) (l : VdevLayout) : bool :=
  negb (match c with Cache | Spare => true | _ => false end) || bool_decide (l = Stripe).
Definition class_label (c : VdevClass) : string := default "data" (class_keyword c).
Definition parse_class (s : string) : option VdevClass :=
  if bool_decide (s = "data") then Some Data
  else if bool_decide (s = "special") then Some Special
  else if bool_decide (s = "log") then Some Log
  else if bool_decide (s = "dedup") then Some Dedup
  else if bool_decide (s = "cache") then Some Cache
  else if bool_decide (s = "spare") then Some Spare
  else None.

(** The [zfs_value_enum!] enums: a property name, and a keyword per variant that
    [parse] inverts by trying the variants in order. *)
Class ZfsValue (A : Type) := { PROP : string; ALL : list A; keyword : A → string }.
Definition parse_value `{ZfsValue A} (s : string) : option A :=
  List.find (λ v, bool_decide (keyword v = s)) ALL.

Inductive Compression : Type := CompOff | CompLz4 | CompZstd.
#[export] Instance Compression_value : ZfsValue Compression := {
  PROP := "compression"; ALL := [CompOff; CompLz4; CompZstd];
  keyword v := match v with CompOff => "off" | CompLz4 => "lz4" | CompZstd => "zstd" end }.
Inductive ZvolSync : Type := SyncStandard | SyncAlways | SyncDisabled.
#[export] Instance ZvolSync_value : ZfsValue ZvolSync := {
  PROP := "sync"; ALL := [SyncStandard; SyncAlways; SyncDisabled];
  keyword v := match v with
    | SyncStandard => "standard" | SyncAlways => "always" | SyncDisabled => "disabled" end }.
Inductive VolMode : Type := VolDefault | VolFull | VolDev | VolNone.
#[export] Instance VolMode_value : ZfsValue VolMode := {
  PROP := "volmode"; ALL := [VolDefault; VolFull; VolDev; VolNone];
  keyword v := match v with
    | VolDefault => "default" | VolFull => "full" | VolDev => "dev" | VolNone => "none" end }.
Inductive PrimaryCache : Type := CacheAll | CacheMetadata | CacheNone.
#[export] Instance PrimaryCache_value : ZfsValue PrimaryCache := {
  PROP := "primarycache"; ALL := [CacheAll; CacheMetadata; CacheNone];
  keyword v := match v with
    | CacheAll => "all" | CacheMetadata => "metadata" | CacheNone => "none" end }.
Inductive LogBias : Type := BiasLatency | BiasThroughput.
#[export] Instance LogBias_value : ZfsValue LogBias := {
  PROP := "logbias"; ALL := [BiasLatency; BiasThroughput];
  keyword v := match v with BiasLatency => "latency" | BiasThroughput => "throughput" end }.

(** Every variant's keyword parses back to the variant. *)
Class ZfsValueLaw (A : Type) `{ZfsValue A} :=
  parse_keyword : ∀ v : A, parse_value (keyword v) = Some v.
#[export] Instance Compression_law : ZfsValueLaw Compression.
Proof. by intros []. Qed.
#[export] Instance ZvolSync_law : ZfsValueLaw ZvolSync.
Proof. by intros []. Qed.
#[export] Instance VolMode_law : ZfsValueLaw VolMode.
Proof. by intros []. Qed.
#[export] Instance PrimaryCache_law : ZfsValueLaw PrimaryCache.
Proof. by intros []. Qed.
#[export] Instance LogBias_law : ZfsValueLaw LogBias.
Proof. by intros []. Qed.

Inductive LvmReport : Type := Vgs | Lvs | Pvs.
Inductive KernelModule : Type :=
  NvmetLoop | NvmetTcp | NvmetRdma | Iscsi | Iser | Rxe | Rpcrdma.
#[export] Instance KernelModule_eq_dec : EqDecision KernelModule.
Proof. solve_decision. Defined.

(** ** Constants *)

Definition CSI_PORT_ID : u16 := lit 61000.
Definition NFS_RDMA_PORT : u16 := lit 20049.
Definition NFS_PORTLIST_SENTINEL : string := "--greendot-portlist--".
Definition NFS_MANAGED_SENTINEL : string := "--greendot-managed--".

(** ** Desired-state documents *)

Record NvmetNsSpec := { ns_nsid : u32; ns_device_path : DevicePath }.
Record NvmetSubsysSpec := {
  sub_nqn : Nqn;
  sub_allow_any_host : bool;
  sub_allowed_hosts : list Nqn;
  sub_namespaces : list NvmetNsSpec }.
Record NvmetPortSpec := {
  port_id : u16;
  port_trtype : Transport;
  port_traddr : IpAddr;
  port_trsvcid : u16;
  port_subsystems : list Nqn }.
Record NvmetDesired := {
  nd_subsystems : list NvmetSubsysSpec;
  nd_ports : list NvmetPortSpec }.

Record LioBackstoreSpec := { bs_name : BackstoreName; bs_device_path : DevicePath }.
Record LioLunSpec := { lun_lun : u32; lun_backstore : BackstoreName }.
Record LioPortalSpec := { portal_addr : IpAddr; portal_port : u16; portal_iser : bool }.
Record LioTargetSpec := {
  tgt_iqn : Iqn;
  tgt_enabled : bool;
  tgt_demo_mode : bool;
  tgt_luns : list LioLunSpec;
  tgt_portals : list LioPortalSpec;
  tgt_acls : list Iqn }.
Record LioDesired := {
  ld_backstores : list LioBackstoreSpec;
  ld_targets : list LioTargetSpec }.

Record NfsClientSpec := { cs_client : NfsClient; cs_rw : bool }.
Record NfsExportSpec := {
  es_path : NfsExportPath;
  es_fsid : u32;
  es_clients : list NfsClientSpec }.
Record NfsDesired := { nfs_exports : list NfsExportSpec; nfs_rdma_port : u16 }.

(** ** Theorems: validated strings *)

Lemma new_Ok k s v : new k s = Ok v ↔ as_str v = s.
Proof. unfold new, as_str. rewrite ok_or_Ok. apply refine_Some. Qed.
Lemma new_as_str k (v : vstring k) : new k (as_str v) = Ok v.
Proof. by apply new_Ok. Qed.
Lemma new_Err k s e :
  new k s = Err e ↔ ¬ validator k s ∧ e = {| ve_what := what_of k; ve_value := s |}.
Proof. unfold new. rewrite ok_or_Err. apply and_iff_compat_r, refine_None. Qed.
Lemma new_is_ok k s : is_ok (new k s) = validator k s.
Proof.
  destruct (new k s) eqn:H; cbn.
  - apply new_Ok in H as <-. symmetry. apply Is_true_true, raw_ok.
  - apply new_Err in H as [H _]. symmetry. by apply Is_true_false.
Qed.

(** The newtypes whose values name a directory entry or a path. *)
Definition names_path (k : newtype) : bool :=
  match k with NtNfsClient | NtSshFingerprint => false | _ => true end.

Lemma validator_word k s : k ≠ NtNfsClient → validator k s → all_chars word_char s.
Proof.
  intros Hne H. destruct k; cbn in H.
  - by apply dataset_name_word.
  - unfold snap_name in H. bool_split. by apply component_word.
  - apply nqn_shape in H as (r & -> & _ & Hr). rewrite all_chars_app. bool_split; [done|].
    by eapply all_chars_incl.
  - apply csi_nqn_nqn, nqn_shape in H as (r & -> & _ & Hr). rewrite all_chars_app.
    bool_split; [done|]. by eapply all_chars_incl.
  - apply ns_uuid_shape in H as (_ & _ & H). by eapply all_chars_incl.
  - apply iqn_shape in H as (r & -> & _ & Hr). rewrite all_chars_app. bool_split; [done|].
    by eapply all_chars_incl.
  - by apply block_dev_word.
  - apply device_path_shape in H as (r & -> & _ & H). rewrite all_chars_app. by bool_split.
  - unfold vdev_target in H. apply orb_True in H as [H|H].
    + apply device_path_shape in H as (r & -> & _ & H). rewrite all_chars_app. by bool_split.
    + destruct (split_once "-" s) as [[kw idx]|] eqn:Ho; [|done].
      apply split_once_Some in Ho as [-> _]. bool_split. rewrite all_chars_app. bool_split.
      * assert (Hk : Forall (λ k, Is_true (all_chars word_char k)) RESERVED_VDEV_KEYWORDS)
          by (apply forallb_Forall; by vm_compute).
        rewrite Forall_forall in Hk. by apply Hk.
      * change (String "-" idx) with ("-" +:+ idx). rewrite all_chars_app. bool_split; [done|].
        by eapply all_chars_incl.
  - unfold netdev in H. bool_split. by eapply all_chars_incl.
  - apply pci_address_shape in H as (_ & _ & H). by eapply all_chars_incl.
  - unfold backstore_name in H. bool_split. by apply component_word.
  - unfold part_label in H. bool_split. by apply component_word.
  - unfold ssh_fingerprint in H. bool_split.
    destruct (strip_prefix "SHA256:" s) as [r|] eqn:Hr; [|done].
    apply strip_prefix_Some in Hr as ->. bool_split. rewrite all_chars_app. bool_split; [done|].
    by eapply all_chars_incl.
  - unfold username in H. bool_split. by eapply all_chars_incl.
  - unfold export_name in H. bool_split. by eapply all_chars_incl.
  - unfold package_name in H. bool_split. by eapply all_chars_incl.
  - unfold pool_name in H. bool_split. by eapply all_chars_incl.
  - by apply lvm_name_word.
  - by apply lvm_name_word.
  - eapply all_chars_incl; [by apply nfs_export_path_plain|done].
  - eapply all_chars_incl; [by apply nfs_export_path_plain|done].
  - done.
Qed.
Lemma validator_plain k s : validator k s → s ≠ "" ∧ all_chars plain_char s.
Proof.
  intros H. split; [intros ->; destruct k; by vm_compute in H|].
  destruct (decide (k = NtNfsClient)) as [->|Hk].
  - cbn in H. unfold nfs_client in H. bool_split. by eapply all_chars_incl.
  - eapply all_chars_incl; [by eapply validator_word|done].
Qed.

Lemma validator_not_flag k s : validator k s → k ≠ NtNetdevName → not_flag s.
Proof.
  intros H Hk. destruct k; cbn in H; try done.
  - apply dataset_name_first in H. by eapply first_char_not_flag.
  - unfold snap_name in H. bool_split. by apply component_not_flag.
  - apply nqn_shape in H as (r & -> & _). by intros [? ?]%starts_with_spec.
  - apply csi_nqn_nqn, nqn_shape in H as (r & -> & _). by intros [? ?]%starts_with_spec.
  - apply ns_uuid_shape in H as (_ & H & _). by eapply first_char_not_flag.
  - apply iqn_shape in H as (r & -> & _). by intros [? ?]%starts_with_spec.
  - unfold block_dev in H. bool_split. by eapply first_char_not_flag.
  - apply device_path_shape in H as (r & -> & _). by intros [? ?]%starts_with_spec.
  - unfold vdev_target in H. apply orb_True in H as [H|H].
    + apply device_path_shape in H as (r & -> & _). by intros [? ?]%starts_with_spec.
    + destruct (split_once "-" s) as [[kw idx]|] eqn:Ho; [|done].
      apply split_once_Some in Ho as [-> _]. bool_split.
      assert (Hkw : Forall (λ k, Is_true (first_char is_ascii_lowercase k)) RESERVED_VDEV_KEYWORDS)
        by (apply forallb_Forall; by vm_compute).
      rewrite Forall_forall in Hkw.
      eapply first_char_not_flag; [by apply first_char_app, Hkw|done].
  - apply pci_address_shape in H as (_ & H & _). by eapply first_char_not_flag.
  - unfold backstore_name in H. bool_split. by apply component_not_flag.
  - unfold part_label in H. bool_split. by apply component_not_flag.
  - unfold ssh_fingerprint in H. bool_split.
    destruct (strip_prefix "SHA256:" s) as [r|] eqn:Hr; [|done].
    apply strip_prefix_Some in Hr as ->. by intros [? ?]%starts_with_spec.
  - unfold username in H. bool_split. by eapply first_char_not_flag.
  - unfold export_name in H. bool_split. by eapply first_char_not_flag.
  - unfold package_name in H. bool_split. by eapply first_char_not_flag.
  - unfold pool_name in H. bool_split. by eapply first_char_not_flag.
  - unfold lvm_name in H. by bool_split.
  - unfold lvm_name in H. by bool_split.
  - apply nfs_export_path_shape in H as (r & -> & _). by intros [? ?]%starts_with_spec.
  - apply nfs_export_path_shape in H as (r & -> & _). by intros [? ?]%starts_with_spec.
  - unfold nfs_client in H. by bool_split.
Qed.

Lemma validator_path k s :
  validator k s → names_path k → Forall path_component (path_parts s).
Proof.
  intros H Hk. destruct k; cbn in H, Hk; try done.
  - by apply dataset_name_parts.
  - unfold snap_name in H. bool_split. by apply path_components_ok, component_path.
  - by apply path_components_ok, nqn_path.
  - by apply path_components_ok, nqn_path, csi_nqn_nqn.
  - apply ns_uuid_shape in H as (_ & Hf & H). apply path_components_ok.
    by eapply first_char_path_component.
  - by apply path_components_ok, iqn_path.
  - by apply path_components_ok, block_dev_path.
  - by apply device_path_parts.
  - unfold vdev_target in H. apply orb_True in H as [H|H]; [by apply device_path_parts|].
    destruct (split_once "-" s) as [[kw idx]|] eqn:Ho; [|done].
    apply split_once_Some in Ho as [-> _]. bool_split.
    assert (Hkw : Forall (λ k, Is_true (component k)) RESERVED_VDEV_KEYWORDS)
      by (apply forallb_Forall; by vm_compute).
    rewrite Forall_forall in Hkw. specialize (Hkw kw ltac:(done)).
    unfold component in Hkw. bool_split.
    apply path_components_ok, component_path. unfold component. bool_split.
    + by apply first_char_app.
    + rewrite all_chars_app. change (String "-" idx) with ("-" +:+ idx).
      rewrite all_chars_app. bool_split; try done. by eapply all_chars_incl.
  - unfold netdev in H. bool_split. apply path_components_ok. split_and!; try done.
    + apply slen_pos. lia.
    + by eapply all_chars_no_slash.
  - apply pci_address_shape in H as (_ & Hf & H). apply path_components_ok.
    by eapply first_char_path_component.
  - unfold backstore_name in H. bool_split. by apply path_components_ok, component_path.
  - unfold part_label in H. bool_split. by apply path_components_ok, component_path.
  - unfold username in H. bool_split. apply path_components_ok.
    by eapply first_char_path_component.
  - unfold export_name in H. bool_split. apply path_components_ok.
    by eapply first_char_path_component.
  - unfold package_name in H. bool_split. apply path_components_ok.
    by eapply first_char_path_component.
  - unfold pool_name in H. bool_split. apply path_components_ok.
    by eapply first_char_path_component.
  - by apply path_components_ok, lvm_name_path.
  - by apply path_components_ok, lvm_name_path.
  - by apply nfs_export_path_parts.
  - by apply nfs_export_path_parts.
Qed.

(** C40: Every validated string is safe where the program puts it: it is not empty
    and has printable characters only (no space, quote, newline or NUL); apart
    from interface names it cannot be read as a command-line option; and as a
    path component or path it never climbs out of its directory. *)
Theorem validated_string_safe k (v : vstring k) :
  as_str v ≠ "" ∧ all_chars plain_char (as_str v) ∧
  (k ≠ NtNetdevName → not_flag (as_str v)) ∧
  (names_path k → Forall path_component (path_parts (as_str v))).
Proof.
  pose proof (raw_ok v) as H. destruct (validator_plain _ _ H) as [Hn Hp]. split_and!; [done|done|..].
  - intros Hk. by eapply validator_not_flag.
  - intros Hk. by eapply validator_path.
Qed.
