(* ===== verification/Wire.v ===== *)
(** * The wire codec (greendot-proto/src/convert.rs)

    Messages of the helper protocol as records of plain strings and integers (the
    schema is proto/helper.proto; an enumeration field is an integer), the enum
    codes, and the conversions of the desired-state documents. A conversion is an
    instance of [Conv]; its law says that the ingress inverts the egress and that
    it accepts exactly the canonical encodings of valid values. *)
From Stdlib Require Import Ascii String.
From stdpp Require Import base option list strings sets gmap pretty.
From S2P Require Import Prelude Ordered Validate IpAddr Types.
#[local] Open Scope string_scope.
#[local] Open Scope list_scope.
#[local] Open Scope N_scope.

Definition ConvertError : Type := string.
Abbreviation conv := (result ConvertError).

(** ** Helpers *)

(** [$name::new(s)?] in a conversion. *)
Definition validate (k : newtype) (s : string) : conv (vstring k) :=
  map_err show_ValidationError (new k s).
Definition to_u16 (v : u32) (what : string) : conv u16 :=
  ok_or (what +:+ " out of u16 range: " +:+ show_uint v) (refine (fits 16) (raw v)).
Definition to_u8 (v : u32) (what : string) : conv u8 :=
  ok_or (what +:+ " out of u8 range: " +:+ show_uint v) (refine (fits 8) (raw v)).
Definition wire_ip (s : string) : conv IpAddr :=
  ok_or ("invalid IP address: " +:+ debug_str s) (parse_ip s).
Definition map_new (k : newtype) (v : list string) : conv (list (vstring k)) := mapM (validate k) v.
Definition strs {k} (v : list (vstring k)) : list string := as_str <$> v.
(** [Option::map(f).transpose()]. *)
Definition transpose {A B} (f : A → conv B) (o : option A) : conv (option B) :=
  match o with Some a => b ← f a; mret (Some b) | None => mret None end.
Definition parse_addrs (v : list string) : list IpAddr := omap parse_ip v.
Definition addr_strs (v : list IpAddr) : list string := show_ip <$> v.
(** [u32::from] of a narrower integer. *)
Lemma widen_ok w (x : uint w) : w <= 32 → fits 32 (raw x).
Proof.
  intros Hw. apply fits_spec. pose proof (uint_lt x). eapply N.lt_le_trans; [done|]. by apply N.pow_le_mono_r.
Qed.
Definition of_u16 (x : u16) : u32 := Refine (raw x) (widen_ok 16 x ltac:(done)).
Definition of_u8 (x : u8) : u32 := Refine (raw x) (widen_ok 8 x ltac:(done)).

(** ** Enumerations

    The codes of the schema; 0 is the unspecified value. *)

Definition transport_pb (t : Transport) : Z := match t with Rdma => 1 | Tcp => 2 | Loop => 3 end%Z.
Definition dec_transport (i : Z) : conv Transport :=
  match i with
  | 1 => Ok Rdma | 2 => Ok Tcp | 3 => Ok Loop
  | 0 => Err "unspecified transport"
  | _ => Err ("unknown transport " +:+ show_Z i)
  end%Z.
Definition vdev_layout_pb (v : VdevLayout) : Z :=
  match v with Stripe => 1 | Mirror => 2 | Raidz1 => 3 | Raidz2 => 4 | Raidz3 => 5 end%Z.
Definition dec_vdev (i : Z) : conv VdevLayout :=
  match i with
  | 1 => Ok Stripe | 2 => Ok Mirror | 3 => Ok Raidz1 | 4 => Ok Raidz2 | 5 => Ok Raidz3
  | 0 => Err "unspecified vdev layout"
  | _ => Err ("unknown vdev layout " +:+ show_Z i)
  end%Z.
Definition vdev_class_pb (v : VdevClass) : Z :=
  match v with Data => 1 | Special => 2 | Log => 3 | Dedup => 4 | Cache => 5 | Spare => 6 end%Z.
Definition dec_vdev_class (i : Z) : conv VdevClass :=
  match i with
  | 1 => Ok Data | 2 => Ok Special | 3 => Ok Log | 4 => Ok Dedup | 5 => Ok Cache | 6 => Ok Spare
  | 0 => Err "unspecified vdev class"
  | _ => Err ("unknown vdev class " +:+ show_Z i)
  end%Z.
Definition lvm_report_pb (r : LvmReport) : Z := match r with Vgs => 1 | Lvs => 2 | Pvs => 3 end%Z.
Definition dec_lvm_report (i : Z) : conv LvmReport :=
  match i with
  | 1 => Ok Vgs | 2 => Ok Lvs | 3 => Ok Pvs
  | 0 => Err "unspecified lvm report"
  | _ => Err ("unknown lvm report " +:+ show_Z i)
  end%Z.
(** [zfs_value_pb!]: the code of a variant is its place in the enumeration. *)
Class ZfsValuePb (A : Type) `{ZfsValue A} := { value_pb : A → Z; value_of_pb : Z → option A }.
#[export] Instance Compression_pb : ZfsValuePb Compression := {|
  value_pb c := match c with CompOff => 1 | CompLz4 => 2 | CompZstd => 3 end%Z;
  value_of_pb i := match i with 1 => Some CompOff | 2 => Some CompLz4 | 3 => Some CompZstd | _ => None end%Z |}.
#[export] Instance ZvolSync_pb : ZfsValuePb ZvolSync := {|
  value_pb c := match c with SyncStandard => 1 | SyncAlways => 2 | SyncDisabled => 3 end%Z;
  value_of_pb i := match i with
                   | 1 => Some SyncStandard | 2 => Some SyncAlways | 3 => Some SyncDisabled | _ => None end%Z |}.
#[export] Instance VolMode_pb : ZfsValuePb VolMode := {|
  value_pb c := match c with VolDefault => 1 | VolFull => 2 | VolDev => 3 | VolNone => 4 end%Z;
  value_of_pb i := match i with
                   | 1 => Some VolDefault | 2 => Some VolFull | 3 => Some VolDev | 4 => Some VolNone | _ => None end%Z |}.
#[export] Instance PrimaryCache_pb : ZfsValuePb PrimaryCache := {|
  value_pb c := match c with CacheAll => 1 | CacheMetadata => 2 | CacheNone => 3 end%Z;
  value_of_pb i := match i with
                   | 1 => Some CacheAll | 2 => Some CacheMetadata | 3 => Some CacheNone | _ => None end%Z |}.
#[export] Instance LogBias_pb : ZfsValuePb LogBias := {|
  value_pb c := match c with BiasLatency => 1 | BiasThroughput => 2 end%Z;
  value_of_pb i := match i with 1 => Some BiasLatency | 2 => Some BiasThroughput | _ => None end%Z |}.
Definition value_try_from (A : Type) `{ZfsValuePb A} (i : Z) : conv A :=
  match value_of_pb i with
  | Some v => Ok v
  | None => if (i =? 0)%Z then Err ("unspecified " +:+ PROP (A:=A)) else Err ("unknown " +:+ PROP (A:=A) +:+ " " +:+ show_Z i)
  end.
Definition dec_opt (A : Type) `{ZfsValuePb A} (i : option Z) : conv (option A) := transpose (value_try_from A) i.

(** ** Conversions and their laws *)

Class Conv (W D : Type) := { try_from : W → conv D; into : D → W }.
(** [valid]: what the ingress demands beyond the types; [canon]: the canonical
    spelling of a message (an IP address has several). *)
Class ConvLaw (W D : Type) {c : Conv W D} := {
  valid : D → Prop;
  canon : W → W;
  try_into : ∀ d, valid d → try_from (into d) = Ok d;
  into_try : ∀ w d, try_from w = Ok d → valid d ∧ into d = canon w }.

Lemma validate_Ok k s v : validate k s = Ok v ↔ as_str v = s.
Proof.
  unfold validate, new. destruct (refine (validator k) s) as [x|] eqn:E; cbn.
  - apply refine_Some in E. subst s. split; [by intros [= ->]|]. intros H. f_equal. by apply raw_inj.
  - split; [done|]. intros <-. unfold as_str in E. by rewrite refine_raw in E.
Qed.
Lemma to_u16_Ok v what x : to_u16 v what = Ok x ↔ of_u16 x = v.
Proof.
  unfold to_u16. destruct (refine (fits 16) (raw v)) as [y|] eqn:E; cbn.
  - apply refine_Some in E. split.
    + intros [= ->]. by apply raw_inj.
    + intros <-. f_equal. by apply raw_inj.
  - split; [done|]. intros <-. change (raw (of_u16 x)) with (raw x) in E. by rewrite refine_raw in E.
Qed.
Lemma to_u8_Ok v what x : to_u8 v what = Ok x ↔ of_u8 x = v.
Proof.
  unfold to_u8. destruct (refine (fits 8) (raw v)) as [y|] eqn:E; cbn.
  - apply refine_Some in E. split.
    + intros [= ->]. by apply raw_inj.
    + intros <-. f_equal. by apply raw_inj.
  - split; [done|]. intros <-. change (raw (of_u8 x)) with (raw x) in E. by rewrite refine_raw in E.
Qed.
Lemma map_new_Ok k l v : map_new k l = Ok v ↔ strs v = l.
Proof.
  unfold map_new. rewrite mapM_Ok. unfold strs. split.
  - intros H. induction H as [|a b l v H _ IH]; [done|]. cbn. apply validate_Ok in H. by subst.
  - intros <-. induction v as [|x v IH]; cbn; constructor; [by apply validate_Ok|done].
Qed.
Lemma transpose_Ok {A B} (f : A → conv B) (g : B → A) o v :
  (∀ a b, f a = Ok b ↔ g b = a) → transpose f o = Ok v ↔ g <$> v = o.
Proof.
  intros Hf. destruct o as [a|]; cbn.
  - destruct (f a) as [b|e] eqn:E; cbn.
    + apply Hf in E as <-. split; [by intros [= <-]|]. destruct v as [b'|]; [|done].
      intros [= E]. f_equal. f_equal. enough (Ok b = Ok b' :> conv B) by congruence.
      rewrite <- (proj2 (Hf (g b) b) eq_refl). by apply Hf.
    + split; [done|]. destruct v as [b'|]; [|done]. intros [= <-]. by rewrite (proj2 (Hf _ _) eq_refl) in E.
  - split; [by intros [= <-]|]. by destruct v.
Qed.
Lemma dec_transport_Ok i t : dec_transport i = Ok t ↔ transport_pb t = i.
Proof. split; [|by intros <-; destruct t]. unfold dec_transport. by repeat case_match; intros [= <-]. Qed.
Lemma dec_vdev_Ok i v : dec_vdev i = Ok v ↔ vdev_layout_pb v = i.
Proof. split; [|by intros <-; destruct v]. unfold dec_vdev. by repeat case_match; intros [= <-]. Qed.
Lemma dec_vdev_class_Ok i v : dec_vdev_class i = Ok v ↔ vdev_class_pb v = i.
Proof. split; [|by intros <-; destruct v]. unfold dec_vdev_class. by repeat case_match; intros [= <-]. Qed.
Lemma dec_lvm_report_Ok i r : dec_lvm_report i = Ok r ↔ lvm_report_pb r = i.
Proof. split; [|by intros <-; destruct r]. unfold dec_lvm_report. by repeat case_match; intros [= <-]. Qed.
Class ZfsValuePbLaw (A : Type) `{ZfsValuePb A} :=
  value_of_pb_Some : ∀ i (v : A), value_of_pb i = Some v ↔ value_pb v = i.
#[export] Instance Compression_pb_law : ZfsValuePbLaw Compression.
Proof. intros i v. split; [|by intros <-; destruct v]. cbn. repeat case_match; intros; by simplify_eq. Qed.
#[export] Instance ZvolSync_pb_law : ZfsValuePbLaw ZvolSync.
Proof. intros i v. split; [|by intros <-; destruct v]. cbn. repeat case_match; intros; by simplify_eq. Qed.
#[export] Instance VolMode_pb_law : ZfsValuePbLaw VolMode.
Proof. intros i v. split; [|by intros <-; destruct v]. cbn. repeat case_match; intros; by simplify_eq. Qed.
#[export] Instance PrimaryCache_pb_law : ZfsValuePbLaw PrimaryCache.
Proof. intros i v. split; [|by intros <-; destruct v]. cbn. repeat case_match; intros; by simplify_eq. Qed.
#[export] Instance LogBias_pb_law : ZfsValuePbLaw LogBias.
Proof. intros i v. split; [|by intros <-; destruct v]. cbn. repeat case_match; intros; by simplify_eq. Qed.
Lemma value_try_from_Ok `{ZfsValuePbLaw A} i (v : A) : value_try_from A i = Ok v ↔ value_pb v = i.
Proof.
  rewrite <- value_of_pb_Some. unfold value_try_from. destruct (value_of_pb i); [naive_solver|].
  by case_match.
Qed.
Lemma dec_opt_Ok `{ZfsValuePbLaw A} i (v : option A) : dec_opt A i = Ok v ↔ value_pb <$> v = i.
Proof. apply transpose_Ok. intros. apply value_try_from_Ok. Qed.
Lemma opt_new_Ok k i v : transpose (validate k) i = Ok v ↔ as_str <$> v = i.
Proof. apply transpose_Ok. intros. apply validate_Ok. Qed.
Lemma opt_u8_Ok i what v : transpose (λ x, to_u8 x what) i = Ok v ↔ of_u8 <$> v = i.
Proof. apply transpose_Ok. intros. apply to_u8_Ok. Qed.
(** An address has several spellings; the egress writes the canonical one. *)
Definition canon_ip (s : string) : string := match parse_ip s with Some ip => show_ip ip | None => s end.
Lemma wire_ip_show ip : wire_ip (show_ip ip) = Ok ip.
Proof. unfold wire_ip. by rewrite parse_show_ip. Qed.
Lemma wire_ip_Ok s ip : wire_ip s = Ok ip → show_ip ip = canon_ip s.
Proof. unfold wire_ip, canon_ip. destruct (parse_ip s); [by intros [= ->]|done]. Qed.
Lemma conv_bind_Ok {A B} (m : conv A) (f : A → conv B) b :
  (m ≫= f) = Ok b ↔ ∃ a, m = Ok a ∧ f a = Ok b.
Proof. destruct m as [a|e]; cbn; [naive_solver|]. split; [done|by intros (? & ? & ?)]. Qed.
Lemma conv_ok_bind {A B} (a : A) (f : A → conv B) : (Ok a ≫= f) = f a.
Proof. done. Qed.
(** A list of nested messages. *)
Definition map_try `{Conv W D} (v : list W) : conv (list D) := mapM try_from v.
Lemma map_try_into `{ConvLaw W D} (v : list D) : Forall valid v → map_try (into <$> v) = Ok v.
Proof. intros Hv. apply mapM_Ok. induction Hv as [|d v Hd _ IH]; cbn; constructor; [by apply try_into|done]. Qed.
Lemma map_try_Ok `{ConvLaw W D} (l : list W) (v : list D) :
  map_try l = Ok v → Forall valid v ∧ into <$> v = canon <$> l.
Proof.
  intros E%mapM_Ok. induction E as [|w d l v E _ [IH1 IH2]]; [done|].
  apply into_try in E as [Hv Hi]. split; [by constructor|]. cbn. congruence.
Qed.

(** Read a successful conversion field by field. *)
Ltac conv_inv H :=
  repeat lazymatch type of H with
  | (_ ≫= _) = Ok _ =>
      let a := fresh "x" in let E := fresh "E" in
      apply conv_bind_Ok in H as (a & E & H); conv_field E
  | mret _ = Ok _ => injection H as <-
  | Ok _ = Ok _ => injection H as <-
  end
with conv_field E :=
  lazymatch type of E with
  | validate _ _ = Ok _ => apply validate_Ok in E
  | to_u16 _ _ = Ok _ => apply to_u16_Ok in E
  | to_u8 _ _ = Ok _ => apply to_u8_Ok in E
  | map_new _ _ = Ok _ => apply map_new_Ok in E
  | transpose (validate _) _ = Ok _ => apply opt_new_Ok in E
  | transpose (λ _, to_u8 _ _) _ = Ok _ => apply opt_u8_Ok in E
  | dec_opt _ _ = Ok _ => apply dec_opt_Ok in E
  | dec_transport _ = Ok _ => apply dec_transport_Ok in E
  | dec_vdev _ = Ok _ => apply dec_vdev_Ok in E
  | dec_vdev_class _ = Ok _ => apply dec_vdev_class_Ok in E
  | dec_lvm_report _ = Ok _ => apply dec_lvm_report_Ok in E
  | wire_ip _ = Ok _ => apply wire_ip_Ok in E
  | map_try _ = Ok _ => apply map_try_Ok in E as [? E]
  | _ => idtac
  end.
(** Compute a conversion of an encoded value field by field. *)
Ltac conv_step :=
  lazymatch goal with
  | |- (Ok _ ≫= _) = _ => rewrite conv_ok_bind
  | |- (validate ?k (as_str ?v) ≫= _) = _ => rewrite (proj2 (validate_Ok k _ v) eq_refl)
  | |- (to_u16 (of_u16 ?x) ?w ≫= _) = _ => rewrite (proj2 (to_u16_Ok _ w x) eq_refl)
  | |- (to_u8 (of_u8 ?x) ?w ≫= _) = _ => rewrite (proj2 (to_u8_Ok _ w x) eq_refl)
  | |- (map_new ?k (strs ?v) ≫= _) = _ => rewrite (proj2 (map_new_Ok k _ v) eq_refl)
  | |- (transpose (validate ?k) (as_str <$> ?v) ≫= _) = _ => rewrite (proj2 (opt_new_Ok k _ v) eq_refl)
  | |- (transpose (λ x, to_u8 x ?w) (of_u8 <$> ?v) ≫= _) = _ => rewrite (proj2 (opt_u8_Ok _ w v) eq_refl)
  | |- (dec_opt ?A (value_pb <$> ?v) ≫= _) = _ => rewrite (proj2 (dec_opt_Ok _ v) eq_refl)
  | |- (dec_transport (transport_pb ?t) ≫= _) = _ => rewrite (proj2 (dec_transport_Ok _ t) eq_refl)
  | |- (dec_vdev (vdev_layout_pb ?t) ≫= _) = _ => rewrite (proj2 (dec_vdev_Ok _ t) eq_refl)
  | |- (dec_vdev_class (vdev_class_pb ?t) ≫= _) = _ => rewrite (proj2 (dec_vdev_class_Ok _ t) eq_refl)
  | |- (dec_lvm_report (lvm_report_pb ?t) ≫= _) = _ => rewrite (proj2 (dec_lvm_report_Ok _ t) eq_refl)
  | |- (wire_ip (show_ip ?ip) ≫= _) = _ => rewrite (wire_ip_show ip)
  | |- (map_try (into <$> ?v) ≫= _) = _ => rewrite (map_try_into v) by done
  end.

(** The two halves of a law: [conv_out] for an encoded value, [conv_in] for an
    accepted message. *)
Ltac conv_out d Hv := destruct_and? Hv; repeat conv_step; by destruct d.
Ltac conv_in w :=
  split_and?; try done;
  repeat match goal with E : _ = _ |- _ => rewrite E; clear E end; by destruct w.

(** ** Desired-state documents *)

Record pb_NvmetNsSpec : Type := { pb_ns_nsid : u32; pb_ns_device_path : string }.
Definition NvmetNsSpec_try_from (m : pb_NvmetNsSpec) : conv NvmetNsSpec :=
  device_path ← validate NtDevicePath (pb_ns_device_path m);
  mret {| ns_nsid := pb_ns_nsid m; ns_device_path := device_path |}.
Definition NvmetNsSpec_into (d : NvmetNsSpec) : pb_NvmetNsSpec :=
  {| pb_ns_nsid := ns_nsid d; pb_ns_device_path := as_str (ns_device_path d) |}.
#[export] Instance NvmetNsSpec_conv : Conv pb_NvmetNsSpec NvmetNsSpec := {| try_from := NvmetNsSpec_try_from; into := NvmetNsSpec_into |}.
#[export] Instance NvmetNsSpec_law : ConvLaw pb_NvmetNsSpec NvmetNsSpec.
Proof.
  refine {| valid := λ _, True; canon := λ w, w |}; cbn [try_from into NvmetNsSpec_conv].
  - intros d Hv. unfold NvmetNsSpec_try_from, NvmetNsSpec_into; cbn [pb_ns_nsid pb_ns_device_path]. conv_out d Hv.
  - intros w d H. unfold NvmetNsSpec_try_from in H. conv_inv H. unfold NvmetNsSpec_into; cbn [ns_nsid ns_device_path]. conv_in w.
Defined.

Record pb_NvmetSubsysSpec : Type := { pb_sub_nqn : string; pb_sub_allow_any_host : bool; pb_sub_allowed_hosts : list string; pb_sub_namespaces : list pb_NvmetNsSpec }.
Definition NvmetSubsysSpec_try_from (m : pb_NvmetSubsysSpec) : conv NvmetSubsysSpec :=
  nqn ← validate NtNqn (pb_sub_nqn m);
  allowed_hosts ← map_new NtNqn (pb_sub_allowed_hosts m);
  namespaces ← map_try (pb_sub_namespaces m);
  mret {| sub_nqn := nqn; sub_allow_any_host := pb_sub_allow_any_host m; sub_allowed_hosts := allowed_hosts; sub_namespaces := namespaces |}.
Definition NvmetSubsysSpec_into (d : NvmetSubsysSpec) : pb_NvmetSubsysSpec :=
  {| pb_sub_nqn := as_str (sub_nqn d); pb_sub_allow_any_host := sub_allow_any_host d; pb_sub_allowed_hosts := strs (sub_allowed_hosts d); pb_sub_namespaces := into <$> (sub_namespaces d) |}.
#[export] Instance NvmetSubsysSpec_conv : Conv pb_NvmetSubsysSpec NvmetSubsysSpec := {| try_from := NvmetSubsysSpec_try_from; into := NvmetSubsysSpec_into |}.
#[export] Instance NvmetSubsysSpec_law : ConvLaw pb_NvmetSubsysSpec NvmetSubsysSpec.
Proof.
  refine {| valid := λ d, Forall valid (sub_namespaces d); canon := λ w, {| pb_sub_nqn := pb_sub_nqn w; pb_sub_allow_any_host := pb_sub_allow_any_host w; pb_sub_allowed_hosts := pb_sub_allowed_hosts w; pb_sub_namespaces := canon <$> pb_sub_namespaces w |} |}; cbn [try_from into NvmetSubsysSpec_conv].
  - intros d Hv. unfold NvmetSubsysSpec_try_from, NvmetSubsysSpec_into; cbn [pb_sub_nqn pb_sub_allow_any_host pb_sub_allowed_hosts pb_sub_namespaces]. conv_out d Hv.
  - intros w d H. unfold NvmetSubsysSpec_try_from in H. conv_inv H. unfold NvmetSubsysSpec_into; cbn [sub_nqn sub_allow_any_host sub_allowed_hosts sub_namespaces]. conv_in w.
Defined.

Record pb_NvmetPortSpec : Type := { pb_port_id : u32; pb_port_trtype : Z; pb_port_traddr : string; pb_port_trsvcid : u32; pb_port_subsystems : list string }.
Definition NvmetPortSpec_try_from (m : pb_NvmetPortSpec) : conv NvmetPortSpec :=
  id ← to_u16 (pb_port_id m) "port id";
  trtype ← dec_transport (pb_port_trtype m);
  traddr ← wire_ip (pb_port_traddr m);
  trsvcid ← to_u16 (pb_port_trsvcid m) "trsvcid";
  subsystems ← map_new NtNqn (pb_port_subsystems m);
  mret {| port_id := id; port_trtype := trtype; port_traddr := traddr; port_trsvcid := trsvcid; port_subsystems := subsystems |}.
Definition NvmetPortSpec_into (d : NvmetPortSpec) : pb_NvmetPortSpec :=
  {| pb_port_id := of_u16 (port_id d); pb_port_trtype := transport_pb (port_trtype d); pb_port_traddr := show_ip (port_traddr d); pb_port_trsvcid := of_u16 (port_trsvcid d); pb_port_subsystems := strs (port_subsystems d) |}.
#[export] Instance NvmetPortSpec_conv : Conv pb_NvmetPortSpec NvmetPortSpec := {| try_from := NvmetPortSpec_try_from; into := NvmetPortSpec_into |}.
#[export] Instance NvmetPortSpec_law : ConvLaw pb_NvmetPortSpec NvmetPortSpec.
Proof.
  refine {| valid := λ _, True; canon := λ w, {| pb_port_id := pb_port_id w; pb_port_trtype := pb_port_trtype w; pb_port_traddr := canon_ip (pb_port_traddr w); pb_port_trsvcid := pb_port_trsvcid w; pb_port_subsystems := pb_port_subsystems w |} |}; cbn [try_from into NvmetPortSpec_conv].
  - intros d Hv. unfold NvmetPortSpec_try_from, NvmetPortSpec_into; cbn [pb_port_id pb_port_trtype pb_port_traddr pb_port_trsvcid pb_port_subsystems]. conv_out d Hv.
  - intros w d H. unfold NvmetPortSpec_try_from in H. conv_inv H. unfold NvmetPortSpec_into; cbn [port_id port_trtype port_traddr port_trsvcid port_subsystems]. conv_in w.
Defined.

Record pb_NvmetDesired : Type := { pb_nd_subsystems : list pb_NvmetSubsysSpec; pb_nd_ports : list pb_NvmetPortSpec }.
Definition NvmetDesired_try_from (m : pb_NvmetDesired) : conv NvmetDesired :=
  subsystems ← map_try (pb_nd_subsystems m);
  ports ← map_try (pb_nd_ports m);
  mret {| nd_subsystems := subsystems; nd_ports := ports |}.
Definition NvmetDesired_into (d : NvmetDesired) : pb_NvmetDesired :=
  {| pb_nd_subsystems := into <$> (nd_subsystems d); pb_nd_ports := into <$> (nd_ports d) |}.
#[export] Instance NvmetDesired_conv : Conv pb_NvmetDesired NvmetDesired := {| try_from := NvmetDesired_try_from; into := NvmetDesired_into |}.
#[export] Instance NvmetDesired_law : ConvLaw pb_NvmetDesired NvmetDesired.
Proof.
  refine {| valid := λ d, Forall valid (nd_subsystems d) ∧ Forall valid (nd_ports d); canon := λ w, {| pb_nd_subsystems := canon <$> pb_nd_subsystems w; pb_nd_ports := canon <$> pb_nd_ports w |} |}; cbn [try_from into NvmetDesired_conv].
  - intros d Hv. unfold NvmetDesired_try_from, NvmetDesired_into; cbn [pb_nd_subsystems pb_nd_ports]. conv_out d Hv.
  - intros w d H. unfold NvmetDesired_try_from in H. conv_inv H. unfold NvmetDesired_into; cbn [nd_subsystems nd_ports]. conv_in w.
Defined.

Record pb_LioBackstoreSpec : Type := { pb_bs_name : string; pb_bs_device_path : string }.
Definition LioBackstoreSpec_try_from (m : pb_LioBackstoreSpec) : conv LioBackstoreSpec :=
  name ← validate NtBackstoreName (pb_bs_name m);
  device_path ← validate NtDevicePath (pb_bs_device_path m);
  mret {| bs_name := name; bs_device_path := device_path |}.
Definition LioBackstoreSpec_into (d : LioBackstoreSpec) : pb_LioBackstoreSpec :=
  {| pb_bs_name := as_str (bs_name d); pb_bs_device_path := as_str (bs_device_path d) |}.
#[export] Instance LioBackstoreSpec_conv : Conv pb_LioBackstoreSpec LioBackstoreSpec := {| try_from := LioBackstoreSpec_try_from; into := LioBackstoreSpec_into |}.
#[export] Instance LioBackstoreSpec_law : ConvLaw pb_LioBackstoreSpec LioBackstoreSpec.
Proof.
  refine {| valid := λ _, True; canon := λ w, w |}; cbn [try_from into LioBackstoreSpec_conv].
  - intros d Hv. unfold LioBackstoreSpec_try_from, LioBackstoreSpec_into; cbn [pb_bs_name pb_bs_device_path]. conv_out d Hv.
  - intros w d H. unfold LioBackstoreSpec_try_from in H. conv_inv H. unfold LioBackstoreSpec_into; cbn [bs_name bs_device_path]. conv_in w.
Defined.

Record pb_LioLunSpec : Type := { pb_lun_lun : u32; pb_lun_backstore : string }.
Definition LioLunSpec_try_from (m : pb_LioLunSpec) : conv LioLunSpec :=
  backstore ← validate NtBackstoreName (pb_lun_backstore m);
  mret {| lun_lun := pb_lun_lun m; lun_backstore := backstore |}.
Definition LioLunSpec_into (d : LioLunSpec) : pb_LioLunSpec :=
  {| pb_lun_lun := lun_lun d; pb_lun_backstore := as_str (lun_backstore d) |}.
#[export] Instance LioLunSpec_conv : Conv pb_LioLunSpec LioLunSpec := {| try_from := LioLunSpec_try_from; into := LioLunSpec_into |}.
#[export] Instance LioLunSpec_law : ConvLaw pb_LioLunSpec LioLunSpec.
Proof.
  refine {| valid := λ _, True; canon := λ w, w |}; cbn [try_from into LioLunSpec_conv].
  - intros d Hv. unfold LioLunSpec_try_from, LioLunSpec_into; cbn [pb_lun_lun pb_lun_backstore]. conv_out d Hv.
  - intros w d H. unfold LioLunSpec_try_from in H. conv_inv H. unfold LioLunSpec_into; cbn [lun_lun lun_backstore]. conv_in w.
Defined.

Record pb_LioPortalSpec : Type := { pb_portal_addr : string; pb_portal_port : u32; pb_portal_iser : bool }.
Definition LioPortalSpec_try_from (m : pb_LioPortalSpec) : conv LioPortalSpec :=
  addr ← wire_ip (pb_portal_addr m);
  port ← to_u16 (pb_portal_port m) "portal port";
  mret {| portal_addr := addr; portal_port := port; portal_iser := pb_portal_iser m |}.
Definition LioPortalSpec_into (d : LioPortalSpec) : pb_LioPortalSpec :=
  {| pb_portal_addr := show_ip (portal_addr d); pb_portal_port := of_u16 (portal_port d); pb_portal_iser := portal_iser d |}.
#[export] Instance LioPortalSpec_conv : Conv pb_LioPortalSpec LioPortalSpec := {| try_from := LioPortalSpec_try_from; into := LioPortalSpec_into |}.
#[export] Instance LioPortalSpec_law : ConvLaw pb_LioPortalSpec LioPortalSpec.
Proof.
  refine {| valid := λ _, True; canon := λ w, {| pb_portal_addr := canon_ip (pb_portal_addr w); pb_portal_port := pb_portal_port w; pb_portal_iser := pb_portal_iser w |} |}; cbn [try_from into LioPortalSpec_conv].
  - intros d Hv. unfold LioPortalSpec_try_from, LioPortalSpec_into; cbn [pb_portal_addr pb_portal_port pb_portal_iser]. conv_out d Hv.
  - intros w d H. unfold LioPortalSpec_try_from in H. conv_inv H. unfold LioPortalSpec_into; cbn [portal_addr portal_port portal_iser]. conv_in w.
Defined.

Record pb_LioTargetSpec : Type := { pb_tgt_iqn : string; pb_tgt_enabled : bool; pb_tgt_demo_mode : bool; pb_tgt_luns : list pb_LioLunSpec; pb_tgt_portals : list pb_LioPortalSpec; pb_tgt_acls : list string }.
Definition LioTargetSpec_try_from (m : pb_LioTargetSpec) : conv LioTargetSpec :=
  iqn ← validate NtIqn (pb_tgt_iqn m);
  luns ← map_try (pb_tgt_luns m);
  portals ← map_try (pb_tgt_portals m);
  acls ← map_new NtIqn (pb_tgt_acls m);
  mret {| tgt_iqn := iqn; tgt_enabled := pb_tgt_enabled m; tgt_demo_mode := pb_tgt_demo_mode m; tgt_luns := luns; tgt_portals := portals; tgt_acls := acls |}.
Definition LioTargetSpec_into (d : LioTargetSpec) : pb_LioTargetSpec :=
  {| pb_tgt_iqn := as_str (tgt_iqn d); pb_tgt_enabled := tgt_enabled d; pb_tgt_demo_mode := tgt_demo_mode d; pb_tgt_luns := into <$> (tgt_luns d); pb_tgt_portals := into <$> (tgt_portals d); pb_tgt_acls := strs (tgt_acls d) |}.
#[export] Instance LioTargetSpec_conv : Conv pb_LioTargetSpec LioTargetSpec := {| try_from := LioTargetSpec_try_from; into := LioTargetSpec_into |}.
#[export] Instance LioTargetSpec_law : ConvLaw pb_LioTargetSpec LioTargetSpec.
Proof.
  refine {| valid := λ d, Forall valid (tgt_luns d) ∧ Forall valid (tgt_portals d); canon := λ w, {| pb_tgt_iqn := pb_tgt_iqn w; pb_tgt_enabled := pb_tgt_enabled w; pb_tgt_demo_mode := pb_tgt_demo_mode w; pb_tgt_luns := canon <$> pb_tgt_luns w; pb_tgt_portals := canon <$> pb_tgt_portals w; pb_tgt_acls := pb_tgt_acls w |} |}; cbn [try_from into LioTargetSpec_conv].
  - intros d Hv. unfold LioTargetSpec_try_from, LioTargetSpec_into; cbn [pb_tgt_iqn pb_tgt_enabled pb_tgt_demo_mode pb_tgt_luns pb_tgt_portals pb_tgt_acls]. conv_out d Hv.
  - intros w d H. unfold LioTargetSpec_try_from in H. conv_inv H. unfold LioTargetSpec_into; cbn [tgt_iqn tgt_enabled tgt_demo_mode tgt_luns tgt_portals tgt_acls]. conv_in w.
Defined.

Record pb_LioDesired : Type := { pb_ld_backstores : list pb_LioBackstoreSpec; pb_ld_targets : list pb_LioTargetSpec }.
Definition LioDesired_try_from (m : pb_LioDesired) : conv LioDesired :=
  backstores ← map_try (pb_ld_backstores m);
  targets ← map_try (pb_ld_targets m);
  mret {| ld_backstores := backstores; ld_targets := targets |}.
Definition LioDesired_into (d : LioDesired) : pb_LioDesired :=
  {| pb_ld_backstores := into <$> (ld_backstores d); pb_ld_targets := into <$> (ld_targets d) |}.
#[export] Instance LioDesired_conv : Conv pb_LioDesired LioDesired := {| try_from := LioDesired_try_from; into := LioDesired_into |}.
#[export] Instance LioDesired_law : ConvLaw pb_LioDesired LioDesired.
Proof.
  refine {| valid := λ d, Forall valid (ld_backstores d) ∧ Forall valid (ld_targets d); canon := λ w, {| pb_ld_backstores := canon <$> pb_ld_backstores w; pb_ld_targets := canon <$> pb_ld_targets w |} |}; cbn [try_from into LioDesired_conv].
  - intros d Hv. unfold LioDesired_try_from, LioDesired_into; cbn [pb_ld_backstores pb_ld_targets]. conv_out d Hv.
  - intros w d H. unfold LioDesired_try_from in H. conv_inv H. unfold LioDesired_into; cbn [ld_backstores ld_targets]. conv_in w.
Defined.

Record pb_NfsClientSpec : Type := { pb_cs_client : string; pb_cs_rw : bool }.
Definition NfsClientSpec_try_from (m : pb_NfsClientSpec) : conv NfsClientSpec :=
  client ← validate NtNfsClient (pb_cs_client m);
  mret {| cs_client := client; cs_rw := pb_cs_rw m |}.
Definition NfsClientSpec_into (d : NfsClientSpec) : pb_NfsClientSpec :=
  {| pb_cs_client := as_str (cs_client d); pb_cs_rw := cs_rw d |}.
#[export] Instance NfsClientSpec_conv : Conv pb_NfsClientSpec NfsClientSpec := {| try_from := NfsClientSpec_try_from; into := NfsClientSpec_into |}.
#[export] Instance NfsClientSpec_law : ConvLaw pb_NfsClientSpec NfsClientSpec.
Proof.
  refine {| valid := λ _, True; canon := λ w, w |}; cbn [try_from into NfsClientSpec_conv].
  - intros d Hv. unfold NfsClientSpec_try_from, NfsClientSpec_into; cbn [pb_cs_client pb_cs_rw]. conv_out d Hv.
  - intros w d H. unfold NfsClientSpec_try_from in H. conv_inv H. unfold NfsClientSpec_into; cbn [cs_client cs_rw]. conv_in w.
Defined.

Record pb_NfsExportSpec : Type := { pb_es_path : string; pb_es_fsid : u32; pb_es_clients : list pb_NfsClientSpec }.
Definition NfsExportSpec_try_from (m : pb_NfsExportSpec) : conv NfsExportSpec :=
  path ← validate NtNfsExportPath (pb_es_path m);
  clients ← map_try (pb_es_clients m);
  mret {| es_path := path; es_fsid := pb_es_fsid m; es_clients := clients |}.
Definition NfsExportSpec_into (d : NfsExportSpec) : pb_NfsExportSpec :=
  {| pb_es_path := as_str (es_path d); pb_es_fsid := es_fsid d; pb_es_clients := into <$> (es_clients d) |}.
#[export] Instance NfsExportSpec_conv : Conv pb_NfsExportSpec NfsExportSpec := {| try_from := NfsExportSpec_try_from; into := NfsExportSpec_into |}.
#[export] Instance NfsExportSpec_law : ConvLaw pb_NfsExportSpec NfsExportSpec.
Proof.
  refine {| valid := λ d, Forall valid (es_clients d); canon := λ w, {| pb_es_path := pb_es_path w; pb_es_fsid := pb_es_fsid w; pb_es_clients := canon <$> pb_es_clients w |} |}; cbn [try_from into NfsExportSpec_conv].
  - intros d Hv. unfold NfsExportSpec_try_from, NfsExportSpec_into; cbn [pb_es_path pb_es_fsid pb_es_clients]. conv_out d Hv.
  - intros w d H. unfold NfsExportSpec_try_from in H. conv_inv H. unfold NfsExportSpec_into; cbn [es_path es_fsid es_clients]. conv_in w.
Defined.

Record pb_NfsDesired : Type := { pb_nfs_exports : list pb_NfsExportSpec; pb_nfs_rdma_port : u32 }.
Definition NfsDesired_try_from (m : pb_NfsDesired) : conv NfsDesired :=
  exports ← map_try (pb_nfs_exports m);
  rdma_port ← to_u16 (pb_nfs_rdma_port m) "rdma_port";
  mret {| nfs_exports := exports; nfs_rdma_port := rdma_port |}.
Definition NfsDesired_into (d : NfsDesired) : pb_NfsDesired :=
  {| pb_nfs_exports := into <$> (nfs_exports d); pb_nfs_rdma_port := of_u16 (nfs_rdma_port d) |}.
#[export] Instance NfsDesired_conv : Conv pb_NfsDesired NfsDesired := {| try_from := NfsDesired_try_from; into := NfsDesired_into |}.
#[export] Instance NfsDesired_law : ConvLaw pb_NfsDesired NfsDesired.
Proof.
  refine {| valid := λ d, Forall valid (nfs_exports d); canon := λ w, {| pb_nfs_exports := canon <$> pb_nfs_exports w; pb_nfs_rdma_port := pb_nfs_rdma_port w |} |}; cbn [try_from into NfsDesired_conv].
  - intros d Hv. unfold NfsDesired_try_from, NfsDesired_into; cbn [pb_nfs_exports pb_nfs_rdma_port]. conv_out d Hv.
  - intros w d H. unfold NfsDesired_try_from in H. conv_inv H. unfold NfsDesired_into; cbn [nfs_exports nfs_rdma_port]. conv_in w.
Defined.
