(* ===== verification/Ops.v ===== *)
(** * The validated operations (greendot-proto/src/ops.rs)

    One record per rpc, the typed twin of its wire message, with the ingress that
    re-runs every validator and the infallible egress, and the law that ties the
    two. The request type at the end has a constructor for every rpc whose message is
    validated here; the addition of an SSH key, whose ingress also canonicalises the
    key, is added to it in Daemon.v. *)
From Stdlib Require Import Ascii String.
From stdpp Require Import base option list strings sets gmap pretty.
From S2P Require Import Prelude Ordered Validate IpAddr Types Wire.
#[local] Open Scope string_scope.
#[local] Open Scope list_scope.
#[local] Open Scope N_scope.

(** ** One-shot *)

Record Authenticate : Type := { authenticate_username : Username; authenticate_password : string }.
Record pb_Authenticate : Type := { pb_authenticate_username : string; pb_authenticate_password : string }.
Definition Authenticate_try_from (m : pb_Authenticate) : conv Authenticate :=
  username ← validate NtUsername (pb_authenticate_username m);
  mret {| authenticate_username := username; authenticate_password := pb_authenticate_password m |}.
Definition Authenticate_into (d : Authenticate) : pb_Authenticate :=
  {| pb_authenticate_username := as_str (authenticate_username d); pb_authenticate_password := authenticate_password d |}.
#[export] Instance Authenticate_conv : Conv pb_Authenticate Authenticate := {| try_from := Authenticate_try_from; into := Authenticate_into |}.
#[export] Instance Authenticate_law : ConvLaw pb_Authenticate Authenticate.
Proof.
  refine {| valid := λ _, True; canon := λ w, w |}; cbn [try_from into Authenticate_conv].
  - intros d Hv. unfold Authenticate_try_from, Authenticate_into; cbn [pb_authenticate_username pb_authenticate_password]. conv_out d Hv.
  - intros w d H. unfold Authenticate_try_from in H. conv_inv H. unfold Authenticate_into; cbn [authenticate_username authenticate_password]. conv_in w.
Defined.

(** ** ZFS zvols and snapshots *)

Record ZvolCreate : Type := { zvol_create_dataset : DatasetName; zvol_create_size : u64; zvol_create_volblocksize : option u32; zvol_create_sparse : bool; zvol_create_compression : option Compression; zvol_create_sync : option ZvolSync; zvol_create_volmode : option VolMode; zvol_create_primarycache : option PrimaryCache; zvol_create_logbias : option LogBias }.
Record pb_ZvolCreate : Type := { pb_zvol_create_dataset : string; pb_zvol_create_size : u64; pb_zvol_create_volblocksize : option u32; pb_zvol_create_sparse : bool; pb_zvol_create_compression : option Z; pb_zvol_create_sync : option Z; pb_zvol_create_volmode : option Z; pb_zvol_create_primarycache : option Z; pb_zvol_create_logbias : option Z }.
Definition ZvolCreate_try_from (m : pb_ZvolCreate) : conv ZvolCreate :=
  dataset ← validate NtDatasetName (pb_zvol_create_dataset m);
  compression ← dec_opt Compression (pb_zvol_create_compression m);
  sync ← dec_opt ZvolSync (pb_zvol_create_sync m);
  volmode ← dec_opt VolMode (pb_zvol_create_volmode m);
  primarycache ← dec_opt PrimaryCache (pb_zvol_create_primarycache m);
  logbias ← dec_opt LogBias (pb_zvol_create_logbias m);
  mret {| zvol_create_dataset := dataset; zvol_create_size := pb_zvol_create_size m; zvol_create_volblocksize := pb_zvol_create_volblocksize m; zvol_create_sparse := pb_zvol_create_sparse m; zvol_create_compression := compression; zvol_create_sync := sync; zvol_create_volmode := volmode; zvol_create_primarycache := primarycache; zvol_create_logbias := logbias |}.
Definition ZvolCreate_into (d : ZvolCreate) : pb_ZvolCreate :=
  {| pb_zvol_create_dataset := as_str (zvol_create_dataset d); pb_zvol_create_size := zvol_create_size d; pb_zvol_create_volblocksize := zvol_create_volblocksize d; pb_zvol_create_sparse := zvol_create_sparse d; pb_zvol_create_compression := value_pb <$> (zvol_create_compression d); pb_zvol_create_sync := value_pb <$> (zvol_create_sync d); pb_zvol_create_volmode := value_pb <$> (zvol_create_volmode d); pb_zvol_create_primarycache := value_pb <$> (zvol_create_primarycache d); pb_zvol_create_logbias := value_pb <$> (zvol_create_logbias d) |}.
#[export] Instance ZvolCreate_conv : Conv pb_ZvolCreate ZvolCreate := {| try_from := ZvolCreate_try_from; into := ZvolCreate_into |}.
#[export] Instance ZvolCreate_law : ConvLaw pb_ZvolCreate ZvolCreate.
Proof.
  refine {| valid := λ _, True; canon := λ w, w |}; cbn [try_from into ZvolCreate_conv].
  - intros d Hv. unfold ZvolCreate_try_from, ZvolCreate_into; cbn [pb_zvol_create_dataset pb_zvol_create_size pb_zvol_create_volblocksize pb_zvol_create_sparse pb_zvol_create_compression pb_zvol_create_sync pb_zvol_create_volmode pb_zvol_create_primarycache pb_zvol_create_logbias]. conv_out d Hv.
  - intros w d H. unfold ZvolCreate_try_from in H. conv_inv H. unfold ZvolCreate_into; cbn [zvol_create_dataset zvol_create_size zvol_create_volblocksize zvol_create_sparse zvol_create_compression zvol_create_sync zvol_create_volmode zvol_create_primarycache zvol_create_logbias]. conv_in w.
Defined.

Record ZvolDelete : Type := { zvol_delete_dataset : DatasetName }.
Record pb_ZvolDelete : Type := { pb_zvol_delete_dataset : string }.
Definition ZvolDelete_try_from (m : pb_ZvolDelete) : conv ZvolDelete :=
  dataset ← validate NtDatasetName (pb_zvol_delete_dataset m);
  mret {| zvol_delete_dataset := dataset |}.
Definition ZvolDelete_into (d : ZvolDelete) : pb_ZvolDelete :=
  {| pb_zvol_delete_dataset := as_str (zvol_delete_dataset d) |}.
#[export] Instance ZvolDelete_conv : Conv pb_ZvolDelete ZvolDelete := {| try_from := ZvolDelete_try_from; into := ZvolDelete_into |}.
#[export] Instance ZvolDelete_law : ConvLaw pb_ZvolDelete ZvolDelete.
Proof.
  refine {| valid := λ _, True; canon := λ w, w |}; cbn [try_from into ZvolDelete_conv].
  - intros d Hv. unfold ZvolDelete_try_from, ZvolDelete_into; cbn [pb_zvol_delete_dataset]. conv_out d Hv.
  - intros w d H. unfold ZvolDelete_try_from in H. conv_inv H. unfold ZvolDelete_into; cbn [zvol_delete_dataset]. conv_in w.
Defined.

Record ZvolResize : Type := { zvol_resize_dataset : DatasetName; zvol_resize_new_size : u64 }.
Record pb_ZvolResize : Type := { pb_zvol_resize_dataset : string; pb_zvol_resize_new_size : u64 }.
Definition ZvolResize_try_from (m : pb_ZvolResize) : conv ZvolResize :=
  dataset ← validate NtDatasetName (pb_zvol_resize_dataset m);
  mret {| zvol_resize_dataset := dataset; zvol_resize_new_size := pb_zvol_resize_new_size m |}.
Definition ZvolResize_into (d : ZvolResize) : pb_ZvolResize :=
  {| pb_zvol_resize_dataset := as_str (zvol_resize_dataset d); pb_zvol_resize_new_size := zvol_resize_new_size d |}.
#[export] Instance ZvolResize_conv : Conv pb_ZvolResize ZvolResize := {| try_from := ZvolResize_try_from; into := ZvolResize_into |}.
#[export] Instance ZvolResize_law : ConvLaw pb_ZvolResize ZvolResize.
Proof.
  refine {| valid := λ _, True; canon := λ w, w |}; cbn [try_from into ZvolResize_conv].
  - intros d Hv. unfold ZvolResize_try_from, ZvolResize_into; cbn [pb_zvol_resize_dataset pb_zvol_resize_new_size]. conv_out d Hv.
  - intros w d H. unfold ZvolResize_try_from in H. conv_inv H. unfold ZvolResize_into; cbn [zvol_resize_dataset zvol_resize_new_size]. conv_in w.
Defined.

Record SnapshotCreate : Type := { snapshot_create_dataset : DatasetName; snapshot_create_snap : SnapName }.
Record pb_SnapshotCreate : Type := { pb_snapshot_create_dataset : string; pb_snapshot_create_snap : string }.
Definition SnapshotCreate_try_from (m : pb_SnapshotCreate) : conv SnapshotCreate :=
  dataset ← validate NtDatasetName (pb_snapshot_create_dataset m);
  snap ← validate NtSnapName (pb_snapshot_create_snap m);
  mret {| snapshot_create_dataset := dataset; snapshot_create_snap := snap |}.
Definition SnapshotCreate_into (d : SnapshotCreate) : pb_SnapshotCreate :=
  {| pb_snapshot_create_dataset := as_str (snapshot_create_dataset d); pb_snapshot_create_snap := as_str (snapshot_create_snap d) |}.
#[export] Instance SnapshotCreate_conv : Conv pb_SnapshotCreate SnapshotCreate := {| try_from := SnapshotCreate_try_from; into := SnapshotCreate_into |}.
#[export] Instance SnapshotCreate_law : ConvLaw pb_SnapshotCreate SnapshotCreate.
Proof.
  refine {| valid := λ _, True; canon := λ w, w |}; cbn [try_from into SnapshotCreate_conv].
  - intros d Hv. unfold SnapshotCreate_try_from, SnapshotCreate_into; cbn [pb_snapshot_create_dataset pb_snapshot_create_snap]. conv_out d Hv.
  - intros w d H. unfold SnapshotCreate_try_from in H. conv_inv H. unfold SnapshotCreate_into; cbn [snapshot_create_dataset snapshot_create_snap]. conv_in w.
Defined.

Record SnapshotDestroy : Type := { snapshot_destroy_dataset : DatasetName; snapshot_destroy_snap : SnapName }.
Record pb_SnapshotDestroy : Type := { pb_snapshot_destroy_dataset : string; pb_snapshot_destroy_snap : string }.
Definition SnapshotDestroy_try_from (m : pb_SnapshotDestroy) : conv SnapshotDestroy :=
  dataset ← validate NtDatasetName (pb_snapshot_destroy_dataset m);
  snap ← validate NtSnapName (pb_snapshot_destroy_snap m);
  mret {| snapshot_destroy_dataset := dataset; snapshot_destroy_snap := snap |}.
Definition SnapshotDestroy_into (d : SnapshotDestroy) : pb_SnapshotDestroy :=
  {| pb_snapshot_destroy_dataset := as_str (snapshot_destroy_dataset d); pb_snapshot_destroy_snap := as_str (snapshot_destroy_snap d) |}.
#[export] Instance SnapshotDestroy_conv : Conv pb_SnapshotDestroy SnapshotDestroy := {| try_from := SnapshotDestroy_try_from; into := SnapshotDestroy_into |}.
#[export] Instance SnapshotDestroy_law : ConvLaw pb_SnapshotDestroy SnapshotDestroy.
Proof.
  refine {| valid := λ _, True; canon := λ w, w |}; cbn [try_from into SnapshotDestroy_conv].
  - intros d Hv. unfold SnapshotDestroy_try_from, SnapshotDestroy_into; cbn [pb_snapshot_destroy_dataset pb_snapshot_destroy_snap]. conv_out d Hv.
  - intros w d H. unfold SnapshotDestroy_try_from in H. conv_inv H. unfold SnapshotDestroy_into; cbn [snapshot_destroy_dataset snapshot_destroy_snap]. conv_in w.
Defined.

Definition en_dash : string := String (ascii_of_N 226) (String (ascii_of_N 128) (chr 147)).

Record ZfsClone : Type := { zfs_clone_dataset : DatasetName; zfs_clone_snap : SnapName; zfs_clone_target : DatasetName; zfs_clone_new_size : option u64; zfs_clone_restore_request_id : option string }.
Record pb_ZfsClone : Type := { pb_zfs_clone_dataset : string; pb_zfs_clone_snap : string; pb_zfs_clone_target : string; pb_zfs_clone_new_size : option u64; pb_zfs_clone_restore_request_id : option string }.
Definition ZfsClone_guard (restore_request_id : option string) : bool := match restore_request_id with Some id => is_empty id || (255 <? slen id) | None => false end.
Definition ZfsClone_try_from (m : pb_ZfsClone) : conv ZfsClone :=
  if ZfsClone_guard (pb_zfs_clone_restore_request_id m) then Err ("restore request id must contain 1" +:+ en_dash +:+ "255 bytes") else
  dataset ← validate NtDatasetName (pb_zfs_clone_dataset m);
  snap ← validate NtSnapName (pb_zfs_clone_snap m);
  target ← validate NtDatasetName (pb_zfs_clone_target m);
  mret {| zfs_clone_dataset := dataset; zfs_clone_snap := snap; zfs_clone_target := target; zfs_clone_new_size := pb_zfs_clone_new_size m; zfs_clone_restore_request_id := pb_zfs_clone_restore_request_id m |}.
Definition ZfsClone_into (d : ZfsClone) : pb_ZfsClone :=
  {| pb_zfs_clone_dataset := as_str (zfs_clone_dataset d); pb_zfs_clone_snap := as_str (zfs_clone_snap d); pb_zfs_clone_target := as_str (zfs_clone_target d); pb_zfs_clone_new_size := zfs_clone_new_size d; pb_zfs_clone_restore_request_id := zfs_clone_restore_request_id d |}.
#[export] Instance ZfsClone_conv : Conv pb_ZfsClone ZfsClone := {| try_from := ZfsClone_try_from; into := ZfsClone_into |}.
#[export] Instance ZfsClone_law : ConvLaw pb_ZfsClone ZfsClone.
Proof.
  refine {| valid := λ d, ZfsClone_guard (zfs_clone_restore_request_id d) = false; canon := λ w, w |}; cbn [try_from into ZfsClone_conv].
  - intros d Hv. unfold ZfsClone_try_from, ZfsClone_into; cbn [pb_zfs_clone_dataset pb_zfs_clone_snap pb_zfs_clone_target pb_zfs_clone_new_size pb_zfs_clone_restore_request_id]. rewrite Hv. repeat conv_step. by destruct d.
  - intros w d H. unfold ZfsClone_try_from in H. destruct (ZfsClone_guard _) eqn:Hg; [done|]. conv_inv H. unfold ZfsClone_into; cbn [zfs_clone_dataset zfs_clone_snap zfs_clone_target zfs_clone_new_size zfs_clone_restore_request_id]. conv_in w.
Defined.

Record ZvolInfo : Type := { zvol_info_dataset : DatasetName }.
Record pb_ZvolInfo : Type := { pb_zvol_info_dataset : string }.
Definition ZvolInfo_try_from (m : pb_ZvolInfo) : conv ZvolInfo :=
  dataset ← validate NtDatasetName (pb_zvol_info_dataset m);
  mret {| zvol_info_dataset := dataset |}.
Definition ZvolInfo_into (d : ZvolInfo) : pb_ZvolInfo :=
  {| pb_zvol_info_dataset := as_str (zvol_info_dataset d) |}.
#[export] Instance ZvolInfo_conv : Conv pb_ZvolInfo ZvolInfo := {| try_from := ZvolInfo_try_from; into := ZvolInfo_into |}.
#[export] Instance ZvolInfo_law : ConvLaw pb_ZvolInfo ZvolInfo.
Proof.
  refine {| valid := λ _, True; canon := λ w, w |}; cbn [try_from into ZvolInfo_conv].
  - intros d Hv. unfold ZvolInfo_try_from, ZvolInfo_into; cbn [pb_zvol_info_dataset]. conv_out d Hv.
  - intros w d H. unfold ZvolInfo_try_from in H. conv_inv H. unfold ZvolInfo_into; cbn [zvol_info_dataset]. conv_in w.
Defined.

(** ** ZFS filesystem datasets *)

Record ZfsFsCreate : Type := { zfs_fs_create_dataset : DatasetName; zfs_fs_create_mountpoint : option MountPoint }.
Record pb_ZfsFsCreate : Type := { pb_zfs_fs_create_dataset : string; pb_zfs_fs_create_mountpoint : option string }.
Definition ZfsFsCreate_try_from (m : pb_ZfsFsCreate) : conv ZfsFsCreate :=
  dataset ← validate NtDatasetName (pb_zfs_fs_create_dataset m);
  mountpoint ← transpose (validate NtMountPoint) (pb_zfs_fs_create_mountpoint m);
  mret {| zfs_fs_create_dataset := dataset; zfs_fs_create_mountpoint := mountpoint |}.
Definition ZfsFsCreate_into (d : ZfsFsCreate) : pb_ZfsFsCreate :=
  {| pb_zfs_fs_create_dataset := as_str (zfs_fs_create_dataset d); pb_zfs_fs_create_mountpoint := as_str <$> (zfs_fs_create_mountpoint d) |}.
#[export] Instance ZfsFsCreate_conv : Conv pb_ZfsFsCreate ZfsFsCreate := {| try_from := ZfsFsCreate_try_from; into := ZfsFsCreate_into |}.
#[export] Instance ZfsFsCreate_law : ConvLaw pb_ZfsFsCreate ZfsFsCreate.
Proof.
  refine {| valid := λ _, True; canon := λ w, w |}; cbn [try_from into ZfsFsCreate_conv].
  - intros d Hv. unfold ZfsFsCreate_try_from, ZfsFsCreate_into; cbn [pb_zfs_fs_create_dataset pb_zfs_fs_create_mountpoint]. conv_out d Hv.
  - intros w d H. unfold ZfsFsCreate_try_from in H. conv_inv H. unfold ZfsFsCreate_into; cbn [zfs_fs_create_dataset zfs_fs_create_mountpoint]. conv_in w.
Defined.

Record ZfsSetMountpoint : Type := { zfs_set_mountpoint_dataset : DatasetName; zfs_set_mountpoint_mountpoint : MountPoint }.
Record pb_ZfsSetMountpoint : Type := { pb_zfs_set_mountpoint_dataset : string; pb_zfs_set_mountpoint_mountpoint : string }.
Definition ZfsSetMountpoint_try_from (m : pb_ZfsSetMountpoint) : conv ZfsSetMountpoint :=
  dataset ← validate NtDatasetName (pb_zfs_set_mountpoint_dataset m);
  mountpoint ← validate NtMountPoint (pb_zfs_set_mountpoint_mountpoint m);
  mret {| zfs_set_mountpoint_dataset := dataset; zfs_set_mountpoint_mountpoint := mountpoint |}.
Definition ZfsSetMountpoint_into (d : ZfsSetMountpoint) : pb_ZfsSetMountpoint :=
  {| pb_zfs_set_mountpoint_dataset := as_str (zfs_set_mountpoint_dataset d); pb_zfs_set_mountpoint_mountpoint := as_str (zfs_set_mountpoint_mountpoint d) |}.
#[export] Instance ZfsSetMountpoint_conv : Conv pb_ZfsSetMountpoint ZfsSetMountpoint := {| try_from := ZfsSetMountpoint_try_from; into := ZfsSetMountpoint_into |}.
#[export] Instance ZfsSetMountpoint_law : ConvLaw pb_ZfsSetMountpoint ZfsSetMountpoint.
Proof.
  refine {| valid := λ _, True; canon := λ w, w |}; cbn [try_from into ZfsSetMountpoint_conv].
  - intros d Hv. unfold ZfsSetMountpoint_try_from, ZfsSetMountpoint_into; cbn [pb_zfs_set_mountpoint_dataset pb_zfs_set_mountpoint_mountpoint]. conv_out d Hv.
  - intros w d H. unfold ZfsSetMountpoint_try_from in H. conv_inv H. unfold ZfsSetMountpoint_into; cbn [zfs_set_mountpoint_dataset zfs_set_mountpoint_mountpoint]. conv_in w.
Defined.

Record ZfsSetCompression : Type := { zfs_set_compression_dataset : DatasetName; zfs_set_compression_compression : option Compression }.
Record pb_ZfsSetCompression : Type := { pb_zfs_set_compression_dataset : string; pb_zfs_set_compression_compression : option Z }.
Definition ZfsSetCompression_try_from (m : pb_ZfsSetCompression) : conv ZfsSetCompression :=
  dataset ← validate NtDatasetName (pb_zfs_set_compression_dataset m);
  compression ← dec_opt Compression (pb_zfs_set_compression_compression m);
  mret {| zfs_set_compression_dataset := dataset; zfs_set_compression_compression := compression |}.
Definition ZfsSetCompression_into (d : ZfsSetCompression) : pb_ZfsSetCompression :=
  {| pb_zfs_set_compression_dataset := as_str (zfs_set_compression_dataset d); pb_zfs_set_compression_compression := value_pb <$> (zfs_set_compression_compression d) |}.
#[export] Instance ZfsSetCompression_conv : Conv pb_ZfsSetCompression ZfsSetCompression := {| try_from := ZfsSetCompression_try_from; into := ZfsSetCompression_into |}.
#[export] Instance ZfsSetCompression_law : ConvLaw pb_ZfsSetCompression ZfsSetCompression.
Proof.
  refine {| valid := λ _, True; canon := λ w, w |}; cbn [try_from into ZfsSetCompression_conv].
  - intros d Hv. unfold ZfsSetCompression_try_from, ZfsSetCompression_into; cbn [pb_zfs_set_compression_dataset pb_zfs_set_compression_compression]. conv_out d Hv.
  - intros w d H. unfold ZfsSetCompression_try_from in H. conv_inv H. unfold ZfsSetCompression_into; cbn [zfs_set_compression_dataset zfs_set_compression_compression]. conv_in w.
Defined.

Record ZfsMount : Type := { zfs_mount_dataset : DatasetName }.
Record pb_ZfsMount : Type := { pb_zfs_mount_dataset : string }.
Definition ZfsMount_try_from (m : pb_ZfsMount) : conv ZfsMount :=
  dataset ← validate NtDatasetName (pb_zfs_mount_dataset m);
  mret {| zfs_mount_dataset := dataset |}.
Definition ZfsMount_into (d : ZfsMount) : pb_ZfsMount :=
  {| pb_zfs_mount_dataset := as_str (zfs_mount_dataset d) |}.
#[export] Instance ZfsMount_conv : Conv pb_ZfsMount ZfsMount := {| try_from := ZfsMount_try_from; into := ZfsMount_into |}.
#[export] Instance ZfsMount_law : ConvLaw pb_ZfsMount ZfsMount.
Proof.
  refine {| valid := λ _, True; canon := λ w, w |}; cbn [try_from into ZfsMount_conv].
  - intros d Hv. unfold ZfsMount_try_from, ZfsMount_into; cbn [pb_zfs_mount_dataset]. conv_out d Hv.
  - intros w d H. unfold ZfsMount_try_from in H. conv_inv H. unfold ZfsMount_into; cbn [zfs_mount_dataset]. conv_in w.
Defined.

Record ZfsUnmount : Type := { zfs_unmount_dataset : DatasetName }.
Record pb_ZfsUnmount : Type := { pb_zfs_unmount_dataset : string }.
Definition ZfsUnmount_try_from (m : pb_ZfsUnmount) : conv ZfsUnmount :=
  dataset ← validate NtDatasetName (pb_zfs_unmount_dataset m);
  mret {| zfs_unmount_dataset := dataset |}.
Definition ZfsUnmount_into (d : ZfsUnmount) : pb_ZfsUnmount :=
  {| pb_zfs_unmount_dataset := as_str (zfs_unmount_dataset d) |}.
#[export] Instance ZfsUnmount_conv : Conv pb_ZfsUnmount ZfsUnmount := {| try_from := ZfsUnmount_try_from; into := ZfsUnmount_into |}.
#[export] Instance ZfsUnmount_law : ConvLaw pb_ZfsUnmount ZfsUnmount.
Proof.
  refine {| valid := λ _, True; canon := λ w, w |}; cbn [try_from into ZfsUnmount_conv].
  - intros d Hv. unfold ZfsUnmount_try_from, ZfsUnmount_into; cbn [pb_zfs_unmount_dataset]. conv_out d Hv.
  - intros w d H. unfold ZfsUnmount_try_from in H. conv_inv H. unfold ZfsUnmount_into; cbn [zfs_unmount_dataset]. conv_in w.
Defined.

Record ZfsDestroy : Type := { zfs_destroy_dataset : DatasetName; zfs_destroy_recursive : bool }.
Record pb_ZfsDestroy : Type := { pb_zfs_destroy_dataset : string; pb_zfs_destroy_recursive : bool }.
Definition ZfsDestroy_try_from (m : pb_ZfsDestroy) : conv ZfsDestroy :=
  dataset ← validate NtDatasetName (pb_zfs_destroy_dataset m);
  mret {| zfs_destroy_dataset := dataset; zfs_destroy_recursive := pb_zfs_destroy_recursive m |}.
Definition ZfsDestroy_into (d : ZfsDestroy) : pb_ZfsDestroy :=
  {| pb_zfs_destroy_dataset := as_str (zfs_destroy_dataset d); pb_zfs_destroy_recursive := zfs_destroy_recursive d |}.
#[export] Instance ZfsDestroy_conv : Conv pb_ZfsDestroy ZfsDestroy := {| try_from := ZfsDestroy_try_from; into := ZfsDestroy_into |}.
#[export] Instance ZfsDestroy_law : ConvLaw pb_ZfsDestroy ZfsDestroy.
Proof.
  refine {| valid := λ _, True; canon := λ w, w |}; cbn [try_from into ZfsDestroy_conv].
  - intros d Hv. unfold ZfsDestroy_try_from, ZfsDestroy_into; cbn [pb_zfs_destroy_dataset pb_zfs_destroy_recursive]. conv_out d Hv.
  - intros w d H. unfold ZfsDestroy_try_from in H. conv_inv H. unfold ZfsDestroy_into; cbn [zfs_destroy_dataset zfs_destroy_recursive]. conv_in w.
Defined.

(** ** ZFS pools *)

Record PoolCreate : Type := { pool_create_name : PoolName; pool_create_vdev : VdevLayout; pool_create_devices : list DevicePath; pool_create_ashift : option u8 }.
Record pb_PoolCreate : Type := { pb_pool_create_name : string; pb_pool_create_vdev : Z; pb_pool_create_devices : list string; pb_pool_create_ashift : option u32 }.
Definition PoolCreate_try_from (m : pb_PoolCreate) : conv PoolCreate :=
  name ← validate NtPoolName (pb_pool_create_name m);
  vdev ← dec_vdev (pb_pool_create_vdev m);
  devices ← map_new NtDevicePath (pb_pool_create_devices m);
  ashift ← transpose (λ x, to_u8 x "ashift") (pb_pool_create_ashift m);
  mret {| pool_create_name := name; pool_create_vdev := vdev; pool_create_devices := devices; pool_create_ashift := ashift |}.
Definition PoolCreate_into (d : PoolCreate) : pb_PoolCreate :=
  {| pb_pool_create_name := as_str (pool_create_name d); pb_pool_create_vdev := vdev_layout_pb (pool_create_vdev d); pb_pool_create_devices := strs (pool_create_devices d); pb_pool_create_ashift := of_u8 <$> (pool_create_ashift d) |}.
#[export] Instance PoolCreate_conv : Conv pb_PoolCreate PoolCreate := {| try_from := PoolCreate_try_from; into := PoolCreate_into |}.
#[export] Instance PoolCreate_law : ConvLaw pb_PoolCreate PoolCreate.
Proof.
  refine {| valid := λ _, True; canon := λ w, w |}; cbn [try_from into PoolCreate_conv].
  - intros d Hv. unfold PoolCreate_try_from, PoolCreate_into; cbn [pb_pool_create_name pb_pool_create_vdev pb_pool_create_devices pb_pool_create_ashift]. conv_out d Hv.
  - intros w d H. unfold PoolCreate_try_from in H. conv_inv H. unfold PoolCreate_into; cbn [pool_create_name pool_create_vdev pool_create_devices pool_create_ashift]. conv_in w.
Defined.

Record PoolVdevAdd : Type := { pool_vdev_add_pool : PoolName; pool_vdev_add_class : VdevClass; pool_vdev_add_layout : VdevLayout; pool_vdev_add_devices : list DevicePath }.
Record pb_PoolVdevAdd : Type := { pb_pool_vdev_add_pool : string; pb_pool_vdev_add_class : Z; pb_pool_vdev_add_layout : Z; pb_pool_vdev_add_devices : list string }.
Definition no_devices {A} (l : list A) : bool := match l with [] => true | _ => false end.
Definition PoolVdevAdd_try_from (m : pb_PoolVdevAdd) : conv PoolVdevAdd :=
  class ← dec_vdev_class (pb_pool_vdev_add_class m);
  layout ← dec_vdev (pb_pool_vdev_add_layout m);
  if negb (allows_layout class layout)
  then Err (class_label class +:+ " vdevs take a plain device list, not a layout")
  else if no_devices (pb_pool_vdev_add_devices m) then Err "vdev add needs at least one device"
  else
  pool ← validate NtPoolName (pb_pool_vdev_add_pool m);
  devices ← map_new NtDevicePath (pb_pool_vdev_add_devices m);
  mret {| pool_vdev_add_pool := pool; pool_vdev_add_class := class; pool_vdev_add_layout := layout; pool_vdev_add_devices := devices |}.
Definition PoolVdevAdd_into (d : PoolVdevAdd) : pb_PoolVdevAdd :=
  {| pb_pool_vdev_add_pool := as_str (pool_vdev_add_pool d); pb_pool_vdev_add_class := vdev_class_pb (pool_vdev_add_class d);
     pb_pool_vdev_add_layout := vdev_layout_pb (pool_vdev_add_layout d); pb_pool_vdev_add_devices := strs (pool_vdev_add_devices d) |}.
#[export] Instance PoolVdevAdd_conv : Conv pb_PoolVdevAdd PoolVdevAdd := {| try_from := PoolVdevAdd_try_from; into := PoolVdevAdd_into |}.
Lemma no_devices_strs {k} (l : list (vstring k)) : no_devices (strs l) = no_devices l.
Proof. by destruct l. Qed.
#[export] Instance PoolVdevAdd_law : ConvLaw pb_PoolVdevAdd PoolVdevAdd.
Proof.
  refine {| valid := λ d, allows_layout (pool_vdev_add_class d) (pool_vdev_add_layout d) = true ∧ no_devices (pool_vdev_add_devices d) = false;
            canon := λ w, w |}; cbn [try_from into PoolVdevAdd_conv].
  - intros d [Hl Hd]. unfold PoolVdevAdd_try_from, PoolVdevAdd_into;
      cbn [pb_pool_vdev_add_pool pb_pool_vdev_add_class pb_pool_vdev_add_layout pb_pool_vdev_add_devices].
    repeat conv_step. rewrite Hl, no_devices_strs, Hd. cbn [negb]. repeat conv_step. by destruct d.
  - intros w d H. unfold PoolVdevAdd_try_from in H. conv_inv H.
    destruct (allows_layout _ _) eqn:Hl; [|done]. destruct (no_devices _) eqn:Hd; [done|]. cbn [negb] in H. conv_inv H.
    unfold PoolVdevAdd_into; cbn [pool_vdev_add_pool pool_vdev_add_class pool_vdev_add_layout pool_vdev_add_devices].
    split; [split; [done|by rewrite <- no_devices_strs; congruence]|]. conv_in w.
Defined.

Record PoolDeviceAttach : Type := { pool_device_attach_pool : PoolName; pool_device_attach_target : VdevTarget; pool_device_attach_device : DevicePath }.
Record pb_PoolDeviceAttach : Type := { pb_pool_device_attach_pool : string; pb_pool_device_attach_target : string; pb_pool_device_attach_device : string }.
Definition PoolDeviceAttach_try_from (m : pb_PoolDeviceAttach) : conv PoolDeviceAttach :=
  pool ← validate NtPoolName (pb_pool_device_attach_pool m);
  target ← validate NtVdevTarget (pb_pool_device_attach_target m);
  device ← validate NtDevicePath (pb_pool_device_attach_device m);
  mret {| pool_device_attach_pool := pool; pool_device_attach_target := target; pool_device_attach_device := device |}.
Definition PoolDeviceAttach_into (d : PoolDeviceAttach) : pb_PoolDeviceAttach :=
  {| pb_pool_device_attach_pool := as_str (pool_device_attach_pool d); pb_pool_device_attach_target := as_str (pool_device_attach_target d); pb_pool_device_attach_device := as_str (pool_device_attach_device d) |}.
#[export] Instance PoolDeviceAttach_conv : Conv pb_PoolDeviceAttach PoolDeviceAttach := {| try_from := PoolDeviceAttach_try_from; into := PoolDeviceAttach_into |}.
#[export] Instance PoolDeviceAttach_law : ConvLaw pb_PoolDeviceAttach PoolDeviceAttach.
Proof.
  refine {| valid := λ _, True; canon := λ w, w |}; cbn [try_from into PoolDeviceAttach_conv].
  - intros d Hv. unfold PoolDeviceAttach_try_from, PoolDeviceAttach_into; cbn [pb_pool_device_attach_pool pb_pool_device_attach_target pb_pool_device_attach_device]. conv_out d Hv.
  - intros w d H. unfold PoolDeviceAttach_try_from in H. conv_inv H. unfold PoolDeviceAttach_into; cbn [pool_device_attach_pool pool_device_attach_target pool_device_attach_device]. conv_in w.
Defined.

Record PoolDeviceRemove : Type := { pool_device_remove_pool : PoolName; pool_device_remove_target : VdevTarget }.
Record pb_PoolDeviceRemove : Type := { pb_pool_device_remove_pool : string; pb_pool_device_remove_target : string }.
Definition PoolDeviceRemove_try_from (m : pb_PoolDeviceRemove) : conv PoolDeviceRemove :=
  pool ← validate NtPoolName (pb_pool_device_remove_pool m);
  target ← validate NtVdevTarget (pb_pool_device_remove_target m);
  mret {| pool_device_remove_pool := pool; pool_device_remove_target := target |}.
Definition PoolDeviceRemove_into (d : PoolDeviceRemove) : pb_PoolDeviceRemove :=
  {| pb_pool_device_remove_pool := as_str (pool_device_remove_pool d); pb_pool_device_remove_target := as_str (pool_device_remove_target d) |}.
#[export] Instance PoolDeviceRemove_conv : Conv pb_PoolDeviceRemove PoolDeviceRemove := {| try_from := PoolDeviceRemove_try_from; into := PoolDeviceRemove_into |}.
#[export] Instance PoolDeviceRemove_law : ConvLaw pb_PoolDeviceRemove PoolDeviceRemove.
Proof.
  refine {| valid := λ _, True; canon := λ w, w |}; cbn [try_from into PoolDeviceRemove_conv].
  - intros d Hv. unfold PoolDeviceRemove_try_from, PoolDeviceRemove_into; cbn [pb_pool_device_remove_pool pb_pool_device_remove_target]. conv_out d Hv.
  - intros w d H. unfold PoolDeviceRemove_try_from in H. conv_inv H. unfold PoolDeviceRemove_into; cbn [pool_device_remove_pool pool_device_remove_target]. conv_in w.
Defined.

Record PoolDeviceDetach : Type := { pool_device_detach_pool : PoolName; pool_device_detach_device : DevicePath }.
Record pb_PoolDeviceDetach : Type := { pb_pool_device_detach_pool : string; pb_pool_device_detach_device : string }.
Definition PoolDeviceDetach_try_from (m : pb_PoolDeviceDetach) : conv PoolDeviceDetach :=
  pool ← validate NtPoolName (pb_pool_device_detach_pool m);
  device ← validate NtDevicePath (pb_pool_device_detach_device m);
  mret {| pool_device_detach_pool := pool; pool_device_detach_device := device |}.
Definition PoolDeviceDetach_into (d : PoolDeviceDetach) : pb_PoolDeviceDetach :=
  {| pb_pool_device_detach_pool := as_str (pool_device_detach_pool d); pb_pool_device_detach_device := as_str (pool_device_detach_device d) |}.
#[export] Instance PoolDeviceDetach_conv : Conv pb_PoolDeviceDetach PoolDeviceDetach := {| try_from := PoolDeviceDetach_try_from; into := PoolDeviceDetach_into |}.
#[export] Instance PoolDeviceDetach_law : ConvLaw pb_PoolDeviceDetach PoolDeviceDetach.
Proof.
  refine {| valid := λ _, True; canon := λ w, w |}; cbn [try_from into PoolDeviceDetach_conv].
  - intros d Hv. unfold PoolDeviceDetach_try_from, PoolDeviceDetach_into; cbn [pb_pool_device_detach_pool pb_pool_device_detach_device]. conv_out d Hv.
  - intros w d H. unfold PoolDeviceDetach_try_from in H. conv_inv H. unfold PoolDeviceDetach_into; cbn [pool_device_detach_pool pool_device_detach_device]. conv_in w.
Defined.

Record PoolDeviceOnline : Type := { pool_device_online_pool : PoolName; pool_device_online_device : DevicePath }.
Record pb_PoolDeviceOnline : Type := { pb_pool_device_online_pool : string; pb_pool_device_online_device : string }.
Definition PoolDeviceOnline_try_from (m : pb_PoolDeviceOnline) : conv PoolDeviceOnline :=
  pool ← validate NtPoolName (pb_pool_device_online_pool m);
  device ← validate NtDevicePath (pb_pool_device_online_device m);
  mret {| pool_device_online_pool := pool; pool_device_online_device := device |}.
Definition PoolDeviceOnline_into (d : PoolDeviceOnline) : pb_PoolDeviceOnline :=
  {| pb_pool_device_online_pool := as_str (pool_device_online_pool d); pb_pool_device_online_device := as_str (pool_device_online_device d) |}.
#[export] Instance PoolDeviceOnline_conv : Conv pb_PoolDeviceOnline PoolDeviceOnline := {| try_from := PoolDeviceOnline_try_from; into := PoolDeviceOnline_into |}.
#[export] Instance PoolDeviceOnline_law : ConvLaw pb_PoolDeviceOnline PoolDeviceOnline.
Proof.
  refine {| valid := λ _, True; canon := λ w, w |}; cbn [try_from into PoolDeviceOnline_conv].
  - intros d Hv. unfold PoolDeviceOnline_try_from, PoolDeviceOnline_into; cbn [pb_pool_device_online_pool pb_pool_device_online_device]. conv_out d Hv.
  - intros w d H. unfold PoolDeviceOnline_try_from in H. conv_inv H. unfold PoolDeviceOnline_into; cbn [pool_device_online_pool pool_device_online_device]. conv_in w.
Defined.

(** ** Partitioning *)

Record PartitionTableCreate : Type := { partition_table_create_disk : BlockDev }.
Record pb_PartitionTableCreate : Type := { pb_partition_table_create_disk : string }.
Definition PartitionTableCreate_try_from (m : pb_PartitionTableCreate) : conv PartitionTableCreate :=
  disk ← validate NtBlockDev (pb_partition_table_create_disk m);
  mret {| partition_table_create_disk := disk |}.
Definition PartitionTableCreate_into (d : PartitionTableCreate) : pb_PartitionTableCreate :=
  {| pb_partition_table_create_disk := as_str (partition_table_create_disk d) |}.
#[export] Instance PartitionTableCreate_conv : Conv pb_PartitionTableCreate PartitionTableCreate := {| try_from := PartitionTableCreate_try_from; into := PartitionTableCreate_into |}.
#[export] Instance PartitionTableCreate_law : ConvLaw pb_PartitionTableCreate PartitionTableCreate.
Proof.
  refine {| valid := λ _, True; canon := λ w, w |}; cbn [try_from into PartitionTableCreate_conv].
  - intros d Hv. unfold PartitionTableCreate_try_from, PartitionTableCreate_into; cbn [pb_partition_table_create_disk]. conv_out d Hv.
  - intros w d H. unfold PartitionTableCreate_try_from in H. conv_inv H. unfold PartitionTableCreate_into; cbn [partition_table_create_disk]. conv_in w.
Defined.

Record PartitionCreate : Type := { partition_create_disk : BlockDev; partition_create_start_sector : option u64; partition_create_size_sectors : option u64; partition_create_label : PartLabel }.
Record pb_PartitionCreate : Type := { pb_partition_create_disk : string; pb_partition_create_start_sector : option u64; pb_partition_create_size_sectors : option u64; pb_partition_create_label : string }.
Definition PartitionCreate_try_from (m : pb_PartitionCreate) : conv PartitionCreate :=
  disk ← validate NtBlockDev (pb_partition_create_disk m);
  label ← validate NtPartLabel (pb_partition_create_label m);
  mret {| partition_create_disk := disk; partition_create_start_sector := pb_partition_create_start_sector m; partition_create_size_sectors := pb_partition_create_size_sectors m; partition_create_label := label |}.
Definition PartitionCreate_into (d : PartitionCreate) : pb_PartitionCreate :=
  {| pb_partition_create_disk := as_str (partition_create_disk d); pb_partition_create_start_sector := partition_create_start_sector d; pb_partition_create_size_sectors := partition_create_size_sectors d; pb_partition_create_label := as_str (partition_create_label d) |}.
#[export] Instance PartitionCreate_conv : Conv pb_PartitionCreate PartitionCreate := {| try_from := PartitionCreate_try_from; into := PartitionCreate_into |}.
#[export] Instance PartitionCreate_law : ConvLaw pb_PartitionCreate PartitionCreate.
Proof.
  refine {| valid := λ _, True; canon := λ w, w |}; cbn [try_from into PartitionCreate_conv].
  - intros d Hv. unfold PartitionCreate_try_from, PartitionCreate_into; cbn [pb_partition_create_disk pb_partition_create_start_sector pb_partition_create_size_sectors pb_partition_create_label]. conv_out d Hv.
  - intros w d H. unfold PartitionCreate_try_from in H. conv_inv H. unfold PartitionCreate_into; cbn [partition_create_disk partition_create_start_sector partition_create_size_sectors partition_create_label]. conv_in w.
Defined.

Record PartitionDelete : Type := { partition_delete_disk : BlockDev; partition_delete_number : u32 }.
Record pb_PartitionDelete : Type := { pb_partition_delete_disk : string; pb_partition_delete_number : u32 }.
Definition PartitionDelete_try_from (m : pb_PartitionDelete) : conv PartitionDelete :=
  disk ← validate NtBlockDev (pb_partition_delete_disk m);
  mret {| partition_delete_disk := disk; partition_delete_number := pb_partition_delete_number m |}.
Definition PartitionDelete_into (d : PartitionDelete) : pb_PartitionDelete :=
  {| pb_partition_delete_disk := as_str (partition_delete_disk d); pb_partition_delete_number := partition_delete_number d |}.
#[export] Instance PartitionDelete_conv : Conv pb_PartitionDelete PartitionDelete := {| try_from := PartitionDelete_try_from; into := PartitionDelete_into |}.
#[export] Instance PartitionDelete_law : ConvLaw pb_PartitionDelete PartitionDelete.
Proof.
  refine {| valid := λ _, True; canon := λ w, w |}; cbn [try_from into PartitionDelete_conv].
  - intros d Hv. unfold PartitionDelete_try_from, PartitionDelete_into; cbn [pb_partition_delete_disk pb_partition_delete_number]. conv_out d Hv.
  - intros w d H. unfold PartitionDelete_try_from in H. conv_inv H. unfold PartitionDelete_into; cbn [partition_delete_disk partition_delete_number]. conv_in w.
Defined.

Record PartitionShrink : Type := { partition_shrink_disk : BlockDev; partition_shrink_number : u32; partition_shrink_size_sectors : u64 }.
Record pb_PartitionShrink : Type := { pb_partition_shrink_disk : string; pb_partition_shrink_number : u32; pb_partition_shrink_size_sectors : u64 }.
Definition PartitionShrink_try_from (m : pb_PartitionShrink) : conv PartitionShrink :=
  disk ← validate NtBlockDev (pb_partition_shrink_disk m);
  mret {| partition_shrink_disk := disk; partition_shrink_number := pb_partition_shrink_number m; partition_shrink_size_sectors := pb_partition_shrink_size_sectors m |}.
Definition PartitionShrink_into (d : PartitionShrink) : pb_PartitionShrink :=
  {| pb_partition_shrink_disk := as_str (partition_shrink_disk d); pb_partition_shrink_number := partition_shrink_number d; pb_partition_shrink_size_sectors := partition_shrink_size_sectors d |}.
#[export] Instance PartitionShrink_conv : Conv pb_PartitionShrink PartitionShrink := {| try_from := PartitionShrink_try_from; into := PartitionShrink_into |}.
#[export] Instance PartitionShrink_law : ConvLaw pb_PartitionShrink PartitionShrink.
Proof.
  refine {| valid := λ _, True; canon := λ w, w |}; cbn [try_from into PartitionShrink_conv].
  - intros d Hv. unfold PartitionShrink_try_from, PartitionShrink_into; cbn [pb_partition_shrink_disk pb_partition_shrink_number pb_partition_shrink_size_sectors]. conv_out d Hv.
  - intros w d H. unfold PartitionShrink_try_from in H. conv_inv H. unfold PartitionShrink_into; cbn [partition_shrink_disk partition_shrink_number partition_shrink_size_sectors]. conv_in w.
Defined.

(** ** SMART *)

Record SmartReport : Type := { smart_report_device : BlockDev }.
Record pb_SmartReport : Type := { pb_smart_report_device : string }.
Definition SmartReport_try_from (m : pb_SmartReport) : conv SmartReport :=
  device ← validate NtBlockDev (pb_smart_report_device m);
  mret {| smart_report_device := device |}.
Definition SmartReport_into (d : SmartReport) : pb_SmartReport :=
  {| pb_smart_report_device := as_str (smart_report_device d) |}.
#[export] Instance SmartReport_conv : Conv pb_SmartReport SmartReport := {| try_from := SmartReport_try_from; into := SmartReport_into |}.
#[export] Instance SmartReport_law : ConvLaw pb_SmartReport SmartReport.
Proof.
  refine {| valid := λ _, True; canon := λ w, w |}; cbn [try_from into SmartReport_conv].
  - intros d Hv. unfold SmartReport_try_from, SmartReport_into; cbn [pb_smart_report_device]. conv_out d Hv.
  - intros w d H. unfold SmartReport_try_from in H. conv_inv H. unfold SmartReport_into; cbn [smart_report_device]. conv_in w.
Defined.

Record SmartHealth : Type := { smart_health_devices : list BlockDev }.
Record pb_SmartHealth : Type := { pb_smart_health_devices : list string }.
Definition SmartHealth_try_from (m : pb_SmartHealth) : conv SmartHealth :=
  devices ← map_new NtBlockDev (pb_smart_health_devices m);
  mret {| smart_health_devices := devices |}.
Definition SmartHealth_into (d : SmartHealth) : pb_SmartHealth :=
  {| pb_smart_health_devices := strs (smart_health_devices d) |}.
#[export] Instance SmartHealth_conv : Conv pb_SmartHealth SmartHealth := {| try_from := SmartHealth_try_from; into := SmartHealth_into |}.
#[export] Instance SmartHealth_law : ConvLaw pb_SmartHealth SmartHealth.
Proof.
  refine {| valid := λ _, True; canon := λ w, w |}; cbn [try_from into SmartHealth_conv].
  - intros d Hv. unfold SmartHealth_try_from, SmartHealth_into; cbn [pb_smart_health_devices]. conv_out d Hv.
  - intros w d H. unfold SmartHealth_try_from in H. conv_inv H. unfold SmartHealth_into; cbn [smart_health_devices]. conv_in w.
Defined.

(** ** LVM *)

Record LvmReportOp : Type := { lvm_report_op_what : LvmReport }.
Record pb_LvmReportOp : Type := { pb_lvm_report_op_what : Z }.
Definition LvmReportOp_try_from (m : pb_LvmReportOp) : conv LvmReportOp :=
  what ← dec_lvm_report (pb_lvm_report_op_what m);
  mret {| lvm_report_op_what := what |}.
Definition LvmReportOp_into (d : LvmReportOp) : pb_LvmReportOp :=
  {| pb_lvm_report_op_what := lvm_report_pb (lvm_report_op_what d) |}.
#[export] Instance LvmReportOp_conv : Conv pb_LvmReportOp LvmReportOp := {| try_from := LvmReportOp_try_from; into := LvmReportOp_into |}.
#[export] Instance LvmReportOp_law : ConvLaw pb_LvmReportOp LvmReportOp.
Proof.
  refine {| valid := λ _, True; canon := λ w, w |}; cbn [try_from into LvmReportOp_conv].
  - intros d Hv. unfold LvmReportOp_try_from, LvmReportOp_into; cbn [pb_lvm_report_op_what]. conv_out d Hv.
  - intros w d H. unfold LvmReportOp_try_from in H. conv_inv H. unfold LvmReportOp_into; cbn [lvm_report_op_what]. conv_in w.
Defined.

Record VgCreate : Type := { vg_create_name : VgName; vg_create_devices : list DevicePath }.
Record pb_VgCreate : Type := { pb_vg_create_name : string; pb_vg_create_devices : list string }.
Definition VgCreate_try_from (m : pb_VgCreate) : conv VgCreate :=
  name ← validate NtVgName (pb_vg_create_name m);
  devices ← map_new NtDevicePath (pb_vg_create_devices m);
  mret {| vg_create_name := name; vg_create_devices := devices |}.
Definition VgCreate_into (d : VgCreate) : pb_VgCreate :=
  {| pb_vg_create_name := as_str (vg_create_name d); pb_vg_create_devices := strs (vg_create_devices d) |}.
#[export] Instance VgCreate_conv : Conv pb_VgCreate VgCreate := {| try_from := VgCreate_try_from; into := VgCreate_into |}.
#[export] Instance VgCreate_law : ConvLaw pb_VgCreate VgCreate.
Proof.
  refine {| valid := λ _, True; canon := λ w, w |}; cbn [try_from into VgCreate_conv].
  - intros d Hv. unfold VgCreate_try_from, VgCreate_into; cbn [pb_vg_create_name pb_vg_create_devices]. conv_out d Hv.
  - intros w d H. unfold VgCreate_try_from in H. conv_inv H. unfold VgCreate_into; cbn [vg_create_name vg_create_devices]. conv_in w.
Defined.

Record VgExtend : Type := { vg_extend_vg : VgName; vg_extend_device : DevicePath }.
Record pb_VgExtend : Type := { pb_vg_extend_vg : string; pb_vg_extend_device : string }.
Definition VgExtend_try_from (m : pb_VgExtend) : conv VgExtend :=
  vg ← validate NtVgName (pb_vg_extend_vg m);
  device ← validate NtDevicePath (pb_vg_extend_device m);
  mret {| vg_extend_vg := vg; vg_extend_device := device |}.
Definition VgExtend_into (d : VgExtend) : pb_VgExtend :=
  {| pb_vg_extend_vg := as_str (vg_extend_vg d); pb_vg_extend_device := as_str (vg_extend_device d) |}.
#[export] Instance VgExtend_conv : Conv pb_VgExtend VgExtend := {| try_from := VgExtend_try_from; into := VgExtend_into |}.
#[export] Instance VgExtend_law : ConvLaw pb_VgExtend VgExtend.
Proof.
  refine {| valid := λ _, True; canon := λ w, w |}; cbn [try_from into VgExtend_conv].
  - intros d Hv. unfold VgExtend_try_from, VgExtend_into; cbn [pb_vg_extend_vg pb_vg_extend_device]. conv_out d Hv.
  - intros w d H. unfold VgExtend_try_from in H. conv_inv H. unfold VgExtend_into; cbn [vg_extend_vg vg_extend_device]. conv_in w.
Defined.

Record VgReduce : Type := { vg_reduce_vg : VgName; vg_reduce_device : DevicePath }.
Record pb_VgReduce : Type := { pb_vg_reduce_vg : string; pb_vg_reduce_device : string }.
Definition VgReduce_try_from (m : pb_VgReduce) : conv VgReduce :=
  vg ← validate NtVgName (pb_vg_reduce_vg m);
  device ← validate NtDevicePath (pb_vg_reduce_device m);
  mret {| vg_reduce_vg := vg; vg_reduce_device := device |}.
Definition VgReduce_into (d : VgReduce) : pb_VgReduce :=
  {| pb_vg_reduce_vg := as_str (vg_reduce_vg d); pb_vg_reduce_device := as_str (vg_reduce_device d) |}.
#[export] Instance VgReduce_conv : Conv pb_VgReduce VgReduce := {| try_from := VgReduce_try_from; into := VgReduce_into |}.
#[export] Instance VgReduce_law : ConvLaw pb_VgReduce VgReduce.
Proof.
  refine {| valid := λ _, True; canon := λ w, w |}; cbn [try_from into VgReduce_conv].
  - intros d Hv. unfold VgReduce_try_from, VgReduce_into; cbn [pb_vg_reduce_vg pb_vg_reduce_device]. conv_out d Hv.
  - intros w d H. unfold VgReduce_try_from in H. conv_inv H. unfold VgReduce_into; cbn [vg_reduce_vg vg_reduce_device]. conv_in w.
Defined.

Record VgRemove : Type := { vg_remove_vg : VgName }.
Record pb_VgRemove : Type := { pb_vg_remove_vg : string }.
Definition VgRemove_try_from (m : pb_VgRemove) : conv VgRemove :=
  vg ← validate NtVgName (pb_vg_remove_vg m);
  mret {| vg_remove_vg := vg |}.
Definition VgRemove_into (d : VgRemove) : pb_VgRemove :=
  {| pb_vg_remove_vg := as_str (vg_remove_vg d) |}.
#[export] Instance VgRemove_conv : Conv pb_VgRemove VgRemove := {| try_from := VgRemove_try_from; into := VgRemove_into |}.
#[export] Instance VgRemove_law : ConvLaw pb_VgRemove VgRemove.
Proof.
  refine {| valid := λ _, True; canon := λ w, w |}; cbn [try_from into VgRemove_conv].
  - intros d Hv. unfold VgRemove_try_from, VgRemove_into; cbn [pb_vg_remove_vg]. conv_out d Hv.
  - intros w d H. unfold VgRemove_try_from in H. conv_inv H. unfold VgRemove_into; cbn [vg_remove_vg]. conv_in w.
Defined.

Record LvCreate : Type := { lv_create_vg : VgName; lv_create_name : LvName; lv_create_size : u64 }.
Record pb_LvCreate : Type := { pb_lv_create_vg : string; pb_lv_create_name : string; pb_lv_create_size : u64 }.
Definition LvCreate_try_from (m : pb_LvCreate) : conv LvCreate :=
  vg ← validate NtVgName (pb_lv_create_vg m);
  name ← validate NtLvName (pb_lv_create_name m);
  mret {| lv_create_vg := vg; lv_create_name := name; lv_create_size := pb_lv_create_size m |}.
Definition LvCreate_into (d : LvCreate) : pb_LvCreate :=
  {| pb_lv_create_vg := as_str (lv_create_vg d); pb_lv_create_name := as_str (lv_create_name d); pb_lv_create_size := lv_create_size d |}.
#[export] Instance LvCreate_conv : Conv pb_LvCreate LvCreate := {| try_from := LvCreate_try_from; into := LvCreate_into |}.
#[export] Instance LvCreate_law : ConvLaw pb_LvCreate LvCreate.
Proof.
  refine {| valid := λ _, True; canon := λ w, w |}; cbn [try_from into LvCreate_conv].
  - intros d Hv. unfold LvCreate_try_from, LvCreate_into; cbn [pb_lv_create_vg pb_lv_create_name pb_lv_create_size]. conv_out d Hv.
  - intros w d H. unfold LvCreate_try_from in H. conv_inv H. unfold LvCreate_into; cbn [lv_create_vg lv_create_name lv_create_size]. conv_in w.
Defined.

Record ThinPoolCreate : Type := { thin_pool_create_vg : VgName; thin_pool_create_name : LvName; thin_pool_create_size : u64 }.
Record pb_ThinPoolCreate : Type := { pb_thin_pool_create_vg : string; pb_thin_pool_create_name : string; pb_thin_pool_create_size : u64 }.
Definition ThinPoolCreate_try_from (m : pb_ThinPoolCreate) : conv ThinPoolCreate :=
  vg ← validate NtVgName (pb_thin_pool_create_vg m);
  name ← validate NtLvName (pb_thin_pool_create_name m);
  mret {| thin_pool_create_vg := vg; thin_pool_create_name := name; thin_pool_create_size := pb_thin_pool_create_size m |}.
Definition ThinPoolCreate_into (d : ThinPoolCreate) : pb_ThinPoolCreate :=
  {| pb_thin_pool_create_vg := as_str (thin_pool_create_vg d); pb_thin_pool_create_name := as_str (thin_pool_create_name d); pb_thin_pool_create_size := thin_pool_create_size d |}.
#[export] Instance ThinPoolCreate_conv : Conv pb_ThinPoolCreate ThinPoolCreate := {| try_from := ThinPoolCreate_try_from; into := ThinPoolCreate_into |}.
#[export] Instance ThinPoolCreate_law : ConvLaw pb_ThinPoolCreate ThinPoolCreate.
Proof.
  refine {| valid := λ _, True; canon := λ w, w |}; cbn [try_from into ThinPoolCreate_conv].
  - intros d Hv. unfold ThinPoolCreate_try_from, ThinPoolCreate_into; cbn [pb_thin_pool_create_vg pb_thin_pool_create_name pb_thin_pool_create_size]. conv_out d Hv.
  - intros w d H. unfold ThinPoolCreate_try_from in H. conv_inv H. unfold ThinPoolCreate_into; cbn [thin_pool_create_vg thin_pool_create_name thin_pool_create_size]. conv_in w.
Defined.

Record ThinLvCreate : Type := { thin_lv_create_vg : VgName; thin_lv_create_pool : LvName; thin_lv_create_name : LvName; thin_lv_create_virtual_size : u64 }.
Record pb_ThinLvCreate : Type := { pb_thin_lv_create_vg : string; pb_thin_lv_create_pool : string; pb_thin_lv_create_name : string; pb_thin_lv_create_virtual_size : u64 }.
Definition ThinLvCreate_try_from (m : pb_ThinLvCreate) : conv ThinLvCreate :=
  vg ← validate NtVgName (pb_thin_lv_create_vg m);
  pool ← validate NtLvName (pb_thin_lv_create_pool m);
  name ← validate NtLvName (pb_thin_lv_create_name m);
  mret {| thin_lv_create_vg := vg; thin_lv_create_pool := pool; thin_lv_create_name := name; thin_lv_create_virtual_size := pb_thin_lv_create_virtual_size m |}.
Definition ThinLvCreate_into (d : ThinLvCreate) : pb_ThinLvCreate :=
  {| pb_thin_lv_create_vg := as_str (thin_lv_create_vg d); pb_thin_lv_create_pool := as_str (thin_lv_create_pool d); pb_thin_lv_create_name := as_str (thin_lv_create_name d); pb_thin_lv_create_virtual_size := thin_lv_create_virtual_size d |}.
#[export] Instance ThinLvCreate_conv : Conv pb_ThinLvCreate ThinLvCreate := {| try_from := ThinLvCreate_try_from; into := ThinLvCreate_into |}.
#[export] Instance ThinLvCreate_law : ConvLaw pb_ThinLvCreate ThinLvCreate.
Proof.
  refine {| valid := λ _, True; canon := λ w, w |}; cbn [try_from into ThinLvCreate_conv].
  - intros d Hv. unfold ThinLvCreate_try_from, ThinLvCreate_into; cbn [pb_thin_lv_create_vg pb_thin_lv_create_pool pb_thin_lv_create_name pb_thin_lv_create_virtual_size]. conv_out d Hv.
  - intros w d H. unfold ThinLvCreate_try_from in H. conv_inv H. unfold ThinLvCreate_into; cbn [thin_lv_create_vg thin_lv_create_pool thin_lv_create_name thin_lv_create_virtual_size]. conv_in w.
Defined.

Record LvResize : Type := { lv_resize_vg : VgName; lv_resize_name : LvName; lv_resize_new_size : u64 }.
Record pb_LvResize : Type := { pb_lv_resize_vg : string; pb_lv_resize_name : string; pb_lv_resize_new_size : u64 }.
Definition LvResize_try_from (m : pb_LvResize) : conv LvResize :=
  vg ← validate NtVgName (pb_lv_resize_vg m);
  name ← validate NtLvName (pb_lv_resize_name m);
  mret {| lv_resize_vg := vg; lv_resize_name := name; lv_resize_new_size := pb_lv_resize_new_size m |}.
Definition LvResize_into (d : LvResize) : pb_LvResize :=
  {| pb_lv_resize_vg := as_str (lv_resize_vg d); pb_lv_resize_name := as_str (lv_resize_name d); pb_lv_resize_new_size := lv_resize_new_size d |}.
#[export] Instance LvResize_conv : Conv pb_LvResize LvResize := {| try_from := LvResize_try_from; into := LvResize_into |}.
#[export] Instance LvResize_law : ConvLaw pb_LvResize LvResize.
Proof.
  refine {| valid := λ _, True; canon := λ w, w |}; cbn [try_from into LvResize_conv].
  - intros d Hv. unfold LvResize_try_from, LvResize_into; cbn [pb_lv_resize_vg pb_lv_resize_name pb_lv_resize_new_size]. conv_out d Hv.
  - intros w d H. unfold LvResize_try_from in H. conv_inv H. unfold LvResize_into; cbn [lv_resize_vg lv_resize_name lv_resize_new_size]. conv_in w.
Defined.

Record LvShrink : Type := { lv_shrink_vg : VgName; lv_shrink_name : LvName; lv_shrink_new_size : u64 }.
Record pb_LvShrink : Type := { pb_lv_shrink_vg : string; pb_lv_shrink_name : string; pb_lv_shrink_new_size : u64 }.
Definition LvShrink_try_from (m : pb_LvShrink) : conv LvShrink :=
  vg ← validate NtVgName (pb_lv_shrink_vg m);
  name ← validate NtLvName (pb_lv_shrink_name m);
  mret {| lv_shrink_vg := vg; lv_shrink_name := name; lv_shrink_new_size := pb_lv_shrink_new_size m |}.
Definition LvShrink_into (d : LvShrink) : pb_LvShrink :=
  {| pb_lv_shrink_vg := as_str (lv_shrink_vg d); pb_lv_shrink_name := as_str (lv_shrink_name d); pb_lv_shrink_new_size := lv_shrink_new_size d |}.
#[export] Instance LvShrink_conv : Conv pb_LvShrink LvShrink := {| try_from := LvShrink_try_from; into := LvShrink_into |}.
#[export] Instance LvShrink_law : ConvLaw pb_LvShrink LvShrink.
Proof.
  refine {| valid := λ _, True; canon := λ w, w |}; cbn [try_from into LvShrink_conv].
  - intros d Hv. unfold LvShrink_try_from, LvShrink_into; cbn [pb_lv_shrink_vg pb_lv_shrink_name pb_lv_shrink_new_size]. conv_out d Hv.
  - intros w d H. unfold LvShrink_try_from in H. conv_inv H. unfold LvShrink_into; cbn [lv_shrink_vg lv_shrink_name lv_shrink_new_size]. conv_in w.
Defined.

Record LvRename : Type := { lv_rename_vg : VgName; lv_rename_name : LvName; lv_rename_new_name : LvName }.
Record pb_LvRename : Type := { pb_lv_rename_vg : string; pb_lv_rename_name : string; pb_lv_rename_new_name : string }.
Definition LvRename_try_from (m : pb_LvRename) : conv LvRename :=
  vg ← validate NtVgName (pb_lv_rename_vg m);
  name ← validate NtLvName (pb_lv_rename_name m);
  new_name ← validate NtLvName (pb_lv_rename_new_name m);
  mret {| lv_rename_vg := vg; lv_rename_name := name; lv_rename_new_name := new_name |}.
Definition LvRename_into (d : LvRename) : pb_LvRename :=
  {| pb_lv_rename_vg := as_str (lv_rename_vg d); pb_lv_rename_name := as_str (lv_rename_name d); pb_lv_rename_new_name := as_str (lv_rename_new_name d) |}.
#[export] Instance LvRename_conv : Conv pb_LvRename LvRename := {| try_from := LvRename_try_from; into := LvRename_into |}.
#[export] Instance LvRename_law : ConvLaw pb_LvRename LvRename.
Proof.
  refine {| valid := λ _, True; canon := λ w, w |}; cbn [try_from into LvRename_conv].
  - intros d Hv. unfold LvRename_try_from, LvRename_into; cbn [pb_lv_rename_vg pb_lv_rename_name pb_lv_rename_new_name]. conv_out d Hv.
  - intros w d H. unfold LvRename_try_from in H. conv_inv H. unfold LvRename_into; cbn [lv_rename_vg lv_rename_name lv_rename_new_name]. conv_in w.
Defined.

Record LvDelete : Type := { lv_delete_vg : VgName; lv_delete_name : LvName }.
Record pb_LvDelete : Type := { pb_lv_delete_vg : string; pb_lv_delete_name : string }.
Definition LvDelete_try_from (m : pb_LvDelete) : conv LvDelete :=
  vg ← validate NtVgName (pb_lv_delete_vg m);
  name ← validate NtLvName (pb_lv_delete_name m);
  mret {| lv_delete_vg := vg; lv_delete_name := name |}.
Definition LvDelete_into (d : LvDelete) : pb_LvDelete :=
  {| pb_lv_delete_vg := as_str (lv_delete_vg d); pb_lv_delete_name := as_str (lv_delete_name d) |}.
#[export] Instance LvDelete_conv : Conv pb_LvDelete LvDelete := {| try_from := LvDelete_try_from; into := LvDelete_into |}.
#[export] Instance LvDelete_law : ConvLaw pb_LvDelete LvDelete.
Proof.
  refine {| valid := λ _, True; canon := λ w, w |}; cbn [try_from into LvDelete_conv].
  - intros d Hv. unfold LvDelete_try_from, LvDelete_into; cbn [pb_lv_delete_vg pb_lv_delete_name]. conv_out d Hv.
  - intros w d H. unfold LvDelete_try_from in H. conv_inv H. unfold LvDelete_into; cbn [lv_delete_vg lv_delete_name]. conv_in w.
Defined.

(** ** NICs and packages *)

Record RxeAdd : Type := { rxe_add_netdev : NetdevName }.
Record pb_RxeAdd : Type := { pb_rxe_add_netdev : string }.
Definition RxeAdd_try_from (m : pb_RxeAdd) : conv RxeAdd :=
  netdev ← validate NtNetdevName (pb_rxe_add_netdev m);
  mret {| rxe_add_netdev := netdev |}.
Definition RxeAdd_into (d : RxeAdd) : pb_RxeAdd :=
  {| pb_rxe_add_netdev := as_str (rxe_add_netdev d) |}.
#[export] Instance RxeAdd_conv : Conv pb_RxeAdd RxeAdd := {| try_from := RxeAdd_try_from; into := RxeAdd_into |}.
#[export] Instance RxeAdd_law : ConvLaw pb_RxeAdd RxeAdd.
Proof.
  refine {| valid := λ _, True; canon := λ w, w |}; cbn [try_from into RxeAdd_conv].
  - intros d Hv. unfold RxeAdd_try_from, RxeAdd_into; cbn [pb_rxe_add_netdev]. conv_out d Hv.
  - intros w d H. unfold RxeAdd_try_from in H. conv_inv H. unfold RxeAdd_into; cbn [rxe_add_netdev]. conv_in w.
Defined.

Record EnableRoce : Type := { enable_roce_netdev : NetdevName }.
Record pb_EnableRoce : Type := { pb_enable_roce_netdev : string }.
Definition EnableRoce_try_from (m : pb_EnableRoce) : conv EnableRoce :=
  netdev ← validate NtNetdevName (pb_enable_roce_netdev m);
  mret {| enable_roce_netdev := netdev |}.
Definition EnableRoce_into (d : EnableRoce) : pb_EnableRoce :=
  {| pb_enable_roce_netdev := as_str (enable_roce_netdev d) |}.
#[export] Instance EnableRoce_conv : Conv pb_EnableRoce EnableRoce := {| try_from := EnableRoce_try_from; into := EnableRoce_into |}.
#[export] Instance EnableRoce_law : ConvLaw pb_EnableRoce EnableRoce.
Proof.
  refine {| valid := λ _, True; canon := λ w, w |}; cbn [try_from into EnableRoce_conv].
  - intros d Hv. unfold EnableRoce_try_from, EnableRoce_into; cbn [pb_enable_roce_netdev]. conv_out d Hv.
  - intros w d H. unfold EnableRoce_try_from in H. conv_inv H. unfold EnableRoce_into; cbn [enable_roce_netdev]. conv_in w.
Defined.

Definition MTU_MIN : N := 68.
Definition MTU_MAX : N := 65535.

Record SetMtu : Type := { set_mtu_netdev : NetdevName; set_mtu_mtu : u32 }.
Record pb_SetMtu : Type := { pb_set_mtu_netdev : string; pb_set_mtu_mtu : u32 }.
Definition SetMtu_guard (mtu : u32) : bool := negb ((MTU_MIN <=? raw (mtu)) && (raw (mtu) <=? MTU_MAX)).
Definition SetMtu_try_from (m : pb_SetMtu) : conv SetMtu :=
  if SetMtu_guard (pb_set_mtu_mtu m) then Err ("MTU " +:+ show_uint (pb_set_mtu_mtu m) +:+ " out of range (68" +:+ en_dash +:+ "65535)") else
  netdev ← validate NtNetdevName (pb_set_mtu_netdev m);
  mret {| set_mtu_netdev := netdev; set_mtu_mtu := pb_set_mtu_mtu m |}.
Definition SetMtu_into (d : SetMtu) : pb_SetMtu :=
  {| pb_set_mtu_netdev := as_str (set_mtu_netdev d); pb_set_mtu_mtu := set_mtu_mtu d |}.
#[export] Instance SetMtu_conv : Conv pb_SetMtu SetMtu := {| try_from := SetMtu_try_from; into := SetMtu_into |}.
#[export] Instance SetMtu_law : ConvLaw pb_SetMtu SetMtu.
Proof.
  refine {| valid := λ d, SetMtu_guard (set_mtu_mtu d) = false; canon := λ w, w |}; cbn [try_from into SetMtu_conv].
  - intros d Hv. unfold SetMtu_try_from, SetMtu_into; cbn [pb_set_mtu_netdev pb_set_mtu_mtu]. rewrite Hv. repeat conv_step. by destruct d.
  - intros w d H. unfold SetMtu_try_from in H. destruct (SetMtu_guard _) eqn:Hg; [done|]. conv_inv H. unfold SetMtu_into; cbn [set_mtu_netdev set_mtu_mtu]. conv_in w.
Defined.

Record InstallPackages : Type := { install_packages_packages : list PackageName }.
Record pb_InstallPackages : Type := { pb_install_packages_packages : list string }.
Definition InstallPackages_try_from (m : pb_InstallPackages) : conv InstallPackages :=
  packages ← map_new NtPackageName (pb_install_packages_packages m);
  mret {| install_packages_packages := packages |}.
Definition InstallPackages_into (d : InstallPackages) : pb_InstallPackages :=
  {| pb_install_packages_packages := strs (install_packages_packages d) |}.
#[export] Instance InstallPackages_conv : Conv pb_InstallPackages InstallPackages := {| try_from := InstallPackages_try_from; into := InstallPackages_into |}.
#[export] Instance InstallPackages_law : ConvLaw pb_InstallPackages InstallPackages.
Proof.
  refine {| valid := λ _, True; canon := λ w, w |}; cbn [try_from into InstallPackages_conv].
  - intros d Hv. unfold InstallPackages_try_from, InstallPackages_into; cbn [pb_install_packages_packages]. conv_out d Hv.
  - intros w d H. unfold InstallPackages_try_from in H. conv_inv H. unfold InstallPackages_into; cbn [install_packages_packages]. conv_in w.
Defined.

(** ** CSI exports *)

Record CsiNvmeApply : Type := { ca_nqn : CsiNqn; ca_device_path : DevicePath; ca_device_uuid : NsUuid; ca_traddr : IpAddr; ca_trsvcid : u16; ca_transport : Transport }.
Record pb_CsiNvmeApply : Type := { pb_ca_nqn : string; pb_ca_device_path : string; pb_ca_device_uuid : string; pb_ca_traddr : string; pb_ca_trsvcid : u32; pb_ca_transport : Z }.
Definition CsiNvmeApply_try_from (m : pb_CsiNvmeApply) : conv CsiNvmeApply :=
  nqn ← validate NtCsiNqn (pb_ca_nqn m);
  device_path ← validate NtDevicePath (pb_ca_device_path m);
  device_uuid ← validate NtNsUuid (pb_ca_device_uuid m);
  traddr ← wire_ip (pb_ca_traddr m);
  trsvcid ← to_u16 (pb_ca_trsvcid m) "trsvcid";
  transport ← dec_transport (pb_ca_transport m);
  mret {| ca_nqn := nqn; ca_device_path := device_path; ca_device_uuid := device_uuid; ca_traddr := traddr; ca_trsvcid := trsvcid; ca_transport := transport |}.
Definition CsiNvmeApply_into (d : CsiNvmeApply) : pb_CsiNvmeApply :=
  {| pb_ca_nqn := as_str (ca_nqn d); pb_ca_device_path := as_str (ca_device_path d); pb_ca_device_uuid := as_str (ca_device_uuid d); pb_ca_traddr := show_ip (ca_traddr d); pb_ca_trsvcid := of_u16 (ca_trsvcid d); pb_ca_transport := transport_pb (ca_transport d) |}.
#[export] Instance CsiNvmeApply_conv : Conv pb_CsiNvmeApply CsiNvmeApply := {| try_from := CsiNvmeApply_try_from; into := CsiNvmeApply_into |}.
#[export] Instance CsiNvmeApply_law : ConvLaw pb_CsiNvmeApply CsiNvmeApply.
Proof.
  refine {| valid := λ _, True; canon := λ w, {| pb_ca_nqn := pb_ca_nqn w; pb_ca_device_path := pb_ca_device_path w; pb_ca_device_uuid := pb_ca_device_uuid w; pb_ca_traddr := canon_ip (pb_ca_traddr w); pb_ca_trsvcid := pb_ca_trsvcid w; pb_ca_transport := pb_ca_transport w |} |}; cbn [try_from into CsiNvmeApply_conv].
  - intros d Hv. unfold CsiNvmeApply_try_from, CsiNvmeApply_into; cbn [pb_ca_nqn pb_ca_device_path pb_ca_device_uuid pb_ca_traddr pb_ca_trsvcid pb_ca_transport]. conv_out d Hv.
  - intros w d H. unfold CsiNvmeApply_try_from in H. conv_inv H. unfold CsiNvmeApply_into; cbn [ca_nqn ca_device_path ca_device_uuid ca_traddr ca_trsvcid ca_transport]. conv_in w.
Defined.

Definition attachment_char (c : ascii) : bool := is_ascii_alphanumeric c || (code c =? 45).
Definition attachment_ok (id : string) : bool :=
  negb (is_empty id || (255 <? slen id) || negb (all_chars attachment_char id)).
Definition attachment_id (id : string) : conv string :=
  if attachment_ok id then Ok id else Err "invalid attachment id".
Lemma attachment_id_Ok s x : attachment_id s = Ok x ↔ x = s ∧ attachment_ok x = true.
Proof. unfold attachment_id. destruct (attachment_ok s) eqn:E; split.
  - by intros [= <-].
  - by intros [-> _].
  - done.
  - intros [-> ?]. congruence.
Qed.
Record CsiPublish : Type := { cp_export : CsiNvmeApply; cp_hostnqn : Nqn; cp_attachment_id : string }.
Record pb_CsiPublish : Type := { pb_cp_export : option pb_CsiNvmeApply; pb_cp_hostnqn : string; pb_cp_attachment_id : string }.
Definition CsiPublish_try_from (p : pb_CsiPublish) : conv CsiPublish :=
  e ← ok_or "export required" (pb_cp_export p);
  export ← CsiNvmeApply_try_from e;
  hostnqn ← validate NtNqn (pb_cp_hostnqn p);
  id ← attachment_id (pb_cp_attachment_id p);
  mret {| cp_export := export; cp_hostnqn := hostnqn; cp_attachment_id := id |}.
Definition CsiPublish_into (p : CsiPublish) : pb_CsiPublish :=
  {| pb_cp_export := Some (CsiNvmeApply_into (cp_export p)); pb_cp_hostnqn := as_str (cp_hostnqn p);
     pb_cp_attachment_id := cp_attachment_id p |}.
#[export] Instance CsiPublish_conv : Conv pb_CsiPublish CsiPublish := {| try_from := CsiPublish_try_from; into := CsiPublish_into |}.
#[export] Instance CsiPublish_law : ConvLaw pb_CsiPublish CsiPublish.
Proof.
  refine {| valid := λ d, attachment_ok (cp_attachment_id d) = true;
            canon := λ w, {| pb_cp_export := canon <$> pb_cp_export w; pb_cp_hostnqn := pb_cp_hostnqn w;
                             pb_cp_attachment_id := pb_cp_attachment_id w |} |}; cbn [try_from into CsiPublish_conv].
  - intros d Hv. unfold CsiPublish_try_from, CsiPublish_into; cbn [pb_cp_export pb_cp_hostnqn pb_cp_attachment_id ok_or].
    rewrite conv_ok_bind, (@try_into _ _ CsiNvmeApply_conv CsiNvmeApply_law (cp_export d) I : CsiNvmeApply_try_from (CsiNvmeApply_into _) = _). repeat conv_step.
    rewrite (proj2 (attachment_id_Ok _ _) (conj eq_refl Hv)). conv_step. by destruct d.
  - intros w d H. unfold CsiPublish_try_from in H. conv_inv H. apply attachment_id_Ok in E2 as [E2 Hv].
    destruct (pb_cp_export w) as [y|] eqn:Ew; [|done]. injection E as ->.
    apply (into_try (c := CsiNvmeApply_conv)) in E0 as [_ E0]. unfold CsiPublish_into; cbn [cp_export cp_hostnqn cp_attachment_id].
    split; [done|]. rewrite E1, E2. change (CsiNvmeApply_into x0) with (into x0). by rewrite E0.
Defined.
Record CsiUnpublish : Type := { cu_nqn : CsiNqn; cu_hostnqn : Nqn; cu_attachment_id : string }.
Record pb_CsiUnpublish : Type := { pb_cu_nqn : string; pb_cu_hostnqn : string; pb_cu_attachment_id : string }.
Definition CsiUnpublish_try_from (p : pb_CsiUnpublish) : conv CsiUnpublish :=
  nqn ← validate NtCsiNqn (pb_cu_nqn p);
  hostnqn ← validate NtNqn (pb_cu_hostnqn p);
  id ← attachment_id (pb_cu_attachment_id p);
  mret {| cu_nqn := nqn; cu_hostnqn := hostnqn; cu_attachment_id := id |}.
Definition CsiUnpublish_into (p : CsiUnpublish) : pb_CsiUnpublish :=
  {| pb_cu_nqn := as_str (cu_nqn p); pb_cu_hostnqn := as_str (cu_hostnqn p); pb_cu_attachment_id := cu_attachment_id p |}.
#[export] Instance CsiUnpublish_conv : Conv pb_CsiUnpublish CsiUnpublish := {| try_from := CsiUnpublish_try_from; into := CsiUnpublish_into |}.
#[export] Instance CsiUnpublish_law : ConvLaw pb_CsiUnpublish CsiUnpublish.
Proof.
  refine {| valid := λ d, attachment_ok (cu_attachment_id d) = true; canon := λ w, w |}; cbn [try_from into CsiUnpublish_conv].
  - intros d Hv. unfold CsiUnpublish_try_from, CsiUnpublish_into; cbn [pb_cu_nqn pb_cu_hostnqn pb_cu_attachment_id].
    repeat conv_step. rewrite (proj2 (attachment_id_Ok _ _) (conj eq_refl Hv)). conv_step. by destruct d.
  - intros w d H. unfold CsiUnpublish_try_from in H. conv_inv H. apply attachment_id_Ok in E1 as [E1 Hv].
    unfold CsiUnpublish_into; cbn [cu_nqn cu_hostnqn cu_attachment_id]. conv_in w.
Defined.

Record CsiNvmeDelete : Type := { csi_nvme_delete_nqn : CsiNqn }.
Record pb_CsiNvmeDelete : Type := { pb_csi_nvme_delete_nqn : string }.
Definition CsiNvmeDelete_try_from (m : pb_CsiNvmeDelete) : conv CsiNvmeDelete :=
  nqn ← validate NtCsiNqn (pb_csi_nvme_delete_nqn m);
  mret {| csi_nvme_delete_nqn := nqn |}.
Definition CsiNvmeDelete_into (d : CsiNvmeDelete) : pb_CsiNvmeDelete :=
  {| pb_csi_nvme_delete_nqn := as_str (csi_nvme_delete_nqn d) |}.
#[export] Instance CsiNvmeDelete_conv : Conv pb_CsiNvmeDelete CsiNvmeDelete := {| try_from := CsiNvmeDelete_try_from; into := CsiNvmeDelete_into |}.
#[export] Instance CsiNvmeDelete_law : ConvLaw pb_CsiNvmeDelete CsiNvmeDelete.
Proof.
  refine {| valid := λ _, True; canon := λ w, w |}; cbn [try_from into CsiNvmeDelete_conv].
  - intros d Hv. unfold CsiNvmeDelete_try_from, CsiNvmeDelete_into; cbn [pb_csi_nvme_delete_nqn]. conv_out d Hv.
  - intros w d H. unfold CsiNvmeDelete_try_from in H. conv_inv H. unfold CsiNvmeDelete_into; cbn [csi_nvme_delete_nqn]. conv_in w.
Defined.

Record CsiHostGrant : Type := { csi_host_grant_nqn : CsiNqn; csi_host_grant_hostnqn : Nqn }.
Record pb_CsiHostGrant : Type := { pb_csi_host_grant_nqn : string; pb_csi_host_grant_hostnqn : string }.
Definition CsiHostGrant_try_from (m : pb_CsiHostGrant) : conv CsiHostGrant :=
  nqn ← validate NtCsiNqn (pb_csi_host_grant_nqn m);
  hostnqn ← validate NtNqn (pb_csi_host_grant_hostnqn m);
  mret {| csi_host_grant_nqn := nqn; csi_host_grant_hostnqn := hostnqn |}.
Definition CsiHostGrant_into (d : CsiHostGrant) : pb_CsiHostGrant :=
  {| pb_csi_host_grant_nqn := as_str (csi_host_grant_nqn d); pb_csi_host_grant_hostnqn := as_str (csi_host_grant_hostnqn d) |}.
#[export] Instance CsiHostGrant_conv : Conv pb_CsiHostGrant CsiHostGrant := {| try_from := CsiHostGrant_try_from; into := CsiHostGrant_into |}.
#[export] Instance CsiHostGrant_law : ConvLaw pb_CsiHostGrant CsiHostGrant.
Proof.
  refine {| valid := λ _, True; canon := λ w, w |}; cbn [try_from into CsiHostGrant_conv].
  - intros d Hv. unfold CsiHostGrant_try_from, CsiHostGrant_into; cbn [pb_csi_host_grant_nqn pb_csi_host_grant_hostnqn]. conv_out d Hv.
  - intros w d H. unfold CsiHostGrant_try_from in H. conv_inv H. unfold CsiHostGrant_into; cbn [csi_host_grant_nqn csi_host_grant_hostnqn]. conv_in w.
Defined.

Record CsiHostRevoke : Type := { csi_host_revoke_nqn : CsiNqn; csi_host_revoke_hostnqn : Nqn }.
Record pb_CsiHostRevoke : Type := { pb_csi_host_revoke_nqn : string; pb_csi_host_revoke_hostnqn : string }.
Definition CsiHostRevoke_try_from (m : pb_CsiHostRevoke) : conv CsiHostRevoke :=
  nqn ← validate NtCsiNqn (pb_csi_host_revoke_nqn m);
  hostnqn ← validate NtNqn (pb_csi_host_revoke_hostnqn m);
  mret {| csi_host_revoke_nqn := nqn; csi_host_revoke_hostnqn := hostnqn |}.
Definition CsiHostRevoke_into (d : CsiHostRevoke) : pb_CsiHostRevoke :=
  {| pb_csi_host_revoke_nqn := as_str (csi_host_revoke_nqn d); pb_csi_host_revoke_hostnqn := as_str (csi_host_revoke_hostnqn d) |}.
#[export] Instance CsiHostRevoke_conv : Conv pb_CsiHostRevoke CsiHostRevoke := {| try_from := CsiHostRevoke_try_from; into := CsiHostRevoke_into |}.
#[export] Instance CsiHostRevoke_law : ConvLaw pb_CsiHostRevoke CsiHostRevoke.
Proof.
  refine {| valid := λ _, True; canon := λ w, w |}; cbn [try_from into CsiHostRevoke_conv].
  - intros d Hv. unfold CsiHostRevoke_try_from, CsiHostRevoke_into; cbn [pb_csi_host_revoke_nqn pb_csi_host_revoke_hostnqn]. conv_out d Hv.
  - intros w d H. unfold CsiHostRevoke_try_from in H. conv_inv H. unfold CsiHostRevoke_into; cbn [csi_host_revoke_nqn csi_host_revoke_hostnqn]. conv_in w.
Defined.

Record CsiVolumeExpand : Type := { csi_volume_expand_nqn : CsiNqn; csi_volume_expand_new_size : u64 }.
Record pb_CsiVolumeExpand : Type := { pb_csi_volume_expand_nqn : string; pb_csi_volume_expand_new_size : u64 }.
Definition CsiVolumeExpand_try_from (m : pb_CsiVolumeExpand) : conv CsiVolumeExpand :=
  nqn ← validate NtCsiNqn (pb_csi_volume_expand_nqn m);
  mret {| csi_volume_expand_nqn := nqn; csi_volume_expand_new_size := pb_csi_volume_expand_new_size m |}.
Definition CsiVolumeExpand_into (d : CsiVolumeExpand) : pb_CsiVolumeExpand :=
  {| pb_csi_volume_expand_nqn := as_str (csi_volume_expand_nqn d); pb_csi_volume_expand_new_size := csi_volume_expand_new_size d |}.
#[export] Instance CsiVolumeExpand_conv : Conv pb_CsiVolumeExpand CsiVolumeExpand := {| try_from := CsiVolumeExpand_try_from; into := CsiVolumeExpand_into |}.
#[export] Instance CsiVolumeExpand_law : ConvLaw pb_CsiVolumeExpand CsiVolumeExpand.
Proof.
  refine {| valid := λ _, True; canon := λ w, w |}; cbn [try_from into CsiVolumeExpand_conv].
  - intros d Hv. unfold CsiVolumeExpand_try_from, CsiVolumeExpand_into; cbn [pb_csi_volume_expand_nqn pb_csi_volume_expand_new_size]. conv_out d Hv.
  - intros w d H. unfold CsiVolumeExpand_try_from in H. conv_inv H. unfold CsiVolumeExpand_into; cbn [csi_volume_expand_nqn csi_volume_expand_new_size]. conv_in w.
Defined.

(** ** SSH pipe keys *)

Record PipeKeyRevoke : Type := { pipe_key_revoke_fingerprint : SshFingerprint }.
Record pb_PipeKeyRevoke : Type := { pb_pipe_key_revoke_fingerprint : string }.
Definition PipeKeyRevoke_try_from (m : pb_PipeKeyRevoke) : conv PipeKeyRevoke :=
  fingerprint ← validate NtSshFingerprint (pb_pipe_key_revoke_fingerprint m);
  mret {| pipe_key_revoke_fingerprint := fingerprint |}.
Definition PipeKeyRevoke_into (d : PipeKeyRevoke) : pb_PipeKeyRevoke :=
  {| pb_pipe_key_revoke_fingerprint := as_str (pipe_key_revoke_fingerprint d) |}.
#[export] Instance PipeKeyRevoke_conv : Conv pb_PipeKeyRevoke PipeKeyRevoke := {| try_from := PipeKeyRevoke_try_from; into := PipeKeyRevoke_into |}.
#[export] Instance PipeKeyRevoke_law : ConvLaw pb_PipeKeyRevoke PipeKeyRevoke.
Proof.
  refine {| valid := λ _, True; canon := λ w, w |}; cbn [try_from into PipeKeyRevoke_conv].
  - intros d Hv. unfold PipeKeyRevoke_try_from, PipeKeyRevoke_into; cbn [pb_pipe_key_revoke_fingerprint]. conv_out d Hv.
  - intros w d H. unfold PipeKeyRevoke_try_from in H. conv_inv H. unfold PipeKeyRevoke_into; cbn [pipe_key_revoke_fingerprint]. conv_in w.
Defined.

(** ** The rpc table *)

(** [unit_op!]: the operations without fields; their message is empty. *)
Inductive UnitOp : Type := OpPipeAccessReport | OpReconcile | OpRdmaResources | OpNfsReport | OpNvmetReport | OpLioReport | OpLioSessions | OpRdmaDevices | OpNicPciAddrs | OpNicInterfaces | OpNicNetwork | OpRoceCapableNics | OpNicRdmaAdvice | OpReconcileDryRun.
Definition unit_op_try_from (o : UnitOp) (_ : unit) : conv UnitOp := Ok o.
Definition unit_op_into (_ : UnitOp) : unit := tt.

(** A request of the service on the wire, and the operation it is converted to. *)
Inductive wire_request : Type :=
| WAuthenticate (m : pb_Authenticate)
| WZvolCreate (m : pb_ZvolCreate)
| WZvolDelete (m : pb_ZvolDelete)
| WZvolResize (m : pb_ZvolResize)
| WSnapshotCreate (m : pb_SnapshotCreate)
| WSnapshotDestroy (m : pb_SnapshotDestroy)
| WZfsClone (m : pb_ZfsClone)
| WZvolInfo (m : pb_ZvolInfo)
| WZfsFsCreate (m : pb_ZfsFsCreate)
| WZfsSetMountpoint (m : pb_ZfsSetMountpoint)
| WZfsSetCompression (m : pb_ZfsSetCompression)
| WZfsMount (m : pb_ZfsMount)
| WZfsUnmount (m : pb_ZfsUnmount)
| WZfsDestroy (m : pb_ZfsDestroy)
| WPoolCreate (m : pb_PoolCreate)
| WPoolVdevAdd (m : pb_PoolVdevAdd)
| WPoolDeviceAttach (m : pb_PoolDeviceAttach)
| WPoolDeviceRemove (m : pb_PoolDeviceRemove)
| WPoolDeviceDetach (m : pb_PoolDeviceDetach)
| WPoolDeviceOnline (m : pb_PoolDeviceOnline)
| WPartitionTableCreate (m : pb_PartitionTableCreate)
| WPartitionCreate (m : pb_PartitionCreate)
| WPartitionDelete (m : pb_PartitionDelete)
| WPartitionShrink (m : pb_PartitionShrink)
| WSmartReport (m : pb_SmartReport)
| WSmartHealth (m : pb_SmartHealth)
| WLvmReportOp (m : pb_LvmReportOp)
| WVgCreate (m : pb_VgCreate)
| WVgExtend (m : pb_VgExtend)
| WVgReduce (m : pb_VgReduce)
| WVgRemove (m : pb_VgRemove)
| WLvCreate (m : pb_LvCreate)
| WThinPoolCreate (m : pb_ThinPoolCreate)
| WThinLvCreate (m : pb_ThinLvCreate)
| WLvResize (m : pb_LvResize)
| WLvShrink (m : pb_LvShrink)
| WLvRename (m : pb_LvRename)
| WLvDelete (m : pb_LvDelete)
| WRxeAdd (m : pb_RxeAdd)
| WEnableRoce (m : pb_EnableRoce)
| WSetMtu (m : pb_SetMtu)
| WInstallPackages (m : pb_InstallPackages)
| WCsiNvmeApply (m : pb_CsiNvmeApply)
| WCsiPublish (m : pb_CsiPublish)
| WCsiUnpublish (m : pb_CsiUnpublish)
| WCsiNvmeDelete (m : pb_CsiNvmeDelete)
| WCsiHostGrant (m : pb_CsiHostGrant)
| WCsiHostRevoke (m : pb_CsiHostRevoke)
| WCsiVolumeExpand (m : pb_CsiVolumeExpand)
| WPipeKeyRevoke (m : pb_PipeKeyRevoke)
| WUnit (o : UnitOp) (m : unit).

Inductive request : Type :=
| RAuthenticate (d : Authenticate)
| RZvolCreate (d : ZvolCreate)
| RZvolDelete (d : ZvolDelete)
| RZvolResize (d : ZvolResize)
| RSnapshotCreate (d : SnapshotCreate)
| RSnapshotDestroy (d : SnapshotDestroy)
| RZfsClone (d : ZfsClone)
| RZvolInfo (d : ZvolInfo)
| RZfsFsCreate (d : ZfsFsCreate)
| RZfsSetMountpoint (d : ZfsSetMountpoint)
| RZfsSetCompression (d : ZfsSetCompression)
| RZfsMount (d : ZfsMount)
| RZfsUnmount (d : ZfsUnmount)
| RZfsDestroy (d : ZfsDestroy)
| RPoolCreate (d : PoolCreate)
| RPoolVdevAdd (d : PoolVdevAdd)
| RPoolDeviceAttach (d : PoolDeviceAttach)
| RPoolDeviceRemove (d : PoolDeviceRemove)
| RPoolDeviceDetach (d : PoolDeviceDetach)
| RPoolDeviceOnline (d : PoolDeviceOnline)
| RPartitionTableCreate (d : PartitionTableCreate)
| RPartitionCreate (d : PartitionCreate)
| RPartitionDelete (d : PartitionDelete)
| RPartitionShrink (d : PartitionShrink)
| RSmartReport (d : SmartReport)
| RSmartHealth (d : SmartHealth)
| RLvmReportOp (d : LvmReportOp)
| RVgCreate (d : VgCreate)
| RVgExtend (d : VgExtend)
| RVgReduce (d : VgReduce)
| RVgRemove (d : VgRemove)
| RLvCreate (d : LvCreate)
| RThinPoolCreate (d : ThinPoolCreate)
| RThinLvCreate (d : ThinLvCreate)
| RLvResize (d : LvResize)
| RLvShrink (d : LvShrink)
| RLvRename (d : LvRename)
| RLvDelete (d : LvDelete)
| RRxeAdd (d : RxeAdd)
| REnableRoce (d : EnableRoce)
| RSetMtu (d : SetMtu)
| RInstallPackages (d : InstallPackages)
| RCsiNvmeApply (d : CsiNvmeApply)
| RCsiPublish (d : CsiPublish)
| RCsiUnpublish (d : CsiUnpublish)
| RCsiNvmeDelete (d : CsiNvmeDelete)
| RCsiHostGrant (d : CsiHostGrant)
| RCsiHostRevoke (d : CsiHostRevoke)
| RCsiVolumeExpand (d : CsiVolumeExpand)
| RPipeKeyRevoke (d : PipeKeyRevoke)
| RUnit (o : UnitOp).

Definition decode_request (w : wire_request) : conv request :=
  match w with
  | WAuthenticate m => RAuthenticate <$> Authenticate_try_from m
  | WZvolCreate m => RZvolCreate <$> ZvolCreate_try_from m
  | WZvolDelete m => RZvolDelete <$> ZvolDelete_try_from m
  | WZvolResize m => RZvolResize <$> ZvolResize_try_from m
  | WSnapshotCreate m => RSnapshotCreate <$> SnapshotCreate_try_from m
  | WSnapshotDestroy m => RSnapshotDestroy <$> SnapshotDestroy_try_from m
  | WZfsClone m => RZfsClone <$> ZfsClone_try_from m
  | WZvolInfo m => RZvolInfo <$> ZvolInfo_try_from m
  | WZfsFsCreate m => RZfsFsCreate <$> ZfsFsCreate_try_from m
  | WZfsSetMountpoint m => RZfsSetMountpoint <$> ZfsSetMountpoint_try_from m
  | WZfsSetCompression m => RZfsSetCompression <$> ZfsSetCompression_try_from m
  | WZfsMount m => RZfsMount <$> ZfsMount_try_from m
  | WZfsUnmount m => RZfsUnmount <$> ZfsUnmount_try_from m
  | WZfsDestroy m => RZfsDestroy <$> ZfsDestroy_try_from m
  | WPoolCreate m => RPoolCreate <$> PoolCreate_try_from m
  | WPoolVdevAdd m => RPoolVdevAdd <$> PoolVdevAdd_try_from m
  | WPoolDeviceAttach m => RPoolDeviceAttach <$> PoolDeviceAttach_try_from m
  | WPoolDeviceRemove m => RPoolDeviceRemove <$> PoolDeviceRemove_try_from m
  | WPoolDeviceDetach m => RPoolDeviceDetach <$> PoolDeviceDetach_try_from m
  | WPoolDeviceOnline m => RPoolDeviceOnline <$> PoolDeviceOnline_try_from m
  | WPartitionTableCreate m => RPartitionTableCreate <$> PartitionTableCreate_try_from m
  | WPartitionCreate m => RPartitionCreate <$> PartitionCreate_try_from m
  | WPartitionDelete m => RPartitionDelete <$> PartitionDelete_try_from m
  | WPartitionShrink m => RPartitionShrink <$> PartitionShrink_try_from m
  | WSmartReport m => RSmartReport <$> SmartReport_try_from m
  | WSmartHealth m => RSmartHealth <$> SmartHealth_try_from m
  | WLvmReportOp m => RLvmReportOp <$> LvmReportOp_try_from m
  | WVgCreate m => RVgCreate <$> VgCreate_try_from m
  | WVgExtend m => RVgExtend <$> VgExtend_try_from m
  | WVgReduce m => RVgReduce <$> VgReduce_try_from m
  | WVgRemove m => RVgRemove <$> VgRemove_try_from m
  | WLvCreate m => RLvCreate <$> LvCreate_try_from m
  | WThinPoolCreate m => RThinPoolCreate <$> ThinPoolCreate_try_from m
  | WThinLvCreate m => RThinLvCreate <$> ThinLvCreate_try_from m
  | WLvResize m => RLvResize <$> LvResize_try_from m
  | WLvShrink m => RLvShrink <$> LvShrink_try_from m
  | WLvRename m => RLvRename <$> LvRename_try_from m
  | WLvDelete m => RLvDelete <$> LvDelete_try_from m
  | WRxeAdd m => RRxeAdd <$> RxeAdd_try_from m
  | WEnableRoce m => REnableRoce <$> EnableRoce_try_from m
  | WSetMtu m => RSetMtu <$> SetMtu_try_from m
  | WInstallPackages m => RInstallPackages <$> InstallPackages_try_from m
  | WCsiNvmeApply m => RCsiNvmeApply <$> CsiNvmeApply_try_from m
  | WCsiPublish m => RCsiPublish <$> CsiPublish_try_from m
  | WCsiUnpublish m => RCsiUnpublish <$> CsiUnpublish_try_from m
  | WCsiNvmeDelete m => RCsiNvmeDelete <$> CsiNvmeDelete_try_from m
  | WCsiHostGrant m => RCsiHostGrant <$> CsiHostGrant_try_from m
  | WCsiHostRevoke m => RCsiHostRevoke <$> CsiHostRevoke_try_from m
  | WCsiVolumeExpand m => RCsiVolumeExpand <$> CsiVolumeExpand_try_from m
  | WPipeKeyRevoke m => RPipeKeyRevoke <$> PipeKeyRevoke_try_from m
  | WUnit o m => RUnit <$> unit_op_try_from o m
  end.

Definition encode_request (r : request) : wire_request :=
  match r with
  | RAuthenticate d => WAuthenticate (Authenticate_into d)
  | RZvolCreate d => WZvolCreate (ZvolCreate_into d)
  | RZvolDelete d => WZvolDelete (ZvolDelete_into d)
  | RZvolResize d => WZvolResize (ZvolResize_into d)
  | RSnapshotCreate d => WSnapshotCreate (SnapshotCreate_into d)
  | RSnapshotDestroy d => WSnapshotDestroy (SnapshotDestroy_into d)
  | RZfsClone d => WZfsClone (ZfsClone_into d)
  | RZvolInfo d => WZvolInfo (ZvolInfo_into d)
  | RZfsFsCreate d => WZfsFsCreate (ZfsFsCreate_into d)
  | RZfsSetMountpoint d => WZfsSetMountpoint (ZfsSetMountpoint_into d)
  | RZfsSetCompression d => WZfsSetCompression (ZfsSetCompression_into d)
  | RZfsMount d => WZfsMount (ZfsMount_into d)
  | RZfsUnmount d => WZfsUnmount (ZfsUnmount_into d)
  | RZfsDestroy d => WZfsDestroy (ZfsDestroy_into d)
  | RPoolCreate d => WPoolCreate (PoolCreate_into d)
  | RPoolVdevAdd d => WPoolVdevAdd (PoolVdevAdd_into d)
  | RPoolDeviceAttach d => WPoolDeviceAttach (PoolDeviceAttach_into d)
  | RPoolDeviceRemove d => WPoolDeviceRemove (PoolDeviceRemove_into d)
  | RPoolDeviceDetach d => WPoolDeviceDetach (PoolDeviceDetach_into d)
  | RPoolDeviceOnline d => WPoolDeviceOnline (PoolDeviceOnline_into d)
  | RPartitionTableCreate d => WPartitionTableCreate (PartitionTableCreate_into d)
  | RPartitionCreate d => WPartitionCreate (PartitionCreate_into d)
  | RPartitionDelete d => WPartitionDelete (PartitionDelete_into d)
  | RPartitionShrink d => WPartitionShrink (PartitionShrink_into d)
  | RSmartReport d => WSmartReport (SmartReport_into d)
  | RSmartHealth d => WSmartHealth (SmartHealth_into d)
  | RLvmReportOp d => WLvmReportOp (LvmReportOp_into d)
  | RVgCreate d => WVgCreate (VgCreate_into d)
  | RVgExtend d => WVgExtend (VgExtend_into d)
  | RVgReduce d => WVgReduce (VgReduce_into d)
  | RVgRemove d => WVgRemove (VgRemove_into d)
  | RLvCreate d => WLvCreate (LvCreate_into d)
  | RThinPoolCreate d => WThinPoolCreate (ThinPoolCreate_into d)
  | RThinLvCreate d => WThinLvCreate (ThinLvCreate_into d)
  | RLvResize d => WLvResize (LvResize_into d)
  | RLvShrink d => WLvShrink (LvShrink_into d)
  | RLvRename d => WLvRename (LvRename_into d)
  | RLvDelete d => WLvDelete (LvDelete_into d)
  | RRxeAdd d => WRxeAdd (RxeAdd_into d)
  | REnableRoce d => WEnableRoce (EnableRoce_into d)
  | RSetMtu d => WSetMtu (SetMtu_into d)
  | RInstallPackages d => WInstallPackages (InstallPackages_into d)
  | RCsiNvmeApply d => WCsiNvmeApply (CsiNvmeApply_into d)
  | RCsiPublish d => WCsiPublish (CsiPublish_into d)
  | RCsiUnpublish d => WCsiUnpublish (CsiUnpublish_into d)
  | RCsiNvmeDelete d => WCsiNvmeDelete (CsiNvmeDelete_into d)
  | RCsiHostGrant d => WCsiHostGrant (CsiHostGrant_into d)
  | RCsiHostRevoke d => WCsiHostRevoke (CsiHostRevoke_into d)
  | RCsiVolumeExpand d => WCsiVolumeExpand (CsiVolumeExpand_into d)
  | RPipeKeyRevoke d => WPipeKeyRevoke (PipeKeyRevoke_into d)
  | RUnit o => WUnit o (unit_op_into o)
  end.

(** What the ingress demands of an operation beyond its field types. *)
Definition valid_request (r : request) : Prop :=
  match r with
  | RAuthenticate d => valid d
  | RZvolCreate d => valid d
  | RZvolDelete d => valid d
  | RZvolResize d => valid d
  | RSnapshotCreate d => valid d
  | RSnapshotDestroy d => valid d
  | RZfsClone d => valid d
  | RZvolInfo d => valid d
  | RZfsFsCreate d => valid d
  | RZfsSetMountpoint d => valid d
  | RZfsSetCompression d => valid d
  | RZfsMount d => valid d
  | RZfsUnmount d => valid d
  | RZfsDestroy d => valid d
  | RPoolCreate d => valid d
  | RPoolVdevAdd d => valid d
  | RPoolDeviceAttach d => valid d
  | RPoolDeviceRemove d => valid d
  | RPoolDeviceDetach d => valid d
  | RPoolDeviceOnline d => valid d
  | RPartitionTableCreate d => valid d
  | RPartitionCreate d => valid d
  | RPartitionDelete d => valid d
  | RPartitionShrink d => valid d
  | RSmartReport d => valid d
  | RSmartHealth d => valid d
  | RLvmReportOp d => valid d
  | RVgCreate d => valid d
  | RVgExtend d => valid d
  | RVgReduce d => valid d
  | RVgRemove d => valid d
  | RLvCreate d => valid d
  | RThinPoolCreate d => valid d
  | RThinLvCreate d => valid d
  | RLvResize d => valid d
  | RLvShrink d => valid d
  | RLvRename d => valid d
  | RLvDelete d => valid d
  | RRxeAdd d => valid d
  | REnableRoce d => valid d
  | RSetMtu d => valid d
  | RInstallPackages d => valid d
  | RCsiNvmeApply d => valid d
  | RCsiPublish d => valid d
  | RCsiUnpublish d => valid d
  | RCsiNvmeDelete d => valid d
  | RCsiHostGrant d => valid d
  | RCsiHostRevoke d => valid d
  | RCsiVolumeExpand d => valid d
  | RPipeKeyRevoke d => valid d
  | RUnit _ => True
  end.

(** The canonical spelling of a message: an IP address in its standard form. *)
Definition canon_request (w : wire_request) : wire_request :=
  match w with
  | WAuthenticate m => WAuthenticate (canon m)
  | WZvolCreate m => WZvolCreate (canon m)
  | WZvolDelete m => WZvolDelete (canon m)
  | WZvolResize m => WZvolResize (canon m)
  | WSnapshotCreate m => WSnapshotCreate (canon m)
  | WSnapshotDestroy m => WSnapshotDestroy (canon m)
  | WZfsClone m => WZfsClone (canon m)
  | WZvolInfo m => WZvolInfo (canon m)
  | WZfsFsCreate m => WZfsFsCreate (canon m)
  | WZfsSetMountpoint m => WZfsSetMountpoint (canon m)
  | WZfsSetCompression m => WZfsSetCompression (canon m)
  | WZfsMount m => WZfsMount (canon m)
  | WZfsUnmount m => WZfsUnmount (canon m)
  | WZfsDestroy m => WZfsDestroy (canon m)
  | WPoolCreate m => WPoolCreate (canon m)
  | WPoolVdevAdd m => WPoolVdevAdd (canon m)
  | WPoolDeviceAttach m => WPoolDeviceAttach (canon m)
  | WPoolDeviceRemove m => WPoolDeviceRemove (canon m)
  | WPoolDeviceDetach m => WPoolDeviceDetach (canon m)
  | WPoolDeviceOnline m => WPoolDeviceOnline (canon m)
  | WPartitionTableCreate m => WPartitionTableCreate (canon m)
  | WPartitionCreate m => WPartitionCreate (canon m)
  | WPartitionDelete m => WPartitionDelete (canon m)
  | WPartitionShrink m => WPartitionShrink (canon m)
  | WSmartReport m => WSmartReport (canon m)
  | WSmartHealth m => WSmartHealth (canon m)
  | WLvmReportOp m => WLvmReportOp (canon m)
  | WVgCreate m => WVgCreate (canon m)
  | WVgExtend m => WVgExtend (canon m)
  | WVgReduce m => WVgReduce (canon m)
  | WVgRemove m => WVgRemove (canon m)
  | WLvCreate m => WLvCreate (canon m)
  | WThinPoolCreate m => WThinPoolCreate (canon m)
  | WThinLvCreate m => WThinLvCreate (canon m)
  | WLvResize m => WLvResize (canon m)
  | WLvShrink m => WLvShrink (canon m)
  | WLvRename m => WLvRename (canon m)
  | WLvDelete m => WLvDelete (canon m)
  | WRxeAdd m => WRxeAdd (canon m)
  | WEnableRoce m => WEnableRoce (canon m)
  | WSetMtu m => WSetMtu (canon m)
  | WInstallPackages m => WInstallPackages (canon m)
  | WCsiNvmeApply m => WCsiNvmeApply (canon m)
  | WCsiPublish m => WCsiPublish (canon m)
  | WCsiUnpublish m => WCsiUnpublish (canon m)
  | WCsiNvmeDelete m => WCsiNvmeDelete (canon m)
  | WCsiHostGrant m => WCsiHostGrant (canon m)
  | WCsiHostRevoke m => WCsiHostRevoke (canon m)
  | WCsiVolumeExpand m => WCsiVolumeExpand (canon m)
  | WPipeKeyRevoke m => WPipeKeyRevoke (canon m)
  | WUnit o m => WUnit o m
  end.

Lemma fmap_try_into `{ConvLaw W D} {R} (f : D → R) d : valid d → (f <$> try_from (into d)) = Ok (f d).
Proof. intros Hv. by rewrite try_into. Qed.
Lemma fmap_into_try `{ConvLaw W D} {R} (f : D → R) w r :
  (f <$> try_from w) = Ok r → ∃ d, r = f d ∧ valid d ∧ into d = canon w.
Proof. destruct (try_from w) as [d|e] eqn:E; [|done]. intros [= <-]. apply into_try in E as [??]. by exists d. Qed.

(** Round trip of every request of this file. *)
Lemma operation_round_trip r : valid_request r → decode_request (encode_request r) = Ok r.
Proof. destruct r; intros Hv; first [exact (fmap_try_into _ _ Hv)|done]. Qed.

(** The ingress is a choke point: a message the daemon accepts is the
    (canonically spelled) encoding of an operation whose every field passed its
    validator and whose cross-field conditions hold; nothing else is accepted. *)
Lemma request_ingress_exact w r :
  decode_request w = Ok r → valid_request r ∧ encode_request r = canon_request w.
Proof.
  destruct w; intros H; cbn [decode_request] in H; [..|injection H as <-; by destruct m];
    lazymatch type of H with (?f <$> _ ?m) = Ok ?r =>
      lazymatch type of f with ?D → _ => let W := type of m in
        change ((f <$> try_from (W := W) (D := D) m) = Ok r) in H;
        apply fmap_into_try in H as (d & -> & Hv & E) end end;
    cbn [valid_request encode_request canon_request]; (split; [exact Hv|f_equal; exact E]).
Qed.

(** A jumbo-frame request, as a value and as a message. *)
Definition demo_mtu : SetMtu := {| set_mtu_netdev := Refine "eth0" I; set_mtu_mtu := lit 9000 |}.
Definition demo_mtu_msg : pb_SetMtu := {| pb_set_mtu_netdev := "eth0"; pb_set_mtu_mtu := lit 9000 |}.
Lemma request_ingress_exact_witness :
  valid_request (RSetMtu demo_mtu) ∧ encode_request (RSetMtu demo_mtu) = WSetMtu demo_mtu_msg.
Proof. apply (request_ingress_exact (WSetMtu demo_mtu_msg)). vm_compute. reflexivity. Defined.
