(* ===== verification/Desired.v ===== *)
(** * Desired state (greendot-proto/src/desired.rs)

    The export tables the web writes and the reconciler reads, the names derived
    from them, listen-address resolution, the render errors, and the read-only
    loader with the in-memory migration of the pre-split table. *)
From Stdlib Require Import Ascii String Sorted.
From stdpp Require Import base option list strings sets gmap pretty.
From S2P Require Import Prelude Ordered Validate IpAddr Types.
#[local] Open Scope string_scope.
#[local] Open Scope list_scope.
#[local] Open Scope N_scope.

(** ** Panics

    A computation that may panic ([expect], arithmetic overflow) is a result
    whose error is the panic message. *)
Abbreviation panics A := (result string A).
Definition debug_ValidationError (e : ValidationError) : string :=
  "ValidationError { what: " +:+ debug_str (ve_what e) +:+ ", value: " +:+ debug_str (ve_value e) +:+ " }".
Definition expect {A} (msg : string) (r : result ValidationError A) : panics A :=
  map_err (λ e, msg +:+ ": " +:+ debug_ValidationError e) r.

(** ** The export tables *)

Record NvmeExport := {
  nvme_id : Z;
  nvme_name : string;
  nvme_device_path : string;
  nvme_enabled : bool;
  nvme_want_rdma : bool;
  nvme_want_tcp : bool;
  nvme_want_loop : bool;
  nvme_allow_any_host : bool;
  nvme_initiators : list string;
  nvme_interfaces : list string;
  nvme_last_error : option string }.

Record IscsiExport := {
  iscsi_id : Z;
  iscsi_name : string;
  iscsi_device_path : string;
  iscsi_enabled : bool;
  iscsi_want_rdma : bool;
  iscsi_want_tcp : bool;
  iscsi_allow_any_host : bool;
  iscsi_initiators : list string;
  iscsi_interfaces : list string;
  iscsi_last_error : option string }.

Record NfsClientEntry := { nce_client : string; nce_rw : bool }.
Record NfsExport := {
  nfs_id : Z;
  nfs_path : string;
  nfs_enabled : bool;
  nfs_clients : list NfsClientEntry;
  nfs_last_error : option string }.

Record NicConfig := {
  nic_netdev : string;
  nic_mtu : option u32;
  nic_want_rxe : bool;
  nic_want_roce : bool }.

(** [NvmeExport::nqn] and [IscsiExport::iqn]. *)
Definition nvme_nqn (e : NvmeExport) : panics Nqn :=
  expect "validated name forms a valid NQN" (new NtNqn (OUR_NQN_PREFIX +:+ nvme_name e)).
Definition iscsi_iqn (e : IscsiExport) : panics Iqn :=
  expect "validated name forms a valid IQN" (new NtIqn (OUR_IQN_PREFIX +:+ iscsi_name e)).

(** ** Listen addresses *)

Definition parse_listen_iface (s : string) : option PciAddress :=
  strip_prefix "pci:" s ≫= λ addr, to_option (new NtPciAddress addr).

Definition listen_addrs (interfaces : list string) (dflt : IpAddr)
    (pci_addrs : gmap string (list IpAddr)) : list IpAddr :=
  match interfaces with
  | [] => [dflt]
  | _ =>
      dedup (sort (mjoin
        (omap (λ pci, pci_addrs !! as_str pci) (omap parse_listen_iface interfaces))))
  end.

(** ** Render errors *)

Definition nvme_render_error (e : NvmeExport) : option string :=
  if is_ok (new NtDevicePath (nvme_device_path e)) then None
  else Some ("invalid device path " +:+ debug_str (nvme_device_path e)
             +:+ " " +:+ em_dash +:+ " export cannot be served").
Definition iscsi_render_error (e : IscsiExport) : option string :=
  if negb (is_ok (new NtBackstoreName (iscsi_name e))) then
    Some ("invalid export name " +:+ debug_str (iscsi_name e)
          +:+ " " +:+ em_dash +:+ " export cannot be served")
  else if is_ok (new NtDevicePath (iscsi_device_path e)) then None
  else Some ("invalid device path " +:+ debug_str (iscsi_device_path e)
             +:+ " " +:+ em_dash +:+ " export cannot be served").
Definition nfs_render_error (e : NfsExport) : option string :=
  if negb (is_ok (new NtNfsExportPath (nfs_path e))) then
    Some ("invalid export path " +:+ debug_str (nfs_path e)
          +:+ " " +:+ em_dash +:+ " export cannot be served")
  else
    let valid := length (filter (λ c, Is_true (is_ok (new NtNfsClient (nce_client c)))) (nfs_clients e)) in
    if (valid =? 0)%nat
    then Some ("no valid client spec " +:+ em_dash +:+ " export cannot be served")
    else None.

(** ** The desired-state document and its loader *)

Record LegacyExport := {
  leg_id : Z;
  leg_kind : string;
  leg_name : string;
  leg_device_path : string;
  leg_enabled : bool;
  leg_want_rdma : bool;
  leg_want_tcp : bool;
  leg_want_loop : bool;
  leg_allow_any_host : bool;
  leg_initiators : list string;
  leg_last_error : option string }.

Record DesiredDoc := {
  doc_settings : gmap string string;
  doc_nvme_export : list NvmeExport;
  doc_iscsi_export : list IscsiExport;
  doc_nfs_export : list NfsExport;
  doc_nic_config : list NicConfig;
  doc_legacy_export : list LegacyExport }.
Definition DesiredDoc_default : DesiredDoc :=
  {| doc_settings := ∅; doc_nvme_export := []; doc_iscsi_export := [];
     doc_nfs_export := []; doc_nic_config := []; doc_legacy_export := [] |}.

Record Desired := {
  des_nvme_exports : list NvmeExport;
  des_iscsi_exports : list IscsiExport;
  des_nfs_exports : list NfsExport;
  des_nic_configs : list NicConfig;
  des_listen : IpAddr }.

Definition legacy_iscsi (e : LegacyExport) : IscsiExport :=
  {| iscsi_id := leg_id e; iscsi_name := leg_name e; iscsi_device_path := leg_device_path e;
     iscsi_enabled := leg_enabled e; iscsi_want_rdma := leg_want_rdma e;
     iscsi_want_tcp := leg_want_tcp e; iscsi_allow_any_host := leg_allow_any_host e;
     iscsi_initiators := leg_initiators e; iscsi_interfaces := [];
     iscsi_last_error := leg_last_error e |}.
Definition legacy_nvme (e : LegacyExport) : NvmeExport :=
  {| nvme_id := leg_id e; nvme_name := leg_name e; nvme_device_path := leg_device_path e;
     nvme_enabled := leg_enabled e; nvme_want_rdma := leg_want_rdma e;
     nvme_want_tcp := leg_want_tcp e; nvme_want_loop := leg_want_loop e;
     nvme_allow_any_host := leg_allow_any_host e; nvme_initiators := leg_initiators e;
     nvme_interfaces := []; nvme_last_error := leg_last_error e |}.

Definition fold_legacy_step (doc : DesiredDoc) (e : LegacyExport) : DesiredDoc :=
  if bool_decide (leg_kind e = "iscsi") then
    {| doc_settings := doc_settings doc; doc_nvme_export := doc_nvme_export doc;
       doc_iscsi_export := doc_iscsi_export doc ++ [legacy_iscsi e];
       doc_nfs_export := doc_nfs_export doc; doc_nic_config := doc_nic_config doc;
       doc_legacy_export := doc_legacy_export doc |}
  else
    {| doc_settings := doc_settings doc;
       doc_nvme_export := doc_nvme_export doc ++ [legacy_nvme e];
       doc_iscsi_export := doc_iscsi_export doc;
       doc_nfs_export := doc_nfs_export doc; doc_nic_config := doc_nic_config doc;
       doc_legacy_export := doc_legacy_export doc |}.
(** [mem::take] leaves the legacy table empty, then each row is pushed. *)
Definition fold_legacy (doc : DesiredDoc) : DesiredDoc :=
  foldl fold_legacy_step
    {| doc_settings := doc_settings doc; doc_nvme_export := doc_nvme_export doc;
       doc_iscsi_export := doc_iscsi_export doc; doc_nfs_export := doc_nfs_export doc;
       doc_nic_config := doc_nic_config doc; doc_legacy_export := [] |}
    (doc_legacy_export doc).

Definition sort_nvme_initiators (e : NvmeExport) : NvmeExport :=
  {| nvme_id := nvme_id e; nvme_name := nvme_name e; nvme_device_path := nvme_device_path e;
     nvme_enabled := nvme_enabled e; nvme_want_rdma := nvme_want_rdma e;
     nvme_want_tcp := nvme_want_tcp e; nvme_want_loop := nvme_want_loop e;
     nvme_allow_any_host := nvme_allow_any_host e;
     nvme_initiators := sort (nvme_initiators e);
     nvme_interfaces := nvme_interfaces e; nvme_last_error := nvme_last_error e |}.
Definition sort_iscsi_initiators (e : IscsiExport) : IscsiExport :=
  {| iscsi_id := iscsi_id e; iscsi_name := iscsi_name e;
     iscsi_device_path := iscsi_device_path e;
     iscsi_enabled := iscsi_enabled e; iscsi_want_rdma := iscsi_want_rdma e;
     iscsi_want_tcp := iscsi_want_tcp e; iscsi_allow_any_host := iscsi_allow_any_host e;
     iscsi_initiators := sort (iscsi_initiators e);
     iscsi_interfaces := iscsi_interfaces e; iscsi_last_error := iscsi_last_error e |}.

(** The outcome of [fs::read_to_string] on the state file. *)
Inductive state_file : Type := Text (text : string) | NotFound | ReadError (msg : string).
Definition UNSPECIFIED : IpAddr := V4 (lit 0) (lit 0) (lit 0) (lit 0).

(** [read_desired]; the TOML decoder is a parameter. *)
Definition read_desired (toml : string → result string DesiredDoc) (f : state_file) :
    result string Desired :=
  doc ← match f with
        | Text text => toml text
        | NotFound => Ok DesiredDoc_default
        | ReadError msg => Err msg
        end;
  let doc := fold_legacy doc in
  Ok {| des_nvme_exports := sort_nvme_initiators <$> sort_by nvme_name (doc_nvme_export doc);
        des_iscsi_exports := sort_iscsi_initiators <$> sort_by iscsi_name (doc_iscsi_export doc);
        des_nfs_exports := sort_by nfs_path (doc_nfs_export doc);
        des_nic_configs := sort_by nic_netdev (doc_nic_config doc);
        des_listen := default UNSPECIFIED (doc_settings doc !! "listen_addr" ≫= parse_ip) |}.

(** ** Lemmas *)

Lemma nvme_nqn_Ok e n : nvme_nqn e = Ok n ↔ as_str n = OUR_NQN_PREFIX +:+ nvme_name e.
Proof. unfold nvme_nqn, expect. by rewrite map_err_Ok, new_Ok. Qed.
Lemma iscsi_iqn_Ok e n : iscsi_iqn e = Ok n ↔ as_str n = OUR_IQN_PREFIX +:+ iscsi_name e.
Proof. unfold iscsi_iqn, expect. by rewrite map_err_Ok, new_Ok. Qed.
Lemma nvme_nqn_ours e n : nvme_nqn e = Ok n → starts_with OUR_NQN_PREFIX (as_str n).
Proof. intros ->%nvme_nqn_Ok. apply starts_with_app. Qed.
(** A validated name never makes the [expect] panic. *)
Lemma nvme_nqn_total e : export_name (nvme_name e) → ∃ n, nvme_nqn e = Ok n.
Proof.
  intros (H & _ & _)%export_name_forms. exists (Refine (OUR_NQN_PREFIX +:+ nvme_name e) H).
  by apply nvme_nqn_Ok.
Qed.
Lemma iscsi_iqn_total e : export_name (iscsi_name e) → ∃ n, iscsi_iqn e = Ok n.
Proof.
  intros (_ & H & _)%export_name_forms. exists (Refine (OUR_IQN_PREFIX +:+ iscsi_name e) H).
  by apply iscsi_iqn_Ok.
Qed.

(** An address is listened on exactly when it is the default of an unpinned
    export, or a current address of a pinned interface. *)
Lemma elem_of_listen_addrs a ifs d m :
  a ∈ listen_addrs ifs d m ↔
  (ifs = [] ∧ a = d) ∨
  ∃ s pci l, s ∈ ifs ∧ parse_listen_iface s = Some pci ∧ m !! as_str pci = Some l ∧ a ∈ l.
Proof.
  destruct ifs as [|i ifs]; cbn [listen_addrs]; [rewrite list_elem_of_singleton; set_solver|].
  rewrite elem_of_sort_dedup, list_elem_of_join.
  setoid_rewrite list_elem_of_omap. setoid_rewrite list_elem_of_omap. naive_solver.
Qed.
Lemma listen_addrs_NoDup ifs d m : NoDup (listen_addrs ifs d m).
Proof.
  destruct ifs; [apply NoDup_singleton|]. apply NoDup_sort_dedup.
Qed.

Lemma fold_legacy_steps doc l :
  foldl fold_legacy_step doc l =
  {| doc_settings := doc_settings doc;
     doc_nvme_export := doc_nvme_export doc ++
       (legacy_nvme <$> filter (λ e, leg_kind e ≠ "iscsi") l);
     doc_iscsi_export := doc_iscsi_export doc ++
       (legacy_iscsi <$> filter (λ e, leg_kind e = "iscsi") l);
     doc_nfs_export := doc_nfs_export doc; doc_nic_config := doc_nic_config doc;
     doc_legacy_export := doc_legacy_export doc |}.
Proof.
  revert doc. induction l as [|e l IH]; intros doc; cbn -[filter].
  - rewrite !app_nil_r. by destruct doc.
  - rewrite IH. unfold fold_legacy_step. rewrite !filter_cons.
    case_bool_decide; repeat case_decide; try done; cbn; by rewrite <- !app_assoc.
Qed.
