(* ===== verification/Actual.v ===== *)
(** * Actual-state views (greendot-proto/src/actual)

    What the readers report of the live system; plain data, no invariant: a
    foreign tool may have written anything. *)
From Stdlib Require Import Ascii String.
From stdpp Require Import base option list strings sets gmap.
From S2P Require Import Prelude Ordered Validate IpAddr Types.
#[local] Open Scope string_scope.
#[local] Open Scope list_scope.
#[local] Open Scope N_scope.

(** ** nvmet *)

Record Namespace := { ans_nsid : u32; ans_device_path : string; ans_enabled : bool }.
Record Subsys := {
  as_nqn : string;
  as_allow_any_host : bool;
  as_allowed_hosts : list string;
  as_namespaces : list Namespace }.
Record Port := {
  ap_id : u16;
  ap_trtype : string;
  ap_traddr : string;
  ap_trsvcid : string;
  ap_subsystems : list string }.
Record ActualNvmet := { an_subsystems : list Subsys; an_ports : list Port }.

(** ** LIO *)

Record Backstore := { ab_name : string; ab_udev_path : string; ab_enabled : bool }.
Record Portal := { apo_addr_port : string; apo_iser : bool }.
Record Target := {
  at_iqn : string;
  at_enabled : bool;
  at_demo_mode : bool;
  at_luns : list string;
  at_portals : list Portal;
  at_acls : list string }.
Record ActualLio := { al_backstores : list Backstore; al_targets : list Target }.

(** ** NFS *)

Record NfsExportEntry := { nee_path : string; nee_clients : list string }.
Record ActualNfs := {
  anf_exports : list NfsExportEntry;
  anf_rdma_port : option u16;
  anf_managed : gset (string * string * bool) }.
Definition exported (a : ActualNfs) (path : string) : bool :=
  existsb (λ e, bool_decide (nee_path e = path)) (anf_exports a).

(** ** NICs *)

Inductive NicRdmaKind : Type :=
| Active
| Inactive
| CapableDisabled (vendor : string)
| SoftRoceable
| Unsupported.
Record NicStatus := {
  nst_netdev : string;
  nst_rdma : option string;
  nst_pci : option PciAddress;
  nst_addrs : list IpAddr;
  nst_kind : NicRdmaKind }.
Record NicAddr := { na_addr : string; na_prefix : u8; na_dynamic : bool }.
Record NicNetwork := {
  nn_netdev : string;
  nn_mac : option string;
  nn_mtu : option u32;
  nn_operstate : string;
  nn_dhcp : bool;
  nn_addrs : list NicAddr;
  nn_gateway : option string }.

(** ** RDMA devices *)

Record RdmaDev := {
  rd_name : string;
  rd_netdev : option string;
  rd_active : bool;
  rd_addrs : list IpAddr }.
Definition is_unspecified (a : IpAddr) : bool := forallb (N.eqb 0) (tail (okey a)).
Definition addr_served_by_rdma (traddr : string) (devs : list RdmaDev) : bool :=
  match parse_ip traddr with
  | None => false
  | Some addr =>
      if is_unspecified addr
      then existsb (λ d, match rd_addrs d with [] => false | _ => true end) devs
      else existsb (λ d, bool_decide (addr ∈ rd_addrs d)) devs
  end.
