(* ===== verification/Render.v ===== *)
(** * Rendering and drift predicates (greendotctl/src/render.rs)

    Pure: the desired kernel state computed from the export tables, and the
    [*_satisfied] predicates that compare it with what the readers report. *)
From Stdlib Require Import Ascii String Sorted.
From stdpp Require Import base option list strings sets gmap pretty.
From S2P Require Import Prelude Ordered Validate IpAddr Types Desired Actual.
#[local] Open Scope string_scope.
#[local] Open Scope list_scope.
#[local] Open Scope N_scope.

Definition TRSVCID : u16 := lit 4420.

(** ** nvmet *)

#[export] Instance port_key_Ordered : Ordered (Transport * IpAddr) :=
  λ k, okey k.1 ++ okey k.2.
#[export] Instance port_key_OrderedLaw : OrderedLaw (Transport * IpAddr).
Proof.
  intros [t a] [t' a'] H. unfold okey, port_key_Ordered in H. cbn in H.
  destruct t, t'; simplify_eq/=; try done;
    f_equal; by apply okey_inj.
Qed.

(** [enabled()]: enabled exports whose device path is valid. *)
Definition nvmet_enabled (nvme : list NvmeExport) : list NvmeExport :=
  filter (λ e, Is_true (nvme_enabled e && is_ok (new NtDevicePath (nvme_device_path e)))) nvme.

(** One export with its NQN. The first pass of the code calls [e.nqn()] on every
    enabled export, so a panic happens there; the later calls return the same. *)
Definition with_nqn (e : NvmeExport) : panics (NvmeExport * Nqn) :=
  n ← nvme_nqn e; Ok (e, n).

Definition valid_nqns (l : list string) : list Nqn :=
  omap (λ i, to_option (new NtNqn i)) l.

Definition render_subsys (en : NvmeExport * Nqn) : option NvmetSubsysSpec :=
  let '(e, n) := en in
  dp ← to_option (new NtDevicePath (nvme_device_path e));
  Some {| sub_nqn := n;
          sub_allow_any_host := nvme_allow_any_host e;
          sub_allowed_hosts := valid_nqns (nvme_initiators e);
          sub_namespaces := [{| ns_nsid := lit 1; ns_device_path := dp |}] |}.

(** [net.entry((trtype, a)).or_default().push(nqn)]. *)
Definition net_push (n : Nqn) (net : btmap (Transport * IpAddr) (list Nqn))
    (k : Transport * IpAddr) : btmap (Transport * IpAddr) (list Nqn) :=
  bt_alter k (λ o, default [] o ++ [n]) net.

(** The (transport, address) pairs an export asks for, in loop order. *)
Definition export_keys (dflt : IpAddr) (pci : gmap string (list IpAddr)) (e : NvmeExport) :
    list (Transport * IpAddr) :=
  let addrs := listen_addrs (nvme_interfaces e) dflt pci in
  mjoin ((λ '(want, t), if (want : bool) then pair t <$> addrs else [])
         <$> [(nvme_want_rdma e, Rdma); (nvme_want_tcp e, Tcp)]).

Definition group_exports (dflt : IpAddr) (pci : gmap string (list IpAddr))
    (named : list (NvmeExport * Nqn)) : btmap (Transport * IpAddr) (list Nqn) :=
  foldl (λ net '(e, n), foldl (net_push n) net (export_keys dflt pci e)) [] named.

Definition loop_subs (named : list (NvmeExport * Nqn)) : list Nqn :=
  (filter (λ en, Is_true (nvme_want_loop en.1)) named).*2.

Definition net_port (kv : Transport * IpAddr * list Nqn) : NvmetPortSpec :=
  {| port_id := lit 0; port_trtype := kv.1.1; port_traddr := kv.1.2;
     port_trsvcid := TRSVCID; port_subsystems := kv.2 |}.
Definition render_ports (dflt : IpAddr) (pci : gmap string (list IpAddr))
    (named : list (NvmeExport * Nqn)) : list NvmetPortSpec :=
  (net_port <$> group_exports dflt pci named) ++
  match loop_subs named with
  | [] => []
  | subs => [{| port_id := lit 0; port_trtype := Loop; port_traddr := dflt;
                port_trsvcid := TRSVCID; port_subsystems := subs |}]
  end.

(** [next += 1] on a u16: an overflow panics (it wraps in a build without
    overflow checks). *)
Definition incr_u16 (x : u16) : panics u16 :=
  ok_or "attempt to add with overflow" (refine (fits 16) (raw x + 1)).
(** [while reserved.contains(&next) { next += 1 }]; [fuel] bounds the number of
    iterations and [S (size reserved)] is always enough. *)
Fixpoint skip_reserved (fuel : nat) (reserved : gset u16) (next : u16) : panics u16 :=
  if decide (next ∈ reserved) then
    match fuel with
    | O => Err "out of fuel"
    | S fuel => next ← incr_u16 next; skip_reserved fuel reserved next
    end
  else Ok next.
Definition set_port_id (p : NvmetPortSpec) (id : u16) : NvmetPortSpec :=
  {| port_id := id; port_trtype := port_trtype p; port_traddr := port_traddr p;
     port_trsvcid := port_trsvcid p; port_subsystems := port_subsystems p |}.
Fixpoint assign_ids (reserved : gset u16) (next : u16) (ports : list NvmetPortSpec) :
    panics (list NvmetPortSpec) :=
  match ports with
  | [] => Ok []
  | p :: ports =>
      id ← skip_reserved (S (size reserved)) reserved next;
      next ← incr_u16 id;
      rest ← assign_ids reserved next ports;
      Ok (set_port_id p id :: rest)
  end.

Definition render_nvmet (nvme : list NvmeExport) (default_listen : IpAddr)
    (pci_addrs : gmap string (list IpAddr)) (reserved_ports : gset u16) : panics NvmetDesired :=
  named ← mapM with_nqn (nvmet_enabled nvme);
  ports ← assign_ids reserved_ports (lit 1) (render_ports default_listen pci_addrs named);
  Ok {| nd_subsystems := omap render_subsys named; nd_ports := ports |}.

Definition ours (nqn : string) : bool := starts_with OUR_NQN_PREFIX nqn.
Definition is_foreign_port (p : Port) : bool :=
  negb (match ap_subsystems p with [] => true | _ => false end)
  && negb (existsb ours (ap_subsystems p)).
Definition foreign_port_ids (a : ActualNvmet) : gset u16 :=
  {[ CSI_PORT_ID ]} ∪
  list_to_set (ap_id <$> filter (λ p, Is_true (is_foreign_port p)) (an_ports a)).

(** ** Render issues *)

Definition invalid_initiators (k : newtype) (label kind tail : string) (name : string)
    (l : list string) : list string :=
  (λ i, label +:+ " export " +:+ debug_str name +:+ ": invalid initiator " +:+ kind +:+ " "
        +:+ debug_str i +:+ " " +:+ em_dash +:+ " dropped from " +:+ tail)
  <$> filter (λ i, Is_true (negb (is_ok (new k i)))) l.
Definition nvme_issues (e : NvmeExport) : list string :=
  match nvme_render_error e with
  | Some err => ["NVMe-oF export " +:+ debug_str (nvme_name e) +:+ ": " +:+ err]
  | None => []
  end
  ++ invalid_initiators NtNqn "NVMe-oF" "NQN" "allowed hosts" (nvme_name e) (nvme_initiators e).
Definition iscsi_issues (e : IscsiExport) : list string :=
  match iscsi_render_error e with
  | Some err => ["iSCSI export " +:+ debug_str (iscsi_name e) +:+ ": " +:+ err]
  | None => []
  end
  ++ invalid_initiators NtIqn "iSCSI" "IQN" "the ACL" (iscsi_name e) (iscsi_initiators e).
Definition nfs_issues (e : NfsExport) : list string :=
  match nfs_render_error e with
  | Some err => ["NFS export " +:+ debug_str (nfs_path e) +:+ ": " +:+ err]
  | None =>
      (λ c, "NFS export " +:+ debug_str (nfs_path e) +:+ ": invalid client "
            +:+ debug_str (nce_client c) +:+ " " +:+ em_dash +:+ " dropped")
      <$> filter (λ c, Is_true (negb (is_ok (new NtNfsClient (nce_client c))))) (nfs_clients e)
  end.
Definition render_issues (nvme : list NvmeExport) (iscsi : list IscsiExport)
    (nfs : list NfsExport) : list string :=
  mjoin (nvme_issues <$> filter (λ e, Is_true (nvme_enabled e)) nvme)
  ++ mjoin (iscsi_issues <$> filter (λ e, Is_true (iscsi_enabled e)) iscsi)
  ++ mjoin (nfs_issues <$> filter (λ e, Is_true (nfs_enabled e)) nfs).

(** ** LIO *)

Definition lio_portals (e : IscsiExport) (addrs : list IpAddr) : list LioPortalSpec :=
  mjoin ((λ addr,
    (if iscsi_want_rdma e
     then [{| portal_addr := addr; portal_port := lit 3260; portal_iser := true |}] else [])
    ++ (if iscsi_want_tcp e
        then [{| portal_addr := addr;
                 portal_port := if iscsi_want_rdma e then lit 3261 else lit 3260;
                 portal_iser := false |}] else [])) <$> addrs).
Definition valid_iqns (l : list string) : list Iqn :=
  omap (λ i, to_option (new NtIqn i)) l.
Fixpoint render_lio_go (iscsi : list IscsiExport) (default_listen : IpAddr)
    (pci_addrs : gmap string (list IpAddr)) : panics LioDesired :=
  match iscsi with
  | [] => Ok {| ld_backstores := []; ld_targets := [] |}
  | e :: iscsi =>
      match new NtBackstoreName (iscsi_name e), new NtDevicePath (iscsi_device_path e) with
      | Ok name, Ok dp =>
          iqn ← iscsi_iqn e;
          rest ← render_lio_go iscsi default_listen pci_addrs;
          Ok {| ld_backstores :=
                  {| bs_name := name; bs_device_path := dp |} :: ld_backstores rest;
                ld_targets :=
                  {| tgt_iqn := iqn; tgt_enabled := true;
                     tgt_demo_mode := iscsi_allow_any_host e;
                     tgt_luns := [{| lun_lun := lit 0; lun_backstore := name |}];
                     tgt_portals :=
                       lio_portals e (listen_addrs (iscsi_interfaces e) default_listen pci_addrs);
                     tgt_acls := if iscsi_allow_any_host e then []
                                 else valid_iqns (iscsi_initiators e) |} :: ld_targets rest |}
      | _, _ => render_lio_go iscsi default_listen pci_addrs
      end
  end.
Definition render_lio (iscsi : list IscsiExport) (default_listen : IpAddr)
    (pci_addrs : gmap string (list IpAddr)) : panics LioDesired :=
  render_lio_go (filter (λ e, Is_true (iscsi_enabled e)) iscsi) default_listen pci_addrs.

(** ** NFS *)

Definition NFS_FSID_BASE : N := 0x67000000.
(** [e.id as u32]: an i64 truncated to its low 32 bits. *)
Definition as_u32 (z : Z) : N := Z.to_N (z mod 2 ^ 32).
Lemma fits_lor w a b : a < 2 ^ w → b < 2 ^ w → fits w (N.lor a b).
Proof.
  intros Ha Hb. apply fits_spec.
  destruct (decide (N.lor a b = 0)) as [->|Hne]; [lia|].
  apply N.log2_lt_pow2; [lia|]. rewrite N.log2_lor.
  destruct (decide (a = 0)) as [->|]; destruct (decide (b = 0)) as [->|];
    rewrite ?N.max_lub_lt_iff; repeat split; try (by apply N.log2_lt_pow2; lia);
    change (N.log2 0) with 0; try done;
    destruct (decide (w = 0)) as [->|]; change (2 ^ 0) with 1 in *; lia.
Qed.
Lemma as_u32_lt z : as_u32 z < 2 ^ 32.
Proof.
  unfold as_u32. pose proof (Z.mod_pos_bound z (2 ^ 32) ltac:(done)). lia.
Qed.
Definition fsid (id : Z) : u32 :=
  Refine (N.lor NFS_FSID_BASE (as_u32 id))
         (fits_lor 32 _ _ (eq_refl : NFS_FSID_BASE < 2 ^ 32) (as_u32_lt id)).

Definition render_nfs_client (c : NfsClientEntry) : option NfsClientSpec :=
  cl ← to_option (new NtNfsClient (nce_client c));
  Some {| cs_client := cl; cs_rw := nce_rw c |}.
Definition render_nfs_export (e : NfsExport) : option NfsExportSpec :=
  path ← to_option (new NtNfsExportPath (nfs_path e));
  match omap render_nfs_client (nfs_clients e) with
  | [] => None
  | clients => Some {| es_path := path; es_fsid := fsid (nfs_id e); es_clients := clients |}
  end.
Definition render_nfs (exports : list NfsExport) (rdma_port : u16) : NfsDesired :=
  {| nfs_exports := omap render_nfs_export (filter (λ e, Is_true (nfs_enabled e)) exports);
     nfs_rdma_port := rdma_port |}.

Definition nfs_want (d : NfsDesired) : gset (string * string * bool) :=
  list_to_set (mjoin ((λ e, (λ c, (as_str (es_path e), as_str (cs_client c), cs_rw c))
                            <$> es_clients e) <$> nfs_exports d)).
Definition nfs_satisfied (d : NfsDesired) (a : ActualNfs) : bool :=
  bool_decide (nfs_want d = anf_managed a)
  && forallb (λ e, exported a (as_str (es_path e))) (nfs_exports d)
  && (match nfs_exports d with [] => true | _ => false end
      || match anf_rdma_port a with Some _ => true | None => false end).

Definition nfs_modules (exports : list NfsExport) : list KernelModule :=
  if existsb nfs_enabled exports then [Rpcrdma] else [].

(** ** NIC actions *)

Inductive NicAction : Type :=
| SetMtu (netdev : NetdevName) (mtu : u32)
| AddRxe (netdev : NetdevName)
| EnableRoce (netdev : NetdevName).

Definition nic_action (c : NicConfig) (networks : list NicNetwork) (statuses : list NicStatus) :
    list NicAction :=
  match new NtNetdevName (nic_netdev c) with
  | Err _ => []
  | Ok name =>
      match nic_mtu c with
      | Some mtu =>
          match List.find (λ n, bool_decide (nn_netdev n = nic_netdev c)) networks with
          | Some n => if bool_decide (nn_mtu n ≠ Some mtu) then [SetMtu name mtu] else []
          | None => []
          end
      | None => []
      end
      ++ match nst_kind <$> List.find (λ s, bool_decide (nst_netdev s = nic_netdev c)) statuses with
         | Some SoftRoceable => if nic_want_rxe c then [AddRxe name] else []
         | Some (CapableDisabled _) => if nic_want_roce c then [EnableRoce name] else []
         | _ => []
         end
  end.
Definition nic_actions (desired : list NicConfig) (networks : list NicNetwork)
    (statuses : list NicStatus) : list NicAction :=
  mjoin ((λ c, nic_action c networks statuses) <$> desired).
Definition nic_satisfied (desired : list NicConfig) (networks : list NicNetwork)
    (statuses : list NicStatus) : bool :=
  match nic_actions desired networks statuses with [] => true | _ => false end.

(** ** Drift predicates *)

(** [set(...)]: the elements as a [BTreeSet], compared only for equality. *)
Definition sset (l : list string) : gset string := list_to_set l.
Definition find_ns {A} (nsid : A → u32) (l : list A) : option A :=
  List.find (λ n, bool_decide (raw (nsid n) = 1)) l.

Definition subsys_satisfied (ds : NvmetSubsysSpec) (a : ActualNvmet) : bool :=
  match List.find (λ s, bool_decide (as_nqn s = as_str (sub_nqn ds))) (an_subsystems a) with
  | None => false
  | Some s =>
      bool_decide (as_allow_any_host s = sub_allow_any_host ds)
      && bool_decide (sset (as_str <$> sub_allowed_hosts ds) = sset (as_allowed_hosts s))
      && match find_ns ans_nsid (as_namespaces s), find_ns ns_nsid (sub_namespaces ds) with
         | Some an, Some dn =>
             ans_enabled an && bool_decide (ans_device_path an = as_str (ns_device_path dn))
         | _, _ => false
         end
  end.

Definition find_dport (id : u16) (d : NvmetDesired) : option NvmetPortSpec :=
  List.find (λ p, bool_decide (port_id p = id)) (nd_ports d).
Definition find_aport (id : u16) (a : ActualNvmet) : option Port :=
  List.find (λ p, bool_decide (ap_id p = id)) (an_ports a).
Definition want_links (o : option NvmetPortSpec) : gset string :=
  match o with Some p => sset (as_str <$> port_subsystems p) | None => ∅ end.
Definition have_links (o : option Port) : gset string :=
  match o with
  | Some p => sset (filter (λ n, Is_true (ours n)) (ap_subsystems p))
  | None => ∅
  end.
Definition port_satisfied (d : NvmetDesired) (a : ActualNvmet) (id : u16) : bool :=
  let dp := find_dport id d in
  let ap := find_aport id a in
  bool_decide (want_links dp = have_links ap)
  && match dp, ap with
     | Some dp, Some ap =>
         bool_decide (ap_trtype ap = trtype_str (port_trtype dp))
         && (bool_decide (port_trtype dp = Loop)
             || bool_decide (ap_traddr ap = show_ip (port_traddr dp)))
     | _, _ => true
     end.

Definition nvmet_satisfied (d : NvmetDesired) (a : ActualNvmet) : bool :=
  bool_decide (sset (as_str <$> (sub_nqn <$> nd_subsystems d))
               = sset (filter (λ n, Is_true (ours n)) (as_nqn <$> an_subsystems a)))
  && forallb (λ ds, subsys_satisfied ds a) (nd_subsystems d)
  && forallb (port_satisfied d a)
       (elements (list_to_set ((port_id <$> nd_ports d) ++ (ap_id <$> an_ports a)) : gset u16)).

Definition fmt_addr (addr : IpAddr) (port : u16) : string :=
  match addr with
  | V4 _ _ _ _ => show_ip addr +:+ ":" +:+ show_uint port
  | V6 _ _ _ _ _ _ _ _ => "[" +:+ show_ip addr +:+ "]:" +:+ show_uint port
  end.

Definition backstore_satisfied (db : LioBackstoreSpec) (a : ActualLio) : bool :=
  match List.find (λ b, bool_decide (ab_name b = as_str (bs_name db))) (al_backstores a) with
  | None => false
  | Some ab => ab_enabled ab && bool_decide (ab_udev_path ab = as_str (bs_device_path db))
  end.
Definition portal_set (l : list (string * bool)) : gset (string * bool) := list_to_set l.
Definition target_satisfied (dt : LioTargetSpec) (a : ActualLio) : bool :=
  match List.find (λ t, bool_decide (at_iqn t = as_str (tgt_iqn dt))) (al_targets a) with
  | None => false
  | Some t =>
      bool_decide (at_enabled t = tgt_enabled dt)
      && bool_decide (at_demo_mode t = tgt_demo_mode dt)
      && bool_decide (sset ((λ l, as_str (lun_backstore l)) <$> tgt_luns dt) = sset (at_luns t))
      && bool_decide
           (portal_set ((λ p, (fmt_addr (portal_addr p) (portal_port p), portal_iser p))
                        <$> tgt_portals dt)
            = portal_set ((λ p, (apo_addr_port p, apo_iser p)) <$> at_portals t))
      && bool_decide
           ((if tgt_demo_mode dt then ∅ else sset (as_str <$> tgt_acls dt)) = sset (at_acls t))
  end.
Definition lio_satisfied (d : LioDesired) (a : ActualLio) : bool :=
  bool_decide (sset (as_str <$> (tgt_iqn <$> ld_targets d))
               = sset (filter (λ n, Is_true (starts_with OUR_IQN_PREFIX n))
                              (at_iqn <$> al_targets a)))
  && forallb (λ db, backstore_satisfied db a) (ld_backstores d)
  && forallb (λ dt, target_satisfied dt a) (ld_targets d).

(** ** Module lists *)

Definition nvme_modules (nvme : list NvmeExport) : list KernelModule :=
  let any f := existsb f (filter (λ e, Is_true (nvme_enabled e)) nvme) in
  (if any nvme_want_rdma then [NvmetRdma] else [])
  ++ (if any nvme_want_tcp then [NvmetTcp] else [])
  ++ (if any nvme_want_loop then [NvmetLoop] else []).
Definition iscsi_modules (iscsi : list IscsiExport) : list KernelModule :=
  match filter (λ e, Is_true (iscsi_enabled e)) iscsi with
  | [] => []
  | enabled => Iscsi :: (if existsb iscsi_want_rdma enabled then [Iser] else [])
  end.
