(* ===== verification/RenderFacts.v ===== *)
(** * Theorems about rendering (greendotctl/src/render.rs)

    Port-id allocation never takes a foreign or CSI id and never overflows below
    the stated bound; the port groups link exactly what was asked for; whatever
    the renderers drop is reported. *)
From Stdlib Require Import Ascii String Sorted.
From stdpp Require Import base option list strings sets gmap pretty.
From S2P Require Import Prelude Ordered Validate IpAddr Types Desired Actual Render.
#[local] Open Scope string_scope.
#[local] Open Scope list_scope.
#[local] Open Scope N_scope.

(** ** Port ids *)

Lemma incr_u16_Ok x y : incr_u16 x = Ok y ↔ raw y = raw x + 1.
Proof. unfold incr_u16. by rewrite ok_or_Ok, refine_Some. Qed.
Lemma incr_u16_total x : raw x + 1 < 65536 → ∃ y, incr_u16 x = Ok y ∧ raw y = raw x + 1.
Proof.
  intros H. assert (Hf : fits 16 (raw x + 1)) by (by apply fits_spec).
  exists (Refine (raw x + 1) Hf). split; [|done]. by apply incr_u16_Ok.
Qed.

Section ports.
Context (reserved : gset u16).

Lemma skip_reserved_Ok fuel next id :
  skip_reserved fuel reserved next = Ok id → (id ∉ reserved) ∧ raw next <= raw id.
Proof.
  revert next. induction fuel as [|fuel IH]; intros next; cbn; case_decide; intros; inv_ok; try done.
  match goal with H : incr_u16 _ = _ |- _ => apply incr_u16_Ok in H end.
  match goal with H : skip_reserved _ _ _ = _ |- _ => apply IH in H as [? ?] end.
  split; [done|]. lia.
Qed.

Lemma assign_ids_Ok next ports ports' :
  assign_ids reserved next ports = Ok ports' →
  ports' = zip_with set_port_id ports (port_id <$> ports')
  ∧ length ports' = length ports
  ∧ StronglySorted N.lt ((λ p, raw (port_id p)) <$> ports')
  ∧ Forall (λ p, (port_id p ∉ reserved) ∧ raw next <= raw (port_id p)) ports'.
Proof.
  revert next ports'. induction ports as [|p ports IH]; intros next ports'; cbn -[skip_reserved]; intros H; inv_ok.
  { split_and!; [done..|constructor|constructor]. }
  match goal with H : skip_reserved _ _ _ = Ok _ |- _ => apply skip_reserved_Ok in H as [? ?] end.
  match goal with H : incr_u16 _ = _ |- _ => apply incr_u16_Ok in H end.
  match goal with H : assign_ids _ _ _ = Ok _ |- _ => apply IH in H as (Hz & Hl & Hs & Hf) end.
  split_and!; cbn.
  - by f_equal.
  - by rewrite Hl.
  - constructor; [done|]. apply Forall_fmap. eapply Forall_impl; [done|].
    cbn. intros q [_ ?]. lia.
  - constructor; [done|]. eapply Forall_impl; [done|]. cbn. intros q [? ?]. split; [done|lia].
Qed.

(** Reserved ids at or above [n]. *)
Definition above (n : N) : gset u16 := filter (λ x, n <= raw x) reserved.
Lemma above_in x : x ∈ reserved → size (above (raw x)) = S (size (above (raw x + 1))).
Proof.
  intros Hx. assert (Heq : above (raw x) = {[x]} ∪ above (raw x + 1)).
  { apply set_eq. intros y. unfold above. rewrite elem_of_union, !elem_of_filter, elem_of_singleton.
    split.
    - intros [Hle Hy]. destruct (decide (y = x)) as [->|Hne]; [by left|]. right. split; [|done].
      assert (raw y ≠ raw x) by (intros ?%raw_inj; done). lia.
    - intros [->|[? ?]]; [split; [lia|done]|split; [lia|done]]. }
  rewrite Heq, size_union, size_singleton; [done|].
  unfold above. set_unfold. intros y -> [Hle _]. lia.
Qed.
Lemma above_notin x : x ∉ reserved → above (raw x) = above (raw x + 1).
Proof.
  intros Hx. apply set_eq. intros y. unfold above. rewrite !elem_of_filter.
  split; [intros [Hle Hy]|intros [? ?]; split; [lia|done]]. split; [|done].
  assert (raw y ≠ raw x) by (intros ?%raw_inj; by subst). lia.
Qed.
Lemma above_le n : (size (above n) <= size reserved)%nat.
Proof. apply subseteq_size. unfold above. set_solver. Qed.

Lemma skip_reserved_total fuel next :
  (size (above (raw next)) <= fuel)%nat →
  raw next + N.of_nat (size (above (raw next))) < 65536 →
  ∃ id, skip_reserved fuel reserved next = Ok id ∧ (id ∉ reserved) ∧
    raw id + N.of_nat (size (above (raw id)))
    = raw next + N.of_nat (size (above (raw next))).
Proof.
  revert next. induction fuel as [|fuel IH]; intros next Hf Hb; cbn; case_decide as Hin.
  - rewrite above_in in Hf by done. lia.
  - eauto.
  - rewrite above_in in Hf, Hb by done.
    destruct (incr_u16_total next) as (y & Hy & Hry); [lia|].
    rewrite Hy. cbn. rewrite <- Hry in *.
    destruct (IH y) as (id & Hid & Hni & Heq); [lia|lia|].
    exists id. split_and!; [done..|]. rewrite (above_in next) by done. rewrite <- Hry. lia.
  - eauto.
Qed.
Lemma assign_ids_total next ports :
  raw next + N.of_nat (size (above (raw next))) + N.of_nat (length ports) <= 65535 →
  ∃ ports', assign_ids reserved next ports = Ok ports'.
Proof.
  revert next. induction ports as [|p ports IH]; intros next Hb; [by eexists|]. cbn -[skip_reserved] in Hb |- *.
  destruct (skip_reserved_total (S (size reserved)) next) as (id & Hid & Hni & Heq);
    [pose proof (above_le (raw next)); lia|lia|].
  rewrite Hid. cbn. destruct (incr_u16_total id) as (y & Hy & Hry); [lia|].
  rewrite Hy. cbn. destruct (IH y) as [ps Hps].
  { rewrite Hry, <- above_notin by done. lia. }
  rewrite Hps. by eexists.
Qed.
End ports.

Lemma sorted_lt_NoDup (l : list N) : StronglySorted N.lt l → NoDup l.
Proof.
  induction 1 as [|n l _ IH Hn]; constructor; [|done].
  rewrite Forall_forall in Hn. intros Hin%Hn. lia.
Qed.

(** ** The whole renderer *)

Lemma with_nqn_Ok e en : with_nqn e = Ok en ↔ en.1 = e ∧ nvme_nqn e = Ok en.2.
Proof.
  unfold with_nqn. rewrite bind_Ok. destruct en as [e' n]. cbn. split.
  - intros (m & Hm & [= <- <-]). done.
  - intros [-> H]. eauto.
Qed.
Lemma named_Ok l named :
  mapM with_nqn l = Ok named →
  named.*1 = l ∧ Forall (λ en, nvme_nqn en.1 = Ok en.2) named.
Proof.
  rewrite mapM_Ok. induction 1 as [|e en l named H _ [IH1 IH2]]; cbn; [done|].
  apply with_nqn_Ok in H as [<- H]. rewrite IH1. by split; [|constructor].
Qed.
Lemma render_nvmet_inv nvme dflt pci reserved d :
  render_nvmet nvme dflt pci reserved = Ok d →
  ∃ named, mapM with_nqn (nvmet_enabled nvme) = Ok named
    ∧ assign_ids reserved (lit 1) (render_ports dflt pci named) = Ok (nd_ports d)
    ∧ nd_subsystems d = omap render_subsys named.
Proof. unfold render_nvmet. intros H. inv_ok. eauto. Qed.

(** The key of a port: what it listens on. *)
Definition port_key (p : NvmetPortSpec) : Transport * IpAddr := (port_trtype p, port_traddr p).

Lemma zip_set_port_id {A} (f : NvmetPortSpec → A) ports ids :
  (∀ p id, f (set_port_id p id) = f p) → length ports = length ids →
  f <$> zip_with set_port_id ports ids = f <$> ports.
Proof.
  intros Hf. revert ids. induction ports as [|p ports IH]; intros [|id ids]; cbn; [done..|].
  intros [= H]. by rewrite Hf, IH.
Qed.
(** Allocation changes nothing of a port but its id. *)
Lemma assign_ids_fmap {A} (f : NvmetPortSpec → A) reserved next ports ports' :
  (∀ p id, f (set_port_id p id) = f p) →
  assign_ids reserved next ports = Ok ports' → f <$> ports' = f <$> ports.
Proof.
  intros Hf (Hz & Hl & _ & _)%assign_ids_Ok. rewrite Hz.
  apply zip_set_port_id; [done|]. by rewrite length_fmap.
Qed.

Lemma assign_ids_elem reserved next ports ports' k l :
  assign_ids reserved next ports = Ok ports' →
  (∃ p, p ∈ ports' ∧ port_key p = k ∧ port_subsystems p = l) ↔
  (∃ p, p ∈ ports ∧ port_key p = k ∧ port_subsystems p = l).
Proof.
  set (f p := (port_key p, port_subsystems p)). intros H%(assign_ids_fmap f); [|done].
  assert (Hf : ∀ ps : list NvmetPortSpec, (∃ p, p ∈ ps ∧ port_key p = k ∧ port_subsystems p = l) ↔ (k, l) ∈ f <$> ps).
  { intros ps. rewrite list_elem_of_fmap. unfold f. split.
    - intros (p & ? & <- & <-). eauto.
    - intros (p & [= -> ->] & ?). eauto. }
  by rewrite !Hf, H.
Qed.

(** ** Groups *)

Section groups.
Context (dflt : IpAddr) (pci : gmap string (list IpAddr)).
Abbreviation net := (btmap (Transport * IpAddr) (list Nqn)).

Lemma export_keys_spec e t a :
  (t, a) ∈ export_keys dflt pci e ↔
  a ∈ listen_addrs (nvme_interfaces e) dflt pci ∧
  ((t = Rdma ∧ nvme_want_rdma e = true) ∨ (t = Tcp ∧ nvme_want_tcp e = true)).
Proof.
  unfold export_keys. cbn. rewrite app_nil_r, elem_of_app.
  assert (Hw : ∀ (w : bool) t', (t, a) ∈ (if w then pair t' <$> listen_addrs (nvme_interfaces e) dflt pci else [])
    ↔ a ∈ listen_addrs (nvme_interfaces e) dflt pci ∧ t = t' ∧ w = true).
  { intros [] t'; [rewrite list_elem_of_fmap|rewrite elem_of_nil]; naive_solver. }
  rewrite !Hw. tauto.
Qed.
Lemma net_push_wf n (m : net) k : bt_wf m → bt_wf (net_push n m k).
Proof. apply bt_alter_wf. Qed.
Lemma push_keys_wf n ks (m : net) : bt_wf m → bt_wf (foldl (net_push n) m ks).
Proof. revert m; induction ks as [|k ks IH]; intros m Hm; cbn; [done|]. by apply IH, net_push_wf. Qed.
Lemma push_keys_lookup n ks (m : net) k n' :
  bt_wf m →
  n' ∈ default [] (bt_lookup k (foldl (net_push n) m ks)) ↔
  n' ∈ default [] (bt_lookup k m) ∨ (n' = n ∧ k ∈ ks).
Proof.
  revert m; induction ks as [|k1 ks IH]; intros m Hm; cbn; [set_solver|].
  rewrite IH by (by apply net_push_wf). unfold net_push.
  destruct (decide (k = k1)) as [->|Hne].
  - rewrite bt_lookup_alter by done. cbn. rewrite elem_of_app, list_elem_of_singleton, elem_of_cons.
    tauto.
  - rewrite bt_lookup_alter_ne by done. rewrite elem_of_cons. tauto.
Qed.
Lemma push_keys_present n ks (m : net) k :
  bt_lookup k (foldl (net_push n) m ks) = Some [] → bt_lookup k m = Some [].
Proof.
  revert m; induction ks as [|k1 ks IH]; intros m; cbn; [done|]. intros H%IH.
  destruct (decide (k = k1)) as [->|Hne].
  - revert H. unfold net_push. clear. induction m as [|[k2 v] m IHm]; cbn.
    { rewrite ocmp_refl. intros [= H]. }
    destruct (ocmp k1 k2) eqn:Hc; cbn; rewrite ?ocmp_refl, ?Hc; [|intros [= H]|done].
    intros [= H]. by destruct v.
  - unfold net_push in H. by rewrite bt_lookup_alter_ne in H.
Qed.

Definition go_groups (m : net) (named : list (NvmeExport * Nqn)) : net :=
  foldl (λ net '(e, n), foldl (net_push n) net (export_keys dflt pci e)) m named.
Lemma go_groups_wf m named : bt_wf m → bt_wf (go_groups m named).
Proof.
  revert m; induction named as [|[e n] l IH]; intros m Hm; cbn; [done|].
  by apply IH, push_keys_wf.
Qed.
Lemma go_groups_lookup m named k n' :
  bt_wf m →
  n' ∈ default [] (bt_lookup k (go_groups m named)) ↔
  n' ∈ default [] (bt_lookup k m) ∨
  ∃ e, (e, n') ∈ named ∧ k ∈ export_keys dflt pci e.
Proof.
  revert m; induction named as [|[e n] l IH]; intros m Hm; cbn; [set_solver|].
  unfold go_groups in IH. rewrite IH by (by apply push_keys_wf).
  rewrite push_keys_lookup by done. setoid_rewrite elem_of_cons. naive_solver.
Qed.
Lemma go_groups_nonempty m named k :
  bt_lookup k (go_groups m named) = Some [] → bt_lookup k m = Some [].
Proof.
  revert m; induction named as [|[e n] l IH]; intros m; cbn; [done|].
  intros H%IH. by apply push_keys_present in H.
Qed.

Lemma group_exports_wf named : bt_wf (group_exports dflt pci named).
Proof. apply go_groups_wf. constructor. Qed.
Lemma group_exports_spec named k n :
  (∃ l, (k, l) ∈ group_exports dflt pci named ∧ n ∈ l) ↔
  ∃ e, (e, n) ∈ named ∧ k ∈ export_keys dflt pci e.
Proof.
  pose proof (group_exports_wf named) as Hwf.
  pose proof (go_groups_lookup [] named k n ltac:(constructor)) as H.
  change (go_groups [] named) with (group_exports dflt pci named) in H.
  setoid_rewrite bt_elem_lookup; [|done].
  cbn [bt_lookup default] in H. rewrite elem_of_nil in H.
  destruct (bt_lookup k _); cbn in H; set_solver.
Qed.
End groups.

(** ** Ports of a rendered state *)

Definition wants (e : NvmeExport) (t : Transport) : bool :=
  match t with
  | Rdma => nvme_want_rdma e
  | Tcp => nvme_want_tcp e
  | Loop => nvme_want_loop e
  end.
(** The export is to be reachable at (t, a); a loop port binds no address. *)
Definition reachable_at (dflt : IpAddr) (pci : gmap string (list IpAddr)) (e : NvmeExport)
    (t : Transport) (a : IpAddr) : Prop :=
  wants e t ∧ (t ≠ Loop → a ∈ listen_addrs (nvme_interfaces e) dflt pci).

Lemma elem_of_loop_subs named n :
  n ∈ loop_subs named ↔ ∃ e, (e, n) ∈ named ∧ nvme_want_loop e.
Proof.
  unfold loop_subs. rewrite list_elem_of_fmap. setoid_rewrite list_elem_of_filter. split.
  - intros ([e m] & -> & ? & ?). eauto.
  - intros (e & ? & ?). by exists (e, n).
Qed.
Lemma render_ports_spec dflt pci named t n :
  ∀ a, (t = Loop → a = dflt) →
  (∃ p, p ∈ render_ports dflt pci named ∧ port_key p = (t, a) ∧ n ∈ port_subsystems p) ↔
  ∃ e, (e, n) ∈ named ∧ reachable_at dflt pci e t a.
Proof.
  intros a Ha. unfold render_ports.
  setoid_rewrite elem_of_app. setoid_rewrite list_elem_of_fmap.
  trans ((∃ l, ((t, a), l) ∈ group_exports dflt pci named ∧ n ∈ l)
         ∨ (t = Loop ∧ n ∈ loop_subs named)).
  { split.
    - intros (p & [([[t' a'] l] & -> & Hin)|Hin] & Hk & Hn).
      + left. unfold port_key in Hk. cbn in *. simplify_eq. eauto.
      + right. destruct (loop_subs named) as [|s l] eqn:Hl; [by apply elem_of_nil in Hin|].
        apply list_elem_of_singleton in Hin as ->. unfold port_key in Hk. cbn in *. by simplify_eq.
    - intros [(l & Hin & Hn)|[-> Hn]].
      + exists (net_port ((t, a), l)). split_and!; eauto.
      + rewrite (Ha eq_refl). destruct (loop_subs named) as [|s l]; [by apply elem_of_nil in Hn|].
        eexists. split; [right; by apply list_elem_of_singleton|done]. }
  rewrite group_exports_spec, elem_of_loop_subs. unfold reachable_at.
  setoid_rewrite export_keys_spec. destruct t; cbn; split.
  all: try (intros [(e & ? & ? & [[? Hw]|[? Hw]])|[? (e & ? & ?)]]; try done; exists e;
    rewrite ?Hw; by split_and!).
  all: intros (e & ? & Hw & Hl).
  - left. exists e. split_and!; auto. left. split; [done|]. by apply Is_true_true.
  - left. exists e. split_and!; auto. right. split; [done|]. by apply Is_true_true.
  - right. eauto.
Qed.
Lemma render_ports_keys dflt pci named : NoDup (port_key <$> render_ports dflt pci named).
Proof.
  unfold render_ports. rewrite fmap_app. apply NoDup_app. split_and!.
  - rewrite <- list_fmap_compose.
    rewrite (list_fmap_ext _ fst); [apply bt_wf_NoDup, group_exports_wf|].
    by intros ? [[??]?] _.
  - intros k Hk Hl. apply list_elem_of_fmap in Hk as (p & -> & Hp).
    apply list_elem_of_fmap in Hp as ([[t a] l] & -> & Hin).
    destruct (loop_subs named) as [|s l'] eqn:Hs; [by apply elem_of_nil in Hl|].
    apply list_elem_of_singleton in Hl. unfold port_key in Hl. cbn in Hl. simplify_eq.
    destruct l as [|n l].
    + apply bt_elem_lookup in Hin; [|apply group_exports_wf].
      apply (go_groups_nonempty dflt pci [] named) in Hin. discriminate Hin.
    + assert (∃ l0, ((Loop, dflt), l0) ∈ group_exports dflt pci named ∧ n ∈ l0)
        as (e & _ & He)%group_exports_spec by (eexists; split; [done|left]).
      apply export_keys_spec in He as (_ & [[? _]|[? _]]); done.
  - destruct (loop_subs named); [constructor|apply NoDup_singleton].
Qed.

Lemma render_ports_named dflt pci named p n :
  p ∈ render_ports dflt pci named → n ∈ port_subsystems p → ∃ e, (e, n) ∈ named.
Proof.
  intros Hq Hn. unfold render_ports in Hq. apply elem_of_app in Hq as [Hq|Hq].
  - apply list_elem_of_fmap in Hq as ([k l] & -> & Hin). cbn in Hn.
    assert (∃ l, (k, l) ∈ group_exports dflt pci named ∧ n ∈ l)
      as (e & ? & _)%group_exports_spec; eauto.
  - assert (Hl : n ∈ loop_subs named).
    { destruct (loop_subs named) eqn:E; [by apply elem_of_nil in Hq|].
      by apply list_elem_of_singleton in Hq as ->. }
    apply elem_of_loop_subs in Hl as (e & ? & _). eauto.
Qed.

Lemma bt_alter_length `{Ordered K} {V} (k : K) (f : option V → V) m :
  (length (bt_alter k f m) <= S (length m))%nat.
Proof.
  induction m as [|[k' v] m IH]; cbn; [lia|]. destruct (ocmp k k'); cbn; lia.
Qed.
Lemma push_keys_length n ks m :
  (length (foldl (net_push n) m ks) <= length m + length ks)%nat.
Proof.
  revert m; induction ks as [|k ks IH]; intros m; cbn; [lia|].
  etrans; [apply IH|]. pose proof (bt_alter_length k (λ o, default [] o ++ [n]) m).
  unfold net_push. lia.
Qed.
(** The number of (transport, address) pairs the exports ask for. *)
Definition key_count (dflt : IpAddr) (pci : gmap string (list IpAddr)) (l : list NvmeExport) : nat :=
  sum_list (length <$> (export_keys dflt pci <$> l)).
Lemma render_ports_length dflt pci named :
  (length (render_ports dflt pci named) <= key_count dflt pci named.*1 + 1)%nat.
Proof.
  unfold render_ports. rewrite length_app, length_fmap.
  assert (H : ∀ m, (length (go_groups dflt pci m named)
    <= length m + key_count dflt pci named.*1)%nat).
  { induction named as [|[e n] l IH]; intros m; cbn; [lia|].
    etrans; [apply IH|]. pose proof (push_keys_length n (export_keys dflt pci e) m).
    unfold key_count, export_keys in *. cbn in *. lia. }
  specialize (H []). cbn in H.
  change (go_groups dflt pci [] named) with (group_exports dflt pci named) in H.
  destruct (loop_subs named); cbn [length]; lia.
Qed.

(** ** What is dropped is reported *)

Lemma to_option_new k s : Is_true (validator k s) → ∃ v, to_option (new k s) = Some v ∧ as_str v = s.
Proof.
  intros H. destruct (new k s) as [v|e] eqn:Hn.
  - apply new_Ok in Hn. eauto.
  - by apply new_Err in Hn as [? _].
Qed.
Lemma omap_new_id k l :
  Forall (λ i, Is_true (validator k i)) l →
  as_str <$> omap (λ i, to_option (new k i)) l = l.
Proof.
  induction 1 as [|i l Hi _ IH]; cbn; [done|].
  destruct (to_option_new k i Hi) as (v & -> & Hv). cbn. by rewrite Hv, IH.
Qed.
Lemma filter_nil_Forall {A} (P : A → Prop) `{!∀ x, Decision (P x)} l :
  filter P l = [] → Forall (λ x, ¬ P x) l.
Proof.
  induction l as [|x l IH]; [by constructor|]. rewrite filter_cons.
  case_decide; [done|]. constructor; auto.
Qed.
Lemma filter_not_ok_nil {A} k (f : A → string) l :
  filter (λ i, Is_true (negb (is_ok (new k (f i))))) l = [] →
  Forall (λ i, Is_true (validator k (f i))) l.
Proof.
  intros H%filter_nil_Forall. eapply Forall_impl; [done|]. cbn. intros i.
  rewrite new_is_ok. by destruct (validator k (f i)).
Qed.
Lemma mjoin_fmap_nil {A B} (f : A → list B) l :
  mjoin (f <$> l) = [] → Forall (λ x, f x = []) l.
Proof. rewrite join_nil, Forall_fmap. done. Qed.

Lemma nvme_issues_nil e :
  nvme_issues e = [] →
  validator NtDevicePath (nvme_device_path e)
  ∧ Forall (λ i, Is_true (validator NtNqn i)) (nvme_initiators e).
Proof.
  unfold nvme_issues, nvme_render_error, invalid_initiators. rewrite new_is_ok.
  intros [H1 H2]%app_nil. split.
  - by destruct (validator _ _).
  - apply fmap_nil_inv in H2. by apply (filter_not_ok_nil _ id) in H2.
Qed.
Lemma iscsi_issues_nil e :
  iscsi_issues e = [] →
  validator NtBackstoreName (iscsi_name e)
  ∧ validator NtDevicePath (iscsi_device_path e)
  ∧ Forall (λ i, Is_true (validator NtIqn i)) (iscsi_initiators e).
Proof.
  unfold iscsi_issues, iscsi_render_error, invalid_initiators. rewrite !new_is_ok.
  intros [H1 H2]%app_nil. split_and!.
  - by destruct (validator NtBackstoreName _).
  - by destruct (validator NtBackstoreName _), (validator NtDevicePath _).
  - apply fmap_nil_inv in H2. by apply (filter_not_ok_nil _ id) in H2.
Qed.
Lemma nfs_issues_nil e :
  nfs_issues e = [] →
  validator NtNfsExportPath (nfs_path e) ∧ nfs_clients e ≠ []
  ∧ Forall (λ c, Is_true (validator NtNfsClient (nce_client c))) (nfs_clients e).
Proof.
  unfold nfs_issues, nfs_render_error. rewrite !new_is_ok.
  destruct (validator NtNfsExportPath (nfs_path e)) eqn:Hp; cbn [negb]; [|done].
  destruct (_ =? 0)%nat eqn:Hc; [done|]. intros H%fmap_nil_inv%filter_not_ok_nil.
  split_and!; [done| |done]. by intros Hnil; rewrite Hnil in Hc.
Qed.
Lemma omap_render_clients l :
  Forall (λ c, Is_true (validator NtNfsClient (nce_client c))) l →
  (λ c, {| nce_client := as_str (cs_client c); nce_rw := cs_rw c |})
    <$> omap render_nfs_client l = l.
Proof.
  induction 1 as [|c l Hc _ IH]; cbn; [done|]. unfold render_nfs_client at 1.
  destruct (to_option_new NtNfsClient _ Hc) as (v & -> & Hv). cbn. rewrite Hv, IH. by destruct c.
Qed.

(** What a rendered subsystem, target or NFS export says of its export. *)
Definition subsys_view (s : NvmetSubsysSpec) : string * bool * list string * list string :=
  (as_str (sub_nqn s), sub_allow_any_host s, as_str <$> sub_allowed_hosts s,
   (λ n, as_str (ns_device_path n)) <$> sub_namespaces s).
Definition nvme_view (e : NvmeExport) : string * bool * list string * list string :=
  (OUR_NQN_PREFIX +:+ nvme_name e, nvme_allow_any_host e, nvme_initiators e,
   [nvme_device_path e]).
Definition target_view (t : LioTargetSpec) : string * bool * list string :=
  (as_str (tgt_iqn t), tgt_demo_mode t, as_str <$> tgt_acls t).
Definition iscsi_view (e : IscsiExport) : string * bool * list string :=
  (OUR_IQN_PREFIX +:+ iscsi_name e, iscsi_allow_any_host e,
   if iscsi_allow_any_host e then [] else iscsi_initiators e).
Definition nfs_spec_view (s : NfsExportSpec) : string * list NfsClientEntry :=
  (as_str (es_path s),
   (λ c, {| nce_client := as_str (cs_client c); nce_rw := cs_rw c |}) <$> es_clients s).
Definition nfs_view (e : NfsExport) : string * list NfsClientEntry := (nfs_path e, nfs_clients e).

Lemma render_subsys_view named :
  Forall (λ en, nvme_nqn en.1 = Ok en.2 ∧ nvme_issues en.1 = []) named →
  subsys_view <$> omap render_subsys named = nvme_view <$> named.*1.
Proof.
  induction 1 as [|[e n] l [Hn [Hd Hi]%nvme_issues_nil] _ IH]; cbn in *; [done|].
  destruct (to_option_new NtDevicePath _ Hd) as (v & -> & Hv). cbn. rewrite IH. f_equal.
  unfold subsys_view, nvme_view. cbn. apply nvme_nqn_Ok in Hn. rewrite Hn, Hv.
  unfold valid_nqns. by rewrite (omap_new_id NtNqn).
Qed.
Lemma render_lio_view l dflt pci d :
  Forall (λ e, iscsi_issues e = []) l →
  render_lio_go l dflt pci = Ok d →
  target_view <$> ld_targets d = iscsi_view <$> l
  ∧ (λ b, (as_str (bs_name b), as_str (bs_device_path b))) <$> ld_backstores d
    = (λ e, (iscsi_name e, iscsi_device_path e)) <$> l.
Proof.
  intros Hl. revert d. induction Hl as [|e l He _ IH]; intros d; cbn; intros H; inv_ok; [done|].
  apply iscsi_issues_nil in He as (Hb & Hd & Hi).
  destruct (new NtBackstoreName (iscsi_name e)) as [b|] eqn:Hnb; [|by apply new_Err in Hnb as [? _]].
  destruct (new NtDevicePath (iscsi_device_path e)) as [v|] eqn:Hnd; [|by apply new_Err in Hnd as [? _]].
  inv_ok. apply new_Ok in Hnb, Hnd.
  match goal with H : render_lio_go _ _ _ = Ok _ |- _ => apply IH in H as [IH1 IH2] end.
  match goal with H : iscsi_iqn _ = Ok _ |- _ => apply iscsi_iqn_Ok in H as Hq end.
  cbn. rewrite IH1, IH2, Hnb, Hnd. split; [|done]. f_equal.
  unfold target_view, iscsi_view. cbn. rewrite Hq. destruct (iscsi_allow_any_host e); [done|].
  unfold valid_iqns. by rewrite (omap_new_id NtIqn).
Qed.
Lemma render_nfs_view l :
  Forall (λ e, nfs_issues e = []) l →
  nfs_spec_view <$> omap render_nfs_export l = nfs_view <$> l.
Proof.
  induction 1 as [|e l (Hp & Hne & Hc)%nfs_issues_nil _ IH]; cbn; [done|].
  unfold render_nfs_export at 1. destruct (to_option_new NtNfsExportPath _ Hp) as (v & -> & Hv). cbn.
  pose proof (omap_render_clients _ Hc) as Hoc.
  destruct (omap render_nfs_client (nfs_clients e)) as [|c cs] eqn:Ho; [by destruct (nfs_clients e)|].
  cbn -[omap]. rewrite IH. f_equal. unfold nfs_spec_view, nfs_view. cbn -[fmap].
  by rewrite Hv, Hoc.
Qed.

(** ** Properties *)

Definition mk_nvme (id : Z) (name dev : string) (rdma tcp lp any : bool) (inits ifs : list string) :
    NvmeExport :=
  {| nvme_id := id; nvme_name := name; nvme_device_path := dev; nvme_enabled := true;
     nvme_want_rdma := rdma; nvme_want_tcp := tcp; nvme_want_loop := lp;
     nvme_allow_any_host := any; nvme_initiators := inits; nvme_interfaces := ifs;
     nvme_last_error := None |}.
Definition ex_listen : IpAddr := V4 (lit 10) (lit 0) (lit 0) (lit 5).
Definition ex_exports : list NvmeExport :=
  [mk_nvme 1 "vm1" "/dev/zvol/tank/vm1" true true false true [] [];
   mk_nvme 2 "vm2" "/dev/zvol/tank/vm2" true false true false ["nqn.2014-08.org:h"] []].
Definition ex_iscsi : list IscsiExport :=
  [{| iscsi_id := 1; iscsi_name := "t1"; iscsi_device_path := "/dev/sdb"; iscsi_enabled := true;
      iscsi_want_rdma := true; iscsi_want_tcp := true; iscsi_allow_any_host := false;
      iscsi_initiators := ["iqn.2004-10.com:h"]; iscsi_interfaces := [];
      iscsi_last_error := None |}].
Definition ex_nfs : list NfsExport :=
  [{| nfs_id := 1; nfs_path := "/tank/share"; nfs_enabled := true;
      nfs_clients := [{| nce_client := "10.0.0.0/24"; nce_rw := true |}];
      nfs_last_error := None |}].
(** A live tree whose ports 1 and 2 belong to somebody else. *)
Definition ex_actual : ActualNvmet :=
  {| an_subsystems := [];
     an_ports :=
       [{| ap_id := lit 1; ap_trtype := "tcp"; ap_traddr := "10.0.0.9"; ap_trsvcid := "4420";
           ap_subsystems := ["nqn.2003-01.org.other:a"] |};
        {| ap_id := lit 2; ap_trtype := "tcp"; ap_traddr := "10.0.0.9"; ap_trsvcid := "4421";
           ap_subsystems := ["nqn.2026-06.io.greendot.csi:pvc-1"] |}] |}.

(** The port ids the renderer allocates are pairwise distinct, start at 1, are
    never the reserved CSI port id, and never the id of a live port that carries
    only foreign links: applying the result can re-address no foreign port. *)
Lemma render_nvmet_port_ids nvme dflt pci a d :
  render_nvmet nvme dflt pci (foreign_port_ids a) = Ok d →
  NoDup (port_id <$> nd_ports d) ∧
  Forall (λ p, 1 <= raw (port_id p) ∧ port_id p ≠ CSI_PORT_ID ∧
    ∀ q, q ∈ an_ports a → ap_id q = port_id p →
      ap_subsystems q = [] ∨ ∃ n, n ∈ ap_subsystems q ∧ ours n) (nd_ports d).
Proof.
  intros (named & _ & (_ & _ & Hs & Hf)%assign_ids_Ok & _)%render_nvmet_inv. split.
  - apply (NoDup_fmap_1 raw). rewrite <- list_fmap_compose. by apply sorted_lt_NoDup.
  - eapply Forall_impl; [done|]. cbn. intros p [Hr Hp]. unfold foreign_port_ids in Hr.
    apply not_elem_of_union in Hr as [Hc Hr]. split_and!; [done|set_solver|].
    intros q Hq Hid. rewrite elem_of_list_to_set, list_elem_of_fmap in Hr.
    destruct (is_foreign_port q) eqn:Hfp.
    { destruct Hr. exists q. split; [done|]. apply list_elem_of_filter. by rewrite Hfp. }
    unfold is_foreign_port in Hfp. destruct (ap_subsystems q) as [|n l] eqn:Hl; [by left|].
    right. apply negb_false_iff, Is_true_true, existb_True in Hfp.
    apply Exists_exists in Hfp as (m & Hm & ?). eauto.
Qed.
Lemma render_nvmet_port_ids_witness :
  ∃ d, render_nvmet ex_exports ex_listen ∅ (foreign_port_ids ex_actual) = Ok d ∧
    (raw ∘ port_id <$> nd_ports d) = [3; 4; 5] ∧ NoDup (port_id <$> nd_ports d).
Proof.
  eexists. split; [vm_compute; reflexivity|]. split; [reflexivity|].
  apply (render_nvmet_port_ids ex_exports ex_listen ∅ ex_actual). vm_compute. reflexivity.
Defined.

(** Rendering never panics: when every enabled export has a valid export name and
    the requested (transport, address) pairs, plus one loop port, plus the
    reserved ids stay below the u16 range, the renderer returns a state (no
    [expect] failure, no overflow of the id counter). *)
Lemma render_nvmet_total nvme dflt pci reserved :
  (∀ e, e ∈ nvme → nvme_enabled e → export_name (nvme_name e)) →
  N.of_nat (key_count dflt pci (nvmet_enabled nvme)) + 1 + N.of_nat (size reserved) <= 65534 →
  ∃ d, render_nvmet nvme dflt pci reserved = Ok d.
Proof.
  intros Hn Hb. assert (∃ named, mapM with_nqn (nvmet_enabled nvme) = Ok named) as [named Hm].
  { assert (Hall : ∀ e, e ∈ nvmet_enabled nvme → ∃ en, with_nqn e = Ok en).
    { intros e [? ?]%list_elem_of_filter. bool_split.
      destruct (nvme_nqn_total e) as [n Hq]; [by apply Hn|]. exists (e, n). by apply with_nqn_Ok. }
    revert Hall. generalize (nvmet_enabled nvme). clear.
    induction l as [|e l IH]; intros Hall; [by exists []|].
    destruct (Hall e) as [en Hen]; [left|]. destruct IH as [named Hl]; [intros; apply Hall; by right|].
    exists (en :: named). apply mapM_Ok. apply mapM_Ok in Hl. by constructor. }
  destruct (assign_ids_total reserved (lit 1) (render_ports dflt pci named)) as [ps Hps].
  { pose proof (render_ports_length dflt pci named) as Hlen.
    rewrite (proj1 (named_Ok _ _ Hm)) in Hlen.
    pose proof (above_le reserved (raw (lit 1 : u16))) as Hab. cbn [raw] in *. lia. }
  unfold render_nvmet. rewrite Hm. cbn. rewrite Hps. by eexists.
Qed.
Lemma render_nvmet_total_witness :
  ∃ d, render_nvmet ex_exports ex_listen ∅ (foreign_port_ids ex_actual) = Ok d.
Proof.
  apply render_nvmet_total.
  - intros e He _. unfold ex_exports in He. rewrite !elem_of_cons, elem_of_nil in He.
    by destruct He as [->|[->|[]]].
  - vm_compute. discriminate.
Defined.

(** The rendered ports link exactly what the exports ask for. There is one port
    per (transport, address); an NQN is linked at (t, a) if and only if it is the
    NQN of an enabled, valid export that wants transport t and resolves to
    address a (a loop port binds the default address); and every linked NQN has
    its subsystem in the same state. *)
Lemma render_nvmet_links nvme dflt pci reserved d :
  render_nvmet nvme dflt pci reserved = Ok d →
  NoDup (port_key <$> nd_ports d) ∧
  (∀ t a n, (t = Loop → a = dflt) →
    (∃ p, p ∈ nd_ports d ∧ port_key p = (t, a) ∧ n ∈ port_subsystems p) ↔
    ∃ e, e ∈ nvmet_enabled nvme ∧ nvme_nqn e = Ok n ∧ reachable_at dflt pci e t a) ∧
  (∀ p n, p ∈ nd_ports d → n ∈ port_subsystems p → n ∈ (sub_nqn <$> nd_subsystems d)).
Proof.
  intros (named & Hm & Hp & Hsub)%render_nvmet_inv.
  apply named_Ok in Hm as [Hfst Hnq].
  pose proof (λ k l, assign_ids_elem _ _ _ _ k l Hp) as Hkey.
  assert (Hnamed : ∀ e n, (e, n) ∈ named ↔ e ∈ nvmet_enabled nvme ∧ nvme_nqn e = Ok n).
  { intros e n. rewrite <- Hfst, list_elem_of_fmap. rewrite Forall_forall in Hnq. split.
    - intros Hin. split; [by exists (e, n)|]. by apply Hnq in Hin.
    - intros [([e' n'] & -> & Hin) Hq]. apply Hnq in Hin as Hq'. cbn in *. congruence. }
  split_and!.
  - erewrite (assign_ids_fmap port_key); [|done..]. apply render_ports_keys.
  - intros t a n Ha. etrans.
    2: { setoid_rewrite (assoc and). setoid_rewrite <- Hnamed. by apply render_ports_spec. }
    split; intros (p & Hin & Hk & Hn).
    + destruct (proj1 (Hkey (t, a) (port_subsystems p))) as (q & ? & ? & Hqs); [eauto|].
      exists q. by rewrite Hqs.
    + destruct (proj2 (Hkey (t, a) (port_subsystems p))) as (q & ? & ? & Hqs); [eauto|].
      exists q. by rewrite Hqs.
  - intros p n Hpin Hn.
    destruct (proj1 (Hkey (port_key p) (port_subsystems p))) as (q & Hq & _ & Hqs); [by exists p|].
    rewrite <- Hqs in Hn.
    destruct (render_ports_named _ _ _ _ _ Hq Hn) as (e & Hin). rewrite Hsub. apply list_elem_of_fmap.
    pose proof Hin as [He Hq']%Hnamed. unfold nvmet_enabled in He.
    apply list_elem_of_filter in He as [He _]. bool_split. rewrite new_is_ok in *.
    destruct (to_option_new NtDevicePath (nvme_device_path e)) as (v & Hv & _); [done|].
    eexists. split; [|apply list_elem_of_omap; exists (e, n); split; [done|]; cbn; by rewrite Hv].
    done.
Qed.

(** Nothing is dropped silently. If the issue list is empty then every enabled
    export of every protocol is rendered, in order and complete: its name, its
    device or path, its access mode and each of its initiators or clients. *)
Lemma render_issues_complete nvme iscsi nfs dflt pci reserved port dn dl :
  render_issues nvme iscsi nfs = [] →
  render_nvmet nvme dflt pci reserved = Ok dn →
  render_lio iscsi dflt pci = Ok dl →
  subsys_view <$> nd_subsystems dn = nvme_view <$> filter (λ e, Is_true (nvme_enabled e)) nvme ∧
  target_view <$> ld_targets dl = iscsi_view <$> filter (λ e, Is_true (iscsi_enabled e)) iscsi ∧
  nfs_spec_view <$> nfs_exports (render_nfs nfs port)
    = nfs_view <$> filter (λ e, Is_true (nfs_enabled e)) nfs.
Proof.
  unfold render_issues. intros [H1%mjoin_fmap_nil [H2%mjoin_fmap_nil H3%mjoin_fmap_nil]%app_nil]%app_nil.
  intros (named & Hm & _ & Hsub)%render_nvmet_inv Hl. split_and!.
  - assert (Hen : nvmet_enabled nvme = filter (λ e, Is_true (nvme_enabled e)) nvme).
    { unfold nvmet_enabled. apply filter_iff_in. intros e He. rewrite andb_True, new_is_ok.
      split; [tauto|]. intros Hen. split; [done|].
      rewrite Forall_forall in H1. apply nvme_issues_nil, H1. by apply list_elem_of_filter. }
    rewrite <- Hen in *. apply named_Ok in Hm as [Hfst Hnq]. rewrite Hsub.
    rewrite <- Hfst in H1 |- *. apply render_subsys_view.
    apply Forall_and. split; [done|]. by apply Forall_fmap in H1.
  - by eapply render_lio_view.
  - by apply render_nfs_view.
Qed.
Lemma render_issues_complete_witness :
  render_issues ex_exports ex_iscsi ex_nfs = [] ∧
  ∃ dn dl, render_nvmet ex_exports ex_listen ∅ ∅ = Ok dn ∧ render_lio ex_iscsi ex_listen ∅ = Ok dl ∧
    subsys_view <$> nd_subsystems dn = nvme_view <$> ex_exports.
Proof.
  split; [reflexivity|]. eexists _, _.
  split; [vm_compute; reflexivity|]. split; [vm_compute; reflexivity|].
  eapply (render_issues_complete ex_exports ex_iscsi ex_nfs ex_listen ∅ ∅ NFS_RDMA_PORT);
    vm_compute; reflexivity.
Defined.
