(* ===== verification/Task.v ===== *)
(** * Task streams (greendot-proto/src/lib.rs, the task part of types.rs)

    [Task]/[SubTask]/[Pipe] as state over the event log a client has received.
    The client is a class parameter: it reads some number of events and may hang
    up at any point, after which every [emit] fails. A program is a sequence of
    subtasks (the mutable borrow makes them sequential), each with its outputs,
    its recorded results and its way of ending. *)
From Stdlib Require Import Ascii String.
From stdpp Require Import base option list strings sets.
From S2P Require Import Prelude.
#[local] Open Scope string_scope.
#[local] Open Scope list_scope.

(** ** Events and statuses *)

Inductive SubStatus : Type := Success | Failed | Skipped.
#[export] Instance SubStatus_eq_dec : EqDecision SubStatus.
Proof. solve_decision. Defined.

(** [SubStatus::fold]. *)
Definition status_fold (acc : option SubStatus) (s : SubStatus) : SubStatus :=
  match acc, s with
  | Some Failed, _ | _, Failed => Failed
  | Some Success, _ | _, Success => Success
  | _, _ => Skipped
  end.

Inductive TaskEvent : Type :=
| SubtaskStarted (name : string) (command : option string) (args : list string)
    (stdin : option string)
| Stdout (data : string)
| Stderr (data : string)
| SubtaskFinished (status : SubStatus) (exit : Z) (error : option string)
| Finished (status : SubStatus) (error : option string).

(** ** The client: whether it still reads after [n] delivered events *)
Class Client := reads : nat → bool.
Definition patient : Client := λ _, true.
Definition BROKEN_PIPE : string := "client disconnected".

(** ** Task state *)

Record Task : Type := {
  agg : option SubStatus;
  first_err : option string;
  pending : option string;
  log : list TaskEvent }.
Definition new_task : Task := {| agg := None; first_err := None; pending := None; log := [] |}.
Definition with_log (t : Task) (l : list TaskEvent) : Task :=
  {| agg := agg t; first_err := first_err t; pending := pending t; log := l |}.
Definition with_pending (t : Task) (p : option string) : Task :=
  {| agg := agg t; first_err := first_err t; pending := p; log := log t |}.

Section client.
Context {C : Client}.

(** Hard emit: the sink's error reaches the caller. *)
Definition emit (t : Task) (ev : TaskEvent) : result string unit * Task :=
  if reads (length (log t)) then (Ok tt, with_log t (log t ++ [ev])) else (Err BROKEN_PIPE, t).
(** Soft emit: the first error is stashed and later frames are skipped. *)
Definition emit_soft (t : Task) (ev : TaskEvent) : Task :=
  match pending t with
  | Some _ => t
  | None =>
      match emit t ev with
      | (Ok _, t') => t'
      | (Err e, t') => with_pending t' (Some e)
      end
  end.
Definition take_pending (t : Task) : result string unit * Task :=
  match pending t with
  | Some e => (Err e, with_pending t None)
  | None => (Ok tt, t)
  end.

Definition begin_command (t : Task) (name : string) (command : option string)
    (args : list string) (stdin : option string) : Task :=
  emit_soft t (SubtaskStarted name command args stdin).
Definition begin_subtask (t : Task) (name : string) : Task :=
  begin_command t name None [] None.
Definition finish_subtask (t : Task) (status : SubStatus) (exit : Z) (error : option string) :
    Task :=
  emit_soft
    {| agg := Some (status_fold (agg t) status);
       first_err := if bool_decide (status = Failed)
                    then match first_err t with None => error | e => e end
                    else first_err t;
       pending := pending t; log := log t |}
    (SubtaskFinished status exit error).
Definition skipped_subtask (t : Task) (name : string) : Task :=
  finish_subtask (begin_subtask t name) Skipped 0 None.
Definition aggregate (t : Task) : SubStatus := default Success (agg t).
Definition complete (t : Task) : result string unit * Task :=
  let status := aggregate t in
  let error := first_err t in
  let t := {| agg := agg t; first_err := None; pending := pending t; log := log t |} in
  match take_pending t with
  | (Err e, t) => (Err e, t)
  | (Ok _, t) => emit t (Finished status error)
  end.
(** [Pipe::write]: a deferred sink error surfaces here. *)
Definition pipe_write (t : Task) (ev : TaskEvent) : result string unit * Task :=
  match take_pending t with
  | (Err e, t) => (Err e, t)
  | (Ok _, t) => emit t ev
  end.

(** ** Programs over the API *)

(** What a subtask does while open, and how it is closed. *)
Inductive sub_step : Type :=
| Out (data : string)
| ErrOut (data : string)
| SetResult (exit : Z) (error : option string).
Inductive sub_end : Type := Complete (status : SubStatus) | Fail (msg : string) | Dropped.
Inductive work : Type :=
| Sub (name : string) (command : option string) (args : list string) (stdin : option string)
    (steps : list sub_step) (fin : sub_end)
| Skip (name : string).

(** The local fields of a [SubTask]: exit code and error. *)
Definition subtask : Type := Z * option string.
Definition finish_sub (t : Task) (s : subtask) (e : sub_end) : Task :=
  match e with
  | Complete status => finish_subtask t status s.1 s.2
  | Fail msg => finish_subtask t Failed s.1 (Some msg)
  | Dropped => finish_subtask t Success s.1 s.2
  end.
(** A failed write propagates with [?], dropping the open subtask on the way out. *)
Fixpoint run_steps (t : Task) (s : subtask) (steps : list sub_step) (fin : sub_end) :
    result string unit * Task :=
  match steps with
  | [] => (Ok tt, finish_sub t s fin)
  | SetResult exit error :: steps => run_steps t (exit, error) steps fin
  | Out data :: steps =>
      match pipe_write t (Stdout data) with
      | (Ok _, t) => run_steps t s steps fin
      | (Err e, t) => (Err e, finish_sub t s Dropped)
      end
  | ErrOut data :: steps =>
      match pipe_write t (Stderr data) with
      | (Ok _, t) => run_steps t s steps fin
      | (Err e, t) => (Err e, finish_sub t s Dropped)
      end
  end.
Definition run_work (t : Task) (w : work) : result string unit * Task :=
  match w with
  | Sub name command args stdin steps fin =>
      run_steps (begin_command t name command args stdin) (0%Z, None) steps fin
  | Skip name => (Ok tt, skipped_subtask t name)
  end.
Fixpoint run_works (t : Task) (ws : list work) : result string unit * Task :=
  match ws with
  | [] => (Ok tt, t)
  | w :: ws =>
      match run_work t w with
      | (Ok _, t) => run_works t ws
      | (Err e, t) => (Err e, t)
      end
  end.
(** [run_op]: execute, then the terminal event. *)
Definition run_task (ws : list work) : result string unit * Task :=
  match run_works new_task ws with
  | (Ok _, t) => complete t
  | (Err e, t) => (Err e, t)
  end.
(** [emit_reject]: an unvalidatable request as a failed task. *)
Definition emit_reject (msg : string) : result string unit * Task :=
  run_task [Sub "Validate request" None [] None [] (Fail msg)].
End client.

(** ** What the stream should be *)

Definition result_of (steps : list sub_step) : subtask :=
  foldl (λ s st, match st with SetResult exit error => (exit, error) | _ => s end)
        (0%Z, None) steps.
Definition out_events (steps : list sub_step) : list TaskEvent :=
  omap (λ st, match st with
              | Out d => Some (Stdout d) | ErrOut d => Some (Stderr d) | SetResult _ _ => None
              end) steps.
Definition end_status (e : sub_end) : SubStatus :=
  match e with Complete s => s | Fail _ => Failed | Dropped => Success end.
Definition end_error (s : subtask) (e : sub_end) : option string :=
  match e with Fail msg => Some msg | _ => s.2 end.
(** Status and error of one unit of work. *)
Definition verdict (w : work) : SubStatus * option string :=
  match w with
  | Sub _ _ _ _ steps fin => (end_status fin, end_error (result_of steps) fin)
  | Skip _ => (Skipped, None)
  end.
Definition frame (w : work) : list TaskEvent :=
  match w with
  | Sub name command args stdin steps fin =>
      SubtaskStarted name command args stdin :: out_events steps
      ++ [SubtaskFinished (end_status fin) (result_of steps).1 (end_error (result_of steps) fin)]
  | Skip name => [SubtaskStarted name None [] None; SubtaskFinished Skipped 0 None]
  end.
(** The worst status: [Failed] if any failed, else [Success] if any succeeded or
    nothing ran, else [Skipped]. *)
Definition worst (l : list SubStatus) : SubStatus :=
  if bool_decide (Failed ∈ l) then Failed
  else if bool_decide (Success ∈ l) || match l with [] => true | _ => false end then Success
  else Skipped.
(** The error of the first failed unit of work that recorded one. *)
Definition first_error (ws : list work) : option string :=
  head (omap (λ w, if bool_decide ((verdict w).1 = Failed) then (verdict w).2 else None) ws).
Definition stream (ws : list work) : list TaskEvent :=
  mjoin (frame <$> ws) ++ [Finished (worst ((λ w, (verdict w).1) <$> ws)) (first_error ws)].

(** ** Lemmas *)

Section facts.
Context {C : Client}.

(** The client has hung up: it reads no further event. *)
Definition dead (t : Task) : Prop := reads (length (log t)) = false.
(** [t'] is cut off: hung up with something of [l] undelivered. *)
Definition cut (l : list TaskEvent) (t' : Task) : Prop :=
  dead t' ∧ ∃ rest, rest ≠ [] ∧ l = log t' ++ rest.

Lemma cut_app l k t' : cut l t' → cut (l ++ k) t'.
Proof.
  intros [Hd (rest & Hne & ->)]. split; [done|]. exists (rest ++ k).
  rewrite app_assoc. split; [|done]. by intros [-> _]%app_nil.
Qed.
Lemma emit_soft_spec t ev :
  pending t = None →
  emit_soft t ev = with_log t (log t ++ [ev]) ∨
  (dead t ∧ log (emit_soft t ev) = log t ∧ cut (log t ++ [ev]) (emit_soft t ev)).
Proof.
  intros Hp. unfold emit_soft, emit. rewrite Hp. destruct (reads _) eqn:Hr; [by left|].
  right. split_and!; [done..|]. split; [done|]. by exists [ev].
Qed.
Lemma emit_soft_dead t ev : dead t → log (emit_soft t ev) = log t.
Proof.
  unfold dead. intros Hd. unfold emit_soft, emit. rewrite Hd. by destruct (pending t).
Qed.
Lemma finish_dead t st x e : dead t → log (finish_subtask t st x e) = log t.
Proof. intros Hd. unfold finish_subtask. by rewrite emit_soft_dead. Qed.
Lemma finish_sub_dead t s e : dead t → log (finish_sub t s e) = log t.
Proof. intros Hd. destruct e; by apply finish_dead. Qed.
Lemma pipe_write_dead t ev :
  dead t → ∃ e, (pipe_write t ev).1 = Err e ∧ log (pipe_write t ev).2 = log t.
Proof.
  unfold dead. intros Hd. unfold pipe_write, take_pending, emit.
  destruct (pending t); cbn; [by eexists|]. rewrite Hd. by eexists.
Qed.
Lemma run_steps_dead steps t s fin : dead t → log (run_steps t s steps fin).2 = log t.
Proof.
  revert t s. induction steps as [|st steps IH]; intros t s Hd; cbn [run_steps];
    [by apply finish_sub_dead|].
  destruct st as [d|d|x e]; [..|by apply IH].
  all: match goal with |- context [pipe_write ?t0 ?ev] =>
    destruct (pipe_write_dead t0 ev Hd) as (e & He & Hl);
    destruct (pipe_write t0 ev) as [r t1] end; cbn [fst snd] in *; subst r; cbn [snd];
    rewrite finish_sub_dead; [done|]; unfold dead; by rewrite Hl.
Qed.
Lemma run_work_dead w t : dead t → log (run_work t w).2 = log t.
Proof.
  intros Hd. destruct w; cbn.
  - rewrite run_steps_dead; [by apply emit_soft_dead|].
    unfold dead, begin_command. by rewrite emit_soft_dead.
  - unfold skipped_subtask. rewrite finish_dead; [by apply emit_soft_dead|].
    unfold dead, begin_subtask, begin_command. by rewrite emit_soft_dead.
Qed.
Lemma run_works_dead ws t : dead t → log (run_works t ws).2 = log t.
Proof.
  revert t. induction ws as [|w ws IH]; intros t Hd; cbn; [done|].
  pose proof (run_work_dead w t Hd) as Hl. destruct (run_work t w) as [[u|e] t1]; cbn in *; [|done].
  rewrite IH; [done|]. unfold dead. by rewrite Hl.
Qed.

(** The verdict of finished work, folded into the task. *)
Definition note (t : Task) (v : SubStatus * option string) (l : list TaskEvent) : Task :=
  {| agg := Some (status_fold (agg t) v.1);
     first_err := if bool_decide (v.1 = Failed)
                  then match first_err t with None => v.2 | e => e end else first_err t;
     pending := None; log := l |}.

Lemma finish_sub_spec t s fin :
  pending t = None →
  let ev := SubtaskFinished (end_status fin) s.1 (end_error s fin) in
  finish_sub t s fin = note t (end_status fin, end_error s fin) (log t ++ [ev]) ∨
  cut (log t ++ [ev]) (finish_sub t s fin).
Proof.
  intros Hp. assert (Hf : ∀ st x e,
    finish_subtask t st x e = note t (st, e) (log t ++ [SubtaskFinished st x e]) ∨
    cut (log t ++ [SubtaskFinished st x e]) (finish_subtask t st x e)).
  { intros st x e. unfold finish_subtask.
    match goal with |- context [emit_soft ?t0 ?ev] =>
      destruct (emit_soft_spec t0 ev Hp) as [->|(_ & _ & Hc)] end; [|by right].
    left. unfold note, with_log. cbn. by rewrite Hp. }
  destruct fin; apply Hf.
Qed.
Lemma pipe_write_live t ev :
  pending t = None →
  pipe_write t ev = (Ok tt, with_log t (log t ++ [ev])) ∨
  (dead t ∧ pipe_write t ev = (Err BROKEN_PIPE, t)).
Proof.
  intros Hp. unfold pipe_write, take_pending, emit, dead. rewrite Hp.
  destruct (reads _); [by left|by right].
Qed.
Lemma run_steps_spec steps t s fin :
  pending t = None →
  let s' := foldl (λ s st, match st with SetResult x e => (x, e) | _ => s end) s steps in
  let l := log t ++ out_events steps
           ++ [SubtaskFinished (end_status fin) s'.1 (end_error s' fin)] in
  run_steps t s steps fin = (Ok tt, note t (end_status fin, end_error s' fin) l) ∨
  cut l (run_steps t s steps fin).2.
Proof.
  revert t s. induction steps as [|st steps IH]; intros t s Hp; cbn [run_steps foldl out_events omap list_omap].
  { destruct (finish_sub_spec t s fin Hp) as [->|Hc]; [by left|by right]. }
  destruct st as [d|d|x e]; [..|by apply IH].
  all: match goal with |- context [pipe_write ?t0 ?ev] =>
    destruct (pipe_write_live t0 ev Hp) as [->|[Hd ->]] end.
  all: try (right; unfold cut, dead; cbn [snd]; rewrite finish_sub_dead by done;
    split; [done|]; eexists; split; [|reflexivity]; done).
  all: match goal with |- context [with_log ?t0 ?l] =>
    destruct (IH (with_log t0 l) s Hp) as [->|Hc] end; cbn [log with_log] in *;
    rewrite <- ?app_assoc in *; [by left|by right].
Qed.
Lemma run_work_spec w t :
  pending t = None →
  run_work t w = (Ok tt, note t (verdict w) (log t ++ frame w)) ∨
  cut (log t ++ frame w) (run_work t w).2.
Proof.
  intros Hp. destruct w as [name cmd args stdin steps fin|name]; cbn.
  - unfold begin_command. destruct (emit_soft_spec t (SubtaskStarted name cmd args stdin) Hp)
      as [->|(Hd & Hl & Hc)].
    + match goal with |- context [run_steps ?t1 _ _ _] =>
        destruct (run_steps_spec steps t1 (0%Z, None) fin Hp) as [->|Hc] end; cbn in *;
        rewrite <- app_assoc in *; [by left|by right].
    + right. eapply (cut_app _ (out_events steps ++ _)) in Hc. rewrite <- app_assoc in Hc. cbn in Hc.
      destruct Hc as [Hd' Hrest]. split.
      * unfold dead. rewrite run_steps_dead; [exact Hd'|done].
      * rewrite run_steps_dead by done. exact Hrest.
  - unfold skipped_subtask, begin_subtask, begin_command.
    destruct (emit_soft_spec t (SubtaskStarted name None [] None) Hp) as [->|(Hd & Hl & Hc)].
    + match goal with |- context [finish_subtask ?t1 _ _ _] =>
        destruct (finish_sub_spec t1 (0%Z, None) (Complete Skipped) Hp) as [Hf|Hc] end; cbn in *;
        rewrite <- app_assoc in *; [left|by right]. f_equal. exact Hf.
    + right. eapply (cut_app _ [_]) in Hc. rewrite <- app_assoc in Hc. cbn in Hc.
      destruct Hc as [Hd' Hrest]. split.
      * unfold dead. rewrite finish_dead; [exact Hd'|done].
      * rewrite finish_dead by done. exact Hrest.
Qed.

Definition note_all (t : Task) (ws : list work) : Task :=
  foldl (λ t w, note t (verdict w) (log t ++ frame w)) t ws.
Lemma run_works_spec ws t :
  pending t = None →
  (run_works t ws = (Ok tt, note_all t ws) ∧ pending (note_all t ws) = None) ∨
  cut (log t ++ mjoin (frame <$> ws)) (run_works t ws).2.
Proof.
  revert t. induction ws as [|w ws IH]; intros t Hp; cbn; [by left|].
  destruct (run_work_spec w t Hp) as [->|Hc].
  - destruct (IH (note t (verdict w) (log t ++ frame w)) eq_refl) as [[-> Hp']|Hc]; [by left|].
    right. cbn in Hc. by rewrite <- app_assoc in Hc.
  - right. rewrite app_assoc. destruct (run_work t w) as [[u|e] t1]; cbn in Hc |- *.
    + apply cut_app. destruct Hc as [Hd Hr]. unfold cut, dead.
      rewrite run_works_dead by done. by split.
    + by apply cut_app.
Qed.
End facts.

(** The folded status and error are the declarative ones. *)
Lemma status_fold_worst l acc :
  foldl (λ a s, Some (status_fold a s)) acc l =
  match l with
  | [] => acc
  | _ => Some (worst (match acc with Some a => a :: l | None => l end))
  end.
Proof.
  revert acc. induction l as [|s l IH]; intros acc; [done|]. cbn [foldl]. rewrite IH.
  assert (Hw : ∀ a b k, worst (status_fold (Some a) b :: k) = worst (a :: b :: k)).
  { intros a b k. unfold worst. destruct a, b; cbn; repeat case_bool_decide; set_solver. }
  destruct l as [|s' l]; destruct acc as [a|]; rewrite ?Hw.
  - by destruct a, s.
  - by destruct s.
  - done.
  - f_equal. unfold worst. destruct s; cbn; repeat case_bool_decide; set_solver.
Qed.
Lemma note_all_agg ws t :
  agg (note_all t ws) = foldl (λ a s, Some (status_fold a s)) (agg t) ((λ w, (verdict w).1) <$> ws).
Proof. revert t. induction ws as [|w ws IH]; intros t; cbn; [done|]. by rewrite IH. Qed.
Lemma note_all_err ws t :
  first_err (note_all t ws) = match first_err t with None => first_error ws | e => e end.
Proof.
  revert t. induction ws as [|w ws IH]; intros t; cbn; [by destruct (first_err t)|].
  rewrite IH. unfold first_error. cbn.
  case_bool_decide; destruct (first_err t), (verdict w).2; done.
Qed.
Lemma note_all_log ws t : log (note_all t ws) = log t ++ mjoin (frame <$> ws).
Proof.
  revert t. induction ws as [|w ws IH]; intros t; cbn; [by rewrite app_nil_r|].
  rewrite IH. cbn. by rewrite <- app_assoc.
Qed.


(** What [run_task] delivers. *)
Lemma run_task_framed {C : Client} ws :
  let '(r, t) := run_task ws in
  (log t `prefix_of` stream ws) ∧ (r = Ok tt ↔ log t = stream ws).
Proof.
  unfold run_task, stream. set (fin := Finished _ _).
  destruct (run_works_spec ws new_task eq_refl) as [[-> Hp]|Hc].
  - unfold complete, take_pending. cbn. rewrite Hp. unfold emit. cbn.
    rewrite note_all_log, note_all_err. unfold aggregate. rewrite note_all_agg, status_fold_worst.
    replace (default Success _) with (worst ((λ w, (verdict w).1) <$> ws)) by (by destruct ws).
    destruct (reads _) eqn:Hr; cbn.
    + split; [done|]. by split.
    + split; [by apply prefix_app_r|]. split; [done|].
      intros He. apply (f_equal length) in He.
      rewrite length_app in He. cbn in He. lia.
  - cbn in Hc. destruct (run_works new_task ws) as [[u|e] t] eqn:Hrun; cbn in Hc;
      destruct Hc as [Hd (rest & Hne & Heq)].
    + assert (Hcut : ∃ e, complete t = (Err e, (complete t).2) ∧ log (complete t).2 = log t).
      { unfold complete, take_pending, emit. cbn. unfold dead in Hd.
        destruct (pending t); cbn; [by eexists|]. rewrite Hd. by eexists. }
      destruct Hcut as (e & Hce & Hl). destruct (complete t) as [r t1]. cbn in *.
      simplify_eq. rewrite Hl, Heq, <- app_assoc. split; [by eexists|].
      split; [done|]. intros He. apply (f_equal length) in He. rewrite !length_app in He.
      cbn in He. lia.
    + rewrite Heq, <- app_assoc. split; [by eexists|].
      split; [done|]. intros He. apply (f_equal length) in He. rewrite !length_app in He.
      cbn in He. lia.
Qed.

(** ** Properties *)

(** The framing invariant, for every program over the task API and every client.
    What the client receives is a prefix of one well-bracketed stream: a frame
    per subtask in order (started, its outputs, finished) and then exactly one
    [Finished] whose status is the worst child and whose error is the first
    failing child's. The run returns [Ok] exactly when the client received the
    whole stream, and after a hang-up nothing more is delivered. *)
Lemma task_stream_framed {C : Client} ws :
  let '(r, t) := run_task ws in
  (log t `prefix_of` stream ws) ∧ (r = Ok tt ↔ log t = stream ws).
Proof. apply run_task_framed. Qed.

(** A client that keeps reading gets the whole stream. *)
Lemma run_task_all {C : Client} ws : (∀ n, reads n = true) → log (run_task ws).2 = stream ws.
Proof.
  intros Hr. unfold run_task. destruct (run_works_spec ws new_task eq_refl) as [[-> Hp]|[Hd _]].
  2: { unfold dead in Hd. by rewrite Hr in Hd. }
  unfold complete, take_pending. cbn. rewrite Hp. unfold emit. cbn. rewrite Hr.
  cbn. rewrite note_all_log, note_all_err. unfold aggregate. rewrite note_all_agg, status_fold_worst.
  unfold stream. by destruct ws.
Qed.

(** The task status fold is a commutative, associative, idempotent combination
    in which a failure dominates, success beats a skip, and an all-skipped run
    stays skipped: the folded status of a run is [worst] of its parts whatever
    their order. *)
Lemma status_fold_laws (a b c : SubStatus) l :
  status_fold (Some a) b = status_fold (Some b) a ∧
  status_fold (Some (status_fold (Some a) b)) c = status_fold (Some a) (status_fold (Some b) c) ∧
  status_fold (Some a) a = a ∧ status_fold None a = a ∧
  (status_fold (Some a) b = Failed ↔ a = Failed ∨ b = Failed) ∧
  (status_fold (Some a) b = Skipped ↔ a = Skipped ∧ b = Skipped) ∧
  foldl (λ x s, Some (status_fold x s)) None (a :: l) = Some (worst (a :: l)).
Proof.
  split_and!; [by destruct a, b|by destruct a, b, c|by destruct a|by destruct a| | |].
  - destruct a, b; naive_solver.
  - destruct a, b; naive_solver.
  - by rewrite status_fold_worst.
Qed.
