(* ===== verification/Fs.v ===== *)
(** * The file-system interface

    [std::fs] as the reconciler uses it: a tree of directories, files and
    symbolic links addressed by component lists, with every mutating call allowed
    to be refused. A refusal is the kernel's (EBUSY on a linked port, EINVAL on
    an attribute, a full disk): it is an arbitrary function of the call, the tree
    and the time, a class parameter, so every theorem about the callers holds for
    every sequence of refusals. Symbolic links occur only as directory entries
    that are created, tested and removed, never followed (as in configfs);
    opening one is an error here. *)
From Stdlib Require Import Ascii String Sorted.
From stdpp Require Import base option list strings sets gmap.
From S2P Require Import Prelude Ordered.
#[local] Open Scope string_scope.
#[local] Open Scope list_scope.

(** ** Trees *)

Abbreviation path := (list string).
Inductive node : Type := Dir | File (content : string) | Link (target : path).
#[export] Instance node_eq_dec : EqDecision node.
Proof. solve_decision. Defined.
Abbreviation tree := (gmap path node).

Definition is_dir (t : tree) (p : path) : bool :=
  match p with
  | [] => true
  | _ => match t !! p with Some Dir => true | _ => false end
  end.
(** [symlink_metadata(p).is_ok()]. *)
Definition present (t : tree) (p : path) : bool :=
  match t !! p with Some _ => true | None => false end.
Definition parent (p : path) : path := removelast p.

(** The name of [q] as an entry of directory [p], if it is one. *)
Fixpoint entry_of (p q : path) : option string :=
  match p, q with
  | [], [c] => Some c
  | a :: p, b :: q => if bool_decide (a = b) then entry_of p q else None
  | _, _ => None
  end.
Definition entries (t : tree) (p : path) : list string :=
  omap (λ kv, entry_of p kv.1) (map_to_list t).
(** [q] lies at or below [p]. *)
Fixpoint below (p q : path) : bool :=
  match p, q with
  | [], _ => true
  | a :: p, b :: q => bool_decide (a = b) && below p q
  | _ :: _, [] => false
  end.

(** Mode bits and owner of a path, tracked where a component sets them; a path
    without an entry is as the daemon created it. *)
Record meta : Type := { md_mode : N; md_uid : N; md_gid : N }.
#[export] Instance meta_eq_dec : EqDecision meta.
Proof. solve_decision. Defined.
Abbreviation metas := (gmap path meta).

(** ** Errors and the kernel *)

Inductive errkind : Type :=
| KNotFound | KAlreadyExists | KNotADirectory | KIsADirectory | KDirectoryNotEmpty | KRefused.
Record ioerr : Type := { err_kind : errkind; err_msg : string }.
Definition io_err (k : errkind) (m : string) : ioerr := {| err_kind := k; err_msg := m |}.

Inductive fsop : Type :=
| OpMkdir (p : path)
| OpWrite (p : path) (v : string)
| OpSymlink (target p : path)
| OpUnlink (p : path)
| OpRmdir (p : path)
| OpSync (p : path)
| OpRename (p q : path)
| OpMkstemp (p : path)
| OpChmod (p : path) (mode : N)
| OpChown (p : path) (uid gid : N).
(** Whether the kernel refuses an otherwise possible call, and with what message. *)
Class Kernel := deny : nat → fsop → tree → option string.
(** A kernel that refuses nothing. *)
Definition permissive : Kernel := λ _ _ _, None.

(** ** The effect monad: the tree and a clock that counts the calls *)

Definition io (A : Type) : Type := tree → nat → result ioerr A * tree * nat.
#[export] Instance io_ret : MRet io := λ A a t n, (Ok a, t, n).
#[export] Instance io_bind : MBind io := λ A B f m t n,
  match m t n with
  | (Ok a, t', n') => f a t' n'
  | (Err e, t', n') => (Err e, t', n')
  end.
Definition io_fail {A} (e : ioerr) : io A := λ t n, (Err e, t, n).
(** Reading the tree. *)
Definition io_get {A} (f : tree → A) : io A := λ t n, (Ok (f t), t, n).
(** [r.map_err(f)] and a general handler ([or_else], [match]). *)
Definition io_map_err {A} (f : ioerr → ioerr) (m : io A) : io A := λ t n,
  match m t n with
  | (Ok a, t', n') => (Ok a, t', n')
  | (Err e, t', n') => (Err (f e), t', n')
  end.
Definition io_catch {A} (m : io A) (h : ioerr → io A) : io A := λ t n,
  match m t n with
  | (Ok a, t', n') => (Ok a, t', n')
  | (Err e, t', n') => h e t' n'
  end.
(** [for x in l { f(x)?; }]. *)
Fixpoint io_for {A} (l : list A) (f : A → io unit) : io unit :=
  match l with
  | [] => mret tt
  | a :: l => f a ≫= λ _, io_for l f
  end.

Section fs.
Context {K : Kernel}.

(** One system call: possible on this tree ([pre]), not refused, then [upd]. *)
Definition syscall (op : fsop) (pre : tree → option ioerr) (upd : tree → tree) : io unit :=
  λ t n,
    match pre t with
    | Some e => (Err e, t, S n)
    | None =>
        match deny n op t with
        | Some m => (Err (io_err KRefused m), t, S n)
        | None => (Ok tt, upd t, S n)
        end
    end.

Definition mkdir (p : path) : io unit :=
  syscall (OpMkdir p)
    (λ t, if present t p then Some (io_err KAlreadyExists "File exists")
          else if is_dir t (parent p) then None
          else Some (io_err KNotFound "No such file or directory"))
    (λ t, <[p := Dir]> t).
(** [create_dir_all]: every missing ancestor is created on the way down. *)
Fixpoint create_dirs (done todo : path) : io unit :=
  match todo with
  | [] => mret tt
  | c :: todo =>
      let p := done ++ [c] in
      d ← io_get (λ t, is_dir t p);
      (if (d : bool) then mret tt else mkdir p) ≫= λ _, create_dirs p todo
  end.
Definition create_dir_all (p : path) : io unit := create_dirs [] p.

(** [fs::write]: creates the file or replaces its content. *)
Definition write_file (p : path) (v : string) : io unit :=
  syscall (OpWrite p v)
    (λ t, match t !! p with
          | Some Dir => Some (io_err KIsADirectory "Is a directory")
          | Some (Link _) => Some (io_err KRefused "Too many levels of symbolic links")
          | _ => if is_dir t (parent p) then None
                 else Some (io_err KNotFound "No such file or directory")
          end)
    (λ t, <[p := File v]> t).
(** [OpenOptions::append(true).create(true).open(p)], and a write to the file it
    opened. *)
Definition open_append (p : path) : io unit :=
  syscall (OpWrite p "")
    (λ t, match t !! p with
          | Some Dir => Some (io_err KIsADirectory "Is a directory")
          | Some (Link _) => Some (io_err KRefused "Too many levels of symbolic links")
          | Some (File _) => None
          | None => if is_dir t (parent p) then None
                    else Some (io_err KNotFound "No such file or directory")
          end)
    (λ t, if present t p then t else <[p := File ""]> t).
Definition append_to (p : path) (data : string) : io unit :=
  syscall (OpWrite p data) (λ _, None)
    (λ t, match t !! p with Some (File old) => <[p := File (old +:+ data)]> t | _ => t end).
Definition symlink (target p : path) : io unit :=
  syscall (OpSymlink target p)
    (λ t, if present t p then Some (io_err KAlreadyExists "File exists")
          else if is_dir t (parent p) then None
          else Some (io_err KNotFound "No such file or directory"))
    (λ t, <[p := Link target]> t).
Definition remove_file (p : path) : io unit :=
  syscall (OpUnlink p)
    (λ t, match t !! p with
          | None => Some (io_err KNotFound "No such file or directory")
          | Some Dir => Some (io_err KIsADirectory "Is a directory")
          | _ => None
          end)
    (λ t, delete p t).
Definition remove_dir (p : path) : io unit :=
  syscall (OpRmdir p)
    (λ t, match t !! p with
          | None => Some (io_err KNotFound "No such file or directory")
          | Some Dir =>
              match entries t p with
              | [] => None
              | _ => Some (io_err KDirectoryNotEmpty "Directory not empty")
              end
          | _ => Some (io_err KNotADirectory "Not a directory")
          end)
    (λ t, delete p t).
(** [File::open(p)?.sync_all()]. *)
Definition fsync (p : path) : io unit :=
  syscall (OpSync p)
    (λ t, if present t p || is_dir t p then None
          else Some (io_err KNotFound "No such file or directory"))
    (λ t, t).
(** [fs::rename] of a file, replacing the destination (renaming a directory is
    not needed and refused). *)
Definition rename (p q : path) : io unit :=
  syscall (OpRename p q)
    (λ t, match t !! p with
          | None => Some (io_err KNotFound "No such file or directory")
          | Some Dir => Some (io_err KRefused "Not supported")
          | Some _ =>
              match t !! q with
              | Some Dir => Some (io_err KIsADirectory "Is a directory")
              | _ => if is_dir t (parent q) then None
                     else Some (io_err KNotFound "No such file or directory")
              end
          end)
    (λ t, match t !! p with Some k => <[q := k]> (delete p t) | None => t end).
(** [remove_dir_all]: what lies below goes first (deepest paths first), one call
    each, stopping at the first refusal. *)
Definition descendants (t : tree) (p : path) : list path :=
  reverse (sort_by (λ q, N.of_nat (length q))
    (filter (λ q, Is_true (below p q)) (map_to_list t).*1)).
Definition remove_node (p : path) : io unit :=
  syscall (OpRmdir p) (λ _, None) (λ t, delete p t).
Definition remove_dir_all (p : path) : io unit :=
  k ← io_get (λ t, t !! p);
  match k with
  | None => io_fail (io_err KNotFound "No such file or directory")
  | Some (File _) => io_fail (io_err KNotADirectory "Not a directory")
  | Some (Link _) => remove_node p
  | Some Dir => ds ← io_get (λ t, descendants t p); io_for ds remove_node
  end.

(** ** Reads *)

Definition read_to_string (t : tree) (p : path) : option string :=
  match t !! p with Some (File s) => Some s | _ => None end.
(** [util::read_trim]: trimmed content, empty when missing or unreadable. *)
Definition read_trim (t : tree) (p : path) : string :=
  match read_to_string t p with Some s => trim s | None => "" end.
(** [dir_entries] / [dir_names]: sorted names, empty when unreadable. *)
Definition dir_entries (t : tree) (p : path) : list string :=
  if is_dir t p then sort (entries t p) else [].
End fs.

(** ** Lemmas on paths and entries *)

Lemma entry_of_Some p q c : entry_of p q = Some c ↔ q = p ++ [c].
Proof.
  revert q; induction p as [|a p IH]; intros [|b q]; cbn.
  - split; [done|intros; discriminate].
  - destruct q; split; intros; simplify_eq; done.
  - split; [done|intros; discriminate].
  - case_bool_decide as Hab; [rewrite IH|]; split; intros; simplify_eq; done.
Qed.
Lemma elem_of_entries t p c : c ∈ entries t p ↔ is_Some (t !! (p ++ [c])).
Proof.
  unfold entries. rewrite list_elem_of_omap. split.
  - intros ([q k] & Hin & Hc). apply entry_of_Some in Hc. cbn in Hc. subst q.
    apply elem_of_map_to_list in Hin. eauto.
  - intros [k Hk]. exists (p ++ [c], k). split; [by apply elem_of_map_to_list|by apply entry_of_Some].
Qed.
Lemma entries_NoDup t p : NoDup (entries t p).
Proof.
  assert (Hl : ∀ l : list (path * node),
    NoDup l.*1 → NoDup (omap (λ kv, entry_of p kv.1) l));
    [|apply Hl, NoDup_fst_map_to_list].
  intros l Hnd. induction l as [|[q k] l IH]; cbn in *; [constructor|].
  apply NoDup_cons in Hnd as [Hq Hnd].
  destruct (entry_of p q) as [c|] eqn:Hc; [|auto]. constructor; [|auto].
  intros ([q' k'] & Hin & Hc')%list_elem_of_omap. cbn in Hc'.
  apply entry_of_Some in Hc, Hc'. subst q q'. apply Hq. by apply (list_elem_of_fmap_2' fst _ _ _ Hin).
Qed.
Lemma elem_of_dir_entries t p c :
  c ∈ dir_entries t p ↔ is_dir t p ∧ is_Some (t !! (p ++ [c])).
Proof.
  unfold dir_entries. destruct (is_dir t p); cbn.
  - rewrite sort_perm, elem_of_entries. naive_solver.
  - rewrite elem_of_nil. naive_solver.
Qed.
Lemma below_spec p q : below p q ↔ ∃ r, q = p ++ r.
Proof.
  revert q; induction p as [|a p IH]; intros [|b q]; cbn.
  - split; [by exists []|done].
  - split; [by eexists|done].
  - split; [done|]. by intros [r ?].
  - rewrite andb_True, bool_decide_spec, IH. split.
    + intros [-> [r ->]]. by exists r.
    + intros [r [= -> ->]]. eauto.
Qed.
Lemma below_app p r : below p (p ++ r).
Proof. apply below_spec. eauto. Qed.
Lemma below_refl p : below p p.
Proof. apply below_spec. exists []. by rewrite app_nil_r. Qed.
Lemma below_trans p q r : below p q → below q r → below p r.
Proof. rewrite !below_spec. intros [x ->] [y ->]. exists (x ++ y). by rewrite app_assoc. Qed.
Lemma elem_of_descendants t p q : q ∈ descendants t p ↔ below p q ∧ is_Some (t !! q).
Proof.
  unfold descendants. rewrite elem_of_reverse, sort_by_perm, list_elem_of_filter, list_elem_of_fmap.
  apply and_iff_compat_l. split.
  - intros ([q' k] & -> & Hin%elem_of_map_to_list). by eexists.
  - intros [k Hk]. exists (q, k). split; [done|by apply elem_of_map_to_list].
Qed.

(** ** Reasoning about effects

    [respects R m]: every run of [m], successful or not, takes a tree to one
    related by the preorder [R]. [keeps S] is the instance "no path outside [S]
    changes". [oks m t a t']: some run of [m] from [t] returns [a] and leaves
    [t']. *)

Definition respects (R : relation tree) {A} (m : io A) : Prop :=
  ∀ t n r t' n', m t n = (r, t', n') → R t t'.
Definition same_outside (S : path → Prop) : relation tree :=
  λ t t', ∀ q, ¬ S q → t' !! q = t !! q.
Abbreviation keeps S m := (respects (same_outside S) m).
Definition oks {A} (m : io A) (t : tree) (a : A) (t' : tree) : Prop :=
  ∃ n n', m t n = (Ok a, t', n').

#[export] Instance same_outside_preorder S : PreOrder (same_outside S).
Proof. split; [by intros t q|]. intros t1 t2 t3 H1 H2 q Hq. by rewrite H2, H1. Qed.

Section respects.
Context (R : relation tree) {HR : PreOrder R} {A B : Type}.
Lemma respects_ret (a : A) : respects R (mret a).
Proof. intros t n r t' n' [= <- <- <-]. reflexivity. Qed.
Lemma respects_fail e : respects R (io_fail (A:=A) e).
Proof. intros t n r t' n' [= <- <- <-]. reflexivity. Qed.
Lemma respects_get (f : tree → A) : respects R (io_get f).
Proof. intros t n r t' n' [= <- <- <-]. reflexivity. Qed.
Lemma respects_bind (m : io A) (f : A → io B) :
  respects R m → (∀ a, respects R (f a)) → respects R (m ≫= f).
Proof.
  intros Hm Hf t n r t' n' H. unfold mbind, io_bind in H.
  destruct (m t n) as [[[a|e] t1] n1] eqn:Hm1.
  - etrans; [by eapply Hm|by eapply Hf].
  - simplify_eq. by eapply Hm.
Qed.
(** Reading first: the continuation may rely on what was read. *)
Lemma respects_get_bind (f : tree → A) (g : A → io B) :
  (∀ t n r t' n', g (f t) t n = (r, t', n') → R t t') → respects R (io_get f ≫= g).
Proof. intros Hg t n r t' n' H. eapply Hg. exact H. Qed.
Lemma respects_map_err f (m : io A) : respects R m → respects R (io_map_err f m).
Proof.
  intros Hm t n r t' n' H. unfold io_map_err in H.
  destruct (m t n) as [[[a|e] t1] n1] eqn:Hm1; simplify_eq; by eapply Hm.
Qed.
Lemma respects_catch (m : io A) h :
  respects R m → (∀ e, respects R (h e)) → respects R (io_catch m h).
Proof.
  intros Hm Hh t n r t' n' H. unfold io_catch in H.
  destruct (m t n) as [[[a|e] t1] n1] eqn:Hm1; simplify_eq; [by eapply Hm|].
  etrans; [by eapply Hm|by eapply Hh].
Qed.
Lemma respects_for (l : list A) f :
  (∀ a, a ∈ l → respects R (f a)) → respects R (io_for l f).
Proof.
  induction l as [|a l IH]; intros Hl; cbn; [intros t n r t' n' [= <- <- <-]; reflexivity|].
  intros t n r t' n' H. unfold mbind, io_bind in H.
  destruct (f a t n) as [[[?|e] t1] n1] eqn:Hm1.
  - etrans; [eapply (Hl a); [left|done]|]. eapply IH; [|done]. intros; apply Hl; by right.
  - simplify_eq. eapply (Hl a); [left|done].
Qed.
End respects.
Lemma respects_impl (R R' : relation tree) {A} (m : io A) :
  respects R m → (∀ t t', R t t' → R' t t') → respects R' m.
Proof. intros Hm HR t n r t' n' H. by eapply HR, Hm. Qed.
Lemma keeps_weaken {A} (S S' : path → Prop) (m : io A) :
  keeps S m → (∀ q, S q → S' q) → keeps S' m.
Proof. intros Hm HS. eapply respects_impl; [done|]. intros t t' H q Hq. apply H. auto. Qed.
Lemma oks_respects R {A} (m : io A) t a t' : respects R m → oks m t a t' → R t t'.
Proof. intros Hm (n & n' & H). by eapply Hm. Qed.

(** A run of a sequence: it stopped in the first part, or went on. *)
Lemma bind_run {A B} (m : io A) (f : A → io B) t n r t' n' :
  (m ≫= f) t n = (r, t', n') →
  (∃ e, m t n = (Err e, t', n') ∧ r = Err e) ∨
  ∃ a t1 n1, m t n = (Ok a, t1, n1) ∧ f a t1 n1 = (r, t', n').
Proof.
  unfold mbind, io_bind. destruct (m t n) as [[[a|e] t1] n1]; intros H; [right; eauto|left].
  injection H as <- <- <-. eauto.
Qed.

(** Structural decomposition of a program for [respects]. *)
Ltac respects_step :=
  match goal with
  | |- respects _ (_ ≫= _) => eapply respects_bind; [apply _| |intros ?]
  | |- respects _ (mret _) => eapply respects_ret; apply _
  | |- respects _ (io_get _) => eapply respects_get; apply _
  | |- respects _ (io_fail _) => eapply respects_fail; apply _
  | |- respects _ (io_map_err _ _) => eapply respects_map_err
  | |- respects _ (io_catch _ _) => eapply respects_catch; [apply _| |intros ?]
  | |- respects _ (io_for _ _) => eapply respects_for; [apply _|intros ? ?]
  | |- respects _ (if ?b then _ else _) => destruct b eqn:?
  | |- respects _ (match ?x with _ => _ end) => destruct x
  end.

(** ** Well-formed trees: every entry sits in a directory *)

Definition wf (t : tree) : Prop := ∀ q c, is_Some (t !! (q ++ [c])) → is_dir t q.

Lemma wf_ancestor t p r : wf t → is_Some (t !! (p ++ r)) → r ≠ [] → is_dir t p.
Proof.
  intros Hwf. induction r as [|c r IH] using rev_ind; [done|]. intros Hs _.
  rewrite app_assoc in Hs. apply Hwf in Hs.
  destruct r as [|c' r]; [by rewrite app_nil_r in Hs|].
  apply IH; [|done]. unfold is_dir in Hs. destruct (p ++ c' :: r) eqn:E.
  { by apply app_eq_nil in E as [_ ?]. }
  destruct (t !! _) as [[]|]; done || by eexists.
Qed.
Lemma is_dir_lookup t p : p ≠ [] → is_dir t p ↔ t !! p = Some Dir.
Proof. intros Hp. destruct p; [done|]. cbn. destruct (t !! _) as [[]|]; naive_solver. Qed.
Lemma wf_absent t p r : wf t → t !! p = None → p ≠ [] → t !! (p ++ r) = None.
Proof.
  intros Hwf Hp Hne. destruct (t !! (p ++ r)) eqn:E; [|done].
  destruct r as [|c r]; [rewrite app_nil_r in E; congruence|].
  assert (Hd : is_dir t p) by (eapply (wf_ancestor t p (c :: r)); [done|by eexists|done]).
  apply is_dir_lookup in Hd; [congruence|done].
Qed.
Lemma wf_empty : wf ∅.
Proof. intros q c [k Hk]. by rewrite lookup_empty in Hk. Qed.
Lemma is_dir_insert t p k q :
  t !! p ≠ Some Dir ∨ k = Dir → is_dir t q → is_dir (<[p := k]> t) q.
Proof.
  intros H. destruct q as [|c q]; [done|]. cbn. destruct (decide (p = c :: q)) as [->|Hne].
  - rewrite lookup_insert_eq. destruct H as [H| ->]; [|done]. destruct (t !! _) as [[]|]; done.
  - by rewrite lookup_insert_ne.
Qed.
Lemma parent_snoc (q : path) c : parent (q ++ [c]) = q.
Proof. apply removelast_last. Qed.
Lemma wf_insert t p k :
  wf t → is_dir t (parent p) → t !! p ≠ Some Dir ∨ k = Dir → wf (<[p := k]> t).
Proof.
  intros Hwf Hp Hk q c Hs. apply is_dir_insert; [done|].
  destruct (decide (p = q ++ [c])) as [->|Hne]; [by rewrite parent_snoc in Hp|].
  rewrite lookup_insert_ne in Hs by done. by eapply Hwf.
Qed.
Lemma wf_delete t p : wf t → (p ≠ [] → ∀ c, t !! (p ++ [c]) = None) → wf (delete p t).
Proof.
  intros Hwf Hp q c [k Hk]. apply lookup_delete_Some in Hk as [Hne Hk].
  assert (Hd : is_dir t q) by (eapply Hwf; by eexists).
  destruct q as [|d q]; [done|].
  destruct (decide (p = d :: q)) as [->|Hpq]; [by rewrite Hp in Hk|]. cbn in *. by rewrite lookup_delete_ne.
Qed.

(** ** Runs that succeed *)

Section oks.
Context {A B : Type}.
Lemma oks_ret (a b : A) t t' : oks (mret a) t b t' → b = a ∧ t' = t.
Proof. by intros (n & n' & [= <- <- _]). Qed.
Lemma oks_get (f : tree → A) t a t' : oks (io_get f) t a t' → a = f t ∧ t' = t.
Proof. by intros (n & n' & [= <- <- _]). Qed.
Lemma oks_fail e t (a : A) t' : ¬ oks (io_fail e) t a t'.
Proof. by intros (n & n' & H). Qed.
Lemma oks_bind (m : io A) (f : A → io B) t b t' :
  oks (m ≫= f) t b t' → ∃ a t1, oks m t a t1 ∧ oks (f a) t1 b t'.
Proof.
  intros (n & n' & H). unfold mbind, io_bind in H.
  destruct (m t n) as [[[a|e] t1] n1] eqn:E; [|done]. exists a, t1. split; eexists _, _; done.
Qed.
Lemma oks_map_err f (m : io A) t a t' : oks (io_map_err f m) t a t' → oks m t a t'.
Proof.
  intros (n & n' & H). unfold io_map_err in H.
  destruct (m t n) as [[[a'|e] t1] n1] eqn:E; simplify_eq. by eexists _, _.
Qed.
End oks.
(** A loop establishes its invariant over the elements processed so far. *)
Lemma oks_for {A} (I : list A → tree → Prop) (f : A → io unit) l t t' :
  I [] t →
  (∀ pre a post t1 t2, l = pre ++ a :: post → I pre t1 → oks (f a) t1 tt t2 → I (pre ++ [a]) t2) →
  oks (io_for l f) t tt t' → I l t'.
Proof.
  intros H0 Hstep. assert (Hg : ∀ l2 pre t1, l = pre ++ l2 → I pre t1 →
    oks (io_for l2 f) t1 tt t' → I l t'); [|by apply (Hg l [])].
  induction l2 as [|a l2 IH]; intros pre t1 Hl HI; cbn.
  - intros [_ ->]%oks_ret. by rewrite Hl, app_nil_r.
  - intros ([] & t2 & Ha & Hr)%oks_bind. apply (IH (pre ++ [a]) t2); [|eauto|done].
    by rewrite <- app_assoc.
Qed.

Section fs_facts.
Context {K : Kernel}.

Lemma keeps_syscall op pre upd p :
  (∀ t q, q ≠ p → upd t !! q = t !! q) → keeps (λ q, q = p) (syscall op pre upd).
Proof.
  intros Hu t n r t' n' Hs q Hq. unfold syscall in Hs.
  destruct (pre t); simplify_eq; [done|]. destruct (deny n op t); simplify_eq; [done|]. by apply Hu.
Qed.
Lemma keeps_mkdir p : keeps (λ q, q = p) (mkdir p).
Proof. apply keeps_syscall. intros. by rewrite lookup_insert_ne. Qed.
Lemma keeps_write p v : keeps (λ q, q = p) (write_file p v).
Proof. apply keeps_syscall. intros. by rewrite lookup_insert_ne. Qed.
Lemma keeps_symlink tgt p : keeps (λ q, q = p) (symlink tgt p).
Proof. apply keeps_syscall. intros. by rewrite lookup_insert_ne. Qed.
Lemma keeps_remove_file p : keeps (λ q, q = p) (remove_file p).
Proof. apply keeps_syscall. intros. by rewrite lookup_delete_ne. Qed.
Lemma keeps_remove_dir p : keeps (λ q, q = p) (remove_dir p).
Proof. apply keeps_syscall. intros. by rewrite lookup_delete_ne. Qed.
Lemma keeps_remove_node p : keeps (λ q, q = p) (remove_node p).
Proof. apply keeps_syscall. intros. by rewrite lookup_delete_ne. Qed.
Lemma keeps_fsync p S : keeps S (fsync p).
Proof.
  intros t n r t' n' H q _. unfold fsync, syscall in H.
  destruct (_ || _); cbn in H; [destruct (deny n _ t)|]; by simplify_eq.
Qed.
Lemma keeps_rename p q : keeps (λ x, x = p ∨ x = q) (rename p q).
Proof.
  intros t n r t' n' H x Hx. unfold rename, syscall in H.
  destruct (match t !! p with None => _ | Some _ => _ end); [by simplify_eq|].
  destruct (deny n _ t); simplify_eq; [done|].
  destruct (t !! p); [|done]. rewrite lookup_insert_ne, lookup_delete_ne; naive_solver.
Qed.
(** [create_dir_all] touches only the path and its ancestors. *)
Lemma keeps_create_dir_all p : keeps (λ q, Is_true (below q p)) (create_dir_all p).
Proof.
  assert (Hg : ∀ todo done, keeps (λ q, Is_true (below q (done ++ todo))) (create_dirs done todo)).
  { induction todo as [|c todo IH]; intros don; cbn; [by repeat respects_step|].
    respects_step; [by respects_step|]. respects_step.
    - respects_step; [by respects_step|]. eapply keeps_weaken; [apply keeps_mkdir|].
      intros q ->. change (c :: todo) with ([c] ++ todo). rewrite app_assoc. apply below_app.
    - specialize (IH (don ++ [c])). by rewrite <- app_assoc in IH. }
  apply (Hg p []).
Qed.
(** [remove_dir_all] touches only what lies at or below the path, whether it
    completes or stops half way. *)
Lemma keeps_remove_dir_all p : keeps (λ q, Is_true (below p q)) (remove_dir_all p).
Proof.
  unfold remove_dir_all. respects_step; [by respects_step|].
  destruct a as [[| |]|]; try by respects_step.
  - apply respects_get_bind. intros t n r t' n' H.
    refine (respects_for _ _ _ _ _ _ _ _ _ H). intros q' [Hb _]%elem_of_descendants.
    eapply keeps_weaken; [apply keeps_remove_node|]. by intros ? ->.
  - eapply keeps_weaken; [apply keeps_remove_node|]. intros ? ->. apply below_refl.
Qed.
End fs_facts.

(** ** Well-formedness is preserved by every call, refused or not *)

Definition wf_rel : relation tree := λ t t', wf t → wf t'.
#[export] Instance wf_rel_preorder : PreOrder wf_rel.
Proof. split; [intros t; exact id|]. intros t1 t2 t3 H1 H2 Ht. exact (H2 (H1 Ht)). Qed.

Section wf_facts.
Context {K : Kernel}.

Lemma wf_syscall op pre upd :
  (∀ t, wf t → pre t = None → wf (upd t)) → respects wf_rel (syscall op pre upd).
Proof.
  intros Hu t n r t' n' H Hwf. unfold syscall in H. destruct (pre t) eqn:Hp; simplify_eq; [done|].
  destruct (deny n op t); simplify_eq; [done|]. by apply Hu.
Qed.
Lemma present_false t p : present t p = false ↔ t !! p = None.
Proof. unfold present. by destruct (t !! p). Qed.
Lemma is_dir_true t p : is_dir t p = true → is_dir t p.
Proof. by intros ->. Qed.
Lemma wf_mkdir p : respects wf_rel (mkdir p).
Proof.
  apply wf_syscall. intros t Hwf Hp. destruct (present t p) eqn:Hpr; [done|].
  destruct (is_dir t (parent p)) eqn:Hd; [|done].
  apply wf_insert; [done|by apply is_dir_true|by right].
Qed.
Lemma wf_write p v : respects wf_rel (write_file p v).
Proof.
  apply wf_syscall. intros t Hwf Hp.
  destruct (t !! p) as [[]|] eqn:Ht, (is_dir t (parent p)) eqn:Hd; try done;
    (apply wf_insert; [done|by apply is_dir_true|left; congruence]).
Qed.
Lemma wf_symlink tgt p : respects wf_rel (symlink tgt p).
Proof.
  apply wf_syscall. intros t Hwf Hp. destruct (present t p) eqn:Hpr; [done|].
  destruct (is_dir t (parent p)) eqn:Hd; [|done]. apply present_false in Hpr.
  apply wf_insert; [done|by apply is_dir_true|left; congruence].
Qed.
(** An entry that is not a directory has nothing below it. *)
Lemma wf_leaf t p c : wf t → p ≠ [] → t !! p ≠ Some Dir → t !! (p ++ [c]) = None.
Proof.
  intros Hwf Hp Hd. destruct (t !! (p ++ [c])) eqn:E; [|done].
  destruct Hd. apply is_dir_lookup; [done|]. eapply Hwf. by eexists.
Qed.
Lemma wf_remove_file p : respects wf_rel (remove_file p).
Proof.
  apply wf_syscall. intros t Hwf Hp. apply wf_delete; [done|]. intros Hne c.
  apply wf_leaf; [done..|]. intros Ht. by rewrite Ht in Hp.
Qed.
Lemma entries_nil t p c : entries t p = [] → t !! (p ++ [c]) = None.
Proof.
  intros He. destruct (t !! (p ++ [c])) eqn:E; [|done].
  assert (Hin : c ∈ entries t p) by (apply elem_of_entries; by eexists).
  rewrite He in Hin. by apply elem_of_nil in Hin.
Qed.
Lemma wf_remove_dir p : respects wf_rel (remove_dir p).
Proof.
  apply wf_syscall. intros t Hwf Hp. apply wf_delete; [done|]. intros Hne c.
  destruct (t !! p) as [[]|]; try done. apply entries_nil. by destruct (entries t p).
Qed.
Lemma wf_fsync p : respects wf_rel (fsync p).
Proof. apply wf_syscall. auto. Qed.
Lemma wf_rename p q : respects wf_rel (rename p q).
Proof.
  apply wf_syscall. intros t Hwf Hp. destruct (t !! p) as [k|] eqn:Hk; [|done].
  assert (Hkd : k ≠ Dir) by (by intros ->).
  assert (Hd : wf (delete p t)).
  { apply wf_delete; [done|]. intros Hne c. apply wf_leaf; [done..|]. rewrite Hk. by intros [= ->]. }
  assert (Hq : t !! q ≠ Some Dir ∧ is_dir t (parent q)).
  { destruct k; [done|..]; (destruct (t !! q) as [[]|]; [done|..];
      destruct (is_dir t (parent q)) eqn:E; [|done|..]; (split; [done|by apply is_dir_true]) || done). }
  destruct Hq as [Hq Hpar]. apply wf_insert; [done| |].
  - destruct (parent q) as [|x l] eqn:E; [done|]. cbn in *. destruct (decide (p = x :: l)) as [->|Hne].
    + rewrite Hk in Hpar. by destruct k.
    + by rewrite lookup_delete_ne.
  - left. intros [_ H]%lookup_delete_Some. done.
Qed.
Lemma wf_create_dir_all p : respects wf_rel (create_dir_all p).
Proof.
  unfold create_dir_all. generalize (@nil string) as don.
  induction p as [|c p IH]; intros don; cbn; [by respects_step|].
  respects_step; [by respects_step|]. respects_step; [|apply IH].
  respects_step; [by respects_step|]. apply wf_mkdir.
Qed.

(** Removing a downward-closed set of paths, deepest first: what is left is a
    tree after each removal. *)
Definition deep_first : relation path := λ p q, length q <= length p.
Definition closed_in (t : tree) (ds : list path) : Prop :=
  ∀ q c, q ∈ ds → is_Some (t !! (q ++ [c])) → q ++ [c] ∈ ds.
Lemma wf_remove_list ds t n r t' n' :
  io_for ds remove_node t n = (r, t', n') →
  StronglySorted deep_first ds → closed_in t ds → wf t → wf t'.
Proof.
  revert t n. induction ds as [|q ds IH]; intros t n; cbn; intros Hrun Hs Hc Hwf; [by injection Hrun as _ <- _|].
  apply StronglySorted_inv in Hs as [Hs Hq].
  assert (Hqc : ∀ c, t !! (q ++ [c]) = None).
  { intros c. destruct (t !! (q ++ [c])) eqn:E; [|done]. exfalso.
    assert (Hin : q ++ [c] ∈ q :: ds) by (apply Hc; [left|by eexists]).
    apply elem_of_cons in Hin as [He|Hin].
    - apply (f_equal length) in He. rewrite length_app in He. cbn in He. lia.
    - rewrite Forall_forall in Hq. apply Hq in Hin. unfold deep_first in Hin.
      rewrite length_app in Hin. cbn in Hin. lia. }
  unfold mbind, io_bind in Hrun. destruct (remove_node q t n) as [[r1 t1] n1] eqn:Hn.
  unfold remove_node, syscall in Hn. destruct (deny n (OpRmdir q) t); simplify_eq; [done|].
  apply (IH _ _ Hrun); [done| |by apply wf_delete].
  intros p c Hp [k Hk]. apply lookup_delete_Some in Hk as [Hne Hk].
  assert (Hin : p ++ [c] ∈ q :: ds) by (apply Hc; [by right|by eexists]).
  apply elem_of_cons in Hin as [He|Hin]; [by rewrite He in Hne|done].
Qed.
Lemma descendants_sorted t p : StronglySorted deep_first (descendants t p).
Proof.
  unfold descendants. set (l := filter _ _).
  pose proof (StronglySorted_reverse _ _ (sort_by_sorted (λ q : path, N.of_nat (length q)) l)) as Hs.
  induction Hs as [|q k _ IH Hq]; constructor; [done|]. eapply Forall_impl; [done|].
  cbn. intros x Hx. unfold deep_first. apply ole_lteq in Hx as [Hx|Hx]; [|lia].
  unfold olt, ocmp in Hx. cbn in Hx.
  destruct (N.compare_spec (N.of_nat (length x)) (N.of_nat (length q))); [done|lia|done].
Qed.
Lemma wf_remove_dir_all p : p ≠ [] → respects wf_rel (remove_dir_all p).
Proof.
  intros Hp t n r t' n' H Hwf. unfold remove_dir_all, mbind, io_bind, io_get in H. cbn in H.
  destruct (t !! p) as [[| |]|] eqn:Ht; [|by injection H as _ <- _| |by injection H as _ <- _].
  - eapply wf_remove_list; [done|apply descendants_sorted| |done].
    intros q c [Hb _]%elem_of_descendants Hs. apply elem_of_descendants. split; [|done].
    eapply below_trans; [done|apply below_app].
  - unfold remove_node, syscall in H. destruct (deny _ _ _); simplify_eq; [done|].
    apply wf_delete; [done|]. intros _ c. apply wf_leaf; [done..|]. congruence.
Qed.
End wf_facts.

(** ** What a successful call has done *)

Definition errs {A} (m : io A) (t : tree) (e : ioerr) (t' : tree) : Prop :=
  ∃ n n', m t n = (Err e, t', n').
Lemma oks_catch {A} (m : io A) h t a t' :
  oks (io_catch m h) t a t' → oks m t a t' ∨ ∃ e t1, errs m t e t1 ∧ oks (h e) t1 a t'.
Proof.
  intros (n & n' & H). unfold io_catch in H.
  destruct (m t n) as [[[b|e] t1] n1] eqn:E; [left; simplify_eq; by eexists _, _|].
  right. exists e, t1. split; by eexists _, _.
Qed.
Lemma oks_if {A} (b : bool) (m1 m2 : io A) t a t' :
  oks (if b then m1 else m2) t a t' → (b = true ∧ oks m1 t a t') ∨ (b = false ∧ oks m2 t a t').
Proof. destruct b; auto. Qed.

Section ok_facts.
Context {K : Kernel}.

Lemma oks_syscall op pre upd t t' :
  oks (syscall op pre upd) t tt t' → pre t = None ∧ t' = upd t.
Proof.
  intros (n & n' & H). unfold syscall in H. destruct (pre t); [done|].
  destruct (deny n op t); by simplify_eq.
Qed.
Lemma errs_syscall op pre upd t e t' :
  errs (syscall op pre upd) t e t' → t' = t ∧ (pre t = Some e ∨ pre t = None ∧ err_kind e = KRefused).
Proof.
  intros (n & n' & H). unfold syscall in H. destruct (pre t); [simplify_eq; auto|].
  destruct (deny n op t); simplify_eq; auto.
Qed.
Lemma oks_write p v t t' : oks (write_file p v) t tt t' → t' = <[p := File v]> t.
Proof. by intros [_ ->]%oks_syscall. Qed.
Lemma oks_symlink tgt p t t' :
  oks (symlink tgt p) t tt t' → t !! p = None ∧ t' = <[p := Link tgt]> t.
Proof.
  intros [Hp ->]%oks_syscall. split; [|done]. destruct (present t p) eqn:E; [done|].
  by apply present_false.
Qed.
Lemma oks_mkdir p t t' : oks (mkdir p) t tt t' → t !! p = None ∧ t' = <[p := Dir]> t.
Proof.
  intros [Hp ->]%oks_syscall. split; [|done]. destruct (present t p) eqn:E; [done|].
  by apply present_false.
Qed.
Lemma oks_remove_file p t t' :
  oks (remove_file p) t tt t' → t' = delete p t ∧ t !! p ≠ Some Dir.
Proof. intros [Hp ->]%oks_syscall. split; [done|]. intros Ht. by rewrite Ht in Hp. Qed.
(** [create_dir_all] leaves a directory at every prefix and changes nothing that
    was there. *)
Lemma oks_create_dir_all p t t' :
  oks (create_dir_all p) t tt t' →
  (∀ q, below q p → is_dir t' q) ∧ (∀ q, is_Some (t !! q) → t' !! q = t !! q).
Proof.
  unfold create_dir_all.
  assert (Hg : ∀ todo don t, oks (create_dirs don todo) t tt t' → is_dir t don →
    (∀ q, below q (don ++ todo) → below don q → is_dir t' q) ∧
    (∀ q, is_Some (t !! q) → t' !! q = t !! q)).
  2: { intros H. destruct (Hg p [] t H) as [H1 H2]; [done|]. split; [|done].
       intros q Hq. by apply H1. }
  clear t p. induction todo as [|c todo IH]; intros don t; cbn.
  - intros [_ ->]%oks_ret Hd. split; [|done]. rewrite app_nil_r.
    intros q [r ->]%below_spec [r' Hr]%below_spec.
    assert (r = [] ∧ r' = []) as [-> ->].
    { apply app_eq_nil. apply (f_equal length) in Hr. rewrite !length_app in Hr.
      destruct r, r'; cbn in *; done || lia. }
    by rewrite app_nil_r in Hd.
  - intros (d & t1 & [-> ->]%oks_get & H)%oks_bind Hd.
    apply oks_bind in H as ([] & t2 & H1 & H2).
    assert (Hc : is_dir t2 (don ++ [c]) ∧ ∀ q, is_Some (t !! q) → t2 !! q = t !! q).
    { apply oks_if in H1 as [[Hb [_ ->]%oks_ret]|[Hb [Hn ->]%oks_mkdir]]; [by rewrite Hb|].
      split.
      - apply is_dir_lookup; [by destruct don|]. by rewrite lookup_insert_eq.
      - intros q [k Hq]. rewrite lookup_insert_ne; [done|]. intros <-. congruence. }
    destruct Hc as [Hc1 Hc2]. destruct (IH _ _ H2 Hc1) as [I1 I2]. split.
    + intros q Hq [r Hr]%below_spec. rewrite <- app_assoc in I1.
      destruct r as [|c' r].
      * rewrite app_nil_r in Hr. subst q. destruct don as [|x don]; [done|].
        apply is_dir_lookup in Hd; [|done].
        apply is_dir_lookup; [done|]. rewrite I2; [by rewrite Hc2|].
        rewrite Hc2; by eexists.
      * subst q. apply I1; [done|]. apply below_spec in Hq as [s Hs].
        rewrite <- app_assoc in Hs. apply app_inv_head in Hs. cbn in Hs. simplify_eq.
        apply below_spec. exists r. by rewrite <- app_assoc.
    + intros q Hq. rewrite I2; [by apply Hc2|]. by rewrite Hc2.
Qed.
Lemma oks_remove_node p t t' : oks (remove_node p) t tt t' → t' = delete p t.
Proof. unfold remove_node. by intros [_ ->]%oks_syscall. Qed.
Lemma oks_remove_list ds t t' :
  oks (io_for ds remove_node) t tt t' →
  ∀ q, t' !! q = if decide (q ∈ ds) then None else t !! q.
Proof.
  intros H. refine (oks_for (λ pre t', ∀ q, t' !! q = if decide (q ∈ pre) then None else t !! q)
    _ _ _ _ _ _ H).
  - intros q. case_decide as Hq; [by apply elem_of_nil in Hq|done].
  - intros pre a post t1 t2 _ HI ->%oks_remove_node q.
    destruct (decide (a = q)) as [->|Hne].
    + rewrite lookup_delete_eq. case_decide as Hq; [done|]. destruct Hq. apply elem_of_app. right. left.
    + rewrite lookup_delete_ne, HI by done.
      repeat case_decide; set_solver.
Qed.
Lemma oks_remove_dir_all p t t' :
  wf t → p ≠ [] → oks (remove_dir_all p) t tt t' → ∀ q, below p q → t' !! q = None.
Proof.
  intros Hwf Hp H q Hq. unfold remove_dir_all in H.
  apply oks_bind in H as (k & t1 & [-> ->]%oks_get & H).
  destruct (t !! p) as [[| |]|] eqn:Ht; try by apply oks_fail in H.
  - apply oks_bind in H as (ds & t1 & [-> ->]%oks_get & H). rewrite (oks_remove_list _ _ _ H).
    case_decide as Hd; [done|]. destruct (t !! q) eqn:E; [|done]. destruct Hd.
    apply elem_of_descendants. split; [done|by eexists].
  - apply oks_remove_node in H as ->. apply below_spec in Hq as [[|c r] ->].
    + by rewrite app_nil_r, lookup_delete_eq.
    + rewrite lookup_delete_ne.
      * destruct (t !! (p ++ c :: r)) eqn:E; [|done].
        assert (Hd : is_dir t p) by (eapply (wf_ancestor t p (c :: r)); [done|by eexists|done]).
        apply is_dir_lookup in Hd; [congruence|done].
      * intros He. apply (f_equal length) in He. rewrite length_app in He. cbn in He. lia.
Qed.
Lemma errs_remove_list ds t n e t' n' :
  io_for ds remove_node t n = (Err e, t', n') → err_kind e = KRefused.
Proof.
  revert t n. induction ds as [|q ds IH]; intros t n; cbn; [done|].
  unfold mbind, io_bind. destruct (remove_node q t n) as [[[u|e1] t1] n1] eqn:Hn; [apply IH|].
  intros [= <- <- <-]. assert (He : errs (remove_node q) t e1 t1) by (by eexists _, _).
  unfold remove_node in He. by apply errs_syscall in He as [_ [?|[_ ?]]].
Qed.
Lemma errs_remove_dir_all p t e t' :
  errs (remove_dir_all p) t e t' → err_kind e = KNotFound → t' = t ∧ t !! p = None.
Proof.
  intros (n & n' & H) Hk. unfold remove_dir_all, mbind, io_bind, io_get in H. cbn in H.
  destruct (t !! p) as [[| |]|] eqn:Ht; [| | |by injection H as _ <- _].
  - apply errs_remove_list in H. congruence.
  - injection H as <- <- _. done.
  - assert (He : errs (remove_node p) t e t') by (by eexists _, _).
    unfold remove_node in He. apply errs_syscall in He as [_ [?|[_ ?]]]; [done|congruence].
Qed.
End ok_facts.

(** ** Frames

    [frame C S]: outside [S] nothing changes, except that a missing path of [C] may
    have become a directory. [safe C S] adds that a tree stays a tree. *)

Definition frame (C S : path → Prop) : relation tree := λ t t',
  ∀ q, ¬ S q → t' !! q = t !! q ∨ (C q ∧ t !! q = None ∧ t' !! q = Some Dir).
#[export] Instance frame_preorder C S : PreOrder (frame C S).
Proof.
  split; [by left|]. intros t1 t2 t3 H1 H2 q Hq.
  destruct (H1 q Hq) as [E1|(HC & E1 & E1')], (H2 q Hq) as [E2|(HC' & E2 & E2')].
  - left. congruence.
  - right. split_and!; congruence.
  - right. split_and!; congruence.
  - congruence.
Qed.
Definition safe (C S : path → Prop) : relation tree := λ t t', wf t → wf t' ∧ frame C S t t'.
#[export] Instance safe_preorder C S : PreOrder (safe C S).
Proof.
  split; [intros t Ht; by split|]. intros t1 t2 t3 H1 H2 Ht.
  destruct (H1 Ht) as [Ht2 F1], (H2 Ht2) as [Ht3 F2]. split; [done|by etrans].
Qed.
(** Nothing appears. *)
Definition shrinks : relation tree := λ t t', ∀ q, is_Some (t' !! q) → is_Some (t !! q).
#[export] Instance shrinks_preorder : PreOrder shrinks.
Proof. split; [intros t q; exact id|]. intros t1 t2 t3 H1 H2 q Hq. by apply H1, H2. Qed.

Lemma keeps_frame {A} C S (m : io A) : keeps S m → respects (frame C S) m.
Proof. intros H. eapply respects_impl; [done|]. intros t t' Ht q Hq. left. by apply Ht. Qed.
Lemma frame_weaken {A} (C C' S S' : path → Prop) (m : io A) :
  respects (frame C S) m → (∀ q, S q → S' q) → (∀ q, C q → C' q ∨ S' q) →
  respects (frame C' S') m.
Proof.
  intros Hm HS HC. eapply respects_impl; [done|]. intros t t' Ht q Hq.
  destruct (Ht q) as [?|(Hc & ? & ?)]; [by intros ?%HS|by left|].
  right. split_and!; [|done..]. by destruct (HC q Hc).
Qed.
Lemma respects_safe {A} C S (m : io A) :
  respects wf_rel m → respects (frame C S) m → respects (safe C S) m.
Proof. intros Hw Hf t n r t' n' H Ht. split; [by eapply Hw|by eapply Hf]. Qed.

Section frame_facts.
Context {K : Kernel}.
Lemma frame_create_dir_all p :
  respects (frame (λ q, Is_true (below q p)) (λ _, False)) (create_dir_all p).
Proof.
  assert (Hg : ∀ todo don,
    respects (frame (λ q, Is_true (below q (don ++ todo))) (λ _, False)) (create_dirs don todo)).
  { induction todo as [|c todo IH]; intros don; cbn; [by respects_step|].
    respects_step; [by respects_step|]. respects_step.
    - respects_step; [by respects_step|]. intros t n r t' n' H q _. unfold mkdir, syscall in H.
      destruct (present t (don ++ [c])) eqn:Hp; cbn in H; [simplify_eq; by left|].
      destruct (is_dir t (parent (don ++ [c]))) eqn:Hd; cbn in H; [|simplify_eq; by left].
      destruct (deny n _ t); simplify_eq; [by left|].
      destruct (decide (q = don ++ [c])) as [->|Hne]; [right|left; by rewrite lookup_insert_ne].
      split_and!; [|by apply present_false|by rewrite lookup_insert_eq].
      change (c :: todo) with ([c] ++ todo). rewrite app_assoc. apply below_app.
    - specialize (IH (don ++ [c])). by rewrite <- app_assoc in IH. }
  apply (Hg p []).
Qed.
Lemma shrinks_delete p op pre : respects shrinks (syscall op pre (λ t, delete p t)).
Proof.
  intros t n r t' n' H q Hq. unfold syscall in H. destruct (pre t); simplify_eq; [done|].
  destruct (deny n op t); simplify_eq; [done|].
  destruct Hq as [k Hk]. apply lookup_delete_Some in Hk as [_ Hk]. by eexists.
Qed.
Lemma shrinks_remove_dir_all p : respects shrinks (remove_dir_all p).
Proof.
  unfold remove_dir_all. respects_step; [by respects_step|].
  destruct a as [[| |]|]; try by respects_step.
  - respects_step; [by respects_step|]. respects_step. apply shrinks_delete.
  - apply shrinks_delete.
Qed.
End frame_facts.
