(* ===== verification/World.v ===== *)
(** * Privileged operations as programs (greendotctl/src/cmd.rs, the task plumbing)

    What a handler of the daemon works on: the task it streams into, the file
    tree, the clock that numbers the system calls, and the machine that runs
    external commands. A child process is a class parameter: it may print
    anything, exit with any code, fail to start, and change the tree. An
    operation fails ([Err]) only when the sink does, that is when the client is
    gone; every other failure is recorded on the task. *)
From Stdlib Require Import Ascii String.
From stdpp Require Import base option list strings sets gmap pretty.
From S2P Require Import Prelude Ordered Task Fs.
#[local] Open Scope string_scope.
#[local] Open Scope list_scope.

(** ** Commands *)

(** [package_for_cli] (greendot-proto/src/os.rs). *)
Definition one_of (l : list string) (s : string) : bool := bool_decide (s ∈ l).
Definition package_for_cli (cli : string) : option string :=
  if one_of ["zfs"; "zpool"] cli then Some "zfsutils-linux"
  else if one_of ["vgs"; "lvs"; "pvs"; "vgcreate"; "vgextend"; "vgreduce"; "vgremove"; "lvcreate";
                  "lvremove"; "lvextend"; "lvreduce"; "lvrename"] cli then Some "lvm2"
  else if one_of ["sfdisk"; "lsblk"; "mount"; "umount"] cli then Some "util-linux"
  else if one_of ["resize2fs"; "e2fsck"] cli then Some "e2fsprogs"
  else if one_of ["btrfs"] cli then Some "btrfs-progs"
  else if one_of ["modprobe"] cli then Some "kmod"
  else if one_of ["rdma"; "devlink"] cli then Some "iproute2"
  else if one_of ["nvme"] cli then Some "nvme-cli"
  else if one_of ["targetcli"; "targetctl"] cli then Some "targetcli-fb"
  else if one_of ["exportfs"] cli then Some "nfs-kernel-server"
  else if one_of ["smartctl"] cli then Some "smartmontools"
  else if one_of ["apt-get"] cli then Some "apt"
  else None.

Record TaskSpec : Type := {
  ts_command : string;
  ts_args : list string;
  ts_stdin : option string;
  ts_env : list (string * string);
  ts_stdin_to_file : bool }.
Definition spec_new (command : string) (args : list string) : TaskSpec :=
  {| ts_command := command; ts_args := args; ts_stdin := None; ts_env := [];
     ts_stdin_to_file := false |}.
Definition with_stdin (command : string) (args : list string) (stdin : string) : TaskSpec :=
  {| ts_command := command; ts_args := args; ts_stdin := Some stdin; ts_env := [];
     ts_stdin_to_file := false |}.
Definition with_config_file (command : string) (args : list string) (content : string) : TaskSpec :=
  {| ts_command := command; ts_args := args; ts_stdin := Some content; ts_env := [];
     ts_stdin_to_file := true |}.
Definition add_env (s : TaskSpec) (key value : string) : TaskSpec :=
  {| ts_command := ts_command s; ts_args := ts_args s; ts_stdin := ts_stdin s;
     ts_env := ts_env s ++ [(key, value)]; ts_stdin_to_file := ts_stdin_to_file s |}.

(** What became of a child: it ran, printing chunks (to stdout when [true]) and
    exiting with a code ([None]: killed by a signal), or it did not start. *)
Inductive child : Type :=
| Ran (output : list (bool * string)) (code : option Z)
| NotStarted (not_found : bool) (msg : string).
(** The machine runs a command, identified by program, arguments, piped input and
    environment, at a time on a tree. *)
Class Machine := proc : nat → string → list string → option string → list (string * string) →
  tree → child * tree.

(** ** The state of a running operation *)

(** A command that was spawned, and what became of it. *)
Record call : Type := {
  cl_command : string; cl_args : list string; cl_stdin : option string; cl_child : child }.
(** [w_sub] is the result recorded on the open subtask; [w_seq] is the counter
    behind temporary file names; [w_meta] holds modes and owners; [w_ran] is a
    history variable: the commands spawned so far. *)
Record world : Type := {
  w_task : Task;
  w_sub : subtask;
  w_tree : tree;
  w_clock : nat;
  w_seq : N;
  w_ran : list call;
  w_meta : metas }.
Definition set_task (w : world) (t : Task) : world :=
  {| w_task := t; w_sub := w_sub w; w_tree := w_tree w; w_clock := w_clock w; w_seq := w_seq w; w_ran := w_ran w; w_meta := w_meta w |}.
Definition set_sub (w : world) (s : subtask) : world :=
  {| w_task := w_task w; w_sub := s; w_tree := w_tree w; w_clock := w_clock w; w_seq := w_seq w; w_ran := w_ran w; w_meta := w_meta w |}.
Definition set_fs (w : world) (t : tree) (n : nat) : world :=
  {| w_task := w_task w; w_sub := w_sub w; w_tree := t; w_clock := n; w_seq := w_seq w; w_ran := w_ran w; w_meta := w_meta w |}.
Definition set_meta (w : world) (m : metas) : world :=
  {| w_task := w_task w; w_sub := w_sub w; w_tree := w_tree w; w_clock := w_clock w; w_seq := w_seq w; w_ran := w_ran w; w_meta := m |}.
Definition start_world (t : tree) (n : nat) : world :=
  {| w_task := new_task; w_sub := (0%Z, None); w_tree := t; w_clock := n; w_seq := 0%N; w_ran := []; w_meta := ∅ |}.

Definition op (A : Type) : Type := world → result string A * world.
#[export] Instance op_ret : MRet op := λ A a w, (Ok a, w).
#[export] Instance op_bind : MBind op := λ A B f m w,
  match m w with
  | (Ok a, w') => f a w'
  | (Err e, w') => (Err e, w')
  end.
(** Reading the tree. *)
Definition op_get {A} (f : tree → A) : op A := λ w, (Ok (f (w_tree w)), w).
(** File-system work, with its result. *)
Definition lift {A} (m : io A) : op (result ioerr A) := λ w,
  let '(r, t, n) := m (w_tree w) (w_clock w) in (Ok r, set_fs w t n).

Section ops.
Context {C : Client} {K : Kernel} {M : Machine}.

(** ** Subtasks *)

(** One piece of output on the open subtask. *)
Definition write_out (ev : TaskEvent) : op unit := λ w,
  match pipe_write (w_task w) ev with
  | (Ok _, t) => (Ok tt, set_task w t)
  | (Err e, t) => (Err e, set_task w t)
  end.
(** [write_all]: an empty buffer is no write. *)
Definition print_out (s : string) : op unit := if is_empty s then mret tt else write_out (Stdout s).
Definition print_err (s : string) : op unit := if is_empty s then mret tt else write_out (Stderr s).
(** [writeln!]: one write for each piece of the format string and each argument,
    then the newline. *)
Definition newline : string := chr 10.
Fixpoint write_fmt (out : string → op unit) (pieces : list string) : op unit :=
  match pieces with
  | [] => mret tt
  | p :: pieces => out p ≫= λ _, write_fmt out pieces
  end.
Definition println_out (pieces : list string) : op unit := write_fmt print_out (pieces ++ [newline]).
Definition println_err (pieces : list string) : op unit := write_fmt print_err (pieces ++ [newline]).
Definition set_result (exit : Z) (error : option string) : op unit := λ w,
  (Ok tt, set_sub w (exit, error)).
(** [let sub = task.begin_command(..); body; sub.complete(..)]: a sink error in the
    body drops the open subtask on the way out. *)
Definition in_command {A} (name : string) (command : option string) (args : list string)
    (stdin : option string) (body : op (A * sub_end)) : op A := λ w,
  let w := set_sub (set_task w (begin_command (w_task w) name command args stdin)) (0%Z, None) in
  match body w with
  | (Ok (a, fin), w) => (Ok a, set_task w (finish_sub (w_task w) (w_sub w) fin))
  | (Err e, w) => (Err e, set_task w (finish_sub (w_task w) (w_sub w) Dropped))
  end.
Definition in_subtask {A} (name : string) (body : op (A * sub_end)) : op A :=
  in_command name None [] None body.
(** [task.begin_subtask(name).complete(status)], [.fail(msg)] and
    [task.skipped_subtask(name)]. *)
Definition mark (name : string) (fin : sub_end) : op unit :=
  in_subtask name (mret (tt, fin)).
Definition mark_skipped (name : string) : op unit := λ w,
  (Ok tt, set_task w (skipped_subtask (w_task w) name)).

(** [nvmet::step]: one piece of file-system work as a named subtask. *)
Definition step_op (name : string) (m : op (result ioerr SubStatus)) : op SubStatus :=
  in_subtask name (
    r ← m;
    match r with
    | Ok status => mret (status, Complete status)
    | Err e =>
        _ ← println_err [err_msg e];
        _ ← set_result 1 (Some (err_msg e));
        mret (Failed, Complete Failed)
    end).
Definition step (name : string) (f : io SubStatus) : op SubStatus := step_op name (lift f).

(** ** Running commands *)

Definition spawn_error (command : string) (not_found : bool) (e : string) : string :=
  if not_found then
    match package_for_cli command with
    | Some pkg => command +:+ " is not installed " +:+ em_dash +:+ " install the " +:+ pkg
                  +:+ " package (Tasks " +:+ right_arrow +:+ " Install dependencies)"
    | None => command +:+ " is not installed"
    end
  else "failed to start " +:+ command +:+ ": " +:+ e.

(** The directory for materialized input: the service's own tmpfs when it is
    there, the system's temporary directory otherwise. *)
Definition temp_dir (t : tree) : path :=
  if is_dir t ["run"; "greendotrdma"] then ["run"; "greendotrdma"] else ["tmp"].
Definition show_abs (p : path) : string := "/" +:+ join "/" p.
(** [prepare_stdin]: the arguments to pass, the input to pipe and the temporary
    file to remove afterwards. *)
Definition prepare_stdin (spec : TaskSpec) :
    op (result string (list string * option string * option path)) := λ w,
  match ts_stdin_to_file spec, ts_stdin spec with
  | true, Some content =>
      let p := temp_dir (w_tree w) ++ ["greendot-" +:+ ts_command spec +:+ "-" +:+ pretty (w_seq w) +:+ ".cfg"] in
      let '(r, t, n) := write_file p content (w_tree w) (w_clock w) in
      let w := {| w_task := w_task w; w_sub := w_sub w; w_tree := t; w_clock := n; w_seq := (w_seq w + 1)%N;
                  w_ran := w_ran w; w_meta := w_meta w |} in
      match r with
      | Ok _ => (Ok (Ok (ts_args spec ++ [show_abs p], None, Some p)), w)
      | Err e => (Ok (Err ("writing config for " +:+ ts_command spec +:+ ": " +:+ err_msg e)), w)
      end
  | _, stdin => (Ok (Ok (ts_args spec, stdin, None)), w)
  end.
(** Dropping the [TempInput]: best effort. *)
Definition drop_temp (temp : option path) : op unit :=
  match temp with
  | Some p => lift (remove_file p) ≫= λ _, mret tt
  | None => mret tt
  end.
Fixpoint pump (output : list (bool * string)) : op unit :=
  match output with
  | [] => mret tt
  | (is_stdout, data) :: output =>
      (if is_stdout : bool then print_out data else print_err data) ≫= λ _, pump output
  end.
Definition spawn (command : string) (args : list string) (stdin : option string)
    (env : list (string * string)) : op child := λ w,
  let '(c, t) := proc (w_clock w) command args stdin env (w_tree w) in
  (Ok c, {| w_task := w_task w; w_sub := w_sub w; w_tree := t; w_clock := S (w_clock w); w_seq := w_seq w;
            w_ran := w_ran w ++ [{| cl_command := command; cl_args := args; cl_stdin := stdin; cl_child := c |}]; w_meta := w_meta w |}).
(** [stream_child]: spawn, forward the output, and report status, exit and error. *)
Definition stream_child (spec : TaskSpec) (args : list string) (stdin : option string) :
    op (SubStatus * Z * option string) :=
  c ← spawn (ts_command spec) args stdin (ts_env spec);
  match c with
  | NotStarted not_found e =>
      let msg := spawn_error (ts_command spec) not_found e in
      _ ← println_err [msg];
      mret (Failed, (-1)%Z, Some msg)
  | Ran output code =>
      _ ← pump output;
      let exit := default (-1)%Z code in
      let success := bool_decide (code = Some 0%Z) in
      mret (if success then Success else Failed, exit,
            if success then None
            else Some (ts_command spec +:+ " exited with status " +:+ show_Z exit))
  end.

(** The temporary file outlives the child, also when the sink fails. *)
Definition with_temp {A} (temp : option path) (m : op A) : op A := λ w,
  let '(r, w) := m w in let '(_, w) := drop_temp temp w in (r, w).
Definition run (name : string) (spec : TaskSpec) : op SubStatus :=
  prepared ← prepare_stdin spec;
  match prepared with
  | Err msg =>
      in_command name (Some (ts_command spec)) (ts_args spec) (ts_stdin spec) (
        _ ← println_err [msg];
        _ ← set_result (-1) (Some msg);
        mret (Failed, Complete Failed))
  | Ok (args, pipe, temp) =>
      with_temp temp (in_command name (Some (ts_command spec)) args (ts_stdin spec) (
        '(status, exit, error) ← stream_child spec args pipe;
        _ ← set_result exit error;
        mret (status, Complete status)))
  end.
(** [run_into]: into the open subtask; records the result only on failure. *)
Definition run_into (spec : TaskSpec) : op SubStatus :=
  _ ← println_out ["$ "; ts_command spec; " "; join " " (ts_args spec)];
  prepared ← prepare_stdin spec;
  match prepared with
  | Err msg =>
      _ ← println_err [msg];
      _ ← set_result (-1) (Some msg);
      mret Failed
  | Ok (args, pipe, temp) =>
      with_temp temp (
        '(status, exit, error) ← stream_child spec args pipe;
        _ ← (if bool_decide (status = Failed) then set_result exit error else mret tt);
        mret (status : SubStatus))
  end.
(** [capture_into]: the child's stdout, whatever its exit code; the echo and its
    stderr go to the subtask's stderr. *)
Definition capture_into (spec : TaskSpec) : op (result string string) :=
  _ ← println_err ["$ "; ts_command spec; " "; join " " (ts_args spec)];
  c ← spawn (ts_command spec) (ts_args spec) None [];
  match c with
  | Ran output _ =>
      _ ← print_err (concat_s (omap (λ o : bool * string, if o.1 then None else Some o.2) output));
      mret (Ok (concat_s (omap (λ o : bool * string, if o.1 then Some o.2 else None) output)))
  | NotStarted not_found e =>
      let msg := spawn_error (ts_command spec) not_found e in
      _ ← println_err [msg];
      mret (Err msg)
  end.
End ops.

(** ** Reasoning about operations

    [op_respects R m]: every run of [m], whether the client stays or goes, relates
    the worlds before and after by the preorder [R]. The instances used are a
    relation on the trees and "a failed task stays failed". *)

Definition op_respects (R : relation world) {A} (m : op A) : Prop :=
  ∀ w r w', m w = (r, w') → R w w'.
Definition on_tree (R : relation tree) : relation world := λ w w', R (w_tree w) (w_tree w').
#[export] Instance on_tree_preorder R : PreOrder R → PreOrder (on_tree R).
Proof. intros HR. split; [intros w; apply HR|]. intros a b c. apply (PreOrder_Transitive (R:=R)). Qed.
Definition failed (w : world) : Prop := agg (w_task w) = Some Failed.
Definition stays_failed : relation world := λ w w', failed w → failed w'.
#[export] Instance stays_failed_preorder : PreOrder stays_failed.
Proof. split; [intros w; exact id|]. intros a b c H1 H2 H. exact (H2 (H1 H)). Qed.

Section op_respects.
Context (R : relation world) {HR : PreOrder R} {A B : Type}.
Lemma op_respects_ret (a : A) : op_respects R (mret a).
Proof. intros w r w' [= <- <-]. reflexivity. Qed.
Lemma op_respects_get (f : tree → A) : op_respects R (op_get f).
Proof. intros w r w' [= <- <-]. reflexivity. Qed.
Lemma op_respects_bind (m : op A) (f : A → op B) :
  op_respects R m → (∀ a, op_respects R (f a)) → op_respects R (m ≫= f).
Proof.
  intros Hm Hf w r w' H. unfold mbind, op_bind in H.
  destruct (m w) as [[a|e] w1] eqn:E; [etrans; [by eapply Hm|by eapply Hf]|].
  simplify_eq. by eapply Hm.
Qed.
End op_respects.
Lemma op_respects_fmt (R : relation world) `{!PreOrder R} (out : string → op unit) pieces :
  (∀ s, op_respects R (out s)) → op_respects R (write_fmt out pieces).
Proof.
  intros Ho. induction pieces as [|p ps IH]; cbn; [by apply op_respects_ret|]. apply op_respects_bind; [done|done|intros _; exact IH].
Qed.

Section tree_facts.
Context {C : Client} {K : Kernel} {M : Machine} (R : relation tree) {HR : PreOrder R}.
Abbreviation RT := (on_tree R).

Lemma tree_lift {A} (m : io A) : respects R m → op_respects RT (lift m).
Proof.
  intros Hm w r w' H. unfold lift in H. destruct (m (w_tree w) (w_clock w)) as [[x t] n] eqn:E.
  injection H as <- <-. by eapply Hm.
Qed.
Lemma tree_write_out ev : op_respects RT (write_out ev).
Proof.
  intros w r w' H. unfold write_out in H. destruct (pipe_write _ _) as [[u|e] t]; simplify_eq;
    unfold on_tree; cbn; reflexivity.
Qed.
Lemma tree_print_err s : op_respects RT (print_err s).
Proof. unfold print_err. destruct (is_empty s); [by apply op_respects_ret, _|apply tree_write_out]. Qed.
Lemma tree_println_err l : op_respects RT (println_err l).
Proof. apply op_respects_fmt; [apply _|apply tree_print_err]. Qed.
Lemma tree_set_result x e : op_respects RT (set_result x e).
Proof. intros w r w' [= <- <-]. unfold on_tree. cbn. reflexivity. Qed.
Lemma tree_in_command {A} name cmd args stdin (body : op (A * sub_end)) :
  op_respects RT body → op_respects RT (in_command name cmd args stdin body).
Proof.
  intros Hb w r w' H. unfold in_command in H.
  match type of H with context [body ?w0] => destruct (body w0) as [[[a fin]|e] w1] eqn:E end;
    apply Hb in E; unfold on_tree in *; simplify_eq; exact E.
Qed.
Lemma tree_mark name fin : op_respects RT (mark name fin).
Proof. apply tree_in_command. by apply op_respects_ret, _. Qed.
Lemma tree_mark_skipped name : op_respects RT (mark_skipped name).
Proof. intros w r w' [= <- <-]. unfold on_tree. cbn. reflexivity. Qed.
Lemma tree_step name f : respects R f → op_respects RT (step name f).
Proof.
  intros Hf. apply tree_in_command. apply op_respects_bind; [apply _|by apply tree_lift|].
  intros [st|e]; [by apply op_respects_ret, _|].
  apply op_respects_bind; [apply _|apply tree_println_err|intros _].
  apply op_respects_bind; [apply _|apply tree_set_result|intros _; by apply op_respects_ret, _].
Qed.
(** Commands whose effect on the tree is in [R]. *)
Lemma tree_print_out s : op_respects RT (print_out s).
Proof. unfold print_out. destruct (is_empty s); [by apply op_respects_ret, _|apply tree_write_out]. Qed.
Lemma tree_println_out l : op_respects RT (println_out l).
Proof. apply op_respects_fmt; [apply _|apply tree_print_out]. Qed.
Lemma tree_pump l : op_respects RT (pump l).
Proof.
  induction l as [|[[] d] l IH]; cbn; [by apply op_respects_ret, _|..];
    (apply op_respects_bind; [apply _| |done]); [apply tree_print_out|apply tree_print_err].
Qed.
Lemma tree_stream_child spec args stdin :
  (∀ n t, R t (proc n (ts_command spec) args stdin (ts_env spec) t).2) → op_respects RT (stream_child spec args stdin).
Proof.
  intros Hp. apply op_respects_bind; [apply _| |].
  - intros w r w' H. unfold spawn in H. specialize (Hp (w_clock w) (w_tree w)).
    destruct (proc _ _ _ _ _ _) as [c t]. by injection H as <- <-.
  - intros [out code|nf e]; (apply op_respects_bind; [apply _| |intros; by apply op_respects_ret, _]);
      [apply tree_pump|apply tree_println_err].
Qed.
Lemma tree_spawn cmd args stdin env :
  (∀ n t, R t (proc n cmd args stdin env t).2) → op_respects RT (spawn cmd args stdin env).
Proof.
  intros Hp w r w' H. unfold spawn in H. pose proof (Hp (w_clock w) (w_tree w)) as Hw.
  destruct (proc _ _ _ _ _ _) as [c t]. by injection H as <- <-.
Qed.
Lemma tree_capture_into spec :
  (∀ n t, R t (proc n (ts_command spec) (ts_args spec) None [] t).2) → op_respects RT (capture_into spec).
Proof.
  intros Hp. unfold capture_into. apply op_respects_bind; [apply _|apply tree_println_err|intros _].
  apply op_respects_bind; [apply _|by apply tree_spawn|]. intros [out code|nf e];
    (apply op_respects_bind; [apply _|apply tree_print_err || apply tree_println_err|intros _; by apply op_respects_ret, _]).
Qed.
Lemma tree_run_into spec :
  ts_stdin_to_file spec = false →
  (∀ n t, R t (proc n (ts_command spec) (ts_args spec) (ts_stdin spec) (ts_env spec) t).2) →
  op_respects RT (run_into spec).
Proof.
  intros Hf Hp. apply op_respects_bind; [apply _|apply tree_println_out|intros _]. intros w r w' H.
  unfold mbind, op_bind, prepare_stdin in H. rewrite Hf in H. unfold with_temp in H. cbn [drop_temp] in H.
  match type of H with context [stream_child ?a ?b ?c w] => destruct (stream_child a b c w) as [[[[st ex] er]|e] w1] eqn:E end;
    apply (tree_stream_child _ _ _ Hp) in E; [|by injection H as <- <-].
  case_bool_decide; injection H as <- <-; exact E.
Qed.
Lemma tree_run name spec :
  ts_stdin_to_file spec = false →
  (∀ n t, R t (proc n (ts_command spec) (ts_args spec) (ts_stdin spec) (ts_env spec) t).2) →
  op_respects RT (run name spec).
Proof.
  intros Hf Hp. unfold run. intros w r w' H. unfold mbind, op_bind, prepare_stdin in H. rewrite Hf in H.
  unfold with_temp in H. cbn [drop_temp] in H.
  assert (Hb : ∀ w r w', in_command name (Some (ts_command spec)) (ts_args spec) (ts_stdin spec)
    ('(status, exit, error) ← stream_child spec (ts_args spec) (ts_stdin spec);
     _ ← set_result exit error; mret (status, Complete status)) w = (r, w') → RT w w').
  { apply tree_in_command, op_respects_bind; [apply _|by apply tree_stream_child|]. intros [[st ex] er].
    apply op_respects_bind; [apply _|apply tree_set_result|intros; by apply op_respects_ret, _]. }
  match type of H with context [in_command ?a ?b ?c ?d ?e w] => destruct (in_command a b c d e w) as [r1 w1] eqn:E end.
  injection H as <- <-. by eapply Hb.
Qed.
End tree_facts.

Lemma status_fold_failed s : status_fold (Some Failed) s = Failed.
Proof. by destruct s. Qed.
Lemma status_fold_failed_r o : status_fold o Failed = Failed.
Proof. by destruct o as [[]|]. Qed.
Section failed_facts.
Context {C : Client} {K : Kernel} {M : Machine}.
Lemma agg_emit_soft t ev : agg (emit_soft t ev) = agg t.
Proof. unfold emit_soft, emit. destruct (pending t); [done|]. by destruct (reads _). Qed.
Lemma agg_pipe_write t ev : agg (pipe_write t ev).2 = agg t.
Proof.
  unfold pipe_write, take_pending. destruct (pending t); [done|]. unfold emit. by destruct (reads _).
Qed.
Lemma agg_finish_sub t s fin : agg (finish_sub t s fin) = Some (status_fold (agg t) (end_status fin)).
Proof. destruct fin; cbn; unfold finish_subtask; by rewrite agg_emit_soft. Qed.
Lemma failed_write_out ev : op_respects stays_failed (write_out ev).
Proof.
  intros w r w' H Hf. unfold write_out in H. pose proof (agg_pipe_write (w_task w) ev) as Ha.
  destruct (pipe_write _ _) as [[u|e] t]; simplify_eq; unfold failed in *; cbn in *; by rewrite Ha.
Qed.
Lemma failed_lift {A} (m : io A) : op_respects stays_failed (lift m).
Proof.
  intros w r w' H Hf. unfold lift in H. destruct (m _ _) as [[x t] n]. by injection H as <- <-.
Qed.
Lemma failed_print_err s : op_respects stays_failed (print_err s).
Proof. unfold print_err. destruct (is_empty s); [by apply op_respects_ret, _|apply failed_write_out]. Qed.
Lemma failed_println_err l : op_respects stays_failed (println_err l).
Proof. apply op_respects_fmt; [apply _|apply failed_print_err]. Qed.
Lemma failed_in_command {A} name cmd args stdin (body : op (A * sub_end)) :
  op_respects stays_failed body → op_respects stays_failed (in_command name cmd args stdin body).
Proof.
  intros Hb w r w' H Hf. unfold in_command in H.
  match type of H with context [body ?w0] => destruct (body w0) as [[[a fin]|e] w1] eqn:E end;
    (assert (Hw1 : failed w1) by
      (eapply Hb; [exact E|]; unfold failed in *; cbn; unfold begin_command; by rewrite agg_emit_soft));
    simplify_eq; unfold failed in *; cbn [w_task set_task]; rewrite agg_finish_sub, Hw1; by rewrite status_fold_failed.
Qed.
Lemma failed_mark name fin : op_respects stays_failed (mark name fin).
Proof. apply failed_in_command. by apply op_respects_ret, _. Qed.
Lemma failed_mark_skipped name : op_respects stays_failed (mark_skipped name).
Proof.
  intros w r w' [= <- <-] Hf. unfold failed in *. cbn [w_task set_task].
  unfold skipped_subtask, finish_subtask, begin_subtask, begin_command.
  rewrite agg_emit_soft. cbn [agg]. by rewrite agg_emit_soft, Hf.
Qed.
Lemma failed_set_result x e : op_respects stays_failed (set_result x e).
Proof. intros w r w' [= <- <-] Hf. exact Hf. Qed.
Lemma failed_step name f : op_respects stays_failed (step name f).
Proof.
  apply failed_in_command. apply op_respects_bind; [apply _|apply failed_lift|].
  intros [st|e]; [by apply op_respects_ret, _|].
  apply op_respects_bind; [apply _|apply failed_println_err|intros _].
  apply op_respects_bind; [apply _|apply failed_set_result|intros _; by apply op_respects_ret, _].
Qed.
(** A subtask completed as failed fails the task. *)
Lemma mark_failed name msg w r w' : mark name (Fail msg) w = (r, w') → failed w'.
Proof.
  unfold mark, in_subtask, in_command. cbn. intros [= <- <-]. unfold failed. cbn [w_task set_task].
  unfold finish_subtask. rewrite agg_emit_soft. cbn [agg]. by destruct (agg _) as [[]|].
Qed.

(** ** Successful runs *)

Lemma op_bind_Ok {A B} (m : op A) (f : A → op B) w b w' :
  (m ≫= f) w = (Ok b, w') → ∃ a w1, m w = (Ok a, w1) ∧ f a w1 = (Ok b, w').
Proof. unfold mbind, op_bind. destruct (m w) as [[a|e] w1]; [eauto|done]. Qed.
Lemma op_bind_run {A B} (m : op A) (f : A → op B) w r w' :
  (m ≫= f) w = (r, w') →
  (∃ e, m w = (Err e, w') ∧ r = Err e) ∨ ∃ a w1, m w = (Ok a, w1) ∧ f a w1 = (r, w').
Proof. unfold mbind, op_bind. destruct (m w) as [[a|e] w1]; [eauto|]. intros [= <- <-]. eauto. Qed.
Lemma lift_step {A B} (m : io A) (f : result ioerr A → op B) w r w' :
  (lift m ≫= f) w = (r, w') →
  ∃ x t n, m (w_tree w) (w_clock w) = (x, t, n) ∧ f x (set_fs w t n) = (r, w').
Proof. unfold mbind, op_bind, lift. destruct (m _ _) as [[x t] n]. eauto. Qed.
Lemma lift_bind {A B} (m : io A) (f : result ioerr A → op B) w r w' :
  (lift m ≫= f) w = (r, w') →
  ∃ x w1, m (w_tree w) (w_clock w) = (x, w_tree w1, w_clock w1) ∧ w_task w1 = w_task w ∧ f x w1 = (r, w').
Proof.
  unfold mbind, op_bind, lift. destruct (m _ _) as [[x t] n]. intros H.
  exists x, (set_fs w t n). done.
Qed.
Lemma get_bind {A B : Type} (g : tree → A) (f : A → op B) w r w' :
  (op_get g ≫= f) w = (r, w') → f (g (w_tree w)) w = (r, w').
Proof. done. Qed.
Lemma mark_tree name fin w r w' : mark name fin w = (r, w') → w_tree w' = w_tree w.
Proof. intros H. symmetry. exact (tree_mark eq name fin w r w' H). Qed.
Lemma in_command_Ok {A} name cmd args stdin (body : op (A * sub_end)) w a w' :
  in_command name cmd args stdin body w = (Ok a, w') →
  ∃ w0 fin w1, w_tree w0 = w_tree w ∧ w_clock w0 = w_clock w ∧ body w0 = (Ok (a, fin), w1) ∧
    w_tree w' = w_tree w1 ∧ w_clock w' = w_clock w1 ∧ agg (w_task w') = Some (status_fold (agg (w_task w1)) (end_status fin)).
Proof.
  unfold in_command. match goal with |- context [body ?w0] =>
    destruct (body w0) as [[[a' fin]|e] w1] eqn:E end; intros [= <- <-].
  eexists _, fin, w1. split_and!; [..|exact E|reflexivity|reflexivity|]; [reflexivity..|].
  cbn. apply agg_finish_sub.
Qed.
(** What a completed step has done: its work succeeded with the status, or it
    failed and so has the task. *)
Lemma step_Ok name f w st w' :
  step name f w = (Ok st, w') →
  (oks f (w_tree w) st (w_tree w') ∧ (st = Failed → failed w')) ∨
  (st = Failed ∧ failed w' ∧ ∃ e, errs f (w_tree w) e (w_tree w')).
Proof.
  intros (w0 & fin & w1 & Ht & Hn & H & Ht' & _ & Hagg)%in_command_Ok.
  apply op_bind_Ok in H as (r & w2 & Hl & H). unfold lift in Hl.
  destruct (f (w_tree w0) (w_clock w0)) as [[x t] n] eqn:E. injection Hl as <- <-.
  destruct x as [s|e].
  - injection H as <- <- <-. left. rewrite Ht', <- Ht. split; [exists (w_clock w0), n; exact E|].
    intros ->. unfold failed. rewrite Hagg. f_equal. apply status_fold_failed_r.
  - apply op_bind_Ok in H as (u & w3 & H3 & H). apply (tree_println_err eq) in H3.
    apply op_bind_Ok in H as (u' & w4 & [= <- <-] & [= <- <- <-]).
    right. split_and!; [done| |].
    + unfold failed. rewrite Hagg. f_equal. apply status_fold_failed_r.
    + exists e. rewrite Ht', <- Ht. cbn. rewrite <- H3. exists (w_clock w0), n. exact E.
Qed.
(** A command that did not succeed has failed its task. *)
Lemma stream_child_Ok spec args stdin w st ex er w' :
  stream_child spec args stdin w = (Ok (st, ex, er), w') → st = Success ∨ st = Failed.
Proof.
  intros (c & w1 & _ & H)%op_bind_Ok. destruct c as [out code|nf e];
    apply op_bind_Ok in H as (u & w2 & _ & [= <- _ _ _]); [|auto]. case_bool_decide; auto.
Qed.
Lemma with_temp_Ok {A} temp (m : op A) w a w' :
  with_temp temp m w = (Ok a, w') → ∃ w1, m w = (Ok a, w1) ∧ w_task w' = w_task w1.
Proof.
  unfold with_temp. destruct (m w) as [r w1]. destruct temp as [p|]; cbn.
  - unfold mbind, op_bind, lift. destruct (remove_file _ _ _) as [[x t] n]. intros [= -> <-]. by exists w1.
  - intros [= -> <-]. by exists w1.
Qed.
Lemma failed_complete w n : agg (w_task w) = Some (status_fold n Failed) → failed w.
Proof. by rewrite status_fold_failed_r. Qed.
Lemma run_Ok name spec w s w' : run name spec w = (Ok s, w') → s = Success ∨ s = Failed ∧ failed w'.
Proof.
  intros (x & w1 & _ & H)%op_bind_Ok. destruct x as [[[args pipe] temp]|msg].
  - apply with_temp_Ok in H as (w2 & H & Ht).
    apply in_command_Ok in H as (w0 & fin & w3 & _ & _ & H & _ & _ & Ha).
    apply op_bind_Ok in H as ([[st ex] er] & w4 & Hs & H). apply op_bind_Ok in H as (u & w5 & _ & [= <- <- <-]).
    apply stream_child_Ok in Hs as [->| ->]; [by left|right]. split; [done|].
    eapply failed_complete. rewrite Ht. exact Ha.
  - apply in_command_Ok in H as (w0 & fin & w3 & _ & _ & H & _ & _ & Ha).
    apply op_bind_Ok in H as (u & w4 & _ & H). apply op_bind_Ok in H as (u' & w5 & _ & [= <- <- <-]).
    right. split; [done|]. by eapply failed_complete.
Qed.
Lemma failed_print_out s : op_respects stays_failed (print_out s).
Proof. unfold print_out. destruct (is_empty s); [by apply op_respects_ret, _|apply failed_write_out]. Qed.
Lemma failed_println_out l : op_respects stays_failed (println_out l).
Proof. apply op_respects_fmt; [apply _|apply failed_print_out]. Qed.
Lemma failed_pump l : op_respects stays_failed (pump l).
Proof.
  induction l as [|[[] d] l IH]; cbn; [by apply op_respects_ret, _|..];
    (apply op_respects_bind; [apply _| |done]); [apply failed_print_out|apply failed_print_err].
Qed.
Lemma failed_spawn cmd args stdin env : op_respects stays_failed (spawn cmd args stdin env).
Proof. intros w r w' H. unfold spawn in H. destruct (proc _ _ _ _ _ _) as [c t]. injection H as <- <-. exact id. Qed.
Lemma failed_stream_child spec args stdin : op_respects stays_failed (stream_child spec args stdin).
Proof.
  apply op_respects_bind; [apply _|apply failed_spawn|]. intros [out code|nf e];
    (apply op_respects_bind; [apply _|apply failed_pump || apply failed_println_err|intros _; by apply op_respects_ret, _]).
Qed.
Lemma failed_drop_temp temp : op_respects stays_failed (drop_temp temp).
Proof.
  destruct temp as [p|]; [|by apply op_respects_ret, _].
  apply op_respects_bind; [apply _|apply failed_lift|intros; by apply op_respects_ret, _].
Qed.
Lemma failed_with_temp {A} temp (m : op A) :
  op_respects stays_failed m → op_respects stays_failed (with_temp temp m).
Proof.
  intros Hm w r w' H Hf. unfold with_temp in H. destruct (m w) as [r1 w1] eqn:E. destruct (drop_temp temp w1) as [u w2] eqn:E2.
  injection H as <- <-. apply Hm in E. apply failed_drop_temp in E2. auto.
Qed.
Lemma failed_prepare_stdin spec : op_respects stays_failed (prepare_stdin spec).
Proof.
  intros w r w' H. unfold prepare_stdin in H. destruct (ts_stdin_to_file spec), (ts_stdin spec); try (injection H as <- <-; exact id).
  destruct (write_file _ _ _ _) as [[[u|e] t] n]; injection H as <- <-; exact id.
Qed.
Lemma failed_run name spec : op_respects stays_failed (run name spec).
Proof.
  apply op_respects_bind; [apply _|apply failed_prepare_stdin|]. intros [[[args pipe] temp]|msg].
  - apply failed_with_temp, failed_in_command, op_respects_bind; [apply _|apply failed_stream_child|]. intros [[st ex] er].
    apply op_respects_bind; [apply _|apply failed_set_result|intros; by apply op_respects_ret, _].
  - apply failed_in_command. apply op_respects_bind; [apply _|apply failed_println_err|intros _].
    apply op_respects_bind; [apply _|apply failed_set_result|intros; by apply op_respects_ret, _].
Qed.
Lemma failed_run_into spec : op_respects stays_failed (run_into spec).
Proof.
  apply op_respects_bind; [apply _|apply failed_println_out|intros _].
  apply op_respects_bind; [apply _|apply failed_prepare_stdin|]. intros [[[args pipe] temp]|msg].
  - apply failed_with_temp, op_respects_bind; [apply _|apply failed_stream_child|]. intros [[st ex] er].
    apply op_respects_bind; [apply _| |intros; by apply op_respects_ret, _].
    case_bool_decide; [apply failed_set_result|by apply op_respects_ret, _].
  - apply op_respects_bind; [apply _|apply failed_println_err|intros _].
    apply op_respects_bind; [apply _|apply failed_set_result|intros; by apply op_respects_ret, _].
Qed.
Lemma failed_capture_into spec : op_respects stays_failed (capture_into spec).
Proof.
  apply op_respects_bind; [apply _|apply failed_println_err|intros _].
  apply op_respects_bind; [apply _|apply failed_spawn|]. intros [out code|nf e];
    (apply op_respects_bind; [apply _|apply failed_print_err || apply failed_println_err|intros _; by apply op_respects_ret, _]).
Qed.
End failed_facts.

(** Structural decomposition of an operation for [op_respects (on_tree R)] and
    [op_respects stays_failed]. *)
Ltac op_step :=
  match goal with
  | |- op_respects _ (_ ≫= _) => apply op_respects_bind; [apply _| |intros ?]
  | |- op_respects _ (mret _) => apply op_respects_ret; apply _
  | |- op_respects _ (op_get _) => apply op_respects_get; apply _
  | |- op_respects (on_tree _) (step _ _) => apply tree_step; [apply _|]
  | |- op_respects (on_tree _) (lift _) => apply tree_lift
  | |- op_respects (on_tree _) (mark _ _) => apply tree_mark; apply _
  | |- op_respects (on_tree _) (mark_skipped _) => apply tree_mark_skipped; apply _
  | |- op_respects stays_failed (step _ _) => apply failed_step
  | |- op_respects stays_failed (lift _) => apply failed_lift
  | |- op_respects stays_failed (run _ _) => apply failed_run
  | |- op_respects stays_failed (mark _ _) => apply failed_mark
  | |- op_respects stays_failed (mark_skipped _) => apply failed_mark_skipped
  | |- op_respects _ (if ?b then _ else _) => destruct b eqn:?
  | |- op_respects _ (match ?x with _ => _ end) => destruct x eqn:?
  end.

(** ** The commands an operation ran *)

Definition same_ran : relation world := λ w w', w_ran w' = w_ran w.
#[export] Instance same_ran_preorder : PreOrder same_ran.
Proof. split; [by intros w|]. intros a b c H1 H2. unfold same_ran in *. congruence. Qed.
Definition child_ok (c : child) : bool :=
  match c with Ran _ code => bool_decide (code = Some 0%Z) | NotStarted _ _ => false end.
Definition stdout_of (output : list (bool * string)) : string :=
  concat_s (omap (λ o : bool * string, if o.1 then Some o.2 else None) output).
(** What [capture_into] makes of a child. *)
Definition capture_of (spec : TaskSpec) (c : child) : result string string :=
  match c with
  | Ran output _ => Ok (stdout_of output)
  | NotStarted not_found e => Err (spawn_error (ts_command spec) not_found e)
  end.
Definition call_of (spec : TaskSpec) (c : child) : call :=
  {| cl_command := ts_command spec; cl_args := ts_args spec; cl_stdin := ts_stdin spec; cl_child := c |}.

Section ran_facts.
Context {C : Client} {K : Kernel} {M : Machine}.
Lemma ran_write_out ev : op_respects same_ran (write_out ev).
Proof. intros w r w' H. unfold write_out in H. by destruct (pipe_write _ _) as [[u|e] t]; simplify_eq. Qed.
Lemma ran_print_err s : op_respects same_ran (print_err s).
Proof. unfold print_err. destruct (is_empty s); [by apply op_respects_ret, _|apply ran_write_out]. Qed.
Lemma ran_print_out s : op_respects same_ran (print_out s).
Proof. unfold print_out. destruct (is_empty s); [by apply op_respects_ret, _|apply ran_write_out]. Qed.
Lemma ran_println_err l : op_respects same_ran (println_err l).
Proof. apply op_respects_fmt; [apply _|apply ran_print_err]. Qed.
Lemma ran_println_out l : op_respects same_ran (println_out l).
Proof. apply op_respects_fmt; [apply _|apply ran_print_out]. Qed.
Lemma ran_pump l : op_respects same_ran (pump l).
Proof.
  induction l as [|[[] d] l IH]; cbn; [by apply op_respects_ret, _|..];
    (apply op_respects_bind; [apply _| |done]); [apply ran_print_out|apply ran_print_err].
Qed.
Lemma ran_mark name fin : op_respects same_ran (mark name fin).
Proof. intros w r w' [= <- <-]. done. Qed.
Lemma ran_mark_skipped name : op_respects same_ran (mark_skipped name).
Proof. intros w r w' [= <- <-]. done. Qed.
Lemma ran_lift {A} (m : io A) : op_respects same_ran (lift m).
Proof. intros w r w' H. unfold lift in H. destruct (m _ _) as [[x t] n]. by injection H as <- <-. Qed.
(** What [in_command] adds to its body: nothing. *)
Lemma in_command_ran {A} name cmd args stdin (body : op (A * sub_end)) w r w' :
  in_command name cmd args stdin body w = (r, w') →
  ∃ w0 r0 w1, w_ran w0 = w_ran w ∧ body w0 = (r0, w1) ∧ w_ran w' = w_ran w1 ∧
    match r0 with Ok (a, _) => r = Ok a | Err e => r = Err e end.
Proof.
  unfold in_command. match goal with |- context [body ?w0] =>
    destruct (body w0) as [[[a fin]|e] w1] eqn:E end; intros [= <- <-]; eexists _, _, w1; (split_and!; [|exact E|done|done]); done.
Qed.
Lemma ran_in_command {A} name cmd args stdin (body : op (A * sub_end)) :
  op_respects same_ran body → op_respects same_ran (in_command name cmd args stdin body).
Proof. intros Hb w r w' (w0 & r0 & w1 & E0 & H & E1 & _)%in_command_ran. apply Hb in H. unfold same_ran in *. congruence. Qed.
Lemma ran_set_result x e : op_respects same_ran (set_result x e).
Proof. by intros w r w' [= <- <-]. Qed.
Lemma ran_step name f : op_respects same_ran (step name f).
Proof.
  apply ran_in_command. apply op_respects_bind; [apply _|apply ran_lift|]. intros [st|e]; [by apply op_respects_ret, _|].
  apply op_respects_bind; [apply _|apply ran_println_err|intros _].
  apply op_respects_bind; [apply _|apply ran_set_result|intros _; by apply op_respects_ret, _].
Qed.
Lemma stream_child_ran spec args stdin w r w' :
  stream_child spec args stdin w = (r, w') →
  ∃ c, w_ran w' = w_ran w ++ [{| cl_command := ts_command spec; cl_args := args; cl_stdin := stdin; cl_child := c |}] ∧
    ∀ st ex er, r = Ok (st, ex, er) → st = (if child_ok c then Success else Failed).
Proof.
  unfold stream_child. intros H. unfold mbind at 1, op_bind at 1, spawn in H.
  destruct (proc _ _ _ _ _ _) as [c t]. exists c.
  destruct c as [out code|nf e];
    (apply op_bind_run in H as [(e' & H & ->)|(u & w1 & H1 & H)]; [apply ran_pump in H || apply ran_println_err in H|
       apply ran_pump in H1 || apply ran_println_err in H1; injection H as <- <-]).
  - split; [by rewrite H|done].
  - split; [by rewrite H1|]. by intros st ex er [= <- _ _].
  - split; [by rewrite H|done].
  - split; [by rewrite H1|]. by intros st ex er [= <- _ _].
Qed.
(** A command run as its own subtask is spawned once, and its status is the
    child's. *)
Lemma run_ran name spec w r w' :
  ts_stdin_to_file spec = false → run name spec w = (r, w') →
  ∃ c, w_ran w' = w_ran w ++ [call_of spec c] ∧
    ∀ s, r = Ok s → s = (if child_ok c then Success else Failed).
Proof.
  intros Hf H. unfold run, mbind at 1, op_bind at 1, prepare_stdin in H. rewrite Hf in H.
  unfold with_temp in H. cbn [drop_temp] in H.
  match type of H with context [in_command ?a ?b ?c ?d ?e w] => destruct (in_command a b c d e w) as [r1 w1] eqn:E end.
  injection H as <- <-. apply in_command_ran in E as (w0 & r0 & w2 & E0 & Hb & E2 & Hr).
  apply op_bind_run in Hb as [(e & Hs & ->)|([[st ex] er] & w3 & Hs & Hb)].
  - apply stream_child_ran in Hs as (c & Hc & _). exists c. rewrite E2, Hc, E0. split; [done|]. by subst.
  - apply stream_child_ran in Hs as (c & Hc & Hst). injection Hb as <- <-. exists c.
    rewrite E2. cbn. rewrite Hc, E0. split; [done|]. intros s Hs. subst r1. injection Hs as <-. by eapply Hst.
Qed.
Lemma capture_into_ran spec w r w' :
  capture_into spec w = (r, w') →
  (w_ran w' = w_ran w ∧ ∃ e, r = Err e) ∨
  ∃ c, w_ran w' = w_ran w ++ [{| cl_command := ts_command spec; cl_args := ts_args spec; cl_stdin := None; cl_child := c |}] ∧
    ∀ o, r = Ok o → o = capture_of spec c.
Proof.
  unfold capture_into. intros H. apply op_bind_run in H as [(e & H & ->)|(u & w1 & H1 & H)].
  { left. split; [by apply ran_println_err in H|eauto]. }
  apply ran_println_err in H1. right. unfold mbind at 1, op_bind at 1, spawn in H.
  destruct (proc _ _ _ _ _ _) as [c t]. exists c.
  destruct c as [out code|nf e];
    (apply op_bind_run in H as [(e' & H & ->)|(v & w2 & H2 & H)];
      [apply ran_print_err in H || apply ran_println_err in H|apply ran_print_err in H2 || apply ran_println_err in H2; injection H as <- <-]).
  - split; [by rewrite H, <- H1|done].
  - split; [by rewrite H2, <- H1|]. by intros o [= <-].
  - split; [by rewrite H, <- H1|done].
  - split; [by rewrite H2, <- H1|]. by intros o [= <-].
Qed.
End ran_facts.
