(* ===== verification/Hardware.v ===== *)
(** * Network hardware and kernel modules (greendotctl/src/hardware, modules.rs)

    The vendor registry behind one interface, the inventory read off sysfs, the
    RoCE enable flow, and the [modprobe] commands. JSON parsing is a class
    parameter. *)
From Stdlib Require Import Ascii String.
From stdpp Require Import base option list strings sets gmap pretty.
From S2P Require Import Prelude Ordered Validate Types Task Fs World.
#[local] Open Scope string_scope.
#[local] Open Scope list_scope.

(** ** JSON values, as [serde_json] hands them over *)

Inductive json : Type :=
| JNull | JBool (b : bool) | JNumber (n : string) | JString (s : string)
| JArray (l : list json) | JObject (l : list (string * json)).
Class JsonParser := from_str : string → option json.
(** [Value::get] with a key, and the [as_*] projections. *)
Definition json_get (key : string) (v : json) : option json :=
  match v with
  | JObject l => kv ← head (filter (λ kv : string * json, kv.1 = key) l); Some kv.2
  | _ => None
  end.
Definition as_array (v : json) : option (list json) := match v with JArray l => Some l | _ => None end.
Definition as_string (v : json) : option string := match v with JString s => Some s | _ => None end.
Definition as_bool (v : json) : option bool := match v with JBool b => Some b | _ => None end.

(** ** Vendors *)

Inductive RoceState : Type := RoceDisabled | RoceAlreadyEnabled | RoceUnavailable.

(** What the readers see of one directory of /sys/class/net: whether [device]
    exists and the last component of its target, and the trimmed non-empty
    contents of [type], [device/vendor] and [device/device]. *)
Record nic : Type := {
  nic_name : string;
  nic_device_link : option string;
  nic_type : option string;
  nic_vendor : option string;
  nic_device : option string }.

(** The trait [NetworkHardware]. *)
Record NetworkHardware : Type := {
  hw_vendor : string;
  hw_matches : string → bool;
  hw_enableable : nic → bool;
  hw_probe : PciAddress → TaskSpec;
  hw_interpret : string → RoceState;
  hw_enable : PciAddress → list TaskSpec;
  hw_advice : nic → option (string * string);
  hw_rdma_modules : list string }.

Definition devlink (args : list string) : TaskSpec := spec_new "devlink" args.

Section hardware.
Context {J : JsonParser}.

(** The first parameter named [enable_roce] among the groups decides. *)
Definition roce_param (p : json) : bool :=
  bool_decide ((json_get "name" p ≫= as_string) = Some "enable_roce").
Definition roce_value (p : json) : option bool :=
  vs ← json_get "values" p ≫= as_array;
  v ← head vs;
  json_get "value" v ≫= as_bool.
Definition enable_roce_from_json (s : string) : option bool :=
  v ← from_str s;
  param ← json_get "param" v;
  groups ← match param with
           | JObject l => Some l.*2
           | JArray _ => Some [param]
           | _ => None
           end;
  p ← head (filter roce_param (mjoin (omap as_array groups)));
  roce_value p.
Definition Mellanox : NetworkHardware := {|
  hw_vendor := "Mellanox";
  hw_matches := λ id, bool_decide (id = "0x15b3");
  hw_enableable := λ _, true;
  hw_probe := λ pci, devlink ["dev"; "param"; "show"; "pci/" +:+ as_str pci; "-j"];
  hw_interpret := λ stdout,
    match enable_roce_from_json stdout with
    | Some false => RoceDisabled
    | Some true => RoceAlreadyEnabled
    | None => RoceUnavailable
    end;
  hw_enable := λ pci,
    [devlink ["dev"; "param"; "set"; "pci/" +:+ as_str pci; "name"; "enable_roce"; "value"; "true";
              "cmode"; "driverinit"];
     devlink ["dev"; "reload"; "pci/" +:+ as_str pci]];
  hw_advice := λ _, None;
  hw_rdma_modules := ["mlx5_ib"] |}.

Definition INTEL_IRDMA_VF_IDS : list string := ["0x1889"].
Definition IRDMA_VF_LABEL : string := "SR-IOV VF: host must load the RDMA driver before creating VFs".
Definition IRDMA_VF_DETAIL : string :=
  "This is an Intel Ethernet Adaptive virtual function. RDMA on the VF works only if the host loads the irdma driver (modprobe irdma) BEFORE the VF count is set via sriov_numvfs. VFs created before irdma is loaded come up without RDMA "
  +:+ em_dash +:+ " on the host, load irdma, then re-create the VFs.".
Definition Intel : NetworkHardware := {|
  hw_vendor := "Intel";
  hw_matches := λ id, bool_decide (id = "0x8086");
  hw_enableable := λ _, false;
  hw_probe := λ pci, devlink ["dev"; "param"; "show"; "pci/" +:+ as_str pci; "-j"];
  hw_interpret := λ _, RoceUnavailable;
  hw_enable := λ _, [];
  hw_advice := λ n,
    dev ← nic_device n;
    if one_of INTEL_IRDMA_VF_IDS dev then Some (IRDMA_VF_LABEL, IRDMA_VF_DETAIL) else None;
  hw_rdma_modules := ["irdma"] |}.
Definition REGISTRY : list NetworkHardware := [Mellanox; Intel].

(** ** Inventory *)

Definition is_ethernet (n : nic) : bool :=
  match nic_device_link n with Some _ => bool_decide (nic_type n = Some "1") | None => false end.
Definition pci_of (n : nic) : option PciAddress :=
  name ← nic_device_link n; to_option (new NtPciAddress name).
Definition vendor_impl (n : nic) : option NetworkHardware :=
  id ← nic_vendor n; head (filter (λ hw, hw_matches hw id) REGISTRY).
(** [None]: the net root is unreadable. *)
Definition inventory : Type := option (list nic).
(** What the readers see of the directory of one netdev; nothing when it is not there. *)
Definition no_nic (netdev : string) : nic :=
  {| nic_name := netdev; nic_device_link := None; nic_type := None; nic_vendor := None; nic_device := None |}.
Definition net_dir (nics : inventory) (netdev : string) : nic :=
  default (no_nic netdev) (l ← nics; head (filter (λ n, nic_name n = netdev) l)).
Definition detect (nics : inventory) (netdev : string) : option (NetworkHardware * PciAddress) :=
  let n := net_dir nics netdev in
  hw ← vendor_impl n;
  if hw_enableable hw n then pci ← pci_of n; Some (hw, pci) else None.
(** An ethernet NIC with its vendor. *)
Definition vendor_nic (n : nic) : option (nic * NetworkHardware) :=
  if is_ethernet n then hw ← vendor_impl n; Some (n, hw) else None.
Definition vendor_nics (nics : inventory) : list (nic * NetworkHardware) :=
  omap vendor_nic (default [] nics).
#[local] Instance pair_Ordered : Ordered (string * string) := λ p,
  (N.succ ∘ code <$> chars p.1) ++ [0%N] ++ (code <$> chars p.2).
Definition roce_capable (nics : inventory) : list (string * string) :=
  sort (omap (λ '(n, hw), if hw_enableable hw n then Some (nic_name n, hw_vendor hw) else None)
             (vendor_nics nics)).
Definition rdma_driver_modules (nics : inventory) : list string :=
  dedup (sort (mjoin ((λ '(_, hw), hw_rdma_modules hw) <$> vendor_nics nics))).
#[local] Instance triple_Ordered : Ordered (string * string * string) := λ p,
  (N.succ ∘ code <$> chars p.1.1) ++ [0%N] ++ (N.succ ∘ code <$> chars p.1.2) ++ [0%N] ++ (code <$> chars p.2).
Definition nic_rdma_advice (nics : inventory) : list (string * string * string) :=
  sort (omap (λ '(n, hw), '(label, detail) ← hw_advice hw n; Some (nic_name n, label, detail))
             (vendor_nics nics)).

(** ** Enabling RoCE, into the open subtask *)

Context {C : Client} {K : Kernel} {M : Machine}.

Fixpoint run_all (acc : option SubStatus) (specs : list TaskSpec) : op (option SubStatus) :=
  match specs with
  | [] => mret acc
  | spec :: specs => s ← run_into spec; run_all (Some (status_fold acc s)) specs
  end.
Definition enable_into (nics : inventory) (netdev : NetdevName) : op SubStatus :=
  match detect nics (as_str netdev) with
  | None =>
      let msg := as_str netdev +:+ " is not RoCE-capable hardware" in
      _ ← println_err [msg];
      _ ← set_result 1 (Some msg);
      mret Failed
  | Some (hw, pci) =>
      r ← capture_into (hw_probe hw pci);
      match r with
      | Err msg => _ ← set_result 1 (Some msg); mret Failed
      | Ok stdout =>
          _ ← print_out stdout;
          match hw_interpret hw stdout with
          | RoceAlreadyEnabled =>
              _ ← println_out ["RoCE is already enabled on "; as_str pci];
              mret Success
          | RoceUnavailable =>
              let msg := as_str pci +:+ " has no settable enable_roce parameter " +:+ em_dash
                         +:+ " on an SR-IOV VF, enable RoCE on the host/PF" in
              _ ← println_err [msg];
              _ ← set_result 1 (Some msg);
              mret Failed
          | RoceDisabled =>
              acc ← run_all None (hw_enable hw pci);
              mret (default Success acc)
          end
      end
  end.
Definition enable_roce (nics : inventory) (netdev : NetdevName) : op unit :=
  in_subtask ("Enable RoCE on " +:+ as_str netdev) (
    status ← enable_into nics netdev;
    mret (tt, Complete status)).
End hardware.

(** ** Kernel modules (modules.rs) *)

Definition modprobe_names (m : KernelModule) : list string :=
  match m with
  | NvmetLoop => ["nvmet"; "nvme_loop"]
  | NvmetTcp => ["nvmet"; "nvmet_tcp"]
  | NvmetRdma => ["nvmet"; "nvmet_rdma"]
  | Iscsi => ["target_core_mod"; "iscsi_target_mod"]
  | Iser => ["ib_isert"]
  | Rxe => ["rdma_rxe"]
  | Rpcrdma => ["rpcrdma"]
  end.
Definition rides_hardware_rdma (m : KernelModule) : bool :=
  match m with NvmetRdma | Iser | Rpcrdma => true | _ => false end.
Definition transport_module (t : Transport) : KernelModule :=
  match t with Rdma => NvmetRdma | Tcp => NvmetTcp | Loop => NvmetLoop end.
Definition STARTUP_MODULES : list KernelModule :=
  [NvmetLoop; NvmetTcp; NvmetRdma; Iscsi; Iser; Rpcrdma].
(** The closure [push] of [ensure]. *)
Definition push_name (names : list string) (name : string) : list string :=
  if one_of names name then names else names ++ [name].
Definition ensure (modules : list KernelModule) (nic_rdma_modules : list string) : option TaskSpec :=
  let names := foldl (λ names m, foldl push_name names (modprobe_names m)) ["-a"] modules in
  let names := if existsb rides_hardware_rdma modules
               then foldl push_name names nic_rdma_modules else names in
  if (1 <? length names)%nat then Some (spec_new "modprobe" names) else None.

Definition rxe_link_add (netdev : NetdevName) : TaskSpec :=
  spec_new "rdma" ["link"; "add"; "rxe-" +:+ as_str netdev; "type"; "rxe"; "netdev"; as_str netdev].
Definition rdma_resources : TaskSpec := spec_new "rdma" ["-j"; "resource"; "show"; "cm_id"].
Section modules.
Context {C : Client} {K : Kernel} {M : Machine}.
Definition rxe_add (netdev : NetdevName) : op unit :=
  loaded ← match ensure [Rxe] [] with
           | Some spec => s ← run "Load rxe module" spec; mret (bool_decide (s = Success))
           | None => mret true
           end;
  if (loaded : bool) then
    _ ← run ("Add Soft-RoCE link on " +:+ as_str netdev) (rxe_link_add netdev);
    mret tt
  else mret tt.
End modules.

(** ** Facts *)

Lemma push_name_spec names x : ∀ y, y ∈ push_name names x ↔ y ∈ names ∨ y = x.
Proof.
  intros y. unfold push_name, one_of. case_bool_decide; rewrite ?elem_of_app, ?list_elem_of_singleton; naive_solver.
Qed.
Lemma push_name_nodup names x : NoDup names → NoDup (push_name names x).
Proof.
  intros H. unfold push_name, one_of. case_bool_decide; [done|]. apply NoDup_app.
  split_and!; [done|set_solver|apply NoDup_singleton].
Qed.
Lemma push_name_head a l x : ∃ l', push_name (a :: l) x = a :: l'.
Proof. unfold push_name. destruct (one_of _ _); by eexists. Qed.
Lemma push_names names l :
  (∀ y, y ∈ foldl push_name names l ↔ y ∈ names ∨ y ∈ l) ∧
  (NoDup names → NoDup (foldl push_name names l)) ∧
  (head names = head (foldl push_name names l) ∨ names = []).
Proof.
  revert names. induction l as [|x l IH]; intros names; cbn.
  { split_and!; [set_solver|done|by left]. }
  destruct (IH (push_name names x)) as (H1 & H2 & H3). split_and!.
  - intros y. rewrite H1, push_name_spec. set_solver.
  - intros Hn. apply H2. by apply push_name_nodup.
  - destruct names as [|a names]; [by right|left]. destruct (push_name_head a names x) as [l' E].
    rewrite E in *. by destruct H3.
Qed.
Lemma ensure_plain ms nics spec : ensure ms nics = Some spec → ts_stdin_to_file spec = false.
Proof. unfold ensure. destruct (_ <? _)%nat; [by intros [= <-]|done]. Qed.
Lemma module_names names ms :
  let out := foldl (λ names m, foldl push_name names (modprobe_names m)) names ms in
  (∀ y, y ∈ out ↔ y ∈ names ∨ ∃ m, m ∈ ms ∧ y ∈ modprobe_names m) ∧
  (NoDup names → NoDup out) ∧ (head names = head out ∨ names = []).
Proof.
  revert names. induction ms as [|m ms IH]; intros names; cbn.
  { split_and!; [set_solver|done|by left]. }
  destruct (push_names names (modprobe_names m)) as (H1 & H2 & H3).
  destruct (IH (foldl push_name names (modprobe_names m))) as (I1 & I2 & I3). split_and!.
  - intros y. rewrite I1, H1. set_solver.
  - eauto.
  - destruct names as [|a names]; [by right|left]. destruct H3 as [H3|]; [|done]. destruct I3 as [I3|I3]; [congruence|].
    rewrite I3 in H3. done.
Qed.
