(* ===== verification/Commands.v ===== *)
(** * Commands the daemon runs (greendotctl/src/zfs.rs, lvm.rs, partition.rs, net.rs,
    smart.rs, install.rs, fs.rs, and the dispatch table of exec.rs)

    One definition per command builder, the operations made of several commands,
    and the table that gives a single-command request its command. *)
From Stdlib Require Import Ascii String.
From stdpp Require Import base option list strings sets gmap pretty.
From S2P Require Import Prelude Ordered Validate IpAddr Types Wire Ops Task Fs World Hardware.
#[local] Open Scope string_scope.
#[local] Open Scope list_scope.
#[local] Open Scope N_scope.

(** ** ZFS (zfs.rs) *)

Definition zfs_spec (args : list string) : TaskSpec := spec_new "zfs" args.
Definition zpool_spec (args : list string) : TaskSpec := spec_new "zpool" args.
Definition opt_prop `{ZfsValue A} (v : option A) : option (string * string) :=
  (λ a, (PROP (A:=A), keyword a)) <$> v.
Definition zvol_create (z : ZvolCreate) : TaskSpec :=
  let props := [opt_prop (zvol_create_compression z); opt_prop (zvol_create_sync z);
                opt_prop (zvol_create_volmode z); opt_prop (zvol_create_primarycache z);
                opt_prop (zvol_create_logbias z)] in
  zfs_spec (["create"]
    ++ (if zvol_create_sparse z then ["-s"] else [])
    ++ (match zvol_create_volblocksize z with
        | Some vbs => ["-o"; "volblocksize=" +:+ show_uint vbs] | None => [] end)
    ++ mjoin ((λ '(prop, value), ["-o"; prop +:+ "=" +:+ value]) <$> omap id props)
    ++ ["-V"; show_uint (zvol_create_size z); as_str (zvol_create_dataset z)]).
Definition zvol_delete (dataset : DatasetName) : TaskSpec := zfs_spec ["destroy"; as_str dataset].
Definition zvol_resize (dataset : DatasetName) (new_size : u64) : TaskSpec :=
  zfs_spec ["set"; "volsize=" +:+ show_uint new_size; as_str dataset].
Definition at_snap (dataset : DatasetName) (snap : SnapName) : string :=
  as_str dataset +:+ "@" +:+ as_str snap.
Definition snapshot_create (dataset : DatasetName) (snap : SnapName) : TaskSpec :=
  zfs_spec ["snapshot"; at_snap dataset snap].
Definition snapshot_destroy (dataset : DatasetName) (snap : SnapName) : TaskSpec :=
  zfs_spec ["destroy"; at_snap dataset snap].
Definition zfs_clone (dataset : DatasetName) (snap : SnapName) (target : DatasetName) : TaskSpec :=
  zfs_spec ["clone"; at_snap dataset snap; as_str target].
Definition option_arg (o : option string) : list string := match o with Some s => [s] | None => [] end.
Definition pool_create (name : PoolName) (vdev : VdevLayout) (devices : list DevicePath) (ashift : option u8) : TaskSpec :=
  zpool_spec (["create"]
    ++ (match ashift with Some a => ["-o"; "ashift=" +:+ show_uint a] | None => [] end)
    ++ [as_str name] ++ option_arg (layout_keyword vdev) ++ strs devices).
Definition pool_vdev_add (pool : PoolName) (class : VdevClass) (layout : VdevLayout) (devices : list DevicePath) : TaskSpec :=
  zpool_spec (["add"; as_str pool] ++ option_arg (class_keyword class)
    ++ option_arg (layout_keyword layout) ++ strs devices).
Definition pool_device_attach (pool : PoolName) (target : VdevTarget) (device : DevicePath) : TaskSpec :=
  zpool_spec ["attach"; as_str pool; as_str target; as_str device].
Definition pool_device_remove (pool : PoolName) (target : VdevTarget) : TaskSpec :=
  zpool_spec ["remove"; as_str pool; as_str target].
Definition pool_wait_remove (pool : PoolName) : TaskSpec := zpool_spec ["wait"; "-t"; "remove"; as_str pool].
Definition pool_device_detach (pool : PoolName) (device : DevicePath) : TaskSpec :=
  zpool_spec ["detach"; as_str pool; as_str device].
Definition pool_device_online (pool : PoolName) (device : DevicePath) : TaskSpec :=
  zpool_spec ["online"; as_str pool; as_str device].
Definition zfs_fs_create (dataset : DatasetName) (mountpoint : option MountPoint) : TaskSpec :=
  zfs_spec (["create"]
    ++ (match mountpoint with Some mp => ["-o"; "mountpoint=" +:+ as_str mp] | None => [] end)
    ++ [as_str dataset]).
Definition zfs_set_mountpoint (dataset : DatasetName) (mountpoint : MountPoint) : TaskSpec :=
  zfs_spec ["set"; "mountpoint=" +:+ as_str mountpoint; as_str dataset].
Definition zfs_set_compression (dataset : DatasetName) (compression : option Compression) : TaskSpec :=
  match compression with
  | Some c => zfs_spec ["set"; PROP (A:=Compression) +:+ "=" +:+ keyword c; as_str dataset]
  | None => zfs_spec ["inherit"; PROP (A:=Compression); as_str dataset]
  end.
Definition zfs_mount (dataset : DatasetName) : TaskSpec := zfs_spec ["mount"; as_str dataset].
Definition zfs_unmount (dataset : DatasetName) : TaskSpec := zfs_spec ["unmount"; as_str dataset].
Definition zfs_destroy (dataset : DatasetName) (recursive : bool) : TaskSpec :=
  zfs_spec (["destroy"] ++ (if recursive then ["-r"] else []) ++ [as_str dataset]).

(** ** LVM (lvm.rs) *)

Definition lvm_report (what : LvmReport) : TaskSpec :=
  let '(cmd, columns) := match what with
    | Vgs => ("vgs", "vg_name,vg_size,vg_free,pv_count,lv_count")
    | Lvs => ("lvs", "vg_name,lv_name,lv_size,lv_attr,pool_lv,data_percent")
    | Pvs => ("pvs", "pv_name,vg_name,pv_size,pv_free")
    end in
  spec_new cmd ["--reportformat"; "json"; "--units"; "b"; "--nosuffix"; "-o"; columns].
Definition vg_create (name : VgName) (devices : list DevicePath) : TaskSpec :=
  spec_new "vgcreate" (as_str name :: strs devices).
Definition vg_extend (vg : VgName) (device : DevicePath) : TaskSpec :=
  spec_new "vgextend" [as_str vg; as_str device].
Definition vg_reduce (vg : VgName) (device : DevicePath) : TaskSpec :=
  spec_new "vgreduce" [as_str vg; as_str device].
Definition vg_remove (vg : VgName) : TaskSpec := spec_new "vgremove" [as_str vg].
Definition bytes_arg (size : u64) : string := show_uint size +:+ "B".
Definition lv_arg (vg : VgName) (name : LvName) : string := as_str vg +:+ "/" +:+ as_str name.
Definition lv_create (vg : VgName) (name : LvName) (size : u64) : TaskSpec :=
  spec_new "lvcreate" ["-y"; "-n"; as_str name; "-L"; bytes_arg size; as_str vg].
Definition thin_pool_create (vg : VgName) (name : LvName) (size : u64) : TaskSpec :=
  spec_new "lvcreate" ["-y"; "--type"; "thin-pool"; "-L"; bytes_arg size; "-n"; as_str name; as_str vg].
Definition thin_lv_create (vg : VgName) (pool name : LvName) (virtual_size : u64) : TaskSpec :=
  spec_new "lvcreate" ["-y"; "--type"; "thin"; "--thinpool"; as_str pool; "-V"; bytes_arg virtual_size;
                       "-n"; as_str name; as_str vg].
Definition lv_resize (vg : VgName) (name : LvName) (new_size : u64) : TaskSpec :=
  spec_new "lvextend" ["-L"; bytes_arg new_size; lv_arg vg name].
Definition lv_shrink (vg : VgName) (name : LvName) (new_size : u64) : TaskSpec :=
  spec_new "lvreduce" ["-f"; "-L"; bytes_arg new_size; lv_arg vg name].
Definition lv_rename (vg : VgName) (name new_name : LvName) : TaskSpec :=
  spec_new "lvrename" [as_str vg; as_str name; as_str new_name].
Definition lv_delete (vg : VgName) (name : LvName) : TaskSpec :=
  spec_new "lvremove" ["-y"; lv_arg vg name].

(** ** Partitions (partition.rs) *)

Definition dev (device : BlockDev) : string := "/dev/" +:+ as_str device.
Definition table_create (disk : BlockDev) : TaskSpec :=
  with_stdin "sfdisk" ["--wipe"; "always"; dev disk] ("label: gpt" +:+ newline).
Definition partition_create (disk : BlockDev) (start_sector size_sectors : option u64) (label : PartLabel) : TaskSpec :=
  let fields := (match start_sector with Some n => ["start=" +:+ show_uint n] | None => [] end)
             ++ (match size_sectors with Some n => ["size=" +:+ show_uint n] | None => [] end)
             ++ ["name=" +:+ as_str label] in
  with_stdin "sfdisk" ["--append"; dev disk] (join ", " fields +:+ newline).
Definition partition_delete (disk : BlockDev) (number : u32) : TaskSpec :=
  spec_new "sfdisk" ["--delete"; dev disk; show_uint number].
Definition partition_resize (disk : BlockDev) (number : u32) (size_sectors : u64) : TaskSpec :=
  with_stdin "sfdisk" ["-N"; show_uint number; dev disk] ("size=" +:+ show_uint size_sectors +:+ newline).

(** ** Network, SMART, packages *)

Definition set_mtu (netdev : NetdevName) (mtu : u32) : TaskSpec :=
  spec_new "ip" ["link"; "set"; "dev"; as_str netdev; "mtu"; show_uint mtu].
Definition smart_report (device : BlockDev) : TaskSpec := spec_new "smartctl" ["-x"; dev device].
Definition health_argv (device : BlockDev) : list string := ["-H"; "-A"; "-j"; dev device].

Inductive PkgFamily : Type := Debian | UnsupportedOs.
Record OsInfo : Type := { os_family : PkgFamily; os_pretty : string }.
Definition install (packages : list PackageName) (os : OsInfo) : result string (option TaskSpec) :=
  match packages with
  | [] => Ok None
  | _ =>
      let names := strs packages in
      match os_family os with
      | Debian => Ok (Some (add_env (spec_new "apt-get" (["install"; "-y"] ++ names)) "DEBIAN_FRONTEND" "noninteractive"))
      | UnsupportedOs =>
          Err ("automatic install is only supported on Debian/Ubuntu (detected: " +:+ os_pretty os
               +:+ "); install these packages with your distribution's package manager: " +:+ join " " names)
      end
  end.
(** [parse_os_release] (greendot-proto/src/os.rs). *)
Definition is_debian (id : string) : bool := one_of ["debian"; "ubuntu"] id.
Definition strip_dquote_end (s : string) : option string :=
  if ends_with_char (ascii_of_N 34) s then Some (String.substring 0 (String.length s - 1) s) else None.
Definition unquote (s : string) : string :=
  default s (strip_prefix dquote s ≫= strip_dquote_end).
Definition os_line (acc : string * string * string) (line : string) : string * string * string :=
  let '(id, id_like, pretty) := acc in
  match split_once "=" (trim line) with
  | None => acc
  | Some (key, val) =>
      let val := unquote (trim val) in
      if bool_decide (trim key = "ID") then (val, id_like, pretty)
      else if bool_decide (trim key = "ID_LIKE") then (id, val, pretty)
      else if bool_decide (trim key = "PRETTY_NAME") then (id, id_like, val)
      else acc
  end.
Definition parse_os_release (contents : string) : OsInfo :=
  let '(id, id_like, pretty) := foldl os_line ("", "", "") (lines contents) in
  let debian := is_debian id || existsb is_debian (split_whitespace id_like) in
  {| os_family := if debian then Debian else UnsupportedOs;
     os_pretty := if nonempty pretty then pretty else if nonempty id then id else "unknown" |}.
Definition os_detect (t : tree) : OsInfo :=
  match read_to_string t ["etc"; "os-release"] with
  | Some c => parse_os_release c
  | None =>
      match read_to_string t ["usr"; "lib"; "os-release"] with
      | Some c => parse_os_release c
      | None => {| os_family := UnsupportedOs; os_pretty := "unknown" |}
      end
  end.

(** ** SMART health (smart.rs) *)

(** [v\[key\]]: null when missing. *)
Definition json_at (key : string) (v : json) : json := default JNull (json_get key v).
(** [as_i64]: a number written as an integer in range. *)
Definition as_i64 (v : json) : option Z :=
  match v with
  | JNumber n =>
      z ← match n with
          | String "-" r => if is_empty r then None else (λ x, - Z.of_N x)%Z <$> parse_digits 0 r
          | _ => if is_empty n then None else Z.of_N <$> parse_digits 0 n
          end;
      if ((- 2 ^ 63 <=? z) && (z <? 2 ^ 63))%Z then Some z else None
  | _ => None
  end.
Definition to_i32 (z : Z) : option Z := if ((- 2 ^ 31 <=? z) && (z <? 2 ^ 31))%Z then Some z else None.
Definition parse_health {J : JsonParser} (stdout : string) : option bool * option Z :=
  match from_str stdout with
  | None => (None, None)
  | Some v => (as_bool (json_at "passed" (json_at "smart_status" v)),
               as_i64 (json_at "current" (json_at "temperature" v)) ≫= to_i32)
  end.

(** ** Operations made of several commands *)

Section operations.
Context {C : Client} {K : Kernel} {M : Machine} {J : JsonParser}.

Definition succeeded (s : SubStatus) : bool := bool_decide (s = Success).
Definition run_spec (spec : TaskSpec) : op unit := _ ← run (ts_command spec) spec; mret tt.
Definition pool_device_remove_and_wait (pool : PoolName) (target : VdevTarget) : op unit :=
  s ← run ("Remove " +:+ as_str target +:+ " from " +:+ as_str pool) (pool_device_remove pool target);
  if negb (succeeded s) then mret tt else
  _ ← run ("Wait for " +:+ as_str pool +:+ " device evacuation") (pool_wait_remove pool);
  mret tt.

(** Restoring a snapshot, with its provenance in user properties. *)
Definition RESTORE_REQUEST : string := "io.greendot.csi:restore-request".
Definition RESTORE_SOURCE : string := "io.greendot.csi:restore-source".
Definition RESTORE_SIZE : string := "io.greendot.csi:restore-size".
Definition rows_of (output : string) : list (list string) := split (ascii_of_N 9) <$> lines output.
Definition has_row (rows : list (list string)) (row : list string) : bool :=
  existsb (λ r, bool_decide (r = row)) rows.
Definition restore_size (output request_id source size : string) : option u64 :=
  let rows := rows_of output in
  if negb (has_row rows [RESTORE_REQUEST; request_id; "local"]
           && has_row rows [RESTORE_SOURCE; source; "local"]
           && has_row rows [RESTORE_SIZE; size; "local"]) then None
  else if negb (existsb (λ r, match r with
                              | [p; v; _] => bool_decide (p = "origin") && bool_decide (v = source)
                              | _ => false end) rows) then None
  else
  row ← List.find (λ r, match r with [p; _; _] => bool_decide (p = "volsize") | _ => false end) rows;
  v ← row !! 1%nat;
  parse_uint 64 v.
Definition restore_probe (target : DatasetName) : TaskSpec :=
  zfs_spec ["get"; "-Hp"; "-o"; "property,value,source";
            RESTORE_REQUEST +:+ "," +:+ RESTORE_SOURCE +:+ "," +:+ RESTORE_SIZE +:+ ",origin,volsize"; as_str target].
Definition restore_create (source request_id size : string) (target : DatasetName) : TaskSpec :=
  zfs_spec ["clone"; "-o"; RESTORE_REQUEST +:+ "=" +:+ request_id; "-o"; RESTORE_SOURCE +:+ "=" +:+ source;
            "-o"; RESTORE_SIZE +:+ "=" +:+ size; source; as_str target].
Definition restore_clone (dataset : DatasetName) (snap : SnapName) (target : DatasetName)
    (new_size : option u64) (request_id : string)
    (run : TaskSpec → op SubStatus) (read : TaskSpec → op string) : op unit :=
  let source := at_snap dataset snap in
  let size := match new_size with Some n => show_uint n | None => "" end in
  let probe := restore_probe target in
  output ← read probe;
  found ← (if is_empty (trim output) then
             s ← run (restore_create source request_id size target);
             if negb (succeeded s) then mret None else
             output ← read probe; mret (Some output)
           else mret (Some output));
  match found with
  | None => mret tt
  | Some output =>
      match restore_size output request_id source size with
      | Some current_size =>
          match new_size with
          | Some n => if raw current_size <? raw n
                      then _ ← run (zvol_resize target n); mret tt else mret tt
          | None => mret tt
          end
      | None => mark "Verify restore provenance"
                  (Fail "restore conflict: target has different or unverified request, source, or capacity")
      end
  end.
Definition zfs_clone_and_resize (c : ZfsClone) : op unit :=
  let target := zfs_clone_target c in
  match zfs_clone_restore_request_id c with
  | Some request_id =>
      restore_clone (zfs_clone_dataset c) (zfs_clone_snap c) target (zfs_clone_new_size c) request_id
        (run "Restore volume")
        (λ spec, in_subtask "Read restore provenance" (
           output ← capture_into spec;
           mret (match output with Ok s => s | Err _ => "" end, Complete Success)))
  | None =>
      s ← run ("Clone " +:+ at_snap (zfs_clone_dataset c) (zfs_clone_snap c) +:+ " to " +:+ as_str target)
            (zfs_clone (zfs_clone_dataset c) (zfs_clone_snap c) target);
      if negb (succeeded s) then mret tt else
      match zfs_clone_new_size c with
      | Some size => _ ← run ("Resize " +:+ as_str target) (zvol_resize target size); mret tt
      | None => mret tt
      end
  end.

Definition install_packages (packages : list PackageName) : op unit :=
  os ← op_get os_detect;
  match install packages os with
  | Ok (Some spec) => run_spec spec
  | Ok None => mark "Apply" (Complete Success)
  | Err msg => mark "install" (Fail msg)
  end.

(** ** Shrinking a partition (fs.rs) *)

Definition ends_in_digit (s : string) : bool :=
  match last (chars s) with Some c => is_ascii_digit c | None => false end.
Definition part_name (disk : BlockDev) (number : u32) : string :=
  if ends_in_digit (as_str disk) then as_str disk +:+ "p" +:+ show_uint number
  else as_str disk +:+ show_uint number.
Record Probe : Type := { pr_fstype : option string; pr_mounted : bool }.
Definition lsblk (device : string) : TaskSpec := spec_new "lsblk" ["-J"; "-o"; "FSTYPE,MOUNTPOINT"; device].
Definition probe_text (dev : json) (key : string) : option string :=
  s ← json_get key dev ≫= as_string; if is_empty s then None else Some s.
Definition parse_probe (s : string) : option Probe :=
  v ← from_str s;
  l ← json_get "blockdevices" v ≫= as_array;
  dev ← head l;
  Some {| pr_fstype := probe_text dev "fstype";
          pr_mounted := match probe_text dev "mountpoint" with Some _ => true | None => false end |}.
Inductive FsPlan : Type := PlanExt | PlanBtrfs | PlanRaw.
Definition plan_fs (fstype : option string) (mounted : bool) : result string FsPlan :=
  match fstype with
  | None => Ok PlanRaw
  | Some t =>
      if one_of ["ext2"; "ext3"; "ext4"] t && negb mounted then Ok PlanExt
      else if one_of ["btrfs"] t && negb mounted then Ok PlanBtrfs
      else if one_of ["ext2"; "ext3"; "ext4"; "btrfs"] t
      then Err ("mounted " +:+ em_dash +:+ " unmount it first")
      else if one_of ["xfs"] t then Err "XFS cannot be shrunk"
      else if one_of ["zfs_member"] t then Err "part of a ZFS pool"
      else if one_of ["LVM2_member"] t then Err "part of an LVM volume group"
      else Err "this filesystem cannot be shrunk"
  end.
Definition fsck (device : string) : TaskSpec := spec_new "e2fsck" ["-f"; "-y"; device].
Definition resize_ext (device : string) (new_size_sectors : N) : TaskSpec :=
  spec_new "resize2fs" [device; pretty new_size_sectors +:+ "s"].
Definition btrfs_mount (device mount_path : string) : TaskSpec :=
  spec_new "mount" ["--mkdir"; "-t"; "btrfs"; device; mount_path].
Definition btrfs_resize (mount_path : string) (new_size : N) : TaskSpec :=
  spec_new "btrfs" ["filesystem"; "resize"; pretty new_size; mount_path].
Definition umount (mount_path : string) : TaskSpec := spec_new "umount" [mount_path].
(** [MountGuard]: [body] returns whether the guard is still armed; it is when the
    sink fails. *)
Definition mount_guard {A} (mount_path : string) (body : op (A * bool)) : op A := λ w,
  match body w with
  | (Ok (a, false), w) => (Ok a, w)
  | (Ok (a, true), w) => (Ok a, (spawn "umount" [mount_path] None [] w).2)
  | (Err e, w) => (Err e, (spawn "umount" [mount_path] None [] w).2)
  end.
(** The probe step: the plan, or [None] when it was refused. *)
Definition probe_step (device : string) : op (option FsPlan) :=
  in_subtask ("Probe " +:+ device) (
    r ← capture_into (lsblk device);
    let plan := match r with
                | Ok json => match parse_probe json with
                             | Some p => plan_fs (pr_fstype p) (pr_mounted p)
                             | None => Err "could not read its filesystem state"
                             end
                | Err msg => Err msg
                end in
    mret match plan with
         | Ok p => (Some p, Complete Success)
         | Err reason => (None, Fail ("cannot shrink " +:+ device +:+ ": " +:+ reason))
         end).
Definition fs_bytes (size_sectors : u64) : N := saturating_sub (saturating_mul 64 (raw size_sectors) 512) (2 ^ 20).
(** The filesystem step: whether the partition may be resized. *)
Definition shrink_fs (plan : FsPlan) (name device : string) (size_sectors : u64) : op bool :=
  match plan with
  | PlanRaw => _ ← mark_skipped "Shrink filesystem (none present)"; mret true
  | PlanExt =>
      checked ← run ("Check filesystem on " +:+ device) (fsck device);
      if negb (succeeded checked) then mret false else
      s ← run ("Shrink filesystem on " +:+ device) (resize_ext device (fs_bytes size_sectors / 512));
      mret (succeeded s)
  | PlanBtrfs =>
      let mp := "/run/greendotrdma/btrfs-resize-" +:+ name in
      s ← run ("Mount " +:+ device) (btrfs_mount device mp);
      if negb (succeeded s) then mret false else
      mount_guard mp (
        s ← run ("Shrink filesystem on " +:+ device) (btrfs_resize mp (fs_bytes size_sectors));
        let resized := succeeded s in
        s ← run ("Unmount " +:+ device) (umount mp);
        if succeeded s then mret (resized, false) else mret (false, true))
  end.
Definition shrink (disk : BlockDev) (number : u32) (size_sectors : u64) : op unit :=
  let name := part_name disk number in
  let device := "/dev/" +:+ name in
  plan ← probe_step device;
  match plan with
  | None => mret tt
  | Some plan =>
      fits ← shrink_fs plan name device size_sectors;
      if negb fits then mret tt else
      _ ← run ("Resize partition " +:+ show_uint number +:+ " on " +:+ as_str disk)
            (partition_resize disk number size_sectors);
      mret tt
  end.
End operations.

(** ** Dispatch of the single-command requests ([spec_op!]) *)

Definition spec_of (r : request) : option TaskSpec :=
  match r with
  | RZvolCreate o => Some (zvol_create o)
  | RZvolDelete o => Some (zvol_delete (zvol_delete_dataset o))
  | RZvolResize o => Some (zvol_resize (zvol_resize_dataset o) (zvol_resize_new_size o))
  | RSnapshotCreate o => Some (snapshot_create (snapshot_create_dataset o) (snapshot_create_snap o))
  | RSnapshotDestroy o => Some (snapshot_destroy (snapshot_destroy_dataset o) (snapshot_destroy_snap o))
  | RZfsFsCreate o => Some (zfs_fs_create (zfs_fs_create_dataset o) (zfs_fs_create_mountpoint o))
  | RZfsSetMountpoint o => Some (zfs_set_mountpoint (zfs_set_mountpoint_dataset o) (zfs_set_mountpoint_mountpoint o))
  | RZfsSetCompression o => Some (zfs_set_compression (zfs_set_compression_dataset o) (zfs_set_compression_compression o))
  | RZfsMount o => Some (zfs_mount (zfs_mount_dataset o))
  | RZfsUnmount o => Some (zfs_unmount (zfs_unmount_dataset o))
  | RZfsDestroy o => Some (zfs_destroy (zfs_destroy_dataset o) (zfs_destroy_recursive o))
  | RPoolCreate o => Some (pool_create (pool_create_name o) (pool_create_vdev o) (pool_create_devices o) (pool_create_ashift o))
  | RPoolVdevAdd o => Some (pool_vdev_add (pool_vdev_add_pool o) (pool_vdev_add_class o) (pool_vdev_add_layout o) (pool_vdev_add_devices o))
  | RPoolDeviceAttach o => Some (pool_device_attach (pool_device_attach_pool o) (pool_device_attach_target o) (pool_device_attach_device o))
  | RPoolDeviceDetach o => Some (pool_device_detach (pool_device_detach_pool o) (pool_device_detach_device o))
  | RPoolDeviceOnline o => Some (pool_device_online (pool_device_online_pool o) (pool_device_online_device o))
  | RPartitionTableCreate o => Some (table_create (partition_table_create_disk o))
  | RPartitionCreate o => Some (partition_create (partition_create_disk o) (partition_create_start_sector o)
                                 (partition_create_size_sectors o) (partition_create_label o))
  | RPartitionDelete o => Some (partition_delete (partition_delete_disk o) (partition_delete_number o))
  | RLvmReportOp o => Some (lvm_report (lvm_report_op_what o))
  | RVgCreate o => Some (vg_create (vg_create_name o) (vg_create_devices o))
  | RVgExtend o => Some (vg_extend (vg_extend_vg o) (vg_extend_device o))
  | RVgReduce o => Some (vg_reduce (vg_reduce_vg o) (vg_reduce_device o))
  | RVgRemove o => Some (vg_remove (vg_remove_vg o))
  | RLvCreate o => Some (lv_create (lv_create_vg o) (lv_create_name o) (lv_create_size o))
  | RThinPoolCreate o => Some (thin_pool_create (thin_pool_create_vg o) (thin_pool_create_name o) (thin_pool_create_size o))
  | RThinLvCreate o => Some (thin_lv_create (thin_lv_create_vg o) (thin_lv_create_pool o) (thin_lv_create_name o)
                              (thin_lv_create_virtual_size o))
  | RLvResize o => Some (lv_resize (lv_resize_vg o) (lv_resize_name o) (lv_resize_new_size o))
  | RLvShrink o => Some (lv_shrink (lv_shrink_vg o) (lv_shrink_name o) (lv_shrink_new_size o))
  | RLvRename o => Some (lv_rename (lv_rename_vg o) (lv_rename_name o) (lv_rename_new_name o))
  | RLvDelete o => Some (lv_delete (lv_delete_vg o) (lv_delete_name o))
  | RSmartReport o => Some (smart_report (smart_report_device o))
  | RSetMtu o => Some (set_mtu (set_mtu_netdev o) (set_mtu_mtu o))
  | RUnit OpRdmaResources => Some rdma_resources
  | _ => None
  end.
