(* ===== verification/CommandsFacts.v ===== *)
(** * Theorems about the commands (greendotctl/src/zfs.rs, lvm.rs, partition.rs, fs.rs)

    No request can smuggle an option into a command; a
    partition is resized only after its filesystem fits; a restore grows only a
    volume whose provenance it verified. *)
From Stdlib Require Import Ascii String.
From stdpp Require Import base option list strings sets gmap pretty.
From S2P Require Import Prelude Ordered Validate IpAddr Types Wire Ops Task Fs World Hardware Commands.
#[local] Open Scope string_scope.
#[local] Open Scope list_scope.
#[local] Open Scope N_scope.

(** ** Arguments *)

(** The programs a single-command request can run. *)
Definition programs : list string :=
  ["zfs"; "zpool"; "vgs"; "lvs"; "pvs"; "vgcreate"; "vgextend"; "vgreduce"; "vgremove"; "lvcreate"; "lvextend";
   "lvreduce"; "lvrename"; "lvremove"; "sfdisk"; "smartctl"; "ip"; "rdma"].
(** Characters of an argument: letters, digits, and [_ . : + - / = , @]. *)
Definition arg_char (c : ascii) : bool := word_char c || char_in "=,@" c.
(** An argument a command can only read as an operand or as the value of the option before it. *)
Definition operand (a : string) : Prop := starts_with "-" a = false ∧ all_chars arg_char a.
Definition dashed (args : list string) : list string := filter (λ a, Is_true (starts_with "-" a)) args.
(** The options among the arguments are [opts], in that order. *)
Definition argv_ok (opts args : list string) : Prop :=
  dashed args = opts ∧ Forall (λ a, Is_true (all_chars arg_char a)) args.
Lemma argv_nil : argv_ok [] [].
Proof. by split. Qed.
Lemma argv_option w opts args :
  starts_with "-" w && all_chars arg_char w = true → argv_ok opts args → argv_ok (w :: opts) (w :: args).
Proof.
  intros [Hw Hc]%andb_true_iff [Ho Ha]. split; [|constructor; [by rewrite Hc|done]].
  unfold dashed. rewrite filter_cons_True; [by rewrite <- Ho|]. by rewrite Hw.
Qed.
Lemma argv_operand a opts args : operand a → argv_ok opts args → argv_ok opts (a :: args).
Proof.
  intros [Hw Hc] [Ho Ha]. split; [|by constructor]. unfold dashed.
  rewrite filter_cons_False; [done|]. by apply Is_true_false.
Qed.
Lemma argv_app o1 o2 l1 l2 : argv_ok o1 l1 → argv_ok o2 l2 → argv_ok (o1 ++ o2) (l1 ++ l2).
Proof. intros [<- H1] [<- H2]. split; [apply filter_app|by apply Forall_app_2]. Qed.
Lemma argv_operands l : Forall operand l → argv_ok [] l.
Proof. induction 1; [apply argv_nil|by apply argv_operand]. Qed.
Lemma argv_operands_app l opts args : Forall operand l → argv_ok opts args → argv_ok opts (l ++ args).
Proof. intros Hl Ha. by apply (argv_app []); [apply argv_operands|]. Qed.

Lemma value_chars {k} (v : vstring k) : k ≠ NtNfsClient → all_chars arg_char (as_str v).
Proof. intros Hk. eapply all_chars_incl; [by apply (validator_word k), (raw_ok v)|done]. Qed.
Lemma arg_number (n : N) : all_chars arg_char (pretty n).
Proof. eapply all_chars_incl; [apply pretty_N_digits|done]. Qed.
Lemma starts_number (n : N) s : starts_with "-" (pretty n +:+ s) = false.
Proof.
  apply Is_true_false. pose proof (pretty_N_digits n) as H. pose proof (pretty_N_nonempty n) as Hn.
  destruct (pretty n) as [|c r]; [done|].
  unfold all_chars in H. cbn in H. bool_split. intros [x E]%starts_with_spec. cbn in E. by simplify_eq.
Qed.
Lemma arg_chars_app a b : all_chars arg_char a → all_chars arg_char b → all_chars arg_char (a +:+ b).
Proof. intros. rewrite all_chars_app. by bool_split. Qed.
(** A word, then a value: the word decides whether it is an option. *)
Lemma operand_prefix p s :
  starts_with "-" p = false → p ≠ "" → all_chars arg_char p → all_chars arg_char s → operand (p +:+ s).
Proof.
  intros Hp Hn H1 H2. split; [|by apply arg_chars_app]. apply Is_true_false. intros Hs.
  destruct p as [|c p]; [done|]. apply starts_with_spec in Hs as [r E]. cbn in E. injection E as -> _.
  apply Is_true_false in Hp. apply Hp, starts_with_spec. by exists p.
Qed.
Lemma operand_word a : negb (starts_with "-" a) && all_chars arg_char a = true → operand a.
Proof. intros [H1%negb_true_iff H2]%andb_true_iff. split; [done|by rewrite H2]. Qed.
(** The values of a request that can stand for an operand. *)
Definition argument_kind (k : newtype) : bool :=
  match k with NtNetdevName | NtNfsClient => false | _ => true end.
Lemma operand_app_value {k} (v : vstring k) s : argument_kind k → all_chars arg_char s → operand (as_str v +:+ s).
Proof.
  intros Hk Hs. apply operand_prefix; [|apply (validator_plain _ _ (raw_ok v))|apply value_chars; by intros ->|done].
  apply Is_true_false, (validator_not_flag _ _ (raw_ok v)). by intros ->.
Qed.
Lemma operand_value {k} (v : vstring k) : argument_kind k → operand (as_str v).
Proof. intros Hk. rewrite <- (app_nil_r_s (as_str v)). by apply operand_app_value. Qed.
Lemma operand_values {k} (l : list (vstring k)) : argument_kind k → Forall operand (strs l).
Proof. intros Hk. apply Forall_fmap, Forall_true. intros v. by apply operand_value. Qed.
Lemma operand_uint_app {w} (x : uint w) s : all_chars arg_char s → operand (show_uint x +:+ s).
Proof. intros Hs. split; [apply starts_number|]. by apply arg_chars_app; [apply arg_number|]. Qed.
Lemma operand_uint {w} (x : uint w) : operand (show_uint x).
Proof. rewrite <- (app_nil_r_s (show_uint x)). by apply operand_uint_app. Qed.
Lemma arg_uint {w} (x : uint w) : all_chars arg_char (show_uint x).
Proof. apply arg_number. Qed.
#[local] Arguments String.append : simpl never.
Create HintDb argv.
Create HintDb builders.
#[export] Hint Resolve arg_number arg_uint arg_chars_app : argv.
#[export] Hint Extern 2 (Is_true (all_chars arg_char (as_str _))) => apply value_chars; discriminate : argv.
#[export] Hint Extern 3 (Is_true (all_chars arg_char _)) => vm_compute; exact I : argv.
(** One operand of a builder. *)
Ltac solve_operand :=
  lazymatch goal with
  | |- operand (as_str _) => apply operand_value; exact I
  | |- operand (show_uint _) => apply operand_uint
  | |- operand (as_str _ +:+ _) => apply operand_app_value; [exact I|solve [eauto with argv]]
  | |- operand (show_uint _ +:+ _) => apply operand_uint_app; solve [eauto with argv]
  | |- operand (_ +:+ _) =>
      apply operand_prefix; [reflexivity|discriminate|vm_compute; exact I|solve [eauto with argv]]
  | |- operand _ => apply operand_word; vm_compute; reflexivity
  end.
Lemma layout_operands l : Forall operand (option_arg (layout_keyword l)).
Proof. destruct l; repeat constructor; by apply operand_word. Qed.
Lemma class_operands c : Forall operand (option_arg (class_keyword c)).
Proof. destruct c; repeat constructor; by apply operand_word. Qed.
(** The arguments of a builder: option words, operands, and lists of operands. *)
Ltac solve_argv :=
  repeat first
    [ apply argv_nil | apply argv_option; [vm_compute; reflexivity|] | apply argv_operand; [solve_operand|]
    | apply argv_operands, operand_values; exact I | apply argv_operands_app; [apply operand_values; exact I|] ].

(** ** The options of a request *)

(** What options a request's command is given: a matter of the kind of request,
    its switches and which optional settings it has, never of its strings. *)
Definition set_count {A} (o : option A) : nat := if o then 1 else 0.
Definition options_of (r : request) : list string :=
  match r with
  | RZvolCreate z =>
      (if zvol_create_sparse z then ["-s"] else [])
      ++ replicate (set_count (zvol_create_volblocksize z) + set_count (zvol_create_compression z)
           + set_count (zvol_create_sync z) + set_count (zvol_create_volmode z)
           + set_count (zvol_create_primarycache z) + set_count (zvol_create_logbias z)) "-o" ++ ["-V"]
  | RZfsFsCreate o => replicate (set_count (zfs_fs_create_mountpoint o)) "-o"
  | RZfsDestroy o => if zfs_destroy_recursive o then ["-r"] else []
  | RPoolCreate o => replicate (set_count (pool_create_ashift o)) "-o"
  | RPartitionTableCreate _ => ["--wipe"]
  | RPartitionCreate _ => ["--append"]
  | RPartitionDelete _ => ["--delete"]
  | RLvmReportOp _ => ["--reportformat"; "--units"; "--nosuffix"; "-o"]
  | RLvCreate _ => ["-y"; "-n"; "-L"]
  | RThinPoolCreate _ => ["-y"; "--type"; "-L"; "-n"]
  | RThinLvCreate _ => ["-y"; "--type"; "--thinpool"; "-V"; "-n"]
  | RLvResize _ => ["-L"]
  | RLvShrink _ => ["-f"; "-L"]
  | RLvDelete _ => ["-y"]
  | RSmartReport _ => ["-x"]
  | RUnit OpRdmaResources => ["-j"]
  | _ => []
  end.

Definition prop_args (o : option (string * string)) : list string :=
  match o with Some (prop, value) => ["-o"; prop +:+ "=" +:+ value] | None => [] end.
Lemma props_args (l : list (option (string * string))) :
  mjoin ((λ '(prop, value), ["-o"; prop +:+ "=" +:+ value]) <$> omap id l) = mjoin (prop_args <$> l).
Proof. induction l as [|[[p v]|] l IH]; cbn; [done| |done]. by f_equal; f_equal. Qed.
Lemma opt_prop_argv `{ZfsValue A} (o : option A) n args :
  starts_with "-" (PROP (A:=A)) = false → PROP (A:=A) ≠ "" → all_chars arg_char (PROP (A:=A)) →
  (∀ a : A, all_chars arg_char (keyword a)) →
  argv_ok (replicate n "-o" ++ ["-V"]) args →
  argv_ok (replicate (set_count o + n) "-o" ++ ["-V"]) (prop_args (opt_prop o) ++ args).
Proof.
  intros H1 H2 H3 H4 Ha. destruct o as [a|]; [|done]. cbn. apply argv_option; [done|]. apply argv_operand; [|done].
  apply operand_prefix; [done|done|done|]. by apply (arg_chars_app "=").
Qed.
#[local] Arguments prop_args : simpl never.
#[local] Arguments opt_prop : simpl never.
Lemma zvol_create_argv z : argv_ok (options_of (RZvolCreate z)) (ts_args (zvol_create z)).
Proof.
  unfold zvol_create. cbv zeta. rewrite props_args. cbn [ts_args zfs_spec spec_new fmap list_fmap mjoin list_join options_of].
  destruct z as [ds size vbs sparse comp sync vol cache bias]. cbn.
  apply argv_operand; [solve_operand|]. apply argv_app; [by destruct sparse; solve_argv|].
  rewrite <- !Nat.add_assoc, <- !(assoc (++)).
  assert (Hr : ∀ n args, argv_ok (replicate n "-o" ++ ["-V"]) args → argv_ok (replicate (set_count vbs + n) "-o" ++ ["-V"])
    ((match vbs with Some vbs => ["-o"; "volblocksize=" +:+ show_uint vbs] | None => [] end) ++ args)).
  { intros n args Ha. destruct vbs; [|done]. cbn. by solve_argv. }
  apply Hr. repeat (apply opt_prop_argv; [done..|intros []; done|]).
  rewrite <- (Nat.add_0_r (set_count bias)). apply opt_prop_argv; [done..|intros []; done|]. solve_argv.
Qed.
Definition spec_ok (r : request) (s : TaskSpec) : Prop :=
  ts_command s ∈ programs ∧ ts_env s = [] ∧ argv_ok (options_of r) (ts_args s).
Lemma spec_ok_new r cmd args :
  bool_decide (cmd ∈ programs) = true → argv_ok (options_of r) args → spec_ok r (spec_new cmd args).
Proof. intros Hc%bool_decide_eq_true Ha. by split_and!. Qed.
Lemma spec_ok_stdin r cmd args stdin :
  bool_decide (cmd ∈ programs) = true → argv_ok (options_of r) args → spec_ok r (with_stdin cmd args stdin).
Proof. intros Hc%bool_decide_eq_true Ha. by split_and!. Qed.
#[local] Hint Unfold zvol_delete zvol_resize snapshot_create snapshot_destroy zfs_fs_create zfs_set_mountpoint
  zfs_set_compression zfs_mount zfs_unmount zfs_destroy pool_create pool_vdev_add pool_device_attach pool_device_detach
  pool_device_online zfs_spec zpool_spec at_snap table_create partition_create partition_delete lvm_report vg_create
  vg_extend vg_reduce vg_remove lv_create thin_pool_create thin_lv_create lv_resize lv_shrink lv_rename lv_delete
  bytes_arg lv_arg smart_report rdma_resources dev : builders.
(** One builder: its literals, its values, and the cases of its optional parts. *)
Ltac solve_builder :=
  autounfold with builders; cbv zeta;
  repeat match goal with
  | |- context [match ?x with _ => _ end] => is_var x; destruct x
  | |- context [match ?f ?x with _ => _ end] => is_var x; destruct (f x) eqn:?
  end;
  cbv beta iota;
  ((apply spec_ok_new || apply spec_ok_stdin);
   [reflexivity
   |cbn [app option_arg layout_keyword class_keyword options_of];
    repeat match goal with H : ?f ?x = _ |- context [?f ?x] => rewrite H end;
    cbn [set_count replicate app]; solve_argv]).
Lemma spec_of_ok r s :
  spec_of r = Some s → spec_ok r s ∨ ∃ o, r = RSetMtu o ∧ s = set_mtu (set_mtu_netdev o) (set_mtu_mtu o).
Proof.
  intros H. destruct r; cbn [spec_of] in H; try discriminate H; [injection H as <-..|destruct o; try discriminate H; injection H as <-].
  { left. split_and!; [apply (bool_decide_unpack _), I|done|apply zvol_create_argv]. }
  all: lazymatch goal with |- _ ∨ ∃ _, RSetMtu ?d = _ ∧ _ => right; by exists d | _ => left end.
  all: solve_builder.
  { destruct c; solve_argv; by apply operand_word. }
  all: repeat (apply argv_operands_app; [apply layout_operands || apply class_operands|]); solve_argv.
Qed.
(** C39: No request can smuggle an option into a command: for every single-command
    request, the program is one of a fixed list, the environment is left alone,
    every argument consists of letters, digits and the separators of
    [arg_char] (no space, quote, control or shell character), and the
    arguments that begin with a dash are, in order, exactly the options that the kind
    of request, its switches and its optional settings determine ([options_of]),
    so none comes from a string of the request. The exception is the interface
    name of [SetMtu], which may begin with a dash: its command is exactly
    [ip link set dev NAME mtu N], where the name is the value of [dev]. *)
Theorem command_argv_safe r s :
  spec_of r = Some s →
  ts_command s ∈ programs ∧ ts_env s = [] ∧ Forall (λ a, Is_true (all_chars arg_char a)) (ts_args s) ∧
  match r with
  | RSetMtu o =>
      ts_command s = "ip" ∧
      ts_args s = ["link"; "set"; "dev"; as_str (set_mtu_netdev o); "mtu"; show_uint (set_mtu_mtu o)]
  | _ => dashed (ts_args s) = options_of r
  end.
Proof.
  intros H. pose proof H as [(Hc & He & Ho & Ha)|(o & -> & ->)]%spec_of_ok.
  - split_and!; [done..|]. destruct r; try done. by injection H as <-.
  - split_and!; [apply (bool_decide_unpack _), I|done| |done|done]. cbn [set_mtu ts_args spec_new].
    repeat (apply Forall_cons_2; [solve [auto with argv nocore]|]). done.
Qed.
Lemma command_argv_safe_witness :
  ts_args (lv_delete (Refine "vg0" I) (Refine "lv0" I)) = ["-y"; "vg0/lv0"] ∧
  ts_command (lv_delete (Refine "vg0" I) (Refine "lv0" I)) ∈ programs.
Proof.
  split; [vm_compute; reflexivity|].
  apply (command_argv_safe (RLvDelete {| lv_delete_vg := Refine "vg0" I; lv_delete_name := Refine "lv0" I |})). reflexivity.
Defined.

(** ** Shrinking a partition *)

Section shrink.
Context {C : Client} {K : Kernel} {M : Machine} {J : JsonParser}.
Context (device name : string) (size : u64).

Definition plan_of (stdout : string) : result string FsPlan :=
  match parse_probe stdout with
  | Some p => plan_fs (pr_fstype p) (pr_mounted p)
  | None => Err "could not read its filesystem state"
  end.
Definition mount_path : string := "/run/greendotrdma/btrfs-resize-" +:+ name.
(** The filesystem was shrunk to fit, and is not mounted. *)
Inductive fs_fits : FsPlan → list call → Prop :=
| fits_raw : fs_fits PlanRaw []
| fits_ext c1 c2 : child_ok c1 → child_ok c2 →
    fs_fits PlanExt [call_of (fsck device) c1; call_of (resize_ext device (fs_bytes size / 512)) c2]
| fits_btrfs c1 c2 c3 : child_ok c1 → child_ok c2 → child_ok c3 →
    fs_fits PlanBtrfs [call_of (btrfs_mount device mount_path) c1;
                       call_of (btrfs_resize mount_path (fs_bytes size)) c2; call_of (umount mount_path) c3].
Definition not_sfdisk (c : call) : Prop := cl_command c ≠ "sfdisk".

Lemma probe_step_ran w r w' :
  probe_step device w = (r, w') →
  ∃ cs, w_ran w' = w_ran w ++ cs ∧ Forall not_sfdisk cs ∧
    ∀ p, r = Ok (Some p) → ∃ out code, cs = [call_of (lsblk device) (Ran out code)] ∧ plan_of (stdout_of out) = Ok p.
Proof.
  unfold probe_step. intros (w0 & r0 & w1 & E0 & Hb & E1 & Hr)%in_command_ran. rewrite E1.
  apply op_bind_run in Hb as [(e & Hc & ->)|(x & w2 & Hc & Hb)];
    apply capture_into_ran in Hc as [(Hn & e' & He)|(c & Hc & Hout)]; rewrite <- E0.
  - exists []. rewrite app_nil_r. split_and!; [done|done|]. by subst.
  - eexists. split_and!; [exact Hc|by repeat constructor|]. by subst.
  - done.
  - injection Hb as <- <-. eexists. split_and!; [exact Hc|by repeat constructor|]. intros p ->.
    rewrite (Hout x eq_refl) in Hr. destruct c as [o code|nf e]; [|done]. exists o, code.
    split; [done|]. unfold plan_of. cbn [capture_of] in Hr. destruct (parse_probe _) as [pr|]; [|done].
    destruct (plan_fs _ _); [|done]. by injection Hr as ->.
Qed.
Lemma run_step nm spec w r w' :
  ts_stdin_to_file spec = false → run nm spec w = (r, w') →
  ∃ c, w_ran w' = w_ran w ++ [call_of spec c] ∧ (∀ s, r = Ok s → succeeded s = true → child_ok c).
Proof.
  intros Hf (c & Hc & Hs)%run_ran; [|done]. exists c. split; [done|]. intros s Hr Ho. apply Hs in Hr. subst s.
  by destruct (child_ok c).
Qed.
Lemma run_bind_step {A} nm spec (f : SubStatus → op A) w r w' :
  ts_stdin_to_file spec = false → (run nm spec ≫= f) w = (r, w') →
  ∃ c w1, w_ran w1 = w_ran w ++ [call_of spec c] ∧
    ((w' = w1 ∧ ∃ e, r = Err e) ∨ ∃ s, (succeeded s = true → child_ok c) ∧ f s w1 = (r, w')).
Proof.
  intros Hf [(e & H & ->)|(s & w1 & H1 & H)]%op_bind_run.
  - apply run_step in H as (c & Hc & _); [|done]. exists c, w'. split; [done|]. left. eauto.
  - apply run_step in H1 as (c & Hc & Hs); [|done]. exists c, w1. split; [done|]. right. exists s. eauto.
Qed.
Lemma spawn_ran cmd args stdin env w :
  ∃ c, w_ran (spawn cmd args stdin env w).2
       = w_ran w ++ [{| cl_command := cmd; cl_args := args; cl_stdin := stdin; cl_child := c |}].
Proof. unfold spawn. destruct (proc _ _ _ _ _ _) as [c t]. by exists c. Qed.
Lemma mount_guard_ran {A} mp (body : op (A * bool)) w r w' :
  mount_guard mp body w = (r, w') →
  ∃ r0 w1, body w = (r0, w1) ∧
    ((∃ a, r0 = Ok (a, false) ∧ r = Ok a ∧ w' = w1) ∨
     (∃ c, w_ran w' = w_ran w1 ++ [call_of (umount mp) c]) ∧
       ((∃ a, r0 = Ok (a, true) ∧ r = Ok a) ∨ ∃ e, r0 = Err e ∧ r = Err e)).
Proof.
  unfold mount_guard. intros H. destruct (body w) as [[[a []]|e] w1] eqn:E; injection H as <- <-;
    eexists _, _; (split; [done|]); [right|left; by exists a|right]; (split; [apply spawn_ran|eauto]).
Qed.
(** The btrfs resize and unmount, under the guard. *)
Definition btrfs_steps : op (bool * bool) :=
  s ← run ("Shrink filesystem on " +:+ device) (btrfs_resize mount_path (fs_bytes size));
  s' ← run ("Unmount " +:+ device) (umount mount_path);
  if succeeded s' then mret (succeeded s, false) else mret (false, true).
Lemma btrfs_steps_ran w r w' :
  btrfs_steps w = (r, w') →
  ∃ cs, w_ran w' = w_ran w ++ cs ∧ Forall not_sfdisk cs ∧
    ((∃ c2 c3, r = Ok (true, false) ∧ child_ok c2 ∧ child_ok c3 ∧
        cs = [call_of (btrfs_resize mount_path (fs_bytes size)) c2; call_of (umount mount_path) c3]) ∨
     ∀ a b, r = Ok (a, b) → a = false).
Proof.
  intros H. apply run_bind_step in H as (c2 & w2 & E2 & [(-> & e & ->)|(s2 & Hs2 & H)]); [| |done].
  { eexists. split_and!; [exact E2|by repeat constructor|by right]. }
  apply run_bind_step in H as (c3 & w3 & E3 & [(-> & e & ->)|(s3 & Hs3 & H)]); [| |done];
    rewrite E2, <- app_assoc in E3.
  { eexists. split_and!; [exact E3|by repeat constructor|by right]. }
  destruct (succeeded s3); injection H as <- <-; eexists; (split_and!; [exact E3|by repeat constructor|]).
  - destruct (succeeded s2); [left; exists c2, c3; split_and!; auto|right; by intros a b [= <- _]].
  - right. by intros a b [= <- _].
Qed.
Lemma shrink_fs_ran plan w r w' :
  shrink_fs plan name device size w = (r, w') →
  ∃ cs, w_ran w' = w_ran w ++ cs ∧ Forall not_sfdisk cs ∧ (r = Ok true → fs_fits plan cs).
Proof.
  intros H. destruct plan; cbn [shrink_fs] in H.
  - apply run_bind_step in H as (c1 & w1 & E1 & [(-> & e & ->)|(s1 & Hs1 & H)]); [| |done].
    { eexists. split_and!; [exact E1|by repeat constructor|done]. }
    destruct (succeeded s1); cbn [negb] in H; [|injection H as <- <-; eexists; split_and!; [exact E1|by repeat constructor|done]].
    apply run_bind_step in H as (c2 & w2 & E2 & [(-> & e & ->)|(s2 & Hs2 & H)]); [| |done];
      rewrite E1, <- app_assoc in E2.
    { eexists. split_and!; [exact E2|by repeat constructor|done]. }
    injection H as <- <-. eexists. split_and!; [exact E2|by repeat constructor|]. intros [= Hs]. constructor; auto.
  - cbv zeta in H. fold mount_path in H.
    apply run_bind_step in H as (c1 & w1 & E1 & [(-> & e & ->)|(s1 & Hs1 & H)]); [| |done].
    { eexists. split_and!; [exact E1|by repeat constructor|done]. }
    destruct (succeeded s1); cbn [negb] in H; [|injection H as <- <-; eexists; split_and!; [exact E1|by repeat constructor|done]].
    apply mount_guard_ran in H as (r0 & w2 & Hb & H). fold btrfs_steps in Hb.
    apply btrfs_steps_ran in Hb as (cs & E2 & Hcs & Hr0). rewrite E1, <- app_assoc in E2.
    destruct H as [(a & -> & -> & ->)|[(c & Ec) Hr]].
    + eexists. split_and!; [exact E2|by constructor|]. intros [= ->].
      destruct Hr0 as [(c2 & c3 & _ & H2 & H3 & ->)|Hr0]; [|by specialize (Hr0 _ _ eq_refl)]. constructor; auto.
    + rewrite E2, <- app_assoc in Ec. eexists. split_and!; [exact Ec|by repeat first [constructor|apply Forall_app_2]|].
      intros ->. destruct Hr as [(a & -> & [= <-])|(e & _ & [=])].
      destruct Hr0 as [(c2 & c3 & [=] & _)|Hr0]. by specialize (Hr0 _ _ eq_refl).
  - injection H as <- <-. exists []. rewrite app_nil_r. split_and!; [done|done|]. constructor.
Qed.
Lemma fs_bytes_fit : fs_bytes size <= raw size * 512 ∧ fs_bytes size / 512 <= raw size.
Proof.
  unfold fs_bytes, saturating_sub, saturating_mul. split; [lia|].
  apply N.Div0.div_le_upper_bound. lia.
Qed.
End shrink.
(** C27: Shrinking a partition never cuts its filesystem. The partition is resized
    last and at most once, and only after the probe of that very device led to
    a plan and the plan was carried out: nothing to shrink, or an unmounted ext
    filesystem checked and resized, or a btrfs resized on its temporary mount
    and unmounted again, each command successful, to a size that fits the new
    partition. In every other course of events no partition command runs. *)
Theorem shrink_filesystem_first {C : Client} {K : Kernel} {M : Machine} {J : JsonParser} disk number size w r w' :
  let name := part_name disk number in
  let device := "/dev/" +:+ name in
  shrink disk number size w = (r, w') →
  ∃ cs, w_ran w' = w_ran w ++ cs ∧
    (Forall not_sfdisk cs ∨
     ∃ out code plan fs c,
       cs = call_of (lsblk device) (Ran out code) :: fs ++ [call_of (partition_resize disk number size) c] ∧
       plan_of (stdout_of out) = Ok plan ∧ fs_fits device name size plan fs ∧
       fs_bytes size <= raw size * 512 ∧ fs_bytes size / 512 <= raw size).
Proof.
  intros name device H. unfold shrink in H. cbv zeta in H. fold name device in H.
  apply op_bind_run in H as [(e & H & ->)|(plan & w1 & H1 & H)].
  { apply probe_step_ran in H as (cs & E & Hn & _). eauto. }
  apply probe_step_ran in H1 as (cs1 & E1 & Hn1 & Hp).
  destruct plan as [plan|]; [|injection H as <- <-; eauto].
  destruct (Hp plan eq_refl) as (out & code & -> & Hplan).
  apply op_bind_run in H as [(e & H & ->)|(ok & w2 & H2 & H)].
  { apply shrink_fs_ran in H as (cs & E & Hn & _). rewrite E1, <- app_assoc in E. eexists. split; [exact E|].
    left. by apply Forall_app_2. }
  apply shrink_fs_ran in H2 as (cs & E & Hn & Hfit). rewrite E1, <- app_assoc in E.
  destruct ok; cbn [negb] in H.
  2: { injection H as <- <-. eexists. split; [exact E|]. left. by apply Forall_app_2. }
  apply run_bind_step in H as (c & w3 & E3 & H); [|done].
  assert (Ew : w_ran w' = w_ran w3) by (destruct H as [(-> & _)|(s & _ & [= _ <-])]; done).
  rewrite E, <- app_assoc in E3. cbn [app] in E3. exists (call_of (lsblk device) (Ran out code) :: cs ++ [call_of (partition_resize disk number size) c]).
  split; [by rewrite Ew, E3|]. right. exists out, code, plan, cs, c. split_and!; [done|done|by apply Hfit|apply fs_bytes_fit..].
Qed.

(** An ext4 partition on a machine where every command succeeds. *)
Definition demo_lsblk : json :=
  JObject [("blockdevices", JArray [JObject [("fstype", JString "ext4"); ("mountpoint", JNull)]])].
#[local] Instance demo_json : JsonParser := λ _, Some demo_lsblk.
#[local] Instance demo_tools : Machine := λ _ _ _ _ _ t, (Ran [] (Some 0%Z), t).
#[local] Existing Instances permissive patient.
Definition demo_shrink : result string unit * world :=
  shrink (Refine "sda" I) (lit 2) (lit 4096) (start_world ∅ 0).
Lemma shrink_filesystem_first_witness :
  cl_command <$> w_ran demo_shrink.2 = ["lsblk"; "e2fsck"; "resize2fs"; "sfdisk"] ∧
  let name := part_name (Refine "sda" I) (lit 2) in
  let device := "/dev/" +:+ name in
  ∃ out code plan fs c, w_ran demo_shrink.2 =
    call_of (lsblk device) (Ran out code) :: fs ++ [call_of (partition_resize (Refine "sda" I) (lit 2) (lit 4096)) c] ∧
    plan_of (stdout_of out) = Ok plan ∧ fs_fits device name (lit 4096) plan fs.
Proof.
  split; [vm_compute; reflexivity|]. intros name device.
  destruct (shrink_filesystem_first (Refine "sda" I) (lit 2) (lit 4096) (start_world ∅ 0) demo_shrink.1 demo_shrink.2)
    as (cs & E & [H|(out & code & plan & fs & c & Ec & Hp & Hf & _)]); [by unfold demo_shrink; destruct (shrink _ _ _ _)| |].
  - eassert (E3 : w_ran demo_shrink.2 !! 3%nat = Some _) by (vm_compute; reflexivity).
    rewrite E in E3. rewrite Forall_forall in H. destruct (H _ (list_elem_of_lookup_2 _ 3%nat _ E3)). reflexivity.
  - exists out, code, plan, fs, c. split_and!; [|exact Hp|exact Hf]. rewrite E. exact Ec.
Defined.
