(* ===== verification/Nvmet.v ===== *)
(** * The nvmet configfs driver (greendotctl/src/nvmet.rs)

    Reconciliation of the configfs tree to a desired state, the reader of
    greendotctl/src/actual/nvmet.rs, and the imperative CSI operations. Paths are
    component lists; every name that becomes a component is a validated newtype
    or a directory entry. *)
From Stdlib Require Import Ascii String.
From stdpp Require Import base option list strings sets gmap pretty.
From S2P Require Import Prelude Ordered Validate IpAddr Types Desired Actual Render Task Fs.
#[local] Open Scope string_scope.
#[local] Open Scope list_scope.
#[local] Open Scope N_scope.

(** ** Wrapped file-system calls *)

Definition show_path (p : path) : string := "/" +:+ join "/" p.
Definition err_context (verb : string) (p : path) (e : ioerr) : ioerr :=
  io_err (err_kind e) (verb +:+ " " +:+ show_path p +:+ ": " +:+ err_msg e).
Definition is_not_found (e : ioerr) : bool :=
  match err_kind e with KNotFound => true | _ => false end.

Section driver.
Context {K : Kernel}.

Definition write_attr (p : path) (v : string) : io unit :=
  io_map_err (err_context "writing" p) (write_file p v).
Definition create_dir_all_ok (p : path) : io unit :=
  io_map_err (err_context "creating" p) (create_dir_all p).
Definition symlink_ok (target link : path) : io unit :=
  io_map_err (err_context "linking" link) (symlink target link).
Definition remove_file_ok (p : path) : io unit :=
  io_catch (remove_file p) (λ e,
    if is_not_found e then mret tt else io_fail (err_context "removing" p e)).
Definition remove_object_dir (p : path) : io unit :=
  io_catch (remove_dir p) (λ e,
    if is_not_found e then mret tt
    else io_catch (remove_dir_all p) (λ e,
      if is_not_found e then mret tt else io_fail (err_context "removing" p e))).

(** ** Objects *)

Definition delete_subsystem (dir : path) : io unit :=
  ns ← io_get (λ t, dir_entries t (dir ++ ["namespaces"]));
  _ ← io_for ns (λ n, remove_object_dir (dir ++ ["namespaces"; n]));
  hosts ← io_get (λ t, dir_entries t (dir ++ ["allowed_hosts"]));
  _ ← io_for hosts (λ h, remove_file_ok (dir ++ ["allowed_hosts"; h]));
  remove_object_dir dir.

Definition apply_namespace (ns_root : path) (ns : NvmetNsSpec) (uuid : option NsUuid) : io unit :=
  let dir := ns_root ++ [show_uint (ns_nsid ns)] in
  _ ← create_dir_all_ok dir;
  let device_path := dir ++ ["device_path"] in
  let enable := dir ++ ["enable"] in
  uuid_drift ← io_get (λ t, match uuid with
    | Some u => negb (bool_decide (read_trim t (dir ++ ["device_uuid"]) = as_str u))
    | None => false end);
  cur ← io_get (λ t, read_trim t device_path);
  en ← io_get (λ t, read_trim t enable);
  if negb (bool_decide (cur = as_str (ns_device_path ns))) || (uuid_drift : bool)
     || negb (bool_decide (en = "1"))
  then
    en ← io_get (λ t, read_trim t enable);
    _ ← (if bool_decide (en = "1") then write_attr enable "0" else mret tt);
    _ ← write_attr device_path (as_str (ns_device_path ns));
    _ ← match uuid with
        | Some u => write_attr (dir ++ ["device_uuid"]) (as_str u)
        | None => mret tt
        end;
    write_attr enable "1"
  else mret tt.

(** The host block of [apply_subsystem]: the attribute and the ACL links. *)
Definition apply_hosts (root dir : path) (s : NvmetSubsysSpec) : io unit :=
  let allowed := dir ++ ["allowed_hosts"] in
  let attr := dir ++ ["attr_allow_any_host"] in
  if sub_allow_any_host s then
    hosts ← io_get (λ t, dir_entries t allowed);
    _ ← io_for hosts (λ h, remove_file_ok (allowed ++ [h]));
    write_attr attr "1"
  else
    _ ← write_attr attr "0";
    _ ← create_dir_all_ok allowed;
    let want := sset (as_str <$> sub_allowed_hosts s) in
    _ ← io_for (sub_allowed_hosts s) (λ h,
          _ ← create_dir_all_ok (root ++ ["hosts"; as_str h]);
          let link := allowed ++ [as_str h] in
          there ← io_get (λ t, present t link);
          if (there : bool) then mret tt else symlink_ok (root ++ ["hosts"; as_str h]) link);
    hosts ← io_get (λ t, dir_entries t allowed);
    io_for hosts (λ h, if decide (h ∈ want) then mret tt else remove_file_ok (allowed ++ [h])).
Definition apply_subsystem (root : path) (s : NvmetSubsysSpec) : io unit :=
  let dir := root ++ ["subsystems"; as_str (sub_nqn s)] in
  _ ← create_dir_all_ok dir;
  let ns_dir := dir ++ ["namespaces"] in
  _ ← io_for (sub_namespaces s) (λ ns, apply_namespace ns_dir ns None);
  let want_ns := sset ((λ n, show_uint (ns_nsid n)) <$> sub_namespaces s) in
  have ← io_get (λ t, dir_entries t ns_dir);
  _ ← io_for have (λ ns, if decide (ns ∈ want_ns) then mret tt
                         else remove_object_dir (ns_dir ++ [ns]));
  apply_hosts root dir s.

Definition is_ipv6 (a : IpAddr) : bool :=
  match a with V4 _ _ _ _ => false | V6 _ _ _ _ _ _ _ _ => true end.
Definition port_addr (p : NvmetPortSpec) : list (string * string) :=
  match port_trtype p with
  | Loop => [("addr_trtype", trtype_str (port_trtype p))]
  | _ =>
      [("addr_adrfam", if is_ipv6 (port_traddr p) then "ipv6" else "ipv4");
       ("addr_traddr", show_ip (port_traddr p));
       ("addr_trsvcid", show_uint (port_trsvcid p));
       ("addr_trtype", trtype_str (port_trtype p))]
  end.
Definition bind_error (nqn : string) (p : NvmetPortSpec) (e : ioerr) : ioerr :=
  io_err (err_kind e)
    ("binding " +:+ nqn +:+ " to port " +:+ show_uint (port_id p) +:+ " ("
     +:+ trtype_str (port_trtype p) +:+ "): " +:+ err_msg e).

Definition apply_port (root : path) (p : NvmetPortSpec) (managed_prefix : string) : io unit :=
  let dir := root ++ ["ports"; show_uint (port_id p)] in
  let links := dir ++ ["subsystems"] in
  _ ← create_dir_all_ok dir;
  let addr := port_addr p in
  drift ← io_get (λ t, existsb (λ kv, negb (bool_decide (read_trim t (dir ++ [kv.1]) = kv.2))) addr);
  _ ← (if (drift : bool) then
         cur ← io_get (λ t, dir_entries t links);
         _ ← io_for cur (λ l, if starts_with managed_prefix l
                              then remove_file_ok (links ++ [l]) else mret tt);
         io_for addr (λ kv, write_attr (dir ++ [kv.1]) kv.2)
       else mret tt);
  _ ← create_dir_all_ok links;
  io_for (port_subsystems p) (λ n,
    let link := links ++ [as_str n] in
    there ← io_get (λ t, present t link);
    if (there : bool) then mret tt
    else io_map_err (bind_error (as_str n) p)
           (symlink (root ++ ["subsystems"; as_str n]) link)).

(** ** Reconcile *)

Definition desired_links (d : NvmetDesired) (port : string) : gset string :=
  sset (as_str <$> mjoin (port_subsystems <$>
    filter (λ p, show_uint (port_id p) = port) (nd_ports d))).

(** Phase A for one port: drop our links that are not wanted there; reports
    whether any was dropped. *)
Fixpoint drop_links (links : path) (want : gset string) (cur : list string) : io bool :=
  match cur with
  | [] => mret false
  | l :: cur =>
      if ours l && negb (bool_decide (l ∈ want)) then
        _ ← remove_file_ok (links ++ [l]);
        _ ← drop_links links want cur;
        mret true
      else drop_links links want cur
  end.
Fixpoint drop_stale (root : path) (d : NvmetDesired) (ports : list string) : io (list string) :=
  match ports with
  | [] => mret []
  | port :: ports =>
      let links := root ++ ["ports"; port; "subsystems"] in
      cur ← io_get (λ t, dir_entries t links);
      removed ← drop_links links (desired_links d port) cur;
      rest ← drop_stale root d ports;
      mret (if (removed : bool) then port :: rest else rest)
  end.
Definition delete_undesired (root : path) (d : NvmetDesired) : io unit :=
  let desired_nqns := sset (as_str <$> (sub_nqn <$> nd_subsystems d)) in
  have ← io_get (λ t, dir_entries t (root ++ ["subsystems"]));
  io_for have (λ n, if ours n && negb (bool_decide (n ∈ desired_nqns))
                    then delete_subsystem (root ++ ["subsystems"; n]) else mret tt).
Definition reap_ports (root : path) (d : NvmetDesired) (candidates : list string) : io unit :=
  io_for candidates (λ port,
    let undesired := forallb (λ p, negb (bool_decide (show_uint (port_id p) = port))) (nd_ports d) in
    links ← io_get (λ t, dir_entries t (root ++ ["ports"; port; "subsystems"]));
    if undesired && match links with [] => true | _ => false end
    then remove_object_dir (root ++ ["ports"; port]) else mret tt).

Definition reconcile (d : NvmetDesired) (root : path) : io string :=
  ports ← io_get (λ t, dir_entries t (root ++ ["ports"]));
  emptied ← drop_stale root d ports;
  _ ← delete_undesired root d;
  _ ← io_for (nd_subsystems d) (apply_subsystem root);
  _ ← io_for (nd_ports d) (λ p, apply_port root p OUR_NQN_PREFIX);
  _ ← reap_ports root d emptied;
  mret ("reconciled nvmet: " +:+ pretty (N.of_nat (length (nd_subsystems d)))
        +:+ " subsystem(s), " +:+ pretty (N.of_nat (length (nd_ports d))) +:+ " port(s)" +:+ chr 10).
End driver.

(** ** The reader (greendotctl/src/actual/nvmet.rs) *)

Definition read_ns (t : tree) (dir : path) (nsid : string) : option Namespace :=
  n ← parse_uint 32 nsid;
  Some {| ans_nsid := n;
          ans_device_path := read_trim t (dir ++ ["namespaces"; nsid; "device_path"]);
          ans_enabled := bool_decide (read_trim t (dir ++ ["namespaces"; nsid; "enable"]) = "1") |}.
Definition read_subsys (t : tree) (root : path) (nqn : string) : Subsys :=
  let dir := root ++ ["subsystems"; nqn] in
  {| as_nqn := nqn;
     as_allow_any_host := bool_decide (read_trim t (dir ++ ["attr_allow_any_host"]) = "1");
     as_allowed_hosts := dir_entries t (dir ++ ["allowed_hosts"]);
     as_namespaces := omap (read_ns t dir) (dir_entries t (dir ++ ["namespaces"])) |}.
Definition read_port (t : tree) (root : path) (id : string) : option Port :=
  let dir := root ++ ["ports"; id] in
  n ← parse_uint 16 id;
  Some {| ap_id := n;
          ap_trtype := read_trim t (dir ++ ["addr_trtype"]);
          ap_traddr := read_trim t (dir ++ ["addr_traddr"]);
          ap_trsvcid := read_trim t (dir ++ ["addr_trsvcid"]);
          ap_subsystems := dir_entries t (dir ++ ["subsystems"]) |}.
Definition read (t : tree) (root : path) : ActualNvmet :=
  {| an_subsystems := read_subsys t root <$> dir_entries t (root ++ ["subsystems"]);
     an_ports := omap (read_port t root) (dir_entries t (root ++ ["ports"])) |}.
