(* ===== verification/NvmetSafety.v ===== *)
(** * Reconciliation never touches what is not ours (greendotctl/src/nvmet.rs)

    For every kernel behaviour (every call may be refused) and every outcome, a
    reconcile pass changes only our own subsystems and links, the ports it was
    told to serve and the ports it emptied; elsewhere it at most creates the
    missing top-level and host directories. *)
From Stdlib Require Import Ascii String.
From stdpp Require Import base option list strings sets gmap pretty.
From S2P Require Import Prelude Ordered Validate IpAddr Types Desired Actual Render RenderFacts Task Fs Nvmet.
#[local] Open Scope string_scope.
#[local] Open Scope list_scope.
#[local] Open Scope N_scope.

Section calls.
Context {K : Kernel}.

(** ** The wrapped calls *)

Lemma keeps_write_attr p v : keeps (λ q, q = p) (write_attr p v).
Proof. apply respects_map_err, keeps_write. Qed.
Lemma keeps_symlink_ok tgt p : keeps (λ q, q = p) (symlink_ok tgt p).
Proof. apply respects_map_err, keeps_symlink. Qed.
Lemma keeps_remove_file_ok p : keeps (λ q, q = p) (remove_file_ok p).
Proof. unfold remove_file_ok. respects_step; [apply keeps_remove_file|]. by repeat respects_step. Qed.
Lemma keeps_remove_object_dir p : keeps (λ q, Is_true (below p q)) (remove_object_dir p).
Proof.
  unfold remove_object_dir. respects_step.
  - eapply keeps_weaken; [apply keeps_remove_dir|]. intros q ->. apply below_refl.
  - respects_step; [by respects_step|]. respects_step; [apply keeps_remove_dir_all|].
    by repeat respects_step.
Qed.
Lemma frame_create_dir_all_ok p :
  respects (frame (λ q, Is_true (below q p)) (λ _, False)) (create_dir_all_ok p).
Proof. apply respects_map_err, frame_create_dir_all. Qed.

Lemma wf_write_attr p v : respects wf_rel (write_attr p v).
Proof. apply respects_map_err, wf_write. Qed.
Lemma wf_symlink_ok tgt p : respects wf_rel (symlink_ok tgt p).
Proof. apply respects_map_err, wf_symlink. Qed.
Lemma wf_create_dir_all_ok p : respects wf_rel (create_dir_all_ok p).
Proof. apply respects_map_err, wf_create_dir_all. Qed.
Lemma wf_remove_file_ok p : respects wf_rel (remove_file_ok p).
Proof. unfold remove_file_ok. respects_step; [apply wf_remove_file|]. by repeat respects_step. Qed.
Lemma wf_remove_object_dir p : p ≠ [] → respects wf_rel (remove_object_dir p).
Proof.
  intros Hp. unfold remove_object_dir. respects_step; [apply wf_remove_dir|].
  respects_step; [by respects_step|]. respects_step; [by apply wf_remove_dir_all|].
  by repeat respects_step.
Qed.
Lemma shrinks_remove_file_ok p : respects shrinks (remove_file_ok p).
Proof. unfold remove_file_ok. respects_step; [apply shrinks_delete|]. by repeat respects_step. Qed.
Lemma shrinks_remove_object_dir p : respects shrinks (remove_object_dir p).
Proof.
  unfold remove_object_dir. respects_step; [apply shrinks_delete|].
  respects_step; [by respects_step|]. respects_step; [apply shrinks_remove_dir_all|].
  by repeat respects_step.
Qed.

(** ** The wrapped calls as safe steps *)

Section safe_calls.
Context (C S : path → Prop).
Lemma safe_write_attr p v : S p → respects (safe C S) (write_attr p v).
Proof.
  intros Hp. apply respects_safe; [apply wf_write_attr|].
  eapply keeps_frame, keeps_weaken; [apply keeps_write_attr|]. by intros q ->.
Qed.
Lemma safe_symlink_ok tgt p : S p → respects (safe C S) (symlink_ok tgt p).
Proof.
  intros Hp. apply respects_safe; [apply wf_symlink_ok|].
  eapply keeps_frame, keeps_weaken; [apply keeps_symlink_ok|]. by intros q ->.
Qed.
Lemma safe_symlink tgt p : S p → respects (safe C S) (symlink tgt p).
Proof.
  intros Hp. apply respects_safe; [apply wf_symlink|].
  eapply keeps_frame, keeps_weaken; [apply keeps_symlink|]. by intros q ->.
Qed.
Lemma safe_remove_file_ok p : S p → respects (safe C S) (remove_file_ok p).
Proof.
  intros Hp. apply respects_safe; [apply wf_remove_file_ok|].
  eapply keeps_frame, keeps_weaken; [apply keeps_remove_file_ok|]. by intros q ->.
Qed.
Lemma safe_remove_object_dir p :
  p ≠ [] → (∀ q, below p q → S q) → respects (safe C S) (remove_object_dir p).
Proof.
  intros Hne Hp. apply respects_safe; [by apply wf_remove_object_dir|].
  eapply keeps_frame, keeps_weaken; [apply keeps_remove_object_dir|]. done.
Qed.
Lemma safe_create_dir_all_ok p :
  (∀ q, below q p → C q ∨ S q) → respects (safe C S) (create_dir_all_ok p).
Proof.
  intros Hp. apply respects_safe; [apply wf_create_dir_all_ok|].
  eapply frame_weaken; [apply frame_create_dir_all_ok|done|done].
Qed.
End safe_calls.
End calls.

(** Solve a [respects (safe C S)] goal by decomposition, leaving membership goals. *)
Ltac safe_step :=
  match goal with
  | |- respects _ (write_attr _ _) => apply safe_write_attr
  | |- respects _ (symlink_ok _ _) => apply safe_symlink_ok
  | |- respects _ (symlink _ _) => apply safe_symlink
  | |- respects _ (remove_file_ok _) => apply safe_remove_file_ok
  | |- respects _ (remove_object_dir _) => apply safe_remove_object_dir
  | |- respects _ (create_dir_all_ok _) => apply safe_create_dir_all_ok
  | _ => respects_step
  end.
Ltac safe_steps := repeat safe_step.

(** ** Regions of the configfs tree *)

Lemma below_app_inv (p r q : path) : below (p ++ r) q → below p q.
Proof. intros [x ->]%below_spec. rewrite <- app_assoc. apply below_app. Qed.
(** An ancestor of [p ++ r] is an ancestor of [p] or lies below it. *)
Lemma below_split (q p r : path) : below q (p ++ r) → below q p ∨ below p q.
Proof.
  revert q. induction p as [|x p IH]; intros q; [by right|].
  destruct q as [|y q]; [by left|]. cbn. intros [Hy Hq]%andb_True.
  apply bool_decide_spec in Hy as ->. destruct (IH q Hq); [left|right]; cbn;
    apply andb_True; (split; [by apply bool_decide_spec|done]).
Qed.
Lemma app_cons_ne_nil {A} (l : list A) x k : l ++ x :: k ≠ [].
Proof. by destruct l. Qed.

Section region.
Context (root : path).

Definition subsys_path (n : string) : path := root ++ ["subsystems"; n].
Definition host_path (h : string) : path := root ++ ["hosts"; h].
Definition port_path (port : string) : path := root ++ ["ports"; port].
Definition link_path (port l : string) : path := root ++ ["ports"; port; "subsystems"; l].

(** Below the port, but not at or below a link that is not ours. *)
Definition in_port (port : string) (q : path) : Prop :=
  below (port_path port) q ∧ ∀ l, below (link_path port l) q → ours l.
(** What may be written: the subsystems in [subs] and the ports in [ports]. *)
Definition writable (subs ports : string → Prop) (q : path) : Prop :=
  (∃ n, subs n ∧ below (subsys_path n) q) ∨ (∃ port, ports port ∧ in_port port q).
(** What a pass may create as a missing directory: the root and its three
    top-level directories, and the directories of the hosts in [hosts]. *)
Definition creatable (hosts : string → Prop) (q : path) : Prop :=
  below q (root ++ ["subsystems"]) ∨ below q (root ++ ["ports"]) ∨ below q (root ++ ["hosts"])
  ∨ ∃ h, hosts h ∧ q = host_path h.

Context (hosts subs ports : string → Prop).
Abbreviation C := (creatable hosts).
Abbreviation S := (writable subs ports).

Lemma writable_subsys n q : subs n → below (subsys_path n) q → S q.
Proof. intros ? ?. left. eauto. Qed.
Lemma writable_port port q : ports port → in_port port q → S q.
Proof. intros ? ?. right. eauto. Qed.
Lemma below_snoc (q p : path) c : below q (p ++ [c]) → below q p ∨ q = p ++ [c].
Proof.
  intros [r Hr]%below_spec. destruct r as [|x r] using rev_ind.
  - right. by rewrite app_nil_r in Hr.
  - left. rewrite app_assoc in Hr. apply app_inj_tail in Hr as [-> _]. apply below_app.
Qed.
Lemma subsys_ancestor n r q : subs n → below q (subsys_path n ++ r) → C q ∨ S q.
Proof.
  intros Hn [Hq|Hq]%below_split; [|right; by eapply writable_subsys].
  unfold subsys_path in Hq. change ["subsystems"; n] with (["subsystems"] ++ [n]) in Hq.
  rewrite app_assoc in Hq.
  apply below_snoc in Hq as [Hq| ->]; [by left; left|]. right.
  eapply writable_subsys; [done|]. rewrite <- app_assoc. apply below_refl.
Qed.
Lemma subsys_ancestor0 n q : subs n → below q (subsys_path n) → C q ∨ S q.
Proof. intros Hn Hq. apply (subsys_ancestor n []); [done|]. by rewrite app_nil_r. Qed.
Lemma host_ancestor h q : hosts h → below q (host_path h) → C q ∨ S q.
Proof.
  intros Hh Hq. unfold host_path in Hq. change ["hosts"; h] with (["hosts"] ++ [h]) in Hq.
  rewrite app_assoc in Hq.
  left. apply below_snoc in Hq as [Hq| ->]; [by right; right; left|].
  right; right; right. exists h. by rewrite <- app_assoc.
Qed.
Lemma in_port_spec port r :
  in_port port (port_path port ++ r) ↔ ∀ l r', r = "subsystems" :: l :: r' → ours l.
Proof.
  unfold in_port. split.
  - intros [_ H] l r' ->. apply H. unfold link_path, port_path. rewrite <- app_assoc.
    apply below_spec. exists r'. by rewrite <- app_assoc.
  - intros H. split; [apply below_app|]. intros l [r' Hr]%below_spec.
    unfold link_path, port_path in Hr. rewrite <- !app_assoc in Hr. apply app_inv_head in Hr.
    cbn in Hr. simplify_eq. by eapply H.
Qed.
Lemma port_ancestor port r q :
  ports port → (∀ l r', r = "subsystems" :: l :: r' → ours l) →
  below q (port_path port ++ r) → C q ∨ S q.
Proof.
  intros Hp Hr Hq. pose proof Hq as [Hq'|Hq']%below_split.
  - unfold port_path in Hq'. change ["ports"; port] with (["ports"] ++ [port]) in Hq'.
    rewrite app_assoc in Hq'. apply below_snoc in Hq' as [Hq'| ->]; [by left; right; left|].
    right. eapply writable_port; [done|]. rewrite <- app_assoc. cbn.
    change (root ++ ["ports"; port]) with (port_path port). rewrite <- (app_nil_r (port_path port)).
    by apply in_port_spec.
  - right. eapply writable_port; [done|]. apply below_spec in Hq' as [r2 ->].
    apply below_spec in Hq as [r3 Hr3]. rewrite <- app_assoc in Hr3. apply app_inv_head in Hr3.
    apply in_port_spec. intros l r' ->. by apply (Hr l (r' ++ r3)).
Qed.

(** ** Each step is safe *)

Context {K : Kernel}.

Lemma safe_apply_namespace n r ns uuid :
  subs n → respects (safe C S) (apply_namespace (subsys_path n ++ r) ns uuid).
Proof.
  intros Hn. unfold apply_namespace. rewrite <- !app_assoc.
  safe_steps; try (intros q Hq; by eapply subsys_ancestor);
    (eapply writable_subsys; [done|]; rewrite <- ?app_assoc; apply below_app).
Qed.
Lemma safe_delete_subsystem n : subs n → respects (safe C S) (delete_subsystem (subsys_path n)).
Proof.
  intros Hn. unfold delete_subsystem.
  safe_steps; try apply app_cons_ne_nil; try (intros q Hq);
    (eapply writable_subsys; [done|]; done || (by eapply below_app_inv) || apply below_app).
Qed.
Lemma safe_apply_subsystem s :
  subs (as_str (sub_nqn s)) → (∀ h, h ∈ sub_allowed_hosts s → hosts (as_str h)) →
  respects (safe C S) (apply_subsystem root s).
Proof.
  intros Hn Hh. unfold apply_subsystem, apply_hosts.
  change (root ++ ["subsystems"; as_str (sub_nqn s)]) with (subsys_path (as_str (sub_nqn s))).
  safe_steps; try (by apply safe_apply_namespace); rewrite <- ?app_assoc;
    try apply app_cons_ne_nil; try (intros q Hq);
    try (eapply host_ancestor; [by apply Hh|done]);
    try (by eapply subsys_ancestor0); try (by eapply subsys_ancestor);
    (eapply writable_subsys; [done|]; (by eapply below_app_inv) || apply below_app).
Qed.
Lemma safe_apply_port p :
  ports (show_uint (port_id p)) → (∀ n, n ∈ port_subsystems p → ours (as_str n)) →
  respects (safe C S) (apply_port root p OUR_NQN_PREFIX).
Proof.
  intros Hp Hn. unfold apply_port. set (port := show_uint (port_id p)) in *.
  change (root ++ ["ports"; port]) with (port_path port).
  assert (Haddr : ∀ kv : string * string, kv ∈ port_addr p → kv.1 ≠ "subsystems").
  { intros kv Hkv. unfold port_addr in Hkv. destruct (port_trtype p);
      rewrite !elem_of_cons, elem_of_nil in Hkv; destruct_or!; by subst. }
  assert (Hdir : ∀ q, below q (port_path port) → C q ∨ S q).
  { intros q Hq. rewrite <- (app_nil_r (port_path port)) in Hq.
    by apply (port_ancestor port [] q). }
  safe_steps; rewrite <- ?app_assoc; try done.
  - eapply writable_port; [done|]. apply in_port_spec. intros l r' [= <- <-].
    unfold ours. by apply Is_true_true.
  - eapply writable_port; [done|]. apply in_port_spec. intros l r' [= He].
  - intros q Hq. by apply (port_ancestor port ["subsystems"] q).
  - eapply writable_port; [done|]. apply in_port_spec. intros l r' [= <- <-]. by apply Hn.
Qed.
Lemma safe_drop_links port want cur :
  (∀ l, l ∈ cur → ours l → ports port) →
  respects (safe C S) (drop_links (root ++ ["ports"; port; "subsystems"]) want cur).
Proof.
  intros Hp. induction cur as [|l cur IH]; cbn; [by safe_step|].
  specialize (IH ltac:(intros; eapply Hp; [by right|done])). safe_steps; try done.
  apply andb_true_iff in Heqb as [Hl%Is_true_true _].
  rewrite <- app_assoc. change (root ++ ["ports"; port; "subsystems"] ++ [l])
    with (root ++ (["ports"; port] ++ ["subsystems"; l])). rewrite app_assoc.
  eapply writable_port; [by eapply Hp; [left|]|]. apply in_port_spec. by intros l' r' [= <- <-].
Qed.
Lemma shrinks_drop_links links want cur : respects shrinks (drop_links links want cur).
Proof.
  induction cur as [|l cur IH]; cbn; [by respects_step|].
  repeat (respects_step || apply shrinks_remove_file_ok); done.
Qed.
Lemma drop_links_true links want cur t n t' n' :
  drop_links links want cur t n = (Ok true, t', n') → ∃ l, l ∈ cur ∧ ours l.
Proof.
  revert t n. induction cur as [|l cur IH]; intros t n; cbn; [done|].
  destruct (ours l && _) eqn:Hb.
  - intros _. exists l. split; [left|]. apply Is_true_true. by apply andb_true_iff in Hb as [? _].
  - intros (l' & ? & ?)%IH. exists l'. split; [by right|done].
Qed.
(** Phase A, from a tree that has not gained anything since [t0]: it is safe when
    the ports holding one of our links in [t0] are writable, and it reports only
    such ports. *)
Lemma drop_stale_run d t0 ps t n r t' n' :
  (∀ port l, ours l → is_Some (t0 !! link_path port l) → ports port) →
  drop_stale root d ps t n = (r, t', n') → shrinks t0 t →
  safe C S t t' ∧ shrinks t0 t' ∧ ∀ cands, r = Ok cands → Forall ports cands.
Proof.
  intros Hports. revert t n r. induction ps as [|port ps IH]; intros t n r; cbn.
  { intros [= <- <- <-] Hs. split_and!; [reflexivity|done|]. intros cands [= <-]. constructor. }
  unfold mbind, io_bind, io_get, mret, io_ret. cbn. intros Hrun Hs.
  set (links := root ++ ["ports"; port; "subsystems"]) in *.
  assert (Hcur : ∀ l, l ∈ dir_entries t links → ours l → ports port).
  { intros l [_ Hl]%elem_of_dir_entries Ho. eapply Hports; [done|]. apply Hs.
    unfold links in Hl. by rewrite <- app_assoc in Hl. }
  destruct (drop_links links (desired_links d port) (dir_entries t links) t n)
    as [[[removed|e] t1] n1] eqn:Hd.
  - pose proof (safe_drop_links port _ _ Hcur _ _ _ _ _ Hd) as Hsafe.
    assert (Hs1 : shrinks t0 t1) by (etrans; [done|by eapply shrinks_drop_links]).
    destruct (drop_stale root d ps t1 n1) as [[[rest|e] t2] n2] eqn:Hrest; simplify_eq;
      destruct (IH _ _ _ Hrest Hs1) as (Hsafe2 & Hs2 & Hc).
    + split_and!; [by etrans|done|]. intros cands [= <-].
      destruct removed; [constructor|]; [|by apply Hc..].
      apply drop_links_true in Hd as (l & Hin & Ho). by eapply Hcur.
    + split_and!; [by etrans|done|done].
  - simplify_eq. split_and!; [by eapply safe_drop_links| |done].
    etrans; [done|by eapply shrinks_drop_links].
Qed.
Lemma safe_delete_undesired d :
  (∀ n, ours n → subs n) → respects (safe C S) (delete_undesired root d).
Proof.
  intros Hs. unfold delete_undesired. safe_steps. apply safe_delete_subsystem, Hs.
  apply Is_true_true. by apply andb_true_iff in Heqb as [? _].
Qed.
Lemma safe_reap_ports d candidates :
  Forall ports candidates → respects (safe C S) (reap_ports root d candidates).
Proof.
  intros Hc. unfold reap_ports. respects_step. rewrite Forall_forall in Hc.
  rename a into port. apply respects_get_bind. intros t n r t' n' Hrun.
  destruct (_ && _) eqn:Hb; [|by apply (respects_ret (safe C S) tt _ _ _ _ _ Hrun)].
  apply andb_true_iff in Hb as [_ Hempty].
  intros Hwf. split; [eapply wf_remove_object_dir; [apply app_cons_ne_nil|done|done]|].
  intros q Hq. left.
  destruct (decide (Is_true (below (port_path port) q))) as [Hb|Hb].
  2: { eapply keeps_remove_object_dir; [done|]. exact Hb. }
  assert (Hf : ∃ l, below (link_path port l) q ∧ ¬ ours l).
  { apply below_spec in Hb as [r0 ->].
    destruct r0 as [|x [|l r0]].
    1, 2: destruct Hq; eapply writable_port; [by apply Hc|]; by apply in_port_spec.
    destruct (decide (x = "subsystems")) as [->|Hx].
    - exists l. split; [apply below_spec; exists r0; unfold link_path, port_path; by rewrite <- !app_assoc|].
      intros Hl. apply Hq. eapply writable_port; [by apply Hc|]. apply in_port_spec.
      by intros l' r' [= <- <-].
    - destruct Hq. eapply writable_port; [by apply Hc|]. apply in_port_spec.
      by intros l' r' [= ? <- <-]. }
  destruct Hf as (l & Hl & Hno).
  assert (Habs : t !! q = None).
  { destruct (t !! q) eqn:E; [|done]. exfalso.
    apply below_spec in Hl as [r0 ->]. unfold link_path in E.
    change ["ports"; port; "subsystems"; l] with (["ports"; port; "subsystems"] ++ [l]) in E.
    rewrite app_assoc in E. rewrite <- (app_assoc (root ++ _) [l] r0) in E. cbn in E.
    assert (Hin : l ∈ dir_entries t (root ++ ["ports"; port; "subsystems"])).
    { apply elem_of_dir_entries. split.
      - eapply (wf_ancestor _ _ (l :: r0)); [done|by eexists|done].
      - destruct r0 as [|y r0]; [by eexists|].
        change (l :: y :: r0) with ([l] ++ y :: r0) in E. rewrite app_assoc in E.
        assert (Hd : is_dir t ((root ++ ["ports"; port; "subsystems"]) ++ [l]))
          by (eapply (wf_ancestor _ _ (y :: r0)); [done|by eexists|done]).
        apply is_dir_lookup in Hd; [by eexists|]. by destruct root. }
    destruct (dir_entries _ _); [by apply elem_of_nil in Hin|done]. }
  rewrite Habs. destruct (t' !! q) eqn:E; [|done].
  assert (Hs : is_Some (t !! q)) by (eapply shrinks_remove_object_dir; [done|by eexists]).
  rewrite Habs in Hs. by destruct Hs.
Qed.
End region.

(** ** The whole pass *)

(** A desired state that only names our own objects, as the renderer's does. *)
Definition ours_only (d : NvmetDesired) : Prop :=
  (∀ s, s ∈ nd_subsystems d → ours (as_str (sub_nqn s))) ∧
  (∀ p n, p ∈ nd_ports d → n ∈ port_subsystems p → ours (as_str n)).
(** The ports a pass may write: the desired ones and those holding our links. *)
Definition pass_ports (root : path) (d : NvmetDesired) (t : tree) (port : string) : Prop :=
  (∃ p, p ∈ nd_ports d ∧ show_uint (port_id p) = port) ∨
  (∃ l, ours l ∧ is_Some (t !! link_path root port l)).
Definition pass_hosts (d : NvmetDesired) (h : string) : Prop :=
  ∃ s hn, s ∈ nd_subsystems d ∧ hn ∈ sub_allowed_hosts s ∧ as_str hn = h.

Lemma reconcile_safe {K : Kernel} root d t n r t' n' :
  ours_only d → reconcile d root t n = (r, t', n') →
  safe (creatable root (pass_hosts d)) (writable root (λ n, Is_true (ours n)) (pass_ports root d t)) t t'.
Proof.
  intros [Hsub Hport] Hrun. unfold reconcile, mbind, io_bind, io_get, mret, io_ret in Hrun.
  set (C := creatable root (pass_hosts d)). set (S := writable root (λ n, Is_true (ours n)) (pass_ports root d t)).
  destruct (drop_stale root d (dir_entries t (root ++ ["ports"])) t n) as [[rA tA] nA] eqn:HA.
  assert (HA' := HA). eapply (drop_stale_run root (pass_hosts d) (λ n, Is_true (ours n)) (pass_ports root d t) d t)
    in HA' as (HsA & _ & Hc); [|by right; eauto|reflexivity].
  destruct rA as [cands|e]; [|by simplify_eq]. specialize (Hc _ eq_refl).
  etrans; [exact HsA|]. clear HA HsA.
  assert (Hrest : respects (safe C S) (
    delete_undesired root d ≫= λ _, io_for (nd_subsystems d) (apply_subsystem root) ≫= λ _,
    io_for (nd_ports d) (λ p, apply_port root p OUR_NQN_PREFIX) ≫= λ _,
    reap_ports root d cands ≫= λ _, mret (M:=io) tt)).
  { respects_step; [by apply safe_delete_undesired|]. respects_step.
    { respects_step. apply safe_apply_subsystem; [by apply Hsub|]. intros h Hh. by eexists _, h. }
    respects_step.
    { respects_step. apply safe_apply_port; [by left; eexists|]. intros m Hm. by eapply Hport. }
    respects_step; [by apply safe_reap_ports|by respects_step]. }
  specialize (Hrest tA nA). unfold mbind, io_bind, mret, io_ret in Hrest.
  destruct (delete_undesired root d tA nA) as [[[u|e] t1] n1];
    [|simplify_eq; by eapply Hrest].
  destruct (io_for (nd_subsystems d) (apply_subsystem root) t1 n1) as [[[u1|e] t2] n2];
    [|simplify_eq; by eapply Hrest].
  destruct (io_for (nd_ports d) _ t2 n2) as [[[u2|e] t3] n3];
    [|simplify_eq; by eapply Hrest].
  destruct (reap_ports root d cands t3 n3) as [[[u3|e] t4] n4];
    simplify_eq; by eapply Hrest.
Qed.

(** The renderer only names our own objects. *)
Lemma render_ours_only nvme dflt pci reserved d :
  render_nvmet nvme dflt pci reserved = Ok d → ours_only d.
Proof.
  intros (named & Hm & Hp & Hsub)%render_nvmet_inv. apply named_Ok in Hm as [_ Hnq].
  rewrite Forall_forall in Hnq. split.
  - intros s Hs. rewrite Hsub in Hs. apply list_elem_of_omap in Hs as ([e n] & Hin & Hr).
    cbn in Hr. destruct (to_option _); simplify_eq/=. apply Hnq in Hin. by eapply nvme_nqn_ours.
  - intros p n Hin Hn.
    destruct (proj1 (assign_ids_elem _ _ _ _ (port_key p) (port_subsystems p) Hp))
      as (q & Hq & _ & Hqs); [by exists p|]. rewrite <- Hqs in Hn.
    destruct (render_ports_named _ _ _ _ _ Hq Hn) as (e & He). apply Hnq in He.
    by eapply nvme_nqn_ours.
Qed.
(** A live port that carries links, none of them ours, has a reserved id. *)
Lemma foreign_port_reserved root t port id l :
  is_dir t (port_path root port) → is_dir t (root ++ ["ports"]) →
  is_dir t (port_path root port ++ ["subsystems"]) →
  is_Some (t !! link_path root port l) →
  (∀ l, is_Some (t !! link_path root port l) → ¬ ours l) →
  parse_uint 16 port = Some id → id ∈ foreign_port_ids (read t root).
Proof.
  intros Hd Hp Hls Hl Hno Hid. unfold foreign_port_ids. apply elem_of_union. right.
  apply elem_of_list_to_set, list_elem_of_fmap.
  assert (∃ pt, read_port t root port = Some pt ∧ ap_id pt = id
    ∧ ap_subsystems pt = dir_entries t ((root ++ ["ports"; port]) ++ ["subsystems"]))
    as (pt & Hpt & <- & Hpl) by (unfold read_port; rewrite Hid; by eexists).
  exists pt. split; [done|]. apply list_elem_of_filter. split.
  2: { unfold read. cbn [an_ports]. apply list_elem_of_omap. exists port. split; [|done].
       apply elem_of_dir_entries. split; [done|]. apply is_dir_lookup in Hd; [|apply app_cons_ne_nil].
       unfold port_path in Hd. change ["ports"; port] with (["ports"] ++ [port]) in Hd.
       rewrite app_assoc in Hd. by eexists. }
  assert (Hlk : ∀ l, l ∈ ap_subsystems pt ↔
    is_Some (t !! link_path root port l)).
  { intros l'. rewrite Hpl, elem_of_dir_entries. unfold link_path.
    rewrite <- !app_assoc. cbn. split; [tauto|].
    split; [|done]. unfold port_path in Hls. by rewrite <- app_assoc in Hls. }
  unfold is_foreign_port. destruct (ap_subsystems pt) as [|x ls] eqn:E.
  { by apply Hlk, elem_of_nil in Hl. }
  cbn [negb andb]. apply negb_True. rewrite existb_True. intros (y & Hy & Ho)%Exists_exists.
  apply (Hno y); [|done]. by apply Hlk.
Qed.

(** ** Properties *)

Lemma below_root (root a b : path) : below (root ++ a) (root ++ b) ↔ below a b.
Proof.
  rewrite !below_spec. setoid_rewrite <- app_assoc. split; intros [r Hr]; exists r.
  - by apply app_inv_head in Hr.
  - by rewrite Hr.
Qed.
(** A port that holds links, none of them ours. *)
Definition foreign_port (root : path) (t : tree) (port : string) : Prop :=
  (∃ l, is_Some (t !! link_path root port l)) ∧
  ∀ l, is_Some (t !! link_path root port l) → ¬ ours l.

Lemma not_creatable root hosts q a b c r :
  q = root ++ a :: b :: c :: r → ¬ creatable root hosts q.
Proof.
  intros -> [H|[H|[H|(h & _ & H)]]]; try (apply below_root in H; cbn in H; by bool_split).
  unfold host_path in H. apply app_inv_head in H. by simplify_eq.
Qed.
Lemma writable_inv root subs ports a b r :
  writable root subs ports (root ++ a :: b :: r) →
  (a = "subsystems" ∧ subs b) ∨
  (a = "ports" ∧ ports b ∧ ∀ l r', r = "subsystems" :: l :: r' → ours l).
Proof.
  intros [(n & Hn & Hb)|(port & Hp & Hb & Hl)].
  - unfold subsys_path in Hb. apply below_root in Hb. cbn in Hb. bool_split. subst. by left.
  - unfold port_path in Hb. apply below_root in Hb. cbn in Hb. bool_split. subst. right.
    split_and!; [done..|]. intros l r' ->. apply Hl. apply below_root. cbn.
    repeat (apply andb_True; split; [by apply bool_decide_spec|]). done.
Qed.
(** The reserved ids are the CSI port and the ports carrying only foreign links. *)
Lemma reserved_iff root t id :
  wf t → id ∈ foreign_port_ids (read t root) ↔
    id = CSI_PORT_ID ∨ ∃ port, parse_uint 16 port = Some id ∧ foreign_port root t port.
Proof.
  intros Hwf. split.
  - unfold foreign_port_ids. rewrite elem_of_union, elem_of_singleton, elem_of_list_to_set.
    intros [?|(pt & -> & [Hf Hin]%list_elem_of_filter)%list_elem_of_fmap]; [by left|right].
    cbn [read an_ports] in Hin. apply list_elem_of_omap in Hin as (port & _ & Hr). unfold read_port in Hr.
    destruct (parse_uint 16 port) as [id'|] eqn:Hid; [|done]. cbn in Hr. injection Hr as <-.
    exists port. split; [done|]. unfold is_foreign_port in Hf. cbn in Hf.
    apply andb_True in Hf as [Hne Hno].
    assert (Hl : ∀ l, l ∈ dir_entries t ((root ++ ["ports"; port]) ++ ["subsystems"]) ↔
      is_Some (t !! link_path root port l)).
    { intros l. rewrite elem_of_dir_entries. unfold link_path. rewrite <- !app_assoc. cbn.
      split; [tauto|]. intros Hs. split; [|done]. apply (Hwf _ l). by rewrite <- app_assoc. }
    split.
    + destruct (dir_entries _ _) as [|l ls]; [done|]. exists l. apply Hl. left.
    + intros l Hs Ho. apply negb_True in Hno. apply Hno, existb_True, Exists_exists.
      exists l. split; [by apply Hl|done].
  - intros [->|(port & Hid & [l Hl] & Hno)]; [unfold foreign_port_ids; set_solver|].
    eapply foreign_port_reserved; [..|done]; try done.
    + eapply (wf_ancestor _ _ ["subsystems"; l]); [done| |done].
      unfold port_path. by rewrite <- app_assoc.
    + eapply (wf_ancestor _ _ [port; "subsystems"; l]); [done| |done].
      by rewrite <- app_assoc.
    + eapply (wf_ancestor _ _ [l]); [done| |done].
      unfold port_path. by rewrite <- !app_assoc.
Qed.
Lemma foreign_port_not_desired root t port nvme dflt pci d p :
  wf t → foreign_port root t port →
  render_nvmet nvme dflt pci (foreign_port_ids (read t root)) = Ok d →
  p ∈ nd_ports d → show_uint (port_id p) ≠ port.
Proof.
  intros Hwf Hf (named & _ & (_ & _ & _ & Hall)%assign_ids_Ok & _)%render_nvmet_inv Hp <-.
  rewrite Forall_forall in Hall. apply Hall in Hp as [Hr _]. apply Hr, reserved_iff; [done|].
  right. eexists. split; [apply parse_show_uint|done].
Qed.
Lemma foreign_port_not_written root t port nvme dflt pci d :
  wf t → foreign_port root t port →
  render_nvmet nvme dflt pci (foreign_port_ids (read t root)) = Ok d → ¬ pass_ports root d t port.
Proof.
  intros Hwf Hf Hd [(p & Hp & Hid)|(l & Ho & Hl)].
  - by eapply foreign_port_not_desired.
  - by eapply Hf.
Qed.

(** What a pass never touches: everything that is not ours. *)
Definition foreign_kept (root : path) (t t' : tree) : Prop :=
  wf t' ∧
  (∀ nq p, ¬ ours nq → t' !! (subsys_path root nq ++ p) = t !! (subsys_path root nq ++ p)) ∧
  (∀ port l p, ¬ ours l → t' !! (link_path root port l ++ p) = t !! (link_path root port l ++ p)) ∧
  (∀ port p, foreign_port root t port →
     t' !! (port_path root port ++ p) = t !! (port_path root port ++ p)) ∧
  (∀ p, (∀ l, is_Some (t !! link_path root (show_uint CSI_PORT_ID) l) → ¬ ours l) →
     t' !! (port_path root (show_uint CSI_PORT_ID) ++ p)
     = t !! (port_path root (show_uint CSI_PORT_ID) ++ p)) ∧
  (∀ h p, is_Some (t !! (host_path root h ++ p)) →
     t' !! (host_path root h ++ p) = t !! (host_path root h ++ p)).
Lemma reconcile_foreign_kept {K : Kernel} nvme dflt pci root t n d r t' n' :
  wf t →
  render_nvmet nvme dflt pci (foreign_port_ids (read t root)) = Ok d →
  reconcile d root t n = (r, t', n') →
  foreign_kept root t t'.
Proof.
  intros Hwf Hd Hrun. pose proof (render_ours_only _ _ _ _ _ Hd) as Hours.
  destruct (reconcile_safe _ _ _ _ _ _ _ Hours Hrun Hwf) as [Hwf' Hf].
  assert (Hun : ∀ a b p, ¬ writable root (λ n, Is_true (ours n)) (pass_ports root d t) (root ++ a :: b :: p) →
    a ≠ "hosts" → t' !! (root ++ a :: b :: p) = t !! (root ++ a :: b :: p)).
  { intros a b p Hw Ha. destruct (Hf _ Hw) as [|(HC & _ & _)]; [done|]. exfalso.
    destruct p as [|c p]; [|by eapply not_creatable].
    destruct HC as [HC|[HC|[HC|(h & _ & HC)]]]; try (apply below_root in HC; cbn in HC; by bool_split).
    unfold host_path in HC. apply app_inv_head in HC. by simplify_eq. }
  assert (Hport : ∀ port p, ¬ pass_ports root d t port →
    t' !! (port_path root port ++ p) = t !! (port_path root port ++ p)).
  { intros port p Hp. unfold port_path. rewrite <- app_assoc. apply Hun; [|done].
    by intros [[? _]|(_ & ? & _)]%writable_inv. }
  split_and!; [done|..].
  - intros nq p Hn. unfold subsys_path. rewrite <- app_assoc. apply Hun; [|done].
    by intros [[_ ?]|[? _]]%writable_inv.
  - intros port l p Hl. unfold link_path. rewrite <- app_assoc. apply Hun; [|done].
    intros [[? _]|(_ & _ & H)]%writable_inv; [done|]. by eapply Hl, H.
  - intros port p Hp. apply Hport. by eapply foreign_port_not_written.
  - intros p Hcsi. apply Hport. intros [(pt & Hin & Hid)|(l & Ho & Hl)].
    + destruct (render_nvmet_inv _ _ _ _ _ Hd) as (named & _ & (_ & _ & _ & Hall)%assign_ids_Ok & _).
      rewrite Forall_forall in Hall. apply Hall in Hin as [Hr _]. apply Hr.
      assert (port_id pt = CSI_PORT_ID) as ->; [|unfold foreign_port_ids; set_solver].
      apply (f_equal (parse_uint 16)) in Hid. rewrite !parse_show_uint in Hid. by simplify_eq.
    + by apply Hcsi in Hl.
  - intros h p [k Hk]. unfold host_path in *. rewrite <- app_assoc in *. cbn in *.
    destruct (Hf (root ++ "hosts" :: h :: p)) as [|(_ & Hn & _)]; [|done|congruence].
    intros [[? _]|[? _]]%writable_inv; done.
Qed.

(** C1: a reconcile pass against the live tree never touches what is not ours, for
    every kernel (any call may be refused at any time) and every outcome. After
    rendering against the ports it read, the pass leaves unchanged every foreign
    subsystem with everything below it, every foreign link on every port (shared
    ports included), every port that carries only foreign links, the CSI port
    unless one of our links sits there, and every host directory that existed;
    and what it leaves is a well-formed tree. *)
Theorem reconcile_foreign_untouched {K : Kernel} nvme dflt pci root t n d r t' n' :
  wf t →
  render_nvmet nvme dflt pci (foreign_port_ids (read t root)) = Ok d →
  reconcile d root t n = (r, t', n') →
  wf t' ∧
  (∀ nq p, ¬ ours nq → t' !! (subsys_path root nq ++ p) = t !! (subsys_path root nq ++ p)) ∧
  (∀ port l p, ¬ ours l → t' !! (link_path root port l ++ p) = t !! (link_path root port l ++ p)) ∧
  (∀ port p, foreign_port root t port →
     t' !! (port_path root port ++ p) = t !! (port_path root port ++ p)) ∧
  (∀ p, (∀ l, is_Some (t !! link_path root (show_uint CSI_PORT_ID) l) → ¬ ours l) →
     t' !! (port_path root (show_uint CSI_PORT_ID) ++ p)
     = t !! (port_path root (show_uint CSI_PORT_ID) ++ p)) ∧
  (∀ h p, is_Some (t !! (host_path root h ++ p)) →
     t' !! (host_path root h ++ p) = t !! (host_path root h ++ p)).
Proof. exact (reconcile_foreign_kept nvme dflt pci root t n d r t' n'). Qed.

(** A tree with a foreign subsystem linked on port 1 and a stale link of ours on
    port 2. *)
Definition ex_root : path := ["cfg"].
Definition ex_tree : tree := list_to_map
  [(["cfg"], Dir); (["cfg"; "subsystems"], Dir); (["cfg"; "ports"], Dir);
   (["cfg"; "subsystems"; "nqn.2003-01.org.other:a"], Dir);
   (["cfg"; "subsystems"; "nqn.2003-01.org.other:a"; "attr_allow_any_host"], File "1");
   (["cfg"; "ports"; "1"], Dir); (["cfg"; "ports"; "1"; "subsystems"], Dir);
   (["cfg"; "ports"; "1"; "subsystems"; "nqn.2003-01.org.other:a"],
    Link ["cfg"; "subsystems"; "nqn.2003-01.org.other:a"]);
   (["cfg"; "subsystems"; "nqn.2026-06.io.greendot:old"], Dir);
   (["cfg"; "ports"; "2"], Dir); (["cfg"; "ports"; "2"; "subsystems"], Dir);
   (["cfg"; "ports"; "2"; "subsystems"; "nqn.2026-06.io.greendot:old"],
    Link ["cfg"; "subsystems"; "nqn.2026-06.io.greendot:old"])].
(** [wf] decided by checking the parent of each path. *)
Definition wfb (t : tree) : bool :=
  forallb (λ kv, match kv.1 with [] => true | q => is_dir t (parent q) end) (map_to_list t).
Lemma wfb_sound t : wfb t = true → wf t.
Proof.
  unfold wfb. rewrite forallb_forall. intros H q c [k Hk].
  specialize (H (q ++ [c], k)). apply Is_true_true. cbn in H.
  rewrite <- (parent_snoc q c). destruct (q ++ [c]) eqn:E; [by destruct q|]. apply H.
  apply list_elem_of_In, elem_of_map_to_list. done.
Qed.
Definition ex_desired : NvmetDesired :=
  match render_nvmet ex_exports ex_listen ∅ (foreign_port_ids (read ex_tree ex_root)) with
  | Ok d => d
  | Err _ => {| nd_subsystems := []; nd_ports := [] |}
  end.
Definition ex_run : result ioerr string * tree * nat :=
  reconcile (K:=permissive) ex_desired ex_root ex_tree 0%nat.
Lemma ex_tree_wf : wf ex_tree.
Proof. apply wfb_sound. vm_compute. reflexivity. Qed.
Lemma ex_foreign_port : foreign_port ex_root ex_tree "1".
Proof.
  split; [exists "nqn.2003-01.org.other:a"; eexists; reflexivity|].
  intros l [k Hk] Ho. apply elem_of_list_to_map_2 in Hk.
  unfold link_path, ex_root in Hk. cbn in Hk.
  repeat (apply elem_of_cons in Hk as [Hk|Hk]; [simplify_eq; by vm_compute in Ho|]).
  by apply elem_of_nil in Hk.
Qed.
Lemma reconcile_foreign_untouched_witness :
  is_ok ex_run.1.1 = true ∧ foreign_port ex_root ex_tree "1" ∧
  ex_run.1.2 !! ["cfg"; "ports"; "3"; "addr_traddr"] = Some (File "10.0.0.5") ∧
  ex_run.1.2 !! ["cfg"; "ports"; "1"; "subsystems"; "nqn.2003-01.org.other:a"]
  = Some (Link ["cfg"; "subsystems"; "nqn.2003-01.org.other:a"]).
Proof.
  split; [vm_compute; reflexivity|]. split; [exact ex_foreign_port|].
  split; [vm_compute; reflexivity|].
  destruct (reconcile_foreign_untouched (K:=permissive) ex_exports ex_listen ∅ ex_root ex_tree 0%nat
    ex_desired ex_run.1.1 ex_run.1.2 ex_run.2) as (_ & _ & _ & Hport & _).
  - exact ex_tree_wf.
  - vm_compute. reflexivity.
  - unfold ex_run. by destruct (reconcile _ _ _ _) as [[??]?].
  - etransitivity; [exact (Hport "1" ["subsystems"; "nqn.2003-01.org.other:a"] ex_foreign_port)|].
    vm_compute. reflexivity.
Defined.
