(* ===== verification/NvmetConverge.v ===== *)
(** * A successful reconcile pass converges (greendotctl/src/nvmet.rs)

    What each step of a pass has done when it succeeds, and the consequence: the
    tree a successful pass leaves satisfies the drift predicate of render.rs exactly
    when no subsystem is open to any host and lists hosts all the same. *)
From Stdlib Require Import Ascii String.
From stdpp Require Import base option list strings sets gmap pretty.
From S2P Require Import Prelude Ordered Validate IpAddr Types Desired Actual Render RenderFacts Task Fs Nvmet NvmetSafety.
#[local] Open Scope string_scope.
#[local] Open Scope list_scope.
#[local] Open Scope N_scope.

(** ** Agreement of two trees below a path *)

Definition agree (p : path) (t t' : tree) : Prop := ∀ r, t' !! (p ++ r) = t !! (p ++ r).
#[export] Instance agree_preorder p : PreOrder (agree p).
Proof. split; [by intros t r|]. intros t1 t2 t3 H1 H2 r. by rewrite H2, H1. Qed.
Lemma agree_sub p r t t' : agree p t t' → agree (p ++ r) t t'.
Proof. intros H x. rewrite <- app_assoc. apply H. Qed.
Lemma agree_read p r t t' : agree p t t' → read_trim t' (p ++ r) = read_trim t (p ++ r).
Proof. intros H. unfold read_trim, read_to_string. by rewrite H. Qed.
Lemma agree_is_dir p r t t' : agree p t t' → p ≠ [] → is_dir t' (p ++ r) = is_dir t (p ++ r).
Proof.
  intros H Hp. specialize (H r). destruct p as [|x p]; [done|]. cbn in *. by rewrite H.
Qed.
Lemma agree_entry p r c t t' :
  agree p t t' → p ≠ [] → c ∈ dir_entries t' (p ++ r) ↔ c ∈ dir_entries t (p ++ r).
Proof.
  intros H Hp. rewrite !elem_of_dir_entries, (agree_is_dir p r t t') by done.
  rewrite <- !app_assoc. by rewrite (H (r ++ [c])).
Qed.
Lemma same_outside_agree S p t t' :
  same_outside S t t' → (∀ r, ¬ S (p ++ r)) → agree p t t'.
Proof. intros H HS r. apply H, HS. Qed.
(** Outside the writable and the creatable set trees agree. *)
Lemma frame_agree C S p t t' :
  frame C S t t' → (∀ r, ¬ S (p ++ r)) → (∀ r, ¬ C (p ++ r)) → agree p t t'.
Proof. intros H HS HC r. destruct (H _ (HS r)) as [|(Hc & _)]; [done|by destruct (HC r)]. Qed.

Lemma read_trim_plain t p s : t !! p = Some (File s) → all_chars plain_char s → read_trim t p = s.
Proof.
  intros H Hs. unfold read_trim, read_to_string. rewrite H. apply trim_id.
  by eapply (all_chars_incl plain_char).
Qed.
Lemma vstring_plain {k} (v : vstring k) : all_chars plain_char (as_str v).
Proof. apply (validator_plain k). apply (raw_ok v). Qed.

(** Splitting a successful run, with the trees in between well-formed. *)
Lemma oks_bind_wf {A B} (m : io A) (f : A → io B) t b t' :
  oks (m ≫= f) t b t' → wf t → respects wf_rel m →
  ∃ a t1, wf t1 ∧ oks m t a t1 ∧ oks (f a) t1 b t'.
Proof.
  intros (a & t1 & Hm & Hf)%oks_bind Hwf Hw. exists a, t1. split_and!; [|done..].
  by eapply (oks_respects wf_rel).
Qed.

Section calls.
Context {K : Kernel}.

(** ** What the wrapped calls have done *)

Lemma oks_write_attr p v t t' : oks (write_attr p v) t tt t' → t' = <[p := File v]> t.
Proof. by intros ?%oks_map_err%oks_write. Qed.
Lemma oks_create_dir_all_ok p t t' :
  oks (create_dir_all_ok p) t tt t' →
  (∀ q, below q p → is_dir t' q) ∧ (∀ q, is_Some (t !! q) → t' !! q = t !! q).
Proof. by intros ?%oks_map_err%oks_create_dir_all. Qed.
Lemma oks_remove_file_ok p t t' : oks (remove_file_ok p) t tt t' → t' = delete p t.
Proof.
  unfold remove_file_ok. intros [[-> _]%oks_remove_file|(e & t1 & He & H)]%oks_catch; [done|].
  unfold remove_file in He. apply errs_syscall in He as [-> He].
  apply oks_if in H as [[Hn [_ ->]%oks_ret]|[_ []%oks_fail]].
  rewrite delete_id; [done|]. unfold is_not_found in Hn.
  destruct He as [He|[_ He]]; [|by rewrite He in Hn].
  destruct (t !! p) as [[]|]; simplify_eq/=; done.
Qed.
Lemma absent_below t p q : wf t → p ≠ [] → t !! p = None → below p q → t !! q = None.
Proof. intros Hwf Hp Ht [r ->]%below_spec. by apply wf_absent. Qed.
Lemma oks_remove_object_dir p t t' :
  wf t → p ≠ [] → oks (remove_object_dir p) t tt t' → ∀ q, below p q → t' !! q = None.
Proof.
  intros Hwf Hp H q Hq. unfold remove_object_dir in H.
  apply oks_catch in H as [H|(e & t1 & He & H)].
  - unfold remove_dir in H. apply oks_syscall in H as [Hpre ->].
    destruct (decide (q = p)) as [->|Hne]; [apply lookup_delete_eq|].
    rewrite lookup_delete_ne by done.
    destruct (t !! p) as [[]|] eqn:Ht; try done.
    apply below_spec in Hq as [[|c r] ->]; [by rewrite app_nil_r in Hne|].
    change (c :: r) with ([c] ++ r). rewrite app_assoc.
    apply wf_absent; [done| |by destruct p].
    apply entries_nil. by destruct (entries t p).
  - unfold remove_dir in He. apply errs_syscall in He as [-> He].
    apply oks_if in H as [[Hn [_ ->]%oks_ret]|[_ H]].
    + eapply absent_below; [done..| |done]. unfold is_not_found in Hn.
      destruct He as [He|[_ He]]; [|by rewrite He in Hn].
      destruct (t !! p) as [[]|]; simplify_eq/=; try done. by destruct (entries t p); simplify_eq/=.
    + apply oks_catch in H as [H|(e' & t2 & He' & H)]; [by eapply oks_remove_dir_all|].
      apply oks_if in H as [[Hn [_ ->]%oks_ret]|[_ []%oks_fail]].
      destruct (errs_remove_dir_all _ _ _ _ He') as [-> Ht].
      { unfold is_not_found in Hn. by destruct (err_kind e'). }
      by eapply absent_below.
Qed.

(** ** Pruning loops: every entry of a directory that is not kept goes *)

Definition removes (p : path) (t t' : tree) : Prop :=
  wf t' ∧ t' !! p = None ∧ shrinks t t' ∧ same_outside (λ q, Is_true (below p q)) t t'.
Lemma removes_file p t t' : wf t → oks (remove_file_ok p) t tt t' → removes p t t'.
Proof.
  intros Hwf H. pose proof H as ->%oks_remove_file_ok. split_and!.
  - by eapply (oks_respects _ _ _ _ _ (wf_remove_file_ok p) H).
  - apply lookup_delete_eq.
  - apply (oks_respects _ _ _ _ _ (shrinks_remove_file_ok p) H).
  - intros q Hq. apply lookup_delete_ne. intros ->. destruct Hq. apply below_refl.
Qed.
Lemma removes_object_dir p t t' :
  wf t → p ≠ [] → oks (remove_object_dir p) t tt t' → removes p t t'.
Proof.
  intros Hwf Hp H. split_and!.
  - by eapply (oks_respects _ _ _ _ _ (wf_remove_object_dir p Hp) H).
  - eapply oks_remove_object_dir; [done..|]. apply below_refl.
  - apply (oks_respects _ _ _ _ _ (shrinks_remove_object_dir p) H).
  - apply (oks_respects _ _ _ _ _ (keeps_remove_object_dir p) H).
Qed.
Lemma oks_prune (f : string → io unit) dir (keep : string → Prop) t t' :
  (∀ c t1 t2, wf t1 → oks (f c) t1 tt t2 →
     (keep c ∧ t2 = t1) ∨ (¬ keep c ∧ removes (dir ++ [c]) t1 t2)) →
  wf t → oks (io_for (dir_entries t dir) f) t tt t' →
  wf t' ∧ shrinks t t' ∧ (∀ c, ¬ keep c → t' !! (dir ++ [c]) = None) ∧
  (∀ q, (∀ c, ¬ keep c → ¬ below (dir ++ [c]) q) → t' !! q = t !! q).
Proof.
  intros Hf Hwf H.
  assert (HI : wf t' ∧ shrinks t t' ∧
    (∀ c, c ∈ dir_entries t dir → ¬ keep c → t' !! (dir ++ [c]) = None) ∧
    (∀ q, (∀ c, ¬ keep c → ¬ below (dir ++ [c]) q) → t' !! q = t !! q)).
  { refine (oks_for (λ pre t', wf t' ∧ shrinks t t' ∧
      (∀ c, c ∈ pre → ¬ keep c → t' !! (dir ++ [c]) = None) ∧
      (∀ q, (∀ c, ¬ keep c → ¬ below (dir ++ [c]) q) → t' !! q = t !! q)) f _ _ _ _ _ H).
    - split_and!; [done|reflexivity|by intros c ?%elem_of_nil|done].
    - intros pre a post t1 t2 _ (Hw & Hs & Hp & Ho) Ha.
      destruct (Hf _ _ _ Hw Ha) as [[Hk ->]|(Hk & Hw2 & Hn & Hs2 & Ho2)].
      + split_and!; [done..| |done]. intros c [?|Hc]%elem_of_app; [auto|].
        by apply list_elem_of_singleton in Hc as ->.
      + split_and!; [done|by etrans| |].
        * intros c [Hc|Hc%list_elem_of_singleton]%elem_of_app Hkc; [|by subst].
          specialize (Hp c Hc Hkc). destruct (t2 !! (dir ++ [c])) eqn:E; [|done].
          destruct (Hs2 (dir ++ [c])) as [k Hk2]; [by eexists|congruence].
        * intros q Hq. rewrite Ho2 by (by apply Hq). by apply Ho. }
  destruct HI as (Hw & Hs & Hp & Ho). split_and!; [done..| |done]. intros c Hc.
  destruct (t' !! (dir ++ [c])) eqn:E; [|done]. rewrite <- E. apply Hp; [|done].
  apply elem_of_dir_entries. assert (is_Some (t !! (dir ++ [c]))) by (apply Hs; by eexists).
  split; [by eapply Hwf|done].
Qed.

(** ** Namespaces *)

(** The namespace directory reads as the spec says. *)
Definition ns_right (ns_root : path) (ns : NvmetNsSpec) (uuid : option NsUuid) (t : tree) : Prop :=
  let dir := ns_root ++ [show_uint (ns_nsid ns)] in
  is_dir t dir ∧
  read_trim t (dir ++ ["device_path"]) = as_str (ns_device_path ns) ∧
  (∀ u, uuid = Some u → read_trim t (dir ++ ["device_uuid"]) = as_str u) ∧
  read_trim t (dir ++ ["enable"]) = "1".
Lemma ns_right_agree ns_root ns uuid t t' :
  agree (ns_root ++ [show_uint (ns_nsid ns)]) t t' → ns_right ns_root ns uuid t → ns_right ns_root ns uuid t'.
Proof.
  intros Ha (H1 & H2 & H3 & H4). unfold ns_right. cbv zeta.
  rewrite !(agree_read _ _ _ _ Ha). split_and!; [|done| |done].
  - rewrite <- (app_nil_r (ns_root ++ _)), (agree_is_dir _ _ _ _ Ha), app_nil_r; [done|by destruct ns_root].
  - auto.
Qed.
Lemma safe_ns C S ns_root ns uuid :
  (∀ q, below q (ns_root ++ [show_uint (ns_nsid ns)]) → C q ∨ S q) →
  (∀ q, below (ns_root ++ [show_uint (ns_nsid ns)]) q → S q) →
  respects (safe C S) (apply_namespace ns_root ns uuid).
Proof.
  intros HC HS. unfold apply_namespace. safe_steps; try done; apply HS, below_app.
Qed.
Lemma read_insert_ne t p q k : p ≠ q → read_trim (<[p := k]> t) q = read_trim t q.
Proof. intros H. unfold read_trim, read_to_string. by rewrite lookup_insert_ne. Qed.
Lemma read_insert_plain t p s : all_chars plain_char s → read_trim (<[p := File s]> t) p = s.
Proof. intros. eapply read_trim_plain; [by rewrite lookup_insert_eq|done]. Qed.
Lemma is_dir_insert_file t p s q : p ≠ q → is_dir (<[p := File s]> t) q = is_dir t q.
Proof. intros H. destruct q; [done|]. cbn. by rewrite lookup_insert_ne. Qed.
Lemma snoc_ne (p : path) c d : c ≠ d → p ++ [c] ≠ p ++ [d].
Proof. intros H [= ?]%app_inv_head. done. Qed.
Lemma snoc_ne_self (p : path) c : p ++ [c] ≠ p.
Proof. intros H%(f_equal length). rewrite length_app in H. cbn in H. lia. Qed.
Lemma oks_apply_namespace ns_root ns uuid t t' :
  oks (apply_namespace ns_root ns uuid) t tt t' → ns_right ns_root ns uuid t'.
Proof.
  unfold apply_namespace, ns_right. cbv zeta. set (dir := ns_root ++ [show_uint (ns_nsid ns)]).
  intros ([] & t1 & [Hd _]%oks_create_dir_all_ok & H)%oks_bind.
  specialize (Hd dir (below_refl dir)).
  apply oks_bind in H as (dr & ? & [-> ->]%oks_get & H).
  apply oks_bind in H as (cur & ? & [-> ->]%oks_get & H).
  apply oks_bind in H as (en & ? & [-> ->]%oks_get & H).
  apply oks_if in H as [[_ H]|[Hb [_ ->]%oks_ret]].
  - apply oks_bind in H as (en & ? & [-> ->]%oks_get & H).
    apply oks_bind in H as ([] & t2 & H2 & H).
    apply oks_bind in H as ([] & t3 & ->%oks_write_attr & H).
    apply oks_bind in H as ([] & t4 & H4 & ->%oks_write_attr).
    assert (Hd2 : is_dir t2 dir).
    { apply oks_if in H2 as [[_ ->%oks_write_attr]|[_ [_ ->]%oks_ret]]; [|done].
      rewrite is_dir_insert_file by apply snoc_ne_self. done. }
    assert (H4' : t4 = match uuid with Some u =>
        <[dir ++ ["device_uuid"] := File (as_str u)]>
          (<[dir ++ ["device_path"] := File (as_str (ns_device_path ns))]> t2)
      | None => <[dir ++ ["device_path"] := File (as_str (ns_device_path ns))]> t2 end).
    { destruct uuid; [by apply oks_write_attr in H4|by apply oks_ret in H4 as [_ ->]]. }
    subst t4. split_and!.
    + destruct uuid; rewrite !is_dir_insert_file by apply snoc_ne_self; done.
    + rewrite read_insert_ne by by apply snoc_ne.
      destruct uuid; [rewrite read_insert_ne by by apply snoc_ne|];
        apply read_insert_plain, vstring_plain.
    + intros u ->. rewrite read_insert_ne by by apply snoc_ne. apply read_insert_plain, vstring_plain.
    + by apply read_insert_plain.
  - apply orb_false_iff in Hb as [[H1 H2]%orb_false_iff H3].
    apply negb_false_iff, bool_decide_eq_true in H1, H3. split_and!; [done|done| |done].
    intros u ->. by apply negb_false_iff, bool_decide_eq_true in H2.
Qed.

(** ** Hosts and subsystems *)

Definition subsys_right (root : path) (s : NvmetSubsysSpec) (t : tree) : Prop :=
  let dir := root ++ ["subsystems"; as_str (sub_nqn s)] in
  is_dir t dir ∧
  bool_decide (read_trim t (dir ++ ["attr_allow_any_host"]) = "1") = sub_allow_any_host s ∧
  (∀ h, h ∈ dir_entries t (dir ++ ["allowed_hosts"]) ↔
        sub_allow_any_host s = false ∧ h ∈ as_str <$> sub_allowed_hosts s) ∧
  (∀ n, n ∈ dir_entries t (dir ++ ["namespaces"]) ↔
        n ∈ (λ ns, show_uint (ns_nsid ns)) <$> sub_namespaces s) ∧
  (∀ ns, ns ∈ sub_namespaces s → ns_right (dir ++ ["namespaces"]) ns None t).
Lemma subsys_right_agree root s t t' :
  agree (subsys_path root (as_str (sub_nqn s))) t t' → subsys_right root s t → subsys_right root s t'.
Proof.
  unfold subsys_path. set (dir := root ++ _). intros Ha (H1 & H2 & H3 & H4 & H5).
  assert (Hne : dir ≠ []) by apply app_cons_ne_nil.
  unfold subsys_right. cbv zeta. fold dir. rewrite !(agree_read _ _ _ _ Ha). split_and!; [|done|..].
  - rewrite <- (app_nil_r dir), (agree_is_dir _ _ _ _ Ha), app_nil_r; done.
  - intros h. by rewrite (agree_entry _ _ _ _ _ Ha).
  - intros h. by rewrite (agree_entry _ _ _ _ _ Ha).
  - intros ns Hns. eapply ns_right_agree; [|by apply H5]. rewrite <- app_assoc. by apply agree_sub.
Qed.

(** Two paths under a common prefix that part ways. *)
Lemma below_fork (p : path) a b x y : a ≠ b → ¬ below (p ++ a :: x) (p ++ b :: y).
Proof. intros Hab H%below_root. cbn in H. bool_split. done. Qed.
Lemma below_longer (p : path) a x : ¬ below (p ++ a :: x) p.
Proof.
  intros [r Hr]%below_spec. apply (f_equal length) in Hr. rewrite !length_app in Hr. cbn in Hr. lia.
Qed.
Lemma oks_apply_namespaces ns_root l t t' :
  wf t → NoDup ((λ ns, show_uint (ns_nsid ns)) <$> l) →
  oks (io_for l (λ ns, apply_namespace ns_root ns None)) t tt t' →
  ∀ ns, ns ∈ l → ns_right ns_root ns None t'.
Proof.
  intros Hwf Hnd H.
  refine (proj2 (oks_for (λ pre t, wf t ∧ ∀ ns, ns ∈ pre → ns_right ns_root ns None t) _ _ _ _ _ _ H)).
  { split; [done|]. by intros ns ?%elem_of_nil. }
  intros pre a post t1 t2 -> [Hw IH] Ha.
  assert (Hs : safe (λ q, Is_true (below q ns_root))
    (λ q, Is_true (below (ns_root ++ [show_uint (ns_nsid a)]) q)) t1 t2).
  { eapply oks_respects; [|done]. apply safe_ns; [|done].
    intros q [Hq| ->]%below_snoc; [by left|right; apply below_refl]. }
  destruct (Hs Hw) as [Hw2 Hf]. split; [done|].
  intros ns [Hin|Hin%list_elem_of_singleton]%elem_of_app; [|subst; by eapply oks_apply_namespace].
  eapply ns_right_agree; [|by apply IH]. eapply frame_agree; [done|..]; intros r; rewrite <- app_assoc.
  - apply below_fork. intros He. rewrite fmap_app, NoDup_app in Hnd.
    destruct Hnd as (_ & Hd & _). apply (Hd (show_uint (ns_nsid a))); [|cbn; left].
    apply list_elem_of_fmap. by exists ns.
  - apply below_longer.
Qed.
Lemma oks_prune_files (f : string → io unit) dir (want : gset string) t t' :
  (∀ c, f c = if decide (c ∈ want) then mret tt else remove_file_ok (dir ++ [c])) →
  wf t → oks (io_for (dir_entries t dir) f) t tt t' →
  wf t' ∧ shrinks t t' ∧ (∀ c, c ∉ want → t' !! (dir ++ [c]) = None) ∧
  (∀ q, (∀ c, c ∉ want → ¬ below (dir ++ [c]) q) → t' !! q = t !! q).
Proof.
  intros Hf Hwf H. apply (oks_prune f dir (.∈ want)); [|done..]. clear t t' Hwf H.
  intros c t t' Hwf H. rewrite Hf in H. case_decide.
  - left. by apply oks_ret in H as [_ ->].
  - right. split; [done|]. by apply removes_file.
Qed.
(** One turn of the ACL loop: the host's link is there afterwards, and nothing that
    was there changed. *)
Lemma oks_host_link root allowed attr k pre (h : Nqn) t t' :
  wf t ∧ is_dir t allowed ∧ t !! attr = Some k ∧
    (∀ h, h ∈ pre → is_Some (t !! (allowed ++ [as_str h]))) →
  oks (_ ← create_dir_all_ok (root ++ ["hosts"; as_str h]);
       there ← io_get (λ t, present t (allowed ++ [as_str h]));
       if (there : bool) then mret tt
       else symlink_ok (root ++ ["hosts"; as_str h]) (allowed ++ [as_str h])) t tt t' →
  wf t' ∧ is_dir t' allowed ∧ t' !! attr = Some k ∧
    (∀ h', h' ∈ pre ++ [h] → is_Some (t' !! (allowed ++ [as_str h']))).
Proof.
  intros (Hwf & Hd & Ha & Hpre) ([] & t1 & H1 & H)%oks_bind.
  assert (Hw1 : wf t1) by (by eapply (oks_respects wf_rel); [apply wf_create_dir_all_ok|..]).
  apply oks_create_dir_all_ok in H1 as [_ Hk1].
  assert (Hkeep : (∀ q, is_Some (t !! q) → t' !! q = t !! q) ∧
    is_Some (t' !! (allowed ++ [as_str h])) ∧ wf t').
  { apply oks_bind in H as (th & ? & [-> ->]%oks_get & H).
    apply oks_if in H as [[Hp [_ ->]%oks_ret]|[Hp H]].
    - split_and!; [done| |done]. unfold present in Hp. by destruct (t1 !! _); [eexists|].
    - assert (wf t') by (by eapply (oks_respects wf_rel); [apply wf_symlink_ok|..]).
      apply oks_map_err, oks_symlink in H as [Hn ->]. split_and!; [|by rewrite lookup_insert_eq; eexists|done].
      intros q Hq. rewrite lookup_insert_ne; [by apply Hk1|]. intros <-.
      specialize (Hk1 _ Hq). rewrite Hn in Hk1. rewrite <- Hk1 in Hq. by destruct Hq. }
  destruct Hkeep as (Hk & Hl & Hw). split_and!; [done| |rewrite Hk by (by eexists); done|].
  - destruct allowed as [|x al]; [done|]. apply is_dir_lookup in Hd; [|done].
    apply is_dir_lookup; [done|]. rewrite Hk; [done|by eexists].
  - intros h' [Hin|Hin%list_elem_of_singleton]%elem_of_app; [|by subst].
    rewrite Hk; by apply Hpre.
Qed.
Lemma oks_apply_hosts root dir s t t' :
  wf t → dir ≠ [] →
  oks (apply_hosts root dir s) t tt t' →
  bool_decide (read_trim t' (dir ++ ["attr_allow_any_host"]) = "1") = sub_allow_any_host s ∧
  (∀ h, h ∈ dir_entries t' (dir ++ ["allowed_hosts"]) ↔
        sub_allow_any_host s = false ∧ h ∈ as_str <$> sub_allowed_hosts s).
Proof.
  intros Hwf Hdir H. unfold apply_hosts in H. cbv zeta in H.
  assert (Hattr : ∀ c, ¬ below ((dir ++ ["allowed_hosts"]) ++ [c]) (dir ++ ["attr_allow_any_host"])).
  { intros c. rewrite <- app_assoc. by apply below_fork. }
  apply oks_if in H as [[-> H]|[-> H]].
  - apply oks_bind in H as (hs & ? & [-> ->]%oks_get & H).
    apply oks_bind in H as ([] & t1 & H1 & ->%oks_write_attr). split.
    { apply bool_decide_eq_true, read_insert_plain. done. }
    apply (oks_prune_files _ _ ∅) in H1 as (_ & _ & Hn & _); [|done..].
    intros h. split; [|by intros [? _]]. intros [_ Hs]%elem_of_dir_entries.
    rewrite lookup_insert_ne in Hs.
    { rewrite Hn in Hs by set_solver. by destruct Hs. }
    rewrite <- app_assoc. by intros [=]%app_inv_head.
  - apply oks_bind in H as ([] & t1 & H1 & H).
    assert (Hw1 : wf t1) by (by eapply (oks_respects wf_rel); [apply wf_write_attr|..]).
    apply oks_write_attr in H1 as ->.
    apply oks_bind in H as ([] & t2 & H2 & H).
    assert (Hw2 : wf t2) by (by eapply (oks_respects wf_rel); [apply wf_create_dir_all_ok|..]).
    apply oks_create_dir_all_ok in H2 as [Hd2 Hk2].
    apply oks_bind in H as ([] & t3 & H3 & H).
    assert (Ha2 : t2 !! (dir ++ ["attr_allow_any_host"]) = Some (File "0")).
    { rewrite Hk2; rewrite lookup_insert_eq; [done|by eexists]. }
    assert (H3' : wf t3 ∧ is_dir t3 (dir ++ ["allowed_hosts"]) ∧
      t3 !! (dir ++ ["attr_allow_any_host"]) = Some (File "0") ∧
      ∀ h, h ∈ sub_allowed_hosts s → is_Some (t3 !! ((dir ++ ["allowed_hosts"]) ++ [as_str h]))).
    { refine (oks_for (λ pre t3, wf t3 ∧ is_dir t3 (dir ++ ["allowed_hosts"]) ∧
        t3 !! (dir ++ ["attr_allow_any_host"]) = Some (File "0") ∧
        ∀ h, h ∈ pre → is_Some (t3 !! ((dir ++ ["allowed_hosts"]) ++ [as_str h]))) _ _ _ _ _ _ H3).
      - split_and!; [done|apply Hd2, below_refl|done|by intros h ?%elem_of_nil].
      - intros pre h post u1 u2 _. apply oks_host_link. }
    destruct H3' as (Hw3 & Hd3 & Ha3 & Hl3).
    apply oks_bind in H as (hs & ? & [-> ->]%oks_get & H).
    apply (oks_prune_files _ _ (sset (as_str <$> sub_allowed_hosts s))) in H as (_ & _ & Hn & Ho); [|done..].
    split.
    { apply bool_decide_eq_false. intros Hr. unfold read_trim, read_to_string in Hr.
      rewrite Ho, Ha3 in Hr by auto. done. }
    intros h. rewrite elem_of_dir_entries. split.
    + intros [_ Hs]. split; [done|]. destruct (decide (h ∈ sset (as_str <$> sub_allowed_hosts s))) as [Hi|Hi].
      * unfold sset in Hi. set_solver.
      * rewrite Hn in Hs by done. by destruct Hs.
    + intros [_ Hin]. assert (Hd : t' !! (dir ++ ["allowed_hosts"]) = t3 !! (dir ++ ["allowed_hosts"])).
      { apply Ho. intros c _. apply below_longer. }
      apply list_elem_of_fmap in Hin as Hx. destruct Hx as (hn & -> & Hx). split.
      * apply is_dir_lookup; [by destruct dir|]. rewrite Hd. by apply is_dir_lookup in Hd3; [|by destruct dir].
      * rewrite Ho; [by apply Hl3|]. intros c Hc. intros Hb. apply Hc.
        rewrite <- (app_nil_r [as_str hn]) in Hb. apply below_root in Hb. cbn in Hb. bool_split. subst.
        unfold sset. by apply elem_of_list_to_set.
Qed.

(** The namespace block leaves exactly the wanted namespaces, each right. *)
Lemma oks_namespace_block ns_dir l t t1 t' :
  wf t → ns_dir ≠ [] → NoDup ((λ ns, show_uint (ns_nsid ns)) <$> l) →
  oks (io_for l (λ ns, apply_namespace ns_dir ns None)) t tt t1 → wf t1 →
  oks (io_for (dir_entries t1 ns_dir) (λ ns,
    if decide (ns ∈ sset ((λ n, show_uint (ns_nsid n)) <$> l)) then mret tt
    else remove_object_dir (ns_dir ++ [ns]))) t1 tt t' →
  wf t' ∧
  (∀ n, n ∈ dir_entries t' ns_dir ↔ n ∈ (λ ns, show_uint (ns_nsid ns)) <$> l) ∧
  (∀ ns, ns ∈ l → ns_right ns_dir ns None t') ∧
  (∀ q, below q ns_dir → t' !! q = t1 !! q).
Proof.
  intros Hwf Hne Hnd H1 Hw1 H2. pose proof (oks_apply_namespaces _ _ _ _ Hwf Hnd H1) as Hns.
  set (want := sset _) in H2.
  assert (Hwant : ∀ n, n ∈ want ↔ n ∈ (λ ns, show_uint (ns_nsid ns)) <$> l)
    by (intros n; apply elem_of_list_to_set).
  apply (oks_prune _ ns_dir (.∈ want)) in H2 as (Hw & Hs & Hn & Ho); [|clear -Hne|done].
  2: { intros c t1 t2 Hwf H. case_decide; [left; by apply oks_ret in H as [_ ->]|].
       right. split; [done|]. apply removes_object_dir; [done| |done]. by destruct ns_dir. }
  assert (Hag : ∀ ns, ns ∈ l → agree (ns_dir ++ [show_uint (ns_nsid ns)]) t1 t').
  { intros ns Hin r. apply Ho. intros c Hc. rewrite <- app_assoc. cbn. apply below_fork.
    intros ->. apply Hc, Hwant, list_elem_of_fmap. eauto. }
  assert (Hright : ∀ ns, ns ∈ l → ns_right ns_dir ns None t').
  { intros ns Hin. eapply ns_right_agree; [by apply Hag|by apply Hns]. }
  split_and!; [done| |done|].
  - intros n. rewrite elem_of_dir_entries, <- Hwant. split.
    + intros [_ Hx]. destruct (decide (n ∈ want)); [done|]. rewrite Hn in Hx by done. by destruct Hx.
    + intros (ns & -> & Hin)%Hwant%list_elem_of_fmap. destruct (Hright _ Hin) as [Hd _].
      apply is_dir_lookup in Hd; [|by destruct ns_dir].
      assert (Hx : is_Some (t' !! (ns_dir ++ [show_uint (ns_nsid ns)]))) by (by eexists).
      split; [by eapply Hw|done].
  - intros q Hq. apply Ho. intros c _ Hb. eapply (below_longer ns_dir c []).
    by eapply below_trans.
Qed.
Lemma frame_apply_hosts root dir s t t' :
  wf t → oks (apply_hosts root dir s) t tt t' →
  frame (λ q, below q (dir ++ ["allowed_hosts"]) ∨ ∃ h, below q (root ++ ["hosts"; h]))
    (λ q, below (dir ++ ["attr_allow_any_host"]) q ∨ below (dir ++ ["allowed_hosts"]) q) t t'.
Proof.
  intros Hwf H. eapply (oks_respects (safe _ _)); [|done..]. clear t t' Hwf H.
  unfold apply_hosts. safe_steps; try (left; apply below_refl); try (right; apply below_app).
  - intros q Hq. left. by left.
  - intros q Hq. left. right. by eexists.
Qed.
Lemma oks_apply_subsystem root s t t' :
  wf t → NoDup ((λ ns, show_uint (ns_nsid ns)) <$> sub_namespaces s) →
  oks (apply_subsystem root s) t tt t' → subsys_right root s t'.
Proof.
  intros Hwf Hnd H. unfold apply_subsystem in H. cbv zeta in H.
  unfold subsys_right. set (dir := root ++ ["subsystems"; as_str (sub_nqn s)]) in *. cbv zeta.
  assert (Hne : dir ≠ []) by apply app_cons_ne_nil.
  assert (Hne' : dir ++ ["namespaces"] ≠ []) by by destruct dir.
  apply oks_bind in H as ([] & t1 & H1 & H).
  assert (Hw1 : wf t1) by (by eapply (oks_respects wf_rel); [apply wf_create_dir_all_ok|..]).
  apply oks_create_dir_all_ok in H1 as [Hd1 _]. specialize (Hd1 dir (below_refl dir)).
  apply oks_bind in H as ([] & t2 & H2 & H).
  destruct (oks_respects (safe (λ q, Is_true (below q (dir ++ ["namespaces"])))
    (λ q, Is_true (below (dir ++ ["namespaces"]) q))) _ _ _ _
    ltac:(apply respects_for; [apply _|]; intros ns _; apply safe_ns;
      [by intros q ?%below_split | intros q Hq; by eapply below_app_inv]) H2 Hw1)
    as [Hw2 Hf2].
  apply oks_bind in H as (hv & ? & [-> ->]%oks_get & H).
  apply oks_bind in H as ([] & t3 & H3 & H).
  destruct (oks_namespace_block _ _ _ _ _ Hw1 Hne' Hnd H2 Hw2 H3) as (Hw3 & Hn3 & Hr3 & Ho3).
  pose proof (oks_apply_hosts _ _ _ _ _ Hw3 Hne H) as [Hany Hhosts].
  assert (Hd3 : t3 !! dir = Some Dir).
  { rewrite Ho3 by apply below_app. apply is_dir_lookup in Hd1; [|done].
    destruct (Hf2 dir) as [E|(_ & E & _)]; [by intros ?%below_longer|congruence|congruence]. }
  pose proof (frame_apply_hosts _ _ _ _ _ Hw3 H) as Hf.
  assert (Hag : agree (dir ++ ["namespaces"]) t3 t').
  { eapply frame_agree; [done|..]; intros r; rewrite <- app_assoc; cbn.
    - by intros [Hb|Hb]; eapply below_fork in Hb.
    - intros [Hb|[h Hb]]; [by eapply below_fork in Hb|].
      unfold dir in Hb. rewrite <- app_assoc in Hb. by eapply below_fork in Hb. }
  split_and!; [|done|done|..].
  - apply is_dir_lookup; [done|].
    destruct (Hf dir) as [E|(_ & E & _)]; [by intros [?|?]; eapply below_longer|congruence..].
  - intros n. rewrite <- Hn3, <- (app_nil_r (dir ++ ["namespaces"])). by apply agree_entry.
  - intros ns Hin. eapply ns_right_agree; [|by apply Hr3]. by apply agree_sub.
Qed.

(** ** Ports *)

Definition port_right (root : path) (p : NvmetPortSpec) (t : tree) : Prop :=
  let dir := root ++ ["ports"; show_uint (port_id p)] in
  is_dir t dir ∧
  (∀ kv, kv ∈ port_addr p → read_trim t (dir ++ [kv.1]) = kv.2) ∧
  is_dir t (dir ++ ["subsystems"]) ∧
  (∀ n, n ∈ port_subsystems p → is_Some (t !! (dir ++ ["subsystems"; as_str n]))).
Lemma port_right_agree root p t t' :
  agree (port_path root (show_uint (port_id p))) t t' → port_right root p t → port_right root p t'.
Proof.
  unfold port_path. set (dir := root ++ _). intros Ha (H1 & H2 & H3 & H4).
  assert (Hne : dir ≠ []) by apply app_cons_ne_nil.
  unfold port_right. cbv zeta. fold dir. split_and!.
  - rewrite <- (app_nil_r dir), (agree_is_dir _ _ _ _ Ha), app_nil_r; done.
  - intros kv Hkv. rewrite (agree_read _ _ _ _ Ha). by apply H2.
  - by rewrite (agree_is_dir _ _ _ _ Ha).
  - intros n Hn. rewrite (Ha ["subsystems"; as_str n]). by apply H4.
Qed.
Lemma port_addr_plain p kv : kv ∈ port_addr p → all_chars plain_char kv.2.
Proof.
  assert (Hip : all_chars plain_char (show_ip (port_traddr p)))
    by (eapply all_chars_incl; [apply show_ip_chars|by vm_compute]).
  assert (Hsv : all_chars plain_char (show_uint (port_trsvcid p)))
    by (eapply all_chars_incl; [apply pretty_N_digits|by vm_compute]).
  unfold port_addr. destruct (port_trtype p); rewrite !elem_of_cons, elem_of_nil;
    intros; destruct_or!; subst; try done; cbn; by destruct (is_ipv6 _).
Qed.
Lemma port_addr_keys p : NoDup (port_addr p).*1 ∧ "subsystems" ∉ (port_addr p).*1.
Proof. unfold port_addr. destruct (port_trtype p); cbn; (split; [|set_solver]); by apply (bool_decide_unpack _). Qed.

Lemma port_addr_trtype p : ("addr_trtype", trtype_str (port_trtype p)) ∈ port_addr p.
Proof. unfold port_addr. destruct (port_trtype p); set_solver. Qed.
Lemma port_addr_traddr p : port_trtype p ≠ Loop → ("addr_traddr", show_ip (port_traddr p)) ∈ port_addr p.
Proof. unfold port_addr. intros H. destruct (port_trtype p); set_solver. Qed.

(** Writing distinct attributes of a directory. *)
Lemma oks_write_attrs dir (l : list (string * string)) t t' :
  NoDup l.*1 → (∀ kv, kv ∈ l → all_chars plain_char kv.2) →
  oks (io_for l (λ kv, write_attr (dir ++ [kv.1]) kv.2)) t tt t' →
  (∀ kv, kv ∈ l → read_trim t' (dir ++ [kv.1]) = kv.2) ∧
  (∀ q, (∀ kv, kv ∈ l → q ≠ dir ++ [kv.1]) → t' !! q = t !! q).
Proof.
  intros Hnd Hpl H. refine (oks_for (λ pre t',
    (∀ kv, kv ∈ pre → read_trim t' (dir ++ [kv.1]) = kv.2) ∧
    (∀ q, (∀ kv, kv ∈ l → q ≠ dir ++ [kv.1]) → t' !! q = t !! q)) _ _ _ _ _ _ H).
  - split; [|done]. by intros kv ?%elem_of_nil.
  - intros pre a post t1 t2 Hl [IH1 IH2] ->%oks_write_attr. split.
    + intros kv [Hin|Hin%list_elem_of_singleton]%elem_of_app.
      * rewrite read_insert_ne; [by apply IH1|]. apply snoc_ne. intros He.
        rewrite Hl, fmap_app, NoDup_app in Hnd. destruct Hnd as (_ & Hd & _).
        apply (Hd a.1); [|cbn; left]. rewrite He. apply list_elem_of_fmap. by exists kv.
      * rewrite Hin. apply read_insert_plain, Hpl. rewrite Hl. apply elem_of_app. right. left.
    + intros q Hq. rewrite lookup_insert_ne; [by apply IH2|]. apply not_eq_sym, Hq. rewrite Hl.
      apply elem_of_app. right. left.
Qed.

(** Linking the subsystems of a port: every wanted link is there, nothing that was
    there changed, and nothing but wanted links appeared. *)
Lemma oks_link_loop (f : Nqn → ioerr → ioerr) root links (l : list Nqn) t t' :
  oks (io_for l (λ n,
    there ← io_get (λ t, present t (links ++ [as_str n]));
    if (there : bool) then mret tt
    else io_map_err (f n) (symlink (root ++ ["subsystems"; as_str n]) (links ++ [as_str n])))) t tt t' →
  (∀ n, n ∈ l → is_Some (t' !! (links ++ [as_str n]))) ∧
  (∀ q, is_Some (t !! q) → t' !! q = t !! q) ∧
  (∀ q, (∀ n, n ∈ l → q ≠ links ++ [as_str n]) → t' !! q = t !! q).
Proof.
  intros H. refine (oks_for (λ pre t',
    (∀ n, n ∈ pre → is_Some (t' !! (links ++ [as_str n]))) ∧
    (∀ q, is_Some (t !! q) → t' !! q = t !! q) ∧
    (∀ q, (∀ n, n ∈ l → q ≠ links ++ [as_str n]) → t' !! q = t !! q)) _ _ _ _ _ _ H).
  - split_and!; [by intros n ?%elem_of_nil|done|done].
  - intros pre a post t1 t2 Hl (IH1 & IH2 & IH3) (th & ? & [-> ->]%oks_get & Ha)%oks_bind.
    apply oks_if in Ha as [[Hp [_ ->]%oks_ret]|[Hp [Hn ->]%oks_map_err%oks_symlink]].
    + split_and!; [|done|done]. intros n [Hin|Hin%list_elem_of_singleton]%elem_of_app; [auto|subst].
      unfold present in Hp. by destruct (t1 !! _); [eexists|].
    + split_and!.
      * intros n [Hin|Hin%list_elem_of_singleton]%elem_of_app; [|subst; rewrite lookup_insert_eq; by eexists].
        destruct (decide (links ++ [as_str a] = links ++ [as_str n])) as [->|Hne].
        { rewrite lookup_insert_eq. by eexists. }
        rewrite lookup_insert_ne by done. auto.
      * intros q Hq. rewrite lookup_insert_ne; [auto|]. intros <-. apply IH2 in Hq as Hq'.
        rewrite Hn in Hq'. rewrite <- Hq' in Hq. by destruct Hq.
      * intros q Hq. rewrite lookup_insert_ne; [auto|]. apply not_eq_sym, Hq. rewrite Hl.
        apply elem_of_app. right. left.
Qed.
(** The drift block: the attributes read as wanted afterwards, and no link appears. *)
Lemma oks_port_drift dir prefix addr t t' :
  dir ≠ [] → is_dir t dir → NoDup addr.*1 → "subsystems" ∉ addr.*1 →
  (∀ kv, kv ∈ addr → all_chars plain_char kv.2) →
  oks (if existsb (λ kv : string * string, negb (bool_decide (read_trim t (dir ++ [kv.1]) = kv.2))) addr then
         cur ← io_get (λ t, dir_entries t (dir ++ ["subsystems"]));
         _ ← io_for cur (λ l, if starts_with prefix l
                              then remove_file_ok ((dir ++ ["subsystems"]) ++ [l]) else mret tt);
         io_for addr (λ kv, write_attr (dir ++ [kv.1]) kv.2)
       else mret tt) t tt t' →
  is_dir t' dir ∧ (∀ kv, kv ∈ addr → read_trim t' (dir ++ [kv.1]) = kv.2) ∧
  (∀ l, is_Some (t' !! ((dir ++ ["subsystems"]) ++ [l])) → is_Some (t !! ((dir ++ ["subsystems"]) ++ [l]))).
Proof.
  intros Hne Hd Hnd Hsub Hpl [[_ H]|[Hb [_ ->]%oks_ret]]%oks_if.
  - apply oks_bind in H as (cur & ? & [-> ->]%oks_get & H).
    apply oks_bind in H as ([] & t1 & H1 & H).
    assert (Hsh : shrinks t t1).
    { eapply oks_respects; [|done]. respects_step. case_match; [apply shrinks_remove_file_ok|by respects_step]. }
    assert (Hk : same_outside (λ q, ∃ l, q = (dir ++ ["subsystems"]) ++ [l]) t t1).
    { eapply oks_respects; [|done]. respects_step. case_match; [|by respects_step].
      eapply keeps_weaken; [apply keeps_remove_file_ok|]. intros q ->. by eexists. }
    apply oks_write_attrs in H as [Hr Ho]; [|done..]. split_and!; [|done|].
    + apply is_dir_lookup in Hd; [|done]. apply is_dir_lookup; [done|].
      rewrite Ho, Hk; [done| |].
      * intros [l Hl]. rewrite <- app_assoc in Hl. apply (f_equal length) in Hl.
        rewrite length_app in Hl. cbn in Hl. lia.
      * intros kv _ Hl. by apply (snoc_ne_self dir kv.1).
    + intros l. rewrite Ho; [apply Hsh|]. intros kv _ Hl. rewrite <- app_assoc in Hl.
      by apply app_inv_head in Hl.
  - split_and!; [done| |done]. intros kv Hkv.
    destruct (decide (read_trim t (dir ++ [kv.1]) = kv.2)) as [|Hn]; [done|].
    assert (existsb (λ kv : string * string, negb (bool_decide (read_trim t (dir ++ [kv.1]) = kv.2))) addr = true)
      as He; [|congruence].
    apply existsb_exists. exists kv. split; [by apply list_elem_of_In|].
    by apply negb_true_iff, bool_decide_eq_false.
Qed.
Lemma oks_apply_port root p prefix t t' :
  oks (apply_port root p prefix) t tt t' →
  port_right root p t' ∧
  ∀ l, is_Some (t' !! link_path root (show_uint (port_id p)) l) →
    is_Some (t !! link_path root (show_uint (port_id p)) l) ∨ l ∈ as_str <$> port_subsystems p.
Proof.
  intros H. unfold apply_port in H. cbv zeta in H. unfold port_right, link_path.
  assert (Hlink : ∀ l, root ++ ["ports"; show_uint (port_id p); "subsystems"; l]
    = ((root ++ ["ports"; show_uint (port_id p)]) ++ ["subsystems"]) ++ [l])
    by (intros l; by rewrite <- !app_assoc).
  setoid_rewrite Hlink. clear Hlink.
  set (dir := root ++ ["ports"; show_uint (port_id p)]) in *. cbv zeta.
  assert (Hne : dir ≠ []) by apply app_cons_ne_nil.
  apply oks_bind in H as ([] & t1 & H1 & H).
  pose proof (oks_respects _ _ _ _ _ (frame_create_dir_all_ok dir) H1) as Hf1.
  apply oks_create_dir_all_ok in H1 as [Hd1 _]. specialize (Hd1 dir (below_refl dir)).
  apply oks_bind in H as (dr & ? & [-> ->]%oks_get & H).
  apply oks_bind in H as ([] & t2 & H2 & H). destruct (port_addr_keys p) as [Hk1 Hk2].
  apply oks_port_drift in H2 as (Hd2 & Haddr & Hsh); [|done..|apply port_addr_plain].
  apply oks_bind in H as ([] & t3 & H3 & H).
  pose proof (oks_respects _ _ _ _ _ (frame_create_dir_all_ok (dir ++ ["subsystems"])) H3) as Hf3.
  apply oks_create_dir_all_ok in H3 as [Hd3 Hk3].
  apply oks_link_loop in H as (Hl & Hk & Ho).
  assert (Hdl : ∀ q, below q (dir ++ ["subsystems"]) → q ≠ [] → is_dir t' q).
  { intros q Hq Hn. apply Hd3, is_dir_lookup in Hq; [|done]. apply is_dir_lookup; [done|].
    rewrite Hk; [done|by eexists]. }
  split; [split_and!|].
  - apply Hdl; [apply below_app|done].
  - intros kv Hkv. rewrite <- (Haddr kv Hkv). unfold read_trim, read_to_string.
    rewrite Ho by (intros n _ He; rewrite <- app_assoc in He; by apply app_inv_head in He).
    destruct (Hf3 (dir ++ [kv.1]) id) as [->|(Hb & Hn & Hs)]; [done|]. by rewrite Hn, Hs.
  - apply Hdl; [apply below_refl|by destruct dir].
  - intros n Hn. specialize (Hl n Hn). by rewrite <- app_assoc in Hl.
  - intros l Hs. destruct (decide (l ∈ as_str <$> port_subsystems p)) as [|Hnl]; [by right|left].
    rewrite Ho in Hs.
    2: { intros n Hn He. apply Hnl. apply app_inj_tail in He as [_ ->]. by apply list_elem_of_fmap_2. }
    assert (Hnb : ∀ d, below d (dir ++ ["subsystems"]) → ¬ below ((dir ++ ["subsystems"]) ++ [l]) d).
    { intros d Hd Hb. eapply (below_longer (dir ++ ["subsystems"]) l []), below_trans; done. }
    destruct (Hf3 ((dir ++ ["subsystems"]) ++ [l]) id) as [E|(Hb & _)]; [rewrite E in Hs|by destruct (Hnb _ (below_refl _) Hb)].
    apply Hsh in Hs. destruct (Hf1 ((dir ++ ["subsystems"]) ++ [l]) id) as [E1|(Hb & _)]; [by rewrite <- E1|].
    by destruct (Hnb _ (below_app _ _) Hb).
Qed.

(** ** Phases A and B *)

Lemma oks_drop_links links want cur t b t' :
  oks (drop_links links want cur) t b t' →
  ∀ l, l ∈ cur → ours l → l ∉ want → t' !! (links ++ [l]) = None.
Proof.
  revert t b. induction cur as [|c cur IH]; intros t b H l Hin Ho Hw; [by apply elem_of_nil in Hin|].
  cbn in H. apply oks_if in H as [[Hb H]|[Hb H]].
  - apply oks_bind in H as ([] & t1 & ->%oks_remove_file_ok & H).
    apply oks_bind in H as (b' & t2 & H & [_ ->]%oks_ret).
    apply elem_of_cons in Hin as [->|Hin]; [|by eapply IH].
    destruct (t2 !! _) eqn:E; [|done].
    destruct (oks_respects _ _ _ _ _ (shrinks_drop_links _ _ _) H (links ++ [c])) as [k Hk]; [by eexists|].
    by rewrite lookup_delete_eq in Hk.
  - apply elem_of_cons in Hin as [->|Hin]; [|by eapply IH].
    apply andb_false_iff in Hb as [Hb|Hb]; [by rewrite Hb in Ho|].
    apply negb_false_iff, bool_decide_eq_true in Hb. done.
Qed.
Lemma wf_drop_links links want cur : respects wf_rel (drop_links links want cur).
Proof.
  induction cur as [|l cur IH]; cbn; [by respects_step|].
  repeat (respects_step || apply wf_remove_file_ok); done.
Qed.
Lemma wf_drop_stale root d ps : respects wf_rel (drop_stale root d ps).
Proof.
  induction ps as [|p ps IH]; cbn; [by respects_step|].
  repeat (respects_step || apply wf_drop_links); done.
Qed.
Lemma shrinks_drop_stale root d ps : respects shrinks (drop_stale root d ps).
Proof.
  induction ps as [|p ps IH]; cbn; [by respects_step|].
  repeat (respects_step || apply shrinks_drop_links); done.
Qed.
(** No link of ours is left where it is not wanted. *)
Definition no_stale (root : path) (d : NvmetDesired) (t : tree) : Prop :=
  ∀ port l, ours l → is_Some (t !! link_path root port l) → l ∈ desired_links d port.
Lemma oks_drop_stale_listed root d ps t cands t' :
  wf t → oks (drop_stale root d ps) t cands t' →
  ∀ port l, port ∈ ps → ours l → is_Some (t' !! link_path root port l) → l ∈ desired_links d port.
Proof.
  revert t cands. induction ps as [|p ps IH]; intros t cands Hwf H port l Hin Ho Hs;
    [by apply elem_of_nil in Hin|].
  cbn in H. apply oks_bind in H as (cur & ? & [-> ->]%oks_get & H).
  apply oks_bind in H as (rm & t1 & H1 & H). apply oks_bind in H as (rest & t2 & H2 & [_ ->]%oks_ret).
  assert (Hw1 : wf t1) by (by eapply (oks_respects wf_rel); [apply wf_drop_links|..]).
  apply elem_of_cons in Hin as [->|Hin]; [|by eapply IH].
  destruct (decide (l ∈ desired_links d p)) as [|Hn]; [done|]. exfalso.
  pose proof (oks_respects _ _ _ _ _ (shrinks_drop_stale _ _ _) H2 _ Hs) as Hs1.
  assert (Hp : link_path root p l = (root ++ ["ports"; p; "subsystems"]) ++ [l])
    by (unfold link_path; by rewrite <- app_assoc).
  rewrite Hp in Hs1. assert (Hs0 := oks_respects _ _ _ _ _ (shrinks_drop_links _ _ _) H1 _ Hs1).
  erewrite oks_drop_links in Hs1; [by destruct Hs1|done| |done|done].
  apply elem_of_dir_entries. split; [by eapply Hwf|done].
Qed.
Lemma oks_drop_stale root d t cands t' :
  wf t → oks (drop_stale root d (dir_entries t (root ++ ["ports"]))) t cands t' → no_stale root d t'.
Proof.
  intros Hwf H port l Ho Hs. eapply oks_drop_stale_listed; [done..| |done|done].
  pose proof (oks_respects _ _ _ _ _ (shrinks_drop_stale _ _ _) H _ Hs) as Hs0.
  unfold link_path in Hs0. apply elem_of_dir_entries. split.
  - apply (wf_ancestor _ _ [port; "subsystems"; l]); [done| |done]. by rewrite <- app_assoc.
  - rewrite <- app_assoc. cbn.
    assert (Hd : is_dir t (root ++ ["ports"; port])).
    { apply (wf_ancestor _ _ ["subsystems"; l]); [done| |done]. by rewrite <- app_assoc. }
    apply is_dir_lookup in Hd; [by eexists|apply app_cons_ne_nil].
Qed.
Lemma removes_delete_subsystem dir t t' :
  wf t → dir ≠ [] → oks (delete_subsystem dir) t tt t' → removes dir t t'.
Proof.
  intros Hwf Hne H.
  assert (Hs : shrinks t t').
  { eapply oks_respects; [|done]. unfold delete_subsystem.
    repeat (respects_step || apply shrinks_remove_object_dir || apply shrinks_remove_file_ok). }
  assert (Hk : same_outside (λ q, Is_true (below dir q)) t t').
  { eapply oks_respects; [|done]. unfold delete_subsystem.
    repeat first [respects_step
      |eapply keeps_weaken; [apply keeps_remove_object_dir|]; intros q Hq; first [exact Hq|exact (below_app_inv _ _ _ Hq)]
      |eapply keeps_weaken; [apply keeps_remove_file_ok|]; intros q ->; rewrite <- ?app_assoc; apply below_app]. }
  assert (Hw : wf t').
  { eapply (oks_respects wf_rel); [|done..]. unfold delete_subsystem.
    repeat (respects_step || apply wf_remove_file_ok || apply wf_remove_object_dir); by destruct dir. }
  split_and!; [done| |done|done]. unfold delete_subsystem in H.
  assert (Hlast : ∃ t1, wf t1 ∧ oks (remove_object_dir dir) t1 tt t').
  { repeat (eapply oks_bind_wf in H; [|exact Hwf|];
      [clear Hwf; destruct H as (? & ? & Hwf & _ & H)|
       repeat (respects_step || apply wf_remove_file_ok || apply wf_remove_object_dir); by destruct dir]).
    eauto. }
  destruct Hlast as (t1 & Hw1 & H1). eapply oks_remove_object_dir; [done..|apply below_refl].
Qed.
(** No subsystem of ours is left that is not wanted. *)
Definition no_undesired (root : path) (d : NvmetDesired) (t : tree) : Prop :=
  ∀ n, ours n → is_Some (t !! subsys_path root n) → n ∈ as_str <$> (sub_nqn <$> nd_subsystems d).
Lemma oks_delete_undesired root d t t' :
  wf t → oks (delete_undesired root d) t tt t' → no_undesired root d t'.
Proof.
  intros Hwf H n Ho Hs. unfold delete_undesired in H. cbv zeta in H.
  apply oks_bind in H as (hv & ? & [-> ->]%oks_get & H).
  apply (oks_prune _ (root ++ ["subsystems"])
    (λ n, ours n → n ∈ as_str <$> (sub_nqn <$> nd_subsystems d))) in H as (_ & _ & Hn & _); [|clear -d|done].
  - destruct (decide (n ∈ as_str <$> (sub_nqn <$> nd_subsystems d))) as [|Hnot]; [done|].
    specialize (Hn n). rewrite <- app_assoc in Hn. cbn in Hn. unfold subsys_path in Hs. rewrite Hn in Hs; [by destruct Hs|].
    auto.
  - intros c t t' Hwf [[Hb H]|[Hb [_ ->]%oks_ret]]%oks_if; [right|left; split; [|done]].
    + apply andb_true_iff in Hb as [Hb1%Is_true_true Hb2%negb_true_iff%bool_decide_eq_false].
      split; [intros Hc; apply Hb2, elem_of_list_to_set; auto|].
      rewrite <- app_assoc. apply removes_delete_subsystem; [done|apply app_cons_ne_nil|done].
    + intros Ho. rewrite Is_true_true in Ho. rewrite Ho in Hb. cbn in Hb.
      apply negb_false_iff, bool_decide_eq_true, elem_of_list_to_set in Hb. done.
Qed.
End calls.

(** ** Frames of the phases *)

Section frames.
Context {K : Kernel} (root : path).

Lemma safe_agree_subsys hosts subs ports n t t' :
  safe (creatable root hosts) (writable root subs ports) t t' → wf t → ¬ subs n →
  agree (subsys_path root n) t t'.
Proof.
  intros Hs Hwf Hn. destruct (Hs Hwf) as [_ Hf]. unfold subsys_path.
  eapply frame_agree; [done|..]; intros r; rewrite <- app_assoc; cbn.
  - by intros [[_ ?]|[? _]]%writable_inv.
  - intros [H|[H|[H|(h & _ & H)]]]; try (apply below_root in H; cbn in H; by bool_split).
    unfold host_path in H. by apply app_inv_head in H.
Qed.
Lemma safe_agree_port hosts subs ports port t t' :
  safe (creatable root hosts) (writable root subs ports) t t' → wf t → ¬ ports port →
  agree (port_path root port) t t'.
Proof.
  intros Hs Hwf Hn. destruct (Hs Hwf) as [_ Hf]. unfold port_path.
  eapply frame_agree; [done|..]; intros r; rewrite <- app_assoc; cbn.
  - by intros [[? _]|(_ & ? & _)]%writable_inv.
  - intros [H|[H|[H|(h & _ & H)]]]; try (apply below_root in H; cbn in H; by bool_split).
    unfold host_path in H. by apply app_inv_head in H.
Qed.
Abbreviation any := (λ _ : string, True).
Abbreviation none := (λ _ : string, False).

Lemma safe_one_subsystem s :
  respects (safe (creatable root any) (writable root (eq (as_str (sub_nqn s))) none)) (apply_subsystem root s).
Proof. by apply safe_apply_subsystem. Qed.
Lemma safe_one_port p :
  (∀ n, n ∈ port_subsystems p → ours (as_str n)) →
  respects (safe (creatable root any) (writable root none (eq (show_uint (port_id p)))))
    (apply_port root p OUR_NQN_PREFIX).
Proof. intros H. by apply safe_apply_port. Qed.

(** Phase C leaves every wanted subsystem right, and adds none of ours that is
    not wanted. *)
Lemma oks_phase_C l t t' :
  wf t → NoDup (as_str <$> (sub_nqn <$> l)) →
  (∀ s, s ∈ l → NoDup ((λ ns, show_uint (ns_nsid ns)) <$> sub_namespaces s)) →
  oks (io_for l (apply_subsystem root)) t tt t' →
  wf t' ∧ (∀ s, s ∈ l → subsys_right root s t') ∧
  (∀ n, n ∉ as_str <$> (sub_nqn <$> l) → agree (subsys_path root n) t t') ∧
  (∀ port, agree (port_path root port) t t').
Proof.
  intros Hwf Hnd Hns H. refine (oks_for (λ pre t', wf t' ∧ (∀ s, s ∈ pre → subsys_right root s t') ∧
    (∀ n, n ∉ as_str <$> (sub_nqn <$> l) → agree (subsys_path root n) t t') ∧
    (∀ port, agree (port_path root port) t t')) _ _ _ _ _ _ H).
  { split_and!; [done|by intros s ?%elem_of_nil|reflexivity|reflexivity]. }
  intros pre a post t1 t2 Hl (Hw & IH1 & IH2 & IH3) Ha.
  pose proof (oks_respects _ _ _ _ _ (safe_one_subsystem a) Ha) as Hs.
  assert (Hal : a ∈ l) by (rewrite Hl; apply elem_of_app; right; left).
  split_and!; [by apply Hs| | |].
  - intros s [Hin|Hin%list_elem_of_singleton]%elem_of_app;
      [|rewrite Hin; apply (oks_apply_subsystem _ _ t1); [done|by apply Hns|done]].
    eapply subsys_right_agree; [|by apply IH1]. eapply safe_agree_subsys; [done..|].
    intros He. rewrite Hl, !fmap_app, NoDup_app in Hnd. destruct Hnd as (_ & Hd & _).
    apply (Hd (as_str (sub_nqn a))); [|cbn; left]. rewrite He.
    by apply (list_elem_of_fmap_2 as_str), list_elem_of_fmap_2.
  - intros n Hn. etrans; [by apply IH2|]. eapply safe_agree_subsys; [done..|]. intros <-. apply Hn.
    by apply (list_elem_of_fmap_2 as_str), list_elem_of_fmap_2.
  - intros port. etrans; [apply IH3|]. eapply safe_agree_port; [done..|by intros []].
Qed.
(** Phase D leaves every wanted port right, links only what is wanted, and leaves
    the subsystems and the other ports alone. *)
Lemma oks_phase_D d t t' :
  wf t → NoDup (port_id <$> nd_ports d) →
  (∀ p n, p ∈ nd_ports d → n ∈ port_subsystems p → ours (as_str n)) →
  no_stale root d t →
  oks (io_for (nd_ports d) (λ p, apply_port root p OUR_NQN_PREFIX)) t tt t' →
  wf t' ∧ no_stale root d t' ∧ (∀ p, p ∈ nd_ports d → port_right root p t') ∧
  (∀ n, agree (subsys_path root n) t t') ∧
  (∀ port, (∀ p, p ∈ nd_ports d → show_uint (port_id p) ≠ port) → agree (port_path root port) t t').
Proof.
  intros Hwf Hnd Hours Hst H. set (l := nd_ports d) in *.
  refine (oks_for (λ pre t', wf t' ∧ no_stale root d t' ∧ (∀ p, p ∈ pre → port_right root p t') ∧
    (∀ n, agree (subsys_path root n) t t') ∧
    (∀ port, (∀ p, p ∈ l → show_uint (port_id p) ≠ port) → agree (port_path root port) t t')) _ _ _ _ _ _ H).
  { split_and!; [done|done|by intros s ?%elem_of_nil|reflexivity|reflexivity]. }
  intros pre a post t1 t2 Hl (Hw & IH0 & IH1 & IH2 & IH3) Ha.
  assert (Hal : a ∈ l) by (rewrite Hl; apply elem_of_app; right; left).
  pose proof (oks_respects _ _ _ _ _ (safe_one_port a ltac:(intros; by eapply Hours)) Ha) as Hs.
  destruct (oks_apply_port _ _ _ _ _ Ha) as [Hr Hlk].
  split_and!; [by apply Hs| | | |].
  - intros port x Ho Hx. destruct (decide (show_uint (port_id a) = port)) as [<-|Hne].
    + destruct (Hlk _ Hx) as [Hx'|Hx']; [by apply IH0|].
      apply elem_of_list_to_set. rewrite list_elem_of_fmap in Hx' |- *.
      destruct Hx' as (n & -> & Hn). exists n. split; [done|]. apply list_elem_of_join.
      exists (port_subsystems a). split; [done|]. apply list_elem_of_fmap_2, list_elem_of_filter. done.
    + apply IH0; [done|]. pose proof (safe_agree_port _ _ _ port _ _ Hs Hw Hne ["subsystems"; x]) as E.
      unfold port_path in E. rewrite <- app_assoc in E. unfold link_path in *. cbn in E. by rewrite <- E.
  - intros p [Hin|Hin%list_elem_of_singleton]%elem_of_app; [|by rewrite Hin].
    eapply port_right_agree; [|by apply IH1]. eapply safe_agree_port; [done..|].
    intros He%(f_equal (parse_uint 16)). rewrite !parse_show_uint in He. injection He as He.
    rewrite Hl, !fmap_app, NoDup_app in Hnd. destruct Hnd as (_ & Hd & _).
    apply (Hd (port_id a)); [|cbn; left]. rewrite He. by apply list_elem_of_fmap_2.
  - intros n. etrans; [apply IH2|]. eapply safe_agree_subsys; [done..|by intros []].
  - intros port Hp. etrans; [by apply IH3|]. eapply safe_agree_port; [done..|]. by apply Hp.
Qed.
(** Phase E only removes ports that are not wanted. *)
Lemma keeps_reap_ports d cands :
  keeps (λ q, ∃ port, (∀ p, p ∈ nd_ports d → show_uint (port_id p) ≠ port) ∧ below (port_path root port) q)
    (reap_ports root d cands).
Proof.
  unfold reap_ports. respects_step. respects_step; [by respects_step|]. respects_step; [|by respects_step].
  eapply keeps_weaken; [apply keeps_remove_object_dir|]. intros q Hq. exists a. split; [|done].
  apply andb_true_iff in Heqb as [Hb%Is_true_true _]. rewrite forallb_Forall, Forall_forall in Hb.
  intros p Hp. specialize (Hb p Hp). intros He; apply negb_True in Hb; by apply Hb, bool_decide_pack.
Qed.
Lemma shrinks_reap_ports d cands : respects shrinks (reap_ports root d cands).
Proof. unfold reap_ports. repeat (respects_step || apply shrinks_remove_object_dir). Qed.
Lemma wf_reap_ports d cands : respects wf_rel (reap_ports root d cands).
Proof.
  unfold reap_ports. repeat (respects_step || apply wf_remove_object_dir). apply app_cons_ne_nil.
Qed.

(** ** The tree a successful pass leaves *)

(** A desired state with distinct names and ids that only names our objects. *)
Record good_desired (d : NvmetDesired) : Prop := {
  gd_ours : ours_only d;
  gd_nqns : NoDup (as_str <$> (sub_nqn <$> nd_subsystems d));
  gd_ports : NoDup (port_id <$> nd_ports d);
  gd_nsids : ∀ s, s ∈ nd_subsystems d → NoDup ((λ ns, show_uint (ns_nsid ns)) <$> sub_namespaces s) }.
Record converged (d : NvmetDesired) (t : tree) : Prop := {
  cv_wf : wf t;
  cv_stale : no_stale root d t;
  cv_undesired : no_undesired root d t;
  cv_subsys : ∀ s, s ∈ nd_subsystems d → subsys_right root s t;
  cv_port : ∀ p, p ∈ nd_ports d → port_right root p t }.
Lemma no_stale_agree d t t' :
  (∀ port, agree (port_path root port) t t') → no_stale root d t → no_stale root d t'.
Proof.
  intros Ha H port l Ho Hl. apply H; [done|]. specialize (Ha port ["subsystems"; l]).
  unfold port_path in Ha. rewrite <- app_assoc in Ha. unfold link_path in *. cbn in Ha. by rewrite <- Ha.
Qed.
Lemma no_undesired_agree d t t' :
  (∀ n, n ∉ as_str <$> (sub_nqn <$> nd_subsystems d) → agree (subsys_path root n) t t') →
  no_undesired root d t → no_undesired root d t'.
Proof.
  intros Ha H n Ho Hn. destruct (decide (n ∈ as_str <$> (sub_nqn <$> nd_subsystems d))) as [|Hx]; [done|].
  apply H; [done|]. specialize (Ha n Hx []). rewrite app_nil_r in Ha. by rewrite <- Ha.
Qed.
Lemma oks_reconcile d t msg t' :
  good_desired d → wf t → oks (reconcile d root) t msg t' → converged d t'.
Proof.
  intros [[Hos Hop] Hn Hp Hns] Hwf H. unfold reconcile in H. cbv zeta in H.
  apply oks_bind in H as (ps & ? & [-> ->]%oks_get & H).
  apply oks_bind_wf in H as (cands & tA & HwA & HA & H); [|done|apply wf_drop_stale].
  apply oks_drop_stale in HA; [|done].
  apply oks_bind in H as ([] & tB & HB & H).
  pose proof (oks_respects _ _ _ _ _ (safe_delete_undesired root any (λ n, Is_true (ours n)) none d (λ _ x, x)) HB) as HsB.
  apply oks_delete_undesired in HB; [|done].
  assert (HwB : wf tB) by (by apply HsB).
  assert (HsB' : no_stale root d tB).
  { eapply no_stale_agree; [|done]. intros port. eapply safe_agree_port; [done..|by intros []]. }
  apply oks_bind in H as ([] & tC & HC & H).
  apply oks_phase_C in HC as (HwC & HrC & HaC & HpC); [|done..].
  apply oks_bind in H as ([] & tD & HD & H).
  apply oks_phase_D in HD as (HwD & HstD & HrD & HaD & _); [|done..|by eapply no_stale_agree].
  apply oks_bind_wf in H as ([] & tE & HwE & HE & [_ ->]%oks_ret); [|done|apply wf_reap_ports].
  pose proof (oks_respects _ _ _ _ _ (keeps_reap_ports _ _) HE) as HkE.
  pose proof (oks_respects _ _ _ _ _ (shrinks_reap_ports _ _) HE) as HsE.
  assert (HaE : ∀ n, agree (subsys_path root n) tD tE).
  { intros n. eapply same_outside_agree; [done|]. intros r (port & _ & Hb).
    unfold subsys_path, port_path in Hb. rewrite <- app_assoc in Hb. by apply below_fork in Hb. }
  split; [done| | | |].
  - intros port l Ho Hl. apply HstD; [done|by apply HsE].
  - eapply (no_undesired_agree d tB); [|done]. intros n Hx. etrans; [by apply HaC|]. etrans; [apply HaD|apply HaE].
  - intros s Hin. eapply subsys_right_agree; [|by apply HrC]. etrans; [apply HaD|apply HaE].
  - intros p Hin. eapply port_right_agree; [|by apply HrD]. eapply same_outside_agree; [done|].
    intros r (port & Hne & Hb). unfold port_path in Hb. rewrite <- app_assoc in Hb. apply (Hne p Hin).
    apply below_root in Hb. cbn in Hb. by bool_split.
Qed.
End frames.

(** ** Convergence implies the drift predicate *)

Lemma find_exists {A} (f : A → bool) l a : a ∈ l → f a = true → ∃ b, List.find f l = Some b.
Proof.
  intros Hin Hf. destruct (List.find f l) as [b|] eqn:E; [by eexists|].
  apply list_elem_of_In in Hin. apply (List.find_none _ _ E) in Hin. congruence.
Qed.
Lemma NoDup_singleton_list {A} (l : list A) a : NoDup l → (∀ x, x ∈ l ↔ x = a) → l = [a].
Proof.
  intros Hnd H. destruct l as [|x l]; [by destruct (not_elem_of_nil a); apply H|].
  assert (x = a) as -> by (apply H; left). f_equal. destruct l as [|y l]; [done|].
  assert (y = a) as -> by (apply H; right; left). apply NoDup_cons in Hnd as [Hn _].
  destruct Hn. left.
Qed.
Lemma dir_entries_NoDup t p : NoDup (dir_entries t p).
Proof. unfold dir_entries. destruct (is_dir t p); [|constructor]. rewrite sort_perm. apply entries_NoDup. Qed.
Lemma show_uint_inj {w} (x y : uint w) : show_uint x = show_uint y → x = y.
Proof. intros H%(f_equal (parse_uint w)). rewrite !parse_show_uint in H. by injection H. Qed.

(** Port directories carry their number as the program writes it. *)
Definition canonical_ports (root : path) (t : tree) : Prop :=
  ∀ port id, is_Some (t !! port_path root port) → parse_uint 16 port = Some id → port = show_uint id.
(** What the renderer produces. *)
Definition plain_subsystems (d : NvmetDesired) : Prop :=
  ∀ s, s ∈ nd_subsystems d → ∃ ns, sub_namespaces s = [ns] ∧ raw (ns_nsid ns) = 1.
(** No subsystem is both open to any host and given a list of hosts. *)
Definition agreeing_acls (d : NvmetDesired) : Prop :=
  ∀ s, s ∈ nd_subsystems d → sub_allow_any_host s = true → sub_allowed_hosts s = [].

Section satisfied.
Context (root : path) (d : NvmetDesired) (t : tree).
Context (Hgood : good_desired d) (Hplain : plain_subsystems d).
Context (Hcanon : canonical_ports root t) (Hcv : converged root d t).

Lemma subsys_present s : s ∈ nd_subsystems d → as_str (sub_nqn s) ∈ dir_entries t (root ++ ["subsystems"]).
Proof.
  intros Hs. destruct (cv_subsys _ _ _ Hcv s Hs) as [Hd _]. apply is_dir_lookup in Hd; [|apply app_cons_ne_nil].
  apply elem_of_dir_entries. rewrite <- app_assoc. cbn.
  assert (Hx : is_Some (t !! (root ++ ["subsystems"; as_str (sub_nqn s)]))) by (by eexists).
  split; [|done]. apply (cv_wf _ _ _ Hcv (root ++ ["subsystems"]) (as_str (sub_nqn s))). by rewrite <- app_assoc.
Qed.
Lemma converged_nqns :
  sset (as_str <$> (sub_nqn <$> nd_subsystems d))
  = sset (filter (λ n, Is_true (ours n)) (as_nqn <$> an_subsystems (read t root))).
Proof.
  apply leibniz_equiv. unfold sset. intros n. rewrite !elem_of_list_to_set, list_elem_of_filter. cbn [read an_subsystems].
  assert (as_nqn <$> (read_subsys t root <$> dir_entries t (root ++ ["subsystems"]))
    = dir_entries t (root ++ ["subsystems"])) as ->.
  { rewrite <- list_fmap_compose. etransitivity; [|apply list_fmap_id]. by apply list_fmap_ext. }
  split.
  - intros (nq & -> & Hin)%list_elem_of_fmap. apply list_elem_of_fmap in Hin as (s & -> & Hs).
    split; [by apply (gd_ours _ Hgood)|by apply subsys_present].
  - intros [Ho [_ Hs]%elem_of_dir_entries]. rewrite <- app_assoc in Hs. by apply (cv_undesired _ _ _ Hcv).
Qed.
Lemma find_read_subsys n l :
  n ∈ l → List.find (λ s, bool_decide (as_nqn s = n)) (read_subsys t root <$> l) = Some (read_subsys t root n).
Proof.
  intros Hin. destruct (find_exists (λ s, bool_decide (as_nqn s = n)) (read_subsys t root <$> l) (read_subsys t root n))
    as [b Hb]; [by apply list_elem_of_fmap_2|by apply bool_decide_eq_true|].
  rewrite Hb. apply find_Some_elem in Hb as [(m & -> & Hm)%list_elem_of_fmap Hn%bool_decide_eq_true].
  cbn in Hn. by subst.
Qed.
Lemma converged_subsys s :
  s ∈ nd_subsystems d →
  subsys_satisfied s (read t root) = true ↔ (sub_allow_any_host s = true → sub_allowed_hosts s = []).
Proof.
  intros Hs. unfold subsys_satisfied. cbn [read an_subsystems].
  rewrite find_read_subsys by by apply subsys_present.
  destruct (cv_subsys _ _ _ Hcv s Hs) as (_ & Hany & Hhosts & Hns & Hright).
  destruct (Hplain s Hs) as (ns & Hl & H1).
  cbn [read_subsys as_allow_any_host as_allowed_hosts as_namespaces].
  rewrite Hl in *. rewrite !andb_true_iff. split.
  - intros [[_ Hset%bool_decide_eq_true] _] Hopen. destruct (sub_allowed_hosts s) as [|h hs] eqn:Eh; [done|]. exfalso.
    assert (Hh : as_str h ∈ sset (as_str <$> h :: hs)) by (unfold sset; rewrite elem_of_list_to_set; left).
    rewrite Hset in Hh. unfold sset in Hh. rewrite elem_of_list_to_set in Hh. apply Hhosts in Hh as [Hc _]. by rewrite Hopen in Hc.
  - intros Hopen. split_and!; [by apply bool_decide_eq_true| |].
    { apply bool_decide_eq_true, leibniz_equiv. unfold sset. intros h. rewrite !elem_of_list_to_set, Hhosts.
      split; [|by intros [_ ?]]. intros Hin. split; [|done].
      destruct (sub_allow_any_host s); [|done]. rewrite Hopen in Hin by done. by apply elem_of_nil in Hin. }
    rewrite (NoDup_singleton_list _ (show_uint (ns_nsid ns)) (dir_entries_NoDup _ _)).
    2: { intros x. rewrite Hns. cbn. apply list_elem_of_singleton. }
    cbn [omap list_omap]. unfold read_ns. rewrite parse_show_uint. cbn.
    unfold find_ns. cbn. rewrite H1. cbn.
    destruct (Hright ns ltac:(left)) as (_ & Hdp & _ & Hen).
    rewrite <- !app_assoc in Hdp, Hen. cbn in Hdp, Hen.
    rewrite <- !app_assoc. cbn. rewrite Hdp, Hen. by rewrite !bool_decide_eq_true_2.
Qed.
Lemma find_aport_canonical id pt :
  find_aport id (read t root) = Some pt → read_port t root (show_uint id) = Some pt.
Proof.
  intros [Hin Hid%bool_decide_eq_true]%find_Some_elem. cbn [read an_ports] in Hin.
  apply list_elem_of_omap in Hin as (port & [_ Hp]%elem_of_dir_entries & Hr).
  rewrite <- app_assoc in Hp. assert (Hport := Hr). unfold read_port in Hport.
  destruct (parse_uint 16 port) as [id'|] eqn:Hid'; [|done]. cbn in Hport. injection Hport as <-.
  cbn in Hid. subst id'. by rewrite <- (Hcanon port id).
Qed.
Lemma have_links_spec (id : u16) pt l :
  read_port t root (show_uint id) = Some pt →
  l ∈ have_links (Some pt) ↔ ours l ∧ is_Some (t !! link_path root (show_uint id) l).
Proof.
  unfold read_port. rewrite parse_show_uint. cbn. intros [= <-]. cbn.
  unfold sset. rewrite elem_of_list_to_set, list_elem_of_filter, elem_of_dir_entries.
  unfold link_path. rewrite <- !app_assoc. cbn. split; [tauto|]. intros [Ho Hl]. split_and!; [done| |done].
  apply (cv_wf _ _ _ Hcv _ l). by rewrite <- app_assoc.
Qed.
Lemma desired_links_spec (id : u16) l :
  l ∈ desired_links d (show_uint id) ↔ ∃ p, p ∈ nd_ports d ∧ port_id p = id ∧ l ∈ as_str <$> port_subsystems p.
Proof.
  unfold desired_links, sset. rewrite elem_of_list_to_set, list_elem_of_fmap. split.
  - intros (n & -> & (ns & Hn & Hin)%list_elem_of_join). apply list_elem_of_fmap in Hin as (p & -> & Hp).
    apply list_elem_of_filter in Hp as [Hid Hp]. exists p. split_and!; [done|by apply show_uint_inj|].
    by apply list_elem_of_fmap_2.
  - intros (p & Hp & <- & (n & -> & Hn)%list_elem_of_fmap). exists n. split; [done|].
    apply list_elem_of_join. exists (port_subsystems p). split; [done|].
    by apply list_elem_of_fmap_2, list_elem_of_filter.
Qed.
Lemma find_dport_Some id p : find_dport id d = Some p ↔ p ∈ nd_ports d ∧ port_id p = id.
Proof.
  split; [by intros [H1 H2%bool_decide_eq_true]%find_Some_elem|]. intros [Hin Hid].
  destruct (find_exists (λ p, bool_decide (port_id p = id)) _ p Hin) as [q Hq]; [by apply bool_decide_eq_true|].
  unfold find_dport. rewrite Hq. f_equal. apply find_Some_elem in Hq as [Hq Hqid%bool_decide_eq_true].
  apply list_elem_of_lookup in Hin as [i Hi], Hq as [j Hj].
  assert (i = j) as ->; [|congruence]. eapply (NoDup_lookup _ _ _ id (gd_ports _ Hgood)).
  - rewrite list_lookup_fmap, Hi. cbn. by f_equal.
  - rewrite list_lookup_fmap, Hj. cbn. by f_equal.
Qed.
Lemma converged_port id : port_satisfied d (read t root) id = true.
Proof.
  unfold port_satisfied. cbv zeta. apply andb_true_iff.
  destruct (find_dport id d) as [p|] eqn:Hdp.
  - apply find_dport_Some in Hdp as [Hin <-]. destruct (cv_port _ _ _ Hcv p Hin) as (Hdir & Haddr & _ & Hl).
    assert (∃ pt, find_aport (port_id p) (read t root) = Some pt) as [pt Hpt].
    { destruct (read_port t root (show_uint (port_id p))) as [pt|] eqn:Hr.
      2: { unfold read_port in Hr. by rewrite parse_show_uint in Hr. }
      apply (find_exists _ _ pt); [|unfold read_port in Hr; rewrite parse_show_uint in Hr; cbn in Hr;
        injection Hr as <-; by apply bool_decide_eq_true].
      cbn [read an_ports]. apply list_elem_of_omap. exists (show_uint (port_id p)). split; [|done].
      apply is_dir_lookup in Hdir; [|apply app_cons_ne_nil].
      assert (Hs : is_Some (t !! ((root ++ ["ports"]) ++ [show_uint (port_id p)])))
        by (rewrite <- app_assoc; by eexists).
      apply elem_of_dir_entries. split; [by eapply (cv_wf _ _ _ Hcv)|done]. }
    rewrite Hpt. apply find_aport_canonical in Hpt. split.
    + apply bool_decide_eq_true, leibniz_equiv. intros l. rewrite have_links_spec by done.
      cbn. unfold sset. rewrite elem_of_list_to_set. split.
      * intros (n & -> & Hn)%list_elem_of_fmap. split; [by eapply (gd_ours _ Hgood)|].
        specialize (Hl n Hn). rewrite <- app_assoc in Hl. done.
      * intros [Ho Hs]. apply (cv_stale _ _ _ Hcv) in Hs; [|done].
        apply desired_links_spec in Hs as (q & Hq & Hid & Hx).
        assert (q = p) as ->; [|done]. cut (Some q = Some p); [by intros [=]|].
        rewrite <- (proj2 (find_dport_Some (port_id p) q)), <- (proj2 (find_dport_Some (port_id p) p)); done.
    + unfold read_port in Hpt. rewrite parse_show_uint in Hpt. cbn in Hpt. injection Hpt as <-. cbn.
      apply andb_true_iff. split; [apply bool_decide_eq_true; exact (Haddr _ (port_addr_trtype p))|].
      destruct (decide (port_trtype p = Loop)) as [E|E]; [by rewrite (bool_decide_eq_true_2 _ E)|].
      apply orb_true_iff. right. apply bool_decide_eq_true. exact (Haddr _ (port_addr_traddr p E)).
  - split; [|done]. apply bool_decide_eq_true, leibniz_equiv. intros l. unfold want_links.
    split; [set_solver|]. destruct (find_aport id (read t root)) as [pt|] eqn:Hpt; [|set_solver].
    apply find_aport_canonical in Hpt. rewrite have_links_spec by done. intros [Ho Hs].
    apply (cv_stale _ _ _ Hcv) in Hs; [|done].
    apply desired_links_spec in Hs as (q & Hq & Hid & _).
    assert (find_dport id d = Some q) by (by apply find_dport_Some). congruence.
Qed.
Lemma converged_satisfied : nvmet_satisfied d (read t root) = true ↔ agreeing_acls d.
Proof.
  unfold nvmet_satisfied. rewrite !andb_true_iff, !forallb_forall. split.
  - intros [[_ H] _] s Hs. apply converged_subsys; [done|]. by apply H, list_elem_of_In.
  - intros H. split_and!.
    + apply bool_decide_eq_true, converged_nqns.
    + intros s Hs%list_elem_of_In. apply converged_subsys; [done|]. by apply H.
    + intros id _. apply converged_port.
Qed.
End satisfied.

(** ** Rendered states are good, and rendering is stable *)

Definition distinct_exports (nvme : list NvmeExport) : Prop := NoDup (nvme_name <$> nvmet_enabled nvme).

Lemma render_subsys_Some e n s :
  render_subsys (e, n) = Some s →
  sub_nqn s = n ∧ sub_allow_any_host s = nvme_allow_any_host e ∧
  sub_allowed_hosts s = valid_nqns (nvme_initiators e) ∧
  ∃ ns, sub_namespaces s = [ns] ∧ raw (ns_nsid ns) = 1.
Proof.
  unfold render_subsys. destruct (to_option _); [|done]. cbn. intros [= <-]. cbn. split_and!; eauto.
Qed.
Lemma render_subsys_nqns named :
  Forall (λ en, nvme_nqn en.1 = Ok en.2) named → NoDup (nvme_name <$> named.*1) →
  NoDup (as_str <$> (sub_nqn <$> omap render_subsys named)).
Proof.
  intros Hn Hnd.
  assert (Hs : ∀ named, (λ s, as_str (sub_nqn s)) <$> omap render_subsys named
    `sublist_of` (λ en : NvmeExport * Nqn, as_str en.2) <$> named).
  { clear. induction named as [|[e n] l IH]; cbn; [constructor|].
    destruct (to_option _); cbn; by constructor. }
  rewrite <- list_fmap_compose. eapply sublist_NoDup; [|apply Hs].
  assert ((λ en : NvmeExport * Nqn, as_str en.2) <$> named
    = (λ s, OUR_NQN_PREFIX +:+ s) <$> (nvme_name <$> named.*1)) as ->.
  { induction Hn as [|[e n] l H _ IH]; [done|]. cbn in *. apply nvme_nqn_Ok in H. rewrite H.
    apply NoDup_cons in Hnd as [_ Hnd]. by rewrite IH. }
  apply NoDup_fmap_2; [|done]. intros x y H. by simplify_eq.
Qed.
Lemma render_good nvme dflt pci reserved d :
  distinct_exports nvme → render_nvmet nvme dflt pci reserved = Ok d →
  good_desired d ∧ plain_subsystems d ∧ ∀ p, p ∈ nd_ports d → port_subsystems p ≠ [].
Proof.
  intros Hnd Hr. pose proof (render_ours_only _ _ _ _ _ Hr) as Hours.
  apply render_nvmet_inv in Hr as (named & Hm & Hp & Hsub). apply named_Ok in Hm as [Hl Hnq].
  assert (Hs : ∀ s, s ∈ nd_subsystems d → ∃ e n, (e, n) ∈ named ∧ render_subsys (e, n) = Some s).
  { intros s Hin. rewrite Hsub in Hin. apply list_elem_of_omap in Hin as ([e n] & ? & ?). eauto. }
  split; [split|split].
  - done.
  - rewrite Hsub. apply render_subsys_nqns; [done|]. by rewrite Hl.
  - destruct (assign_ids_Ok _ _ _ _ Hp) as (_ & _ & Hss & _). apply sorted_lt_NoDup in Hss.
    rewrite (list_fmap_compose port_id raw) in Hss. by apply NoDup_fmap_1 in Hss.
  - intros s (e & n & _ & (_ & _ & _ & ns & -> & _)%render_subsys_Some)%Hs. apply NoDup_singleton.
  - by intros s (e & n & Hin & (_ & _ & _ & Hns)%render_subsys_Some)%Hs.
  - intros p Hin He. destruct (proj1 (assign_ids_elem _ _ _ _ (port_key p) [] Hp)) as (q & Hq & _ & Hqe); [eauto|].
    unfold render_ports in Hq. apply elem_of_app in Hq as [Hq|Hq].
    + apply list_elem_of_fmap in Hq as ([k l] & -> & Hq). cbn in Hqe. subst l.
      apply bt_elem_lookup in Hq; [|apply group_exports_wf]. apply (go_groups_nonempty dflt pci [] named) in Hq. discriminate Hq.
    + destruct (loop_subs named); [by apply elem_of_nil in Hq|].
      by apply list_elem_of_singleton in Hq as ->.
Qed.
(** Reserving more ids, none of them allocated, changes nothing. *)
Lemma skip_reserved_stable f f' r r' next id :
  skip_reserved f r next = Ok id → r ⊆ r' → id ∉ r' → (f <= f')%nat → skip_reserved f' r' next = Ok id.
Proof.
  intros H Hr Hid. revert f' next H. induction f as [|f IH]; intros f' next H Hf; cbn in H.
  - case_decide; [done|]. injection H as <-. destruct f'; cbn; by rewrite decide_False.
  - case_decide as Hn.
    + destruct f' as [|f']; [lia|]. cbn. rewrite decide_True by set_solver.
      apply bind_Ok in H as (y & -> & H). cbn. apply IH; [done|lia].
    + injection H as <-. destruct f'; cbn; by rewrite decide_False.
Qed.
Lemma assign_ids_stable r r' next ports ports' :
  r ⊆ r' → assign_ids r next ports = Ok ports' → (∀ p, p ∈ ports' → port_id p ∉ r') →
  assign_ids r' next ports = Ok ports'.
Proof.
  intros Hr. revert next ports'. induction ports as [|p ports IH]; intros next ports'; cbn -[skip_reserved]; [done|].
  intros H Hid. apply bind_Ok in H as (id & Hs & H). apply bind_Ok in H as (next' & Hi & H).
  apply bind_Ok in H as (rest & Hrest & [= <-]).
  rewrite (skip_reserved_stable _ (S (size r')) _ r' _ _ Hs Hr).
  - cbn. rewrite Hi. cbn. erewrite IH; [done|done|]. intros q Hq. apply Hid. by right.
  - apply (Hid (set_port_id p id)). left.
  - apply le_n_S, subseteq_size, Hr.
Qed.
Lemma render_stable nvme dflt pci r r' d :
  render_nvmet nvme dflt pci r = Ok d → r ⊆ r' → (∀ p, p ∈ nd_ports d → port_id p ∉ r') →
  render_nvmet nvme dflt pci r' = Ok d.
Proof.
  unfold render_nvmet. intros (named & -> & H)%bind_Ok Hr Hid.
  apply bind_Ok in H as (ports & Hp & [= <-]). cbn in *.
  by rewrite (assign_ids_stable _ r' _ _ _ Hr Hp).
Qed.

(** ** The pass is a fixpoint of the driver *)

Lemma link_port_present root t port l :
  wf t → is_Some (t !! link_path root port l) → is_Some (t !! port_path root port).
Proof.
  intros Hwf Hl. assert (Hd : is_dir t (port_path root port)).
  { apply (wf_ancestor _ _ ["subsystems"; l]); [done| |done]. unfold port_path. by rewrite <- app_assoc. }
  apply is_dir_lookup in Hd; [by eexists|apply app_cons_ne_nil].
Qed.
Lemma canonical_after {K : Kernel} root d t n r t' n' :
  wf t → ours_only d → reconcile d root t n = (r, t', n') →
  canonical_ports root t → canonical_ports root t'.
Proof.
  intros Hwf Hours Hrun Hc port id Hs Hid.
  pose proof (reconcile_safe _ _ _ _ _ _ _ Hours Hrun) as Hsafe.
  destruct (decide (is_Some (t !! port_path root port))) as [Hp|Hp]; [by apply Hc|].
  destruct (decide (port ∈ (λ p, show_uint (port_id p)) <$> nd_ports d)) as [(p & -> & _)%list_elem_of_fmap|Hnd].
  { rewrite parse_show_uint in Hid. by injection Hid as <-. }
  exfalso. apply Hp. rewrite <- (app_nil_r (port_path root port)) in Hs |- *.
  rewrite (safe_agree_port _ _ _ _ port _ _ Hsafe Hwf) in Hs; [done|].
  intros [(p & Hin & <-)|(l & _ & Hl)]; [by destruct Hnd; apply list_elem_of_fmap; eauto|]. apply Hp.
  by eapply link_port_present.
Qed.

Lemma pass_fixpoint {K : Kernel} nvme dflt pci root t n d msg t' n' :
  wf t → canonical_ports root t → distinct_exports nvme →
  render_nvmet nvme dflt pci (foreign_port_ids (read t root)) = Ok d →
  reconcile d root t n = (Ok msg, t', n') →
  render_nvmet nvme dflt pci (foreign_port_ids (read t' root)) = Ok d ∧
  (nvmet_satisfied d (read t' root) = true ↔ agreeing_acls d).
Proof.
  intros Hwf Hcan Hco Hd Hrun. destruct (render_good _ _ _ _ _ Hco Hd) as (Hgood & Hplain & Hne).
  pose proof (oks_reconcile root d t msg t' Hgood Hwf ltac:(by eexists _, _)) as Hcv.
  pose proof (canonical_after _ _ _ _ _ _ _ Hwf (gd_ours _ Hgood) Hrun Hcan) as Hcan'.
  pose proof (reconcile_safe _ _ _ _ _ _ _ (gd_ours _ Hgood) Hrun) as Hsafe.
  split; [|by apply converged_satisfied]. eapply render_stable; [done|..].
  - intros id [->|(port & Hid & Hf)]%reserved_iff; [apply reserved_iff; [apply Hcv|by left]| |done].
    apply reserved_iff; [apply Hcv|]. right. exists port. split; [done|].
    pose proof (safe_agree_port _ _ _ _ port _ _ Hsafe Hwf ltac:(by eapply foreign_port_not_written)) as Ha.
    assert (Hl : ∀ l, t' !! link_path root port l = t !! link_path root port l).
    { intros l. specialize (Ha ["subsystems"; l]). unfold port_path in Ha. by rewrite <- app_assoc in Ha. }
    unfold foreign_port. by setoid_rewrite Hl.
  - intros p Hp [Hcsi|(port & Hid & [l0 Hl0] & Hno)]%reserved_iff; [| |apply Hcv].
    + destruct (render_nvmet_inv _ _ _ _ _ Hd) as (named & _ & (_ & _ & _ & Hall)%assign_ids_Ok & _).
      rewrite Forall_forall in Hall. apply Hall in Hp as [Hr _]. apply Hr, reserved_iff; [done|by left].
    + destruct (cv_port _ _ _ Hcv p Hp) as (Hdir & _ & _ & Hl). specialize (Hne p Hp).
      destruct (port_subsystems p) as [|m ms] eqn:Hms; [done|].
      specialize (Hl m ltac:(left)). rewrite <- app_assoc in Hl. cbn in Hl.
      apply link_port_present in Hl0; [|apply Hcv]. rewrite (Hcan' _ _ Hl0 Hid) in Hno. apply (Hno _ Hl). eapply (gd_ours _ Hgood); [exact Hp|]. rewrite Hms. left.
Qed.

(** C2: what a successful pass leaves behind, whatever the kernel did. The exports have
    distinct names, and the port directories present before carry their numbers as the
    program writes them. When a pass rendered against the live tree succeeds, then
    scanning the tree it left and rendering again yields the same desired state; and
    the drift predicate holds of that scan, so that the next pass has nothing to do, if
    and only if no rendered subsystem is open to any host and lists hosts all the same.
    (The renderer keeps such a list, the pass removes the links: there the drift never
    ends.) *)
Theorem reconcile_converges {K : Kernel} nvme dflt pci root t n d msg t' n' :
  wf t → canonical_ports root t → distinct_exports nvme →
  render_nvmet nvme dflt pci (foreign_port_ids (read t root)) = Ok d →
  reconcile d root t n = (Ok msg, t', n') →
  render_nvmet nvme dflt pci (foreign_port_ids (read t' root)) = Ok d ∧
  (nvmet_satisfied d (read t' root) = true ↔ agreeing_acls d).
Proof. exact (pass_fixpoint nvme dflt pci root t n d msg t' n'). Qed.

(** [canonical_ports] decided on the entries of the ports directory. *)
Definition canonical_portsb (root : path) (t : tree) : bool :=
  forallb (λ port, match parse_uint 16 port with
                   | Some id => bool_decide (port = show_uint id) | None => true end)
    (entries t (root ++ ["ports"])).
Lemma canonical_portsb_sound root t : canonical_portsb root t = true → canonical_ports root t.
Proof.
  unfold canonical_portsb. rewrite forallb_forall. intros H port id Hs Hid.
  specialize (H port). rewrite Hid, <- list_elem_of_In, elem_of_entries, <- app_assoc in H.
  exact (proj1 (bool_decide_eq_true _) (H Hs)).
Qed.
Lemma reconcile_converges_witness :
  wf ex_tree ∧ is_ok ex_run.1.1 = true ∧
  nvmet_satisfied ex_desired (read ex_tree ex_root) = false ∧
  nvmet_satisfied ex_desired (read ex_run.1.2 ex_root) = true.
Proof.
  split; [exact ex_tree_wf|]. split; [vm_compute; reflexivity|]. split; [vm_compute; reflexivity|].
  refine (proj2 (proj2 (reconcile_converges (K:=permissive) ex_exports ex_listen ∅ ex_root ex_tree 0%nat
    ex_desired (default "" (to_option ex_run.1.1)) ex_run.1.2 ex_run.2 _ _ _ _ _)) _).
  - exact ex_tree_wf.
  - apply canonical_portsb_sound. vm_compute. reflexivity.
  - apply (bool_decide_unpack _). vm_compute. exact I.
  - vm_compute. reflexivity.
  - assert (He : is_ok ex_run.1.1 = true) by (vm_compute; reflexivity). unfold ex_run in *.
    destruct (reconcile _ _ _ _) as [[[r|e] t'] n']; [reflexivity|discriminate He].
  - assert (He : forallb (λ s, implb (sub_allow_any_host s) (bool_decide (length (sub_allowed_hosts s) = 0%nat))) (nd_subsystems ex_desired) = true)
      by (vm_compute; reflexivity).
    intros s Hs Hany. rewrite forallb_forall in He. specialize (He s (proj1 (list_elem_of_In _ _) Hs)). rewrite Hany in He.
    apply bool_decide_eq_true in He. by apply length_zero_iff_nil.
Defined.
