(* ===== verification/Csi.v ===== *)
(** * CSI attachments (greendotctl/src/csi.rs, the CSI operations of nvmet.rs and exec.rs)

    The imperative operations the Kubernetes controller drives: upsert and
    teardown of one export, the host ACL, and the durable attachment generations
    (owner and fences) that make publish and unpublish safe against delayed and
    duplicated requests. The state file's JSON codec is a class parameter with
    its round-trip law. *)
From Stdlib Require Import Ascii String.
From stdpp Require Import base option list strings sets gmap pretty.
From S2P Require Import Prelude Ordered Validate IpAddr Types Wire Ops Desired Actual Render Task Fs World Hardware Commands Nvmet.
#[local] Open Scope string_scope.
#[local] Open Scope list_scope.
#[local] Open Scope N_scope.

(** ** Durable state *)

Record Owner : Type := { ow_host : string; ow_attachment : string }.
#[export] Instance Owner_eq_dec : EqDecision Owner.
Proof. solve_decision. Defined.
Record State : Type := { st_owner : option Owner; st_fenced : gset string }.
Definition default_state : State := {| st_owner := None; st_fenced := ∅ |}.

(** [serde_json] for [State]: what is written reads back. *)
Class StateCodec := {
  state_json : State → string;
  json_state : string → result string State;
  json_state_json : ∀ s, json_state (state_json s) = Ok s }.

Section csi.
Context {C : Client} {K : Kernel} {M : Machine} {J : StateCodec}.

Definition load (root : path) (nqn : string) : io State :=
  k ← io_get (λ t, t !! (root ++ [nqn]));
  match k with
  | Some (File s) =>
      match json_state s with
      | Ok st => mret st
      | Err e => io_fail (io_err KRefused e)
      end
  | None => mret default_state
  | Some Dir => io_fail (io_err KIsADirectory "Is a directory")
  | Some (Link _) => io_fail (io_err KRefused "Too many levels of symbolic links")
  end.
(** The first half of [save]: the new state in a synced temporary file. *)
Definition write_temporary (root : path) (nqn : string) (state : State) : io unit :=
  _ ← create_dir_all root;
  _ ← match root with [] => mret tt | _ => fsync (parent root) end;
  let temporary := root ++ [nqn +:+ ".tmp"] in
  _ ← write_file temporary "";
  _ ← write_file temporary (state_json state);
  fsync temporary.
Definition save (root : path) (nqn : string) (state : State) : io unit :=
  _ ← write_temporary root nqn state;
  _ ← rename (root ++ [nqn +:+ ".tmp"]) (root ++ [nqn]);
  fsync root.

Record CsiAttachmentReply : Type := {
  car_hostnqn : string; car_attachment_id : string; car_error : string }.
Definition attachment (root : path) (nqn : string) : io CsiAttachmentReply :=
  io_catch
    (state ← load root nqn;
     mret match st_owner state with
          | Some o => {| car_hostnqn := ow_host o; car_attachment_id := ow_attachment o; car_error := "" |}
          | None => {| car_hostnqn := ""; car_attachment_id := ""; car_error := "" |}
          end)
    (λ e, mret {| car_hostnqn := ""; car_attachment_id := ""; car_error := err_msg e |}).

(** ** Gates for the legacy requests *)

Definition legacy_allowed (root : path) (nqn : string) : op bool :=
  there ← op_get (λ t, present t (root ++ [nqn]));
  if (there : bool) then
    _ ← mark "Check attachment protocol"
          (Fail "attachment conflict: generation-fenced export requires CsiPublish/CsiUnpublish");
    mret false
  else mret true.
Definition delete_allowed (root : path) (nqn : string) : op bool :=
  r ← lift (load root nqn);
  match r with
  | Ok state =>
      match st_owner state with
      | None => mret true
      | Some _ =>
          _ ← mark "Check attachment owner" (Fail "attachment conflict: volume is still owned");
          mret false
      end
  | Err e => _ ← mark "Read attachment owner" (Fail (err_msg e)); mret false
  end.

(** The ACL of an export, in directory order. *)
Definition hosts (root : path) (nqn : string) : io (list string) :=
  let dir := root ++ ["subsystems"; nqn; "allowed_hosts"] in
  k ← io_get (λ t, t !! dir);
  match k with
  | Some Dir => io_get (λ t, entries t dir)
  | None => mret []
  | Some _ => io_fail (io_err KNotADirectory "Not a directory")
  end.

(** ** Export steps (nvmet.rs) *)

Definition csi_port_links (root : path) : path :=
  root ++ ["ports"; show_uint CSI_PORT_ID; "subsystems"].

Definition ensure_subsystem (root : path) (op : CsiNvmeApply) : io SubStatus :=
  let dir := root ++ ["subsystems"; as_str (ca_nqn op)] in
  _ ← create_dir_all_ok dir;
  _ ← write_attr (dir ++ ["attr_allow_any_host"]) "0";
  _ ← create_dir_all_ok (dir ++ ["allowed_hosts"]);
  _ ← apply_namespace (dir ++ ["namespaces"])
        {| ns_nsid := lit 1; ns_device_path := ca_device_path op |} (Some (ca_device_uuid op));
  mret Success.
(** [Nqn::new(op.nqn.as_str()).expect(..)] cannot fail: a CSI NQN is an NQN. *)
Definition nqn_of_csi (n : CsiNqn) : Nqn :=
  Refine (raw n) (csi_nqn_nqn (raw n) (raw_ok n)).
Definition csi_port_spec (op : CsiNvmeApply) : NvmetPortSpec :=
  {| port_id := CSI_PORT_ID; port_trtype := ca_transport op; port_traddr := ca_traddr op;
     port_trsvcid := ca_trsvcid op; port_subsystems := [nqn_of_csi (ca_nqn op)] |}.
Definition bind_csi_port (root : path) (op : CsiNvmeApply) : io SubStatus :=
  _ ← apply_port root (csi_port_spec op) CSI_NQN_PREFIX;
  mret Success.
Definition csi_apply_checked (root : path) (op : CsiNvmeApply) : World.op SubStatus :=
  done ← step ("Ensure subsystem " +:+ as_str (ca_nqn op)) (ensure_subsystem root op);
  if bool_decide (done = Failed) then mret Failed
  else step ("Bind to CSI port " +:+ show_uint CSI_PORT_ID) (bind_csi_port root op).

(** Unlinking the export from the CSI port, skipped when it is not linked. *)
Definition unbind (root : path) (nqn : string) : io SubStatus :=
  let link := csi_port_links root ++ [nqn] in
  there ← io_get (λ t, present t link);
  if (there : bool) then _ ← remove_file_ok link; mret Success else mret Skipped.
Definition delete_export (root : path) (nqn : string) : io SubStatus :=
  let dir := root ++ ["subsystems"; nqn] in
  there ← io_get (λ t, is_dir t dir);
  if (there : bool) then _ ← delete_subsystem dir; mret Success else mret Skipped.
Definition reap_csi_port (root : path) : io SubStatus :=
  let port := root ++ ["ports"; show_uint CSI_PORT_ID] in
  busy ← io_get (λ t, negb (is_dir t port)
    || negb (match dir_entries t (port ++ ["subsystems"]) with [] => true | _ => false end));
  if (busy : bool) then mret Skipped else _ ← remove_object_dir port; mret Success.
Definition csi_delete_checked (root : path) (nqn : CsiNqn) : op SubStatus :=
  s ← step ("Unbind " +:+ as_str nqn +:+ " from CSI port") (unbind root (as_str nqn));
  if bool_decide (s = Failed) then mret Failed else
  s ← step ("Delete subsystem " +:+ as_str nqn) (delete_export root (as_str nqn));
  if bool_decide (s = Failed) then mret Failed else
  step "Reap empty CSI port" (reap_csi_port root).

Definition grant_host (root : path) (nqn : string) (host : string) : io SubStatus :=
  let subsys := root ++ ["subsystems"; nqn] in
  let allowed := subsys ++ ["allowed_hosts"] in
  there ← io_get (λ t, is_dir t subsys);
  if negb there then io_fail (io_err KRefused ("subsystem " +:+ nqn +:+ " does not exist")) else
  k ← io_get (λ t, t !! allowed);
  match k with
  | None => io_fail (io_err KNotFound "No such file or directory")
  | Some (File _) | Some (Link _) => io_fail (io_err KNotADirectory "Not a directory")
  | Some Dir =>
  other ← io_get (λ t, existsb (λ h, negb (bool_decide (h = host))) (entries t allowed));
  if (other : bool) then io_fail (io_err KRefused "attachment conflict: export grants another host") else
  let link := allowed ++ [host] in
  granted ← io_get (λ t, present t link);
  if (granted : bool) then mret Skipped else
  _ ← create_dir_all_ok (root ++ ["hosts"; host]);
  _ ← symlink_ok (root ++ ["hosts"; host]) link;
  mret Success
  end.
Definition csi_host_grant (root : path) (nqn : CsiNqn) (host : Nqn) : op unit :=
  _ ← step ("Grant " +:+ as_str host) (grant_host root (as_str nqn) (as_str host));
  mret tt.

Definition revoke_acl (root : path) (nqn host : string) : io SubStatus :=
  let link := root ++ ["subsystems"; nqn; "allowed_hosts"; host] in
  there ← io_get (λ t, present t link);
  if (there : bool) then _ ← remove_file_ok link; mret Success else mret Skipped.
Definition relink_port (root : path) (nqn : string) : io SubStatus :=
  let subsys := root ++ ["subsystems"; nqn] in
  let link := csi_port_links root ++ [nqn] in
  ready ← io_get (λ t, is_dir t subsys && is_dir t (parent link));
  if (ready : bool) then _ ← symlink_ok subsys link; mret Success else mret Skipped.
(** The fence: the statuses of the three steps are not looked at. *)
Definition csi_host_revoke (root : path) (nqn : CsiNqn) (host : Nqn) : op unit :=
  _ ← step "Revoke ACL" (revoke_acl root (as_str nqn) (as_str host));
  _ ← step "Sever port" (unbind root (as_str nqn));
  _ ← step "Relink port" (relink_port root (as_str nqn));
  mret tt.

(** ** Publish and unpublish (csi.rs) *)

Definition conflict {A} (why : string) : io A :=
  io_fail (io_err KRefused ("attachment conflict: " +:+ why)).
Definition is_owner (o : Owner) (host id : string) : bool :=
  bool_decide (ow_attachment o = id) && bool_decide (ow_host o = host).
(** The closure of [publish]: every check, then the durable claim. *)
Definition claim (root state_root : path) (op : CsiPublish) : io unit :=
  let nqn := as_str (ca_nqn (cp_export op)) in
  let host := as_str (cp_hostnqn op) in
  let id := cp_attachment_id op in
  state ← load state_root nqn;
  if decide (id ∈ st_fenced state) then conflict "attachment generation is fenced" else
  if match st_owner state with Some o => negb (is_owner o host id) | None => false end
  then conflict "volume has another owner" else
  existing_hosts ← hosts root nqn;
  exported ← io_get (λ t, present t (root ++ ["subsystems"; nqn]));
  if match st_owner state with None => true | Some _ => false end && exported
     && negb (bool_decide (existing_hosts = [host]))
  then conflict "legacy export has no sole matching owner" else
  if existsb (λ h, negb (bool_decide (h = host))) existing_hosts
  then conflict "export grants another host" else
  save state_root nqn
    {| st_owner := Some {| ow_host := host; ow_attachment := id |}; st_fenced := st_fenced state |}.
Definition publish (root state_root : path) (op : CsiPublish) : World.op unit :=
  r ← lift (claim root state_root op);
  match r with
  | Err e => mark "Claim attachment generation" (Fail (err_msg e))
  | Ok _ =>
      _ ← mark "Claim attachment generation" (Complete Success);
      s ← csi_apply_checked root (cp_export op);
      if bool_decide (s = Failed) then mret tt
      else csi_host_grant root (ca_nqn (cp_export op)) (cp_hostnqn op)
  end.

Definition unpublish (root state_root : path) (op : CsiUnpublish) : World.op unit :=
  let nqn := as_str (cu_nqn op) in
  let host := as_str (cu_hostnqn op) in
  let id := cu_attachment_id op in
  r ← lift (load state_root nqn);
  match r with
  | Err e => mark "Read attachment generation" (Fail (err_msg e))
  | Ok state =>
      let owned := match st_owner state with Some o => is_owner o host id | None => false end in
      if match st_owner state with
         | Some o => bool_decide (ow_attachment o = id) && negb (bool_decide (ow_host o = host))
         | None => false
         end
      then mark "Check attachment generation" (Fail "attachment conflict: host does not match owner")
      else
      r ← match st_owner state with
          | None => lift (hs ← hosts root nqn; mret (bool_decide (hs = [host])))
          | Some _ => mret (Ok false)
          end;
      match r with
      | Err e => mark "Read legacy owner" (Fail (err_msg e))
      | Ok legacy =>
          let state :=
            {| st_owner := if legacy : bool then Some {| ow_host := host; ow_attachment := id |}
                           else st_owner state;
               st_fenced := {[ id ]} ∪ st_fenced state |} in
          r ← lift (save state_root nqn state);
          match r with
          | Err e => mark "Persist attachment fence" (Fail (err_msg e))
          | Ok _ =>
              _ ← mark "Persist attachment fence" (Complete Success);
              if negb owned && negb legacy then mark_skipped "Attachment no longer owns export"
              else
              s ← csi_delete_checked root (cu_nqn op);
              if bool_decide (s = Failed) then mret tt else
              r ← lift (save state_root nqn {| st_owner := None; st_fenced := st_fenced state |});
              match r with
              | Err e => mark "Complete attachment fence" (Fail (err_msg e))
              | Ok _ => mark "Complete attachment fence" (Complete Success)
              end
          end
      end
  end.

(** ** Volume growth *)

Definition token_dataset (nqn device : string) : option DatasetName :=
  let token := default "" (strip_prefix CSI_NQN_PREFIX nqn) in
  if bool_decide ((":"%char : ascii) ∈ chars token) && negb (starts_with "imp1-" token)
  then to_option (new NtDatasetName (replace_char ":" "/" token))
  else if negb (starts_with "imp1-" token)
  then name ← strip_prefix "/dev/zvol/" device; to_option (new NtDatasetName name)
  else None.
(** The last step: have the kernel re-read the size of an enabled namespace. *)
Definition revalidate (root : path) (nqn : string) : io SubStatus :=
  let attr := root ++ ["subsystems"; nqn; "namespaces"; "1"; "revalidate_size"] in
  there ← io_get (λ t, present t attr);
  if negb there
  then io_fail (io_err KRefused "kernel lacks namespaces/<nsid>/revalidate_size (needs v5.15+); disable and re-enable the export to pick up the new size")
  else _ ← write_attr attr "1"; mret Success.
Definition expand_volume (root : path) (nqn : CsiNqn) (new_size : u64)
    (read_size : DatasetName → op (option u64)) (resize : DatasetName → u64 → op SubStatus) : op unit :=
  let ns := root ++ ["subsystems"; as_str nqn; "namespaces"; "1"] in
  device ← op_get (λ t, read_trim t (ns ++ ["device_path"]));
  exported ← op_get (λ t, present t ns);
  match token_dataset (as_str nqn) device with
  | Some ds =>
      if negb exported || bool_decide (device = "/dev/zvol/" +:+ as_str ds) then
        sz ← read_size ds;
        match sz with
        | None => mret tt
        | Some current =>
            s ← (if (raw current <? raw new_size)%N then resize ds new_size else mret Success);
            if negb (bool_decide (s = Success)) then mret tt else
            live ← op_get (λ t, present t ns && bool_decide (read_trim t (ns ++ ["enable"]) = "1"));
            if negb live then mret tt else
            _ ← step "Revalidate namespace size" (revalidate root (as_str nqn));
            mret tt
        end
      else mark "Resolve backing zvol" (Fail "namespace is not backed by the managed zvol")
  | None => mark "Resolve backing zvol" (Fail "namespace is not backed by the managed zvol")
  end.
Definition capacity_probe (dataset : DatasetName) : TaskSpec :=
  spec_new "zfs" ["get"; "-Hp"; "-o"; "value"; "volsize"; as_str dataset].
(** A capacity the probe reported: a positive number of bytes. *)
Definition capacity_of (output : string) : option u64 :=
  size ← parse_uint 64 (trim output);
  if (0 <? raw size)%N then Some size else None.
Definition read_capacity (dataset : DatasetName) : op (option u64) :=
  in_subtask ("Read capacity " +:+ as_str dataset) (
    output ← capture_into (capacity_probe dataset);
    mret match to_option output ≫= capacity_of with
         | Some size => (Some size, Complete Success)
         | None => (None, Fail "cannot read backing zvol capacity")
         end).
Definition csi_expand (root : path) (nqn : CsiNqn) (new_size : u64) : op unit :=
  expand_volume root nqn new_size read_capacity
    (λ dataset size, run ("Resize zvol " +:+ as_str dataset) (zvol_resize dataset size)).

(** ** The handlers (exec.rs) *)

(** The configuration a handler runs with, and what sysfs shows of the NICs. *)
Record ctx : Type := {
  cx_nvmet_root : path;
  cx_state_root : path;
  cx_autoload_modules : bool;
  cx_nics : inventory }.
(** What the rest of the system does to the tree while the daemon sleeps. *)
Class Idle := elapse : nat → tree → tree.
Context {I : Idle} {P : JsonParser} (cx : ctx).

Definition sleep : op unit := λ w,
  (Ok tt, set_fs w (elapse (w_clock w) (w_tree w)) (S (w_clock w))).
Definition abs_path (s : string) : path := filter (λ c, c ≠ "") (split "/" s).
(** [Path::exists]: links are followed, 40 of them at most. *)
Fixpoint exists_at (fuel : nat) (t : tree) (p : path) : bool :=
  match fuel, t !! p with
  | S fuel, Some (Link q) => exists_at fuel t q
  | S _, Some _ => true
  | _, _ => false
  end.
Definition path_exists (t : tree) (s : string) : bool := exists_at 41 t (abs_path s).
(** [(0..n).any(..)]: stops at the first success. *)
Fixpoint wait_for (n : nat) (device : string) : op bool :=
  match n with
  | O => mret false
  | S n =>
      _ ← sleep;
      there ← op_get (λ t, path_exists t device);
      if (there : bool) then mret true else wait_for n device
  end.
Definition prepare_csi_export (export : CsiNvmeApply) : op bool :=
  loaded ← (if cx_autoload_modules cx then
              match ensure [transport_module (ca_transport export)] (rdma_driver_modules (cx_nics cx)) with
              | Some spec => s ← run "Load kernel modules" spec; mret (bool_decide (s = Success))
              | None => mret true
              end
            else mret true);
  if negb loaded then mret false else
  let device := as_str (ca_device_path export) in
  there ← op_get (λ t, path_exists t device);
  if (there : bool) then mret true else
  in_subtask ("Wait for " +:+ device) (
    appeared ← wait_for 100 device;
    mret (if (appeared : bool) then (true, Dropped)
          else (false, Fail ("device node " +:+ device +:+ " did not appear " +:+ em_dash
                             +:+ " does the backing volume exist?")))).

Inductive csi_op : Type :=
| OpApply (a : CsiNvmeApply)
| OpPublish (p : CsiPublish)
| OpUnpublish (u : CsiUnpublish)
| OpDelete (n : CsiNqn)
| OpHostGrant (n : CsiNqn) (h : Nqn)
| OpHostRevoke (n : CsiNqn) (h : Nqn)
| OpExpand (n : CsiNqn) (new_size : u64).
Definition gated (gate : op bool) (body : op unit) : op unit :=
  ok ← gate; if (ok : bool) then body else mret tt.
Definition exec (o : csi_op) : op unit :=
  let root := cx_nvmet_root cx in
  let state_root := cx_state_root cx in
  match o with
  | OpApply a =>
      gated (legacy_allowed state_root (as_str (ca_nqn a)))
        (gated (prepare_csi_export a) (_ ← csi_apply_checked root a; mret tt))
  | OpPublish p => gated (prepare_csi_export (cp_export p)) (publish root state_root p)
  | OpUnpublish u => unpublish root state_root u
  | OpDelete n => gated (delete_allowed state_root (as_str n)) (_ ← csi_delete_checked root n; mret tt)
  | OpHostGrant n h => gated (legacy_allowed state_root (as_str n)) (csi_host_grant root n h)
  | OpHostRevoke n h => gated (legacy_allowed state_root (as_str n)) (csi_host_revoke root n h)
  | OpExpand n new_size => csi_expand root n new_size
  end.
Definition op_volume (o : csi_op) : string :=
  as_str match o with
         | OpPublish p => ca_nqn (cp_export p)
         | OpUnpublish u => cu_nqn u
         | OpApply a => ca_nqn a
         | OpDelete n | OpHostGrant n _ | OpHostRevoke n _ | OpExpand n _ => n
         end.
End csi.
