(* ===== verification/CsiFacts.v ===== *)
(** * Theorems about CSI attachments (greendotctl/src/csi.rs, nvmet.rs)

    Under every kernel and every client: one owner per volume, fences that are
    never lifted, requests that act on their own volume only, and what a publish
    or an unpublish that did not fail has done. *)
From Stdlib Require Import Ascii String.
From stdpp Require Import base option list strings sets gmap pretty relations.
From S2P Require Import Prelude Ordered Validate IpAddr Types Wire Ops Desired Actual Render RenderFacts Task Fs World Hardware Nvmet NvmetSafety NvmetConverge Csi.
#[local] Open Scope string_scope.
#[local] Open Scope list_scope.
#[local] Open Scope N_scope.

Section facts.
Context {C : Client} {K : Kernel} {M : Machine} {J : StateCodec}.
Context (root sroot : path).
(** The configfs tree and the state directory do not overlap. *)
Context (Hsep : ∀ a b, root ++ a ≠ sroot ++ b).

Abbreviation csi_port := (show_uint CSI_PORT_ID).
Definition tmp_path (v : string) : path := sroot ++ [v +:+ ".tmp"].
Definition state_path (v : string) : path := sroot ++ [v].
(** What a request for volume [v] may write in configfs and what it may create
    there; with its state file, all it may touch. *)
Definition config_region (v : string) (q : path) : Prop :=
  below (subsys_path root v) q ∨ below (port_path root csi_port) q.
Definition config_creatable : path → Prop := creatable root (λ _, True).
Definition csi_region (v : string) (q : path) : Prop :=
  config_region v q ∨ q = state_path v ∨ q = tmp_path v.
Definition csi_creatable (q : path) : Prop := config_creatable q ∨ below q sroot.
Abbreviation config_safe v := (safe config_creatable (config_region v)).
Abbreviation csi_safe v := (safe csi_creatable (csi_region v)).
Lemma config_csi v {A} (m : io A) : respects (config_safe v) m → respects (csi_safe v) m.
Proof.
  intros H. eapply respects_impl; [exact H|]. intros t t' Hs Hwf. destruct (Hs Hwf) as [Hw Hf]. split; [done|].
  intros q Hq. destruct (Hf q) as [E|(Hc & ? & ?)]; [intros HS; apply Hq; by left|by left|].
  right. split_and!; [by left|done..].
Qed.

Lemma region_subsys v r : config_region v (subsys_path root v ++ r).
Proof. left. apply below_app. Qed.
Lemma region_port v r : config_region v (port_path root csi_port ++ r).
Proof. right. apply below_app. Qed.
Lemma region_subsys_below v r q : below (subsys_path root v ++ r) q → config_region v q.
Proof. intros H. left. by eapply below_app_inv. Qed.
Lemma region_port_below v r q : below (port_path root csi_port ++ r) q → config_region v q.
Proof. intros H. right. by eapply below_app_inv. Qed.
Lemma region_ancestor_subsys v r q : below q (subsys_path root v ++ r) → config_creatable q ∨ config_region v q.
Proof.
  intros Hq. destruct (subsys_ancestor root (λ _, True) (eq v) (λ _, False) v r q eq_refl Hq) as [H|H]; [by left|].
  right. destruct H as [(n & <- & H)|(p & [] & _)]. by left.
Qed.
Lemma region_ancestor_port v r q : below q (port_path root csi_port ++ r) → config_creatable q ∨ config_region v q.
Proof.
  intros [Hq|Hq]%below_split; [|right; by right].
  unfold port_path in Hq. change ["ports"; csi_port] with (["ports"] ++ [csi_port]) in Hq.
  rewrite app_assoc in Hq. apply below_snoc in Hq as [Hq| ->]; [by left; right; left|].
  right; right. unfold port_path. rewrite <- app_assoc. apply below_refl.
Qed.
Lemma region_ancestor_host v h q : below q (root ++ ["hosts"; h]) → config_creatable q ∨ config_region v q.
Proof.
  intros Hq. left. destruct (host_ancestor root (λ _, True) (λ _, False) (λ _, False) h q I Hq) as [H|H]; [done|].
  destruct H as [(n & [] & _)|(p & [] & _)].
Qed.

(** ** Each step stays in the region *)

Lemma safe_ensure_subsystem a : respects (config_safe (as_str (ca_nqn a))) (ensure_subsystem root a).
Proof.
  unfold ensure_subsystem. change (root ++ ["subsystems"; as_str (ca_nqn a)]) with (subsys_path root (as_str (ca_nqn a))).
  repeat first [apply safe_ns|safe_step]; rewrite <- ?app_assoc; try apply region_subsys;
    intros q Hq; first [by eapply region_ancestor_subsys|by eapply region_subsys_below
      |eapply region_ancestor_subsys; by rewrite app_nil_r].
Qed.
Lemma safe_bind_csi_port a : respects (config_safe (as_str (ca_nqn a))) (bind_csi_port root a).
Proof.
  unfold bind_csi_port, apply_port. cbn [csi_port_spec port_id port_subsystems].
  change (root ++ ["ports"; csi_port]) with (port_path root csi_port).
  safe_steps; rewrite <- ?app_assoc; try apply region_port; intros q Hq;
    first [by eapply region_ancestor_port|eapply region_ancestor_port; by rewrite app_nil_r].
Qed.
Lemma csi_port_links_eq l : csi_port_links root ++ l = port_path root csi_port ++ "subsystems" :: l.
Proof. unfold csi_port_links, port_path. by rewrite <- !app_assoc. Qed.
Lemma safe_unbind v : respects (config_safe v) (unbind root v).
Proof. unfold unbind. safe_steps. rewrite csi_port_links_eq. apply region_port. Qed.
Lemma safe_delete_export v : respects (config_safe v) (delete_export root v).
Proof.
  unfold delete_export, delete_subsystem. change (root ++ ["subsystems"; v]) with (subsys_path root v).
  safe_steps; rewrite <- ?app_assoc; try apply app_cons_ne_nil; try apply region_subsys; intros q Hq;
    first [by eapply region_subsys_below|by left].
Qed.
Lemma safe_reap_csi_port v : respects (config_safe v) (reap_csi_port root).
Proof.
  unfold reap_csi_port. safe_steps; [apply app_cons_ne_nil|]. intros q Hq. right. exact Hq.
Qed.
Lemma safe_grant_host v h : respects (config_safe v) (grant_host root v h).
Proof.
  unfold grant_host. change (root ++ ["subsystems"; v]) with (subsys_path root v).
  safe_steps; rewrite <- ?app_assoc; try apply region_subsys.
  intros q Hq. by eapply region_ancestor_host.
Qed.
Lemma safe_revoke_acl v h : respects (config_safe v) (revoke_acl root v h).
Proof.
  unfold revoke_acl. safe_steps.
  change ["subsystems"; v; "allowed_hosts"; h] with (["subsystems"; v] ++ ["allowed_hosts"; h]).
  rewrite app_assoc. apply region_subsys.
Qed.
Lemma safe_relink_port v : respects (config_safe v) (relink_port root v).
Proof. unfold relink_port. safe_steps. rewrite csi_port_links_eq. apply region_port. Qed.

Lemma revalidate_path v r : root ++ "subsystems" :: v :: r = subsys_path root v ++ r.
Proof. unfold subsys_path. by rewrite <- app_assoc. Qed.
Lemma safe_revalidate v : respects (config_safe v) (revalidate root v).
Proof. unfold revalidate. safe_steps. rewrite revalidate_path. apply region_subsys. Qed.

(** ** The state file *)

(** What [load] returns, as a function of the tree. *)
Definition peek (t : tree) (v : string) : result ioerr State :=
  match t !! state_path v with
  | Some (File s) => match json_state s with Ok st => Ok st | Err e => Err (io_err KRefused e) end
  | None => Ok default_state
  | Some Dir => Err (io_err KIsADirectory "Is a directory")
  | Some (Link _) => Err (io_err KRefused "Too many levels of symbolic links")
  end.
Lemma load_run v t n : load sroot v t n = (peek t v, t, n).
Proof.
  unfold load, peek, state_path, mbind, io_bind, io_get. cbn.
  destruct (t !! _) as [[|s|]|]; [done| |done..]. by destruct (json_state s).
Qed.
Lemma hosts_run v t n :
  ∃ r, hosts root v t n = (r, t, n) ∧
    ∀ l, r = Ok l → ∀ h, is_Some (t !! (subsys_path root v ++ ["allowed_hosts"; h])) → wf t → h ∈ l.
Proof.
  unfold hosts, mbind, io_bind, io_get. cbn.
  assert (Hp : ∀ h, subsys_path root v ++ ["allowed_hosts"; h] = (root ++ ["subsystems"; v; "allowed_hosts"]) ++ [h]).
  { intros h. unfold subsys_path. by rewrite <- !app_assoc. }
  destruct (t !! _) as [[|s|]|] eqn:E; eexists; (split; [reflexivity|]); try done.
  - intros l [= <-] h Hs _. apply elem_of_entries. by rewrite <- Hp.
  - intros l [= <-] h Hs Hwf. exfalso. rewrite Hp in Hs. apply Hwf in Hs. apply is_dir_lookup in Hs; [congruence|].
    apply app_cons_ne_nil.
Qed.
(** A save, whatever happens to it: the state file is the old one or the new one,
    and it is the new one when the save succeeds. *)
Definition save_like (v : string) (st : State) (t t' : tree) : Prop :=
  (t' !! state_path v = t !! state_path v ∨ t' !! state_path v = Some (File (state_json st))).
Lemma tmp_ne v : tmp_path v ≠ state_path v.
Proof.
  unfold tmp_path, state_path. intros [= H]%app_inv_head.
  apply (f_equal slen) in H. rewrite slen_app in H. change (slen ".tmp") with 4 in H. lia.
Qed.
Lemma safe_save v st : respects (csi_safe v) (save sroot v st).
Proof.
  unfold save, write_temporary. fold (tmp_path v) (state_path v). apply respects_safe.
  - repeat first [respects_step|apply wf_create_dir_all|apply wf_fsync|apply wf_write|apply wf_rename].
  - repeat first [respects_step|apply keeps_frame, keeps_fsync]; try (apply keeps_frame, keeps_fsync).
    + eapply frame_weaken; [apply frame_create_dir_all|done|]. intros q Hq. left. by right.
    + eapply keeps_frame, keeps_weaken; [apply keeps_write|]. intros q ->. by right; right.
    + eapply keeps_frame, keeps_weaken; [apply keeps_write|]. intros q ->. by right; right.
    + eapply keeps_frame, keeps_weaken; [apply keeps_rename|]. intros q [->| ->]; [by right; right|by right; left].
Qed.
Lemma keeps_write_temporary v st : keeps (λ q, q ≠ state_path v) (write_temporary sroot v st).
Proof.
  unfold write_temporary. fold (tmp_path v).
  repeat first [respects_step|apply keeps_fsync].
  - eapply keeps_weaken; [apply keeps_create_dir_all|]. intros q Hq ->. by apply (below_longer sroot v []).
  - eapply keeps_weaken; [apply keeps_write|]. intros q ->. apply tmp_ne.
  - eapply keeps_weaken; [apply keeps_write|]. intros q ->. apply tmp_ne.
Qed.
Lemma oks_write_temporary v st t t' :
  oks (write_temporary sroot v st) t tt t' → t' !! tmp_path v = Some (File (state_json st)).
Proof.
  unfold write_temporary. fold (tmp_path v).
  intros ([] & t1 & _ & H)%oks_bind. apply oks_bind in H as (u & t2 & _ & H).
  apply oks_bind in H as ([] & t3 & _ & H). apply oks_bind in H as ([] & t4 & ->%oks_write & H).
  rewrite (oks_respects _ _ _ _ _ (keeps_fsync _ (λ _, False)) H _ id). apply lookup_insert_eq.
Qed.
Lemma save_run v st t n r t' n' :
  save sroot v st t n = (r, t', n') →
  save_like v st t t' ∧ (r = Ok tt → t' !! state_path v = Some (File (state_json st))).
Proof.
  unfold save, save_like. fold (tmp_path v) (state_path v). intros H.
  apply bind_run in H as [(e & H1 & ->)|([] & t1 & n1 & H1 & H)];
    pose proof (keeps_write_temporary v st _ _ _ _ _ H1 (state_path v) (λ f, f eq_refl)) as E1; [split; [by left|done]|].
  assert (Ht : t1 !! tmp_path v = Some (File (state_json st))).
  { eapply oks_write_temporary. by eexists _, _. }
  apply bind_run in H as [(e & H2 & ->)|([] & t2 & n2 & H2 & H)].
  - unfold rename in H2. assert (He : errs (rename (tmp_path v) (state_path v)) t1 e t') by (by eexists _, _).
    unfold rename in He. apply errs_syscall in He as [-> _]. split; [by left|done].
  - assert (Ho : oks (rename (tmp_path v) (state_path v)) t1 tt t2) by (by eexists _, _).
    unfold rename in Ho. apply oks_syscall in Ho as [_ ->]. rewrite Ht in H.
    rewrite (keeps_fsync sroot (λ _, False) _ _ _ _ _ H (state_path v) id), lookup_insert_eq. auto.
Qed.

(** ** Each request stays in its region *)

Lemma safe_load v : respects (csi_safe v) (load sroot v).
Proof. intros t n r t' n' H. rewrite load_run in H. injection H as _ <- _. reflexivity. Qed.
Lemma safe_hosts v : respects (csi_safe v) (hosts root v).
Proof.
  intros t n r t' n' H. destruct (hosts_run v t n) as (x & Hx & _). rewrite Hx in H.
  injection H as _ <- _. reflexivity.
Qed.
Lemma safe_claim p : respects (csi_safe (as_str (ca_nqn (cp_export p)))) (claim root sroot p).
Proof.
  unfold claim, conflict. repeat first [apply safe_load|apply safe_hosts|apply safe_save|respects_step].
Qed.
Lemma safe_csi_apply a : op_respects (on_tree (csi_safe (as_str (ca_nqn a)))) (csi_apply_checked root a).
Proof.
  unfold csi_apply_checked. repeat op_step; apply config_csi; [apply safe_ensure_subsystem|apply safe_bind_csi_port].
Qed.
Lemma safe_csi_delete n : op_respects (on_tree (csi_safe (as_str n))) (csi_delete_checked root n).
Proof.
  unfold csi_delete_checked. repeat op_step; apply config_csi; [apply safe_unbind|apply safe_delete_export|apply safe_reap_csi_port].
Qed.
Lemma safe_csi_grant n h : op_respects (on_tree (csi_safe (as_str n))) (csi_host_grant root n h).
Proof. unfold csi_host_grant. repeat op_step. apply config_csi, safe_grant_host. Qed.
Lemma safe_csi_revoke n h : op_respects (on_tree (csi_safe (as_str n))) (csi_host_revoke root n h).
Proof.
  unfold csi_host_revoke. repeat op_step; apply config_csi; [apply safe_revoke_acl|apply safe_unbind|apply safe_relink_port].
Qed.
Lemma safe_publish p : op_respects (on_tree (csi_safe (as_str (ca_nqn (cp_export p))))) (publish root sroot p).
Proof.
  unfold publish. repeat first [apply safe_csi_apply|apply safe_csi_grant|op_step]. apply safe_claim.
Qed.
Lemma safe_unpublish u : op_respects (on_tree (csi_safe (as_str (cu_nqn u)))) (unpublish root sroot u).
Proof.
  unfold unpublish. cbv zeta. repeat first [apply safe_csi_delete|op_step];
    repeat first [apply safe_load|apply safe_save|apply safe_hosts|respects_step].
Qed.

(** ** The invariant: an owned volume grants its owner only *)

Definition acl_path (v h : string) : path := subsys_path root v ++ ["allowed_hosts"; h].
Definition sole_owner (v : string) (t : tree) : Prop :=
  ∀ st o h, peek t v = Ok st → st_owner st = Some o → is_Some (t !! acl_path v h) → h = ow_host o.
(** [id] is fenced on [v]. *)
Definition fenced (v id : string) (t : tree) : Prop := ∃ st, peek t v = Ok st ∧ id ∈ st_fenced st.

(** A volume that no other volume's temporary file aliases. *)
Definition unaliased (v v' : string) : Prop := v ≠ v' ∧ v ≠ v' +:+ ".tmp".
Lemma region_other v v' p :
  unaliased v v' → ¬ csi_region v' (subsys_path root v ++ p) ∧ ¬ csi_region v' (state_path v).
Proof.
  intros [Hn Ht]. split.
  - intros [[H|H]|[H|H]].
    + unfold subsys_path in H. rewrite <- app_assoc in H. apply below_root in H. cbn in H. by bool_split.
    + unfold subsys_path, port_path in H. rewrite <- app_assoc in H. by apply below_fork in H.
    + unfold subsys_path in H. rewrite <- app_assoc in H. by apply Hsep in H.
    + unfold subsys_path in H. rewrite <- app_assoc in H. by apply Hsep in H.
  - intros [[H|H]|[H|H]].
    + apply below_spec in H as [r H]. unfold subsys_path, state_path in H. rewrite <- app_assoc in H.
      by symmetry in H; apply Hsep in H.
    + apply below_spec in H as [r H]. unfold port_path, state_path in H. rewrite <- app_assoc in H.
      by symmetry in H; apply Hsep in H.
    + unfold state_path in H. apply app_inv_head in H. by simplify_eq.
    + unfold state_path, tmp_path in H. apply app_inv_head in H. by simplify_eq.
Qed.
Lemma not_creatable_state v : ¬ config_creatable (state_path v).
Proof.
  unfold state_path. intros [H|[H|[H|(h & _ & H)]]].
  1-3: apply below_spec in H as [r H]; rewrite <- app_assoc in H; by apply Hsep in H.
  symmetry in H. by apply Hsep in H.
Qed.
Lemma not_region_state v v' : ¬ config_region v' (state_path v).
Proof.
  unfold state_path. intros [H|H]; apply below_spec in H as [r H]; unfold subsys_path, port_path in H;
    rewrite <- app_assoc in H; symmetry in H; by apply Hsep in H.
Qed.
Lemma not_creatable_config a : ¬ below (root ++ a) sroot.
Proof. intros [r H]%below_spec. rewrite <- app_assoc, <- (app_nil_r sroot) in H. symmetry in H. by apply Hsep in H. Qed.
Lemma not_creatable_subsys v p : ¬ csi_creatable (subsys_path root v ++ p).
Proof.
  unfold subsys_path. rewrite <- app_assoc. intros [[H|[H|[H|(h & _ & H)]]]|H].
  1-3: apply below_root in H; cbn in H; by bool_split.
  - unfold host_path in H. by apply app_inv_head in H.
  - by apply not_creatable_config in H.
Qed.
(** Requests for other volumes leave the export and the state of [v] alone. *)
Lemma other_volume v v' t t' :
  wf t → csi_safe v' t t' → unaliased v v' →
  agree (subsys_path root v) t t' ∧ t' !! state_path v = t !! state_path v.
Proof.
  intros Hwf Hs Hu. destruct (Hs Hwf) as [_ Hf]. split.
  - eapply frame_agree; [done|..]; intros r; [by apply region_other|apply not_creatable_subsys].
  - destruct (Hf (state_path v)) as [|(Hc & _)]; [by eapply (region_other _ _ [])|done|].
    destruct Hc as [Hc|Hc]; [by apply not_creatable_state in Hc|by apply (below_longer sroot v []) in Hc].
Qed.
(** Configfs work leaves every state file alone; saving leaves configfs alone. *)
Lemma config_keeps_state v v' t t' :
  wf t → config_safe v' t t' → t' !! state_path v = t !! state_path v.
Proof.
  intros Hwf Hs. destruct (Hs Hwf) as [_ Hf].
  destruct (Hf (state_path v)) as [|(Hc & _)]; [apply not_region_state|done|by apply not_creatable_state in Hc].
Qed.
Lemma save_keeps_config v st t n r t' n' a :
  save sroot v st t n = (r, t', n') → t' !! (root ++ a) = t !! (root ++ a).
Proof.
  intros H. assert (Hr : respects (Fs.frame (λ q, Is_true (below q sroot)) (λ q, q = state_path v ∨ q = tmp_path v)) (save sroot v st)).
  { unfold save, write_temporary. fold (tmp_path v) (state_path v).
    repeat first [respects_step|apply keeps_frame, keeps_fsync].
    - eapply frame_weaken; [apply frame_create_dir_all|done|]. auto.
    - eapply keeps_frame, keeps_weaken; [apply keeps_write|]. auto.
    - eapply keeps_frame, keeps_weaken; [apply keeps_write|]. auto.
    - eapply keeps_frame, keeps_weaken; [apply keeps_rename|]. naive_solver. }
  destruct (Hr _ _ _ _ _ H (root ++ a)) as [|(Hc & _)]; [|done|by apply not_creatable_config in Hc].
  intros [E|E]; by apply Hsep in E.
Qed.

(** ** The ACL under the configfs steps *)

Definition acl_only (v h0 : string) (t : tree) : Prop := ∀ h, is_Some (t !! acl_path v h) → h = h0.
Definition acl_step (v h0 : string) : relation tree := λ t t', acl_only v h0 t → acl_only v h0 t'.
#[export] Instance acl_step_preorder v h0 : PreOrder (acl_step v h0).
Proof. split; [intros t; exact id|]. intros a b c H1 H2 H. exact (H2 (H1 H)). Qed.
Lemma acl_keeps {A} v h0 S (m : io A) :
  keeps S m → (∀ h, ¬ S (acl_path v h)) → respects (acl_step v h0) m.
Proof. intros Hk HS t n r t' n' H Ha h. rewrite (Hk _ _ _ _ _ H) by apply HS. apply Ha. Qed.
Lemma acl_shrinks {A} v h0 (m : io A) : respects shrinks m → respects (acl_step v h0) m.
Proof. intros Hs t n r t' n' H Ha h Hh. apply Ha. by eapply Hs. Qed.
Lemma acl_path_ne_prefix v h x r : x ≠ "allowed_hosts" → ¬ below (subsys_path root v ++ x :: r) (acl_path v h).
Proof. intros Hx H. unfold acl_path in H. by apply below_fork in H. Qed.
Lemma acl_write_attr v h0 x r s :
  x ≠ "allowed_hosts" → respects (acl_step v h0) (write_attr (subsys_path root v ++ x :: r) s).
Proof.
  intros Hx. eapply acl_keeps; [apply keeps_write_attr|]. intros h E. unfold acl_path in E.
  apply app_inv_head in E. by simplify_eq.
Qed.
Lemma acl_create_dir v h0 p :
  (∀ h, ¬ below (acl_path v h) p) → respects (acl_step v h0) (create_dir_all_ok p).
Proof.
  intros Hp. eapply acl_keeps; [apply respects_map_err, keeps_create_dir_all|]. done.
Qed.
Lemma acl_ensure_subsystem a h0 : respects (acl_step (as_str (ca_nqn a)) h0) (ensure_subsystem root a).
Proof.
  unfold ensure_subsystem, apply_namespace.
  change (root ++ ["subsystems"; as_str (ca_nqn a)]) with (subsys_path root (as_str (ca_nqn a))).
  repeat respects_step; rewrite <- ?app_assoc; try (by apply acl_write_attr);
    apply acl_create_dir; intros h Hb; unfold acl_path in Hb.
  - by apply below_longer in Hb.
  - change ["allowed_hosts"; h] with (["allowed_hosts"] ++ [h]) in Hb. rewrite app_assoc in Hb.
    by apply below_longer in Hb.
  - by apply below_fork in Hb.
Qed.
Lemma port_not_acl v h p : port_path root csi_port ++ p ≠ acl_path v h.
Proof. unfold port_path, acl_path, subsys_path. rewrite <- !app_assoc. by intros [=]%app_inv_head. Qed.
Lemma acl_below_port v h p : ¬ below (acl_path v h) (port_path root csi_port ++ p).
Proof.
  intros H. unfold port_path, acl_path, subsys_path in H. rewrite <- !app_assoc in H. by apply below_fork in H.
Qed.
Lemma acl_port_call {A} v h0 S (m : io A) :
  keeps S m → (∀ q, S q → ∃ p, q = port_path root csi_port ++ p) → respects (acl_step v h0) m.
Proof.
  intros Hk HS. eapply acl_keeps; [done|]. intros h [p E]%HS. by symmetry in E; apply port_not_acl in E.
Qed.
Lemma acl_bind_csi_port v h0 a : respects (acl_step v h0) (bind_csi_port root a).
Proof.
  unfold bind_csi_port, apply_port. cbn [csi_port_spec port_id port_subsystems].
  change (root ++ ["ports"; csi_port]) with (port_path root csi_port).
  repeat respects_step; rewrite <- ?app_assoc.
  - apply acl_create_dir. intros h Hb. rewrite <- (app_nil_r (port_path _ _)) in Hb. by apply acl_below_port in Hb.
  - apply acl_shrinks, shrinks_remove_file_ok.
  - eapply acl_port_call; [apply keeps_write_attr|]. intros q ->. by eexists.
  - apply acl_create_dir. intros h Hb. by apply acl_below_port in Hb.
  - eapply acl_port_call; [apply keeps_symlink|]. intros q ->. by eexists.
Qed.
Lemma acl_unbind v h0 w : respects (acl_step v h0) (unbind root w).
Proof. apply acl_shrinks. unfold unbind. repeat (respects_step || apply shrinks_remove_file_ok). Qed.
Lemma acl_delete_export v h0 w : respects (acl_step v h0) (delete_export root w).
Proof.
  apply acl_shrinks. unfold delete_export, delete_subsystem.
  repeat (respects_step || apply shrinks_remove_file_ok || apply shrinks_remove_object_dir).
Qed.
Lemma acl_reap_csi_port v h0 : respects (acl_step v h0) (reap_csi_port root).
Proof. apply acl_shrinks. unfold reap_csi_port. repeat (respects_step || apply shrinks_remove_object_dir). Qed.
Lemma acl_grant_host v h0 : respects (acl_step v h0) (grant_host root v h0).
Proof.
  unfold grant_host. change (root ++ ["subsystems"; v]) with (subsys_path root v).
  repeat respects_step; rewrite <- ?app_assoc.
  - apply acl_create_dir. intros h Hb. unfold acl_path, subsys_path in Hb. rewrite <- app_assoc in Hb.
    by apply below_fork in Hb.
  - intros t n r t' n' H Ha h Hh. destruct (decide (h = h0)) as [|Hne]; [done|]. apply Ha.
    rewrite <- (keeps_symlink_ok _ _ _ _ _ _ _ H); [done|]. intros E. apply Hne.
    unfold acl_path in E. apply app_inv_head in E. by simplify_eq/=.
Qed.
Lemma acl_revoke_acl v h0 w h : respects (acl_step v h0) (revoke_acl root w h).
Proof. apply acl_shrinks. unfold revoke_acl. repeat (respects_step || apply shrinks_remove_file_ok). Qed.
Lemma acl_revalidate v h0 : respects (acl_step v h0) (revalidate root v).
Proof. unfold revalidate. repeat respects_step. rewrite revalidate_path. by apply acl_write_attr. Qed.
Lemma acl_relink_port v h0 w : respects (acl_step v h0) (relink_port root w).
Proof.
  unfold relink_port. repeat respects_step. eapply acl_port_call; [apply keeps_symlink_ok|].
  intros q ->. rewrite csi_port_links_eq. by eexists.
Qed.


(** ** Steps that keep the state file

    [own_step v h]: configfs work that keeps the tree well formed, leaves the state
    of [v] alone and grants nobody but [h]. *)
Definition own_step (v h : string) : relation tree := λ t t',
  wf t → wf t' ∧ t' !! state_path v = t !! state_path v ∧ acl_step v h t t'.
#[export] Instance own_step_preorder v h : PreOrder (own_step v h).
Proof.
  split; [intros t Hwf; split_and!; [done|done|exact id]|].
  intros a b c H1 H2 Hwf. destruct (H1 Hwf) as (Hb & E1 & A1), (H2 Hb) as (Hc & E2 & A2).
  split_and!; [done|congruence|]. intros H. exact (A2 (A1 H)).
Qed.
Lemma own_of_config {A} v h w (m : io A) :
  respects (config_safe w) m → respects (acl_step v h) m → respects (own_step v h) m.
Proof.
  intros Hs Ha t n r t' n' H Hwf. split_and!; [by eapply Hs|by eapply config_keeps_state, Hs|by eapply Ha].
Qed.
Lemma own_apply a h : op_respects (on_tree (own_step (as_str (ca_nqn a)) h)) (csi_apply_checked root a).
Proof.
  unfold csi_apply_checked. repeat op_step; eapply own_of_config;
    [apply safe_ensure_subsystem|apply acl_ensure_subsystem|apply safe_bind_csi_port|apply acl_bind_csi_port].
Qed.
Lemma own_delete v h n : op_respects (on_tree (own_step v h)) (csi_delete_checked root n).
Proof.
  unfold csi_delete_checked. repeat op_step; eapply own_of_config;
    [apply safe_unbind|apply acl_unbind|apply safe_delete_export|apply acl_delete_export
    |apply (safe_reap_csi_port v)|apply acl_reap_csi_port].
Qed.
Lemma own_grant n h : op_respects (on_tree (own_step (as_str n) (as_str h))) (csi_host_grant root n h).
Proof. unfold csi_host_grant. repeat op_step. eapply own_of_config; [apply safe_grant_host|apply acl_grant_host]. Qed.
Lemma own_revoke v h n h' : op_respects (on_tree (own_step v h)) (csi_host_revoke root n h').
Proof.
  unfold csi_host_revoke. repeat op_step; eapply own_of_config;
    [apply safe_revoke_acl|apply acl_revoke_acl|apply safe_unbind|apply acl_unbind
    |apply safe_relink_port|apply acl_relink_port].
Qed.

(** ** Invariant steps *)

Definition fences_grow (v : string) (t t' : tree) : Prop :=
  ∀ st, peek t v = Ok st → ∃ st', peek t' v = Ok st' ∧ st_fenced st ⊆ st_fenced st'.
(** What every request does for every volume. *)
Definition inv_step (v : string) : relation tree := λ t t',
  wf t → sole_owner v t → wf t' ∧ sole_owner v t' ∧ fences_grow v t t'.
#[export] Instance inv_step_preorder v : PreOrder (inv_step v).
Proof.
  split; [intros t Hwf Hs; split_and!; [done|done|]; intros st H; by exists st|].
  intros a b c H1 H2 Hwf Hs. destruct (H1 Hwf Hs) as (Hb & Sb & Fb), (H2 Hb Sb) as (Hc & Sc & Fc).
  split_and!; [done..|]. intros st (st1 & P1 & F1)%Fb. destruct (Fc _ P1) as (st2 & P2 & F2).
  exists st2. split; [done|by etrans].
Qed.
Lemma peek_same v t t' : t' !! state_path v = t !! state_path v → peek t' v = peek t v.
Proof. intros E. unfold peek. by rewrite E. Qed.
Lemma peek_saved v st t : t !! state_path v = Some (File (state_json st)) → peek t v = Ok st.
Proof. intros E. unfold peek. by rewrite E, json_state_json. Qed.
Lemma fences_same v t t' : peek t' v = peek t v → fences_grow v t t'.
Proof. intros E st Hst. exists st. by rewrite E. Qed.
(** A state with no owner promises nothing about the ACL. *)
Lemma inv_unowned v t t' st :
  peek t' v = Ok st → st_owner st = None → wf t' → fences_grow v t t' → inv_step v t t'.
Proof. intros Hp Ho Hwf Hf _ _. split_and!; [done| |done]. intros st' o h H Ho'. congruence. Qed.
Lemma inv_owned v t t' st o :
  peek t' v = Ok st → st_owner st = Some o → acl_only v (ow_host o) t' → wf t' →
  fences_grow v t t' → inv_step v t t'.
Proof.
  intros Hp Ho Ha Hwf Hf _ _. split_and!; [done| |done]. intros st' o' h H Ho' Hh. replace o' with o by congruence. by apply Ha.
Qed.
(** Configfs work that grants nobody. *)
Lemma inv_own v t t' : (∀ h, own_step v h t t') → inv_step v t t'.
Proof.
  intros H Hwf Hs. destruct (H "" Hwf) as (Hwf' & E & _). apply peek_same in E.
  split_and!; [done| |by apply fences_same]. intros st o h Hp Ho Hh. rewrite E in Hp.
  destruct (H (ow_host o) Hwf) as (_ & _ & Ha). apply Ha; [|done]. intros h' Hh'. by eapply Hs.
Qed.
Lemma inv_same v t t' :
  wf t' → agree (subsys_path root v) t t' → t' !! state_path v = t !! state_path v → inv_step v t t'.
Proof.
  intros Hwf' Ha E _ Hs. apply peek_same in E. split_and!; [done| |by apply fences_same].
  intros st o h Hp Ho Hh. rewrite E in Hp. unfold acl_path in Hh. rewrite Ha in Hh. by eapply Hs.
Qed.
Lemma inv_other v v' t t' : unaliased v v' → csi_safe v' t t' → inv_step v t t'.
Proof.
  intros Hu Hs Hwf. destruct (other_volume v v' t t' Hwf Hs Hu) as [Ha E].
  apply inv_same; [by apply Hs|done..].
Qed.


(** ** Publish *)

Definition owner_of (host id : string) (f : gset string) : State :=
  {| st_owner := Some {| ow_host := host; ow_attachment := id |}; st_fenced := f |}.
(** A claim changes nothing but the state file, and that only to make [host] the
    owner of an export that grants nobody else, under an unfenced id. *)
Lemma claim_run p t n r t' n' :
  let v := as_str (ca_nqn (cp_export p)) in
  let host := as_str (cp_hostnqn p) in
  wf t → claim root sroot p t n = (r, t', n') →
  (∀ a, t' !! (root ++ a) = t !! (root ++ a)) ∧
  (t' !! state_path v = t !! state_path v ∧ r ≠ Ok tt ∨
   ∃ st, peek t v = Ok st ∧ cp_attachment_id p ∉ st_fenced st ∧ acl_only v host t ∧
     (∀ o, st_owner st = Some o → o = {| ow_host := host; ow_attachment := cp_attachment_id p |}) ∧
     t' !! state_path v = Some (File (state_json (owner_of host (cp_attachment_id p) (st_fenced st))))).
Proof.
  intros v host Hwf. unfold claim, conflict. fold v host. intros H.
  assert (Hid : ∀ e, (Err e : result ioerr unit, t, n) = (r, t', n') →
    (∀ a, t' !! (root ++ a) = t !! (root ++ a)) ∧ (t' !! state_path v = t !! state_path v ∧ r ≠ Ok tt)).
  { by intros e [= <- <- _]. }
  apply bind_run in H as [(e & H & ->)|(st & t1 & n1 & H1 & H)]; rewrite load_run in *.
  { injection H as _ <- _. split; [done|by left]. }
  injection H1 as Hp <- <-. destruct (decide _) as [|Hf]; [edestruct Hid; [exact H|]; auto|].
  destruct (match st_owner st with Some _ => _ | None => _ end) eqn:Ho; [edestruct Hid; [exact H|]; auto|].
  destruct (hosts_run v t n) as (rh & Hh & Hhosts).
  apply bind_run in H as [(e & H & ->)|(hs & t1 & n1 & H1 & H)]; rewrite Hh in *.
  { injection H as _ <- _. split; [done|by left]. }
  injection H1 as -> <- <-. apply bind_run in H as [(e & [=] & _)|(ex & t1 & n1 & [= <- <- <-] & H)].
  destruct (_ && _ && _) eqn:Hx; [edestruct Hid; [exact H|]; auto|].
  destruct (existsb _ hs) eqn:Hall; [edestruct Hid; [exact H|]; auto|].
  assert (Hacl : acl_only v host t).
  { intros h Hs. specialize (Hhosts hs eq_refl h Hs Hwf). destruct (decide (h = host)) as [|Hne]; [done|].
    exfalso. enough (existsb (λ h, negb (bool_decide (h = host))) hs = true) by congruence.
    apply existsb_exists. exists h. split; [by apply list_elem_of_In|]. by rewrite bool_decide_false. }
  split; [intros a; by eapply save_keeps_config|].
  pose proof H as [[Hl|Hl] Hr]%save_run.
  - destruct r as [[]|e]; [|by left]. right. exists st. split_and!; try done; [|by apply Hr].
    intros o Eo. rewrite Eo in Ho. unfold is_owner in Ho. destruct o. cbn in *.
    apply negb_false_iff, andb_true_iff in Ho as [?%bool_decide_eq_true ?%bool_decide_eq_true]. by subst.
  - right. exists st. split_and!; try done.
    intros o Eo. rewrite Eo in Ho. unfold is_owner in Ho. destruct o. cbn in *.
    apply negb_false_iff, andb_true_iff in Ho as [?%bool_decide_eq_true ?%bool_decide_eq_true]. by subst.
Qed.

(** The rest of a publish, after the claim. *)
Definition publish_export (p : CsiPublish) : op unit :=
  s ← csi_apply_checked root (cp_export p);
  if bool_decide (s = Failed) then mret tt
  else csi_host_grant root (ca_nqn (cp_export p)) (cp_hostnqn p).
Lemma publish_run p w r w' :
  publish root sroot p w = (r, w') →
  ∃ x t n, claim root sroot p (w_tree w) (w_clock w) = (x, t, n) ∧
    match x with
    | Err _ => w_tree w' = t ∧ failed w'
    | Ok _ => ∃ w1, w_tree w1 = t ∧ publish_export p w1 = (r, w')
    end.
Proof.
  intros (x & w1 & Hc & _ & H)%lift_bind. exists x, (w_tree w1), (w_clock w1). split; [done|].
  destruct x as [[]|e].
  - apply op_bind_run in H as [(e & [=] & _)|([] & w2 & Hm & H)]. exists w2.
    split; [by eapply mark_tree|exact H].
  - split; [by eapply mark_tree|by eapply mark_failed].
Qed.
Lemma own_publish_export p :
  op_respects (on_tree (own_step (as_str (ca_nqn (cp_export p))) (as_str (cp_hostnqn p)))) (publish_export p).
Proof. unfold publish_export. repeat first [apply own_apply|apply own_grant|op_step]. Qed.
Lemma inv_publish p : op_respects (on_tree (inv_step (as_str (ca_nqn (cp_export p))))) (publish root sroot p).
Proof.
  intros w r w' (x & t1 & n1 & Hc & Hx)%publish_run Hwf Hs. set (v := as_str _) in *.
  pose proof (safe_claim _ _ _ _ _ _ Hc Hwf) as [Hwf1 _].
  destruct (claim_run _ _ _ _ _ _ Hwf Hc) as [Hk Hcase]. cbv zeta in Hcase. fold v in Hcase.
  assert (H1 : inv_step v (w_tree w) t1).
  { destruct Hcase as [[E _]|(st & Hp & _ & Ha & _ & E)].
    - apply inv_same; [done| |done]. intros q. unfold subsys_path. rewrite <- !app_assoc. apply Hk.
    - apply peek_saved in E. eapply inv_owned; [exact E|reflexivity| |done|].
      + intros h Hh. apply Ha. unfold acl_path, subsys_path in *. rewrite <- !app_assoc in *. by rewrite Hk in Hh.
      + intros st' Hst'. eexists. split; [exact E|]. replace st' with st by congruence. done. }
  destruct x as [[]|e]; [|by destruct Hx as [-> _]; apply H1].
  destruct Hx as (w1 & <- & H). destruct Hcase as [[_ ?]|(st & Hp & _ & Ha & _ & E)]; [done|].
  destruct (H1 Hwf Hs) as (_ & S1 & F1).
  destruct (own_publish_export p _ _ _ H Hwf1) as (Hwf2 & E2 & A2). fold v in E2, A2.
  assert (Hp2 := peek_same _ _ _ E2). apply peek_saved in E. rewrite E in Hp2.
  refine (inv_owned v (w_tree w) (w_tree w') _ _ Hp2 eq_refl _ Hwf2 _ Hwf Hs).
  - apply A2. intros h Hh. apply Ha. unfold acl_path, subsys_path in *. rewrite <- !app_assoc in *. by rewrite Hk in Hh.
  - intros st' Hst'. eexists. split; [exact Hp2|]. replace st' with st by congruence. done.
Qed.


(** ** Unpublish *)

Lemma inv_save v st st' t n r t' n' :
  peek t v = Ok st → st_fenced st ⊆ st_fenced st' →
  (∀ o, st_owner st' = Some o → sole_owner v t → acl_only v (ow_host o) t) →
  save sroot v st' t n = (r, t', n') → inv_step v t t'.
Proof.
  intros Hp Hf Ho H Hwf Hs. pose proof (safe_save _ _ _ _ _ _ _ H Hwf) as [Hwf' _].
  assert (Ha : agree (subsys_path root v) t t').
  { intros q. unfold subsys_path. rewrite <- !app_assoc. by eapply save_keeps_config. }
  pose proof H as [[E|E] _]%save_run; [by apply (inv_same v t t')|].
  apply peek_saved in E.
  assert (Hg : fences_grow v t t').
  { intros st0 H0. exists st'. split; [done|]. by replace st0 with st by congruence. }
  destruct (st_owner st') as [o|] eqn:Eo; [|by eapply (inv_unowned v t t')].
  eapply (inv_owned v t t'); try done. intros h Hh. unfold acl_path in Hh. rewrite Ha in Hh. by eapply Ho.
Qed.
(** [unpublish] after the read: the new state, whether the export is torn down,
    and the final save. *)
Definition legacy_owned (v host : string) (st : State) (t : tree) (n : nat) : result ioerr bool :=
  match st_owner st with
  | Some _ => Ok false
  | None => match (hosts root v t n).1.1 with Ok hs => Ok (bool_decide (hs = [host])) | Err e => Err e end
  end.
Definition fence_state (u : CsiUnpublish) (legacy : bool) (st : State) : State :=
  {| st_owner := if legacy then Some {| ow_host := as_str (cu_hostnqn u); ow_attachment := cu_attachment_id u |}
                 else st_owner st;
     st_fenced := {[ cu_attachment_id u ]} ∪ st_fenced st |}.
Definition owns (u : CsiUnpublish) (st : State) : bool :=
  match st_owner st with Some o => is_owner o (as_str (cu_hostnqn u)) (cu_attachment_id u) | None => false end.
(** The teardown and the release. *)
Definition release (u : CsiUnpublish) (f : gset string) : op unit :=
  s ← csi_delete_checked root (cu_nqn u);
  if bool_decide (s = Failed) then mret tt else
  r ← lift (save sroot (as_str (cu_nqn u)) {| st_owner := None; st_fenced := f |});
  match r with
  | Err e => mark "Complete attachment fence" (Fail (err_msg e))
  | Ok _ => mark "Complete attachment fence" (Complete Success)
  end.
Lemma unpublish_run u w r w' :
  let v := as_str (cu_nqn u) in
  unpublish root sroot u w = (r, w') →
  w_tree w' = w_tree w ∧ failed w' ∨
  ∃ st legacy x t n, peek (w_tree w) v = Ok st ∧ legacy_owned v (as_str (cu_hostnqn u)) st (w_tree w) (w_clock w) = Ok legacy ∧
    save sroot v (fence_state u legacy st) (w_tree w) (w_clock w) = (x, t, n) ∧
    match x with
    | Err _ => w_tree w' = t ∧ failed w'
    | Ok _ =>
        if owns u st || legacy then
          ∃ w1, w_tree w1 = t ∧ release u (st_fenced (fence_state u legacy st)) w1 = (r, w')
        else w_tree w' = t ∧ r = Ok tt
    end.
Proof.
  intros v H. unfold unpublish in H. cbv zeta in H. fold v in H.
  apply lift_bind in H as (x & w1 & Hl & Ht & H). rewrite load_run in Hl. injection Hl as <- Et En.
  destruct (peek (w_tree w) v) as [st|e] eqn:Hp.
  2: { left. split; [rewrite Et; by eapply mark_tree|by eapply mark_failed]. }
  destruct (match st_owner st with Some _ => bool_decide _ && _ | None => _ end) eqn:Hm.
  { left. split; [rewrite Et; by eapply mark_tree|by eapply mark_failed]. }
  assert (Hleg : ∃ rl w2, (match st_owner st with
      | None => lift (hs ← hosts root v; mret (bool_decide (hs = [as_str (cu_hostnqn u)])))
      | Some _ => mret (Ok false) end : op (result ioerr bool)) w1 = (Ok rl, w2) ∧ w_tree w2 = w_tree w1 ∧ w_clock w2 = w_clock w1
      ∧ rl = legacy_owned v (as_str (cu_hostnqn u)) st (w_tree w) (w_clock w)).
  { unfold legacy_owned. destruct (st_owner st) as [o|]; [by eexists _, w1|].
    rewrite Et, En. unfold lift, mbind, io_bind.
    destruct (hosts_run v (w_tree w1) (w_clock w1)) as (rh & E & _). rewrite E. by destruct rh; eexists _, _. }
  destruct Hleg as (rl & w2 & E2 & Et2 & En2 & Hrl).
  apply op_bind_run in H as [(e & H & _)|(a & w3 & H3 & H)]; [by rewrite E2 in H|].
  rewrite E2 in H3. injection H3 as <- <-.
  destruct rl as [legacy|e].
  2: { left. split; [rewrite Et, <- Et2; by eapply mark_tree|by eapply mark_failed]. }
  right. apply lift_bind in H as (x & w3 & Hsv & Ht3 & H).
  exists st, legacy, x, (w_tree w3), (w_clock w3). rewrite Et2, En2, <- Et, <- En in Hsv.
  split_and!; [done|done|exact Hsv|].
  destruct x as [[]|e]; [|split; [by eapply mark_tree|by eapply mark_failed]].
  apply op_bind_run in H as [(e & [=] & _)|([] & w4 & Hmk & H)]. apply mark_tree in Hmk.
  unfold owns. destruct (match st_owner st with Some _ => is_owner _ _ _ | None => _ end), legacy; cbn in H |- *;
    try (exists w4; split; [done|exact H]).
  unfold mark_skipped in H. injection H as <- <-. cbn. done.
Qed.

Lemma legacy_owned_acl v host st t n :
  wf t → legacy_owned v host st t n = Ok true → acl_only v host t.
Proof.
  intros Hwf H h Hh. unfold legacy_owned in H. destruct (st_owner st); [done|].
  destruct (hosts_run v t n) as (rh & E & Hin). rewrite E in H. cbn in H. destruct rh as [hs|e]; [|done].
  injection H as H%bool_decide_eq_true. subst hs. specialize (Hin _ eq_refl h Hh Hwf). by apply list_elem_of_singleton in Hin.
Qed.
Lemma inv_release u f w r w' st :
  peek (w_tree w) (as_str (cu_nqn u)) = Ok st → st_fenced st ⊆ f →
  release u f w = (r, w') → inv_step (as_str (cu_nqn u)) (w_tree w) (w_tree w').
Proof.
  intros Hp Hf H. set (v := as_str (cu_nqn u)) in *. unfold release in H. fold v in H.
  assert (Hown : ∀ h x w1, csi_delete_checked root (cu_nqn u) w = (x, w1) → own_step v h (w_tree w) (w_tree w1))
    by (intros h x w1; apply own_delete).
  apply op_bind_run in H as [(e & H & _)|(s & w1 & H1 & H)]; [apply inv_own; eauto|].
  assert (H01 : inv_step v (w_tree w) (w_tree w1)) by (apply inv_own; eauto).
  destruct (bool_decide _); [by injection H as _ <-|].
  apply lift_bind in H as (x & w2 & Hs & _ & H).
  assert (E : w_tree w' = w_tree w2) by (destruct x; by eapply mark_tree). rewrite E.
  intros Hwf. destruct (Hown "" _ _ H1 Hwf) as (_ & E1%peek_same & _). revert Hwf.
  change (inv_step v (w_tree w) (w_tree w2)). etrans; [exact H01|].
  refine (inv_save v st _ _ _ _ _ _ _ _ _ Hs); [by rewrite E1|exact Hf|done].
Qed.
Lemma inv_unpublish u : op_respects (on_tree (inv_step (as_str (cu_nqn u)))) (unpublish root sroot u).
Proof.
  intros w r w' H. unfold on_tree. set (v := as_str (cu_nqn u)).
  apply unpublish_run in H as [[-> _]|(st & legacy & x & t & n & Hp & Hl & Hs & H)]; [reflexivity|].
  fold v in Hp, Hl, Hs. intros Hwf.
  assert (H1 : inv_step v (w_tree w) t).
  { refine (inv_save v st _ _ _ _ _ _ Hp _ _ Hs); [cbn; set_solver|]. cbn. intros o Ho Hso.
    destruct legacy; [injection Ho as <-; by eapply legacy_owned_acl|]. intros h Hh. by eapply Hso. }
  revert Hwf. change (inv_step v (w_tree w) (w_tree w')).
  destruct x as [[]|e]; [|by destruct H as [-> _]].
  destruct (owns u st || legacy); [|by destruct H as [-> _]].
  destruct H as (w1 & <- & H). etrans; [exact H1|]. eapply inv_release; [|reflexivity|exact H].
  apply peek_saved. by eapply save_run.
Qed.

(** ** The legacy gates *)

Lemma legacy_allowed_run v w r w' :
  legacy_allowed sroot v w = (r, w') →
  w_tree w' = w_tree w ∧ (r = Ok true ∧ w' = w ∧ peek (w_tree w) v = Ok default_state ∨ r = Ok false ∧ failed w').
Proof.
  unfold legacy_allowed. intros H%get_bind. unfold present in H. fold (state_path v) in H.
  destruct (w_tree w !! state_path v) as [k|] eqn:E.
  - cbn in H. apply op_bind_run in H as [(e & [=] & _)|([] & w1 & H1 & [= <- <-])].
    split; [by eapply mark_tree|]. right. split; [done|by eapply mark_failed].
  - injection H as <- <-. split; [done|]. left. unfold peek. by rewrite E.
Qed.
Lemma delete_allowed_run v w r w' :
  delete_allowed sroot v w = (r, w') →
  w_tree w' = w_tree w ∧ (r = Ok true ∧ (∃ st, peek (w_tree w) v = Ok st ∧ st_owner st = None) ∨ r = Ok false ∧ failed w').
Proof.
  unfold delete_allowed. intros (x & w1 & Hl & _ & H)%lift_bind. rewrite load_run in Hl. injection Hl as <- Et _.
  destruct (peek (w_tree w) v) as [st|e].
  - destruct (st_owner st) eqn:Eo.
    + apply op_bind_run in H as [(e & [=] & _)|([] & w2 & H1 & [= <- <-])].
      split; [rewrite Et; by eapply mark_tree|]. right. split; [done|by eapply mark_failed].
    + injection H as <- <-. split; [done|]. left. split; [done|]. by exists st.
  - apply op_bind_run in H as [(e' & [=] & _)|([] & w2 & H1 & [= <- <-])].
    split; [rewrite Et; by eapply mark_tree|]. right. split; [done|by eapply mark_failed].
Qed.
(** Work that keeps the state of an unowned volume. *)
Lemma inv_unowned_step v h t t' st :
  peek t v = Ok st → st_owner st = None → own_step v h t t' → inv_step v t t'.
Proof.
  intros Hp Ho Hs Hwf. destruct (Hs Hwf) as (Hwf' & E%peek_same & _). revert Hwf.
  change (inv_step v t t'). eapply inv_unowned; [by rewrite E|done|done|by apply fences_same].
Qed.
End facts.

(** ** The handlers *)

(** What the rest of the machine (a module load, the passing of time) is relied on
    not to do: it leaves the exports and the attachment state alone. *)
Definition untouched (root sroot : path) : relation tree := λ t t', wf t → wf t' ∧
  ∀ v, agree (subsys_path root v) t t' ∧ t' !! (sroot ++ [v]) = t !! (sroot ++ [v]).
#[export] Instance untouched_preorder root sroot : PreOrder (untouched root sroot).
Proof.
  split; [by intros t Hwf|]. intros a b c H1 H2 Hwf. destruct (H1 Hwf) as [Hb E1], (H2 Hb) as [Hc E2].
  split; [done|]. intros v. destruct (E1 v) as [A1 S1], (E2 v) as [A2 S2]. split; [by etrans|congruence].
Qed.
Class Tame (root sroot : path) (M : Machine) (I : Idle) : Prop := {
  tame_proc : ∀ n cmd args stdin env t, untouched root sroot t (proc n cmd args stdin env t).2;
  tame_idle : ∀ n t, untouched root sroot t (elapse n t) }.

Section handlers.
Context {J : StateCodec}.
Context (root sroot : path) (Hsep : ∀ a b, root ++ a ≠ sroot ++ b).

Section one.
Context {C : Client} {K : Kernel} {M : Machine} {I : Idle} {P : JsonParser} {HT : Tame root sroot M I}.
Context (cx : ctx) (Hroot : cx_nvmet_root cx = root) (Hsroot : cx_state_root cx = sroot).

Lemma untouched_wait n d : op_respects (on_tree (untouched root sroot)) (wait_for n d).
Proof.
  induction n as [|n IH]; cbn [wait_for]; repeat op_step; [|done].
  intros w r w' [= <- <-]. apply tame_idle.
Qed.
Lemma untouched_prepare a : op_respects (on_tree (untouched root sroot)) (prepare_csi_export cx a).
Proof.
  unfold prepare_csi_export. repeat op_step.
  - apply tree_run; [apply _|by eapply ensure_plain|]. intros ? ?. apply tame_proc.
  - apply tree_in_command. repeat op_step. apply untouched_wait.
Qed.
Lemma inv_untouched v t t' : untouched root sroot t t' → inv_step root sroot v t t'.
Proof.
  intros H Hwf. destruct (H Hwf) as [Hwf' Hv]. destruct (Hv v) as [Ha E].
  by apply (inv_same root sroot v t t').
Qed.
Lemma own_untouched v h t t' : untouched root sroot t t' → own_step root sroot v h t t'.
Proof.
  intros H Hwf. destruct (H Hwf) as [Hwf' Hv]. destruct (Hv v) as [Ha E]. split_and!; [done|done|].
  intros Hac h' Hh'. apply Hac. unfold acl_path in *. by rewrite <- Ha.
Qed.
Lemma own_impl v h {A} (m : op A) :
  op_respects (on_tree (untouched root sroot)) m → op_respects (on_tree (own_step root sroot v h)) m.
Proof. intros H w r w' Hm. apply own_untouched. by eapply H. Qed.
(** Growing a volume, for a relation that the machine and the revalidation keep. *)
Lemma tree_expand (R : relation tree) `{!PreOrder R} n size :
  (∀ t t', untouched root sroot t t' → R t t') → respects R (revalidate root (as_str n)) →
  op_respects (on_tree R) (csi_expand root n size).
Proof.
  intros HR Hv. assert (Hp : ∀ k cmd args i env t, R t (proc k cmd args i env t).2) by (intros; apply HR, tame_proc).
  unfold csi_expand, expand_volume, read_capacity. repeat op_step; try (by apply tree_run); [|done].
  apply tree_in_command. repeat op_step. by apply tree_capture_into.
Qed.
(** Each handler keeps the invariant of its own volume. *)
Lemma inv_gated v h gate body :
  (∀ w r w', gate w = (r, w') → w_tree w' = w_tree w ∧
     (r = Ok true ∧ (∃ st, peek sroot (w_tree w) v = Ok st ∧ st_owner st = None) ∨ r = Ok false ∧ failed w')) →
  op_respects (on_tree (own_step root sroot v h)) body →
  op_respects (on_tree (inv_step root sroot v)) (gated gate body).
Proof.
  intros Hg Hb w r w' H. unfold on_tree. unfold gated in H.
  apply op_bind_run in H as [(e & H & _)|(ok & w1 & Hw1 & H)].
  { apply Hg in H as [_ [[? _]|[? _]]]; done. }
  apply Hg in Hw1 as [E [[[= ->] (st & Hp & Ho)]|[[= ->] _]]].
  - rewrite <- E. eapply inv_unowned_step; [by rewrite E|done|]. by eapply Hb.
  - injection H as <- <-. rewrite E; reflexivity.
Qed.
Lemma legacy_gate v w r w' :
  legacy_allowed sroot v w = (r, w') → w_tree w' = w_tree w ∧
    (r = Ok true ∧ (∃ st, peek sroot (w_tree w) v = Ok st ∧ st_owner st = None) ∨ r = Ok false ∧ failed w').
Proof.
  intros [E [(-> & _ & Hp)|[-> Hf]]]%legacy_allowed_run; (split; [done|]); [left|right; done].
  split; [done|]. by exists default_state.
Qed.
Lemma inv_exec_own o : op_respects (on_tree (inv_step root sroot (op_volume o))) (exec cx o).
Proof.
  unfold exec. rewrite Hroot, Hsroot. destruct o as [a|p|u|n|n h|n h|n size]; cbn [op_volume].
  - apply inv_gated with (h := ""); [apply legacy_gate|]. unfold gated. repeat op_step; [apply own_impl, untouched_prepare|].
    by apply own_apply.
  - unfold gated. repeat op_step; [|by apply inv_publish].
    intros w r w' H. apply inv_untouched. by eapply untouched_prepare.
  - by apply inv_unpublish.
  - apply inv_gated with (h := ""); [apply delete_allowed_run|]. repeat op_step. by apply own_delete.
  - apply inv_gated with (h := as_str h); [apply legacy_gate|]. by apply own_grant.
  - apply inv_gated with (h := ""); [apply legacy_gate|]. by apply own_revoke.
  - intros w r w' H. apply inv_own. intros h. unfold on_tree. revert w r w' H. apply tree_expand; [apply _|apply own_untouched|].
    by apply (own_of_config root sroot Hsep _ _ (as_str n)); [apply safe_revalidate|apply acl_revalidate].
Qed.
(** Other volumes keep their export and their state. *)
Definition kept (v : string) : relation tree := λ t t', wf t → wf t' ∧
  agree (subsys_path root v) t t' ∧ t' !! (sroot ++ [v]) = t !! (sroot ++ [v]).
#[export] Instance kept_preorder v : PreOrder (kept v).
Proof.
  split; [by intros t Hwf|]. intros a b c H1 H2 Hwf. destruct (H1 Hwf) as (Hb & A1 & S1), (H2 Hb) as (Hc & A2 & S2).
  split_and!; [done|by etrans|congruence].
Qed.
Lemma kept_untouched v {A} (m : op A) :
  op_respects (on_tree (untouched root sroot)) m → op_respects (on_tree (kept v)) m.
Proof. intros H w r w' Hm Hwf. destruct (H _ _ _ Hm Hwf) as [Hwf' Hv]. split; [done|apply Hv]. Qed.
Lemma kept_safe v v' {A} (m : op A) :
  unaliased v v' → op_respects (on_tree (safe (csi_creatable root sroot) (csi_region root sroot v'))) m →
  op_respects (on_tree (kept v)) m.
Proof.
  intros Hu H w r w' Hm Hwf. pose proof (H _ _ _ Hm) as Hs. split; [by apply Hs|].
  by eapply other_volume.
Qed.
Lemma kept_gated v (gate : op bool) (body : op unit) :
  op_respects (on_tree (kept v)) gate → op_respects (on_tree (kept v)) body →
  op_respects (on_tree (kept v)) (gated gate body).
Proof. intros Hg Hb. unfold gated. repeat op_step; done. Qed.
Lemma kept_legacy v v' : op_respects (on_tree (kept v)) (legacy_allowed sroot v').
Proof. intros w r w' [E _]%legacy_allowed_run. unfold on_tree. rewrite E. reflexivity. Qed.
Lemma kept_delete_allowed v v' : op_respects (on_tree (kept v)) (delete_allowed sroot v').
Proof. intros w r w' [E _]%delete_allowed_run. unfold on_tree. rewrite E. reflexivity. Qed.
Lemma kept_expand v n size : unaliased v (as_str n) → op_respects (on_tree (kept v)) (csi_expand root n size).
Proof.
  intros Hu. apply tree_expand; [apply _| |].
  - intros t t' H Hwf. destruct (H Hwf) as [Hwf' Hv]. split; [done|apply Hv].
  - intros t k r t' k' H Hwf. assert (Hs : safe (csi_creatable root sroot) (csi_region root sroot (as_str n)) t t').
    { eapply config_csi; [apply safe_revalidate|exact H]. }
    split; [by apply Hs|by eapply other_volume].
Qed.
Lemma kept_exec v o : unaliased v (op_volume o) → op_respects (on_tree (kept v)) (exec cx o).
Proof.
  intros Hu. unfold exec. rewrite Hroot, Hsroot.
  destruct o as [a|p|u|n|n h|n h|n size]; cbn [op_volume] in Hu;
    [..|by apply kept_expand];
    repeat first [apply kept_gated|apply kept_legacy|apply kept_delete_allowed|apply kept_untouched, untouched_prepare];
    (eapply kept_safe; [exact Hu|]); repeat op_step;
    first [by apply safe_csi_apply|by apply safe_publish|by apply safe_unpublish
          |by apply safe_csi_delete|by apply safe_csi_grant|by apply safe_csi_revoke].
Qed.
Lemma inv_exec v o : v = op_volume o ∨ unaliased v (op_volume o) → op_respects (on_tree (inv_step root sroot v)) (exec cx o).
Proof.
  intros [->|Hu]; [apply inv_exec_own|]. intros w r w' H Hwf.
  destruct (kept_exec v o Hu _ _ _ H Hwf) as (Hwf' & Ha & E). by apply (inv_same root sroot v (w_tree w)).
Qed.
End one.

(** ** Any sequence of requests

    Each request comes from its own client, under its own kernel, machine and
    daemon configuration, and asks for one of the volumes [vols]. A volume named like
    the temporary state file of one of these shares that file with it. *)
Context (vols : string → Prop).
Inductive served : relation tree :=
| served_intro (C : Client) (K : Kernel) (M : Machine) (I : Idle) (P : JsonParser) cx o w r w' :
    Tame root sroot M I → cx_nvmet_root cx = root → cx_state_root cx = sroot →
    vols (op_volume o) → exec cx o w = (r, w') → served (w_tree w) (w_tree w').
Definition no_alias (v : string) : Prop := ∀ v', vols v' → v ≠ v' +:+ ".tmp".
Lemma inv_served v t t' : no_alias v → served t t' → inv_step root sroot v t t'.
Proof.
  intros Hna [C K M I P cx o w r w' HT Hr Hs Ho H]. eapply inv_exec; [done|done|..|exact H].
  destruct (decide (v = op_volume o)) as [|Hne]; [by left|right]. split; [done|by apply Hna].
Qed.
Lemma inv_served_all v t t' : no_alias v → rtc served t t' → inv_step root sroot v t t'.
Proof.
  intros Hna H. induction H as [|t t1 t' H _ IH]; [reflexivity|]. etrans; [by eapply inv_served|done].
Qed.
End handlers.
