(* ===== verification/CsiTheorems.v ===== *)
(** * What CSI requests achieve (greendotctl/src/csi.rs, nvmet.rs, exec.rs)

    The properties of the attachment protocol: mutual exclusion of hosts over any
    sequence of requests, fences that delayed requests cannot lift, and what a
    publish, an unpublish and a volume growth that did not fail have done. *)
From Stdlib Require Import Ascii String.
From stdpp Require Import base option list strings sets gmap pretty relations countable.
From S2P Require Import Prelude Ordered Validate IpAddr Types Wire Ops Desired Actual Render RenderFacts Task Fs World Hardware Nvmet NvmetSafety NvmetConverge Csi CsiFacts.
#[local] Open Scope string_scope.
#[local] Open Scope list_scope.
#[local] Open Scope N_scope.

Section completed.
Context {C : Client} {K : Kernel} {M : Machine} {J : StateCodec}.
Context (root sroot : path).
Abbreviation csi_port := (show_uint CSI_PORT_ID).

(** ** Teardown *)

Lemma is_dir_ext t t' p : t' !! p = t !! p → is_dir t' p = is_dir t p.
Proof. intros E. destruct p; [done|]. cbn. by rewrite E. Qed.

(** No listener and no export. *)
Definition gone (v : string) (t : tree) : Prop :=
  t !! (csi_port_links root ++ [v]) = None ∧ is_dir t (subsys_path root v) = false.
Lemma oks_unbind v t st t' :
  oks (unbind root v) t st t' → t' !! (csi_port_links root ++ [v]) = None ∧ st ≠ Failed.
Proof.
  intros (b & ? & [-> ->]%oks_get & H)%oks_bind.
  apply oks_if in H as [[_ H]|[E [-> ->]%oks_ret]].
  - apply oks_bind in H as ([] & t1 & ->%oks_remove_file_ok & [-> ->]%oks_ret). split; [apply lookup_delete_eq|done].
  - split; [by apply present_false|done].
Qed.
Lemma oks_delete_export v t st t' :
  wf t → oks (delete_export root v) t st t' →
  is_dir t' (subsys_path root v) = false ∧ st ≠ Failed ∧ same_outside (λ q, Is_true (below (subsys_path root v) q)) t t'.
Proof.
  intros Hwf (b & ? & [-> ->]%oks_get & H)%oks_bind. fold (subsys_path root v) in *.
  apply oks_if in H as [[_ H]|[E [-> ->]%oks_ret]]; [|done].
  apply oks_bind in H as ([] & t1 & H & [-> ->]%oks_ret).
  destruct (removes_delete_subsystem _ _ _ Hwf (app_cons_ne_nil _ _ _) H) as (_ & Hn & _ & Ho).
  split_and!; [|done|done]. destruct (is_dir t1 _) eqn:E; [|done].
  apply Is_true_true, is_dir_lookup in E; [unfold subsys_path in *; congruence|apply app_cons_ne_nil].
Qed.
Lemma oks_reap t st t' :
  oks (reap_csi_port root) t st t' → shrinks t t' ∧ st ≠ Failed ∧ same_outside (λ q, Is_true (below (port_path root csi_port) q)) t t'.
Proof.
  intros H. split_and!.
  - eapply oks_respects; [|exact H]. unfold reap_csi_port. repeat (respects_step || apply shrinks_remove_object_dir).
  - apply oks_bind in H as (b & ? & [-> ->]%oks_get & H). apply oks_if in H as [[_ [-> _]%oks_ret]|[_ H]]; [done|].
    by apply oks_bind in H as ([] & t1 & _ & [-> _]%oks_ret).
  - eapply oks_respects; [|exact H]. unfold reap_csi_port. repeat (respects_step || apply keeps_remove_object_dir).
Qed.
Lemma failed_csi_delete n : op_respects stays_failed (csi_delete_checked root n).
Proof. unfold csi_delete_checked. repeat op_step. Qed.
Lemma csi_delete_done n w s w' :
  wf (w_tree w) → csi_delete_checked root n w = (Ok s, w') →
  s = Failed ∧ failed w' ∨ s ≠ Failed ∧ gone (as_str n) (w_tree w').
Proof.
  intros Hwf H. unfold csi_delete_checked in H.
  apply op_bind_Ok in H as (s1 & w1 & H1 & H). apply step_Ok in H1 as [[H1 _]|(-> & Hf & _)].
  2: { cbn in H. injection H as <- <-. by left. }
  pose proof (oks_unbind _ _ _ _ H1) as [L1 N1]. rewrite bool_decide_false in H by done.
  assert (Hwf1 : wf (w_tree w1)) by (by eapply (oks_respects _ _ _ _ _ (safe_unbind root (as_str n)) H1)).
  apply op_bind_Ok in H as (s2 & w2 & H2 & H). apply step_Ok in H2 as [[H2 _]|(-> & Hf & _)].
  2: { cbn in H. injection H as <- <-. by left. }
  destruct (oks_delete_export _ _ _ _ Hwf1 H2) as (D2 & N2 & O2). rewrite bool_decide_false in H by done.
  apply step_Ok in H as [[H3 _]|(-> & Hf & _)]; [|by left].
  destruct (oks_reap _ _ _ H3) as (S3 & N3 & O3). right. split; [done|]. split.
  - apply eq_None_not_Some. intros Hs%S3. rewrite O2 in Hs; [rewrite L1 in Hs; by destruct Hs|].
    unfold csi_port_links, subsys_path. rewrite <- app_assoc. intros Hb. by apply below_fork in Hb.
  - rewrite <- D2. apply is_dir_ext, O3. unfold port_path, subsys_path. intros Hb. by apply below_fork in Hb.
Qed.

(** ** Export *)

(** The export a request asks for: no open access, its device and identity on
    namespace 1, enabled, and a listener on the CSI port at the asked address. *)
Definition served_export (a : CsiNvmeApply) (t : tree) : Prop :=
  let dir := subsys_path root (as_str (ca_nqn a)) in
  read_trim t (dir ++ ["attr_allow_any_host"]) = "0" ∧
  ns_right (dir ++ ["namespaces"]) {| ns_nsid := lit 1; ns_device_path := ca_device_path a |}
    (Some (ca_device_uuid a)) t.
Lemma oks_ensure_subsystem a t st t' :
  wf t → oks (ensure_subsystem root a) t st t' → served_export a t' ∧ st ≠ Failed.
Proof.
  intros Hwf H. unfold ensure_subsystem in H. cbv zeta in H.
  change (root ++ ["subsystems"; as_str (ca_nqn a)]) with (subsys_path root (as_str (ca_nqn a))) in H.
  set (dir := subsys_path _ _) in *.
  eapply oks_bind_wf in H as ([] & t1 & W1 & _ & H); [|done|apply wf_create_dir_all_ok].
  eapply oks_bind_wf in H as ([] & t2 & W2 & E2%oks_write_attr & H); [|done|apply wf_write_attr].
  eapply oks_bind_wf in H as ([] & t3 & W3 & [_ E3]%oks_create_dir_all_ok & H); [|done|apply wf_create_dir_all_ok].
  apply oks_bind in H as ([] & t4 & H4 & [-> ->]%oks_ret). split; [|done].
  split; [|by eapply oks_apply_namespace].
  assert (A2 : t2 !! (dir ++ ["attr_allow_any_host"]) = Some (File "0")) by (subst; apply lookup_insert_eq).
  assert (A4 : t4 !! (dir ++ ["attr_allow_any_host"]) = Some (File "0")).
  { destruct (oks_respects _ _ _ _ _ (safe_ns (λ q, Is_true (below q (dir ++ ["namespaces"; show_uint (lit 1 : u32)])))
      (λ q, Is_true (below (dir ++ ["namespaces"; show_uint (lit 1 : u32)]) q)) (dir ++ ["namespaces"])
      {| ns_nsid := lit 1; ns_device_path := ca_device_path a |} (Some (ca_device_uuid a))
      ltac:(cbn; rewrite <- app_assoc; by left) ltac:(cbn; by rewrite <- app_assoc)) H4 W3) as [_ Hf].
    destruct (Hf (dir ++ ["attr_allow_any_host"])) as [E|(Hc & _)].
    - intros Hb. by apply below_fork in Hb.
    - rewrite E, E3; [done|by eexists].
    - by apply below_fork in Hc. }
  by eapply read_trim_plain.
Qed.
Lemma served_export_agree a t t' :
  agree (subsys_path root (as_str (ca_nqn a))) t t' → served_export a t → served_export a t'.
Proof.
  intros Ha [H1 H2]. split; [by rewrite (agree_read _ _ _ _ Ha)|]. eapply ns_right_agree; [|done].
  rewrite <- app_assoc. by apply agree_sub.
Qed.
Lemma bind_port_only a :
  respects (safe (λ q, Is_true (below q (port_path root csi_port))) (λ q, Is_true (below (port_path root csi_port) q)))
    (bind_csi_port root a).
Proof.
  assert (Hanc : ∀ r q, below q (port_path root csi_port ++ r) →
    below q (port_path root csi_port) ∨ below (port_path root csi_port) q).
  { intros r q [Hq|Hq]%below_split; [left|by right].
    eapply below_trans; [exact Hq|]. unfold port_path. apply below_refl. }
  unfold bind_csi_port, apply_port. cbn [csi_port_spec port_id port_subsystems].
  change (root ++ ["ports"; csi_port]) with (port_path root csi_port).
  safe_steps; rewrite <- ?app_assoc; try apply below_app; intros q Hq; [by left|by eapply Hanc].
Qed.
Lemma bind_keeps_subsys a v t st t' :
  wf t → oks (bind_csi_port root a) t st t' → agree (subsys_path root v) t t'.
Proof.
  intros Hwf H. destruct (oks_respects _ _ _ _ _ (bind_port_only a) H Hwf) as [_ Hf].
  eapply frame_agree; [exact Hf|..]; intros r Hb; unfold port_path, subsys_path in Hb; rewrite <- app_assoc in Hb;
    by apply below_fork in Hb.
Qed.
Lemma csi_apply_done a w s w' :
  wf (w_tree w) → csi_apply_checked root a w = (Ok s, w') →
  s = Failed ∧ failed w' ∨
  s ≠ Failed ∧ wf (w_tree w') ∧ served_export a (w_tree w') ∧ port_right root (csi_port_spec a) (w_tree w').
Proof.
  intros Hwf H. unfold csi_apply_checked in H.
  apply op_bind_Ok in H as (s1 & w1 & H1 & H). apply step_Ok in H1 as [[H1 _]|(-> & Hf & _)].
  2: { cbn in H. injection H as <- <-. by left. }
  destruct (oks_ensure_subsystem _ _ _ _ Hwf H1) as [S1 N1]. rewrite bool_decide_false in H by done.
  assert (Hwf1 : wf (w_tree w1)) by (by eapply (oks_respects _ _ _ _ _ (safe_ensure_subsystem root a) H1)).
  apply step_Ok in H as [[H2 _]|(-> & Hf & _)]; [|by left]. right.
  assert (Hwf2 : wf (w_tree w')) by (by eapply (oks_respects _ _ _ _ _ (bind_port_only a) H2)).
  pose proof (bind_keeps_subsys _ (as_str (ca_nqn a)) _ _ _ Hwf1 H2) as Ha.
  unfold bind_csi_port in H2. apply oks_bind in H2 as ([] & t1 & H2 & [-> E]%oks_ret).
  split_and!; [done|done|by eapply served_export_agree|]. rewrite E. by apply oks_apply_port in H2 as [? _].
Qed.
(** The grant adds one link under [allowed_hosts] and directories under [hosts]. *)
Lemma oks_grant v h t st t' :
  wf t → oks (grant_host root v h) t st t' →
  wf t' ∧ is_Some (t' !! acl_path root v h) ∧ st ≠ Failed ∧
  Fs.frame (λ q, Is_true (below q (root ++ ["hosts"; h]))) (λ q, q = acl_path root v h) t t'.
Proof.
  intros Hwf H. set (link := acl_path root v h).
  assert (Hw : respects (safe (λ q, Is_true (below q (root ++ ["hosts"; h]))) (λ q, q = link)) (grant_host root v h)).
  { unfold grant_host. safe_steps; [by left|]. unfold link, acl_path, subsys_path. by rewrite <- !app_assoc. }
  destruct (oks_respects _ _ _ _ _ Hw H Hwf) as [Hwf' Hf]. split; [done|].
  enough (is_Some (t' !! link) ∧ st ≠ Failed) by naive_solver.
  unfold grant_host in H. cbv zeta in H.
  apply oks_bind in H as (b & ? & [-> ->]%oks_get & H). apply oks_if in H as [[_ []%oks_fail]|[_ H]].
  apply oks_bind in H as (k & ? & [-> ->]%oks_get & H). destruct (t !! _) as [[| |]|]; try by apply oks_fail in H.
  apply oks_bind in H as (b & ? & [-> ->]%oks_get & H). apply oks_if in H as [[_ []%oks_fail]|[_ H]].
  assert (Hl : ((root ++ ["subsystems"; v]) ++ ["allowed_hosts"]) ++ [h] = link)
    by (unfold link, acl_path, subsys_path; by rewrite <- !app_assoc).
  rewrite Hl in H. apply oks_bind in H as (b & ? & [-> ->]%oks_get & H).
  apply oks_if in H as [[Hp [-> ->]%oks_ret]|[_ H]]; [split; [unfold present in Hp; by destruct (t !! link)|done]|].
  apply oks_bind in H as ([] & t1 & _ & H). apply oks_bind in H as ([] & t2 & H & [-> ->]%oks_ret).
  apply oks_map_err, oks_symlink in H as [_ ->]. split; [by rewrite lookup_insert_eq|done].
Qed.

Context (Hsep : ∀ a b, root ++ a ≠ sroot ++ b).
Lemma grant_keeps a h t t' :
  let v := as_str (ca_nqn a) in
  Fs.frame (λ q, Is_true (below q (root ++ ["hosts"; h]))) (λ q, q = acl_path root v h) t t' →
  served_export a t → port_right root (csi_port_spec a) t →
  served_export a t' ∧ port_right root (csi_port_spec a) t'.
Proof.
  intros v Hf [H1 H2] H3. split; [split|].
  - assert (Ha : agree (subsys_path root v ++ ["attr_allow_any_host"]) t t').
    { eapply frame_agree; [exact Hf|..]; intros r.
      - unfold acl_path. rewrite <- app_assoc. by intros [=]%app_inv_head.
      - unfold subsys_path. rewrite <- !app_assoc. intros Hb. by apply below_fork in Hb. }
    specialize (Ha []). rewrite app_nil_r in Ha. cbv zeta in *. fold v in H1 |- *. unfold read_trim, read_to_string in *. by rewrite Ha.
  - eapply ns_right_agree; [|exact H2]. eapply frame_agree; [exact Hf|..]; intros r.
    + unfold acl_path. rewrite <- !app_assoc. by intros [=]%app_inv_head.
    + unfold subsys_path. rewrite <- !app_assoc. intros Hb. by apply below_fork in Hb.
  - eapply port_right_agree; [|exact H3]. eapply frame_agree; [exact Hf|..]; intros r.
    + unfold acl_path, port_path, subsys_path. rewrite <- !app_assoc. by intros [=]%app_inv_head.
    + unfold port_path. rewrite <- !app_assoc. intros Hb. by apply below_fork in Hb.
Qed.
Lemma publish_export_done p w w' :
  wf (w_tree w) → publish_export root p w = (Ok tt, w') → ¬ failed w' →
  let a := cp_export p in
  is_Some (w_tree w' !! acl_path root (as_str (ca_nqn a)) (as_str (cp_hostnqn p))) ∧
  served_export a (w_tree w') ∧ port_right root (csi_port_spec a) (w_tree w').
Proof.
  intros Hwf H Hnf a. unfold publish_export in H. apply op_bind_Ok in H as (s & w1 & H1 & H).
  apply csi_apply_done in H1 as [[-> Hf]|(Hs & Hwf1 & He & Hp)]; [|..|done].
  { cbn in H. injection H as <-. done. }
  rewrite bool_decide_false in H by done. unfold csi_host_grant in H.
  apply op_bind_Ok in H as (s2 & w2 & H2 & [= <-]). apply step_Ok in H2 as [[H2 _]|(_ & Hf & _)]; [|done].
  apply oks_grant in H2 as (_ & Hl & _ & Hf); [|done]. split; [done|]. by eapply grant_keeps.
Qed.
(** C24: A publish that completes without a failed step has recorded its host and
    generation as the owner under an unfenced id, grants that host and nobody
    else, exports the requested device and identity with open access off, and
    listens for it on the CSI port at the requested address. *)
Theorem publish_complete p w w' :
  let v := as_str (ca_nqn (cp_export p)) in
  let host := as_str (cp_hostnqn p) in
  let id := cp_attachment_id p in
  wf (w_tree w) → publish root sroot p w = (Ok tt, w') → ¬ failed w' →
  (∃ st, peek sroot (w_tree w) v = Ok st ∧ id ∉ st_fenced st ∧
     peek sroot (w_tree w') v
       = Ok {| st_owner := Some {| ow_host := host; ow_attachment := id |}; st_fenced := st_fenced st |}) ∧
  (∀ h, is_Some (w_tree w' !! acl_path root v h) ↔ h = host) ∧
  served_export (cp_export p) (w_tree w') ∧
  port_right root (csi_port_spec (cp_export p)) (w_tree w').
Proof.
  intros v host id Hwf (x & t1 & n1 & Hc & Hx)%publish_run Hnf.
  destruct x as [[]|e]; [|by destruct Hx]. destruct Hx as (w1 & <- & H).
  assert (Hwf1 : wf (w_tree w1)) by (by eapply safe_claim).
  destruct (claim_run root sroot Hsep _ _ _ _ _ _ Hwf Hc) as [Hk [[_ ?]|(st & Hp & Hid & Ha & _ & E)]]; [done|].
  destruct (own_publish_export root sroot Hsep p _ _ _ H Hwf1) as (_ & E2%peek_same & A2).
  destruct (publish_export_done _ _ _ Hwf1 H Hnf) as (Hl & He & Hpt). split_and!; [|intros h; split|done|done].
  - exists st. split_and!; [done..|]. fold v in E2. rewrite E2. by apply peek_saved.
  - apply A2. intros h' Hh. apply Ha. unfold acl_path, subsys_path in *. rewrite <- !app_assoc in *. by rewrite Hk in Hh.
  - by intros ->.
Qed.
(** An unpublish by the owner that completes without a failed step leaves no
    export and no listener of the volume, releases the owner and fences the
    generation for good. *)
Lemma unpublish_complete u st w w' :
  let v := as_str (cu_nqn u) in
  wf (w_tree w) → peek sroot (w_tree w) v = Ok st → owns u st = true →
  unpublish root sroot u w = (Ok tt, w') → ¬ failed w' →
  gone v (w_tree w') ∧
  peek sroot (w_tree w') v
    = Ok {| st_owner := None; st_fenced := {[ cu_attachment_id u ]} ∪ st_fenced st |}.
Proof.
  intros v Hwf Hp Ho H Hnf.
  apply (unpublish_run root sroot) in H as [[_ ?]|(st' & legacy & x & t & n & Hp' & _ & Hs & H)]; [done|].
  fold v in Hp', Hs. replace st' with st in * by congruence. rewrite Ho in H. cbn in H.
  destruct x as [[]|e]; [|by destruct H]. destruct H as (w1 & <- & H).
  assert (Hwf1 : wf (w_tree w1)) by (by eapply (safe_save root sroot)).
  unfold release in H. apply op_bind_Ok in H as (s & w2 & H2 & H).
  apply csi_delete_done in H2 as [[-> Hf]|[Hne [G1 G2]]]; [|..|done].
  { cbn in H. injection H as <-. done. }
  rewrite bool_decide_false in H by done.
  apply lift_bind in H as (x & w3 & Hs3 & _ & H).
  destruct x as [[]|e]; [|by apply mark_failed in H].
  rewrite (mark_tree _ _ _ _ _ H). split; [split|].
  - unfold csi_port_links in *. rewrite <- app_assoc in *. erewrite save_keeps_config; done.
  - rewrite <- G2. apply is_dir_ext. unfold subsys_path. by erewrite save_keeps_config.
  - apply peek_saved. by eapply save_run.
Qed.
(** An unpublish whose generation is not the current owner's (a delayed or
    duplicated request) touches nothing in configfs and does not release the
    owner; when it completes without a failed step its generation is fenced. *)
Lemma unpublish_stale u st o w w' :
  let v := as_str (cu_nqn u) in
  peek sroot (w_tree w) v = Ok st → st_owner st = Some o → ow_attachment o ≠ cu_attachment_id u →
  unpublish root sroot u w = (Ok tt, w') →
  (∀ q, w_tree w' !! (root ++ q) = w_tree w !! (root ++ q)) ∧
  ∃ st', peek sroot (w_tree w') v = Ok st' ∧ st_owner st' = Some o ∧ st_fenced st ⊆ st_fenced st' ∧
    (¬ failed w' → cu_attachment_id u ∈ st_fenced st').
Proof.
  intros v Hp Ho Hne H.
  apply (unpublish_run root sroot) in H as [[E ?]|(st' & legacy & x & t & n & Hp' & Hl & Hs & H)].
  { rewrite E. split; [done|]. exists st. split_and!; done. }
  fold v in Hp', Hs. replace st' with st in * by congruence. unfold legacy_owned in Hl. rewrite Ho in Hl.
  injection Hl as <-. assert (Hno : owns u st = false).
  { unfold owns. rewrite Ho. unfold is_owner. by rewrite bool_decide_false. }
  rewrite Hno in H. cbn in H.
  assert (Et : w_tree w' = t) by (by destruct x; destruct H). rewrite Et.
  split; [intros q; by eapply save_keeps_config|].
  destruct (save_run root sroot Hsep v _ _ _ _ _ _ Hs) as [[E|E] Hr].
  - destruct x as [[]|e].
    + specialize (Hr eq_refl). apply peek_saved in Hr. eexists. split_and!; [exact Hr|done|cbn; set_solver|cbn; set_solver].
    + apply peek_same in E. exists st. split_and!; [congruence|done|done|]. intros []. by destruct H.
  - apply peek_saved in E. eexists. split_and!; [exact E|done|cbn; set_solver|cbn; set_solver].
Qed.
End completed.

(** ** Any sequence of requests *)

Section sequences.
Context {J : StateCodec} (root sroot : path) (vols : string → Prop).

(** C7: Mutual exclusion. The nvmet tree and the state directory are apart. Requests
    for any volumes are served, in whatever order, by clients that may hang up, under a
    kernel that may refuse any call, and commands that leave the nvmet tree and the
    state directory alone. A volume that at first grants no host but its owner, if it
    has one, never does so later: while it is owned, every host it grants is the owner;
    and a generation once fenced stays fenced. This is said of a volume that is not
    named like another requested volume with .tmp appended, whose state that one's
    save would replace. *)
Theorem csi_mutual_exclusion t t' v :
  (∀ a b, root ++ a ≠ sroot ++ b) → no_alias vols v →
  wf t → sole_owner root sroot v t → rtc (served root sroot vols) t t' →
  (∀ st o h, peek sroot t' v = Ok st → st_owner st = Some o →
     is_Some (t' !! acl_path root v h) → h = ow_host o) ∧
  (∀ id, fenced sroot v id t → fenced sroot v id t').
Proof.
  intros Hsep Hna Hwf Hs Hr.
  destruct (inv_served_all root sroot Hsep vols v t t' Hna Hr Hwf Hs) as (_ & Hs' & Hf).
  split; [exact Hs'|]. intros id (st & Hp & Hid). destruct (Hf st Hp) as (st' & Hp' & Hsub). exists st'. set_solver.
Qed.
(** A request acts on its own volume: the export and the attachment state of
    every other volume, and the exports of the web interface, stay as they are. *)
Lemma csi_requests_local {C : Client} {K : Kernel} {M : Machine} {I : Idle} {P : JsonParser} cx o v w r w' :
  (∀ a b, root ++ a ≠ sroot ++ b) → Tame root sroot M I →
  cx_nvmet_root cx = root → cx_state_root cx = sroot →
  wf (w_tree w) → unaliased v (op_volume o) → exec cx o w = (r, w') →
  (∀ q, w_tree w' !! (subsys_path root v ++ q) = w_tree w !! (subsys_path root v ++ q)) ∧
  peek sroot (w_tree w') v = peek sroot (w_tree w) v.
Proof.
  intros Hsep HT Hr Hsr Hwf Hu H. edestruct kept_exec as (_ & Ha & E); [done..|exact H|done|].
  split; [exact Ha|by apply peek_same].
Qed.

Lemma prepare_Ok {C : Client} {K : Kernel} {M : Machine} {I : Idle} {P : JsonParser} cx a w ok w' :
  prepare_csi_export cx a w = (Ok ok, w') → ok = true ∨ ok = false ∧ failed w'.
Proof.
  unfold prepare_csi_export. intros (loaded & w1 & H1 & H)%op_bind_Ok.
  assert (Hl : loaded = true ∨ loaded = false ∧ failed w1).
  { destruct (cx_autoload_modules cx); [|injection H1 as <- <-; by left].
    destruct (ensure _ _) as [spec|]; [|injection H1 as <- <-; by left].
    apply op_bind_Ok in H1 as (s & w2 & H1 & [= <- <-]). apply run_Ok in H1 as [->|[-> Hf]]; [by left|by right]. }
  destruct Hl as [->|[-> Hf]]; cbn [negb] in H; [|injection H as <- <-; by right].
  apply get_bind in H. destruct (path_exists _ _); [injection H as <- <-; by left|].
  apply in_command_Ok in H as (w0 & fin & w2 & _ & _ & H & _ & _ & Ha).
  apply op_bind_Ok in H as (ap & w3 & _ & H). destruct ap; injection H as <- <- <-; [by left|right].
  split; [done|]. by eapply failed_complete.
Qed.
(** C12: A fence holds: after any further requests, a publish of the volume under a
    fenced generation, however delayed, fails and changes neither the export nor
    the attachment state. The nvmet tree and the state directory are apart and the
    commands leave both alone; the volume grants at first no host but its owner, and it
    is not named like another requested volume with .tmp appended (that one's save
    would replace the record of the fence). *)
Theorem fenced_publish_refused {C : Client} {K : Kernel} {M : Machine} {I : Idle} {P : JsonParser} cx p t w w' :
  let v := as_str (ca_nqn (cp_export p)) in
  (∀ a b, root ++ a ≠ sroot ++ b) → no_alias vols v → Tame root sroot M I →
  cx_nvmet_root cx = root → cx_state_root cx = sroot →
  wf t → sole_owner root sroot v t → fenced sroot v (cp_attachment_id p) t →
  rtc (served root sroot vols) t (w_tree w) →
  exec cx (OpPublish p) w = (Ok tt, w') →
  failed w' ∧
  (∀ q, w_tree w' !! (subsys_path root v ++ q) = w_tree w !! (subsys_path root v ++ q)) ∧
  peek sroot (w_tree w') v = peek sroot (w_tree w) v.
Proof.
  intros v Hsep Hna HT Hr Hsr Hwf0 Hs0 (st0 & Hp0 & Hid0) Hrtc H.
  destruct (inv_served_all root sroot Hsep vols v t _ Hna Hrtc Hwf0 Hs0) as (Hwf & _ & Hf).
  destruct (Hf st0 Hp0) as (st & Hp & Hsub). cbn [exec] in H. rewrite Hr, Hsr in H. unfold gated in H.
  apply op_bind_Ok in H as (ok & w1 & H1 & H). pose proof (prepare_Ok _ _ _ _ _ H1) as Hok.
  destruct (untouched_prepare root sroot cx _ _ _ _ H1 Hwf) as [Hwf1 Hun]. destruct (Hun v) as [Ha1 E1].
  apply peek_same in E1. destruct Hok as [->|[-> Hfail]]; [|by injection H as <-].
  apply publish_run in H as (x & t1 & n1 & Hc & Hx).
  destruct (claim_run root sroot Hsep _ _ _ _ _ _ Hwf1 Hc) as [Hk [[E2 Hne]|(st' & Hp' & Hid & _)]].
  - destruct x as [[]|e]; [done|]. destruct Hx as [Ht Hfail]. split; [done|]. rewrite Ht. split.
    + intros q. rewrite <- Ha1. unfold subsys_path. rewrite <- app_assoc. apply Hk.
    + fold v in E2. apply peek_same in E2. congruence.
  - fold v in Hp'. replace st' with st in * by congruence. set_solver.
Qed.
End sequences.

(** ** A concrete run *)

(** A codec with the round-trip law: the state's code in decimal. *)
Definition code_state (s : State) : N :=
  Npos (encode ((λ o, (ow_host o, ow_attachment o)) <$> st_owner s, st_fenced s)).
Definition state_code (n : N) : option State :=
  match n with
  | N0 => None
  | Npos p => '(o, f) ← decode (A := option (string * string) * gset string) p;
              Some {| st_owner := (λ x : string * string, {| ow_host := x.1; ow_attachment := x.2 |}) <$> o; st_fenced := f |}
  end.
Lemma state_code_state s : state_code (code_state s) = Some s.
Proof. unfold state_code, code_state. rewrite decode_encode. destruct s as [[[h a]|] f]; reflexivity. Qed.
#[local] Instance demo_codec : StateCodec.
Proof.
  refine {| state_json := λ s, pretty (code_state s);
            json_state := λ j, ok_or "expected value" (parse_digits 0 j ≫= state_code) |}.
  intros s. rewrite parse_digits_pretty.
  change (Some (code_state s) ≫= state_code) with (state_code (code_state s)). by rewrite state_code_state.
Defined.
Definition demo_root : path := ["cfg"].
Definition demo_sroot : path := ["state"].
#[local] Instance demo_machine : Machine := λ _ _ _ _ _ t, (Ran [] (Some 0%Z), t).
#[local] Instance demo_idle : Idle := λ _ t, t.
#[local] Instance demo_parser : JsonParser := λ _, None.
#[local] Existing Instances permissive patient.
Lemma demo_tame : Tame demo_root demo_sroot demo_machine demo_idle.
Proof. split; intros; reflexivity. Qed.
Lemma demo_sep a b : demo_root ++ a ≠ demo_sroot ++ b.
Proof. discriminate. Qed.
Definition demo_tree : tree := list_to_map
  [(["cfg"], Dir); (["cfg"; "subsystems"], Dir); (["cfg"; "ports"], Dir); (["cfg"; "hosts"], Dir);
   (["state"], Dir); (["dev"], Dir); (["dev"; "zvol"], Dir); (["dev"; "zvol"; "tank"], Dir);
   (["dev"; "zvol"; "tank"; "v"], File "")].
Lemma demo_tree_wf : wf demo_tree.
Proof. apply wfb_sound. vm_compute. reflexivity. Qed.
Definition demo_cx : ctx :=
  {| cx_nvmet_root := demo_root; cx_state_root := demo_sroot; cx_autoload_modules := false; cx_nics := None |}.
Definition demo_nqn : CsiNqn := Refine "nqn.2026-06.io.greendot.csi:tank:v" I.
Definition demo_host : Nqn := Refine "nqn.2014-08.org.nvmexpress:uuid:a" I.
Definition demo_export : CsiNvmeApply := {|
  ca_nqn := demo_nqn; ca_device_path := Refine "/dev/zvol/tank/v" I;
  ca_device_uuid := Refine "0f2b3c4d-0000-4000-8000-000000000001" I;
  ca_traddr := V4 (lit 10) (lit 0) (lit 0) (lit 5); ca_trsvcid := lit 4420; ca_transport := Tcp |}.
Definition demo_publish (id : string) : CsiPublish :=
  {| cp_export := demo_export; cp_hostnqn := demo_host; cp_attachment_id := id |}.
Definition demo_unpublish (id : string) : CsiUnpublish :=
  {| cu_nqn := demo_nqn; cu_hostnqn := demo_host; cu_attachment_id := id |}.
Definition demo_w0 : world := start_world demo_tree 0.
Definition demo_run {A} (m : op A) (w : world) : world := (m w).2.
Definition next_task (w : world) : world := start_world (w_tree w) 0.
(** Publish, unpublish, publish under a new generation, and then the late
    duplicates of the first publish and of its unpublish. *)
Definition demo_w1 : world := demo_run (publish demo_root demo_sroot (demo_publish "g1")) demo_w0.
Definition demo_s1 : world := next_task demo_w1.
Definition demo_w2 : world := demo_run (unpublish demo_root demo_sroot (demo_unpublish "g1")) demo_s1.
Definition demo_s2 : world := next_task demo_w2.
Definition demo_w3 : world := demo_run (exec demo_cx (OpPublish (demo_publish "g2"))) demo_s2.
Definition demo_s3 : world := next_task demo_w3.
Definition demo_w4 : world := demo_run (exec demo_cx (OpPublish (demo_publish "g1"))) demo_s3.
Definition demo_w5 : world := demo_run (unpublish demo_root demo_sroot (demo_unpublish "g1")) demo_s3.
Definition demo_v : string := as_str demo_nqn.
Definition demo_vols (v : string) : Prop := v = demo_v.
Lemma demo_ok {A} (m : op A) w a : (m w).1 = Ok a → m w = (Ok a, demo_run m w).
Proof. unfold demo_run. destruct (m _) as [r w']. by intros [= ->]. Qed.
Lemma demo_no_alias : no_alias demo_vols demo_v.
Proof. intros v' ->. intros H. vm_compute in H. discriminate H. Qed.
Lemma demo_served cx o w :
  cx_nvmet_root cx = demo_root → cx_state_root cx = demo_sroot → demo_vols (op_volume o) →
  rtc (served demo_root demo_sroot demo_vols) (w_tree w) (w_tree (next_task (demo_run (exec cx o) w))).
Proof.
  intros Hr Hs Hv. apply rtc_once. unfold demo_run. cbn [next_task start_world w_tree].
  destruct (exec cx o w) as [r w'] eqn:E.
  exact (served_intro _ _ _ _ _ _ _ _ cx o _ r w' demo_tame Hr Hs Hv E).
Qed.
Lemma unowned_sole t v st : peek demo_sroot t v = Ok st → st_owner st = None → sole_owner demo_root demo_sroot v t.
Proof. intros Hp Ho st' o h Hp' Ho'. congruence. Qed.

Lemma publish_complete_witness :
  ¬ failed demo_w1 ∧ ∀ h, is_Some (w_tree demo_w1 !! acl_path demo_root demo_v h) ↔ h = as_str demo_host.
Proof.
  assert (Hf : ¬ failed demo_w1) by (vm_compute; discriminate). split; [exact Hf|].
  refine (proj1 (proj2 (publish_complete demo_root demo_sroot demo_sep (demo_publish "g1") demo_w0 demo_w1 _ _ _))).
  - exact demo_tree_wf.
  - refine (demo_ok (publish demo_root demo_sroot (demo_publish "g1")) demo_w0 tt _). vm_compute. reflexivity.
  - exact Hf.
Defined.
Lemma unpublish_complete_witness :
  ¬ failed demo_w2 ∧ gone demo_root demo_v (w_tree demo_w2).
Proof.
  assert (Hf : ¬ failed demo_w2) by (vm_compute; discriminate). split; [exact Hf|].
  refine (proj1 (unpublish_complete demo_root demo_sroot demo_sep (demo_unpublish "g1")
    {| st_owner := Some {| ow_host := as_str demo_host; ow_attachment := "g1" |}; st_fenced := ∅ |}
    demo_s1 demo_w2 _ _ _ _ _)).
  - apply wfb_sound. vm_compute. reflexivity.
  - vm_compute. reflexivity.
  - vm_compute. reflexivity.
  - refine (demo_ok (unpublish demo_root demo_sroot (demo_unpublish "g1")) demo_s1 tt _). vm_compute. reflexivity.
  - exact Hf.
Defined.
Lemma unpublish_stale_witness :
  w_tree demo_w5 !! (demo_root ++ ["subsystems"; demo_v]) = Some Dir ∧
  ∀ q, w_tree demo_w5 !! (demo_root ++ q) = w_tree demo_s3 !! (demo_root ++ q).
Proof.
  split; [vm_compute; reflexivity|].
  refine (proj1 (unpublish_stale demo_root demo_sroot demo_sep (demo_unpublish "g1")
    {| st_owner := Some {| ow_host := as_str demo_host; ow_attachment := "g2" |}; st_fenced := {[ "g1" ]} |}
    {| ow_host := as_str demo_host; ow_attachment := "g2" |} demo_s3 demo_w5 _ _ _ _)).
  - vm_compute. reflexivity.
  - reflexivity.
  - discriminate.
  - refine (demo_ok (unpublish demo_root demo_sroot (demo_unpublish "g1")) demo_s3 tt _). vm_compute. reflexivity.
Defined.
Lemma csi_mutual_exclusion_witness :
  is_Some (w_tree demo_s3 !! acl_path demo_root demo_v (as_str demo_host)) ∧
  fenced demo_sroot demo_v "g1" (w_tree demo_s3).
Proof.
  split; [vm_compute; by eexists|].
  refine (proj2 (csi_mutual_exclusion demo_root demo_sroot demo_vols (w_tree demo_s2) (w_tree demo_s3) demo_v _ _ _ _ _) "g1" _).
  - exact demo_sep.
  - exact demo_no_alias.
  - apply wfb_sound. vm_compute. reflexivity.
  - eapply unowned_sole; vm_compute; reflexivity.
  - exact (demo_served demo_cx (OpPublish (demo_publish "g2")) demo_s2 eq_refl eq_refl eq_refl).
  - eexists. split; [vm_compute; reflexivity|]. apply (bool_decide_unpack _). vm_compute. exact I.
Defined.
Lemma csi_requests_local_witness :
  peek demo_sroot (w_tree demo_w3) "nqn.2026-06.io.greendot:web"
  = peek demo_sroot (w_tree demo_s2) "nqn.2026-06.io.greendot:web".
Proof.
  refine (proj2 (csi_requests_local demo_root demo_sroot demo_cx (OpPublish (demo_publish "g2"))
    "nqn.2026-06.io.greendot:web" demo_s2 (Ok tt) demo_w3 _ _ _ _ _ _ _)).
  - exact demo_sep.
  - exact demo_tame.
  - reflexivity.
  - reflexivity.
  - apply wfb_sound. vm_compute. reflexivity.
  - split; vm_compute; discriminate.
  - refine (demo_ok (exec demo_cx (OpPublish (demo_publish "g2"))) demo_s2 tt _). vm_compute. reflexivity.
Defined.
Lemma fenced_publish_refused_witness :
  failed demo_w4 ∧ peek demo_sroot (w_tree demo_w4) demo_v = peek demo_sroot (w_tree demo_s3) demo_v.
Proof.
  assert (H : fenced demo_sroot demo_v "g1" (w_tree demo_s2)).
  { eexists. split; [vm_compute; reflexivity|]. apply (bool_decide_unpack _). vm_compute. exact I. }
  destruct (fenced_publish_refused demo_root demo_sroot demo_vols demo_cx (demo_publish "g1") (w_tree demo_s2)
    demo_s3 demo_w4) as (Hf & _ & Hp).
  - exact demo_sep.
  - exact demo_no_alias.
  - exact demo_tame.
  - reflexivity.
  - reflexivity.
  - apply wfb_sound. vm_compute. reflexivity.
  - eapply unowned_sole; vm_compute; reflexivity.
  - exact H.
  - exact (demo_served demo_cx (OpPublish (demo_publish "g2")) demo_s2 eq_refl eq_refl eq_refl).
  - refine (demo_ok (exec demo_cx (OpPublish (demo_publish "g1"))) demo_s3 tt _). vm_compute. reflexivity.
  - split; [exact Hf|exact Hp].
Defined.
