(* ===== verification/Traces.v ===== *)
(** * What the multi-command operations run (zfs.rs, nvmet.rs, hardware/mod.rs)

    A small trace logic over the history of spawned commands: [traces m Q] says
    what every run of [m] appends to the history, with its result and the world it
    ends in. With it, the order and the guards of the operations that run several
    commands: restoring a snapshot, growing a volume, enabling RoCE. *)
From Stdlib Require Import Ascii String.
From stdpp Require Import base option list strings sets gmap pretty.
From S2P Require Import Prelude Ordered Validate IpAddr Types Wire Ops Desired Actual Render Task Fs World Hardware Commands CommandsFacts Nvmet Csi.
#[local] Open Scope string_scope.
#[local] Open Scope list_scope.
#[local] Open Scope N_scope.

(** ** The logic *)

Section logic.
Context {C : Client} {K : Kernel} {M : Machine}.

Definition traces {A} (m : op A) (Q : list call → result string A → world → Prop) : Prop :=
  ∀ w r w', m w = (r, w') → (failed w → failed w') ∧ ∃ cs, w_ran w' = w_ran w ++ cs ∧ Q cs r w'.

Lemma traces_conseq {A} (m : op A) (Q Q' : list call → result string A → world → Prop) :
  traces m Q → (∀ cs r w', Q cs r w' → Q' cs r w') → traces m Q'.
Proof. intros H HQ w r w' (Hf & cs & E & Hq)%H. eauto. Qed.
Lemma traces_silent {A} (m : op A) (Q : result string A → world → Prop) :
  (∀ w r w', m w = (r, w') → (failed w → failed w') ∧ w_ran w' = w_ran w ∧ Q r w') →
  traces m (λ cs r w', cs = [] ∧ Q r w').
Proof.
  intros H w r w' (Hf & E & HQ)%H. split; [done|]. exists []. by rewrite app_nil_r.
Qed.
Lemma traces_ret {A} (a : A) : traces (mret a) (λ cs r _, cs = [] ∧ r = Ok a).
Proof. apply traces_silent. by intros w r w' [= <- <-]. Qed.
Lemma traces_get {A} (f : tree → A) : traces (op_get f) (λ cs r w', cs = [] ∧ r = Ok (f (w_tree w'))).
Proof. apply traces_silent. by intros w r w' [= <- <-]. Qed.
Lemma traces_bind {A B} (m : op A) (f : A → op B) Q Q' :
  traces m Q → (∀ a, traces (f a) (Q' a)) →
  traces (m ≫= f) (λ cs r w',
    (∃ e, r = Err e ∧ Q cs (Err e) w') ∨
    ∃ a w1 cs1 cs2, cs = cs1 ++ cs2 ∧ Q cs1 (Ok a) w1 ∧ Q' a cs2 r w' ∧ (failed w1 → failed w')).
Proof.
  intros Hm Hk w r w' [(e & H & ->)|(a & w1 & H1 & H)]%op_bind_run.
  - apply Hm in H as (Hf & cs & E & HQ). split; [done|]. exists cs. eauto.
  - apply Hm in H1 as (Hf1 & cs1 & E1 & HQ1). apply Hk in H as (Hf & cs & E & HQ).
    split; [eauto|]. exists (cs1 ++ cs). rewrite app_assoc, <- E1. split; [done|]. right. by exists a, w1, cs1, cs.
Qed.
(** A subtask adds nothing to what its body runs; one that ends failed fails the
    task. *)
Lemma traces_in_command {A} name cmd args stdin (body : op (A * sub_end)) Q :
  traces body Q →
  traces (in_command name cmd args stdin body) (λ cs r w', ∃ r0 w1, Q cs r0 w1 ∧
    match r0 with
    | Ok (a, fin) => r = Ok a ∧ (end_status fin = Failed → failed w')
    | Err e => r = Err e
    end).
Proof.
  intros Hb w r w' H. split; [revert H; apply failed_in_command; intros ? ? ? H; by apply Hb in H as [? _]|].
  unfold in_command in H.
  match type of H with context [body ?w0] => destruct (body w0) as [r0 w1] eqn:E end.
  apply Hb in E as (_ & cs & E & HQ).
  destruct r0 as [[a fin]|e]; injection H as <- <-; exists cs; (split; [done|]); eexists _, w1; (split; [exact HQ|]); [split; [done|]|done].
  intros Hf. unfold failed. cbn [w_task set_task]. rewrite agg_finish_sub, Hf. by rewrite status_fold_failed_r.
Qed.
Lemma traces_mark name fin :
  traces (mark name fin) (λ cs r w', cs = [] ∧ r = Ok tt ∧ (end_status fin = Failed → failed w')).
Proof.
  eapply traces_conseq; [apply traces_in_command, traces_ret|].
  intros cs r w' (r0 & w1 & [-> ->] & [-> Hf]). done.
Qed.
Lemma traces_step name f :
  traces (step name f) (λ cs r w', cs = [] ∧ ∀ s, r = Ok s → s = Failed → failed w').
Proof.
  intros w r w' H. split; [by eapply failed_step|]. exists []. rewrite app_nil_r.
  split; [|split; [done|]].
  - by apply ran_step in H.
  - intros s -> ->. by apply step_Ok in H as [[_ ?]|(_ & ? & _)]; [auto|].
Qed.
Lemma traces_run name spec :
  ts_stdin_to_file spec = false →
  traces (run name spec) (λ cs r w', ∃ c, cs = [call_of spec c] ∧
    ∀ s, r = Ok s → s = (if child_ok c then Success else Failed) ∧ (s = Failed → failed w')).
Proof.
  intros Hf w r w' H. split; [by eapply failed_run|]. pose proof H as H'.
  apply run_ran in H as (c & E & Hs); [|done]. eexists. split; [exact E|]. exists c. split; [done|].
  intros s ->. split; [by apply Hs|]. intros ->. by apply run_Ok in H' as [?|[_ ?]].
Qed.
(** [capture_into]: the command runs unless the client is gone, and its result is
    what the child printed. *)
Lemma traces_capture spec :
  ts_stdin spec = None →
  traces (capture_into spec) (λ cs r _, (cs = [] ∧ ∃ e, r = Err e) ∨
    ∃ c, cs = [call_of spec c] ∧ ∀ o, r = Ok o → o = capture_of spec c).
Proof.
  intros Hs w r w' H. split; [by eapply failed_capture_into|].
  apply capture_into_ran in H as [(E & e & ->)|(c & E & Ho)].
  - exists []. rewrite app_nil_r. eauto.
  - eexists. split; [exact E|]. right. exists c. split; [by unfold call_of; rewrite Hs|done].
Qed.
(** A subtask that captures one command and judges its output. *)
Lemma traces_probe {A} name spec (g : result string string → A * sub_end) :
  ts_stdin spec = None →
  traces (in_subtask name (o ← capture_into spec; mret (g o))) (λ cs r w',
    (cs = [] ∧ ∃ e, r = Err e) ∨
    ∃ c, cs = [call_of spec c] ∧
      ∀ a, r = Ok a → a = (g (capture_of spec c)).1 ∧ (end_status (g (capture_of spec c)).2 = Failed → failed w')).
Proof.
  intros Hs. eapply traces_conseq.
  { apply traces_in_command, traces_bind; [by apply traces_capture|intros o; apply traces_ret]. }
  intros cs r w' (r0 & w1 & [(e & -> & HQ)|(o & w2 & cs1 & cs2 & -> & HQ & [-> ->] & _)] & Hr).
  - subst r. destruct HQ as [(-> & _)|(c & -> & _)]; [eauto|right; by exists c].
  - rewrite app_nil_r. destruct HQ as [(-> & e & [=])|(c & -> & Ho)]. right. exists c. split; [done|].
    rewrite (Ho o eq_refl) in Hr. destruct (g (capture_of spec c)) as [a fin].
    destruct Hr as [-> Hf]. by intros ? [= <-].
Qed.
End logic.

(** ** Restoring a snapshot *)

Definition captured (c : child) : string :=
  match c with Ran output _ => stdout_of output | NotStarted _ _ => "" end.
Section restore.
Context {C : Client} {K : Kernel} {M : Machine}.
Context (z : ZfsClone) (request_id : string).
#[local] Abbreviation source := (at_snap (zfs_clone_dataset z) (zfs_clone_snap z)).
#[local] Abbreviation target := (zfs_clone_target z).
Definition asked_size : string := match zfs_clone_new_size z with Some n => show_uint n | None => "" end.
(** The size of a target whose provenance is the one asked for, from a probe's
    output. *)
Definition verified (output : string) : option u64 := restore_size output request_id source asked_size.
Definition blank (output : string) : bool := is_empty (trim output).
#[local] Abbreviation probe_call := (call_of (restore_probe target)).
#[local] Abbreviation clone_call := (call_of (restore_create source request_id asked_size target)).

(** A volume is grown only after its provenance was verified and it was found
    smaller. *)
Inductive grown (output : string) : list call → Prop :=
| grown_not : grown output []
| grown_to n cur c :
    zfs_clone_new_size z = Some n → verified output = Some cur → raw cur < raw n →
    grown output [call_of (zvol_resize target n) c].
(** The histories of a restore: it clones only onto a target the probe did not
    find, and touches the size only through [grown]. The first, second and fourth
    are those of a client that hangs up, or of a clone that fails. *)
Inductive restore_trace : list call → Prop :=
| restore_gone : restore_trace []
| restore_probed c : restore_trace [probe_call c]
| restore_found c l : blank (captured c) = false → grown (captured c) l → restore_trace (probe_call c :: l)
| restore_cloned c c1 : blank (captured c) = true → restore_trace [probe_call c; clone_call c1]
| restore_made c c1 c2 l : blank (captured c) = true → child_ok c1 → grown (captured c2) l →
    restore_trace (probe_call c :: clone_call c1 :: probe_call c2 :: l).
(** The volume asked for is there: verified, and as large as asked for. *)
Definition restored (cs : list call) : Prop :=
  ∃ pre c post cur, cs = pre ++ probe_call c :: post ∧ verified (captured c) = Some cur ∧
    ∀ n, zfs_clone_new_size z = Some n →
      raw n <= raw cur ∨ ∃ c', post = [call_of (zvol_resize target n) c'] ∧ child_ok c'.
Lemma restored_app pre cs : restored cs → restored (pre ++ cs).
Proof. intros (pre' & c & post & cur & -> & H). exists (pre ++ pre'), c, post, cur. by rewrite <- app_assoc. Qed.

(** The tail of [restore_clone], once an output was read. *)
Definition finish_restore (output : string) : op unit :=
  match restore_size output request_id source asked_size with
  | Some current_size =>
      match zfs_clone_new_size z with
      | Some n => if raw current_size <? raw n
                  then _ ← run "Restore volume" (zvol_resize target n); mret tt else mret tt
      | None => mret tt
      end
  | None => mark "Verify restore provenance"
              (Fail "restore conflict: target has different or unverified request, source, or capacity")
  end.
Definition finished (o : string) (cs : list call) (r : result string unit) (w' : world) : Prop :=
  grown o cs ∧ (r = Ok tt → ¬ failed w' → ∀ c, o = captured c → restored (probe_call c :: cs)).
Lemma finish_restore_traces o : traces (finish_restore o) (finished o).
Proof.
  unfold finish_restore. fold (verified o). destruct (verified o) as [cur|] eqn:Ev.
  2: { eapply traces_conseq; [apply traces_mark|]. intros cs r w' (-> & -> & Hf). split; [constructor|]. intros _ []. by apply Hf. }
  assert (Hd : (∀ n, zfs_clone_new_size z = Some n → raw n <= raw cur) → traces (mret tt) (finished o)).
  { intros Hn. eapply traces_conseq; [apply traces_ret|]. intros cs r w' [-> ->]. split; [constructor|].
    intros _ _ c ->. exists [], c, [], cur. split_and!; [done|done|]. left. auto. }
  destruct (zfs_clone_new_size z) as [n|] eqn:En; [|by apply Hd].
  destruct (raw cur <? raw n) eqn:El; [apply N.ltb_lt in El|apply N.ltb_ge in El; apply Hd; congruence].
  eapply traces_conseq; [apply traces_bind; [by apply traces_run|intros ?; apply traces_ret]|].
  intros cs r w' [(e & -> & c' & -> & _)|(s & w1 & cs1 & cs2 & -> & (c' & -> & Hs) & [-> ->] & Hf)].
  - split; [by econstructor|done].
  - split; [by econstructor|]. intros _ Hnf c ->. exists [], c, [call_of (zvol_resize target n) c'], cur.
    split_and!; [done|done|]. intros n' [= <-]%(eq_trans (eq_sym En)). right. exists c'. split; [done|].
    destruct (Hs s eq_refl) as [-> Hw]. destruct (child_ok c'); [done|]. destruct Hnf. auto.
Qed.
Definition read_provenance : op string :=
  in_subtask "Read restore provenance" (
    output ← capture_into (restore_probe target);
    mret (match output with Ok s => s | Err _ => "" end, Complete Success)).
Lemma read_provenance_traces :
  traces read_provenance (λ cs r _, (cs = [] ∧ ∃ e, r = Err e) ∨
    ∃ c, cs = [call_of (restore_probe target) c] ∧ ∀ o, r = Ok o → o = captured c).
Proof.
  eapply traces_conseq; [by apply (traces_probe _ _ (λ o, (match o with Ok s => s | Err _ => "" end, Complete Success)))|].
  intros cs r w' [?|(c & -> & Ho)]; [by left|right]. exists c. split; [done|]. intros o Hr. destruct (Ho o Hr) as [-> _].
  by destruct c.
Qed.
(** The clone, when the probe found no target. *)
Definition create_target : op (option string) :=
  s ← run "Restore volume" (restore_create source request_id asked_size target);
  if negb (succeeded s) then mret None else
  output ← read_provenance; mret (Some output).
Lemma create_target_traces :
  traces create_target (λ cs r w', ∃ c1 l, cs = clone_call c1 :: l ∧
    ((l = [] ∧ (r = Ok None → failed w') ∧ ∀ o, r ≠ Ok (Some o)) ∨
     ∃ c2, l = [probe_call c2] ∧ child_ok c1 ∧ ∀ f, r = Ok f → f = Some (captured c2))).
Proof.
  intros w r w' H. revert w r w' H. eapply traces_conseq; [apply traces_bind; [by apply traces_run|]|].
  { intros s. instantiate (1 := λ s cs r _, if succeeded s then
      (cs = [] ∧ ∃ e, r = Err e) ∨ ∃ c2, cs = [probe_call c2] ∧ ∀ f, r = Ok f → f = Some (captured c2)
      else cs = [] ∧ r = Ok None). cbn beta.
    destruct (succeeded s); cbn [negb]; [|apply traces_ret].
    eapply traces_conseq; [apply traces_bind; [apply read_provenance_traces|intros o]; apply traces_ret|].
    intros cs r w' [(e & -> & [[-> _]|(c & -> & _)])|(a & w1 & cs1 & cs2 & -> & [(_ & e & [=])|(c & -> & Ho)] & [-> ->] & _)].
    - left. eauto.
    - right. by exists c.
    - right. exists c. split; [done|]. intros f [= <-]. f_equal. by apply Ho. }
  intros cs r w' [(e & -> & c & -> & _)|(s & w1 & cs1 & cs2 & -> & (c & -> & Hs) & Hk & Hf)].
  { exists c, []. split; [done|]. by left. }
  exists c, cs2. split; [done|]. destruct (Hs s eq_refl) as [-> Hw]. destruct (child_ok c) eqn:Eok; cbn in Hk.
  - destruct Hk as [[-> (e & ->)]|(c2 & -> & Ho)]; [by left|right]. by exists c2.
  - destruct Hk as [-> ->]. left. auto.
Qed.
Lemma restore_traces :
  zfs_clone_restore_request_id z = Some request_id →
  traces (zfs_clone_and_resize z) (λ cs r w', restore_trace cs ∧ (r = Ok tt → ¬ failed w' → restored cs)).
Proof.
  intros Hr. unfold zfs_clone_and_resize. rewrite Hr. unfold restore_clone. fold asked_size. fold read_provenance.
  fold create_target. eapply traces_conseq; [apply traces_bind; [apply read_provenance_traces|intros o]|].
  { apply traces_bind; [|intros found].
    - instantiate (1 := λ cs r w', if blank o then _ else cs = [] ∧ r = Ok (Some o)). cbn beta.
      unfold blank. destruct (is_empty (trim o)); [apply create_target_traces|apply traces_ret].
    - instantiate (1 := λ found, match found with None => λ cs r w', cs = [] ∧ r = Ok tt | Some o => finished o end).
      destruct found as [o'|]; [apply finish_restore_traces|apply traces_ret]. }
  cbn beta. intros cs r w' [(e & -> & [[-> _]|(c & -> & _)])|(o & w1 & cs1 & cs2 & -> & [(_ & e & [=])|(c & -> & Ho)] & H & _)];
    [by split; [constructor|]..|]. rewrite (Ho o eq_refl) in H. clear o Ho. destruct (blank (captured c)) eqn:Eb.
  - destruct H as [(e & -> & c1 & l & -> & [(-> & _)|(c2 & -> & Hok & _)])|(f & w2 & cs1 & cs3 & -> & (c1 & l & -> & Hl) & Hf & Hfail)].
    { split; [by constructor|done]. }
    { split; [by repeat constructor|done]. }
    destruct Hl as [(-> & Hn & Ho)|(c2 & -> & Hok & Ho)].
    + destruct f as [o|]; [by destruct (Ho o)|]. destruct Hf as [-> ->]. split; [by constructor|]. intros _ []. auto.
    + rewrite (Ho f eq_refl) in Hf. destruct Hf as [Hg Hd]. split; [by constructor|]. intros Hr' Hnf.
      apply (restored_app [_; _]). by apply Hd.
  - destruct H as [(e & -> & _ & [=])|(f & w2 & cs1 & cs3 & -> & [-> [= ->]] & [Hg Hd] & _)].
    split; [by constructor|]. intros Hr' Hnf. by apply Hd.
Qed.
End restore.

(** A restore never touches a volume it did not make. A target that the probe
    found is left alone unless its recorded request, source, size and origin are
    those of this very request; a clone is made only when the probe found nothing,
    at most once; a size is only ever raised, after the provenance was verified
    and the current size found smaller. A restore that completes without a failed
    step leaves the verified volume at least as large as asked for. *)
Lemma restore_guarded {C : Client} {K : Kernel} {M : Machine} z request_id w r w' :
  zfs_clone_restore_request_id z = Some request_id → zfs_clone_and_resize z w = (r, w') →
  ∃ cs, w_ran w' = w_ran w ++ cs ∧ restore_trace z request_id cs ∧
    (r = Ok tt → ¬ failed w' → restored z request_id cs).
Proof. intros Hr H. apply (restore_traces z request_id Hr) in H as (_ & H). exact H. Qed.

(** A machine that finds no target, clones it, reports the clone with its
    provenance, and grows it. *)
Definition demo_dataset (s : string) (H : Is_true (Validate.dataset_name s)) : DatasetName := Refine s H.
Definition demo_clone : ZfsClone := {|
  zfs_clone_dataset := demo_dataset "tank/a" I; zfs_clone_snap := Refine "s1" I;
  zfs_clone_target := demo_dataset "tank/b" I; zfs_clone_new_size := Some (lit 2048 : u64);
  zfs_clone_restore_request_id := Some "req-1" |}.
Definition demo_row (property value source : string) : string :=
  property +:+ chr 9 +:+ value +:+ chr 9 +:+ source +:+ chr 10.
Definition demo_provenance : string :=
  demo_row RESTORE_REQUEST "req-1" "local" +:+ demo_row RESTORE_SOURCE "tank/a@s1" "local"
  +:+ demo_row RESTORE_SIZE "2048" "local" +:+ demo_row "origin" "tank/a@s1" "-" +:+ demo_row "volsize" "1024" "-".
Definition demo_zfs : Machine := λ n _ _ _ _ t,
  (Ran (if (n =? 2)%nat then [(true, demo_provenance)] else []) (Some 0%Z), t).
Definition demo_restore : result string unit * world :=
  @zfs_clone_and_resize patient permissive demo_zfs demo_clone (start_world ∅ 0).
Lemma restore_guarded_witness :
  head ∘ cl_args <$> w_ran demo_restore.2 = [Some "get"; Some "clone"; Some "get"; Some "set"] ∧
  restored demo_clone "req-1" (w_ran demo_restore.2).
Proof.
  split; [vm_compute; reflexivity|].
  destruct (@restore_guarded patient permissive demo_zfs demo_clone "req-1" (start_world ∅ 0) demo_restore.1 demo_restore.2)
    as (cs & E & _ & H); [reflexivity|by unfold demo_restore; destruct (zfs_clone_and_resize _ _)|].
  change (w_ran (start_world ∅ 0)) with (@nil call) in E. rewrite E. apply H; [vm_compute; reflexivity|].
  unfold failed. vm_compute. discriminate.
Defined.

(** ** Growing a CSI volume *)

Section expand.
Context {C : Client} {K : Kernel} {M : Machine}.
Context (root : path) (n : CsiNqn) (new_size : u64).
#[local] Abbreviation ns := (root ++ ["subsystems"; as_str n; "namespaces"; "1"]).
(** The zvol a volume is backed by, as the tree shows it. *)
Definition backing (t : tree) (ds : DatasetName) : Prop :=
  token_dataset (as_str n) (read_trim t (ns ++ ["device_path"])) = Some ds ∧
  (present t ns = true → read_trim t (ns ++ ["device_path"]) = "/dev/zvol/" +:+ as_str ds).
Definition capacity (c : child) : option u64 := capacity_of (captured c).
Inductive expand_trace (ds : DatasetName) : list call → Prop :=
| expand_gone : expand_trace ds []
| expand_read c : expand_trace ds [call_of (capacity_probe ds) c]
| expand_grow c cur c' : capacity c = Some cur → raw cur < raw new_size →
    expand_trace ds [call_of (capacity_probe ds) c; call_of (zvol_resize ds new_size) c'].
Definition expanded (ds : DatasetName) (cs : list call) : Prop :=
  ∃ c cur post, cs = call_of (capacity_probe ds) c :: post ∧ capacity c = Some cur ∧
    (raw new_size <= raw cur ∧ post = [] ∨ ∃ c', post = [call_of (zvol_resize ds new_size) c'] ∧ child_ok c').

Lemma read_capacity_traces ds :
  traces (read_capacity ds) (λ cs r w', (cs = [] ∧ ∃ e, r = Err e) ∨
    ∃ c, cs = [call_of (capacity_probe ds) c] ∧ ∀ o, r = Ok o → o = capacity c ∧ (o = None → failed w')).
Proof.
  eapply traces_conseq; [by apply (traces_probe _ _ (λ o, match to_option o ≫= capacity_of with
    | Some size => (Some size, Complete Success) | None => (None, Fail "cannot read backing zvol capacity") end))|].
  intros cs r w' [?|(c & -> & Ho)]; [by left|right]. exists c. split; [done|]. intros o Hr. destruct (Ho o Hr) as [-> Hf].
  unfold capacity. destruct c as [out code|]; cbn in *; [destruct (capacity_of _); cbn in *|]; (split; [done|]); auto; done.
Qed.
(** The tail, after the capacity was read. *)
Lemma grow_traces ds c cur :
  capacity c = Some cur →
  traces (s ← (if raw cur <? raw new_size then run ("Resize zvol " +:+ as_str ds) (zvol_resize ds new_size) else mret Success);
          if negb (bool_decide (s = Success)) then mret tt else
          live ← op_get (λ t, present t ns && bool_decide (read_trim t (ns ++ ["enable"]) = "1"));
          if negb live then mret tt else
          _ ← step "Revalidate namespace size" (revalidate root (as_str n)); mret tt)
    (λ cs r w', expand_trace ds (call_of (capacity_probe ds) c :: cs) ∧
       (r = Ok tt → ¬ failed w' → expanded ds (call_of (capacity_probe ds) c :: cs))).
Proof.
  intros Hc. eapply traces_conseq; [apply traces_bind|].
  - instantiate (1 := λ cs r w', if raw cur <? raw new_size then _ else cs = [] ∧ r = Ok Success). cbn beta.
    destruct (raw cur <? raw new_size); [by apply traces_run|apply traces_ret].
  - intros s. instantiate (1 := λ s cs r w', cs = []). destruct (negb _).
    { eapply traces_conseq; [apply traces_ret|]. by intros cs r w' [-> _]. }
    eapply traces_conseq; [apply traces_bind; [apply traces_get|intros live]|].
    { instantiate (1 := λ _ cs _ _, cs = []). destruct (negb live).
      { eapply traces_conseq; [apply traces_ret|]. by intros cs r w' [-> _]. }
      eapply traces_conseq; [apply traces_bind; [apply traces_step|intros; apply traces_ret]|].
      intros cs r w' [(e & _ & -> & _)|(a & w1 & cs1 & cs2 & -> & [-> _] & [-> _] & _)]; done. }
    intros cs r w' [(e & _ & -> & _)|(a & w1 & cs1 & cs2 & -> & [-> _] & -> & _)]; done.
  - cbn beta. intros cs r w' H. destruct (raw cur <? raw new_size) eqn:El.
    + apply N.ltb_lt in El. destruct H as [(e & -> & c' & -> & _)|(s & w1 & cs1 & cs2 & -> & (c' & -> & Hs) & -> & Hf)].
      { split; [by econstructor|done]. }
      split; [by econstructor|]. intros _ Hnf. exists c, cur, [call_of (zvol_resize ds new_size) c']. split_and!; [done|done|].
      right. exists c'. split; [done|]. destruct (Hs s eq_refl) as [-> Hw]. destruct (child_ok c'); [done|]. destruct Hnf. auto.
    + apply N.ltb_ge in El. destruct H as [(e & -> & _ & [=])|(s & w1 & cs1 & cs2 & -> & [-> _] & -> & Hf)].
      split; [constructor|]. intros _ _. exists c, cur, []. split_and!; [done|done|]. by left.
Qed.
Lemma expand_traces w r w' :
  csi_expand root n new_size w = (r, w') →
  ∃ cs, w_ran w' = w_ran w ++ cs ∧
    ((cs = [] ∧ failed w') ∨
     ∃ ds, backing (w_tree w) ds ∧ expand_trace ds cs ∧ (r = Ok tt → ¬ failed w' → expanded ds cs)).
Proof.
  intros H. unfold csi_expand, expand_volume in H. cbv zeta in H. do 2 apply get_bind in H.
  destruct (token_dataset _ _) as [ds|] eqn:Et.
  2: { apply traces_mark in H as (_ & cs & E & -> & _ & Hf). exists []. split; [done|]. left. split; [done|]. by apply Hf. }
  destruct (_ || _) eqn:Eb.
  2: { apply traces_mark in H as (_ & cs & E & -> & _ & Hf). exists []. split; [done|]. left. split; [done|]. by apply Hf. }
  assert (HB : backing (w_tree w) ds).
  { split; [done|]. intros Hp. rewrite Hp in Eb. cbn in Eb. by apply bool_decide_eq_true in Eb. }
  apply op_bind_run in H as [(e & H & ->)|(o & w1 & H1 & H)].
  - apply read_capacity_traces in H as (_ & cs & E & [[-> _]|(c & -> & _)]); eexists; (split; [exact E|]); right; exists ds;
      (split_and!; [done|constructor|done]).
  - apply read_capacity_traces in H1 as (_ & cs1 & E1 & [(_ & e & [=])|(c & -> & Ho)]). destruct (Ho o eq_refl) as [-> Hf].
    destruct (capacity c) as [cur|] eqn:Ec.
    + apply (grow_traces ds c cur Ec) in H as (_ & cs & E & HQ). exists (call_of (capacity_probe ds) c :: cs).
      rewrite E, E1, <- app_assoc. split; [done|]. right. by exists ds.
    + injection H as <- <-. eexists. split; [exact E1|]. right. exists ds. split_and!; [done|constructor|]. intros _ []. auto.
Qed.
End expand.

(** Growing a volume never shrinks it and never touches another zvol: the size
    is set at most once, on the zvol the volume's name and export agree on, and
    only after reading a positive capacity below the requested one. An expansion
    that completes without a failed step leaves a capacity at least as large as
    requested. *)
Lemma expand_only_grows {C : Client} {K : Kernel} {M : Machine} root n new_size w r w' :
  csi_expand root n new_size w = (r, w') →
  ∃ cs, w_ran w' = w_ran w ++ cs ∧
    ((cs = [] ∧ failed w') ∨
     ∃ ds, backing root n (w_tree w) ds ∧ expand_trace new_size ds cs ∧ (r = Ok tt → ¬ failed w' → expanded new_size ds cs)).
Proof. apply expand_traces. Qed.

Definition demo_nqn : CsiNqn := Refine (Validate.CSI_NQN_PREFIX +:+ "tank:vol") I.
Definition demo_capacity : Machine := λ n _ _ _ _ t,
  (Ran (if (n =? 0)%nat then [(true, "1024" +:+ chr 10)] else []) (Some 0%Z), t).
Definition demo_expand : result string unit * world :=
  @csi_expand patient permissive demo_capacity [] demo_nqn (lit 4096) (start_world ∅ 0).
Lemma expand_only_grows_witness :
  head ∘ cl_args <$> w_ran demo_expand.2 = [Some "get"; Some "set"] ∧
  ∃ ds, expanded (lit 4096) ds (w_ran demo_expand.2).
Proof.
  split; [vm_compute; reflexivity|].
  assert (Hnf : ¬ failed demo_expand.2) by (unfold failed; vm_compute; discriminate).
  destruct (@expand_only_grows patient permissive demo_capacity [] demo_nqn (lit 4096) (start_world ∅ 0) demo_expand.1 demo_expand.2)
    as (cs & E & [[_ Hf]|(ds & _ & _ & H)]); [by unfold demo_expand; destruct (csi_expand _ _ _ _)|destruct (Hnf Hf)|].
  exists ds. change (w_ran (start_world ∅ 0)) with (@nil call) in E. rewrite E. apply H; [vm_compute; reflexivity|exact Hnf].
Defined.

(** ** Enabling RoCE *)

Section roce.
Context {C : Client} {K : Kernel} {M : Machine} {J : JsonParser}.
Definition plain (spec : TaskSpec) : Prop := ts_stdin spec = None ∧ ts_stdin_to_file spec = false.

Lemma traces_quiet {A} (m : op A) :
  op_respects stays_failed m → op_respects same_ran m → traces m (λ cs _ _, cs = []).
Proof.
  intros Hf Hr w r w' H. split; [by eapply Hf|]. exists []. rewrite app_nil_r. split; [by eapply Hr|done].
Qed.
Lemma traces_run_into spec :
  plain spec →
  traces (run_into spec) (λ cs r _, (cs = [] ∧ ∃ e, r = Err e) ∨
    ∃ c, cs = [call_of spec c] ∧ ∀ s, r = Ok s → s = (if child_ok c then Success else Failed)).
Proof.
  intros [Hs Hf] w r w' H. split; [by eapply failed_run_into|]. unfold run_into in H.
  apply op_bind_run in H as [(e & H & ->)|(u & w1 & H1 & H)].
  { apply ran_println_out in H. exists []. rewrite app_nil_r. eauto. }
  apply ran_println_out in H1. unfold mbind at 1, op_bind at 1, prepare_stdin in H. rewrite Hf in H.
  unfold with_temp in H. cbn [drop_temp] in H.
  match type of H with context [?m w1] => destruct (m w1) as [r2 w2] eqn:E end. injection H as <- <-.
  apply op_bind_run in E as [(e & H & ->)|([[st ex] er] & w3 & H2 & H)].
  - apply stream_child_ran in H as (c & E & _). rewrite H1 in E. eexists. split; [exact E|]. right. by exists c.
  - apply stream_child_ran in H2 as (c & E & Hst). rewrite H1 in E.
    assert (w_ran w2 = w_ran w3 ∧ r2 = Ok st) as [-> ->].
    { case_bool_decide; by injection H as <- <-. }
    eexists. split; [exact E|]. right. exists c. split; [done|]. intros s [= <-]. by eapply Hst.
Qed.
(** Printing a message and recording it runs nothing. *)
Lemma traces_refuse {A} msg code (a : A) :
  traces (_ ← println_err [msg]; _ ← set_result code (Some msg); mret a) (λ cs r _, cs = [] ∧ ∀ b, r = Ok b → b = a).
Proof.
  intros w r w' H. split.
  { revert w r w' H. change (op_respects stays_failed (_ ← println_err [msg]; _ ← set_result code (Some msg); mret a)).
    repeat op_step; [apply failed_println_err|apply failed_set_result]. }
  exists []. rewrite app_nil_r. apply op_bind_run in H as [(e & H & ->)|(u & w1 & H1 & [= <- <-])].
  - by apply ran_println_err in H.
  - apply ran_println_err in H1. split; [done|]. split; [done|]. by intros b [= <-].
Qed.
Lemma status_fold_ok acc s : status_fold acc s ≠ Failed → acc ≠ Some Failed ∧ s ≠ Failed.
Proof. by destruct acc as [[]|], s. Qed.
(** A prefix of a list of commands was run; all of it was, successfully if [ok]. *)
Definition partly_ran (specs : list TaskSpec) (cs : list call) : Prop :=
  ∃ children, cs = zip_with call_of specs children ∧ (length children ≤ length specs)%nat.
Definition all_ran (specs : list TaskSpec) (ok : Prop) (cs : list call) : Prop :=
  ∃ children, cs = zip_with call_of specs children ∧ length children = length specs ∧ (ok → Forall child_ok children).
Lemma all_partly specs ok cs : all_ran specs ok cs → partly_ran specs cs.
Proof. intros (ch & -> & Hl & _). exists ch. split; [done|lia]. Qed.
Lemma partly_nil specs : partly_ran specs [].
Proof. exists []. split; [by destruct specs|cbn; lia]. Qed.
Lemma partly_app_l s1 s2 cs : partly_ran s1 cs → partly_ran (s1 ++ s2) cs.
Proof.
  intros (ch & -> & Hl). exists ch. rewrite length_app. split; [|lia].
  revert ch Hl. induction s1 as [|x s1 IH]; intros [|c ch] Hl; cbn in *; try lia; [by destruct s2|done|]. f_equal. apply IH. lia.
Qed.
Lemma zip_calls_app s1 s2 ch1 ch2 :
  length ch1 = length s1 →
  zip_with call_of s1 ch1 ++ zip_with call_of s2 ch2 = zip_with call_of (s1 ++ s2) (ch1 ++ ch2).
Proof. intros Hl. by rewrite zip_with_app. Qed.
Lemma all_partly_app s1 s2 ok cs1 cs2 : all_ran s1 ok cs1 → partly_ran s2 cs2 → partly_ran (s1 ++ s2) (cs1 ++ cs2).
Proof.
  intros (ch1 & -> & Hl1 & _) (ch2 & -> & Hl2). exists (ch1 ++ ch2). rewrite zip_calls_app by done. split; [done|].
  rewrite !length_app. lia.
Qed.
Lemma all_all_app s1 s2 (ok1 ok2 ok : Prop) cs1 cs2 :
  all_ran s1 ok1 cs1 → all_ran s2 ok2 cs2 → (ok → ok1 ∧ ok2) → all_ran (s1 ++ s2) ok (cs1 ++ cs2).
Proof.
  intros (ch1 & -> & Hl1 & H1) (ch2 & -> & Hl2 & H2) Ho. exists (ch1 ++ ch2). rewrite zip_calls_app by done.
  split_and!; [done|by rewrite !length_app, Hl1, Hl2|]. intros [? ?]%Ho. apply Forall_app_2; auto.
Qed.
(** The commands run in order until the client is gone, each whatever became of
    the one before. *)
Lemma run_all_traces specs acc :
  Forall plain specs →
  traces (run_all acc specs) (λ cs r _, partly_ran specs cs ∧
    ∀ a, r = Ok a → all_ran specs (a ≠ Some Failed) cs ∧ (a ≠ Some Failed → acc ≠ Some Failed)).
Proof.
  intros Hp. revert acc. induction Hp as [|spec specs Hs _ IH]; intros acc; cbn [run_all].
  { eapply traces_conseq; [apply traces_ret|]. intros cs r w' [-> ->]. split; [by exists []|].
    intros a [= <-]. split; [by exists []|done]. }
  eapply traces_conseq; [apply traces_bind; [by apply traces_run_into|intros s; apply IH]|].
  intros cs r w' [(e & -> & [[-> _]|(c & -> & _)])|(s & w1 & cs1 & cs2 & -> & [(_ & e & [=])|(c & -> & Hst)] & (Hpt & Ha) & _)].
  - split; [apply partly_nil|done].
  - split; [|done]. exists [c]. split; [by destruct specs|cbn; lia].
  - assert (Hc : all_ran [spec] (child_ok c) [call_of spec c]) by (exists [c]; split_and!; [done|done|by repeat constructor]).
    split; [by apply (all_partly_app [spec] specs _ [_] cs2 Hc)|]. intros a ->. destruct (Ha a eq_refl) as [Hall Hok].
    rewrite (Hst s eq_refl) in Hok. assert (Hfold : a ≠ Some Failed → acc ≠ Some Failed ∧ child_ok c).
    { intros Hne. destruct (status_fold_ok acc (if child_ok c then Success else Failed)) as [H1 H2].
      - intros E. apply (Hok Hne). by rewrite E.
      - split; [done|]. by destruct (child_ok c). }
    split; [|by intros [? _]%Hfold]. apply (all_all_app [spec] specs _ _ _ [_] cs2 Hc Hall). by intros Hne; split; [apply Hfold|].
Qed.
Lemma registry_plain hw pci :
  hw ∈ REGISTRY → plain (hw_probe hw pci) ∧ Forall plain (hw_enable hw pci).
Proof. intros [->|[->|[]%not_elem_of_nil]%elem_of_cons]%elem_of_cons; split; by repeat constructor. Qed.
Lemma detect_registered nics netdev hw pci : detect nics netdev = Some (hw, pci) → hw ∈ REGISTRY.
Proof.
  unfold detect. intros (hw' & Hv & H)%bind_Some. destruct (hw_enableable hw' _); [|done].
  apply bind_Some in H as (pci' & _ & [= -> _]). unfold vendor_impl in Hv.
  apply bind_Some in Hv as (id & _ & Hv).
  eapply (list_elem_of_filter (λ hw, Is_true (hw_matches hw id))). apply head_Some in Hv as [l ->]. apply list_elem_of_here.
Qed.
(** What enabling may run: the probe, and the enabling commands only when the probe
    said the feature is there and off. *)
Definition may_enable (hw : NetworkHardware) (pci : PciAddress) (stdout : string) (l : list call) : Prop :=
  l = [] ∨ hw_interpret hw stdout = RoceDisabled ∧ partly_ran (hw_enable hw pci) l.
Definition did_enable (hw : NetworkHardware) (pci : PciAddress) (stdout : string) (l : list call) : Prop :=
  hw_interpret hw stdout = RoceAlreadyEnabled ∧ l = [] ∨
  hw_interpret hw stdout = RoceDisabled ∧ all_ran (hw_enable hw pci) True l.
Definition judge (hw : NetworkHardware) (pci : PciAddress) (stdout : string) : op SubStatus :=
  match hw_interpret hw stdout with
  | RoceAlreadyEnabled => _ ← println_out ["RoCE is already enabled on "; as_str pci]; mret Success
  | RoceUnavailable =>
      let msg := as_str pci +:+ " has no settable enable_roce parameter " +:+ em_dash
                 +:+ " on an SR-IOV VF, enable RoCE on the host/PF" in
      _ ← println_err [msg]; _ ← set_result 1 (Some msg); mret Failed
  | RoceDisabled => acc ← run_all None (hw_enable hw pci); mret (default Success acc)
  end.
Lemma judge_traces hw pci stdout :
  Forall plain (hw_enable hw pci) →
  traces (judge hw pci stdout) (λ l r _, may_enable hw pci stdout l ∧
    ∀ s, r = Ok s → s ≠ Failed → did_enable hw pci stdout l).
Proof.
  intros Hp. unfold judge. destruct (hw_interpret hw stdout) eqn:Ei.
  - eapply traces_conseq; [apply traces_bind; [by apply run_all_traces|intros; apply traces_ret]|].
    intros cs r w' [(e & -> & Hpt & _)|(a & w1 & cs1 & cs2 & -> & (Hpt & Ha) & [-> ->] & _)]; rewrite ?app_nil_r;
      (split; [by right|]); [done|].
    intros s [= <-] Hs. right. split; [done|]. destruct (Ha a eq_refl) as [(ch & -> & Hl & Hok) _]. exists ch.
    split_and!; [done|done|]. intros _. apply Hok. by intros ->.
  - eapply traces_conseq; [apply traces_quiet; repeat op_step; [apply failed_println_out|apply ran_println_out]|].
    intros cs r w' ->. split; by left.
  - eapply traces_conseq; [apply traces_refuse|]. intros cs r w' [-> Hr]. split; [by left|]. by intros s ->%Hr.
Qed.
Lemma enable_into_traces nics netdev :
  traces (enable_into nics netdev) (λ cs r _,
    (cs = [] ∧ ∀ s, r = Ok s → s = Failed) ∨
    ∃ hw pci c l, detect nics (as_str netdev) = Some (hw, pci) ∧ cs = call_of (hw_probe hw pci) c :: l ∧
      may_enable hw pci (captured c) l ∧ ∀ s, r = Ok s → s ≠ Failed → did_enable hw pci (captured c) l).
Proof.
  unfold enable_into. destruct (detect _ _) as [[hw pci]|] eqn:Ed.
  2: { eapply traces_conseq; [apply traces_refuse|]. by left. }
  destruct (registry_plain hw pci (detect_registered _ _ _ _ Ed)) as [[Hs Hf] Hp].
  eapply traces_conseq; [apply traces_bind; [by apply traces_capture|intros [stdout|msg]]|].
  - instantiate (1 := λ o, match o with
      | Ok stdout => λ l r _, may_enable hw pci stdout l ∧ ∀ s, r = Ok s → s ≠ Failed → did_enable hw pci stdout l
      | Err _ => λ l r _, l = [] ∧ r = Ok Failed end). fold (judge hw pci stdout).
    eapply traces_conseq; [apply traces_bind; [apply traces_quiet; [apply failed_print_out|apply ran_print_out]|intros ?; by apply judge_traces]|].
    intros cs r w' [(e & -> & ->)|(a & w1 & cs1 & cs2 & -> & -> & H & _)]; [|done]. split; [by left|done].
  - by apply traces_silent; intros w r w' [= <- <-].
  - intros cs r w' [(e & -> & [[-> _]|(c & -> & _)])|(o & w1 & cs1 & cs2 & -> & [(_ & e & [=])|(c & -> & Ho)] & H & _)].
    + by left.
    + right. eexists _, _, c, []. split_and!; [done|done|by left|done].
    + rewrite (Ho o eq_refl) in H. right. exists hw, pci, c, cs2. split_and!; [done|done|..]; destruct c as [out code|nf e]; cbn in H.
      * apply H.
      * destruct H as [-> _]. by left.
      * apply H.
      * destruct H as [_ ->]. by intros s [= <-].
Qed.
End roce.

(** RoCE is switched on only where it is off: on hardware of a registered
    vendor the device is probed first, and its parameter is changed and the driver
    reloaded (which drops the link) only when the probe reported the feature
    present and disabled; when the operation completes without a failed step it
    was enabled already, or every enabling command succeeded. *)
Lemma roce_enabled_only_when_off {C : Client} {K : Kernel} {M : Machine} {J : JsonParser} nics netdev w r w' :
  enable_roce nics netdev w = (r, w') →
  ∃ cs, w_ran w' = w_ran w ++ cs ∧
    (cs = [] ∧ (r = Ok tt → failed w') ∨
     ∃ hw pci c l, detect nics (as_str netdev) = Some (hw, pci) ∧ hw ∈ REGISTRY ∧
       cs = call_of (hw_probe hw pci) c :: l ∧ may_enable hw pci (captured c) l ∧
       (r = Ok tt → ¬ failed w' → did_enable hw pci (captured c) l)).
Proof.
  intros H. unfold enable_roce in H.
  eapply (traces_in_command _ _ _ _ _ _ (traces_bind _ _ _ _ (enable_into_traces nics netdev) (λ s, traces_ret (tt, Complete s)))) in H
    as (_ & cs & E & r0 & w1 & HQ & Hr). exists cs. split; [done|].
  destruct HQ as [(e & -> & HQ)|(s & w2 & cs1 & cs2 & -> & HQ & [-> ->] & _)]; rewrite ?app_nil_r in *.
  - subst r. destruct HQ as [[-> _]|(hw & pci & c & l & Hd & -> & Hm & _)]; [by left|right].
    exists hw, pci, c, l. split_and!; [done|by eapply detect_registered|done..].
  - destruct Hr as [-> Hf]. destruct HQ as [[-> Hs]|(hw & pci & c & l & Hd & -> & Hm & Hok)]; [left|right].
    + split; [done|]. intros _. apply Hf. by apply Hs.
    + exists hw, pci, c, l. split_and!; [done|by eapply detect_registered|done|done|]. intros _ Hnf. apply (Hok s eq_refl).
      intros ->. by apply Hnf, Hf.
Qed.

Definition demo_nic : nic := {|
  nic_name := "eth0"; nic_device_link := Some "0000:03:00.0"; nic_type := Some "1"; nic_vendor := Some "0x15b3"; nic_device := None |}.
Definition demo_param : json :=
  JObject [("param", JObject [("pci/0000:03:00.0",
    JArray [JObject [("name", JString "enable_roce"); ("values", JArray [JObject [("value", JBool false)]])]])])].
Definition demo_devlink : JsonParser := λ _, Some demo_param.
Definition demo_quiet : Machine := λ _ _ _ _ _ t, (Ran [] (Some 0%Z), t).
Definition demo_roce : result string unit * world :=
  @enable_roce demo_devlink patient permissive demo_quiet (Some [demo_nic]) (Refine "eth0" I) (start_world ∅ 0).
Lemma roce_enabled_only_when_off_witness :
  (λ c, cl_args c !! 1%nat) <$> w_ran demo_roce.2 = [Some "param"; Some "param"; Some "reload"] ∧
  ∃ hw pci c l, w_ran demo_roce.2 = call_of (hw_probe hw pci) c :: l ∧ @did_enable hw pci (captured c) l.
Proof.
  split; [vm_compute; reflexivity|].
  assert (Hnf : ¬ failed demo_roce.2) by (unfold failed; vm_compute; discriminate).
  assert (Hr : demo_roce.1 = Ok tt) by (vm_compute; reflexivity).
  destruct (@roce_enabled_only_when_off patient permissive demo_quiet demo_devlink (Some [demo_nic]) (Refine "eth0" I)
    (start_world ∅ 0) demo_roce.1 demo_roce.2)
    as (cs & E & [[_ Hf]|(hw & pci & c & l & _ & _ & -> & _ & H)]); [by unfold demo_roce; destruct (enable_roce _ _ _)|destruct (Hnf (Hf Hr))|].
  exists hw, pci, c, l. split; [exact E|exact (H Hr Hnf)].
Defined.

(** ** Kernel modules *)

(** The modprobe invocation loads exactly what the requested components need:
    no module is named twice, every driver of an RDMA-capable NIC is added as soon
    as one component rides on hardware RDMA, and nothing runs when nothing is
    requested. *)
Lemma ensure_exact modules nics :
  match ensure modules nics with
  | None => modules = []
  | Some spec => ts_command spec = "modprobe" ∧ ∃ names, ts_args spec = "-a" :: names ∧ NoDup names ∧
      ∀ y, y ≠ "-a" → y ∈ names ↔
        ∃ m, m ∈ modules ∧ (y ∈ modprobe_names m ∨ rides_hardware_rdma m = true ∧ y ∈ nics)
  end.
Proof.
  unfold ensure. destruct (module_names ["-a"] modules) as (H1 & H2 & H3). cbv zeta in *.
  set (base := foldl _ ["-a"] modules) in *. specialize (H2 (NoDup_singleton _)). destruct H3 as [H3|]; [|done].
  set (out := if existsb _ modules then _ else base).
  assert (Ho : (∀ y, y ∈ out ↔ y ∈ base ∨ existsb rides_hardware_rdma modules = true ∧ y ∈ nics) ∧ NoDup out ∧ head out = Some "-a").
  { subst out. destruct (existsb _ modules) eqn:Ee; [|split_and!; [naive_solver|done|by rewrite <- H3]].
    destruct (push_names base nics) as (P1 & P2 & P3). split_and!; [naive_solver|auto|].
    destruct P3 as [<-|P3]; [by rewrite <- H3|by rewrite P3 in H3]. }
  destruct Ho as (O1 & O2 & O3). destruct out as [|a names]; [done|]. injection O3 as ->. apply NoDup_cons in O2 as [Hn O2].
  destruct (1 <? length ("-a" :: names))%nat eqn:El.
  - split; [done|]. exists names. split_and!; [done|done|]. intros y Hy. transitivity (y ∈ "-a" :: names); [set_solver|].
    rewrite O1, H1, existsb_exists. setoid_rewrite <- list_elem_of_In. set_solver.
  - apply Nat.ltb_ge in El. destruct names as [|]; [|cbn in El; lia]. destruct modules as [|m ms]; [done|]. exfalso.
    assert (∃ x, x ∈ modprobe_names m ∧ x ≠ "-a") as (x & Hx & Hne) by (destruct m; eexists; (split; [apply list_elem_of_here|done])).
    apply Hne. rewrite <- list_elem_of_singleton. apply O1. left. apply H1. right. exists m. split; [apply list_elem_of_here|done].
Qed.
