(* ===== verification/Nfs.v ===== *)
(** * NFS exports (greendotctl/src/nfs.rs, greendot-proto/src/actual/nfs.rs)

    The managed exports file, rendered and parsed back; the report and its
    parsers; and the apply pass: persist, unexport what is no longer wanted,
    start the server, assert the RDMA listener, export what is wanted. *)
From Stdlib Require Import Ascii String.
From stdpp Require Import base option list strings sets gmap pretty.
From S2P Require Import Prelude Ordered Validate IpAddr Types Desired Actual Render Task Fs World Hardware.
#[local] Open Scope string_scope.
#[local] Open Scope list_scope.
#[local] Open Scope N_scope.

Definition NFS_PORTLIST_SENTINEL : string := "--greendot-portlist--".
Definition NFS_MANAGED_SENTINEL : string := "--greendot-managed--".

(** ** The exports file *)

Definition opts (rw : bool) (fsid : u32) : string :=
  (if rw then "rw" else "ro") +:+ ",sync,no_subtree_check,fsid=" +:+ show_uint fsid.
Definition exports_header : string :=
  "# Managed by greendotrdma " +:+ em_dash +:+ " do not edit; changes are overwritten.".
Definition client_entry (fsid : u32) (c : NfsClientSpec) : string :=
  as_str (cs_client c) +:+ "(" +:+ opts (cs_rw c) fsid +:+ ")".
Definition export_line (e : NfsExportSpec) : string :=
  as_str (es_path e) +:+ concat_s ((λ c, " " +:+ client_entry (es_fsid e) c) <$> es_clients e).
Definition has_clients (e : NfsExportSpec) : bool := match es_clients e with [] => false | _ => true end.
Definition render_exports (d : NfsDesired) : string :=
  exports_header +:+ newline
  +:+ concat_s ((λ e, export_line e +:+ newline) <$> List.filter has_clients (nfs_exports d)).

(** The lines a parser of exports(5) looks at, as a path and its client tokens. *)
Definition export_tokens (line : string) : option (string * list string) :=
  let line := trim line in
  if is_empty line || starts_with "#" line then None else
  match split_whitespace line with
  | path :: tokens => Some (path, tokens)
  | [] => None
  end.
(** The part of a token before the option group. *)
Definition token_client (tok : string) : string := default tok (head (split "(" tok)).
Definition read_managed_text (text : string) : list (string * string) :=
  mjoin ((λ line, match export_tokens line with
                  | Some (path, tokens) =>
                      (λ client, (client, path)) <$> List.filter nonempty (token_client <$> tokens)
                  | None => []
                  end) <$> lines text).
Definition read_managed (t : tree) (exports_file : path) : list (string * string) :=
  match read_to_string t exports_file with Some text => read_managed_text text | None => [] end.

(** ** The parsers of the report *)

Fixpoint trim_end_matches (c : ascii) (s : string) : string :=
  match s with
  | EmptyString => EmptyString
  | String a r => let r' := trim_end_matches c r in
                  if Ascii.eqb a c && is_empty r' then EmptyString else String a r'
  end.
Definition token_spec (tok : string) : string * bool :=
  let '(client, options) := match split_once "(" tok with
                            | Some (c, rest) => (c, trim_end_matches ")" rest)
                            | None => (tok, "")
                            end in
  (client, existsb (λ o, bool_decide (o = "rw")) (split "," options)).
Definition managed_line (line : string) : list (string * string * bool) :=
  match export_tokens line with
  | Some (path, tokens) =>
      (λ s : string * bool, (path, s.1, s.2))
        <$> List.filter (λ s : string * bool, nonempty s.1) (token_spec <$> tokens)
  | None => []
  end.
Definition managed_specs_list (out : string) : list (string * string * bool) := mjoin (managed_line <$> lines out).
Definition parse_managed_specs (out : string) : gset (string * string * bool) :=
  list_to_set (managed_specs_list out).

(** Clients of a path that is already there are added to its entry. *)
Fixpoint add_entry (entries : list NfsExportEntry) (path : string) (clients : list string) : list NfsExportEntry :=
  match entries with
  | [] => [{| nee_path := path; nee_clients := clients |}]
  | e :: entries =>
      if bool_decide (nee_path e = path)
      then {| nee_path := nee_path e; nee_clients := nee_clients e ++ clients |} :: entries
      else e :: add_entry entries path clients
  end.
Definition parse_exportfs_s (out : string) : list NfsExportEntry :=
  foldl (λ entries line,
    match export_tokens line with
    | Some (path, tokens) => add_entry entries path (List.filter nonempty (token_client <$> tokens))
    | None => entries
    end) [] (lines out).

Definition rdma_line (l : string) : option u16 :=
  match split_whitespace l with
  | w :: p :: _ => if bool_decide (w = "rdma") then parse_uint 16 p else None
  | _ => None
  end.
Definition parse_portlist (out : string) : option u16 := head (omap rdma_line (lines out)).

(** The three sections; a sentinel line switches, any other line is added to the
    current one. *)
Record sections : Type := { sec_exports : string; sec_portlist : string; sec_managed : string }.
Definition push_line (i : nat) (s : sections) (line : string) : sections :=
  match i with
  | O => {| sec_exports := sec_exports s +:+ line +:+ newline; sec_portlist := sec_portlist s; sec_managed := sec_managed s |}
  | S O => {| sec_exports := sec_exports s; sec_portlist := sec_portlist s +:+ line +:+ newline; sec_managed := sec_managed s |}
  | _ => {| sec_exports := sec_exports s; sec_portlist := sec_portlist s; sec_managed := sec_managed s +:+ line +:+ newline |}
  end.
Definition section_line (acc : nat * sections) (line : string) : nat * sections :=
  if bool_decide (line = NFS_PORTLIST_SENTINEL) then (1%nat, acc.2)
  else if bool_decide (line = NFS_MANAGED_SENTINEL) then (2%nat, acc.2)
  else (acc.1, push_line acc.1 acc.2 line).
Definition split_report (stdout : string) : sections :=
  (foldl section_line (0%nat, {| sec_exports := ""; sec_portlist := ""; sec_managed := "" |}) (lines stdout)).2.
Definition from_report (stdout : string) : ActualNfs :=
  let s := split_report stdout in
  {| anf_exports := parse_exportfs_s (sec_exports s);
     anf_rdma_port := parse_portlist (sec_portlist s);
     anf_managed := parse_managed_specs (sec_managed s) |}.
Definition format_report (t : tree) (exports : string) (portlist exports_file : path) : string :=
  exports +:+ newline +:+ NFS_PORTLIST_SENTINEL +:+ newline +:+ default "" (read_to_string t portlist)
  +:+ newline +:+ NFS_MANAGED_SENTINEL +:+ newline +:+ default "" (read_to_string t exports_file).

(** ** Applying *)

Section apply.
Context {C : Client} {K : Kernel} {M : Machine}.

(** [Path::with_extension("tmp")] on the last component. *)
Fixpoint rsplit_once_dot (s : string) : option (string * string) :=
  match s with
  | EmptyString => None
  | String a r =>
      match rsplit_once_dot r with
      | Some (x, y) => Some (String a x, y)
      | None => if Ascii.eqb a "." then Some (EmptyString, r) else None
      end
  end.
Definition file_stem (name : string) : string :=
  match rsplit_once_dot name with
  | Some (stem, _) => if is_empty stem then name else stem
  | None => name
  end.
Definition tmp_of (exports_file : path) : path :=
  parent exports_file ++ [file_stem (default "" (last exports_file)) +:+ ".tmp"].
Definition write_exports_file (exports_file : path) (d : NfsDesired) : io unit :=
  _ ← create_dir_all (parent exports_file);
  _ ← write_file (tmp_of exports_file) (render_exports d);
  rename (tmp_of exports_file) exports_file.

Definition ensure_portlist_rdma (portlist : path) (port : u16) : io bool :=
  current ← io_get (λ t, default "" (read_to_string t portlist));
  let line := "rdma " +:+ show_uint port in
  if existsb (λ l, bool_decide (trim l = line)) (lines current) then mret false else
  _ ← open_append portlist;
  _ ← append_to portlist line;
  _ ← append_to portlist newline;
  mret true.

Definition unexport (client path : string) : TaskSpec := spec_new "exportfs" ["-u"; client +:+ ":" +:+ path].
Definition start_server : TaskSpec := spec_new "systemctl" ["start"; "nfs-server"].
Definition export (e : NfsExportSpec) (c : NfsClientSpec) : TaskSpec :=
  spec_new "exportfs" ["-o"; opts (cs_rw c) (es_fsid e); as_str (cs_client c) +:+ ":" +:+ as_str (es_path e)].
Definition desired_pairs (d : NfsDesired) : gset (string * string) :=
  list_to_set (mjoin ((λ e, (λ c, (as_str (cs_client c), as_str (es_path e))) <$> es_clients e) <$> nfs_exports d)).
Definition unexports (previous : list (string * string)) (want : gset (string * string)) : list TaskSpec :=
  (λ p, unexport p.1 p.2) <$> List.filter (λ p, negb (bool_decide (p ∈ want))) previous.
Definition exports (d : NfsDesired) : list TaskSpec :=
  mjoin ((λ e, export e <$> es_clients e) <$> nfs_exports d).

(** Step 1: the file is removed (it may be gone already) or replaced. *)
Definition persist (d : NfsDesired) (exports_file : path) : io unit :=
  match nfs_exports d with
  | [] => io_catch (io_map_err (λ e, io_err (err_kind e) ("removing " +:+ show_abs exports_file +:+ ": " +:+ err_msg e))
                      (remove_file exports_file))
            (λ e, match err_kind e with KNotFound => mret tt | _ => io_fail e end)
  | _ => io_map_err (λ e, io_err (err_kind e) ("writing " +:+ show_abs exports_file +:+ ": " +:+ err_msg e))
           (write_exports_file exports_file d)
  end.
(** Step 4, into the open subtask, with the status so far. *)
Definition assert_listener (d : NfsDesired) (portlist : path) (acc : SubStatus) : op SubStatus :=
  r ← lift (ensure_portlist_rdma portlist (nfs_rdma_port d));
  match r with
  | Ok added =>
      _ ← println_out ["NFSoRDMA listener on port "; show_uint (nfs_rdma_port d); " ";
                       if (added : bool) then "enabled" else "already active"];
      mret acc
  | Err e =>
      let msg := "enabling NFSoRDMA listener on port " +:+ show_uint (nfs_rdma_port d) +:+ ": " +:+ err_msg e in
      _ ← println_err [msg];
      _ ← set_result 1 (Some msg);
      mret (status_fold (Some acc) Failed)
  end.
Definition apply (d : NfsDesired) (exports_file portlist : path) : op SubStatus :=
  previous ← op_get (λ t, read_managed t exports_file);
  r ← lift (persist d exports_file);
  match r with
  | Err e =>
      _ ← println_err [err_msg e];
      _ ← set_result 1 (Some (err_msg e));
      mret Failed
  | Ok _ =>
      acc ← run_all None (unexports previous (desired_pairs d));
      match nfs_exports d with
      | [] =>
          _ ← print_out ("no NFS exports desired; removed greendot exports" +:+ newline);
          mret (default Success acc)
      | _ =>
          s ← run_into start_server;
          acc ← assert_listener d portlist (status_fold acc s);
          acc ← run_all (Some acc) (exports d);
          mret (default Success acc)
      end
  end.
End apply.
