(* ===== verification/NfsFacts.v ===== *)
(** * The NFS exports file and what applying it achieves

    The file round-trips through both parsers, the report through its framing,
    and a completed apply is satisfied. *)
From Stdlib Require Import Ascii String.
From stdpp Require Import base option list strings sets gmap pretty.
From S2P Require Import Prelude Ordered Validate IpAddr Types Desired Actual Render Task Fs World Hardware Commands CommandsFacts Nvmet Csi Traces Nfs.
#[local] Open Scope string_scope.
#[local] Open Scope list_scope.
#[local] Open Scope N_scope.

(** ** Tokens of the rendered lines *)

Definition token (s : string) : Prop := s ≠ "" ∧ all_chars not_ws s.
Lemma split_whitespace_tokens {A} (f : A → string) l :
  (∀ a, token (f a)) → split_whitespace (concat_s ((λ a, " " +:+ f a) <$> l)) = f <$> l.
Proof.
  intros Hf. induction l as [|a l IH]; [done|]. cbn [fmap list_fmap concat_s]. rewrite app_assoc_s.
  change (" " +:+ ?x) with (String " " x). rewrite split_whitespace_ws by done. destruct (Hf a) as [Hne Ha].
  destruct l as [|b l]; [cbn; by rewrite app_nil_r_s, split_whitespace_one|].
  cbn [fmap list_fmap concat_s] in IH |- *. rewrite app_assoc_s in IH |- *. change (" " +:+ ?x) with (String " " x) in IH |- *.
  rewrite split_whitespace_ws in IH by done. by rewrite split_whitespace_cons, IH.
Qed.
Lemma split_whitespace_line {A} p (f : A → string) l :
  token p → (∀ a, token (f a)) → split_whitespace (p +:+ concat_s ((λ a, " " +:+ f a) <$> l)) = p :: (f <$> l).
Proof.
  intros [Hne Hp] Hf. destruct l as [|a l]; [cbn; by rewrite app_nil_r_s, split_whitespace_one|].
  pose proof (split_whitespace_tokens f (a :: l) Hf) as IH. cbn [fmap list_fmap concat_s] in IH |- *.
  rewrite app_assoc_s in IH |- *. change (" " +:+ ?x) with (String " " x) in IH |- *.
  rewrite split_whitespace_ws in IH by done. by rewrite split_whitespace_cons, IH.
Qed.

Definition option_char (c : ascii) : bool := is_ascii_alphanumeric c || char_in ",_=" c.
Lemma opts_chars rw fsid : all_chars option_char (opts rw fsid).
Proof.
  unfold opts. rewrite !all_chars_app, !andb_True. split_and!; [by destruct rw|done|].
  by eapply all_chars_incl; [apply pretty_N_digits|].
Qed.
Lemma client_chars c : as_str (cs_client c) ≠ "" ∧ all_chars nfs_client_char (as_str (cs_client c)).
Proof.
  destruct (cs_client c) as [s H]. change (validator NtNfsClient s) with (nfs_client s) in H. cbn. unfold nfs_client in H. bool_split.
  split; [by intros ->|done].
Qed.
Definition line_char (c : ascii) : bool := not_ws c && visible c.
Lemma entry_token fsid c : token (client_entry fsid c) ∧ all_chars line_char (client_entry fsid c).
Proof.
  destruct (client_chars c) as [Hne Hc]. unfold client_entry. assert (all_chars line_char (client_entry fsid c)) as H.
  { unfold client_entry. rewrite !all_chars_app, !andb_True. split_and!; [|done| |done].
    - by eapply all_chars_incl; [exact Hc|].
    - by eapply all_chars_incl; [apply opts_chars|]. }
  split; [split|done].
  - by destruct (as_str (cs_client c)).
  - eapply all_chars_mono; [|exact H]. unfold line_char. intros x. by rewrite andb_True; intros [? _].
Qed.
Lemma path_token (p : NfsExportPath) : ∃ r, as_str p = String "/" r ∧ token (as_str p) ∧ all_chars line_char (as_str p).
Proof.
  destruct p as [s H]. change (validator NtNfsExportPath s) with (nfs_export_path s) in H. cbn.
  pose proof (nfs_export_path_plain s H) as Hp. apply nfs_export_path_shape in H as (r & -> & _). exists r.
  assert (all_chars line_char (String "/" r)) as Hl by (by eapply all_chars_incl; [exact Hp|]).
  split_and!; [done|split; [done|]|done]. eapply all_chars_mono; [|exact Hl]. unfold line_char. intros x.
  by rewrite andb_True; intros [? _].
Qed.
Lemma export_line_visible e : all_chars visible (export_line e).
Proof.
  assert (Hv : ∀ s, all_chars line_char s → all_chars visible s).
  { intros s. apply all_chars_mono. unfold line_char. intros x. by rewrite andb_True; intros [_ ?]. }
  unfold export_line. rewrite all_chars_app, andb_True. split; [apply Hv; by destruct (path_token (es_path e)) as (? & _ & _ & ?)|].
  induction (es_clients e) as [|c l IH]; [done|]. cbn [fmap list_fmap concat_s]. rewrite !all_chars_app, !andb_True.
  split_and!; [done|apply Hv, entry_token|done].
Qed.
Lemma export_line_tokens e :
  export_tokens (export_line e) = Some (as_str (es_path e), client_entry (es_fsid e) <$> es_clients e).
Proof.
  destruct (path_token (es_path e)) as (r & Er & Hp & _).
  pose proof (split_whitespace_line _ (client_entry (es_fsid e)) (es_clients e) Hp (λ c, proj1 (entry_token _ c))) as Ht.
  fold (export_line e) in Ht. unfold export_tokens. rewrite split_whitespace_trim, Ht.
  assert (∃ r', trim (export_line e) = String "/" r') as [r' ->]; [|done].
  unfold export_line. rewrite Er. cbn. eauto.
Qed.
Lemma entry_client fsid c : token_client (client_entry fsid c) = as_str (cs_client c).
Proof.
  unfold token_client, client_entry. change ("(" +:+ ?x) with (String "(" x). rewrite split_app; [done|].
  destruct (client_chars c) as [_ H]. by eapply all_chars_absent.
Qed.
Lemma trim_end_matches_app c s : c ∉ chars s → trim_end_matches c (s +:+ String c "") = s.
Proof.
  induction s as [|a s IH]; cbn; intros H; [by rewrite Ascii.eqb_refl|].
  apply not_elem_of_cons in H as [Ha Hs]. rewrite IH by done. destruct (Ascii.eqb_spec a c); [by subst|done].
Qed.
Lemma opts_words rw fsid :
  split "," (opts rw fsid) = [if rw then "rw" else "ro"; "sync"; "no_subtree_check"; "fsid=" +:+ show_uint fsid].
Proof.
  change (opts rw fsid) with (join (String "," "") [if rw then "rw" else "ro"; "sync"; "no_subtree_check"; "fsid=" +:+ show_uint fsid]).
  apply split_join; [done|]. repeat constructor; [by destruct rw; vm_compute; set_solver|by vm_compute; set_solver..|].
  rewrite chars_app. apply not_elem_of_app. split; [by vm_compute; set_solver|]. eapply all_chars_absent; [apply pretty_N_digits|done].
Qed.
Lemma entry_spec fsid c : token_spec (client_entry fsid c) = (as_str (cs_client c), cs_rw c).
Proof.
  destruct (client_chars c) as [_ H]. unfold token_spec, client_entry.
  assert (split_once "(" (as_str (cs_client c) +:+ "(" +:+ opts (cs_rw c) fsid +:+ ")")
          = Some (as_str (cs_client c), opts (cs_rw c) fsid +:+ ")")) as ->.
  { apply split_once_Some. split; [done|]. by eapply all_chars_absent. }
  change (")" : string) with (String ")" ""). rewrite trim_end_matches_app.
  2: { eapply all_chars_absent; [apply opts_chars|done]. }
  rewrite opts_words. destruct (cs_rw c); done.
Qed.

(** ** The file round-trips through both parsers *)

Definition pairs_of (d : NfsDesired) : list (string * string) :=
  mjoin ((λ e, (λ c, (as_str (cs_client c), as_str (es_path e))) <$> es_clients e) <$> nfs_exports d).
Definition specs_of (d : NfsDesired) : list (string * string * bool) :=
  mjoin ((λ e, (λ c, (as_str (es_path e), as_str (cs_client c), cs_rw c)) <$> es_clients e) <$> nfs_exports d).
Lemma header_visible : all_chars visible exports_header.
Proof. vm_compute. done. Qed.
Lemma lines_render d : lines (render_exports d) = exports_header :: (export_line <$> List.filter has_clients (nfs_exports d)).
Proof.
  unfold render_exports. change (newline +:+ ?x) with (String lf x). rewrite lines_cons by apply header_visible. f_equal.
  change (λ e, export_line e +:+ newline) with ((λ l, l +:+ chr 10) ∘ export_line). rewrite list_fmap_compose.
  rewrite <- (app_nil_r_s (concat_s _)), lines_concat; [by rewrite app_nil_r|].
  apply Forall_fmap, Forall_true. intros e. apply export_line_visible.
Qed.
Lemma header_tokens : export_tokens exports_header = None.
Proof. done. Qed.
(** Exports without clients have no line and nothing to say. *)
Lemma join_has_clients {B} (f : NfsExportSpec → NfsClientSpec → B) (es : list NfsExportSpec) :
  mjoin ((λ e, f e <$> es_clients e) <$> List.filter has_clients es) = mjoin ((λ e, f e <$> es_clients e) <$> es).
Proof.
  induction es as [|e es IH]; [done|]. cbn [List.filter]. unfold has_clients at 1. rewrite fmap_cons.
  change (mjoin (?x :: ?l)) with (x ++ mjoin l). rewrite <- IH. by destruct (es_clients e) eqn:E; [|rewrite fmap_cons, E].
Qed.
Lemma render_read_managed d : read_managed_text (render_exports d) = pairs_of d.
Proof.
  unfold read_managed_text, pairs_of. rewrite lines_render. cbn [fmap list_fmap]. rewrite header_tokens. cbn.
  rewrite <- list_fmap_compose, <- (join_has_clients (λ e c, (as_str (cs_client c), as_str (es_path e)))).
  f_equal. apply list_fmap_ext. intros i e _. cbn. rewrite export_line_tokens. rewrite <- list_fmap_compose.
  induction (es_clients e) as [|c l IH]; [done|]. cbn. rewrite entry_client. destruct (client_chars c) as [Hne _].
  destruct (as_str (cs_client c)) eqn:E; [done|]. cbn. rewrite <- E. f_equal. exact IH.
Qed.
Lemma render_managed_specs d : managed_specs_list (render_exports d) = specs_of d.
Proof.
  unfold managed_specs_list, specs_of. rewrite lines_render. cbn [fmap list_fmap]. unfold managed_line at 1. rewrite header_tokens. cbn.
  rewrite <- list_fmap_compose, <- (join_has_clients (λ e c, (as_str (es_path e), as_str (cs_client c), cs_rw c))).
  f_equal. apply list_fmap_ext. intros i e _. cbn. unfold managed_line. rewrite export_line_tokens. rewrite <- list_fmap_compose.
  induction (es_clients e) as [|c l IH]; [done|]. cbn. rewrite entry_spec. destruct (client_chars c) as [Hne _]. cbn.
  destruct (as_str (cs_client c)) eqn:E; [done|]. cbn. rewrite <- E. f_equal. exact IH.
Qed.
Lemma exports_file_parsed d : parse_managed_specs (render_exports d) = nfs_want d.
Proof. unfold parse_managed_specs. by rewrite render_managed_specs. Qed.
(** The managed exports file is read back as it was written: the next apply
    recovers every (client, path) pair in order, so what is no longer wanted can
    be unexported, and the drift check recovers exactly the wanted (path, client,
    rw) set. *)
Lemma exports_file_round_trip d :
  read_managed_text (render_exports d) = pairs_of d ∧ parse_managed_specs (render_exports d) = nfs_want d.
Proof. split; [apply render_read_managed|apply exports_file_parsed]. Qed.

(** ** The report and its framing *)

(** A parser of lines that looks neither at a carriage return at the end of a line
    nor at an empty last line. *)
Class Insensitive {B} (P : list string → B) : Prop := {
  ins_cr l1 l l2 : P (l1 ++ strip_cr l :: l2) = P (l1 ++ l :: l2);
  ins_nil ls : P (ls ++ [""]) = P ls }.
Lemma ins_crs `{Insensitive B P} ls rest : P ((strip_cr <$> ls) ++ rest) = P (ls ++ rest).
Proof.
  cut (∀ pre, P (pre ++ (strip_cr <$> ls) ++ rest) = P (pre ++ ls ++ rest)); [intros H'; apply (H' [])|].
  induction ls as [|l ls IH]; intros pre; [done|]. cbn [fmap list_fmap app]. rewrite ins_cr.
  specialize (IH (pre ++ [l])). by rewrite <- !app_assoc in IH.
Qed.
Lemma insensitive_lines `{Insensitive B P} s : P (lines s) = P (split lf s).
Proof.
  unfold lines. fold lf. destruct (exists_last (split_nonempty lf s)) as (init & l & ->).
  rewrite terminated_app by done. cbn. destruct (is_empty l) eqn:E; [|apply ins_crs].
  destruct l; [|done]. by rewrite ins_crs, app_nil_r, ins_nil.
Qed.
Lemma lines_unlines ls :
  Forall (λ l, lf ∉ chars l) ls → lines (concat_s ((λ l, l +:+ newline) <$> ls)) = strip_cr <$> ls.
Proof.
  induction 1 as [|l ls Hl _ IH]; [done|]. cbn [fmap list_fmap concat_s]. rewrite app_assoc_s.
  change (newline +:+ ?x) with (String lf x). rewrite lines_app, IH, split_absent by done. done.
Qed.
Lemma strip_cr_chars c s : c ∉ chars s → c ∉ chars (strip_cr s).
Proof.
  induction s as [|a s IH]; [done|]. intros [Ha Hs]%not_elem_of_cons. destruct s as [|a' s].
  - cbn. destruct (_ =? _); [set_solver|]. cbn. set_solver.
  - change (strip_cr (String a (String a' s))) with (String a (strip_cr (String a' s))). cbn [chars list_ascii_of_string].
    apply not_elem_of_cons. split; [done|by apply IH].
Qed.
Lemma lines_no_lf s : Forall (λ l, lf ∉ chars l) (lines s).
Proof.
  unfold lines. fold lf. pose proof (split_pieces lf s) as Hs. destruct (exists_last (split_nonempty lf s)) as (init & l & E).
  rewrite E in *. rewrite terminated_app by done. apply Forall_app in Hs as [Hi Hl]. apply Forall_app_2.
  - apply Forall_fmap. eapply Forall_impl; [exact Hi|]. intros x. apply strip_cr_chars.
  - cbn. by destruct (is_empty l).
Qed.
(** Such a parser sees through the framing of a section. *)
Lemma insensitive_section `{Insensitive B P} s :
  P (lines (concat_s ((λ l, l +:+ newline) <$> (strip_cr <$> split lf s)))) = P (lines s).
Proof.
  rewrite lines_unlines, insensitive_lines.
  - rewrite <- (app_nil_r (strip_cr <$> (strip_cr <$> _))), ins_crs, ins_crs. by rewrite app_nil_r.
  - apply Forall_fmap. eapply Forall_impl; [apply split_pieces|]. intros l. apply strip_cr_chars.
Qed.
Lemma export_tokens_strip_cr l : export_tokens (strip_cr l) = export_tokens l.
Proof. unfold export_tokens. by rewrite trim_strip_cr. Qed.
Lemma insensitive_bind {A B} (g : string → list A) (k : list A → B) :
  (∀ l, g (strip_cr l) = g l) → g "" = [] → Insensitive (λ ls, k (mjoin (g <$> ls))).
Proof.
  intros Hg H0. split.
  - intros l1 l l2. by rewrite !fmap_app, !fmap_cons, Hg.
  - intros ls. rewrite fmap_app, join_app. cbn. by rewrite H0, !app_nil_r.
Qed.
#[export] Instance insensitive_managed :
  Insensitive (λ ls, (list_to_set (mjoin (managed_line <$> ls)) : gset (string * string * bool))).
Proof. apply (insensitive_bind _ list_to_set); [|done]. intros l. unfold managed_line. by rewrite export_tokens_strip_cr. Qed.
#[export] Instance insensitive_portlist : Insensitive (λ ls, head (omap rdma_line ls)).
Proof.
  split.
  - intros l1 l l2. rewrite !omap_app. cbn. unfold rdma_line at 2. by rewrite split_whitespace_strip_cr.
  - intros ls. rewrite omap_app. cbn. by rewrite app_nil_r.
Qed.
#[export] Instance insensitive_exportfs : Insensitive (foldl (λ entries line,
    match export_tokens line with
    | Some (path, tokens) => add_entry entries path (List.filter nonempty (token_client <$> tokens))
    | None => entries
    end) []).
Proof.
  split.
  - intros l1 l l2. rewrite !foldl_app. cbn [foldl]. by rewrite export_tokens_strip_cr.
  - intros ls. by rewrite foldl_app.
Qed.

Definition not_sentinel (l : string) : Prop := l ≠ NFS_PORTLIST_SENTINEL ∧ l ≠ NFS_MANAGED_SENTINEL.
(** A text none of whose lines is a sentinel. *)
Definition unframed (s : string) : Prop := Forall not_sentinel (strip_cr <$> split lf s).
Lemma fold_section i s ls :
  Forall not_sentinel ls → foldl section_line (i, s) ls = (i, foldl (push_line i) s ls).
Proof.
  intros H. revert s. induction H as [|l ls [H1 H2] _ IH]; intros s; [done|]. cbn [foldl]. unfold section_line at 2.
  rewrite !bool_decide_eq_false_2 by done. apply IH.
Qed.
Lemma push_lines i s ls :
  let text := concat_s ((λ l, l +:+ newline) <$> ls) in
  foldl (push_line i) s ls =
    match i with
    | O => {| sec_exports := sec_exports s +:+ text; sec_portlist := sec_portlist s; sec_managed := sec_managed s |}
    | S O => {| sec_exports := sec_exports s; sec_portlist := sec_portlist s +:+ text; sec_managed := sec_managed s |}
    | _ => {| sec_exports := sec_exports s; sec_portlist := sec_portlist s; sec_managed := sec_managed s +:+ text |}
    end.
Proof.
  cbv zeta. revert s. induction ls as [|l ls IH]; intros s; cbn [foldl fmap list_fmap concat_s].
  - destruct i as [|[|i]], s; cbn; by rewrite app_nil_r_s.
  - rewrite IH. destruct i as [|[|i]]; cbn; by rewrite !app_assoc_s.
Qed.
Lemma newline_app x : newline +:+ x = String lf x.
Proof. done. Qed.
Lemma unframed_lines s : unframed s → Forall not_sentinel (lines s).
Proof.
  unfold unframed, lines. fold lf. destruct (exists_last (split_nonempty lf s)) as (init & l & ->).
  rewrite terminated_app, fmap_app by done. intros [Hi Hl]%Forall_app. apply Forall_app_2; [done|]. cbn in *.
  destruct (is_empty l); [done|]. apply Forall_singleton in Hl as [H1 H2]. apply Forall_singleton. split.
  - intros ->. by apply H1.
  - intros ->. by apply H2.
Qed.
Lemma split_report_framed e p m :
  unframed e → unframed p → unframed m →
  split_report (e +:+ newline +:+ NFS_PORTLIST_SENTINEL +:+ newline +:+ p +:+ newline +:+ NFS_MANAGED_SENTINEL +:+ newline +:+ m)
  = {| sec_exports := concat_s ((λ l, l +:+ newline) <$> (strip_cr <$> split lf e));
       sec_portlist := concat_s ((λ l, l +:+ newline) <$> (strip_cr <$> split lf p));
       sec_managed := concat_s ((λ l, l +:+ newline) <$> lines m) |}.
Proof.
  intros He Hp Hm. unfold split_report. rewrite !newline_app.
  rewrite lines_app, lines_cons, lines_app, lines_cons by done. rewrite foldl_app, fold_section by done. cbn [foldl].
  unfold section_line at 2. rewrite bool_decide_eq_true_2 by done. rewrite foldl_app. cbn [snd]. rewrite fold_section by done. cbn [foldl].
  unfold section_line at 2. rewrite bool_decide_eq_false_2, bool_decide_eq_true_2 by done. cbn [snd].
  rewrite fold_section by by apply unframed_lines. cbn [snd]. rewrite !push_lines. done.
Qed.
Lemma report_parsed t exports portlist exports_file :
  unframed exports → unframed (default "" (read_to_string t portlist)) → unframed (default "" (read_to_string t exports_file)) →
  from_report (format_report t exports portlist exports_file) =
    {| anf_exports := parse_exportfs_s exports;
       anf_rdma_port := parse_portlist (default "" (read_to_string t portlist));
       anf_managed := parse_managed_specs (default "" (read_to_string t exports_file)) |}.
Proof.
  intros He Hp Hm. unfold from_report, format_report. rewrite split_report_framed by done. cbv zeta. cbn [sec_exports sec_portlist sec_managed].
  f_equal.
  - apply (insensitive_section (P := foldl _ [])).
  - apply (insensitive_section (P := λ ls, head (omap rdma_line ls))).
  - unfold parse_managed_specs, managed_specs_list. rewrite lines_unlines by apply lines_no_lf.
    pose proof (ins_crs (P := λ ls, (list_to_set (mjoin (managed_line <$> ls)) : gset (string * string * bool)))
      (lines (default "" (read_to_string t exports_file))) []) as E. by rewrite !app_nil_r in E.
Qed.
(** The NFS report is parsed back as it was put together: as long as no line of
    the three texts is itself a sentinel, each section reaches its own parser
    unchanged, whatever its line endings and whether or not it ends in a newline. *)
Lemma report_round_trip t exports portlist exports_file :
  unframed exports → unframed (default "" (read_to_string t portlist)) → unframed (default "" (read_to_string t exports_file)) →
  from_report (format_report t exports portlist exports_file) =
    {| anf_exports := parse_exportfs_s exports;
       anf_rdma_port := parse_portlist (default "" (read_to_string t portlist));
       anf_managed := parse_managed_specs (default "" (read_to_string t exports_file)) |}.
Proof. apply report_parsed. Qed.
Lemma render_unframed d : unframed (render_exports d).
Proof.
  assert (E : split lf (render_exports d) = (exports_header :: (export_line <$> List.filter has_clients (nfs_exports d))) ++ [""]).
  { unfold render_exports. rewrite newline_app, split_app by by apply visible_no_lf. cbn [app]. f_equal.
    induction (List.filter has_clients (nfs_exports d)) as [|e es IH]; [done|]. cbn [fmap list_fmap concat_s].
    rewrite app_assoc_s, newline_app, split_app by apply visible_no_lf, export_line_visible. cbn [app]. by rewrite IH. }
  unfold unframed. rewrite E, fmap_app. apply Forall_app_2; [|by repeat constructor]. constructor; [done|].
  apply Forall_fmap, Forall_fmap, Forall_true. intros e. cbn. rewrite visible_strip_cr by apply export_line_visible.
  destruct (path_token (es_path e)) as (r & Er & _). unfold export_line. rewrite Er. by split.
Qed.

(** ** What applying runs *)

Section apply.
Context {C : Client} {K : Kernel} {M : Machine}.
Lemma unexports_plain l want : Forall plain (unexports l want).
Proof. apply Forall_fmap, Forall_true. by intros [? ?]. Qed.
Lemma exports_plain d : Forall plain (exports d).
Proof. apply Forall_join, Forall_fmap, Forall_true. intros e. apply Forall_fmap, Forall_true. done. Qed.

(** The commands of an apply, from what the file said before. *)
Definition commands (d : NfsDesired) (previous : list (string * string)) : list TaskSpec :=
  unexports previous (desired_pairs d) ++
  match nfs_exports d with [] => [] | _ => start_server :: exports d end.

Lemma assert_listener_traces d pl acc :
  traces (assert_listener d pl acc) (λ cs r _, cs = [] ∧ ∀ s, r = Ok s → s ≠ Failed → acc ≠ Failed).
Proof.
  eapply traces_conseq.
  { apply traces_bind; [apply (traces_quiet (lift _)); [apply failed_lift|apply ran_lift]|intros [added|e]].
    - instantiate (1 := λ x cs r _, cs = [] ∧ ∀ s, r = Ok s → s ≠ Failed → acc ≠ Failed). cbn beta.
      eapply traces_conseq; [apply traces_bind; [apply traces_quiet; [apply failed_println_out|apply ran_println_out]|intros ?; apply traces_ret]|].
      intros cs r w' [(e & -> & ->)|(u & w1 & cs1 & cs2 & -> & -> & [-> ->] & _)]; [done|]. split; [done|]. by intros s [= <-].
    - eapply traces_conseq; [apply traces_refuse|]. intros cs r w' [-> Hr]. split; [done|]. intros s ->%Hr Hs. by destruct acc. }
  intros cs r w' [(e & -> & ->)|(x & w1 & cs1 & cs2 & -> & -> & H & _)]; done.
Qed.
Lemma start_and_export_traces d pl acc :
  traces (s ← run_into start_server;
          acc ← assert_listener d pl (status_fold acc s);
          acc ← run_all (Some acc) (exports d);
          mret (default Success acc))
    (λ cs r _, partly_ran (start_server :: exports d) cs ∧
       ∀ s, r = Ok s → s ≠ Failed → acc ≠ Some Failed ∧ all_ran (start_server :: exports d) True cs).
Proof.
  assert (Hone : ∀ c, all_ran [start_server] (child_ok c) [call_of start_server c]).
  { intros c. exists [c]. split_and!; [done|done|by repeat constructor]. }
  eapply traces_conseq; [apply traces_bind; [by apply traces_run_into|intros s]|].
  { apply traces_bind; [apply assert_listener_traces|intros a].
    apply traces_bind; [apply run_all_traces, exports_plain|intros o; apply traces_ret]. }
  cbn beta. intros cs r w' [(e & -> & [[-> _]|(c & -> & _)])|(s & w1 & cs1 & cs2 & -> & [(_ & e & [=])|(c & -> & Hs)] & H & _)].
  { split; [apply partly_nil|done]. }
  { split; [|done]. apply (partly_app_l [start_server]). eapply all_partly, Hone. }
  destruct H as [(e & -> & -> & _)|(a & w2 & cs1 & cs3 & -> & [-> Ha] & H & _)].
  { split; [|done]. apply (partly_app_l [start_server]). eapply all_partly, Hone. }
  destruct H as [(e & -> & Hpt & _)|(o & w3 & cs1 & cs4 & -> & [Hpt Ho] & [-> ->] & _)]; rewrite ?app_nil_r; cbn [app].
  { split; [|done]. by apply (all_partly_app [start_server] _ _ [_] _ (Hone c)). }
  split; [by apply (all_partly_app [start_server] _ _ [_] _ (Hone c))|]. intros x [= <-] Hx.
  destruct (Ho o eq_refl) as [Hall Hacc]. assert (o ≠ Some Failed) as Hne by by intros ->.
  assert (Ha' : a ≠ Failed) by (intros ->; by apply Hacc).
  specialize (Ha a eq_refl Ha'). rewrite (Hs s eq_refl) in Ha. apply status_fold_ok in Ha as [Hacc0 Hc].
  split; [done|]. apply (all_all_app [start_server] _ _ _ _ [_] _ (Hone c) Hall). intros _. split; [by destruct (child_ok c)|done].
Qed.
(** What [apply] does after persisting. *)
Definition push_exports (d : NfsDesired) (pl : path) (previous : list (string * string)) : op SubStatus :=
  acc ← run_all None (unexports previous (desired_pairs d));
  match nfs_exports d with
  | [] =>
      _ ← print_out ("no NFS exports desired; removed greendot exports" +:+ newline);
      mret (default Success acc)
  | _ =>
      s ← run_into start_server;
      acc ← assert_listener d pl (status_fold acc s);
      acc ← run_all (Some acc) (exports d);
      mret (default Success acc)
  end.
Lemma push_exports_traces d pl previous :
  traces (push_exports d pl previous) (λ cs r _, partly_ran (commands d previous) cs ∧
    ∀ s, r = Ok s → s ≠ Failed → all_ran (commands d previous) True cs).
Proof.
  unfold push_exports, commands. eapply traces_conseq; [apply traces_bind; [apply run_all_traces, unexports_plain|intros acc]|].
  { instantiate (1 := λ acc cs r _, partly_ran (match nfs_exports d with [] => [] | _ => start_server :: exports d end) cs ∧
       ∀ s, r = Ok s → s ≠ Failed → acc ≠ Some Failed ∧
         all_ran (match nfs_exports d with [] => [] | _ => start_server :: exports d end) True cs). cbn beta.
    destruct (nfs_exports d); [|apply start_and_export_traces].
    eapply traces_conseq; [apply traces_bind; [apply traces_quiet; [apply failed_print_out|apply ran_print_out]|intros ?; apply traces_ret]|].
    intros cs r w' [(e & -> & ->)|(u & w1 & cs1 & cs2 & -> & -> & [-> ->] & _)]; (split; [apply partly_nil|]); [done|].
    intros s [= <-] Hs. split; [by intros ->|by exists []]. }
  cbn beta. intros cs r w' [(e & -> & Hpt & _)|(acc & w1 & cs1 & cs2 & -> & [Hpt Ha] & [Hpt2 Hs] & _)].
  { split; [by apply partly_app_l|done]. }
  destruct (Ha acc eq_refl) as [Hall _]. split; [by eapply all_partly_app|]. intros s -> Hne.
  destruct (Hs s eq_refl Hne) as [Hacc Hall2]. eapply all_all_app; [exact Hall|exact Hall2|done].
Qed.
End apply.
(** Applying NFS state touches greendot's own exports only: the commands run are,
    in order, one unexport for each pair the managed file listed and that is no
    longer wanted, the start of the server, and one export with its exact options
    for each wanted pair; never a global re-export. A run that is cut short by the
    client ran a prefix of them, and a run that does not report failure ran them
    all, successfully. *)
Lemma nfs_apply_commands {C : Client} {K : Kernel} {M : Machine} d exports_file portlist w r w' :
  apply d exports_file portlist w = (r, w') →
  let specs := commands d (read_managed (w_tree w) exports_file) in
  ∃ cs, w_ran w' = w_ran w ++ cs ∧ partly_ran specs cs ∧ ∀ s, r = Ok s → s ≠ Failed → all_ran specs True cs.
Proof.
  intros H specs. unfold apply in H. apply get_bind in H. apply lift_step in H as (x & t & n & _ & H).
  destruct x as [[]|e].
  - apply push_exports_traces in H as (_ & cs & E & Hc). by exists cs.
  - apply traces_refuse in H as (_ & cs & E & -> & Hr). exists []. split_and!; [done|apply partly_nil|by intros s ->%Hr].
Qed.

(** ** What applying achieves *)

Definition text (t : tree) (p : path) : string := default "" (read_to_string t p).
(** A file of complete lines. *)
Definition whole_lines (s : string) : Prop := s = "" ∨ ∃ r, s = r +:+ newline.
Lemma rdma_line_trim l (port : u16) : trim l = "rdma " +:+ show_uint port → rdma_line l = Some port.
Proof.
  intros H. unfold rdma_line. rewrite <- split_whitespace_trim, H.
  assert (Hd : all_chars not_ws (show_uint port)).
  { eapply all_chars_incl; [apply pretty_N_digits|done]. }
  change ("rdma " +:+ show_uint port) with ("rdma" +:+ String " " (show_uint port)).
  rewrite split_whitespace_cons, split_whitespace_one by (done || apply pretty_N_nonempty). cbn. apply parse_show_uint.
Qed.
Lemma parse_portlist_line out l (port : u16) : l ∈ lines out → trim l = "rdma " +:+ show_uint port → is_Some (parse_portlist out).
Proof.
  intros Hl Ht. unfold parse_portlist. destruct (omap rdma_line (lines out)) as [|p ps] eqn:E; [|by exists p].
  assert (port ∈ omap rdma_line (lines out)) as Hp; [|rewrite E in Hp; by apply not_elem_of_nil in Hp].
  apply list_elem_of_omap. exists l. split; [done|by apply rdma_line_trim].
Qed.
Lemma portlist_appended s (port : u16) :
  whole_lines s → is_Some (parse_portlist ((s +:+ ("rdma " +:+ show_uint port)) +:+ newline)).
Proof.
  intros Hs. set (line := "rdma " +:+ show_uint port).
  assert (Hv : all_chars visible line).
  { subst line. rewrite all_chars_app, andb_True. split; [done|]. eapply all_chars_incl; [apply pretty_N_digits|done]. }
  apply (parse_portlist_line _ line port).
  - destruct Hs as [->|[r ->]].
    + change (line ∈ lines (line +:+ String lf "")). rewrite (lines_cons line) by done. apply list_elem_of_here.
    + rewrite !app_assoc_s. change (line ∈ lines (r +:+ String lf (line +:+ String lf ""))). rewrite lines_app, lines_cons by done. apply elem_of_app. right. apply list_elem_of_here.
  - subst line. unfold trim. change (trim_start ("rdma " +:+ show_uint port)) with ("rdma " +:+ show_uint port).
    apply trim_end_tail; [|apply pretty_N_nonempty]. eapply all_chars_incl; [apply pretty_N_digits|done].
Qed.

Section achieved.
Context {C : Client} {K : Kernel} {M : Machine}.
Context (exports_file portlist : path) (Hdiff : exports_file ≠ portlist).

Lemma persist_ok d t t' :
  oks (persist d exports_file) t tt t' →
  read_to_string t' exports_file = match nfs_exports d with [] => None | _ => Some (render_exports d) end.
Proof.
  unfold persist. destruct (nfs_exports d) eqn:E; intros H.
  - apply oks_catch in H as [H|(e & t1 & (n & n' & He) & H)].
    + apply oks_map_err, oks_remove_file in H as [-> _]. unfold read_to_string. by rewrite lookup_delete_eq.
    + unfold io_map_err, remove_file, syscall in He. unfold read_to_string.
      destruct (t !! exports_file) as [[]|] eqn:Et; cbn in He.
      * injection He as <- <- _. by apply oks_fail in H.
      * destruct (deny _ _ _); [|done]. injection He as <- <- _. by apply oks_fail in H.
      * destruct (deny _ _ _); [|done]. injection He as <- <- _. by apply oks_fail in H.
      * injection He as <- <- _. apply oks_ret in H as [_ ->]. by rewrite Et.
  - clear E. apply oks_map_err in H. unfold write_exports_file in H.
    apply oks_bind in H as (? & t1 & _ & H). apply oks_bind in H as (u & t2 & H2 & H). destruct u. apply oks_write in H2 as ->.
    apply oks_syscall in H as [_ ->]. rewrite lookup_insert_eq. unfold read_to_string. by rewrite lookup_insert_eq.
Qed.
Lemma listener_ok port t added t' :
  whole_lines (text t portlist) → oks (ensure_portlist_rdma portlist port) t added t' →
  is_Some (parse_portlist (text t' portlist)).
Proof.
  intros Hw H. unfold ensure_portlist_rdma in H. apply oks_bind in H as (cur & t1 & H1 & H). apply oks_get in H1 as [-> ->].
  fold (text t portlist) in H. apply oks_if in H as [[Hb H]|[_ H]].
  - apply oks_ret in H as [_ ->]. apply existsb_exists in Hb as (l & Hl & Ht%bool_decide_eq_true).
    apply (parse_portlist_line _ l port); [by apply list_elem_of_In|done].
  - apply oks_bind in H as ([] & t1 & H1 & H). apply oks_bind in H as ([] & t2 & H2 & H). apply oks_bind in H as ([] & t3 & H3 & H).
    unfold open_append, append_to in *. apply oks_ret in H as [_ ->]. apply oks_syscall in H1 as [Hp ->]. apply oks_syscall in H2 as [_ ->]. apply oks_syscall in H3 as [_ ->].
    assert (∃ s, (if present t portlist then t else <[portlist := File ""]> t) !! portlist = Some (File s) ∧ s = text t portlist) as (s & Es & ->).
    { unfold present, text, read_to_string. destruct (t !! portlist) as [[]|] eqn:Et; try done; [by eexists; rewrite Et|].
      exists "". by rewrite lookup_insert_eq. }
    rewrite Es, lookup_insert_eq. unfold text at 1, read_to_string at 1. rewrite lookup_insert_eq. cbn. by apply portlist_appended.
Qed.
(** What the commands are relied on for: none of them writes the managed file,
    [exportfs] leaves the listeners alone, and the kernel shows them as whole
    lines once the server was started. *)
Class Obliging : Prop := {
  obl_file n cmd args stdin env t : (proc n cmd args stdin env t).2 !! exports_file = t !! exports_file;
  obl_portlist n args stdin env t : (proc n "exportfs" args stdin env t).2 !! portlist = t !! portlist;
  obl_lines n args stdin env t : whole_lines (text (proc n "systemctl" args stdin env t).2 portlist) }.
Context {HO : Obliging}.
Definition same_at (p : path) : relation tree := λ t t', t' !! p = t !! p.
#[local] Instance same_at_preorder p : PreOrder (same_at p).
Proof. split; [by intros t|]. intros a b c H1 H2. unfold same_at in *. congruence. Qed.

Lemma tree_run_all (R : relation tree) `{!PreOrder R} specs acc :
  Forall plain specs → (∀ spec, spec ∈ specs → ∀ n t, R t (proc n (ts_command spec) (ts_args spec) (ts_stdin spec) (ts_env spec) t).2) →
  op_respects (on_tree R) (run_all acc specs).
Proof.
  intros Hp HR. revert acc. induction Hp as [|spec specs [_ Hf] _ IH]; intros acc; cbn [run_all]; [by apply op_respects_ret, _|].
  apply op_respects_bind; [apply _|apply tree_run_into; [apply _|done|]|intros s; apply IH; intros; apply HR; by right].
  apply HR. apply list_elem_of_here.
Qed.
Lemma listener_keeps port : respects (same_at exports_file) (ensure_portlist_rdma portlist port).
Proof.
  assert (Hk : ∀ op pre upd, (∀ t, upd t !! exports_file = t !! exports_file) → respects (same_at exports_file) (syscall op pre upd)).
  { intros op pre upd Hu t n r t' n' H. unfold same_at, syscall in *. destruct (pre t); [by simplify_eq|]. destruct (deny _ _ _); by simplify_eq. }
  unfold ensure_portlist_rdma. repeat respects_step; apply Hk; intros t.
  - destruct (present t portlist); [done|]. by rewrite lookup_insert_ne.
  - destruct (t !! portlist) as [[]|]; try done. by rewrite lookup_insert_ne.
  - destruct (t !! portlist) as [[]|]; try done. by rewrite lookup_insert_ne.
Qed.
Lemma file_kept d previous : op_respects (on_tree (same_at exports_file)) (push_exports d portlist previous).
Proof.
  assert (Hq : ∀ n cmd args stdin env t, same_at exports_file t (proc n cmd args stdin env t).2) by (intros; apply obl_file).
  unfold push_exports, assert_listener. repeat op_step.
  - apply tree_run_all; [apply _|apply unexports_plain|done].
  - apply tree_print_out. apply _.
  - by apply tree_run_into; [apply _| |].
  - apply listener_keeps.
  - apply tree_println_out. apply _.
  - apply tree_println_err. apply _.
  - intros w r w' [= <- <-]. unfold on_tree. reflexivity.
  - apply tree_run_all; [apply _|apply exports_plain|done].
Qed.
(** After a command the tree is what the command made of it. *)
Lemma run_into_tree spec w s w' :
  ts_stdin_to_file spec = false → run_into spec w = (Ok s, w') →
  ∃ n t, w_tree w' = (proc n (ts_command spec) (ts_args spec) (ts_stdin spec) (ts_env spec) t).2.
Proof.
  intros Hf H. unfold run_into in H. apply op_bind_Ok in H as (u & w1 & _ & H).
  unfold mbind at 1, op_bind at 1, prepare_stdin in H. rewrite Hf in H. unfold with_temp in H. cbn [drop_temp] in H.
  match type of H with context [?m w1] => destruct (m w1) as [r2 w2] eqn:E end. injection H as -> <-.
  apply op_bind_Ok in E as ([[st ex] er] & w3 & H3 & E).
  assert (w_tree w2 = w_tree w3) as -> by (case_bool_decide; by injection E as <- <-).
  unfold stream_child in H3. unfold mbind at 1, op_bind at 1, spawn in H3. exists (w_clock w1), (w_tree w1).
  destruct (proc _ _ _ _ _ _) as [c t]. cbn.
  destruct c; apply op_bind_Ok in H3 as (u' & w4 & H4 & [= _ _ _ <-]);
    [apply (tree_pump eq) in H4|apply (tree_println_err eq) in H4]; unfold on_tree in H4; cbn in H4; by rewrite <- H4.
Qed.
Lemma listener_achieved d previous w s w' :
  nfs_exports d ≠ [] → push_exports d portlist previous w = (Ok s, w') → s ≠ Failed →
  is_Some (parse_portlist (text (w_tree w') portlist)).
Proof.
  intros Hne H Hs. unfold push_exports in H. apply op_bind_Ok in H as (acc & w1 & _ & H).
  destruct (nfs_exports d) as [|e es] eqn:Ee; [done|]. clear Ee Hne.
  apply op_bind_Ok in H as (st & w2 & H2 & H). apply op_bind_Ok in H as (a & w3 & H3 & H). apply op_bind_Ok in H as (o & w4 & H4 & H).
  injection H as <- <-. assert (Ha : a ≠ Failed).
  { pose proof (run_all_traces _ (Some a) (exports_plain d) _ _ _ H4) as (_ & cs & _ & _ & Ho).
    destruct (Ho o eq_refl) as [_ Ha]. intros ->. apply Ha; [|done]. by intros ->. }
  apply run_into_tree in H2 as (n & t & E2); [|done].
  unfold assert_listener in H3. apply lift_step in H3 as (x & t' & n' & Hl & H3).
  assert (E4 : text (w_tree w4) portlist = text (w_tree w3) portlist).
  { apply (tree_run_all (same_at portlist)) in H4; [|apply exports_plain|].
    - unfold text, read_to_string. unfold on_tree, same_at in H4. by rewrite H4.
    - intros spec Hsp k t0. apply list_elem_of_join in Hsp as (l & Hsp & Hl'). apply list_elem_of_fmap in Hl' as (e' & -> & _).
      apply list_elem_of_fmap in Hsp as (c & -> & _). apply obl_portlist. }
  rewrite E4. destruct x as [added|e0].
  - apply op_bind_Ok in H3 as (u & w5 & H5 & [= <- <-]). apply (tree_println_out eq) in H5. unfold on_tree in H5. rewrite <- H5. cbn.
    eapply listener_ok; [|by eexists _, _]. rewrite E2. apply obl_lines.
  - apply traces_refuse in H3 as (_ & cs & _ & _ & Hr). destruct Ha. rewrite (Hr a eq_refl). by apply status_fold_failed_r.
Qed.
End achieved.

(** C13: An NFS apply that does not report failure settles: the managed file holds
    exactly what is wanted (or is gone), an RDMA listener is up whenever something
    is exported, and once [exportfs -s] lists the exported paths the drift check
    that decides about the next pass is satisfied. *)
Theorem nfs_apply_converges {C : Client} {K : Kernel} {M : Machine} exports_file portlist d table w s w' :
  exports_file ≠ portlist → Obliging exports_file portlist →
  apply d exports_file portlist w = (Ok s, w') → s ≠ Failed →
  unframed table → unframed (text (w_tree w') portlist) →
  (∀ e, e ∈ nfs_exports d → ∃ x, x ∈ parse_exportfs_s table ∧ nee_path x = as_str (es_path e)) →
  read_to_string (w_tree w') exports_file = match nfs_exports d with [] => None | _ => Some (render_exports d) end ∧
  nfs_satisfied d (from_report (format_report (w_tree w') table portlist exports_file)) = true.
Proof.
  intros Hdiff HO H Hs Ht Hp Hlive. unfold apply in H. apply get_bind in H. apply lift_step in H as (x & t & n & Hl & H).
  destruct x as [[]|e]; [|by apply traces_refuse in H as (_ & cs & _ & _ & Hr); rewrite (Hr s eq_refl) in Hs].
  change (push_exports d portlist (read_managed (w_tree w) exports_file) (set_fs w t n) = (Ok s, w')) in H.
  assert (Hf : read_to_string (w_tree w') exports_file = match nfs_exports d with [] => None | _ => Some (render_exports d) end).
  { pose proof (file_kept exports_file portlist Hdiff _ _ _ _ _ H) as E. unfold on_tree, same_at in E. cbn in E.
    rewrite <- (persist_ok exports_file d (w_tree w) t) by (by eexists _, _). unfold read_to_string. by rewrite E. }
  split; [done|]. rewrite report_parsed; [|done|done|].
  2: { rewrite Hf. destruct (nfs_exports d); [by repeat constructor|]. apply render_unframed. }
  unfold nfs_satisfied. cbn [anf_managed anf_exports anf_rdma_port]. rewrite !andb_true_iff. split_and!.
  - apply bool_decide_eq_true. rewrite Hf. destruct (nfs_exports d) eqn:Ee; cbn [default]; [|symmetry; apply exports_file_parsed].
    unfold nfs_want. by rewrite Ee.
  - apply forallb_forall. intros e He. destruct (Hlive e) as (y & Hy & Ey); [by apply list_elem_of_In|].
    unfold exported. apply existsb_exists. exists y. split; [by apply list_elem_of_In|by apply bool_decide_eq_true].
  - destruct (nfs_exports d) eqn:Ee; [done|]. cbn. rewrite <- Ee in *.
    destruct (listener_achieved exports_file portlist d _ _ _ _ ltac:(by rewrite Ee) H Hs) as [port E]. unfold text in E. by rewrite E.
Qed.

(** A server with one share and a TCP listener. *)
Definition demo_file : path := ["etc"; "exports.d"; "greendot.exports"].
Definition demo_portlist : path := ["proc"; "portlist"].
Definition demo_nfsd : Machine := λ _ cmd _ _ _ t,
  (Ran [] (Some 0%Z), if bool_decide (cmd = "systemctl") then <[demo_portlist := File ("tcp 2049" +:+ newline)]> t else t).
Definition demo_share : NfsDesired := {|
  nfs_exports := [{| es_path := Refine "/tank/share" I; es_fsid := lit 1728053249;
                     es_clients := [{| cs_client := Refine "10.0.0.5" I; cs_rw := true |}] |}];
  nfs_rdma_port := lit 20049 |}.
Definition demo_table : string := "/tank/share 10.0.0.5(rw)" +:+ newline.
Definition demo_applied : result string SubStatus * world :=
  @apply patient permissive demo_nfsd demo_share demo_file demo_portlist (start_world ∅ 0).
Lemma demo_obliging : @Obliging demo_nfsd demo_file demo_portlist.
Proof.
  split; intros; unfold proc, demo_nfsd; cbn [snd].
  - case_bool_decide; [by rewrite lookup_insert_ne|done].
  - by rewrite bool_decide_eq_false_2.
  - rewrite bool_decide_eq_true_2 by done. unfold text, read_to_string. rewrite lookup_insert_eq. right. by exists "tcp 2049".
Qed.
Lemma demo_run : @apply patient permissive demo_nfsd demo_share demo_file demo_portlist (start_world ∅ 0) = (Ok Success, demo_applied.2).
Proof.
  assert (demo_applied.1 = Ok Success) as E by (vm_compute; reflexivity). rewrite <- E. unfold demo_applied. by destruct (apply _ _ _ _).
Qed.
Lemma nfs_apply_commands_witness :
  cl_command <$> w_ran demo_applied.2 = ["systemctl"; "exportfs"] ∧
  all_ran (commands demo_share []) True (w_ran demo_applied.2).
Proof.
  split; [vm_compute; reflexivity|].
  destruct (nfs_apply_commands demo_share demo_file demo_portlist (start_world ∅ 0) (Ok Success) demo_applied.2 demo_run)
    as (cs & E & _ & H). change (w_ran (start_world ∅ 0)) with (@nil call) in E. rewrite E. exact (H Success eq_refl ltac:(discriminate)).
Defined.
Lemma nfs_apply_converges_witness :
  nfs_satisfied demo_share (from_report (format_report (w_tree demo_applied.2) demo_table demo_portlist demo_file)) = true.
Proof.
  refine (proj2 (nfs_apply_converges demo_file demo_portlist demo_share demo_table (start_world ∅ 0) Success demo_applied.2 _ demo_obliging
    demo_run _ _ _ _)); [done|done|vm_compute; by repeat constructor|vm_compute; by repeat constructor|].
  intros e [->|[]%not_elem_of_nil]%elem_of_cons. vm_compute. eexists. split; [apply list_elem_of_here|reflexivity].
Defined.
Lemma report_round_trip_witness :
  from_report (format_report {[ demo_portlist := File ("rdma 20049" +:+ newline); demo_file := File (render_exports demo_share) ]}
                 demo_table demo_portlist demo_file) =
  {| anf_exports := [{| nee_path := "/tank/share"; nee_clients := ["10.0.0.5"] |}];
     anf_rdma_port := Some (lit 20049 : u16); anf_managed := {[ ("/tank/share", "10.0.0.5", true) ]} |}.
Proof.
  rewrite report_round_trip; [reflexivity|vm_compute; by repeat constructor..].
Defined.
