(* ===== verification/Lio.v ===== *)
(** * iSCSI targets (greendotctl/src/lio.rs, greendotctl/src/actual/lio.rs)

    The configuration document handed to [targetctl restore], and the reader of
    the LIO configfs tree. The JSON printer is a class parameter. *)
From Stdlib Require Import Ascii String.
From stdpp Require Import base option list strings sets gmap pretty.
From S2P Require Import Prelude Ordered Validate IpAddr Types Desired Actual Render Task Fs World Hardware.
#[local] Open Scope string_scope.
#[local] Open Scope list_scope.
#[local] Open Scope N_scope.

(** ** The document *)

Class JsonPrinter := to_string_pretty : json → string.
Definition jnat {w} (n : uint w) : json := JNumber (show_uint n).
Definition jflag (b : bool) : json := JNumber (if b then "1" else "0").
Definition lun_object (l : LioLunSpec) : json :=
  JObject [("index", jnat (lun_lun l)); ("storage_object", JString ("/backstores/block/" +:+ as_str (lun_backstore l)))].
Definition mapped_lun (l : LioLunSpec) : json :=
  JObject [("index", jnat (lun_lun l)); ("tpg_lun", jnat (lun_lun l)); ("write_protect", JBool false)].
Definition node_acl (luns : list LioLunSpec) (a : Iqn) : json :=
  JObject [("node_wwn", JString (as_str a)); ("mapped_luns", JArray (mapped_lun <$> luns));
           ("attributes", JObject []); ("auth", JObject [])].
Definition portal (p : LioPortalSpec) : json :=
  JObject [("ip_address", JString (show_ip (portal_addr p))); ("port", jnat (portal_port p)); ("iser", JBool (portal_iser p))].
Definition target (t : LioTargetSpec) : json :=
  JObject [
    ("fabric", JString "iscsi");
    ("wwn", JString (as_str (tgt_iqn t)));
    ("tpgs", JArray [JObject [
       ("tag", JNumber "1");
       ("enable", JBool (tgt_enabled t));
       ("attributes", JObject [
          ("authentication", JNumber "0");
          ("generate_node_acls", jflag (tgt_demo_mode t));
          ("cache_dynamic_acls", jflag (tgt_demo_mode t));
          ("demo_mode_write_protect", JNumber "0")]);
       ("parameters", JObject []);
       ("luns", JArray (lun_object <$> tgt_luns t));
       ("portals", JArray (portal <$> tgt_portals t));
       ("node_acls", JArray (if tgt_demo_mode t then [] else node_acl (tgt_luns t) <$> tgt_acls t))]])].
Definition storage_object (b : LioBackstoreSpec) : json :=
  JObject [("name", JString (as_str (bs_name b))); ("plugin", JString "block"); ("dev", JString (as_str (bs_device_path b)));
           ("readonly", JBool false); ("write_back", JBool true)].
Definition document (d : LioDesired) : json :=
  JObject [("fabric_modules", JArray []);
           ("storage_objects", JArray (storage_object <$> ld_backstores d));
           ("targets", JArray (target <$> ld_targets d))].
Definition render {P : JsonPrinter} (d : LioDesired) : string := to_string_pretty (document d).
Definition apply_spec {P : JsonPrinter} (d : LioDesired) : TaskSpec :=
  with_config_file "targetctl" ["restore"] (render d).

(** ** The reader *)

Definition read_attr (t : tree) (dir : path) (attr : string) : string := read_trim t (dir ++ [attr]).
Definition read_backstore (t : tree) (root : path) (name : string) : option Backstore :=
  let dir := root ++ ["core"; "iblock_0"; name] in
  if is_dir t dir
  then Some {| ab_name := name; ab_udev_path := read_attr t dir "udev_path";
               ab_enabled := bool_decide (read_attr t dir "enable" = "1") |}
  else None.
(** [Path::file_name]: a path ending in [..] has none. *)
Definition file_name (p : path) : option string :=
  match last p with Some n => if bool_decide (n = "..") then None else Some n | None => None end.
(** The backstore a LUN entry points at: the last component of its target. *)
Definition lun_target (t : tree) (lun_dir : path) (n : string) : option string :=
  match t !! (lun_dir ++ [n]) with Some (Link tgt) => file_name tgt | _ => None end.
Definition read_luns (t : tree) (tpg : path) : list string :=
  mjoin ((λ l, omap (lun_target t (tpg ++ ["lun"; l])) (dir_entries t (tpg ++ ["lun"; l])))
         <$> List.filter (starts_with "lun_") (dir_entries t (tpg ++ ["lun"]))).
Definition read_target (t : tree) (root : path) (iqn : string) : option Target :=
  let tpg := root ++ ["iscsi"; iqn; "tpgt_1"] in
  if is_dir t tpg then
    Some {| at_iqn := iqn;
            at_enabled := bool_decide (read_attr t tpg "enable" = "1");
            at_demo_mode := bool_decide (read_attr t (tpg ++ ["attrib"]) "generate_node_acls" = "1");
            at_luns := read_luns t tpg;
            at_portals := (λ p, {| apo_addr_port := p;
                                   apo_iser := bool_decide (read_attr t (tpg ++ ["np"; p]) "iser" = "1") |})
                          <$> dir_entries t (tpg ++ ["np"]);
            at_acls := dir_entries t (tpg ++ ["acls"]) |}
  else None.
Definition read (t : tree) (root : path) : ActualLio :=
  {| al_backstores := omap (read_backstore t root) (dir_entries t (root ++ ["core"; "iblock_0"]));
     al_targets := omap (read_target t root) (dir_entries t (root ++ ["iscsi"])) |}.

(** ** Sessions *)

Record IscsiSession : Type := { is_target_iqn : string; is_initiator_iqn : string; is_detail : string }.
Definition explicit_sessions (t : tree) (tpg : path) (iqn : string) : list IscsiSession :=
  omap (λ initiator,
    let info := read_attr t (tpg ++ ["acls"; initiator]) "info" in
    if contains "LOGGED_IN" info
    then Some {| is_target_iqn := iqn; is_initiator_iqn := initiator; is_detail := info |} else None)
    (dir_entries t (tpg ++ ["acls"])).
(** A dynamic session that is not there yet is added. *)
Definition add_dynamic (iqn : string) (out : list IscsiSession) (initiator : string) : list IscsiSession :=
  if existsb (λ s, bool_decide (is_target_iqn s = iqn) && bool_decide (is_initiator_iqn s = initiator)) out then out
  else out ++ [{| is_target_iqn := iqn; is_initiator_iqn := initiator; is_detail := "" |}].
Definition target_sessions (t : tree) (root : path) (out : list IscsiSession) (iqn : string) : list IscsiSession :=
  let tpg := root ++ ["iscsi"; iqn; "tpgt_1"] in
  if is_dir t tpg then
    foldl (add_dynamic iqn) (out ++ explicit_sessions t tpg iqn)
      (List.filter nonempty (trim <$> lines (read_attr t tpg "dynamic_sessions")))
  else out.
Definition sessions (t : tree) (root : path) : list IscsiSession :=
  foldl (target_sessions t root) [] (dir_entries t (root ++ ["iscsi"])).

(** ** Portal addresses *)

Fixpoint trim_start_matches (c : ascii) (s : string) : string :=
  match s with String x r => if Ascii.eqb x c then trim_start_matches c r else s | EmptyString => s end.
Fixpoint trim_end_matches (c : ascii) (s : string) : string :=
  match s with
  | EmptyString => ""
  | String x r =>
      let r := trim_end_matches c r in
      if Ascii.eqb x c && is_empty r then "" else String x r
  end.
(** [Portal::addr]: the directory name less its port and brackets. *)
Definition portal_host (p : Portal) : string :=
  let addr := match rsplit_once ":" (apo_addr_port p) with Some (a, _) => a | None => apo_addr_port p end in
  trim_end_matches "]" (trim_start_matches "[" addr).

Lemma trim_start_absent c s : c ∉ chars s → trim_start_matches c s = s.
Proof.
  destruct s as [|x s]; [done|]. cbn. intros [Hx _]%not_elem_of_cons.
  by destruct (Ascii.eqb_spec x c) as [->|].
Qed.
Lemma trim_end_absent c s : c ∉ chars s → trim_end_matches c s = s.
Proof.
  induction s as [|x s IH]; [done|]. cbn. intros [Hx Hs]%not_elem_of_cons. rewrite (IH Hs).
  by destruct (Ascii.eqb_spec x c) as [->|].
Qed.
Lemma trim_end_last c s : c ∉ chars s → trim_end_matches c (s +:+ String c "") = s.
Proof.
  induction s as [|x s IH]; cbn.
  - by rewrite Ascii.eqb_refl.
  - intros [Hx Hs]%not_elem_of_cons. rewrite (IH Hs). by destruct (Ascii.eqb_spec x c) as [->|].
Qed.
Lemma show_ip_absent ip c : ip_char c = false → c ∉ chars (show_ip ip).
Proof. apply all_chars_absent, show_ip_chars. Qed.
Lemma show_port_no_colon {w} (n : uint w) : ":"%char ∉ chars (show_uint n).
Proof. by apply (all_chars_absent is_ascii_digit); [apply pretty_N_digits|]. Qed.

(** The address of a portal read back from the directory name the kernel
    gives a rendered portal, IPv4 or bracketed IPv6, is the address rendered. *)
Lemma portal_address_round_trip (addr : IpAddr) (port : u16) (iser : bool) :
  parse_ip (portal_host {| apo_addr_port := fmt_addr addr port; apo_iser := iser |}) = Some addr.
Proof.
  unfold portal_host, fmt_addr. cbn [apo_addr_port].
  assert (Hb : "["%char ∉ chars (show_ip addr)) by by apply show_ip_absent.
  assert (He : "]"%char ∉ chars (show_ip addr)) by by apply show_ip_absent.
  pose proof (show_port_no_colon port) as Hp.
  rewrite <- (parse_show_ip addr). f_equal. destruct addr.
  - change (":" +:+ show_uint port) with (String ":" (show_uint port)).
    by rewrite rsplit_once_app, trim_start_absent, trim_end_absent.
  - match goal with |- context [show_ip ?a] => set (s := show_ip a) in * end.
    change ("[" +:+ s +:+ "]:" +:+ show_uint port) with ("[" +:+ (s +:+ "]" +:+ String ":" (show_uint port))).
    rewrite <- (app_assoc_s s "]"), <- app_assoc_s, rsplit_once_app by done.
    change ("[" +:+ (s +:+ "]")) with (String "[" (s +:+ "]")). cbn [trim_start_matches Ascii.eqb Bool.eqb].
    rewrite trim_start_absent; [by apply trim_end_last|].
    rewrite chars_app. intros [?|Hin]%elem_of_app; [done|]. by apply list_elem_of_singleton in Hin.
Qed.

(** ** The rendered document is closed *)

Definition items (key : string) (v : json) : list json := default [] (json_get key v ≫= as_array).
Definition text (key : string) (v : json) : option string := json_get key v ≫= as_string.
(** A portal group whose LUNs lie in [objects], whose ACLs map only its own LUNs
    and which, generating its ACLs, has no explicit one. *)
Definition tpg_closed (objects : list string) (g : json) : Prop :=
  (∀ l, l ∈ items "luns" g → ∃ n, text "storage_object" l = Some ("/backstores/block/" +:+ n) ∧ n ∈ objects) ∧
  (∀ a m, a ∈ items "node_acls" g → m ∈ items "mapped_luns" a →
     ∃ l, l ∈ items "luns" g ∧ json_get "index" l = json_get "tpg_lun" m) ∧
  (json_get "attributes" g ≫= json_get "generate_node_acls" = Some (JNumber "1") → items "node_acls" g = []).
Definition doc_closed (d : json) : Prop :=
  ∀ t g, t ∈ items "targets" d → g ∈ items "tpgs" t →
    tpg_closed (omap (text "name") (items "storage_objects" d)) g.

Definition luns_bound (bs : list LioBackstoreSpec) (t : LioTargetSpec) : Prop :=
  ∀ l, l ∈ tgt_luns t → lun_backstore l ∈ bs_name <$> bs.
Lemma render_luns_bound iscsi dl pa d :
  render_lio_go iscsi dl pa = Ok d → ∀ t, t ∈ ld_targets d → luns_bound (ld_backstores d) t.
Proof.
  revert d. induction iscsi as [|e iscsi IH]; intros d; cbn.
  { intros [= <-] t []%elem_of_nil. }
  destruct (new NtBackstoreName _) as [name|]; [|apply IH].
  destruct (new NtDevicePath _) as [dp|]; [|apply IH].
  intros (iqn & _ & (rest & Hr & [= <-])%bind_Ok)%bind_Ok t. cbn.
  intros [->|Ht]%elem_of_cons l Hl; cbn in *.
  - apply list_elem_of_singleton in Hl as ->. apply list_elem_of_here.
  - apply list_elem_of_further. by apply (IH _ Hr t Ht).
Qed.
Lemma omap_names (bs : list LioBackstoreSpec) : omap (text "name") (storage_object <$> bs) = as_str <$> (bs_name <$> bs).
Proof. induction bs as [|b bs IH]; [done|]. cbn. by rewrite IH. Qed.
Lemma target_closed (bs : list LioBackstoreSpec) t g :
  luns_bound bs t → g ∈ items "tpgs" (target t) → tpg_closed (as_str <$> (bs_name <$> bs)) g.
Proof.
  intros Hb ->%list_elem_of_singleton. split_and!.
  - intros l (l' & -> & Hl)%list_elem_of_fmap. eexists; split; [done|]. apply list_elem_of_fmap_2. by apply Hb.
  - unfold items; cbn. destruct (tgt_demo_mode t); cbn; [by intros ? ? ?%elem_of_nil|].
    intros a m (a' & -> & _)%list_elem_of_fmap (l & -> & Hl)%list_elem_of_fmap.
    exists (lun_object l). split; [by apply list_elem_of_fmap_2|done].
  - unfold items; cbn. by destruct (tgt_demo_mode t).
Qed.

(** In the [targetctl restore] document rendered from any iSCSI exports,
    every LUN names a storage object the same document defines, every ACL maps
    only LUNs of its own portal group, and a demo-mode target lists no ACL. *)
Lemma lio_document_closed iscsi default_listen pci_addrs d :
  render_lio iscsi default_listen pci_addrs = Ok d → doc_closed (document d).
Proof.
  intros Hd t g Ht Hg. unfold items in Ht; cbn in Ht.
  apply list_elem_of_fmap in Ht as (t' & -> & Ht).
  change (items "storage_objects" (document d)) with (storage_object <$> ld_backstores d).
  rewrite omap_names. by apply (target_closed _ t'); [apply (render_luns_bound _ _ _ _ Hd)|].
Qed.
Definition demo_export : IscsiExport := {|
  iscsi_id := 1; iscsi_name := "vm1"; iscsi_device_path := "/dev/zvol/tank/vm1"; iscsi_enabled := true;
  iscsi_want_rdma := true; iscsi_want_tcp := true; iscsi_allow_any_host := false;
  iscsi_initiators := ["iqn.1993-08.org.debian:01:abc"]; iscsi_interfaces := []; iscsi_last_error := None |}.
Definition demo_render : panics LioDesired :=
  render_lio [demo_export] (V4 (lit 10 : u8) (lit 0 : u8) (lit 0 : u8) (lit 5 : u8)) ∅.
Lemma lio_document_closed_witness : ∃ d, demo_render = Ok d ∧ doc_closed (document d) ∧ length (ld_targets d) = 1%nat.
Proof.
  destruct demo_render as [d|] eqn:E; [|vm_compute in E; discriminate].
  exists d. split; [reflexivity|]. split.
  - exact (lio_document_closed _ _ _ _ E).
  - vm_compute in E. injection E as <-. reflexivity.
Defined.
