(* ===== verification/Nic.v ===== *)
(** * NICs and RDMA devices (greendotctl/src/actual/nic.rs, actual/rdma.rs and
    greendot-proto/src/actual/nic.rs, actual/rdma.rs)

    The readers of /sys/class/net and /sys/class/infiniband over what they see
    of those directories, the parsers of [ip -j] and [rdma -j], and the facts
    the reconciler relies on: a NIC is classified by the RDMA devices that back
    it, in whatever order the kernel lists them. *)
From Stdlib Require Import Ascii String Sorting.Sorted.
From stdpp Require Import base option list strings sets gmap pretty.
From S2P Require Import Prelude Ordered Validate IpAddr Types Desired Actual Render Task Fs World Hardware.
#[local] Open Scope string_scope.
#[local] Open Scope list_scope.
#[local] Open Scope N_scope.

(** ** RDMA devices *)

Definition read_trimmed (content : option string) : option string :=
  s ← content; if is_empty (trim s) then None else Some (trim s).

(** What is read of a directory of /sys/class/infiniband: the contents of
    [parent], and for each entry of [ports] (when listable) the contents of
    [state] and of the files of [gid_attrs/ndevs] (when listable). *)
Record ib_port : Type := {
  ibp_name : string;
  ibp_state : option string;
  ibp_ndevs : option (list (string * option string)) }.
Record ib_dev : Type := {
  ib_name : string;
  ib_parent : option string;
  ib_ports : option (list ib_port) }.
(** [None]: the root is unreadable. *)
Definition ib_inventory : Type := option (list ib_dev).

Definition file_in (l : list (string * option string)) (name : string) : option string :=
  kv ← head (filter (λ kv : string * option string, kv.1 = name) l); kv.2.
Definition backing_netdev (d : ib_dev) : option string :=
  match read_trimmed (ib_parent d) with
  | Some n => Some n
  | None =>
      p ← ports ← ib_ports d; head (filter (λ p, ibp_name p = "1") ports);
      read_trimmed (ndevs ← ibp_ndevs p; file_in ndevs "0")
  end.
Definition state_active (p : ib_port) : bool :=
  match read_trimmed (ibp_state p) with Some s => contains "ACTIVE" s | None => false end.
Definition port_active (d : ib_dev) : bool :=
  match ib_ports d with Some ports => existsb state_active ports | None => false end.
Definition netdev_map : Type := gmap string (list IpAddr).
Definition read_dev (netdev_addrs : netdev_map) (d : ib_dev) : RdmaDev :=
  let netdev := backing_netdev d in
  let active := port_active d in
  {| rd_name := ib_name d; rd_netdev := netdev; rd_active := active;
     rd_addrs := match netdev, active with
                 | Some nd, true => default [] (netdev_addrs !! nd)
                 | _, _ => []
                 end |}.
Definition read (ib : ib_inventory) (netdev_addrs : netdev_map) : list RdmaDev :=
  match ib with
  | None => []
  | Some devs => sort_by rd_name (read_dev netdev_addrs <$> devs)
  end.

(** ** Interface addresses *)

Definition is_loopback (a : IpAddr) : bool :=
  match a with
  | V4 x _ _ _ => raw x =? 127
  | V6 _ _ _ _ _ _ _ _ => bool_decide (tail (okey a) = [0; 0; 0; 0; 0; 0; 0; 1])
  end.
(** [getifaddrs], when it answers: names with the address, if it is an IP one. *)
Definition ifaddrs : Type := option (list (string * option IpAddr)).
Definition push_addr (m : netdev_map) (ifa : string * option IpAddr) : netdev_map :=
  match ifa.2 with
  | Some addr => if is_loopback addr then m else <[ifa.1 := default [] (m !! ifa.1) ++ [addr]]> m
  | None => m
  end.
Definition netdev_addrs (ifas : ifaddrs) : netdev_map := foldl push_addr ∅ (default [] ifas).

(** ** Which NICs an RDMA device backs *)

Definition backing_netdevs (d : ib_dev) : list string :=
  dedup (sort (option_list (read_trimmed (ib_parent d))
    ++ mjoin ((λ p, omap (λ nd : string * option string, read_trimmed nd.2) (default [] (ibp_ndevs p)))
              <$> default [] (ib_ports d)))).
Definition note_backing (dev : string) (active : bool) (m : gmap string (string * bool)) (nd : string) :
    gmap string (string * bool) :=
  match m !! nd with
  | Some (_, was) => if active && negb was then <[nd := (dev, true)]> m else m
  | None => <[nd := (dev, active)]> m
  end.
Definition rdma_backed (ib : ib_inventory) : gmap string (string * bool) :=
  foldl (λ m d, foldl (note_backing (ib_name d) (port_active d)) m (backing_netdevs d)) ∅ (default [] ib).

Definition join_pci (addrs : netdev_map) (m : netdev_map) (n : nic) : netdev_map :=
  match pci_of n with
  | Some pci =>
      match addrs !! nic_name n with
      | Some a => <[as_str pci := default [] (m !! as_str pci) ++ a]> m
      | None => m
      end
  | None => m
  end.
Definition pci_to_addrs (nics : inventory) (addrs : netdev_map) : netdev_map :=
  foldl (join_pci addrs) ∅ (default [] nics).
Definition pci_addrs (nics : inventory) (ifas : ifaddrs) : netdev_map := pci_to_addrs nics (netdev_addrs ifas).

Definition classify_kind (backed : gmap string (string * bool)) (roce_hw : gmap string string) (n : nic) :
    option string * NicRdmaKind :=
  match backed !! nic_name n with
  | Some (dev, active) => (Some dev, if active : bool then Active else Inactive)
  | None =>
      if is_ethernet n then
        match roce_hw !! nic_name n with
        | Some vendor => (None, CapableDisabled vendor)
        | None => (None, SoftRoceable)
        end
      else (None, Unsupported)
  end.
Definition classify_one (backed : gmap string (string * bool)) (addrs : netdev_map) (roce_hw : gmap string string)
    (n : nic) : option NicStatus :=
  if bool_decide (nic_name n = "lo") then None
  else
    let '(rdma, kind) := classify_kind backed roce_hw n in
    Some {| nst_netdev := nic_name n; nst_rdma := rdma; nst_pci := pci_of n;
            nst_addrs := default [] (addrs !! nic_name n); nst_kind := kind |}.
Definition classify (nics : inventory) (ib : ib_inventory) (addrs : netdev_map) (roce_hw : gmap string string) :
    list NicStatus :=
  match nics with
  | None => []
  | Some nics => sort_by nst_netdev (omap (classify_one (rdma_backed ib) addrs roce_hw) nics)
  end.

(** ** The parsers of [ip -j] *)

(** [as_u64], and the truncating [as u32], [as u16] and [as u8]. *)
Definition as_u64 (v : json) : option N :=
  match v with
  | JNumber n => if is_empty n then None else x ← parse_digits 0 n; if x <? 2 ^ 64 then Some x else None
  | _ => None
  end.
Lemma fits_mod w n : fits w (n mod 2 ^ w).
Proof. apply fits_spec, N.mod_lt. by apply N.pow_nonzero. Qed.
Definition truncate (w : N) (n : N) : uint w := Refine (n mod 2 ^ w) (fits_mod w n).
Definition is_object (v : json) : bool := match v with JObject _ => true | _ => false end.
Definition get_str (key : string) (v : json) : option string := json_get key v ≫= as_string.

Section parsers.
Context {J : JsonParser}.
Definition array_of (text : string) : option (list json) := from_str text ≫= as_array.
Definition note_gateway (m : gmap string string) (route : json) : gmap string string :=
  if is_object route && bool_decide (get_str "dst" route = Some "default") then
    match get_str "dev" route, get_str "gateway" route with
    | Some dev, Some gw => match m !! dev with Some _ => m | None => <[dev := gw]> m end
    | _, _ => m
    end
  else m.
Definition default_gateways (route_json : string) : gmap string string :=
  foldl note_gateway ∅ (default [] (array_of route_json)).
Definition addr_of_json (a : json) : option NicAddr :=
  if is_object a then
    local ← get_str "local" a;
    Some {| na_addr := local;
            na_prefix := truncate 8 (default 0 (json_get "prefixlen" a ≫= as_u64));
            na_dynamic := default false (json_get "dynamic" a ≫= as_bool) |}
  else None.
Definition network_of_json (gateways : gmap string string) (link : json) : option NicNetwork :=
  if is_object link then
    netdev ← get_str "ifname" link;
    if bool_decide (netdev = "lo") then None
    else
      let addrs := omap addr_of_json (default [] (json_get "addr_info" link ≫= as_array)) in
      Some {| nn_netdev := netdev;
              nn_mac := get_str "address" link;
              nn_mtu := option_map (truncate 32) (json_get "mtu" link ≫= as_u64);
              nn_operstate := default "UNKNOWN" (get_str "operstate" link);
              nn_dhcp := existsb na_dynamic addrs;
              nn_addrs := addrs;
              nn_gateway := gateways !! netdev |}
  else None.
Definition networks_from_json (addr_json route_json : string) : list NicNetwork :=
  omap (network_of_json (default_gateways route_json)) (default [] (array_of addr_json)).

(** ** RDMA peers *)

Record RdmaPeer : Type := {
  rp_src_addr : string; rp_src_port : option u16; rp_dst_addr : string; rp_state : string }.
(** [split_once] at a two-character separator. *)
Fixpoint split_once2 (c d : ascii) (s : string) : option (string * string) :=
  match s with
  | String x r =>
      if match r with String y _ => Ascii.eqb x c && Ascii.eqb y d | EmptyString => false end
      then match r with String _ r => Some ("", r) | EmptyString => None end
      else '(a, b) ← split_once2 c d r; Some (String x a, b)
  | EmptyString => None
  end.
Definition split_host_port (s : string) : option (string * u16) :=
  match strip_prefix "[" s with
  | Some rest =>
      '(addr, port) ← split_once2 "]" ":" rest;
      p ← parse_uint 16 port; Some (addr, p)
  | None =>
      '(addr, port) ← rsplit_once ":" s;
      if contains ":" addr then None else p ← parse_uint 16 port; Some (addr, p)
  end.
Definition port_field (v : json) : option u16 :=
  match as_u64 v with
  | Some p => Some (truncate 16 p)
  | None => as_string v ≫= parse_uint 16
  end.
Definition addr_field (obj : json) (key port_key : string) : string * option u16 :=
  let raw := default "" (get_str key obj) in
  match json_get port_key obj ≫= port_field with
  | Some p => (raw, Some p)
  | None => match split_host_port raw with Some (addr, p) => (addr, Some p) | None => (raw, None) end
  end.
Definition peer_of_json (e : json) : option RdmaPeer :=
  if is_object e then
    let '(src_addr, src_port) := addr_field e "src-addr" "src-port" in
    let '(dst_addr, _) := addr_field e "dst-addr" "dst-port" in
    if is_empty dst_addr then None
    else Some {| rp_src_addr := src_addr; rp_src_port := src_port; rp_dst_addr := dst_addr;
                 rp_state := default "" (get_str "state" e) |}
  else None.
Definition peer_entries (v : json) : list json :=
  match v with
  | JArray a => a
  | JObject m => default [] (head (omap (λ kv : string * json, as_array kv.2) m))
  | _ => []
  end.
Definition peers_from_json (text : string) : list RdmaPeer :=
  match from_str text with
  | None => []
  | Some v => omap peer_of_json (peer_entries v)
  end.
End parsers.

(** ** Classification *)

(** Device [d] of the listing backs the netdev [nd]. *)
Definition backs (ib : ib_inventory) (nd : string) (d : ib_dev) : Prop :=
  d ∈ default [] ib ∧ nd ∈ backing_netdevs d.
(** What each verdict means, whatever the order of the listings. *)
Definition kind_means (ib : ib_inventory) (roce_hw : gmap string string) (n : nic) (rdma : option string)
    (k : NicRdmaKind) : Prop :=
  match k with
  | Active => ∃ d, backs ib (nic_name n) d ∧ port_active d ∧ rdma = Some (ib_name d)
  | Inactive => (∃ d, backs ib (nic_name n) d ∧ rdma = Some (ib_name d))
                ∧ ∀ d, backs ib (nic_name n) d → ¬ port_active d
  | CapableDisabled vendor =>
      (∀ d, ¬ backs ib (nic_name n) d) ∧ is_ethernet n ∧ roce_hw !! nic_name n = Some vendor ∧ rdma = None
  | SoftRoceable =>
      (∀ d, ¬ backs ib (nic_name n) d) ∧ is_ethernet n ∧ roce_hw !! nic_name n = None ∧ rdma = None
  | Unsupported => (∀ d, ¬ backs ib (nic_name n) d) ∧ ¬ is_ethernet n ∧ rdma = None
  end.

(** The entry [rdma_backed] keeps for a netdev, given the devices that back it. *)
Definition entry_of (ds : list ib_dev) (o : option (string * bool)) : Prop :=
  match o with
  | None => ds = []
  | Some (dev, active) =>
      (∃ d, d ∈ ds ∧ ib_name d = dev ∧ port_active d = active) ∧ (active = false → ∀ d, d ∈ ds → ¬ port_active d)
  end.
Definition note_dev (m : gmap string (string * bool)) (d : ib_dev) : gmap string (string * bool) :=
  foldl (note_backing (ib_name d) (port_active d)) m (backing_netdevs d).

Lemma note_backing_ne dev a m nd nd' : nd ≠ nd' → note_backing dev a m nd !! nd' = m !! nd'.
Proof.
  intros Hne. unfold note_backing. destruct (m !! nd) as [[? was]|]; [|by rewrite lookup_insert_ne].
  destruct (a && negb was); [by rewrite lookup_insert_ne|done].
Qed.
Lemma note_backing_absent dev a m l nd : nd ∉ l → foldl (note_backing dev a) m l !! nd = m !! nd.
Proof.
  revert m. induction l as [|x l IH]; intros m; [done|]. intros [Hx Hl]%not_elem_of_cons. cbn.
  by rewrite IH, note_backing_ne.
Qed.
Lemma note_backing_once dev a m l nd :
  NoDup l → nd ∈ l → foldl (note_backing dev a) m l !! nd = note_backing dev a m nd !! nd.
Proof.
  intros Hn (l1 & l2 & ->)%list_elem_of_split. rewrite foldl_app. cbn.
  apply NoDup_app in Hn as (_ & Hd & [Hn2 _]%NoDup_cons).
  assert (Hn1 : nd ∉ l1) by (intros Hin; apply (Hd nd Hin), list_elem_of_here).
  rewrite note_backing_absent by done. pose proof (note_backing_absent dev a m l1 nd Hn1) as E.
  revert E. generalize (foldl (note_backing dev a) m l1). intros m1 E. unfold note_backing. rewrite E.
  destruct (m !! nd) as [[? was]|] eqn:Em; [|by rewrite !lookup_insert_eq].
  destruct (a && negb was); [by rewrite !lookup_insert_eq|by rewrite E].
Qed.
Lemma note_dev_entry ds m d nd :
  entry_of ds (m !! nd) → entry_of (ds ++ (if decide (nd ∈ backing_netdevs d) then [d] else [])) (note_dev m d !! nd).
Proof.
  intros He. unfold note_dev. destruct (decide _) as [Hin|Hin]; [|by rewrite app_nil_r, note_backing_absent].
  rewrite note_backing_once by (done || apply NoDup_sort_dedup).
  unfold note_backing. destruct (m !! nd) as [[dev was]|] eqn:Em.
  - destruct He as [(d0 & Hd0 & Hn0 & Ha0) Hno].
    destruct (port_active d) eqn:Ha, was; cbn; rewrite ?lookup_insert_eq, ?Em; cbn.
    + split; [|done]. exists d0. rewrite elem_of_app. auto.
    + split; [|done]. exists d. rewrite elem_of_app, list_elem_of_singleton. auto.
    + split; [|done]. exists d0. rewrite elem_of_app. auto.
    + split; [exists d0; rewrite elem_of_app; auto|]. intros _ e. rewrite elem_of_app, list_elem_of_singleton.
      intros [Hin'| ->]; [by apply Hno|rewrite Ha; intros []].
  - rewrite lookup_insert_eq. cbn in *. subst ds. split; [exists d; cbn; by rewrite list_elem_of_singleton|].
    intros Ha e. cbn. rewrite list_elem_of_singleton. intros ->. rewrite Ha. intros [].
Qed.
Definition backers (ds : list ib_dev) (nd : string) : list ib_dev := filter (λ d, nd ∈ backing_netdevs d) ds.
Lemma rdma_backed_go ds0 m ds nd :
  entry_of ds0 (m !! nd) → entry_of (ds0 ++ backers ds nd) (foldl note_dev m ds !! nd).
Proof.
  revert ds0 m. induction ds as [|d ds IH]; intros ds0 m He; cbn [foldl]; [by rewrite app_nil_r|].
  pose proof (IH _ _ (note_dev_entry _ _ d _ He)) as Hgo.
  rewrite <- app_assoc in Hgo. unfold backers in *. rewrite filter_cons. by destruct (decide _).
Qed.
Lemma rdma_backed_entry ib nd : entry_of (backers (default [] ib) nd) (rdma_backed ib !! nd).
Proof. by apply (rdma_backed_go []). Qed.
Lemma elem_of_backers ib nd d : d ∈ backers (default [] ib) nd ↔ backs ib nd d.
Proof. unfold backers, backs. rewrite list_elem_of_filter. tauto. Qed.

Lemma classify_kind_means ib hw n rdma k :
  classify_kind (rdma_backed ib) hw n = (rdma, k) → kind_means ib hw n rdma k.
Proof.
  unfold classify_kind. pose proof (rdma_backed_entry ib (nic_name n)) as He.
  destruct (rdma_backed ib !! nic_name n) as [[dev active]|]; cbn in He.
  - destruct He as [(d & Hd%elem_of_backers & Hn & Ha) Hno].
    destruct active; intros [= <- <-]; cbn.
    + exists d. by rewrite Ha, Hn.
    + split; [exists d; by rewrite Hn|]. intros e He. apply Hno; [done|by apply elem_of_backers].
  - assert (Hnone : ∀ d, ¬ backs ib (nic_name n) d).
    { intros d Hd%elem_of_backers. rewrite He in Hd. by apply elem_of_nil in Hd. }
    destruct (is_ethernet n) eqn:E; [destruct (hw !! nic_name n) eqn:Eh|]; intros [= <- <-]; cbn; rewrite ?E; auto.
Qed.

(** What a status reports of the NIC [n]. *)
Definition status_of (ib : ib_inventory) (addrs : netdev_map) (hw : gmap string string) (n : nic) (s : NicStatus) :
    Prop :=
  nst_netdev s = nic_name n ∧ nst_pci s = pci_of n ∧ nst_addrs s = default [] (addrs !! nic_name n) ∧
  kind_means ib hw n (nst_rdma s) (nst_kind s).
Lemma classify_one_of ib addrs hw n s :
  classify_one (rdma_backed ib) addrs hw n = Some s → nic_name n ≠ "lo" ∧ status_of ib addrs hw n s.
Proof.
  unfold classify_one. case_bool_decide; [done|]. destruct (classify_kind _ _ n) as [rdma k] eqn:E.
  intros [= <-]. split; [done|]. split_and!; [done..|]. by apply classify_kind_means.
Qed.
Lemma elem_of_classify nics ib addrs hw s :
  s ∈ classify (Some nics) ib addrs hw ↔ ∃ n, n ∈ nics ∧ classify_one (rdma_backed ib) addrs hw n = Some s.
Proof. cbn [classify]. by rewrite sort_by_perm, list_elem_of_omap. Qed.

(** The statuses [classify] reports are sorted by name, one for each NIC but
    the loopback, each with the PCI address and addresses of its NIC and with
    the verdict its meaning asks for: active when some backing RDMA device has an
    active port (and then it names such a device), inactive when devices back it
    and none is active, capable but disabled, soft-RoCE capable or unsupported
    only when no RDMA device backs it. *)
Lemma classify_spec (nics : list nic) (ib : ib_inventory) (addrs : netdev_map) (hw : gmap string string) :
  StronglySorted (λ a b, ole (nst_netdev a) (nst_netdev b)) (classify (Some nics) ib addrs hw) ∧
  (∀ n, n ∈ nics → nic_name n ≠ "lo" → ∃ s, s ∈ classify (Some nics) ib addrs hw ∧ status_of ib addrs hw n s) ∧
  (∀ s, s ∈ classify (Some nics) ib addrs hw → ∃ n, n ∈ nics ∧ nic_name n ≠ "lo" ∧ status_of ib addrs hw n s).
Proof.
  split_and!.
  - apply (sort_by_sorted nst_netdev).
  - intros n Hn Hlo. destruct (classify_one (rdma_backed ib) addrs hw n) as [s|] eqn:E.
    + exists s. split; [apply elem_of_classify; eauto|]. by apply classify_one_of in E as [_ E].
    + unfold classify_one in E. rewrite bool_decide_eq_false_2 in E by done. by destruct (classify_kind _ _ n).
  - intros s (n & Hn & E)%elem_of_classify. apply classify_one_of in E as [Hlo E]. eauto.
Qed.

(** ** Planned NIC actions *)

(** What the reconciler may do to a NIC, given the live state. *)
Definition action_allowed (nics : list nic) (ib : ib_inventory) (hw : gmap string string)
    (networks : list NicNetwork) (desired : list NicConfig) (a : NicAction) : Prop :=
  match a with
  | SetMtu nd mtu =>
      (∃ c, c ∈ desired ∧ nic_netdev c = as_str nd ∧ nic_mtu c = Some mtu) ∧
      ∃ net, net ∈ networks ∧ nn_netdev net = as_str nd ∧ nn_mtu net ≠ Some mtu
  | AddRxe nd =>
      (∃ c, c ∈ desired ∧ nic_netdev c = as_str nd ∧ nic_want_rxe c) ∧ (∀ d, ¬ backs ib (as_str nd) d) ∧
      ∃ n, n ∈ nics ∧ nic_name n = as_str nd ∧ is_ethernet n ∧ hw !! as_str nd = None
  | EnableRoce nd =>
      (∃ c, c ∈ desired ∧ nic_netdev c = as_str nd ∧ nic_want_roce c) ∧ (∀ d, ¬ backs ib (as_str nd) d) ∧
      ∃ n, n ∈ nics ∧ nic_name n = as_str nd ∧ is_ethernet n ∧ is_Some (hw !! as_str nd)
  end.
Lemma found_status nics ib addrs hw nd k :
  nst_kind <$> List.find (λ s, bool_decide (nst_netdev s = nd)) (classify (Some nics) ib addrs hw) = Some k →
  ∃ n rdma, n ∈ nics ∧ nic_name n = nd ∧ kind_means ib hw n rdma k.
Proof.
  intros (s & [Hs Hnd%bool_decide_eq_true]%find_Some_elem & ->)%fmap_Some.
  apply elem_of_classify in Hs as (n & Hn & [_ (E & _ & _ & Hk)]%classify_one_of).
  exists n, (nst_rdma s). split_and!; [done|by rewrite <- E|done].
Qed.
Lemma nic_action_allowed nics ib addrs hw networks desired c a :
  c ∈ desired → a ∈ nic_action c networks (classify (Some nics) ib addrs hw) →
  action_allowed nics ib hw networks desired a.
Proof.
  intros Hc. unfold nic_action. destruct (new NtNetdevName (nic_netdev c)) as [name|] eqn:En; [|by intros ?%elem_of_nil].
  apply new_Ok in En. intros [Ha|Ha]%elem_of_app.
  - destruct (nic_mtu c) as [mtu|] eqn:Em; [|by apply elem_of_nil in Ha].
    destruct (List.find _ networks) as [net|] eqn:Ef; [|by apply elem_of_nil in Ha].
    case_bool_decide as Hm; [|by apply elem_of_nil in Ha]. apply list_elem_of_singleton in Ha as ->.
    apply find_Some_elem in Ef as [Hin Hnd%bool_decide_eq_true]. rewrite <- En in Hnd. cbn. eauto 10.
  - destruct (_ <$> List.find _ _) as [k|] eqn:Ef; [|by apply elem_of_nil in Ha].
    apply found_status in Ef as (n & rdma & Hn & Hname & Hk). rewrite <- En in Hname.
    destruct k; try by apply elem_of_nil in Ha.
    + destruct (nic_want_roce c) eqn:Ew; [|by apply elem_of_nil in Ha]. apply list_elem_of_singleton in Ha as ->.
      destruct Hk as (Hb & He & Hh & _). rewrite Hname in Hb, Hh. cbn. split_and!; [exists c; by rewrite Ew|done|].
      exists n. by rewrite Hh.
    + destruct (nic_want_rxe c) eqn:Ew; [|by apply elem_of_nil in Ha]. apply list_elem_of_singleton in Ha as ->.
      destruct Hk as (Hb & He & Hh & _). rewrite Hname in Hb, Hh. cbn. split_and!; [exists c; by rewrite Ew|done|].
      by exists n.
Qed.

(** Every action planned for the live NICs is asked for by the configuration
    and still needed: an MTU is set only where the link reports another one, a
    soft-RoCE link is added only to an Ethernet NIC that no RDMA device backs and
    that is no RoCE hardware, and RoCE is enabled only on capable hardware that
    no RDMA device backs. *)
Lemma nic_actions_gated desired networks nics ib addrs hw a :
  a ∈ nic_actions desired networks (classify (Some nics) ib addrs hw) →
  action_allowed nics ib hw networks desired a.
Proof.
  unfold nic_actions. intros (l & Ha & (c & -> & Hc)%list_elem_of_fmap)%list_elem_of_join.
  by apply (nic_action_allowed nics ib addrs hw networks desired c).
Qed.
Definition demo_net : list nic :=
  [{| nic_name := "lo"; nic_device_link := None; nic_type := Some "772"; nic_vendor := None; nic_device := None |};
   {| nic_name := "eth1"; nic_device_link := Some "0000:02:00.0"; nic_type := Some "1"; nic_vendor := None;
      nic_device := None |};
   {| nic_name := "eth0"; nic_device_link := Some "0000:01:00.0"; nic_type := Some "1"; nic_vendor := None;
      nic_device := None |}].
Definition demo_ib : ib_inventory :=
  Some [{| ib_name := "rxe-eth0"; ib_parent := Some ("eth0" +:+ chr 10);
           ib_ports := Some [{| ibp_name := "1"; ibp_state := Some "4: ACTIVE"; ibp_ndevs := None |}] |}].
Definition demo_want (nd : string) : NicConfig :=
  {| nic_netdev := nd; nic_mtu := None; nic_want_rxe := true; nic_want_roce := false |}.
Lemma nic_actions_gated_witness :
  AddRxe (Refine "eth1" I) ∈ nic_actions [demo_want "eth0"; demo_want "eth1"] [] (classify (Some demo_net) demo_ib ∅ ∅) ∧
  ∀ d, ¬ backs demo_ib "eth1" d.
Proof.
  assert (H : nic_actions [demo_want "eth0"; demo_want "eth1"] [] (classify (Some demo_net) demo_ib ∅ ∅)
              = [AddRxe (Refine "eth1" I)]) by (vm_compute; reflexivity).
  split; [rewrite H; apply list_elem_of_here|].
  assert (Ha := nic_actions_gated [demo_want "eth0"; demo_want "eth1"] [] demo_net demo_ib ∅ ∅ (AddRxe (Refine "eth1" I))).
  rewrite H in Ha. exact (proj1 (proj2 (Ha (list_elem_of_here _ _)))).
Defined.
