(* ===== verification/Reconcile.v ===== *)
(** * The reconcile driver (greendotctl/src/reconcile.rs, net.rs,
    greendot-proto/src/config.rs)

    The configuration loader, the reads of the live state, the drift pre-check
    [drift] and the pass [run] with its areas. A panic of a renderer is a value:
    the pass ends there with nothing open. *)
From Stdlib Require Import Ascii String.
From stdpp Require Import base option list strings sets gmap pretty.
From S2P Require Import Prelude Ordered Validate IpAddr Types Desired Actual Render Task Fs World Hardware Nvmet Nfs Lio Nic.
#[local] Open Scope string_scope.
#[local] Open Scope list_scope.
#[local] Open Scope N_scope.

(** ** Configuration *)

Record Config : Type := {
  helper_socket : path;
  state_path : path;
  nvmet_root : path;
  lio_root : path;
  autoload_modules : bool }.
Definition Config_default : Config := {|
  helper_socket := ["run"; "greendotrdma"; "helper.sock"];
  state_path := ["var"; "lib"; "greendotrdma"; "state.toml"];
  nvmet_root := ["sys"; "kernel"; "config"; "nvmet"];
  lio_root := ["sys"; "kernel"; "config"; "target"];
  autoload_modules := true |}.

(** The TOML decoders ([toml::from_str] at the two document types). *)
Class Toml := {
  toml_config : string → result string Config;
  toml_desired : string → result string DesiredDoc }.
(** [fs::read_to_string] with its error. *)
Definition open_file (t : tree) (p : path) : state_file :=
  match t !! p with
  | Some (File s) => Text s
  | None => NotFound
  | Some _ => ReadError "Is a directory (os error 21)"
  end.
Definition context (what : string) (p : path) (e : string) : string := what +:+ " " +:+ show_abs p +:+ ": " +:+ e.
Definition load `{Toml} (cfg : option path) (t : tree) : result string Config :=
  match cfg with
  | None => Ok Config_default
  | Some p =>
      match open_file t p with
      | Text s => map_err (context "parsing" p) (toml_config s)
      | NotFound => Err (context "reading" p "No such file or directory (os error 2)")
      | ReadError m => Err (context "reading" p m)
      end
  end.
Definition read_desired_at `{Toml} (p : path) (t : tree) : result string Desired :=
  read_desired (λ s, map_err (context "parsing" p) (toml_desired s))
    (match open_file t p with ReadError m => ReadError (context "reading" p m) | f => f end).

(** ** Live state *)

(** What the sysfs and [getifaddrs] readers find, as views of the tree. *)
Class Live := {
  net_class : tree → inventory;
  ib_class : tree → Nic.ib_inventory;
  if_addrs : tree → Nic.ifaddrs }.
Definition NFSD_PORTLIST : path := ["proc"; "fs"; "nfsd"; "portlist"].
Definition NFS_EXPORTS_FILE : path := ["etc"; "exports.d"; "greendot.exports"].
Definition NFS_RDMA_PORT : u16 := lit 20049.
Definition NVMET_ROOT : path := ["sys"; "kernel"; "config"; "nvmet"].

Definition set_mtu (netdev : NetdevName) (mtu : u32) : TaskSpec :=
  spec_new "ip" ["link"; "set"; "dev"; as_str netdev; "mtu"; show_uint mtu].

Section driver.
Context {C : Client} {K : Kernel} {M : Machine} {J : JsonParser} {P : Lio.JsonPrinter} {T : Toml} {L : Live}.

Definition run_ip (args : list string) : op string :=
  c ← spawn "ip" args None [];
  mret (match c with
        | Ran output (Some 0%Z) => stdout_of output
        | _ => ""
        end).
Definition report (portlist exports_file : path) : op string :=
  c ← spawn "exportfs" ["-s"] None [];
  let exports := match c with Ran output _ => stdout_of output | NotStarted _ _ => "" end in
  op_get (λ t, Nfs.format_report t exports portlist exports_file).
(** Collecting pairs into a [HashMap]: the last one wins. *)
Definition collect {V} (l : list (string * V)) : gmap string V := list_to_map (reverse l).
Definition read_live_nics : op (list NicNetwork * list NicStatus) :=
  addr ← run_ip ["-j"; "addr"];
  route ← run_ip ["-j"; "route"; "show"; "default"];
  op_get (λ t,
    (Nic.networks_from_json addr route,
     Nic.classify (net_class t) (ib_class t) (Nic.netdev_addrs (if_addrs t)) (collect (roce_capable (net_class t))))).

(** ** The drift pre-check *)

Definition drift (cfg_path : option path) : op (panics (bool * bool * bool * bool)) :=
  cfg ← op_get (load cfg_path);
  match cfg with
  | Err _ => mret (Ok (false, false, false, false))
  | Ok cfg =>
      desired ← op_get (read_desired_at (state_path cfg));
      match desired with
      | Err _ => mret (Ok (false, false, false, false))
      | Ok desired =>
          pci_addrs ← op_get (λ t, Nic.pci_addrs (net_class t) (if_addrs t));
          actual_nvmet ← op_get (λ t, Nvmet.read t (nvmet_root cfg));
          match render_nvmet (des_nvme_exports desired) (des_listen desired) pci_addrs (foreign_port_ids actual_nvmet) with
          | Err p => mret (Err p)
          | Ok nvmet_desired =>
              let nvmet_ok := nvmet_satisfied nvmet_desired actual_nvmet in
              match render_lio (des_iscsi_exports desired) (des_listen desired) pci_addrs with
              | Err p => mret (Err p)
              | Ok lio_desired =>
                  lio_ok ← op_get (λ t, lio_satisfied lio_desired (Lio.read t (lio_root cfg)));
                  text ← report NFSD_PORTLIST NFS_EXPORTS_FILE;
                  let nfs_ok := nfs_satisfied (render_nfs (des_nfs_exports desired) NFS_RDMA_PORT) (Nfs.from_report text) in
                  '(nic_networks, nic_statuses) ← read_live_nics;
                  let nic_ok := nic_satisfied (des_nic_configs desired) nic_networks nic_statuses in
                  mret (Ok (nvmet_ok, lio_ok, nfs_ok, nic_ok))
              end
          end
      end
  end.

(** ** Applying *)

Definition area (satisfied : bool) (label : string) (apply : op SubStatus) : op unit :=
  if satisfied then mark_skipped label
  else in_subtask label (status ← apply; mret (tt, Complete status)).
Definition nvmet_apply (d : NvmetDesired) (root : path) : op SubStatus :=
  r ← lift (Nvmet.reconcile d root);
  match r with
  | Ok summary => _ ← print_out summary; mret Success
  | Err e =>
      _ ← println_err [err_msg e];
      _ ← set_result 1 (Some (err_msg e));
      mret Failed
  end.
Definition nic_step (a : NicAction) : op unit :=
  match a with
  | SetMtu netdev mtu =>
      in_subtask ("Set MTU " +:+ show_uint mtu +:+ " on " +:+ as_str netdev)
        (status ← run_into (set_mtu netdev mtu); mret (tt, Complete status))
  | AddRxe netdev => rxe_add netdev
  | EnableRoce netdev =>
      in_subtask ("Enable RoCE on " +:+ as_str netdev) (
        nics ← op_get net_class;
        status ← enable_into nics netdev;
        mret (tt, Complete status))
  end.
Fixpoint nic_steps (actions : list NicAction) : op unit :=
  match actions with
  | [] => mret tt
  | a :: actions => nic_step a ≫= λ _, nic_steps actions
  end.
Definition apply_nic (actions : list NicAction) : op unit :=
  match actions with
  | [] => mark_skipped "Apply NIC configuration"
  | _ => nic_steps actions
  end.

Fixpoint print_issues (issues : list string) : op unit :=
  match issues with
  | [] => mret tt
  | i :: issues => println_err [i] ≫= λ _, print_issues issues
  end.
Definition validate_desired (issues : list string) : op unit :=
  match issues with
  | [] => mret tt
  | _ =>
      in_subtask "Validate desired state" (
        _ ← print_issues issues;
        mret (tt, Fail (pretty (N.of_nat (length issues)) +:+ " desired-state entr"
                        +:+ (if (length issues =? 1)%nat then "y" else "ies")
                        +:+ " cannot be served as configured")))
  end.
Definition load_modules (wanted : list KernelModule) : op SubStatus :=
  nics ← op_get (λ t, rdma_driver_modules (net_class t));
  match ensure wanted nics with
  | Some spec => run_into spec
  | None => mret Success
  end.
Definition wanted_modules (d : Desired) : list KernelModule :=
  nvme_modules (des_nvme_exports d) ++ iscsi_modules (des_iscsi_exports d) ++ nfs_modules (des_nfs_exports d).

(** The pass proper, once the configuration and the desired state are loaded. *)
Definition pass (cfg : Config) (desired : Desired) : op (panics unit) :=
  _ ← validate_desired (render_issues (des_nvme_exports desired) (des_iscsi_exports desired) (des_nfs_exports desired));
  pci_addrs ← op_get (λ t, Nic.pci_addrs (net_class t) (if_addrs t));
  actual_nvmet ← op_get (λ t, Nvmet.read t (nvmet_root cfg));
  match render_nvmet (des_nvme_exports desired) (des_listen desired) pci_addrs (foreign_port_ids actual_nvmet) with
  | Err p => mret (Err p)
  | Ok nvmet_desired =>
      match render_lio (des_iscsi_exports desired) (des_listen desired) pci_addrs with
      | Err p => mret (Err p)
      | Ok lio_desired =>
          let nfs_desired := render_nfs (des_nfs_exports desired) NFS_RDMA_PORT in
          let nvmet_ok := nvmet_satisfied nvmet_desired actual_nvmet in
          lio_ok ← op_get (λ t, lio_satisfied lio_desired (Lio.read t (lio_root cfg)));
          text ← report NFSD_PORTLIST NFS_EXPORTS_FILE;
          let nfs_ok := nfs_satisfied nfs_desired (Nfs.from_report text) in
          '(nic_networks, nic_statuses) ← read_live_nics;
          let nic_acts := nic_actions (des_nic_configs desired) nic_networks nic_statuses in
          let wanted := wanted_modules desired in
          _ ← area (negb (autoload_modules cfg) || match wanted with [] => true | _ => false end)
                   "Load kernel modules" (load_modules wanted);
          _ ← area nvmet_ok "Apply NVMe-oF configuration" (nvmet_apply nvmet_desired NVMET_ROOT);
          _ ← area lio_ok "Apply iSCSI configuration" (run_into (Lio.apply_spec lio_desired));
          _ ← area nfs_ok "Apply NFS configuration" (Nfs.apply nfs_desired NFS_EXPORTS_FILE NFSD_PORTLIST);
          _ ← apply_nic nic_acts;
          mret (Ok tt)
      end
  end.
Definition run (cfg_path : option path) : op (panics unit) :=
  cfg ← op_get (load cfg_path);
  match cfg with
  | Err e => _ ← mark "Load config" (Fail e); mret (Ok tt)
  | Ok cfg =>
      desired ← op_get (read_desired_at (state_path cfg));
      match desired with
      | Err e => _ ← mark "Read desired state" (Fail e); mret (Ok tt)
      | Ok desired => pass cfg desired
      end
  end.
End driver.
