(* ===== verification/ReconcileFacts.v ===== *)
(** * What a reconcile pass leaves alone, and what it achieves

    The whole pass of [reconcile::run], composed from the areas: everything that
    is not ours survives it, a pass that completes without failure leaves no
    NVMe-oF drift (unless a subsystem is open to any host and lists hosts), and when the drift pre-check is clean the pass only looks. *)
From Stdlib Require Import Ascii String.
From stdpp Require Import base option list strings sets gmap pretty sorting.
From S2P Require Import Prelude Ordered Validate IpAddr Types Desired Actual Render Task Fs World Hardware Nvmet NvmetSafety NvmetConverge Traces Nfs NfsFacts Lio Nic Reconcile.
#[local] Open Scope string_scope.
#[local] Open Scope list_scope.
#[local] Open Scope N_scope.

(** ** Trees that agree on a set of paths *)

Definition steady (S : path → Prop) : relation tree := λ t t', wf t → wf t' ∧ ∀ q, S q → t' !! q = t !! q.
#[export] Instance steady_preorder S : PreOrder (steady S).
Proof.
  split; [intros t Ht; by split|]. intros t1 t2 t3 H1 H2 Ht. destruct (H1 Ht) as [Ht2 E1], (H2 Ht2) as [Ht3 E2].
  split; [done|]. intros q Hq. by rewrite E2, E1.
Qed.
Lemma respects_steady {A} (S X : path → Prop) (m : io A) :
  respects wf_rel m → keeps X m → (∀ q, S q → ¬ X q) → respects (steady S) m.
Proof. intros Hw Hk HX t n r t' n' H Ht. split; [by eapply Hw|]. intros q Hq. eapply Hk; [done|auto]. Qed.
Lemma steady_weaken (S S' : path → Prop) t t' : (∀ q, S q → S' q) → steady S' t t' → steady S t t'.
Proof. intros HS H Ht. destruct (H Ht) as [Hw E]. split; [done|]. intros q Hq. auto. Qed.

(** Where the daemon itself writes, the nvmet tree apart. *)
Definition EXPORTS_DIR : path := ["etc"; "exports.d"].
Definition scratch (q : path) : Prop :=
  below ["tmp"] q ∨ below ["run"; "greendotrdma"] q ∨ below q EXPORTS_DIR ∨ below EXPORTS_DIR q ∨ q = NFSD_PORTLIST.

Section steady_pass.
Context {C : Client} {K : Kernel} {M : Machine} {J : JsonParser} {P : Lio.JsonPrinter} {T : Toml} {L : Live}.
Context (S : path → Prop) (Hsc : ∀ q, S q → ¬ scratch q).
Context (Hproc : ∀ n cmd args stdin env t, steady S t (proc n cmd args stdin env t).2).
Abbreviation ST := (on_tree (steady S)).

Lemma steady_call (p : path) {A} (m : io A) :
  scratch p → respects wf_rel m → keeps (λ q, q = p) m → respects (steady S) m.
Proof. intros Hp Hw Hk. eapply respects_steady; [done..|]. intros q Hq ->. by apply (Hsc p). Qed.
Lemma steady_prepare spec : op_respects ST (prepare_stdin spec).
Proof.
  intros w r w' H. unfold prepare_stdin in H.
  destruct (ts_stdin_to_file spec), (ts_stdin spec) as [content|]; try (injection H as <- <-; by unfold on_tree).
  destruct (write_file _ _ _ _) as [[x t] n] eqn:E.
  assert (Ht : steady S (w_tree w) t).
  { eapply (steady_call _ (write_file _ _)); [|apply wf_write|apply keeps_write|exact E].
    unfold temp_dir. destruct (is_dir _ _); [right; left|left]; done. }
  destruct x; injection H as <- <-; exact Ht.
Qed.
Lemma prepared_scratch spec w args pipe temp w' :
  prepare_stdin spec w = (Ok (Ok (args, pipe, Some temp)), w') → scratch temp.
Proof.
  unfold prepare_stdin. intros H. destruct (ts_stdin_to_file spec), (ts_stdin spec) as [content|]; try done.
  destruct (write_file _ _ _ _) as [[[x|x] t] n]; [|done]. injection H as <- <- <- <-.
  unfold temp_dir. destruct (is_dir _ _); [right; left|left]; done.
Qed.
Lemma steady_drop temp : (∀ p, temp = Some p → scratch p) → op_respects ST (drop_temp temp).
Proof.
  intros Hp. destruct temp as [p|]; cbn; repeat op_step. eapply steady_call; [by apply Hp|apply wf_remove_file|apply keeps_remove_file].
Qed.
Lemma steady_with_temp {A} temp (m : op A) :
  (∀ p, temp = Some p → scratch p) → op_respects ST m → op_respects ST (with_temp temp m).
Proof.
  intros Hp Hm w r w' H. unfold with_temp in H. destruct (m w) as [r1 w1] eqn:E1.
  destruct (drop_temp temp w1) as [r2 w2] eqn:E2. injection H as <- <-.
  apply Hm in E1. apply (steady_drop temp Hp) in E2. unfold on_tree in *. by etrans.
Qed.
Lemma steady_run_into spec : op_respects ST (run_into spec).
Proof.
  unfold run_into. apply op_respects_bind; [apply _|apply tree_println_out; apply _|intros _].
  intros w r w' [(e & H & ->)|(p & w1 & H1 & H)]%op_bind_run; [by apply steady_prepare in H|].
  assert (H1' := H1). apply steady_prepare in H1'. unfold on_tree in *. etrans; [exact H1'|].
  destruct p as [[[args pipe] temp]|msg].
  - revert H. apply steady_with_temp.
    + intros q ->. by eapply prepared_scratch.
    + apply op_respects_bind; [apply _|apply tree_stream_child; [apply _|intros; apply Hproc]|]. intros [[st ex] er].
      repeat op_step. apply tree_set_result, _.
  - revert H. apply (op_respects_bind ST); [apply tree_println_err, _|intros _].
    apply op_respects_bind; [apply _|apply tree_set_result, _|intros _; apply op_respects_ret, _].
Qed.
Lemma steady_run name spec : op_respects ST (World.run name spec).
Proof.
  unfold World.run. intros w r w' [(e & H & ->)|(p & w1 & H1 & H)]%op_bind_run; [by apply steady_prepare in H|].
  assert (H1' := H1). apply steady_prepare in H1'. unfold on_tree in *. etrans; [exact H1'|].
  destruct p as [[[args pipe] temp]|msg].
  - revert H. apply steady_with_temp.
    + intros q ->. by eapply prepared_scratch.
    + apply tree_in_command, op_respects_bind; [apply _|apply tree_stream_child; [apply _|intros; apply Hproc]|]. intros [[st ex] er].
      repeat op_step. apply tree_set_result, _.
  - revert H. apply tree_in_command, (op_respects_bind ST); [apply tree_println_err, _|intros _].
    apply op_respects_bind; [apply _|apply tree_set_result, _|intros _; apply op_respects_ret, _].
Qed.
Lemma steady_run_all acc specs : op_respects ST (run_all acc specs).
Proof.
  revert acc. induction specs as [|spec specs IH]; intros acc; cbn [run_all]; [by apply op_respects_ret, _|].
  apply op_respects_bind; [apply _|apply steady_run_into|intros s; apply IH].
Qed.
Lemma steady_spawn cmd args stdin env : op_respects ST (spawn cmd args stdin env).
Proof. apply tree_spawn. intros. apply Hproc. Qed.

(** ** NFS *)

Lemma steady_persist d : respects (steady S) (persist d NFS_EXPORTS_FILE).
Proof.
  assert (Hf : scratch NFS_EXPORTS_FILE) by (do 3 right; left; done).
  assert (Ht : scratch (tmp_of NFS_EXPORTS_FILE)) by (do 3 right; left; done).
  unfold persist, write_exports_file. repeat respects_step.
  - eapply steady_call; [exact Hf|apply wf_remove_file|apply keeps_remove_file].
  - eapply respects_steady; [apply wf_create_dir_all|apply keeps_create_dir_all|].
    intros q Hq Hb. apply (Hsc q Hq). do 2 right; left. exact Hb.
  - eapply steady_call; [exact Ht|apply wf_write|apply keeps_write].
  - eapply respects_steady; [apply wf_rename|apply keeps_rename|].
    intros q Hq [->| ->]; by eapply Hsc.
Qed.
Lemma wf_open_append p : respects wf_rel (open_append p).
Proof.
  apply wf_syscall. intros t Hwf Hp. destruct (present t p) eqn:Hpr; [done|]. apply present_false in Hpr. rewrite Hpr in Hp.
  destruct (is_dir t (parent p)) eqn:Hd; [|done]. apply wf_insert; [done|by apply is_dir_true|left; congruence].
Qed.
Lemma wf_append_to p data : respects wf_rel (append_to p data).
Proof.
  apply wf_syscall. intros t Hwf Hp. destruct (t !! p) as [[|s|]|] eqn:E; try done.
  apply wf_insert; [done| |left; congruence]. destruct (decide (p = [])) as [->|Hne]; [done|].
  destruct p as [|c p _] using rev_ind; [done|]. unfold parent. rewrite removelast_last. apply Hwf with c. by eexists.
Qed.
Lemma keeps_open_append p : keeps (λ q, q = p) (open_append p).
Proof. apply keeps_syscall. intros t q Hq. destruct (present t p); [done|]. by rewrite lookup_insert_ne. Qed.
Lemma keeps_append_to p data : keeps (λ q, q = p) (append_to p data).
Proof. apply keeps_syscall. intros t q Hq. destruct (t !! p) as [[]|]; try done. by rewrite lookup_insert_ne. Qed.
Lemma steady_listener port : respects (steady S) (ensure_portlist_rdma NFSD_PORTLIST port).
Proof.
  assert (Hp : scratch NFSD_PORTLIST) by (by do 4 right).
  unfold ensure_portlist_rdma. repeat respects_step;
    (eapply steady_call; [exact Hp| |]); apply wf_open_append || apply wf_append_to || apply keeps_open_append || apply keeps_append_to.
Qed.
Lemma steady_nfs_apply d : op_respects ST (Nfs.apply d NFS_EXPORTS_FILE NFSD_PORTLIST).
Proof.
  unfold Nfs.apply, assert_listener. repeat op_step;
    try (apply tree_println_err, _); try (apply tree_println_out, _); try (apply tree_print_out, _);
    try (apply tree_set_result, _); try apply steady_run_all; try apply steady_run_into;
    [apply steady_persist|apply steady_listener].
Qed.

(** ** The areas *)

Lemma steady_area b label m : op_respects ST m → op_respects ST (area b label m).
Proof. intros Hm. unfold area. destruct b; [apply tree_mark_skipped, _|]. apply tree_in_command. repeat op_step. exact Hm. Qed.
Lemma steady_enable nics netdev : op_respects ST (enable_into nics netdev).
Proof.
  unfold enable_into. repeat op_step;
    try (apply tree_println_err, _); try (apply tree_println_out, _); try (apply tree_print_out, _);
    try (apply tree_set_result, _); try apply steady_run_all.
  apply tree_capture_into; [apply _|intros; apply Hproc].
Qed.
Lemma steady_nic_step a : op_respects ST (nic_step a).
Proof.
  destruct a; cbn [nic_step]; [apply tree_in_command; repeat op_step; apply steady_run_into| |
    apply tree_in_command; repeat op_step; apply steady_enable].
  unfold rxe_add. repeat op_step; apply steady_run.
Qed.
Lemma steady_apply_nic l : op_respects ST (apply_nic l).
Proof.
  assert (Hs : ∀ l, op_respects ST (nic_steps l)).
  { clear l. intros l. induction l as [|a l IH]; cbn [nic_steps]; [by apply op_respects_ret, _|].
    apply op_respects_bind; [apply _|apply steady_nic_step|intros _; exact IH]. }
  unfold apply_nic. destruct l; [apply tree_mark_skipped, _|apply Hs].
Qed.
Lemma steady_load_modules wanted : op_respects ST (load_modules wanted).
Proof. unfold load_modules. repeat op_step. apply steady_run_into. Qed.
Lemma steady_report p e : op_respects ST (report p e).
Proof. unfold report. repeat op_step. apply steady_spawn. Qed.
Lemma steady_live : op_respects ST read_live_nics.
Proof. unfold read_live_nics, run_ip. repeat op_step; apply steady_spawn. Qed.
Lemma validate_tree issues : op_respects (on_tree eq) (validate_desired issues).
Proof.
  unfold validate_desired. destruct issues as [|i issues]; [by apply op_respects_ret, _|].
  apply tree_in_command. repeat op_step. generalize (i :: issues). clear. intros l.
  induction l as [|i l IH]; cbn [print_issues]; [by apply op_respects_ret, _|].
  apply op_respects_bind; [apply _|apply tree_println_err, _|intros _; exact IH].
Qed.

(** The NVMe-oF area, applied: one run of the configfs driver, whose error fails
    the task. *)
Lemma nvmet_area_run label d root w r w' :
  area false label (nvmet_apply d root) w = (r, w') →
  ∃ r0 n, reconcile d root (w_tree w) (w_clock w) = (r0, w_tree w', n) ∧
    (r = Ok tt → (∃ msg, r0 = Ok msg) ∨ failed w').
Proof.
  unfold area, in_subtask, in_command. intros H.
  match type of H with context [(nvmet_apply d root ≫= ?k) ?w0] => set (w1 := w0) in *;
    destruct ((nvmet_apply d root ≫= k) w1) as [r1 w2] eqn:E end.
  assert (Hf : failed w' ∨ r ≠ Ok tt ∨ ∃ fin, r1 = Ok (tt, fin) ∧ end_status fin ≠ Failed).
  { destruct r1 as [[[] fin]|e]; injection H as <- <-; [|right; left; done].
    destruct (decide (end_status fin = Failed)) as [Hst|]; [left|right; right; eauto].
    unfold failed. cbn [w_task set_task]. rewrite agg_finish_sub, Hst. f_equal. apply status_fold_failed_r. }
  assert (Ht : w_tree w' = w_tree w2) by (destruct r1 as [[[] fin]|e]; by injection H as <- <-).
  clear H. unfold nvmet_apply in E. apply op_bind_run in E as [(e & E & ->)|(st & w3 & E3 & E)].
  - apply lift_step in E as (x & t & n & Hr & E). exists x, n. rewrite Ht.
    assert (w_tree w2 = t) as ->; [|split; [exact Hr|by destruct Hf as [?|[?|(? & [=] & _)]]; auto]].
    destruct x as [msg|x]; apply op_bind_run in E as [(e' & E & _)|(u & w4 & E4 & E)].
    + by apply (tree_print_out eq) in E.
    + apply (tree_print_out eq) in E4. by injection E as _ <-.
    + by apply (tree_println_err eq) in E.
    + apply (tree_println_err eq) in E4. by apply op_bind_run in E as [(e2 & [=] & _)|(u2 & w5 & [= <- <-] & [=])].
  - injection E as <- <-. apply lift_step in E3 as (x & t & n & Hr & E3). exists x, n.
    destruct x as [msg|x]; apply op_bind_Ok in E3 as (u & w4 & E4 & E3).
    + apply (tree_print_out eq) in E4. injection E3 as <- <-. split; [|eauto]. rewrite Ht. unfold on_tree in E4. rewrite <- E4. exact Hr.
    + apply (tree_println_err eq) in E4. apply op_bind_Ok in E3 as (u2 & w5 & [= <- <-] & [= <- <-]). split.
      * rewrite Ht. cbn. unfold on_tree in E4. rewrite <- E4. exact Hr.
      * destruct Hf as [?|[?|(? & [= <-] & Hs)]]; [auto|done|by destruct Hs].
Qed.

(** A failed task stays failed through the rest of the pass. *)
Ltac failed_tac := repeat first
  [ op_step | apply failed_in_command | apply failed_println_err | apply failed_println_out | apply failed_print_out
  | apply failed_set_result | apply failed_run_into | apply failed_capture_into | apply failed_mark_skipped ].
Lemma failed_run_all acc specs : op_respects stays_failed (run_all acc specs).
Proof. revert acc. induction specs as [|spec specs IH]; intros acc; cbn [run_all]; failed_tac. apply IH. Qed.
Lemma failed_area b label m : op_respects stays_failed m → op_respects stays_failed (area b label m).
Proof. intros Hm. unfold area. destruct b; failed_tac. exact Hm. Qed.
Lemma failed_nfs_apply d e p : op_respects stays_failed (Nfs.apply d e p).
Proof. unfold Nfs.apply, assert_listener. failed_tac; apply failed_run_all. Qed.
Lemma failed_apply_nic l : op_respects stays_failed (apply_nic l).
Proof.
  assert (Hs : ∀ l, op_respects stays_failed (nic_steps l)).
  { clear l. intros l. induction l as [|a l IH]; cbn [nic_steps]; [by apply op_respects_ret, _|].
    apply op_respects_bind; [apply _| |intros _; exact IH].
    destruct a; cbn [nic_step]; unfold rxe_add, enable_into; failed_tac; apply failed_run_all. }
  unfold apply_nic. destruct l; [apply failed_mark_skipped|apply Hs].
Qed.

(** Looking, and the areas that follow NVMe-oF. *)
Definition tail_areas (lio_ok nfs_ok : bool) (ld : LioDesired) (nd : NfsDesired) (acts : list NicAction) : op (panics unit) :=
  _ ← area lio_ok "Apply iSCSI configuration" (run_into (Lio.apply_spec ld));
  _ ← area nfs_ok "Apply NFS configuration" (Nfs.apply nd NFS_EXPORTS_FILE NFSD_PORTLIST);
  _ ← apply_nic acts;
  mret (Ok tt).
Lemma steady_tail a b ld nd acts : op_respects ST (tail_areas a b ld nd acts).
Proof.
  unfold tail_areas. repeat op_step; [apply steady_area, steady_run_into|apply steady_area, steady_nfs_apply|apply steady_apply_nic].
Qed.
Lemma failed_tail a b ld nd acts : op_respects stays_failed (tail_areas a b ld nd acts).
Proof.
  unfold tail_areas. repeat op_step; [apply failed_area, failed_run_into|apply failed_area, failed_nfs_apply|apply failed_apply_nic].
Qed.

(** What a pass comes to: nothing but steady steps, or those and one run of the
    configfs driver on the rendered state. *)
Definition rendered (cfg : Config) (desired : Desired) (t : tree) : panics NvmetDesired :=
  render_nvmet (des_nvme_exports desired) (des_listen desired) (Nic.pci_addrs (net_class t) (if_addrs t))
    (foreign_port_ids (Nvmet.read t (nvmet_root cfg))).
Definition rendered_lio (desired : Desired) (t : tree) : panics LioDesired :=
  render_lio (des_iscsi_exports desired) (des_listen desired) (Nic.pci_addrs (net_class t) (if_addrs t)).
Lemma pass_run cfg desired w r w' :
  pass cfg desired w = (r, w') →
  steady S (w_tree w) (w_tree w') ∧ r ≠ Ok (Ok tt) ∨
  ∃ d ld w1, rendered cfg desired (w_tree w) = Ok d ∧ rendered_lio desired (w_tree w) = Ok ld ∧
    steady S (w_tree w) (w_tree w1) ∧
    (nvmet_satisfied d (Nvmet.read (w_tree w) (nvmet_root cfg)) = true ∧ steady S (w_tree w1) (w_tree w') ∨
     nvmet_satisfied d (Nvmet.read (w_tree w) (nvmet_root cfg)) = false ∧
     ∃ r0 t2 n2, reconcile d NVMET_ROOT (w_tree w1) (w_clock w1) = (r0, t2, n2) ∧ steady S t2 (w_tree w') ∧
       (r = Ok (Ok tt) → ¬ failed w' → ∃ msg, r0 = Ok msg)).
Proof.
  unfold pass. intros [(e & H & ->)|(u & wv & Hv & H)]%op_bind_run.
  { apply validate_tree in H. unfold on_tree in H. rewrite H. by left. }
  apply validate_tree in Hv. unfold on_tree in Hv. rewrite Hv. clear Hv w u.
  apply get_bind, get_bind in H. cbv beta in H. unfold rendered, rendered_lio.
  destruct (render_nvmet _ _ _ _) as [d|p]; [|injection H as <- <-; by left].
  destruct (render_lio _ _ _) as [ld|p]; [|injection H as <- <-; by left].
  cbv zeta in H. apply get_bind in H.
  apply op_bind_run in H as [(e & H & ->)|(text & w1 & H1 & H)]; [apply steady_report in H; by left|].
  apply op_bind_run in H as [(e & H & ->)|([nets stats] & w2 & H2 & H)]; [apply steady_live in H; left; split; [by etrans; [eapply steady_report|]|done]|].
  apply op_bind_run in H as [(e & H & ->)|(u & w3 & H3 & H)].
  { apply (steady_area _ _ _ (steady_load_modules _)) in H. left. split; [|done].
    etrans; [by eapply steady_report|]. etrans; [by eapply steady_live|done]. }
  assert (Hs : steady S (w_tree wv) (w_tree w3)).
  { etrans; [by eapply steady_report|]. etrans; [by eapply steady_live|].
    by eapply (steady_area _ _ _ (steady_load_modules _)). }
  clear H1 H2 H3. right. exists d, ld, w3. do 3 (split; [done|]).
  destruct (nvmet_satisfied d _); [left; split; [done|]|right; split; [done|]].
  - apply op_bind_run in H as [(e & H & ->)|(u' & w4 & H4 & H)]; [discriminate H|].
    injection H4 as _ <-. by apply steady_tail in H.
  - apply op_bind_run in H as [(e & H & ->)|(u' & w4 & H4 & H)].
    + apply nvmet_area_run in H as (r0 & n & Hr & _). by exists r0, (w_tree w'), n.
    + apply nvmet_area_run in H4 as (r0 & n & Hr & Ho). exists r0, (w_tree w4), n. split; [done|].
      change (tail_areas (lio_satisfied ld (Lio.read (w_tree wv) (lio_root cfg)))
        (nfs_satisfied (render_nfs (des_nfs_exports desired) NFS_RDMA_PORT) (from_report text)) ld
        (render_nfs (des_nfs_exports desired) NFS_RDMA_PORT) (nic_actions (des_nic_configs desired) nets stats) w4 = (r, w')) in H.
      split; [by eapply steady_tail|]. intros _ Hnf. destruct u'. destruct (Ho eq_refl) as [?|Hf]; [done|].
      destruct Hnf. by eapply failed_tail.
Qed.
End steady_pass.

(** ** Everything foreign survives a pass *)

Definition nvmet_object (q : path) : Prop := ∃ a b p, q = NVMET_ROOT ++ a :: b :: p.
Lemma nvmet_object_kept q : nvmet_object q → ¬ scratch q.
Proof. intros (a & b & p & ->) H. unfold scratch in H. cbn in H. naive_solver. Qed.

Lemma ole_antisymm `{OrderedLaw A} (a b : A) : ole a b → ole b a → a = b.
Proof.
  rewrite !ole_lteq. intros [H1|?] [H2|?]; try done. exfalso. unfold olt in *. rewrite ocmp_antisym, H1 in H2. done.
Qed.
Lemma sort_unique `{OrderedLaw A} (l k : list A) : l ≡ₚ k → sort l = sort k.
Proof.
  intros Hp. assert (AntiSymm (=) (ole (A:=A))) by (intros x y; apply ole_antisymm).
  apply (StronglySorted_unique ole); [apply sort_sorted..|]. by rewrite !sort_perm.
Qed.
Lemma dir_entries_same t t' p :
  wf t → wf t' → (∀ c, t' !! (p ++ [c]) = t !! (p ++ [c])) → dir_entries t' p = dir_entries t p.
Proof.
  intros Hw Hw' E. assert (Hp : entries t' p ≡ₚ entries t p).
  { apply NoDup_Permutation; [apply entries_NoDup..|]. intros c. by rewrite !elem_of_entries, E. }
  unfold dir_entries. rewrite (sort_unique _ _ Hp).
  destruct (entries t p) as [|c l] eqn:El; [by destruct (is_dir t' p), (is_dir t p)|].
  assert (Hc : is_Some (t !! (p ++ [c]))) by (apply elem_of_entries; rewrite El; left).
  assert (Hc' : is_Some (t' !! (p ++ [c]))) by by rewrite E.
  apply Hw in Hc. apply Hw' in Hc'. by destruct (is_dir t p), (is_dir t' p).
Qed.
Lemma omap_same {A B} (f g : A → option B) (l : list A) : (∀ x, f x = g x) → omap f l = omap g l.
Proof. intros E. induction l as [|x l IH]; [done|]. cbn. by rewrite E, IH. Qed.
Section read_steady.
Context (t t' : tree) (Hw : wf t) (Hs : steady nvmet_object t t').
Lemma object_same a b p : t' !! (NVMET_ROOT ++ a :: b :: p) = t !! (NVMET_ROOT ++ a :: b :: p).
Proof. destruct (Hs Hw) as [_ E]. apply E. by exists a, b, p. Qed.
Lemma object_trim a b p : read_trim t' (NVMET_ROOT ++ a :: b :: p) = read_trim t (NVMET_ROOT ++ a :: b :: p).
Proof. unfold read_trim, read_to_string. by rewrite object_same. Qed.
Lemma object_entries a p : dir_entries t' (NVMET_ROOT ++ a :: p) = dir_entries t (NVMET_ROOT ++ a :: p).
Proof.
  apply dir_entries_same; [done|by apply Hs|]. intros c. rewrite <- app_assoc. destruct p; apply object_same.
Qed.
Lemma read_steady : Nvmet.read t' NVMET_ROOT = Nvmet.read t NVMET_ROOT.
Proof.
  unfold Nvmet.read. rewrite !object_entries. f_equal.
  - apply list_fmap_ext. intros _ nqn _. unfold read_subsys. rewrite <- !app_assoc. cbn [app].
    rewrite object_trim, !object_entries. f_equal. apply omap_same. intros ns. unfold read_ns.
    rewrite <- !app_assoc. cbn [app]. by rewrite !object_trim.
  - apply omap_same. intros id. unfold read_port. rewrite <- !app_assoc. cbn [app].
    by rewrite !object_trim, object_entries.
Qed.
End read_steady.

Section theorems.
Context {C : Client} {K : Kernel} {M : Machine} {J : JsonParser} {P : Lio.JsonPrinter} {T : Toml} {L : Live}.

Lemma run_cases cfg_path w r w' :
  run cfg_path w = (r, w') →
  w_tree w' = w_tree w ∧ failed w' ∨
  ∃ cfg desired, load cfg_path (w_tree w) = Ok cfg ∧ read_desired_at (state_path cfg) (w_tree w) = Ok desired ∧
    pass cfg desired w = (r, w').
Proof.
  assert (Hm : ∀ name e, (mark name (Fail e) ≫= λ _, mret (Ok tt)) w = (r, w') → w_tree w' = w_tree w ∧ failed w').
  { intros name e [(? & H & _)|(u & w1 & H & [= _ <-])]%op_bind_run; (split; [by eapply mark_tree|by eapply mark_failed]). }
  unfold run. intros H%get_bind. destruct (load cfg_path _) as [cfg|e]; [|left; by eapply Hm].
  apply get_bind in H. destruct (read_desired_at _ _) as [desired|e] eqn:Ed; [|left; by eapply Hm].
  right. by exists cfg, desired.
Qed.


(** The files and objects that the next pass reads. *)
Definition consulted (cfg_path : option path) (cfg : Config) (q : path) : Prop :=
  nvmet_object q ∨ q = state_path cfg ∨ cfg_path = Some q.
Definition written (q : path) : Prop := scratch q ∨ below NVMET_ROOT q ∨ below q NVMET_ROOT.
Lemma reconcile_outside d t n r t' n' :
  ours_only d → wf t → reconcile d NVMET_ROOT t n = (r, t', n') → ∀ q, ¬ written q → t' !! q = t !! q.
Proof.
  intros Ho Hw Hr q Hq. destruct (reconcile_safe _ _ _ _ _ _ _ Ho Hr Hw) as [_ Hf].
  destruct (Hf q) as [|(HC & _ & _)]; [|done|].
  - intros Hx. apply Hq. right; left. destruct Hx as [(m & _ & Hb)|(port & _ & Hb & _)]; by eapply below_app_inv.
  - exfalso. apply Hq. right. destruct HC as [HC|[HC|[HC|(h & _ & ->)]]];
      [..|left; apply below_app]; apply below_split in HC; tauto.
Qed.
Lemma open_same t t' p : t' !! p = t !! p → open_file t' p = open_file t p.
Proof. unfold open_file. by intros ->. Qed.
Lemma canonical_steady t t' : wf t → steady nvmet_object t t' → canonical_ports NVMET_ROOT t → canonical_ports NVMET_ROOT t'.
Proof.
  intros Hw Hs Hc port id Hp. apply Hc. unfold port_path in *. by rewrite <- (object_same _ _ Hw Hs "ports" port []).
Qed.
Lemma drift_eval cfg_path cfg desired d ld w :
  load cfg_path (w_tree w) = Ok cfg → read_desired_at (state_path cfg) (w_tree w) = Ok desired →
  rendered cfg desired (w_tree w) = Ok d → rendered_lio desired (w_tree w) = Ok ld →
  ∃ nfs_ok nic_ok wd, drift cfg_path w =
    (Ok (Ok (nvmet_satisfied d (Nvmet.read (w_tree w) (nvmet_root cfg)),
             lio_satisfied ld (Lio.read (w_tree w) (lio_root cfg)), nfs_ok, nic_ok)), wd).
Proof.
  intros Hc Hd Hr Hl. unfold drift, rendered, rendered_lio in *.
  unfold mbind at 1, op_bind at 1, op_get at 1. rewrite Hc.
  unfold mbind at 1, op_bind at 1, op_get at 1. rewrite Hd.
  unfold mbind at 1, op_bind at 1, op_get at 1. unfold mbind at 1, op_bind at 1, op_get at 1. rewrite Hr, Hl.
  cbv zeta. unfold mbind, op_bind, op_get, report, read_live_nics, run_ip, spawn, mbind, op_bind, op_get, mret, op_ret.
  destruct (proc _ "exportfs" _ _ _ _) as [c1 t1]. cbn [w_tree w_clock].
  destruct (proc _ "ip" ["-j"; "addr"] _ _ _) as [c2 t2]. cbn [w_tree w_clock].
  destruct (proc _ "ip" _ _ _ _) as [c3 t3]. by eexists _, _, _.
Qed.

(** C3: what the next drift check says of NVMe-oF after a reconcile pass that completed
    without failure. The pass ran with the nvmet tree at its default place; the exports
    have distinct names and the port directories carry canonical numbers; the
    configuration and the state file are none of the files a pass writes, the commands
    are relied on for leaving the nvmet objects, the configuration and the desired state
    alone, and the addresses of the physical ports have not moved meanwhile. Then the
    drift check, run on the state the pass left, completes, and it reports the NVMe-oF
    area satisfied, so that the next pass skips it, if and only if none of the rendered
    subsystems is open to any host and lists hosts all the same (a form can ask for
    that, and such a pass is repeated for ever), or the area was satisfied already
    before the pass, which skipped it. *)
Theorem pass_converges cfg_path cfg desired w w' :
  wf (w_tree w) → canonical_ports NVMET_ROOT (w_tree w) →
  load cfg_path (w_tree w) = Ok cfg → nvmet_root cfg = NVMET_ROOT →
  read_desired_at (state_path cfg) (w_tree w) = Ok desired → distinct_exports (des_nvme_exports desired) →
  (∀ q, q = state_path cfg ∨ cfg_path = Some q → ¬ written q) →
  (∀ n cmd args stdin env t, steady (consulted cfg_path cfg) t (proc n cmd args stdin env t).2) →
  run cfg_path w = (Ok (Ok tt), w') → ¬ failed w' →
  Nic.pci_addrs (net_class (w_tree w')) (if_addrs (w_tree w')) = Nic.pci_addrs (net_class (w_tree w)) (if_addrs (w_tree w)) →
  ∃ d nvme_ok lio_ok nfs_ok nic_ok wd,
    rendered cfg desired (w_tree w') = Ok d ∧ drift cfg_path w' = (Ok (Ok (nvme_ok, lio_ok, nfs_ok, nic_ok)), wd) ∧
    (nvme_ok = true ↔ agreeing_acls d ∨ nvmet_satisfied d (Nvmet.read (w_tree w) NVMET_ROOT) = true).
Proof.
  intros Hwf Hcan Hcfg Hroot Hdes Hco Hout Hproc Hrun Hnf Hpci.
  apply run_cases in Hrun as [[_ ?]|(cfg' & desired' & Ec & Ed & H)]; [done|].
  rewrite Hcfg in Ec. injection Ec as <-. rewrite Hdes in Ed. injection Ed as <-.
  assert (Hsc : ∀ q, consulted cfg_path cfg q → ¬ scratch q).
  { intros q [Hq|Hq]; [by apply nvmet_object_kept|]. intros Hs. apply (Hout q Hq). by left. }
  assert (Hob : ∀ t t', steady (consulted cfg_path cfg) t t' → steady nvmet_object t t').
  { intros t t'. apply steady_weaken. by left. }
  apply (pass_run _ Hsc Hproc) in H as [[_ ?]|(d & ld & w1 & Hd & Hl & Hs1 & Hn)]; [done|].
  assert (Hfin : rendered cfg desired (w_tree w') = Ok d ∧ 
    (nvmet_satisfied d (Nvmet.read (w_tree w') NVMET_ROOT) = true ↔
     agreeing_acls d ∨ nvmet_satisfied d (Nvmet.read (w_tree w) NVMET_ROOT) = true) ∧
    ∀ q, q = state_path cfg ∨ cfg_path = Some q → w_tree w' !! q = w_tree w !! q).
  { unfold rendered in *. rewrite Hpci. rewrite Hroot in *. destruct Hn as [[Hsat Hs]|(Hsat0 & r0 & t2 & n2 & Hr & Hs & Hok)].
    - assert (Hs' : steady (consulted cfg_path cfg) (w_tree w) (w_tree w')) by by etrans.
      rewrite (read_steady _ _ Hwf (Hob _ _ Hs')), Hsat. split_and!; [done|by split; auto|]. intros q Hq. apply Hs'; [done|by right].
    - destruct (Hok eq_refl Hnf) as [msg ->]. destruct (Hs1 Hwf) as [Hw1 E1].
      rewrite <- (read_steady _ _ Hwf (Hob _ _ Hs1)) in Hd.
      destruct (pass_fixpoint _ _ _ _ _ _ _ _ _ _ Hw1 (canonical_steady _ _ Hwf (Hob _ _ Hs1) Hcan) Hco Hd Hr) as [Hd2 Hsat].
      pose proof (render_ours_only _ _ _ _ _ Hd) as Ho.
      assert (Hw2 : wf t2) by by eapply reconcile_safe. rewrite (read_steady _ _ Hw2 (Hob _ _ Hs)).
      rewrite Hsat, Hsat0. split_and!; [done|split; [by left|by intros [?|?]]|]. intros q Hq. destruct (Hs Hw2) as [_ E2]. rewrite E2 by by right.
      rewrite (reconcile_outside _ _ _ _ _ _ Ho Hw1 Hr) by auto. apply E1. by right. }
  destruct Hfin as (Hd' & Hsat & Hfiles).
  assert (Hcfg' : load cfg_path (w_tree w') = Ok cfg).
  { rewrite <- Hcfg. unfold load. destruct cfg_path as [p|]; [|done]. rewrite (open_same (w_tree w) (w_tree w')) by by apply Hfiles; right. done. }
  assert (Hdes' : read_desired_at (state_path cfg) (w_tree w') = Ok desired).
  { rewrite <- Hdes. unfold read_desired_at. rewrite (open_same (w_tree w) (w_tree w')) by by apply Hfiles; left. done. }
  assert (Hl' : rendered_lio desired (w_tree w') = Ok ld) by (unfold rendered_lio in *; by rewrite Hpci).
  destruct (drift_eval cfg_path cfg desired d ld w' Hcfg' Hdes' Hd' Hl') as (nf & ni & wd & E).
  rewrite Hroot in E. eexists d, _, _, nf, ni, wd. by split_and!.
Qed.

(** ** A satisfied pass only looks *)

Definition same_os : relation world := λ w w', w_tree w' = w_tree w ∧ w_clock w' = w_clock w ∧ w_ran w' = w_ran w.
#[local] Instance same_os_preorder : PreOrder same_os.
Proof. split; [by intros w|]. intros a b c (? & ? & ?) (? & ? & ?). unfold same_os. split_and!; congruence. Qed.
Lemma os_println_err l : op_respects same_os (println_err l).
Proof.
  apply op_respects_fmt; [apply _|]. intros s. unfold print_err. destruct (is_empty s); [by apply op_respects_ret, _|].
  intros w r w' H. unfold write_out in H. by destruct (pipe_write _ _) as [[u|e] t]; simplify_eq.
Qed.
Lemma os_validate issues : op_respects same_os (validate_desired issues).
Proof.
  unfold validate_desired. destruct issues as [|i issues]; [by apply op_respects_ret, _|].
  assert (Hp : ∀ l, op_respects same_os (print_issues l)).
  { intros l. induction l as [|x l IH]; cbn [print_issues]; [by apply op_respects_ret, _|].
    apply op_respects_bind; [apply _|apply os_println_err|intros _; exact IH]. }
  intros w r w' H. unfold in_subtask, in_command in H.
  match type of H with context [(print_issues ?l ≫= ?k) ?w0] =>
    set (w1 := w0) in *; destruct ((print_issues l ≫= k) w1) as [r1 w2] eqn:E end.
  assert (Ho : same_os w1 w2).
  { apply op_bind_run in E as [(e & E & _)|(u & w3 & E & [= _ <-])]; by eapply Hp. }
  destruct r1 as [[u fin]|e]; injection H as <- <-; exact Ho.
Qed.

(** The three reads, as one step. *)
Record look : Type := { lk_text : string; lk_live : list NicNetwork * list NicStatus; lk_tree : tree; lk_calls : list call }.
Definition look_at (t : tree) (n : nat) : look :=
  let '(c1, t1) := proc n "exportfs" ["-s"] None [] t in
  let '(c2, t2) := proc (S n) "ip" ["-j"; "addr"] None [] t1 in
  let '(c3, t3) := proc (S (S n)) "ip" ["-j"; "route"; "show"; "default"] None [] t2 in
  let out c := match c with Ran output (Some 0%Z) => stdout_of output | _ => "" end in
  {| lk_text := format_report t1 (match c1 with Ran output _ => stdout_of output | NotStarted _ _ => "" end)
                  NFSD_PORTLIST NFS_EXPORTS_FILE;
     lk_live := (networks_from_json (out c2) (out c3),
                 classify (net_class t3) (ib_class t3) (Nic.netdev_addrs (if_addrs t3)) (collect (roce_capable (net_class t3))));
     lk_tree := t3;
     lk_calls := [{| cl_command := "exportfs"; cl_args := ["-s"]; cl_stdin := None; cl_child := c1 |};
                  {| cl_command := "ip"; cl_args := ["-j"; "addr"]; cl_stdin := None; cl_child := c2 |};
                  {| cl_command := "ip"; cl_args := ["-j"; "route"; "show"; "default"]; cl_stdin := None; cl_child := c3 |}] |}.
Definition looked (w : world) : world :=
  let l := look_at (w_tree w) (w_clock w) in
  {| w_task := w_task w; w_sub := w_sub w; w_tree := lk_tree l; w_clock := S (S (S (w_clock w))); w_seq := w_seq w;
     w_ran := w_ran w ++ lk_calls l; w_meta := w_meta w |}.
Lemma look_bind {B} (k : string → list NicNetwork * list NicStatus → op B) w :
  (report NFSD_PORTLIST NFS_EXPORTS_FILE ≫= λ text, read_live_nics ≫= k text) w =
  k (lk_text (look_at (w_tree w) (w_clock w))) (lk_live (look_at (w_tree w) (w_clock w))) (looked w).
Proof.
  unfold looked, look_at, report, read_live_nics, run_ip, spawn, mbind, op_bind, op_get, mret, op_ret.
  destruct (proc _ "exportfs" _ _ _ _) as [c1 t1]. cbn [w_tree w_clock w_ran w_task w_sub w_seq w_meta].
  destruct (proc _ "ip" ["-j"; "addr"] _ _ _) as [c2 t2]. cbn [w_tree w_clock w_ran w_task w_sub w_seq w_meta].
  destruct (proc _ "ip" _ _ _ _) as [c3 t3]. cbn. by rewrite <- !app_assoc.
Qed.

Definition modprobed : relation tree := λ t t', ∃ n args, t' = (proc n "modprobe" args None [] t).2.
(** Commands that only loaded modules. *)
Definition loads_modules (w w' : world) : Prop :=
  ∃ cs, w_ran w' = w_ran w ++ cs ∧ (length cs ≤ 1)%nat ∧ Forall (λ c, cl_command c = "modprobe") cs ∧
    rtc modprobed (w_tree w) (w_tree w').
Lemma load_area wanted b w r w' :
  area b "Load kernel modules" (load_modules wanted) w = (r, w') →
  loads_modules w w' ∧ (b = true → w_ran w' = w_ran w ∧ w_tree w' = w_tree w).
Proof.
  unfold area. destruct b; intros H.
  { injection H as <- <-. split; [|done]. exists []. cbn. rewrite app_nil_r. split_and!; [done|lia|constructor|reflexivity]. }
  split; [|done]. assert (H' := H).
  assert (Ht : op_respects (on_tree (rtc modprobed)) (in_subtask "Load kernel modules" (status ← load_modules wanted; mret (tt, Complete status)))).
  { apply tree_in_command. unfold load_modules. repeat op_step. unfold ensure in *.
    destruct (Nat.ltb 1 _); [|done]. simplify_eq. apply tree_run_into; [apply _|done|]. intros n t. apply rtc_once. by eexists _, _. }
  apply Ht in H'. unfold load_modules in H. unfold in_subtask in H.
  assert (Htr : traces (status ← (nics ← op_get (λ t, rdma_driver_modules (net_class t));
      match ensure wanted nics with Some spec => run_into spec | None => mret Success end); mret (tt, Complete status))
    (λ cs _ _, (length cs ≤ 1)%nat ∧ Forall (λ c, cl_command c = "modprobe") cs)).
  { intros w0 r0 w0' [(e & H0 & ->)|(st & w1 & H0 & [= <- <-])]%op_bind_run.
    all: apply get_bind in H0; unfold ensure in H0; destruct (Nat.ltb 1 _);
      [apply traces_run_into in H0 as (Hf & cs & E & Hq); [|done]|].
    all: try (split; [done|]; exists cs; split; [done|]; destruct Hq as [[-> _]|(c & -> & _)];
      (split; [cbn; lia|repeat constructor])).
    all: injection H0 as ? ?; subst; split; [done|]; exists []; rewrite app_nil_r; split_and!; [done|cbn; lia|constructor]. }
  apply (traces_in_command "Load kernel modules" None [] None) in Htr. apply Htr in H as (_ & cs & E & r0 & w1 & [Hl Hm] & _).
  exists cs. by split_and!.
Qed.
Lemma skipped_tail ld nd w r w' : tail_areas true true ld nd [] w = (r, w') → w_tree w' = w_tree w ∧ w_ran w' = w_ran w.
Proof. intros H. unfold tail_areas, area, apply_nic, mark_skipped, mbind, op_bind in H. by injection H as <- <-. Qed.

(** The pass after validation, when every area is satisfied. *)
Lemma satisfied_pass cfg_path w wd :
  drift cfg_path w = (Ok (Ok (true, true, true, true)), wd) →
  wd = looked w ∧ ∃ cfg desired d ld,
    load cfg_path (w_tree w) = Ok cfg ∧ read_desired_at (state_path cfg) (w_tree w) = Ok desired ∧
    rendered cfg desired (w_tree w) = Ok d ∧ rendered_lio desired (w_tree w) = Ok ld ∧
    nvmet_satisfied d (Nvmet.read (w_tree w) (nvmet_root cfg)) = true ∧
    lio_satisfied ld (Lio.read (w_tree w) (lio_root cfg)) = true ∧
    nfs_satisfied (render_nfs (des_nfs_exports desired) NFS_RDMA_PORT) (from_report (lk_text (look_at (w_tree w) (w_clock w)))) = true ∧
    nic_actions (des_nic_configs desired) (lk_live (look_at (w_tree w) (w_clock w))).1 (lk_live (look_at (w_tree w) (w_clock w))).2 = [].
Proof.
  unfold drift. intros H%get_bind. destruct (load cfg_path _) as [cfg|e] eqn:Ec; [|done].
  apply get_bind in H. destruct (read_desired_at _ _) as [desired|e] eqn:Ed; [|done].
  apply get_bind, get_bind in H. cbv beta in H.
  destruct (render_nvmet _ _ _ _) as [d|p] eqn:En; [|done]. destruct (render_lio _ _ _) as [ld|p] eqn:El; [|done].
  cbv zeta in H. apply get_bind in H. cbv beta in H.
  rewrite (look_bind (λ text '(nets, stats), mret (Ok _))) in H.
  destruct (lk_live _) as [nets stats] eqn:Elive. injection H as H1 H2 H3 H4 <-. split; [done|].
  exists cfg, desired, d, ld. unfold rendered, rendered_lio. split_and!; try done.
  unfold nic_satisfied in H4. cbn. by destruct (nic_actions _ _ _).
Qed.

(** C5: when the drift check finds every area satisfied, a reconcile pass started
    on the same state changes nothing: it runs the same three read commands as the
    check and, only if modules are to be loaded automatically, one [modprobe]; no
    other command runs and no file is written. (It stops even earlier if the client
    leaves while unservable entries are being listed.) *)
Theorem satisfied_pass_only_looks cfg_path w wd r w' :
  drift cfg_path w = (Ok (Ok (true, true, true, true)), wd) → run cfg_path w = (r, w') →
  (∃ c1 c2 c3, w_ran wd = w_ran w ++ [call_of (spec_new "exportfs" ["-s"]) c1; call_of (spec_new "ip" ["-j"; "addr"]) c2;
                                      call_of (spec_new "ip" ["-j"; "route"; "show"; "default"]) c3]) ∧
  ((∃ e, r = Err e) ∧ w_tree w' = w_tree w ∧ w_ran w' = w_ran w ∨
   loads_modules wd w' ∧
   (∀ cfg, load cfg_path (w_tree w) = Ok cfg → autoload_modules cfg = false →
      w_ran w' = w_ran wd ∧ w_tree w' = w_tree wd)).
Proof.
  intros Hdrift Hrun. apply satisfied_pass in Hdrift as (-> & cfg & desired & d & ld & Hc & Hd & Hn & Hl & Hsn & Hsl & Hsf & Hsa).
  split. { unfold looked, look_at. destruct (proc _ "exportfs" _ _ _ _), (proc _ "ip" ["-j"; "addr"] _ _ _), (proc _ "ip" _ _ _ _). by eexists _, _, _. }
  unfold run in Hrun. apply get_bind in Hrun. rewrite Hc in Hrun. apply get_bind in Hrun. rewrite Hd in Hrun.
  unfold pass in Hrun. apply op_bind_run in Hrun as [(e & H & ->)|(u & wv & Hv & H)].
  { apply os_validate in H as (E1 & _ & E2). left. eauto. }
  apply os_validate in Hv as (Et & Ek & Er). right. apply get_bind, get_bind in H. cbv beta in H.
  unfold rendered, rendered_lio in *. rewrite Et in H. rewrite Hn, Hl in H. cbv zeta in H. apply get_bind in H. cbv beta in H.
  rewrite Et, Hsn, Hsl in H.
  rewrite (look_bind (λ text '(nets, stats), area _ _ _ ≫= λ _, _)) in H. rewrite Et, Ek, Hsf in H.
  destruct (lk_live _) as [nets stats]. cbn [fst snd] in Hsa. rewrite Hsa in H.
  assert (Elook : w_tree (looked wv) = w_tree (looked w) ∧ w_ran (looked wv) = w_ran (looked w)).
  { unfold looked. cbn. by rewrite Et, Ek, Er. }
  destruct Elook as [Ex Ey].
  apply op_bind_run in H as [(e & H & ->)|(u' & w1 & H1 & H)].
  - apply load_area in H as [(cs & E & Hrest) Hb]. unfold loads_modules. rewrite <- Ex, <- Ey. split; [by exists cs|].
    intros cfg' Hc'. rewrite Hc in Hc'. injection Hc' as <-. intros Ha. rewrite Ha in Hb. by destruct (Hb eq_refl).
  - apply load_area in H1 as [(cs & E & Hrest) Hb]. apply op_bind_run in H as [(e & H & _)|(u2 & w2 & [= _ <-] & H)]; [discriminate H|].
    change (tail_areas true true ld (render_nfs (des_nfs_exports desired) NFS_RDMA_PORT) [] (set_task w1 (skipped_subtask (w_task w1) "Apply NVMe-oF configuration")) = (r, w')) in H.
    apply skipped_tail in H as [E1 E2]. cbn in E1, E2. unfold loads_modules. rewrite E1, E2, <- Ex, <- Ey. split; [by exists cs|].
    intros cfg' Hc'. rewrite Hc in Hc'. injection Hc' as <-. intros Ha. rewrite Ha in Hb. by destruct (Hb eq_refl).
Qed.
End theorems.

(** ** A host with one export *)

Definition demo_nvme : NvmeExport := {|
  nvme_id := 1; nvme_name := "vm1"; nvme_device_path := "/dev/zvol/tank/vm1"; nvme_enabled := true;
  nvme_want_rdma := false; nvme_want_tcp := true; nvme_want_loop := false; nvme_allow_any_host := true;
  nvme_initiators := []; nvme_interfaces := []; nvme_last_error := None |}.
#[local] Instance demo_toml : Toml := {|
  toml_config := λ _, Err "no such document";
  toml_desired := λ s, if bool_decide (s = "vm1") then
    Ok {| doc_settings := ∅; doc_nvme_export := [demo_nvme]; doc_iscsi_export := []; doc_nfs_export := [];
          doc_nic_config := []; doc_legacy_export := [] |} else Err "no such document" |}.
#[local] Instance demo_live : Live := {| net_class := λ _, Some []; ib_class := λ _, Some []; if_addrs := λ _, Some [] |}.
#[local] Instance demo_machine : Machine := λ _ _ _ _ _ t, (Ran [] (Some 0%Z), t).
#[local] Instance demo_parser : JsonParser := λ _, None.
#[local] Instance demo_printer : JsonPrinter := λ _, "{}".
Definition demo_tree : tree := list_to_map
  [(["var"], Dir); (["var"; "lib"], Dir); (["var"; "lib"; "greendotrdma"], Dir);
   (["var"; "lib"; "greendotrdma"; "state.toml"], File "vm1");
   (["sys"], Dir); (["sys"; "kernel"], Dir); (["sys"; "kernel"; "config"], Dir); (NVMET_ROOT, Dir);
   (NVMET_ROOT ++ ["subsystems"], Dir); (NVMET_ROOT ++ ["ports"], Dir);
   (NVMET_ROOT ++ ["subsystems"; "nqn.2003-01.org.other:a"], Dir)].
Definition demo_run : result string (panics unit) * world := @run patient permissive _ _ _ _ _ None (start_world demo_tree 0).
Lemma demo_host_wf : wf demo_tree.
Proof. apply wfb_sound. vm_compute. reflexivity. Qed.
Lemma demo_steady S n cmd args stdin env t : steady S t (@proc demo_machine n cmd args stdin env t).2.
Proof. intros Ht. by split. Qed.
Lemma pass_converges_witness :
  ∃ lio_ok nfs_ok nic_ok wd, @drift _ _ _ _ None demo_run.2 = (Ok (Ok (true, lio_ok, nfs_ok, nic_ok)), wd).
Proof.
  assert (Hr : demo_run.1 = Ok (Ok tt)) by (vm_compute; reflexivity).
  edestruct (@pass_converges patient permissive _ _ _ _ _ None Config_default
    {| des_nvme_exports := [demo_nvme]; des_iscsi_exports := []; des_nfs_exports := []; des_nic_configs := [];
       des_listen := UNSPECIFIED |} (start_world demo_tree 0) demo_run.2)
    as (d & nvme_ok & lio_ok & nfs_ok & nic_ok & wd & Hd & Hw & Hi).
  - exact demo_host_wf.
  - apply canonical_portsb_sound. vm_compute. reflexivity.
  - reflexivity.
  - reflexivity.
  - vm_compute. reflexivity.
  - apply (bool_decide_unpack _). vm_compute. exact I.
  - intros q [->|[=]] [Hs|[Hs|Hs]]; [|exact Hs..]. destruct Hs as [Hs|[Hs|[Hs|[Hs|Hs]]]]; [exact Hs..|discriminate Hs].
  - intros. apply demo_steady.
  - rewrite <- Hr. apply surjective_pairing.
  - intros Hf. vm_compute in Hf. discriminate Hf.
  - reflexivity.
  - exists lio_ok, nfs_ok, nic_ok, wd. rewrite Hw. replace nvme_ok with true; [reflexivity|]. symmetry. apply Hi. left.
    vm_compute in Hd. injection Hd as <-. intros s [<-|Hs]%list_elem_of_In _; [reflexivity|destruct Hs].
Defined.
Lemma satisfied_pass_only_looks_witness :
  ∃ wd, @drift _ _ _ _ None demo_run.2 = (Ok (Ok (true, true, true, true)), wd) ∧
  let w' := (@run patient permissive _ _ _ _ _ None demo_run.2).2 in
  loads_modules wd w' ∧ (length (w_ran w') = length (w_ran demo_run.2) + 4)%nat.
Proof.
  exists (@drift _ _ _ _ None demo_run.2).2.
  assert (Hd : (@drift _ _ _ _ None demo_run.2).1 = Ok (Ok (true, true, true, true))) by (vm_compute; reflexivity).
  assert (He : @drift _ _ _ _ None demo_run.2 = (Ok (Ok (true, true, true, true)), (@drift _ _ _ _ None demo_run.2).2))
    by (rewrite <- Hd; apply surjective_pairing).
  split; [exact He|]. cbv zeta. split; [|vm_compute; reflexivity].
  assert (Hr : (@run patient permissive _ _ _ _ _ None demo_run.2).1 = Ok (Ok tt)) by (vm_compute; reflexivity).
  destruct (@satisfied_pass_only_looks patient permissive _ _ _ _ _ None demo_run.2 _
    (Ok (Ok tt)) (@run patient permissive _ _ _ _ _ None demo_run.2).2 He) as [_ [[[e He'] _]|[Hl _]]].
  - rewrite <- Hr. apply surjective_pairing.
  - discriminate He'.
  - exact Hl.
Defined.
