(* ===== verification/Store.v ===== *)
(** * The desired-state store (greendot-web/src/state.rs)

    The configuration document the web service owns, its operations and its
    persistence. The document is kept in memory and rewritten as a whole (temporary
    file, then rename) by every mutation; the TOML codec is a class parameter. *)
From Stdlib Require Import Ascii String.
From stdpp Require Import base option list strings sets gmap pretty.
From S2P Require Import Prelude Ordered Validate IpAddr Types Desired Fs World Nfs Reconcile.
#[local] Open Scope string_scope.
#[local] Open Scope list_scope.
#[local] Open Scope Z_scope.

(** ** The document *)

Record ClientToken : Type := { ct_id : Z; ct_name : string; ct_token_hash : string; ct_created_at : Z }.
Record SnapshotPolicy : Type := {
  sp_id : Z; sp_dataset : string; sp_cron : string; sp_prefix : string;
  sp_keep_last : option u32; sp_keep_days : option u32; sp_enabled : bool; sp_last_run : Z }.
Record ConfigDoc : Type := {
  cd_next_nvme_export_id : Z;
  cd_next_iscsi_export_id : Z;
  cd_next_policy_id : Z;
  cd_next_nfs_export_id : Z;
  cd_next_client_token_id : Z;
  cd_settings : gmap string string;
  cd_nvme_export : list NvmeExport;
  cd_iscsi_export : list IscsiExport;
  cd_policy : list SnapshotPolicy;
  cd_nfs_export : list NfsExport;
  cd_nic_config : list NicConfig;
  cd_client_token : list ClientToken;
  cd_legacy_export : list LegacyExport;
  cd_legacy_next_export_id : Z }.
Definition ConfigDoc_default : ConfigDoc :=
  {| cd_next_nvme_export_id := 0%Z; cd_next_iscsi_export_id := 0%Z; cd_next_policy_id := 0%Z;
     cd_next_nfs_export_id := 0%Z; cd_next_client_token_id := 0%Z; cd_settings := ∅;
     cd_nvme_export := []; cd_iscsi_export := []; cd_policy := []; cd_nfs_export := [];
     cd_nic_config := []; cd_client_token := []; cd_legacy_export := [];
     cd_legacy_next_export_id := 0%Z |}.
Definition set_nvme (d : ConfigDoc) (l : list NvmeExport) : ConfigDoc :=
  {| cd_next_nvme_export_id := cd_next_nvme_export_id d;
     cd_next_iscsi_export_id := cd_next_iscsi_export_id d; cd_next_policy_id := cd_next_policy_id d;
     cd_next_nfs_export_id := cd_next_nfs_export_id d;
     cd_next_client_token_id := cd_next_client_token_id d; cd_settings := cd_settings d;
     cd_nvme_export := l; cd_iscsi_export := cd_iscsi_export d; cd_policy := cd_policy d;
     cd_nfs_export := cd_nfs_export d; cd_nic_config := cd_nic_config d;
     cd_client_token := cd_client_token d; cd_legacy_export := cd_legacy_export d;
     cd_legacy_next_export_id := cd_legacy_next_export_id d |}.
Definition set_iscsi (d : ConfigDoc) (l : list IscsiExport) : ConfigDoc :=
  {| cd_next_nvme_export_id := cd_next_nvme_export_id d;
     cd_next_iscsi_export_id := cd_next_iscsi_export_id d; cd_next_policy_id := cd_next_policy_id d;
     cd_next_nfs_export_id := cd_next_nfs_export_id d;
     cd_next_client_token_id := cd_next_client_token_id d; cd_settings := cd_settings d;
     cd_nvme_export := cd_nvme_export d; cd_iscsi_export := l; cd_policy := cd_policy d;
     cd_nfs_export := cd_nfs_export d; cd_nic_config := cd_nic_config d;
     cd_client_token := cd_client_token d; cd_legacy_export := cd_legacy_export d;
     cd_legacy_next_export_id := cd_legacy_next_export_id d |}.
Definition set_policies (d : ConfigDoc) (l : list SnapshotPolicy) : ConfigDoc :=
  {| cd_next_nvme_export_id := cd_next_nvme_export_id d;
     cd_next_iscsi_export_id := cd_next_iscsi_export_id d; cd_next_policy_id := cd_next_policy_id d;
     cd_next_nfs_export_id := cd_next_nfs_export_id d;
     cd_next_client_token_id := cd_next_client_token_id d; cd_settings := cd_settings d;
     cd_nvme_export := cd_nvme_export d; cd_iscsi_export := cd_iscsi_export d; cd_policy := l;
     cd_nfs_export := cd_nfs_export d; cd_nic_config := cd_nic_config d;
     cd_client_token := cd_client_token d; cd_legacy_export := cd_legacy_export d;
     cd_legacy_next_export_id := cd_legacy_next_export_id d |}.
Definition set_nfs (d : ConfigDoc) (l : list NfsExport) : ConfigDoc :=
  {| cd_next_nvme_export_id := cd_next_nvme_export_id d;
     cd_next_iscsi_export_id := cd_next_iscsi_export_id d; cd_next_policy_id := cd_next_policy_id d;
     cd_next_nfs_export_id := cd_next_nfs_export_id d;
     cd_next_client_token_id := cd_next_client_token_id d; cd_settings := cd_settings d;
     cd_nvme_export := cd_nvme_export d; cd_iscsi_export := cd_iscsi_export d;
     cd_policy := cd_policy d; cd_nfs_export := l; cd_nic_config := cd_nic_config d;
     cd_client_token := cd_client_token d; cd_legacy_export := cd_legacy_export d;
     cd_legacy_next_export_id := cd_legacy_next_export_id d |}.
Definition set_nics (d : ConfigDoc) (l : list NicConfig) : ConfigDoc :=
  {| cd_next_nvme_export_id := cd_next_nvme_export_id d;
     cd_next_iscsi_export_id := cd_next_iscsi_export_id d; cd_next_policy_id := cd_next_policy_id d;
     cd_next_nfs_export_id := cd_next_nfs_export_id d;
     cd_next_client_token_id := cd_next_client_token_id d; cd_settings := cd_settings d;
     cd_nvme_export := cd_nvme_export d; cd_iscsi_export := cd_iscsi_export d;
     cd_policy := cd_policy d; cd_nfs_export := cd_nfs_export d; cd_nic_config := l;
     cd_client_token := cd_client_token d; cd_legacy_export := cd_legacy_export d;
     cd_legacy_next_export_id := cd_legacy_next_export_id d |}.
Definition set_tokens (d : ConfigDoc) (l : list ClientToken) : ConfigDoc :=
  {| cd_next_nvme_export_id := cd_next_nvme_export_id d;
     cd_next_iscsi_export_id := cd_next_iscsi_export_id d; cd_next_policy_id := cd_next_policy_id d;
     cd_next_nfs_export_id := cd_next_nfs_export_id d;
     cd_next_client_token_id := cd_next_client_token_id d; cd_settings := cd_settings d;
     cd_nvme_export := cd_nvme_export d; cd_iscsi_export := cd_iscsi_export d;
     cd_policy := cd_policy d; cd_nfs_export := cd_nfs_export d; cd_nic_config := cd_nic_config d;
     cd_client_token := l; cd_legacy_export := cd_legacy_export d;
     cd_legacy_next_export_id := cd_legacy_next_export_id d |}.
Definition add_nvme (d : ConfigDoc) (id : Z) (e : NvmeExport) : ConfigDoc :=
  {| cd_next_nvme_export_id := id; cd_next_iscsi_export_id := cd_next_iscsi_export_id d;
     cd_next_policy_id := cd_next_policy_id d; cd_next_nfs_export_id := cd_next_nfs_export_id d;
     cd_next_client_token_id := cd_next_client_token_id d; cd_settings := cd_settings d;
     cd_nvme_export := cd_nvme_export d ++ [e]; cd_iscsi_export := cd_iscsi_export d;
     cd_policy := cd_policy d; cd_nfs_export := cd_nfs_export d; cd_nic_config := cd_nic_config d;
     cd_client_token := cd_client_token d; cd_legacy_export := cd_legacy_export d;
     cd_legacy_next_export_id := cd_legacy_next_export_id d |}.
Definition add_iscsi (d : ConfigDoc) (id : Z) (e : IscsiExport) : ConfigDoc :=
  {| cd_next_nvme_export_id := cd_next_nvme_export_id d; cd_next_iscsi_export_id := id;
     cd_next_policy_id := cd_next_policy_id d; cd_next_nfs_export_id := cd_next_nfs_export_id d;
     cd_next_client_token_id := cd_next_client_token_id d; cd_settings := cd_settings d;
     cd_nvme_export := cd_nvme_export d; cd_iscsi_export := cd_iscsi_export d ++ [e];
     cd_policy := cd_policy d; cd_nfs_export := cd_nfs_export d; cd_nic_config := cd_nic_config d;
     cd_client_token := cd_client_token d; cd_legacy_export := cd_legacy_export d;
     cd_legacy_next_export_id := cd_legacy_next_export_id d |}.
Definition add_policy (d : ConfigDoc) (id : Z) (e : SnapshotPolicy) : ConfigDoc :=
  {| cd_next_nvme_export_id := cd_next_nvme_export_id d;
     cd_next_iscsi_export_id := cd_next_iscsi_export_id d; cd_next_policy_id := id;
     cd_next_nfs_export_id := cd_next_nfs_export_id d;
     cd_next_client_token_id := cd_next_client_token_id d; cd_settings := cd_settings d;
     cd_nvme_export := cd_nvme_export d; cd_iscsi_export := cd_iscsi_export d;
     cd_policy := cd_policy d ++ [e]; cd_nfs_export := cd_nfs_export d;
     cd_nic_config := cd_nic_config d; cd_client_token := cd_client_token d;
     cd_legacy_export := cd_legacy_export d; cd_legacy_next_export_id := cd_legacy_next_export_id d |}.
Definition add_nfs (d : ConfigDoc) (id : Z) (e : NfsExport) : ConfigDoc :=
  {| cd_next_nvme_export_id := cd_next_nvme_export_id d;
     cd_next_iscsi_export_id := cd_next_iscsi_export_id d; cd_next_policy_id := cd_next_policy_id d;
     cd_next_nfs_export_id := id; cd_next_client_token_id := cd_next_client_token_id d;
     cd_settings := cd_settings d; cd_nvme_export := cd_nvme_export d;
     cd_iscsi_export := cd_iscsi_export d; cd_policy := cd_policy d;
     cd_nfs_export := cd_nfs_export d ++ [e]; cd_nic_config := cd_nic_config d;
     cd_client_token := cd_client_token d; cd_legacy_export := cd_legacy_export d;
     cd_legacy_next_export_id := cd_legacy_next_export_id d |}.
Definition add_token (d : ConfigDoc) (id : Z) (e : ClientToken) : ConfigDoc :=
  {| cd_next_nvme_export_id := cd_next_nvme_export_id d;
     cd_next_iscsi_export_id := cd_next_iscsi_export_id d; cd_next_policy_id := cd_next_policy_id d;
     cd_next_nfs_export_id := cd_next_nfs_export_id d; cd_next_client_token_id := id;
     cd_settings := cd_settings d; cd_nvme_export := cd_nvme_export d;
     cd_iscsi_export := cd_iscsi_export d; cd_policy := cd_policy d; cd_nfs_export := cd_nfs_export d;
     cd_nic_config := cd_nic_config d; cd_client_token := cd_client_token d ++ [e];
     cd_legacy_export := cd_legacy_export d; cd_legacy_next_export_id := cd_legacy_next_export_id d |}.
Definition set_settings (d : ConfigDoc) (m : gmap string string) : ConfigDoc :=
  {| cd_next_nvme_export_id := cd_next_nvme_export_id d;
     cd_next_iscsi_export_id := cd_next_iscsi_export_id d; cd_next_policy_id := cd_next_policy_id d;
     cd_next_nfs_export_id := cd_next_nfs_export_id d;
     cd_next_client_token_id := cd_next_client_token_id d; cd_settings := m;
     cd_nvme_export := cd_nvme_export d; cd_iscsi_export := cd_iscsi_export d;
     cd_policy := cd_policy d; cd_nfs_export := cd_nfs_export d; cd_nic_config := cd_nic_config d;
     cd_client_token := cd_client_token d; cd_legacy_export := cd_legacy_export d;
     cd_legacy_next_export_id := cd_legacy_next_export_id d |}.
Definition set_ids (d : ConfigDoc) (nvme iscsi : Z) : ConfigDoc :=
  {| cd_next_nvme_export_id := nvme; cd_next_iscsi_export_id := iscsi;
     cd_next_policy_id := cd_next_policy_id d; cd_next_nfs_export_id := cd_next_nfs_export_id d;
     cd_next_client_token_id := cd_next_client_token_id d; cd_settings := cd_settings d;
     cd_nvme_export := cd_nvme_export d; cd_iscsi_export := cd_iscsi_export d;
     cd_policy := cd_policy d; cd_nfs_export := cd_nfs_export d; cd_nic_config := cd_nic_config d;
     cd_client_token := cd_client_token d; cd_legacy_export := cd_legacy_export d;
     cd_legacy_next_export_id := 0%Z |}.
(** What the serializer writes: the legacy fields are skipped. *)
Definition written_form (d : ConfigDoc) : ConfigDoc :=
  {| cd_next_nvme_export_id := cd_next_nvme_export_id d;
     cd_next_iscsi_export_id := cd_next_iscsi_export_id d; cd_next_policy_id := cd_next_policy_id d;
     cd_next_nfs_export_id := cd_next_nfs_export_id d;
     cd_next_client_token_id := cd_next_client_token_id d; cd_settings := cd_settings d;
     cd_nvme_export := cd_nvme_export d; cd_iscsi_export := cd_iscsi_export d;
     cd_policy := cd_policy d; cd_nfs_export := cd_nfs_export d; cd_nic_config := cd_nic_config d;
     cd_client_token := cd_client_token d; cd_legacy_export := []; cd_legacy_next_export_id := 0%Z |}.
Definition set_split (d : ConfigDoc) (nvme : list NvmeExport) (iscsi : list IscsiExport) : ConfigDoc :=
  {| cd_next_nvme_export_id := cd_next_nvme_export_id d;
     cd_next_iscsi_export_id := cd_next_iscsi_export_id d; cd_next_policy_id := cd_next_policy_id d;
     cd_next_nfs_export_id := cd_next_nfs_export_id d;
     cd_next_client_token_id := cd_next_client_token_id d; cd_settings := cd_settings d;
     cd_nvme_export := nvme; cd_iscsi_export := iscsi; cd_policy := cd_policy d;
     cd_nfs_export := cd_nfs_export d; cd_nic_config := cd_nic_config d;
     cd_client_token := cd_client_token d; cd_legacy_export := [];
     cd_legacy_next_export_id := cd_legacy_next_export_id d |}.

Record NewNvmeExport : Type := {
  nn_name : string; nn_device_path : string; nn_want_rdma : bool; nn_want_tcp : bool; nn_want_loop : bool;
  nn_allow_any_host : bool; nn_initiators : list string; nn_interfaces : list string }.
Record NewIscsiExport : Type := {
  ni_name : string; ni_device_path : string; ni_want_rdma : bool; ni_want_tcp : bool;
  ni_allow_any_host : bool; ni_initiators : list string; ni_interfaces : list string }.
Record NewNfsExport : Type := { nf_path : string; nf_clients : list NfsClientEntry }.

(** Order kept, first occurrences only. *)
Fixpoint dedup_preserve_go (seen : list string) (items : list string) : list string :=
  match items with
  | [] => []
  | i :: items => if bool_decide (i ∈ seen) then dedup_preserve_go seen items else i :: dedup_preserve_go (i :: seen) items
  end.
Definition dedup_preserve (items : list string) : list string := dedup_preserve_go [] items.
(** [iter_mut().find(p)], edited in place: the first match only. *)
Fixpoint edit_first {A} (p : A → bool) (f : A → A) (l : list A) : list A :=
  match l with
  | [] => []
  | a :: l => if p a then f a :: l else a :: edit_first p f l
  end.

(** ** Loading *)

Definition migrate_step (acc : list NvmeExport * list IscsiExport) (e : LegacyExport) : list NvmeExport * list IscsiExport :=
  if bool_decide (leg_kind e = "iscsi") then (acc.1, acc.2 ++ [legacy_iscsi e]) else (acc.1 ++ [legacy_nvme e], acc.2).
Definition max_id (d : ConfigDoc) : Z :=
  Z.max (match (nvme_id <$> cd_nvme_export d) ++ (iscsi_id <$> cd_iscsi_export d) with
         | [] => 0
         | i :: l => foldl Z.max i l
         end) (cd_legacy_next_export_id d).
Definition migrate_legacy_exports (d : ConfigDoc) : ConfigDoc :=
  match cd_legacy_export d with
  | [] => d
  | l =>
      let '(nvme, iscsi) := foldl migrate_step (cd_nvme_export d, cd_iscsi_export d) l in
      let d := set_split d nvme iscsi in
      set_ids d (Z.max (cd_next_nvme_export_id d) (max_id d)) (Z.max (cd_next_iscsi_export_id d) (max_id d))
  end.
Class DocCodec := {
  toml_doc : string → result string ConfigDoc;
  doc_toml : ConfigDoc → result string string }.
Definition load_config `{DocCodec} (p : path) (t : tree) : result string ConfigDoc :=
  d ← match open_file t p with
      | Text s => map_err (context "parsing" p) (toml_doc s)
      | NotFound => Ok ConfigDoc_default
      | ReadError m => Err (context "reading" p m)
      end;
  Ok (migrate_legacy_exports d).

(** ** Operations on the store *)

(** An operation returns an error, or panics (which poisons the mutex). *)
Inductive fault : Type := Bail (msg : string) | Panicked (msg : string).
Record db : Type := { db_doc : ConfigDoc; db_tree : tree; db_clock : nat }.
Definition sop (A : Type) : Type := db → result fault A * db.
#[export] Instance sop_ret : MRet sop := λ A a s, (Ok a, s).
#[export] Instance sop_bind : MBind sop := λ A B f m s,
  match m s with
  | (Ok a, s') => f a s'
  | (Err e, s') => (Err e, s')
  end.
Definition bail {A} (msg : string) : sop A := λ s, (Err (Bail msg), s).
Definition the_doc : sop ConfigDoc := λ s, (Ok (db_doc s), s).
Definition put (d : ConfigDoc) : sop unit := λ s, (Ok tt, {| db_doc := d; db_tree := db_tree s; db_clock := db_clock s |}).
(** [next += 1] on an i64; the overflow panics (it wraps in a build without
    overflow checks). *)
Definition incr_i64 (n : Z) : sop Z := λ s,
  if n =? 2 ^ 63 - 1 then (Err (Panicked "attempt to add with overflow"), s) else (Ok (n + 1), s).

Section store.
Context {K : Kernel} {D : DocCodec} (file : path).

Definition tmp_file : path := parent file ++ [file_stem (default "" (last file)) +:+ ".toml.tmp"].
Definition write_doc (text : string) : io unit :=
  _ ← io_map_err (λ e, io_err (err_kind e) (context "writing" tmp_file (err_msg e))) (write_file tmp_file text);
  io_map_err (λ e, io_err (err_kind e) (context "renaming into" file (err_msg e))) (rename tmp_file file).
Definition persist : sop unit := λ s,
  match doc_toml (db_doc s) with
  | Err e => (Err (Bail ("serializing state config: " +:+ e)), s)
  | Ok text =>
      let '(r, t, n) := write_doc text (db_tree s) (db_clock s) in
      (map_err (λ e, Bail (err_msg e)) r, {| db_doc := db_doc s; db_tree := t; db_clock := n |})
  end.
(** [Db::open], after the task database: load, then write the file. *)
Definition open_store (t : tree) (n : nat) : result fault db * tree :=
  match load_config file t with
  | Err e => (Err (Bail e), t)
  | Ok d =>
      match persist {| db_doc := d; db_tree := t; db_clock := n |} with
      | (Ok _, s) => (Ok s, db_tree s)
      | (Err e, s) => (Err e, db_tree s)
      end
  end.

(** A mutation of the document followed by [persist]. *)
Definition rewrite (f : ConfigDoc → ConfigDoc) : sop unit := d ← the_doc; _ ← put (f d); persist.

Definition insert_nvme_export (new : NewNvmeExport) : sop Z :=
  d ← the_doc;
  if existsb (λ e, bool_decide (nvme_name e = nn_name new)) (cd_nvme_export d)
  then bail ("an export named " +:+ debug_str (nn_name new) +:+ " already exists")
  else
    id ← incr_i64 (cd_next_nvme_export_id d);
    _ ← put (add_nvme d id {|
          nvme_id := id; nvme_name := nn_name new; nvme_device_path := nn_device_path new; nvme_enabled := true;
          nvme_want_rdma := nn_want_rdma new; nvme_want_tcp := nn_want_tcp new; nvme_want_loop := nn_want_loop new;
          nvme_allow_any_host := nn_allow_any_host new; nvme_initiators := dedup_preserve (nn_initiators new);
          nvme_interfaces := dedup_preserve (nn_interfaces new); nvme_last_error := None |});
    _ ← persist;
    mret id.
Definition list_nvme_exports (d : ConfigDoc) : list NvmeExport :=
  sort_nvme_initiators <$> sort_by nvme_name (cd_nvme_export d).
Definition with_nvme (id : Z) (f : NvmeExport → NvmeExport) : sop unit :=
  rewrite (λ d, set_nvme d (edit_first (λ e, nvme_id e =? id) f (cd_nvme_export d))).
Definition set_nvme_export_enabled (id : Z) (enabled : bool) : sop unit := with_nvme id (λ e, {|
  nvme_id := nvme_id e; nvme_name := nvme_name e; nvme_device_path := nvme_device_path e; nvme_enabled := enabled;
  nvme_want_rdma := nvme_want_rdma e; nvme_want_tcp := nvme_want_tcp e; nvme_want_loop := nvme_want_loop e;
  nvme_allow_any_host := nvme_allow_any_host e; nvme_initiators := nvme_initiators e;
  nvme_interfaces := nvme_interfaces e; nvme_last_error := nvme_last_error e |}).
Definition set_nvme_export_error (id : Z) (error : option string) : sop unit := with_nvme id (λ e, {|
  nvme_id := nvme_id e; nvme_name := nvme_name e; nvme_device_path := nvme_device_path e; nvme_enabled := nvme_enabled e;
  nvme_want_rdma := nvme_want_rdma e; nvme_want_tcp := nvme_want_tcp e; nvme_want_loop := nvme_want_loop e;
  nvme_allow_any_host := nvme_allow_any_host e; nvme_initiators := nvme_initiators e;
  nvme_interfaces := nvme_interfaces e; nvme_last_error := error |}).
Definition set_nvme_export_interfaces (id : Z) (interfaces : list string) : sop unit := with_nvme id (λ e, {|
  nvme_id := nvme_id e; nvme_name := nvme_name e; nvme_device_path := nvme_device_path e; nvme_enabled := nvme_enabled e;
  nvme_want_rdma := nvme_want_rdma e; nvme_want_tcp := nvme_want_tcp e; nvme_want_loop := nvme_want_loop e;
  nvme_allow_any_host := nvme_allow_any_host e; nvme_initiators := nvme_initiators e;
  nvme_interfaces := dedup_preserve interfaces; nvme_last_error := nvme_last_error e |}).
Definition delete_nvme_export (id : Z) : sop unit :=
  rewrite (λ d, set_nvme d (filter (λ e, nvme_id e ≠ id) (cd_nvme_export d))).

Definition insert_iscsi_export (new : NewIscsiExport) : sop Z :=
  d ← the_doc;
  if existsb (λ e, bool_decide (iscsi_name e = ni_name new)) (cd_iscsi_export d)
  then bail ("an export named " +:+ debug_str (ni_name new) +:+ " already exists")
  else
    id ← incr_i64 (cd_next_iscsi_export_id d);
    _ ← put (add_iscsi d id {|
          iscsi_id := id; iscsi_name := ni_name new; iscsi_device_path := ni_device_path new; iscsi_enabled := true;
          iscsi_want_rdma := ni_want_rdma new; iscsi_want_tcp := ni_want_tcp new;
          iscsi_allow_any_host := ni_allow_any_host new; iscsi_initiators := dedup_preserve (ni_initiators new);
          iscsi_interfaces := dedup_preserve (ni_interfaces new); iscsi_last_error := None |});
    _ ← persist;
    mret id.
Definition list_iscsi_exports (d : ConfigDoc) : list IscsiExport :=
  sort_iscsi_initiators <$> sort_by iscsi_name (cd_iscsi_export d).
Definition with_iscsi (id : Z) (f : IscsiExport → IscsiExport) : sop unit :=
  rewrite (λ d, set_iscsi d (edit_first (λ e, iscsi_id e =? id) f (cd_iscsi_export d))).
Definition set_iscsi_export_enabled (id : Z) (enabled : bool) : sop unit := with_iscsi id (λ e, {|
  iscsi_id := iscsi_id e; iscsi_name := iscsi_name e; iscsi_device_path := iscsi_device_path e; iscsi_enabled := enabled;
  iscsi_want_rdma := iscsi_want_rdma e; iscsi_want_tcp := iscsi_want_tcp e;
  iscsi_allow_any_host := iscsi_allow_any_host e; iscsi_initiators := iscsi_initiators e;
  iscsi_interfaces := iscsi_interfaces e; iscsi_last_error := iscsi_last_error e |}).
Definition set_iscsi_export_error (id : Z) (error : option string) : sop unit := with_iscsi id (λ e, {|
  iscsi_id := iscsi_id e; iscsi_name := iscsi_name e; iscsi_device_path := iscsi_device_path e; iscsi_enabled := iscsi_enabled e;
  iscsi_want_rdma := iscsi_want_rdma e; iscsi_want_tcp := iscsi_want_tcp e;
  iscsi_allow_any_host := iscsi_allow_any_host e; iscsi_initiators := iscsi_initiators e;
  iscsi_interfaces := iscsi_interfaces e; iscsi_last_error := error |}).
Definition set_iscsi_export_interfaces (id : Z) (interfaces : list string) : sop unit := with_iscsi id (λ e, {|
  iscsi_id := iscsi_id e; iscsi_name := iscsi_name e; iscsi_device_path := iscsi_device_path e; iscsi_enabled := iscsi_enabled e;
  iscsi_want_rdma := iscsi_want_rdma e; iscsi_want_tcp := iscsi_want_tcp e;
  iscsi_allow_any_host := iscsi_allow_any_host e; iscsi_initiators := iscsi_initiators e;
  iscsi_interfaces := dedup_preserve interfaces; iscsi_last_error := iscsi_last_error e |}).
Definition delete_iscsi_export (id : Z) : sop unit :=
  rewrite (λ d, set_iscsi d (filter (λ e, iscsi_id e ≠ id) (cd_iscsi_export d))).
Definition export_device_paths (d : ConfigDoc) : list string :=
  (nvme_device_path <$> cd_nvme_export d) ++ (iscsi_device_path <$> cd_iscsi_export d).

Definition insert_nfs_export (new : NewNfsExport) : sop Z :=
  d ← the_doc;
  if existsb (λ e, bool_decide (nfs_path e = nf_path new)) (cd_nfs_export d)
  then bail ("an NFS export of " +:+ debug_str (nf_path new) +:+ " already exists")
  else
    id ← incr_i64 (cd_next_nfs_export_id d);
    _ ← put (add_nfs d id {| nfs_id := id; nfs_path := nf_path new; nfs_enabled := true; nfs_clients := nf_clients new;
                             nfs_last_error := None |});
    _ ← persist;
    mret id.
Definition list_nfs_exports (d : ConfigDoc) : list NfsExport := sort_by nfs_path (cd_nfs_export d).
Definition with_nfs (id : Z) (f : NfsExport → NfsExport) : sop unit :=
  rewrite (λ d, set_nfs d (edit_first (λ e, nfs_id e =? id) f (cd_nfs_export d))).
Definition set_nfs_export_enabled (id : Z) (enabled : bool) : sop unit := with_nfs id (λ e, {|
  nfs_id := nfs_id e; nfs_path := nfs_path e; nfs_enabled := enabled; nfs_clients := nfs_clients e;
  nfs_last_error := nfs_last_error e |}).
Definition set_nfs_export_error (id : Z) (error : option string) : sop unit := with_nfs id (λ e, {|
  nfs_id := nfs_id e; nfs_path := nfs_path e; nfs_enabled := nfs_enabled e; nfs_clients := nfs_clients e;
  nfs_last_error := error |}).
Definition delete_nfs_export (id : Z) : sop unit :=
  rewrite (λ d, set_nfs d (filter (λ e, nfs_id e ≠ id) (cd_nfs_export d))).

Definition insert_client_token (name token_hash : string) (created_at : Z) : sop Z :=
  d ← the_doc;
  if existsb (λ t, bool_decide (ct_name t = name)) (cd_client_token d)
  then bail ("a token named " +:+ debug_str name +:+ " already exists")
  else
    id ← incr_i64 (cd_next_client_token_id d);
    _ ← put (add_token d id {| ct_id := id; ct_name := name; ct_token_hash := token_hash; ct_created_at := created_at |});
    _ ← persist;
    mret id.
Definition list_client_tokens (d : ConfigDoc) : list ClientToken := sort_by ct_name (cd_client_token d).
Definition delete_client_token (id : Z) : sop unit :=
  rewrite (λ d, set_tokens d (filter (λ t, ct_id t ≠ id) (cd_client_token d))).

Definition push_initiator (initiator : string) (e : NvmeExport) : NvmeExport := {|
  nvme_id := nvme_id e; nvme_name := nvme_name e; nvme_device_path := nvme_device_path e; nvme_enabled := nvme_enabled e;
  nvme_want_rdma := nvme_want_rdma e; nvme_want_tcp := nvme_want_tcp e; nvme_want_loop := nvme_want_loop e;
  nvme_allow_any_host := nvme_allow_any_host e; nvme_initiators := nvme_initiators e ++ [initiator];
  nvme_interfaces := nvme_interfaces e; nvme_last_error := nvme_last_error e |}.
Definition add_nvme_export_initiator (id : Z) (initiator : string) : sop bool :=
  d ← the_doc;
  match List.find (λ e, nvme_id e =? id) (cd_nvme_export d) with
  | None => bail ("no NVMe export with id " +:+ show_Z id)
  | Some e =>
      if bool_decide (initiator ∈ nvme_initiators e) then mret false
      else _ ← with_nvme id (push_initiator initiator); mret true
  end.
Definition push_client (entry : NfsClientEntry) (e : NfsExport) : NfsExport := {|
  nfs_id := nfs_id e; nfs_path := nfs_path e; nfs_enabled := nfs_enabled e; nfs_clients := nfs_clients e ++ [entry];
  nfs_last_error := nfs_last_error e |}.
Definition add_nfs_export_client (id : Z) (entry : NfsClientEntry) : sop bool :=
  d ← the_doc;
  match List.find (λ e, nfs_id e =? id) (cd_nfs_export d) with
  | None => bail ("no NFS export with id " +:+ show_Z id)
  | Some e =>
      if existsb (λ c, bool_decide (nce_client c = nce_client entry)) (nfs_clients e) then mret false
      else _ ← with_nfs id (push_client entry); mret true
  end.

Definition get_setting (d : ConfigDoc) (key : string) : option string := cd_settings d !! key.
Definition set_setting (key value : string) : sop unit :=
  rewrite (λ d, set_settings d (<[key := value]> (cd_settings d))).

Definition insert_policy (p : SnapshotPolicy) : sop Z :=
  d ← the_doc;
  id ← incr_i64 (cd_next_policy_id d);
  _ ← put (add_policy d id {| sp_id := id; sp_dataset := sp_dataset p; sp_cron := sp_cron p; sp_prefix := sp_prefix p;
             sp_keep_last := sp_keep_last p; sp_keep_days := sp_keep_days p; sp_enabled := sp_enabled p; sp_last_run := 0 |});
  _ ← persist;
  mret id.
Definition list_policies (d : ConfigDoc) : list SnapshotPolicy := sort_by sp_dataset (cd_policy d).
Definition with_policy (id : Z) (f : SnapshotPolicy → SnapshotPolicy) : sop unit :=
  rewrite (λ d, set_policies d (edit_first (λ p, sp_id p =? id) f (cd_policy d))).
Definition set_policy_enabled (id : Z) (enabled : bool) : sop unit := with_policy id (λ p, {|
  sp_id := sp_id p; sp_dataset := sp_dataset p; sp_cron := sp_cron p; sp_prefix := sp_prefix p;
  sp_keep_last := sp_keep_last p; sp_keep_days := sp_keep_days p; sp_enabled := enabled; sp_last_run := sp_last_run p |}).
Definition set_policy_last_run (id : Z) (last_run : Z) : sop unit := with_policy id (λ p, {|
  sp_id := sp_id p; sp_dataset := sp_dataset p; sp_cron := sp_cron p; sp_prefix := sp_prefix p;
  sp_keep_last := sp_keep_last p; sp_keep_days := sp_keep_days p; sp_enabled := sp_enabled p; sp_last_run := last_run |}).
Definition delete_policy (id : Z) : sop unit :=
  rewrite (λ d, set_policies d (filter (λ p, sp_id p ≠ id) (cd_policy d))).

Definition blank_nic (netdev : string) : NicConfig :=
  {| nic_netdev := netdev; nic_mtu := None; nic_want_rxe := false; nic_want_roce := false |}.
Definition edit_nic_config (netdev : string) (edit : NicConfig → NicConfig) : sop unit :=
  rewrite (λ d,
    let l := cd_nic_config d in
    let l := if existsb (λ c, bool_decide (nic_netdev c = netdev)) l then l else l ++ [blank_nic netdev] in
    set_nics d (edit_first (λ c, bool_decide (nic_netdev c = netdev)) edit l)).
Definition set_nic_mtu (netdev : string) (mtu : u32) : sop unit := edit_nic_config netdev (λ c,
  {| nic_netdev := nic_netdev c; nic_mtu := Some mtu; nic_want_rxe := nic_want_rxe c; nic_want_roce := nic_want_roce c |}).
Definition set_nic_want_rxe (netdev : string) (want : bool) : sop unit := edit_nic_config netdev (λ c,
  {| nic_netdev := nic_netdev c; nic_mtu := nic_mtu c; nic_want_rxe := want; nic_want_roce := nic_want_roce c |}).
Definition set_nic_want_roce (netdev : string) (want : bool) : sop unit := edit_nic_config netdev (λ c,
  {| nic_netdev := nic_netdev c; nic_mtu := nic_mtu c; nic_want_rxe := nic_want_rxe c; nic_want_roce := want |}).
Definition list_nic_configs (d : ConfigDoc) : list NicConfig := sort_by nic_netdev (cd_nic_config d).
End store.
