(* ===== verification/StoreFacts.v ===== *)
(** * Invariants and persistence of the desired-state store

    Rule induction over requests: identifiers and names stay unique and no
    identifier is handed out twice; a request that succeeds has replaced the file by
    the document it left in memory unless it found nothing to do, one that fails has
    left the file alone; and the
    daemon's loader reads from any state file what the web service lists. *)
From Stdlib Require Import Ascii String.
From stdpp Require Import base option list strings sets gmap pretty.
From S2P Require Import Prelude Ordered Validate IpAddr Types Desired Fs World Nfs Reconcile Store.
#[local] Open Scope string_scope.
#[local] Open Scope list_scope.
#[local] Open Scope Z_scope.

(** ** Requests *)

Inductive request : Type :=
| InsertNvme (new : NewNvmeExport) | InsertIscsi (new : NewIscsiExport) | InsertNfs (new : NewNfsExport)
| InsertToken (name token_hash : string) (created_at : Z) | InsertPolicy (p : SnapshotPolicy)
| NvmeEnabled (id : Z) (b : bool) | NvmeError (id : Z) (e : option string) | NvmeInterfaces (id : Z) (l : list string)
| NvmeInitiator (id : Z) (i : string) | NvmeDelete (id : Z)
| IscsiEnabled (id : Z) (b : bool) | IscsiError (id : Z) (e : option string) | IscsiInterfaces (id : Z) (l : list string)
| IscsiDelete (id : Z)
| NfsEnabled (id : Z) (b : bool) | NfsError (id : Z) (e : option string) | NfsAddClient (id : Z) (c : NfsClientEntry)
| NfsDelete (id : Z)
| TokenDelete (id : Z)
| PolicyEnabled (id : Z) (b : bool) | PolicyLastRun (id : Z) (t : Z) | PolicyDelete (id : Z)
| Setting (key value : string)
| NicMtu (netdev : string) (mtu : u32) | NicRxe (netdev : string) (b : bool) | NicRoce (netdev : string) (b : bool).

Definition exec_request {K : Kernel} {D : DocCodec} (file : path) (q : request) : sop unit :=
  let ignore {A} (m : sop A) : sop unit := m ≫= λ _, mret tt in
  match q with
  | InsertNvme new => ignore (insert_nvme_export file new)
  | InsertIscsi new => ignore (insert_iscsi_export file new)
  | InsertNfs new => ignore (insert_nfs_export file new)
  | InsertToken n h c => ignore (insert_client_token file n h c)
  | InsertPolicy p => ignore (insert_policy file p)
  | NvmeEnabled id b => set_nvme_export_enabled file id b
  | NvmeError id e => set_nvme_export_error file id e
  | NvmeInterfaces id l => set_nvme_export_interfaces file id l
  | NvmeInitiator id i => ignore (add_nvme_export_initiator file id i)
  | NvmeDelete id => delete_nvme_export file id
  | IscsiEnabled id b => set_iscsi_export_enabled file id b
  | IscsiError id e => set_iscsi_export_error file id e
  | IscsiInterfaces id l => set_iscsi_export_interfaces file id l
  | IscsiDelete id => delete_iscsi_export file id
  | NfsEnabled id b => set_nfs_export_enabled file id b
  | NfsError id e => set_nfs_export_error file id e
  | NfsAddClient id c => ignore (add_nfs_export_client file id c)
  | NfsDelete id => delete_nfs_export file id
  | TokenDelete id => delete_client_token file id
  | PolicyEnabled id b => set_policy_enabled file id b
  | PolicyLastRun id t => set_policy_last_run file id t
  | PolicyDelete id => delete_policy file id
  | Setting k v => set_setting file k v
  | NicMtu n m => set_nic_mtu file n m
  | NicRxe n b => set_nic_want_rxe file n b
  | NicRoce n b => set_nic_want_roce file n b
  end.

(** ** Tables *)

(** Distinct identifiers, none above the counter, and distinct keys. *)
Definition table_ok {A B} (id : A → Z) (key : A → B) (next : Z) (l : list A) : Prop :=
  NoDup (id <$> l) ∧ NoDup (key <$> l) ∧ Forall (λ a, id a ≤ next) l.
Section tables.
Context {A B : Type} (id : A → Z) (key : A → B).
Lemma table_push next l a :
  table_ok id key next l → id a = next + 1 → key a ∉ key <$> l → table_ok id key (next + 1) (l ++ [a]).
Proof.
  intros (Hi & Hk & Hb) Ha Hn. unfold table_ok. rewrite !fmap_app, !NoDup_app, Forall_app. rewrite Forall_forall in Hb.
  split_and!; [done| |apply NoDup_singleton|done| |apply NoDup_singleton| |].
  - intros x (b & -> & Hin)%list_elem_of_fmap. cbn. rewrite list_elem_of_singleton. specialize (Hb b Hin). lia.
  - intros x Hx. cbn. rewrite list_elem_of_singleton. by intros ->.
  - apply Forall_forall. intros b Hin. specialize (Hb b Hin). lia.
  - constructor; [lia|constructor].
Qed.
Lemma NoDup_fmap_filter {C} (f : A → C) (P : A → Prop) `{!∀ x, Decision (P x)} (l : list A) : NoDup (f <$> l) → NoDup (f <$> filter P l).
Proof.
  induction l as [|a l IH]; [done|]. rewrite filter_cons. cbn. intros [Ha Hl]%NoDup_cons.
  destruct (decide _); [|by apply IH]. cbn. apply NoDup_cons. split; [|by apply IH].
  intros (b & E & [_ Hb]%list_elem_of_filter)%list_elem_of_fmap. apply Ha. rewrite E. by apply list_elem_of_fmap_2.
Qed.
Lemma table_filter next l (P : A → Prop) `{!∀ x, Decision (P x)} : table_ok id key next l → table_ok id key next (filter P l).
Proof.
  intros (Hi & Hk & Hb). split_and!; [by apply NoDup_fmap_filter..|]. rewrite Forall_forall in *. intros a [_ Ha]%list_elem_of_filter. auto.
Qed.
Lemma edit_first_fmap {C} (g : A → C) p f l : (∀ a, g (f a) = g a) → g <$> edit_first p f l = g <$> l.
Proof. intros Hg. induction l as [|a l IH]; [done|]. cbn. destruct (p a); cbn; by rewrite ?Hg, ?IH. Qed.
Lemma table_edit next l p f :
  (∀ a, id (f a) = id a) → (∀ a, key (f a) = key a) → table_ok id key next l → table_ok id key next (edit_first p f l).
Proof.
  intros Hi Hk (H1 & H2 & H3). unfold table_ok. rewrite !edit_first_fmap by done. split_and!; [done..|].
  apply (Forall_fmap _ (λ i, i ≤ next)). rewrite edit_first_fmap by done. by apply Forall_fmap.
Qed.
End tables.
(** ** The invariant *)

Record store_ok (d : ConfigDoc) : Prop := {
  so_nvme : table_ok nvme_id nvme_name (cd_next_nvme_export_id d) (cd_nvme_export d);
  so_iscsi : table_ok iscsi_id iscsi_name (cd_next_iscsi_export_id d) (cd_iscsi_export d);
  so_nfs : table_ok nfs_id nfs_path (cd_next_nfs_export_id d) (cd_nfs_export d);
  so_policy : table_ok sp_id sp_id (cd_next_policy_id d) (cd_policy d);
  so_token : table_ok ct_id ct_name (cd_next_client_token_id d) (cd_client_token d);
  so_nic : NoDup (nic_netdev <$> cd_nic_config d) }.
(** What a request may do to the document: keep the invariant, and move counters
    only forward. *)
Record doc_step (d d' : ConfigDoc) : Prop := {
  ds_ok : store_ok d → store_ok d';
  ds_nvme : cd_next_nvme_export_id d ≤ cd_next_nvme_export_id d';
  ds_iscsi : cd_next_iscsi_export_id d ≤ cd_next_iscsi_export_id d';
  ds_nfs : cd_next_nfs_export_id d ≤ cd_next_nfs_export_id d';
  ds_policy : cd_next_policy_id d ≤ cd_next_policy_id d';
  ds_token : cd_next_client_token_id d ≤ cd_next_client_token_id d';
  ds_legacy : cd_legacy_export d' = cd_legacy_export d }.
#[export] Instance doc_step_preorder : PreOrder doc_step.
Proof.
  split; [intros d; by split|]. intros a b c [] []. split; try lia; [auto|congruence].
Qed.
(** One table edited, the others as they were. *)
Ltac one_table := split; cbn; try lia; [|done]; intros []; split; cbn; try done.

Section runs.
Context {K : Kernel} {D : DocCodec} (file : path).

Definition on_disk (s : db) : Prop := ∃ text, doc_toml (db_doc s) = Ok text ∧ db_tree s !! file = Some (File text).
(** What an operation did to the file system: nothing but the file and its
    temporary; on success the document is on disk, or nothing had to be done; on
    failure the file is as it was. *)
Definition outcome (s s' : db) (ok : bool) : Prop :=
  (∀ q, q ≠ file → q ≠ tmp_file file → db_tree s' !! q = db_tree s !! q) ∧
  (if ok then (db_doc s' = db_doc s ∧ db_tree s' = db_tree s) ∨ on_disk s' else db_tree s' !! file = db_tree s !! file).
Lemma outcome_same s ok : outcome s s ok.
Proof. split; [done|]. destruct ok; auto. Qed.

Lemma write_doc_frame text t n r t' n' :
  write_doc file text t n = (r, t', n') → ∀ q, q ≠ file → q ≠ tmp_file file → t' !! q = t !! q.
Proof.
  intros H q Hf Ht. assert (Hk : keeps (λ q, q = file ∨ q = tmp_file file) (write_doc file text)).
  { unfold write_doc. repeat respects_step.
    - eapply keeps_weaken; [apply keeps_write|]. by right.
    - eapply keeps_weaken; [apply keeps_rename|]. intros x [->| ->]; auto. }
  apply (Hk _ _ _ _ _ H). naive_solver.
Qed.
Lemma write_doc_Ok text t n t' n' : write_doc file text t n = (Ok tt, t', n') → t' !! file = Some (File text).
Proof.
  intros H. assert (Ho : oks (write_doc file text) t tt t') by by eexists _, _.
  unfold write_doc in Ho. apply oks_bind in Ho as ([] & t1 & H1 & H2). apply oks_map_err, oks_write in H1 as ->.
  apply oks_map_err, oks_syscall in H2 as [_ ->]. rewrite lookup_insert_eq. by rewrite lookup_insert_eq.
Qed.
Lemma write_doc_Err text t n e t' n' :
  tmp_file file ≠ file → write_doc file text t n = (Err e, t', n') → t' !! file = t !! file.
Proof.
  intros Hne [(e' & H & _)|(u & t1 & n1 & H1 & H)]%bind_run.
  - assert (Hk : keeps (λ q, q = tmp_file file) (io_map_err (λ e, io_err (err_kind e) (context "writing" (tmp_file file) (err_msg e))) (write_file (tmp_file file) text)))
      by apply respects_map_err, keeps_write. by apply (Hk _ _ _ _ _ H).
  - assert (Hk : keeps (λ q, q = tmp_file file) (io_map_err (λ e, io_err (err_kind e) (context "writing" (tmp_file file) (err_msg e))) (write_file (tmp_file file) text)))
      by apply respects_map_err, keeps_write.
    rewrite <- (Hk _ _ _ _ _ H1 file) by done. unfold io_map_err, rename, syscall in H.
    destruct (match t1 !! tmp_file file with Some Dir => _ | _ => _ end); [by injection H as _ <- _|].
    destruct (deny _ _ _); [by injection H as _ <- _|done].
Qed.
Context (Hne : tmp_file file ≠ file).
Lemma persist_run s r s' :
  persist file s = (r, s') → db_doc s' = db_doc s ∧
  (∀ q, q ≠ file → q ≠ tmp_file file → db_tree s' !! q = db_tree s !! q) ∧
  (if is_ok r then on_disk s' else db_tree s' !! file = db_tree s !! file).
Proof.
  unfold persist, on_disk. intros H. destruct (doc_toml (db_doc s)) as [text|e] eqn:Et; [|by injection H as <- <-].
  destruct (write_doc _ _ _ _) as [[r0 t] n] eqn:E. injection H as <- <-. cbn. split; [done|].
  split; [by eapply write_doc_frame|]. destruct r0 as [[]|e]; cbn; [|by eapply write_doc_Err].
  exists text. split; [done|by eapply write_doc_Ok].
Qed.
Lemma rewrite_run f s r s' : rewrite file f s = (r, s') → db_doc s' = f (db_doc s) ∧ outcome s s' (is_ok r).
Proof.
  unfold rewrite, the_doc, put, mbind, sop_bind. intros (E & Hf & Ho)%persist_run. cbn in *. split; [done|].
  split; [done|]. destruct (is_ok r); auto.
Qed.
(** The common shape of the insertions. *)
Definition insertion (dup : bool) (msg : string) (next : Z) (make : Z → ConfigDoc) : sop Z :=
  if dup then bail msg else id ← incr_i64 next; _ ← put (make id); _ ← persist file; mret id.
Lemma insertion_run dup msg next make s r s' :
  insertion dup msg next make s = (r, s') →
  outcome s s' (is_ok r) ∧ (db_doc s' = db_doc s ∧ is_ok r = false ∨ dup = false ∧ db_doc s' = make (next + 1)) ∧
  ∀ id, r = Ok id → dup = false ∧ id = next + 1.
Proof.
  unfold insertion, mbind, sop_bind, bail, incr_i64, put, mret, sop_ret.
  destruct dup; [intros [= <- <-]; split; [apply outcome_same|]; split; [by left|done]|].
  destruct (next =? _); [intros [= <- <-]; split; [apply outcome_same|]; split; [by left|done]|].
  destruct (persist file _) as [r1 s1] eqn:E. apply persist_run in E as (Ed & Hf & Ho). cbn in *.
  destruct r1; intros [= <- <-]; cbn in *.
  - split; [by split; auto|]. split; [by right|]. by intros id [= <-].
  - split; [done|]. split; [by right|done].
Qed.
Lemma existsb_key {A} (key : A → string) k l :
  existsb (λ a, bool_decide (key a = k)) l = false → k ∉ key <$> l.
Proof.
  intros H (a & -> & Ha)%list_elem_of_fmap. assert (E : existsb (λ b, bool_decide (key b = key a)) l = true); [|congruence].
  apply existsb_exists. exists a. split; [by apply list_elem_of_In|by apply bool_decide_eq_true_2].
Qed.

(** Each insertion extends its table. *)
Definition step_of (s s' : db) (ok : bool) : Prop := doc_step (db_doc s) (db_doc s') ∧ outcome s s' ok.
Lemma insertion_step dup msg next make s r s' :
  insertion dup msg next make s = (r, s') → (dup = false → doc_step (db_doc s) (make (next + 1))) → step_of s s' (is_ok r).
Proof.
  intros (Ho & [[E _]|[Hd E]] & _)%insertion_run Hs; (split; [rewrite E|done]); [reflexivity|auto].
Qed.
Lemma rewrite_step f s r s' :
  rewrite file f s = (r, s') → doc_step (db_doc s) (f (db_doc s)) → step_of s s' (is_ok r).
Proof. intros [E Ho]%rewrite_run Hs. split; [by rewrite E|done]. Qed.
Lemma ignore_step {A} (m : sop A) s r s' :
  (m ≫= λ _, mret tt) s = (r, s') → (∀ r0, m s = (r0, s') → is_ok r0 = is_ok r → step_of s s' (is_ok r0)) → step_of s s' (is_ok r).
Proof.
  unfold mbind, sop_bind. destruct (m s) as [[a|e] s1] eqn:E; intros [= <- <-] Hm; by apply (Hm _ eq_refl eq_refl).
Qed.
Lemma nic_step_ok netdev edit d :
  (∀ c, nic_netdev (edit c) = nic_netdev c) →
  doc_step d (set_nics d (edit_first (λ c, bool_decide (nic_netdev c = netdev)) edit
    (if existsb (λ c, bool_decide (nic_netdev c = netdev)) (cd_nic_config d) then cd_nic_config d
     else cd_nic_config d ++ [blank_nic netdev]))).
Proof.
  intros He. one_table. rewrite edit_first_fmap by done.
  destruct (existsb _ _) eqn:E; [done|]. apply existsb_key in E. rewrite fmap_app. apply NoDup_app. split_and!; [done| |apply NoDup_singleton].
  intros x Hx. cbn. rewrite list_elem_of_singleton. by intros ->.
Qed.
Lemma nvme_step_ok id f d :
  (∀ e, nvme_id (f e) = nvme_id e) → (∀ e, nvme_name (f e) = nvme_name e) →
  doc_step d (set_nvme d (edit_first (λ e, nvme_id e =? id) f (cd_nvme_export d))).
Proof. intros H1 H2. one_table. by apply table_edit. Qed.
Lemma nfs_step_ok id f d :
  (∀ e, nfs_id (f e) = nfs_id e) → (∀ e, nfs_path (f e) = nfs_path e) →
  doc_step d (set_nfs d (edit_first (λ e, nfs_id e =? id) f (cd_nfs_export d))).
Proof. intros H1 H2. one_table. by apply table_edit. Qed.
Lemma request_step q s r s' : exec_request file q s = (r, s') → step_of s s' (is_ok r).
Proof.
  destruct q; cbn [exec_request]; intros H;
    try (apply ignore_step in H; [exact H|]; clear H; intros r0 H _);
    try (apply (rewrite_step _ _ _ _ H); one_table; by apply table_filter || by apply table_edit);
    try (by apply (rewrite_step _ _ _ _ H), nic_step_ok).
  - apply (insertion_step _ _ _ (λ id, add_nvme (db_doc s) id _) _ _ _ H). intros Hd. one_table.
    apply table_push; [done..|by apply existsb_key].
  - apply (insertion_step _ _ _ (λ id, add_iscsi (db_doc s) id _) _ _ _ H). intros Hd. one_table.
    apply table_push; [done..|by apply existsb_key].
  - apply (insertion_step _ _ _ (λ id, add_nfs (db_doc s) id _) _ _ _ H). intros Hd. one_table.
    apply table_push; [done..|by apply existsb_key].
  - apply (insertion_step _ _ _ (λ id, add_token (db_doc s) id _) _ _ _ H). intros Hd. one_table.
    apply table_push; [done..|by apply existsb_key].
  - apply (insertion_step false EmptyString _ (λ id, add_policy (db_doc s) id _) _ _ _ H). intros _. one_table.
    apply table_push; [done..|]. cbn. intros (p' & E & Hp)%list_elem_of_fmap.
    destruct so_policy0 as (_ & _ & Hb). rewrite Forall_forall in Hb. specialize (Hb p' Hp). lia.
  - unfold add_nvme_export_initiator, mbind at 1, sop_bind at 1, the_doc in H.
    destruct (List.find _ _) as [e|]; [|injection H as <- <-; split; [reflexivity|apply outcome_same]].
    case_bool_decide; [injection H as <- <-; split; [reflexivity|apply outcome_same]|].
    unfold mbind, sop_bind in H. destruct (with_nvme _ _ _ _) as [[u|e'] s1] eqn:E; injection H as <- <-;
      apply (rewrite_step _ _ _ _ E); by apply nvme_step_ok.
  - unfold add_nfs_export_client, mbind at 1, sop_bind at 1, the_doc in H.
    destruct (List.find _ _) as [e|]; [|injection H as <- <-; split; [reflexivity|apply outcome_same]].
    destruct (existsb _ _); [injection H as <- <-; split; [reflexivity|apply outcome_same]|].
    unfold mbind, sop_bind in H. destruct (with_nfs _ _ _ _) as [[u|e'] s1] eqn:E; injection H as <- <-;
      apply (rewrite_step _ _ _ _ E); by apply nfs_step_ok.
Qed.
End runs.

(** ** Properties *)

Section theorems.
Context {K : Kernel} {D : DocCodec} (file : path) (Hne : tmp_file file ≠ file).



(** The requests that have nothing to do: adding what the entry already lists. *)
Definition already_listed (q : request) (d : ConfigDoc) : Prop :=
  match q with
  | NvmeInitiator id i => ∃ e, e ∈ cd_nvme_export d ∧ nvme_id e = id ∧ i ∈ nvme_initiators e
  | NfsAddClient id c => ∃ e, e ∈ cd_nfs_export d ∧ nfs_id e = id ∧ nce_client c ∈ nce_client <$> nfs_clients e
  | _ => False
  end.
Lemma rewrite_writes f s u s' : rewrite file f s = (Ok u, s') → on_disk file s'.
Proof. unfold rewrite, the_doc, put, mbind, sop_bind. by intros (_ & _ & Ho)%persist_run. Qed.
Lemma insertion_writes dup msg next make s id s' : insertion file dup msg next make s = (Ok id, s') → on_disk file s'.
Proof.
  unfold insertion, mbind, sop_bind, bail, incr_i64, put, mret, sop_ret. destruct dup; [done|]. destruct (next =? _); [done|].
  destruct (persist file _) as [[u|e] s1] eqn:E; [|done]. apply persist_run in E as (_ & _ & Ho); [|done]. by intros [= _ <-].
Qed.
Lemma ignored_ok {A} (m : sop A) s u s' : (m ≫= λ _, mret tt) s = (Ok u, s') → ∃ a, m s = (Ok a, s').
Proof. unfold mbind, sop_bind. destruct (m s) as [[a|e] s1]; [|done]. intros [= _ <-]. by exists a. Qed.
Lemma find_some_elem {A} (p : A → bool) l a : List.find p l = Some a → a ∈ l ∧ p a = true.
Proof. intros H%find_some. by rewrite <- list_elem_of_In in H. Qed.
Lemma request_writes q s u s' :
  exec_request file q s = (Ok u, s') → on_disk file s' ∨ s' = s ∧ already_listed q (db_doc s).
Proof.
  destruct q; cbn [exec_request]; intros H; try (apply ignored_ok in H as [x H]); try (left; exact (rewrite_writes _ _ _ _ H)).
  - left. by apply (insertion_writes _ _ _ (λ id, add_nvme (db_doc s) id _)) in H.
  - left. by apply (insertion_writes _ _ _ (λ id, add_iscsi (db_doc s) id _)) in H.
  - left. by apply (insertion_writes _ _ _ (λ id, add_nfs (db_doc s) id _)) in H.
  - left. by apply (insertion_writes _ _ _ (λ id, add_token (db_doc s) id _)) in H.
  - left. by apply (insertion_writes false EmptyString _ (λ id, add_policy (db_doc s) id _)) in H.
  - unfold add_nvme_export_initiator, mbind at 1, sop_bind at 1, the_doc in H.
    destruct (List.find _ _) as [e|] eqn:Ef; [|done]. apply find_some_elem in Ef as [He Hid%Z.eqb_eq].
    case_bool_decide as Hin; [injection H as _ <-; right; split; [done|by exists e]|]. left. unfold mbind, sop_bind in H.
    destruct (with_nvme _ _ _ _) as [[v|e'] s1] eqn:E; [|done]. injection H as _ <-. by eapply rewrite_writes.
  - unfold add_nfs_export_client, mbind at 1, sop_bind at 1, the_doc in H.
    destruct (List.find _ _) as [e|] eqn:Ef; [|done]. apply find_some_elem in Ef as [He Hid%Z.eqb_eq].
    destruct (existsb _ _) eqn:Hin; [injection H as _ <-; right; split; [done|exists e; split_and!; [done..|]]|].
    + apply existsb_exists in Hin as (c' & Hc & Ec%bool_decide_eq_true). rewrite <- Ec. apply list_elem_of_fmap_2. by apply list_elem_of_In.
    + left. unfold mbind, sop_bind in H. destruct (with_nfs _ _ _ _) as [[v|e'] s1] eqn:E; [|done]. injection H as _ <-.
      by eapply rewrite_writes.
Qed.

(** C9: a request touches nothing but the state file and its temporary. When it
    succeeds the state file holds exactly the document left in memory; the only
    exception is adding an initiator or a client that the entry in memory already
    lists, which changes neither memory nor disk (and leaves the file right if it was).
    When it fails, whichever call the kernel refused, the state file is what it was
    before; the document in memory may then be ahead of it, until a request next
    succeeds in writing. *)
Theorem request_atomic q s r s' :
  exec_request file q s = (r, s') →
  (∀ p, p ≠ file → p ≠ tmp_file file → db_tree s' !! p = db_tree s !! p) ∧
  match r with
  | Ok _ => (on_disk file s' ∨ s' = s ∧ already_listed q (db_doc s)) ∧ (on_disk file s → on_disk file s')
  | Err _ => db_tree s' !! file = db_tree s !! file
  end.
Proof.
  intros H. pose proof H as [_ [Hf Ho]]%request_step; [|done]. split; [done|]. destruct r as [u|e]; [|done].
  apply request_writes in H. split; [done|]. by destruct H as [|[-> _]].
Qed.
End theorems.

(** ** The daemon reads what the web service lists *)

(** [toml] at the two document types: what is written reads back without the
    skipped fields, and the daemon's type takes the fields it knows. *)
Definition desired_view (d : ConfigDoc) : DesiredDoc :=
  {| doc_settings := cd_settings d; doc_nvme_export := cd_nvme_export d; doc_iscsi_export := cd_iscsi_export d;
     doc_nfs_export := cd_nfs_export d; doc_nic_config := cd_nic_config d; doc_legacy_export := cd_legacy_export d |}.
Class SharedToml {T : Toml} {D : DocCodec} : Prop := {
  read_back d s : doc_toml d = Ok s → toml_doc s = Ok (written_form d);
  same_file s d : toml_doc s = Ok d → toml_desired s = Ok (desired_view d) }.
Definition listed (d : ConfigDoc) : Desired :=
  {| des_nvme_exports := list_nvme_exports d; des_iscsi_exports := list_iscsi_exports d;
     des_nfs_exports := list_nfs_exports d; des_nic_configs := list_nic_configs d;
     des_listen := default UNSPECIFIED (get_setting d "listen_addr" ≫= parse_ip) |}.
Lemma migrate_split l acc :
  foldl migrate_step acc l =
    (acc.1 ++ (legacy_nvme <$> filter (λ e, leg_kind e ≠ "iscsi") l), acc.2 ++ (legacy_iscsi <$> filter (λ e, leg_kind e = "iscsi") l)).
Proof.
  revert acc. induction l as [|e l IH]; intros [a b]; cbn -[filter]; [by rewrite !app_nil_r|].
  rewrite IH. unfold migrate_step. rewrite !filter_cons. case_bool_decide; repeat case_decide; try done; cbn; by rewrite <- !app_assoc.
Qed.
Lemma migrated_view d :
  read_desired (λ _, Ok (desired_view d)) (Text EmptyString) = Ok (listed (migrate_legacy_exports d)).
Proof.
  unfold read_desired. cbn [mbind result_bind]. unfold fold_legacy. rewrite fold_legacy_steps. cbn.
  unfold migrate_legacy_exports. destruct (cd_legacy_export d) as [|e l] eqn:E.
  - cbn. by rewrite !app_nil_r.
  - rewrite migrate_split. done.
Qed.
Lemma load_listed {T : Toml} {D : DocCodec} {HT : SharedToml} file t d :
  load_config file t = Ok d → read_desired_at file t = Ok (listed d).
Proof.
  unfold load_config, read_desired_at. intros H. destruct (open_file t file) as [s| |m].
  - destruct (toml_doc s) as [d0|e] eqn:E; [|done]. injection H as <-. apply same_file in E.
    rewrite <- migrated_view. unfold read_desired. by rewrite E.
  - by injection H as <-.
  - done.
Qed.
Lemma loaded_migrated {D : DocCodec} file t d : load_config file t = Ok d → cd_legacy_export d = [].
Proof.
  unfold load_config. intros H. destruct (open_file t file) as [s| |m]; [|by injection H as <-|done].
  destruct (toml_doc s) as [d0|e]; [|done]. injection H as <-. unfold migrate_legacy_exports.
  destruct (cd_legacy_export d0) eqn:E; [done|]. by destruct (foldl _ _ _).
Qed.
(** The file holds the document in memory. *)
Definition synced `{DocCodec} (file : path) (s : db) : Prop :=
  load_config file (db_tree s) = Ok (written_form (db_doc s)) ∧ cd_legacy_export (db_doc s) = [].
Lemma on_disk_synced {T : Toml} {D : DocCodec} {HT : SharedToml} file s :
  on_disk file s → cd_legacy_export (db_doc s) = [] → synced file s.
Proof.
  intros (text & Ht & Hf) Hl. split; [|done]. unfold load_config, open_file. rewrite Hf.
  by rewrite (read_back _ _ Ht).
Qed.
(** C10: for every state file the web service can load, hand-edited or from before the
    exports were split by protocol, what it loads and lists is exactly what the
    daemon's reconciler reads from that file. Of a store whose legacy rows have been
    migrated (loading does that): after a request that succeeded, unless it had nothing
    to do, the daemon's next read is exactly what the web service lists, also when an
    earlier write had failed; after one that had nothing to do it is, if it was before;
    and a request that fails leaves the daemon's next read as it was. *)
Theorem daemon_reads_the_store {K : Kernel} {T : Toml} {D : DocCodec} {HT : SharedToml} file :
  tmp_file file ≠ file →
  (∀ t d, load_config file t = Ok d → read_desired_at file t = Ok (listed d) ∧ cd_legacy_export d = []) ∧
  (∀ q s r s', cd_legacy_export (db_doc s) = [] → exec_request file q s = (r, s') →
     cd_legacy_export (db_doc s') = [] ∧
     match r with
     | Ok _ => (¬ already_listed q (db_doc s) ∨ synced file s →
                synced file s' ∧ read_desired_at file (db_tree s') = Ok (listed (db_doc s')))
     | Err _ => read_desired_at file (db_tree s') = read_desired_at file (db_tree s)
     end).
Proof.
  intros Hne. split; [intros t d H; split; [by apply load_listed|by eapply loaded_migrated]|].
  intros q s r s' Hl H. pose proof (request_step file Hne _ _ _ _ H) as [[_ _ _ _ _ _ El] [_ Ho]].
  rewrite El. split; [done|]. destruct r as [u|e]; cycle 1.
  { unfold read_desired_at, open_file. by rewrite Ho. }
  intros Hc. assert (Hs : synced file s').
  { apply request_writes in H as [H|[-> H]]; [..|done]; [apply on_disk_synced; [done|by rewrite El]|]. by destruct Hc as [?|?]. }
  split; [done|]. destruct Hs as [Hs _]. by apply load_listed in Hs.
Qed.

(** ** A small codec *)

#[local] Instance NvmeExport_eq_dec : EqDecision NvmeExport.
Proof. solve_decision. Defined.
#[local] Instance IscsiExport_eq_dec : EqDecision IscsiExport.
Proof. solve_decision. Defined.
#[local] Instance NfsClientEntry_eq_dec : EqDecision NfsClientEntry.
Proof. solve_decision. Defined.
#[local] Instance NfsExport_eq_dec : EqDecision NfsExport.
Proof. solve_decision. Defined.
#[local] Instance NicConfig_eq_dec : EqDecision NicConfig.
Proof. solve_decision. Defined.
#[local] Instance LegacyExport_eq_dec : EqDecision LegacyExport.
Proof. solve_decision. Defined.
#[local] Instance ClientToken_eq_dec : EqDecision ClientToken.
Proof. solve_decision. Defined.
#[local] Instance SnapshotPolicy_eq_dec : EqDecision SnapshotPolicy.
Proof. solve_decision. Defined.
#[local] Instance ConfigDoc_eq_dec : EqDecision ConfigDoc.
Proof. solve_decision. Defined.
Definition ex_file : path := ["var"; "lib"; "greendotrdma"; "state.toml"].
Definition ex_new : NewNvmeExport := {|
  nn_name := "vm1"; nn_device_path := "/dev/zvol/tank/vm1"; nn_want_rdma := true; nn_want_tcp := false; nn_want_loop := false;
  nn_allow_any_host := false; nn_initiators := ["nqn.2014-08.org.nvmexpress:h"; "nqn.2014-08.org.nvmexpress:h"]; nn_interfaces := [] |}.
(** Two documents it can write: the empty one, and one with the export. *)
Definition ex_doc : ConfigDoc := add_nvme ConfigDoc_default 1 {|
  nvme_id := 1; nvme_name := "vm1"; nvme_device_path := "/dev/zvol/tank/vm1"; nvme_enabled := true; nvme_want_rdma := true;
  nvme_want_tcp := false; nvme_want_loop := false; nvme_allow_any_host := false;
  nvme_initiators := ["nqn.2014-08.org.nvmexpress:h"]; nvme_interfaces := []; nvme_last_error := None |}.
#[local] Instance ex_codec : DocCodec := {|
  toml_doc := λ s, if bool_decide (s = "empty") then Ok ConfigDoc_default
                   else if bool_decide (s = "one export") then Ok ex_doc else Err "expected a table key";
  doc_toml := λ d, if bool_decide (d = ConfigDoc_default) then Ok "empty"
                   else if bool_decide (d = ex_doc) then Ok "one export" else Err "unsupported value" |}.
#[local] Instance ex_toml : Toml := {|
  toml_config := λ _, Err "expected a table key";
  toml_desired := λ s, desired_view <$> toml_doc s |}.
#[local] Instance ex_shared : SharedToml.
Proof.
  split.
  - intros d s. cbn. repeat case_bool_decide; intros [= <-]; subst; congruence || reflexivity.
  - intros s d H. cbn [toml_desired ex_toml]. by rewrite H.
Qed.
Definition ex_dirs : tree := list_to_map
  [(["var"], Dir); (["var"; "lib"], Dir); (["var"; "lib"; "greendotrdma"], Dir)].
Definition ex_store : db := {| db_doc := ConfigDoc_default; db_tree := ex_dirs; db_clock := 0 |}.
Definition ex_inserted : result fault unit * db := @exec_request permissive _ ex_file (InsertNvme ex_new) ex_store.
Lemma ex_tmp : tmp_file ex_file ≠ ex_file.
Proof. vm_compute. discriminate. Qed.
Lemma request_atomic_witness :
  ex_inserted.1 = Ok tt ∧ db_tree ex_inserted.2 !! ex_file = Some (File "one export") ∧
  ∀ p, p ≠ ex_file → p ≠ tmp_file ex_file → db_tree ex_inserted.2 !! p = ex_dirs !! p.
Proof.
  split; [vm_compute; reflexivity|]. split; [vm_compute; reflexivity|].
  exact (proj1 (@request_atomic permissive _ ex_file ex_tmp (InsertNvme ex_new) ex_store ex_inserted.1 ex_inserted.2 (surjective_pairing _))).
Defined.
Lemma daemon_reads_the_store_witness :
  read_desired_at ex_file (db_tree ex_inserted.2) = Ok (listed ex_doc).
Proof.
  assert (Hr : ex_inserted.1 = Ok tt) by (vm_compute; reflexivity).
  assert (Hd : db_doc ex_inserted.2 = ex_doc) by (vm_compute; reflexivity).
  destruct (@daemon_reads_the_store permissive _ _ _ ex_file ex_tmp) as [_ H].
  destruct (H (InsertNvme ex_new) ex_store (Ok tt) ex_inserted.2) as [_ E].
  - reflexivity.
  - rewrite <- Hr. apply surjective_pairing.
  - destruct E as [_ E]; [left; intros []|]. rewrite Hd in E. exact E.
Defined.
(** A failed write leaves the edit in memory: the same insertion, retried when the
    disk accepts it again, is refused as a duplicate although the file never had
    it. *)
Definition full_disk : Kernel := λ _ _ _, Some "No space left on device (os error 28)".
Lemma failed_insert_stays :
  let s := (@insert_nvme_export full_disk _ ex_file ex_new ex_store).2 in
  is_ok (@insert_nvme_export full_disk _ ex_file ex_new ex_store).1 = false ∧
  db_tree s !! ex_file = None ∧ list_nvme_exports (db_doc s) = list_nvme_exports ex_doc ∧
  is_ok (@insert_nvme_export permissive _ ex_file ex_new s).1 = false.
Proof. vm_compute. auto. Qed.
(** A state file written by hand with an export but without the counters: the next
    insertion hands out an identifier that is taken. *)
Definition hand_written : ConfigDoc := set_nvme ConfigDoc_default (cd_nvme_export ex_doc).
Lemma missing_counter_reuses_id :
  let s := {| db_doc := hand_written; db_tree := ex_dirs; db_clock := 0 |} in
  let new := {| nn_name := "vm2"; nn_device_path := "/dev/zvol/tank/vm2"; nn_want_rdma := true; nn_want_tcp := false;
                nn_want_loop := false; nn_allow_any_host := true; nn_initiators := []; nn_interfaces := [] |} in
  nvme_id <$> cd_nvme_export (db_doc (@insert_nvme_export permissive _ ex_file new s).2) = [1; 1].
Proof. vm_compute. reflexivity. Qed.
