(* ===== verification/PipeKeys.v ===== *)
(** * SSH keys of the pipe login (greendotctl/src/pipe_keys.rs, SshPublicKeyLine of
    greendot-proto/src/ops.rs)

    Parsing and rewriting [authorized_keys], the two requests that add and revoke
    a key, and the access report. The [ssh_key] crate and the account database
    are class parameters. A read sees modes and owners; a file is replaced through
    a temporary sibling. *)
From Stdlib Require Import Ascii String.
From stdpp Require Import base option list strings sets gmap pretty.
From S2P Require Import Prelude Ordered Validate IpAddr Types Wire Ops Task Fs World Csi Nic.
#[local] Open Scope string_scope.
#[local] Open Scope list_scope.
#[local] Open Scope N_scope.

(** ** Public keys *)

(** [ssh_key::PublicKey]. *)
Class SshKey := {
  PublicKey : Type;
  from_openssh : string → option PublicKey;
  to_openssh : PublicKey → option string;
  key_comment : PublicKey → string;
  set_comment : string → PublicKey → PublicKey;
  key_algorithm : PublicKey → string;
  key_sha256 : PublicKey → string }.

Definition MAX_PUBLIC_KEY_LEN : N := 16 * 1024.
Definition MAX_COMMENT_LEN : nat := 200.
Record SshPublicKeyLine : Type := {
  sk_canonical : string;
  sk_algorithm : string;
  sk_comment : string;
  sk_fingerprint : SshFingerprint }.
Definition line_break (c : ascii) : bool := (code c =? 10) || (code c =? 13) || (code c =? 0).
Definition has_break (s : string) : bool := existsb line_break (chars s).
(** What is left of a comment: printable ASCII without the characters that
    delimit an options field. *)
Definition comment_char (c : ascii) : bool :=
  (in_range 33 126 c || (code c =? 32)) && negb ((code c =? 34) || (code c =? 92)).
Definition sanitize (comment : string) : string :=
  trim (string_of_list_ascii (take MAX_COMMENT_LEN (filter (λ c, Is_true (comment_char c)) (chars comment)))).

Section public_key.
Context {S : SshKey}.
Definition public_key_line (input : string) : option SshPublicKeyLine :=
  if MAX_PUBLIC_KEY_LEN <? slen input then None else
  let input := trim input in
  if has_break input then None else
  key ← from_openssh input;
  let key := set_comment (sanitize (key_comment key)) key in
  canonical ← to_openssh key;
  if has_break canonical then None else
  fingerprint ← to_option (new NtSshFingerprint (key_sha256 key));
  Some {| sk_canonical := canonical; sk_algorithm := key_algorithm key;
          sk_comment := key_comment key; sk_fingerprint := fingerprint |}.
End public_key.
(** Everything before the second space. *)
Fixpoint before_space (n : nat) (s : string) : option string :=
  match s with
  | EmptyString => None
  | String c r =>
      if bool_decide (c = " "%char)
      then match n with O => Some EmptyString | S n => String c <$> before_space n r end
      else String c <$> before_space n r
  end.
Definition key_only (k : SshPublicKeyLine) : string := default (sk_canonical k) (before_space 1 (sk_canonical k)).

(** ** Configuration and target *)

(** Accounts, as the name service knows them. *)
Record User : Type := { us_name : string; us_uid : N; us_gid : N; us_dir : path }.
Record Group : Type := { gr_gid : N; gr_mem : list string }.
(** The name service, the umask, and the suffix [mkstemp] settles on. *)
Class Login := {
  user_from_name : string → result string (option User);
  group_from_name : string → result string (option Group);
  umask : N;
  mkstemp_suffix : nat → tree → string }.

Definition SSH_USER : string := "greendot-csi".
Definition SSH_HOST_KEY_GLOB_DIR : path := ["etc"; "ssh"].
Definition FALLBACK_PIPE_BIN : string := "/usr/libexec/greendotrdma/greendotctl".
Record PipeKeyConfig : Type := {
  pk_user : string;
  pk_socket_group : string;
  pk_pipe_bin : string;
  pk_home_override : option path }.
Definition forced_command (cfg : PipeKeyConfig) : string :=
  "command=" +:+ dquote +:+ pk_pipe_bin cfg +:+ " pipe" +:+ dquote +:+ ",restrict".
Definition resolve_pipe_bin (current_exe : option string) : string := default FALLBACK_PIPE_BIN current_exe.

Record Target : Type := {
  tg_home : path; tg_ssh_dir : path; tg_authorized_keys : path; tg_ids : option (N * N) }.
Definition target_at (home : path) (ids : option (N * N)) : Target :=
  {| tg_home := home; tg_ssh_dir := home ++ [".ssh"];
     tg_authorized_keys := (home ++ [".ssh"]) ++ ["authorized_keys"]; tg_ids := ids |}.

(** ** Lines of the file *)

Record ParsedKey : Type := { pk_key : SshPublicKeyLine; pk_options : string; pk_ours : bool }.
Inductive LineKind : Type := Blank | Key (k : ParsedKey) | Unparsable.
Record Line : Type := { ln_raw : string; ln_kind : LineKind }.

(** The scan up to the first space or tab outside quotes. *)
Fixpoint scan_options (in_quotes : bool) (s : string) : option (string * string) :=
  match s with
  | EmptyString => None
  | String c r =>
      if code c =? 34 then (λ '(o, b), (String c o, b)) <$> scan_options (negb in_quotes) r
      else if ((code c =? 32) || (code c =? 9)) && negb in_quotes then Some (EmptyString, s)
      else (λ '(o, b), (String c o, b)) <$> scan_options in_quotes r
  end.

Section keys.
Context {S : SshKey} {H : Login}.

Definition resolve (cfg : PipeKeyConfig) : result ioerr Target :=
  match pk_home_override cfg with
  | Some home => Ok (target_at home None)
  | None =>
      match user_from_name (pk_user cfg) with
      | Err e => Err (io_err KRefused e)
      | Ok None => Err (io_err KRefused ("user " +:+ pk_user cfg +:+ " does not exist"))
      | Ok (Some u) => Ok (target_at (us_dir u) (Some (us_uid u, us_gid u)))
      end
  end.

Definition split_options (line : string) : string * string :=
  match public_key_line line with
  | Some _ => ("", line)
  | None =>
      match scan_options false line with
      | Some (options, rest) => (options, trim_start rest)
      | None => ("", line)
      end
  end.
Definition parse_line (forced raw : string) : Line :=
  let trimmed := trim raw in
  if is_empty trimmed || starts_with "#" trimmed then {| ln_raw := raw; ln_kind := Blank |} else
  let '(options, body) := split_options trimmed in
  match public_key_line body with
  | Some key => {| ln_raw := raw;
                   ln_kind := Key {| pk_key := key; pk_options := options; pk_ours := bool_decide (options = forced) |} |}
  | None => {| ln_raw := raw; ln_kind := Unparsable |}
  end.
Definition line_key (l : Line) : option ParsedKey :=
  match ln_kind l with Key k => Some k | _ => None end.
Definition has_fingerprint (fingerprint : string) (l : Line) : bool :=
  match line_key l with
  | Some k => bool_decide (as_str (sk_fingerprint (pk_key k)) = fingerprint)
  | None => false
  end.
Definition render (ls : list Line) : string := concat_s ((λ l, ln_raw l +:+ newline) <$> ls).

(** ** Reading, with the checks of UTF-8 and of the path *)

(** One byte of the UTF-8 automaton: how many continuation bytes are due, and
    the range of the next one. *)
Definition utf8_lead (b : N) : option (nat * N * N) :=
  if b <? 128 then Some (0%nat, 0, 0)
  else if (194 <=? b) && (b <=? 223) then Some (1%nat, 128, 191)
  else if b =? 224 then Some (2%nat, 160, 191)
  else if b =? 237 then Some (2%nat, 128, 159)
  else if (225 <=? b) && (b <=? 239) then Some (2%nat, 128, 191)
  else if b =? 240 then Some (3%nat, 144, 191)
  else if (241 <=? b) && (b <=? 243) then Some (3%nat, 128, 191)
  else if b =? 244 then Some (3%nat, 128, 143)
  else None.
Fixpoint utf8_go (due : nat) (lo hi : N) (s : string) : bool :=
  match s, due with
  | EmptyString, O => true
  | EmptyString, _ => false
  | String c r, O => match utf8_lead (code c) with Some (n, lo, hi) => utf8_go n lo hi r | None => false end
  | String c r, Datatypes.S due => (lo <=? code c) && (code c <=? hi) && utf8_go due 128 191 r
  end.
Definition utf8 (s : string) : bool := utf8_go 0 0 0 s.

(** What a path names, or why it cannot be reached. *)
Definition stat (t : tree) (p : path) : result ioerr node :=
  match p with
  | [] => Ok Dir
  | _ =>
      match t !! p with
      | Some (Link _) => Err (io_err KRefused "Too many levels of symbolic links")
      | Some k => Ok k
      | None =>
          if existsb (λ i, match t !! take i p with Some (File _) => true | _ => false end) (seq 1 (length p))
          then Err (io_err KNotADirectory "Not a directory")
          else Err (io_err KNotFound "No such file or directory")
      end
  end.
Definition read_text (t : tree) (p : path) : result ioerr string :=
  match stat t p with
  | Ok (File s) => if utf8 s then Ok s else Err (io_err KRefused "stream did not contain valid UTF-8")
  | Ok _ => Err (io_err KIsADirectory "Is a directory")
  | Err e => Err e
  end.
Definition read_lines (t : tree) (target : Target) (forced : string) : result ioerr (list Line) :=
  match read_text t (tg_authorized_keys target) with
  | Ok text => Ok (parse_line forced <$> lines text)
  | Err e => match err_kind e with KNotFound => Ok [] | _ => Err e end
  end.

(** ** Effects on the tree, the modes and the owners *)

Record disk : Type := { d_tree : tree; d_meta : metas; d_clock : nat }.
Definition kio (A : Type) : Type := disk → result ioerr A * disk.
#[export] Instance kio_ret : MRet kio := λ A a d, (Ok a, d).
#[export] Instance kio_bind : MBind kio := λ A B f m d,
  match m d with (Ok a, d') => f a d' | (Err e, d') => (Err e, d') end.
Definition kio_of {A} (m : io A) : kio A := λ d,
  let '(r, t, n) := m (d_tree d) (d_clock d) in (r, {| d_tree := t; d_meta := d_meta d; d_clock := n |}).
Definition kio_get {A} (f : disk → A) : kio A := λ d, (Ok (f d), d).
Definition kio_result {A} (r : result ioerr A) : kio A := λ d, (r, d).
Definition on_meta (f : tree → metas → metas) : kio unit := λ d,
  (Ok tt, {| d_tree := d_tree d; d_meta := f (d_tree d) (d_meta d); d_clock := d_clock d |}).
(** A path without an entry is as this process created it. *)
Definition meta_of (t : tree) (m : metas) (p : path) : meta :=
  default {| md_mode := N.ldiff (if is_dir t p then 511 else 438) umask; md_uid := 0; md_gid := 0 |} (m !! p).

Context {K : Kernel}.
Definition set_permissions (p : path) (mode : N) : kio unit :=
  _ ← kio_of (syscall (OpChmod p mode) (λ t, match stat t p with Ok _ => None | Err e => Some e end) id);
  on_meta (λ t m, <[p := {| md_mode := mode; md_uid := md_uid (meta_of t m p); md_gid := md_gid (meta_of t m p) |}]> m).
Definition chown (p : path) (uid gid : N) : kio unit :=
  _ ← kio_of (syscall (OpChown p uid gid) (λ t, match stat t p with Ok _ => None | Err e => Some e end) id);
  on_meta (λ t m, <[p := {| md_mode := md_mode (meta_of t m p); md_uid := uid; md_gid := gid |}]> m).
(** A new empty file of the daemon's, readable by its owner only. *)
Definition mkstemp (dir : path) (template : string) : kio path :=
  p ← kio_get (λ d, dir ++ [template +:+ mkstemp_suffix (d_clock d) (d_tree d)]);
  _ ← kio_of (syscall (OpMkstemp p)
    (λ t, if present t p then Some (io_err KAlreadyExists "File exists")
          else if is_dir t (parent p) then None
          else Some (io_err KNotFound "No such file or directory"))
    (λ t, <[p := File ""]> t));
  _ ← on_meta (λ _ m, <[p := {| md_mode := 384; md_uid := 0; md_gid := 0 |}]> m);
  mret p.
Definition rename_k (p q : path) : kio unit :=
  _ ← kio_of (rename p q);
  on_meta (λ _ m, match m !! p with Some x => <[q := x]> (delete p m) | None => delete q m end).
Definition unlink_k (p : path) : kio unit :=
  _ ← kio_of (remove_file p); on_meta (λ _ m, delete p m).

Definition ensure_ssh_dir (target : Target) : kio unit :=
  there ← kio_get (λ d, match stat (d_tree d) (tg_ssh_dir target) with Ok _ => true | Err _ => false end);
  _ ← (if (there : bool) then mret tt else kio_of (create_dir_all (tg_ssh_dir target)));
  _ ← set_permissions (tg_ssh_dir target) 448;
  match tg_ids target with
  | Some (uid, gid) => chown (tg_ssh_dir target) uid gid
  | None => mret tt
  end.
(** The closure [write]: content, sync, mode and owner of the temporary file. *)
Definition fill (target : Target) (tmp : path) (body : string) : kio unit :=
  _ ← kio_of (write_file tmp body);
  _ ← kio_of (fsync tmp);
  _ ← set_permissions tmp 384;
  match tg_ids target with
  | Some (uid, gid) => chown tmp uid gid
  | None => mret tt
  end.
(** On an error, a best-effort cleanup before it is passed on. *)
Definition or_cleanup (m cleanup : kio unit) : kio unit := λ d,
  match m d with
  | (Ok _, d') => (Ok tt, d')
  | (Err e, d') => let '(_, d'') := cleanup d' in (Err e, d'')
  end.
Definition write_atomic (target : Target) (body : string) : kio unit :=
  tmp ← mkstemp (tg_ssh_dir target) ".authorized_keys.";
  or_cleanup (fill target tmp body ≫= λ _, rename_k tmp (tg_authorized_keys target)) (unlink_k tmp).

(** ** The requests *)

Context {C : Client}.
Definition lift_k {A} (m : kio A) : op (result ioerr A) := λ w,
  let '(r, d) := m {| d_tree := w_tree w; d_meta := w_meta w; d_clock := w_clock w |} in
  (Ok r, set_meta (set_fs w (d_tree d) (d_clock d)) (d_meta d)).
(** [format!("{forced} {}\n", canonical)] without its newline. *)
Definition granted_line (forced : string) (key : SshPublicKeyLine) : string :=
  forced +:+ " " +:+ sk_canonical key.
Definition authorize (target : Target) (forced : string) (key : SshPublicKeyLine) : kio SubStatus :=
  r ← kio_get (λ d, read_lines (d_tree d) target forced);
  ls ← kio_result r;
  if existsb (has_fingerprint (as_str (sk_fingerprint key))) ls then mret Skipped else
  _ ← write_atomic target (render ls +:+ granted_line forced key +:+ newline);
  mret Success.
Definition withdraw (target : Target) (forced : string) (fingerprint : SshFingerprint) : kio SubStatus :=
  r ← kio_get (λ d, read_lines (d_tree d) target forced);
  ls ← kio_result r;
  let keep := filter (λ l, Is_true (negb (has_fingerprint (as_str fingerprint) l))) ls in
  if negb (existsb (has_fingerprint (as_str fingerprint)) ls) then mret Skipped else
  _ ← write_atomic target (render keep);
  mret Success.
Definition resolved (cfg : PipeKeyConfig) (body : Target → op unit) : op unit :=
  done ← step_op ("Resolve " +:+ pk_user cfg) (mret ((λ _, Success) <$> resolve cfg));
  if bool_decide (done = Failed) then mret tt else
  match resolve cfg with Ok target => body target | Err _ => mret tt end.
Definition add (cfg : PipeKeyConfig) (key : SshPublicKeyLine) : op unit :=
  let forced := forced_command cfg in
  resolved cfg (λ target,
    done ← step_op "Ensure .ssh directory" (lift_k (_ ← ensure_ssh_dir target; mret Success));
    if bool_decide (done = Failed) then mret tt else
    _ ← step_op ("Authorize key " +:+ as_str (sk_fingerprint key)) (lift_k (authorize target forced key));
    mret tt).
Definition revoke (cfg : PipeKeyConfig) (fingerprint : SshFingerprint) : op unit :=
  let forced := forced_command cfg in
  resolved cfg (λ target,
    _ ← step_op ("Revoke key " +:+ as_str fingerprint) (lift_k (withdraw target forced fingerprint));
    mret tt).

(** ** The access report *)

Definition in_socket_group (cfg : PipeKeyConfig) : bool :=
  match user_from_name (pk_user cfg), group_from_name (pk_socket_group cfg) with
  | Ok (Some user), Ok (Some group) =>
      bool_decide (us_gid user = gr_gid group) || bool_decide (pk_user cfg ∈ gr_mem group)
  | _, _ => false
  end.
Definition is_executable (t : tree) (m : metas) (p : path) : bool :=
  match stat t p with
  | Ok (File _) => negb (N.land (md_mode (meta_of t m p)) 73 =? 0)
  | _ => false
  end.
(** [{mode:04o}]. *)
Fixpoint octal_go (fuel : nat) (n : N) (s : string) : string :=
  match fuel with
  | O => s
  | Datatypes.S fuel => octal_go fuel (n / 8) (String (hex_digit (n mod 8)) s)
  end.
Definition octal4 (n : N) : string := octal_go 4 n "".
Definition check_strict_modes (t : tree) (m : metas) (p : path) (want_owner : option N) (absent_ok : bool) :
    bool * string :=
  match stat t p with
  | Err e =>
      match err_kind e with
      | KNotFound => if absent_ok then (true, show_abs p +:+ " does not exist yet")
                     else (false, show_abs p +:+ " does not exist")
      | _ => (false, show_abs p +:+ ": " +:+ err_msg e)
      end
  | Ok _ =>
      let mode := N.land (md_mode (meta_of t m p)) 511 in
      let uid := md_uid (meta_of t m p) in
      if negb (N.land mode 18 =? 0)
      then (false, show_abs p +:+ " is " +:+ octal4 mode +:+ " " +:+ em_dash
                   +:+ " sshd refuses a group- or world-writable path")
      else match want_owner with
           | Some owner =>
               if negb (uid =? owner) && negb (uid =? 0)
               then (false, show_abs p +:+ " is owned by uid " +:+ pretty uid +:+ " " +:+ em_dash
                            +:+ " sshd requires root or uid " +:+ pretty owner)
               else (true, show_abs p +:+ " " +:+ octal4 mode)
           | None => (true, show_abs p +:+ " " +:+ octal4 mode)
           end
  end.
Fixpoint ends_with (suffix s : string) : bool :=
  bool_decide (s = suffix) || match s with EmptyString => false | String _ r => ends_with suffix r end.
Record HostKey : Type := { hk_algorithm : string; hk_fingerprint : string; hk_key_line : string }.
Definition host_key_file (name : string) : bool := starts_with "ssh_host_" name && ends_with ".pub" name.
Definition host_keys (t : tree) (dir : path) : list HostKey :=
  if negb (is_dir t dir) then [] else
  sort_by hk_algorithm
    ((λ k, {| hk_algorithm := sk_algorithm k; hk_fingerprint := as_str (sk_fingerprint k); hk_key_line := key_only k |})
     <$> omap (λ name, text ← to_option (read_text t (dir ++ [name])); public_key_line text)
              (filter (λ name, Is_true (host_key_file name)) (entries t dir))).

Record PipeKeyEntry : Type := {
  pe_fingerprint : string; pe_algorithm : string; pe_comment : string;
  pe_forced_command_ok : bool; pe_options : string }.
Record PipeAccessReportReply : Type := {
  pr_user : string; pr_socket_group : string; pr_forced_command : string; pr_forced_command_bin_ok : bool;
  pr_host_keys : list HostKey; pr_user_exists : bool; pr_in_socket_group : bool;
  pr_home : bool * string; pr_ssh_dir : bool * string; pr_authorized_keys : bool * string;
  pr_unparsable_lines : u32; pr_keys : list PipeKeyEntry }.
Definition key_entry (k : ParsedKey) : PipeKeyEntry :=
  {| pe_fingerprint := as_str (sk_fingerprint (pk_key k)); pe_algorithm := sk_algorithm (pk_key k);
     pe_comment := sk_comment (pk_key k); pe_forced_command_ok := pk_ours k; pe_options := pk_options k |}.
Definition is_unparsable (l : Line) : bool := match ln_kind l with Unparsable => true | _ => false end.
Definition overridden (cfg : PipeKeyConfig) : bool := match pk_home_override cfg with Some _ => true | None => false end.
Definition report (cfg : PipeKeyConfig) (t : tree) (m : metas) : PipeAccessReportReply :=
  let forced := forced_command cfg in
  let bin_ok := is_executable t m (abs_path (pk_pipe_bin cfg)) in
  let hosts := host_keys t SSH_HOST_KEY_GLOB_DIR in
  match resolve cfg with
  | Err _ =>
      {| pr_user := pk_user cfg; pr_socket_group := pk_socket_group cfg; pr_forced_command := forced;
         pr_forced_command_bin_ok := bin_ok; pr_host_keys := hosts; pr_user_exists := false;
         pr_in_socket_group := false; pr_home := (false, ""); pr_ssh_dir := (false, "");
         pr_authorized_keys := (false, ""); pr_unparsable_lines := lit 0; pr_keys := [] |}
  | Ok target =>
      let want_owner := fst <$> tg_ids target in
      let ls := match read_lines t target forced with Ok ls => ls | Err _ => [] end in
      {| pr_user := pk_user cfg; pr_socket_group := pk_socket_group cfg; pr_forced_command := forced;
         pr_forced_command_bin_ok := bin_ok; pr_host_keys := hosts;
         pr_user_exists := overridden cfg || match tg_ids target with Some _ => true | None => false end;
         pr_in_socket_group := overridden cfg || in_socket_group cfg;
         pr_home := check_strict_modes t m (tg_home target) want_owner false;
         pr_ssh_dir := check_strict_modes t m (tg_ssh_dir target) want_owner false;
         pr_authorized_keys := check_strict_modes t m (tg_authorized_keys target) want_owner true;
         pr_unparsable_lines := truncate 32 (N.of_nat (length (filter (λ l, Is_true (is_unparsable l)) ls)));
         pr_keys := key_entry <$> omap line_key ls |}
  end.
End keys.
