(* ===== verification/PipeKeysFacts.v ===== *)
(** * What the key requests can and cannot do to authorized_keys

    A line the daemon writes reads back as its own key under its own forced
    command; every request refines one step of an abstract key list, whatever
    fails on the way; and from an empty file no line ever grants more than the
    forced command. *)
From Stdlib Require Import Ascii String.
From stdpp Require Import base option list strings sets gmap pretty.
From S2P Require Import Prelude Ordered Validate IpAddr Types Wire Ops Task Fs World Csi Nic PipeKeys.
#[local] Open Scope string_scope.
#[local] Open Scope list_scope.
#[local] Open Scope N_scope.

(** ** Trimming *)

Lemma trim_end_app s t : trim_end t ≠ "" → trim_end (s +:+ t) = s +:+ trim_end t.
Proof.
  intros Ht. induction s as [|c s IH]; [done|].
  change (trim_end (String c s +:+ t)) with
    (let r' := trim_end (s +:+ t) in if is_ws c && is_empty r' then EmptyString else String c r').
  cbv zeta. rewrite IH. change (String c s +:+ trim_end t) with (String c (s +:+ trim_end t)).
  destruct (s +:+ trim_end t) as [|c' r] eqn:E; [|cbn; by rewrite andb_false_r].
  destruct s; [|done]. by destruct (trim_end t).
Qed.
Lemma trim_start_visible c s : is_ws c = false → trim_start (String c s) = String c s.
Proof. intros E. cbn. by rewrite E. Qed.
Lemma trim_start_head s : trim_start s = "" ∨ ∃ c r, trim_start s = String c r ∧ is_ws c = false.
Proof.
  induction s as [|c s IH]; [by left|]. cbn. destruct (is_ws c) eqn:E; [done|]. right. by exists c, s.
Qed.
Lemma trim_end_idem s : trim_end (trim_end s) = trim_end s.
Proof.
  induction s as [|c s IH]; [done|]. cbn. destruct (is_ws c && is_empty (trim_end s)) eqn:E; [done|]. cbn. by rewrite IH, E.
Qed.
Lemma trim_idem s : trim (trim s) = trim s.
Proof.
  unfold trim. destruct (trim_start_head s) as [->|(c & r & -> & E)]; [done|].
  cbn [trim_end]. rewrite E. cbn [andb]. rewrite trim_start_visible by done.
  change (trim_end (String c ?x)) with (if is_ws c && is_empty (trim_end x) then "" else String c (trim_end x)).
  rewrite E. cbn. by rewrite trim_end_idem.
Qed.
Lemma trim_end_incl s : ∃ w, s = trim_end s +:+ w.
Proof.
  induction s as [|c s [w IH]]; [by exists ""|]. cbn. destruct (is_ws c && is_empty (trim_end s)).
  - by exists (String c s).
  - exists w. cbn. by rewrite IH at 1.
Qed.
Lemma trim_start_incl s : ∃ w, s = w +:+ trim_start s.
Proof.
  induction s as [|c s [w IH]]; [by exists ""|]. cbn. destruct (is_ws c); [|by exists ""].
  exists (String c w). cbn. by rewrite IH at 1.
Qed.
(** What is trimmed keeps every property of characters, and is no longer. *)
Lemma trim_incl s : ∃ a b, chars s = chars a ++ chars (trim s) ++ chars b.
Proof.
  destruct (trim_start_incl s) as [a Ha], (trim_end_incl (trim_start s)) as [b Hb]. exists a, b.
  rewrite Ha at 1. rewrite Hb at 1. by rewrite !chars_app.
Qed.
Lemma sanitize_idem c : sanitize (sanitize c) = sanitize c.
Proof.
  unfold sanitize at 1. set (x := sanitize c).
  assert (Forall (λ c, Is_true (comment_char c)) (chars x) ∧ (length (chars x) ≤ MAX_COMMENT_LEN)%nat) as [Hf Hl].
  { unfold x, sanitize. set (l := take _ _). destruct (trim_incl (string_of_list_ascii l)) as (a & b & E).
    unfold chars at 1 in E. rewrite list_ascii_of_string_of_list_ascii in E.
    assert (Forall (λ c, Is_true (comment_char c)) l) as H by (apply Forall_take, Forall_forall; intros y Hy; by apply list_elem_of_filter in Hy as [? _]).
    assert (length l ≤ MAX_COMMENT_LEN)%nat as H' by apply firstn_le_length.
    rewrite E in H, H'. rewrite !Forall_app in H. rewrite !length_app in H'. split; [tauto|lia]. }
  assert (filter (λ c, Is_true (comment_char c)) (chars x) = chars x) as ->.
  { clear Hl. induction Hf as [|a l Ha _ IH]; [done|]. by rewrite filter_cons_True, IH. }
  rewrite firstn_all2 by done. unfold chars. rewrite string_of_list_ascii_of_string. apply trim_idem.
Qed.

(** ** Laws of the key format

    An OpenSSH public key is [algorithm base64 comment]: it prints what it
    parses, starts with the name of its algorithm, and a comment can be replaced. *)
Class SshKeyLaws (S : SshKey) : Prop := {
  comment_set c k : key_comment (set_comment c k) = c;
  set_same k : set_comment (key_comment k) k = k;
  reparse k s : to_openssh k = Some s → trim (key_comment k) = key_comment k → from_openssh s = Some k ∧ trim s = s;
  algorithm_first s k : from_openssh s = Some k → ∃ rest, s = key_algorithm k +:+ " " +:+ rest;
  algorithm_unquoted k : ascii_of_N 34 ∉ chars (key_algorithm k) }.

(** A key a request can carry. *)
Definition made {S : SshKey} (key : SshPublicKeyLine) : Prop :=
  (∃ input, public_key_line input = Some key) ∧ slen (sk_canonical key) <= MAX_PUBLIC_KEY_LEN.

Section keys_facts.
Context {S : SshKey} {HS : SshKeyLaws S} {H : Login}.

Lemma made_canonical key : made key → has_break (sk_canonical key) = false.
Proof.
  intros [[input Hi] _]. unfold public_key_line in Hi. destruct (_ <? _); [done|]. cbv zeta in Hi.
  destruct (has_break (trim input)); [done|]. apply bind_Some in Hi as (k & _ & Hi).
  apply bind_Some in Hi as (s & _ & Hi). destruct (has_break s) eqn:E; [done|].
  by apply bind_Some in Hi as (fp & _ & [= <-]).
Qed.
(** The canonical line is a key again, the same one. *)
Lemma canonical_again key :
  made key → public_key_line (sk_canonical key) = Some key ∧ trim (sk_canonical key) = sk_canonical key
             ∧ sk_canonical key ≠ "".
Proof.
  intros [[input Hi] Hlen]. unfold public_key_line in Hi. destruct (_ <? _); [done|]. cbv zeta in Hi.
  destruct (has_break (trim input)); [done|]. apply bind_Some in Hi as (k & _ & Hi).
  set (k' := set_comment (sanitize (key_comment k)) k) in *.
  assert (key_comment k' = sanitize (key_comment k)) as Hc by apply comment_set.
  apply bind_Some in Hi as (s & Ht & Hi). destruct (has_break s) eqn:Hb; [done|].
  apply bind_Some in Hi as (fp & Hfp & [= <-]). cbn [sk_canonical] in *.
  destruct (reparse k' s Ht) as [Hr Hs]; [rewrite Hc; unfold sanitize; apply trim_idem|].
  split_and!; [|done|].
  - unfold public_key_line. rewrite (proj2 (N.ltb_ge _ _)) by exact Hlen. cbv zeta. rewrite Hs, Hb, Hr. cbn [mbind option_bind].
    assert (set_comment (sanitize (key_comment k')) k' = k') as ->.
    { rewrite Hc, sanitize_idem, <- Hc. apply set_same. }
    rewrite Ht. cbn [mbind option_bind]. rewrite Hb, Hfp. done.
  - intros ->. apply algorithm_first in Hr as [rest E]. by destruct (key_algorithm k').
Qed.

(** ** The options in front of a key *)

Definition prepend (s : string) (o : option (string * string)) : option (string * string) :=
  (λ '(a, b), (s +:+ a, b)) <$> o.
Lemma scan_quoted s r : ascii_of_N 34 ∉ chars s → scan_options true (s +:+ r) = prepend s (scan_options true r).
Proof.
  induction s as [|c s IH]; intros Hq; cbn; [by destruct (scan_options true r) as [[]|]|].
  cbn in Hq. apply not_elem_of_cons in Hq as [Hc Hq]. destruct (code c =? 34) eqn:E.
  { apply N.eqb_eq in E. destruct Hc. trans (ascii_of_N (code c)); [by rewrite E|apply ascii_N_embedding]. }
  rewrite andb_false_r, (IH Hq). by destruct (scan_options true r) as [[]|].
Qed.
Definition bare_char (c : ascii) : bool := negb ((code c =? 34) || (code c =? 32) || (code c =? 9)).
Lemma scan_bare s r : all_chars bare_char s → scan_options false (s +:+ r) = prepend s (scan_options false r).
Proof.
  unfold all_chars. induction s as [|c s IH]; intros Hs; cbn; [by destruct (scan_options false r) as [[]|]|].
  cbn in Hs. apply andb_True in Hs as [Hc Hs]. unfold bare_char in Hc.
  destruct (code c =? 34), (code c =? 32), (code c =? 9); try done. cbn.
  rewrite (IH Hs). by destruct (scan_options false r) as [[]|].
Qed.
Lemma scan_forced cfg r :
  ascii_of_N 34 ∉ chars (pk_pipe_bin cfg) →
  scan_options false (forced_command cfg +:+ " " +:+ r) = Some (forced_command cfg, " " +:+ r).
Proof.
  intros Hq. unfold forced_command. rewrite !app_assoc_s. rewrite scan_bare by done.
  change (dquote +:+ ?x) with (String (ascii_of_N 34) x). cbn [scan_options].
  change (code (ascii_of_N 34) =? 34) with true. cbv iota. cbn [negb].
  rewrite scan_quoted by done. rewrite scan_quoted by by apply (all_chars_absent (λ c, negb (code c =? 34))).
  change (String (ascii_of_N 34) ?x) with (dquote +:+ x) at 1.
  change (scan_options true (dquote +:+ ?x)) with (prepend dquote (scan_options false x)).
  rewrite scan_bare by done. done.
Qed.

(** A line that starts with the forced command is not itself a key. *)
Lemma options_no_key cfg r : from_openssh (forced_command cfg +:+ r) = None.
Proof.
  destruct (from_openssh _) as [k|] eqn:E; [|done]. exfalso.
  destruct (algorithm_first _ _ E) as [rest Hr]. pose proof (algorithm_unquoted k) as Hq. clear E.
  unfold forced_command in Hr. revert Hr Hq. generalize (key_algorithm k). intros a.
  do 9 (destruct a as [|? a]; [done|]; cbn; intros [= <- Hr] Hq; revert Hr Hq; cbn).
  intros _ Hq. apply Hq. repeat (left || right).
Qed.
(** The line a grant writes reads back as the granted key under exactly the
    forced command. *)
Lemma parse_granted cfg key :
  made key → ascii_of_N 34 ∉ chars (pk_pipe_bin cfg) →
  parse_line (forced_command cfg) (granted_line (forced_command cfg) key) =
  {| ln_raw := granted_line (forced_command cfg) key;
     ln_kind := Key {| pk_key := key; pk_options := forced_command cfg; pk_ours := true |} |}.
Proof.
  intros Hm Hq. destruct (canonical_again key Hm) as (Hk & Ht & Hne). unfold parse_line.
  set (line := granted_line (forced_command cfg) key).
  assert (trim_end (sk_canonical key) = sk_canonical key ∧ trim_start (sk_canonical key) = sk_canonical key) as [He Hs].
  { destruct (trim_start_head (sk_canonical key)) as [E|(c & r & E & Hc)].
    - unfold trim in Ht. rewrite E in Ht. by rewrite <- Ht in Hne.
    - pose proof Ht as Ht'. unfold trim in Ht'. rewrite E in Ht'. cbn [trim_end] in Ht'. rewrite Hc in Ht'. cbn [andb] in Ht'.
      rewrite <- Ht'. cbn [trim_end trim_start]. rewrite Hc. cbn [andb]. by rewrite trim_end_idem. }
  assert (trim line = line) as ->.
  { unfold trim. change (trim_start line) with line. unfold line, granted_line. rewrite <- app_assoc_s.
    rewrite trim_end_app by by rewrite He. by rewrite He. }
  change (is_empty line || starts_with "#" line) with false. cbv iota.
  assert (split_options line = (forced_command cfg, sk_canonical key)) as ->.
  { unfold split_options. assert (public_key_line line = None) as ->.
    { unfold public_key_line. destruct (_ <? _); [done|]. cbv zeta. destruct (has_break _); [done|].
      unfold trim. change (trim_start line) with line. unfold line, granted_line. rewrite <- app_assoc_s.
      rewrite trim_end_app by by rewrite He. rewrite app_assoc_s. by rewrite options_no_key. }
    unfold line, granted_line. rewrite scan_forced by done. f_equal.
    change (trim_start (" " +:+ ?x)) with (trim_start x). exact Hs. }
  rewrite Hk. by rewrite bool_decide_true.
Qed.
End keys_facts.

(** ** Texts and their lines *)

Definition cr_free (s : string) : Prop := ascii_of_N 13 ∉ chars s.
Definition one_line (s : string) : Prop := cr_free s ∧ lf ∉ chars s.
Lemma strip_cr_free s : cr_free s → strip_cr s = s.
Proof.
  unfold cr_free. induction s as [|c s IH]; [done|]. intros Hc. cbn [chars list_ascii_of_string] in Hc.
  apply not_elem_of_cons in Hc as [Hc Hs]. cbn [strip_cr]. rewrite IH by done. destruct s; [|done].
  destruct (code c =? 13) eqn:E; [|done]. apply N.eqb_eq in E. destruct Hc. rewrite <- E. apply ascii_N_embedding.
Qed.
Lemma lines_one_line s : cr_free s → Forall one_line (lines s).
Proof.
  unfold lines, cr_free. intros Hs. fold lf.
  assert (Forall one_line (split lf s)) as Hf.
  { apply Forall_forall. intros p Hp. split.
    - intros Hc. apply Hs. rewrite <- (join_split lf s). clear -Hp Hc. revert Hp. generalize (split lf s). intros l.
      induction l as [|a l IH]; intros Hp; [by apply elem_of_nil in Hp|]. apply elem_of_cons in Hp as [<-|Hp].
      + destruct l; [done|]. cbn [join]. rewrite chars_app. apply elem_of_app. by left.
      + destruct l; [by apply elem_of_nil in Hp|]. cbn [join]. rewrite chars_app. apply elem_of_app. right.
        rewrite chars_app. apply elem_of_app. right. by apply IH.
    - pose proof (split_pieces lf s) as Hsp. by eapply Forall_forall in Hsp. }
  clear Hs. induction Hf as [|p l Hp Hl IH]; [constructor|]. destruct l as [|q l].
  - cbn. destruct (is_empty p); [done|]. by apply Forall_singleton.
  - cbn [terminated] in IH |- *. constructor; [|exact IH]. rewrite strip_cr_free; [done|apply Hp].
Qed.
Lemma lines_ended ls t :
  Forall one_line ls → lines (concat_s ((λ l, l +:+ newline) <$> ls) +:+ t) = ls ++ lines t.
Proof.
  induction 1 as [|l ls [Hc Hl] _ IH]; [done|]. cbn [fmap list_fmap concat_s app]. rewrite !app_assoc_s.
  change (newline +:+ ?x) with (String lf x). rewrite lines_app, split_absent, IH by done. cbn. by rewrite strip_cr_free.
Qed.
Lemma ended_cr_free ls : Forall one_line ls → cr_free (concat_s ((λ l, l +:+ newline) <$> ls)).
Proof.
  unfold cr_free. induction 1 as [|l ls [Hc _] _ IH]; [by apply not_elem_of_nil|]. cbn [fmap list_fmap concat_s].
  rewrite !chars_app, !elem_of_app. intros [[?|Hn]|?]; [done| |done]. revert Hn.
  by apply (all_chars_absent (λ c, negb (code c =? 13))).
Qed.
Lemma unbroken s : has_break s = false → one_line s.
Proof.
  unfold has_break. intros Hb.
  assert (∀ c, c ∈ chars s → line_break c = false) as Hs.
  { intros c Hc. destruct (line_break c) eqn:E; [|done]. rewrite <- Hb. symmetry. apply existsb_exists.
    exists c. split; [by apply list_elem_of_In|done]. }
  split; intros Hc; by apply Hs in Hc.
Qed.

(** ** Effects

    [kkeeps S m]: no run of [m], successful or not, changes a node, a mode or an
    owner outside [S]. *)

Definition kkeeps (S : path → Prop) {A} (m : kio A) : Prop := ∀ d r d', m d = (r, d') →
  ∀ q, ¬ S q → d_tree d' !! q = d_tree d !! q ∧ d_meta d' !! q = d_meta d !! q.
Section kkeeps.
Context (S : path → Prop) {A B : Type}.
Lemma kkeeps_ret (a : A) : kkeeps S (mret a).
Proof. by intros d r d' [= <- <-]. Qed.
Lemma kkeeps_get (f : disk → A) : kkeeps S (kio_get f).
Proof. by intros d r d' [= <- <-]. Qed.
Lemma kkeeps_result (x : result ioerr A) : kkeeps S (kio_result x).
Proof. by intros d r d' [= <- <-]. Qed.
Lemma kkeeps_bind (m : kio A) (f : A → kio B) : kkeeps S m → (∀ a, kkeeps S (f a)) → kkeeps S (m ≫= f).
Proof.
  intros Hm Hf d r d' E q Hq. unfold mbind, kio_bind in E. destruct (m d) as [[a|e] d1] eqn:E1.
  - destruct (Hm _ _ _ E1 q Hq) as [-> ->] || destruct (Hm _ _ _ E1 q Hq) as [<- <-]. by eapply Hf.
  - injection E as <- <-. by eapply Hm.
Qed.
Lemma kkeeps_of (m : io A) : keeps S m → kkeeps S (kio_of m).
Proof.
  intros Hm d r d' E q Hq. unfold kio_of in E. destruct (m _ _) as [[x t] n] eqn:E1. injection E as <- <-. cbn.
  split; [|done]. by eapply Hm.
Qed.
Lemma kkeeps_weaken (S' : path → Prop) (m : kio A) : kkeeps S m → (∀ q, S q → S' q) → kkeeps S' m.
Proof. intros Hm HS d r d' E q Hq. eapply Hm; [done|]. eauto. Qed.
End kkeeps.

(** The directory entries a temporary file may use. *)
Definition temp_in (dir : path) (p : path) : Prop := ∃ x, p = dir ++ [".authorized_keys." +:+ x].
(** The mode and owner of a rewritten file. *)
Definition private (target : Target) : meta :=
  match tg_ids target with
  | Some (uid, gid) => {| md_mode := 384; md_uid := uid; md_gid := gid |}
  | None => {| md_mode := 384; md_uid := 0; md_gid := 0 |}
  end.

Section effects.
Context {H : Login} {K : Kernel}.
Lemma kkeeps_on_meta (f : tree → metas → metas) (S : path → Prop) :
  (∀ t m q, ¬ S q → f t m !! q = m !! q) → kkeeps S (on_meta f).
Proof. intros Hf d r d' [= <- <-] q Hq. cbn. split; [done|]. by apply Hf. Qed.
Lemma keeps_id op pre S : keeps S (syscall op pre id).
Proof.
  intros t n r t' n' E q _. unfold syscall in E. destruct (pre t); [by injection E as <- <- <-|].
  by destruct (deny n op t); injection E as <- <- <-.
Qed.
Lemma kkeeps_chmod p mode : kkeeps (λ q, q = p) (set_permissions p mode).
Proof.
  apply kkeeps_bind; [apply kkeeps_of, keeps_id|intros _]. apply kkeeps_on_meta. intros t m q Hq. by apply lookup_insert_ne.
Qed.
Lemma kkeeps_chown p uid gid : kkeeps (λ q, q = p) (chown p uid gid).
Proof.
  apply kkeeps_bind; [apply kkeeps_of, keeps_id|intros _]. apply kkeeps_on_meta. intros t m q Hq. by apply lookup_insert_ne.
Qed.
Lemma kkeeps_unlink p : kkeeps (λ q, q = p) (unlink_k p).
Proof.
  apply kkeeps_bind; [apply kkeeps_of, keeps_remove_file|intros _]. apply kkeeps_on_meta. intros t m q Hq. by apply lookup_delete_ne.
Qed.
Lemma kkeeps_rename p q : kkeeps (λ x, x = p ∨ x = q) (rename_k p q).
Proof.
  apply kkeeps_bind; [apply kkeeps_of, keeps_rename|intros _]. apply kkeeps_on_meta. intros t m x Hx.
  destruct (m !! p); rewrite ?lookup_insert_ne, lookup_delete_ne; naive_solver.
Qed.
Lemma kkeeps_fill target tmp body : kkeeps (λ q, q = tmp) (fill target tmp body).
Proof.
  apply kkeeps_bind; [apply kkeeps_of, keeps_write|intros _].
  apply kkeeps_bind; [apply kkeeps_of, keeps_fsync|intros _].
  apply kkeeps_bind; [apply kkeeps_chmod|intros _].
  destruct (tg_ids target) as [[uid gid]|]; [apply kkeeps_chown|apply kkeeps_ret].
Qed.
Lemma mkstemp_run dir template d r d' :
  mkstemp dir template d = (r, d') →
  ∃ p, (∃ x, p = dir ++ [template +:+ x]) ∧
  (∀ q, q ≠ p → d_tree d' !! q = d_tree d !! q ∧ d_meta d' !! q = d_meta d !! q) ∧
  match r with Ok p' => p' = p ∧ d_meta d' !! p = Some {| md_mode := 384; md_uid := 0; md_gid := 0 |}
  | Err _ => d_tree d' = d_tree d ∧ d_meta d' = d_meta d end.
Proof.
  unfold mkstemp. unfold mbind, kio_bind, kio_get, kio_of, on_meta, syscall. cbv beta iota.
  set (p := dir ++ _). intros E. exists p. split; [by eexists|].
  destruct (if present _ p then _ else _); [by injection E as <- <-|].
  destruct (deny _ _ _); [by injection E as <- <-|]. injection E as <- <-. cbn. split; [|by rewrite lookup_insert_eq].
  intros q Hq. by rewrite !lookup_insert_ne by done.
Qed.
Lemma kio_bind_Ok {A B} (m : kio A) (f : A → kio B) d b d' :
  (m ≫= f) d = (Ok b, d') → ∃ a d1, m d = (Ok a, d1) ∧ f a d1 = (Ok b, d').
Proof. unfold mbind, kio_bind. destruct (m d) as [[a|e] d1]; [|done]. eauto. Qed.
Lemma kio_of_Ok {A} (m : io A) d a d' :
  kio_of m d = (Ok a, d') → oks m (d_tree d) a (d_tree d') ∧ d_meta d' = d_meta d.
Proof.
  unfold kio_of. destruct (m _ _) as [[x t] n] eqn:E. intros [= -> <-]. cbn. split; [|done]. eexists _, _. exact E.
Qed.
Lemma chmod_Ok p mode d d' :
  set_permissions p mode d = (Ok tt, d') →
  d_tree d' = d_tree d ∧ ∃ u g, d_meta d' !! p = Some {| md_mode := mode; md_uid := u; md_gid := g |} ∧
    (∀ x, d_meta d !! p = Some x → u = md_uid x ∧ g = md_gid x).
Proof.
  intros ([] & d1 & [Ht Hm]%kio_of_Ok & [= <-])%kio_bind_Ok. cbn. apply oks_syscall in Ht as (_ & Ht).
  split; [exact Ht|]. rewrite lookup_insert_eq. eexists _, _. split; [done|]. intros x Hx.
  unfold meta_of. by rewrite Hm, Hx.
Qed.
Lemma chown_Ok p uid gid d d' :
  chown p uid gid d = (Ok tt, d') →
  d_tree d' = d_tree d ∧ ∃ mo, d_meta d' !! p = Some {| md_mode := mo; md_uid := uid; md_gid := gid |} ∧
    (∀ x, d_meta d !! p = Some x → mo = md_mode x).
Proof.
  intros ([] & d1 & [Ht Hm]%kio_of_Ok & [= <-])%kio_bind_Ok. cbn. apply oks_syscall in Ht as (_ & Ht).
  split; [exact Ht|]. rewrite lookup_insert_eq. eexists. split; [done|]. intros x Hx.
  unfold meta_of. by rewrite Hm, Hx.
Qed.
Lemma fill_Ok target tmp body d d' :
  d_meta d !! tmp = Some {| md_mode := 384; md_uid := 0; md_gid := 0 |} → fill target tmp body d = (Ok tt, d') →
  d_tree d' !! tmp = Some (File body) ∧ d_meta d' !! tmp = Some (private target).
Proof.
  intros Hm ([] & d1 & [Ht Hm1]%kio_of_Ok & E)%kio_bind_Ok. apply oks_write in Ht.
  apply kio_bind_Ok in E as ([] & d2 & [[_ Ht2]%oks_syscall Hm2]%kio_of_Ok & E).
  apply kio_bind_Ok in E as ([] & d3 & (Ht3 & u & g & Hm3 & Hug)%chmod_Ok & E).
  destruct (Hug {| md_mode := 384; md_uid := 0; md_gid := 0 |}) as [-> ->]; [congruence|]. unfold private.
  destruct (tg_ids target) as [[uid gid]|].
  - apply chown_Ok in E as (Ht4 & mo & Hm4 & Hmo). rewrite (Hmo _ Hm3) in Hm4.
    split; [|done]. rewrite Ht4, Ht3, Ht2, Ht. apply lookup_insert_eq.
  - injection E as <-. split; [|done]. rewrite Ht3, Ht2, Ht. apply lookup_insert_eq.
Qed.
Lemma rename_run p q d r d' :
  rename_k p q d = (r, d') →
  match r with
  | Ok _ => (∀ k, d_tree d !! p = Some k → d_tree d' !! q = Some k) ∧ (∀ x, d_meta d !! p = Some x → d_meta d' !! q = Some x)
  | Err _ => d_tree d' = d_tree d ∧ d_meta d' = d_meta d
  end.
Proof.
  unfold rename_k, mbind, kio_bind, kio_of, rename, syscall, on_meta.
  destruct (match d_tree d !! p with Some _ => _ | None => _ end); [by intros [= <- <-]|].
  destruct (deny _ _ _); [by intros [= <- <-]|]. intros [= <- <-]. cbn. split.
  - intros k ->. apply lookup_insert_eq.
  - intros x ->. apply lookup_insert_eq.
Qed.
Lemma write_atomic_run target body d r d' :
  tg_authorized_keys target = tg_ssh_dir target ++ ["authorized_keys"] →
  write_atomic target body d = (r, d') →
  (∀ q, q ≠ tg_authorized_keys target → ¬ temp_in (tg_ssh_dir target) q →
    d_tree d' !! q = d_tree d !! q ∧ d_meta d' !! q = d_meta d !! q) ∧
  let a := tg_authorized_keys target in
  match r with
  | Ok _ => d_tree d' !! a = Some (File body) ∧ d_meta d' !! a = Some (private target)
  | Err _ => d_tree d' !! a = d_tree d !! a ∧ d_meta d' !! a = d_meta d !! a
  end.
Proof.
  intros Ha E. cbv zeta. unfold write_atomic, mbind, kio_bind at 1 in E. set (a := tg_authorized_keys target) in *.
  destruct (mkstemp _ _ d) as [rm d1] eqn:Em. apply mkstemp_run in Em as (tmp & [x ->] & Hd1 & Hrm).
  assert (temp_in (tg_ssh_dir target) (tg_ssh_dir target ++ [".authorized_keys." +:+ x])) as Htmp by by exists x.
  set (tmp := tg_ssh_dir target ++ [".authorized_keys." +:+ x]) in *. assert (a ≠ tmp) as Hne.
  { rewrite Ha. unfold tmp. by intros Heq%app_inv_head. }
  destruct rm as [p|e]; [|injection E as <- <-; destruct Hrm as [-> ->]; done]. destruct Hrm as [-> Hmt].
  unfold or_cleanup in E. unfold mbind, kio_bind in E. destruct (fill target tmp body d1) as [rf d2] eqn:Ef.
  pose proof (kkeeps_fill _ _ _ _ _ _ Ef) as Hd2. cbv beta in Hd2.
  assert (∀ d3 r' d4, unlink_k tmp d3 = (r', d4) → ∀ q, q ≠ tmp → d_tree d4 !! q = d_tree d3 !! q ∧ d_meta d4 !! q = d_meta d3 !! q) as Hu
    by (intros ??? Eu; exact (kkeeps_unlink _ _ _ _ Eu)).
  destruct rf as [[]|e].
  - destruct (fill_Ok _ _ _ _ _ Hmt Ef) as [Hft Hfm]. destruct (rename_k tmp a d2) as [rr d3] eqn:Er.
    pose proof (kkeeps_rename _ _ _ _ _ Er) as Hd3. cbv beta in Hd3. apply rename_run in Er. destruct rr as [[]|e].
    + injection E as <- <-. destruct Er as [Ht Hm]. split; [|by rewrite (Ht _ Hft), (Hm _ Hfm)].
      intros q Hq Hnt. assert (q ≠ tmp) by (intros ->; done). destruct (Hd3 q) as [-> ->]; [tauto|].
      destruct (Hd2 q) as [-> ->]; [done|]. by apply Hd1.
    + destruct Er as [Ht Hm]. destruct (unlink_k tmp d3) as [ru d4] eqn:Eu. injection E as <- <-.
      assert (∀ q, q ≠ tmp → d_tree d4 !! q = d_tree d !! q ∧ d_meta d4 !! q = d_meta d !! q) as Hall.
      { intros q Hq. destruct (Hu _ _ _ Eu q Hq) as [-> ->]. rewrite Ht, Hm. destruct (Hd2 q Hq) as [-> ->]. by apply Hd1. }
      split; [|by apply Hall]. intros q _ Hnt. apply Hall. by intros ->.
  - destruct (unlink_k tmp d2) as [ru d4] eqn:Eu. injection E as <- <-.
    assert (∀ q, q ≠ tmp → d_tree d4 !! q = d_tree d !! q ∧ d_meta d4 !! q = d_meta d !! q) as Hall.
    { intros q Hq. destruct (Hu _ _ _ Eu q Hq) as [-> ->]. destruct (Hd2 q Hq) as [-> ->]. by apply Hd1. }
    split; [|by apply Hall]. intros q _ Hnt. apply Hall. by intros ->.
Qed.
End effects.

(** ** The abstract key list

    The file as a list of lines: adding appends one line unless the fingerprint
    is there, revoking drops the lines that carry it. *)

Inductive key_request : Type := AddKey (key : SshPublicKeyLine) | RevokeKey (fingerprint : SshFingerprint).
Definition key_lines (t : tree) (a : path) : list string :=
  match t !! a with Some (File s) => lines s | _ => [] end.
Definition tidy (t : tree) (a : path) : Prop :=
  match t !! a with Some (File s) => cr_free s | _ => True end.
Definition carries {S : SshKey} (forced fingerprint raw : string) : bool :=
  has_fingerprint fingerprint (parse_line forced raw).
Definition key_spec {S : SshKey} (forced : string) (req : key_request) (l : list string) : list string :=
  match req with
  | AddKey key =>
      if existsb (carries forced (as_str (sk_fingerprint key))) l then l else l ++ [granted_line forced key]
  | RevokeKey fingerprint => filter (λ raw, Is_true (negb (carries forced (as_str fingerprint) raw))) l
  end.
Definition request_ok {S : SshKey} (req : key_request) : Prop :=
  match req with AddKey key => made key | RevokeKey _ => True end.
(** The paths a request on [target] may touch. *)
Definition key_paths (target : Target) (q : path) : Prop :=
  q = tg_authorized_keys target ∨ temp_in (tg_ssh_dir target) q ∨ below q (tg_ssh_dir target).

Section requests.
Context {S : SshKey} {H : Login} {K : Kernel}.

Lemma parse_raw forced raw : ln_raw (parse_line forced raw) = raw.
Proof.
  unfold parse_line. destruct (is_empty _ || _); [done|]. destruct (split_options _) as [o b]. by destruct (public_key_line b).
Qed.
Lemma render_parsed forced (l : list string) : render (parse_line forced <$> l) = concat_s ((λ x, x +:+ newline) <$> l).
Proof. induction l as [|x l IH]; [done|]. cbn. unfold render in IH. cbn in IH. by rewrite parse_raw, <- IH. Qed.
Lemma ended_snoc (l : list string) x :
  concat_s ((λ x, x +:+ newline) <$> l) +:+ x +:+ newline = concat_s ((λ x, x +:+ newline) <$> l ++ [x]).
Proof.
  induction l as [|y l IH]; [cbn; by rewrite app_nil_r_s|]. cbn [fmap list_fmap concat_s app]. by rewrite app_assoc_s, IH.
Qed.
Lemma existsb_parsed forced fp (l : list string) : existsb (has_fingerprint fp) (parse_line forced <$> l) = existsb (carries forced fp) l.
Proof. induction l as [|x l IH]; [done|]. cbn. by rewrite IH. Qed.
Lemma filter_parsed forced fp (l : list string) :
  filter (λ x, Is_true (negb (has_fingerprint fp x))) (parse_line forced <$> l) =
  parse_line forced <$> filter (λ raw, Is_true (negb (carries forced fp raw))) l.
Proof.
  induction l as [|x l IH]; [done|]. cbn [fmap list_fmap]. rewrite !filter_cons.
  change (carries forced fp x) with (has_fingerprint fp (parse_line forced x)).
  destruct (decide _); [|exact IH]. cbn. by rewrite IH.
Qed.
Lemma filter_none {A} (p : A → bool) (l : list A) : existsb p l = false → filter (λ x, Is_true (negb (p x))) l = l.
Proof.
  induction l as [|x l IH]; [done|]. cbn [existsb]. intros [Hx Hl]%orb_false_iff. rewrite filter_cons_True by by rewrite Hx. by rewrite IH.
Qed.
Lemma read_lines_Ok t target forced ls :
  tg_authorized_keys target ≠ [] → read_lines t target forced = Ok ls →
  ls = parse_line forced <$> key_lines t (tg_authorized_keys target).
Proof.
  intros Hne. unfold read_lines, read_text, stat, key_lines. destruct (tg_authorized_keys target) as [|c a]; [done|].
  destruct (t !! (c :: a)) as [[|s|]|]; try done.
  - destruct (utf8 s); [by intros [= <-]|done].
  - destruct (existsb _ _); [done|]. by intros [= <-].
Qed.

(** What a rewrite of the file by [write_atomic] amounts to. *)
Definition file_step (target : Target) (l' : list string) (d d' : disk) : Prop :=
  let a := tg_authorized_keys target in
  (∀ q, q ≠ a → ¬ temp_in (tg_ssh_dir target) q → d_tree d' !! q = d_tree d !! q ∧ d_meta d' !! q = d_meta d !! q) ∧
  key_lines (d_tree d') a = l' ∧ tidy (d_tree d') a ∧
  ((d_tree d' !! a = d_tree d !! a ∧ d_meta d' !! a = d_meta d !! a) ∨ d_meta d' !! a = Some (private target)).
Lemma file_step_refl target d :
  tidy (d_tree d) (tg_authorized_keys target) → file_step target (key_lines (d_tree d) (tg_authorized_keys target)) d d.
Proof. intros Ht. split_and!; [done|done|done|by left]. Qed.
Lemma file_rewrite_run target l' d r d' :
  tg_authorized_keys target = tg_ssh_dir target ++ ["authorized_keys"] →
  tidy (d_tree d) (tg_authorized_keys target) → Forall one_line l' →
  write_atomic target (concat_s ((λ x, x +:+ newline) <$> l')) d = (r, d') →
  file_step target (match r with Ok _ => l' | Err _ => key_lines (d_tree d) (tg_authorized_keys target) end) d d'.
Proof.
  intros Ha Ht Hl E. apply write_atomic_run in E as [Hf Hr]; [|done]. cbv zeta in Hr. unfold file_step, key_lines, tidy.
  destruct r as [u|e]; destruct Hr as [H1 H2]; split_and!; try done.
  - rewrite H1. rewrite <- (app_nil_r_s (concat_s _)), lines_ended by done. by rewrite app_nil_r.
  - rewrite H1. by apply ended_cr_free.
  - by right.
  - by rewrite H1.
  - by rewrite H1.
  - by left.
Qed.
Lemma tidy_lines t a : tidy t a → Forall one_line (key_lines t a).
Proof. unfold tidy, key_lines. destruct (t !! a) as [[|s|]|]; [by constructor|apply lines_one_line|by constructor..]. Qed.

Definition perform (target : Target) (forced : string) (req : key_request) : kio SubStatus :=
  match req with
  | AddKey key => authorize target forced key
  | RevokeKey fingerprint => withdraw target forced fingerprint
  end.
(** One request on the file: the specified step when it succeeds, nothing when
    it fails. *)
Lemma perform_run target forced req d r d' :
  tg_authorized_keys target = tg_ssh_dir target ++ ["authorized_keys"] →
  tidy (d_tree d) (tg_authorized_keys target) → one_line forced → request_ok req →
  perform target forced req d = (r, d') →
  let l := key_lines (d_tree d) (tg_authorized_keys target) in
  r ≠ Ok Failed ∧ file_step target (match r with Ok _ => key_spec forced req l | Err _ => l end) d d'.
Proof.
  intros Ha Ht Hf Hreq E. cbv zeta. set (a := tg_authorized_keys target) in *.
  assert (a ≠ []) as Hne by (rewrite Ha; by destruct (tg_ssh_dir target)).
  pose proof (tidy_lines _ _ Ht) as Hl.
  destruct (read_lines (d_tree d) target forced) as [ls|e] eqn:Er.
  2: { destruct req; unfold perform, authorize, withdraw, mbind, kio_bind, kio_get, kio_result in E; rewrite Er in E;
       injection E as <- <-; (split; [done|by apply file_step_refl]). }
  pose proof (read_lines_Ok _ _ _ _ Hne Er) as ->. fold a in Er |- *.
  destruct req as [key|fp]; unfold perform, authorize, withdraw, mbind, kio_bind, kio_get, kio_result in E; rewrite Er in E;
    cbv beta iota zeta in E; rewrite existsb_parsed in E; cbn [key_spec].
  - destruct (existsb _ _); [injection E as <- <-; split; [done|by apply file_step_refl]|].
    rewrite render_parsed, ended_snoc in E.
    destruct (write_atomic _ _ d) as [rw d1] eqn:Ew. apply file_rewrite_run in Ew; [|done|done|].
    + destruct rw as [u|e]; injection E as <- <-; by split.
    + apply Forall_app. split; [done|]. apply Forall_singleton. apply made_canonical, unbroken in Hreq as [H1 H2].
      destruct Hf as [H3 H4]. unfold granted_line, one_line, cr_free in *. rewrite !chars_app, !elem_of_app.
      split; intros [?|[Hs|?]]; try done; revert Hs; by apply (all_chars_absent (λ c, code c =? 32)).
  - rewrite filter_parsed, render_parsed in E. destruct (existsb _ _) eqn:Ee; cbn [negb] in E.
    + destruct (write_atomic _ _ d) as [rw d1] eqn:Ew. apply file_rewrite_run in Ew; [|done|done|].
      * destruct rw as [u|e]; injection E as <- <-; by split.
      * apply Forall_forall. intros x [_ Hx]%list_elem_of_filter. by eapply Forall_forall in Hl.
    + injection E as <- <-. split; [done|]. rewrite filter_none by done. by apply file_step_refl.
Qed.
End requests.

(** ** Requests as tasks *)

Definition same_files : relation world := λ w w',
  w_tree w' = w_tree w ∧ w_meta w' = w_meta w ∧ w_clock w' = w_clock w.
#[export] Instance same_files_preorder : PreOrder same_files.
Proof. split; [done|]. intros a b c (?&?&?) (?&?&?). repeat split; congruence. Qed.
Definition disk_of (w : world) : disk := {| d_tree := w_tree w; d_meta := w_meta w; d_clock := w_clock w |}.
Lemma same_files_disk w w' : same_files w w' → disk_of w' = disk_of w.
Proof. intros (E1 & E2 & E3). unfold disk_of. by rewrite E1, E2, E3. Qed.

Section tasks.
Context {S : SshKey} {H : Login} {K : Kernel} {C : Client}.

Lemma agg_finish_failed t x e : agg (finish_subtask t Failed x e) = Some Failed.
Proof. unfold finish_subtask. rewrite agg_emit_soft. cbn. by rewrite status_fold_failed_r. Qed.
Lemma files_write_out ev : op_respects same_files (write_out ev).
Proof. intros w r w' E. unfold write_out in E. by destruct (pipe_write _ _) as [[]]; simplify_eq. Qed.
Lemma files_println_err l : op_respects same_files (println_err l).
Proof.
  apply op_respects_fmt; [apply _|]. intros s. unfold print_err.
  destruct (is_empty s); [by apply op_respects_ret, _|apply files_write_out].
Qed.
(** A step on the disk: its effect happens whatever becomes of the client, and a
    completed step reports it. *)
Lemma step_k_run name (m : kio SubStatus) w r w' :
  step_op name (lift_k m) w = (r, w') →
  ∃ x, m (disk_of w) = (x, disk_of w') ∧
  ∀ st, r = Ok st → (x = Ok st ∨ st = Failed ∧ ∃ e, x = Err e) ∧ (st = Failed → failed w').
Proof.
  unfold step_op, in_subtask, in_command. intros E.
  match type of E with context [(lift_k m ≫= ?f) ?w0] => set (w1 := w0) in E; destruct ((lift_k m ≫= f) w1) as [y w2] eqn:Eb end.
  unfold mbind, op_bind, lift_k in Eb. change {| d_tree := w_tree w1; d_meta := w_meta w1; d_clock := w_clock w1 |} with (disk_of w) in Eb.
  destruct (m (disk_of w)) as [[st|e] d'] eqn:Em.
  - injection Eb as <- <-. injection E as <- <-. exists (Ok st). split; [by destruct d'|]. intros ? [= <-]. split; [by left|].
    intros ->. apply agg_finish_failed.
  - set (w3 := set_meta _ _) in Eb. destruct (println_err [err_msg e] w3) as [z w4] eqn:Ep.
    pose proof (files_println_err _ _ _ _ Ep) as Hp. exists (Err e).
    assert (disk_of w' = d') as ->.
    { apply same_files_disk in Hp. destruct z as [u|e'].
      - injection Eb as <- <-. injection E as <- <-. unfold disk_of in *. cbn in *. rewrite Hp. by destruct d'.
      - injection Eb as <- <-. injection E as <- <-. unfold disk_of in *. cbn in *. rewrite Hp. by destruct d'. }
    split; [done|]. intros st Hst. destruct z as [u|e'].
    + injection Eb as <- <-. injection E as <- <-. injection Hst as <-. split; [right; eauto|]. intros _.
      apply agg_finish_failed.
    + injection Eb as <- <-. injection E as <- <-. done.
Qed.
Lemma resolved_run cfg target body w r w' :
  resolve cfg = Ok target → resolved cfg body w = (r, w') →
  (r ≠ Ok tt ∧ same_files w w') ∨ ∃ w1, same_files w w1 ∧ body target w1 = (r, w').
Proof.
  intros Hr E. unfold resolved in E. rewrite Hr in E.
  assert (∃ x w1, step_op ("Resolve " +:+ pk_user cfg) (mret (Ok Success)) w = (x, w1) ∧ same_files w w1 ∧ (∀ st, x = Ok st → st = Success))
    as (x & w1 & Es & Hs & Hx).
  { eexists _, _. split; [reflexivity|]. split; [done|]. by intros st [= <-]. }
  unfold mbind at 1, op_bind at 1 in E. change ((λ _, Success) <$> Ok target) with (Ok (E:=ioerr) Success) in E. rewrite Es in E. destruct x as [st|e].
  - rewrite (Hx st eq_refl) in E. right. by exists w1.
  - injection E as <- <-. by left.
Qed.
Lemma below_not_key_file target q :
  below q (tg_ssh_dir target) → tg_authorized_keys target = tg_ssh_dir target ++ ["authorized_keys"] →
  q ≠ tg_authorized_keys target.
Proof.
  intros [x Hx]%below_spec Ha ->. rewrite Ha in Hx. apply (f_equal length) in Hx. rewrite !length_app in Hx. cbn in Hx. lia.
Qed.
Lemma kkeeps_ensure target : kkeeps (λ q, Is_true (below q (tg_ssh_dir target))) (ensure_ssh_dir target).
Proof.
  assert (∀ A (m : kio A), kkeeps (λ q, q = tg_ssh_dir target) m → kkeeps (λ q, Is_true (below q (tg_ssh_dir target))) m) as Hw
    by (intros A m Hm; eapply kkeeps_weaken; [exact Hm|]; intros q ->; apply below_refl).
  apply kkeeps_bind; [apply kkeeps_get|intros there].
  apply kkeeps_bind; [destruct there; [apply kkeeps_ret|apply kkeeps_of, keeps_create_dir_all]|intros _].
  apply kkeeps_bind; [apply Hw, kkeeps_chmod|intros _].
  destruct (tg_ids target) as [[u g]|]; [apply Hw, kkeeps_chown|apply kkeeps_ret].
Qed.
Lemma ensure_Ok target d d' :
  ensure_ssh_dir target d = (Ok tt, d') →
  ∃ m, d_meta d' !! tg_ssh_dir target = Some m ∧ md_mode m = 448 ∧
    ∀ u g, tg_ids target = Some (u, g) → md_uid m = u ∧ md_gid m = g.
Proof.
  intros (b & d1 & _ & E)%kio_bind_Ok. apply kio_bind_Ok in E as ([] & d2 & _ & E).
  apply kio_bind_Ok in E as ([] & d3 & (_ & u & g & Hm & _)%chmod_Ok & E).
  destruct (tg_ids target) as [[u' g']|].
  - apply chown_Ok in E as (_ & mo & Hm' & Hmo). eexists. split; [exact Hm'|]. rewrite (Hmo _ Hm). split; [done|]. by intros ?? [= <- <-].
  - injection E as <-. eexists. by split; [exact Hm|].
Qed.
Definition serve_key (cfg : PipeKeyConfig) (req : key_request) : op unit :=
  match req with AddKey key => add cfg key | RevokeKey fingerprint => revoke cfg fingerprint end.
(** One request, whatever its outcome. *)
Definition request_effect (target : Target) (w w' : world) (l' : list string) : Prop :=
  let a := tg_authorized_keys target in
  (∀ q, ¬ key_paths target q → w_tree w' !! q = w_tree w !! q ∧ w_meta w' !! q = w_meta w !! q) ∧
  key_lines (w_tree w') a = l' ∧ tidy (w_tree w') a ∧
  ((w_tree w' !! a = w_tree w !! a ∧ w_meta w' !! a = w_meta w !! a) ∨ w_meta w' !! a = Some (private target)).
Lemma resolve_shape cfg target : resolve cfg = Ok target → tg_authorized_keys target = tg_ssh_dir target ++ ["authorized_keys"].
Proof. unfold resolve. destruct (pk_home_override cfg); [by intros [= <-]|]. by destruct (user_from_name _) as [[u|]|e]; intros [= <-]. Qed.
Lemma op_bind_unit {A} (m : op A) w r w' :
  (_ ← m; mret tt) w = (r, w') → ∃ x, m w = (x, w') ∧ (r = Ok tt → ∃ a, x = Ok a).
Proof. intros [(e & E & ->)|(a & w1 & E & [= <- <-])]%op_bind_run; eexists; (split; [exact E|]); [done|eauto]. Qed.
Lemma step_request cfg target name req w r w' :
  resolve cfg = Ok target → one_line (forced_command cfg) → request_ok req → tidy (w_tree w) (tg_authorized_keys target) →
  step_op name (lift_k (perform target (forced_command cfg) req)) w = (r, w') →
  let l := key_lines (w_tree w) (tg_authorized_keys target) in
  ∃ l', file_step target l' (disk_of w) (disk_of w') ∧ (l' = l ∨ l' = key_spec (forced_command cfg) req l) ∧
  ∀ st, r = Ok st → ¬ failed w' → l' = key_spec (forced_command cfg) req l.
Proof.
  intros Hr Hf Hreq Ht E. cbv zeta. apply step_k_run in E as (x & Ex & Hst).
  apply perform_run in Ex as [Hx Hs]; [|by eapply resolve_shape|exact Ht|done|done].
  eexists. split; [exact Hs|split].
  - destruct x; [by right|by left].
  - intros st -> Hnf. destruct (Hst st eq_refl) as [[->|[-> [e ->]]] Hfail]; [done|]. by destruct Hnf; apply Hfail.
Qed.
Lemma file_step_effect target l' w w' : file_step target l' (disk_of w) (disk_of w') → request_effect target w w' l'.
Proof.
  intros (H1 & H2 & H3 & H4). split_and!; [|exact H2|exact H3|exact H4].
  intros q Hq. apply H1; unfold key_paths in Hq; tauto.
Qed.
Lemma request_effect_files target w w1 w' l' :
  same_files w w1 → request_effect target w1 w' l' → request_effect target w w' l'.
Proof. intros (E1 & E2 & _). unfold request_effect. by rewrite E1, E2. Qed.
Definition ssh_dir_private (target : Target) (m : metas) : Prop :=
  ∃ x, m !! tg_ssh_dir target = Some x ∧ md_mode x = 448 ∧
    ∀ u g, tg_ids target = Some (u, g) → md_uid x = u ∧ md_gid x = g.
(** The first half of an add: the directory, with nothing else touched. *)
Lemma step_ensure target name w r w' :
  tg_authorized_keys target = tg_ssh_dir target ++ ["authorized_keys"] →
  step_op name (lift_k (_ ← ensure_ssh_dir target; mret Success)) w = (r, w') →
  (∀ q, ¬ key_paths target q ∨ q = tg_authorized_keys target →
    w_tree w' !! q = w_tree w !! q ∧ w_meta w' !! q = w_meta w !! q) ∧
  ∀ st, r = Ok st → if decide (st = Failed) then failed w' else ssh_dir_private target (w_meta w').
Proof.
  intros Ha (x & Ex & Hst)%step_k_run. split.
  - assert (kkeeps (λ q, Is_true (below q (tg_ssh_dir target))) (_ ← ensure_ssh_dir target; mret Success)) as Hk
      by (apply kkeeps_bind; [apply kkeeps_ensure|intros _; apply kkeeps_ret]).
    intros q Hq. apply (Hk _ _ _ Ex). intros Hb. destruct Hq as [Hq| ->]; [apply Hq; right; by right|].
    by apply below_not_key_file in Hb.
  - intros st ->. destruct (Hst st eq_refl) as [Hx Hf]. case_decide as Hs; [by apply Hf|].
    destruct Hx as [->|[? _]]; [|done]. apply kio_bind_Ok in Ex as ([] & d1 & E & [= _ ->]). by apply ensure_Ok in E.
Qed.
Lemma request_run cfg target req w r w' :
  resolve cfg = Ok target → one_line (forced_command cfg) → request_ok req → tidy (w_tree w) (tg_authorized_keys target) →
  serve_key cfg req w = (r, w') →
  let l := key_lines (w_tree w) (tg_authorized_keys target) in
  ∃ l', request_effect target w w' l' ∧ (l' = l ∨ l' = key_spec (forced_command cfg) req l) ∧
  (r = Ok tt → ¬ failed w' →
    l' = key_spec (forced_command cfg) req l ∧ (if req is AddKey _ then ssh_dir_private target (w_meta w') else True)).
Proof.
  intros Hr Hf Hreq Ht E. cbv zeta. pose proof (resolve_shape _ _ Hr) as Ha.
  assert (∀ w1, same_files w w1 → tidy (w_tree w1) (tg_authorized_keys target)) as Ht1 by (intros w1 (-> & _); done).
  assert (∀ w1, same_files w w1 → request_effect target w w1 (key_lines (w_tree w) (tg_authorized_keys target))) as Hid.
  { intros w1 (E1 & E2 & _). unfold request_effect. rewrite E1, E2. split_and!; [done|done|done|by left]. }
  destruct req as [key|fp]; cbn [serve_key] in E;
    (apply (resolved_run _ target) in E as [[Hn Hs]|(w1 & Hs & E)];
      [by eexists; split; [by apply Hid|]; split; [by left|] | |exact Hr]).
  - apply op_bind_run in E as [(e & E1 & ->)|(st & w2 & E1 & E)];
      pose proof (step_ensure _ _ _ _ _ Ha E1) as [Hk Hst]; destruct Hs as (S1 & S2 & _); rewrite S1, S2 in Hk;
      (destruct (Hk (tg_authorized_keys target)) as [Ek1 Ek2]; [by right|]).
    { exists (key_lines (w_tree w) (tg_authorized_keys target)). split; [|by split; [left|]]. split_and!; [intros q Hq; apply Hk; by left| | |by left];
        unfold key_lines, tidy; rewrite Ek1; [done|exact Ht]. }
    specialize (Hst st eq_refl).
    assert (key_lines (w_tree w2) (tg_authorized_keys target) = key_lines (w_tree w) (tg_authorized_keys target)) as El
      by (unfold key_lines; by rewrite Ek1).
    assert (tidy (w_tree w2) (tg_authorized_keys target)) as Ht2 by (unfold tidy; by rewrite Ek1).
    case_bool_decide as Hb; case_decide; try done.
    { injection E as <- <-. exists (key_lines (w_tree w) (tg_authorized_keys target)). split; [|split; [by left|by intros _ []]].
      split_and!; [intros q Hq; apply Hk; by left|exact El|exact Ht2|by left]. }
    apply op_bind_unit in E as (r3 & E3 & Hr3).
    apply (step_request cfg target _ (AddKey key)) in E3 as (l' & He & Hl & Hc); [|done..]. cbv zeta in Hl, Hc. rewrite El in Hl, Hc.
    exists l'. pose proof He as (He1 & He2 & He3 & He4). split; [|split; [done|]].
    + split_and!; [|done|done|].
      * intros q Hq. apply file_step_effect in He as (He & _). destruct (He q Hq) as [-> ->]. apply Hk. by left.
      * cbn in He4. rewrite Ek1, Ek2 in He4. exact He4.
    + intros Hok Hnf. destruct (Hr3 Hok) as [st3 ->]. split; [by eapply Hc|].
      destruct (He1 (tg_ssh_dir target)) as [_ Em]; [| |unfold ssh_dir_private; cbn in Em; by rewrite Em].
      * rewrite Ha. intros E3. apply (f_equal length) in E3. rewrite length_app in E3. cbn in E3. lia.
      * intros [x E3]. apply (f_equal length) in E3. rewrite length_app in E3. cbn in E3. lia.
  - apply op_bind_unit in E as (r3 & E3 & Hr3).
    apply (step_request cfg target _ (RevokeKey fp)) in E3 as (l' & He & Hl & Hc); [|by auto..]. cbv zeta in Hl, Hc.
    destruct Hs as (S1 & S2 & S3). rewrite S1 in Hl, Hc. exists l'. split; [|split; [done|]].
    + eapply request_effect_files; [by split_and!|]. by apply file_step_effect.
    + intros Hok Hnf. destruct (Hr3 Hok) as [st3 ->]. split; [by eapply Hc|done].
Qed.
End tasks.

(** ** Sequences of requests *)

Section sequences.
Context {S : SshKey} {H : Login} (cfg : PipeKeyConfig).
(** Requests served one after the other, each under its own client and kernel. *)
Inductive keys_served : list key_request → tree * metas → tree * metas → Prop :=
| keys_served_nil x : keys_served [] x x
| keys_served_cons (K : Kernel) (C : Client) req reqs w r w' x :
    serve_key cfg req w = (r, w') → keys_served reqs (w_tree w', w_meta w') x →
    keys_served (req :: reqs) (w_tree w, w_meta w) x.
(** The same requests on the abstract list, some of them refused. *)
Inductive keys_run : list key_request → list string → list string → Prop :=
| keys_run_nil l : keys_run [] l l
| keys_run_refused req reqs l l' : keys_run reqs l l' → keys_run (req :: reqs) l l'
| keys_run_done req reqs l l' : keys_run reqs (key_spec (forced_command cfg) req l) l' → keys_run (req :: reqs) l l'.

Lemma forced_one_line : has_break (pk_pipe_bin cfg) = false → one_line (forced_command cfg).
Proof.
  intros [H1 H2]%unbroken. unfold forced_command, one_line, cr_free in *. rewrite !chars_app, !elem_of_app.
  split; intros [Hc|[Hc|[Hc|[Hc|[Hc|Hc]]]]]; try done; revert Hc; by apply (all_chars_absent (λ c, 32 <=? code c)).
Qed.
Context (target : Target).
Lemma served_refines reqs x x' :
  resolve cfg = Ok target → one_line (forced_command cfg) → Forall request_ok reqs →
  keys_served reqs x x' → tidy x.1 (tg_authorized_keys target) →
  let a := tg_authorized_keys target in
  keys_run reqs (key_lines x.1 a) (key_lines x'.1 a) ∧ tidy x'.1 a ∧
  (∀ q, ¬ key_paths target q → x'.1 !! q = x.1 !! q ∧ x'.2 !! q = x.2 !! q) ∧
  ((x'.1 !! a = x.1 !! a ∧ x'.2 !! a = x.2 !! a) ∨ x'.2 !! a = Some (private target)).
Proof.
  intros Hr Hf Hreqs Hs. cbv zeta. induction Hs as [x|K C req reqs w r w' x E Hs IH]; intros Ht.
  { split_and!; [constructor|done|done|by left]. }
  apply Forall_cons in Hreqs as [Hreq Hreqs]. cbn [fst snd] in *.
  apply (request_run cfg target) in E as (l' & (He1 & He2 & He3 & He4) & Hl & _); [|done..].
  destruct (IH Hreqs He3) as (I1 & I2 & I3 & I4). rewrite He2 in I1. split_and!.
  - destruct Hl as [->| ->]; [by apply keys_run_refused|by apply keys_run_done].
  - done.
  - intros q Hq. destruct (I3 q Hq) as [-> ->]. by apply He1.
  - destruct I4 as [[-> ->]|?]; [exact He4|by right].
Qed.
Lemma run_granted reqs l l' :
  keys_run reqs l l' → ∀ x, x ∈ l' → x ∈ l ∨ ∃ key, AddKey key ∈ reqs ∧ x = granted_line (forced_command cfg) key.
Proof.
  induction 1 as [l|req reqs l l' _ IH|req reqs l l' _ IH]; intros x Hx; [by left|..].
  - destruct (IH x Hx) as [?|(key & ? & ?)]; [by left|right]. exists key. split; [by right|done].
  - destruct (IH x Hx) as [Hl|(key & ? & ?)]; [|right; exists key; split; [by right|done]].
    destruct req as [key|fp]; cbn [key_spec] in Hl.
    + destruct (existsb _ _); [by left|]. apply elem_of_app in Hl as [?| ->%list_elem_of_singleton]; [by left|right].
      exists key. split; [by left|done].
    + apply list_elem_of_filter in Hl as [_ ?]. by left.
Qed.
End sequences.

(** C23: of an authorized_keys file without carriage returns (a line that ends in one
    loses it when the file is rewritten), with a pipe program whose path has no line
    break and keys as the ingress makes them: whatever keys are added and revoked, in
    whatever order, whatever the kernel refuses and whenever the clients leave, the file
    changes only as the abstract key list does. Each request either takes its specified
    step (an add appends its one line unless the fingerprint is there, a revoke drops
    exactly the lines that carry the fingerprint) or leaves the list alone. Lines nobody
    asked about are kept as they are, a rewritten file is private to its owner, and
    nothing outside the login's .ssh and the way to it is touched. *)
Theorem key_requests_refine `{S : SshKey, H : Login} cfg target reqs t m t' m' :
  resolve cfg = Ok target → has_break (pk_pipe_bin cfg) = false → Forall request_ok reqs →
  tidy t (tg_authorized_keys target) → keys_served cfg reqs (t, m) (t', m') →
  let a := tg_authorized_keys target in
  keys_run cfg reqs (key_lines t a) (key_lines t' a) ∧
  (∀ q, ¬ key_paths target q → t' !! q = t !! q ∧ m' !! q = m !! q) ∧
  ((t' !! a = t !! a ∧ m' !! a = m !! a) ∨ m' !! a = Some (private target)).
Proof.
  intros Hr Hb Hreqs Ht Hs. eapply served_refines in Hs as (H1 & _ & H2); [by split|done|by apply forced_one_line|done|done].
Qed.

(** A key request that completes without a failed step has taken its step:
    after an add the file lists the old lines, then the granted one if its
    fingerprint was new, some line is read as that key, and .ssh is private to the
    login; after a revoke no line carries the fingerprint and the others stand in
    their order. *)
Lemma key_request_complete `{S : SshKey, !SshKeyLaws S, H : Login, K : Kernel, C : Client} cfg target req w w' :
  resolve cfg = Ok target → has_break (pk_pipe_bin cfg) = false → ascii_of_N 34 ∉ chars (pk_pipe_bin cfg) →
  request_ok req → tidy (w_tree w) (tg_authorized_keys target) →
  serve_key cfg req w = (Ok tt, w') → ¬ failed w' →
  let forced := forced_command cfg in
  let l' := key_lines (w_tree w') (tg_authorized_keys target) in
  l' = key_spec forced req (key_lines (w_tree w) (tg_authorized_keys target)) ∧
  match req with
  | AddKey key => existsb (carries forced (as_str (sk_fingerprint key))) l' = true ∧ ssh_dir_private target (w_meta w')
  | RevokeKey fingerprint => existsb (carries forced (as_str fingerprint)) l' = false
  end.
Proof.
  intros Hr Hb Hq Hreq Ht E Hnf. cbv zeta.
  apply (request_run cfg target) in E as (l' & (_ & He & _) & _ & Hc); [|done|by apply forced_one_line|done..].
  destruct (Hc eq_refl Hnf) as [-> Hd]. rewrite He. split; [done|]. destruct req as [key|fp]; cbn [key_spec].
  - split; [|done]. destruct (existsb _ (key_lines (w_tree w) _)) eqn:Ee; [done|]. rewrite existsb_app. apply orb_true_iff. right. cbn [existsb].
    unfold carries. rewrite parse_granted by done. cbn [has_fingerprint line_key ln_kind pk_key]. by rewrite bool_decide_true.
  - apply not_true_iff_false. rewrite existsb_exists. intros (x & Hx%list_elem_of_In & Hc').
    apply list_elem_of_filter in Hx as [Hn _]. by rewrite Hc' in Hn.
Qed.

(** C22: No request can turn a key grant into a shell. Starting from a login
    without authorized keys, whatever requests follow and whatever fails, every
    line of the file is one the daemon wrote for a key that was added, and it
    reads back as that key under exactly the forced command. *)
Theorem grants_only_the_pipe `{S : SshKey, !SshKeyLaws S, H : Login} cfg target reqs t m t' m' raw :
  resolve cfg = Ok target → has_break (pk_pipe_bin cfg) = false → ascii_of_N 34 ∉ chars (pk_pipe_bin cfg) →
  Forall request_ok reqs → t !! tg_authorized_keys target = None →
  keys_served cfg reqs (t, m) (t', m') → raw ∈ key_lines t' (tg_authorized_keys target) →
  ∃ key, AddKey key ∈ reqs ∧
  parse_line (forced_command cfg) raw =
    {| ln_raw := raw; ln_kind := Key {| pk_key := key; pk_options := forced_command cfg; pk_ours := true |} |}.
Proof.
  intros Hr Hb Hq Hreqs Ha Hs Hraw.
  eapply served_refines in Hs as (Hrun & _); [|done|by apply forced_one_line|done|unfold tidy; cbn; by rewrite Ha].
  destruct (run_granted _ _ _ _ Hrun raw Hraw) as [Hl|(key & Hk & ->)].
  { cbn in Hl. unfold key_lines in Hl. rewrite Ha in Hl. by apply elem_of_nil in Hl. }
  exists key. split; [done|]. eapply Forall_forall in Hreqs; [|done]. by apply parse_granted.
Qed.

(** ** A concrete login *)

(** A key format with one algorithm: a non-empty base64 body and a comment. *)
Definition b64_char (c : ascii) : bool := is_ascii_alphanumeric c || char_in "+/" c.
Definition b64 (s : string) : bool := negb (is_empty s) && all_chars b64_char s.
Definition demo_print (k : refined b64 * string) : string :=
  "ssh-ed25519 " +:+ raw k.1 +:+ (if is_empty k.2 then "" else " " +:+ k.2).
Definition demo_parse (s : string) : option (refined b64 * string) :=
  rest ← strip_prefix "ssh-ed25519 " s;
  let '(body, comment) := default (rest, "") (split_once " " rest) in
  b ← refine b64 body; Some (b, comment).
#[local] Instance demo_ssh : SshKey := {|
  from_openssh := demo_parse;
  to_openssh := λ k, Some (demo_print k);
  key_comment := snd;
  set_comment := λ c k, (k.1, c);
  key_algorithm := λ _, "ssh-ed25519";
  key_sha256 := λ k, "SHA256:" +:+ raw k.1 |}.
Lemma b64_plain (b : refined b64) : raw b ≠ "" ∧ all_chars not_ws (raw b) ∧ (" "%char : ascii) ∉ chars (raw b).
Proof.
  destruct b as [s Hs]. cbn. unfold b64 in Hs. apply andb_True in Hs as [Hn Hc]. split_and!.
  - by intros ->.
  - by eapply all_chars_incl; [exact Hc|].
  - by eapply all_chars_absent.
Qed.
Lemma trim_tail s t : trim t = t → t ≠ "" → trim (String "s" s +:+ t) = String "s" s +:+ t.
Proof.
  intros Ht Hne. unfold trim. change (trim_start (String "s" s +:+ t)) with (String "s" s +:+ t).
  assert (trim_end t = t) as He.
  { destruct (trim_start_head t) as [E|(c & r & E & Hc)]; unfold trim in Ht; rewrite E in Ht.
    - by rewrite <- Ht in Hne.
    - pose proof Ht as Ht'. rewrite <- Ht'. apply trim_end_idem. }
  rewrite trim_end_app by by rewrite He. by rewrite He.
Qed.
#[local] Instance demo_ssh_laws : SshKeyLaws demo_ssh.
Proof.
  split.
  - done.
  - by intros [b c].
  - intros [b c] s Hs Hc. assert (s = demo_print (b, c)) as -> by by injection Hs. clear Hs.
    change (trim c = c) in Hc. change (from_openssh ?s) with (demo_parse s). destruct (b64_plain b) as (Hne & Hws & Hsp). unfold demo_print, demo_parse. cbn [fst snd].
    assert (strip_prefix "ssh-ed25519 " ("ssh-ed25519 " +:+ raw b +:+ (if is_empty c then "" else " " +:+ c))
            = Some (raw b +:+ (if is_empty c then "" else " " +:+ c))) as -> by by apply strip_prefix_Some.
    cbn [mbind option_bind]. destruct c as [|x c]; cbn [is_empty].
    + rewrite app_nil_r_s. rewrite (proj2 (split_once_None _ _)) by done. cbv beta iota delta [default from_option id]. rewrite refine_raw. split; [done|].
      change "ssh-ed25519 " with (String "s" "sh-ed25519 "). apply trim_tail; [by apply trim_id|done].
    + change (" " +:+ String x c) with (String " " (String x c)).
      rewrite (proj2 (split_once_Some _ _ _ _) (conj eq_refl Hsp)). cbv beta iota delta [default from_option id]. rewrite refine_raw. split; [done|].
      change (String " " (String x c)) with (" " +:+ String x c). rewrite <- (app_assoc_s (raw b)), <- (app_assoc_s "ssh-ed25519 ").
      change "ssh-ed25519 " with (String "s" "sh-ed25519 "). by apply trim_tail.
  - intros s k Hs. change (demo_parse s = Some k) in Hs. revert Hs. unfold demo_parse. intros (rest & Hs & _)%bind_Some. apply strip_prefix_Some in Hs as ->. by exists rest.
  - intros k. by apply (all_chars_absent (λ c, negb (code c =? 34))).
Qed.

Definition demo_home : path := ["var"; "lib"; "greendot-csi"].
#[local] Instance demo_login : Login := {|
  user_from_name := λ n, Ok (if bool_decide (n = SSH_USER) then
                               Some {| us_name := n; us_uid := 990; us_gid := 990; us_dir := demo_home |} else None);
  group_from_name := λ _, Ok None;
  umask := 18;
  mkstemp_suffix := λ _ _, "a1B2c3" |}.
Definition demo_keys : PipeKeyConfig :=
  {| pk_user := SSH_USER; pk_socket_group := "greendot"; pk_pipe_bin := FALLBACK_PIPE_BIN; pk_home_override := None |}.
Definition demo_key_target : Target := target_at demo_home (Some (990, 990)).
Definition demo_files : tree :=
  list_to_map [(["var"], Dir); (["var"; "lib"], Dir); (demo_home, Dir)].
Definition demo_key (text : string) : SshPublicKeyLine :=
  default {| sk_canonical := ""; sk_algorithm := ""; sk_comment := ""; sk_fingerprint := Refine "SHA256:x" I |}
    (public_key_line text).
Definition demo_a : SshPublicKeyLine := demo_key "ssh-ed25519 AAAAC3 admin@laptop".
Definition demo_b : SshPublicKeyLine := demo_key "ssh-ed25519 AAAAD4".
Definition demo_reqs : list key_request := [AddKey demo_a; AddKey demo_b; RevokeKey (sk_fingerprint demo_a)].
Definition demo_serve (req : key_request) (x : tree * metas) : tree * metas :=
  let w := (serve_key (K:=permissive) (C:=patient) demo_keys req (set_meta (start_world x.1 0) x.2)).2 in
  (w_tree w, w_meta w).
Definition demo_end : tree * metas := foldl (λ x req, demo_serve req x) (demo_files, ∅) demo_reqs.
Lemma demo_keys_served reqs x : keys_served demo_keys reqs x (foldl (λ x req, demo_serve req x) x reqs).
Proof.
  revert x. induction reqs as [|req reqs IH]; intros x; cbn [foldl]; [constructor|]. destruct x as [t m].
  destruct (serve_key (K:=permissive) (C:=patient) demo_keys req (set_meta (start_world t 0) m)) as [r w'] eqn:E.
  pose proof (keys_served_cons demo_keys permissive patient req reqs _ _ _ (foldl (λ x req, demo_serve req x) (w_tree w', w_meta w') reqs) E (IH _)) as Hs.
  unfold demo_serve at 2. cbn [fst snd]. rewrite E. exact Hs.
Qed.
Lemma demo_made text key :
  public_key_line text = Some key → (slen (sk_canonical key) <=? MAX_PUBLIC_KEY_LEN) = true → made key.
Proof. intros Hk Hl. split; [by exists text|]. by apply N.leb_le. Qed.
Lemma demo_reqs_ok : Forall request_ok demo_reqs.
Proof.
  apply Forall_cons; split; [|apply Forall_cons; split; [|apply Forall_singleton; exact I]].
  - apply (demo_made "ssh-ed25519 AAAAC3 admin@laptop"); vm_compute; reflexivity.
  - apply (demo_made "ssh-ed25519 AAAAD4"); vm_compute; reflexivity.
Qed.
Lemma demo_bin_unquoted : ascii_of_N 34 ∉ chars (pk_pipe_bin demo_keys).
Proof. by apply (all_chars_absent (λ c, negb (code c =? 34))). Qed.

Lemma key_requests_refine_witness :
  keys_run demo_keys demo_reqs [] [granted_line (forced_command demo_keys) demo_b] ∧
  demo_end.2 !! tg_authorized_keys demo_key_target = Some (private demo_key_target).
Proof.
  destruct (key_requests_refine demo_keys demo_key_target demo_reqs demo_files ∅ demo_end.1 demo_end.2) as [Hr _].
  - vm_compute. reflexivity.
  - vm_compute. reflexivity.
  - exact demo_reqs_ok.
  - vm_compute. exact I.
  - rewrite <- surjective_pairing. apply demo_keys_served.
  - split; [|vm_compute; reflexivity].
    assert (key_lines demo_files (tg_authorized_keys demo_key_target) = []) as H1 by (vm_compute; reflexivity).
    assert (key_lines demo_end.1 (tg_authorized_keys demo_key_target) = [granted_line (forced_command demo_keys) demo_b]) as H2
      by (vm_compute; reflexivity).
    rewrite H1, H2 in Hr. exact Hr.
Defined.
Definition demo_added : world := (serve_key (K:=permissive) (C:=patient) demo_keys (AddKey demo_a) (start_world demo_files 0)).2.
Lemma key_request_complete_witness :
  key_lines (w_tree demo_added) (tg_authorized_keys demo_key_target) = [granted_line (forced_command demo_keys) demo_a] ∧
  ssh_dir_private demo_key_target (w_meta demo_added).
Proof.
  destruct (key_request_complete (K:=permissive) (C:=patient) demo_keys demo_key_target (AddKey demo_a) (start_world demo_files 0) demo_added)
    as [Hl [_ Hd]].
  - vm_compute. reflexivity.
  - vm_compute. reflexivity.
  - exact demo_bin_unquoted.
  - apply (demo_made "ssh-ed25519 AAAAC3 admin@laptop"); vm_compute; reflexivity.
  - vm_compute. exact I.
  - unfold demo_added. rewrite (surjective_pairing (serve_key _ _ _)) at 1. f_equal.
  - vm_compute. discriminate.
  - split; [|exact Hd]. assert (key_spec (forced_command demo_keys) (AddKey demo_a) (key_lines (w_tree (start_world demo_files 0)) (tg_authorized_keys demo_key_target))
      = [granted_line (forced_command demo_keys) demo_a]) as H1 by (vm_compute; reflexivity).
    rewrite H1 in Hl. exact Hl.
Defined.
Lemma grants_only_the_pipe_witness :
  ∃ key, AddKey key ∈ demo_reqs ∧
  parse_line (forced_command demo_keys) (granted_line (forced_command demo_keys) demo_b) =
    {| ln_raw := granted_line (forced_command demo_keys) demo_b;
       ln_kind := Key {| pk_key := key; pk_options := forced_command demo_keys; pk_ours := true |} |}.
Proof.
  apply (grants_only_the_pipe demo_keys demo_key_target demo_reqs demo_files ∅ demo_end.1 demo_end.2).
  - vm_compute. reflexivity.
  - vm_compute. reflexivity.
  - exact demo_bin_unquoted.
  - exact demo_reqs_ok.
  - vm_compute. reflexivity.
  - rewrite <- surjective_pairing. apply demo_keys_served.
  - assert (key_lines demo_end.1 (tg_authorized_keys demo_key_target) = [granted_line (forced_command demo_keys) demo_b]) as ->
      by (vm_compute; reflexivity). apply list_elem_of_here.
Defined.

(** A carriage return before a newline does not survive a rewrite. *)
Lemma crlf_not_preserved :
  key_lines (demo_serve (AddKey demo_b)
    (<[demo_home ++ [".ssh"] := Dir]> (<[tg_authorized_keys demo_key_target := File ("# by hand" +:+ chr 13 +:+ newline)]> demo_files), ∅)).1
    (tg_authorized_keys demo_key_target) = ["# by hand"; granted_line (forced_command demo_keys) demo_b] ∧
  (demo_serve (AddKey demo_b)
    (<[demo_home ++ [".ssh"] := Dir]> (<[tg_authorized_keys demo_key_target := File ("# by hand" +:+ chr 13 +:+ newline)]> demo_files), ∅)).1
    !! tg_authorized_keys demo_key_target
  = Some (File ("# by hand" +:+ newline +:+ granted_line (forced_command demo_keys) demo_b +:+ newline)).
Proof. split; vm_compute; reflexivity. Qed.
