(* ===== verification/Auth.v ===== *)
(** * Who may do what (greendotctl/src/pam.rs, the options and the peer check of main.rs)

    The command line of the daemon, the uids its socket admits, and the login
    check behind the rate limiter. The limiter's arithmetic is IEEE double
    precision, by the Standard Library's specification floats; PAM and the
    account database are class parameters. *)
From Stdlib Require Import ZArith SpecFloat Ascii String.
From stdpp Require Import base option list strings sets gmap pretty.
From S2P Require Import Prelude Validate Types Wire Ops Fs PipeKeys Csi.
#[local] Open Scope string_scope.
#[local] Open Scope list_scope.
#[local] Open Scope N_scope.

(** ** Options *)

Record Opts : Type := {
  op_socket : string;
  op_allow_user : string;
  op_allow_uid : option u32;
  op_pam_service : string;
  op_admin_group : string;
  op_config : option string;
  op_nvmet_root : option string;
  op_csi_state_root : option string;
  op_pipe_user : string;
  op_pipe_home : option string;
  op_pipe_command : option string }.
Definition default_opts : Opts := {|
  op_socket := "/run/greendotrdma/helper.sock"; op_allow_user := "greendot"; op_allow_uid := None;
  op_pam_service := "greendotrdma"; op_admin_group := "greendot-admin"; op_config := None;
  op_nvmet_root := None; op_csi_state_root := None; op_pipe_user := SSH_USER; op_pipe_home := None;
  op_pipe_command := None |}.
(** [ParseIntError] of an unsigned type. *)
Definition parse_int_error (s : string) : string :=
  let digits := match s with String "+" r => r | _ => s end in
  if is_empty s then "cannot parse integer from empty string"
  else if is_empty digits || negb (all_chars is_ascii_digit digits) then "invalid digit found in string"
  else "number too large to fit in target type".
(** One flag with its value; [None] for an unknown flag. *)
Definition set_flag (o : Opts) (flag value : string) : option (result string Opts) :=
  let mk so au ui ps ag co nr cs pu ph pc :=
    Some (Ok {| op_socket := so; op_allow_user := au; op_allow_uid := ui; op_pam_service := ps; op_admin_group := ag;
                op_config := co; op_nvmet_root := nr; op_csi_state_root := cs; op_pipe_user := pu; op_pipe_home := ph;
                op_pipe_command := pc |}) in
  let '{| op_socket := so; op_allow_user := au; op_allow_uid := ui; op_pam_service := ps; op_admin_group := ag;
          op_config := co; op_nvmet_root := nr; op_csi_state_root := cs; op_pipe_user := pu; op_pipe_home := ph;
          op_pipe_command := pc |} := o in
  if bool_decide (flag = "--socket") then mk value au ui ps ag co nr cs pu ph pc
  else if bool_decide (flag = "--allow-user") then mk so value ui ps ag co nr cs pu ph pc
  else if bool_decide (flag = "--allow-uid") then
    match parse_uint 32 value with
    | Some uid => mk so au (Some uid) ps ag co nr cs pu ph pc
    | None => Some (Err (parse_int_error value))
    end
  else if bool_decide (flag = "--pam-service") then mk so au ui value ag co nr cs pu ph pc
  else if bool_decide (flag = "--admin-group") then mk so au ui ps value co nr cs pu ph pc
  else if bool_decide (flag = "--config") then mk so au ui ps ag (Some value) nr cs pu ph pc
  else if bool_decide (flag = "--csi-state-root") then mk so au ui ps ag co nr (Some value) pu ph pc
  else if bool_decide (flag = "--nvmet-root") then mk so au ui ps ag co (Some value) cs pu ph pc
  else if bool_decide (flag = "--pipe-user") then mk so au ui ps ag co nr cs value ph pc
  else if bool_decide (flag = "--pipe-home") then mk so au ui ps ag co nr cs pu (Some value) pc
  else if bool_decide (flag = "--pipe-command") then mk so au ui ps ag co nr cs pu ph (Some value)
  else None.
Fixpoint parse_opts (o : Opts) (args : list string) : result string Opts :=
  match args with
  | [] => Ok o
  | [flag] =>
      match set_flag o flag "" with
      | Some _ => Err (flag +:+ " needs a value")
      | None => Err ("unknown flag " +:+ flag)
      end
  | flag :: value :: args =>
      match set_flag o flag value with
      | Some (Ok o) => parse_opts o args
      | Some (Err e) => Err e
      | None => Err ("unknown flag " +:+ flag)
      end
  end.
(** The subcommands. *)
Inductive Command : Type :=
| CmdReconcile (config : option string)
| CmdPipe (socket : option string)
| CmdServe (opts : Opts).
Definition parse_command (args : list string) : result string Command :=
  match args with
  | "reconcile" :: args => Ok (CmdReconcile (head args))
  | "pipe" :: args => Ok (CmdPipe (head args))
  | "serve" :: args => CmdServe <$> parse_opts default_opts args
  | _ => CmdServe <$> parse_opts default_opts args
  end.

(** ** The peers of the socket *)

Class Accounts := {
  user_from_uid : N → result string (option User);
  getgrouplist : string → N → option (list N) }.
Definition resolve_allowed_ids {L : Login} (o : Opts) : result string (N * option N) :=
  match op_allow_uid o with
  | Some uid => Ok (raw uid, None)
  | None =>
      match user_from_name (op_allow_user o) with
      | Ok (Some u) => Ok (us_uid u, Some (us_gid u))
      | Ok None => Err ("user " +:+ debug_str (op_allow_user o) +:+ " does not exist")
      | Err e => Err e
      end
  end.
Definition peer_allowed (uid allowed_uid : N) (allowed_gid : option N) (groups_of : N → option (list N)) : bool :=
  (uid =? allowed_uid)
  || match allowed_gid with
     | Some gid => match groups_of uid with Some groups => bool_decide (gid ∈ groups) | None => false end
     | None => false
     end.
(** A name with a NUL is no C string. *)
Definition user_groups {A : Accounts} (uid : N) : option (list N) :=
  match user_from_uid uid with
  | Ok (Some u) => if existsb (λ c, code c =? 0) (chars (us_name u)) then None else getgrouplist (us_name u) (us_gid u)
  | _ => None
  end.

(** ** The rate limiter, in double precision *)

Abbreviation f64 := spec_float.
Definition f64_of_Z (z : Z) : f64 := binary_normalize 53 1024 z 0 false.
Definition f64_add : f64 → f64 → f64 := SFadd 53 1024.
Definition f64_sub : f64 → f64 → f64 := SFsub 53 1024.
Definition f64_mul : f64 → f64 → f64 := SFmul 53 1024.
Definition f64_div : f64 → f64 → f64 := SFdiv 53 1024.
(** [f64::min]: the other argument when one is not a number. *)
Definition f64_min (a b : f64) : f64 :=
  match a, b with
  | S754_nan, _ => b
  | _, S754_nan => a
  | _, _ => match SFcompare a b with Some Lt => a | _ => b end
  end.
(** A point of the monotonic clock, in nanoseconds, and [as_secs_f64]. *)
Definition secs_f64 (nanos : N) : f64 :=
  f64_add (f64_of_Z (Z.of_N (nanos / 10 ^ 9))) (f64_div (f64_of_Z (Z.of_N (nanos mod 10 ^ 9))) (f64_of_Z (10 ^ 9))).
Record RateLimiter : Type := { rl_capacity : f64; rl_refill_per_sec : f64; rl_tokens : f64; rl_last : N }.
Definition new_limiter (capacity : u32) (window_secs : f64) (now : N) : RateLimiter :=
  let capacity := f64_of_Z (Z.of_N (raw capacity)) in
  {| rl_capacity := capacity; rl_refill_per_sec := f64_div capacity window_secs; rl_tokens := capacity; rl_last := now |}.
Definition allow (l : RateLimiter) (now : N) : bool * RateLimiter :=
  let elapsed := secs_f64 (now - rl_last l) in
  let tokens := f64_min (f64_add (rl_tokens l) (f64_mul elapsed (rl_refill_per_sec l))) (rl_capacity l) in
  let set tokens :=
    {| rl_capacity := rl_capacity l; rl_refill_per_sec := rl_refill_per_sec l; rl_tokens := tokens; rl_last := now |} in
  if SFleb (f64_of_Z 1) tokens then (true, set (f64_sub tokens (f64_of_Z 1))) else (false, set tokens).
(** The limiter of the daemon: five attempts in thirty seconds. *)
Definition login_limiter (now : N) : RateLimiter := new_limiter (lit 5) (f64_of_Z 30) now.

(** ** Logging in *)

Class Pam := pam_check : string → string → string → result string unit.
Inductive ErrKind : Type := EAuthFailed | ENotInAdminGroup | EValidation | EBusy | ESys | ECmdFailed | EUnsupported.
Inductive AuthResult : Type := AuthOk (username : string) | AuthErr (kind : ErrKind) (message : string).
Record AuthConfig : Type := { au_pam_service : string; au_admin_group : string }.
Definition is_member (username : string) (user_primary_gid : option N) (group_gid : N) (group_members : list string) : bool :=
  bool_decide (user_primary_gid = Some group_gid) || existsb (λ m, bool_decide (m = username)) group_members.
Section auth.
Context {L : Login} {P : Pam}.
Definition in_admin_group (username admin_group : string) : bool :=
  match group_from_name admin_group with
  | Ok (Some group) =>
      let primary_gid := match user_from_name username with Ok (Some u) => Some (us_gid u) | _ => None end in
      is_member username primary_gid (gr_gid group) (gr_mem group)
  | _ => false
  end.
Definition authenticate (cfg : AuthConfig) (l : RateLimiter) (now : N) (username : Username) (password : string) :
    AuthResult * RateLimiter :=
  let '(allowed, l) := allow l now in
  (if negb allowed then AuthErr EBusy "too many authentication attempts, try again later"
   else match pam_check (au_pam_service cfg) (as_str username) password with
        | Err _ => AuthErr EAuthFailed "invalid username or password"
        | Ok _ =>
            if negb (in_admin_group (as_str username) (au_admin_group cfg))
            then AuthErr ENotInAdminGroup ("user is not a member of the " +:+ au_admin_group cfg +:+ " group")
            else AuthOk (as_str username)
        end, l).
(** The rpc: validation first, and an invalid name costs no attempt. *)
Definition authenticate_rpc (cfg : AuthConfig) (l : RateLimiter) (now : N) (m : pb_Authenticate) : AuthResult * RateLimiter :=
  match Authenticate_try_from m with
  | Ok auth => authenticate cfg l now (authenticate_username auth) (authenticate_password auth)
  | Err e => (AuthErr EValidation e, l)
  end.
End auth.

(** ** Facts *)

(** At one instant the limiter grants what is left of its five tokens. *)
Definition limiter_at (now : N) (k : nat) : RateLimiter :=
  {| rl_capacity := f64_of_Z 5; rl_refill_per_sec := f64_div (f64_of_Z 5) (f64_of_Z 30);
     rl_tokens := f64_of_Z (Z.of_nat k); rl_last := now |}.
Lemma allow_burst now k :
  (k <= 5)%nat → allow (limiter_at now k) now = (match k with O => false | _ => true end, limiter_at now (pred k)).
Proof.
  intros Hk. unfold allow, limiter_at. cbn [rl_last rl_tokens rl_refill_per_sec rl_capacity]. rewrite N.sub_diag.
  do 6 (destruct k as [|k]; [vm_compute; reflexivity|]). lia.
Qed.
Fixpoint attempts (l : RateLimiter) (now : N) (n : nat) : list bool :=
  match n with
  | O => []
  | S n => let '(ok, l) := allow l now in ok :: attempts l now n
  end.
Lemma attempts_burst now k n :
  (k <= 5)%nat → attempts (limiter_at now k) now n = replicate (min n k) true ++ replicate (n - k) false.
Proof.
  revert k. induction n as [|n IH]; intros k Hk; [done|]. cbn [attempts]. rewrite allow_burst by done.
  destruct k as [|k]; cbn [pred]; rewrite IH by lia; [by rewrite Nat.min_0_r, Nat.sub_0_r|done].
Qed.
(** The tokens never exceed the capacity, whatever time passes. *)
Lemma f64_min_le a b : SFleb b b = true → SFleb (f64_min a b) b = true.
Proof.
  intros Hb. unfold f64_min. destruct a as [sa|sa| |sa ma ea]; [..|done|]; destruct b as [sb|sb| |sb mb eb]; try done;
    destruct (SFcompare _ _) as [[]|] eqn:E; try done; unfold SFleb; by rewrite E.
Qed.
Lemma is_member_spec u p g m : is_member u p g m = true ↔ p = Some g ∨ u ∈ m.
Proof.
  unfold is_member. rewrite orb_true_iff, bool_decide_eq_true, existsb_exists. apply or_iff_compat_l. split.
  - intros (x & Hx & <-%bool_decide_eq_true). by apply list_elem_of_In.
  - intros Hx. exists u. split; [by apply list_elem_of_In|by apply bool_decide_eq_true].
Qed.
(** Belonging to the admin group: by its primary group or by the member list. *)
Definition admin {L : Login} (admin_group username : string) : Prop :=
  ∃ g, group_from_name admin_group = Ok (Some g) ∧
    ((∃ u, user_from_name username = Ok (Some u) ∧ us_gid u = gr_gid g) ∨ username ∈ gr_mem g).
Lemma in_admin_group_spec {L : Login} username group : in_admin_group username group = true ↔ admin group username.
Proof.
  unfold in_admin_group, admin. destruct (group_from_name group) as [[g|]|e].
  - rewrite is_member_spec. split.
    + intros Hm. exists g. split; [done|]. destruct Hm as [Hp|?]; [left|by right].
      destruct (user_from_name username) as [[u|]|]; [|done..]. exists u. by injection Hp.
    + intros (g' & [= <-] & [(u & -> & Hu)|?]); [left; by rewrite Hu|by right].
  - split; [done|]. by intros (? & ? & _).
  - split; [done|]. by intros (? & ? & _).
Qed.
(** A login succeeds exactly when an attempt is left, PAM accepts the password
    and the user is an administrator. *)
Lemma login_spec {L : Login} {P : Pam} cfg l now username password :
  (authenticate cfg l now username password).1 = AuthOk (as_str username) ↔
  (allow l now).1 = true ∧ is_ok (pam_check (au_pam_service cfg) (as_str username) password) = true ∧
  admin (au_admin_group cfg) (as_str username).
Proof.
  unfold authenticate. rewrite <- in_admin_group_spec. destruct (allow l now) as [[] l']; cbn; [|by split; [|intros [? _]]].
  destruct (pam_check _ _ _) as [u|e]; cbn; [|by split; [|intros (_ & ? & _)]].
  destruct (in_admin_group _ _); cbn; by split; [|intros (_ & _ & ?)].
Qed.

(** C34: Who gets in. The login rpc accepts a user exactly when the name is a valid
    username, the rate limiter has an attempt left, PAM accepts the password, and
    the user belongs to the admin group (as primary group or listed member); an
    invalid name costs no attempt. However often it is tried at one instant, a
    fresh limiter lets five attempts through and no more. *)
Theorem login_gate {L : Login} {P : Pam} cfg l now m u n :
  ((authenticate_rpc cfg l now m).1 = AuthOk u ↔
    u = pb_authenticate_username m ∧ validator NtUsername u ∧ (allow l now).1 = true ∧
    is_ok (pam_check (au_pam_service cfg) u (pb_authenticate_password m)) = true ∧ admin (au_admin_group cfg) u) ∧
  (¬ validator NtUsername (pb_authenticate_username m) → (authenticate_rpc cfg l now m).2 = l) ∧
  attempts (login_limiter now) now n = replicate (min n 5) true ++ replicate (n - 5) false.
Proof.
  split_and!; [| |change (login_limiter now) with (limiter_at now 5); by apply attempts_burst].
  - unfold authenticate_rpc. destruct (Authenticate_try_from m) as [auth|e] eqn:E.
    + unfold Authenticate_try_from in E. apply bind_Ok in E as (name & Hn & [= <-]). cbn [authenticate_username authenticate_password].
      unfold validate in Hn. apply map_err_Ok, new_Ok in Hn. rewrite <- Hn. split.
      * intros Ha. assert (u = as_str name) as ->.
        { unfold authenticate in Ha. destruct (allow l now) as [[] ?]; [|done]. destruct (pam_check _ _ _); [|done]. destruct (in_admin_group _ _); [by injection Ha|done]. }
        apply login_spec in Ha as (H1 & H2 & H3). split_and!; [done|apply (raw_ok name)|done..].
      * intros (-> & _ & H1 & H2 & H3). by apply login_spec.
    + split; [done|]. intros (-> & Hv & _). unfold Authenticate_try_from, validate in E.
      destruct (new NtUsername (pb_authenticate_username m)) as [x|e'] eqn:En; [done|]. exfalso.
      assert (new NtUsername (pb_authenticate_username m) = Ok (Refine _ Hv)) as Hk by by apply new_Ok. by rewrite Hk in En.
  - intros Hv. unfold authenticate_rpc, Authenticate_try_from, validate.
    destruct (new NtUsername (pb_authenticate_username m)) as [x|e] eqn:En; [|done].
    apply new_Ok in En. destruct Hv. rewrite <- En. apply raw_ok.
Qed.
