(* ===== verification/Daemon.v ===== *)
(** * The daemon (greendotctl/src/main.rs, exec.rs)

    The table that gives every request its execution, the middleware around it
    (validation, the mutate lock, task framing, folding of panics), the typed
    reads, and the standalone reconcile command. A panic is a value; a panic
    under the lock poisons it. *)
From Stdlib Require Import Ascii String.
From stdpp Require Import base option list strings sets gmap pretty.
From S2P Require Import Prelude Ordered Validate IpAddr Types Wire Ops Desired Actual Render Task Fs World Hardware.
From S2P Require Import Commands Nvmet Csi Nfs Lio Nic Reconcile PipeKeys Auth.
#[local] Open Scope string_scope.
#[local] Open Scope list_scope.
#[local] Open Scope N_scope.

Record Ctx : Type := {
  ct_auth : AuthConfig;
  ct_reconcile_config : option path;
  ct_nvmet_root : path;
  ct_csi_state_root : path;
  ct_pipe_keys : PipeKeyConfig;
  ct_autoload_modules : bool }.
Definition STATE_ROOT : path := ["var"; "lib"; "greendotrdma"; "csi"].
Definition LIO_ROOT : path := ["sys"; "kernel"; "config"; "target"].

(** ** Requests of the task rpcs *)

(** [PipeKeyAdd] carries a key line, parsed on ingress. *)
Inductive wire : Type := WOp (w : wire_request) | WPipeKeyAdd (public_key : string).
Inductive task_op : Type := TOp (r : request) | TPipeKeyAdd (key : SshPublicKeyLine).
Definition decode_wire {S : SshKey} (w : wire) : conv task_op :=
  match w with
  | WOp w => TOp <$> decode_request w
  | WPipeKeyAdd public_key =>
      match public_key_line public_key with
      | Some key => Ok (TPipeKeyAdd key)
      | None => Err ("invalid SSH public key: " +:+ debug_str "")
      end
  end.
(** The message a client sends for an operation. *)
Definition encode_wire (o : task_op) : wire :=
  match o with
  | TOp r => WOp (encode_request r)
  | TPipeKeyAdd key => WPipeKeyAdd (sk_canonical key)
  end.

Section daemon.
Context {C : Client} {K : Kernel} {M : Machine} {I : Idle} {J : JsonParser} {P : Lio.JsonPrinter} {T : Toml} {L : Live}
        {S : SshKey} {H : Login} {Q : StateCodec}.

(** The context the CSI handlers see. *)
Definition csi_ctx (cx : Ctx) (t : tree) : Csi.ctx :=
  {| cx_nvmet_root := ct_nvmet_root cx; cx_state_root := ct_csi_state_root cx;
     cx_autoload_modules := ct_autoload_modules cx; cx_nics := net_class t |}.
Definition exec_csi (cx : Ctx) (o : csi_op) : op (panics unit) :=
  c ← op_get (csi_ctx cx); _ ← Csi.exec c o; mret (Ok tt).
(** An execution that cannot panic. *)
Definition plain (m : op unit) : op (panics unit) := _ ← m; mret (Ok tt).
(** [TaskOp::exec], for the requests that are tasks. *)
Definition exec (cx : Ctx) (o : task_op) : option (op (panics unit)) :=
  match o with
  | TPipeKeyAdd key => Some (plain (PipeKeys.add (ct_pipe_keys cx) key))
  | TOp r =>
      match spec_of r with
      | Some spec => Some (plain (run_spec spec))
      | None =>
          match r with
          | RPoolDeviceRemove o =>
              Some (plain (pool_device_remove_and_wait (pool_device_remove_pool o) (pool_device_remove_target o)))
          | RUnit OpReconcile => Some (Reconcile.run (ct_reconcile_config cx))
          | RPartitionShrink o =>
              Some (plain (shrink (partition_shrink_disk o) (partition_shrink_number o) (partition_shrink_size_sectors o)))
          | RRxeAdd o => Some (plain (rxe_add (rxe_add_netdev o)))
          | REnableRoce o =>
              Some (plain (nics ← op_get net_class; enable_roce nics (enable_roce_netdev o)))
          | RZfsClone o => Some (plain (zfs_clone_and_resize o))
          | RCsiNvmeApply o => Some (exec_csi cx (OpApply o))
          | RCsiPublish o => Some (exec_csi cx (OpPublish o))
          | RCsiUnpublish o => Some (exec_csi cx (OpUnpublish o))
          | RCsiNvmeDelete o => Some (exec_csi cx (OpDelete (csi_nvme_delete_nqn o)))
          | RCsiHostGrant o => Some (exec_csi cx (OpHostGrant (csi_host_grant_nqn o) (csi_host_grant_hostnqn o)))
          | RCsiHostRevoke o => Some (exec_csi cx (OpHostRevoke (csi_host_revoke_nqn o) (csi_host_revoke_hostnqn o)))
          | RCsiVolumeExpand o => Some (exec_csi cx (OpExpand (csi_volume_expand_nqn o) (csi_volume_expand_new_size o)))
          | RPipeKeyRevoke o => Some (plain (PipeKeys.revoke (ct_pipe_keys cx) (pipe_key_revoke_fingerprint o)))
          | RInstallPackages o => Some (plain (install_packages (install_packages_packages o)))
          | _ => None
          end
      end
  end.
(** [TaskOp::MUTATES]. *)
Definition mutates (o : task_op) : bool :=
  match o with TOp (RUnit OpReconcile) => false | _ => true end.

(** ** The middleware *)

Definition POISONED : string := "called `Result::unwrap()` on an `Err` value: PoisonError { .. }".
(** Whether this execution reaches the lock: reconcile only with a configuration. *)
Definition takes_lock (cx : Ctx) (o : task_op) (t : tree) : bool :=
  mutates o || is_ok (Reconcile.load (ct_reconcile_config cx) t).
(** [exec] behind the lock. *)
Definition locked (cx : Ctx) (o : task_op) (poisoned : bool) (m : op (panics unit)) : op (panics unit) :=
  need ← op_get (takes_lock cx o);
  if need && poisoned then mret (Err POISONED) else m.
(** A worker ends, or panics with a message. *)
Inductive worker : Type := WorkerDone | WorkerPanicked (msg : string).
Definition fresh (w : world) : world := set_sub (set_task w new_task) (0%Z, None).
Definition run_op (cx : Ctx) (o : task_op) (poisoned : bool) (m : op (panics unit)) (w : world) : worker * world :=
  match locked cx o poisoned m (fresh w) with
  | (Ok (Ok _), w) => (WorkerDone, set_task w (complete (w_task w)).2)
  | (Ok (Err msg), w) => (WorkerPanicked msg, w)
  | (Err _, w) => (WorkerDone, w)
  end.
Definition reject (msg : string) (w : world) : world := set_task (fresh w) (emit_reject msg).2.
(** The second task: a worker panic becomes the terminal event. *)
Definition fold_panic (r : worker) (w : world) : world :=
  match r with
  | WorkerDone => w
  | WorkerPanicked msg =>
      set_task w (emit (w_task w) (Finished Failed (Some ("helper worker panicked: " +:+ msg)))).2
  end.
(** One task rpc from the wire: whether the lock is poisoned afterwards, and the
    world with the stream the client received. [None]: not a task rpc. *)
Definition spawn_task (cx : Ctx) (msg : wire) (poisoned : bool) (w : world) : option (bool * world) :=
  match decode_wire msg with
  | Err e => Some (poisoned, reject ("invalid request: " +:+ e) w)
  | Ok o =>
      m ← exec cx o;
      let '(r, w') := run_op cx o poisoned m w in
      Some (poisoned || match r with WorkerPanicked _ => true | WorkerDone => false end, fold_panic r w')
  end.

(** ** Startup *)

(** [load_startup_modules]: outside any task; failures are only logged. *)
Definition load_startup_modules : op unit :=
  nics ← op_get (λ t, rdma_driver_modules (net_class t));
  match ensure STARTUP_MODULES nics with
  | None => mret tt
  | Some spec => _ ← spawn (ts_command spec) (ts_args spec) None []; mret tt
  end.
(** The context of [serve_forever]; an unreadable configuration keeps the default
    of the autoload switch. *)
Definition serve_ctx (o : Opts) (current_exe : option string) (t : tree) : Ctx :=
  let config := abs_path <$> op_config o in
  {| ct_auth := {| au_pam_service := op_pam_service o; au_admin_group := op_admin_group o |};
     ct_reconcile_config := config;
     ct_nvmet_root := default NVMET_ROOT (abs_path <$> op_nvmet_root o);
     ct_csi_state_root := default STATE_ROOT (abs_path <$> op_csi_state_root o);
     ct_pipe_keys := {| pk_user := op_pipe_user o; pk_socket_group := op_allow_user o;
                        pk_pipe_bin := default (resolve_pipe_bin current_exe) (op_pipe_command o);
                        pk_home_override := abs_path <$> op_pipe_home o |};
     ct_autoload_modules := match Reconcile.load config t with
                            | Ok cfg => autoload_modules cfg
                            | Err _ => autoload_modules Config_default
                            end |}.

(** ** Typed reads *)

(** [zfs::zvol_info]: the size of the device a zvol's link leads to. *)
Fixpoint canonicalize (fuel : nat) (t : tree) (p : path) : option path :=
  match fuel with
  | O => None
  | Datatypes.S fuel =>
      match t !! p with
      | Some (Link q) => canonicalize fuel t q
      | Some _ => Some p
      | None => None
      end
  end.
Definition no_zvol : bool * u64 := (false, (lit 0 : u64)).
Definition zvol_info (dev_zvol sys_block : path) (dataset : DatasetName) (t : tree) : bool * u64 :=
  match canonicalize 41 t (dev_zvol ++ split "/" (as_str dataset)) with
  | None => no_zvol
  | Some target =>
      match last target with
      | None => no_zvol
      | Some name =>
          let sectors := default (lit 0 : u64) (parse_uint 64 (read_trim t (sys_block ++ [name; "size"]))) in
          (true, truncate 64 (raw sectors * 512))
      end
  end.
Definition health (device : BlockDev) : op (option bool * option Z) :=
  c ← spawn "smartctl" (health_argv device) None [];
  mret match c with Ran output _ => parse_health (stdout_of output) | NotStarted _ _ => (None, None) end.
Fixpoint smart_health (devices : list BlockDev) : op (list (string * option bool * option Z)) :=
  match devices with
  | [] => mret []
  | d :: devices =>
      '(passed, temp_c) ← health d;
      rest ← smart_health devices;
      mret ((as_str d, passed, temp_c) :: rest)
  end.
Inductive reply : Type :=
| RepNfs (r : ActualNfs) | RepNvmet (r : ActualNvmet) | RepLio (r : ActualLio) | RepLioSessions (r : list IscsiSession)
| RepRdmaDevices (r : list RdmaDev) | RepNicPciAddrs (r : gmap string (list IpAddr)) | RepNicInterfaces (r : list NicStatus)
| RepNicNetwork (r : list NicNetwork) | RepRoceCapable (r : gmap string string) | RepNicAdvice (r : gmap string (string * string))
| RepSmartHealth (r : list (string * option bool * option Z)) | RepDryRun (nvmet lio nfs nic : bool)
| RepZvolInfo (present : bool) (size_bytes : u64) | RepAttachment (r : CsiAttachmentReply)
| RepPipeAccess (r : PipeAccessReportReply).
Definition roce_hw (t : tree) : gmap string string := collect (roce_capable (net_class t)).
Definition access_report (cx : Ctx) : op reply := λ w,
  (Ok (RepPipeAccess (PipeKeys.report (ct_pipe_keys cx) (w_tree w) (w_meta w))), w).
(** The attachment is read under the lock; the read itself changes nothing. *)
Definition attachment_reply (cx : Ctx) (nqn : CsiNqn) : op reply :=
  r ← lift (Csi.attachment (ct_csi_state_root cx) (as_str nqn));
  mret match r with
       | Ok a => RepAttachment a
       | Err e => RepAttachment {| car_hostnqn := ""; car_attachment_id := ""; car_error := err_msg e |}
       end.
(** [ReadOp::read]. *)
Definition read (cx : Ctx) (poisoned : bool) (r : request) : option (op (panics reply)) :=
  let pure (f : tree → reply) : op (panics reply) := op_get (λ t, Ok (f t)) in
  match r with
  | RUnit OpNfsReport =>
      Some (text ← Reconcile.report NFSD_PORTLIST NFS_EXPORTS_FILE; mret (Ok (RepNfs (Nfs.from_report text))))
  | RUnit OpNvmetReport => Some (pure (λ t, RepNvmet (Nvmet.read t (ct_nvmet_root cx))))
  | RUnit OpPipeAccessReport => Some (a ← access_report cx; mret (Ok a))
  | RZvolInfo o =>
      Some (pure (λ t, let '(present, size) := zvol_info ["dev"; "zvol"] ["sys"; "class"; "block"] (zvol_info_dataset o) t in
                       RepZvolInfo present size))
  | RUnit OpLioReport => Some (pure (λ t, RepLio (Lio.read t LIO_ROOT)))
  | RUnit OpLioSessions => Some (pure (λ t, RepLioSessions (Lio.sessions t LIO_ROOT)))
  | RUnit OpRdmaDevices => Some (pure (λ t, RepRdmaDevices (Nic.read (ib_class t) (Nic.netdev_addrs (if_addrs t)))))
  | RUnit OpNicPciAddrs => Some (pure (λ t, RepNicPciAddrs (Nic.pci_addrs (net_class t) (if_addrs t))))
  | RUnit OpNicInterfaces =>
      Some (pure (λ t, RepNicInterfaces (Nic.classify (net_class t) (ib_class t) (Nic.netdev_addrs (if_addrs t)) (roce_hw t))))
  | RUnit OpNicNetwork =>
      Some (addr ← run_ip ["-j"; "addr"];
            route ← run_ip ["-j"; "route"; "show"; "default"];
            mret (Ok (RepNicNetwork (Nic.networks_from_json addr route))))
  | RUnit OpRoceCapableNics => Some (pure (λ t, RepRoceCapable (roce_hw t)))
  | RUnit OpNicRdmaAdvice =>
      Some (pure (λ t, RepNicAdvice (collect ((λ '(netdev, label, detail), (netdev, (label, detail)))
                                                <$> nic_rdma_advice (net_class t)))))
  | RSmartHealth o => Some (l ← smart_health (smart_health_devices o); mret (Ok (RepSmartHealth l)))
  | RUnit OpReconcileDryRun =>
      Some (r ← Reconcile.drift (ct_reconcile_config cx);
            mret match r with Ok (nvmet, lio, nfs, nic) => Ok (RepDryRun nvmet lio nfs nic) | Err p => Err p end)
  | RCsiNvmeDelete o =>
      Some (if poisoned then mret (Err POISONED) else a ← attachment_reply cx (csi_nvme_delete_nqn o); mret (Ok a))
  | _ => None
  end.
Inductive read_status : Type := ReadOk (r : reply) | InvalidArgument (msg : string) | Internal (msg : string).
(** [read_op]: one reply, an invalid-argument status, or an internal one after a
    panic (whose own text the join error carries). *)
Definition read_op (cx : Ctx) (poisoned : bool) (msg : wire_request) (w : world) : option (read_status * world) :=
  match decode_request msg with
  | Err e => Some (InvalidArgument e, w)
  | Ok r =>
      m ← read cx poisoned r;
      match m w with
      | (Ok (Ok a), w) => Some (ReadOk a, w)
      | (Ok (Err p), w) => Some (Internal ("helper worker panicked: " +:+ p), w)
      | (Err e, w) => Some (Internal ("helper worker panicked: " +:+ e), w)
      end
  end.

(** ** The standalone command (reconcile.rs) *)

(** What [StdoutSink] prints of an event, to stdout ([true]) or stderr. *)
Definition stdout_sink (ev : TaskEvent) : list (bool * string) :=
  match ev with
  | SubtaskStarted name _ _ _ => [(true, "== " +:+ name +:+ " ==" +:+ newline)]
  | Stdout data => [(true, data)]
  | Stderr data => [(false, data)]
  | SubtaskFinished Skipped _ _ => [(true, "already satisfied" +:+ newline)]
  | Finished Failed error => [(false, default "reconcile failed" error +:+ newline)]
  | _ => []
  end.
(** The standalone pass of [cli]: its output and exit code ([None]: it panicked). *)
Definition standalone (cfg_path : option path) (w : world) : option (list (bool * string) * N) :=
  match Reconcile.run cfg_path (fresh w) with
  | (Ok (Ok _), w) =>
      let ok := negb (bool_decide (aggregate (w_task w) = Failed)) in
      let t := (complete (w_task w)).2 in
      Some (mjoin (stdout_sink <$> log t), if ok then 0 else 1)
  | _ => None
  end.
End daemon.
