(* ===== verification/DaemonFacts.v ===== *)
(** * What a client of the daemon sees

    Every operation is a program over the task API: its effect on the task is
    that of some list of subtasks, each with some outputs, so the framing of
    Task.v carries over to every request the daemon serves. Refused requests and
    a poisoned lock leave everything as it was; and what is encoded for the wire is
    decoded to the same request. *)
From Stdlib Require Import Ascii String.
From stdpp Require Import base option list strings sets gmap pretty.
From S2P Require Import Prelude PipeKeysFacts Ordered Validate IpAddr Types Wire Ops Desired Actual Render Task Fs World Hardware.
From S2P Require Import Commands Nvmet Csi CsiTheorems Nfs Lio Nic Reconcile PipeKeys Auth Daemon.
#[local] Open Scope string_scope.
#[local] Open Scope list_scope.
#[local] Open Scope N_scope.

(** ** Operations as programs over the task API *)

Definition res_of {A} (r : result string A) : result string unit :=
  match r with Ok _ => Ok tt | Err e => Err e end.

Section sim.
Context {C : Client}.
(** The steps of an open subtask, without its end. *)
Fixpoint do_steps (t : Task) (s : subtask) (steps : list sub_step) : result string unit * Task * subtask :=
  match steps with
  | [] => (Ok tt, t, s)
  | SetResult exit error :: steps => do_steps t (exit, error) steps
  | Out data :: steps =>
      match pipe_write t (Stdout data) with
      | (Ok _, t) => do_steps t s steps
      | (Err e, t) => (Err e, t, s)
      end
  | ErrOut data :: steps =>
      match pipe_write t (Stderr data) with
      | (Ok _, t) => do_steps t s steps
      | (Err e, t) => (Err e, t, s)
      end
  end.
(** Between subtasks: some list of subtasks. Inside one: some list of steps.
    Silent: neither. *)
Definition sim {A} (m : op A) : Prop := ∀ w r w', m w = (r, w') →
  ∃ ws, run_works (w_task w) ws = (res_of r, w_task w').
Definition insim {A} (m : op A) : Prop := ∀ w r w', m w = (r, w') →
  ∃ steps, do_steps (w_task w) (w_sub w) steps = (res_of r, w_task w', w_sub w').
Definition silent {A} (m : op A) : Prop := ∀ w r w', m w = (r, w') →
  res_of r = Ok tt ∧ w_task w' = w_task w ∧ w_sub w' = w_sub w.

Lemma run_works_app ws1 ws2 t :
  run_works t (ws1 ++ ws2) = match run_works t ws1 with (Ok _, t) => run_works t ws2 | (Err e, t) => (Err e, t) end.
Proof.
  revert t. induction ws1 as [|w ws1 IH]; intros t; [done|]. cbn. destruct (run_work t w) as [[u|e] t1]; [apply IH|done].
Qed.
Lemma do_steps_app l1 l2 t s :
  do_steps t s (l1 ++ l2) =
  match do_steps t s l1 with (Ok _, t, s) => do_steps t s l2 | (Err e, t, s) => (Err e, t, s) end.
Proof.
  revert t s. induction l1 as [|x l1 IH]; intros t s; [done|]. destruct x as [d|d|x e]; cbn; [..|apply IH];
    (destruct (pipe_write _ _) as [[u|e] t1]; [apply IH|done]).
Qed.
Lemma run_steps_do t s steps fin :
  run_steps t s steps fin =
  match do_steps t s steps with
  | (Ok _, t, s) => (Ok tt, finish_sub t s fin)
  | (Err e, t, s) => (Err e, finish_sub t s Dropped)
  end.
Proof.
  revert t s. induction steps as [|x l IH]; intros t s; [done|]. destruct x as [d|d|x e]; cbn [run_steps do_steps]; [..|apply IH];
    (destruct (pipe_write _ _) as [[u|e] t1]; [apply IH|done]).
Qed.

Context {A B : Type}.
Lemma sim_ret (a : A) : sim (mret a).
Proof. intros w r w' [= <- <-]. by exists []. Qed.
Lemma insim_ret (a : A) : insim (mret a).
Proof. intros w r w' [= <- <-]. by exists []. Qed.
Lemma silent_ret (a : A) : silent (mret a).
Proof. by intros w r w' [= <- <-]. Qed.
Lemma silent_get (f : tree → A) : silent (op_get f).
Proof. by intros w r w' [= <- <-]. Qed.
Lemma silent_lift (m : io A) : silent (lift m).
Proof. intros w r w' E. unfold lift in E. destruct (m _ _) as [[x t] n]. by injection E as <- <-. Qed.
Lemma silent_lift_k (m : kio A) : silent (lift_k m).
Proof. intros w r w' E. unfold lift_k in E. destruct (m _) as [x d]. by injection E as <- <-. Qed.
Lemma silent_sim (m : op A) : silent m → sim m.
Proof. intros Hm w r w' E. destruct (Hm _ _ _ E) as (-> & -> & _). by exists []. Qed.
Lemma silent_insim (m : op A) : silent m → insim m.
Proof. intros Hm w r w' E. destruct (Hm _ _ _ E) as (-> & -> & ->). by exists []. Qed.
Lemma silent_bind (m : op A) (f : A → op B) : silent m → (∀ a, silent (f a)) → silent (m ≫= f).
Proof.
  intros Hm Hf w r w' [(e & E & ->)|(a & w1 & E & E1)]%op_bind_run; destruct (Hm _ _ _ E) as (Hr & H1 & H2); [done|].
  destruct (Hf a _ _ _ E1) as (-> & -> & ->). done.
Qed.
Lemma sim_bind (m : op A) (f : A → op B) : sim m → (∀ a, sim (f a)) → sim (m ≫= f).
Proof.
  intros Hm Hf w r w' [(e & E & ->)|(a & w1 & E & E1)]%op_bind_run; destruct (Hm _ _ _ E) as [ws Hws]; [by exists ws|].
  destruct (Hf a _ _ _ E1) as [ws' Hws']. exists (ws ++ ws'). by rewrite run_works_app, Hws.
Qed.
Lemma insim_bind (m : op A) (f : A → op B) : insim m → (∀ a, insim (f a)) → insim (m ≫= f).
Proof.
  intros Hm Hf w r w' [(e & E & ->)|(a & w1 & E & E1)]%op_bind_run; destruct (Hm _ _ _ E) as [ws Hws]; [by exists ws|].
  destruct (Hf a _ _ _ E1) as [ws' Hws']. exists (ws ++ ws'). by rewrite do_steps_app, Hws.
Qed.
Lemma sim_in_command name cmd args stdin (body : op (A * sub_end)) :
  insim body → sim (in_command name cmd args stdin body).
Proof.
  intros Hb w r w' E. unfold in_command in E.
  match type of E with context [body ?w0] => set (w0' := w0) in E; destruct (body w0') as [x w1] eqn:Eb end.
  destruct (Hb _ _ _ Eb) as [steps Hs]. change (w_task w0') with (begin_command (w_task w) name cmd args stdin) in Hs.
  change (w_sub w0') with ((0%Z, None) : subtask) in Hs. destruct x as [[a fin]|e]; injection E as <- <-.
  - exists [Sub name cmd args stdin steps fin]. cbn [run_works run_work]. rewrite run_steps_do, Hs. done.
  - exists [Sub name cmd args stdin steps Dropped]. cbn [run_works run_work]. rewrite run_steps_do, Hs. done.
Qed.
End sim.

Create HintDb sim.
#[export] Hint Resolve sim_ret insim_ret silent_ret silent_get silent_lift silent_lift_k : sim.
#[export] Hint Resolve silent_sim silent_insim | 5 : sim.
Ltac sim_step :=
  match goal with
  | |- sim (_ ≫= _) => apply sim_bind; [|intros ?]
  | |- insim (_ ≫= _) => apply insim_bind; [|intros ?]
  | |- silent (_ ≫= _) => apply silent_bind; [|intros ?]
  | |- sim (in_command _ _ _ _ _) => apply sim_in_command
  | |- sim (in_subtask _ _) => apply sim_in_command
  | |- _ (if ?b then _ else _) => destruct b
  | |- _ (match ?x with _ => _ end) => destruct x
  | |- _ => solve [eauto 4 with sim]
  end.
Ltac sim_tac := repeat sim_step.

(** ** World *)

Section world_sim.
Context {C : Client} {K : Kernel} {M : Machine}.
Lemma insim_print_out s : insim (print_out s).
Proof.
  unfold print_out. destruct (is_empty s); [apply insim_ret|]. intros w r w' E. unfold write_out in E. exists [Out s]. cbn.
  destruct (pipe_write _ _) as [[u|e] t]; by injection E as <- <-.
Qed.
Lemma insim_print_err s : insim (print_err s).
Proof.
  unfold print_err. destruct (is_empty s); [apply insim_ret|]. intros w r w' E. unfold write_out in E. exists [ErrOut s]. cbn.
  destruct (pipe_write _ _) as [[u|e] t]; by injection E as <- <-.
Qed.
Lemma insim_fmt out l : (∀ s, insim (out s)) → insim (write_fmt out l).
Proof. intros Ho. induction l as [|p l IH]; cbn; sim_tac; eauto. Qed.
Lemma insim_println_out l : insim (println_out l).
Proof. apply insim_fmt, insim_print_out. Qed.
Lemma insim_println_err l : insim (println_err l).
Proof. apply insim_fmt, insim_print_err. Qed.
Lemma insim_set_result x e : insim (set_result x e).
Proof. intros w r w' [= <- <-]. by exists [SetResult x e]. Qed.
#[local] Hint Resolve insim_print_out insim_print_err insim_println_out insim_println_err insim_set_result : sim.
Lemma silent_spawn cmd args stdin env : silent (spawn cmd args stdin env).
Proof. intros w r w' E. unfold spawn in E. destruct (proc _ _ _ _ _ _) as [c t]. by injection E as <- <-. Qed.
Lemma silent_prepare spec : silent (prepare_stdin spec).
Proof.
  intros w r w' E. unfold prepare_stdin in E. destruct (ts_stdin_to_file spec), (ts_stdin spec); try (by injection E as <- <-).
  destruct (write_file _ _ _ _) as [[[u|e] t] n]; by injection E as <- <-.
Qed.
Lemma silent_drop_temp temp : silent (drop_temp temp).
Proof. unfold drop_temp. sim_tac. Qed.
#[local] Hint Resolve silent_spawn silent_prepare silent_drop_temp : sim.
Lemma insim_pump l : insim (pump l).
Proof. induction l as [|[[] d] l IH]; cbn; sim_tac; eauto. Qed.
#[local] Hint Resolve insim_pump : sim.
Lemma insim_stream_child spec args stdin : insim (stream_child spec args stdin).
Proof. unfold stream_child. sim_tac. Qed.
#[local] Hint Resolve insim_stream_child : sim.
Lemma sim_with_temp {A} temp (m : op A) : sim m → sim (with_temp temp m).
Proof.
  intros Hm w r w' E. unfold with_temp in E. destruct (m w) as [x w1] eqn:E1, (drop_temp temp w1) as [y w2] eqn:E2.
  injection E as <- <-. apply silent_drop_temp in E2 as (_ & -> & _). by eapply Hm.
Qed.
Lemma insim_with_temp {A} temp (m : op A) : insim m → insim (with_temp temp m).
Proof.
  intros Hm w r w' E. unfold with_temp in E. destruct (m w) as [x w1] eqn:E1, (drop_temp temp w1) as [y w2] eqn:E2.
  injection E as <- <-. apply silent_drop_temp in E2 as (_ & -> & ->). by eapply Hm.
Qed.
#[local] Hint Resolve sim_with_temp insim_with_temp : sim.
Lemma sim_run name spec : sim (World.run name spec).
Proof. unfold World.run. sim_tac. apply sim_with_temp; sim_tac. Qed.
Lemma insim_run_into spec : insim (run_into spec).
Proof. unfold run_into. sim_tac. apply insim_with_temp; sim_tac. Qed.
Lemma insim_capture spec : insim (capture_into spec).
Proof. unfold capture_into. sim_tac. Qed.
Lemma sim_mark name fin : sim (mark name fin).
Proof. unfold mark. sim_tac. Qed.
Lemma sim_mark_skipped name : sim (mark_skipped name).
Proof. intros w r w' [= <- <-]. by exists [Skip name]. Qed.
Lemma sim_step_op name m : silent m → sim (step_op name m).
Proof. intros Hm. unfold step_op. sim_tac. Qed.
Lemma sim_step name f : sim (step name f).
Proof. apply sim_step_op. sim_tac. Qed.
End world_sim.
#[export] Hint Resolve insim_print_out insim_print_err insim_println_out insim_println_err insim_set_result silent_spawn
  sim_run insim_run_into insim_capture sim_mark sim_mark_skipped sim_step_op sim_step : sim.

(** ** The operations *)

Section operations_sim.
Context {C : Client} {K : Kernel} {M : Machine} {I : Idle} {J : JsonParser} {P : Lio.JsonPrinter} {T : Toml} {L : Live}
        {S : SshKey} {H : Login} {Q : StateCodec}.

Lemma sim_run_spec spec : sim (run_spec spec).
Proof. unfold run_spec. sim_tac. Qed.
Lemma sim_pool_device_remove_and_wait pool target : sim (pool_device_remove_and_wait pool target).
Proof. unfold pool_device_remove_and_wait. sim_tac. Qed.
Lemma sim_restore_clone ds sn tg n id run read :
  (∀ s, sim (run s)) → (∀ s, sim (read s)) → sim (restore_clone ds sn tg n id run read).
Proof. intros Hrun Hread. unfold restore_clone. sim_tac. Qed.
Lemma sim_zfs_clone_and_resize c : sim (zfs_clone_and_resize c).
Proof.
  unfold zfs_clone_and_resize. sim_tac. apply sim_restore_clone; intros ?; sim_tac.
Qed.
Lemma sim_install_packages l : sim (install_packages l).
Proof. unfold install_packages. sim_tac. apply sim_run_spec. Qed.
Lemma sim_mount_guard {A} mp (body : op (A * bool)) : sim body → sim (mount_guard mp body).
Proof.
  intros Hb w r w' E. unfold mount_guard in E. destruct (body w) as [[[a []]|e] w1] eqn:Eb;
    injection E as <- <-; destruct (Hb _ _ _ Eb) as [ws Hws]; exists ws; rewrite Hws; [|done|];
    (destruct (spawn _ _ _ _ w1) as [x w2] eqn:Es; cbn [snd]; apply silent_spawn in Es as (_ & -> & _); done).
Qed.
Lemma sim_shrink disk n s : sim (shrink disk n s).
Proof.
  unfold shrink, probe_step, shrink_fs. sim_tac. apply sim_mount_guard. sim_tac.
Qed.
Lemma insim_run_all acc l : insim (run_all acc l).
Proof. revert acc. induction l as [|s l IH]; intros acc; cbn [run_all]; sim_tac; apply IH. Qed.
#[local] Hint Resolve insim_run_all : sim.
Lemma insim_enable_into nics nd : insim (enable_into nics nd).
Proof. unfold enable_into. sim_tac. Qed.
#[local] Hint Resolve insim_enable_into : sim.
Lemma sim_enable_roce nics nd : sim (enable_roce nics nd).
Proof. unfold enable_roce. sim_tac. Qed.
Lemma sim_rxe_add nd : sim (rxe_add nd).
Proof. unfold rxe_add. sim_tac. Qed.

(** CSI. *)
Lemma silent_sleep : silent sleep.
Proof. by intros w r w' [= <- <-]. Qed.
#[local] Hint Resolve silent_sleep : sim.
Lemma silent_wait_for n dev : silent (wait_for n dev).
Proof. induction n as [|n IH]; cbn [wait_for]; sim_tac. Qed.
#[local] Hint Resolve silent_wait_for : sim.
Lemma sim_csi_apply root a : sim (csi_apply_checked root a).
Proof. unfold csi_apply_checked. sim_tac. Qed.
Lemma sim_csi_delete root n : sim (csi_delete_checked root n).
Proof. unfold csi_delete_checked. sim_tac. Qed.
#[local] Hint Resolve sim_csi_apply sim_csi_delete : sim.
Lemma sim_csi_exec cx o : sim (Csi.exec cx o).
Proof.
  unfold Csi.exec, gated, legacy_allowed, delete_allowed, prepare_csi_export,
    publish, unpublish, csi_host_grant, csi_host_revoke, csi_expand, expand_volume, read_capacity. sim_tac.
Qed.

(** Reconcile. *)
Lemma insim_nvmet_apply d root : insim (nvmet_apply d root).
Proof. unfold nvmet_apply. sim_tac. Qed.
Lemma insim_nfs_apply d e p : insim (Nfs.apply d e p).
Proof. unfold Nfs.apply, assert_listener. sim_tac. Qed.
Lemma insim_print_issues l : insim (print_issues l).
Proof. induction l as [|i l IH]; cbn [print_issues]; sim_tac. Qed.
#[local] Hint Resolve insim_nvmet_apply insim_nfs_apply insim_print_issues sim_rxe_add : sim.
Lemma sim_nic_steps l : sim (nic_steps l).
Proof. induction l as [|a l IH]; cbn [nic_steps]; sim_tac. unfold nic_step. sim_tac. Qed.
#[local] Hint Resolve sim_nic_steps : sim.
Lemma sim_pass cfg desired : sim (pass cfg desired).
Proof.
  unfold pass, validate_desired, area, apply_nic, load_modules, Reconcile.report, read_live_nics, run_ip. sim_tac.
Qed.
#[local] Hint Resolve sim_pass : sim.
Lemma sim_reconcile cfg : sim (Reconcile.run cfg).
Proof. unfold Reconcile.run. sim_tac. Qed.

(** Keys. *)
Lemma sim_resolved cfg body : (∀ t, sim (body t)) → sim (resolved cfg body).
Proof. intros Hb. unfold resolved. sim_tac. Qed.
Lemma sim_add cfg key : sim (add cfg key).
Proof. apply sim_resolved. intros t. sim_tac. Qed.
Lemma sim_revoke cfg fp : sim (revoke cfg fp).
Proof. apply sim_resolved. intros t. sim_tac. Qed.

#[local] Hint Resolve sim_run_spec sim_pool_device_remove_and_wait sim_zfs_clone_and_resize sim_install_packages sim_shrink
  sim_enable_roce sim_csi_exec sim_reconcile sim_add sim_revoke : sim.
(** Every task of the daemon is a program over the task API. *)
Lemma sim_exec cx o m : exec cx o = Some m → sim m.
Proof.
  assert (∀ m, sim m → sim (plain m)) as Hp by (intros m' Hm'; unfold plain; sim_tac).
  assert (∀ o, sim (exec_csi cx o)) as Hc by (intros o'; unfold exec_csi; sim_tac).
  destruct o as [r|key]; cbn [exec]; [|intros [= <-]; by auto with sim].
  destruct (spec_of r); [intros [= <-]; by auto with sim|].
  destruct r; try match goal with o : UnitOp |- _ => destruct o end; intros [= <-]; auto with sim.
  apply Hp. sim_tac.
Qed.
End operations_sim.

(** ** The stream of a request *)

(** A panic notice ends a stream. *)
Definition panic_notice (why : string) : TaskEvent := Finished Failed (Some ("helper worker panicked: " +:+ why)).
Definition verdict_of (ws : list work) : TaskEvent :=
  Finished (worst ((λ w, (verdict w).1) <$> ws)) (first_error ws).
(** [l] is what a client received of the frames of [ws] and the terminal [fin]. *)
Definition received {C : Client} (ws : list work) (fin : TaskEvent) (l : list TaskEvent) : Prop :=
  l `prefix_of` (mjoin (Task.frame <$> ws) ++ [fin]) ∧ ((∀ n, reads n = true) → l = mjoin (Task.frame <$> ws) ++ [fin]).

Section streams.
Context {C : Client} {K : Kernel} {M : Machine} {I : Idle} {J : JsonParser} {P : Lio.JsonPrinter} {T : Toml} {L : Live}
        {S : SshKey} {H : Login} {Q : StateCodec}.

Lemma received_task ws : received ws (verdict_of ws) (log (run_task ws).2).
Proof.
  split; [|apply run_task_all]. pose proof (run_task_framed ws) as Hf. destruct (run_task ws) as [r t]. exact (proj1 Hf).
Qed.
(** A worker that panicked between subtasks. *)
Lemma received_panic ws t why :
  run_works new_task ws = (Ok tt, t) → received ws (panic_notice why) (log (emit t (panic_notice why)).2).
Proof.
  intros E. destruct (run_works_spec ws new_task eq_refl) as [[E' _]|[Hd (rest & Hne & Hl)]].
  - rewrite E in E'. injection E' as ->. unfold emit, received. rewrite note_all_log. cbn [app log new_task].
    destruct (reads _) eqn:Hr; cbn [snd with_log log]; rewrite ?note_all_log; cbn [app log new_task].
    + by split.
    + split; [by apply prefix_app_r|]. intros Ha. by rewrite Ha in Hr.
  - rewrite E in Hd, Hl. cbn [snd] in Hd, Hl. unfold dead in Hd. unfold emit. rewrite Hd. cbn [snd]. split.
    + cbn [app log new_task] in Hl. rewrite Hl, <- app_assoc. by eexists.
    + intros Ha. by rewrite Ha in Hd.
Qed.
Lemma sim_locked cx o poisoned m : sim m → sim (locked cx o poisoned m).
Proof. intros Hm. unfold locked. sim_tac. Qed.
Lemma run_op_stream cx o poisoned m w r w' :
  sim m → run_op cx o poisoned m w = (r, w') →
  ∃ ws, match r with
        | WorkerDone => log (w_task w') = log (run_task ws).2
        | WorkerPanicked _ => run_works new_task ws = (Ok tt, w_task w')
        end.
Proof.
  intros Hm E. unfold run_op in E. destruct (locked cx o poisoned m (fresh w)) as [x w1] eqn:El.
  destruct (sim_locked cx o poisoned m Hm _ _ _ El) as [ws Hws]. exists ws. unfold run_task.
  change (w_task (fresh w)) with new_task in Hws. destruct x as [[[]|p]|e]; injection E as <- <-; cbn [res_of] in Hws; rewrite ?Hws; done.
Qed.
(** Everything but the task. *)
Definition untouched (w w' : world) : Prop :=
  w_tree w' = w_tree w ∧ w_meta w' = w_meta w ∧ w_ran w' = w_ran w ∧ w_clock w' = w_clock w ∧ w_seq w' = w_seq w.
Lemma request_received cx msg poisoned w poisoned' w' :
  spawn_task cx msg poisoned w = Some (poisoned', w') →
  ∃ ws fin, received ws fin (log (w_task w')) ∧
    (fin = verdict_of ws ∨ poisoned' = true ∧ ∃ why, fin = panic_notice why).
Proof.
  unfold spawn_task. destruct (decode_wire msg) as [o|e]; cycle 1.
  { intros [= <- <-]. exists [Sub "Validate request" None [] None [] (Fail ("invalid request: " +:+ e))], (verdict_of [Sub "Validate request" None [] None [] (Fail ("invalid request: " +:+ e))]).
    split; [|by left]. exact (received_task [Sub "Validate request" None [] None [] (Fail ("invalid request: " +:+ e))]). }
  intros (m & Hm & E)%bind_Some. destruct (run_op cx o poisoned m w) as [r w1] eqn:Er. injection E as <- <-.
  apply run_op_stream in Er as [ws Hws]; [|by eapply sim_exec]. destruct r as [|why]; cbn [fold_panic].
  - exists ws, (verdict_of ws). split; [|by left]. rewrite Hws. apply received_task.
  - exists ws, (panic_notice why). split; [by apply received_panic|right]. split; [by apply orb_true_r|by exists why].
Qed.
End streams.

(** What a client can ask for: an operation that meets the ingress conditions, or a key
    it has read, in canonical form no longer than the limit on keys. *)
Definition valid_op {S : SshKey} (o : task_op) : Prop :=
  match o with TOp r => valid_request r | TPipeKeyAdd key => made key end.
(** C28: Round trip of every request the daemon takes, the addition of a key included:
    decoding the encoding of an operation that meets the ingress conditions gives the
    operation back; no request the client can build is lost or altered on its way to
    the daemon. Of the key format it is used that a key prints as what parses to the
    same key; the canonical form of a key has to be within the 16 KiB the ingress
    admits. *)
Theorem request_round_trip `{S : SshKey, !SshKeyLaws S} o : valid_op o → decode_wire (encode_wire o) = Ok o.
Proof.
  destruct o as [r|key]; cbn [valid_op encode_wire decode_wire]; intros Ho.
  - by rewrite operation_round_trip.
  - by destruct (canonical_again key Ho) as [-> _].
Qed.

(** C21: Every task the daemon serves is one well-framed stream. Whatever message
    arrives, whatever the kernel and the commands do, and whenever the client
    leaves, the events it receives are a prefix of the complete frames of a list
    of subtasks followed by exactly one terminal event, and all of it when the
    client keeps reading. The terminal event carries the worst status and the
    first error of those subtasks; only when the worker panicked (and so left the
    mutate lock poisoned) is it the panic notice, a failure. *)
Theorem request_stream_framed `{C : Client, K : Kernel, M : Machine, I : Idle, J : JsonParser, P : Lio.JsonPrinter, T : Toml,
    L : Live, S : SshKey, H : Login, Q : StateCodec} cx msg poisoned w poisoned' w' :
  spawn_task cx msg poisoned w = Some (poisoned', w') →
  ∃ ws fin, received ws fin (log (w_task w')) ∧
    (fin = verdict_of ws ∨ poisoned' = true ∧ ∃ why, fin = panic_notice why).
Proof. apply request_received. Qed.

(** C31: A request that is refused changes nothing. A message that does not
    validate is answered, without a command run or a file touched, by a task
    whose one subtask failed with the reason; and once a panic has poisoned the
    mutate lock, every request that needs it is answered by the panic notice
    alone, again with nothing touched, until the daemon is restarted. *)
Theorem refused_request_untouched `{C : Client, K : Kernel, M : Machine, I : Idle, J : JsonParser, P : Lio.JsonPrinter, T : Toml,
    L : Live, S : SshKey, H : Login, Q : StateCodec} cx msg poisoned w poisoned' w' :
  spawn_task cx msg poisoned w = Some (poisoned', w') →
  match decode_wire msg with
  | Err e =>
      poisoned' = poisoned ∧ untouched w w' ∧
      let why := "invalid request: " +:+ e in
      ((∀ n, reads n = true) →
        log (w_task w') = [SubtaskStarted "Validate request" None [] None; SubtaskFinished Failed 0 (Some why); Finished Failed (Some why)])
  | Ok o =>
      poisoned = true → takes_lock cx o (w_tree w) = true →
      poisoned' = true ∧ untouched w w' ∧ ((∀ n, reads n = true) → log (w_task w') = [panic_notice POISONED])
  end.
Proof.
  unfold spawn_task. destruct (decode_wire msg) as [o|e].
  - intros (m & _ & E)%bind_Some -> Hl. unfold run_op, locked in E.
    unfold mbind, op_bind, op_get in E. cbv beta iota in E. change (w_tree (fresh w)) with (w_tree w) in E. rewrite Hl in E.
    cbn [andb] in E. injection E as <- <-. split; [done|]. split; [done|]. intros Hr. cbn. unfold emit. cbn. by rewrite Hr.
  - intros [= <- <-]. split; [done|]. split; [done|]. cbv zeta. intros Hr. cbn [reject set_task w_task].
    unfold emit_reject. by rewrite run_task_all.
Qed.

(** Every validated request but a login is served, as a task or as a read (an
    attachment query shares its message with the delete task). *)
Lemma dispatch_total `{C : Client, K : Kernel, M : Machine, I : Idle, J : JsonParser, P : Lio.JsonPrinter, T : Toml,
    L : Live, S : SshKey, H : Login, Q : StateCodec} cx poisoned r :
  (∀ a, r ≠ RAuthenticate a) → is_Some (exec cx (TOp r)) ∨ is_Some (read cx poisoned r).
Proof.
  intros Hr. destruct r; try (left; eexists; reflexivity); try (right; eexists; reflexivity); [by edestruct Hr|].
  destruct o; try (left; eexists; reflexivity); right; eexists; reflexivity.
Qed.

(** ** A daemon with a bad export in its state file *)

Definition demo_bad_export : NvmeExport := {|
  nvme_id := 1; nvme_name := "my export"; nvme_device_path := "/dev/zvol/tank/vm1"; nvme_enabled := true;
  nvme_want_rdma := false; nvme_want_tcp := true; nvme_want_loop := false; nvme_allow_any_host := true;
  nvme_initiators := []; nvme_interfaces := []; nvme_last_error := None |}.
#[local] Instance demo_doc : Toml := {|
  toml_config := λ _, Err "no such document";
  toml_desired := λ _,
    Ok {| doc_settings := ∅; doc_nvme_export := [demo_bad_export]; doc_iscsi_export := []; doc_nfs_export := [];
          doc_nic_config := []; doc_legacy_export := [] |} |}.
#[local] Instance demo_sysfs : Live := {| net_class := λ _, Some []; ib_class := λ _, Some []; if_addrs := λ _, Some [] |}.
#[local] Instance demo_shell : Machine := λ _ _ _ _ _ t, (Ran [] (Some 0%Z), t).
#[local] Instance demo_rest : Idle := λ _ t, t.
#[local] Instance demo_json : JsonParser := λ _, None.
#[local] Instance demo_json_out : Lio.JsonPrinter := λ _, "{}".
#[local] Instance demo_no_ssh : SshKey := {|
  PublicKey := unit; from_openssh := λ _, None; to_openssh := λ _, None; key_comment := λ _, "";
  set_comment := λ _ k, k; key_algorithm := λ _, ""; key_sha256 := λ _, "" |}.
#[local] Instance demo_accounts : Login := {|
  user_from_name := λ _, Ok None; group_from_name := λ _, Ok None; umask := 18; mkstemp_suffix := λ _ _, "aaaaaa" |}.
#[local] Instance demo_attachments : StateCodec := CsiTheorems.demo_codec.
Definition demo_state : tree := list_to_map
  [(["var"], Dir); (["var"; "lib"], Dir); (["var"; "lib"; "greendotrdma"], Dir);
   (["var"; "lib"; "greendotrdma"; "state.toml"], File "one export")].
Definition demo_context : Ctx := {|
  ct_auth := {| au_pam_service := "greendotrdma"; au_admin_group := "greendot-admin" |};
  ct_reconcile_config := None; ct_nvmet_root := NVMET_ROOT; ct_csi_state_root := STATE_ROOT;
  ct_pipe_keys := {| pk_user := SSH_USER; pk_socket_group := "greendot"; pk_pipe_bin := FALLBACK_PIPE_BIN; pk_home_override := None |};
  ct_autoload_modules := true |}.
Definition demo_task (msg : wire) (poisoned : bool) (w : world) : bool * world :=
  default (false, w) (spawn_task (C:=patient) (K:=permissive) demo_context msg poisoned w).
Definition demo_reconcile : wire := WOp (WUnit OpReconcile tt).
Definition demo_delete : wire := WOp (WZvolDelete {| pb_zvol_delete_dataset := "tank/vm1" |}).
Definition demo_first : bool * world := demo_task demo_reconcile false (start_world demo_state 0).
Definition demo_second : bool * world := demo_task demo_delete demo_first.1 demo_first.2.

(** One export with a name that makes no NQN is not reported by the validation
    step: the pass panics, and from then on no task runs. *)
Lemma invalid_export_poisons :
  render_issues [demo_bad_export] [] [] = [] ∧
  demo_first.1 = true ∧
  log (w_task demo_first.2) = [panic_notice ("validated name forms a valid NQN: " +:+
    debug_ValidationError {| ve_what := "NQN"; ve_value := "nqn.2026-06.io.greendot:my export" |})] ∧
  demo_second.1 = true ∧ w_ran demo_second.2 = [] ∧ log (w_task demo_second.2) = [panic_notice POISONED].
Proof. split_and!; vm_compute; reflexivity. Qed.

Lemma request_stream_framed_witness :
  ∃ ws fin, received (C:=patient) ws fin (log (w_task demo_first.2)) ∧
    (fin = verdict_of ws ∨ demo_first.1 = true ∧ ∃ why, fin = panic_notice why).
Proof.
  apply (request_stream_framed (C:=patient) (K:=permissive) demo_context demo_reconcile false (start_world demo_state 0)).
  vm_compute. reflexivity.
Defined.
Lemma refused_request_untouched_witness :
  demo_second.1 = true ∧ untouched demo_first.2 demo_second.2 ∧ log (w_task demo_second.2) = [panic_notice POISONED].
Proof.
  destruct (refused_request_untouched (C:=patient) (K:=permissive) demo_context demo_delete true demo_first.2 demo_second.1 demo_second.2)
    as (H1 & H2 & H3).
  - vm_compute. reflexivity.
  - reflexivity.
  - vm_compute. reflexivity.
  - split; [exact H1|]. split; [exact H2|]. apply H3. intros n. reflexivity.
Defined.
(** A jumbo-frame request, and one to add a key that was pasted with blanks around it. *)
Definition demo_key_added : SshPublicKeyLine :=
  {| sk_canonical := "ssh-ed25519 AAAA admin@laptop"; sk_algorithm := "ssh-ed25519"; sk_comment := "admin@laptop";
     sk_fingerprint := Refine "SHA256:AAAA" I |}.
Lemma request_round_trip_witness :
  @decode_wire demo_ssh (encode_wire (TOp (RSetMtu demo_mtu))) = Ok (TOp (RSetMtu demo_mtu)) ∧
  @decode_wire demo_ssh (encode_wire (TPipeKeyAdd demo_key_added)) = Ok (TPipeKeyAdd demo_key_added).
Proof.
  split.
  - apply (@request_round_trip demo_ssh demo_ssh_laws (TOp (RSetMtu demo_mtu))). vm_compute. reflexivity.
  - apply (@request_round_trip demo_ssh demo_ssh_laws (TPipeKeyAdd demo_key_added)). split.
    + exists "  ssh-ed25519 AAAA admin@laptop  ". vm_compute. reflexivity.
    + vm_compute. discriminate.
Defined.
