(* ===== verification/Replies.v ===== *)
(** * Replies and task events on the wire (greendot-proto/src/convert.rs)

    The other direction of the protocol: what the daemon answers. The reply of a
    typed read is decoded without failure (a value out of range is dropped, an
    unknown code degraded); the login reply and the task events are decoded with
    errors. One instance of [Reply] or [Conv] per message, each with its law. *)
From Stdlib Require Import Ascii String.
From stdpp Require Import base option list strings sets gmap.
From S2P Require Import Prelude Ordered Validate IpAddr Types Wire Actual Task Lio Reconcile Auth.
#[local] Open Scope string_scope.
#[local] Open Scope list_scope.
#[local] Open Scope N_scope.

(** ** Replies that always decode *)

Class Reply (W D : Type) := { to_wire : D → W; of_wire : W → D }.
Class ReplyLaw (W D : Type) {r : Reply W D} := of_to_wire : ∀ d : D, of_wire (to_wire d) = d.

(** [u16::try_from(p).ok()] and [x as u8]. *)
Definition narrow (v : u32) : option u16 := refine (fits 16) (raw v).
Lemma mod_fits w n : fits w (n mod 2 ^ w).
Proof. apply fits_spec. apply N.mod_lt. by apply N.pow_nonzero. Qed.
Definition as_u8 (v : u32) : u8 := Refine (raw v mod 2 ^ 8) (mod_fits 8 (raw v)).
Lemma narrow_widen x : narrow (of_u16 x) = Some x.
Proof. apply (refine_raw x). Qed.
Lemma as_u8_widen x : as_u8 (of_u8 x) = x.
Proof. apply raw_inj. cbn. apply N.mod_small. pose proof (uint_lt x). done. Qed.

Record pb_NfsExportEntry := { pbne_path : string; pbne_clients : list string }.
Record pb_NfsManagedSpec := { pbnm_path : string; pbnm_client : string; pbnm_rw : bool }.
Record pb_NfsReportReply := {
  pbnr_exports : list pb_NfsExportEntry; pbnr_rdma_port : option u32; pbnr_managed : list pb_NfsManagedSpec }.
#[export] Instance NfsReportReply : Reply pb_NfsReportReply ActualNfs := {|
  to_wire n := {|
    pbnr_exports := (λ e, {| pbne_path := nee_path e; pbne_clients := nee_clients e |}) <$> anf_exports n;
    pbnr_rdma_port := of_u16 <$> anf_rdma_port n;
    pbnr_managed := (λ m : string * string * bool,
                       {| pbnm_path := m.1.1; pbnm_client := m.1.2; pbnm_rw := m.2 |}) <$> elements (anf_managed n) |};
  of_wire n := {|
    anf_exports := (λ e, {| nee_path := pbne_path e; nee_clients := pbne_clients e |}) <$> pbnr_exports n;
    anf_rdma_port := pbnr_rdma_port n ≫= narrow;
    anf_managed := list_to_set ((λ m, (pbnm_path m, pbnm_client m, pbnm_rw m)) <$> pbnr_managed n) |} |}.

Record pb_ActualNvmetNs := { pbns_nsid : u32; pbns_device_path : string; pbns_enabled : bool }.
Record pb_ActualNvmetSubsys := {
  pbss_nqn : string; pbss_allow_any_host : bool; pbss_allowed_hosts : list string;
  pbss_namespaces : list pb_ActualNvmetNs }.
Record pb_ActualNvmetPort := {
  pbpt_id : u32; pbpt_trtype : string; pbpt_traddr : string; pbpt_trsvcid : string; pbpt_subsystems : list string }.
Record pb_NvmetReportReply := { pbnv_subsystems : list pb_ActualNvmetSubsys; pbnv_ports : list pb_ActualNvmetPort }.
#[export] Instance NvmetReportReply : Reply pb_NvmetReportReply ActualNvmet := {|
  to_wire a := {|
    pbnv_subsystems := (λ s, {|
      pbss_nqn := as_nqn s; pbss_allow_any_host := as_allow_any_host s; pbss_allowed_hosts := as_allowed_hosts s;
      pbss_namespaces := (λ n, {| pbns_nsid := ans_nsid n; pbns_device_path := ans_device_path n;
                                  pbns_enabled := ans_enabled n |}) <$> as_namespaces s |}) <$> an_subsystems a;
    pbnv_ports := (λ p, {|
      pbpt_id := of_u16 (ap_id p); pbpt_trtype := ap_trtype p; pbpt_traddr := ap_traddr p;
      pbpt_trsvcid := ap_trsvcid p; pbpt_subsystems := ap_subsystems p |}) <$> an_ports a |};
  of_wire a := {|
    an_subsystems := (λ s, {|
      as_nqn := pbss_nqn s; as_allow_any_host := pbss_allow_any_host s; as_allowed_hosts := pbss_allowed_hosts s;
      as_namespaces := (λ n, {| ans_nsid := pbns_nsid n; ans_device_path := pbns_device_path n;
                                ans_enabled := pbns_enabled n |}) <$> pbss_namespaces s |}) <$> pbnv_subsystems a;
    an_ports := omap (λ p, id ← narrow (pbpt_id p);
      Some {| ap_id := id; ap_trtype := pbpt_trtype p; ap_traddr := pbpt_traddr p;
              ap_trsvcid := pbpt_trsvcid p; ap_subsystems := pbpt_subsystems p |}) (pbnv_ports a) |} |}.

Record pb_ActualLioBackstore := { pblb_name : string; pblb_udev_path : string; pblb_enabled : bool }.
Record pb_ActualLioPortal := { pblp_addr_port : string; pblp_iser : bool }.
Record pb_ActualLioTarget := {
  pblt_iqn : string; pblt_enabled : bool; pblt_demo_mode : bool; pblt_luns : list string;
  pblt_portals : list pb_ActualLioPortal; pblt_acls : list string }.
Record pb_LioReportReply := { pblr_backstores : list pb_ActualLioBackstore; pblr_targets : list pb_ActualLioTarget }.
#[export] Instance LioReportReply : Reply pb_LioReportReply ActualLio := {|
  to_wire a := {|
    pblr_backstores := (λ b, {| pblb_name := ab_name b; pblb_udev_path := ab_udev_path b;
                                pblb_enabled := ab_enabled b |}) <$> al_backstores a;
    pblr_targets := (λ t, {|
      pblt_iqn := at_iqn t; pblt_enabled := at_enabled t; pblt_demo_mode := at_demo_mode t; pblt_luns := at_luns t;
      pblt_portals := (λ p, {| pblp_addr_port := apo_addr_port p; pblp_iser := apo_iser p |}) <$> at_portals t;
      pblt_acls := at_acls t |}) <$> al_targets a |};
  of_wire a := {|
    al_backstores := (λ b, {| ab_name := pblb_name b; ab_udev_path := pblb_udev_path b;
                              ab_enabled := pblb_enabled b |}) <$> pblr_backstores a;
    al_targets := (λ t, {|
      at_iqn := pblt_iqn t; at_enabled := pblt_enabled t; at_demo_mode := pblt_demo_mode t; at_luns := pblt_luns t;
      at_portals := (λ p, {| apo_addr_port := pblp_addr_port p; apo_iser := pblp_iser p |}) <$> pblt_portals t;
      at_acls := pblt_acls t |}) <$> pblr_targets a |} |}.

Record pb_IscsiSession := { pbis_target_iqn : string; pbis_initiator_iqn : string; pbis_detail : string }.
Record pb_LioSessionsReply := { pbls_sessions : list pb_IscsiSession }.
#[export] Instance LioSessionsReply : Reply pb_LioSessionsReply (list IscsiSession) := {|
  to_wire v := {| pbls_sessions := (λ s, {| pbis_target_iqn := is_target_iqn s;
    pbis_initiator_iqn := is_initiator_iqn s; pbis_detail := is_detail s |}) <$> v |};
  of_wire r := (λ s, {| is_target_iqn := pbis_target_iqn s; is_initiator_iqn := pbis_initiator_iqn s;
    is_detail := pbis_detail s |}) <$> pbls_sessions r |}.

Record pb_RdmaDev := { pbrd_name : string; pbrd_netdev : option string; pbrd_active : bool; pbrd_addrs : list string }.
Record pb_RdmaDevicesReply := { pbrd_devices : list pb_RdmaDev }.
#[export] Instance RdmaDevicesReply : Reply pb_RdmaDevicesReply (list RdmaDev) := {|
  to_wire v := {| pbrd_devices := (λ d, {| pbrd_name := rd_name d; pbrd_netdev := rd_netdev d;
    pbrd_active := rd_active d; pbrd_addrs := addr_strs (rd_addrs d) |}) <$> v |};
  of_wire r := (λ d, {| rd_name := pbrd_name d; rd_netdev := pbrd_netdev d; rd_active := pbrd_active d;
    rd_addrs := parse_addrs (pbrd_addrs d) |}) <$> pbrd_devices r |}.

(** A [HashMap] is sent as its entries, in any order, and collected again, the
    last entry of a key winning. *)
Record pb_PciAddrIps := { pbpa_pci : string; pbpa_addrs : list string }.
Record pb_NicPciAddrsReply := { pbpa_entries : list pb_PciAddrIps }.
#[export] Instance NicPciAddrsReply : Reply pb_NicPciAddrsReply (gmap string (list IpAddr)) := {|
  to_wire m := {| pbpa_entries := (λ e : string * list IpAddr,
    {| pbpa_pci := e.1; pbpa_addrs := addr_strs e.2 |}) <$> map_to_list m |};
  of_wire r := collect ((λ e, (pbpa_pci e, parse_addrs (pbpa_addrs e))) <$> pbpa_entries r) |}.

Record pb_NicStatus := {
  pbst_netdev : string; pbst_rdma : option string; pbst_pci : option string; pbst_addrs : list string;
  pbst_kind : Z; pbst_vendor : option string }.
Record pb_NicInterfacesReply := { pbst_nics : list pb_NicStatus }.
Definition nic_kind_pb (k : NicRdmaKind) : Z * option string :=
  match k with
  | Active => (1, None) | Inactive => (2, None) | CapableDisabled vendor => (3, Some vendor)
  | SoftRoceable => (4, None) | Unsupported => (5, None)
  end%Z.
Definition nic_kind_of_pb (kind : Z) (vendor : option string) : NicRdmaKind :=
  match kind with
  | 1 => Active | 2 => Inactive | 3 => CapableDisabled (default "" vendor) | 4 => SoftRoceable
  | _ => Unsupported
  end%Z.
#[export] Instance NicInterfacesReply : Reply pb_NicInterfacesReply (list NicStatus) := {|
  to_wire v := {| pbst_nics := (λ n, {|
    pbst_netdev := nst_netdev n; pbst_rdma := nst_rdma n; pbst_pci := as_str <$> nst_pci n;
    pbst_addrs := addr_strs (nst_addrs n); pbst_kind := (nic_kind_pb (nst_kind n)).1;
    pbst_vendor := (nic_kind_pb (nst_kind n)).2 |}) <$> v |};
  of_wire r := (λ n, {|
    nst_netdev := pbst_netdev n; nst_rdma := pbst_rdma n;
    nst_pci := pbst_pci n ≫= (λ p, to_option (new NtPciAddress p));
    nst_addrs := parse_addrs (pbst_addrs n); nst_kind := nic_kind_of_pb (pbst_kind n) (pbst_vendor n) |}) <$> pbst_nics r |}.

Record pb_NicAddr := { pbad_addr : string; pbad_prefix : u32; pbad_dynamic : bool }.
Record pb_NicNetwork := {
  pbnn_netdev : string; pbnn_mac : option string; pbnn_mtu : option u32; pbnn_operstate : string;
  pbnn_dhcp : bool; pbnn_addrs : list pb_NicAddr; pbnn_gateway : option string }.
Record pb_NicNetworkReply := { pbnn_nics : list pb_NicNetwork }.
#[export] Instance NicNetworkReply : Reply pb_NicNetworkReply (list NicNetwork) := {|
  to_wire v := {| pbnn_nics := (λ n, {|
    pbnn_netdev := nn_netdev n; pbnn_mac := nn_mac n; pbnn_mtu := nn_mtu n; pbnn_operstate := nn_operstate n;
    pbnn_dhcp := nn_dhcp n;
    pbnn_addrs := (λ a, {| pbad_addr := na_addr a; pbad_prefix := of_u8 (na_prefix a);
                           pbad_dynamic := na_dynamic a |}) <$> nn_addrs n;
    pbnn_gateway := nn_gateway n |}) <$> v |};
  of_wire r := (λ n, {|
    nn_netdev := pbnn_netdev n; nn_mac := pbnn_mac n; nn_mtu := pbnn_mtu n; nn_operstate := pbnn_operstate n;
    nn_dhcp := pbnn_dhcp n;
    nn_addrs := (λ a, {| na_addr := pbad_addr a; na_prefix := as_u8 (pbad_prefix a);
                         na_dynamic := pbad_dynamic a |}) <$> pbnn_addrs n;
    nn_gateway := pbnn_gateway n |}) <$> pbnn_nics r |}.

Record pb_RoceCapableNic := { pbrc_netdev : string; pbrc_vendor : string }.
Record pb_RoceCapableNicsReply := { pbrc_nics : list pb_RoceCapableNic }.
#[export] Instance RoceCapableNicsReply : Reply pb_RoceCapableNicsReply (gmap string string) := {|
  to_wire m := {| pbrc_nics := (λ e : string * string, {| pbrc_netdev := e.1; pbrc_vendor := e.2 |}) <$> map_to_list m |};
  of_wire r := collect ((λ n, (pbrc_netdev n, pbrc_vendor n)) <$> pbrc_nics r) |}.
Record pb_NicAdvice := { pbnd_netdev : string; pbnd_label : string; pbnd_detail : string }.
Record pb_NicRdmaAdviceReply := { pbnd_advice : list pb_NicAdvice }.
#[export] Instance NicRdmaAdviceReply : Reply pb_NicRdmaAdviceReply (gmap string (string * string)) := {|
  to_wire m := {| pbnd_advice := (λ e : string * (string * string),
    {| pbnd_netdev := e.1; pbnd_label := e.2.1; pbnd_detail := e.2.2 |}) <$> map_to_list m |};
  of_wire r := collect ((λ a, (pbnd_netdev a, (pbnd_label a, pbnd_detail a))) <$> pbnd_advice r) |}.

(** *** The laws *)

Lemma fmap_fmap_id {A B} (f : A → B) (g : B → A) (l : list A) : (∀ a, g (f a) = a) → g <$> (f <$> l) = l.
Proof. intros H. induction l as [|a l IH]; [done|]. cbn. by rewrite H, IH. Qed.
Lemma omap_fmap_id {A B} (f : A → B) (g : B → option A) (l : list A) : (∀ a, g (f a) = Some a) → omap g (f <$> l) = l.
Proof. intros H. induction l as [|a l IH]; [done|]. cbn. by rewrite H, IH. Qed.
Lemma parse_addr_strs l : parse_addrs (addr_strs l) = l.
Proof. apply omap_fmap_id, parse_show_ip. Qed.
(** Collecting the entries of a map in whatever order gives the map back. *)
Lemma collect_entries {V} (m : gmap string V) l : l ≡ₚ map_to_list m → collect l = m.
Proof.
  intros Hl. unfold collect. rewrite <- (list_to_map_to_list m). apply list_to_map_proper.
  - rewrite (reverse_Permutation l), Hl. apply NoDup_fst_map_to_list.
  - by rewrite (reverse_Permutation l).
Qed.
Lemma collect_map {V W} (m : gmap string V) (f : string * V → W) (g : W → string * V) :
  (∀ e, g (f e) = e) → collect (g <$> (f <$> map_to_list m)) = m.
Proof. intros H. apply collect_entries. by rewrite fmap_fmap_id. Qed.

#[export] Instance NfsReportReply_law : ReplyLaw pb_NfsReportReply ActualNfs.
Proof.
  intros [e p m]. cbn. f_equal.
  - apply fmap_fmap_id. by intros [].
  - destruct p; cbn; [apply narrow_widen|done].
  - rewrite fmap_fmap_id by (by intros [[??]?]). apply list_to_set_elements_L.
Qed.
#[export] Instance NvmetReportReply_law : ReplyLaw pb_NvmetReportReply ActualNvmet.
Proof.
  intros [s p]. cbn. f_equal.
  - apply fmap_fmap_id. intros [???? ]. cbn. f_equal. apply fmap_fmap_id. by intros [].
  - apply omap_fmap_id. intros []. cbn. by rewrite narrow_widen.
Qed.
#[export] Instance LioReportReply_law : ReplyLaw pb_LioReportReply ActualLio.
Proof.
  intros [b t]. cbn. f_equal; apply fmap_fmap_id; [by intros []|].
  intros []. cbn. f_equal. apply fmap_fmap_id. by intros [].
Qed.
#[export] Instance LioSessionsReply_law : ReplyLaw pb_LioSessionsReply (list IscsiSession).
Proof. intros l. apply fmap_fmap_id. by intros []. Qed.
#[export] Instance RdmaDevicesReply_law : ReplyLaw pb_RdmaDevicesReply (list RdmaDev).
Proof. intros l. apply fmap_fmap_id. intros []. cbn. by rewrite parse_addr_strs. Qed.
#[export] Instance NicPciAddrsReply_law : ReplyLaw pb_NicPciAddrsReply (gmap string (list IpAddr)).
Proof. intros m. apply collect_map. intros []. cbn. by rewrite parse_addr_strs. Qed.
#[export] Instance NicInterfacesReply_law : ReplyLaw pb_NicInterfacesReply (list NicStatus).
Proof.
  intros l. apply fmap_fmap_id. intros [n r p a k]. cbn. rewrite parse_addr_strs. f_equal; [|by destruct k].
  destruct p as [p|]; [|done]. cbn. unfold new, as_str. by rewrite refine_raw.
Qed.
#[export] Instance NicNetworkReply_law : ReplyLaw pb_NicNetworkReply (list NicNetwork).
Proof.
  intros l. apply fmap_fmap_id. intros []. cbn. f_equal. apply fmap_fmap_id. intros []. cbn. by rewrite as_u8_widen.
Qed.
#[export] Instance RoceCapableNicsReply_law : ReplyLaw pb_RoceCapableNicsReply (gmap string string).
Proof. intros m. apply collect_map. by intros []. Qed.
#[export] Instance NicRdmaAdviceReply_law : ReplyLaw pb_NicRdmaAdviceReply (gmap string (string * string)).
Proof. intros m. apply collect_map. by intros [? []]. Qed.

(** ** The login reply *)

Definition err_kind_pb (k : ErrKind) : Z :=
  match k with
  | EAuthFailed => 1 | ENotInAdminGroup => 2 | EValidation => 3 | EBusy => 4 | ESys => 5 | ECmdFailed => 6
  | EUnsupported => 7
  end%Z.
Definition err_kind_of_pb (i : Z) : conv ErrKind :=
  match i with
  | 1 => Ok EAuthFailed | 2 => Ok ENotInAdminGroup | 3 => Ok EValidation | 4 => Ok EBusy | 5 => Ok ESys
  | 6 => Ok ECmdFailed | 7 => Ok EUnsupported
  | 0 => Err "unspecified error kind"
  | _ => Err ("unknown error kind " +:+ show_Z i)
  end%Z.
Inductive pb_auth_result : Type := PbOkAuth (username : string) | PbErrResponse (kind : Z) (message : string).
Record pb_AuthReply := { pbar_result : option pb_auth_result }.
#[export] Instance AuthReply_conv : Conv pb_AuthReply AuthResult := {|
  try_from r :=
    result ← ok_or "auth reply has no result set" (pbar_result r);
    match result with
    | PbOkAuth username => mret (AuthOk username)
    | PbErrResponse kind message => k ← err_kind_of_pb kind; mret (AuthErr k message)
    end;
  into r := {| pbar_result := Some match r with
    | AuthOk username => PbOkAuth username
    | AuthErr kind message => PbErrResponse (err_kind_pb kind) message
    end |} |}.
Lemma err_kind_of_pb_Ok i k : err_kind_of_pb i = Ok k ↔ err_kind_pb k = i.
Proof. split; [|by intros <-; destruct k]. unfold err_kind_of_pb. by repeat case_match; intros [= <-]. Qed.
#[export] Program Instance AuthReply_law : ConvLaw pb_AuthReply AuthResult := {| valid _ := True; canon w := w |}.
Next Obligation. intros [u|k m] _; [done|]. by destruct k. Qed.
Next Obligation.
  intros [[[u|k m]|]] d; cbn; intros H; inv_ok; [done|]. split; [done|]. f_equal. f_equal. f_equal.
  by apply err_kind_of_pb_Ok.
Qed.

(** ** Task events *)

Definition sub_status_pb (s : SubStatus) : Z := match s with Success => 1 | Failed => 2 | Skipped => 3 end%Z.
Definition sub_status_of_pb (i : Z) : conv SubStatus :=
  match i with
  | 1 => Ok Success | 2 => Ok Failed | 3 => Ok Skipped
  | 0 => Err "unspecified sub status"
  | _ => Err ("unknown sub status " +:+ show_Z i)
  end%Z.
Inductive pb_event : Type :=
| PbSubtaskStarted (name : string) (command : option string) (args : list string) (stdin : option string)
| PbStdout (data : string)
| PbStderr (data : string)
| PbSubtaskFinished (status : Z) (exit : Z) (error : option string)
| PbFinished (status : Z) (error : option string).
Record pb_TaskEvent := { pbte_event : option pb_event }.
#[export] Instance TaskEvent_conv : Conv pb_TaskEvent TaskEvent := {|
  try_from ev :=
    event ← ok_or "task event has no event set" (pbte_event ev);
    match event with
    | PbSubtaskStarted name command args stdin => mret (SubtaskStarted name command args stdin)
    | PbStdout data => mret (Stdout data)
    | PbStderr data => mret (Stderr data)
    | PbSubtaskFinished status exit error => s ← sub_status_of_pb status; mret (SubtaskFinished s exit error)
    | PbFinished status error => s ← sub_status_of_pb status; mret (Finished s error)
    end;
  into ev := {| pbte_event := Some match ev with
    | SubtaskStarted name command args stdin => PbSubtaskStarted name command args stdin
    | Stdout data => PbStdout data
    | Stderr data => PbStderr data
    | SubtaskFinished status exit error => PbSubtaskFinished (sub_status_pb status) exit error
    | Finished status error => PbFinished (sub_status_pb status) error
    end |} |}.
Lemma sub_status_of_pb_Ok i s : sub_status_of_pb i = Ok s ↔ sub_status_pb s = i.
Proof. split; [|by intros <-; destruct s]. unfold sub_status_of_pb. by repeat case_match; intros [= <-]. Qed.
#[export] Program Instance TaskEvent_law : ConvLaw pb_TaskEvent TaskEvent := {| valid _ := True; canon w := w |}.
Next Obligation. intros [| | |s|s] _; try done; by destruct s. Qed.
Next Obligation.
  intros [[[| | |s x e|s e]|]] d; cbn; intros H; inv_ok; try done; split; try done; repeat f_equal;
    by apply sub_status_of_pb_Ok.
Qed.
