(* ===== verification/Tasks.v ===== *)
(** * Recorded tasks of the web service (greendot-web/src/task_runner.rs,
    helper_client.rs, the task table of state.rs, routes/tasks.rs)

    How a task rpc reaches the record of it: the client turns whatever the
    connection yields into a stream with one terminal event, [drive] folds the
    stream into a row of the task table while the hub mirrors it to viewers, and
    the page replays a record or follows a live task. A statement of the task
    database may fail at any point ([Sqlite]); the JSON columns have a codec as a
    class parameter. *)
From Stdlib Require Import Ascii String.
From stdpp Require Import base option list strings sets gmap sorting.
From S2P Require Import Prelude Types Wire Task Replies Fs Store.
#[local] Open Scope string_scope.
#[local] Open Scope list_scope.

(** ** The helper's stream as the web receives it *)

(** What a call of a task rpc yields: a refused call, or messages followed by the
    end of the stream ([None]) or a transport error. *)
Inductive call : Type :=
| CallFailed (status : string)
| Streamed (msgs : list pb_TaskEvent) (broken : option string).
Definition is_finished (ev : TaskEvent) : bool := match ev with Finished _ _ => true | _ => false end.
Definition transport_failure (msg : string) : TaskEvent := Finished Failed (Some msg).
Fixpoint pump (msgs : list pb_TaskEvent) (broken : option string) : list TaskEvent :=
  match msgs with
  | [] => [transport_failure match broken with
                             | None => "helper closed the connection"
                             | Some e => "helper protocol error: " +:+ e
                             end]
  | m :: msgs =>
      match try_from m with
      | Ok ev => if is_finished ev then [ev] else ev :: pump msgs broken
      | Err e => [transport_failure ("helper protocol error: " +:+ e)]
      end
  end.
(** [HelperClient::stream]: the events delivered on the channel. *)
Definition helper_stream (c : call) : list TaskEvent :=
  match c with
  | CallFailed status => [transport_failure ("helper unavailable: " +:+ status)]
  | Streamed msgs broken => pump msgs broken
  end.

(** [collect]: the output of a tool, with no record. *)
Record HelperOutput : Type := { ho_ok : bool; ho_stdout : string; ho_stderr : string; ho_error : option string }.
Fixpoint collect_go (out : HelperOutput) (evs : list TaskEvent) : HelperOutput :=
  match evs with
  | [] => out
  | Stdout data :: evs => collect_go {| ho_ok := ho_ok out; ho_stdout := ho_stdout out +:+ data;
                                        ho_stderr := ho_stderr out; ho_error := ho_error out |} evs
  | Stderr data :: evs => collect_go {| ho_ok := ho_ok out; ho_stdout := ho_stdout out;
                                        ho_stderr := ho_stderr out +:+ data; ho_error := ho_error out |} evs
  | Finished status error :: _ => {| ho_ok := negb (bool_decide (status = Failed)); ho_stdout := ho_stdout out;
                                     ho_stderr := ho_stderr out; ho_error := error |}
  | _ :: evs => collect_go out evs
  end.
Definition collect_output : list TaskEvent → HelperOutput :=
  collect_go {| ho_ok := false; ho_stdout := ""; ho_stderr := ""; ho_error := None |}.
(** [read_rpcs!]: the reply, or the default of its type. *)
Definition read_rpc {W D} `{Reply W D} (default : D) (r : result string W) : D :=
  match r with Ok w => of_wire w | Err _ => default end.
(** [authenticate]. *)
Definition authenticate_call (r : result string pb_AuthReply) : result string Auth.AuthResult :=
  match r with
  | Err e => Err ("helper call failed: " +:+ e)
  | Ok reply => map_err (λ e, "bad response from helper: " +:+ e) (try_from reply)
  end.

(** ** Subtask records *)

Record SubTaskRecord : Type := {
  sr_name : string; sr_command : option string; sr_args : list string; sr_stdin : option string;
  sr_stdout : string; sr_stderr : string; sr_status : option SubStatus; sr_exit_code : option Z;
  sr_error : option string }.
Definition fresh_sub (name : string) (command : option string) (args : list string) (stdin : option string) :
    SubTaskRecord :=
  {| sr_name := name; sr_command := command; sr_args := args; sr_stdin := stdin; sr_stdout := ""; sr_stderr := "";
     sr_status := None; sr_exit_code := None; sr_error := None |}.
Definition add_stdout (data : string) (s : SubTaskRecord) : SubTaskRecord :=
  {| sr_name := sr_name s; sr_command := sr_command s; sr_args := sr_args s; sr_stdin := sr_stdin s;
     sr_stdout := sr_stdout s +:+ data; sr_stderr := sr_stderr s; sr_status := sr_status s;
     sr_exit_code := sr_exit_code s; sr_error := sr_error s |}.
Definition add_stderr (data : string) (s : SubTaskRecord) : SubTaskRecord :=
  {| sr_name := sr_name s; sr_command := sr_command s; sr_args := sr_args s; sr_stdin := sr_stdin s;
     sr_stdout := sr_stdout s; sr_stderr := sr_stderr s +:+ data; sr_status := sr_status s;
     sr_exit_code := sr_exit_code s; sr_error := sr_error s |}.
Definition close_sub (status : SubStatus) (exit : option Z) (error : option string) (s : SubTaskRecord) : SubTaskRecord :=
  {| sr_name := sr_name s; sr_command := sr_command s; sr_args := sr_args s; sr_stdin := sr_stdin s;
     sr_stdout := sr_stdout s; sr_stderr := sr_stderr s; sr_status := Some status; sr_exit_code := exit;
     sr_error := error |}.
(** [current] and the edit of [subs.last_mut()]. *)
Fixpoint on_last {A} (f : A → A) (l : list A) : list A :=
  match l with [] => [] | [a] => [f a] | a :: l => a :: on_last f l end.
Definition current (subs : list SubTaskRecord) : list SubTaskRecord :=
  match subs with [] => [fresh_sub "output" None [] None] | _ => subs end.
Definition apply_event (subs : list SubTaskRecord) (ev : TaskEvent) : list SubTaskRecord :=
  match ev with
  | SubtaskStarted name command args stdin => subs ++ [fresh_sub name command args stdin]
  | Stdout data => on_last (add_stdout data) (current subs)
  | Stderr data => on_last (add_stderr data) (current subs)
  | SubtaskFinished status exit error => on_last (close_sub status (Some exit) error) (current subs)
  | Finished _ _ => subs
  end.
Definition flat_output (subs : list SubTaskRecord) : string * string :=
  (concat_s (sr_stdout <$> subs), concat_s (sr_stderr <$> subs)).

(** ** The task table *)

Inductive TaskStatus : Type := TsRunning | TsSuccess | TsFailed.
#[export] Instance TaskStatus_eq_dec : EqDecision TaskStatus.
Proof. solve_decision. Defined.
Definition task_status_str (s : TaskStatus) : string :=
  match s with TsRunning => "running" | TsSuccess => "success" | TsFailed => "failed" end.
Definition TASK_RETENTION : nat := 500.
(** A row of the table; [args] and [subtasks] are JSON text. *)
Record row : Type := {
  row_kind : string; row_title : string; row_command : string; row_args : string; row_stdin : option string;
  row_stdout : string; row_stderr : string; row_subtasks : string; row_status : string;
  row_exit_code : option Z; row_error : option string; row_started_at : Z; row_finished_at : option Z }.
Abbreviation table := (gmap Z row).
(** [state::Task]. *)
Record TaskRecord : Type := {
  tr_id : Z; tr_kind : string; tr_title : string; tr_command : string; tr_args : list string;
  tr_stdin : option string; tr_stdout : string; tr_stderr : string; tr_subtasks : list SubTaskRecord;
  tr_status : TaskStatus; tr_exit_code : option Z; tr_error : option string; tr_started_at : Z;
  tr_finished_at : option Z }.
Class RowCodec := {
  args_json : list string → result string string;
  json_args : string → result string (list string);
  subs_json : list SubTaskRecord → result string string;
  json_subs : string → result string (list SubTaskRecord) }.
(** serde_json reads back what it wrote; an empty array is written and read as
    such. *)
Class RowCodecLaw (R : RowCodec) : Prop := {
  args_round_trip : ∀ a, ∃ t, args_json a = Ok t ∧ json_args t = Ok a;
  subs_round_trip : ∀ s, ∃ t, subs_json s = Ok t ∧ json_subs t = Ok s;
  subs_empty : json_subs "[]" = Ok [];
  args_empty : json_args "[]" = Ok [] }.
Definition unwrap_or {A} (d : A) (r : result string A) : A := match r with Ok a => a | Err _ => d end.
(** The row id SQLite assigns. *)
Definition next_rowid (t : table) : Z := (1 + map_fold (λ k _ m, Z.max k m) 0 t)%Z.
(** Row ids, newest first. *)
Definition newer (a b : Z) : Prop := (b <= a)%Z.
#[export] Instance newer_dec : RelDecision newer.
Proof. intros a b. apply Z_le_dec. Defined.
Definition ids_desc (t : table) : list Z := merge_sort newer (map_to_list t).*1.
(** [DELETE .. WHERE id NOT IN (SELECT id .. ORDER BY id DESC LIMIT n)]. *)
Definition keep_newest (n : nat) (t : table) : table := filter (λ kv, kv.1 ∈ take n (ids_desc t)) t.
Definition new_row (kind title : string) (started_at : Z) : row :=
  {| row_kind := kind; row_title := title; row_command := ""; row_args := "[]"; row_stdin := None; row_stdout := "";
     row_stderr := ""; row_subtasks := "[]"; row_status := "running"; row_exit_code := None; row_error := None;
     row_started_at := started_at; row_finished_at := None |}.
Section rows.
Context {R : RowCodec}.
Definition with_command (command : string) (args : list string) (stdin : option string) (r : row) : row :=
  {| row_kind := row_kind r; row_title := row_title r; row_command := command;
     row_args := unwrap_or "[]" (args_json args); row_stdin := stdin; row_stdout := row_stdout r;
     row_stderr := row_stderr r; row_subtasks := row_subtasks r; row_status := row_status r;
     row_exit_code := row_exit_code r; row_error := row_error r; row_started_at := row_started_at r;
     row_finished_at := row_finished_at r |}.
Definition finished_row (status : TaskStatus) (exit_code : option Z) (error : option string) (stdout stderr : string)
    (subtasks : list SubTaskRecord) (finished_at : Z) (r : row) : row :=
  {| row_kind := row_kind r; row_title := row_title r; row_command := row_command r; row_args := row_args r;
     row_stdin := row_stdin r; row_stdout := stdout; row_stderr := stderr;
     row_subtasks := unwrap_or "[]" (subs_json subtasks); row_status := task_status_str status;
     row_exit_code := exit_code; row_error := error; row_started_at := row_started_at r;
     row_finished_at := Some finished_at |}.
Definition row_to_task (id : Z) (r : row) : TaskRecord :=
  let status := if bool_decide (row_status r = "success") then TsSuccess
                else if bool_decide (row_status r = "failed") then TsFailed else TsRunning in
  let args := unwrap_or [] (json_args (row_args r)) in
  let stored := unwrap_or [] (json_subs (row_subtasks r)) in
  let subtasks :=
    match stored, status with
    | [], TsSuccess | [], TsFailed =>
        [{| sr_name := if is_empty (row_command r) then "output" else row_command r;
            sr_command := if is_empty (row_command r) then None else Some (row_command r);
            sr_args := args; sr_stdin := row_stdin r; sr_stdout := row_stdout r; sr_stderr := row_stderr r;
            sr_status := match status with TsSuccess => Some Success | TsFailed => Some Failed | TsRunning => None end;
            sr_exit_code := row_exit_code r; sr_error := row_error r |}]
    | _, _ => stored
    end in
  {| tr_id := id; tr_kind := row_kind r; tr_title := row_title r; tr_command := row_command r; tr_args := args;
     tr_stdin := row_stdin r; tr_stdout := row_stdout r; tr_stderr := row_stderr r; tr_subtasks := subtasks;
     tr_status := status; tr_exit_code := row_exit_code r; tr_error := row_error r;
     tr_started_at := row_started_at r; tr_finished_at := row_finished_at r |}.
Definition get_task (t : table) (id : Z) : option TaskRecord := row_to_task id <$> t !! id.
Definition list_tasks (t : table) (limit : nat) : list TaskRecord :=
  omap (λ id, get_task t id) (take limit (ids_desc t)).
End rows.

(** ** The hub of running tasks *)

(** A broadcast channel is the list of events sent, of which it holds the newest
    [CHANNEL_CAPACITY]; a receiver is the position of the event it is to get next. *)
Definition CHANNEL_CAPACITY : nat := 512.
Record Running : Type := { rn_sent : list TaskEvent; rn_subs : list SubTaskRecord }.
Abbreviation hub := (gmap Z Running).
Definition register (id : Z) (h : hub) : hub := <[id := {| rn_sent := []; rn_subs := [] |}]> h.
Definition broadcast (id : Z) (ev : TaskEvent) (h : hub) : hub :=
  alter (λ r, {| rn_sent := rn_sent r ++ [ev]; rn_subs := apply_event (rn_subs r) ev |}) id h.
Definition unregister (id : Z) (h : hub) : hub := delete id h.
Definition snapshot_and_subscribe (id : Z) (h : hub) : option (list SubTaskRecord * nat) :=
  (λ r, (rn_subs r, length (rn_sent r))) <$> h !! id.
(** A receiver further behind than the channel reaches back is told so, once, and
    goes on with the oldest event still there. *)
Definition lagged (sent : list TaskEvent) (next : nat) : bool := bool_decide (next + CHANNEL_CAPACITY < length sent)%nat.
Definition recv (sent : list TaskEvent) (next : nat) : option (option TaskEvent * nat) :=
  if lagged sent next then Some (None, (length sent - CHANNEL_CAPACITY)%nat)
  else (λ ev, (Some ev, S next)) <$> sent !! next.

(** ** The web service's state and operations *)

Record web : Type := { wb_db : db; wb_tasks : table; wb_hub : hub; wb_tick : nat }.
Definition wop (A : Type) : Type := web → result fault A * web.
#[export] Instance wop_ret : MRet wop := λ A a s, (Ok a, s).
#[export] Instance wop_bind : MBind wop := λ A B f m s,
  match m s with
  | (Ok a, s') => f a s'
  | (Err e, s') => (Err e, s')
  end.
Definition wop_try {A} (m : wop A) : wop (result fault A) := λ s, let '(r, s') := m s in (Ok r, s').
Definition on_db {A} (m : sop A) : wop A := λ s,
  let '(r, d) := m (wb_db s) in
  (r, {| wb_db := d; wb_tasks := wb_tasks s; wb_hub := wb_hub s; wb_tick := wb_tick s |}).
Definition on_hub (f : hub → hub) : wop unit := λ s,
  (Ok tt, {| wb_db := wb_db s; wb_tasks := wb_tasks s; wb_hub := f (wb_hub s); wb_tick := wb_tick s |}).
Definition get_doc : wop ConfigDoc := λ s, (Ok (db_doc (wb_db s)), s).

(** Which statements fail, by their number, and the clock. *)
Class Sqlite := sql_err : nat → option string.
Class Clock := utc_now : nat → Z.
Section runner.
Context {Q : Sqlite} {T : Clock} {R : RowCodec}.
(** One SQL statement. *)
Definition sql {A} (a : table → A) (f : table → table) : wop A := λ s,
  match sql_err (wb_tick s) with
  | Some e => (Err (Bail e), {| wb_db := wb_db s; wb_tasks := wb_tasks s; wb_hub := wb_hub s; wb_tick := S (wb_tick s) |})
  | None => (Ok (a (wb_tasks s)),
             {| wb_db := wb_db s; wb_tasks := f (wb_tasks s); wb_hub := wb_hub s; wb_tick := S (wb_tick s) |})
  end.
Definition now : wop Z := λ s, (Ok (utc_now (wb_tick s)), s).
Definition insert_task (kind title : string) (started_at : Z) : wop Z :=
  sql next_rowid (λ t, <[next_rowid t := new_row kind title started_at]> t).
Definition set_task_command (id : Z) (command : string) (args : list string) (stdin : option string) : wop unit :=
  sql (λ _, tt) (alter (with_command command args stdin) id).
Definition finish_task (id : Z) (status : TaskStatus) (exit_code : option Z) (error : option string)
    (stdout stderr : string) (subtasks : list SubTaskRecord) (finished_at : Z) : wop unit :=
  _ ← sql (λ _, tt) (alter (finished_row status exit_code error stdout stderr subtasks finished_at) id);
  sql (λ _, tt) (keep_newest TASK_RETENTION).

Record TaskOutcome : Type := { to_ok : bool; to_error : option string }.
(** [TaskOutcome::message]. *)
Definition message (o : TaskOutcome) (success : string) : option string * option string :=
  if to_ok o then (Some success, None) else (None, Some (default "task failed" (to_error o))).
Definition begin_task (kind title : string) : wop Z :=
  t ← now;
  id ← insert_task kind title t;
  _ ← on_hub (register id);
  mret id.
Definition NO_RESULT : string :=
  "task ended without a result " +:+ em_dash +:+ " the helper stream closed early (daemon crash or restart? check greendotctl's journal)".
(** The channel closed without a terminal event. *)
Definition fail_open (s : SubTaskRecord) : SubTaskRecord :=
  match sr_status s with
  | Some _ => s
  | None => close_sub Failed (sr_exit_code s) (Some NO_RESULT) s
  end.
Definition abandon (id : Z) (subs : list SubTaskRecord) : wop TaskOutcome :=
  let subs := on_last fail_open subs in
  t ← now;
  _ ← wop_try (finish_task id TsFailed None (Some NO_RESULT) (flat_output subs).1 (flat_output subs).2 subs t);
  mret {| to_ok := false; to_error := Some NO_RESULT |}.
Definition task_status (status : SubStatus) : TaskStatus := match status with Failed => TsFailed | _ => TsSuccess end.
Definition summary_command (id : Z) (subs : list SubTaskRecord) (name : string) (command : option string)
    (args : list string) (stdin : option string) : wop unit :=
  match subs, command with
  | [], Some c => set_task_command id c args stdin
  | [], None => set_task_command id name [] stdin
  | _, _ => mret tt
  end.
(** The body of the receive loop: the records go on, or the task is over. *)
Definition drive_event (id : Z) (subs : list SubTaskRecord) (ev : TaskEvent) :
    wop (list SubTaskRecord + TaskOutcome) :=
  _ ← on_hub (broadcast id ev);
  match ev with
  | SubtaskStarted name command args stdin =>
      _ ← summary_command id subs name command args stdin;
      mret (inl (apply_event subs ev))
  | Finished status error =>
      t ← now;
      _ ← finish_task id (task_status status) (last subs ≫= sr_exit_code) error
            (flat_output subs).1 (flat_output subs).2 subs t;
      mret (inr {| to_ok := negb (bool_decide (task_status status = TsFailed)); to_error := error |})
  | _ => mret (inl (apply_event subs ev))
  end.
Fixpoint drive (id : Z) (subs : list SubTaskRecord) (rx : list TaskEvent) : wop TaskOutcome :=
  match rx with
  | [] => abandon id subs
  | ev :: rx =>
      next ← drive_event id subs ev;
      match next with
      | inl subs => drive id subs rx
      | inr outcome => mret outcome
      end
  end.
(** [run]: an error of [drive] leaves before the task is unregistered. *)
Definition run_recorded (rx : list TaskEvent) (kind title : string) : wop TaskOutcome :=
  id ← begin_task kind title;
  outcome ← drive id [] rx;
  _ ← on_hub (unregister id);
  mret outcome.
(** [start]: the background run drops the error of [drive]. *)
Definition start_background (id : Z) (rx : list TaskEvent) : wop unit :=
  _ ← wop_try (drive id [] rx);
  on_hub (unregister id).
End runner.

(** ** The page that follows a task *)

(** Server-sent events, by the subtask they belong to. *)
Inductive sse : Type :=
| SseSubtask (index : nat) (name : string) (command : option string)
| SseOutput (index : nat) (stderr : bool) (data : string)
| SseSubstatus (index : nat) (status : SubStatus)
| SseDone (ok : bool).
Definition sub_command_line (command : option string) (args : list string) : option string :=
  (λ c, match args with [] => "$ " +:+ c | _ => "$ " +:+ c +:+ " " +:+ join " " args end) <$> command.
Definition replay_sub (index : nat) (s : SubTaskRecord) : list sse :=
  SseSubtask index (sr_name s) (sub_command_line (sr_command s) (sr_args s))
  :: (if is_empty (sr_stdout s) then [] else [SseOutput index false (sr_stdout s)])
  ++ (if is_empty (sr_stderr s) then [] else [SseOutput index true (sr_stderr s)])
  ++ match sr_status s with Some status => [SseSubstatus index status] | None => [] end.
Definition replay_subtasks (subs : list SubTaskRecord) : list sse := mjoin (imap replay_sub subs).
Record LiveMapper : Type := { lm_next : nat; lm_current : option nat }.
Definition current_index (m : LiveMapper) : nat * LiveMapper :=
  match lm_current m with
  | Some i => (i, m)
  | None => (lm_next m, {| lm_next := S (lm_next m); lm_current := Some (lm_next m) |})
  end.
Definition map_live (m : LiveMapper) (ev : TaskEvent) : LiveMapper * sse :=
  match ev with
  | SubtaskStarted name command args _ =>
      ({| lm_next := S (lm_next m); lm_current := Some (lm_next m) |},
       SseSubtask (lm_next m) name (sub_command_line command args))
  | Stdout data => let '(i, m) := current_index m in (m, SseOutput i false data)
  | Stderr data => let '(i, m) := current_index m in (m, SseOutput i true data)
  | SubtaskFinished status _ _ => let '(i, m) := current_index m in (m, SseSubstatus i status)
  | Finished status _ => (m, SseDone (negb (bool_decide (status = Failed))))
  end.
Fixpoint live_events (m : LiveMapper) (evs : list TaskEvent) : list sse :=
  match evs with
  | [] => []
  | ev :: evs => let '(m, e) := map_live m ev in e :: live_events m evs
  end.
Definition seed_mapper (subs : list SubTaskRecord) : LiveMapper :=
  {| lm_next := length subs; lm_current := match subs with [] => None | _ => Some (pred (length subs)) end |}.
(** [task_stream]: a running task is replayed and then followed from the position
    subscribed at; a finished one is replayed from its row. *)
Definition followed (subs : list SubTaskRecord) (rest : list TaskEvent) : list sse :=
  replay_subtasks subs ++ live_events (seed_mapper subs) rest.
Definition replayed (t : TaskRecord) : list sse :=
  replay_subtasks (tr_subtasks t) ++ [SseDone (bool_decide (tr_status t = TsSuccess))].
(** The stream a viewer of a running task holds: what it was sent, the mapper and the
    receiver. A lag notice is filtered out and leaves no trace on the page. *)
Record Viewer : Type := { vw_out : list sse; vw_mapper : LiveMapper; vw_next : nat }.
Definition view_join (id : Z) (h : hub) : option Viewer :=
  (λ '(subs, next), {| vw_out := replay_subtasks subs; vw_mapper := seed_mapper subs; vw_next := next |})
  <$> snapshot_and_subscribe id h.
Definition view_recv (sent : list TaskEvent) (v : Viewer) : option Viewer :=
  (λ '(ev, next),
     match ev with
     | Some ev => let '(m, e) := map_live (vw_mapper v) ev in
                  {| vw_out := vw_out v ++ [e]; vw_mapper := m; vw_next := next |}
     | None => {| vw_out := vw_out v; vw_mapper := vw_mapper v; vw_next := next |}
     end) <$> recv sent (vw_next v).
