(* ===== verification/TasksFacts.v ===== *)
(** * What is recorded of a task, and what a viewer sees of it

    The stream the client hands on always ends with one terminal event; the record
    made of a stream is that of its subtasks, one by one; a viewer that joins a
    task at any moment, among any other tasks, and keeps up with the channel shows
    the record of what was broadcast; and a recorded run ends, with the error of a
    failed statement or with a finished row. *)
From Stdlib Require Import Ascii String.
From stdpp Require Import base option list strings sets gmap sorting relations pretty.
From S2P Require Import Prelude Types Wire Task Replies Fs Store Tasks.
#[local] Open Scope string_scope.
#[local] Open Scope list_scope.

(** ** Streams *)

Definition unfinished (l : list TaskEvent) : Prop := Forall (λ ev, is_finished ev = false) l.
(** One terminal event, at the end. *)
Definition terminated (l : list TaskEvent) : Prop :=
  ∃ body fin, l = body ++ [fin] ∧ unfinished body ∧ is_finished fin = true.
Lemma terminated_one fin : is_finished fin = true → terminated [fin].
Proof. intros H. exists [], fin. split_and!; [done|constructor|done]. Qed.
Lemma terminated_cons ev l : is_finished ev = false → terminated l → terminated (ev :: l).
Proof. intros He (body & fin & -> & Hb & Hf). exists (ev :: body), fin. split_and!; [done|by constructor|done]. Qed.
Lemma pump_terminated msgs broken : terminated (pump msgs broken).
Proof.
  induction msgs as [|m msgs IH]; cbn [pump]; [by apply terminated_one|].
  destruct (try_from m) as [ev|e]; [|by apply terminated_one].
  destruct (is_finished ev) eqn:E; [by apply terminated_one|by apply terminated_cons].
Qed.
Lemma helper_stream_terminated c : terminated (helper_stream c).
Proof. destruct c as [e|msgs broken]; [by apply terminated_one|apply pump_terminated]. Qed.
Lemma pump_encoded body fin rest broken :
  unfinished body → is_finished fin = true →
  pump ((into <$> (body ++ [fin])) ++ rest) broken = body ++ [fin].
Proof.
  intros Hb Hf. induction Hb as [|ev body He _ IH].
  - cbn [app fmap list_fmap pump]. rewrite (try_into (D := TaskEvent)) by done. by rewrite Hf.
  - cbn [app fmap list_fmap pump]. rewrite (try_into (D := TaskEvent)) by done. rewrite He. f_equal. exact IH.
Qed.
Lemma pump_cut body broken :
  unfinished body →
  pump (into <$> body) broken =
    body ++ [transport_failure match broken with None => "helper closed the connection" | Some e => "helper protocol error: " +:+ e end].
Proof.
  induction 1 as [|ev body He _ IH]; [done|]. cbn [fmap list_fmap pump app].
  rewrite (try_into (D := TaskEvent)) by done. rewrite He. by rewrite <- IH.
Qed.

(** Only the helper can say that a task succeeded. *)
Lemma helper_success c status error :
  last (helper_stream c) = Some (Finished status error) → status ≠ Failed →
  ∃ m msgs broken, c = Streamed msgs broken ∧ m ∈ msgs ∧ try_from m = Ok (Finished status error) ∧ status ≠ Failed.
Proof.
  intros Hl Hne. destruct c as [e|msgs broken]; cbn [helper_stream] in Hl; [by injection Hl as <- _|].
  enough (∃ m, m ∈ msgs ∧ try_from m = Ok (Finished status error)) as (m & ? & ?) by (by exists m, msgs, broken).
  induction msgs as [|m msgs IH]; cbn [pump] in Hl; [by injection Hl as <- _|].
  destruct (try_from m) as [ev|e] eqn:E; [|by injection Hl as <- _].
  destruct (is_finished ev) eqn:F.
  - injection Hl as ->. exists m. split; [by left|done].
  - destruct (pump_terminated msgs broken) as (body & fin & Hp & _). rewrite Hp, app_comm_cons, last_snoc in Hl.
    destruct IH as (m' & Hm & Ht); [by rewrite Hp, last_snoc|]. exists m'. split; [by right|done].
Qed.

(** ** The record of a subtask *)

Definition outs (steps : list sub_step) : string := concat_s (omap (λ s, match s with Out d => Some d | _ => None end) steps).
Definition errs (steps : list sub_step) : string := concat_s (omap (λ s, match s with ErrOut d => Some d | _ => None end) steps).
Definition record_of (w : work) : SubTaskRecord :=
  match w with
  | Sub name command args stdin steps fin =>
      {| sr_name := name; sr_command := command; sr_args := args; sr_stdin := stdin; sr_stdout := outs steps;
         sr_stderr := errs steps; sr_status := Some (end_status fin); sr_exit_code := Some (result_of steps).1;
         sr_error := end_error (result_of steps) fin |}
  | Skip name =>
      {| sr_name := name; sr_command := None; sr_args := []; sr_stdin := None; sr_stdout := ""; sr_stderr := "";
         sr_status := Some Skipped; sr_exit_code := Some 0%Z; sr_error := None |}
  end.
Definition records (l : list TaskEvent) : list SubTaskRecord := foldl apply_event [] l.

Lemma on_last_snoc {A} (f : A → A) l a : on_last f (l ++ [a]) = l ++ [f a].
Proof. induction l as [|b l IH]; [done|]. cbn. rewrite IH. by destruct l. Qed.
Lemma current_snoc subs s : current (subs ++ [s]) = subs ++ [s].
Proof. by destruct subs. Qed.
Lemma fold_outputs subs s steps :
  foldl apply_event (subs ++ [s]) (out_events steps) =
    subs ++ [{| sr_name := sr_name s; sr_command := sr_command s; sr_args := sr_args s; sr_stdin := sr_stdin s;
                sr_stdout := sr_stdout s +:+ outs steps; sr_stderr := sr_stderr s +:+ errs steps;
                sr_status := sr_status s; sr_exit_code := sr_exit_code s; sr_error := sr_error s |}].
Proof.
  revert s. induction steps as [|st steps IH]; intros s; cbn.
  { rewrite !app_nil_r_s. by destruct s. }
  destruct st as [d|d|x e]; cbn -[on_last current].
  - rewrite current_snoc, on_last_snoc. etrans; [apply IH|]. cbn. by rewrite app_assoc_s.
  - rewrite current_snoc, on_last_snoc. etrans; [apply IH|]. cbn. by rewrite app_assoc_s.
  - apply IH.
Qed.
Lemma fold_frame subs w : foldl apply_event subs (Task.frame w) = subs ++ [record_of w].
Proof.
  destruct w as [name command args stdin steps fin|name]; cbn [Task.frame foldl apply_event].
  - rewrite foldl_app, fold_outputs. cbn -[on_last current]. by rewrite current_snoc, on_last_snoc.
  - by rewrite current_snoc, on_last_snoc.
Qed.
Lemma fold_frames subs ws : foldl apply_event subs (mjoin (Task.frame <$> ws)) = subs ++ (record_of <$> ws).
Proof.
  revert subs. induction ws as [|w ws IH]; intros subs; cbn; [by rewrite app_nil_r|].
  rewrite foldl_app, fold_frame, IH. by rewrite <- app_assoc.
Qed.
Lemma records_frames ws fin : is_finished fin = true → records (mjoin (Task.frame <$> ws) ++ [fin]) = record_of <$> ws.
Proof.
  intros Hf. unfold records. rewrite foldl_app, fold_frames. by destruct fin.
Qed.
Lemma frame_unfinished w : unfinished (Task.frame w).
Proof.
  destruct w as [name command args stdin steps fin|name]; cbn; repeat constructor.
  apply Forall_app. split; [|by repeat constructor]. induction steps as [|[] steps IH]; cbn; by try constructor.
Qed.
Lemma frames_unfinished ws : unfinished (mjoin (Task.frame <$> ws)).
Proof. induction ws as [|w ws IH]; cbn; [constructor|]. apply Forall_app. split; [apply frame_unfinished|done]. Qed.

(** ** Pages *)

(** The page keeps one block per subtask index, created by whichever event names
    the index first; the two output streams are kept apart. *)
Record block : Type := {
  bk_name : string; bk_command : option string; bk_stdout : string; bk_stderr : string; bk_status : option SubStatus }.
Record page : Type := { pg_blocks : gmap nat block; pg_done : option bool }.
Definition empty_page : page := {| pg_blocks := ∅; pg_done := None |}.
Definition ensure (i : nat) (name : string) (command : option string) (m : gmap nat block) : gmap nat block :=
  match m !! i with
  | Some _ => m
  | None => <[i := {| bk_name := name; bk_command := command; bk_stdout := ""; bk_stderr := ""; bk_status := None |}]> m
  end.
Definition on_block (i : nat) (f : block → block) (m : gmap nat block) : gmap nat block :=
  alter f i (ensure i "output" None m).
Definition show_event (p : page) (e : sse) : page :=
  match e with
  | SseSubtask i name command => {| pg_blocks := ensure i name command (pg_blocks p); pg_done := pg_done p |}
  | SseOutput i err data =>
      {| pg_blocks := on_block i (λ b, {| bk_name := bk_name b; bk_command := bk_command b;
           bk_stdout := if err then bk_stdout b else bk_stdout b +:+ data;
           bk_stderr := if err then bk_stderr b +:+ data else bk_stderr b; bk_status := bk_status b |}) (pg_blocks p);
         pg_done := pg_done p |}
  | SseSubstatus i status =>
      {| pg_blocks := on_block i (λ b, {| bk_name := bk_name b; bk_command := bk_command b; bk_stdout := bk_stdout b;
           bk_stderr := bk_stderr b; bk_status := Some status |}) (pg_blocks p); pg_done := pg_done p |}
  | SseDone ok => {| pg_blocks := pg_blocks p; pg_done := Some ok |}
  end.
Definition shown (evs : list sse) : page := foldl show_event empty_page evs.
Definition block_of (s : SubTaskRecord) : block :=
  {| bk_name := sr_name s; bk_command := sub_command_line (sr_command s) (sr_args s); bk_stdout := sr_stdout s;
     bk_stderr := sr_stderr s; bk_status := sr_status s |}.
Definition blocks (subs : list SubTaskRecord) : gmap nat block := map_seq 0 (block_of <$> subs).
Definition page_of (subs : list SubTaskRecord) (done : option bool) : page :=
  {| pg_blocks := blocks subs; pg_done := done |}.

Lemma blocks_snoc subs s : blocks (subs ++ [s]) = <[length subs := block_of s]> (blocks subs).
Proof. unfold blocks. rewrite fmap_app. cbn. rewrite map_seq_snoc. by rewrite length_fmap. Qed.
Lemma blocks_lookup subs i : blocks subs !! i = block_of <$> subs !! i.
Proof. unfold blocks. by rewrite lookup_map_seq_0, list_lookup_fmap. Qed.
Lemma blocks_next subs : blocks subs !! length subs = None.
Proof. rewrite blocks_lookup. by rewrite lookup_ge_None_2. Qed.
Lemma on_block_snoc subs s f g :
  (∀ s, block_of (g s) = f (block_of s)) →
  on_block (length subs) f (blocks (subs ++ [s])) = blocks (subs ++ [g s]).
Proof.
  intros H. unfold on_block, ensure. rewrite blocks_snoc, lookup_insert_eq, alter_insert_eq.
  by rewrite <- H, <- blocks_snoc.
Qed.
Lemma on_block_empty f g :
  (∀ s, block_of (g s) = f (block_of s)) → on_block 0 f ∅ = blocks [g (fresh_sub "output" None [] None)].
Proof.
  intros H. unfold on_block, ensure. rewrite lookup_empty, alter_insert_eq.
  change (blocks [?x]) with (blocks ([] ++ [x])). rewrite blocks_snoc. f_equal. by rewrite H.
Qed.
Lemma ensure_next subs s dn :
  sr_stdout s = "" → sr_stderr s = "" → sr_status s = None →
  show_event (page_of subs dn) (SseSubtask (length subs) (sr_name s) (sub_command_line (sr_command s) (sr_args s)))
  = page_of (subs ++ [s]) dn.
Proof.
  intros H1 H2 H3. unfold show_event, page_of, ensure. cbn [pg_blocks pg_done]. rewrite blocks_next, blocks_snoc.
  do 2 f_equal. unfold block_of. by rewrite H1, H2, H3.
Qed.
(** Which edit of the last record an event is. *)
Definition edit_of (ev : TaskEvent) : option ((SubTaskRecord → SubTaskRecord) * (nat → sse)) :=
  match ev with
  | Stdout data => Some (add_stdout data, λ i, SseOutput i false data)
  | Stderr data => Some (add_stderr data, λ i, SseOutput i true data)
  | SubtaskFinished status exit error => Some (close_sub status (Some exit) error, λ i, SseSubstatus i status)
  | _ => None
  end.
Lemma edit_shown ev g e subs s dn :
  edit_of ev = Some (g, e) → show_event (page_of (subs ++ [s]) dn) (e (length subs)) = page_of (subs ++ [g s]) dn.
Proof. intros H. destruct ev; simplify_eq/=; unfold page_of; f_equal; by apply on_block_snoc. Qed.
Lemma edit_shown_first ev g e dn :
  edit_of ev = Some (g, e) →
  show_event (page_of [] dn) (e 0) = page_of [g (fresh_sub "output" None [] None)] dn.
Proof. intros H. destruct ev; simplify_eq/=; unfold page_of; f_equal; by apply on_block_empty. Qed.

(** A live event leads from the page of the records to the page of the records it
    is folded into. *)
Lemma snoc_cases {A} (l : list A) : l = [] ∨ ∃ l' a, l = l' ++ [a].
Proof. induction l as [|a l _] using rev_ind; [by left|right; by exists l, a]. Qed.
Lemma seed_snoc subs s : seed_mapper (subs ++ [s]) = {| lm_next := S (length subs); lm_current := Some (length subs) |}.
Proof.
  unfold seed_mapper. rewrite length_app, Nat.add_1_r. by destruct subs.
Qed.
Lemma live_step subs ev dn :
  let '(m, e) := map_live (seed_mapper subs) ev in
  m = seed_mapper (apply_event subs ev) ∧
  show_event (page_of subs dn) e =
    page_of (apply_event subs ev) match ev with Finished s _ => Some (negb (bool_decide (s = Failed))) | _ => dn end.
Proof.
  destruct (edit_of ev) as [[g e]|] eqn:E.
  - assert (Ha : apply_event subs ev = on_last g (current subs)) by (by destruct ev; simplify_eq/=).
    assert (Hm : map_live (seed_mapper subs) ev =
      let '(i, m) := current_index (seed_mapper subs) in (m, e i)) by (by destruct ev; simplify_eq/=).
    assert (Hd : match ev with Finished s _ => Some (negb (bool_decide (s = Failed))) | _ => dn end = dn)
      by (by destruct ev). rewrite Hd, Hm, Ha.
    destruct (snoc_cases subs) as [->|(subs' & s & ->)].
    + cbn -[page_of show_event]. split; [done|]. by eapply edit_shown_first.
    + rewrite current_snoc, on_last_snoc, !seed_snoc. cbn -[page_of show_event]. split; [done|]. by eapply edit_shown.
  - destruct ev as [name command args stdin| | | |st er]; try done. cbn -[page_of show_event]. rewrite seed_snoc.
    split; [done|]. by apply (ensure_next subs (fresh_sub name command args stdin)).
Qed.
Lemma live_page subs evs dn :
  foldl show_event (page_of subs dn) (live_events (seed_mapper subs) evs) =
    page_of (foldl apply_event subs evs)
      (foldl (λ d ev, match ev with Finished s _ => Some (negb (bool_decide (s = Failed))) | _ => d end) dn evs).
Proof.
  revert subs dn. induction evs as [|ev evs IH]; intros subs dn; [done|]. cbn [live_events foldl].
  pose proof (live_step subs ev dn) as Hs. destruct (map_live (seed_mapper subs) ev) as [m e].
  destruct Hs as [-> Hs]. cbn [foldl]. rewrite Hs. apply IH.
Qed.

(** Replaying records gives their page. *)
Lemma replay_one subs s dn :
  foldl show_event (page_of subs dn) (replay_sub (length subs) s) = page_of (subs ++ [s]) dn.
Proof.
  unfold replay_sub. cbn [foldl].
  set (s0 := fresh_sub (sr_name s) (sr_command s) (sr_args s) (sr_stdin s)).
  change (sr_name s) with (sr_name s0) at 1. change (sr_command s) with (sr_command s0) at 1.
  change (sr_args s) with (sr_args s0) at 1. rewrite ensure_next by done. rewrite !foldl_app.
  set (s1 := add_stdout (sr_stdout s) s0). set (s2 := add_stderr (sr_stderr s) s1).
  assert (H1 : foldl show_event (page_of (subs ++ [s0]) dn)
    (if is_empty (sr_stdout s) then [] else [SseOutput (length subs) false (sr_stdout s)]) = page_of (subs ++ [s1]) dn).
  { subst s1. destruct (sr_stdout s) as [|c t] eqn:E; [done|]. cbn [is_empty foldl].
    by apply (edit_shown (Stdout (String c t)) _ (λ i, SseOutput i false (String c t))). }
  rewrite H1.
  assert (H2 : foldl show_event (page_of (subs ++ [s1]) dn)
    (if is_empty (sr_stderr s) then [] else [SseOutput (length subs) true (sr_stderr s)]) = page_of (subs ++ [s2]) dn).
  { subst s2. destruct (sr_stderr s) as [|c t] eqn:E; [done|]. cbn [is_empty foldl].
    by apply (edit_shown (Stderr (String c t)) _ (λ i, SseOutput i true (String c t))). }
  rewrite H2. destruct (sr_status s) as [st|] eqn:E; cbn [foldl].
  - rewrite (edit_shown (SubtaskFinished st 0 None) (close_sub st (Some 0%Z) None) (λ i, SseSubstatus i st)) by done.
    unfold page_of. f_equal. rewrite !blocks_snoc. f_equal. unfold block_of. cbn. by rewrite E.
  - unfold page_of. f_equal. rewrite !blocks_snoc. f_equal. unfold block_of. cbn. by rewrite E.
Qed.
Lemma replay_page subs : shown (replay_subtasks subs) = page_of subs None.
Proof.
  unfold replay_subtasks, shown. induction subs as [|s subs IH] using rev_ind; [done|].
  rewrite imap_app, join_app, foldl_app, IH. cbn. rewrite Nat.add_0_r, app_nil_r. apply replay_one.
Qed.
(** Following from any point gives the page of the whole. *)
Definition outcome_of (evs : list TaskEvent) : option bool :=
  foldl (λ d ev, match ev with Finished s _ => Some (negb (bool_decide (s = Failed))) | _ => d end) None evs.
Lemma followed_page subs rest : shown (followed subs rest) = page_of (foldl apply_event subs rest) (outcome_of rest).
Proof. unfold followed, shown. rewrite foldl_app. fold (shown (replay_subtasks subs)). rewrite replay_page. apply live_page. Qed.

(** ** Row ids *)

Lemma max_key_spec (t : table) :
  (∀ k, is_Some (t !! k) → (k <= map_fold (λ k _ m, Z.max k m) 0 t)%Z) ∧
  (map_fold (λ k _ m, Z.max k m) 0%Z t = 0%Z ∨ is_Some (t !! map_fold (λ k _ m, Z.max k m) 0%Z t)).
Proof.
  apply (map_fold_weak_ind (λ m t, (∀ k, is_Some (t !! k) → (k <= m)%Z) ∧ (m = 0%Z ∨ is_Some (t !! m)))).
  - split; [|by left]. intros k [x Hx]. by rewrite lookup_empty in Hx.
  - intros i x m r Hi [H1 H2]. split.
    + intros k [y [[-> _]|[_ Hk]]%lookup_insert_Some]; [lia|]. specialize (H1 k (ex_intro _ _ Hk)). lia.
    + destruct (decide (r < i)%Z).
      * right. rewrite Z.max_l by lia. by rewrite lookup_insert_eq.
      * rewrite Z.max_r by lia. destruct H2 as [->|H2]; [by left|right].
        destruct (decide (i = r)) as [->|]; [by rewrite lookup_insert_eq|by rewrite lookup_insert_ne].
Qed.
Lemma next_rowid_fresh t k : is_Some (t !! k) → (k < next_rowid t)%Z.
Proof. intros H. apply max_key_spec in H. unfold next_rowid. lia. Qed.
Lemma next_rowid_le t b : (0 < b)%Z → (∀ k, is_Some (t !! k) → (k < b)%Z) → (next_rowid t <= b)%Z.
Proof. intros Hb H. unfold next_rowid. destruct (max_key_spec t) as [_ [->|Hm]]; [lia|]. apply H in Hm. lia. Qed.
Lemma next_rowid_pos t : (0 < next_rowid t)%Z.
Proof.
  unfold next_rowid. enough (0 <= map_fold (λ k _ m, Z.max k m) 0%Z t)%Z by lia.
  apply (map_fold_weak_ind (λ m _, (0 <= m)%Z)); [done|]. intros; lia.
Qed.
Lemma next_rowid_mono (t t' : table) :
  (∀ k, is_Some (t !! k) → ∃ k', (k <= k')%Z ∧ is_Some (t' !! k')) → (next_rowid t <= next_rowid t')%Z.
Proof.
  intros H. apply next_rowid_le; [apply next_rowid_pos|]. intros k (k' & Hle & Hk')%H. apply next_rowid_fresh in Hk'. lia.
Qed.

(** ** Retention *)

#[export] Instance newer_total : Total newer.
Proof. intros a b. unfold newer. lia. Qed.
#[export] Instance newer_trans : Transitive newer.
Proof. intros a b c. unfold newer. lia. Qed.
Lemma ids_desc_spec t :
  Sorted newer (ids_desc t) ∧ NoDup (ids_desc t) ∧ (∀ k, k ∈ ids_desc t ↔ is_Some (t !! k)) ∧ length (ids_desc t) = size t.
Proof.
  assert (Hp : ids_desc t ≡ₚ (map_to_list t).*1) by apply merge_sort_Permutation. split_and!.
  - apply Sorted_merge_sort; apply _.
  - rewrite Hp. apply NoDup_fst_map_to_list.
  - intros k. rewrite Hp, list_elem_of_fmap. split.
    + intros ([k' x] & -> & H%elem_of_map_to_list). by eexists.
    + intros [x Hx]. exists (k, x). split; [done|]. by apply elem_of_map_to_list.
  - rewrite Hp, length_fmap. apply length_map_to_list.
Qed.
Lemma elem_of_taken {A} (x : A) n l : x ∈ take n l → x ∈ l.
Proof. intros (i & Hi & _)%elem_of_take. by eapply list_elem_of_lookup_2. Qed.
Lemma keep_newest_lookup n t k r :
  keep_newest n t !! k = Some r ↔ t !! k = Some r ∧ k ∈ take n (ids_desc t).
Proof. unfold keep_newest. rewrite map_lookup_filter_Some. naive_solver. Qed.
Lemma keep_newest_dom n t : dom (keep_newest n t) = list_to_set (take n (ids_desc t)).
Proof.
  apply set_eq. intros k. rewrite elem_of_dom, elem_of_list_to_set. destruct (ids_desc_spec t) as (_ & _ & Hd & _). split.
  - by intros [r [_ Hr]%keep_newest_lookup].
  - intros Hk. assert (is_Some (t !! k)) as [r Hr] by (apply Hd; by eapply elem_of_taken). exists r. by apply keep_newest_lookup.
Qed.
(** At most [n] rows stay, and those that stay are newer than those that go. *)
Lemma keep_newest_size n t : size (keep_newest n t) = Nat.min n (size t).
Proof.
  destruct (ids_desc_spec t) as (_ & Hn & _ & Hl). rewrite <- size_dom, keep_newest_dom.
  rewrite size_list_to_set; [by rewrite length_take, Hl|]. eapply sublist_NoDup; [done|apply sublist_take].
Qed.
Lemma keep_newest_newer n t k k' :
  is_Some (keep_newest n t !! k) → is_Some (t !! k') → keep_newest n t !! k' = None → (k' < k)%Z.
Proof.
  intros [r (Hr & Hk)%keep_newest_lookup] Hk' Hnone. destruct (ids_desc_spec t) as (Hs & Hn & Hd & _).
  assert (Hin : k' ∈ drop n (ids_desc t)).
  { apply Hd in Hk'. rewrite <- (take_drop n (ids_desc t)), elem_of_app in Hk'. destruct Hk' as [Ht|]; [|done].
    destruct (Hd k') as [Hd' _]. assert (is_Some (t !! k')) as [r' Hr'] by (apply Hd'; by eapply elem_of_taken).
    enough (keep_newest n t !! k' = Some r') by congruence. by apply keep_newest_lookup. }
  assert (newer k k').
  { apply Sorted_StronglySorted in Hs; [|apply _]. rewrite <- (take_drop n (ids_desc t)) in Hs.
    by eapply StronglySorted_app_1_elem_of. }
  assert (k ≠ k').
  { intros ->. rewrite <- (take_drop n (ids_desc t)) in Hn. apply NoDup_app in Hn as (_ & Hn & _). by eapply Hn. }
  unfold newer in *. lia.
Qed.
Lemma keep_newest_some n t k : (0 < n)%nat → is_Some (t !! k) → ∃ k', is_Some (keep_newest n t !! k').
Proof.
  intros Hn [r Hr]. destruct (map_choose_or_empty (keep_newest n t)) as [(k' & r' & H)|He]; [by exists k', r'|].
  pose proof (keep_newest_size n t) as Hs. rewrite He, map_size_empty in Hs.
  assert (size t ≠ 0)%nat by (apply map_size_non_empty_iff; intros ->; done). lia.
Qed.
Lemma keep_newest_max n t k :
  (0 < n)%nat → is_Some (t !! k) → (∀ k', is_Some (t !! k') → (k' <= k)%Z) → keep_newest n t !! k = t !! k.
Proof.
  intros Hn Hk Hmax. destruct (keep_newest n t !! k) as [r|] eqn:E; [apply keep_newest_lookup in E as [-> _]; done|].
  exfalso. destruct (keep_newest_some n t k Hn Hk) as [k' Hk'].
  assert (k < k')%Z by (eapply keep_newest_newer; eauto). destruct Hk' as [r' [Hk' _]%keep_newest_lookup].
  specialize (Hmax k' (ex_intro _ _ Hk')). lia.
Qed.
Lemma keep_newest_next n t : (0 < n)%nat → (next_rowid t <= next_rowid (keep_newest n t))%Z.
Proof.
  intros Hn. apply next_rowid_mono. intros k Hk. destruct (keep_newest n t !! k) eqn:E; [exists k; split; [lia|done]|].
  destruct (keep_newest_some n t k Hn Hk) as [k' Hk']. exists k'. split; [|done].
  enough (k < k')%Z by lia. by eapply keep_newest_newer.
Qed.

(** ** Operations and what they leave alone *)

Definition wop_respects {A} (R : relation web) (m : wop A) : Prop := ∀ w r w', m w = (r, w') → R w w'.
Lemma wop_respects_ret R `{!Reflexive R} {A} (a : A) : wop_respects R (mret a).
Proof. intros w r w' [= _ <-]. reflexivity. Qed.
Lemma wop_respects_bind R `{!Transitive R} {A B} (m : wop A) (f : A → wop B) :
  wop_respects R m → (∀ a, wop_respects R (f a)) → wop_respects R (m ≫= f).
Proof.
  intros Hm Hf w r w'. unfold mbind, wop_bind. destruct (m w) as [[a|e] w1] eqn:E; intros H.
  - transitivity w1; [by eapply Hm|by eapply Hf].
  - injection H as <- <-. by eapply Hm.
Qed.
Lemma wop_respects_try R {A} (m : wop A) : wop_respects R m → wop_respects R (wop_try m).
Proof. intros Hm w r w'. unfold wop_try. destruct (m w) as [r1 w1] eqn:E. intros [= _ <-]. by eapply Hm. Qed.
(** No running task is touched, and no row id becomes free again. *)
Definition quiet : relation web := λ w w',
  wb_hub w' = wb_hub w ∧ (next_rowid (wb_tasks w) <= next_rowid (wb_tasks w'))%Z.
#[export] Instance quiet_preorder : PreOrder quiet.
Proof. split; [intros w; split; [done|lia]|]. intros a b c [H1 H2] [H3 H4]. split; [congruence|lia]. Qed.

Section runner_facts.
Context {Q : Sqlite} {T : Clock} {R : RowCodec}.

Lemma quiet_sql {A} (a : table → A) f :
  (∀ t, (next_rowid t <= next_rowid (f t))%Z) → wop_respects quiet (sql a f).
Proof.
  intros Hf w r w'. unfold sql. case_match; intros [= _ <-]; (split; [done|]); cbn; [lia|apply Hf].
Qed.
Lemma quiet_alter {A} (a : table → A) f id : wop_respects quiet (sql a (alter f id)).
Proof.
  apply quiet_sql. intros t. apply next_rowid_mono. intros k Hk. exists k. split; [lia|].
  rewrite lookup_alter. case_decide; [subst; by apply fmap_is_Some|done].
Qed.
Lemma quiet_set_task_command id c a i : wop_respects quiet (set_task_command id c a i).
Proof. apply quiet_alter. Qed.
Lemma quiet_finish_task id st x e o er subs t : wop_respects quiet (finish_task id st x e o er subs t).
Proof.
  apply wop_respects_bind; [apply _|apply quiet_alter|intros _]. apply quiet_sql. intros t'. apply keep_newest_next.
  unfold TASK_RETENTION. lia.
Qed.
Lemma quiet_now : wop_respects quiet now.
Proof. by intros w r w' [= _ <-]. Qed.
Lemma quiet_summary id subs name command args stdin : wop_respects quiet (summary_command id subs name command args stdin).
Proof.
  destruct subs as [|s subs]; [|by apply wop_respects_ret, _]. destruct command; apply quiet_set_task_command.
Qed.
Lemma quiet_abandon id subs : wop_respects quiet (abandon id subs).
Proof.
  apply wop_respects_bind; [apply _|apply quiet_now|intros t]. apply wop_respects_bind; [apply _| |intros _].
  - apply wop_respects_try, quiet_finish_task.
  - by apply wop_respects_ret, _.
Qed.
(** The error of a run is that of a statement. *)
Definition sql_fault (f : fault) : Prop := ∃ n e, f = Bail e ∧ sql_err n = Some e.
Definition only_sql {A} (m : wop A) : Prop := ∀ w f w', m w = (Err f, w') → sql_fault f.
Lemma only_sql_sql {A} (a : table → A) f : only_sql (sql a f).
Proof. intros w x w'. unfold sql. destruct (sql_err _) as [e|] eqn:E; intros [= <- _]. by eexists _, e. Qed.
Lemma only_sql_ret {A} (a : A) : only_sql (mret a).
Proof. by intros w f w'. Qed.
Lemma only_sql_bind {A B} (m : wop A) (f : A → wop B) : only_sql m → (∀ a, only_sql (f a)) → only_sql (m ≫= f).
Proof.
  intros Hm Hf w x w'. unfold mbind, wop_bind. destruct (m w) as [[a|e] w1] eqn:E; [apply Hf|].
  intros [= <- <-]. by eapply Hm.
Qed.
Lemma only_sql_drive_event id subs ev : only_sql (drive_event id subs ev).
Proof.
  apply only_sql_bind; [by intros w f w'|intros _]. destruct ev as [name command args stdin|d|d|st x e|st e]; try apply only_sql_ret.
  - apply only_sql_bind; [|intros _; apply only_sql_ret]. destruct subs; [|apply only_sql_ret].
    destruct command; apply only_sql_sql.
  - apply only_sql_bind; [by intros w f w'|intros t]. apply only_sql_bind; [|intros _; apply only_sql_ret].
    apply only_sql_bind; [|intros _]; apply only_sql_sql.
Qed.
(** One event of a task: it is broadcast to that task's viewers. *)
Lemma drive_event_hub id subs ev w r w' :
  drive_event id subs ev w = (r, w') →
  wb_hub w' = broadcast id ev (wb_hub w) ∧ (next_rowid (wb_tasks w) <= next_rowid (wb_tasks w'))%Z ∧
  match r with
  | Ok (inl subs') => subs' = apply_event subs ev ∧ is_finished ev = false
  | Ok (inr _) => is_finished ev = true
  | Err f => sql_fault f
  end.
Proof.
  intros H0. pose proof (only_sql_drive_event id subs ev w) as Hsql. rewrite H0 in Hsql. revert H0.
  unfold drive_event, mbind at 1, wop_bind at 1, on_hub. cbn [fst snd].
  set (w1 := {| wb_db := _ |}). intros H.
  assert (Hq : quiet w1 w').
  { revert H. destruct ev as [name command args stdin|d|d|st x e|st e]; intros H; try (by injection H as _ <-).
    - revert H. apply (wop_respects_bind quiet); [apply quiet_summary|intros _; by apply wop_respects_ret, _].
    - revert H. apply (wop_respects_bind quiet); [apply quiet_now|intros t].
      apply wop_respects_bind; [apply _|apply quiet_finish_task|intros _; by apply wop_respects_ret, _]. }
  destruct Hq as [Hh Hn]. split; [done|]. split; [done|].
  destruct ev as [name command args stdin|d|d|st x e|st e]; try (by injection H as <- _).
  - unfold mbind, wop_bind in H. destruct (summary_command _ _ _ _ _ _ w1) as [[[]|] ?]; injection H as <- ->; [done|by eapply Hsql].
  - unfold mbind, wop_bind, now in H. destruct (finish_task _ _ _ _ _ _ _ _ w1) as [[[]|] ?]; injection H as <- ->; [done|by eapply Hsql].
Qed.

(** ** Tasks side by side *)

(** A running task: the whole stream it will receive, what is left of it, its
    records so far, and whether it runs in the background. *)
Record job : Type := { jb_all : list TaskEvent; jb_rx : list TaskEvent; jb_subs : list SubTaskRecord; jb_background : bool }.
(** What was meant to reach the channel of a task and what was sent on it; a channel
    outlives the task's entry of the hub as long as someone holds a receiver. *)
Record trail : Type := { tl_all : list TaskEvent; tl_sent : list TaskEvent }.
(** A viewer: the task, how much had been sent when it joined, and whether it has
    ever lagged. *)
Record view : Type := { vs_task : Z; vs_from : nat; vs_lost : bool; vs_view : Viewer }.
Record system : Type := { sy_web : web; sy_jobs : gmap Z job; sy_trails : gmap Z trail; sy_views : gmap nat view }.
Definition booted (w : web) : system := {| sy_web := w; sy_jobs := ∅; sy_trails := ∅; sy_views := ∅ |}.
Definition drop_task (id : Z) (w : web) : web :=
  {| wb_db := wb_db w; wb_tasks := wb_tasks w; wb_hub := unregister id (wb_hub w); wb_tick := wb_tick w |}.
Definition send_on (id : Z) (ev : TaskEvent) : gmap Z trail → gmap Z trail :=
  alter (λ tl, {| tl_all := tl_all tl; tl_sent := tl_sent tl ++ [ev] |}) id.
(** Any task may take its next step, any viewer may join a task or receive; other
    requests change the rest of the state. *)
Inductive sys_step : system → system → Prop :=
| sys_begin kind title rx bg w w' jobs tls vs id :
    begin_task kind title w = (Ok id, w') →
    sys_step {| sy_web := w; sy_jobs := jobs; sy_trails := tls; sy_views := vs |}
      {| sy_web := w'; sy_jobs := <[id := {| jb_all := rx; jb_rx := rx; jb_subs := []; jb_background := bg |}]> jobs;
         sy_trails := <[id := {| tl_all := rx; tl_sent := [] |}]> tls; sy_views := vs |}
| sys_begin_failed kind title w w' jobs tls vs e :
    begin_task kind title w = (Err e, w') →
    sys_step {| sy_web := w; sy_jobs := jobs; sy_trails := tls; sy_views := vs |}
      {| sy_web := w'; sy_jobs := jobs; sy_trails := tls; sy_views := vs |}
| sys_event id j ev rx subs w w' jobs tls vs :
    jobs !! id = Some j → jb_rx j = ev :: rx → drive_event id (jb_subs j) ev w = (Ok (inl subs), w') →
    sys_step {| sy_web := w; sy_jobs := jobs; sy_trails := tls; sy_views := vs |}
      {| sy_web := w'; sy_jobs := <[id := {| jb_all := jb_all j; jb_rx := rx; jb_subs := subs; jb_background := jb_background j |}]> jobs;
         sy_trails := send_on id ev tls; sy_views := vs |}
| sys_done id j ev rx o w w' jobs tls vs :
    jobs !! id = Some j → jb_rx j = ev :: rx → drive_event id (jb_subs j) ev w = (Ok (inr o), w') →
    sys_step {| sy_web := w; sy_jobs := jobs; sy_trails := tls; sy_views := vs |}
      {| sy_web := drop_task id w'; sy_jobs := delete id jobs; sy_trails := send_on id ev tls; sy_views := vs |}
| sys_broken id j ev rx e w w' jobs tls vs :
    jobs !! id = Some j → jb_rx j = ev :: rx → drive_event id (jb_subs j) ev w = (Err e, w') →
    sys_step {| sy_web := w; sy_jobs := jobs; sy_trails := tls; sy_views := vs |}
      {| sy_web := if jb_background j then drop_task id w' else w'; sy_jobs := delete id jobs;
         sy_trails := send_on id ev tls; sy_views := vs |}
| sys_closed id j o w w' jobs tls vs :
    jobs !! id = Some j → jb_rx j = [] → abandon id (jb_subs j) w = (Ok o, w') →
    sys_step {| sy_web := w; sy_jobs := jobs; sy_trails := tls; sy_views := vs |}
      {| sy_web := drop_task id w'; sy_jobs := delete id jobs; sy_trails := tls; sy_views := vs |}
| sys_join k id v w jobs tls vs :
    view_join id (wb_hub w) = Some v →
    sys_step {| sy_web := w; sy_jobs := jobs; sy_trails := tls; sy_views := vs |}
      {| sy_web := w; sy_jobs := jobs; sy_trails := tls;
         sy_views := <[k := {| vs_task := id; vs_from := vw_next v; vs_lost := false; vs_view := v |}]> vs |}
| sys_recv k x tl v w jobs tls vs :
    vs !! k = Some x → tls !! vs_task x = Some tl → view_recv (tl_sent tl) (vs_view x) = Some v →
    sys_step {| sy_web := w; sy_jobs := jobs; sy_trails := tls; sy_views := vs |}
      {| sy_web := w; sy_jobs := jobs; sy_trails := tls;
         sy_views := <[k := {| vs_task := vs_task x; vs_from := vs_from x;
                               vs_lost := vs_lost x || lagged (tl_sent tl) (vw_next (vs_view x)); vs_view := v |}]> vs |}
| sys_other d n w jobs tls vs :
    sys_step {| sy_web := w; sy_jobs := jobs; sy_trails := tls; sy_views := vs |}
      {| sy_web := {| wb_db := d; wb_tasks := wb_tasks w; wb_hub := wb_hub w; wb_tick := n |}; sy_jobs := jobs;
         sy_trails := tls; sy_views := vs |}.

(** What was broadcast of a task, against its stream, its records and the hub. *)
Definition job_ok (tls : gmap Z trail) (id : Z) (j : job) : Prop :=
  ∃ tl, tls !! id = Some tl ∧ tl_all tl = jb_all j ∧ tl_sent tl ++ jb_rx j = tl_all tl ∧
    jb_subs j = records (tl_sent tl) ∧ unfinished (tl_sent tl).
Definition hub_ok (tls : gmap Z trail) (id : Z) (r : Running) : Prop :=
  ∃ tl, tls !! id = Some tl ∧ rn_sent r = tl_sent tl ∧ rn_subs r = records (tl_sent tl).
(** A task that is over sent its whole stream, or all up to a terminal event, or was
    stopped by a statement that failed. *)
Definition over_ok (tl : trail) : Prop :=
  tl_sent tl = tl_all tl ∨ (∃ ev, last (tl_sent tl) = Some ev ∧ is_finished ev = true) ∨ ∃ n e, sql_err n = Some e.
Definition trail_ok (w : web) (jobs : gmap Z job) (id : Z) (tl : trail) : Prop :=
  (id < next_rowid (wb_tasks w))%Z ∧ tl_sent tl `prefix_of` tl_all tl ∧ (jobs !! id = None → over_ok tl).
(** The page of the first events sent. *)
Definition view_ok (tls : gmap Z trail) (x : view) : Prop :=
  ∃ tl, tls !! vs_task x = Some tl ∧ (vs_from x <= vw_next (vs_view x) <= length (tl_sent tl))%nat ∧
    (vs_lost x = false →
      vw_mapper (vs_view x) = seed_mapper (records (take (vw_next (vs_view x)) (tl_sent tl))) ∧
      shown (vw_out (vs_view x)) =
        page_of (records (take (vw_next (vs_view x)) (tl_sent tl)))
          (outcome_of (drop (vs_from x) (take (vw_next (vs_view x)) (tl_sent tl))))).
Record sys_inv (s : system) : Prop := {
  inv_jobs : map_Forall (job_ok (sy_trails s)) (sy_jobs s);
  inv_hub : map_Forall (hub_ok (sy_trails s)) (wb_hub (sy_web s));
  inv_trails : map_Forall (trail_ok (sy_web s) (sy_jobs s)) (sy_trails s);
  inv_views : ∀ k x, sy_views s !! k = Some x → view_ok (sy_trails s) x }.
Lemma view_ok_grows (tls tls' : gmap Z trail) x :
  (∀ id tl, tls !! id = Some tl → ∃ tl', tls' !! id = Some tl' ∧ tl_sent tl `prefix_of` tl_sent tl') →
  view_ok tls x → view_ok tls' x.
Proof.
  intros Hg (tl & Htl & Hle & Hv). destruct (Hg _ _ Htl) as (tl' & Htl' & l & E). exists tl'. split; [done|].
  rewrite E, length_app. split; [lia|]. rewrite take_app_le by lia. done.
Qed.
(** A step of one task: what it does to the task's own entries is right, and it
    leaves those of the others alone. *)
Lemma sys_inv_task w w' jobs tls vs id (oj : option job) tl' :
  sys_inv {| sy_web := w; sy_jobs := jobs; sy_trails := tls; sy_views := vs |} →
  (next_rowid (wb_tasks w) <= next_rowid (wb_tasks w'))%Z → (id < next_rowid (wb_tasks w'))%Z →
  (∀ k, k ≠ id → wb_hub w' !! k = wb_hub w !! k) →
  (∀ r, wb_hub w' !! id = Some r → rn_sent r = tl_sent tl' ∧ rn_subs r = records (tl_sent tl')) →
  (∀ tl, tls !! id = Some tl → tl_sent tl `prefix_of` tl_sent tl') →
  match oj with
  | Some j => tl_all tl' = jb_all j ∧ tl_sent tl' ++ jb_rx j = tl_all tl' ∧ jb_subs j = records (tl_sent tl') ∧ unfinished (tl_sent tl')
  | None => tl_sent tl' `prefix_of` tl_all tl' ∧ over_ok tl'
  end →
  sys_inv {| sy_web := w'; sy_jobs := partial_alter (λ _, oj) id jobs; sy_trails := <[id := tl']> tls; sy_views := vs |}.
Proof.
  intros [Hj Hh Ht Hv] Hn Hid Hho Hhi Hp Ho. cbn in *.
  assert (Hother : ∀ k, k ≠ id → <[id := tl']> tls !! k = tls !! k) by (intros k Hk; by rewrite lookup_insert_ne).
  split; cbn.
  - intros k j Hk. destruct (decide (k = id)) as [->|Hne].
    + rewrite lookup_partial_alter_eq in Hk. subst oj. exists tl'. by rewrite lookup_insert_eq.
    + rewrite lookup_partial_alter_ne in Hk by done. unfold job_ok. rewrite Hother by done. by apply Hj.
  - intros k r Hk. destruct (decide (k = id)) as [->|Hne].
    + exists tl'. rewrite lookup_insert_eq. split; [done|by apply Hhi].
    + rewrite Hho in Hk by done. unfold hub_ok. rewrite Hother by done. by apply Hh.
  - intros k tl Hk. destruct (decide (k = id)) as [->|Hne].
    + rewrite lookup_insert_eq in Hk. injection Hk as <-. split; [done|]. rewrite lookup_partial_alter_eq.
      destruct oj as [j|]; [|naive_solver]. destruct Ho as (_ & <- & _). split; [by apply prefix_app_r|done].
    + rewrite Hother in Hk by done. destruct (Ht k tl Hk) as (H1 & H2 & H3). split; [lia|].
      by rewrite lookup_partial_alter_ne by done.
  - intros k x Hx. eapply view_ok_grows; [|by eapply Hv]. intros i tl Hi. destruct (decide (i = id)) as [->|Hne].
    + exists tl'. rewrite lookup_insert_eq. split; [done|by apply Hp].
    + exists tl. by rewrite Hother.
Qed.
Lemma begin_task_run kind title w r w' :
  begin_task kind title w = (r, w') →
  match r with
  | Ok id => id = next_rowid (wb_tasks w) ∧ (id < next_rowid (wb_tasks w'))%Z ∧ wb_hub w' = register id (wb_hub w)
  | Err _ => quiet w w'
  end.
Proof.
  unfold begin_task, now, insert_task, sql, mbind, wop_bind. destruct (sql_err _); intros H; inversion H; subst; [done|]. cbn.
  split; [done|].
  split; [|done]. apply next_rowid_fresh. rewrite lookup_insert_eq. by eexists.
Qed.
Lemma sys_inv_quiet w w' jobs tls vs :
  quiet w w' → sys_inv {| sy_web := w; sy_jobs := jobs; sy_trails := tls; sy_views := vs |} →
  sys_inv {| sy_web := w'; sy_jobs := jobs; sy_trails := tls; sy_views := vs |}.
Proof.
  intros [Hh Hn] [Hj Hhub Ht Hv]. split; cbn in *; [done|by rewrite Hh| |done].
  intros id tl (H1 & H2)%Ht. split; [lia|done].
Qed.
(** One event of a task, whatever becomes of the task. *)
Lemma sys_inv_sent w w' jobs tls vs id j ev rx (oj : option job) :
  sys_inv {| sy_web := w; sy_jobs := jobs; sy_trails := tls; sy_views := vs |} →
  jobs !! id = Some j → jb_rx j = ev :: rx → (next_rowid (wb_tasks w) <= next_rowid (wb_tasks w'))%Z →
  wb_hub w' = broadcast id ev (wb_hub w) ∨ wb_hub w' = unregister id (broadcast id ev (wb_hub w)) →
  match oj with
  | Some j' => jb_all j' = jb_all j ∧ jb_rx j' = rx ∧ jb_subs j' = apply_event (jb_subs j) ev ∧ is_finished ev = false
  | None => is_finished ev = true ∨ ∃ n e, sql_err n = Some e
  end →
  sys_inv {| sy_web := w'; sy_jobs := partial_alter (λ _, oj) id jobs; sy_trails := send_on id ev tls; sy_views := vs |}.
Proof.
  intros Hi Hj Hrx Hn Hh Ho. destruct (inv_jobs _ Hi id j Hj) as (tl & Htl & Hall & Hsent & Hsub & Hun). cbn in Htl.
  destruct (inv_trails _ Hi id tl Htl) as (Hid & _ & _). cbn in Hid.
  assert (E : send_on id ev tls = <[id := {| tl_all := tl_all tl; tl_sent := tl_sent tl ++ [ev] |}]> tls).
  { apply map_eq. intros k. unfold send_on. destruct (decide (k = id)) as [->|].
    - by rewrite lookup_alter_eq, lookup_insert_eq, Htl.
    - by rewrite lookup_alter_ne, lookup_insert_ne. }
  rewrite E. apply (sys_inv_task w); try done; cbn.
  - lia.
  - intros k Hk. destruct Hh as [->| ->]; unfold unregister, broadcast; by rewrite ?lookup_delete_ne, lookup_alter_ne by done.
  - intros r Hr. destruct Hh as [Hh|Hh]; rewrite Hh in Hr; unfold unregister, broadcast in Hr; [|by rewrite lookup_delete_eq in Hr].
    rewrite lookup_alter_eq in Hr. apply fmap_Some in Hr as (r0 & Hr0 & ->). cbn.
    destruct (inv_hub _ Hi id r0 Hr0) as (tl0 & Htl0 & -> & ->). cbn in Htl0. rewrite Htl in Htl0. injection Htl0 as <-.
    split; [done|]. unfold records. by rewrite foldl_snoc.
  - intros tl0 Htl0. rewrite Htl in Htl0. injection Htl0 as <-. by apply prefix_app_r.
  - rewrite Hrx in Hsent. destruct oj as [j'|].
    + destruct Ho as (-> & -> & -> & Hf). rewrite <- app_assoc. split_and!; [done|done| |].
      * unfold records. rewrite foldl_snoc. by rewrite Hsub.
      * apply Forall_app. split; [done|by repeat constructor].
    + split; [rewrite <- Hsent; apply prefix_app, prefix_cons, prefix_nil|].
      right. destruct Ho as [Hf|Hq]; [left|by right]. exists ev. cbn [tl_sent]. by rewrite last_snoc.
Qed.
(** A receiver that has not lagged gets the next event sent. *)
Lemma recv_cases sent next ev next' :
  recv sent next = Some (ev, next') →
  lagged sent next = true ∧ ev = None ∧ next' = (length sent - CHANNEL_CAPACITY)%nat ∧ (next < next' <= length sent)%nat ∨
  lagged sent next = false ∧ next' = S next ∧ ∃ e, ev = Some e ∧ sent !! next = Some e.
Proof.
  unfold recv. destruct (lagged sent next) eqn:E; intros H.
  - apply bool_decide_eq_true in E. injection H as <- <-. left. split_and!; [done..|lia|lia].
  - apply fmap_Some in H as (e & He & [= -> ->]). right. eauto.
Qed.
Lemma view_ok_recv tls tl x v :
  view_ok tls x → tls !! vs_task x = Some tl → view_recv (tl_sent tl) (vs_view x) = Some v →
  view_ok tls {| vs_task := vs_task x; vs_from := vs_from x;
                 vs_lost := vs_lost x || lagged (tl_sent tl) (vw_next (vs_view x)); vs_view := v |}.
Proof.
  intros (tl' & Htl' & Hle & Hv) Htl Hr. rewrite Htl in Htl'. injection Htl' as <-. unfold view_recv in Hr.
  apply fmap_Some in Hr as ([ev next] & [(El & -> & _ & Hb)|(El & -> & e & -> & He)]%recv_cases & ->); exists tl; cbn; rewrite El.
  { split; [done|]. split; [lia|]. by rewrite orb_true_r. }
  rewrite orb_false_r. pose proof (lookup_lt_Some _ _ _ He). destruct (map_live _ e) as [m o] eqn:Em. cbn.
  split; [done|]. split; [lia|]. intros Hl. destruct (Hv Hl) as [Hm Hs].
  rewrite (take_S_r _ _ _ He). set (pre := take _ _) in *.
  pose proof (live_step (records pre) e (outcome_of (drop (vs_from x) pre))) as Hstep. rewrite <- Hm, Em in Hstep.
  destruct Hstep as [-> Hstep]. unfold records in *. rewrite foldl_snoc. split; [done|].
  unfold shown in *. rewrite foldl_snoc, Hs, Hstep. f_equal.
  assert (length pre = vw_next (vs_view x)) by (unfold pre; rewrite length_take; lia).
  rewrite drop_app_le by lia. unfold outcome_of. by rewrite foldl_snoc.
Qed.
Lemma view_ok_join tls id h v :
  map_Forall (hub_ok tls) h → view_join id h = Some v →
  view_ok tls {| vs_task := id; vs_from := vw_next v; vs_lost := false; vs_view := v |}.
Proof.
  unfold view_join, snapshot_and_subscribe. intros Hh Hv.
  apply fmap_Some in Hv as ([subs next] & Hs & ->). apply fmap_Some in Hs as (r & Hr & [= -> ->]).
  destruct (Hh id r Hr) as (tl & Htl & -> & ->). exists tl. cbn. split; [done|]. split; [lia|]. intros _.
  rewrite firstn_all, drop_all. split; [done|apply replay_page].
Qed.
Lemma sys_step_inv s s' : sys_step s s' → sys_inv s → sys_inv s'.
Proof.
  intros Hs Hi. destruct Hs as [kind title rx bg w w' jobs tls vs id E|kind title w w' jobs tls vs e E
    |id j ev rx subs w w' jobs tls vs Hj Hrx E|id j ev rx o w w' jobs tls vs Hj Hrx E|id j ev rx e w w' jobs tls vs Hj Hrx E
    |id j o w w' jobs tls vs Hj Hrx E|k id v w jobs tls vs Hv|k x tl v w jobs tls vs Hx Htl Hv|d n w jobs tls vs].
  - apply begin_task_run in E as (-> & Hid & Hh).
    apply (sys_inv_task w _ _ _ _ _ (Some _)); [done|lia|done|..].
    + intros k Hk. rewrite Hh. unfold register. by rewrite lookup_insert_ne.
    + intros r Hr. rewrite Hh in Hr. unfold register in Hr. rewrite lookup_insert_eq in Hr. by injection Hr as <-.
    + intros tl Htl. destruct (inv_trails _ Hi _ _ Htl) as [Hlt _]. cbn in Hlt. lia.
    + cbn. by split_and!; [..|constructor].
  - apply begin_task_run in E. by eapply sys_inv_quiet.
  - apply drive_event_hub in E as (Hh & Hn & -> & Hf). apply (sys_inv_sent w _ _ _ _ _ j _ rx (Some _)); try done. by left.
  - apply drive_event_hub in E as (Hh & Hn & Hf). apply (sys_inv_sent w _ _ _ _ _ j _ rx None); try done; cbn; [|by left].
    right. by rewrite Hh.
  - apply drive_event_hub in E as (Hh & Hn & n & m & _ & Hq). apply (sys_inv_sent w _ _ _ _ _ j _ rx None); try done.
    + by destruct (jb_background j).
    + destruct (jb_background j); [right; cbn; by rewrite Hh|by left].
    + right. eauto.
  - apply quiet_abandon in E as [Hh Hn]. destruct (inv_jobs _ Hi id j Hj) as (tl & Htl & Hall & Hsent & _). cbn in Htl.
    destruct (inv_trails _ Hi id tl Htl) as (Hid & Hp & _). cbn in Hid.
    rewrite <- (insert_id tls id tl) by done. apply (sys_inv_task w _ _ _ _ _ None); try done; cbn.
    + lia.
    + intros k Hk. unfold unregister. by rewrite lookup_delete_ne, Hh.
    + intros r Hr. unfold unregister in Hr. by rewrite lookup_delete_eq in Hr.
    + intros tl0 Htl0. rewrite Htl in Htl0. by injection Htl0 as <-.
    + split; [done|]. left. by rewrite <- Hsent, Hrx, app_nil_r.
  - destruct Hi as [Hj Hh Ht Hvs]. split; cbn in *; [done..|]. intros k' x [[<- <-]|[_ Hx]]%lookup_insert_Some; [|by eapply Hvs].
    by eapply view_ok_join.
  - destruct Hi as [Hj Hh Ht Hvs]. split; cbn in *; [done..|]. intros k' x' [[<- <-]|[_ Hx']]%lookup_insert_Some; [|by eapply Hvs].
    eapply view_ok_recv; [by eapply Hvs|done..].
  - destruct Hi as [Hj Hh Ht Hvs]. by split.
Qed.
Lemma sys_reachable w s : wb_hub w = ∅ → rtc sys_step (booted w) s → sys_inv s.
Proof.
  intros He H. assert (Hi : sys_inv (booted w)).
  { split; cbn; [apply map_Forall_empty|rewrite He; apply map_Forall_empty|apply map_Forall_empty|done]. }
  induction H as [|? ? ? Hs _ IH]; [done|]. by apply IH, (sys_step_inv _ _ Hs).
Qed.
Lemma outcome_of_app sent rx : unfinished sent → outcome_of (sent ++ rx) = outcome_of rx.
Proof.
  intros H. unfold outcome_of. rewrite foldl_app. f_equal. induction H as [|ev l He _ IH]; [done|]. by destruct ev.
Qed.
Lemma view_recv_end sent v :
  (vw_next v <= length sent)%nat → view_recv sent v = None ↔ take (vw_next v) sent = sent.
Proof.
  intros Hle. unfold view_recv. rewrite fmap_None. unfold recv, lagged. case_bool_decide as Hlag.
  - split; [done|]. intros E. apply (f_equal length) in E. rewrite length_take in E. lia.
  - rewrite fmap_None, lookup_ge_None. split; [apply take_ge|]. intros E. apply (f_equal length) in E. rewrite length_take in E. lia.
Qed.
Lemma terminated_prefix sent l ev :
  terminated l → sent `prefix_of` l → last sent = Some ev → is_finished ev = true → sent = l.
Proof.
  intros (body & fin & -> & Hb & Hf) [rest E] (pre & ->)%last_Some Hev. destruct (snoc_cases rest) as [->|(rest' & a & ->)].
  { by rewrite app_nil_r in E. }
  exfalso. rewrite app_assoc in E. apply app_inj_tail in E as [-> _]. unfold unfinished in Hb.
  rewrite !Forall_app, Forall_singleton in Hb. destruct Hb as [[_ Hb] _]. congruence.
Qed.
End runner_facts.

(** ** The record of one task *)

Section healthy.
Context {Q : Sqlite} {T : Clock} {R : RowCodec} (Hsql : ∀ n, sql_err n = None).

Lemma sql_healthy {A} (a : table → A) f w :
  sql a f w = (Ok (a (wb_tasks w)), {| wb_db := wb_db w; wb_tasks := f (wb_tasks w); wb_hub := wb_hub w; wb_tick := S (wb_tick w) |}).
Proof. unfold sql. by rewrite Hsql. Qed.
(** What the first subtask puts on the row. *)
Definition headline (l : list TaskEvent) (r : row) : row :=
  match l with
  | SubtaskStarted _ (Some c) args stdin :: _ => with_command c args stdin r
  | SubtaskStarted name None _ stdin :: _ => with_command name [] stdin r
  | _ => r
  end.
(** A row is the task's: the columns [drive] does not own are those of its start. *)
Definition same_task (r r' : row) : Prop :=
  row_kind r' = row_kind r ∧ row_title r' = row_title r ∧ row_started_at r' = row_started_at r.
Lemma same_task_refl r : same_task r r.
Proof. done. Qed.
Lemma alter_same (t : table) id : alter (λ r, r) id t = t.
Proof. apply map_eq. intros k. rewrite lookup_alter. case_decide; [subst; by rewrite option_fmap_id|done]. Qed.
Lemma summary_healthy id subs name command args stdin w :
  ∃ g n, (∀ r, same_task r (g r)) ∧
    summary_command id subs name command args stdin w =
      (Ok tt, {| wb_db := wb_db w; wb_tasks := alter g id (wb_tasks w); wb_hub := wb_hub w; wb_tick := n |}).
Proof.
  destruct subs as [|s subs]; cbn [summary_command].
  - destruct command; unfold set_task_command; rewrite sql_healthy; eexists _, _; split; [|done| |done]; by intros.
  - exists (λ r, r), (wb_tick w). split; [done|]. unfold mret, wop_ret. f_equal. destruct w. cbn. f_equal.
    symmetry. by apply alter_same.
Qed.
(** The events before the terminal one only fold, mirror and put the headline. *)
Lemma drive_body id subs body rest w :
  unfinished body →
  ∃ g n, (∀ r, same_task r (g r)) ∧ (body = [] → ∀ r, g r = r) ∧
    drive id subs (body ++ rest) w =
    drive id (foldl apply_event subs body) rest
      {| wb_db := wb_db w; wb_tasks := alter g id (wb_tasks w);
         wb_hub := foldl (λ h ev, broadcast id ev h) (wb_hub w) body; wb_tick := n |}.
Proof.
  intros Hb. revert subs w. induction Hb as [|ev body He _ IH]; intros subs w.
  { exists (λ r, r), (wb_tick w). split; [done|]. split; [done|]. cbn. f_equal. destruct w. cbn. f_equal. symmetry. by apply alter_same. }
  cbn [app drive foldl]. unfold drive_event, mret, wop_ret, mbind, wop_bind, on_hub. cbv beta iota.
  destruct ev as [name command args stdin|d|d|st x e|st e]; [|..|done].
  - edestruct (summary_healthy id subs name command args stdin) as (g & n & Hg & ->). cbv beta iota.
    edestruct IH as (g' & n' & Hg' & _ & ->). exists (g' ∘ g), n'. split; [|split; [done|]].
    + intros r. destruct (Hg r) as (?&?&?), (Hg' (g r)) as (?&?&?). split_and!; cbn; congruence.
    + cbn. by rewrite <- alter_alter_eq.
  - edestruct IH as (g & n & Hg & _ & ->). by exists g, n.
  - edestruct IH as (g & n & Hg & _ & ->). by exists g, n.
  - edestruct IH as (g & n & Hg & _ & ->). by exists g, n.
Qed.
Lemma finish_healthy id st x e o er subs t w :
  finish_task id st x e o er subs t w =
    (Ok tt, {| wb_db := wb_db w;
               wb_tasks := keep_newest TASK_RETENTION (alter (finished_row st x e o er subs t) id (wb_tasks w));
               wb_hub := wb_hub w; wb_tick := S (S (wb_tick w)) |}).
Proof. unfold finish_task, mbind, wop_bind. rewrite sql_healthy. cbv beta iota. by rewrite sql_healthy. Qed.
(** The row of a task whose stream ended. *)
Definition final_row (l : list TaskEvent) (r r' : row) : Prop :=
  ∃ status error t r1,
    last l = Some (Finished status error) ∧ same_task r r1 ∧ (length l = 1%nat → r1 = r) ∧
    r' = finished_row (task_status status) (last (records l) ≫= sr_exit_code) error
           (flat_output (records l)).1 (flat_output (records l)).2 (records l) t r1.
Lemma broadcasts_at id h l k : k ≠ id → foldl (λ h ev, broadcast id ev h) h l !! k = h !! k.
Proof. intros Hk. revert h. induction l as [|ev l IH]; intros h; [done|]. cbn. rewrite IH. unfold broadcast. by rewrite lookup_alter_ne. Qed.
Lemma run_recorded_healthy l kind title w :
  terminated l →
  let id := next_rowid (wb_tasks w) in
  ∃ status error w' r',
    last l = Some (Finished status error) ∧
    run_recorded l kind title w =
      (Ok {| to_ok := negb (bool_decide (task_status status = TsFailed)); to_error := error |}, w') ∧
    wb_tasks w' = keep_newest TASK_RETENTION (<[id := r']> (wb_tasks w)) ∧
    wb_tasks w' !! id = Some r' ∧ final_row l (new_row kind title (utc_now (wb_tick w))) r' ∧
    wb_hub w' !! id = None ∧ (∀ k, k ≠ id → wb_hub w' !! k = wb_hub w !! k) ∧ wb_db w' = wb_db w.
Proof.
  intros (body & fin & -> & Hb & Hf) id. destruct fin as [| | | |status error]; try done.
  exists status, error. unfold run_recorded, begin_task, now, insert_task, mret, wop_ret, mbind, wop_bind, on_hub. cbv beta iota.
  rewrite sql_healthy. cbv beta iota. cbn [wb_hub wb_db wb_tasks wb_tick].
  edestruct (drive_body (next_rowid (wb_tasks w)) [] body [Finished status error]) as (g & n & Hg & Hone & ->); [done|].
  cbn [drive]. unfold drive_event, mret, wop_ret, mbind, wop_bind, on_hub, now.
  cbv beta iota. rewrite finish_healthy. cbv beta iota. cbn [wb_hub wb_db wb_tasks wb_tick].
  rewrite alter_insert_eq, alter_insert_eq. fold id. eexists _, _.
  split; [by rewrite last_snoc|]. split; [reflexivity|]. cbn [wb_hub wb_db wb_tasks wb_tick]. split; [reflexivity|].
  split_and!.
  - rewrite keep_newest_max; [by rewrite lookup_insert_eq| unfold TASK_RETENTION; lia | rewrite lookup_insert_eq; by eexists|].
    intros k' [r [[<- _]|[_ Hr]]%lookup_insert_Some]; [lia|]. enough (k' < id)%Z by lia. apply next_rowid_fresh. by eexists.
  - exists status, error, (utc_now n), (g (new_row kind title (utc_now (wb_tick w)))). split; [by rewrite last_snoc|].
    split; [apply Hg|]. split; [|unfold records; by rewrite foldl_snoc].
    intros Hl. apply Hone. rewrite length_app in Hl. cbn in Hl. apply length_zero_iff_nil. lia.
  - unfold unregister. by rewrite lookup_delete_eq.
  - intros k Hk. unfold unregister. rewrite lookup_delete_ne by done. unfold broadcast at 1.
    rewrite lookup_alter_ne by done. rewrite broadcasts_at by done. unfold register. by rewrite lookup_insert_ne.
  - done.
Qed.
End healthy.

(** ** With a database that may fail *)

Section agree.
Context {Q : Sqlite} {T : Clock} {R : RowCodec}.
(** A run stops with the error of a statement, or is the run of a healthy database. *)
Definition agrees {A} (m m0 : wop A) : Prop := ∀ w, (∃ f w', m w = (Err f, w') ∧ sql_fault f) ∨ m w = m0 w.
Lemma agrees_refl {A} (m : wop A) : agrees m m.
Proof. intros w. by right. Qed.
Lemma agrees_bind {A B} (m m0 : wop A) (f f0 : A → wop B) :
  agrees m m0 → (∀ a, agrees (f a) (f0 a)) → agrees (m ≫= f) (m0 ≫= f0).
Proof.
  intros Hm Hf w. unfold mbind, wop_bind. destruct (Hm w) as [(x & w' & -> & Hx)| ->]; [left; by exists x, w'|].
  destruct (m0 w) as [[a|e] w1]; [apply Hf|by right].
Qed.
Definition healthy : Sqlite := λ _, None.
Lemma agrees_sql {A} (a : table → A) f : agrees (sql (Q := Q) a f) (sql (Q := healthy) a f).
Proof.
  intros w. destruct (sql (Q := Q) a f w) as [[x|e] w'] eqn:E; [right|left; exists e, w'; split; [done|by eapply only_sql_sql]].
  unfold sql in *. cbn. by destruct (sql_err (Sqlite := Q) (wb_tick w)); inversion E; subst.
Qed.
Lemma agrees_finish id st x e o er subs t :
  agrees (finish_task (Q := Q) id st x e o er subs t) (finish_task (Q := healthy) id st x e o er subs t).
Proof. apply agrees_bind; [|intros _]; apply agrees_sql. Qed.
Lemma agrees_event id subs ev : agrees (drive_event (Q := Q) id subs ev) (drive_event (Q := healthy) id subs ev).
Proof.
  apply agrees_bind; [apply agrees_refl|intros _]. destruct ev as [name command args stdin|d|d|st x e|st e]; try apply agrees_refl.
  - apply agrees_bind; [|intros _; apply agrees_refl]. destruct subs; [|apply agrees_refl].
    destruct command; apply agrees_sql.
  - apply agrees_bind; [apply agrees_refl|intros t]. apply agrees_bind; [apply agrees_finish|intros _; apply agrees_refl].
Qed.
Lemma drive_event_outcome `{Q' : Sqlite} id subs ev w o w' :
  drive_event (Q := Q') id subs ev w = (Ok (inl o), w') → is_finished ev = false.
Proof. by intros (_ & _ & _ & H)%drive_event_hub. Qed.
Lemma agrees_drive id subs l : terminated l → agrees (drive (Q := Q) id subs l) (drive (Q := healthy) id subs l).
Proof.
  intros (body & fin & -> & Hb & Hf). revert subs. induction Hb as [|ev body He Hb IH]; intros subs; cbn [app drive].
  - intros w. unfold mbind, wop_bind. destruct (agrees_event id subs fin w) as [(x & w' & -> & Hx)| ->]; [left; by exists x, w'|].
    destruct (drive_event (Q := healthy) id subs fin w) as [[[s|o]|e] w1] eqn:E; [|by right..].
    apply drive_event_outcome in E. congruence.
  - apply agrees_bind; [apply agrees_event|]. intros [s|o]; [apply IH|apply agrees_refl].
Qed.
Lemma agrees_recorded l kind title :
  terminated l → agrees (run_recorded (Q := Q) l kind title) (run_recorded (Q := healthy) l kind title).
Proof.
  intros Ht. apply agrees_bind.
  - apply agrees_bind; [apply agrees_refl|intros t]. apply agrees_bind; [apply agrees_sql|intros id; apply agrees_refl].
  - intros id. apply agrees_bind; [by apply agrees_drive|intros o; apply agrees_refl].
Qed.
(** A recorded run: either a statement failed, with its error, or all is recorded. *)
Lemma run_recorded_cases l kind title w r w' :
  terminated l → run_recorded l kind title w = (r, w') →
  let id := next_rowid (wb_tasks w) in
  match r with
  | Err f => sql_fault f
  | Ok o => ∃ status error r',
      last l = Some (Finished status error) ∧ o = {| to_ok := negb (bool_decide (task_status status = TsFailed)); to_error := error |} ∧
      wb_tasks w' = keep_newest TASK_RETENTION (<[id := r']> (wb_tasks w)) ∧
      wb_tasks w' !! id = Some r' ∧ final_row l (new_row kind title (utc_now (wb_tick w))) r' ∧ wb_hub w' !! id = None
  end.
Proof.
  intros Ht Hr id. destruct (agrees_recorded l kind title Ht w) as [(f & w1 & E & Hf)|E]; rewrite Hr in E.
  { by injection E as -> _. }
  destruct (run_recorded_healthy (Q := healthy) (λ _, eq_refl) l kind title w Ht)
    as (status & error & w2 & r' & H1 & H2 & H3 & H4 & H5 & H6 & _). rewrite H2 in E. injection E as -> ->.
  by exists status, error, r'.
Qed.
End agree.

(** ** What reads back from the table *)

Section codec.
Context {R : RowCodec} {L : RowCodecLaw R}.
Lemma row_status_finished st x e o er subs t r :
  tr_status (row_to_task 0 (finished_row st x e o er subs t r)) = st.
Proof. by destruct st. Qed.
(** The record of a finished row: its status, error and time, and its subtasks
    unless there were none. *)
Lemma read_finished id st x e o er subs t r :
  let k := row_to_task id (finished_row st x e o er subs t r) in
  tr_id k = id ∧ tr_kind k = row_kind r ∧ tr_title k = row_title r ∧ tr_status k = st ∧ tr_error k = e ∧
  tr_stdout k = o ∧ tr_stderr k = er ∧ tr_finished_at k = Some t ∧ (subs ≠ [] → tr_subtasks k = subs).
Proof.
  cbv zeta. split_and!; try done.
  - apply (row_status_finished st x e o er subs t r).
  - intros Hne. unfold row_to_task. cbn [tr_subtasks row_subtasks finished_row].
    destruct (subs_round_trip subs) as (text & -> & Hj). cbn [unwrap_or]. rewrite Hj. cbn [unwrap_or].
    by destruct subs.
Qed.
Lemma read_final_row id l r r' :
  final_row l r r' →
  ∃ status error,
    last l = Some (Finished status error) ∧ let t := row_to_task id r' in
    tr_id t = id ∧ tr_kind t = row_kind r ∧ tr_title t = row_title r ∧ tr_status t = task_status status ∧
    tr_error t = error ∧ tr_stdout t = (flat_output (records l)).1 ∧ tr_stderr t = (flat_output (records l)).2 ∧
    is_Some (tr_finished_at t) ∧ (records l ≠ [] → tr_subtasks t = records l).
Proof.
  intros (status & error & t & r1 & Hl & (Hk & Ht & _) & _ & ->). exists status, error. split; [done|]. cbv zeta.
  pose proof (read_finished id (task_status status) (last (records l) ≫= sr_exit_code) error (flat_output (records l)).1
    (flat_output (records l)).2 (records l) t r1) as (H1 & H2 & H3 & H4 & H5 & H6 & H7 & H8 & H9).
  rewrite H1, H2, H3, H4, H5, H6, H7, H8. split_and!; try congruence; [by eexists|done].
Qed.
(** A task without any subtask: the row reads back with one that stands for it. *)
Definition lone_sub (status : SubStatus) (error : option string) : SubTaskRecord :=
  {| sr_name := "output"; sr_command := None; sr_args := []; sr_stdin := None; sr_stdout := ""; sr_stderr := "";
     sr_status := Some match status with Failed => Failed | _ => Success end; sr_exit_code := None; sr_error := error |}.
Lemma read_lone_row id status error kind title t0 r' :
  final_row [Finished status error] (new_row kind title t0) r' → tr_subtasks (row_to_task id r') = [lone_sub status error].
Proof.
  intros (st & er & t & r1 & [= <- <-] & _ & Hr & ->). rewrite (Hr eq_refl).
  unfold row_to_task. cbn [tr_subtasks row_subtasks row_args finished_row new_row].
  destruct (subs_round_trip []) as (text & E & Hj). change (records [Finished status error]) with (@nil SubTaskRecord). rewrite E. cbn [unwrap_or]. rewrite Hj, args_empty.
  by destruct status.
Qed.
End codec.
Lemma records_nonempty ev l : is_finished ev = false → records (ev :: l) ≠ [].
Proof.
  assert (H : ∀ subs l, subs ≠ [] → foldl apply_event subs l ≠ []).
  { intros subs l'. revert subs. induction l' as [|e l' IH]; intros subs Hs; [done|]. cbn. apply IH.
    assert (Ho : ∀ f : SubTaskRecord → SubTaskRecord, on_last f (current subs) ≠ []) by (intros f; by destruct subs as [|? []]).
    destruct e; try apply Ho; [by destruct subs|done]. }
  intros He. unfold records. cbn. apply H. by destruct ev.
Qed.

Lemma task_status_failed st : task_status st = TsFailed ↔ st = Failed.
Proof. by destruct st. Qed.
Lemma task_status_over st : task_status st ≠ TsRunning.
Proof. by destruct st. Qed.

(** ** Properties *)

(** C25: What the page of a running task shows, whenever it is opened. Tasks run side
    by side, viewers join and receive, in any order, from a start with an empty hub;
    any statement of the database may fail, and rows are pruned. A channel holds its
    newest [CHANNEL_CAPACITY] events, so a viewer that falls further behind loses some;
    of every viewer that has not, the following holds. The page shows one block per
    subtask, each with that subtask's name, command, output and status, exactly as
    recorded from the first events broadcast, up to the one it is at: nothing missing
    and nothing twice; and the outcome if it was broadcast after the page was opened.
    It can receive as long as, and only as long as, it is not at the end of what was
    broadcast; while the task runs, what was broadcast is what the recorder has
    recorded. What was broadcast is a prefix of the task's stream, and once the task is
    over it is the whole of a stream with one terminal event, unless a statement failed
    and stopped the recording. *)
Theorem viewer_sees_the_record `{Q : Sqlite, T : Clock, R : RowCodec} w s k x :
  wb_hub w = ∅ → rtc sys_step (booted w) s → sy_views s !! k = Some x → vs_lost x = false →
  ∃ tl, sy_trails s !! vs_task x = Some tl ∧
    let seen := take (vw_next (vs_view x)) (tl_sent tl) in
    shown (vw_out (vs_view x)) = page_of (records seen) (outcome_of (drop (vs_from x) seen)) ∧
    (view_recv (tl_sent tl) (vs_view x) = None ↔ seen = tl_sent tl) ∧
    (∀ j, sy_jobs s !! vs_task x = Some j → jb_subs j = records (tl_sent tl) ∧ tl_sent tl ++ jb_rx j = tl_all tl) ∧
    tl_sent tl `prefix_of` tl_all tl ∧
    (sy_jobs s !! vs_task x = None → terminated (tl_all tl) → (∀ n, sql_err n = None) → tl_sent tl = tl_all tl).
Proof.
  intros He Hr Hx Hl. pose proof (sys_reachable w s He Hr) as Hi. destruct (inv_views _ Hi k x Hx) as (tl & Htl & Hle & Hv).
  destruct (inv_trails _ Hi _ _ Htl) as (_ & Hp & Hover). exists tl. split; [done|]. cbv zeta. split; [by apply Hv|].
  split; [apply view_recv_end; lia|]. split; [|split; [done|]].
  - intros j Hj. destruct (inv_jobs _ Hi _ _ Hj) as (tl' & Htl' & Hall & Hsent & Hsub & _). rewrite Htl in Htl'. by injection Htl' as <-.
  - intros Hj Ht Hq. destruct (Hover Hj) as [E|[(ev & Hev & Hf)|(n & e & E)]]; [done| |by rewrite Hq in E].
    by eapply terminated_prefix.
Qed.

(** C26: A recorded task ends. Whatever a call of the helper yields (a refusal, a
    stream cut short, garbage, events after the end), and whichever statements of the
    database fail, the run returns. Either it returns the error of a statement that
    failed (what was recorded by then stays as it is, and so does the hub entry: the
    run leaves before it would remove it); or its row is no longer running but carries
    a status, an end time and the terminal error, the task has left the hub, at most
    [TASK_RETENTION] rows are kept, and a row that went is older than all that stayed,
    which are as they were. The run reports success only when the helper itself said
    so. *)
Theorem recorded_task_ends `{Q : Sqlite, T : Clock, R : RowCodec, L : !RowCodecLaw R} c kind title w :
  let id := next_rowid (wb_tasks w) in
  let '(r, w') := run_recorded (helper_stream c) kind title w in
  match r with
  | Err f => ∃ n e, f = Bail e ∧ sql_err n = Some e
  | Ok o => ∃ t status error,
    get_task (wb_tasks w') id = Some t ∧ tr_status t ≠ TsRunning ∧ is_Some (tr_finished_at t) ∧
    last (helper_stream c) = Some (Finished status error) ∧
    tr_status t = task_status status ∧ tr_error t = error ∧ to_error o = error ∧
    (to_ok o = true → ∃ m msgs broken, c = Streamed msgs broken ∧ m ∈ msgs ∧ try_from m = Ok (Finished status error) ∧ status ≠ Failed) ∧
    wb_hub w' !! id = None ∧ (size (wb_tasks w') <= TASK_RETENTION)%nat ∧
    (∀ k, k ≠ id →
       match wb_tasks w' !! k with
       | Some r => wb_tasks w !! k = Some r
       | None => is_Some (wb_tasks w !! k) → ∀ k', is_Some (wb_tasks w' !! k') → (k < k')%Z
       end)
  end.
Proof.
  intros id. destruct (run_recorded (helper_stream c) kind title w) as [r w'] eqn:Hrun.
  apply run_recorded_cases in Hrun; [|apply helper_stream_terminated]. destruct r as [o|f]; [|exact Hrun].
  destruct Hrun as (status & error & r' & Hlast & -> & Htab & Hrow & Hfin & Hhub). fold id in Htab, Hrow, Hhub.
  apply (read_final_row id) in Hfin as (st & er & Hl' & Hread). rewrite Hlast in Hl'. injection Hl' as <- <-.
  destruct Hread as (_ & _ & _ & Hst & Her & _ & _ & Hfa & _).
  exists (row_to_task id r'), status, error. unfold get_task. rewrite Hrow. split; [done|].
  split; [rewrite Hst; apply task_status_over|]. do 5 (split; [done|]). split; [|split; [done|split]].
  - cbn. intros Hok. apply (helper_success c status error Hlast). intros ->. by rewrite bool_decide_eq_true_2 in Hok.
  - rewrite Htab, keep_newest_size. lia.
  - intros k Hk. destruct (wb_tasks w' !! k) as [r|] eqn:E.
    + rewrite Htab in E. apply keep_newest_lookup in E as [E _]. by rewrite lookup_insert_ne in E.
    + intros Hs k' Hk'. rewrite Htab in E, Hk'. eapply keep_newest_newer; [done| |done]. by rewrite lookup_insert_ne.
Qed.

(** ** A table whose JSON is numbers *)

#[local] Instance demo_SubStatus_countable : Countable SubStatus :=
  inj_countable' (λ s, match s with Success => 0 | Failed => 1 | Skipped => 2 end)%nat
    (λ n, match n with 0 => Success | 1 => Failed | _ => Skipped end)%nat ltac:(by intros []).
#[local] Instance demo_sub_eq_dec : EqDecision SubTaskRecord.
Proof. solve_decision. Defined.
#[local] Instance demo_sub_countable : Countable SubTaskRecord :=
  inj_countable' (λ s, (sr_name s, sr_command s, sr_args s, sr_stdin s, sr_stdout s, sr_stderr s, sr_status s, sr_exit_code s, sr_error s))
    (λ '(a, b, c, d, e, f, g, h, i), {| sr_name := a; sr_command := b; sr_args := c; sr_stdin := d; sr_stdout := e;
       sr_stderr := f; sr_status := g; sr_exit_code := h; sr_error := i |}) ltac:(by intros []).
Definition demo_enc `{Countable A} (a : A) : string := pretty (Npos (encode a)).
Definition demo_dec `{Countable A} (s : string) : result string A :=
  match parse_digits 0 s with
  | Some (Npos p) => ok_or "no such value" (decode p)
  | _ => Err "not a number"
  end.
Lemma demo_dec_enc `{Countable A} (a : A) : demo_dec (demo_enc a) = Ok a.
Proof. unfold demo_dec, demo_enc. rewrite parse_digits_pretty. by rewrite decode_encode. Qed.
#[local] Instance demo_codec : RowCodec := {|
  args_json a := Ok (demo_enc a); json_args t := if bool_decide (t = "[]") then Ok [] else demo_dec t;
  subs_json s := Ok (demo_enc s);
  json_subs t := if bool_decide (t = "[]") then Ok [] else demo_dec t |}.
#[local] Instance demo_codec_law : RowCodecLaw demo_codec.
Proof.
  assert (Hn : ∀ `{Countable A} (a : A), demo_enc a ≠ "[]").
  { intros A E0 C0 a E. pose proof (pretty_N_digits (Npos (encode a))) as H. unfold demo_enc in E. by rewrite E in H. }
  split; [intros a; exists (demo_enc a)|intros s; exists (demo_enc s)|done|done];
    (split; [done|]; cbn; rewrite bool_decide_eq_false_2; [apply demo_dec_enc|apply Hn]).
Qed.
#[local] Instance demo_sqlite : Sqlite := λ _, None.
#[local] Instance demo_clock : Clock := λ n, Z.of_nat n.
Definition demo_web : web :=
  {| wb_db := {| db_doc := ConfigDoc_default; db_tree := ∅; db_clock := 0 |}; wb_tasks := ∅; wb_hub := ∅; wb_tick := 0 |}.
Definition demo_stream : list TaskEvent :=
  [SubtaskStarted "Create zvol" (Some "zfs") ["create"; "tank/vm1"] None; Stdout "working"; Stderr "slow";
   SubtaskFinished Success 0 None; Finished Success None].
(** The same stream, followed from the start and from its middle. *)
Example demo_follow :
  shown (followed (records (take 2 demo_stream)) (drop 2 demo_stream)) = shown (followed [] demo_stream) ∧
  shown (followed [] demo_stream) = page_of (records demo_stream) (Some true).
Proof. split; vm_compute; reflexivity. Qed.

(** A viewer that joins after the first event and receives the rest. *)
Lemma viewer_sees_the_record_witness :
  ∃ s x, sy_views s !! 0%nat = Some x ∧ vs_from x = 1%nat ∧
    shown (vw_out (vs_view x)) = page_of (records (take 2 demo_stream)) None.
Proof.
  destruct (begin_task "zvol-create" "create tank/vm1" demo_web) as [r0 w0] eqn:E0.
  destruct (drive_event 1 [] (SubtaskStarted "Create zvol" (Some "zfs") ["create"; "tank/vm1"] None) w0) as [r1 w1] eqn:E1.
  destruct (drive_event 1 (records (take 1 demo_stream)) (Stdout "working") w1) as [r2 w2] eqn:E2.
  pose (v := default {| vw_out := []; vw_mapper := seed_mapper []; vw_next := 0 |} (view_join 1 (wb_hub w1))).
  pose (v' := default v (view_recv (take 2 demo_stream) v)).
  pose (x := {| vs_task := 1; vs_from := 1; vs_lost := false; vs_view := v' |}).
  pose (s := {| sy_web := w2; sy_jobs := {[1%Z := {| jb_all := demo_stream; jb_rx := drop 2 demo_stream;
            jb_subs := records (take 2 demo_stream); jb_background := true |}]};
            sy_trails := {[1%Z := {| tl_all := demo_stream; tl_sent := take 2 demo_stream |}]}; sy_views := {[0%nat := x]} |}).
  exists s, x. split; [reflexivity|]. split; [reflexivity|].
  destruct (viewer_sees_the_record demo_web s 0%nat x) as (tl & Htl & Hs & _); [reflexivity| |reflexivity|reflexivity|].
  - injection E0 as <- <-. injection E1 as <- <-. injection E2 as <- <-.
    eapply rtc_l; [by eapply (sys_begin "zvol-create" "create tank/vm1" demo_stream true demo_web)|].
    eapply rtc_l; [eapply (sys_event 1); reflexivity|].
    eapply rtc_l; [eapply (sys_join 0 1); reflexivity|].
    eapply rtc_l; [eapply (sys_event 1); reflexivity|].
    eapply rtc_l; [eapply (sys_recv 0); reflexivity|]. apply rtc_refl.
  - rewrite Hs. injection Htl as <-. injection E0 as <- <-. injection E1 as <- <-. reflexivity.
Defined.
(** A stream cut short: recorded as a failure. *)
Lemma recorded_task_ends_witness :
  let c := Streamed (into <$> take 3 demo_stream) None in
  let run := run_recorded (helper_stream c) "zvol-create" "create tank/vm1" demo_web in
  ∃ o t status error, run.1 = Ok o ∧
    get_task (wb_tasks run.2) 1 = Some t ∧ tr_status t ≠ TsRunning ∧ is_Some (tr_finished_at t) ∧
    last (helper_stream c) = Some (Finished status error) ∧ tr_status t = task_status status.
Proof.
  intros c run. pose proof (recorded_task_ends c "zvol-create" "create tank/vm1" demo_web) as H.
  cbv zeta in H. fold run in H. destruct run as [r w'] eqn:E. destruct r as [o|f].
  - destruct H as (t & status & error & H1 & H2 & H3 & H4 & H5 & _). exists o, t, status, error. split_and!; done.
  - destruct H as (n & e & _ & He). discriminate He.
Defined.
(** A daemon that dies in the middle of a step: the task is recorded as failed, but
    the step itself stays without a status, as if it were still running. *)
Lemma crash_leaves_step_open name command args stdin msg :
  records [SubtaskStarted name command args stdin; transport_failure msg] = [fresh_sub name command args stdin].
Proof. done. Qed.
