(* ===== verification/TaskTheorems.v ===== *)
(** * From the daemon to the task page

    The daemon's stream, the wire and the recorder composed: what the web service
    keeps of a task, and what its page shows later, is what the daemon did as far
    as it arrived; and
    the typed reads bring the daemon's reports over unchanged. *)
From Stdlib Require Import Ascii String.
From stdpp Require Import base option list strings sets gmap pretty.
From S2P Require Import Prelude Ops IpAddr Types Wire Actual Task Fs World Hardware Commands Nvmet Csi Nfs Lio Nic Reconcile PipeKeys Auth.
From S2P Require Import Store Daemon DaemonFacts Replies Tasks TasksFacts.
#[local] Open Scope string_scope.
#[local] Open Scope list_scope.

Lemma outcome_framed ws status error :
  outcome_of (mjoin (Task.frame <$> ws) ++ [Finished status error]) = Some (negb (bool_decide (status = Failed))).
Proof. by rewrite outcome_of_app by apply frames_unfinished. Qed.
Lemma replayed_page t : shown (replayed t) = page_of (tr_subtasks t) (Some (bool_decide (tr_status t = TsSuccess))).
Proof.
  unfold replayed, shown. rewrite foldl_app. fold (shown (replay_subtasks (tr_subtasks t))). by rewrite replay_page.
Qed.
Lemma task_succeeded st : bool_decide (task_status st = TsSuccess) = negb (bool_decide (st = Failed)).
Proof. by destruct st. Qed.
Lemma terminal_cases (fin : TaskEvent) : is_finished fin = true → ∃ status error, fin = Finished status error.
Proof. destruct fin; [done..|]. by eexists _, _. Qed.

(** What the client hands on of the part of a framed stream that arrived. *)
Definition cut_short (broken : option string) : string :=
  match broken with None => "helper closed the connection" | Some e => "helper protocol error: " +:+ e end.
Lemma framed_heard ws status error arrived broken :
  arrived `prefix_of` mjoin (Task.frame <$> ws) ++ [Finished status error] →
  arrived = mjoin (Task.frame <$> ws) ++ [Finished status error] ∧ helper_stream (Streamed (into <$> arrived) broken) = arrived ∨
  arrived ≠ mjoin (Task.frame <$> ws) ++ [Finished status error] ∧ unfinished arrived ∧
    helper_stream (Streamed (into <$> arrived) broken) = arrived ++ [Finished Failed (Some (cut_short broken))].
Proof.
  intros [rest E]. destruct (snoc_cases rest) as [->|(rest' & a & ->)].
  - rewrite app_nil_r in E. left. subst arrived. split; [done|]. cbn [helper_stream]. rewrite <- (app_nil_r (into <$> _)).
    apply pump_encoded; [apply frames_unfinished|done].
  - right. rewrite app_assoc in E. apply app_inj_tail in E as [E <-].
    assert (Hun : unfinished arrived).
    { pose proof (frames_unfinished ws) as Hu. rewrite E in Hu. by apply Forall_app in Hu as [? _]. }
    split; [|split; [done|by apply pump_cut]].
    intros ->. apply (f_equal length) in E. rewrite !length_app in E. cbn in E. lia.
Qed.
(** Subtasks as they read back from a row: one stands for a task that had none. *)
Definition kept_subs (subs : list SubTaskRecord) (status : SubStatus) (error : option string) : list SubTaskRecord :=
  match subs with [] => [lone_sub status error] | _ => subs end.
(** A stream recorded, read back and shown again. *)
Lemma stream_recorded `{Q : Sqlite, T : Clock, R : RowCodec, L : !RowCodecLaw R} body status error kind title w r w' :
  unfinished body → run_recorded (body ++ [Finished status error]) kind title w = (r, w') →
  match r with
  | Err f => sql_fault f
  | Ok o => o = {| to_ok := negb (bool_decide (status = Failed)); to_error := error |} ∧ ∃ t,
      get_task (wb_tasks w') (next_rowid (wb_tasks w)) = Some t ∧ tr_kind t = kind ∧ tr_title t = title ∧
      tr_status t = task_status status ∧ tr_error t = error ∧ tr_subtasks t = kept_subs (records body) status error ∧
      shown (replayed t) = page_of (tr_subtasks t) (Some (negb (bool_decide (status = Failed)))) ∧
      (body ≠ [] → shown (replayed t) = shown (followed [] (body ++ [Finished status error])))
  end.
Proof.
  intros Hb Hr. apply run_recorded_cases in Hr; [|by exists body, (Finished status error)].
  destruct r as [o|f]; [|done]. destruct Hr as (st & er & r' & Hlast & -> & _ & Hrow & Hfin & _).
  rewrite last_snoc in Hlast. injection Hlast as <- <-. split; [by destruct status|].
  pose proof Hfin as Hlone. apply (read_final_row (next_rowid (wb_tasks w))) in Hfin as (st & er & Hl & Hread).
  rewrite last_snoc in Hl. injection Hl as <- <-. destruct Hread as (_ & Hk & Ht & Hs & He & _ & _ & _ & Hsub).
  assert (Erec : records (body ++ [Finished status error]) = records body) by (unfold records; by rewrite foldl_snoc).
  rewrite Erec in Hsub. exists (row_to_task (next_rowid (wb_tasks w)) r'). split; [unfold get_task; by rewrite Hrow|].
  do 4 (split; [done|]). rewrite replayed_page, Hs, task_succeeded. split; [|split; [done|]].
  - destruct body as [|ev body]; [by eapply read_lone_row|]. inversion_clear Hb as [|? ? Hev _].
    pose proof (records_nonempty ev body Hev) as Hn. rewrite (Hsub Hn). by destruct (records (ev :: body)).
  - intros Hne. rewrite followed_page, outcome_of_app by done. fold (records (body ++ [Finished status error])). rewrite Erec.
    rewrite Hsub; [done|]. destruct body as [|ev body]; [done|]. inversion_clear Hb. by apply records_nonempty.
Qed.

(** ** Properties *)

(** C6: The task page tells what the daemon did, as far as it was heard. For any
    message, whatever the kernel and the commands answer, the daemon's run of the
    request is a list of subtasks and a terminal verdict, and what it sends is a
    prefix of their stream, the whole of it when the web service keeps reading. Any
    part of that may arrive before the connection ends, and any statement of the task
    database may fail. If the recording returns an error, it is that of such a
    statement. Otherwise the row of the task and the caller carry the daemon's verdict
    and error when the whole stream arrived, and a failure that names the broken
    connection when it did not; the row holds, one by one, the subtasks recorded from
    what arrived (the daemon's own, with command, output, exit code, status and error,
    when that was everything), or a single one named output, carrying the verdict, when
    there were none; and the page replayed from the row is the page of those subtasks,
    the same, if anything arrived before the verdict, as a viewer of the live task ends
    with. *)
Theorem recorded_task_faithful `{Q : Sqlite, T : Clock, R : RowCodec, L : !RowCodecLaw R}
    `{C : Client, K : Kernel, M : Machine, I : Idle, J : JsonParser, P : Lio.JsonPrinter, X : Toml, V : Live, S : SshKey, H : Login, Z : StateCodec}
    cx msg poisoned world poisoned' world' arrived broken kind title w r w' :
  spawn_task cx msg poisoned world = Some (poisoned', world') → arrived `prefix_of` log (w_task world') →
  run_recorded (helper_stream (Streamed (into <$> arrived) broken)) kind title w = (r, w') →
  ∃ ws status error,
    (Finished status error = verdict_of ws ∨ poisoned' = true ∧ ∃ why, Finished status error = panic_notice why) ∧
    let stream := mjoin (Task.frame <$> ws) ++ [Finished status error] in
    log (w_task world') `prefix_of` stream ∧ ((∀ n, reads n = true) → log (w_task world') = stream) ∧
    match r with
    | Err f => ∃ n e, f = Bail e ∧ sql_err n = Some e
    | Ok o => ∃ st er t,
        o = {| to_ok := negb (bool_decide (st = Failed)); to_error := er |} ∧
        get_task (wb_tasks w') (next_rowid (wb_tasks w)) = Some t ∧ tr_kind t = kind ∧ tr_title t = title ∧
        tr_status t = task_status st ∧ tr_error t = er ∧ tr_subtasks t = kept_subs (records arrived) st er ∧
        (arrived = stream → st = status ∧ er = error ∧ records arrived = record_of <$> ws) ∧
        (arrived ≠ stream → st = Failed ∧ er = Some (cut_short broken)) ∧
        shown (replayed t) = page_of (tr_subtasks t) (Some (negb (bool_decide (st = Failed)))) ∧
        (records arrived ≠ [] → shown (replayed t) = shown (followed [] (helper_stream (Streamed (into <$> arrived) broken))))
    end.
Proof.
  intros (ws & fin & [Hpre Hlog] & Hfin)%request_received Harr Hrun.
  assert (∃ status error, fin = Finished status error) as (status & error & ->).
  { destruct Hfin as [->|(_ & why & ->)]; by eexists _, _. }
  exists ws, status, error. split; [done|]. cbv zeta. split; [done|]. split; [done|].
  destruct (framed_heard ws status error arrived broken) as [[E Eh]|(Hne & Hun & Eh)]; [by etrans| |]; rewrite Eh in *.
  - rewrite E in Hrun. apply stream_recorded in Hrun; [|apply frames_unfinished]. destruct r as [o|f]; [|exact Hrun].
    destruct Hrun as (-> & t & H1 & H2 & H3 & H4 & H5 & H6 & H7 & H8). exists status, error, t. do 6 (split; [done|]).
    assert (Er : records arrived = record_of <$> ws) by (rewrite E; by apply records_frames).
    assert (Eb : records (mjoin (Task.frame <$> ws)) = record_of <$> ws) by (unfold records; by rewrite fold_frames).
    rewrite Er. split; [by rewrite H6, Eb|]. split; [done|]. split; [done|]. split; [done|]. intros Hw. rewrite E. apply H8.
    intros E0. by rewrite E0 in Eb; rewrite <- Eb in Hw.
  - apply stream_recorded in Hrun; [|done]. destruct r as [o|f]; [|exact Hrun].
    destruct Hrun as (-> & t & H1 & H2 & H3 & H4 & H5 & H6 & H7 & H8). exists Failed, (Some (cut_short broken)), t.
    do 7 (split; [done|]). split; [done|]. split; [done|]. split; [done|]. intros Hw. apply H8. by intros ->.
Qed.

(** The typed reads bring the daemon's reports over unchanged. For each of the
    ten read rpcs, the report a page works with is the one the daemon read off the
    kernel, and the default of its type when the call fails; the verdict of a login
    and the events of a task decode to what was encoded. *)
Lemma typed_reads_arrive :
  (∀ d0 (d : ActualNfs), read_rpc d0 (Ok (to_wire d : pb_NfsReportReply)) = d) ∧
  (∀ d0 (d : ActualNvmet), read_rpc d0 (Ok (to_wire d : pb_NvmetReportReply)) = d) ∧
  (∀ d0 (d : ActualLio), read_rpc d0 (Ok (to_wire d : pb_LioReportReply)) = d) ∧
  (∀ d0 (d : list IscsiSession), read_rpc d0 (Ok (to_wire d : pb_LioSessionsReply)) = d) ∧
  (∀ d0 (d : list RdmaDev), read_rpc d0 (Ok (to_wire d : pb_RdmaDevicesReply)) = d) ∧
  (∀ d0 (d : gmap string (list IpAddr)), read_rpc d0 (Ok (to_wire d : pb_NicPciAddrsReply)) = d) ∧
  (∀ d0 (d : list NicStatus), read_rpc d0 (Ok (to_wire d : pb_NicInterfacesReply)) = d) ∧
  (∀ d0 (d : list NicNetwork), read_rpc d0 (Ok (to_wire d : pb_NicNetworkReply)) = d) ∧
  (∀ d0 (d : gmap string string), read_rpc d0 (Ok (to_wire d : pb_RoceCapableNicsReply)) = d) ∧
  (∀ d0 (d : gmap string (string * string)), read_rpc d0 (Ok (to_wire d : pb_NicRdmaAdviceReply)) = d) ∧
  (∀ a : AuthResult, authenticate_call (Ok (into a)) = Ok a) ∧
  (∀ ev : TaskEvent, try_from (into ev : pb_TaskEvent) = Ok ev).
Proof.
  split_and!; try (intros d0 d; unfold read_rpc; apply of_to_wire).
  - intros a. unfold authenticate_call. by rewrite (try_into (D := AuthResult)).
  - intros ev. by apply (try_into (D := TaskEvent)).
Qed.

(** ** A request that does not validate *)

#[local] Existing Instances demo_doc demo_sysfs demo_shell demo_rest demo_json demo_json_out demo_no_ssh demo_accounts
  demo_attachments demo_codec demo_codec_law demo_sqlite demo_clock.
Definition demo_invalid : wire := WOp (WZvolDelete {| pb_zvol_delete_dataset := "tank/-vm 1" |}).
Definition demo_rejected : bool * world := demo_task demo_invalid false (start_world demo_state 0).
Lemma recorded_task_faithful_witness :
  ∃ ws status error w' t,
    run_recorded (helper_stream (Streamed (into <$> log (w_task demo_rejected.2)) None)) "zvol-delete" "Delete" demo_web =
      (Ok {| to_ok := negb (bool_decide (status = Failed)); to_error := error |}, w') ∧
    get_task (wb_tasks w') 1 = Some t ∧ tr_status t = task_status status ∧ ws ≠ [] ∧ tr_subtasks t = record_of <$> ws ∧
    log (w_task demo_rejected.2) = mjoin (Task.frame <$> ws) ++ [Finished status error].
Proof.
  destruct (run_recorded (helper_stream (Streamed (into <$> log (w_task demo_rejected.2)) None)) "zvol-delete" "Delete" demo_web)
    as [r w'] eqn:Hrun.
  destruct (recorded_task_faithful (C := patient) (K := permissive) demo_context demo_invalid false
      (start_world demo_state 0) demo_rejected.1 demo_rejected.2 (log (w_task demo_rejected.2)) None "zvol-delete" "Delete" demo_web r w')
    as (ws & status & error & _ & _ & Hlog & Hr); [vm_compute; reflexivity|reflexivity|exact Hrun|].
  specialize (Hlog (λ _, eq_refl)). destruct r as [o|f]; [|destruct Hr as (n & e & _ & He); discriminate He].
  destruct Hr as (st & er & t & -> & H1 & _ & _ & H2 & _ & H3 & H4 & _). destruct (H4 Hlog) as (-> & -> & H5).
  assert (Hne : ws ≠ []).
  { intros ->. assert (Hl : length (log (w_task demo_rejected.2)) = 3) by (vm_compute; reflexivity). by rewrite Hlog in Hl. }
  exists ws, status, error, w', t. split_and!; [reflexivity|exact H1|exact H2|exact Hne| |exact Hlog].
  rewrite H3, H5. destruct ws; [by destruct Hne|reflexivity].
Defined.
