(* ===== verification/ZfsView.v ===== *)
(** * What zfs and zpool report (greendot-web/src/actual/zfs.rs)

    The parsers of the scripted listings ([-H]: no header, tab-separated; [-p]:
    exact numbers), the vdev tree recovered from rows that carry no indentation,
    and the commands that produce them. An error is the text of its outermost
    context. The commands run in the web service itself; what they answer is a
    class parameter. *)
From Stdlib Require Import Ascii String.
From stdpp Require Import base option list strings sets gmap pretty.
From S2P Require Import Prelude Ordered Validate Types Wire.
#[local] Open Scope string_scope.
#[local] Open Scope list_scope.

(** ** Fields and numbers *)

Definition tab : ascii := ascii_of_N 9.
Definition fields (line : string) (n : nat) : result string (list string) :=
  let f := split tab line in
  if bool_decide (length f = n) then Ok f
  else Err ("expected " +:+ pretty n +:+ " tab-separated fields, got " +:+ debug_str line).
Definition num (field : string) : result string u64 :=
  ok_or ("expected a number, got " +:+ debug_str field) (parse_uint 64 field).
Definition opt_num (w : N) (field : string) : result string (option (uint w)) :=
  if bool_decide (field = "-") then Ok None
  else Some <$> ok_or ("expected a number or -, got " +:+ debug_str field) (parse_uint w field).
(** [i64::from_str]. *)
Definition parse_i64 (s : string) : option Z :=
  match s with
  | String "-" r =>
      if is_empty r then None
      else n ← parse_digits 0 r; if (n <=? 2 ^ 63)%N then Some (- Z.of_N n)%Z else None
  | _ => (λ x, Z.of_N (raw x)) <$> parse_uint 63 s
  end.
(** The text of its [ParseIntError]: the first digit that is not one or that
    overflows. *)
Fixpoint int_scan (limit acc : N) (overflow s : string) : string :=
  match s with
  | EmptyString => overflow
  | String c r =>
      match digit_val c with
      | None => "invalid digit found in string"
      | Some d => if (limit <? 10 * acc + d)%N then overflow else int_scan limit (10 * acc + d) overflow r
      end
  end.
Definition i64_error (s : string) : string :=
  match s with
  | EmptyString => "cannot parse integer from empty string"
  | String "-" EmptyString | String "+" EmptyString => "invalid digit found in string"
  | String "-" r => int_scan (2 ^ 63) 0 "number too small to fit in target type" r
  | String "+" r | r => int_scan (2 ^ 63 - 1) 0 "number too large to fit in target type" r
  end.
(** The [n]th field; the indices used are below the number of fields checked. *)
Definition fld (f : list string) (n : nat) : string := default "" (f !! n).

(** ** Listings *)

Record Pool : Type := {
  po_name : string; po_size : u64; po_alloc : u64; po_free : u64; po_frag_percent : option u8; po_health : string }.
Inductive DsKind : Type := Filesystem | Volume.
#[export] Instance DsKind_eq_dec : EqDecision DsKind.
Proof. solve_decision. Defined.
Record Dataset : Type := {
  ds_name : string; ds_kind : DsKind; ds_used : u64; ds_avail : u64; ds_volsize : option u64; ds_mountpoint : string;
  ds_mounted : bool }.
Record Snapshot : Type := { sn_name : string; sn_used : u64; sn_creation : Z }.

Definition pool_row (line : string) : result string Pool :=
  f ← fields line 6;
  size ← num (fld f 1);
  alloc ← num (fld f 2);
  free ← num (fld f 3);
  frag ← opt_num 8 (fld f 4);
  mret {| po_name := fld f 0; po_size := size; po_alloc := alloc; po_free := free; po_frag_percent := frag;
          po_health := fld f 5 |}.
Definition parse_zpool_list (out : string) : result string (list Pool) := mapM pool_row (lines out).
Definition ds_kind_of (s : string) : result string DsKind :=
  if bool_decide (s = "filesystem") then Ok Filesystem
  else if bool_decide (s = "volume") then Ok Volume
  else Err ("unexpected dataset type " +:+ debug_str s).
Definition dataset_row (line : string) : result string Dataset :=
  f ← fields line 7;
  kind ← ds_kind_of (fld f 1);
  used ← num (fld f 2);
  avail ← num (fld f 3);
  volsize ← opt_num 64 (fld f 4);
  mret {| ds_name := fld f 0; ds_kind := kind; ds_used := used; ds_avail := avail; ds_volsize := volsize;
          ds_mountpoint := fld f 5; ds_mounted := bool_decide (fld f 6 = "yes") |}.
Definition parse_zfs_list (out : string) : result string (list Dataset) := mapM dataset_row (lines out).
Definition snapshot_row (line : string) : result string Snapshot :=
  f ← fields line 3;
  used ← num (fld f 1);
  creation ← ok_or (i64_error (fld f 2)) (parse_i64 (fld f 2));
  mret {| sn_name := fld f 0; sn_used := used; sn_creation := creation |}.
Definition parse_snapshot_list (out : string) : result string (list Snapshot) := mapM snapshot_row (lines out).
Definition parse_get (out : string) : result string (list (string * string)) :=
  mapM (λ line, f ← fields line 2; mret (fld f 0, fld f 1)) (lines out).

(** ** The vdev tree *)

Inductive MemberClass : Type := Data | Log | Cache | Spare | Special | Dedup.
#[export] Instance MemberClass_eq_dec : EqDecision MemberClass.
Proof. solve_decision. Defined.
Definition from_label (s : string) : option MemberClass :=
  if bool_decide (s = "logs") then Some Log
  else if bool_decide (s = "cache") then Some Cache
  else if bool_decide (s = "spare") then Some Spare
  else if bool_decide (s = "special") then Some Special
  else if bool_decide (s = "dedup") then Some Dedup
  else None.
Record PoolMember : Type := {
  pm_pool : string; pm_class : MemberClass; pm_name : string; pm_is_leaf : bool; pm_parent : option string;
  pm_size : option u64; pm_alloc : option u64; pm_health : option string }.
Definition is_container (name : string) : bool := negb (starts_with "/" name) && is_ok (new NtVdevTarget name).
Definition blank (c : ascii) : bool := Ascii.eqb c " " || Ascii.eqb c tab.
(** [trim_start_matches]. *)
Fixpoint trim_blank (s : string) : string :=
  match s with
  | String c r => if blank c then trim_blank r else s
  | EmptyString => EmptyString
  end.
(** The state of the scan. *)
Record scan : Type := { sc_pool : option string; sc_class : MemberClass; sc_container : option string }.
Definition member_row (s : scan) (line : string) : result string (scan * PoolMember) :=
  f ← fields (trim_blank line) 6;
  pool ← ok_or ("member row before any pool: " +:+ debug_str line) (sc_pool s);
  let name := fld f 0 in
  alloc ← opt_num 64 (fld f 2);
  let parent := match alloc with Some _ => None | None => sc_container s end in
  let container := if is_container name then Some name
                   else match alloc with Some _ => None | None => sc_container s end in
  size ← opt_num 64 (fld f 1);
  mret ({| sc_pool := sc_pool s; sc_class := sc_class s; sc_container := container |},
        {| pm_pool := pool; pm_class := sc_class s; pm_name := name; pm_is_leaf := negb (is_container name);
           pm_parent := parent; pm_size := size; pm_alloc := alloc;
           pm_health := if bool_decide (fld f 5 = "-") then None else Some (fld f 5) |}).
Definition head_row (s : scan) (line : string) : scan :=
  let first := default "" (head (split_whitespace line)) in
  match from_label first with
  | Some c => {| sc_pool := sc_pool s; sc_class := c; sc_container := None |}
  | None => {| sc_pool := Some first; sc_class := Data; sc_container := None |}
  end.
Fixpoint scan_rows (s : scan) (rows : list string) : result string (list PoolMember) :=
  match rows with
  | [] => mret []
  | line :: rows =>
      if is_empty (trim line) then scan_rows s rows
      else if first_char blank line then
        '(s, m) ← member_row s line;
        rest ← scan_rows s rows;
        mret (m :: rest)
      else scan_rows (head_row s line) rows
  end.
Definition parse_pool_vdevs (out : string) : result string (list PoolMember) :=
  scan_rows {| sc_pool := None; sc_class := Data; sc_container := None |} (lines out).
(** A [HashMap] collected from pairs: the last one of a key wins. *)
Definition parse_pool_members (out : string) : gmap string string :=
  list_to_map (reverse ((λ m, (pm_name m, pm_pool m)) <$>
    filter (λ m, Is_true (pm_is_leaf m && starts_with "/" (pm_name m)))
      match parse_pool_vdevs out with Ok l => l | Err _ => [] end)).

(** ** The commands *)

(** What running a command yields: the binary is missing, it could not be run, or
    its exit ([None] for output that is not UTF-8). *)
Inductive spawned : Type :=
| NotInstalled
| SpawnFailed (e : string)
| Exited (success : bool) (stdout : option string) (stderr : string).
Class Shell := shell : nat → list string → spawned.
Section commands.
Context {S : Shell} (n : nat).
Definition run_argv (argv : list string) : result string (option string) :=
  match shell n argv with
  | NotInstalled => Ok None
  | SpawnFailed _ => Err ("running " +:+ join " " argv)
  | Exited false _ stderr => Err (join " " argv +:+ " failed: " +:+ trim stderr)
  | Exited true None _ => Err "invalid utf-8 sequence"
  | Exited true (Some out) _ => Ok (Some out)
  end.
(** [map(parse).transpose()]. *)
Definition parsed {A} (parse : string → result string A) (argv : list string) : result string (option A) :=
  o ← run_argv argv;
  match o with
  | None => mret None
  | Some out => a ← parse out; mret (Some a)
  end.
Definition ZPOOL_LIST_VDEVS : list string := ["zpool"; "list"; "-vHLPp"; "-o"; "name,size,alloc,free,frag,health"].
Definition pools : result string (option (list Pool)) :=
  parsed parse_zpool_list ["zpool"; "list"; "-Hp"; "-o"; "name,size,alloc,free,frag,health"].
Definition pool_members : result string (option (gmap string string)) :=
  parsed (λ out, Ok (parse_pool_members out)) ZPOOL_LIST_VDEVS.
Definition pool_vdevs : result string (option (list PoolMember)) := parsed parse_pool_vdevs ZPOOL_LIST_VDEVS.
Definition datasets : result string (option (list Dataset)) :=
  parsed parse_zfs_list
    ["zfs"; "list"; "-Hp"; "-t"; "filesystem,volume"; "-o"; "name,type,used,avail,volsize,mountpoint,mounted"].
Definition snapshots : result string (option (list Snapshot)) :=
  parsed parse_snapshot_list ["zfs"; "list"; "-Hp"; "-t"; "snapshot"; "-o"; "name,used,creation"].
Definition dataset_properties (name : string) : result string (option (list (string * string))) :=
  parsed parse_get ["zfs"; "get"; "-H"; "-o"; "property,value"; "all"; name].
Definition compression (name : string) : result string (option (string * string)) :=
  parsed (λ out, l ← parse_get out; mret (default ("", "") (head l)))
    ["zfs"; "get"; "-H"; "-o"; "value,source"; "compression"; name].
Definition pool_properties (name : string) : result string (option (list (string * string))) :=
  parsed parse_get ["zpool"; "get"; "-H"; "-o"; "property,value"; "all"; name].
End commands.

Example vdev_rows :
  let t := String tab "" in
  parse_pool_vdevs
    ("tank" +:+ t +:+ "10" +:+ t +:+ "5" +:+ t +:+ "5" +:+ t +:+ "0" +:+ t +:+ "ONLINE" +:+ chr 10 +:+
     t +:+ "mirror-0" +:+ t +:+ "10" +:+ t +:+ "5" +:+ t +:+ "5" +:+ t +:+ "0" +:+ t +:+ "ONLINE" +:+ chr 10 +:+
     t +:+ "/dev/sda" +:+ t +:+ "10" +:+ t +:+ "-" +:+ t +:+ "-" +:+ t +:+ "-" +:+ t +:+ "ONLINE" +:+ chr 10 +:+
     "logs" +:+ chr 10) =
  Ok [{| pm_pool := "tank"; pm_class := Data; pm_name := "mirror-0"; pm_is_leaf := false; pm_parent := None;
         pm_size := parse_uint 64 "10"; pm_alloc := parse_uint 64 "5"; pm_health := Some "ONLINE" |};
      {| pm_pool := "tank"; pm_class := Data; pm_name := "/dev/sda"; pm_is_leaf := true; pm_parent := Some "mirror-0";
         pm_size := parse_uint 64 "10"; pm_alloc := None; pm_health := Some "ONLINE" |}].
Proof. vm_compute. reflexivity. Qed.
