(* ===== verification/ZfsViewFacts.v ===== *)
(** * The listings read back

    Printing a listing in the tools' scripted format and parsing it gives the
    listing back; and the vdev tree, printed without indentation, is recovered
    with the right pool, class and parent for every device. *)
From Stdlib Require Import Ascii String.
From stdpp Require Import base option list strings sets gmap pretty.
From S2P Require Import Prelude Ordered Validate Types Wire ZfsView.
#[local] Open Scope string_scope.
#[local] Open Scope list_scope.

(** ** Rows of fields *)

(** A character of a field: no tab and no line end. *)
Definition field_char (c : ascii) : bool := negb (Ascii.eqb c tab) && negb (code c =? 10)%N && negb (code c =? 13)%N.
Definition line_char (c : ascii) : bool := negb (code c =? 10)%N && negb (code c =? 13)%N.
Definition field_ok (s : string) : Prop := all_chars field_char s.
Definition row_text (f : list string) : string := join (String tab "") f.
Definition text_of (rows : list string) : string := concat_s ((λ l, l +:+ chr 10) <$> rows).

Lemma not_ws_field s : all_chars not_ws s → field_ok s.
Proof. intros H. by apply (all_chars_incl _ _ _ H). Qed.
Lemma field_no_tab s : field_ok s → tab ∉ chars s.
Proof. intros H. by eapply all_chars_absent. Qed.
Lemma field_line s : field_ok s → all_chars line_char s.
Proof. intros H. by apply (all_chars_incl _ _ _ H). Qed.
Lemma row_line f : Forall field_ok f → all_chars line_char (row_text f).
Proof.
  intros H. apply all_chars_join; [vm_compute; done|]. eapply Forall_impl; [exact H|]. apply field_line.
Qed.
Lemma line_strip_cr s : all_chars line_char s → strip_cr s = s.
Proof.
  induction s as [|c s IH]; [done|]. unfold all_chars. cbn. intros H. bool_split. rewrite IH by done.
  destruct s; [|done]. unfold line_char in *. by destruct (code c =? 13)%N; [bool_split|].
Qed.
Lemma lines_text rows : Forall (λ l, Is_true (all_chars line_char l)) rows → lines (text_of rows) = rows.
Proof.
  induction 1 as [|l rows Hl _ IH]; [done|]. unfold text_of. cbn [fmap list_fmap concat_s]. rewrite app_assoc_s.
  change (chr 10 +:+ ?x) with (String lf x). rewrite lines_app, split_absent by by eapply all_chars_absent.
  cbn [fmap list_fmap app]. rewrite line_strip_cr by done. f_equal. exact IH.
Qed.
Lemma fields_row f : f ≠ [] → Forall field_ok f → fields (row_text f) (length f) = Ok f.
Proof.
  intros Hne Hf. unfold fields, row_text. rewrite split_join; [by rewrite bool_decide_eq_true_2|done|].
  eapply Forall_impl; [exact Hf|]. apply field_no_tab.
Qed.
Lemma show_uint_field {w} (x : uint w) : field_ok (show_uint x).
Proof. by apply (all_chars_incl _ _ _ (pretty_N_digits _)). Qed.
Lemma num_show (x : u64) : num (show_uint x) = Ok x.
Proof. unfold num. by rewrite parse_show_uint. Qed.
Definition dash {w} (o : option (uint w)) : string := match o with Some x => show_uint x | None => "-" end.
Lemma show_uint_not_dash {w} (x : uint w) : show_uint x ≠ "-".
Proof. intros E. pose proof (pretty_N_digits (raw x)) as H. unfold show_uint in E. by rewrite E in H. Qed.
Lemma opt_num_dash {w} (o : option (uint w)) : opt_num w (dash o) = Ok o.
Proof.
  unfold opt_num. destruct o as [x|]; cbn [dash]; [|done].
  rewrite bool_decide_eq_false_2 by apply show_uint_not_dash. by rewrite parse_show_uint.
Qed.
Lemma dash_field {w} (o : option (uint w)) : field_ok (dash o).
Proof. destruct o; [apply show_uint_field|done]. Qed.
Lemma pretty_not_empty (n : N) : is_empty (pretty n) = false.
Proof. destruct (pretty n) eqn:E; [by apply pretty_N_nonempty in E|done]. Qed.
Lemma parse_i64_show z : (- 2 ^ 63 <= z < 2 ^ 63)%Z → parse_i64 (show_Z z) = Some z.
Proof.
  intros Hz. unfold show_Z. destruct (Z.ltb_spec z 0) as [Hn|Hn].
  - change ("-" +:+ ?x) with (String "-" x). unfold parse_i64. rewrite pretty_not_empty, parse_digits_pretty.
    cbn [mbind option_bind]. assert ((Z.to_N (- z) <=? 2 ^ 63)%N = true) as -> by (apply N.leb_le; lia).
    f_equal. lia.
  - assert (Hd : match pretty (Z.to_N z) with String "-" _ => False | _ => True end).
    { pose proof (pretty_N_digits (Z.to_N z)) as H. destruct (pretty (Z.to_N z)) as [|c r]; [done|]. by repeat case_match. }
    assert (Hf : fits 63 (Z.to_N z)) by (apply fits_spec; lia).
    assert (parse_i64 (pretty (Z.to_N z)) = (λ x, Z.of_N (raw x)) <$> parse_uint 63 (pretty (Z.to_N z))) as ->.
    { unfold parse_i64. destruct (pretty (Z.to_N z)) as [|c r]; [done|]. by repeat case_match. }
    assert (pretty (Z.to_N z) = show_uint (Refine (Z.to_N z) Hf : uint 63)) as -> by done. rewrite parse_show_uint. cbn. f_equal. lia.
Qed.
Lemma show_Z_field z : field_ok (show_Z z).
Proof.
  unfold show_Z. assert (H : ∀ n : N, field_ok (pretty n)) by (intros n; by apply (all_chars_incl _ _ _ (pretty_N_digits _))).
  destruct (z <? 0)%Z; [|apply H]. unfold field_ok. rewrite all_chars_app. apply andb_True. split; [done|apply H].
Qed.

(** ** Listings *)

Definition show_kind (k : DsKind) : string := match k with Filesystem => "filesystem" | Volume => "volume" end.
Definition print_pool (p : Pool) : string :=
  row_text [po_name p; show_uint (po_size p); show_uint (po_alloc p); show_uint (po_free p); dash (po_frag_percent p); po_health p].
Definition print_dataset (unmounted : string) (d : Dataset) : string :=
  row_text [ds_name d; show_kind (ds_kind d); show_uint (ds_used d); show_uint (ds_avail d); dash (ds_volsize d);
            ds_mountpoint d; if ds_mounted d then "yes" else unmounted].
Definition print_snapshot (s : Snapshot) : string := row_text [sn_name s; show_uint (sn_used s); show_Z (sn_creation s)].
Definition pool_ok (p : Pool) : Prop := field_ok (po_name p) ∧ field_ok (po_health p).
Definition dataset_ok (d : Dataset) : Prop := field_ok (ds_name d) ∧ field_ok (ds_mountpoint d).
Definition snapshot_ok (s : Snapshot) : Prop := field_ok (sn_name s) ∧ (- 2 ^ 63 <= sn_creation s < 2 ^ 63)%Z.

Lemma listing_round_trip {A} (row : string → result string A) (print : A → string) (ok : A → Prop) l :
  (∀ a, ok a → all_chars line_char (print a) ∧ row (print a) = Ok a) → Forall ok l →
  mapM row (lines (text_of (print <$> l))) = Ok l.
Proof.
  intros H Hl. rewrite lines_text.
  - induction Hl as [|a l Ha _ IH]; [done|]. cbn. rewrite (proj2 (H a Ha)). cbn. by rewrite IH.
  - apply Forall_fmap. eapply Forall_impl; [exact Hl|]. intros a Ha. apply H, Ha.
Qed.
Ltac row_fields := repeat constructor; try assumption; try apply show_uint_field; try apply dash_field; try apply show_Z_field.
Lemma pool_row_print p : pool_ok p → all_chars line_char (print_pool p) ∧ pool_row (print_pool p) = Ok p.
Proof.
  intros [Hn Hh]. destruct p as [n s a f g h]. split; [apply row_line; row_fields|].
  unfold pool_row, print_pool. rewrite (fields_row [_; _; _; _; _; _]) by (done || row_fields). cbn -[num opt_num].
  by rewrite !num_show, opt_num_dash.
Qed.
Lemma dataset_row_print u d : u ≠ "yes" → field_ok u → dataset_ok d →
  all_chars line_char (print_dataset u d) ∧ dataset_row (print_dataset u d) = Ok d.
Proof.
  intros Hu Hf [Hn Hm]. destruct d as [n k us av vs mp mt]. split.
  - apply row_line. row_fields; [by destruct k|by destruct mt].
  - unfold dataset_row, print_dataset. rewrite (fields_row [_; _; _; _; _; _; _]).
    2: done. 2: { row_fields; [by destruct k|by destruct mt]. }
    cbn -[num opt_num]. assert (ds_kind_of (show_kind k) = Ok k) as -> by (by destruct k). cbn -[num opt_num].
    rewrite !num_show, opt_num_dash. cbn. destruct mt; [done|]. by rewrite bool_decide_eq_false_2.
Qed.
Lemma snapshot_row_print s : snapshot_ok s → all_chars line_char (print_snapshot s) ∧ snapshot_row (print_snapshot s) = Ok s.
Proof.
  intros [Hn Hc]. destruct s as [n u c]. split; [apply row_line; row_fields|].
  unfold snapshot_row, print_snapshot. rewrite (fields_row [_; _; _]) by (done || row_fields). cbn -[num parse_i64].
  rewrite num_show. cbn -[parse_i64]. by rewrite parse_i64_show.
Qed.

(** ** The vdev tree *)

(** A row of [zpool list -v]: [free] and [frag] are read by nobody. *)
Record vrow : Type := {
  vr_name : string; vr_size : option u64; vr_alloc : option u64; vr_free : string; vr_frag : string; vr_health : option string }.
Inductive vdev : Type := VLeaf (r : vrow) | VGroup (r : vrow) (children : list vrow).
(** A class label with its padding and the vdevs under it. *)
Record vsection : Type := { vs_class : MemberClass; vs_pad : string; vs_vdevs : list vdev }.
Record vpool : Type := { vp_name : string; vp_columns : string; vp_data : list vdev; vp_sections : list vsection }.

Definition vrow_text (r : vrow) : string :=
  String tab (row_text [vr_name r; dash (vr_size r); dash (vr_alloc r); vr_free r; vr_frag r; default "-" (vr_health r)]).
Definition vdev_text (v : vdev) : list string :=
  match v with VLeaf r => [vrow_text r] | VGroup r children => vrow_text r :: (vrow_text <$> children) end.
Definition label_of (c : MemberClass) : string :=
  match c with Data => "" | Log => "logs" | Cache => "cache" | Spare => "spare" | Special => "special" | Dedup => "dedup" end.
Definition section_text (s : vsection) : list string :=
  (label_of (vs_class s) +:+ vs_pad s) :: mjoin (vdev_text <$> vs_vdevs s).
Definition pool_text (p : vpool) : list string :=
  (vp_name p +:+ String tab (vp_columns p)) :: mjoin (vdev_text <$> vp_data p) ++ mjoin (section_text <$> vp_sections p).
Definition vdev_list (ps : list vpool) : string := text_of (mjoin (pool_text <$> ps)).

Definition member (pool : string) (c : MemberClass) (parent : option string) (r : vrow) : PoolMember :=
  {| pm_pool := pool; pm_class := c; pm_name := vr_name r; pm_is_leaf := negb (is_container (vr_name r));
     pm_parent := parent; pm_size := vr_size r; pm_alloc := vr_alloc r; pm_health := vr_health r |}.
Definition vdev_members (pool : string) (c : MemberClass) (v : vdev) : list PoolMember :=
  match v with
  | VLeaf r => [member pool c None r]
  | VGroup r children => member pool c None r :: (member pool c (Some (vr_name r)) <$> children)
  end.
Definition pool_tree (p : vpool) : list PoolMember :=
  mjoin (vdev_members (vp_name p) Data <$> vp_data p) ++
  mjoin ((λ s, mjoin (vdev_members (vp_name p) (vs_class s) <$> vs_vdevs s)) <$> vp_sections p).

(** What zpool prints: a container carries numbers; its children, and no other row
    after it, print [-] for alloc. *)
Definition word (s : string) : Prop := all_chars not_ws s ∧ s ≠ "".
Definition vrow_ok (r : vrow) : Prop :=
  word (vr_name r) ∧ field_ok (vr_free r) ∧ field_ok (vr_frag r) ∧
  match vr_health r with Some h => word h ∧ h ≠ "-" | None => True end.
Definition vdev_ok (v : vdev) : Prop :=
  match v with
  | VLeaf r => vrow_ok r ∧ is_container (vr_name r) = false
  | VGroup r children =>
      vrow_ok r ∧ is_container (vr_name r) = true ∧ is_Some (vr_alloc r) ∧
      Forall (λ c, vrow_ok c ∧ is_container (vr_name c) = false ∧ vr_alloc c = None) children
  end.
Definition is_vleaf (v : vdev) : Prop := match v with VLeaf _ => True | VGroup _ _ => False end.
Definition counted (v : vdev) : Prop := match v with VLeaf r => is_Some (vr_alloc r) | VGroup _ _ => True end.
Definition vdevs_ok (l : list vdev) : Prop := Forall vdev_ok l ∧ (Forall counted l ∨ Forall is_vleaf l).
Definition section_ok (s : vsection) : Prop :=
  vs_class s ≠ Data ∧ vdevs_ok (vs_vdevs s) ∧ all_chars line_char (vs_pad s) ∧
  (vs_pad s = "" ∨ ∃ r, vs_pad s = String " " r).
Definition vpool_ok (p : vpool) : Prop :=
  word (vp_name p) ∧ from_label (vp_name p) = None ∧ all_chars line_char (vp_columns p) ∧ vdevs_ok (vp_data p) ∧
  Forall section_ok (vp_sections p).

Lemma word_field s : word s → field_ok s.
Proof. intros [H _]. by apply not_ws_field. Qed.
Lemma vrow_fields r : vrow_ok r →
  Forall field_ok [vr_name r; dash (vr_size r); dash (vr_alloc r); vr_free r; vr_frag r; default "-" (vr_health r)].
Proof.
  intros (Hn & Hf & Hg & Hh). repeat constructor; try assumption; try apply dash_field; [by apply word_field|].
  revert Hh. destruct (vr_health r) as [h|]; [|done]. intros [Hh _]. by apply word_field.
Qed.
Lemma vrow_line r : vrow_ok r → all_chars line_char (vrow_text r).
Proof. intros H. unfold vrow_text. change (all_chars line_char (String tab ?x)) with (all_chars line_char x). by apply row_line, vrow_fields. Qed.
Lemma word_head s t : word s → ∃ c r, s +:+ t = String c r ∧ is_ws c = false.
Proof.
  intros [H Hne]. destruct s as [|c r]; [done|]. exists c, (r +:+ t). split; [done|].
  unfold all_chars in H. cbn in H. unfold not_ws in H at 1. by destruct (is_ws c).
Qed.
Lemma trim_ws_cons c s : is_ws c = false → is_empty (trim (String c s)) = false.
Proof. intros H. unfold trim. cbn [trim_start]. rewrite H. cbn [trim_end]. by rewrite H. Qed.
Lemma blank_ws c : is_ws c = false → blank c = false.
Proof. unfold blank. destruct (Ascii.eqb_spec c " ") as [->|]; [done|]. by destruct (Ascii.eqb_spec c tab) as [->|]. Qed.
Lemma trim_blank_head c s : is_ws c = false → trim_blank (String c s) = String c s.
Proof. intros H%blank_ws. cbn. by rewrite H. Qed.
(** The row of a member, whatever the scan has seen. *)
Lemma member_row_text p c k r : vrow_ok r →
  member_row {| sc_pool := Some p; sc_class := c; sc_container := k |} (vrow_text r) =
  Ok ({| sc_pool := Some p; sc_class := c;
         sc_container := if is_container (vr_name r) then Some (vr_name r)
                         else match vr_alloc r with Some _ => None | None => k end |},
      member p c match vr_alloc r with Some _ => None | None => k end r).
Proof.
  intros Hr. unfold member_row, vrow_text. pose proof Hr as (Hn & _ & _ & Hh).
  destruct (word_head (vr_name r) (String tab (row_text [dash (vr_size r); dash (vr_alloc r); vr_free r; vr_frag r; default "-" (vr_health r)])) Hn)
    as (a & t & Ht & Ha).
  change (trim_blank (String tab ?x)) with (trim_blank x).
  change (row_text (vr_name r :: ?a :: ?l)) with (vr_name r +:+ String tab (row_text (a :: l))). rewrite Ht, trim_blank_head, <- Ht by done.
  change (vr_name r +:+ String tab (row_text (?a :: ?l))) with (row_text (vr_name r :: a :: l)).
  rewrite (fields_row [_; _; _; _; _; _]) by (done || by apply vrow_fields).
  cbn -[opt_num is_container]. rewrite !opt_num_dash. cbn -[is_container].
  unfold member. do 3 f_equal. revert Hh. destruct (vr_health r) as [h|]; [|done]. intros [_ Hh]. cbn. by rewrite bool_decide_eq_false_2.
Qed.
Lemma scan_member p c k r rows : vrow_ok r →
  scan_rows {| sc_pool := Some p; sc_class := c; sc_container := k |} (vrow_text r :: rows) =
  (rest ← scan_rows {| sc_pool := Some p; sc_class := c;
                       sc_container := if is_container (vr_name r) then Some (vr_name r)
                                       else match vr_alloc r with Some _ => None | None => k end |} rows;
   mret (member p c match vr_alloc r with Some _ => None | None => k end r :: rest)).
Proof.
  intros Hr. cbn [scan_rows]. change (first_char blank (vrow_text r)) with true. rewrite member_row_text by done.
  assert (is_empty (trim (vrow_text r)) = false) as ->; [|done].
  destruct (word_head (vr_name r) (String tab (row_text [dash (vr_size r); dash (vr_alloc r); vr_free r; vr_frag r; default "-" (vr_health r)])) (proj1 Hr))
    as (a & t & Ht & Ha).
  change (vrow_text r) with (String tab (vr_name r +:+ String tab (row_text [dash (vr_size r); dash (vr_alloc r); vr_free r; vr_frag r; default "-" (vr_health r)]))).
  rewrite Ht. unfold trim. change (trim_start (String tab ?x)) with (trim_start x). by apply trim_ws_cons.
Qed.
Lemma scan_children p c g children rows :
  Forall (λ r, vrow_ok r ∧ is_container (vr_name r) = false ∧ vr_alloc r = None) children →
  scan_rows {| sc_pool := Some p; sc_class := c; sc_container := Some g |} ((vrow_text <$> children) ++ rows) =
  (rest ← scan_rows {| sc_pool := Some p; sc_class := c; sc_container := Some g |} rows;
   mret ((member p c (Some g) <$> children) ++ rest)).
Proof.
  induction 1 as [|r children (Hr & Hc & Ha) _ IH]; cbn [fmap list_fmap app].
  - by destruct (scan_rows _ rows).
  - rewrite scan_member by done. rewrite Hc, Ha, IH. by destruct (scan_rows _ rows).
Qed.
Lemma mjoin_cons {A} (a : list A) l : mjoin (a :: l) = a ++ mjoin l.
Proof. done. Qed.
Lemma scan_counted p c k l rows : Forall vdev_ok l → Forall counted l → ∃ k',
  scan_rows {| sc_pool := Some p; sc_class := c; sc_container := k |} (mjoin (vdev_text <$> l) ++ rows) =
  (rest ← scan_rows {| sc_pool := Some p; sc_class := c; sc_container := k' |} rows;
   mret (mjoin (vdev_members p c <$> l) ++ rest)).
Proof.
  intros Hok Hc. revert k. induction Hok as [|v l Hv _ IH]; intros k; rewrite ?fmap_cons, ?mjoin_cons.
  - exists k. cbn. by destruct (scan_rows _ rows).
  - apply Forall_cons in Hc as [Hv' Hc]. rewrite <- app_assoc. destruct v as [r|r ch]; cbn [vdev_text vdev_members] in *.
    + destruct Hv as [Hr Hn]. cbn [app]. rewrite scan_member, Hn by done. destruct Hv' as [a ->].
      destruct (IH Hc None) as [k' ->]. exists k'. by destruct (scan_rows _ rows).
    + destruct Hv as (Hr & Hn & [a Ha] & Hch). cbn [app]. rewrite scan_member, Hn, Ha by done. rewrite scan_children by done.
      destruct (IH Hc (Some (vr_name r))) as [k' ->]. exists k'. destruct (scan_rows _ rows); [|done]. cbn. by rewrite <- app_assoc.
Qed.
Lemma scan_leaves p c l rows : Forall vdev_ok l → Forall is_vleaf l →
  scan_rows {| sc_pool := Some p; sc_class := c; sc_container := None |} (mjoin (vdev_text <$> l) ++ rows) =
  (rest ← scan_rows {| sc_pool := Some p; sc_class := c; sc_container := None |} rows;
   mret (mjoin (vdev_members p c <$> l) ++ rest)).
Proof.
  intros Hok Hl. induction Hok as [|v l Hv _ IH]; rewrite ?fmap_cons, ?mjoin_cons.
  - cbn. by destruct (scan_rows _ rows).
  - apply Forall_cons in Hl as [Hv' Hl]. rewrite <- app_assoc. destruct v as [r|r ch]; [|done]. cbn [vdev_text vdev_members app] in *.
    destruct Hv as [Hr Hn]. rewrite scan_member, Hn by done.
    assert (match vr_alloc r with Some _ => None | None => @None string end = None) as -> by (by destruct (vr_alloc r)).
    rewrite IH by done. by destruct (scan_rows _ rows).
Qed.
Lemma scan_vdevs p c l rows : vdevs_ok l → ∃ k',
  scan_rows {| sc_pool := Some p; sc_class := c; sc_container := None |} (mjoin (vdev_text <$> l) ++ rows) =
  (rest ← scan_rows {| sc_pool := Some p; sc_class := c; sc_container := k' |} rows;
   mret (mjoin (vdev_members p c <$> l) ++ rest)).
Proof. intros [Hok [Hc|Hl]]; [by apply scan_counted|]. exists None. by apply scan_leaves. Qed.
Lemma split_first w t : word w → (t = "" ∨ ∃ c r, t = String c r ∧ is_ws c = true) →
  default "" (head (split_whitespace (w +:+ t))) = w.
Proof.
  intros [Hw Hne] [->|(c & r & -> & Hc)].
  - by rewrite app_nil_r_s, split_whitespace_one.
  - by rewrite split_whitespace_cons.
Qed.
Lemma scan_head s w t rows : word w → (t = "" ∨ ∃ c r, t = String c r ∧ is_ws c = true) →
  scan_rows s ((w +:+ t) :: rows) =
  scan_rows match from_label w with
            | Some c => {| sc_pool := sc_pool s; sc_class := c; sc_container := None |}
            | None => {| sc_pool := Some w; sc_class := Data; sc_container := None |}
            end rows.
Proof.
  intros Hw Ht. cbn [scan_rows]. unfold head_row. rewrite split_first by done.
  destruct (word_head w t Hw) as (a & r & -> & Ha). rewrite trim_ws_cons by done. cbn [first_char]. by rewrite blank_ws.
Qed.
Lemma label_word c : c ≠ Data → word (label_of c) ∧ from_label (label_of c) = Some c.
Proof. by destruct c. Qed.
Lemma scan_section p c k s rows : section_ok s → ∃ k',
  scan_rows {| sc_pool := Some p; sc_class := c; sc_container := k |} (section_text s ++ rows) =
  (rest ← scan_rows {| sc_pool := Some p; sc_class := vs_class s; sc_container := k' |} rows;
   mret (mjoin (vdev_members p (vs_class s) <$> vs_vdevs s) ++ rest)).
Proof.
  intros (Hc & Hv & _ & Hpad). destruct (label_word _ Hc) as [Hw Hl]. unfold section_text. cbn [app].
  rewrite scan_head by (done || (destruct Hpad as [->|[r ->]]; [by left|right; by eexists _, _])). rewrite Hl. by apply scan_vdevs.
Qed.
Lemma scan_sections p c k ss rows : Forall section_ok ss → ∃ c' k',
  scan_rows {| sc_pool := Some p; sc_class := c; sc_container := k |} (mjoin (section_text <$> ss) ++ rows) =
  (rest ← scan_rows {| sc_pool := Some p; sc_class := c'; sc_container := k' |} rows;
   mret (mjoin ((λ s, mjoin (vdev_members p (vs_class s) <$> vs_vdevs s)) <$> ss) ++ rest)).
Proof.
  intros H. revert c k. induction H as [|s ss Hs _ IH]; intros c k; rewrite ?fmap_cons, ?mjoin_cons.
  - exists c, k. cbn. by destruct (scan_rows _ rows).
  - rewrite <- app_assoc. destruct (scan_section p c k s (mjoin (section_text <$> ss) ++ rows) Hs) as [k1 ->].
    destruct (IH (vs_class s) k1) as (c' & k' & ->). exists c', k'. destruct (scan_rows _ rows); [|done]. cbn. by rewrite app_assoc.
Qed.
Lemma scan_pool s p rows : vpool_ok p → ∃ c' k',
  scan_rows s (pool_text p ++ rows) =
  (rest ← scan_rows {| sc_pool := Some (vp_name p); sc_class := c'; sc_container := k' |} rows; mret (pool_tree p ++ rest)).
Proof.
  intros (Hw & Hl & _ & Hd & Hs). unfold pool_text, pool_tree. cbn [app]. rewrite scan_head, Hl by (done || (right; by eexists _, _)).
  rewrite <- app_assoc. destruct (scan_vdevs (vp_name p) Data (vp_data p) (mjoin (section_text <$> vp_sections p) ++ rows) Hd) as [k1 ->].
  destruct (scan_sections (vp_name p) Data k1 (vp_sections p) rows Hs) as (c' & k' & ->). exists c', k'.
  destruct (scan_rows _ rows); [|done]. cbn. by rewrite app_assoc.
Qed.
Lemma vdev_lines v : vdev_ok v → Forall (λ l, Is_true (all_chars line_char l)) (vdev_text v).
Proof.
  destruct v as [r|r ch]; cbn; [intros [H _]|intros (H & _ & _ & Hch)]; constructor; try (by apply vrow_line); [constructor|].
  apply Forall_fmap. eapply Forall_impl; [exact Hch|]. intros x [Hx _]. by apply vrow_line.
Qed.
Lemma vdevs_lines l : vdevs_ok l → Forall (λ l, Is_true (all_chars line_char l)) (mjoin (vdev_text <$> l)).
Proof. intros [H _]. apply Forall_join, Forall_fmap. eapply Forall_impl; [exact H|]. apply vdev_lines. Qed.
Lemma word_line w : word w → all_chars line_char w.
Proof. intros H. by apply field_line, word_field. Qed.
Lemma pool_lines p : vpool_ok p → Forall (λ l, Is_true (all_chars line_char l)) (pool_text p).
Proof.
  intros (Hw & _ & Hc & Hd & Hs). constructor.
  - rewrite all_chars_app. apply andb_True. split; [by apply word_line|exact Hc].
  - apply Forall_app. split; [by apply vdevs_lines|]. apply Forall_join, Forall_fmap. eapply Forall_impl; [exact Hs|].
    intros s (Hcl & Hv & Hp & _). constructor; [|by apply vdevs_lines].
    rewrite all_chars_app. apply andb_True. split; [apply word_line, label_word, Hcl|exact Hp].
Qed.
Lemma parse_vdev_list ps : Forall vpool_ok ps → parse_pool_vdevs (vdev_list ps) = Ok (mjoin (pool_tree <$> ps)).
Proof.
  intros H. unfold parse_pool_vdevs, vdev_list. rewrite lines_text.
  2: { apply Forall_join, Forall_fmap. eapply Forall_impl; [exact H|]. apply pool_lines. }
  assert (Hgo : ∀ s, scan_rows s (mjoin (pool_text <$> ps)) = Ok (mjoin (pool_tree <$> ps))); [|apply Hgo].
  induction H as [|p ps Hp _ IH]; intros s; rewrite ?fmap_cons, ?mjoin_cons; [done|].
  destruct (scan_pool s p (mjoin (pool_text <$> ps)) Hp) as (c' & k' & ->). by rewrite IH.
Qed.
Lemma pool_members_spec out ms d p : parse_pool_vdevs out = Ok ms →
  parse_pool_members out !! d = Some p → ∃ m, m ∈ ms ∧ pm_is_leaf m = true ∧ starts_with "/" d = true ∧ pm_name m = d ∧ pm_pool m = p.
Proof.
  intros E. unfold parse_pool_members. rewrite E. intros H%elem_of_list_to_map_2. apply elem_of_reverse, list_elem_of_fmap in H as (m & [= -> ->] & Hm).
  apply list_elem_of_filter in Hm as [Hf Hm]. apply andb_True in Hf as [H1 H2]. exists m. split_and!; [done|by apply Is_true_true|by apply Is_true_true|done|done].
Qed.
Lemma pool_members_total out ms m : parse_pool_vdevs out = Ok ms → m ∈ ms → pm_is_leaf m = true → starts_with "/" (pm_name m) = true →
  is_Some (parse_pool_members out !! pm_name m).
Proof.
  intros E Hm Hl Hs. apply not_eq_None_Some. unfold parse_pool_members. rewrite E. intros H%not_elem_of_list_to_map. apply H. clear H.
  apply list_elem_of_fmap. exists (pm_name m, pm_pool m). split; [done|]. apply elem_of_reverse, list_elem_of_fmap. exists m. split; [done|].
  apply list_elem_of_filter. split; [|done]. by rewrite Hl, Hs.
Qed.

(** The vdev tree of every pool is recovered from a listing that has no
    indentation. For any pools with any data vdevs and log, cache, spare, special
    and dedup sections, printed as zpool prints them (mirrors and raidz groups with
    their numbers, the devices inside with a dash), the parser gives exactly the
    rows of the trees in order, each device with its own pool, class and group; and
    the map the pages look devices up in holds every device path, each under a pool
    that has it. *)
Lemma pool_tree_recovered ps :
  Forall vpool_ok ps →
  parse_pool_vdevs (vdev_list ps) = Ok (mjoin (pool_tree <$> ps)) ∧
  (∀ d, is_Some (parse_pool_members (vdev_list ps) !! d) ↔
    starts_with "/" d = true ∧ ∃ p m, p ∈ ps ∧ m ∈ pool_tree p ∧ pm_is_leaf m = true ∧ pm_name m = d) ∧
  (∀ d name, parse_pool_members (vdev_list ps) !! d = Some name → ∃ p m, p ∈ ps ∧ m ∈ pool_tree p ∧ pm_name m = d ∧ pm_pool m = name).
Proof.
  intros H. pose proof (parse_vdev_list ps H) as E. split; [exact E|].
  assert (Hin : ∀ m, m ∈ mjoin (pool_tree <$> ps) ↔ ∃ p, p ∈ ps ∧ m ∈ pool_tree p).
  { intros m. rewrite list_elem_of_join. split.
    - intros (l & Hm & (p & -> & Hp)%list_elem_of_fmap). by exists p.
    - intros (p & Hp & Hm). exists (pool_tree p). split; [done|]. apply list_elem_of_fmap. by exists p. }
  split.
  - intros d. split.
    + intros [p Hp]. destruct (pool_members_spec _ _ _ _ E Hp) as (m & Hm & Hl & Hs & Hn & _). apply Hin in Hm as (q & Hq & Hm).
      split; [done|]. by exists q, m.
    + intros (Hs & p & m & Hp & Hm & Hl & <-). eapply pool_members_total; [exact E| |done|done]. apply Hin. by exists p.
  - intros d name Hp. destruct (pool_members_spec _ _ _ _ E Hp) as (m & Hm & Hl & Hs & Hn & Hpool). apply Hin in Hm as (q & Hq & Hm). by exists q, m.
Qed.

(** The listings of pools, datasets and snapshots read back. *)
Lemma zfs_listings_read_back pl dl sl unmounted :
  Forall pool_ok pl → Forall dataset_ok dl → Forall snapshot_ok sl → unmounted ≠ "yes" → field_ok unmounted →
  parse_zpool_list (text_of (print_pool <$> pl)) = Ok pl ∧
  parse_zfs_list (text_of (print_dataset unmounted <$> dl)) = Ok dl ∧
  parse_snapshot_list (text_of (print_snapshot <$> sl)) = Ok sl.
Proof.
  intros Hp Hd Hs Hu Hf. split_and!; eapply listing_round_trip; try eassumption.
  - apply pool_row_print.
  - intros d. by apply dataset_row_print.
  - apply snapshot_row_print.
Qed.

Definition demo_vdevs : vpool :=
  let row name alloc := {| vr_name := name; vr_size := parse_uint 64 "100"; vr_alloc := alloc; vr_free := "-"; vr_frag := "-"; vr_health := Some "ONLINE" |} in
  {| vp_name := "tank"; vp_columns := "100"; vp_data := [VGroup (row "mirror-0" (parse_uint 64 "5")) [row "/dev/sda" None; row "/dev/sdb" None];
                                                         VLeaf (row "/dev/sdc" (parse_uint 64 "7"))];
     vp_sections := [{| vs_class := Spare; vs_pad := "   -"; vs_vdevs := [VLeaf (row "/dev/sdd" None)] |}] |}.
Lemma demo_vdevs_ok : vpool_ok demo_vdevs.
Proof.
  unfold vpool_ok, demo_vdevs, vdevs_ok, section_ok. cbn [vp_name vp_columns vp_data vp_sections]. split_and!; try done.
  - repeat constructor; try done; by eexists.
  - left. repeat constructor. by eexists.
  - constructor; [|constructor]. cbn [vs_class vs_pad vs_vdevs]. split_and!; try done.
    + by repeat constructor.
    + right. by eexists.
Qed.
Lemma pool_tree_recovered_witness :
  parse_pool_vdevs (vdev_list [demo_vdevs]) = Ok (mjoin (pool_tree <$> [demo_vdevs])) ∧
  (pm_parent <$> mjoin (pool_tree <$> [demo_vdevs])) = [None; Some "mirror-0"; Some "mirror-0"; None; None].
Proof.
  split; [|vm_compute; reflexivity]. apply (pool_tree_recovered [demo_vdevs]). constructor; [apply demo_vdevs_ok|constructor].
Defined.
