(* ===== verification/Dots.v ===== *)
(** * The green dot (greendot-web/src/dot.rs)

    The health of an export, derived from its definition, the state the kernel
    reports and the RDMA devices, and the checklists of the Diagnose pages. An
    export's [nqn()]/[iqn()] panics on a name that forms none. *)
From Stdlib Require Import Ascii String.
From stdpp Require Import base option list strings sets gmap pretty.
From S2P Require Import Prelude Ordered Validate IpAddr Types Wire Ops Desired Actual Render Fs PipeKeys.
#[local] Open Scope string_scope.
#[local] Open Scope list_scope.

Inductive DotState : Type := Green | Yellow | Red.
#[export] Instance DotState_eq_dec : EqDecision DotState.
Proof. solve_decision. Defined.
Record Dot : Type := { dot_state : DotState; dot_reason : string }.
Definition red (reason : string) : Dot := {| dot_state := Red; dot_reason := reason |}.
Definition yellow (reason : string) : Dot := {| dot_state := Yellow; dot_reason := reason |}.
Definition green (reason : string) : Dot := {| dot_state := Green; dot_reason := reason |}.
Definition dashed (a b : string) : string := a +:+ " " +:+ em_dash +:+ " " +:+ b.

(** ** NVMe-oF *)

Definition links (nqn : string) (p : Port) : bool := existsb (λ s, bool_decide (s = nqn)) (ap_subsystems p).
Definition is_rdma (p : Port) : bool := bool_decide (ap_trtype p = "rdma").
Definition linked_ports (nqn : string) (a : ActualNvmet) : list Port := List.filter (links nqn) (an_ports a).
Definition find_subsys (nqn : string) (a : ActualNvmet) : option Subsys :=
  List.find (λ s, bool_decide (as_nqn s = nqn)) (an_subsystems a).
Definition rdma_on (p : Port) : Dot := green ("serving via RDMA on " +:+ ap_traddr p +:+ ":" +:+ ap_trsvcid p).
Definition nvme_port_dot (e : NvmeExport) (linked : list Port) (rdma : list RdmaDev) : Dot :=
  let rdma_linked := List.filter is_rdma linked in
  let other := List.filter (λ p, negb (is_rdma p)) linked in
  match List.find (λ p, addr_served_by_rdma (ap_traddr p) rdma) rdma_linked with
  | Some port => rdma_on port
  | None =>
      let rdma_problem :=
        match nvme_want_rdma e, rdma_linked with
        | false, _ => "RDMA not requested for this export"
        | true, [] => "RDMA requested but subsystem not linked to an RDMA port"
        | true, p :: _ => "no RDMA device backs listen address " +:+ ap_traddr p
        end in
      match other with
      | [] => red (dashed "no port serves this subsystem" rdma_problem)
      | _ => yellow (dashed ("serving via " +:+ join "/" (ap_trtype <$> other) +:+ " only") rdma_problem)
      end
  end.
Definition nvme_dot (e : NvmeExport) (a : ActualNvmet) (rdma : list RdmaDev) : panics Dot :=
  match nvme_last_error e with
  | Some error => Ok (red ("reconcile failed: " +:+ error))
  | None =>
      match nvme_render_error e with
      | Some reason => Ok (red reason)
      | None =>
          nqn ← nvme_nqn e;
          Ok match find_subsys (as_str nqn) a with
             | None => red "subsystem not configured (reconcile pending?)"
             | Some s =>
                 match find_ns ans_nsid (as_namespaces s) with
                 | None => red "namespace missing"
                 | Some ns =>
                     if negb (bool_decide (ans_device_path ns = nvme_device_path e)) then
                       red ("namespace backed by wrong device " +:+ debug_str (ans_device_path ns))
                     else if negb (ans_enabled ns) then red "namespace disabled"
                     else nvme_port_dot e (linked_ports (as_str nqn) a) rdma
                 end
             end
      end
  end.
Definition external_nvme_dot (nqn : string) (a : ActualNvmet) (rdma : list RdmaDev) : Dot :=
  let linked := linked_ports nqn a in
  match List.find (λ p, addr_served_by_rdma (ap_traddr p) rdma) (List.filter is_rdma linked) with
  | Some port => rdma_on port
  | None =>
      match linked with
      | [] => red "present but no port serves this subsystem"
      | _ =>
          yellow match List.find is_rdma linked with
                 | Some p => "no RDMA device backs RDMA port " +:+ ap_traddr p
                 | None => dashed ("serving via " +:+ join "/" (ap_trtype <$> linked) +:+ " only") "no RDMA port"
                 end
      end
  end.

(** ** iSCSI *)

(** [trim_start_matches], [trim_end_matches]: every leading, trailing one. *)
Fixpoint trim_start_char (c : ascii) (s : string) : string :=
  match s with
  | String a r => if Ascii.eqb a c then trim_start_char c r else s
  | EmptyString => EmptyString
  end.
Fixpoint trim_end_char (c : ascii) (s : string) : string :=
  match s with
  | String a r =>
      let r' := trim_end_char c r in
      if Ascii.eqb a c && is_empty r' then EmptyString else String a r'
  | EmptyString => EmptyString
  end.
(** [Portal::addr]. *)
Definition portal_host (p : Portal) : string :=
  let addr := match rsplit_once ":" (apo_addr_port p) with Some (a, _) => a | None => apo_addr_port p end in
  trim_end_char "]" (trim_start_char "[" addr).
Definition iser_served (rdma : list RdmaDev) (p : Portal) : bool := apo_iser p && addr_served_by_rdma (portal_host p) rdma.
Definition iser_on (p : Portal) : Dot := green ("serving via iSER (RDMA) on " +:+ apo_addr_port p).
Definition iscsi_portal_dot (e : IscsiExport) (portals : list Portal) (rdma : list RdmaDev) : Dot :=
  match List.find (iser_served rdma) portals with
  | Some portal => iser_on portal
  | None =>
      let rdma_problem :=
        match iscsi_want_rdma e, List.filter apo_iser portals with
        | false, _ => "RDMA (iSER) not requested for this export"
        | true, [] => "RDMA requested but no iSER portal exists"
        | true, p :: _ => "no RDMA device backs iSER portal " +:+ apo_addr_port p
        end in
      if existsb (λ p, negb (apo_iser p)) portals then yellow (dashed "serving via plain iSCSI/TCP" rdma_problem)
      else red (dashed "no usable portal" rdma_problem)
  end.
Definition find_backstore (name : string) (a : ActualLio) : option Backstore :=
  List.find (λ b, bool_decide (ab_name b = name)) (al_backstores a).
Definition find_target (iqn : string) (a : ActualLio) : option Actual.Target :=
  List.find (λ t, bool_decide (at_iqn t = iqn)) (al_targets a).
Definition maps_lun (name : string) (t : Actual.Target) : bool := existsb (λ l, bool_decide (l = name)) (at_luns t).
Definition iscsi_dot (e : IscsiExport) (a : ActualLio) (rdma : list RdmaDev) : panics Dot :=
  match iscsi_last_error e with
  | Some error => Ok (red ("reconcile failed: " +:+ error))
  | None =>
      match iscsi_render_error e with
      | Some reason => Ok (red reason)
      | None =>
          iqn ← iscsi_iqn e;
          Ok match find_backstore (iscsi_name e) a with
             | None => red "backstore not configured (reconcile pending?)"
             | Some b =>
                 if negb (bool_decide (ab_udev_path b = iscsi_device_path e)) then
                   red ("backstore backed by wrong device " +:+ debug_str (ab_udev_path b))
                 else if negb (ab_enabled b) then red "backstore disabled"
                 else
                   match find_target (as_str iqn) a with
                   | None => red "iSCSI target missing"
                   | Some t =>
                       if negb (at_enabled t) then red "target portal group disabled"
                       else if negb (maps_lun (iscsi_name e) t) then red "LUN not mapped"
                       else iscsi_portal_dot e (at_portals t) rdma
                   end
             end
      end
  end.
Definition external_iscsi_dot (t : Actual.Target) (rdma : list RdmaDev) : Dot :=
  match List.find (iser_served rdma) (at_portals t) with
  | Some portal => iser_on portal
  | None =>
      match at_portals t with
      | [] => red "present but no portal serves this target"
      | _ =>
          yellow match List.find apo_iser (at_portals t) with
                 | Some p => "no RDMA device backs iSER portal " +:+ apo_addr_port p
                 | None => dashed "serving via plain iSCSI/TCP only" "no iSER portal"
                 end
      end
  end.

(** ** NFS *)

Definition nfs_on (listen : IpAddr) (port : u16) : Dot :=
  green ("serving via NFSoRDMA on " +:+ show_ip listen +:+ ":" +:+ show_uint port).
Definition nfs_dot (e : NfsExport) (a : ActualNfs) (rdma : list RdmaDev) (listen : IpAddr) : Dot :=
  match nfs_last_error e with
  | Some error => red ("reconcile failed: " +:+ error)
  | None =>
      match nfs_render_error e with
      | Some reason => red reason
      | None =>
          if negb (exported a (nfs_path e)) then red "not exported (reconcile pending?)"
          else
            match anf_rdma_port a with
            | None => yellow (dashed "exported over TCP only" "NFSoRDMA transport not active")
            | Some port =>
                if negb (addr_served_by_rdma (show_ip listen) rdma) then
                  yellow ("NFSoRDMA enabled but no RDMA device backs listen address " +:+ show_ip listen)
                else nfs_on listen port
            end
      end
  end.
Definition external_nfs_dot (a : ActualNfs) (rdma : list RdmaDev) (listen : IpAddr) : Dot :=
  match anf_rdma_port a with
  | Some port =>
      if addr_served_by_rdma (show_ip listen) rdma then nfs_on listen port
      else yellow ("NFSoRDMA listener active but no RDMA device backs " +:+ show_ip listen)
  | None => yellow (dashed "exported over TCP only" "no NFSoRDMA listener")
  end.

(** ** Checklists *)

Record Criterion : Type := { cr_label : string; cr_ok : bool; cr_detail : string }.
Definition crit (label : string) (ok : bool) (detail : string) : Criterion :=
  {| cr_label := label; cr_ok := ok; cr_detail := detail |}.
Definition validity_criterion (render_error : option string) : Criterion :=
  crit "Export definition is valid" (bool_decide (render_error = None)) (default "validated" render_error).
Definition some (l : list string) : bool := match l with [] => false | _ => true end.
Definition listed (none : string) (l : list string) : string := match l with [] => none | _ => join ", " l end.
Definition rdma_device_criteria (rdma : list RdmaDev) (capable_disabled : list string) : list Criterion :=
  let active := rd_name <$> List.filter rd_active rdma in
  let netdevs := omap (λ d, (λ nd, rd_name d +:+ right_arrow +:+ nd) <$> rd_netdev d) rdma in
  let addrs := mjoin ((λ d, show_ip <$> rd_addrs d) <$> rdma) in
  [ crit "RDMA device present" (some (rd_name <$> rdma))
      match rdma with
      | [] => match capable_disabled with
              | [] => "none under /sys/class/infiniband"
              | _ => dashed "none under /sys/class/infiniband"
                       ("but " +:+ join ", " capable_disabled +:+ " is RoCE-capable with RoCE disabled; enable it in Settings")
              end
      | _ => join ", " (rd_name <$> rdma)
      end;
    crit "An RDMA port is ACTIVE" (some active) (listed "all ports down" active);
    crit "Device bound to a netdev" (some netdevs) (listed "no backing netdev" netdevs);
    crit "Backing netdev has a usable IP" (some addrs) (listed "no non-loopback IP on any RDMA netdev" addrs) ].
Definition want_criterion (label : string) (want : bool) : Criterion :=
  crit label want (if want then "transport flag set" else "export does not request RDMA").
Definition served_criterion (label : string) (rdma : list RdmaDev) (addr : option string) (none : string) : Criterion :=
  match addr with
  | Some a =>
      let served := addr_served_by_rdma a rdma in
      crit label served (if served then "RDMA backs " +:+ a else "no RDMA device backs " +:+ a)
  | None => crit label false none
  end.
Definition nvme_diagnostics (e : NvmeExport) (a : ActualNvmet) (rdma : list RdmaDev) (capable_disabled : list string) :
    panics (list Criterion) :=
  nqn ← nvme_nqn e;
  let subsys := find_subsys (as_str nqn) a in
  let ns := subsys ≫= λ s, find_ns ans_nsid (as_namespaces s) in
  let rdma_ports := List.filter (λ p, is_rdma p && links (as_str nqn) p) (an_ports a) in
  let listen := head rdma_ports in
  Ok ([ validity_criterion (nvme_render_error e);
        want_criterion "RDMA requested for this export" (nvme_want_rdma e);
        crit "Subsystem configured in nvmet" match subsys with Some _ => true | None => false end
          match subsys with
          | Some _ => as_str nqn
          | None => as_str nqn +:+ " not present (reconcile pending?)"
          end;
        crit "Namespace enabled on the right device"
          match ns with
          | Some n => ans_enabled n && bool_decide (ans_device_path n = nvme_device_path e)
          | None => false
          end
          match ns with
          | None => "namespace 1 missing"
          | Some n =>
              if negb (bool_decide (ans_device_path n = nvme_device_path e)) then "wrong device " +:+ debug_str (ans_device_path n)
              else if negb (ans_enabled n) then "namespace disabled"
              else nvme_device_path e
          end;
        crit "Linked to an RDMA port" match rdma_ports with [] => false | _ => true end
          match listen with
          | Some p => ap_traddr p +:+ ":" +:+ ap_trsvcid p
          | None => "subsystem not linked to any rdma-trtype port"
          end ]
      ++ rdma_device_criteria rdma capable_disabled
      ++ [served_criterion "Listen address served by RDMA" rdma (ap_traddr <$> listen) "no RDMA listen address"]).
Definition iscsi_diagnostics (e : IscsiExport) (a : ActualLio) (rdma : list RdmaDev) (capable_disabled : list string) :
    panics (list Criterion) :=
  iqn ← iscsi_iqn e;
  let backstore := find_backstore (iscsi_name e) a in
  let target := find_target (as_str iqn) a in
  let iser_portals := match target with Some t => List.filter apo_iser (at_portals t) | None => [] end in
  let portal := head iser_portals in
  let lun_mapped := match target with Some t => maps_lun (iscsi_name e) t | None => false end in
  Ok ([ validity_criterion (iscsi_render_error e);
        want_criterion "RDMA (iSER) requested for this export" (iscsi_want_rdma e);
        crit "Backstore configured on the right device"
          match backstore with
          | Some b => ab_enabled b && bool_decide (ab_udev_path b = iscsi_device_path e)
          | None => false
          end
          match backstore with
          | None => "backstore not present (reconcile pending?)"
          | Some b =>
              if negb (bool_decide (ab_udev_path b = iscsi_device_path e)) then "wrong device " +:+ debug_str (ab_udev_path b)
              else if negb (ab_enabled b) then "backstore disabled"
              else iscsi_device_path e
          end;
        crit "Target portal group enabled" match target with Some t => at_enabled t | None => false end
          match target with
          | None => "iSCSI target missing"
          | Some t => if negb (at_enabled t) then "TPG disabled" else as_str iqn
          end;
        crit "LUN mapped" lun_mapped
          (if lun_mapped then "lun " +:+ right_arrow +:+ " " +:+ iscsi_name e else "backstore not mapped as a LUN");
        crit "iSER portal exists" match iser_portals with [] => false | _ => true end
          match portal with Some p => apo_addr_port p | None => "no iSER-enabled portal" end ]
      ++ rdma_device_criteria rdma capable_disabled
      ++ [served_criterion "Portal address served by RDMA" rdma (portal_host <$> portal) "no iSER portal address"]).
Definition nfs_diagnostics (e : NfsExport) (a : ActualNfs) (rdma : list RdmaDev) (capable_disabled : list string)
    (listen : IpAddr) : list Criterion :=
  let ex := exported a (nfs_path e) in
  [ validity_criterion (nfs_render_error e);
    crit "Path exported by nfsd" ex (if ex then nfs_path e else "not in the export table (reconcile pending?)") ]
  ++ rdma_device_criteria rdma capable_disabled
  ++ [ crit "nfsd RDMA listener active" match anf_rdma_port a with Some _ => true | None => false end
         match anf_rdma_port a with
         | Some p => "rdma " +:+ show_uint p +:+ " in /proc/fs/nfsd/portlist"
         | None => dashed "no rdma line in portlist" "serving TCP only"
         end;
       served_criterion "Listen address served by RDMA" rdma (Some (show_ip listen)) "" ].
Definition nic_diagnostics (n : NicStatus) (advice : option (string * string)) : list Criterion :=
  let rdma := match nst_rdma n with Some _ => true | None => false end in
  [ crit "RDMA device backs this interface" rdma
      (default "no RDMA device under /sys/class/infiniband for this interface" (nst_rdma n));
    crit "An RDMA port is ACTIVE" match nst_kind n with Active => true | _ => false end
      match nst_kind n with
      | Active => "port ACTIVE"
      | Inactive => "RDMA device present but all ports down"
      | _ => "no RDMA device"
      end;
    crit "Interface has a usable IP" match nst_addrs n with [] => false | _ => true end
      (listed "no non-loopback IP on this interface" (show_ip <$> nst_addrs n)) ]
  ++ match advice with Some (label, detail) => [crit label rdma detail] | None => [] end.
(** The trust path of the SSH pipe. *)
Definition pipe_access_criteria (r : PipeAccessReportReply) : list Criterion :=
  let shells := pe_fingerprint <$> List.filter (λ k, negb (pe_forced_command_ok k)) (pr_keys r) in
  [ crit ("The " +:+ pr_user r +:+ " user exists") (pr_user_exists r)
      (if pr_user_exists r then pr_user r +:+ " is a system user"
       else dashed "no such user" ("reinstall the package to create " +:+ pr_user r));
    crit (pr_user r +:+ " is in the " +:+ pr_socket_group r +:+ " group") (pr_in_socket_group r)
      (if pr_in_socket_group r then "the helper socket admits " +:+ pr_socket_group r
       else dashed "sshd would run the forced command, then the helper socket would reject it"
              ("add " +:+ pr_user r +:+ " to " +:+ pr_socket_group r));
    crit "Its home directory passes sshd's checks" (pr_home r).1 (pr_home r).2;
    crit "~/.ssh passes sshd's checks" (pr_ssh_dir r).1 (pr_ssh_dir r).2;
    crit "authorized_keys passes sshd's checks" (pr_authorized_keys r).1 (pr_authorized_keys r).2;
    crit "The forced command exists" (pr_forced_command_bin_ok r)
      (if pr_forced_command_bin_ok r then pr_forced_command r
       else pr_forced_command r +:+ " is not an executable file");
    crit "Every authorized key is restricted to the pipe" (negb (some shells))
      match shells with
      | [] => match pr_keys r with
              | [] => "no keys authorized yet"
              | _ => "all " +:+ pretty (length (pr_keys r)) +:+ " keys carry the forced command"
              end
      | _ => "these keys get a full shell, not the pipe: " +:+ join ", " shells
      end;
    crit "Every line in authorized_keys is readable" (bool_decide (raw (pr_unparsable_lines r) = 0%N))
      (if bool_decide (raw (pr_unparsable_lines r) = 0%N) then "no unrecognized lines"
       else show_uint (pr_unparsable_lines r) +:+ " line(s) could not be parsed; their options are unverified") ].
