(* ===== verification/DotsFacts.v ===== *)
(** * What a dot and its checklist say

    The dots agree with the drift predicates of the daemon (an export of a state
    with no drift is never red for want of configuration, and without an error on
    record its colour is what its record and the hardware determine), and the checklists of the Diagnose
    pages explain them. *)
From Stdlib Require Import Ascii String.
From stdpp Require Import base option list strings sets gmap pretty.
From S2P Require Import Prelude Ordered Validate IpAddr Types Wire Ops Desired Actual Render RenderFacts Nic Dots.
#[local] Open Scope string_scope.
#[local] Open Scope list_scope.

(** ** Finding in lists *)

Lemma find_none {A} (p : A → bool) l : List.find p l = None ↔ ∀ x, x ∈ l → p x = false.
Proof.
  split.
  - intros H x Hx. by apply (List.find_none _ _ H), list_elem_of_In.
  - intros H. destruct (List.find p l) as [x|] eqn:E; [|done]. apply find_Some_elem in E as [Hx Hp]. by rewrite H in Hp.
Qed.
Lemma find_is_Some {A} (p : A → bool) l : is_Some (List.find p l) ↔ ∃ x, x ∈ l ∧ p x = true.
Proof.
  split.
  - intros [x [H1 H2]%find_Some_elem]. by exists x.
  - intros (x & Hx & Hp). apply not_eq_None_Some. rewrite find_none. intros H. by rewrite H in Hp.
Qed.
Lemma elem_of_filter_bool {A} (p : A → bool) l x : x ∈ List.filter p l ↔ x ∈ l ∧ p x = true.
Proof. rewrite !list_elem_of_In, List.filter_In. done. Qed.
Lemma filter_nil_bool {A} (p : A → bool) l : List.filter p l = [] ↔ ∀ x, x ∈ l → p x = false.
Proof.
  split.
  - intros H x Hx. destruct (p x) eqn:E; [|done]. exfalso.
    assert (Hin : x ∈ List.filter p l) by by apply elem_of_filter_bool. rewrite H in Hin. by apply elem_of_nil in Hin.
  - intros H. destruct (List.filter p l) as [|x r] eqn:E; [done|].
    assert (Hin : x ∈ List.filter p l) by (rewrite E; by left). apply elem_of_filter_bool in Hin as [Hx Hp]. by rewrite H in Hp.
Qed.
Lemma existsb_spec {A} (p : A → bool) l : existsb p l = true ↔ ∃ x, x ∈ l ∧ p x = true.
Proof. rewrite List.existsb_exists. by setoid_rewrite <- list_elem_of_In. Qed.
Lemma links_spec nqn p : links nqn p = true ↔ nqn ∈ ap_subsystems p.
Proof.
  unfold links. rewrite existsb_spec. setoid_rewrite bool_decide_eq_true. split; [by intros (x & Hx & <-)|eauto].
Qed.

(** ** The last step of a dot *)

Definition state_of (served other : bool) : DotState := if served then Green else if other then Yellow else Red.
Lemma nvme_port_state e linked rdma (served other : bool) :
  (Is_true served ↔ ∃ p, p ∈ linked ∧ ap_trtype p = "rdma" ∧ addr_served_by_rdma (ap_traddr p) rdma = true) →
  (Is_true other ↔ ∃ p, p ∈ linked ∧ ap_trtype p ≠ "rdma") →
  dot_state (nvme_port_dot e linked rdma) = state_of served other.
Proof.
  intros Hs Ho. unfold nvme_port_dot.
  destruct (List.find (λ p, addr_served_by_rdma (ap_traddr p) rdma) (List.filter is_rdma linked)) as [p|] eqn:E.
  - apply find_Some_elem in E as [[Hp Hr]%elem_of_filter_bool Ha]. apply bool_decide_eq_true in Hr.
    assert (Hg : Is_true served) by (apply Hs; by exists p). by destruct served.
  - assert (served = false) as ->.
    { apply not_true_iff_false. intros H%Is_true_true. apply Hs in H as (p & Hp & Hr & Ha). rewrite find_none in E.
      rewrite E in Ha; [done|]. apply elem_of_filter_bool. split; [done|]. by apply bool_decide_eq_true. }
    destruct (List.filter (λ p, negb (is_rdma p)) linked) as [|p r] eqn:F.
    + assert (other = false) as ->; [|done]. apply not_true_iff_false. intros H%Is_true_true.
      apply Ho in H as (q & Hq & Hr). rewrite filter_nil_bool in F. specialize (F q Hq). apply negb_false_iff, bool_decide_eq_true in F. done.
    + assert (Hin : p ∈ List.filter (λ p, negb (is_rdma p)) linked) by (rewrite F; by left).
      apply elem_of_filter_bool in Hin as [Hp Hr]. apply negb_true_iff, bool_decide_eq_false in Hr.
      assert (Hg : Is_true other) by (apply Ho; by exists p). by destruct other.
Qed.
Lemma iscsi_portal_state e portals rdma (served other : bool) :
  (Is_true served ↔ ∃ p, p ∈ portals ∧ apo_iser p = true ∧ addr_served_by_rdma (portal_host p) rdma = true) →
  (Is_true other ↔ ∃ p, p ∈ portals ∧ apo_iser p = false) →
  dot_state (iscsi_portal_dot e portals rdma) = state_of served other.
Proof.
  intros Hs Ho. unfold iscsi_portal_dot. destruct (List.find (iser_served rdma) portals) as [p|] eqn:E.
  - apply find_Some_elem in E as [Hp [Hr Ha]%andb_true_iff].
    assert (Hg : Is_true served) by (apply Hs; by exists p). by destruct served.
  - assert (served = false) as ->.
    { apply not_true_iff_false. intros H%Is_true_true. apply Hs in H as (p & Hp & Hr & Ha). rewrite find_none in E.
      specialize (E p Hp). unfold iser_served in E. by rewrite Hr, Ha in E. }
    assert (existsb (λ p, negb (apo_iser p)) portals = other) as ->; [|by destruct other].
    apply eq_true_iff_eq. rewrite existsb_spec, <- Is_true_true, Ho. by setoid_rewrite negb_true_iff.
Qed.

(** ** A state without drift: NVMe-oF *)

Section nvmet.
Context (nvme : list NvmeExport) (dflt : IpAddr) (pci : gmap string (list IpAddr)) (reserved : gset u16)
        (d : NvmetDesired) (a : ActualNvmet).
Hypothesis Hrender : render_nvmet nvme dflt pci reserved = Ok d.
Hypothesis Hsat : nvmet_satisfied d a = true.
(** Ports are directories named by their id. *)
Hypothesis Hids : NoDup (ap_id <$> an_ports a).

Lemma satisfied_parts :
  (∀ ds, ds ∈ nd_subsystems d → subsys_satisfied ds a = true) ∧
  (∀ id, id ∈ port_id <$> nd_ports d ∨ id ∈ ap_id <$> an_ports a → port_satisfied d a id = true).
Proof.
  unfold nvmet_satisfied in Hsat. apply andb_true_iff in Hsat as [[_ H1]%andb_true_iff H2].
  rewrite List.forallb_forall in H1, H2. split.
  - intros ds Hds. by apply H1, list_elem_of_In.
  - intros id Hid. apply H2, list_elem_of_In. rewrite elem_of_elements, elem_of_list_to_set, elem_of_app. done.
Qed.
Lemma find_aport_elem p : p ∈ an_ports a → find_aport (ap_id p) a = Some p.
Proof.
  intros Hp. destruct (find_aport (ap_id p) a) as [q|] eqn:E.
  - apply find_Some_elem in E as [Hq Hid%bool_decide_eq_true]. f_equal.
    apply list_elem_of_lookup in Hp as [i Hi], Hq as [j Hj].
    assert (i = j) as ->; [|congruence]. eapply (NoDup_lookup _ _ _ (ap_id p) Hids).
    + by rewrite list_lookup_fmap, Hi.
    + rewrite list_lookup_fmap, Hj. cbn. by f_equal.
  - unfold find_aport in E. rewrite find_none in E. specialize (E p Hp). by rewrite bool_decide_eq_true_2 in E.
Qed.
Lemma find_dport_elem q : q ∈ nd_ports d → find_dport (port_id q) d = Some q.
Proof.
  intros Hq. destruct (render_nvmet_inv _ _ _ _ _ Hrender) as (named & _ & (_ & _ & Hsorted & _)%assign_ids_Ok & _).
  apply sorted_lt_NoDup in Hsorted. destruct (find_dport (port_id q) d) as [r|] eqn:E.
  - apply find_Some_elem in E as [Hr Hid%bool_decide_eq_true]. f_equal.
    apply list_elem_of_lookup in Hq as [i Hi], Hr as [j Hj].
    assert (i = j) as ->; [|congruence]. eapply (NoDup_lookup _ _ _ (raw (port_id q)) Hsorted).
    + by rewrite list_lookup_fmap, Hi.
    + rewrite list_lookup_fmap, Hj. cbn. by rewrite Hid.
  - unfold find_dport in E. rewrite find_none in E. specialize (E q Hq). by rewrite bool_decide_eq_true_2 in E.
Qed.
Lemma port_agrees q p : find_dport (ap_id p) d = Some q → find_aport (ap_id p) a = Some p → port_satisfied d a (ap_id p) = true →
  ap_trtype p = trtype_str (port_trtype q) ∧ (port_trtype q ≠ Loop → ap_traddr p = show_ip (port_traddr q)).
Proof.
  intros Hq Hp H. unfold port_satisfied in H. rewrite Hq, Hp in H.
  apply andb_true_iff in H as [_ [H1%bool_decide_eq_true H2]%andb_true_iff]. split; [done|]. intros Hl.
  rewrite bool_decide_eq_false_2 in H2 by done. by apply bool_decide_eq_true in H2.
Qed.
(** A port the kernel links our NQN at is one the rendering asks for, and the other
    way round. *)
Lemma linked_iff n trtype traddr : ours (as_str n) →
  (∃ p, p ∈ linked_ports (as_str n) a ∧ ap_trtype p = trtype ∧ (trtype = "loop" ∨ ap_traddr p = traddr)) ↔
  (∃ q, q ∈ nd_ports d ∧ n ∈ port_subsystems q ∧ trtype_str (port_trtype q) = trtype ∧ (trtype = "loop" ∨ show_ip (port_traddr q) = traddr)).
Proof.
  intros Hours. pose proof satisfied_parts as [_ Hport]. split.
  - intros (p & [Hp Hl%links_spec]%elem_of_filter_bool & <- & Haddr). specialize (Hport (ap_id p)) as Hs.
    rewrite list_elem_of_fmap in Hs. specialize (Hs ltac:(right; apply list_elem_of_fmap; eauto)).
    pose proof (find_aport_elem p Hp) as Ha. pose proof Hs as Hs'. unfold port_satisfied in Hs. rewrite Ha in Hs. apply andb_true_iff in Hs as [Hw%bool_decide_eq_true _].
    assert (Hn : as_str n ∈ want_links (find_dport (ap_id p) d)).
    { rewrite Hw. cbn. apply elem_of_list_to_set, list_elem_of_filter. done. }
    destruct (find_dport (ap_id p) d) as [q|] eqn:Eq; [|by apply elem_of_empty in Hn].
    destruct (port_agrees q p Eq Ha Hs') as [Ht Hd]. apply find_Some_elem in Eq as [Hq _].
    cbn in Hn. apply elem_of_list_to_set, list_elem_of_fmap in Hn as (n' & Hn' & Hin).
    assert (n = n') as <- by (by apply raw_inj). exists q. split_and!; [done|done|done|].
    destruct Haddr as [?|<-]; [by left|]. destruct (decide (port_trtype q = Loop)) as [E|E]; [left; by rewrite Ht, E|right; by rewrite Hd].
  - intros (q & Hq & Hn & <- & Haddr). specialize (Hport (port_id q) ltac:(left; apply list_elem_of_fmap; eauto)) as Hs.
    pose proof (find_dport_elem q Hq) as Hd. pose proof Hs as Hs'. unfold port_satisfied in Hs. rewrite Hd in Hs. apply andb_true_iff in Hs as [Hw%bool_decide_eq_true _].
    assert (Hl : as_str n ∈ have_links (find_aport (port_id q) a)).
    { rewrite <- Hw. cbn. apply elem_of_list_to_set, list_elem_of_fmap. by exists n. }
    destruct (find_aport (port_id q) a) as [p|] eqn:Ep; [|by apply elem_of_empty in Hl].
    pose proof Ep as [Hp Hid%bool_decide_eq_true]%find_Some_elem. rewrite <- Hid in Hd, Ep, Hs'.
    destruct (port_agrees q p Hd Ep Hs') as [Ht Hdr].
    cbn in Hl. apply elem_of_list_to_set, list_elem_of_filter in Hl as [_ Hl]. exists p. split; [|split; [done|]].
    + apply elem_of_filter_bool. split; [done|]. by apply links_spec.
    + destruct Haddr as [?|<-]; [by left|]. destruct (decide (port_trtype q = Loop)) as [E|E]; [left; by rewrite E|right; by rewrite Hdr].
Qed.
(** What the export of [n] is linked at. *)
Lemma linked_transport e n t ad : e ∈ nvmet_enabled nvme → nvme_nqn e = Ok n → (t = Loop → ad = dflt) →
  (∀ e', e' ∈ nvmet_enabled nvme → nvme_nqn e' = Ok n → e' = e) →
  (∃ q, q ∈ nd_ports d ∧ port_key q = (t, ad) ∧ n ∈ port_subsystems q) ↔ reachable_at dflt pci e t ad.
Proof.
  intros He Hn Hl Huniq. destruct (render_nvmet_links _ _ _ _ _ Hrender) as (_ & H & _). rewrite (H t ad n Hl). split.
  - intros (e' & He' & Hn' & Hr). by rewrite <- (Huniq e').
  - intros Hr. by exists e.
Qed.
Lemma loop_port_default q n : q ∈ nd_ports d → n ∈ port_subsystems q → port_trtype q = Loop → port_traddr q = dflt.
Proof.
  intros Hq Hn Ht. destruct (render_nvmet_inv _ _ _ _ _ Hrender) as (named & _ & Hids' & _).
  destruct (proj1 (assign_ids_elem _ _ _ _ (port_key q) (port_subsystems q) Hids')) as (r & Hr & Hk & Hs); [by exists q|].
  assert (Hkey : port_traddr r = port_traddr q ∧ port_trtype r = Loop) by (unfold port_key in Hk; split; congruence).
  destruct Hkey as [<- Hrt]. unfold render_ports in Hr. apply elem_of_app in Hr as [Hr|Hr].
  - exfalso. apply list_elem_of_fmap in Hr as ([[t ad] l] & -> & Hin). cbn in Hrt, Hs. subst t. subst l.
    assert (∃ l0, ((Loop, ad), l0) ∈ group_exports dflt pci named ∧ n ∈ l0)
      as (e & _ & He)%group_exports_spec by (eexists; split; [done|done]).
    apply export_keys_spec in He as (_ & [[? _]|[? _]]); done.
  - destruct (loop_subs named); [by apply elem_of_nil in Hr|]. by apply list_elem_of_singleton in Hr as ->.
Qed.
Lemma satisfied_subsys e n : e ∈ nvmet_enabled nvme → nvme_nqn e = Ok n →
  ∃ s ns, find_subsys (as_str n) a = Some s ∧ find_ns ans_nsid (as_namespaces s) = Some ns ∧
    ans_device_path ns = nvme_device_path e ∧ ans_enabled ns = true.
Proof.
  intros He Hn. destruct (render_nvmet_inv _ _ _ _ _ Hrender) as (named & [Hfst Hnq]%named_Ok & _ & Hsub).
  assert (Hin : (e, n) ∈ named).
  { rewrite <- Hfst in He. apply list_elem_of_fmap in He as ([e' n'] & -> & Hin). rewrite Forall_forall in Hnq.
    specialize (Hnq _ Hin). cbn in *. congruence. }
  assert (Hdp : ∃ v, to_option (new NtDevicePath (nvme_device_path e)) = Some v ∧ as_str v = nvme_device_path e).
  { apply to_option_new. unfold nvmet_enabled in He. apply list_elem_of_filter in He as [He _]. bool_split. by rewrite new_is_ok in *. }
  destruct Hdp as (v & Hv & Hvs). destruct satisfied_parts as [Hss _].
  specialize (Hss {| sub_nqn := n; sub_allow_any_host := nvme_allow_any_host e; sub_allowed_hosts := valid_nqns (nvme_initiators e);
                     sub_namespaces := [{| ns_nsid := lit 1%N; ns_device_path := v |}] |}).
  unfold subsys_satisfied in Hss. cbn [sub_nqn sub_namespaces] in Hss. unfold find_subsys.
  destruct (List.find (λ s, bool_decide (as_nqn s = as_str n)) (an_subsystems a)) as [s|].
  2: { exfalso. assert (false = true); [|done]. apply Hss. rewrite Hsub. apply list_elem_of_omap. exists (e, n). split; [done|]. cbn. by rewrite Hv. }
  assert (Hs : _ = true) by (apply Hss; rewrite Hsub; apply list_elem_of_omap; exists (e, n); split; [done|]; cbn; by rewrite Hv).
  apply andb_true_iff in Hs as [_ Hs]. destruct (find_ns ans_nsid (as_namespaces s)) as [ns|] eqn:Ens; [|done].
  cbn in Hs. apply andb_true_iff in Hs as [H1 H2%bool_decide_eq_true]. exists s, ns. split_and!; [done|done|by rewrite H2|done].
Qed.
End nvmet.

Lemma nqn_inj e e' n : nvme_nqn e = Ok n → nvme_nqn e' = Ok n → nvme_name e = nvme_name e'.
Proof.
  intros H1%nvme_nqn_Ok H2%nvme_nqn_Ok. rewrite H1 in H2. by apply (inj (String.app OUR_NQN_PREFIX)) in H2.
Qed.
Lemma NoDup_fmap_elem {A B} (f : A → B) l x y : NoDup (f <$> l) → x ∈ l → y ∈ l → f x = f y → x = y.
Proof.
  intros Hnd [i Hi]%list_elem_of_lookup [j Hj]%list_elem_of_lookup E.
  assert (i = j) as ->; [|congruence]. eapply (NoDup_lookup _ _ _ (f x) Hnd).
  - by rewrite list_lookup_fmap, Hi.
  - rewrite list_lookup_fmap, Hj. cbn. by f_equal.
Qed.
Definition addrs_served (rdma : list RdmaDev) (addrs : list IpAddr) : bool :=
  existsb (λ ad, addr_served_by_rdma (show_ip ad) rdma) addrs.
Definition has_addr (addrs : list IpAddr) : bool := match addrs with [] => false | _ => true end.
Lemma has_addr_spec addrs : Is_true (has_addr addrs) ↔ ∃ ad, ad ∈ addrs.
Proof. destruct addrs as [|ad l]; cbn; [split; [done|by intros [x ?%elem_of_nil]]|]. split; [intros _; exists ad; by left|done]. Qed.
Lemma addrs_served_spec rdma addrs : Is_true (addrs_served rdma addrs) ↔ ∃ ad, ad ∈ addrs ∧ addr_served_by_rdma (show_ip ad) rdma = true.
Proof. unfold addrs_served. by rewrite Is_true_true, existsb_spec. Qed.

Lemma nvme_no_drift nvme dflt pci reserved d a rdma e :
  render_nvmet nvme dflt pci reserved = Ok d → nvmet_satisfied d a = true →
  NoDup (ap_id <$> an_ports a) → NoDup (nvme_name <$> nvme) →
  e ∈ nvme → nvme_enabled e = true → nvme_render_error e = None → nvme_last_error e = None →
  let addrs := listen_addrs (nvme_interfaces e) dflt pci in
  ∃ dot, nvme_dot e a rdma = Ok dot ∧
    dot_state dot = state_of (nvme_want_rdma e && addrs_served rdma addrs)
                             (nvme_want_tcp e && has_addr addrs || nvme_want_loop e).
Proof.
  intros Hr Hsat Hids Hnames He Hen Hre Hle addrs.
  assert (Hee : e ∈ nvmet_enabled nvme).
  { unfold nvmet_enabled. apply list_elem_of_filter. split; [|done]. rewrite Hen. unfold nvme_render_error in Hre.
    by destruct (is_ok (new NtDevicePath (nvme_device_path e))). }
  destruct (render_nvmet_inv _ _ _ _ _ Hr) as (named & Hnamed & _).
  assert (Hnq : ∃ n, nvme_nqn e = Ok n).
  { apply named_Ok in Hnamed as [Hfst Hnq]. rewrite <- Hfst in Hee. apply list_elem_of_fmap in Hee as ([e' n'] & -> & Hin).
    rewrite Forall_forall in Hnq. specialize (Hnq _ Hin). by exists n'. }
  destruct Hnq as [n Hn]. destruct (satisfied_subsys _ _ _ _ _ _ Hr Hsat e n Hee Hn) as (s & ns & Hs & Hns & Hdev & Hena).
  unfold nvme_dot. rewrite Hle, Hre, Hn. cbn. eexists. split; [done|]. rewrite Hs, Hns, Hdev, bool_decide_eq_true_2, Hena by done. cbn.
  pose proof (nvme_nqn_ours e n Hn) as Hours.
  assert (Huniq : ∀ e', e' ∈ nvmet_enabled nvme → nvme_nqn e' = Ok n → e' = e).
  { intros e' He' Hn'. unfold nvmet_enabled in He'. apply list_elem_of_filter in He' as [_ He'].
    eapply NoDup_fmap_elem; [exact Hnames|done|done|]. by eapply nqn_inj. }
  pose proof (λ ty ad, linked_iff _ _ _ _ _ _ Hr Hsat Hids n ty ad Hours) as Hlink.
  pose proof (λ t ad Hl, linked_transport _ _ _ _ _ Hr e n t ad Hee Hn Hl Huniq) as Hreach.
  apply nvme_port_state.
  - rewrite andb_True, addrs_served_spec. split.
    + intros (Hw & ad & Had & Hserved). destruct (proj2 (Hreach Rdma ad ltac:(done))) as (q & Hq & Hk & Hsub); [by split|].
      destruct (proj2 (Hlink "rdma" (show_ip ad))) as (p & Hp & Hty & [?|Haddr]); [|done|].
      { exists q. unfold port_key in Hk. simplify_eq/=. split_and!; [done|done|by destruct (port_trtype q)|]. right. congruence. }
      exists p. split_and!; [done|done|by rewrite Haddr].
    + intros (p & Hp & Hty & Hserved). destruct (proj1 (Hlink "rdma" (ap_traddr p))) as (q & Hq & Hsub & Hqt & [?|Hqa]); [|done|].
      { exists p. split_and!; [done|done|by right]. }
      assert (Ht : port_trtype q = Rdma) by (by destruct (port_trtype q)).
      destruct (proj1 (Hreach Rdma (port_traddr q) ltac:(done))) as [Hw Hin]; [exists q; unfold port_key; by rewrite Ht|].
      split; [exact Hw|]. exists (port_traddr q). split; [by apply Hin|by rewrite Hqa].
  - rewrite orb_True, andb_True, has_addr_spec. split.
    + intros [(Hw & ad & Had)|Hw].
      * destruct (proj2 (Hreach Tcp ad ltac:(done))) as (q & Hq & Hk & Hsub); [by split|].
        destruct (proj2 (Hlink "tcp" (show_ip ad))) as (p & Hp & Hty & _).
        { exists q. unfold port_key in Hk. simplify_eq/=. split_and!; [done|done|by destruct (port_trtype q)|]. right. congruence. }
        exists p. by rewrite Hty.
      * destruct (proj2 (Hreach Loop dflt ltac:(done))) as (q & Hq & Hk & Hsub); [by split|].
        destruct (proj2 (Hlink "loop" "")) as (p & Hp & Hty & _).
        { exists q. unfold port_key in Hk. simplify_eq/=. split_and!; [done|done|by destruct (port_trtype q)|]. by left. }
        exists p. by rewrite Hty.
    + intros (p & Hp & Hty). destruct (proj1 (Hlink (ap_trtype p) (ap_traddr p))) as (q & Hq & Hsub & Hqt & _).
      { exists p. split_and!; [done|done|by right]. }
      destruct (port_trtype q) eqn:Ht; cbn in Hqt; [by rewrite <- Hqt in Hty| |].
      * left. destruct (proj1 (Hreach Tcp (port_traddr q) ltac:(done))) as [Hw Hin]; [exists q; unfold port_key; by rewrite Ht|].
        split; [exact Hw|]. exists (port_traddr q). by apply Hin.
      * right. pose proof (loop_port_default _ _ _ _ _ Hr q n Hq Hsub Ht) as Hd.
        destruct (proj1 (Hreach Loop dflt ltac:(done))) as [Hw _]; [|exact Hw]. exists q. unfold port_key. by rewrite Ht, Hd.
Qed.

(** ** A state without drift: iSCSI *)

Lemma trim_start_char_absent c s : c ∉ chars s → trim_start_char c s = s.
Proof. destruct s as [|a s]; [done|]. cbn. intros [Ha _]%not_elem_of_cons. by destruct (Ascii.eqb_spec a c) as [->|]. Qed.
Lemma trim_end_char_absent c s : c ∉ chars s → trim_end_char c s = s.
Proof.
  induction s as [|a s IH]; [done|]. cbn. intros [Ha Hs]%not_elem_of_cons. rewrite IH by done.
  by destruct (Ascii.eqb_spec a c) as [->|].
Qed.
Lemma trim_end_char_last c s : c ∉ chars s → trim_end_char c (s +:+ String c "") = s.
Proof.
  induction s as [|a s IH]; cbn; [by rewrite Ascii.eqb_refl|]. intros [Ha Hs]%not_elem_of_cons. rewrite IH by done.
  by destruct (Ascii.eqb_spec a c) as [->|].
Qed.
Lemma portal_host_fmt ad port iser : portal_host {| apo_addr_port := fmt_addr ad port; apo_iser := iser |} = show_ip ad.
Proof.
  pose proof (show_ip_chars ad) as Hc.
  assert (Hl : "["%char ∉ chars (show_ip ad)) by by eapply all_chars_absent.
  assert (Hr : "]"%char ∉ chars (show_ip ad)) by by eapply all_chars_absent.
  assert (Hp : ":"%char ∉ chars (show_uint port)) by (eapply all_chars_absent; [apply pretty_N_digits|done]).
  unfold portal_host, fmt_addr. cbn [apo_addr_port]. destruct ad as [a b c d|a b c d e f g h] eqn:Ead; rewrite <- Ead in *.
  - change (show_ip ad +:+ ":" +:+ show_uint port) with (show_ip ad +:+ String ":" (show_uint port)). rewrite rsplit_once_app by done.
    by rewrite trim_start_char_absent, trim_end_char_absent.
  - assert ("[" +:+ show_ip ad +:+ "]:" +:+ show_uint port = ("[" +:+ show_ip ad +:+ "]") +:+ String ":" (show_uint port)) as ->.
    { by rewrite !app_assoc_s. }
    rewrite rsplit_once_app by done. change (trim_start_char "[" ("[" +:+ ?s)) with (trim_start_char "[" s).
    rewrite trim_start_char_absent; [by apply trim_end_char_last|]. rewrite chars_app. intros [H|H%list_elem_of_singleton]%elem_of_app; [by apply Hl|discriminate H].
Qed.
Lemma render_lio_elem l dflt pci d e :
  render_lio_go l dflt pci = Ok d → e ∈ l → iscsi_render_error e = None →
  ∃ iqn b t, iscsi_iqn e = Ok iqn ∧ b ∈ ld_backstores d ∧ as_str (bs_name b) = iscsi_name e ∧ as_str (bs_device_path b) = iscsi_device_path e ∧
    t ∈ ld_targets d ∧ tgt_iqn t = iqn ∧ tgt_enabled t = true ∧ ((λ l, as_str (lun_backstore l)) <$> tgt_luns t) = [iscsi_name e] ∧
    tgt_portals t = lio_portals e (listen_addrs (iscsi_interfaces e) dflt pci).
Proof.
  revert d. induction l as [|e' l IH]; intros d; [by intros _ ?%elem_of_nil|]. cbn. intros H He Hre. apply elem_of_cons in He as [<-|He].
  - unfold iscsi_render_error in Hre. destruct (new NtBackstoreName (iscsi_name e)) as [b|] eqn:Hb; [|done].
    destruct (new NtDevicePath (iscsi_device_path e)) as [v|] eqn:Hv; [|done]. inv_ok. apply new_Ok in Hb, Hv.
    eexists _, _, _. split_and!; [eassumption|by left| | |by left|done|done| |done]; cbn; congruence.
  - destruct (new NtBackstoreName (iscsi_name e')) as [b|]; [|by apply IH].
    destruct (new NtDevicePath (iscsi_device_path e')) as [v|]; [|by apply IH]. inv_ok.
    match goal with H : render_lio_go _ _ _ = Ok _ |- _ => apply IH in H as (iqn & b' & t & H1 & H2 & H3 & H4 & H5 & H6 & H7 & H8 & H9); [|done|done] end.
    exists iqn, b', t. cbn [ld_backstores ld_targets]. split_and!; try done; by right.
Qed.
Lemma lio_portals_spec e addrs ad port iser :
  {| portal_addr := ad; portal_port := port; portal_iser := iser |} ∈ lio_portals e addrs →
  ad ∈ addrs ∧ (if iser then iscsi_want_rdma e else iscsi_want_tcp e) = true.
Proof.
  unfold lio_portals. intros (l & Hp & (x & -> & Hx)%list_elem_of_fmap)%list_elem_of_join.
  destruct (iscsi_want_rdma e) eqn:?, (iscsi_want_tcp e) eqn:?; cbn in Hp; rewrite ?elem_of_cons, ?elem_of_nil in Hp;
    naive_solver.
Qed.
Lemma lio_portals_elem e addrs ad (iser : bool) : ad ∈ addrs → (if iser then iscsi_want_rdma e else iscsi_want_tcp e) = true →
  ∃ port, {| portal_addr := ad; portal_port := port; portal_iser := iser |} ∈ lio_portals e addrs.
Proof.
  intros Had Hw. unfold lio_portals.
  destruct iser; rewrite Hw; eexists; apply list_elem_of_join; (eexists; split; [|by apply list_elem_of_fmap_2]);
    apply elem_of_app; [left|right]; by left.
Qed.
Lemma iscsi_no_drift iscsi dflt pci d a rdma e :
  render_lio iscsi dflt pci = Ok d → lio_satisfied d a = true →
  e ∈ iscsi → iscsi_enabled e = true → iscsi_render_error e = None → iscsi_last_error e = None →
  let addrs := listen_addrs (iscsi_interfaces e) dflt pci in
  ∃ dot, iscsi_dot e a rdma = Ok dot ∧
    dot_state dot = state_of (iscsi_want_rdma e && addrs_served rdma addrs) (iscsi_want_tcp e && has_addr addrs).
Proof.
  intros Hr Hsat He Hen Hre Hle addrs. unfold lio_satisfied in Hsat. apply andb_true_iff in Hsat as [[_ Hb]%andb_true_iff Ht].
  rewrite List.forallb_forall in Hb, Ht. setoid_rewrite <- list_elem_of_In in Hb. setoid_rewrite <- list_elem_of_In in Ht.
  assert (He' : e ∈ filter (λ e, Is_true (iscsi_enabled e)) iscsi) by (apply list_elem_of_filter; split; [by rewrite Hen|done]).
  destruct (render_lio_elem _ _ _ _ e Hr He' Hre) as (iqn & b & t & Hiqn & Hbin & Hbn & Hbd & Htin & Hti & Hte & Hlun & Hport).
  specialize (Hb b Hbin). unfold backstore_satisfied in Hb. rewrite Hbn in Hb. fold (find_backstore (iscsi_name e) a) in Hb.
  destruct (find_backstore (iscsi_name e) a) as [ab|] eqn:Eb; [|done]. apply andb_true_iff in Hb as [Hab Hdev%bool_decide_eq_true]. rewrite Hbd in Hdev.
  specialize (Ht t Htin). unfold target_satisfied in Ht. rewrite Hti in Ht. fold (find_target (as_str iqn) a) in Ht.
  destruct (find_target (as_str iqn) a) as [at_|] eqn:Et; [|done].
  apply andb_true_iff in Ht as [[[[H1%bool_decide_eq_true _]%andb_true_iff H3%bool_decide_eq_true]%andb_true_iff H4%bool_decide_eq_true]%andb_true_iff _].
  unfold iscsi_dot. rewrite Hle, Hre, Hiqn. cbn. eexists. split; [done|]. rewrite Eb, Hdev, bool_decide_eq_true_2, Hab by done. cbn. rewrite Et, H1, Hte. cbn.
  assert (maps_lun (iscsi_name e) at_ = true) as ->.
  { unfold maps_lun. apply existsb_spec. exists (iscsi_name e). split; [|by apply bool_decide_eq_true].
    rewrite Hlun in H3. assert (Hin : iscsi_name e ∈ sset (at_luns at_)) by (rewrite <- H3; cbn; set_solver). by apply elem_of_list_to_set in Hin. }
  cbn. rewrite Hport in H4.
  assert (Hp : ∀ iser P, (∃ p, p ∈ at_portals at_ ∧ apo_iser p = iser ∧ P (portal_host p) : Prop) ↔
    ∃ ad, ad ∈ addrs ∧ (if iser : bool then iscsi_want_rdma e else iscsi_want_tcp e) = true ∧ P (show_ip ad)).
  { intros iser P. split.
    - intros (p & Hp & <- & HP). assert (Hin : (apo_addr_port p, apo_iser p) ∈ portal_set ((λ p, (apo_addr_port p, apo_iser p)) <$> at_portals at_)).
      { apply elem_of_list_to_set, list_elem_of_fmap. by exists p. }
      rewrite <- H4 in Hin. apply elem_of_list_to_set, list_elem_of_fmap in Hin as ([ad port iser'] & [= Ha Hi] & Hin).
      pose proof (lio_portals_spec _ _ _ _ _ Hin) as [Had Hw]. exists ad. rewrite Hi. split_and!; [done|done|].
      rewrite <- (portal_host_fmt ad port (apo_iser p)). destruct p as [x y]. cbn in *. by rewrite <- Ha.
    - intros (ad & Had & Hw & HP). destruct (lio_portals_elem e addrs ad iser Had Hw) as [port Hin].
      assert (Hin' : (fmt_addr ad port, iser) ∈ portal_set ((λ p, (apo_addr_port p, apo_iser p)) <$> at_portals at_)).
      { rewrite <- H4. apply elem_of_list_to_set, list_elem_of_fmap. by eexists {| portal_addr := ad; portal_port := port; portal_iser := iser |}. }
      apply elem_of_list_to_set, list_elem_of_fmap in Hin' as ([x y] & [= <- <-] & Hp). eexists. split; [exact Hp|]. split; [done|]. by rewrite portal_host_fmt. }
  apply iscsi_portal_state.
  - rewrite (Hp true (λ h, addr_served_by_rdma h rdma = true)), andb_True, addrs_served_spec. split.
    + intros (Hw & ad & Had & Hs). exists ad. split_and!; [done|by apply Is_true_true|done].
    + intros (ad & Had & Hw & Hs). split; [by apply Is_true_true|]. by exists ad.
  - assert (Hq : (∃ p, p ∈ at_portals at_ ∧ apo_iser p = false) ↔ (∃ p, p ∈ at_portals at_ ∧ apo_iser p = false ∧ (λ _ : string, True) (portal_host p))) by naive_solver.
    rewrite Hq, (Hp false (λ _, True)), andb_True, has_addr_spec. split.
    + intros (Hw & ad & Had). exists ad. split_and!; [done|by apply Is_true_true|done].
    + intros (ad & Had & Hw & _). split; [by apply Is_true_true|]. by exists ad.
Qed.

(** ** Checklists *)

(** Addresses are only read off an active device with a netdev. *)
Definition dev_ok (d : RdmaDev) : Prop := rd_addrs d ≠ [] → rd_active d = true ∧ is_Some (rd_netdev d).
Lemma read_devs_ok ib addrs : Forall dev_ok (Nic.read ib addrs).
Proof.
  unfold Nic.read. destruct ib as [devs|]; [|constructor]. rewrite sort_by_perm. apply Forall_fmap, Forall_forall. intros d _.
  unfold dev_ok, read_dev. cbn. by destruct (backing_netdev d), (port_active d).
Qed.
Definition all_ok (cs : list Criterion) : Prop := Forall (λ c, cr_ok c = true) cs.
Lemma addr_served_dev addr rdma : addr_served_by_rdma addr rdma = true → ∃ d, d ∈ rdma ∧ rd_addrs d ≠ [].
Proof.
  unfold addr_served_by_rdma. destruct (parse_ip addr) as [ip|]; [|done]. destruct (is_unspecified ip).
  - rewrite existsb_spec. intros (d & Hd & H). exists d. split; [done|]. by destruct (rd_addrs d).
  - rewrite existsb_spec. intros (d & Hd & H%bool_decide_eq_true). exists d. split; [done|]. intros E. rewrite E in H. by apply elem_of_nil in H.
Qed.
Lemma some_elem (l : list string) x : x ∈ l → some l = true.
Proof. destruct l; [by intros ?%elem_of_nil|done]. Qed.
Lemma served_devices_ok addr rdma capable : Forall dev_ok rdma → addr_served_by_rdma addr rdma = true → all_ok (rdma_device_criteria rdma capable).
Proof.
  intros Hok (d & Hd & Haddr)%addr_served_dev. rewrite Forall_forall in Hok. destruct (Hok d Hd Haddr) as [Hact [nd Hnd]].
  unfold rdma_device_criteria. repeat constructor; cbn [crit cr_ok].
  - apply (some_elem _ (rd_name d)), list_elem_of_fmap. by exists d.
  - apply (some_elem _ (rd_name d)), list_elem_of_fmap. exists d. split; [done|]. by apply elem_of_filter_bool.
  - apply (some_elem _ (rd_name d +:+ right_arrow +:+ nd)), list_elem_of_omap. exists d. split; [done|]. by rewrite Hnd.
  - destruct (rd_addrs d) as [|x l] eqn:E; [done|]. apply (some_elem _ (show_ip x)), list_elem_of_join.
    exists (show_ip <$> rd_addrs d). split; [rewrite E; by left|]. apply list_elem_of_fmap. by exists d.
Qed.
Lemma validity_ok o : cr_ok (validity_criterion o) = true ↔ o = None.
Proof. cbn. by rewrite bool_decide_eq_true. Qed.
Lemma rdma_linked_filter nqn a :
  List.filter (λ p, is_rdma p && links nqn p) (an_ports a) = List.filter is_rdma (linked_ports nqn a).
Proof.
  unfold linked_ports. induction (an_ports a) as [|p l IH]; [done|]. cbn. destruct (links nqn p); cbn.
  - rewrite andb_true_r. destruct (is_rdma p); by rewrite IH.
  - by rewrite andb_false_r.
Qed.
(** The rows of a checklist that may fail beside a green dot. *)
Definition excused (labels : list string) (cs : list Criterion) : Prop :=
  ∀ c, c ∈ cs → cr_ok c = false → cr_label c ∈ labels.
Lemma excused_nil labels : excused labels [].
Proof. by intros c ?%elem_of_nil. Qed.
Lemma excused_cons labels c cs : (cr_ok c = true ∨ cr_label c ∈ labels) → excused labels cs → excused labels (c :: cs).
Proof. intros Hc H c' [->|Hin]%elem_of_cons Hf; [destruct Hc; [congruence|done]|by apply H]. Qed.
Lemma excused_ok labels cs cs' : all_ok cs → excused labels cs' → excused labels (cs ++ cs').
Proof. intros Hok H. induction Hok as [|c cs Hc _ IH]; [done|]. apply excused_cons; [by left|done]. Qed.

Lemma nvme_port_green e linked rdma :
  dot_state (nvme_port_dot e linked rdma) = Green ↔
  ∃ p, p ∈ List.filter is_rdma linked ∧ addr_served_by_rdma (ap_traddr p) rdma = true.
Proof.
  unfold nvme_port_dot. rewrite <- find_is_Some.
  destruct (List.find _ (List.filter is_rdma linked)) as [p|] eqn:E.
  - split; [intros _; by eexists|done].
  - split; [|by intros [? ?]]. by destruct (List.filter (λ p, negb (is_rdma p)) linked).
Qed.
Lemma Ok_eq {E A} (a b : A) : Ok a = (Ok b : result E A) → a = b.
Proof. by intros [= ->]. Qed.
Lemma nvme_checklist e a rdma capable dot cs :
  nvme_dot e a rdma = Ok dot → nvme_diagnostics e a rdma capable = Ok cs →
  (nvme_last_error e = None → all_ok cs → dot_state dot = Green) ∧
  (Forall dev_ok rdma → dot_state dot = Green → nvme_last_error e = None ∧
    excused ["RDMA requested for this export"; "Listen address served by RDMA"] cs).
Proof.
  unfold nvme_dot, nvme_diagnostics. intros Hdot (n & Hn & <-%Ok_eq)%bind_Ok. rewrite Hn in Hdot.
  rewrite rdma_linked_filter. split.
  - intros Hle Hok. rewrite Hle in Hdot. unfold all_ok in Hok. rewrite Forall_app, !Forall_cons in Hok.
    destruct Hok as [(Hv%validity_ok & _ & Hs & Hns & Hl & _) [_ [Hserved _]%Forall_cons]%Forall_app]. rewrite Hv in Hdot. cbn in Hdot. injection Hdot as <-.
    cbn in Hs, Hns. destruct (find_subsys (as_str n) a) as [s|]; [|done]. cbn in Hns.
    destruct (find_ns ans_nsid (as_namespaces s)) as [ns|]; [|done]. apply andb_true_iff in Hns as [-> ->]. cbn.
    apply nvme_port_green. destruct (List.filter is_rdma (linked_ports (as_str n) a)) as [|p l]; [done|].
    exists p. split; [by left|]. cbn in Hserved. done.
  - intros Hdev Hg. destruct (nvme_last_error e); [by injection Hdot as <-|]. split; [done|].
    destruct (nvme_render_error e) eqn:Hre; [by injection Hdot as <-|]. cbn in Hdot. injection Hdot as <-.
    destruct (find_subsys (as_str n) a) as [s|]; [|done]. cbn.
    destruct (find_ns ans_nsid (as_namespaces s)) as [ns|]; [|done].
    destruct (bool_decide (ans_device_path ns = nvme_device_path e)); [|done]. destruct (ans_enabled ns); [|done].
    cbn in Hg. apply nvme_port_green in Hg as (p & Hp & Hserved).
    apply excused_cons; [by left; apply validity_ok|]. apply excused_cons; [right; cbn; by left|].
    apply excused_cons; [by left|]. apply excused_cons; [by left|].
    apply excused_cons; [left; cbn; by destruct (List.filter is_rdma (linked_ports (as_str n) a)); [apply elem_of_nil in Hp|]|].
    change (rdma_device_criteria rdma capable ++ ?x) with (rdma_device_criteria rdma capable ++ x). cbn [app].
    apply (excused_ok _ (rdma_device_criteria rdma capable)); [by eapply served_devices_ok|].
    apply excused_cons; [|apply excused_nil]. right. unfold served_criterion. destruct (ap_traddr <$> _); right; by left.
Qed.
Lemma iscsi_portal_green e portals rdma :
  dot_state (iscsi_portal_dot e portals rdma) = Green ↔
  ∃ p, p ∈ List.filter apo_iser portals ∧ addr_served_by_rdma (portal_host p) rdma = true.
Proof.
  unfold iscsi_portal_dot. destruct (List.find (iser_served rdma) portals) as [p|] eqn:E.
  - split; [|done]. intros _. apply find_Some_elem in E as [Hp [H1 H2]%andb_true_iff]. exists p. split; [|done]. by apply elem_of_filter_bool.
  - split; [|].
    + destruct (existsb (λ p, negb (apo_iser p)) portals); done.
    + intros (p & [Hp H1]%elem_of_filter_bool & H2). rewrite find_none in E. specialize (E p Hp). unfold iser_served in E. by rewrite H1, H2 in E.
Qed.
Lemma iscsi_checklist e a rdma capable dot cs :
  iscsi_dot e a rdma = Ok dot → iscsi_diagnostics e a rdma capable = Ok cs →
  (iscsi_last_error e = None → all_ok cs → dot_state dot = Green) ∧
  (Forall dev_ok rdma → dot_state dot = Green → iscsi_last_error e = None ∧
    excused ["RDMA (iSER) requested for this export"; "Portal address served by RDMA"] cs).
Proof.
  unfold iscsi_dot, iscsi_diagnostics. intros Hdot (n & Hn & <-%Ok_eq)%bind_Ok. rewrite Hn in Hdot. split.
  - intros Hle Hok. rewrite Hle in Hdot. unfold all_ok in Hok. rewrite Forall_app, !Forall_cons in Hok.
    destruct Hok as [(Hv%validity_ok & _ & Hb & Ht & Hlun & _) [_ [Hserved _]%Forall_cons]%Forall_app]. rewrite Hv in Hdot. cbn in Hdot. injection Hdot as <-.
    cbn in Hb, Ht, Hlun. destruct (find_backstore (iscsi_name e) a) as [b|]; [|done]. apply andb_true_iff in Hb as [-> ->]. cbn.
    destruct (find_target (as_str n) a) as [t|]; [|done]. rewrite Ht, Hlun. cbn.
    apply iscsi_portal_green. destruct (List.filter apo_iser (at_portals t)) as [|p l]; [done|]. exists p. split; [by left|done].
  - intros Hdev Hg. destruct (iscsi_last_error e); [by injection Hdot as <-|]. split; [done|].
    destruct (iscsi_render_error e) eqn:Hre; [by injection Hdot as <-|]. cbn in Hdot. injection Hdot as <-.
    destruct (find_backstore (iscsi_name e) a) as [b|]; [|done].
    destruct (bool_decide (ab_udev_path b = iscsi_device_path e)); [|done]. destruct (ab_enabled b); [|done]. cbn in Hg.
    destruct (find_target (as_str n) a) as [t|]; [|done]. destruct (at_enabled t) eqn:Hte; [|done].
    destruct (maps_lun (iscsi_name e) t) eqn:Hl; [|done].
    cbn in Hg. apply iscsi_portal_green in Hg as (p & Hp & Hserved).
    apply excused_cons; [by left; apply validity_ok|]. apply excused_cons; [right; cbn; by left|].
    apply excused_cons; [by left|]. apply excused_cons; [by left|]. apply excused_cons; [by left|].
    apply excused_cons; [left; cbn; by destruct (List.filter apo_iser (at_portals t)); [apply elem_of_nil in Hp|]|]. cbn [app].
    apply (excused_ok _ (rdma_device_criteria rdma capable)); [by eapply served_devices_ok|].
    apply excused_cons; [|apply excused_nil]. right. unfold served_criterion. destruct (portal_host <$> _); right; by left.
Qed.
Lemma nfs_checklist e a rdma capable listen :
  (nfs_last_error e = None → all_ok (nfs_diagnostics e a rdma capable listen) → dot_state (nfs_dot e a rdma listen) = Green) ∧
  (Forall dev_ok rdma → dot_state (nfs_dot e a rdma listen) = Green →
    nfs_last_error e = None ∧ all_ok (nfs_diagnostics e a rdma capable listen)).
Proof.
  unfold nfs_dot, nfs_diagnostics. split.
  - intros Hle Hok. unfold all_ok in Hok. rewrite Forall_app, !Forall_cons in Hok.
    destruct Hok as [(Hv%validity_ok & Hex & _) [_ Hok]%Forall_app]. rewrite !Forall_cons in Hok. destruct Hok as (Hport & Hserved & _).
    cbn in Hex, Hport, Hserved. rewrite Hle, Hv, Hex. cbn. destruct (anf_rdma_port a); [|done]. by rewrite Hserved.
  - intros Hdev Hg. destruct (nfs_last_error e); [done|]. split; [done|]. destruct (nfs_render_error e); [done|].
    destruct (exported a (nfs_path e)) eqn:Hex; [|done]. cbn in Hg. destruct (anf_rdma_port a); [|done].
    destruct (addr_served_by_rdma (show_ip listen) rdma) eqn:Hs; [|done].
    apply Forall_app. split; [by repeat constructor|]. apply Forall_app. split; [by eapply served_devices_ok|]. repeat constructor. cbn. by rewrite Hs.
Qed.

(** ** Properties *)

Lemma nfs_rendered e : nfs_render_error e = None → ∃ spec, render_nfs_export e = Some spec ∧ as_str (es_path spec) = nfs_path e.
Proof.
  unfold nfs_render_error, render_nfs_export. destruct (new NtNfsExportPath (nfs_path e)) as [p|m] eqn:Ep; [|done].
  apply new_Ok in Ep as Hp. cbn -[filter]. intros Hv. destruct (omap render_nfs_client (nfs_clients e)) as [|c l] eqn:Eo; [|by eexists].
  exfalso. destruct (filter _ _) as [|c l] eqn:Ef; [done|]. assert (Hc : c ∈ c :: l) by left. rewrite <- Ef in Hc.
  apply list_elem_of_filter in Hc as [Hok Hc].
  assert (∃ x, render_nfs_client c = Some x) as [x Hx].
  { unfold render_nfs_client. destruct (new NtNfsClient (nce_client c)); [by eexists|done]. }
  assert (Hx' : x ∈ omap render_nfs_client (nfs_clients e)) by (apply list_elem_of_omap; eauto).
  rewrite Eo in Hx'. by apply elem_of_nil in Hx'.
Qed.
Lemma nfs_no_drift nfs port a rdma listen e :
  nfs_satisfied (render_nfs nfs port) a = true → e ∈ nfs → nfs_enabled e = true → nfs_render_error e = None → nfs_last_error e = None →
  dot_state (nfs_dot e a rdma listen) = state_of (addr_served_by_rdma (show_ip listen) rdma) true.
Proof.
  unfold nfs_satisfied. intros [[_ Hex]%andb_true_iff Hport]%andb_true_iff He Hen Hre Hle.
  destruct (nfs_rendered e Hre) as (spec & Hspec & Hpath).
  assert (Hin : spec ∈ nfs_exports (render_nfs nfs port)).
  { cbn. apply list_elem_of_omap. exists e. split; [|done]. apply list_elem_of_filter. by rewrite Hen. }
  rewrite List.forallb_forall in Hex. specialize (Hex spec (proj1 (list_elem_of_In _ _) Hin)). rewrite Hpath in Hex.
  unfold nfs_dot. rewrite Hle, Hre, Hex. cbn. destruct (nfs_exports _); [by apply elem_of_nil in Hin|]. cbn in Hport.
  destruct (anf_rdma_port a); [|done]. by destruct (addr_served_by_rdma _ _).
Qed.
(** The colour, with what goes before it: an error that is on record makes it red. *)
Definition colour (last_error render_error : option string) (rdma other : bool) : DotState :=
  match last_error, render_error with None, None => state_of rdma other | _, _ => Red end.

(** C14: The dots agree with the daemon's drift predicates. When the kernel state
    shows no drift from the rendered exports (names distinct, each port listed once),
    every enabled export has a dot, of exactly one colour. It is red if an error of an
    earlier pass is still on record (a pass without drift does not clear it) or the
    export is invalid. Otherwise: for NVMe-oF and iSCSI it is green if and only if the
    export asks for RDMA and an RDMA device backs one of its listen addresses, yellow
    if and only if it is not green and reachable without RDMA (over TCP at some address
    or, for NVMe-oF, over loop), and red only when nothing can serve it; for NFS it is
    green if an RDMA device backs the listen address and yellow if not. No dot is red
    for want of a reconcile. *)
Theorem dots_agree_with_drift nvme iscsi nfs dflt pci reserved nfs_port dn dl an al af rdma :
  render_nvmet nvme dflt pci reserved = Ok dn → render_lio iscsi dflt pci = Ok dl →
  nvmet_satisfied dn an = true → lio_satisfied dl al = true → nfs_satisfied (render_nfs nfs nfs_port) af = true →
  NoDup (ap_id <$> an_ports an) → NoDup (nvme_name <$> nvme) →
  (∀ e, e ∈ nvme → nvme_enabled e = true →
    let addrs := listen_addrs (nvme_interfaces e) dflt pci in
    ∃ dot, nvme_dot e an rdma = Ok dot ∧
      dot_state dot = colour (nvme_last_error e) (nvme_render_error e) (nvme_want_rdma e && addrs_served rdma addrs)
                        (nvme_want_tcp e && has_addr addrs || nvme_want_loop e)) ∧
  (∀ e, e ∈ iscsi → iscsi_enabled e = true →
    let addrs := listen_addrs (iscsi_interfaces e) dflt pci in
    ∃ dot, iscsi_dot e al rdma = Ok dot ∧
      dot_state dot = colour (iscsi_last_error e) (iscsi_render_error e) (iscsi_want_rdma e && addrs_served rdma addrs)
                        (iscsi_want_tcp e && has_addr addrs)) ∧
  (∀ e listen, e ∈ nfs → nfs_enabled e = true →
    dot_state (nfs_dot e af rdma listen) =
      colour (nfs_last_error e) (nfs_render_error e) (addr_served_by_rdma (show_ip listen) rdma) true).
Proof.
  intros Hrn Hrl Hsn Hsl Hsf Hids Hnames. split_and!.
  - intros e He Hen addrs. destruct (nvme_last_error e) eqn:Hle; [unfold nvme_dot; rewrite Hle; by eexists|].
    destruct (nvme_render_error e) eqn:Hre; [unfold nvme_dot; rewrite Hle, Hre; by eexists|]. by eapply nvme_no_drift.
  - intros e He Hen addrs. destruct (iscsi_last_error e) eqn:Hle; [unfold iscsi_dot; rewrite Hle; by eexists|].
    destruct (iscsi_render_error e) eqn:Hre; [unfold iscsi_dot; rewrite Hle, Hre; by eexists|]. by eapply iscsi_no_drift.
  - intros e listen He Hen. destruct (nfs_last_error e) eqn:Hle; [unfold nfs_dot; by rewrite Hle|].
    destruct (nfs_render_error e) eqn:Hre; [unfold nfs_dot; by rewrite Hle, Hre|]. by eapply nfs_no_drift.
Qed.

(** The Diagnose checklist explains the dot. Over the RDMA devices read off the
    kernel: if every row of an export's checklist passes (and the last pass
    recorded no error) its dot is green; if the dot is green every row passes,
    except that the row that says whether RDMA was asked for may fail, and the
    last row, which looks at the first RDMA port or iSER portal only. For NFS
    the two agree without exception. *)
Lemma checklist_explains_dot ib netaddrs capable :
  let rdma := Nic.read ib netaddrs in
  (∀ e a dot cs, nvme_dot e a rdma = Ok dot → nvme_diagnostics e a rdma capable = Ok cs → nvme_last_error e = None →
    (all_ok cs → dot_state dot = Green) ∧
    (dot_state dot = Green → excused ["RDMA requested for this export"; "Listen address served by RDMA"] cs)) ∧
  (∀ e a dot cs, iscsi_dot e a rdma = Ok dot → iscsi_diagnostics e a rdma capable = Ok cs → iscsi_last_error e = None →
    (all_ok cs → dot_state dot = Green) ∧
    (dot_state dot = Green → excused ["RDMA (iSER) requested for this export"; "Portal address served by RDMA"] cs)) ∧
  (∀ e a listen, nfs_last_error e = None →
    (all_ok (nfs_diagnostics e a rdma capable listen) ↔ dot_state (nfs_dot e a rdma listen) = Green)).
Proof.
  intros rdma. pose proof (read_devs_ok ib netaddrs : Forall dev_ok rdma) as Hdev. split_and!.
  - intros e a dot cs Hd Hc Hle. destruct (nvme_checklist _ _ _ _ _ _ Hd Hc) as [H1 H2]. split; [by apply H1|by apply H2].
  - intros e a dot cs Hd Hc Hle. destruct (iscsi_checklist _ _ _ _ _ _ Hd Hc) as [H1 H2]. split; [by apply H1|by apply H2].
  - intros e a listen Hle. destruct (nfs_checklist e a rdma capable listen) as [H1 H2]. split; [by apply H1|by apply H2].
Qed.

(** ** An export with two RDMA ports *)

Definition demo_addr (n : N) : IpAddr := default UNSPECIFIED (parse_ip ("10.0.0." +:+ pretty n)).
Definition demo_export : NvmeExport := {|
  nvme_id := 1; nvme_name := "vm1"; nvme_device_path := "/dev/zvol/tank/vm1"; nvme_enabled := true;
  nvme_want_rdma := true; nvme_want_tcp := true; nvme_want_loop := false; nvme_allow_any_host := true;
  nvme_initiators := []; nvme_interfaces := ["pci:0000:00:10.0"]; nvme_last_error := None |}.
Definition demo_pci : gmap string (list IpAddr) := {["0000:00:10.0" := [demo_addr 1; demo_addr 2]]}.
Definition demo_rdma : list RdmaDev :=
  [{| rd_name := "mlx5_0"; rd_netdev := Some "eth1"; rd_active := true; rd_addrs := [demo_addr 2] |}].
Definition demo_actual : ActualNvmet :=
  let port (id : u16) trtype n := {| ap_id := id; ap_trtype := trtype; ap_traddr := "10.0.0." +:+ pretty (n : N); ap_trsvcid := "4420";
                             ap_subsystems := ["nqn.2026-06.io.greendot:vm1"] |} in
  {| an_subsystems := [{| as_nqn := "nqn.2026-06.io.greendot:vm1"; as_allow_any_host := true; as_allowed_hosts := [];
                          as_namespaces := [{| ans_nsid := lit 1%N; ans_device_path := "/dev/zvol/tank/vm1"; ans_enabled := true |}] |}];
     an_ports := [port (lit 1%N) "rdma" 1%N; port (lit 2%N) "rdma" 2%N; port (lit 3%N) "tcp" 1%N; port (lit 4%N) "tcp" 2%N] |}.
(** The second port makes the dot green, and the checklist, which looks at the
    first only, ends in a row that fails. *)
Lemma green_with_failing_row :
  dot_state <$> to_option (nvme_dot demo_export demo_actual demo_rdma) = Some Green ∧
  ((λ cs, cr_ok <$> last cs) <$> to_option (nvme_diagnostics demo_export demo_actual demo_rdma [])) = Some (Some false).
Proof. split; vm_compute; reflexivity. Qed.
Lemma dots_agree_with_drift_witness :
  ∃ dot, nvme_dot demo_export demo_actual demo_rdma = Ok dot ∧ dot_state dot = Green.
Proof.
  destruct (render_nvmet [demo_export] UNSPECIFIED demo_pci ∅) as [d|] eqn:E; [|vm_compute in E; discriminate].
  destruct (dots_agree_with_drift [demo_export] [] [] UNSPECIFIED demo_pci ∅ NFS_RDMA_PORT d {| ld_backstores := []; ld_targets := [] |} demo_actual
    {| al_backstores := []; al_targets := [] |} {| anf_exports := []; anf_rdma_port := None; anf_managed := ∅ |} demo_rdma) as [H _].
  - exact E.
  - reflexivity.
  - vm_compute in E. injection E as <-. vm_compute. reflexivity.
  - vm_compute. reflexivity.
  - vm_compute. reflexivity.
  - cbn. repeat (constructor; [set_solver|]). constructor.
  - cbn. apply NoDup_singleton.
  - apply (H demo_export); [by left|reflexivity..].
Defined.
Lemma checklist_explains_dot_witness :
  let e := {| nfs_id := 1; nfs_path := "/srv/a"; nfs_enabled := true; nfs_clients := [{| nce_client := "10.0.0.0/24"; nce_rw := true |}];
              nfs_last_error := None |} in
  let a := {| anf_exports := [{| nee_path := "/srv/a"; nee_clients := [] |}]; anf_rdma_port := Some (lit 20049%N : u16); anf_managed := ∅ |} in
  all_ok (nfs_diagnostics e a (Nic.read None ∅) [] UNSPECIFIED) ↔ dot_state (nfs_dot e a (Nic.read None ∅) UNSPECIFIED) = Green.
Proof. intros e a. apply (checklist_explains_dot None ∅ []). reflexivity. Defined.
