(* ===== verification/Site.v ===== *)
(** * The running web service: requests, background tasks, reconcile passes
    (task_runner.rs [start], routes/block_export.rs [reconcile_state])

    The state of the service is its store and task table, the requests it has sent
    to the helper, and the background tasks it has spawned and not finished. What
    the helper answers, given everything sent so far, is a class parameter. A
    handler is an operation on that state; a failed statement or store write is an
    error it handles, a panic ends it. *)
From Stdlib Require Import Ascii String.
From stdpp Require Import base option list strings sets gmap pretty.
From S2P Require Import Prelude IpAddr Types Wire Ops Desired Task Replies Fs Store Tasks.
#[local] Open Scope string_scope.
#[local] Open Scope list_scope.

(** ** State *)

(** A background task: a recorded stream, or a reconcile pass with the exports it
    was started for and the verdicts of its pre-check. *)
Inductive job : Type :=
| StreamJob (id : Z) (rx : list TaskEvent)
| ReconcileJob (id : Z) (nvme : list NvmeExport) (iscsi : list IscsiExport) (nfs : list NfsExport) (nvmet_ok lio_ok nfs_ok : bool).
Definition is_reconcile (j : job) : bool := match j with ReconcileJob _ _ _ _ _ _ _ => true | _ => false end.
Record site : Type := { st_web : web; st_sent : list request; st_jobs : list job }.
Definition site_doc (s : site) : ConfigDoc := db_doc (wb_db (st_web s)).
(** The helper: the answer to a task rpc, and to the dry run (its four verdicts). *)
Class Helper := {
  task_call : list request → request → call;
  dry_run : list request → result string (bool * bool * bool * bool) }.

Definition hop (A : Type) : Type := site → result fault A * site.
#[export] Instance hop_ret : MRet hop := λ A a s, (Ok a, s).
#[export] Instance hop_bind : MBind hop := λ A B f m s,
  match m s with
  | (Ok a, s') => f a s'
  | (Err e, s') => (Err e, s')
  end.
Definition on_web {A} (m : wop A) : hop A := λ s,
  let '(r, w) := m (st_web s) in (r, {| st_web := w; st_sent := st_sent s; st_jobs := st_jobs s |}).
Definition on_store {A} (m : sop A) : hop A := on_web (on_db m).
Definition get_config : hop ConfigDoc := λ s, (Ok (site_doc s), s).
Definition spawn (j : job) : hop unit := λ s,
  (Ok tt, {| st_web := st_web s; st_sent := st_sent s; st_jobs := st_jobs s ++ [j] |}).
(** An error becomes a value; a panic does not. *)
Definition hop_try {A} (m : hop A) : hop (result string A) := λ s,
  match m s with
  | (Ok a, s') => (Ok (Ok a), s')
  | (Err (Bail e), s') => (Ok (Err e), s')
  | (Err (Panicked p), s') => (Err (Panicked p), s')
  end.
Fixpoint hop_for {A} (l : list A) (f : A → hop unit) : hop unit :=
  match l with
  | [] => mret tt
  | a :: l => _ ← f a; hop_for l f
  end.

Section site.
Context {K : Kernel} {D : DocCodec} (file : path) {Q : Sqlite} {T : Clock} {R : RowCodec} {H : Helper}.

(** ** Tasks *)

(** The call is made when the method is called; its events wait in the channel. *)
Definition send (r : request) : hop (list TaskEvent) := λ s,
  (Ok (helper_stream (task_call (st_sent s) r)),
   {| st_web := st_web s; st_sent := st_sent s ++ [r]; st_jobs := st_jobs s |}).
(** [task_runner::start]: the request is already on its way when the task is
    recorded. *)
Definition start (kind title : string) (r : request) : hop Z :=
  rx ← send r;
  id ← on_web (begin_task kind title);
  _ ← spawn (StreamJob id rx);
  mret id.
(** [task_runner::run]. *)
Definition run_now (kind title : string) (r : request) : hop TaskOutcome :=
  rx ← send r;
  on_web (run_recorded rx kind title).

(** ** Reconcile passes *)

Definition RECONCILE_ERROR_KEY : string := "reconcile_error".
Definition RECONCILE_TASK_KEY : string := "reconcile_task_id".
(** [apply_reconcile_outcome]. *)
Definition outcome_error (o : TaskOutcome) : option string :=
  if to_ok o then None else Some (default "reconcile failed" (to_error o)).
Definition blame (ok : bool) (err : option string) : option string := if ok then None else err.
Definition apply_reconcile_outcome (nvme : list NvmeExport) (iscsi : list IscsiExport) (nfs : list NfsExport)
    (nvmet_ok lio_ok nfs_ok : bool) (o : TaskOutcome) : hop unit :=
  let err := outcome_error o in
  _ ← hop_for (filter (λ e, Is_true (nvme_enabled e)) nvme)
        (λ e, on_store (set_nvme_export_error file (nvme_id e) (blame nvmet_ok err)));
  _ ← hop_for (filter (λ e, Is_true (iscsi_enabled e)) iscsi)
        (λ e, on_store (set_iscsi_export_error file (iscsi_id e) (blame lio_ok err)));
  _ ← hop_for (filter (λ e, Is_true (nfs_enabled e)) nfs)
        (λ e, on_store (set_nfs_export_error file (nfs_id e) (blame nfs_ok err)));
  on_store (set_setting file RECONCILE_ERROR_KEY (default "" err)).
(** A spawned task, run to its end. *)
Definition run_job (j : job) : hop unit :=
  match j with
  | StreamJob id rx => on_web (start_background id rx)
  | ReconcileJob id nvme iscsi nfs nvmet_ok lio_ok nfs_ok =>
      rx ← send (RUnit OpReconcile);
      driven ← hop_try (on_web (drive id [] rx));
      let outcome := match driven with Ok o => o | Err e => {| to_ok := false; to_error := Some e |} end in
      _ ← on_web (on_hub (unregister id));
      _ ← hop_try (apply_reconcile_outcome nvme iscsi nfs nvmet_ok lio_ok nfs_ok outcome);
      mret tt
  end.
(** The lock is held by a running pass; whoever wants it waits for that pass. *)
Definition drop_reconcile : hop (list job) := λ s,
  (Ok (List.filter is_reconcile (st_jobs s)),
   {| st_web := st_web s; st_sent := st_sent s; st_jobs := List.filter (λ j, negb (is_reconcile j)) (st_jobs s) |}).
Definition lock_reconcile : hop unit :=
  held ← drop_reconcile;
  hop_for held run_job.
(** A failed call reads as drift everywhere. *)
Definition ask_drift : hop (bool * bool * bool * bool) := λ s,
  (Ok match dry_run (st_sent s) with Ok v => v | Err _ => (false, false, false, false) end, s).
Definition reconcile_state : hop (option Z) :=
  _ ← lock_reconcile;
  d ← get_config;
  '(nvmet_ok, lio_ok, nfs_ok, nic_ok) ← ask_drift;
  if nvmet_ok && lio_ok && nfs_ok && nic_ok then mret None
  else
    id ← on_web (begin_task "reconcile" "Reconcile exports");
    _ ← on_store (set_setting file RECONCILE_TASK_KEY (show_Z id));
    _ ← spawn (ReconcileJob id (list_nvme_exports d) (list_iscsi_exports d) (list_nfs_exports d) nvmet_ok lio_ok nfs_ok);
    mret (Some id).
End site.
