(* ===== verification/Exports.v ===== *)
(** * Export pages and the client API (routes/block_export.rs, nvme.rs, iscsi.rs,
    nfs.rs, client_api.rs)

    The forms and the handlers that change the desired state. The two block
    protocols share their handlers through the trait [ExportProtocol], a class
    here. A page is its notice; what it lists is in ExportViews.v. *)
From Stdlib Require Import Ascii String.
From stdpp Require Import base option list strings sets gmap pretty.
From S2P Require Import Prelude Ordered Validate IpAddr Types Wire Ops Desired Task Fs Store Tasks ZfsView Site.
#[local] Open Scope string_scope.
#[local] Open Scope list_scope.

(** ** Responses *)

Record notice : Type := { nt_flash : option string; nt_error : option string; nt_task : option Z }.
Definition flashed (msg : string) (task : option Z) : notice := {| nt_flash := Some msg; nt_error := None; nt_task := task |}.
Definition failed (msg : string) : notice := {| nt_flash := None; nt_error := Some msg; nt_task := None |}.
Inductive response : Type :=
| ListPage (n : notice)
| DetailPage (id : Z) (n : notice)
| RedirectTo (path : string)
| Unprocessable (msg : string).
(** [Ok(task_id) => (Some(success), None, task_id)], or the error. *)
Definition settled (success : string) (r : result string (option Z)) : notice :=
  match r with Ok task => flashed success task | Err e => failed e end.

(** ** The create form *)

Record CreateFields : Type := {
  cf_name : string; cf_device : string; cf_initiators_raw : string; cf_want_rdma : bool; cf_want_tcp : bool;
  cf_want_loop : bool; cf_allow_any_host : bool; cf_interfaces : list string }.
Definition no_fields : CreateFields :=
  {| cf_name := ""; cf_device := ""; cf_initiators_raw := ""; cf_want_rdma := false; cf_want_tcp := false;
     cf_want_loop := false; cf_allow_any_host := false; cf_interfaces := [] |}.
Definition set_field (f : CreateFields) (kv : string * string) : CreateFields :=
  let '(k, v) := kv in
  let set name device raw rdma tcp loop any ifaces :=
    {| cf_name := name; cf_device := device; cf_initiators_raw := raw; cf_want_rdma := rdma; cf_want_tcp := tcp;
       cf_want_loop := loop; cf_allow_any_host := any; cf_interfaces := ifaces |} in
  let '(Build_CreateFields name device raw rdma tcp loop any ifaces) := f in
  if bool_decide (k = "name") then set v device raw rdma tcp loop any ifaces
  else if bool_decide (k = "device") then set name v raw rdma tcp loop any ifaces
  else if bool_decide (k = "initiators") then set name device v rdma tcp loop any ifaces
  else if bool_decide (k = "want_rdma") then set name device raw true tcp loop any ifaces
  else if bool_decide (k = "want_tcp") then set name device raw rdma true loop any ifaces
  else if bool_decide (k = "want_loop") then set name device raw rdma tcp true any ifaces
  else if bool_decide (k = "allow_any_host") then set name device raw rdma tcp loop true ifaces
  else if bool_decide (k = "interfaces") then set name device raw rdma tcp loop any (ifaces ++ [v])
  else f.
Definition parse_create_fields (fields : list (string * string)) : CreateFields := foldl set_field no_fields fields.
(** The non-empty trimmed lines of a text area. *)
Definition entry_lines (text : string) : list string := List.filter nonempty (trim <$> lines text).
Definition bad_selector (s : string) : bool := match parse_listen_iface s with Some _ => false | None => true end.
Definition invalid_selector (s : string) : string := "invalid interface selector " +:+ debug_str s.
Definition validate_create (f : CreateFields) (initiator_ok : string → bool) (has_transport : bool) :
    result string (ExportName * DevicePath * list string * bool) :=
  name ← map_err (λ _, "invalid export name " +:+ debug_str (cf_name f) +:+ " (lowercase letters, digits, '-', '.')")
           (new NtExportName (trim (cf_name f)));
  device ← map_err (λ _, "invalid device path " +:+ debug_str (cf_device f)) (new NtDevicePath (trim (cf_device f)));
  let initiators := entry_lines (cf_initiators_raw f) in
  match List.find (λ i, negb (initiator_ok i)) initiators with
  | Some bad => Err ("invalid initiator name " +:+ debug_str bad)
  | None =>
      match List.find bad_selector (cf_interfaces f) with
      | Some bad => Err (invalid_selector bad)
      | None =>
          if negb has_transport then Err "select at least one transport"
          else Ok (name, device, initiators, cf_allow_any_host f || match initiators with [] => true | _ => false end)
      end
  end.

(** ** The protocols *)

Class ExportProtocol := {
  list_path : string;
  set_enabled : Z → bool → sop unit;
  set_interfaces : Z → list string → sop unit;
  delete_export : Z → sop unit;
  initiator_ok : string → bool;
  has_transport : CreateFields → bool;
  insert_export : ExportName → DevicePath → bool → list string → CreateFields → sop unit }.
Section protocols.
Context {K : Kernel} {D : DocCodec} (file : path).
Definition Nvme : ExportProtocol := {|
  list_path := "/nvme";
  set_enabled := set_nvme_export_enabled file;
  set_interfaces := set_nvme_export_interfaces file;
  delete_export := delete_nvme_export file;
  initiator_ok i := is_ok (new NtNqn i);
  has_transport f := cf_want_rdma f || cf_want_tcp f || cf_want_loop f;
  insert_export name device any initiators f :=
    _ ← insert_nvme_export file {|
          nn_name := as_str name; nn_device_path := as_str device; nn_want_rdma := cf_want_rdma f;
          nn_want_tcp := cf_want_tcp f; nn_want_loop := cf_want_loop f; nn_allow_any_host := any;
          nn_initiators := initiators; nn_interfaces := cf_interfaces f |};
    mret tt |}.
Definition Iscsi : ExportProtocol := {|
  list_path := "/iscsi";
  set_enabled := set_iscsi_export_enabled file;
  set_interfaces := set_iscsi_export_interfaces file;
  delete_export := delete_iscsi_export file;
  initiator_ok i := is_ok (new NtIqn i);
  has_transport f := cf_want_rdma f || cf_want_tcp f;
  insert_export name device any initiators f :=
    _ ← insert_iscsi_export file {|
          ni_name := as_str name; ni_device_path := as_str device; ni_want_rdma := cf_want_rdma f;
          ni_want_tcp := cf_want_tcp f; ni_allow_any_host := any; ni_initiators := initiators;
          ni_interfaces := cf_interfaces f |};
    mret tt |}.
End protocols.

(** ** Handlers *)

Section handlers.
Context {K : Kernel} {D : DocCodec} (file : path) {Q : Sqlite} {T : Clock} {R : RowCodec} {H : Helper}.
(** A change of the store, then a pass. *)
Definition change_then_reconcile {A} (change : sop A) : hop (result string (option Z)) :=
  hop_try (_ ← on_store change; reconcile_state file).

Section protocol.
Context {P : ExportProtocol}.
Definition create_export (fields : list (string * string)) : hop response :=
  let f := parse_create_fields fields in
  match validate_create f initiator_ok (has_transport f) with
  | Err msg => mret (ListPage (failed msg))
  | Ok (name, device, initiators, any) =>
      r ← change_then_reconcile (insert_export name device any initiators f);
      mret (ListPage (settled ("created export " +:+ as_str name) r))
  end.
Definition toggle_export (id : Z) (enable : option bool) : hop response :=
  let enable := default false enable in
  r ← change_then_reconcile (set_enabled id enable);
  mret (DetailPage id (settled ("export " +:+ (if enable then "enabled" else "disabled")) r)).
(** The last [id] counts, also when it does not parse. *)
Definition read_interfaces_form (fields : list (string * string)) : option Z * list string :=
  foldl (λ '(id, ifaces) '(k, v),
    if bool_decide (k = "id") then (parse_i64 (trim v), ifaces)
    else if bool_decide (k = "interfaces") then (id, ifaces ++ [v])
    else (id, ifaces)) (None, []) fields.
Definition edit_interfaces (fields : list (string * string)) : hop response :=
  match read_interfaces_form fields with
  | (None, _) => mret (Unprocessable "missing or invalid id")
  | (Some id, ifaces) =>
      match List.find bad_selector ifaces with
      | Some bad => mret (DetailPage id (failed (invalid_selector bad)))
      | None =>
          r ← change_then_reconcile (set_interfaces id ifaces);
          mret (DetailPage id (settled "listen interfaces updated" r))
      end
  end.
(** The outcome of the pass after a delete is not shown here. *)
Definition remove_export (id : Z) : hop response :=
  r ← hop_try (on_store (delete_export id));
  match r with
  | Ok _ => _ ← hop_try (reconcile_state file); mret (RedirectTo list_path)
  | Err e => mret (DetailPage id (failed e))
  end.
End protocol.

(** ** NFS *)

Record NfsForm : Type := { fm_path : string; fm_clients : string; fm_readonly : option string }.
Definition nfs_clients_of (rw : bool) (l : list string) : result string (list NfsClientEntry) :=
  mapM (λ line, match new NtNfsClient line with
                | Ok c => Ok {| nce_client := as_str c; nce_rw := rw |}
                | Err _ => Err ("invalid client spec " +:+ debug_str line)
                end) l.
Definition nfs_create (f : NfsForm) : hop response :=
  match new NtNfsExportPath (trim (fm_path f)) with
  | Err _ => mret (ListPage (failed ("invalid export path " +:+ debug_str (fm_path f) +:+ " (absolute, no traversal)")))
  | Ok path =>
      let rw := match fm_readonly f with None => true | Some _ => false end in
      match nfs_clients_of rw (entry_lines (fm_clients f)) with
      | Err msg => mret (ListPage (failed msg))
      | Ok [] => mret (ListPage (failed "add at least one client (host, IP, CIDR, or *)"))
      | Ok clients =>
          r ← change_then_reconcile (insert_nfs_export file {| nf_path := as_str path; nf_clients := clients |});
          mret (ListPage (settled ("created NFS export " +:+ as_str path) r))
      end
  end.
Definition nfs_toggle (id : Z) (enable : option bool) : hop response :=
  let enable := default false enable in
  r ← change_then_reconcile (set_nfs_export_enabled file id enable);
  mret (ListPage (settled ("NFS export " +:+ (if enable then "enabled" else "disabled")) r)).
Definition nfs_delete (id : Z) : hop response :=
  r ← change_then_reconcile (delete_nfs_export file id);
  mret (ListPage (settled "NFS export deleted" r)).

(** ** The client API *)

Inductive api_reply : Type :=
| Registered (task : option Z) (client : option string)
| AlreadyAuthorized (client : option string)
| NoSuchExport
| InvalidRequest (msg : string)
| StoreError (msg : string)
| Unauthorized
| TooManyFailures.
Definition finish_register (changed : bool) (client : option string) : hop api_reply :=
  if changed then
    r ← hop_try (reconcile_state file);
    mret match r with Ok task => Registered task client | Err e => StoreError e end
  else mret (AlreadyAuthorized client).
Definition finish_change (change : hop bool) (client : option string) : hop api_reply :=
  r ← hop_try change;
  match r with
  | Ok changed => finish_register changed client
  | Err e => mret (StoreError e)
  end.
Definition register_nvme (id : Z) (hostnqn : string) : hop api_reply :=
  if negb (is_ok (new NtNqn hostnqn)) then mret (InvalidRequest "invalid hostnqn")
  else
    d ← get_config;
    match nvme_allow_any_host <$> List.find (λ e, bool_decide (nvme_id e = id)) (list_nvme_exports d) with
    | None => mret NoSuchExport
    | Some true => finish_register false None
    | Some false => finish_change (on_store (add_nvme_export_initiator file id hostnqn)) None
    end.
(** The body: absent or empty (the derived default), or what serde read of it. *)
Definition register_nfs (id : Z) (peer : option IpAddr) (body : option (result string bool)) : hop api_reply :=
  match peer with
  | None => mret (StoreError "peer address unknown")
  | Some ip =>
      match default (Ok false) body with
      | Err e => mret (InvalidRequest ("invalid body: " +:+ e))
      | Ok rw =>
          d ← get_config;
          if existsb (λ e, bool_decide (nfs_id e = id)) (list_nfs_exports d) then
            finish_change (on_store (add_nfs_export_client file id {| nce_client := show_ip ip; nce_rw := rw |}))
              (Some (show_ip ip))
          else mret NoSuchExport
      end
  end.
End handlers.

(** ** The gate of the client API *)

(** SHA-256, as the lowercase hex of it; and the failures of the last window by
    peer: their number and when the first came. *)
Class Sha256 := sha256_hex : string → string.
#[export] Program Instance IpAddr_countable : Countable IpAddr := inj_countable show_ip parse_ip _.
Next Obligation. apply parse_show_ip. Qed.
Abbreviation failures := (gmap IpAddr (N * Z)).
Definition MAX_FAILURES : N := 30.
(** In nanoseconds, the resolution of an [Instant]. *)
Definition WINDOW : Z := 60 * 10 ^ 9.
Definition too_many_failures (peer : IpAddr) (now : Z) (m : failures) : bool * failures :=
  let m := filter (λ kv : IpAddr * (N * Z), now - kv.2.2 < WINDOW)%Z m in
  let '(count, first) := default (0%N, now) (m !! peer) in
  ((MAX_FAILURES <? count + 1)%N, <[peer := ((count + 1)%N, first)]> m).
Definition token_hash `{Sha256} (raw : string) : string := sha256_hex raw.
Definition authorized `{Sha256} (d : ConfigDoc) (header : option string) : bool :=
  match header ≫= strip_prefix "Bearer " with
  | Some raw => existsb (λ t, bool_decide (ct_token_hash t = token_hash raw)) (list_client_tokens d)
  | None => false
  end.
(** [bearer_auth] around a handler. *)
Definition bearer_auth `{Sha256} (header : option string) (peer : option IpAddr) (now : Z) (next : hop api_reply)
    (m : failures) : hop (api_reply * failures) :=
  d ← get_config;
  if authorized d header then r ← next; mret (r, m)
  else
    let '(limited, m) := too_many_failures (default UNSPECIFIED peer) now m in
    mret (if limited then TooManyFailures else Unauthorized, m).
(** Whether an address is named by a client spec. *)
Definition v4_number (a b c d : u8) : N := raw a * 2 ^ 24 + raw b * 2 ^ 16 + raw c * 2 ^ 8 + raw d.
Definition prefix_mask (bits : N) : N := if (bits =? 0)%N then 0%N else N.land (N.shiftl (2 ^ 32 - 1) (32 - bits)) (2 ^ 32 - 1).
Definition nfs_client_matches (spec : string) (ip : IpAddr) : bool :=
  if bool_decide (spec = "*") then true
  else
    match parse_ip spec with
    | Some spec_ip => bool_decide (spec_ip = ip)
    | None =>
        match split_once "/" spec, ip with
        | Some (net, bits), V4 a b c d =>
            match parse_ip net, parse_uint 32 bits with
            | Some (V4 na nb nc nd), Some bits =>
                if (32 <? raw bits)%N then false
                else (N.land (v4_number a b c d) (prefix_mask (raw bits)) =? N.land (v4_number na nb nc nd) (prefix_mask (raw bits)))%N
            | _, _ => false
            end
        | _, _ => false
        end
    end.
