(* ===== verification/ExportsFacts.v ===== *)
(** * What the web service may do to the exports

    Rule induction over handlers and background tasks in any order: what is stored
    is always something the daemon can render. *)
From Stdlib Require Import Ascii String.
From stdpp Require Import base option list strings sets gmap pretty relations.
From S2P Require Import Prelude Ordered Validate IpAddr Types Wire Ops Desired Actual Render RenderFacts Task Fs Store StoreFacts.
From S2P Require Import Tasks TasksFacts Site Exports.
#[local] Open Scope string_scope.
#[local] Open Scope list_scope.

(** ** Operations and the document *)

Definition hop_keeps {A} (I : ConfigDoc → Prop) (m : hop A) : Prop :=
  ∀ s r s', m s = (r, s') → I (site_doc s) → I (site_doc s').
Definition sop_keeps {A} (I : ConfigDoc → Prop) (m : sop A) : Prop :=
  ∀ s r s', m s = (r, s') → I (db_doc s) → I (db_doc s').
Section keeps.
Context (I : ConfigDoc → Prop).
Lemma hop_keeps_ret {A} (a : A) : hop_keeps I (mret a).
Proof. by intros s r s' [= _ <-]. Qed.
Lemma hop_keeps_bind {A B} (m : hop A) (f : A → hop B) : hop_keeps I m → (∀ a, hop_keeps I (f a)) → hop_keeps I (m ≫= f).
Proof.
  intros Hm Hf s r s'. unfold mbind, hop_bind. destruct (m s) as [[a|e] s1] eqn:E; intros H Hi.
  - eapply Hf; [exact H|]. by eapply Hm.
  - injection H as <- <-. by eapply Hm.
Qed.
Lemma hop_keeps_try {A} (m : hop A) : hop_keeps I m → hop_keeps I (hop_try m).
Proof. intros Hm s r s'. unfold hop_try. destruct (m s) as [[a|[e|p]] s1] eqn:E; intros [= <- <-]; by eapply Hm. Qed.
Lemma hop_keeps_for {A} (l : list A) f : (∀ a, a ∈ l → hop_keeps I (f a)) → hop_keeps I (hop_for l f).
Proof.
  induction l as [|a l IH]; intros H; [apply hop_keeps_ret|]. cbn.
  apply hop_keeps_bind; [apply H; by left|]. intros _. apply IH. intros b Hb. apply H. by right.
Qed.
Lemma hop_keeps_store {A} (m : sop A) : sop_keeps I m → hop_keeps I (on_store m).
Proof.
  intros Hm s r s'. unfold on_store, on_web, on_db. destruct (m (wb_db (st_web s))) as [r1 d] eqn:E.
  intros [= <- <-]. cbn. by apply (Hm _ _ _ E).
Qed.
(** The document is not the task table's business. *)
Definition same_doc : relation web := λ w w', wb_db w' = wb_db w.
#[local] Instance same_doc_preorder : PreOrder same_doc.
Proof. split; [done|]. intros a b c H1 H2. unfold same_doc in *. congruence. Qed.
Lemma hop_keeps_web {A} (m : wop A) : wop_respects same_doc m → hop_keeps I (on_web m).
Proof.
  intros Hm s r s'. unfold on_web. destruct (m (st_web s)) as [r1 w] eqn:E. intros [= <- <-]. unfold site_doc. cbn.
  by rewrite (Hm _ _ _ E).
Qed.
Lemma hop_keeps_get : hop_keeps I get_config.
Proof. by intros s r s' [= _ <-]. Qed.
Lemma hop_keeps_spawn j : hop_keeps I (spawn j).
Proof. by intros s r s' [= _ <-]. Qed.
End keeps.

Section tables.
Context {Q : Sqlite} {T : Clock} {R : RowCodec}.
#[local] Existing Instance same_doc_preorder.
Lemma same_sql {A} (a : table → A) f : wop_respects same_doc (sql a f).
Proof. intros w r w'. unfold sql. case_match; by intros [= _ <-]. Qed.
Lemma same_hub f : wop_respects same_doc (on_hub f).
Proof. by intros w r w' [= _ <-]. Qed.
Lemma same_now : wop_respects same_doc now.
Proof. by intros w r w' [= _ <-]. Qed.
Lemma same_finish id st x e o er subs t : wop_respects same_doc (finish_task id st x e o er subs t).
Proof. apply wop_respects_bind; [apply _|apply same_sql|intros _; apply same_sql]. Qed.
Lemma same_begin kind title : wop_respects same_doc (begin_task kind title).
Proof.
  apply wop_respects_bind; [apply _|apply same_now|intros t]. apply wop_respects_bind; [apply _|apply same_sql|intros id].
  apply wop_respects_bind; [apply _|apply same_hub|intros _]. apply wop_respects_ret. apply _.
Qed.
Lemma same_drive_event id subs ev : wop_respects same_doc (drive_event id subs ev).
Proof.
  apply wop_respects_bind; [apply _|apply same_hub|intros _]. destruct ev; try (apply wop_respects_ret; apply _).
  - apply wop_respects_bind; [apply _| |intros _; apply wop_respects_ret; apply _].
    unfold summary_command. destruct subs, command; try apply same_sql; apply wop_respects_ret; apply _.
  - apply wop_respects_bind; [apply _|apply same_now|intros t]. apply wop_respects_bind; [apply _|apply same_finish|intros _].
    apply wop_respects_ret. apply _.
Qed.
Lemma same_abandon id subs : wop_respects same_doc (abandon id subs).
Proof.
  apply wop_respects_bind; [apply _|apply same_now|intros t].
  apply wop_respects_bind; [apply _|apply wop_respects_try, same_finish|intros _]. apply wop_respects_ret. apply _.
Qed.
Lemma same_drive id subs rx : wop_respects same_doc (drive id subs rx).
Proof.
  revert subs. induction rx as [|ev rx IH]; intros subs; cbn [drive]; [apply same_abandon|].
  apply wop_respects_bind; [apply _|apply same_drive_event|intros [subs'|o]]; [apply IH|apply wop_respects_ret; apply _].
Qed.
Lemma same_background id rx : wop_respects same_doc (start_background id rx).
Proof. apply wop_respects_bind; [apply _|apply wop_respects_try, same_drive|intros _; apply same_hub]. Qed.
Lemma same_run rx kind title : wop_respects same_doc (run_recorded rx kind title).
Proof.
  apply wop_respects_bind; [apply _|apply same_begin|intros id]. apply wop_respects_bind; [apply _|apply same_drive|intros o].
  apply wop_respects_bind; [apply _|apply same_hub|intros _]. apply wop_respects_ret. apply _.
Qed.
End tables.

Create HintDb keeps discriminated.
#[export] Hint Resolve hop_keeps_ret hop_keeps_get hop_keeps_spawn same_begin same_drive same_background same_run same_hub : keeps.
(** One step through the code of an operation. *)
Ltac keeps_step :=
  first [ apply hop_keeps_bind; [|intros ?] | apply hop_keeps_try | apply hop_keeps_store
        | (apply hop_keeps_web; solve [eauto with keeps]) | (apply hop_keeps_for; intros ? _) | solve [eauto with keeps]
        | case_match ].
Ltac keeps := repeat keeps_step.

Section reconcile.
Context {K : Kernel} {D : DocCodec} (file : path) {Q : Sqlite} {T : Clock} {R : RowCodec} {H : Helper} (I : ConfigDoc → Prop).
(** Whatever is done to errors and settings. *)
Hypothesis Hnvme : ∀ id e, sop_keeps I (set_nvme_export_error file id e).
Hypothesis Hiscsi : ∀ id e, sop_keeps I (set_iscsi_export_error file id e).
Hypothesis Hnfs : ∀ id e, sop_keeps I (set_nfs_export_error file id e).
Hypothesis Hset : ∀ k v, sop_keeps I (set_setting file k v).
Lemma hop_keeps_send q : hop_keeps I (send q).
Proof. by intros s r s' [= _ <-]. Qed.
Lemma hop_keeps_drift : hop_keeps I ask_drift.
Proof. by intros s r s' [= _ <-]. Qed.
Lemma hop_keeps_job j : hop_keeps I (run_job file j).
Proof.
  destruct j as [id rx|id nvme iscsi nfs a b c]; cbn; [keeps|]. apply hop_keeps_bind; [apply hop_keeps_send|intros rx].
  unfold apply_reconcile_outcome. keeps; auto.
Qed.
Lemma hop_keeps_reconcile : hop_keeps I (reconcile_state file).
Proof.
  unfold reconcile_state, lock_reconcile. apply hop_keeps_bind; [|intros _].
  - apply hop_keeps_bind; [by intros s r s' [= _ <-]|intros held]. apply hop_keeps_for. intros j _. apply hop_keeps_job.
  - apply hop_keeps_bind; [apply hop_keeps_get|intros d]. apply hop_keeps_bind; [apply hop_keeps_drift|intros [[[a b] c] e]]. keeps; auto.
Qed.
Lemma hop_keeps_change {A} (m : sop A) : sop_keeps I m → hop_keeps I (change_then_reconcile file m).
Proof. intros Hm. unfold change_then_reconcile. apply hop_keeps_try, hop_keeps_bind; [by apply hop_keeps_store|intros _; apply hop_keeps_reconcile]. Qed.
End reconcile.

(** ** Valid documents *)

Definition selectors_ok (l : list string) : Prop := Forall (λ s, bad_selector s = false) l.
Definition nvme_valid (e : NvmeExport) : Prop :=
  validator NtExportName (nvme_name e) ∧ validator NtDevicePath (nvme_device_path e) ∧
  Forall (λ i, Is_true (validator NtNqn i)) (nvme_initiators e) ∧ selectors_ok (nvme_interfaces e).
Definition iscsi_valid (e : IscsiExport) : Prop :=
  validator NtExportName (iscsi_name e) ∧ validator NtDevicePath (iscsi_device_path e) ∧
  Forall (λ i, Is_true (validator NtIqn i)) (iscsi_initiators e) ∧ selectors_ok (iscsi_interfaces e).
Definition nfs_valid (e : NfsExport) : Prop :=
  validator NtNfsExportPath (nfs_path e) ∧ nfs_clients e ≠ [] ∧
  Forall (λ c, Is_true (validator NtNfsClient (nce_client c))) (nfs_clients e).
Definition valid_doc (d : ConfigDoc) : Prop :=
  Forall nvme_valid (cd_nvme_export d) ∧ Forall iscsi_valid (cd_iscsi_export d) ∧ Forall nfs_valid (cd_nfs_export d).

Lemma dedup_preserve_sub seen l : Forall (λ i, i ∈ l) (dedup_preserve_go seen l).
Proof.
  revert seen. induction l as [|i l IH]; intros seen; cbn; [constructor|]. case_bool_decide.
  - eapply Forall_impl; [apply IH|]. intros j Hj. by right.
  - constructor; [by left|]. eapply Forall_impl; [apply IH|]. intros j Hj. by right.
Qed.
Lemma dedup_Forall (P : string → Prop) l : Forall P l → Forall P (dedup_preserve l).
Proof.
  intros H. eapply Forall_impl; [apply dedup_preserve_sub|]. intros i Hi. by rewrite Forall_forall in H; apply H.
Qed.
Lemma edit_first_Forall {A} (P : A → Prop) p f l : (∀ a, P a → P (f a)) → Forall P l → Forall P (edit_first p f l).
Proof. intros Hf. induction 1 as [|a l Ha Hl IH]; cbn; [constructor|]. destruct (p a); constructor; auto. Qed.
Lemma filter_keeps {A} (P : A → Prop) (R : A → Prop) `{!∀ x, Decision (R x)} l : Forall P l → Forall P (filter R l).
Proof. intros Hl. rewrite Forall_forall in *. intros a [_ Ha]%list_elem_of_filter. by apply Hl. Qed.

Section store.
Context {K : Kernel} {D : DocCodec} (file : path).
Lemma persist_doc s r s' : persist file s = (r, s') → db_doc s' = db_doc s.
Proof.
  unfold persist. destruct (doc_toml (db_doc s)); [|by intros [= _ <-]]. destruct (write_doc _ _ _ _) as [[r0 t] n]. by intros [= _ <-].
Qed.
Lemma rewrite_doc f s r s' : rewrite file f s = (r, s') → db_doc s' = f (db_doc s).
Proof. unfold rewrite, the_doc, put, mbind, sop_bind. by intros ->%persist_doc. Qed.
Lemma insertion_doc dup msg next make s r s' :
  insertion file dup msg next make s = (r, s') → db_doc s' = db_doc s ∨ dup = false ∧ db_doc s' = make (next + 1)%Z.
Proof.
  unfold insertion, mbind, sop_bind, bail, incr_i64, put, mret, sop_ret.
  destruct dup; [intros [= _ <-]; by left|]. destruct (next =? _)%Z; [intros [= _ <-]; by left|].
  destruct (persist file _) as [r1 s1] eqn:E. apply persist_doc in E. destruct r1; intros [= _ <-]; by right.
Qed.
Lemma rewrite_keeps (I : ConfigDoc → Prop) f : (∀ d, I d → I (f d)) → sop_keeps I (rewrite file f).
Proof. intros Hf s r s' ->%rewrite_doc Hi. by apply Hf. Qed.
Lemma with_nvme_keeps id f : (∀ e, nvme_valid e → nvme_valid (f e)) → sop_keeps valid_doc (with_nvme file id f).
Proof. intros Hf. apply rewrite_keeps. intros d (H1 & H2 & H3). split_and!; [by apply edit_first_Forall|done|done]. Qed.
Lemma with_iscsi_keeps id f : (∀ e, iscsi_valid e → iscsi_valid (f e)) → sop_keeps valid_doc (with_iscsi file id f).
Proof. intros Hf. apply rewrite_keeps. intros d (H1 & H2 & H3). split_and!; [done|by apply edit_first_Forall|done]. Qed.
Lemma with_nfs_keeps id f : (∀ e, nfs_valid e → nfs_valid (f e)) → sop_keeps valid_doc (with_nfs file id f).
Proof. intros Hf. apply rewrite_keeps. intros d (H1 & H2 & H3). split_and!; [done|done|by apply edit_first_Forall]. Qed.
Lemma setting_keeps k v : sop_keeps valid_doc (set_setting file k v).
Proof. by apply rewrite_keeps. Qed.
Lemma insertion_keeps (I : ConfigDoc → Prop) (m : ConfigDoc → sop Z) :
  (∀ d, ∃ dup msg next make, m d = insertion file dup msg next make ∧ (I d → ∀ id, I (make id))) →
  sop_keeps I (d ← the_doc; m d).
Proof.
  intros Hm s r s' E Hi. unfold mbind, sop_bind, the_doc in E.
  destruct (Hm (db_doc s)) as (dup & msg & next & make & Hd & Hmake). rewrite Hd in E.
  apply insertion_doc in E as [->|[_ ->]]; [done|by apply Hmake].
Qed.
Lemma ignore_keeps {A} (I : ConfigDoc → Prop) (m : sop A) : sop_keeps I m → sop_keeps I (_ ← m; mret tt).
Proof.
  intros Hm s r s'. unfold mbind, sop_bind. destruct (m s) as [[a|e] s1] eqn:E; intros [= <- <-]; by eapply Hm.
Qed.
Lemma insert_nvme_keeps new : (∀ id, nvme_valid {|
    nvme_id := id; nvme_name := nn_name new; nvme_device_path := nn_device_path new; nvme_enabled := true;
    nvme_want_rdma := nn_want_rdma new; nvme_want_tcp := nn_want_tcp new; nvme_want_loop := nn_want_loop new;
    nvme_allow_any_host := nn_allow_any_host new; nvme_initiators := dedup_preserve (nn_initiators new);
    nvme_interfaces := dedup_preserve (nn_interfaces new); nvme_last_error := None |}) →
  sop_keeps valid_doc (insert_nvme_export file new).
Proof.
  intros Hnew. apply insertion_keeps. intros d. eexists _, _, _, _. split; [reflexivity|]. intros (H1 & H2 & H3) id.
  split_and!; [|done|done]. cbn. apply Forall_app. split; [done|]. constructor; [apply Hnew|constructor].
Qed.
Lemma insert_iscsi_keeps new : (∀ id, iscsi_valid {|
    iscsi_id := id; iscsi_name := ni_name new; iscsi_device_path := ni_device_path new; iscsi_enabled := true;
    iscsi_want_rdma := ni_want_rdma new; iscsi_want_tcp := ni_want_tcp new;
    iscsi_allow_any_host := ni_allow_any_host new; iscsi_initiators := dedup_preserve (ni_initiators new);
    iscsi_interfaces := dedup_preserve (ni_interfaces new); iscsi_last_error := None |}) →
  sop_keeps valid_doc (insert_iscsi_export file new).
Proof.
  intros Hnew. apply insertion_keeps. intros d. eexists _, _, _, _. split; [reflexivity|]. intros (H1 & H2 & H3) id.
  split_and!; [done| |done]. cbn. apply Forall_app. split; [done|]. constructor; [apply Hnew|constructor].
Qed.
Lemma insert_nfs_keeps new : (∀ id, nfs_valid {| nfs_id := id; nfs_path := nf_path new; nfs_enabled := true; nfs_clients := nf_clients new; nfs_last_error := None |}) →
  sop_keeps valid_doc (insert_nfs_export file new).
Proof.
  intros Hnew. apply insertion_keeps. intros d. eexists _, _, _, _. split; [reflexivity|]. intros (H1 & H2 & H3) id.
  split_and!; [done|done|]. cbn. apply Forall_app. split; [done|]. constructor; [apply Hnew|constructor].
Qed.
Lemma add_initiator_keeps id i : validator NtNqn i → sop_keeps valid_doc (add_nvme_export_initiator file id i).
Proof.
  intros Hi s r s'. unfold add_nvme_export_initiator, mbind, sop_bind, the_doc.
  destruct (List.find _ _) as [e|]; [|by intros [= _ <-]]. case_bool_decide; [by intros [= _ <-]|].
  destruct (with_nvme file id (push_initiator i) s) as [[u|e'] s1] eqn:E; intros [= <- <-];
    eapply (with_nvme_keeps id (push_initiator i)); try exact E;
    intros x (H1 & H2 & H3 & H4); (split_and!; [done|done| |done]); cbn; apply Forall_app; split; auto.
Qed.
Lemma add_client_keeps id c : validator NtNfsClient (nce_client c) → sop_keeps valid_doc (add_nfs_export_client file id c).
Proof.
  intros Hi s r s'. unfold add_nfs_export_client, mbind, sop_bind, the_doc.
  destruct (List.find _ _) as [e|]; [|by intros [= _ <-]]. destruct (existsb _ _); [by intros [= _ <-]|].
  destruct (with_nfs file id (push_client c) s) as [[u|e'] s1] eqn:E; intros [= <- <-];
    eapply (with_nfs_keeps id (push_client c)); try exact E;
    intros x (H1 & H2 & H3); (split_and!; [done| |]); cbn; [by destruct (nfs_clients x)|apply Forall_app; split; auto|
      by destruct (nfs_clients x)|apply Forall_app; split; auto].
Qed.
End store.

(** ** Forms *)

Lemma find_none_bool {A} (p : A → bool) l : List.find p l = None → Forall (λ a, p a = false) l.
Proof. intros Hf. apply Forall_forall. intros a Ha. by apply (List.find_none _ _ Hf), list_elem_of_In. Qed.
Lemma validate_create_Ok f ok tr name device initiators any :
  validate_create f ok tr = Ok (name, device, initiators, any) →
  Forall (λ i, ok i = true) initiators ∧ selectors_ok (cf_interfaces f) ∧ tr = true ∧ (initiators = [] → any = true).
Proof.
  unfold validate_create. intros (n & _ & (d & _ & Hv)%bind_Ok)%bind_Ok. revert Hv.
  destruct (List.find (λ i, negb (ok i)) _) eqn:E1; [done|]. destruct (List.find bad_selector (cf_interfaces f)) eqn:E2; [done|].
  destruct tr; [|done]. intros [= <- <- <- <-]. split_and!; [|by apply find_none_bool|done|].
  - eapply Forall_impl; [by apply find_none_bool|]. intros i. by rewrite negb_false_iff.
  - intros ->. by rewrite orb_true_r.
Qed.
Lemma initiators_valid k l : Forall (λ i, is_ok (new k i) = true) l → Forall (λ i, Is_true (validator k i)) l.
Proof. intros Hl. eapply Forall_impl; [exact Hl|]. cbn. intros i. rewrite new_is_ok. by intros ->. Qed.
Lemma nfs_clients_valid rw l cs : nfs_clients_of rw l = Ok cs → Forall (λ c, Is_true (validator NtNfsClient (nce_client c))) cs.
Proof.
  unfold nfs_clients_of. rewrite mapM_Ok. induction 1 as [|x y l cs Hx _ IH]; constructor; [|done].
  destruct (new NtNfsClient x) as [c|e]; [|done]. injection Hx as <-. cbn. apply raw_ok.
Qed.
(** A printed address is short, so it is a valid client spec. *)
#[local] Open Scope N_scope.
Lemma octet_len n : n < 256 → slen (pretty n) <= 3.
Proof.
  intros Hn. apply N.leb_le. apply (forall_below (λ n, slen (pretty n) <=? 3) 256); [by vm_compute|lia].
Qed.
Lemma show_v4_len a b c d : a < 256 → b < 256 → c < 256 → d < 256 → slen (show_v4 a b c d) <= 15.
Proof.
  intros Ha Hb Hc Hd. unfold show_v4. rewrite !slen_app. apply octet_len in Ha, Hb, Hc, Hd.
  change (slen ".") with 1. lia.
Qed.
Lemma show_hex_len n : slen (show_hex n) <= 4.
Proof. unfold show_hex. repeat case_match; unfold slen; cbn; lia. Qed.
Lemma fmt_subslice_len l : slen (fmt_subslice l) <= 5 * N.of_nat (length l).
Proof.
  unfold fmt_subslice. induction l as [|x [|y l] IH]; [done|cbn; pose proof (show_hex_len x); lia|].
  change (join ":" (show_hex <$> (x :: y :: l))) with (show_hex x +:+ ":" +:+ join ":" (show_hex <$> (y :: l))).
  rewrite !slen_app. change (slen ":") with 1. pose proof (show_hex_len x). cbn [length] in *. lia.
Qed.
Lemma show_v6_len (s0 s1 s2 s3 s4 s5 s6 s7 : u16) :
  slen (show_v6 [raw s0; raw s1; raw s2; raw s3; raw s4; raw s5; raw s6; raw s7]) <= 128.
Proof.
  pose proof (uint_lt s6) as H6. pose proof (uint_lt s7) as H7. set (l := [_; _; _; _; _; _; _; _]).
  assert (Hg : ∀ sp : nat * nat, slen
    (let '(start, len) := sp in
     if (1 <? len)%nat then fmt_subslice (take start l) +:+ "::" +:+ fmt_subslice (drop (start + len) l)
     else fmt_subslice l) <= 128).
  { intros [st ln]. assert (Hl : (length l = 8)%nat) by done. destruct (1 <? ln)%nat.
    - rewrite !slen_app. change (slen "::") with 2. pose proof (fmt_subslice_len (take st l)) as H1.
      pose proof (fmt_subslice_len (drop (st + ln) l)) as H2. rewrite length_take in H1. rewrite length_drop in H2. lia.
    - pose proof (fmt_subslice_len l). lia. }
  subst l. unfold show_v6. repeat (case_match; try apply Hg). rewrite slen_app. change (slen "::ffff:") with 7.
  match goal with |- context [slen (show_v4 ?a ?b ?c ?d)] => assert (slen (show_v4 a b c d) <= 15); [|lia] end.
  apply show_v4_len; (apply N.Div0.div_lt_upper_bound; lia) || (apply N.mod_lt; lia).
Qed.
Lemma show_ip_client ip : validator NtNfsClient (show_ip ip).
Proof.
  pose proof (show_ip_chars ip) as Hc.
  assert (Hne : show_ip ip ≠ "") by (intros E; pose proof (parse_show_ip ip) as Hp; rewrite E in Hp; by vm_compute in Hp).
  assert (Hl : slen (show_ip ip) <= 128).
  { destruct ip as [a b c d|]; [|apply show_v6_len]. cbn [show_ip].
    pose proof (show_v4_len _ _ _ _ (uint_lt a) (uint_lt b) (uint_lt c) (uint_lt d)). lia. }
  assert (Hd : starts_with "-" (show_ip ip) = false).
  { destruct (show_ip ip) as [|ch rest]; [done|]. cbn in Hc. apply andb_True in Hc as [Hc _].
    destruct ch as [[] [] [] [] [] [] [] []]; done. }
  cbn. unfold nfs_client. rewrite Hd. destruct (show_ip ip) eqn:E; [done|]. rewrite <- E in *. rewrite !andb_True.
  split_and!; [by rewrite E|by apply Is_true_true, N.leb_le|done|by apply (all_chars_incl _ _ _ Hc)].
Qed.

(** ** Handlers *)

Section handlers.
Context {K : Kernel} {D : DocCodec} (file : path) {Q : Sqlite} {T : Clock} {R : RowCodec} {H : Helper}.
Lemma nvme_error_keeps id e : sop_keeps valid_doc (set_nvme_export_error file id e).
Proof. by apply with_nvme_keeps. Qed.
Lemma iscsi_error_keeps id e : sop_keeps valid_doc (set_iscsi_export_error file id e).
Proof. by apply with_iscsi_keeps. Qed.
Lemma nfs_error_keeps id e : sop_keeps valid_doc (set_nfs_export_error file id e).
Proof. by apply with_nfs_keeps. Qed.
#[local] Hint Resolve nvme_error_keeps iscsi_error_keeps nfs_error_keeps : keeps.
Lemma job_keeps j : hop_keeps valid_doc (run_job file j).
Proof. apply hop_keeps_job; auto using setting_keeps with keeps. Qed.
Lemma pass_keeps : hop_keeps valid_doc (reconcile_state file).
Proof. apply hop_keeps_reconcile; auto using setting_keeps with keeps. Qed.
Lemma change_keeps {A} (m : sop A) : sop_keeps valid_doc m → hop_keeps valid_doc (change_then_reconcile file m).
Proof. intros Hm. apply hop_keeps_change; auto using setting_keeps with keeps. Qed.
Lemma shown_keeps {A B} (m : sop A) (f : result string (option Z) → B) :
  sop_keeps valid_doc m → hop_keeps valid_doc (r ← change_then_reconcile file m; mret (f r)).
Proof. intros Hm. apply hop_keeps_bind; [by apply change_keeps|intros r; apply hop_keeps_ret]. Qed.
Lemma finish_register_keeps b c : hop_keeps valid_doc (finish_register file b c).
Proof. destruct b; [|apply hop_keeps_ret]. apply hop_keeps_bind; [apply hop_keeps_try, pass_keeps|intros r; apply hop_keeps_ret]. Qed.
Lemma finish_change_keeps m c : hop_keeps valid_doc m → hop_keeps valid_doc (finish_change file m c).
Proof.
  intros Hm. apply hop_keeps_bind; [by apply hop_keeps_try|intros [b|e]]; [apply finish_register_keeps|apply hop_keeps_ret].
Qed.

(** What the shared handlers need of a protocol. *)
Class ProtocolLaws (P : ExportProtocol) : Prop := {
  enabled_keeps id b : sop_keeps valid_doc (set_enabled id b);
  interfaces_keeps id l : selectors_ok l → sop_keeps valid_doc (set_interfaces id l);
  delete_keeps id : sop_keeps valid_doc (delete_export id);
  insert_keeps name device any initiators f :
    Forall (λ i, initiator_ok i = true) initiators → selectors_ok (cf_interfaces f) →
    sop_keeps valid_doc (insert_export name device any initiators f) }.
#[export] Instance Nvme_laws : ProtocolLaws (Nvme file).
Proof.
  split.
  - intros id b. by apply with_nvme_keeps.
  - intros id l Hl. apply with_nvme_keeps. intros e (H1 & H2 & H3 & _). split_and!; [done..|]. by apply dedup_Forall.
  - intros id. apply rewrite_keeps. intros d (H1 & H2 & H3). split_and!; [by apply filter_keeps|done|done].
  - intros name device any initiators f Hi Hs. apply ignore_keeps, insert_nvme_keeps. intros id.
    split_and!; [apply raw_ok|apply raw_ok| |]; cbn; apply dedup_Forall; [by apply (initiators_valid NtNqn)|done].
Qed.
#[export] Instance Iscsi_laws : ProtocolLaws (Iscsi file).
Proof.
  split.
  - intros id b. by apply with_iscsi_keeps.
  - intros id l Hl. apply with_iscsi_keeps. intros e (H1 & H2 & H3 & _). split_and!; [done..|]. by apply dedup_Forall.
  - intros id. apply rewrite_keeps. intros d (H1 & H2 & H3). split_and!; [done|by apply filter_keeps|done].
  - intros name device any initiators f Hi Hs. apply ignore_keeps, insert_iscsi_keeps. intros id.
    split_and!; [apply raw_ok|apply raw_ok| |]; cbn; apply dedup_Forall; [by apply (initiators_valid NtIqn)|done].
Qed.

Section protocol.
Context {P : ExportProtocol} {L : ProtocolLaws P}.
Lemma create_export_keeps fields : hop_keeps valid_doc (create_export file fields).
Proof.
  unfold create_export. destruct (validate_create _ _ _) as [[[[name device] initiators] any]|e] eqn:E; [|apply hop_keeps_ret].
  apply validate_create_Ok in E as (Hi & Hs & _). by apply shown_keeps, insert_keeps.
Qed.
Lemma toggle_export_keeps id b : hop_keeps valid_doc (toggle_export file id b).
Proof. apply shown_keeps, enabled_keeps. Qed.
Lemma edit_interfaces_keeps fields : hop_keeps valid_doc (edit_interfaces file fields).
Proof.
  unfold edit_interfaces. destruct (read_interfaces_form _) as [[id|] l]; [|apply hop_keeps_ret].
  destruct (List.find bad_selector l) eqn:E; [apply hop_keeps_ret|]. by apply shown_keeps, interfaces_keeps, find_none_bool.
Qed.
Lemma remove_export_keeps id : hop_keeps valid_doc (remove_export file id).
Proof.
  apply hop_keeps_bind; [apply hop_keeps_try, hop_keeps_store, delete_keeps|intros [u|e]; [|apply hop_keeps_ret]].
  apply hop_keeps_bind; [apply hop_keeps_try, pass_keeps|intros _; apply hop_keeps_ret].
Qed.
End protocol.
Lemma nfs_create_keeps f : hop_keeps valid_doc (nfs_create file f).
Proof.
  unfold nfs_create. destruct (new NtNfsExportPath _) as [p|e]; [|apply hop_keeps_ret].
  destruct (nfs_clients_of _ _) as [[|c cs]|e] eqn:E; try apply hop_keeps_ret. apply nfs_clients_valid in E.
  apply shown_keeps, insert_nfs_keeps. intros id. split_and!; [apply raw_ok|done|done].
Qed.
Lemma nfs_toggle_keeps id b : hop_keeps valid_doc (nfs_toggle file id b).
Proof. by apply shown_keeps, with_nfs_keeps. Qed.
Lemma nfs_delete_keeps id : hop_keeps valid_doc (nfs_delete file id).
Proof. apply shown_keeps, rewrite_keeps. intros d (H1 & H2 & H3). split_and!; [done|done|by apply filter_keeps]. Qed.
Lemma register_nvme_keeps id n : hop_keeps valid_doc (register_nvme file id n).
Proof.
  unfold register_nvme. rewrite new_is_ok. destruct (validator NtNqn n) eqn:Hn; [|apply hop_keeps_ret]. cbn [negb].
  apply hop_keeps_bind; [apply hop_keeps_get|intros d]. destruct (_ <$> _) as [[]|]; [apply finish_register_keeps| |apply hop_keeps_ret].
  apply finish_change_keeps, hop_keeps_store, add_initiator_keeps. by rewrite Hn.
Qed.
Lemma register_nfs_keeps id peer body : hop_keeps valid_doc (register_nfs file id peer body).
Proof.
  destruct peer as [ip|]; [|apply hop_keeps_ret]. cbn. destruct (default _ body); [|apply hop_keeps_ret].
  apply hop_keeps_bind; [apply hop_keeps_get|intros d]. destruct (existsb _ _); [|apply hop_keeps_ret].
  apply finish_change_keeps, hop_keeps_store, add_client_keeps, show_ip_client.
Qed.
End handlers.

(** ** The service as a transition system *)

(** What an operator or a paired client may ask for. *)
Inductive action : Type :=
| ACreate (iscsi : bool) (fields : list (string * string))
| AToggle (iscsi : bool) (id : Z) (enable : option bool)
| AInterfaces (iscsi : bool) (fields : list (string * string))
| ARemove (iscsi : bool) (id : Z)
| ANfsCreate (f : NfsForm)
| ANfsToggle (id : Z) (enable : option bool)
| ANfsDelete (id : Z)
| ARegisterNvme (id : Z) (hostnqn : string)
| ARegisterNfs (id : Z) (peer : option IpAddr) (body : option (result string bool)).
Section system.
Context {K : Kernel} {D : DocCodec} (file : path) {Q : Sqlite} {T : Clock} {R : RowCodec} {H : Helper}.
Definition protocol_of (iscsi : bool) : ExportProtocol := if iscsi then Iscsi file else Nvme file.
#[local] Instance protocol_laws b : ProtocolLaws (protocol_of b).
Proof. destruct b; apply _. Qed.
Definition perform (a : action) (s : site) : site :=
  match a with
  | ACreate b fields => (create_export file (P := protocol_of b) fields s).2
  | AToggle b id enable => (toggle_export file (P := protocol_of b) id enable s).2
  | AInterfaces b fields => (edit_interfaces file (P := protocol_of b) fields s).2
  | ARemove b id => (remove_export file (P := protocol_of b) id s).2
  | ANfsCreate f => (nfs_create file f s).2
  | ANfsToggle id enable => (nfs_toggle file id enable s).2
  | ANfsDelete id => (nfs_delete file id s).2
  | ARegisterNvme id n => (register_nvme file id n s).2
  | ARegisterNfs id peer body => (register_nfs file id peer body s).2
  end.
(** A request is served, or a background task runs to its end. *)
Inductive web_step : relation site :=
| step_request a s : web_step s (perform a s)
| step_job j l1 l2 s :
    st_jobs s = l1 ++ j :: l2 →
    web_step s (run_job file j {| st_web := st_web s; st_sent := st_sent s; st_jobs := l1 ++ l2 |}).2.
Lemma ran_keeps {A} (m : hop A) s : hop_keeps valid_doc m → valid_doc (site_doc s) → valid_doc (site_doc (m s).2).
Proof. intros Hm. exact (Hm s _ _ (surjective_pairing _)). Qed.
Lemma perform_valid a s : valid_doc (site_doc s) → valid_doc (site_doc (perform a s)).
Proof.
  destruct a; apply ran_keeps; auto using create_export_keeps, toggle_export_keeps, edit_interfaces_keeps, remove_export_keeps,
    nfs_create_keeps, nfs_toggle_keeps, nfs_delete_keeps, register_nvme_keeps, register_nfs_keeps, protocol_laws.
Qed.
Lemma steps_valid s s' : rtc web_step s s' → valid_doc (site_doc s) → valid_doc (site_doc s').
Proof.
  induction 1 as [|s1 s2 s3 Hs _ IH]; [done|]. intros Hv. apply IH. destruct Hs; [by apply perform_valid|].
  apply ran_keeps; [apply job_keeps|done].
Qed.

Lemma sort_Forall {A} (P : A → Prop) `{Ordered B} (f : A → B) l : Forall P l → Forall P (sort_by f l).
Proof. by rewrite sort_by_perm. Qed.
Lemma valid_ok_nil {A} k (f : A → string) l :
  Forall (λ i, Is_true (validator k (f i))) l → filter (λ i, Is_true (negb (is_ok (new k (f i))))) l = [].
Proof.
  induction 1 as [|i l Hi _ IH]; [done|]. rewrite filter_cons, decide_False; [done|]. rewrite new_is_ok. rewrite (Is_true_true_1 _ Hi). cbn. tauto.
Qed.
Lemma nvme_valid_issues e : nvme_valid e → nvme_issues e = [] ∧ ∃ n, nvme_nqn e = Ok n.
Proof.
  intros (Hn & Hd & Hi & _). split; [|by apply nvme_nqn_total]. unfold nvme_issues, nvme_render_error, invalid_initiators.
  rewrite new_is_ok. destruct (validator NtDevicePath _); [|done]. pose proof (valid_ok_nil NtNqn id _ Hi) as E. unfold id in E. by rewrite E.
Qed.
Lemma iscsi_valid_issues e : iscsi_valid e → (∃ n, iscsi_iqn e = Ok n) ∧ (iscsi_issues e = [] ↔ slen (iscsi_name e) <= 63).
Proof.
  intros (Hn & Hd & Hi & _). split; [by apply iscsi_iqn_total|]. unfold iscsi_issues, iscsi_render_error, invalid_initiators.
  rewrite !new_is_ok. apply export_name_forms in Hn as (_ & _ & Hb). cbn [validator] in *.
  pose proof (valid_ok_nil NtIqn id _ Hi) as E. unfold id in E. rewrite E. destruct (device_path _); [|done].
  destruct (backstore_name _) eqn:Eb; cbn [negb app fmap list_fmap].
  - split; [|done]. intros _. unfold backstore_name in Eb. apply andb_true_iff in Eb as [Eb _]. by apply N.leb_le.
  - split; [done|]. intros Hl. by specialize (Hb Hl).
Qed.
Lemma selector_parses l i : selectors_ok l → i ∈ l → ∃ pci, parse_listen_iface i = Some pci.
Proof.
  unfold selectors_ok. rewrite Forall_forall. intros Hs Hi. specialize (Hs i Hi). unfold bad_selector in Hs.
  destruct (parse_listen_iface i); [by eexists|done].
Qed.
Lemma nfs_valid_issues e : nfs_valid e → nfs_issues e = [].
Proof.
  intros (Hp & Hne & Hc). unfold nfs_issues, nfs_render_error. rewrite !new_is_ok. destruct (validator NtNfsExportPath _); [|done].
  cbn [negb]. rewrite (valid_ok_nil NtNfsClient nce_client) by done. destruct (nfs_clients e) as [|c cs]; [done|].
  rewrite filter_cons, decide_True; [done|]. inversion_clear Hc. by rewrite new_is_ok.
Qed.
Lemma listed_valid d : valid_doc d →
  Forall nvme_valid (list_nvme_exports d) ∧ Forall iscsi_valid (list_iscsi_exports d) ∧ Forall nfs_valid (list_nfs_exports d).
Proof.
  intros (H1 & H2 & H3). split_and!; [| |by apply sort_Forall].
  - apply Forall_fmap, sort_Forall. eapply Forall_impl; [exact H1|]. intros e (Hn & Hd & Hi & Hs). split_and!; try done. by apply sort_Forall.
  - apply Forall_fmap, sort_Forall. eapply Forall_impl; [exact H2|]. intros e (Hn & Hd & Hi & Hs). split_and!; try done. by apply sort_Forall.
Qed.

(** C11: whatever operators and paired clients ask for, in whatever order the
    requests and the background passes run and whichever writes and statements
    fail, a store that held only valid exports holds only exports without defect for
    the daemon, but for one: every NVMe-oF export has its NQN and nothing to complain
    about; every iSCSI export has its IQN, and there is nothing to complain about if
    and only if its name has at most 63 characters (the form admits 64, which the
    daemon refuses to serve); every pinned interface of these is a PCI address; every
    NFS export has a valid path and only valid clients, at least one of them; and the
    NVMe-oF configuration is rendered without a panic as long as its ports fit the
    identifiers. *)
Theorem exports_stay_renderable s s' :
  valid_doc (site_doc s) → rtc web_step s s' →
  let d := site_doc s' in
  (∀ e, e ∈ list_nvme_exports d →
    nvme_issues e = [] ∧ (∃ n, nvme_nqn e = Ok n) ∧ ∀ i, i ∈ nvme_interfaces e → ∃ pci, parse_listen_iface i = Some pci) ∧
  (∀ e, e ∈ list_iscsi_exports d →
    ((∃ n, iscsi_iqn e = Ok n) ∧ (iscsi_issues e = [] ↔ slen (iscsi_name e) <= 63)) ∧
    ∀ i, i ∈ iscsi_interfaces e → ∃ pci, parse_listen_iface i = Some pci) ∧
  (∀ e, e ∈ list_nfs_exports d → nfs_issues e = []) ∧
  (∀ dflt pci reserved,
    N.of_nat (key_count dflt pci (nvmet_enabled (list_nvme_exports d))) + 1 + N.of_nat (size reserved) <= 65534 →
    ∃ r, render_nvmet (list_nvme_exports d) dflt pci reserved = Ok r).
Proof.
  intros Hv Hs d. apply steps_valid, listed_valid in Hs as (H1 & H2 & H3); [|done].
  rewrite Forall_forall in H1. rewrite Forall_forall in H2. rewrite Forall_forall in H3. split_and!.
  - intros e He. apply H1 in He as Hve. apply nvme_valid_issues in Hve as Hi. split_and!; [apply Hi..|]. intros i.
    apply selector_parses, Hve.
  - intros e He. apply H2 in He as Hve. split; [by apply iscsi_valid_issues|]. intros i. apply selector_parses, Hve.
  - intros e He. by apply nfs_valid_issues, H3.
  - intros dflt pci reserved. apply render_nvmet_total. intros e He _. by apply H1 in He as [? _].
Qed.
End system.

(** ** The gate of the client API *)

Record attempt : Type := { at_header : option string; at_peer : option IpAddr; at_time : Z; at_next : hop api_reply }.
Definition at_bucket (a : attempt) : IpAddr := default UNSPECIFIED (at_peer a).
Section gate.
Context {S : Sha256}.
Fixpoint serve (l : list attempt) (m : failures) : hop (list api_reply) :=
  match l with
  | [] => mret []
  | a :: l =>
      '(r, m) ← bearer_auth (at_header a) (at_peer a) (at_time a) (at_next a) m;
      rs ← serve l m;
      mret (r :: rs)
  end.
(** The answers by a plain count of what the peer has tried before. *)
Fixpoint answers (past : list IpAddr) (l : list attempt) : list api_reply :=
  match l with
  | [] => []
  | a :: l =>
      let past := at_bucket a :: past in
      (if (30 <? length (filter (λ p, p = at_bucket a) past))%nat then TooManyFailures else Unauthorized) :: answers past l
  end.
(** The table holds the counts of what was tried since [t0]. *)
Definition counted (t0 : Z) (past : list IpAddr) (m : failures) : Prop :=
  ∀ p, match m !! p with
       | Some (n, first) => n = N.of_nat (length (filter (λ q, q = p) past)) ∧ (t0 <= first < t0 + WINDOW)%Z
       | None => filter (λ q, q = p) past = []
       end.
Lemma too_many_counted t0 past m p now :
  counted t0 past m → (t0 <= now < t0 + WINDOW)%Z →
  (too_many_failures p now m).1 = (30 <? length (filter (λ q, q = p) (p :: past)))%nat ∧
  counted t0 (p :: past) (too_many_failures p now m).2.
Proof.
  intros Hm Hn. unfold too_many_failures.
  assert (Hf : filter (λ kv : IpAddr * (N * Z), now - kv.2.2 < WINDOW)%Z m = m).
  { apply map_filter_id. intros q [n f] Hq. cbn. specialize (Hm q). rewrite Hq in Hm. destruct Hm as [_ Hm]. lia. }
  rewrite Hf. pose proof (Hm p) as Hp. destruct (default (0%N, now) (m !! p)) as [n first] eqn:E. cbn [fst snd].
  assert (Hc : n = N.of_nat (length (filter (λ q, q = p) past)) ∧ (t0 <= first < t0 + WINDOW)%Z).
  { destruct (m !! p) as [[n' f']|]; cbn in E; injection E as <- <-; [done|]. by rewrite Hp. }
  destruct Hc as [Hc Hw]. rewrite filter_cons, decide_True by done. cbn [length]. split.
  - unfold MAX_FAILURES. rewrite Hc. apply eq_true_iff_eq. rewrite N.ltb_lt, Nat.ltb_lt. lia.
  - intros q. destruct (decide (q = p)) as [->|Hne].
    + rewrite lookup_insert_eq, filter_cons, decide_True by done. cbn. lia.
    + rewrite lookup_insert_ne by done. rewrite filter_cons, decide_False by congruence. apply Hm.
Qed.
Lemma serve_counted t0 s l past m :
  counted t0 past m →
  Forall (λ a, authorized (site_doc s) (at_header a) = false ∧ (t0 <= at_time a < t0 + WINDOW)%Z) l →
  serve l m s = (Ok (answers past l), s).
Proof.
  revert past m. induction l as [|a l IH]; intros past m Hm Hl; [done|]. inversion_clear Hl as [|? ? [Ha Hw] Hl'].
  destruct (too_many_counted t0 past m (at_bucket a) (at_time a) Hm Hw) as [Hb Hc].
  cbn [serve answers]. unfold bearer_auth, mbind, hop_bind, get_config. cbn. rewrite Ha. unfold at_bucket in *.
  destruct (too_many_failures _ _ _) as [limited m']. cbn in Hb, Hc |- *. rewrite <- Hb.
  by rewrite (IH _ _ Hc Hl').
Qed.

(** Requests to the client API that carry no stored token (no header, another
    scheme, or a token whose hash is not in the store) never reach a handler and
    change nothing, whatever the handlers are; within one window from a fresh start
    each address is answered 401 thirty times and 429 from then on, and addresses
    do not count against each other. *)
Lemma api_gate_refuses t0 s l :
  Forall (λ a, authorized (site_doc s) (at_header a) = false ∧ (t0 <= at_time a < t0 + WINDOW)%Z) l →
  serve l ∅ s = (Ok (answers [] l), s).
Proof. apply serve_counted. intros p. by rewrite lookup_empty. Qed.
End gate.

(** ** A service at work *)

#[local] Instance demo_rows : RowCodec := {|
  args_json _ := Ok "[]"; json_args _ := Ok []; subs_json _ := Ok "[]"; json_subs _ := Ok [] |}.
#[local] Instance demo_docs : DocCodec := {| toml_doc _ := Ok ConfigDoc_default; doc_toml _ := Ok "a document" |}.
#[local] Instance demo_helper : Helper := {|
  task_call _ _ := CallFailed "connection refused"; dry_run _ := Ok (false, true, true, true) |}.
#[local] Existing Instances demo_sqlite demo_clock.
Definition demo_site : site := {|
  st_web := {| wb_db := {| db_doc := ConfigDoc_default; db_tree := ∅; db_clock := 0 |}; wb_tasks := ∅; wb_hub := ∅; wb_tick := 0 |};
  st_sent := []; st_jobs := [] |}.
Definition demo_file : path := ["state.toml"].
Definition demo_form : list (string * string) :=
  [("name", " vm1 "); ("device", "/dev/zvol/tank/vm1"); ("want_tcp", "on"); ("interfaces", "pci:0000:01:00.0");
   ("initiators", "nqn.2014-08.org.nvmexpress:h")].
Definition demo_created : site := @perform permissive _ demo_file _ _ _ _ (ACreate false demo_form) demo_site.
(** Created, and blamed for the failed pass once that has run. *)
Example demo_pass :
  match st_jobs demo_created with
  | [j] => (λ e, (nvme_name e, nvme_interfaces e, nvme_last_error e)) <$>
             list_nvme_exports (site_doc (@run_job permissive _ demo_file _ _ _ _ j demo_created).2)
  | _ => []
  end = [("vm1", ["pci:0000:01:00.0"], Some "helper unavailable: connection refused")].
Proof. vm_compute. reflexivity. Qed.
Lemma exports_stay_renderable_witness :
  nvme_name <$> list_nvme_exports (site_doc demo_created) = ["vm1"] ∧
  ∀ e, e ∈ list_nvme_exports (site_doc demo_created) → nvme_issues e = [].
Proof.
  split; [vm_compute; reflexivity|]. intros e He.
  destruct (@exports_stay_renderable permissive _ demo_file _ _ _ _ demo_site demo_created) as [Hn _].
  - split_and!; constructor.
  - apply rtc_once. apply step_request.
  - by apply Hn.
Defined.
#[local] Instance demo_sha : Sha256 := λ s, s.
Lemma api_gate_refuses_witness :
  serve (replicate 31 {| at_header := Some "Bearer gdt_bad"; at_peer := None; at_time := 5; at_next := mret (Registered None None) |})
    ∅ demo_site = (Ok (replicate 30 Unauthorized ++ [TooManyFailures]), demo_site).
Proof.
  apply (api_gate_refuses 0%Z). apply Forall_replicate. split; [vm_compute; reflexivity|]. vm_compute. split; [discriminate|reflexivity].
Defined.
