(* ===== verification/Snapshots.v ===== *)
(** * Snapshot schedules (snapshots.rs, routes/snapshots.rs)

    When a policy is due, what it creates, what its retention destroys, and the
    pages that edit policies and take snapshots by hand. Cron expressions (croner)
    and the calendar (chrono) are class parameters. *)
From Stdlib Require Import Ascii String.
From stdpp Require Import base option list strings sets gmap pretty.
From S2P Require Import Prelude Ordered Validate IpAddr Types Wire Ops Desired Task Fs Store Tasks ZfsView Site Exports.
#[local] Open Scope string_scope.
#[local] Open Scope list_scope.

(** ** Time *)

(** An expression, when it parses, gives the next occurrence strictly after an
    instant, if there is one. [in_calendar] are the seconds chrono can represent,
    [stamp] prints one as [%Y%m%d-%H%M%S] and [minute] as [%Y-%m-%d %H:%M UTC]. *)
Class Cron := {
  parse_cron : string → option (Z → option Z);
  in_calendar : Z → bool;
  stamp : Z → string;
  minute : Z → string }.
Section time.
Context {C : Cron}.
Definition due (cron : string) (last_run now : Z) : bool :=
  match parse_cron cron with
  | None => false
  | Some find_next_occurrence =>
      if in_calendar last_run then
        match find_next_occurrence last_run with
        | Some next => (next <=? now)%Z
        | None => false
        end
      else false
  end.
Definition snapshot_name (prefix : string) (now : Z) : string := prefix +:+ "-" +:+ stamp now.
Definition fmt_time (ts : Z) : string :=
  if (ts =? 0)%Z then "never" else if in_calendar ts then minute ts else "".
End time.

(** ** Retention *)

(** [a - b] on i64. *)
Definition sub_i64 (a b : Z) : panics Z :=
  let d := (a - b)%Z in
  if ((- 2 ^ 63 <=? d) && (d <? 2 ^ 63))%Z then Ok d else Err "attempt to subtract with overflow".
Definition is_auto (prefix name : string) : bool :=
  match split_once "@" name with
  | Some (_, s) => starts_with (prefix +:+ "-") s
  | None => false
  end.
(** [Reverse(created)] as a sort key. *)
Definition newest_first (snap : string * Z) : N := Z.to_N (2 ^ 63 - 1 - snap.2).
(** The test of one snapshot at its rank; the second operand of [||] is only
    evaluated when the first is false. *)
Definition expired (keep_last keep_days : option u32) (now : Z) (rank : nat) (created : Z) : panics bool :=
  if match keep_last with Some k => (raw k <=? N.of_nat rank)%N | None => false end then Ok true
  else
    match keep_days with
    | None => Ok false
    | Some d => age ← sub_i64 now created; Ok (Z.of_N (raw d) * 86400 <=? age)%Z
    end.
Fixpoint doomed_from (keep_last keep_days : option u32) (now : Z) (rank : nat) (l : list (string * Z)) : panics (list string) :=
  match l with
  | [] => Ok []
  | (name, created) :: l =>
      gone ← expired keep_last keep_days now rank created;
      rest ← doomed_from keep_last keep_days now (S rank) l;
      Ok (if (gone : bool) then name :: rest else rest)
  end.
Definition to_destroy (snaps : list (string * Z)) (prefix : string) (keep_last keep_days : option u32) (now : Z) :
    panics (list string) :=
  match keep_last, keep_days with
  | None, None => Ok []
  | _, _ =>
      let mine := sort_by newest_first (List.filter (λ s, is_auto prefix s.1) snaps) in
      doomed ← doomed_from keep_last keep_days now 1 (drop 1 mine);
      Ok (sort doomed)
  end.

(** ** The scheduler *)

Section scheduler.
Context {K : Kernel} {D : DocCodec} (file : path) {Q : Sqlite} {T : Clock} {R : RowCodec} {H : Helper} {Sh : Shell} {C : Cron}.
(** The listing is taken when it is asked for. *)
Definition list_snapshots : hop (result string (option (list Snapshot))) := λ s,
  (Ok (snapshots (length (st_sent s))), s).
Definition hop_panics {A} (r : panics A) : hop A := λ s,
  match r with Ok a => (Ok a, s) | Err p => (Err (Panicked p), s) end.
Definition destroy_one (full : string) : hop unit :=
  match split_once "@" full with
  | None => mret tt
  | Some (ds, snap) =>
      match new NtDatasetName ds, new NtSnapName snap with
      | Ok dataset, Ok snap =>
          _ ← hop_try (run_now "snapshot-retention" ("retention destroy " +:+ full)
                (RSnapshotDestroy {| snapshot_destroy_dataset := dataset; snapshot_destroy_snap := snap |}));
          mret tt
      | _, _ => mret tt
      end
  end.
Definition of_dataset (dataset : string) (all : list Snapshot) : list (string * Z) :=
  (λ s, (sn_name s, sn_creation s)) <$> List.filter (λ s, starts_with (dataset +:+ "@") (sn_name s)) all.
Definition retention (p : SnapshotPolicy) (now : Z) : hop unit :=
  all ← list_snapshots;
  match all with
  | Ok (Some all) =>
      doomed ← hop_panics (to_destroy (of_dataset (sp_dataset p) all) (sp_prefix p) (sp_keep_last p) (sp_keep_days p) now);
      hop_for doomed destroy_one
  | _ => mret tt
  end.
Definition run_policy (p : SnapshotPolicy) (now : Z) : hop unit :=
  marked ← hop_try (on_store (set_policy_last_run file (sp_id p) now));
  match marked with
  | Err _ => mret tt
  | Ok _ =>
      match new NtDatasetName (sp_dataset p), new NtSnapName (snapshot_name (sp_prefix p) now) with
      | Ok dataset, Ok snap =>
          outcome ← hop_try (run_now "snapshot-create" ("scheduled snapshot " +:+ as_str dataset +:+ "@" +:+ as_str snap)
                      (RSnapshotCreate {| snapshot_create_dataset := dataset; snapshot_create_snap := snap |}));
          match outcome with
          | Ok o => if to_ok o then retention p now else mret tt
          | Err _ => mret tt
          end
      | _, _ => mret tt
      end
  end.
(** One turn of the loop, at a given time; the list is read once. *)
Definition scheduler_tick (now : Z) : hop unit :=
  d ← get_config;
  hop_for (List.filter sp_enabled (list_policies d))
    (λ p, if due (sp_cron p) (sp_last_run p) now then run_policy p now else mret tt).
Fixpoint scheduler (ticks : list Z) : hop unit :=
  match ticks with
  | [] => mret tt
  | now :: ticks => _ ← scheduler_tick now; scheduler ticks
  end.

(** ** The pages *)

Record PolicyForm : Type := { pf_dataset : string; pf_cron : string; pf_prefix : string; pf_keep_last : string; pf_keep_days : string }.
Definition parse_keep (s : string) : option (option u32) :=
  match trim s with
  | EmptyString => Some None
  | n => Some <$> parse_uint 32 n
  end.
(** The page of a policy takes a message but no task link. *)
Definition policy_create (f : PolicyForm) : hop response :=
  if negb (is_ok (new NtDatasetName (trim (pf_dataset f)))) then
    mret (ListPage (failed ("invalid dataset " +:+ debug_str (pf_dataset f))))
  else
    let cron := trim (pf_cron f) in
    match parse_cron cron with
    | None => mret (ListPage (failed ("invalid cron expression " +:+ debug_str cron)))
    | Some _ =>
        if negb (is_ok (new NtSnapName (trim (pf_prefix f)))) then
          mret (ListPage (failed ("invalid prefix " +:+ debug_str (pf_prefix f))))
        else
          match parse_keep (pf_keep_last f), parse_keep (pf_keep_days f) with
          | Some keep_last, Some keep_days =>
              let policy := {| sp_id := 0; sp_dataset := trim (pf_dataset f); sp_cron := cron; sp_prefix := trim (pf_prefix f);
                               sp_keep_last := keep_last; sp_keep_days := keep_days; sp_enabled := true; sp_last_run := 0 |} in
              r ← hop_try (on_store (insert_policy file policy));
              mret (ListPage match r with
                             | Ok _ => flashed ("policy created for " +:+ sp_dataset policy) None
                             | Err e => failed e
                             end)
          | _, _ => mret (ListPage (failed "keep limits must be numbers or empty"))
          end
    end.
Definition policy_toggle (id : Z) (enable : option bool) : hop response :=
  let enable := default false enable in
  r ← hop_try (on_store (set_policy_enabled file id enable));
  mret (DetailPage id match r with
                      | Ok _ => flashed ("policy " +:+ (if enable then "enabled" else "disabled")) None
                      | Err e => failed e
                      end).
Definition policy_delete (id : Z) : hop response :=
  r ← hop_try (on_store (delete_policy file id));
  mret match r with
       | Ok _ => RedirectTo "/snapshots"
       | Err e => DetailPage id (failed e)
       end.
Definition manual_snapshot (dataset name : string) : hop response :=
  match new NtDatasetName (trim dataset), new NtSnapName (trim name) with
  | Ok dataset, Ok snap =>
      let title := "snapshot " +:+ as_str dataset +:+ "@" +:+ as_str snap in
      r ← hop_try (start "snapshot-create" title
            (RSnapshotCreate {| snapshot_create_dataset := dataset; snapshot_create_snap := snap |}));
      mret (ListPage match r with
                     | Ok id => flashed ("started " +:+ title) (Some id)
                     | Err e => failed e
                     end)
  | _, _ => mret (ListPage (failed "invalid dataset or snapshot name"))
  end.
(** The page of a snapshot is named by the snapshot. *)
Inductive snap_response : Type :=
| SnapPage (name : string) (n : notice)
| ToSnapshots.
Definition snapshot_delete (name : string) : hop snap_response :=
  let invalid := mret (SnapPage name (failed "invalid snapshot name")) in
  match split_once "@" name with
  | None => invalid
  | Some (dataset, snap) =>
      match new NtDatasetName dataset, new NtSnapName snap with
      | Ok dataset, Ok snap =>
          r ← hop_try (start "snapshot-destroy" ("destroy " +:+ name)
                (RSnapshotDestroy {| snapshot_destroy_dataset := dataset; snapshot_destroy_snap := snap |}));
          mret match r with
               | Ok _ => ToSnapshots
               | Err e => SnapPage name (failed e)
               end
      | _, _ => invalid
      end
  end.
(** The policy table. *)
Record PolicyRow : Type := {
  pr_id : Z; pr_dataset : string; pr_cron : string; pr_prefix : string; pr_keep : string; pr_enabled : bool; pr_last_run : string }.
Definition keep_text (keep_last keep_days : option u32) : string :=
  match keep_last, keep_days with
  | None, None => "everything"
  | _, _ =>
      join ", " (omap id [(λ n : u32, "last " +:+ pretty (raw n)) <$> keep_last; (λ d : u32, pretty (raw d) +:+ " days") <$> keep_days])
  end.
Definition policy_row (p : SnapshotPolicy) : PolicyRow := {|
  pr_id := sp_id p; pr_dataset := sp_dataset p; pr_cron := sp_cron p; pr_prefix := sp_prefix p;
  pr_keep := keep_text (sp_keep_last p) (sp_keep_days p); pr_enabled := sp_enabled p; pr_last_run := fmt_time (sp_last_run p) |}.
(** [gather] and [gather_policy_detail]; a failed listing shows no datasets. *)
Definition gather_policies : hop (list PolicyRow * list string) := λ s,
  (Ok (policy_row <$> list_policies (site_doc s),
       match datasets (length (st_sent s)) with Ok (Some l) => ds_name <$> l | _ => [] end), s).
Definition gather_policy_detail (id : Z) : hop (option PolicyRow) :=
  d ← get_config;
  mret (policy_row <$> List.find (λ p, bool_decide (sp_id p = id)) (list_policies d)).
End scheduler.
