(* ===== verification/SnapshotFacts.v ===== *)
(** * Snapshot schedules: what retention spares, what a policy asks for, when it fires *)
From Stdlib Require Import Ascii String Sorted.
From stdpp Require Import base option list strings sets gmap pretty sorting.
From S2P Require Import Prelude Ordered Validate IpAddr Types Wire Ops Desired Task Fs Store StoreFacts Tasks ZfsView Site Exports Snapshots.
From S2P Require Import Replies TasksFacts ExportsFacts DotsFacts.
#[local] Open Scope string_scope.
#[local] Open Scope list_scope.

(** ** Retention *)

Lemma elem_filter_b {A} (p : A → bool) l a : a ∈ List.filter p l ↔ a ∈ l ∧ p a = true.
Proof. by rewrite !list_elem_of_In, filter_In. Qed.
Definition is_i64 (n : Z) : Prop := (- 2 ^ 63 <= n < 2 ^ 63)%Z.
Lemma newest_first_le (a b : string * Z) : is_i64 a.2 → is_i64 b.2 → le_by newest_first a b ↔ (b.2 <= a.2)%Z.
Proof.
  intros Ha Hb. unfold le_by, newest_first. unfold is_i64 in *.
  assert (Hn : ∀ x y : N, ole x y ↔ (x <= y)%N).
  { intros x y. unfold ole, ocmp. cbn. destruct (N.compare_spec x y); split; try done; lia. }
  rewrite Hn. lia.
Qed.
Lemma doomed_from_elem kl kd now rank l ds n :
  doomed_from kl kd now rank l = Ok ds →
  n ∈ ds ↔ ∃ i c, l !! i = Some (n, c) ∧ expired kl kd now (rank + i) c = Ok true.
Proof.
  revert rank ds. induction l as [|[m c] l IH]; intros rank ds; cbn [doomed_from].
  { intros [= <-]. split; [by intros ?%elem_of_nil|]. by intros (i & c & ? & _). }
  intros (gone & Hg & (rest & Hr & Ho)%bind_Ok)%bind_Ok. apply Ok_eq in Ho as <-. specialize (IH _ _ Hr).
  assert (Hd : n ∈ rest ↔ ∃ i c, l !! i = Some (n, c) ∧ expired kl kd now (rank + S i) c = Ok true).
  { rewrite IH. by setoid_rewrite Nat.add_succ_r. }
  transitivity (gone = true ∧ n = m ∨ n ∈ rest); [destruct gone; rewrite ?elem_of_cons; naive_solver|]. rewrite Hd. split.
  - intros [[-> ->]|(i & c' & Hi & He)]; [exists 0%nat, c; by rewrite Nat.add_0_r|by exists (S i), c'].
  - intros ([|i] & c' & Hi & He); [|right; by exists i, c']. injection Hi as -> ->. rewrite Nat.add_0_r, Hg in He.
    injection He as ->. by left.
Qed.
(** The snapshots of a policy, newest first. *)
Definition mine (snaps : list (string * Z)) (prefix : string) : list (string * Z) :=
  sort_by newest_first (List.filter (λ s, is_auto prefix s.1) snaps).
Lemma elem_mine snaps prefix n c : (n, c) ∈ mine snaps prefix ↔ (n, c) ∈ snaps ∧ is_auto prefix n = true.
Proof. unfold mine. by rewrite sort_by_perm, elem_filter_b. Qed.
Lemma to_destroy_elem snaps prefix kl kd now doomed n :
  to_destroy snaps prefix kl kd now = Ok doomed →
  n ∈ doomed ↔ ∃ i c, mine snaps prefix !! i = Some (n, c) ∧ (0 < i)%nat ∧ expired kl kd now i c = Ok true.
Proof.
  unfold to_destroy. intros Hd.
  assert (Hcase : kl = None ∧ kd = None ∧ doomed = [] ∨
    ∃ ds, doomed_from kl kd now 1 (drop 1 (mine snaps prefix)) = Ok ds ∧ doomed = sort ds).
  { destruct kl, kd; [..|injection Hd as <-; by left]; right; apply bind_Ok in Hd as (ds & Hd & Ho); apply Ok_eq in Ho as <-; by exists ds. }
  clear Hd. destruct Hcase as [(-> & -> & ->)|(ds & Hd & ->)].
  - split; [by intros ?%elem_of_nil|]. by intros (i & c & _ & _ & He).
  - rewrite sort_perm, (doomed_from_elem _ _ _ _ _ _ _ Hd). setoid_rewrite lookup_drop. split.
    + intros (i & c & Hi & He). exists (1 + i)%nat, c. split_and!; [done|lia|done].
    + intros (i & c & Hi & H0 & He). exists (i - 1)%nat, c. by replace (1 + (i - 1))%nat with i by lia.
Qed.
Lemma sorted_lookup {A} (R : relation A) l i j a b :
  StronglySorted R l → l !! i = Some a → l !! j = Some b → (i < j)%nat → R a b.
Proof.
  intros Hs. revert i j. induction Hs as [|x l Hs IH Hx]; intros i j Hi Hj Hij; [done|].
  destruct j as [|j]; [lia|]. destruct i as [|i]; cbn in Hi, Hj; [|by apply (IH i j); auto with lia].
  injection Hi as ->. rewrite Forall_forall in Hx. apply Hx. by eapply list_elem_of_lookup_2.
Qed.
(** How many of the others go before a snapshot of second [c]: those that are newer,
    and those of the same second that are listed before it. *)
Definition ahead (c : Z) (before after : list (string * Z)) : nat :=
  length (List.filter (λ s, (c <=? s.2)%Z) before) + length (List.filter (λ s, (c <? s.2)%Z) after).
Lemma newest_first_leb (a b : string * Z) :
  is_i64 a.2 → is_i64 b.2 → oleb (newest_first a) (newest_first b) = (b.2 <=? a.2)%Z.
Proof.
  intros Ha Hb. apply eq_bool_prop_intro. rewrite oleb_spec. change (ole _ _) with (le_by newest_first a b).
  rewrite newest_first_le by done. by rewrite Is_true_true, Z.leb_le.
Qed.
Lemma insert_passes a pre post :
  Forall (λ b, (b.2 <=? a.2)%Z = false) pre → is_i64 a.2 → Forall (λ s, is_i64 s.2) pre →
  insert_by newest_first a (pre ++ post) = pre ++ insert_by newest_first a post.
Proof.
  intros Hp Ha. induction Hp as [|b pre Hb _ IH]; intros H64; [done|]. inversion_clear H64. cbn.
  rewrite newest_first_leb, Hb by done. f_equal. by apply IH.
Qed.
Lemma sorted_range l : Forall (λ s : string * Z, is_i64 s.2) l → Forall (λ s, is_i64 s.2) (sort_by newest_first l).
Proof. by rewrite sort_by_perm. Qed.
Lemma sorted_down l : Forall (λ s : string * Z, is_i64 s.2) l → StronglySorted (λ a b, (b.2 <= a.2)%Z) (sort_by newest_first l).
Proof.
  intros Hf%sorted_range. pose proof (sort_by_sorted newest_first l) as Hs. induction Hs as [|x k Hs IH Hx]; constructor;
    inversion_clear Hf as [|? ? Hx64 Hl]; [by apply IH|]. rewrite Forall_forall in *. intros y Hy. apply newest_first_le; auto.
Qed.
(** The first one goes before all but the newer ones. *)
Lemma insert_rank a l :
  StronglySorted (λ a b, (b.2 <= a.2)%Z) l → is_i64 a.2 → Forall (λ s, is_i64 s.2) l →
  ∃ pre post, insert_by newest_first a l = pre ++ a :: post ∧ length pre = length (List.filter (λ s, (a.2 <? s.2)%Z) l).
Proof.
  intros Hs Ha. induction Hs as [|b l Hs IH Hb]; intros H64; [by exists [], []|]. inversion_clear H64 as [|? ? Hb64 Hl]. cbn.
  rewrite newest_first_leb by done. destruct (b.2 <=? a.2)%Z eqn:E.
  - exists [], (b :: l). split; [done|]. apply Z.leb_le in E. replace (a.2 <? b.2)%Z with false by (symmetry; apply Z.ltb_ge; lia).
    replace (List.filter _ l) with (@nil (string * Z)); [done|]. symmetry. apply elem_of_nil_inv. intros y [Hy Hc]%elem_filter_b.
    rewrite Forall_forall in Hb. apply Hb in Hy. lia.
  - destruct (IH Hl) as (pre & post & -> & Hlen). exists (b :: pre), post. split; [done|]. apply Z.leb_gt in E.
    replace (a.2 <? b.2)%Z with true by (symmetry; apply Z.ltb_lt; lia). cbn. by rewrite Hlen.
Qed.
Lemma filter_perm_len {A} (p : A → bool) l k : l ≡ₚ k → length (List.filter p l) = length (List.filter p k).
Proof. induction 1; cbn; repeat case_match; cbn; congruence. Qed.
Lemma newest_rank before a after :
  Forall (λ s, is_i64 s.2) (before ++ a :: after) →
  ∃ pre post, sort_by newest_first (before ++ a :: after) = pre ++ a :: post ∧ length pre = ahead a.2 before after.
Proof.
  induction before as [|x before IH]; intros Hf; cbn [app] in Hf; inversion_clear Hf as [|? ? Hx Hf'].
  - cbn [app sort_by]. unfold ahead. cbn. rewrite <- (filter_perm_len _ _ _ (sort_by_perm newest_first after)).
    apply insert_rank; [by apply sorted_down|done|by apply sorted_range].
  - destruct (IH Hf') as (pre & post & E & Hlen). cbn [app sort_by]. pose proof (sorted_down _ Hf') as Hs. pose proof (sorted_range _ Hf') as H64.
    rewrite E in Hs, H64 |- *. apply Forall_app in H64 as [Hpre H64]. inversion_clear H64 as [|? ? Ha Hpost].
    unfold ahead. cbn [List.filter]. destruct (a.2 <=? x.2)%Z eqn:Ex.
    + assert (Hi : ∃ pre' : list (string * Z), insert_by newest_first x (pre ++ a :: post) = pre' ++ a :: post ∧ length pre' = S (length pre)).
      { clear -Hx Hpre Ha Ex. induction pre as [|b pre IH]; cbn; rewrite newest_first_leb by (done || by inversion_clear Hpre).
        - rewrite Ex. by exists [x].
        - inversion_clear Hpre. destruct (b.2 <=? x.2)%Z; [by exists (x :: b :: pre)|].
          destruct IH as (pre' & -> & Hl); [done|]. exists (b :: pre'). cbn. by rewrite Hl. }
      destruct Hi as (pre' & -> & Hl). exists pre', post. split; [done|]. rewrite Hl, Hlen. done.
    + apply Z.leb_gt in Ex. rewrite insert_passes; [|apply Forall_forall; intros b Hb|done|done].
      * cbn. rewrite newest_first_leb by done. replace (a.2 <=? x.2)%Z with false by (symmetry; apply Z.leb_gt; lia). by eexists _, _.
      * apply Z.leb_gt. assert (a.2 <= b.2)%Z; [|lia]. apply (StronglySorted_app_1_elem_of (λ a b : string * Z, (b.2 <= a.2)%Z) pre (a :: post)); [exact Hs|exact Hb|left].
Qed.
Lemma NoDup_fmap_filter_b {A B} (f : A → B) (p : A → bool) l : NoDup (f <$> l) → NoDup (f <$> List.filter p l).
Proof.
  induction l as [|a l IH]; cbn; [done|]. rewrite NoDup_cons. intros [Ha Hl]. destruct (p a); [|by apply IH]. cbn.
  apply NoDup_cons. split; [|by apply IH]. intros (b & E & [Hb _]%elem_filter_b)%list_elem_of_fmap. apply Ha.
  rewrite E. apply list_elem_of_fmap. eauto.
Qed.
(** The test at a rank, as a proposition. *)
Lemma expired_spec kl kd now rank c b :
  expired kl kd now rank c = Ok b →
  b = true ↔ (∃ k, kl = Some k ∧ (raw k <= N.of_nat rank)%N) ∨ ∃ d, kd = Some d ∧ (Z.of_N (raw d) * 86400 <= now - c)%Z.
Proof.
  unfold expired, sub_i64. intros He. set (left := match kl with Some k => _ | None => false end) in He.
  assert (Hl : left = true ↔ ∃ k, kl = Some k ∧ (raw k <= N.of_nat rank)%N).
  { subst left. destruct kl as [k|]; [rewrite N.leb_le; naive_solver|naive_solver]. }
  rewrite <- Hl. destruct left; [injection He as <-; tauto|]. destruct kd as [d|].
  - revert He. case_match; [|done]. cbn. intros [= <-]. rewrite Z.leb_le. naive_solver.
  - injection He as <-. naive_solver.
Qed.
Lemma mine_sorted snaps prefix :
  Forall (λ s, is_i64 s.2) snaps → StronglySorted (λ a b, (b.2 <= a.2)%Z) (mine snaps prefix).
Proof. intros Hf. apply sorted_down. rewrite Forall_forall in *. intros s [Hs _]%elem_filter_b. by apply Hf. Qed.
(** The first of them is never in the list. *)
Lemma newest_spared snaps prefix kl kd now doomed n c :
  Forall (λ s, is_i64 s.2) snaps → NoDup snaps.*1 → to_destroy snaps prefix kl kd now = Ok doomed →
  mine snaps prefix !! 0%nat = Some (n, c) →
  n ∉ doomed ∧ ∀ n' c', (n', c') ∈ snaps → is_auto prefix n' = true → (c' <= c)%Z.
Proof.
  intros Hf Hn Hd H0. split.
  - intros (i & c' & Hi & Hpos & _)%(to_destroy_elem _ _ _ _ _ _ _ Hd).
    assert (Hnd : NoDup (mine snaps prefix).*1).
    { unfold mine. rewrite sort_by_perm. apply NoDup_fmap_filter_b. done. }
    pose proof (NoDup_lookup _ 0 i n Hnd) as Hl. rewrite !list_lookup_fmap, H0, Hi in Hl. specialize (Hl eq_refl eq_refl). lia.
  - intros n' c' Hin Ha. assert (Hm : (n', c') ∈ mine snaps prefix) by by apply elem_mine.
    apply list_elem_of_lookup in Hm as [[|i] Hi].
    + rewrite H0 in Hi. injection Hi as -> ->. lia.
    + apply (sorted_lookup _ _ _ _ _ _ (mine_sorted _ prefix Hf) H0 Hi). lia.
Qed.

Lemma doomed_from_total kl kd now rank l ds i n c :
  doomed_from kl kd now rank l = Ok ds → l !! i = Some (n, c) → ∃ b, expired kl kd now (rank + i) c = Ok b.
Proof.
  revert rank ds i. induction l as [|[m c'] l IH]; intros rank ds i; cbn [doomed_from]; [done|].
  intros (gone & Hg & (rest & Hr & _)%bind_Ok)%bind_Ok. destruct i as [|i]; cbn.
  - intros [= -> ->]. rewrite Nat.add_0_r. eauto.
  - rewrite Nat.add_succ_r. apply (IH (S rank) rest i Hr).
Qed.
Lemma to_destroy_total snaps prefix kl kd now doomed i n c :
  to_destroy snaps prefix kl kd now = Ok doomed → mine snaps prefix !! i = Some (n, c) → (0 < i)%nat →
  ∃ b, expired kl kd now i c = Ok b.
Proof.
  unfold to_destroy. intros Hd Hi Hpos. fold (mine snaps prefix) in Hd. destruct i as [|i]; [lia|].
  assert (Hl : drop 1 (mine snaps prefix) !! i = Some (n, c)) by by rewrite lookup_drop.
  destruct kl, kd; [..|by exists false];
    apply bind_Ok in Hd as (ds & Hd & _); exact (doomed_from_total _ _ _ _ _ _ _ _ _ Hd Hl).
Qed.
Lemma rank_reference snaps prefix kl kd now doomed before n c after :
  Forall (λ s, is_i64 s.2) snaps → NoDup snaps.*1 → to_destroy snaps prefix kl kd now = Ok doomed →
  List.filter (λ s, is_auto prefix s.1) snaps = before ++ (n, c) :: after →
  (∃ i c', mine snaps prefix !! i = Some (n, c') ∧ (0 < i)%nat ∧ expired kl kd now i c' = Ok true) ↔
  (0 < ahead c before after)%nat ∧
    ((∃ k, kl = Some k ∧ (raw k <= N.of_nat (ahead c before after))%N) ∨ ∃ d, kd = Some d ∧ (Z.of_N (raw d) * 86400 <= now - c)%Z).
Proof.
  intros Hf Hn Hd Hsplit. assert (Hf' : Forall (λ s, is_i64 s.2) (before ++ (n, c) :: after)).
  { rewrite <- Hsplit, Forall_forall. intros s [Hs _]%elem_filter_b. rewrite Forall_forall in Hf. by apply Hf. }
  destruct (newest_rank _ _ _ Hf') as (pre & post & E & Hlen). cbn [snd] in Hlen.
  assert (Em : mine snaps prefix = pre ++ (n, c) :: post) by (unfold mine; by rewrite Hsplit).
  assert (Hi : mine snaps prefix !! length pre = Some (n, c)) by (rewrite Em; by apply list_lookup_middle).
  assert (Hu : ∀ j c', mine snaps prefix !! j = Some (n, c') → j = length pre ∧ c' = c).
  { intros j c' Hj. assert (Hnn : NoDup (mine snaps prefix).*1) by (unfold mine; rewrite sort_by_perm; by apply NoDup_fmap_filter_b).
    assert (j = length pre) as ->; [|rewrite Hi in Hj; by injection Hj as ->].
    apply (NoDup_lookup _ j (length pre) n Hnn); rewrite list_lookup_fmap; by rewrite ?Hi, ?Hj. }
  rewrite <- Hlen. split.
  - intros (j & c' & Hj & Hpos & He). apply Hu in Hj as [-> ->]. split; [done|]. by apply (expired_spec _ _ _ _ _ _ He).
  - intros [Hpos Hc]. exists (length pre), c. split_and!; [done..|]. destruct (to_destroy_total _ _ _ _ _ _ _ _ _ Hd Hi Hpos) as [b Hb].
    rewrite Hb. f_equal. by apply (expired_spec _ _ _ _ _ _ Hb).
Qed.

(** C20: of a listing with distinct names, retention only ever names snapshots with the
    policy's prefix and a dash after the first @ (also those of a policy whose prefix
    extends this one by a dash), and with no limit names none. The newest of them is
    spared: some snapshot with the prefix, at least as recent as every other, is not
    named. And the list is exactly the reference: a snapshot goes if and only if at
    least one other is ahead of it (newer, or of the same second and listed before it)
    and either [keep_last] are, or [keep_days] days have passed since it was created. *)
Theorem retention_matches_reference snaps prefix kl kd now doomed :
  Forall (λ s, is_i64 s.2) snaps → NoDup snaps.*1 →
  to_destroy snaps prefix kl kd now = Ok doomed →
  (∀ n, n ∈ doomed → is_auto prefix n = true ∧ ∃ c, (n, c) ∈ snaps) ∧
  (kl = None → kd = None → doomed = []) ∧
  ((∃ s, s ∈ snaps ∧ is_auto prefix s.1 = true) →
    ∃ n c, (n, c) ∈ snaps ∧ is_auto prefix n = true ∧ n ∉ doomed ∧
      ∀ n' c', (n', c') ∈ snaps → is_auto prefix n' = true → (c' <= c)%Z) ∧
  (∀ before n c after, List.filter (λ s, is_auto prefix s.1) snaps = before ++ (n, c) :: after →
   n ∈ doomed ↔ (0 < ahead c before after)%nat ∧
     ((∃ k, kl = Some k ∧ (raw k <= N.of_nat (ahead c before after))%N) ∨ ∃ d, kd = Some d ∧ (Z.of_N (raw d) * 86400 <= now - c)%Z)).
Proof.
  intros Hf Hn Hd. split_and!.
  - intros n (i & c & Hi & _)%(to_destroy_elem _ _ _ _ _ _ _ Hd). apply list_elem_of_lookup_2, elem_mine in Hi as [? ?]. eauto.
  - intros -> ->. cbn in Hd. by injection Hd as <-.
  - intros ([n c] & Hin & Ha). assert (Hm : (n, c) ∈ mine snaps prefix) by by apply elem_mine.
    destruct (mine snaps prefix) as [|[n0 c0] l] eqn:El; [by apply elem_of_nil in Hm|]. exists n0, c0.
    assert (H0 : mine snaps prefix !! 0%nat = Some (n0, c0)) by by rewrite El.
    apply list_elem_of_lookup_2 in H0 as Hin0. apply elem_mine in Hin0 as [Hin0 Ha0].
    split_and!; [done|done|..]; by eapply newest_spared.
  - intros before n c after Hsplit. rewrite (to_destroy_elem _ _ _ _ _ _ _ Hd). by eapply rank_reference.
Qed.

(** ** What a policy asks for *)

(** Requests were sent; the store was not touched. *)
Definition asked (s s' : site) (l : list Ops.request) : Prop :=
  st_sent s' = st_sent s ++ l ∧ wb_db (st_web s') = wb_db (st_web s).
Lemma asked_nil s : asked s s [].
Proof. split; [by rewrite app_nil_r|done]. Qed.
Lemma asked_app s1 s2 s3 l1 l2 : asked s1 s2 l1 → asked s2 s3 l2 → asked s1 s3 (l1 ++ l2).
Proof. intros [E1 H1] [E2 H2]. split; [by rewrite E2, E1, app_assoc|congruence]. Qed.
Definition full_name (d : SnapshotDestroy) : string := as_str (snapshot_destroy_dataset d) +:+ "@" +:+ as_str (snapshot_destroy_snap d).
(** Listed creation times fit an i64. *)
Lemma parse_i64_range t z : parse_i64 t = Some z → is_i64 z.
Proof.
  assert (Hu : ∀ s, (λ x : uint 63, Z.of_N (raw x)) <$> parse_uint 63 s = Some z → is_i64 z).
  { intros s (x & _ & ->)%fmap_Some. pose proof (uint_lt x). unfold is_i64. lia. }
  unfold parse_i64. repeat case_match; try apply Hu; [done|].
  intros (n & _ & Hn)%bind_Some. revert Hn. case_match eqn:E; [|done]. intros [= <-]. apply N.leb_le in E. unfold is_i64. lia.
Qed.
Lemma listed_i64 `{Shell} n all : snapshots n = Ok (Some all) → Forall (λ s, is_i64 (sn_creation s)) all.
Proof.
  unfold snapshots, parsed. intros (o & _ & Hp)%bind_Ok. destruct o as [out|]; [|done].
  apply bind_Ok in Hp as (l & Hp & Ho). apply Ok_eq in Ho as [= <-]. unfold parse_snapshot_list in Hp. apply mapM_Ok in Hp.
  induction Hp as [|line s ls l Hrow _ IH]; constructor; [|done]. unfold snapshot_row in Hrow.
  apply bind_Ok in Hrow as (f & _ & (used & _ & (z & Hz & E)%bind_Ok)%bind_Ok). apply Ok_eq in E as <-. cbn.
  destruct (parse_i64 _) eqn:E; [|done]. injection Hz as <-. by eapply parse_i64_range.
Qed.
Lemma of_dataset_names dataset all : NoDup (sn_name <$> all) → NoDup (of_dataset dataset all).*1.
Proof. unfold of_dataset. rewrite <- list_fmap_compose. apply NoDup_fmap_filter_b. Qed.
Lemma of_dataset_i64 dataset all : Forall (λ s, is_i64 (sn_creation s)) all → Forall (λ s, is_i64 s.2) (of_dataset dataset all).
Proof.
  intros Ha. unfold of_dataset. apply Forall_fmap, Forall_forall. intros s [Hs _]%elem_filter_b. by rewrite Forall_forall in Ha; apply Ha.
Qed.
Lemma elem_of_dataset dataset all n c :
  (n, c) ∈ of_dataset dataset all ↔ ∃ s, s ∈ all ∧ sn_name s = n ∧ sn_creation s = c ∧ starts_with (dataset +:+ "@") n = true.
Proof.
  unfold of_dataset. rewrite list_elem_of_fmap. setoid_rewrite elem_filter_b. split.
  - intros (s & [= -> ->] & Hs & Hp). eauto.
  - intros (s & Hs & <- & <- & Hp). eauto.
Qed.
Lemma dataset_name_no_at ds : dataset_name ds → "@"%char ∉ chars ds.
Proof. intros Hd%dataset_name_word. by apply (all_chars_absent _ _ _ Hd). Qed.
Lemma full_name_split d ds n :
  dataset_name ds → full_name d = n → starts_with (ds +:+ "@") n = true →
  as_str (snapshot_destroy_dataset d) = ds ∧ split_once "@" n = Some (ds, as_str (snapshot_destroy_snap d)).
Proof.
  intros Hv <- Hs%Is_true_true. apply starts_with_spec in Hs as [rest Hr]. rewrite app_assoc_s in Hr.
  assert (H1 : split_once "@" (full_name d) = Some (as_str (snapshot_destroy_dataset d), as_str (snapshot_destroy_snap d))).
  { apply split_once_Some. split; [done|]. apply dataset_name_no_at, (raw_ok (snapshot_destroy_dataset d)). }
  assert (H2 : split_once "@" (full_name d) = Some (ds, rest)).
  { apply split_once_Some. split; [done|by apply dataset_name_no_at]. }
  rewrite H1 in H2. injection H2 as E1 E2. by rewrite <- E1.
Qed.

Section requests.
Context {K : Kernel} {D : DocCodec} (file : path) {Q : Sqlite} {T : Clock} {R : RowCodec} {H : Helper} {Sh : Shell} {C : Cron}.
Lemma asked_web {A} (m : wop A) s r s' : wop_respects same_doc m → on_web m s = (r, s') → asked s s' [].
Proof.
  intros Hm. unfold on_web. destruct (m (st_web s)) as [r1 w] eqn:E. intros [= <- <-].
  split; cbn; [by rewrite app_nil_r|by apply (Hm _ _ _ E)].
Qed.
Lemma run_now_asked kind title q s r s' : run_now kind title q s = (r, s') → asked s s' [q].
Proof.
  unfold run_now, mbind, hop_bind, send. intros E. apply asked_web in E; [|apply same_run].
  destruct E as [E1 E2]. split; cbn in *; [by rewrite E1, app_nil_r|done].
Qed.
Lemma hop_try_asked {A} (m : hop A) s r s' l :
  (∀ r s', m s = (r, s') → asked s s' l) → hop_try m s = (r, s') → asked s s' l.
Proof. intros Hm. unfold hop_try. destruct (m s) as [[a|[e|e]] s1] eqn:E; intros [= <- <-]; by eapply Hm. Qed.
Lemma destroy_one_asked full s r s' :
  destroy_one full s = (r, s') → ∃ dd, asked s s' (RSnapshotDestroy <$> dd) ∧ ∀ d, d ∈ dd → full_name d = full.
Proof.
  assert (Hnone : ∀ s, ∃ dd, asked s s (RSnapshotDestroy <$> dd) ∧ ∀ d, d ∈ dd → full_name d = full).
  { intros s0. exists []. split; [apply asked_nil|by intros d ?%elem_of_nil]. }
  unfold destroy_one. destruct (split_once "@" full) as [[ds snap]|] eqn:Es; [|intros [= _ <-]; apply Hnone].
  destruct (new NtDatasetName ds) as [dv|] eqn:Ed; [|intros [= _ <-]; apply Hnone].
  destruct (new NtSnapName snap) as [sv|] eqn:En; [|intros [= _ <-]; apply Hnone].
  apply split_once_Some in Es as [-> _]. apply new_Ok in Ed, En. unfold mbind, hop_bind.
  set (d := {| snapshot_destroy_dataset := dv; snapshot_destroy_snap := sv |}).
  destruct (hop_try _ s) as [r1 s1] eqn:E. intros E2. exists [d].
  assert (s' = s1) as -> by (destruct r1; by injection E2 as _ <-). split.
  - eapply hop_try_asked; [|exact E]. intros r2 s2. apply run_now_asked.
  - intros d' ->%list_elem_of_singleton. unfold full_name. cbn. by rewrite Ed, En.
Qed.
Lemma destroy_all_asked doomed s r s' :
  hop_for doomed destroy_one s = (r, s') → ∃ dd, asked s s' (RSnapshotDestroy <$> dd) ∧ ∀ d, d ∈ dd → full_name d ∈ doomed.
Proof.
  revert s. induction doomed as [|full l IH]; intros s; cbn [hop_for].
  { intros [= _ <-]. exists []. split; [apply asked_nil|by intros d ?%elem_of_nil]. }
  unfold mbind, hop_bind. destruct (destroy_one full s) as [r1 s1] eqn:E1. apply destroy_one_asked in E1 as (d1 & H1 & F1).
  destruct r1 as [[]|e]; intros E2.
  - apply IH in E2 as (d2 & H2 & F2). exists (d1 ++ d2). rewrite fmap_app. split; [by eapply asked_app|].
    intros d [Hd|Hd]%elem_of_app; [rewrite (F1 _ Hd); left|right; auto].
  - injection E2 as _ <-. exists d1. split; [done|]. intros d Hd. rewrite (F1 _ Hd). left.
Qed.
(** Retention asks only for what [to_destroy] named among the listed snapshots of
    the dataset. *)
Lemma retention_asked p now s r s' :
  retention p now s = (r, s') →
  ∃ dd, asked s s' (RSnapshotDestroy <$> dd) ∧
    (dd = [] ∨ ∃ all doomed, snapshots (length (st_sent s)) = Ok (Some all) ∧
      to_destroy (of_dataset (sp_dataset p) all) (sp_prefix p) (sp_keep_last p) (sp_keep_days p) now = Ok doomed ∧
      ∀ d, d ∈ dd → full_name d ∈ doomed).
Proof.
  unfold retention, list_snapshots, mbind, hop_bind. destruct (snapshots _) as [[all|]|e] eqn:Es; try (intros [= _ <-]; exists []; split; [apply asked_nil|by left]).
  unfold hop_panics. destruct (to_destroy _ _ _ _ _) as [doomed|e] eqn:Ed; [|intros [= _ <-]; exists []; split; [apply asked_nil|by left]].
  intros (dd & Hd & Hf)%destroy_all_asked. exists dd. split; [done|]. right. eauto.
Qed.

(** The mark is set, and on disk when the write succeeded. *)
Definition with_last_run (now : Z) (p : SnapshotPolicy) : SnapshotPolicy := {|
  sp_id := sp_id p; sp_dataset := sp_dataset p; sp_cron := sp_cron p; sp_prefix := sp_prefix p;
  sp_keep_last := sp_keep_last p; sp_keep_days := sp_keep_days p; sp_enabled := sp_enabled p; sp_last_run := now |}.
Lemma edit_first_unique {A} (f : A → A) (g : A → Z) id l a :
  NoDup (g <$> l) → (∀ a, g (f a) = g a) → a ∈ edit_first (λ a, g a =? id)%Z f l →
  (g a = id ∧ ∃ b, b ∈ l ∧ a = f b ∧ g b = id) ∨ g a ≠ id ∧ a ∈ l.
Proof.
  intros Hn Hg. induction l as [|b l IH]; cbn; [by intros ?%elem_of_nil|]. apply NoDup_cons in Hn as [Hb Hn].
  destruct (g b =? id)%Z eqn:E; intros [->|Ha]%elem_of_cons.
  - left. rewrite Hg. split; [lia|]. exists b. split_and!; [left|done|lia].
  - right. split; [|by right]. intros Heq. apply Hb. apply list_elem_of_fmap. exists a. split; [lia|done].
  - right. split; [lia|left].
  - destruct (IH Hn Ha) as [(Hid & c & Hc & Hx)|[Hid Hc]]; [left; split; [done|]; exists c; split; [by right|done]|right; split; [done|by right]].
Qed.
Lemma mark_run id now s r s' :
  tmp_file file ≠ file → set_policy_last_run file id now s = (r, s') →
  db_doc s' = set_policies (db_doc s) (edit_first (λ p, sp_id p =? id)%Z (with_last_run now) (cd_policy (db_doc s))) ∧
  (is_ok r = true → on_disk file s').
Proof.
  intros Hne. unfold set_policy_last_run, with_policy, rewrite, the_doc, put, mbind, sop_bind.
  intros (E & _ & Ho)%persist_run; [|done]. cbn in E. split; [done|]. by destruct (is_ok r).
Qed.
Lemma marked_last_run d id now q :
  NoDup (sp_id <$> cd_policy d) → q ∈ edit_first (λ p, sp_id p =? id)%Z (with_last_run now) (cd_policy d) → sp_id q = id → sp_last_run q = now.
Proof.
  intros Hn Hq Hid. apply edit_first_unique in Hq as [(_ & b & _ & -> & _)|[Hx _]]; [done|done|done|done].
Qed.
(** A run of a policy: the store is marked first, then at most these requests. *)
Definition retained (p : SnapshotPolicy) (now : Z) (n : nat) (dd : list SnapshotDestroy) : Prop :=
  dd = [] ∨ ∃ all doomed, snapshots n = Ok (Some all) ∧
    to_destroy (of_dataset (sp_dataset p) all) (sp_prefix p) (sp_keep_last p) (sp_keep_days p) now = Ok doomed ∧
    ∀ d, d ∈ dd → full_name d ∈ doomed.
Definition marked (id now : Z) (d : ConfigDoc) : ConfigDoc :=
  set_policies d (edit_first (λ q, sp_id q =? id)%Z (with_last_run now) (cd_policy d)).
Definition policy_post (p : SnapshotPolicy) (now : Z) (s s' : site) : Prop :=
  ∃ s1 sent, asked s1 s' sent ∧ st_sent s1 = st_sent s ∧ site_doc s1 = marked (sp_id p) now (site_doc s) ∧
    (sent = [] ∨ on_disk file (wb_db (st_web s1)) ∧ ∃ c dd, sent = RSnapshotCreate c :: (RSnapshotDestroy <$> dd) ∧
      as_str (snapshot_create_dataset c) = sp_dataset p ∧ as_str (snapshot_create_snap c) = snapshot_name (sp_prefix p) now ∧
      retained p now (S (length (st_sent s))) dd).
Lemma run_policy_asked p now s r s' :
  tmp_file file ≠ file → run_policy file p now s = (r, s') → policy_post p now s s'.
Proof.
  intros Hne. unfold run_policy, on_store, on_web, on_db, hop_try, mbind, hop_bind.
  destruct (set_policy_last_run file (sp_id p) now (wb_db (st_web s))) as [r0 d1] eqn:E0. apply mark_run in E0 as [Hdoc Hdisk]; [|done].
  set (s1 := {| st_web := {| wb_db := d1; wb_tasks := _; wb_hub := _; wb_tick := _ |}; st_sent := st_sent s; st_jobs := st_jobs s |}).
  assert (Hstop : policy_post p now s s1) by (exists s1, []; split_and!; [apply asked_nil|done|done|by left]).
  destruct r0 as [[]|[e|e]]; [|intros [= _ <-]; exact Hstop..]. specialize (Hdisk eq_refl).
  destruct (new NtDatasetName (sp_dataset p)) as [dv|] eqn:Ed; [|intros [= _ <-]; exact Hstop].
  destruct (new NtSnapName (snapshot_name (sp_prefix p) now)) as [sv|] eqn:En; [|intros [= _ <-]; exact Hstop].
  apply new_Ok in Ed, En. set (c := {| snapshot_create_dataset := dv; snapshot_create_snap := sv |}).
  destruct (run_now _ _ (RSnapshotCreate c) s1) as [r2 s2] eqn:E2. apply run_now_asked in E2.
  assert (Hend : ∀ dd s3, asked s2 s3 (RSnapshotDestroy <$> dd) → retained p now (S (length (st_sent s))) dd → policy_post p now s s3).
  { intros dd s3 H3 H4. exists s1, ([RSnapshotCreate c] ++ (RSnapshotDestroy <$> dd)). split_and!; [by eapply asked_app|done|done|].
    right. split; [done|]. by exists c, dd. }
  assert (Hcreated : policy_post p now s s2) by (apply (Hend []); [apply asked_nil|by left]).
  destruct r2 as [o|[e|e]]; [|intros [= _ <-]; exact Hcreated..].
  destruct (to_ok o); [|intros [= _ <-]; exact Hcreated].
  intros (dd & Ha & Hd)%retention_asked. apply (Hend dd s' Ha). destruct E2 as [Es _].
  rewrite Es, length_app, Nat.add_1_r in Hd. exact Hd.
Qed.
End requests.

Section contract.
Context {K : Kernel} {D : DocCodec} (file : path) {Q : Sqlite} {T : Clock} {R : RowCodec} {H : Helper} {Sh : Shell} {C : Cron}.
Lemma retained_safe p now n dd all :
  dataset_name (sp_dataset p) → retained p now n dd → snapshots n = Ok (Some all) → NoDup (sn_name <$> all) → dd ≠ [] →
  (∀ d, d ∈ dd → as_str (snapshot_destroy_dataset d) = sp_dataset p ∧
    starts_with (sp_prefix p +:+ "-") (as_str (snapshot_destroy_snap d)) = true ∧ full_name d ∈ (sn_name <$> all)) ∧
  ∃ keeper, keeper ∈ all ∧ starts_with (sp_dataset p +:+ "@") (sn_name keeper) = true ∧ is_auto (sp_prefix p) (sn_name keeper) = true ∧
    (∀ d, d ∈ dd → full_name d ≠ sn_name keeper) ∧
    ∀ q, q ∈ all → starts_with (sp_dataset p +:+ "@") (sn_name q) = true → is_auto (sp_prefix p) (sn_name q) = true →
      (sn_creation q <= sn_creation keeper)%Z.
Proof.
  intros Hds [->|(all' & doomed & Hall' & Htd & Hdd)] Hall Hnd Hne; [done|]. rewrite Hall in Hall'. injection Hall' as <-.
  pose proof (of_dataset_i64 (sp_dataset p) _ (listed_i64 _ _ Hall)) as H64. pose proof (of_dataset_names (sp_dataset p) _ Hnd) as Hn.
  assert (Hin : ∀ d, d ∈ dd → is_auto (sp_prefix p) (full_name d) = true ∧ ∃ c, (full_name d, c) ∈ of_dataset (sp_dataset p) all).
  { intros d Hd%Hdd. apply (to_destroy_elem _ _ _ _ _ _ _ Htd) in Hd as (i & c & Hi & _). apply list_elem_of_lookup_2, elem_mine in Hi as [? ?]. eauto. }
  split.
  - intros d [Ha [c Hc]]%Hin. apply elem_of_dataset in Hc as (q & Hq & Hqn & _ & Hpre).
    destruct (full_name_split d _ _ Hds eq_refl Hpre) as [Hd1 Hsp]. unfold is_auto in Ha. rewrite Hsp in Ha.
    split_and!; [done|done|]. rewrite <- Hqn. by apply list_elem_of_fmap_2.
  - destruct dd as [|d0 dd]; [done|]. destruct (Hin d0 ltac:(left)) as [Ha0 [c0 Hc0]].
    assert (Hm0 : (full_name d0, c0) ∈ mine (of_dataset (sp_dataset p) all) (sp_prefix p)) by by apply elem_mine.
    destruct (mine (of_dataset (sp_dataset p) all) (sp_prefix p)) as [|[kn kc] l] eqn:El; [by apply elem_of_nil in Hm0|].
    assert (H0 : mine (of_dataset (sp_dataset p) all) (sp_prefix p) !! 0%nat = Some (kn, kc)) by by rewrite El.
    apply list_elem_of_lookup_2 in H0 as Hk. apply elem_mine in Hk as [Hk Hka]. apply elem_of_dataset in Hk as (kp & Hkp & <- & <- & Hkpre).
    destruct (newest_spared _ _ _ _ _ _ _ _ H64 Hn Htd H0) as [Hsp Hmax]. exists kp. split_and!; [done..| |].
    + intros d Hd%Hdd E. by rewrite E in Hd.
    + intros q Hq Hqp Hqa. apply (Hmax (sn_name q) (sn_creation q)); [|done]. apply elem_of_dataset. by exists q.
Qed.

(** C19: a run of a policy either asks the helper for nothing, or has first set the
    policy's last run to now, in memory and on disk, and then asks for the one
    snapshot named after its prefix and the time, followed by destroys only. Every
    destroy is of a snapshot that was listed after the creation, in the policy's
    own dataset and with its prefix, and there is always a snapshot of the policy,
    at least as recent as all of them, that is not destroyed. *)
Theorem scheduled_run_contract p now s r s' all :
  tmp_file file ≠ file → NoDup (sp_id <$> cd_policy (site_doc s)) →
  snapshots (S (length (st_sent s))) = Ok (Some all) → NoDup (sn_name <$> all) →
  run_policy file p now s = (r, s') →
  ∃ sent, st_sent s' = st_sent s ++ sent ∧
  (∀ q, q ∈ cd_policy (site_doc s') → sp_id q = sp_id p → sp_last_run q = now) ∧
  (sent = [] ∨ on_disk file (wb_db (st_web s')) ∧
    ∃ c dd, sent = RSnapshotCreate c :: (RSnapshotDestroy <$> dd) ∧
      as_str (snapshot_create_dataset c) = sp_dataset p ∧ as_str (snapshot_create_snap c) = snapshot_name (sp_prefix p) now ∧
      (∀ d, d ∈ dd → as_str (snapshot_destroy_dataset d) = sp_dataset p ∧
        starts_with (sp_prefix p +:+ "-") (as_str (snapshot_destroy_snap d)) = true ∧ full_name d ∈ (sn_name <$> all)) ∧
      (dd ≠ [] → ∃ keeper, keeper ∈ all ∧ starts_with (sp_dataset p +:+ "@") (sn_name keeper) = true ∧
        is_auto (sp_prefix p) (sn_name keeper) = true ∧ (∀ d, d ∈ dd → full_name d ≠ sn_name keeper) ∧
        ∀ q, q ∈ all → starts_with (sp_dataset p +:+ "@") (sn_name q) = true → is_auto (sp_prefix p) (sn_name q) = true →
          (sn_creation q <= sn_creation keeper)%Z)).
Proof.
  intros Hne Hid Hall Hnd (s1 & sent & [Es Ed] & Es1 & Hdoc & Hs)%run_policy_asked; [|done]. exists sent. split_and!.
  - by rewrite Es, Es1.
  - intros q Hq Hqid. unfold site_doc in Hq, Hdoc. rewrite Ed, Hdoc in Hq. cbn in Hq. by eapply marked_last_run.
  - destruct Hs as [->|(Hd & c & dd & -> & Hc1 & Hc2 & Hr)]; [by left|right]. split; [by rewrite Ed|]. exists c, dd.
    assert (Hds : dataset_name (sp_dataset p)) by (rewrite <- Hc1; apply (raw_ok (snapshot_create_dataset c))).
    destruct dd as [|d dd]; [split_and!; [done..| |done]; by intros d ?%elem_of_nil|].
    destruct (retained_safe _ _ _ _ _ Hds Hr Hall Hnd ltac:(done)) as [Hsafe Hkeep]. split_and!; auto.
Qed.
End contract.

(** ** When it fires *)

(** What a schedule promises: the next occurrence is later, it stays the next until
    it comes, and a schedule that has ended stays ended. *)
Class CronLaw (C : Cron) : Prop := {
  next_later c next l n : parse_cron c = Some next → next l = Some n → (l < n)%Z;
  next_stays c next l n l' : parse_cron c = Some next → next l = Some n → (l <= l' < n)%Z → next l' = Some n;
  next_ended c next l l' : parse_cron c = Some next → next l = None → (l <= l')%Z → next l' = None }.
(** No schedule of the expression fires after [t] and up to [t']. *)
Definition calm `{Cron} (t t' : Z) (cron : string) : Prop :=
  ∀ next n, parse_cron cron = Some next → next t = Some n → (t' < n)%Z.
Section fires.
Context {K : Kernel} {D : DocCodec} (file : path) {Q : Sqlite} {T : Clock} {R : RowCodec} {H : Helper} {Sh : Shell} {C : Cron} {CL : CronLaw C}.
Lemma not_due_stays cron last t t' : calm t t' cron → due cron last t = false → due cron last t' = false.
Proof.
  unfold calm, due. intros Hc. destruct (parse_cron cron) as [next|] eqn:Ep; [|done]. specialize (Hc next).
  destruct (in_calendar last); [|done]. destruct (next last) as [n|] eqn:En; [|done]. rewrite !Z.leb_gt. intros Hn.
  destruct (next t) as [m|] eqn:Em; [specialize (Hc m eq_refl eq_refl)|].
  - destruct (decide (last <= t)%Z).
    + rewrite (next_stays cron next last n t) in Em by (done || lia). injection Em as <-. done.
    + pose proof (next_later cron next last n Ep En). destruct (decide (last < m)%Z); [|lia].
      rewrite (next_stays cron next t m last) in En by (done || lia). injection En as <-. done.
  - destruct (decide (last <= t)%Z).
    + by rewrite (next_stays cron next last n t) in Em by (done || lia).
    + by rewrite (next_ended cron next t last) in En by (done || lia).
Qed.
Lemma fired_settles cron t t' : calm t t' cron → due cron t t' = false.
Proof.
  unfold calm, due. intros Hc. destruct (parse_cron cron) as [next|]; [|done]. destruct (in_calendar t); [|done].
  destruct (next t) as [n|] eqn:En; [|done]. apply Z.leb_gt. by apply (Hc next).
Qed.
(** Part of the list is done: every enabled policy is settled, or is still to come
    as it was listed. *)
Definition progress (t' : Z) (d : ConfigDoc) (rest : list SnapshotPolicy) : Prop :=
  NoDup (sp_id <$> cd_policy d) ∧ NoDup (sp_id <$> rest) ∧ (∀ p, p ∈ rest → p ∈ cd_policy d) ∧
  ∀ q, q ∈ cd_policy d → sp_enabled q = true → due (sp_cron q) (sp_last_run q) t' = false ∨ q ∈ rest.
Lemma edit_first_other {A} (f : A → A) (g : A → Z) id l a :
  a ∈ l → g a ≠ id → a ∈ edit_first (λ a, g a =? id)%Z f l.
Proof.
  intros Ha Hg. induction l as [|b l IH]; [done|]. cbn. destruct (g b =? id)%Z eqn:E; apply elem_of_cons in Ha as [->|Ha].
  - lia.
  - by right.
  - left.
  - right. by apply IH.
Qed.
Lemma progress_marked t t' p d rest :
  calm t t' (sp_cron p) → progress t' d (p :: rest) → progress t' (marked (sp_id p) t d) rest.
Proof.
  intros Hc (Hn & Hr & Hsub & Hp). cbn [fmap list_fmap] in Hr. apply NoDup_cons in Hr as [Hpr Hr].
  assert (Hother : ∀ q, q ∈ rest → sp_id q ≠ sp_id p) by (intros q Hq E; apply Hpr; rewrite <- E; by apply list_elem_of_fmap_2).
  split_and!; [cbn; by rewrite edit_first_fmap|done| |].
  - intros q Hq. cbn. apply edit_first_other; [apply Hsub; by right|by apply Hother].
  - intros q Hq Hen. cbn in Hq. apply edit_first_unique in Hq; [|done|done]. destruct Hq as [(_ & b & Hb & -> & Hbid)|[Hid Hq]].
    + left. assert (b = p) as ->; [|by apply fired_settles]. assert (Hpd : p ∈ cd_policy d) by (apply Hsub; left).
      apply list_elem_of_lookup in Hb as [i Hi], Hpd as [j Hj]. assert (i = j) as ->; [|congruence].
      apply (NoDup_lookup _ i j (sp_id p) Hn); rewrite list_lookup_fmap; [rewrite Hi; cbn; by rewrite Hbid|by rewrite Hj].
    + destruct (Hp q Hq Hen) as [?|[->|?]%elem_of_cons]; [by left|done|by right].
Qed.
Lemma progress_skipped t t' p d rest :
  calm t t' (sp_cron p) → due (sp_cron p) (sp_last_run p) t = false → progress t' d (p :: rest) → progress t' d rest.
Proof.
  intros Hc Hd (Hn & Hr & Hsub & Hp). cbn [fmap list_fmap] in Hr. apply NoDup_cons in Hr as [_ Hr].
  split_and!; [done|done|intros q Hq; apply Hsub; by right|]. intros q Hq Hen.
  destruct (Hp q Hq Hen) as [?|[->|?]%elem_of_cons]; [by left|left; by eapply not_due_stays|by right].
Qed.
Lemma tick_go (Hne : tmp_file file ≠ file) t t' l s s' :
  (∀ p, p ∈ l → calm t t' (sp_cron p)) → progress t' (site_doc s) l →
  hop_for l (λ p, if due (sp_cron p) (sp_last_run p) t then run_policy file p t else mret tt) s = (Ok tt, s') →
  progress t' (site_doc s') [].
Proof.
  revert s. induction l as [|p l IH]; intros s Hcalm Hp; cbn [hop_for]; [by intros [= <-]|].
  assert (Hc : calm t t' (sp_cron p)) by (apply Hcalm; left).
  assert (Hl : ∀ q, q ∈ l → calm t t' (sp_cron q)) by (intros q Hq; apply Hcalm; by right).
  unfold mbind, hop_bind. destruct (due (sp_cron p) (sp_last_run p) t) eqn:Edue.
  - destruct (run_policy file p t s) as [[[]|e] s1] eqn:E; [|done].
    destruct (run_policy_asked _ _ _ _ _ _ Hne E) as (s0 & sent & [_ Ed] & _ & Hdoc & _).
    apply IH; [done|]. unfold site_doc in *. rewrite Ed, Hdoc. by apply progress_marked.
  - apply IH; [done|]. by eapply progress_skipped.
Qed.
Lemma tick_start d t' : NoDup (sp_id <$> cd_policy d) → progress t' d (List.filter sp_enabled (list_policies d)).
Proof.
  intros Hn. assert (Hel : ∀ p, p ∈ List.filter sp_enabled (list_policies d) ↔ p ∈ cd_policy d ∧ sp_enabled p = true).
  { intros p. rewrite elem_filter_b. unfold list_policies. by rewrite sort_by_perm. }
  split_and!; [done| |intros p; rewrite Hel; naive_solver|].
  - apply NoDup_fmap_filter_b. unfold list_policies. by rewrite sort_by_perm.
  - intros q Hq Hen. right. by apply Hel.
Qed.
Lemma idle_tick d t' s : progress t' d [] → site_doc s = d → scheduler_tick file t' s = (Ok tt, s).
Proof.
  intros (_ & _ & _ & Hp) Hd. unfold scheduler_tick, mbind, hop_bind, get_config. rewrite Hd.
  assert (Hall : ∀ p, p ∈ List.filter sp_enabled (list_policies d) → due (sp_cron p) (sp_last_run p) t' = false).
  { intros p [Hin Hen]%elem_filter_b. unfold list_policies in Hin. rewrite sort_by_perm in Hin.
    by destruct (Hp p Hin Hen) as [?|?%elem_of_nil]. }
  revert Hall. induction (List.filter sp_enabled (list_policies d)) as [|p l IH]; intros Hall; cbn [hop_for]; [done|].
  unfold mbind, hop_bind. rewrite Hall by left. apply IH. intros q Hq. apply Hall. by right.
Qed.

(** An occurrence fires a policy at most once. After a turn of the scheduler at
    time [t], whether its snapshots, its destroys and its writes succeeded or not,
    every later turn before the next occurrence of the enabled policies does
    nothing at all: no request, no change of the store. *)
Lemma scheduler_fires_once t t' s s' :
  tmp_file file ≠ file → NoDup (sp_id <$> cd_policy (site_doc s)) →
  (∀ p, p ∈ cd_policy (site_doc s) → sp_enabled p = true → calm t t' (sp_cron p)) →
  scheduler_tick file t s = (Ok tt, s') →
  scheduler_tick file t' s' = (Ok tt, s').
Proof.
  intros Hne Hn Hcalm Ht. eapply idle_tick; [|done]. revert Ht. unfold scheduler_tick, mbind, hop_bind, get_config.
  apply tick_go; [done| |by apply tick_start]. intros p [Hin Hen]%elem_filter_b. unfold list_policies in Hin. rewrite sort_by_perm in Hin. auto.
Qed.
End fires.

(** ** A schedule at work *)

Definition demo_snaps : list (string * Z) :=
  [("tank/a@auto-1", 100); ("tank/a@auto-4", 400); ("tank/a@auto-2", 200); ("tank/a@auto-3", 300); ("tank/a@manual", 50)]%Z.
Lemma retention_matches_reference_witness :
  to_destroy demo_snaps "auto" (Some (lit 2%N : u32)) None 500 = Ok ["tank/a@auto-1"; "tank/a@auto-2"] ∧
  ∃ n c, (n, c) ∈ demo_snaps ∧ is_auto "auto" n = true ∧ n ∉ ["tank/a@auto-1"; "tank/a@auto-2"] ∧
    ∀ n' c', (n', c') ∈ demo_snaps → is_auto "auto" n' = true → (c' <= c)%Z.
Proof.
  assert (Hd : to_destroy demo_snaps "auto" (Some (lit 2%N : u32)) None 500 = Ok ["tank/a@auto-1"; "tank/a@auto-2"]) by (vm_compute; reflexivity).
  assert (Hf : Forall (λ s, is_i64 s.2) demo_snaps) by (unfold demo_snaps; repeat constructor; vm_compute; discriminate).
  assert (Hn : NoDup demo_snaps.*1) by (refine (bool_decide_unpack _ _); vm_compute; exact I).
  split; [exact Hd|]. destruct (retention_matches_reference _ _ _ _ _ _ Hf Hn Hd) as (_ & _ & Hk & _).
  apply Hk. exists ("tank/a@auto-1", 100%Z). split; [left|reflexivity].
Defined.
(** A prefix that extends another one by a dash belongs to both: the retention of
    "auto" names the newest snapshot of the policy "auto-daily". *)
Lemma overlapping_prefixes :
  to_destroy [("tank/a@auto-20260613-000000", 200%Z); ("tank/a@auto-daily-20260612-000000", 100%Z)] "auto" (Some (lit 1%N : u32)) None 300
  = Ok ["tank/a@auto-daily-20260612-000000"].
Proof. vm_compute. reflexivity. Qed.

#[local] Instance demo_cron : Cron := {|
  parse_cron c := if bool_decide (c = "hourly") then Some (λ l, Some (3600 * (l / 3600 + 1)))%Z else None;
  in_calendar _ := true; stamp t := show_Z t; minute t := show_Z t |}.
#[local] Instance demo_cron_law : CronLaw demo_cron.
Proof.
  split; intros c next l; intros; cbn in *; destruct (bool_decide _); simplify_eq/=.
  - pose proof (Z.mod_pos_bound l 3600). pose proof (Z.div_mod l 3600). lia.
  - do 2 f_equal. f_equal. symmetry. apply (Z.div_unique l' 3600 _ (l' - 3600 * (l / 3600))); [|lia]. left.
    pose proof (Z.mod_pos_bound l 3600). pose proof (Z.div_mod l 3600). lia.
Qed.
#[local] Existing Instances demo_sqlite demo_clock demo_rows demo_docs.
#[local] Instance ok_helper : Helper := {|
  task_call _ _ := Streamed (into <$> [Finished Success None]) None; dry_run _ := Ok (true, true, true, true) |}.
Definition demo_listing : list Snapshot := (λ s, {| sn_name := s.1; sn_used := lit 0%N; sn_creation := s.2 |}) <$> demo_snaps.
#[local] Instance demo_zfs : Shell := λ _ _,
  Exited true (Some (String.concat (String "010" "") ((λ s, s.1 +:+ String "009" ("0" +:+ String "009" (show_Z s.2))) <$> demo_snaps))) "".
Definition demo_policy : SnapshotPolicy := {|
  sp_id := 1; sp_dataset := "tank/a"; sp_cron := "hourly"; sp_prefix := "auto"; sp_keep_last := Some (lit 2%N : u32); sp_keep_days := None;
  sp_enabled := true; sp_last_run := 0 |}.
Definition scheduled : site := {|
  st_web := {| wb_db := {| db_doc := set_policies ConfigDoc_default [demo_policy]; db_tree := ∅; db_clock := 0 |}; wb_tasks := ∅;
               wb_hub := ∅; wb_tick := 0 |};
  st_sent := []; st_jobs := [] |}.
Definition demo_ran : result fault unit * site := @run_policy permissive _ demo_file _ _ _ _ _ _ demo_policy 4000 scheduled.
Lemma demo_tmp : tmp_file demo_file ≠ demo_file.
Proof. vm_compute. discriminate. Qed.
Lemma demo_ids : NoDup (sp_id <$> cd_policy (site_doc scheduled)).
Proof. apply NoDup_singleton. Qed.
Lemma scheduled_run_contract_witness :
  length (st_sent demo_ran.2) = 3%nat ∧
  ∀ q, q ∈ cd_policy (site_doc demo_ran.2) → sp_id q = 1%Z → sp_last_run q = 4000%Z.
Proof.
  split; [vm_compute; reflexivity|].
  destruct (@scheduled_run_contract permissive _ demo_file _ _ _ _ _ _ demo_policy 4000 scheduled demo_ran.1 demo_ran.2 demo_listing)
    as (sent & _ & Hmark & _).
  - exact demo_tmp.
  - exact demo_ids.
  - vm_compute. reflexivity.
  - refine (bool_decide_unpack _ _). vm_compute. exact I.
  - apply surjective_pairing.
  - exact Hmark.
Defined.
Definition demo_ticked : result fault unit * site := @scheduler_tick permissive _ demo_file _ _ _ _ _ _ 4000 scheduled.
Lemma scheduler_fires_once_witness :
  length (st_sent demo_ticked.2) = 3%nat ∧ @scheduler_tick permissive _ demo_file _ _ _ _ _ _ 7000 demo_ticked.2 = (Ok tt, demo_ticked.2).
Proof.
  split; [vm_compute; reflexivity|].
  apply (@scheduler_fires_once permissive _ demo_file _ _ _ _ _ _ _ 4000 7000 scheduled demo_ticked.2).
  - exact demo_tmp.
  - exact demo_ids.
  - intros p Hp _ next n E1 E2. apply list_elem_of_singleton in Hp as ->. cbn in E1. injection E1 as <-. injection E2 as <-. vm_compute. reflexivity.
  - vm_compute. reflexivity.
Defined.
