(* ===== verification/ExportViews.v ===== *)
(** * What the export pages and the client API show (routes/block_export.rs,
    nvme.rs, iscsi.rs, nfs.rs, client_api.rs)

    The rows, commands, banners and listeners, as functions of the stored document
    and of what the daemon reports. *)
From Stdlib Require Import Ascii String.
From stdpp Require Import base option list strings sets gmap pretty.
From S2P Require Import Prelude Ordered Validate IpAddr Types Wire Desired Actual Render Lio Store Tasks ZfsView Site Exports Dots Reconcile.
#[local] Open Scope string_scope.
#[local] Open Scope list_scope.

(** ** Cells shared by the protocols *)

Definition dot_class (s : DotState) : string :=
  match s with Green => "dot-green" | Yellow => "dot-yellow" | Red => "dot-red" end.
Definition join_devices (devices : list string) : string :=
  match List.filter nonempty devices with
  | [] => em_dash
  | l => join ", " l
  end.
Definition hosts_cell (allow_any_host : bool) (allowed : nat) : string :=
  if allow_any_host then "any host" else pretty allowed +:+ " allowed".
Record dot_cell : Type := { dc_class : string; dc_reason : string; dc_diagnose : bool; dc_task : option Z }.
(** The dot is only computed for an enabled export. *)
Definition managed_dot (enabled want_rdma : bool) (reconcile_task : option Z) (dot : panics Dot) : panics dot_cell :=
  if negb enabled then Ok {| dc_class := "dot-gray"; dc_reason := "disabled"; dc_diagnose := false; dc_task := None |}
  else
    dot ← dot;
    let not_green := negb (bool_decide (dot_state dot = Green)) in
    Ok {| dc_class := dot_class (dot_state dot); dc_reason := dot_reason dot; dc_diagnose := want_rdma && not_green;
          dc_task := if not_green then reconcile_task else None |}.
Definition reconcile_task (d : ConfigDoc) : option Z := get_setting d RECONCILE_TASK_KEY ≫= parse_i64.
Definition reconcile_banner (d : ConfigDoc) : option Z * option string :=
  (reconcile_task d,
   match get_setting d RECONCILE_ERROR_KEY with
   | Some err => if nonempty err then Some ("reconcile problem: " +:+ err) else None
   | None => None
   end).
Definition listen_addr (d : ConfigDoc) : IpAddr := default UNSPECIFIED (get_setting d "listen_addr" ≫= parse_ip).
Record ClientCmd : Type := { cc_label : string; cc_cmd : string }.
Record ExportRow : Type := {
  er_id : Z; er_name : string; er_dot_class : string; er_dot_reason : string; er_device : string; er_transports : string;
  er_hosts : string; er_clients : option nat; er_enabled : bool; er_diagnose : bool; er_client : list ClientCmd;
  er_external : bool; er_task_id : option Z }.
(** The labels of the wanted transports. *)
Definition wanted_labels (l : list (bool * string)) : list string := snd <$> List.filter fst l.
(** The first concrete address, or a placeholder. *)
Definition advertised (addrs : list IpAddr) : string :=
  match List.find (λ a, negb (is_unspecified a)) addrs with
  | Some a => show_ip a
  | None => "<server-ip>"
  end.
Definition text_lines (l : list string) : string := join (String "010" "") l.

(** ** NVMe-oF *)

Definition transport_cmd (addr nqn : string) (w : bool * string * string * string) : ClientCmd :=
  let '(_, trtype, label, module) := w in
  {| cc_label := label;
     cc_cmd := text_lines [
       "modprobe " +:+ module;
       "nvme connect -t " +:+ trtype +:+ " -a " +:+ addr +:+ " -s 4420 -n " +:+ nqn;
       "# disconnect: nvme disconnect -n " +:+ nqn] |}.
Definition nvme_client_instructions (e : NvmeExport) (addrs : list IpAddr) : panics (list ClientCmd) :=
  nqn ← nvme_nqn e;
  Ok (transport_cmd (advertised addrs) (as_str nqn) <$>
      List.filter (λ w, w.1.1.1) [(nvme_want_rdma e, "rdma", "RDMA", "nvme-rdma"); (nvme_want_tcp e, "tcp", "TCP", "nvme-tcp")]).
Definition nvme_row (a : ActualNvmet) (rdma : list RdmaDev) (pci_addrs : gmap string (list IpAddr)) (listen : IpAddr)
    (task : option Z) (e : NvmeExport) : panics ExportRow :=
  cell ← managed_dot (nvme_enabled e) (nvme_want_rdma e) task (nvme_dot e a rdma);
  client ← nvme_client_instructions e (listen_addrs (nvme_interfaces e) listen pci_addrs);
  Ok {| er_id := nvme_id e; er_name := nvme_name e; er_dot_class := dc_class cell; er_dot_reason := dc_reason cell;
        er_device := nvme_device_path e;
        er_transports := join " + " (wanted_labels [(nvme_want_rdma e, "RDMA"); (nvme_want_tcp e, "TCP"); (nvme_want_loop e, "loop")]);
        er_hosts := hosts_cell (nvme_allow_any_host e) (length (nvme_initiators e)); er_clients := None;
        er_enabled := nvme_enabled e; er_diagnose := dc_diagnose cell; er_client := client; er_external := false;
        er_task_id := dc_task cell |}.
Definition trtype_label (t : string) : string :=
  if bool_decide (t = "rdma") then "RDMA" else if bool_decide (t = "tcp") then "TCP" else t.
Definition foreign_nvme_row (a : ActualNvmet) (rdma : list RdmaDev) (s : Subsys) : ExportRow :=
  let dot := external_nvme_dot (as_nqn s) a rdma in
  {| er_id := 0; er_name := as_nqn s; er_dot_class := dot_class (dot_state dot); er_dot_reason := dot_reason dot;
     er_device := join_devices (ans_device_path <$> as_namespaces s);
     er_transports := join " + " (dedup (sort ((λ p, trtype_label (ap_trtype p)) <$> linked_ports (as_nqn s) a)));
     er_hosts := hosts_cell (as_allow_any_host s) (length (as_allowed_hosts s)); er_clients := None; er_enabled := true;
     er_diagnose := false; er_client := []; er_external := true; er_task_id := None |}.
Definition foreign_nvme_rows (a : ActualNvmet) (rdma : list RdmaDev) : list ExportRow :=
  foreign_nvme_row a rdma <$> List.filter (λ s, negb (starts_with OUR_NQN_PREFIX (as_nqn s))) (an_subsystems a).
Definition nvme_rows (d : ConfigDoc) (a : ActualNvmet) (rdma : list RdmaDev) (pci_addrs : gmap string (list IpAddr)) :
    panics (list ExportRow) :=
  managed ← mapM (nvme_row a rdma pci_addrs (listen_addr d) (reconcile_task d)) (list_nvme_exports d);
  Ok (managed ++ foreign_nvme_rows a rdma).
Definition nvme_stored_interfaces (d : ConfigDoc) (id : Z) : list string :=
  default [] (nvme_interfaces <$> List.find (λ e, bool_decide (nvme_id e = id)) (list_nvme_exports d)).

(** ** iSCSI *)

Definition iscsi_client_instructions (e : IscsiExport) (addrs : list IpAddr) : panics (list ClientCmd) :=
  let addr := advertised addrs in
  iqn ← iscsi_iqn e;
  let iqn := as_str iqn in
  let port := if iscsi_want_rdma e then "3261" else "3260" in
  Ok ((if iscsi_want_rdma e then
         [{| cc_label := "iSER (RDMA)";
             cc_cmd := text_lines [
               "modprobe ib_iser";
               "iscsiadm -m discovery -t st -p " +:+ addr +:+ ":3260 -I iser";
               "iscsiadm -m node -T " +:+ iqn +:+ " -p " +:+ addr +:+ ":3260 -I iser --login";
               "# disconnect: iscsiadm -m node -T " +:+ iqn +:+ " -p " +:+ addr +:+ ":3260 -I iser --logout"] |}]
       else []) ++
      (if iscsi_want_tcp e then
         [{| cc_label := "TCP";
             cc_cmd := text_lines [
               "iscsiadm -m discovery -t st -p " +:+ addr +:+ ":" +:+ port;
               "iscsiadm -m node -T " +:+ iqn +:+ " -p " +:+ addr +:+ ":" +:+ port +:+ " --login";
               "# disconnect: iscsiadm -m node -T " +:+ iqn +:+ " -p " +:+ addr +:+ ":" +:+ port +:+ " --logout"] |}]
       else [])).
Definition session_count (iqn : string) (sessions : list IscsiSession) : nat :=
  length (List.filter (λ s, bool_decide (is_target_iqn s = iqn)) sessions).
Definition iscsi_row (a : ActualLio) (sessions : list IscsiSession) (rdma : list RdmaDev) (pci_addrs : gmap string (list IpAddr))
    (listen : IpAddr) (task : option Z) (e : IscsiExport) : panics ExportRow :=
  cell ← managed_dot (iscsi_enabled e) (iscsi_want_rdma e) task (iscsi_dot e a rdma);
  iqn ← iscsi_iqn e;
  client ← iscsi_client_instructions e (listen_addrs (iscsi_interfaces e) listen pci_addrs);
  Ok {| er_id := iscsi_id e; er_name := iscsi_name e; er_dot_class := dc_class cell; er_dot_reason := dc_reason cell;
        er_device := iscsi_device_path e;
        er_transports := join " + " (wanted_labels [(iscsi_want_rdma e, "iSER"); (iscsi_want_tcp e, "TCP")]);
        er_hosts := hosts_cell (iscsi_allow_any_host e) (length (iscsi_initiators e));
        er_clients := Some (session_count (as_str iqn) sessions);
        er_enabled := iscsi_enabled e; er_diagnose := dc_diagnose cell; er_client := client; er_external := false;
        er_task_id := dc_task cell |}.
Definition foreign_iscsi_row (a : ActualLio) (sessions : list IscsiSession) (rdma : list RdmaDev) (t : Actual.Target) : ExportRow :=
  let dot := external_iscsi_dot t rdma in
  {| er_id := 0; er_name := at_iqn t; er_dot_class := dot_class (dot_state dot); er_dot_reason := dot_reason dot;
     er_device := join_devices (omap (λ lun, ab_udev_path <$> find_backstore lun a) (at_luns t));
     er_transports := join " + " (wanted_labels [(existsb apo_iser (at_portals t), "iSER");
                                                 (existsb (λ p, negb (apo_iser p)) (at_portals t), "TCP")]);
     er_hosts := hosts_cell (at_demo_mode t) (length (at_acls t)); er_clients := Some (session_count (at_iqn t) sessions);
     er_enabled := true; er_diagnose := false; er_client := []; er_external := true; er_task_id := None |}.
Definition foreign_iscsi_rows (a : ActualLio) (sessions : list IscsiSession) (rdma : list RdmaDev) : list ExportRow :=
  foreign_iscsi_row a sessions rdma <$> List.filter (λ t, negb (starts_with OUR_IQN_PREFIX (at_iqn t))) (al_targets a).
Definition iscsi_rows (d : ConfigDoc) (a : ActualLio) (sessions : list IscsiSession) (rdma : list RdmaDev)
    (pci_addrs : gmap string (list IpAddr)) : panics (list ExportRow) :=
  managed ← mapM (iscsi_row a sessions rdma pci_addrs (listen_addr d) (reconcile_task d)) (list_iscsi_exports d);
  Ok (managed ++ foreign_iscsi_rows a sessions rdma).
Definition iscsi_stored_interfaces (d : ConfigDoc) (id : Z) : list string :=
  default [] (iscsi_interfaces <$> List.find (λ e, bool_decide (iscsi_id e = id)) (list_iscsi_exports d)).

(** ** The interface picker and the detail page *)

Record IfaceChoice : Type := { ic_value : string; ic_label : string; ic_checked : bool }.
Definition iface_status (k : NicRdmaKind) : string :=
  match k with
  | Active => "RDMA active"
  | Inactive => "RDMA down"
  | CapableDisabled _ => "RoCE off"
  | SoftRoceable => "no RDMA"
  | Unsupported => "other"
  end.
Definition iface_choice (selected : list string) (n : NicStatus) : option IfaceChoice :=
  pci ← nst_pci n;
  let value := "pci:" +:+ as_str pci in
  let addrs := match nst_addrs n with [] => "no IP" | l => join ", " (show_ip <$> l) end in
  Some {| ic_value := value; ic_label := nst_netdev n +:+ " " +:+ em_dash +:+ " " +:+ addrs +:+ " (" +:+ iface_status (nst_kind n) +:+ ")";
          ic_checked := bool_decide (value ∈ selected) |}.
Definition iface_choices (nics : list NicStatus) (selected : list string) : list IfaceChoice :=
  sort_by ic_label (omap (iface_choice selected) nics).
Definition recheck (selected : list string) (c : IfaceChoice) : IfaceChoice :=
  {| ic_value := ic_value c; ic_label := ic_label c; ic_checked := bool_decide (ic_value c ∈ selected) |}.
(** What [gather_detail] adds to the list view: the row of the export, its name or
    its number, and its own pins. *)
Definition gather_detail (id : Z) (rows : list ExportRow) (interfaces : list IfaceChoice) (selected : list string) :
    string * option ExportRow * list IfaceChoice :=
  let row := List.find (λ r, bool_decide (er_id r = id) && negb (er_external r)) rows in
  (match row with Some r => er_name r | None => show_Z id end, row, recheck selected <$> interfaces).
Definition capable_disabled_nics (nics : list NicStatus) : list string :=
  omap (λ n, match nst_kind n with CapableDisabled _ => Some (nst_netdev n) | _ => None end) nics.

(** ** NFS *)

Record NfsRow : Type := {
  nr_id : Z; nr_path : string; nr_dot_class : string; nr_dot_reason : string; nr_clients : string; nr_enabled : bool;
  nr_diagnose : bool; nr_mount_cmd : string; nr_external : bool; nr_task_id : option Z }.
Definition clients_summary (l : list NfsClientEntry) : string :=
  match l with
  | [] => em_dash
  | _ => join ", " ((λ c, nce_client c +:+ " (" +:+ (if nce_rw c then "rw" else "ro") +:+ ")") <$> l)
  end.
Definition nfs_client_cmd (path : string) (listen : IpAddr) : string :=
  text_lines [
    "modprobe rpcrdma";
    "mount -o rdma,port=" +:+ pretty (raw NFS_RDMA_PORT) +:+ " " +:+
      (if is_unspecified listen then "<server-ip>" else show_ip listen) +:+ ":" +:+ path +:+ " /mnt";
    "# unmount: umount /mnt"].
Definition nfs_row (a : ActualNfs) (rdma : list RdmaDev) (listen : IpAddr) (task : option Z) (e : NfsExport) : NfsRow :=
  let '(class, reason, diagnose, row_task) :=
    if negb (nfs_enabled e) then ("dot-gray", "disabled", false, None)
    else
      let dot := nfs_dot e a rdma listen in
      let not_green := negb (bool_decide (dot_state dot = Green)) in
      (dot_class (dot_state dot), dot_reason dot, not_green, if not_green then task else None) in
  {| nr_id := nfs_id e; nr_path := nfs_path e; nr_dot_class := class; nr_dot_reason := reason;
     nr_clients := clients_summary (nfs_clients e); nr_enabled := nfs_enabled e; nr_diagnose := diagnose;
     nr_mount_cmd := nfs_client_cmd (nfs_path e) listen; nr_external := false; nr_task_id := row_task |}.
Definition foreign_nfs_row (a : ActualNfs) (rdma : list RdmaDev) (listen : IpAddr) (e : NfsExportEntry) : NfsRow :=
  let dot := external_nfs_dot a rdma listen in
  {| nr_id := 0; nr_path := nee_path e; nr_dot_class := dot_class (dot_state dot); nr_dot_reason := dot_reason dot;
     nr_clients := match nee_clients e with [] => em_dash | l => join ", " l end; nr_enabled := true; nr_diagnose := false;
     nr_mount_cmd := nfs_client_cmd (nee_path e) listen; nr_external := true; nr_task_id := None |}.
Definition nfs_rows (d : ConfigDoc) (a : ActualNfs) (rdma : list RdmaDev) : list NfsRow :=
  let ours := nfs_path <$> list_nfs_exports d in
  (nfs_row a rdma (listen_addr d) (reconcile_task d) <$> list_nfs_exports d) ++
  (foreign_nfs_row a rdma (listen_addr d) <$> List.filter (λ e, negb (bool_decide (nee_path e ∈ ours))) (anf_exports a)).

(** ** The client API *)

Record Listener : Type := { ln_trtype : string; ln_traddr : option IpAddr; ln_trsvcid : u16 }.
Record NvmeExportInfo : Type := {
  ni_info_id : Z; ni_info_name : string; ni_info_nqn : string; ni_info_enabled : bool; ni_info_any : bool;
  ni_info_authorized : bool; ni_info_listeners : list Listener }.
Record NfsExportInfo : Type := {
  nfi_id : Z; nfi_path : string; nfi_enabled : bool; nfi_port : u16; nfi_rdma : bool; nfi_authorized : bool }.
Definition listeners (e : NvmeExport) (addrs : list IpAddr) : list Listener :=
  let concrete := List.filter (λ a, negb (is_unspecified a)) addrs in
  mjoin ((λ w : bool * string,
    if w.1 then
      match concrete with
      | [] => [{| ln_trtype := w.2; ln_traddr := None; ln_trsvcid := TRSVCID |}]
      | _ => (λ a, {| ln_trtype := w.2; ln_traddr := Some a; ln_trsvcid := TRSVCID |}) <$> concrete
      end
    else []) <$> [(nvme_want_rdma e, "rdma"); (nvme_want_tcp e, "tcp")]).
Definition nvme_info (listen : IpAddr) (pci_addrs : gmap string (list IpAddr)) (hostnqn : option string) (e : NvmeExport) :
    panics NvmeExportInfo :=
  nqn ← nvme_nqn e;
  Ok {| ni_info_id := nvme_id e; ni_info_name := nvme_name e; ni_info_nqn := as_str nqn; ni_info_enabled := nvme_enabled e;
        ni_info_any := nvme_allow_any_host e;
        ni_info_authorized := nvme_allow_any_host e ||
          match hostnqn with Some h => existsb (λ i, bool_decide (i = h)) (nvme_initiators e) | None => false end;
        ni_info_listeners := listeners e (listen_addrs (nvme_interfaces e) listen pci_addrs) |}.
Definition nfs_info (rdma_up : bool) (peer : option IpAddr) (e : NfsExport) : NfsExportInfo :=
  {| nfi_id := nfs_id e; nfi_path := nfs_path e; nfi_enabled := nfs_enabled e; nfi_port := NFS_RDMA_PORT; nfi_rdma := rdma_up;
     nfi_authorized := match peer with
                       | Some ip => existsb (λ c, nfs_client_matches (nce_client c) ip) (nfs_clients e)
                       | None => false
                       end |}.
Definition exports (d : ConfigDoc) (a : ActualNfs) (pci_addrs : gmap string (list IpAddr)) (hostnqn : option string)
    (peer : option IpAddr) : panics (list NvmeExportInfo * list NfsExportInfo) :=
  nvme ← mapM (nvme_info (listen_addr d) pci_addrs hostnqn) (list_nvme_exports d);
  let rdma_up := match anf_rdma_port a with Some _ => true | None => false end in
  Ok (nvme, nfs_info rdma_up peer <$> list_nfs_exports d).
