(* ===== verification/ExportViewFacts.v ===== *)
(** * The advertised endpoints are the configured ones

    What the client API and the pages tell a client to connect to, compared with
    what the daemon renders from the same document. *)
From Stdlib Require Import Ascii String.
From stdpp Require Import base option list strings sets gmap pretty.
From S2P Require Import Prelude Ordered Validate IpAddr Types Wire Desired Actual Render RenderFacts Lio Fs Store StoreFacts Tasks ZfsView Site Exports Dots DotsFacts Reconcile ExportViews.
#[local] Open Scope string_scope.
#[local] Open Scope list_scope.

Lemma filter_elem {A} (p : A → bool) l a : a ∈ List.filter p l ↔ a ∈ l ∧ p a = true.
Proof. by rewrite !list_elem_of_In, filter_In. Qed.
(** A listener of a wanted transport at a concrete address. *)
Lemma listeners_at e addrs t a :
  t ≠ Loop → is_unspecified a = false →
  {| ln_trtype := trtype_str t; ln_traddr := Some a; ln_trsvcid := TRSVCID |} ∈ listeners e addrs ↔ wants e t = true ∧ a ∈ addrs.
Proof.
  intros Ht Ha. unfold listeners.
  set (concrete := List.filter _ addrs). assert (Hc : a ∈ concrete ↔ a ∈ addrs).
  { unfold concrete. rewrite filter_elem, Ha. naive_solver. }
  rewrite list_elem_of_join. setoid_rewrite list_elem_of_fmap. rewrite <- Hc. clearbody concrete. split.
  - intros (l & Hl & (w & -> & Hw)). rewrite !elem_of_cons in Hw. assert (Hin : w.1 = true ∧ w.2 = trtype_str t ∧ a ∈ concrete).
    { destruct w as [[] ty]; [|by apply elem_of_nil in Hl]. destruct concrete as [|b bs]; cbn in Hl.
      - apply list_elem_of_singleton in Hl. discriminate.
      - apply (list_elem_of_fmap (λ a, {| ln_trtype := ty; ln_traddr := Some a; ln_trsvcid := TRSVCID |}) (b :: bs)) in Hl as (x & [= -> ->] & Hx). done. }
    destruct Hin as (Hw1 & Hw2 & Hin). split; [|done].
    destruct Hw as [->|[->|[]%elem_of_nil]]; cbn in Hw1, Hw2; destruct t; cbn in Hw2; try done.
  - intros [Hw Hin]. eexists. split; [|exists (wants e t, trtype_str t); split; [reflexivity|]].
    + rewrite Hw. cbn. destruct concrete as [|b bs]; [by apply elem_of_nil in Hin|]. apply list_elem_of_fmap. by exists a.
    + destruct t; [left|right; left|done].
Qed.
Lemma rendered_trsvcid nvme dflt pci reserved r p :
  render_nvmet nvme dflt pci reserved = Ok r → p ∈ nd_ports r → port_trsvcid p = TRSVCID.
Proof.
  intros (named & _ & Hp & _)%render_nvmet_inv Hin. apply (assign_ids_fmap port_trsvcid) in Hp; [|done].
  apply (list_elem_of_fmap_2 port_trsvcid) in Hin. rewrite Hp in Hin. apply list_elem_of_fmap in Hin as (q & -> & Hq).
  unfold render_ports in Hq. apply elem_of_app in Hq as [(kv & -> & _)%list_elem_of_fmap|Hq]; [done|].
  destruct (loop_subs named); [by apply elem_of_nil in Hq|]. by apply list_elem_of_singleton in Hq as ->.
Qed.
(** The stored names are distinct, so an NQN names one export. *)
Lemma nqn_unique d e e' n :
  NoDup (nvme_name <$> cd_nvme_export d) → e ∈ list_nvme_exports d → e' ∈ list_nvme_exports d →
  nvme_nqn e = Ok n → nvme_nqn e' = Ok n → e = e'.
Proof.
  intros Hn He He' H1%nvme_nqn_Ok H2%nvme_nqn_Ok. rewrite H1 in H2. apply (inj (String.append _)) in H2.
  assert (Hl : NoDup (nvme_name <$> list_nvme_exports d)).
  { unfold list_nvme_exports. rewrite <- list_fmap_compose. change (nvme_name ∘ sort_nvme_initiators) with nvme_name. by rewrite sort_by_perm. }
  apply list_elem_of_lookup in He as [i Hi], He' as [j Hj]. assert (i = j) as ->; [|congruence].
  apply (NoDup_lookup _ i j (nvme_name e) Hl); rewrite list_lookup_fmap; [by rewrite Hi|rewrite Hj; cbn; by rewrite H2].
Qed.

(** iSCSI: every wanted transport has its portal at every listen address. *)
Lemma lio_portals_at e addrs a iser :
  a ∈ addrs → (if iser : bool then iscsi_want_rdma e else iscsi_want_tcp e) = true →
  {| portal_addr := a; portal_port := if iser then lit 3260%N else if iscsi_want_rdma e then lit 3261%N else lit 3260%N; portal_iser := iser |}
    ∈ lio_portals e addrs.
Proof.
  intros Ha Hw. unfold lio_portals. apply list_elem_of_join. eexists. split; [|apply list_elem_of_fmap; exists a; split; [reflexivity|done]].
  apply elem_of_app. destruct iser; rewrite Hw; [left|right]; by apply list_elem_of_singleton.
Qed.
Lemma render_lio_target l dflt pci r e iqn :
  render_lio_go l dflt pci = Ok r → e ∈ l → iscsi_render_error e = None → iscsi_iqn e = Ok iqn →
  ∃ t, t ∈ ld_targets r ∧ tgt_iqn t = iqn ∧ tgt_portals t = lio_portals e (listen_addrs (iscsi_interfaces e) dflt pci).
Proof.
  intros Hr He Hok Hq. revert r Hr. unfold iscsi_render_error in Hok. rewrite !new_is_ok in Hok.
  assert (Hb : validator NtBackstoreName (iscsi_name e)) by by destruct (validator NtBackstoreName _).
  assert (Hd : validator NtDevicePath (iscsi_device_path e)) by by destruct (validator NtBackstoreName _), (validator NtDevicePath _).
  induction l as [|x l IH]; intros r Hr; [by apply elem_of_nil in He|]. cbn in Hr. apply elem_of_cons in He as [<-|He].
  - destruct (new NtBackstoreName (iscsi_name e)) as [b|] eqn:Eb; [|by apply new_Err in Eb as [? _]].
    destruct (new NtDevicePath (iscsi_device_path e)) as [v|] eqn:Ev; [|by apply new_Err in Ev as [? _]].
    rewrite Hq in Hr. cbn in Hr. apply bind_Ok in Hr as (rest & _ & Ho). apply Ok_eq in Ho as <-. eexists. split; [left|done].
  - destruct (new NtBackstoreName (iscsi_name x)), (new NtDevicePath (iscsi_device_path x)); try (by apply IH).
    apply bind_Ok in Hr as (q & _ & (rest & Hrest & Ho)%bind_Ok). apply Ok_eq in Ho as <-.
    destruct (IH He _ Hrest) as (t & Ht & Hx). exists t. split; [by right|done].
Qed.

(** The commands that connect to a rendered port, and log in to a rendered portal. *)
Definition nvme_cmd (n : Nqn) (p : NvmetPortSpec) : ClientCmd :=
  let ty := trtype_str (port_trtype p) in
  {| cc_label := match port_trtype p with Rdma => "RDMA" | Tcp => "TCP" | Loop => "loop" end;
     cc_cmd := text_lines [
       "modprobe nvme-" +:+ ty;
       "nvme connect -t " +:+ ty +:+ " -a " +:+ show_ip (port_traddr p) +:+ " -s " +:+ show_uint (port_trsvcid p) +:+ " -n " +:+ as_str n;
       "# disconnect: nvme disconnect -n " +:+ as_str n] |}.
Definition iscsi_cmd (iqn : Iqn) (q : LioPortalSpec) : ClientCmd :=
  let at_ := show_ip (portal_addr q) +:+ ":" +:+ show_uint (portal_port q) +:+ (if portal_iser q then " -I iser" else "") in
  {| cc_label := if portal_iser q then "iSER (RDMA)" else "TCP";
     cc_cmd := text_lines ((if portal_iser q then ["modprobe ib_iser"] else []) ++ [
       "iscsiadm -m discovery -t st -p " +:+ at_;
       "iscsiadm -m node -T " +:+ as_str iqn +:+ " -p " +:+ at_ +:+ " --login";
       "# disconnect: iscsiadm -m node -T " +:+ as_str iqn +:+ " -p " +:+ at_ +:+ " --logout"]) |}.
(** The first listen address that is not a wildcard. *)
Definition concrete (addrs : list IpAddr) : option IpAddr := List.find (λ a, negb (is_unspecified a)) addrs.
Lemma nvme_cmds_spec e addrs a n cmds c :
  concrete addrs = Some a → nvme_nqn e = Ok n → nvme_client_instructions e addrs = Ok cmds →
  c ∈ cmds ↔ ∃ t, t ≠ Loop ∧ wants e t = true ∧
    ∀ p, port_key p = (t, a) → port_trsvcid p = TRSVCID → c = nvme_cmd n p.
Proof.
  intros Ha Hn. unfold nvme_client_instructions. rewrite Hn. intros Hc%Ok_eq. subst cmds. unfold advertised. fold (concrete addrs). rewrite Ha.
  assert (Hc : ∀ t w, w.1.1.2 = trtype_str t → w.1.2 = match t with Rdma => "RDMA" | Tcp => "TCP" | Loop => "loop" end →
    w.2 = "nvme-" +:+ trtype_str t → ∀ p, port_key p = (t, a) → port_trsvcid p = TRSVCID →
    transport_cmd (show_ip a) (as_str n) w = nvme_cmd n p).
  { intros t [[[x ty] lab] m] H1 H2 H3 p [= <- <-] Hs. unfold transport_cmd, nvme_cmd. cbn in H1, H2, H3. subst. by rewrite Hs. }
  rewrite list_elem_of_fmap. split.
  - intros (w & -> & (Hin & Hw)%filter_elem). rewrite !elem_of_cons, elem_of_nil in Hin. destruct Hin as [->|[->|[]]].
    + exists Rdma. split_and!; [done|done|]. by apply Hc.
    + exists Tcp. split_and!; [done|done|]. by apply Hc.
  - intros (t & Ht & Hw & Hp).
    specialize (Hp {| port_id := lit 1%N; port_trtype := t; port_traddr := a; port_trsvcid := TRSVCID; port_subsystems := [] |} eq_refl eq_refl).
    destruct t; [| |done].
    + exists (nvme_want_rdma e, "rdma", "RDMA", "nvme-rdma"). cbn [wants] in Hw. split; [by rewrite Hp|].
      apply filter_elem. split; [left|done].
    + exists (nvme_want_tcp e, "tcp", "TCP", "nvme-tcp"). cbn [wants] in Hw. split; [by rewrite Hp|].
      apply filter_elem. split; [right; left|done].
Qed.
Lemma iscsi_cmds_spec e addrs a iqn cmds c :
  concrete addrs = Some a → iscsi_iqn e = Ok iqn → iscsi_client_instructions e addrs = Ok cmds →
  c ∈ cmds ↔ ∃ q, q ∈ lio_portals e addrs ∧ portal_addr q = a ∧ c = iscsi_cmd iqn q.
Proof.
  intros Ha Hn. unfold iscsi_client_instructions. rewrite Hn. intros Hc%Ok_eq. subst cmds. unfold advertised. fold (concrete addrs). rewrite Ha.
  apply find_some in Ha as [Hin%list_elem_of_In _].
  assert (Hq : ∀ P : LioPortalSpec → Prop, (∃ q, q ∈ lio_portals e addrs ∧ portal_addr q = a ∧ P q) ↔
    iscsi_want_rdma e = true ∧ P {| portal_addr := a; portal_port := lit 3260%N; portal_iser := true |} ∨
    iscsi_want_tcp e = true ∧
      P {| portal_addr := a; portal_port := if iscsi_want_rdma e then lit 3261%N else lit 3260%N; portal_iser := false |}).
  { intros P. split.
    - intros (q & Hq & Hqa & HP). unfold lio_portals in Hq. apply list_elem_of_join in Hq as (l & Hq & (x & -> & _)%list_elem_of_fmap).
      apply elem_of_app in Hq as [Hq|Hq]; [left; destruct (iscsi_want_rdma e)|right; destruct (iscsi_want_tcp e)];
        try (by apply elem_of_nil in Hq); apply list_elem_of_singleton in Hq as ->; cbn in Hqa; by subst x.
    - intros [[Hw HP]|[Hw HP]]; eexists; (split; [|split; [|exact HP]]); try done;
        [by apply (lio_portals_at e addrs a true)|by apply (lio_portals_at e addrs a false)]. }
  rewrite Hq, elem_of_app. unfold iscsi_cmd. cbn [portal_addr portal_port portal_iser]. rewrite !app_assoc_s.
  destruct (iscsi_want_rdma e), (iscsi_want_tcp e); rewrite ?list_elem_of_singleton, ?elem_of_nil; clear; intuition (done || congruence).
Qed.

(** C15: what clients are told to connect to is what the daemon configures from the
    same document, whose NVMe-oF exports have distinct names. For an enabled NVMe-oF
    export with a valid device, the client API lists a concrete address for a transport
    if and only if the rendered target has a port on that transport and address, at the
    listed service number, that links the export's NQN. The page prints one address, the
    first concrete one (a placeholder if the export listens on wildcards only); its
    commands are then exactly the commands that connect to the rendered ports of the
    wanted network transports at that address, by transport, address, service number
    and NQN, and there is such a port for each. For an enabled, valid iSCSI export the
    commands are exactly those that log in to the portals, iSER or not, that the rendered
    target with the export's IQN has at that address. *)
Theorem advertised_endpoints_served d pci reserved r lio :
  NoDup (nvme_name <$> cd_nvme_export d) →
  render_nvmet (list_nvme_exports d) (listen_addr d) pci reserved = Ok r →
  render_lio (list_iscsi_exports d) (listen_addr d) pci = Ok lio →
  (∀ e host i, e ∈ nvmet_enabled (list_nvme_exports d) → nvme_info (listen_addr d) pci host e = Ok i →
    ∀ t a, t ≠ Loop → is_unspecified a = false →
      {| ln_trtype := trtype_str t; ln_traddr := Some a; ln_trsvcid := TRSVCID |} ∈ ni_info_listeners i ↔
      ∃ p, p ∈ nd_ports r ∧ port_key p = (t, a) ∧ port_trsvcid p = TRSVCID ∧
        ∃ n, n ∈ port_subsystems p ∧ as_str n = ni_info_nqn i) ∧
  (∀ e a cmds, e ∈ nvmet_enabled (list_nvme_exports d) → concrete (listen_addrs (nvme_interfaces e) (listen_addr d) pci) = Some a →
    nvme_client_instructions e (listen_addrs (nvme_interfaces e) (listen_addr d) pci) = Ok cmds →
    (∀ c, c ∈ cmds ↔ ∃ p n, nvme_nqn e = Ok n ∧ p ∈ nd_ports r ∧ n ∈ port_subsystems p ∧ port_traddr p = a ∧ port_trtype p ≠ Loop ∧
       c = nvme_cmd n p) ∧
    ∀ t, t ≠ Loop → wants e t = true → ∃ p n, nvme_nqn e = Ok n ∧ p ∈ nd_ports r ∧ port_key p = (t, a) ∧ n ∈ port_subsystems p) ∧
  (∀ e a iqn cmds, e ∈ list_iscsi_exports d → iscsi_enabled e = true → iscsi_render_error e = None → iscsi_iqn e = Ok iqn →
    concrete (listen_addrs (iscsi_interfaces e) (listen_addr d) pci) = Some a →
    iscsi_client_instructions e (listen_addrs (iscsi_interfaces e) (listen_addr d) pci) = Ok cmds →
    ∃ t, t ∈ ld_targets lio ∧ tgt_iqn t = iqn ∧
      ∀ c, c ∈ cmds ↔ ∃ q, q ∈ tgt_portals t ∧ portal_addr q = a ∧ c = iscsi_cmd iqn q).
Proof.
  intros Hn Hr Hl. destruct (render_nvmet_links _ _ _ _ _ Hr) as (_ & Hlinks & _).
  assert (Hports : ∀ e n t a, e ∈ nvmet_enabled (list_nvme_exports d) → nvme_nqn e = Ok n → t ≠ Loop →
    (∃ p, p ∈ nd_ports r ∧ port_key p = (t, a) ∧ n ∈ port_subsystems p) ↔
    wants e t = true ∧ a ∈ listen_addrs (nvme_interfaces e) (listen_addr d) pci).
  { intros e n t a He Hq Ht. rewrite (Hlinks t a n) by by intros ->. split.
    - intros (e' & He' & Hq' & Hw & Hin). assert (e = e') as <-; [|split; [by apply Is_true_true|by apply Hin]].
      apply list_elem_of_filter in He as [_ He], He' as [_ He']. by eapply nqn_unique.
    - intros [Hw Ha]. exists e. split_and!; [done|done|]. split; [by rewrite Hw|done]. }
  split_and!.
  - intros e host i He Hi t a Ht Ha. unfold nvme_info in Hi. apply bind_Ok in Hi as (n & Hq & Ho). apply Ok_eq in Ho as <-.
    cbn [ni_info_listeners ni_info_nqn]. rewrite (listeners_at _ _ _ _ Ht Ha), <- (Hports e n t a He Hq Ht). split.
    + intros (p & Hp & Hk & Hs). exists p. split_and!; eauto using rendered_trsvcid.
    + intros (p & Hp & Hk & _ & m & Hm & E). apply raw_inj in E as ->. by exists p.
  - intros e a cmds He Ha Hc. pose proof Ha as [Hin%list_elem_of_In _]%find_some.
    assert (∃ n, nvme_nqn e = Ok n) as [n Hq] by (unfold nvme_client_instructions in Hc; apply bind_Ok in Hc as (n & Hq & _); by exists n).
    assert (Hw : ∀ t, t ≠ Loop → wants e t = true → ∃ p, p ∈ nd_ports r ∧ port_key p = (t, a) ∧ n ∈ port_subsystems p).
    { intros t Ht Hw. by apply (Hports e n t a He Hq Ht). }
    split.
    + intros c. rewrite (nvme_cmds_spec e _ a n cmds c Ha Hq Hc). split.
      * intros (t & Ht & Hwt & Hp). destruct (Hw t Ht Hwt) as (p & Hpr & Hk & Hs). exists p, n.
        injection Hk as Hk1 Hk2. split_and!; try done; [by rewrite Hk1|]. apply Hp; [unfold port_key; by rewrite Hk1, Hk2|by eapply rendered_trsvcid].
      * intros (p & n' & Hq' & Hpr & Hs & <- & Hlo & ->). rewrite Hq in Hq'. injection Hq' as <-. exists (port_trtype p). split; [done|].
        destruct (proj1 (Hports e n (port_trtype p) (port_traddr p) He Hq Hlo)) as [Hwt _]; [by exists p|]. split; [done|].
        intros p' [= E1 E2] E3. unfold nvme_cmd. rewrite E1, E2, E3. by rewrite (rendered_trsvcid _ _ _ _ _ _ Hr Hpr).
    + intros t Ht Hwt. destruct (Hw t Ht Hwt) as (p & ? & ? & ?). by exists p, n.
  - intros e a iqn cmds He Hen Hre Hq Ha Hc. destruct (render_lio_target _ _ _ _ e iqn Hl) as (t & Ht & Hti & Hp); [|done|done|].
    { apply list_elem_of_filter. by rewrite Hen. }
    exists t. split_and!; [done|done|]. intros c. rewrite Hp. by apply iscsi_cmds_spec.
Qed.

Definition demo_doc : ConfigDoc :=
  set_iscsi (set_nvme (set_settings ConfigDoc_default {["listen_addr" := "10.0.0.5"]})
    [mk_nvme 1 "vm1" "/dev/zvol/tank/vm1" true true false true [] []])
    [{| iscsi_id := 1; iscsi_name := "tape"; iscsi_device_path := "/dev/zvol/tank/tape"; iscsi_enabled := true; iscsi_want_rdma := true;
        iscsi_want_tcp := true; iscsi_allow_any_host := true; iscsi_initiators := []; iscsi_interfaces := []; iscsi_last_error := None |}].
Definition demo_vm1 : NvmeExport := mk_nvme 1 "vm1" "/dev/zvol/tank/vm1" true true false true [] [].
Definition demo_target : NvmetDesired :=
  match render_nvmet (list_nvme_exports demo_doc) (listen_addr demo_doc) ∅ ∅ with
  | Ok r => r | Err _ => {| nd_subsystems := []; nd_ports := [] |} end.
Definition demo_lio : LioDesired :=
  match render_lio (list_iscsi_exports demo_doc) (listen_addr demo_doc) ∅ with
  | Ok r => r | Err _ => {| ld_backstores := []; ld_targets := [] |} end.
Definition demo_listener : Listener := {| ln_trtype := "tcp"; ln_traddr := Some ex_listen; ln_trsvcid := TRSVCID |}.
Lemma advertised_endpoints_served_witness :
  ∃ p, p ∈ nd_ports demo_target ∧ port_key p = (Tcp, ex_listen) ∧ port_trsvcid p = TRSVCID ∧
    ∃ n, n ∈ port_subsystems p ∧ as_str n = "nqn.2026-06.io.greendot:vm1".
Proof.
  assert (Hr : render_nvmet (list_nvme_exports demo_doc) (listen_addr demo_doc) ∅ ∅ = Ok demo_target) by (vm_compute; reflexivity).
  assert (Hl : render_lio (list_iscsi_exports demo_doc) (listen_addr demo_doc) ∅ = Ok demo_lio) by (vm_compute; reflexivity).
  destruct (advertised_endpoints_served demo_doc ∅ ∅ _ _ (NoDup_singleton _) Hr Hl) as [Hn _].
  destruct (nvme_info (listen_addr demo_doc) ∅ None demo_vm1) as [i|] eqn:Hi; [|vm_compute in Hi; discriminate].
  pose proof (Hn demo_vm1 None i) as Hat.
  assert (Hq : ni_info_nqn i = "nqn.2026-06.io.greendot:vm1") by (vm_compute in Hi; injection Hi as <-; reflexivity).
  rewrite <- Hq. apply (λ H1 H2, Hat H1 H2 Tcp ex_listen); [apply list_elem_of_filter; split; [vm_compute; exact I|left]|exact Hi|discriminate|reflexivity|].
  vm_compute in Hi. injection Hi as <-. right. left.
Defined.
