(* ===== verification/Sessions.v ===== *)
(** * Browser sessions, client tokens and pairing strings (auth.rs,
    routes/client_access.rs; greendot-client's pairing.rs)

    The cookie and CSRF gate in front of the pages, the tokens the client API
    accepts, and the string that carries one to a client. The random generator is a
    class parameter, by draw; times are nanoseconds of a monotonic clock. *)
From Stdlib Require Import Ascii String.
From stdpp Require Import base option list strings sets gmap pretty vector.
From S2P Require Import Prelude Ordered Validate IpAddr Types Wire Ops Auth Fs Store Tasks Site Exports Lio Snapshots.
#[local] Open Scope string_scope.
#[local] Open Scope list_scope.

(** ** Sessions *)

Definition SESSION_COOKIE : string := "gd_session".
Definition CSRF_HEADER : string := "x-greendot-csrf".
Record Session : Type := { ss_username : string; ss_csrf : string; ss_expires : Z }.
Record Sessions : Type := { se_inner : gmap string Session; se_draws : nat }.
(** The n-th draw of 32 random bytes, and the token made of it. *)
Class Random := random_bytes : nat → vec u8 32.
Definition hex_byte (b : u8) : string := String (hex_digit (raw b / 16)) (String (hex_digit (raw b mod 16)) "").
Definition random_token {R : Random} (n : nat) : string := String.concat "" (hex_byte <$> vec_to_list (random_bytes n)).
Section sessions.
Context {R : Random} (ttl : Z).
Definition create_session (username : string) (now : Z) (s : Sessions) : string * string * Sessions :=
  let token := random_token (se_draws s) in
  let csrf := random_token (S (se_draws s)) in
  (token, csrf,
   {| se_inner := <[token := {| ss_username := username; ss_csrf := csrf; ss_expires := (now + ttl)%Z |}]> (se_inner s);
      se_draws := S (S (se_draws s)) |}).
Definition get_session (token : string) (now : Z) (s : Sessions) : option Session * Sessions :=
  match se_inner s !! token with
  | Some session =>
      if (now <=? ss_expires session)%Z then
        let session := {| ss_username := ss_username session; ss_csrf := ss_csrf session; ss_expires := (now + ttl)%Z |} in
        (Some session, {| se_inner := <[token := session]> (se_inner s); se_draws := se_draws s |})
      else (None, {| se_inner := delete token (se_inner s); se_draws := se_draws s |})
  | None => (None, s)
  end.
Definition remove_session (token : string) (s : Sessions) : Sessions :=
  {| se_inner := delete token (se_inner s); se_draws := se_draws s |}.

(** ** Requests *)

(** Header names in lower case, in the order received. *)
Inductive Method : Type := GET | HEAD | OtherMethod (name : string).
Record http_request : Type := { hr_method : Method; hr_headers : list (string * string) }.
Definition header_get (name : string) (headers : list (string * string)) : option string :=
  snd <$> List.find (λ kv, bool_decide (kv.1 = name)) headers.
(** [HeaderValue::to_str]: visible ASCII and tabs. *)
Definition to_str (v : string) : option string :=
  if all_chars (λ c, in_range 32 126 c || Ascii.eqb c "009") v then Some v else None.
Definition cookie_value (headers : list (string * string)) (name : string) : option string :=
  v ← header_get "cookie" headers;
  text ← to_str v;
  snd <$> List.find (λ kv, bool_decide (kv.1 = name)) (omap (λ pair, split_once "=" (trim pair)) (split ";" text)).
Inductive nav : Type := HxRedirect (path : string) | SeeOther (path : string).
Definition nav_redirect (headers : list (string * string)) (path : string) : nav :=
  if header_get "hx-request" headers then HxRedirect path else SeeOther path.
Definition mutating (m : Method) : bool := match m with GET | HEAD => false | _ => true end.
Record CurrentUser : Type := { cu_username : string; cu_csrf : string }.
Inductive gate_reply : Type :=
| ToLogin (n : nav)
| Forbidden
| Pass (user : CurrentUser).
Definition require_auth (req : http_request) (now : Z) (s : Sessions) : gate_reply * Sessions :=
  let '(session, s) :=
    match cookie_value (hr_headers req) SESSION_COOKIE with
    | Some token => get_session token now s
    | None => (None, s)
    end in
  match session with
  | None => (ToLogin (nav_redirect (hr_headers req) "/login"), s)
  | Some session =>
      let sent := header_get CSRF_HEADER (hr_headers req) ≫= to_str in
      if mutating (hr_method req) && negb (bool_decide (sent = Some (ss_csrf session))) then (Forbidden, s)
      else (Pass {| cu_username := ss_username session; cu_csrf := ss_csrf session |}, s)
  end.

(** ** Login and logout *)

Inductive login_reply : Type :=
| LoggedIn (set_cookie : string)
| LoginFailed (message : string).
Definition session_cookie (token : string) (secure : bool) : string :=
  SESSION_COOKIE +:+ "=" +:+ token +:+ "; HttpOnly; SameSite=Lax; Path=/" +:+ (if secure then "; Secure" else "").
Definition login_post (authenticate : Authenticate → result string AuthResult) (secure : bool) (username password : string)
    (now : Z) (s : Sessions) : login_reply * Sessions :=
  match new NtUsername username with
  | Err _ => (LoginFailed "invalid username or password", s)
  | Ok username =>
      match authenticate {| authenticate_username := username; authenticate_password := password |} with
      | Ok (AuthOk username) =>
          let '(token, _, s) := create_session username now s in
          (LoggedIn (session_cookie token secure), s)
      | Ok (AuthErr EBusy message) | Ok (AuthErr ENotInAdminGroup message) => (LoginFailed message, s)
      | Ok (AuthErr _ _) => (LoginFailed "invalid username or password", s)
      | Err _ => (LoginFailed "authentication service unavailable", s)
      end
  end.
(** The handler; the route is behind the gate like every page. *)
Definition logout (req : http_request) (s : Sessions) : nav * Sessions :=
  (nav_redirect (hr_headers req) "/login",
   match cookie_value (hr_headers req) SESSION_COOKIE with
   | Some token => remove_session token s
   | None => s
   end).
End sessions.

(** ** Client tokens *)

Definition connection_string (host token : string) (fp : option string) : string :=
  match fp with
  | Some fp => "greendot://" +:+ token +:+ "@" +:+ host +:+ "/?fp=" +:+ fp
  | None => "greendot://" +:+ token +:+ "@" +:+ host +:+ "/"
  end.
Definition request_host (listen : string) (headers : list (string * string)) : string :=
  default listen (header_get "host" headers ≫= to_str).
Definition sop_try {A} (m : sop A) : sop (result string A) := λ s,
  match m s with
  | (Ok a, s') => (Ok (Ok a), s')
  | (Err (Bail e), s') => (Ok (Err e), s')
  | (Err (Panicked p), s') => (Err (Panicked p), s')
  end.
Record access_reply : Type := { ar_new_token : option (string * string); ar_form_error : option string }.
Section access.
Context {K : Kernel} {D : DocCodec} (file : path) {R : Random} {S : Sha256}.
Context (listen : string) (tls_fingerprint : option string).
(** The draw is the one the token is made of; the clock is read before the store. *)
Definition create_token (headers : list (string * string)) (form_name : string) (draw : nat) (created : Z) : sop access_reply :=
  let name := trim form_name in
  if is_empty name || (64 <? slen name)%N then
    mret {| ar_new_token := None; ar_form_error := Some "token name must be 1-64 characters" |}
  else
    let raw := "gdt_" +:+ random_token draw in
    r ← sop_try (insert_client_token file name (token_hash raw) created);
    mret match r with
         | Ok _ => {| ar_new_token := Some (name, connection_string (request_host listen headers) raw tls_fingerprint);
                      ar_form_error := None |}
         | Err e => {| ar_new_token := None; ar_form_error := Some e |}
         end.
Definition revoke_token (id : Z) : sop access_reply :=
  r ← sop_try (delete_client_token file id);
  mret {| ar_new_token := None; ar_form_error := match r with Ok _ => None | Err e => Some e end |}.
End access.
(** The rows of the page. *)
Definition token_row `{Cron} (t : ClientToken) : Z * string * string :=
  (ct_id t, ct_name t, if in_calendar (ct_created_at t) then minute (ct_created_at t) else "").

(** ** Pairing (the client's side) *)

Record Pairing : Type := { pa_token : string; pa_host : string; pa_fingerprint : option string }.
Definition has_char (c : ascii) (s : string) : bool := negb (all_chars (λ a, negb (Ascii.eqb a c)) s).
Definition is_ascii_hexdigit (c : ascii) : bool := is_ascii_digit c || in_range 97 102 c || in_range 65 70 c.
Fixpoint lowercase (s : string) : string :=
  match s with EmptyString => "" | String c s => String (to_ascii_lowercase c) (lowercase s) end.
Definition find_fp (q : string) : option string := head (omap (strip_prefix "fp=") (split "&" q)).
Definition parse_pairing (s : string) : result string Pairing :=
  rest ← ok_or "not a greendot:// connection string" (strip_prefix "greendot://" (trim s));
  '(token, rest) ← ok_or "missing token (expected greendot://<token>@<host>/...)" (split_once "@" rest);
  if is_empty token || has_char "/" token then Err "malformed token in connection string"
  else
    let '(host, query) :=
      match split_once "?" rest with
      | Some (h, q) => (trim_end_matches "/" h, Some q)
      | None => (trim_end_matches "/" rest, None)
      end in
    if is_empty host || has_char "/" host then Err "malformed host in connection string"
    else
      let fingerprint := query ≫= find_fp in
      match fingerprint with
      | Some fp =>
          if negb (slen fp =? 64)%N || negb (all_chars is_ascii_hexdigit fp)
          then Err ("malformed fingerprint " +:+ debug_str fp +:+ " (expected 64 hex chars)")
          else Ok {| pa_token := token; pa_host := host; pa_fingerprint := Some (lowercase fp) |}
      | None => Ok {| pa_token := token; pa_host := host; pa_fingerprint := None |}
      end.
