(* ===== verification/SessionFacts.v ===== *)
(** * Sessions over time, and the life of a client token *)
From Stdlib Require Import Ascii String.
From stdpp Require Import base option list strings sets gmap pretty relations.
From S2P Require Import Prelude Ordered Validate IpAddr Types Wire Ops Auth Fs Store StoreFacts Tasks Site Exports Lio Snapshots Sessions.
From S2P Require Import DotsFacts ExportsFacts.
#[local] Open Scope string_scope.
#[local] Open Scope list_scope.

(** ** The log of a service *)

(** What was asked and answered, newest first; [draw] counts the random tokens
    before a login, [leave] tells the logout route from the other pages. *)
Inductive what : Type :=
| Login (auth : Authenticate → result string AuthResult) (secure : bool) (username password : string) (draw : nat) (r : login_reply)
| Visit (leave : bool) (req : http_request) (r : gate_reply).
Record entry : Type := { en_time : Z; en_what : what }.
Section log.
Context {R : Random} (ttl : Z).
Inductive portal_step : relation (list entry * Sessions) :=
| step_login now auth secure username password s log r s' :
    login_post ttl auth secure username password now s = (r, s') →
    portal_step (log, s) ({| en_time := now; en_what := Login auth secure username password (se_draws s) r |} :: log, s')
| step_visit now leave req s log r s1 :
    require_auth ttl req now s = (r, s1) →
    portal_step (log, s)
      ({| en_time := now; en_what := Visit leave req r |} :: log,
       match r with Pass _ => if leave : bool then (logout req s1).2 else s1 | _ => s1 end).
(** The login that made a session: the helper said yes for this user, and the token
    and the CSRF token are its two draws. *)
Definition issues (tok csrf user : string) (e : entry) : Prop :=
  ∃ auth secure username u password draw,
    en_what e = Login auth secure username password draw (LoggedIn (session_cookie tok secure)) ∧
    new NtUsername username = Ok u ∧
    auth {| authenticate_username := u; authenticate_password := password |} = Ok (AuthOk user) ∧
    tok = random_token draw ∧ csrf = random_token (S draw).
Definition with_cookie (tok : string) (e : entry) : Prop :=
  match en_what e with
  | Visit _ req _ => cookie_value (hr_headers req) SESSION_COOKIE = Some tok
  | Login _ _ _ _ _ _ => False
  end.
Definition touches (tok : string) (e : entry) : Prop := with_cookie tok e ∨ ∃ csrf user, issues tok csrf user e.
(** A visit with the token that ended it: sent back to the login, or logged out. *)
Definition ends (tok : string) (e : entry) : Prop :=
  with_cookie tok e ∧
  match en_what e with
  | Visit leave _ r => match r with ToLogin _ => True | Pass _ => leave = true | Forbidden => False end
  | Login _ _ _ _ _ _ => False
  end.
(** The latest time an entry touched the token. *)
Definition recent (tok : string) (l : list entry) (t : Z) : Prop :=
  ∃ pre e post, l = pre ++ e :: post ∧ touches tok e ∧ en_time e = t ∧ Forall (λ e, ¬ touches tok e) pre.
Definition live_since (tok : string) (log : list entry) (ses : Session) : Prop :=
  ∃ newer e older last, log = newer ++ e :: older ∧ issues tok (ss_csrf ses) (ss_username ses) e ∧
    Forall (λ e, ¬ ends tok e ∧ ¬ ∃ csrf user, issues tok csrf user e) newer ∧
    recent tok (newer ++ [e]) last ∧ ss_expires ses = (last + ttl)%Z.
Definition sessions_ok (log : list entry) (s : Sessions) : Prop :=
  ∀ tok ses, se_inner s !! tok = Some ses → live_since tok log ses.

Lemma live_untouched tok log ses e : live_since tok log ses → ¬ touches tok e → live_since tok (e :: log) ses.
Proof.
  intros (newer & L & older & last & -> & Hi & Hn & (pre & r & post & Hl & Hr & Ht & Hp) & He) Hu.
  exists (e :: newer), L, older, last. split_and!; [done|done| |by exists (e :: pre), r, post; rewrite <- app_comm_cons, Hl; split_and!; [| | |constructor]|done].
  constructor; [|done]. split; [intros [Hc _]; apply Hu; by left|intros Hx; apply Hu; by right].
Qed.
Lemma live_used tok log ses e now :
  live_since tok log ses → with_cookie tok e → ¬ ends tok e → en_time e = now →
  live_since tok (e :: log) {| ss_username := ss_username ses; ss_csrf := ss_csrf ses; ss_expires := (now + ttl)%Z |}.
Proof.
  intros (newer & L & older & last & -> & Hi & Hn & _ & _) Hc Hne <-. exists (e :: newer), L, older, (en_time e).
  split_and!; [done|done| |by exists [], e, (newer ++ [L]); split_and!; [|left| |constructor]|done].
  constructor; [|done]. split; [done|]. intros (csrf & user & auth & secure & un & u & pw & draw & Hx & _).
  unfold with_cookie in Hc. by rewrite Hx in Hc.
Qed.
Lemma login_ok now auth secure username password s log r s' :
  login_post ttl auth secure username password now s = (r, s') → sessions_ok log s →
  sessions_ok ({| en_time := now; en_what := Login auth secure username password (se_draws s) r |} :: log) s'.
Proof.
  intros Hl Hok. unfold login_post in Hl.
  assert (Hfail : ∀ m, r = LoginFailed m → s' = s → sessions_ok ({| en_time := now; en_what := Login auth secure username password (se_draws s) r |} :: log) s').
  { intros m -> -> tok ses Hs. apply live_untouched; [by apply Hok|]. intros [[]|(csrf & user & a & sc & un & u & pw & draw & [=] & _)]. }
  destruct (new NtUsername username) as [u|] eqn:Eu; [|injection Hl as <- <-; by eapply Hfail].
  destruct (auth _) as [[user|k m]|e] eqn:Ea; [|destruct k; injection Hl as <- <-; by eapply Hfail|injection Hl as <- <-; by eapply Hfail].
  injection Hl as <- <-. intros tok ses. cbn [se_inner].
  set (e := {| en_time := now; en_what := _ |}). destruct (decide (tok = random_token (se_draws s))) as [->|Hne].
  - rewrite lookup_insert_eq. intros [= <-]. assert (Hi : issues (random_token (se_draws s)) (random_token (S (se_draws s))) user e).
    { exists auth, secure, username, u, password, (se_draws s). done. }
    exists [], e, log, now. split_and!; [done|done|done|exists [], e, []; split_and!; [done|right; eauto|done|done]|done].
  - rewrite lookup_insert_ne by done. intros Hs. apply live_untouched; [by apply Hok|].
    intros [[]|(csrf & user' & a & sc & un & u' & pw & draw & [= <- <- <- <- <- Hck] & _ & _ & Ht & _)]. by apply Hne.
Qed.
Lemma visit_ok now leave req s log r s1 :
  require_auth ttl req now s = (r, s1) → sessions_ok log s →
  sessions_ok ({| en_time := now; en_what := Visit leave req r |} :: log)
    match r with Pass _ => if leave : bool then (logout req s1).2 else s1 | _ => s1 end.
Proof.
  intros Hr Hok. set (e := {| en_time := now; en_what := Visit leave req r |}).
  assert (Hother : ∀ tok ses, se_inner s !! tok = Some ses → cookie_value (hr_headers req) SESSION_COOKIE ≠ Some tok → live_since tok (e :: log) ses).
  { intros tok ses Hs Hc. apply live_untouched; [by apply Hok|]. intros [Hw|(csrf & user & a & sc & un & u & pw & draw & [=] & _)]. by apply Hc. }
  unfold require_auth in Hr. destruct (cookie_value _ _) as [tc|] eqn:Ec; [|injection Hr as <- <-; intros tok ses Hs; by apply Hother].
  unfold get_session in Hr. destruct (se_inner s !! tc) as [ses0|] eqn:Es.
  2:{ injection Hr as <- <-. intros tok ses Hs. apply Hother; [done|]. intros [= ->]. congruence. }
  destruct (now <=? ss_expires ses0)%Z eqn:Ex.
  2:{ injection Hr as <- <-. intros tok ses Hs. cbn in Hs. apply lookup_delete_Some in Hs as [Hne Hs]. apply Hother; [done|]. by intros [= ->]. }
  set (ses1 := {| ss_username := _; ss_csrf := _; ss_expires := (now + ttl)%Z |}) in Hr.
  set (s2 := {| se_inner := <[tc := ses1]> (se_inner s); se_draws := se_draws s |}) in Hr.
  assert (Hkept : ¬ ends tc e → sessions_ok (e :: log) s2).
  { intros Hne tok ses Hs. cbn in Hs. destruct (decide (tok = tc)) as [->|Hneq].
    - rewrite lookup_insert_eq in Hs. injection Hs as <-. by apply live_used; [apply Hok| | |].
    - rewrite lookup_insert_ne in Hs by done. apply Hother; [done|]. by intros [= ->]. }
  destruct (mutating _ && _) in Hr; injection Hr as <- <-.
  - apply Hkept. intros [_ Hends]. done.
  - destruct leave; [|apply Hkept; intros [_ Hends]; done]. unfold logout. rewrite Ec. intros tok ses Hs. cbn in Hs.
    apply lookup_delete_Some in Hs as [Hne Hs]. rewrite lookup_insert_ne in Hs by done. apply Hother; [done|]. by intros [= ->].
Qed.

(** A page is only ever shown to a browser whose cookie is the token of an
    earlier login that the helper confirmed for the user shown; since that login no
    visit with the token was sent back or logged out, the token was last used at
    most the session lifetime ago, and a request that changes something carries
    the CSRF token drawn at that login. This holds in every run, whatever was asked
    in between and whether or not random tokens collide. *)
Lemma session_gate log s req now user s' draws :
  rtc portal_step ([], {| se_inner := ∅; se_draws := draws |}) (log, s) →
  require_auth ttl req now s = (Pass user, s') →
  ∃ tok newer e older last,
    cookie_value (hr_headers req) SESSION_COOKIE = Some tok ∧ log = newer ++ e :: older ∧
    issues tok (cu_csrf user) (cu_username user) e ∧
    Forall (λ e, ¬ ends tok e ∧ ¬ ∃ csrf user, issues tok csrf user e) newer ∧
    recent tok (newer ++ [e]) last ∧ (now <= last + ttl)%Z ∧
    (mutating (hr_method req) = true → header_get CSRF_HEADER (hr_headers req) = Some (cu_csrf user)).
Proof.
  intros Hrun Hr. assert (Hok : sessions_ok log s).
  { assert (Hgen : ∀ x y, rtc portal_step x y → sessions_ok x.1 x.2 → sessions_ok y.1 y.2).
    { induction 1 as [|x y z Hs _ IH]; [done|]. intros Hx. apply IH. destruct Hs; [by eapply login_ok|by eapply visit_ok]. }
    apply (Hgen _ _ Hrun). intros tok ses. cbn. by rewrite lookup_empty. }
  unfold require_auth in Hr. destruct (cookie_value _ _) as [tok|] eqn:Ec; [|done]. unfold get_session in Hr.
  destruct (se_inner s !! tok) as [ses|] eqn:Es; [|done]. destruct (now <=? ss_expires ses)%Z eqn:Ex; [|done].
  destruct (Hok _ _ Es) as (newer & e & older & last & Hlog & Hi & Hn & Hre & Hexp). cbn [ss_csrf ss_username] in Hr.
  destruct (mutating (hr_method req)) eqn:Em; cbn [andb] in Hr.
  - case_bool_decide as Hsent; [|done]. injection Hr as <- <-. exists tok, newer, e, older, last. split_and!; try done; [lia|].
    intros _. apply bind_Some in Hsent as (v & Hv & Hts). unfold to_str in Hts. cbn. case_match; [|done]. by injection Hts as <-.
  - injection Hr as <- <-. exists tok, newer, e, older, last. split_and!; try done. lia.
Qed.
End log.

(** ** Pairing strings *)

Section pairing.
Context {R : Random}.
Lemma hex_byte_chars b : all_chars lower_hex_char (hex_byte b) ∧ slen (hex_byte b) = 2%N.
Proof.
  split; [|done].
  pose proof (forall_below (λ n, all_chars lower_hex_char (String (hex_digit (n / 16)) (String (hex_digit (n mod 16)) ""))) 256 (raw b)
    ltac:(vm_compute; reflexivity) (uint_lt b)) as Hb. unfold hex_byte. by rewrite Hb.
Qed.
Lemma concat_hex (l : list u8) : all_chars lower_hex_char (String.concat "" (hex_byte <$> l)) ∧ slen (String.concat "" (hex_byte <$> l)) = (2 * N.of_nat (length l))%N.
Proof.
  induction l as [|b l [IH1 IH2]]; [done|]. destruct (hex_byte_chars b) as [Hc Hl].
  assert (E : String.concat "" (hex_byte <$> b :: l) = hex_byte b +:+ String.concat "" (hex_byte <$> l)).
  { destruct l; [symmetry; apply app_nil_r_s|reflexivity]. }
  rewrite E, all_chars_app, slen_app, Hl, IH2, andb_True. split; [done|]. cbn [length]. lia.
Qed.
Lemma random_token_chars n : all_chars lower_hex_char (random_token n).
Proof. apply concat_hex. Qed.
Lemma random_token_len n : slen (random_token n) = 64%N.
Proof. unfold random_token. rewrite (proj2 (concat_hex _)), length_vec_to_list. done. Qed.
Lemma all_lower_hex_not c s : all_chars lower_hex_char s → lower_hex_char c = false → c ∉ chars s.
Proof. intros Hs Hc. by apply (all_chars_absent _ _ _ Hs). Qed.
Lemma has_char_false c s : c ∉ chars s → has_char c s = false.
Proof.
  intros Hc. unfold has_char. apply negb_false_iff, Is_true_true, all_chars_spec, Forall_forall. intros a Ha.
  destruct (Ascii.eqb_spec a c) as [->|]; [done|done].
Qed.
Lemma split_once_at c x y : c ∉ chars x → split_once c (x +:+ String c y) = Some (x, y).
Proof. intros Hx. by apply split_once_Some. Qed.
Lemma lower_hex_lowercase s : all_chars lower_hex_char s → lowercase s = s.
Proof.
  induction s as [|c s IH]; [done|]. intros Hc. cbn in Hc. apply andb_True in Hc as [Hc Hs]. cbn. rewrite (IH Hs). f_equal. destruct c as [[] [] [] [] [] [] [] []]; done.
Qed.
Lemma trim_kept c s t : is_ws c = false → all_chars not_ws t → t ≠ "" → trim (String c (s +:+ t)) = String c (s +:+ t).
Proof.
  intros Hc Ht Hne. unfold trim. cbn [trim_start]. rewrite Hc. change (String c (s +:+ t)) with (String c s +:+ t). by apply trim_end_tail.
Qed.
(** The host as a browser names it, and a certificate's fingerprint. *)
Definition plain_host (h : string) : Prop := h ≠ "" ∧ "/"%char ∉ chars h ∧ "?"%char ∉ chars h.
Definition fingerprint_ok (fp : string) : Prop := all_chars lower_hex_char fp ∧ slen fp = 64%N.
Lemma find_fp_whole fp : all_chars lower_hex_char fp → find_fp ("fp=" +:+ fp) = Some fp.
Proof.
  intros Hf. unfold find_fp. rewrite split_absent; [done|]. rewrite chars_app. intros [Hx|Hx]%elem_of_app.
  - by apply (all_chars_absent (λ c, negb (Ascii.eqb c "&")) "fp=" "&").
  - by apply (all_lower_hex_not "&" _ Hf).
Qed.
Definition conn_tail (fp : option string) : string := match fp with Some f => "/?fp=" +:+ f | None => "/" end.
Lemma conn_tail_plain fp : (∀ f, fp = Some f → fingerprint_ok f) → all_chars not_ws (conn_tail fp).
Proof.
  destruct fp as [f|]; [|done]. intros Hf. destruct (Hf f eq_refl) as [Hc _]. cbn [conn_tail]. rewrite all_chars_app, andb_True.
  split; [done|by apply (all_chars_incl _ _ _ Hc)].
Qed.
Lemma connection_form host token fp :
  connection_string host token fp = "greendot://" +:+ (token +:+ String "@" (host +:+ conn_tail fp)).
Proof. by destruct fp. Qed.
Lemma host_query host fp :
  plain_host host → (∀ f, fp = Some f → fingerprint_ok f) →
  match split_once "?" (host +:+ conn_tail fp) with
  | Some (h, q) => (trim_end_matches "/" h, Some q)
  | None => (trim_end_matches "/" (host +:+ conn_tail fp), None)
  end = (host, (λ f, "fp=" +:+ f) <$> fp).
Proof.
  intros (Hh & Hhs & Hhq) Hfp. destruct fp as [f|]; cbn [conn_tail].
  - change ("/?fp=" +:+ f) with ("/" +:+ String "?" ("fp=" +:+ f)). rewrite <- app_assoc_s, split_once_at.
    + change (host +:+ "/") with (host +:+ String "/" ""). by rewrite trim_end_last.
    + rewrite chars_app. intros [Hx|Hx%list_elem_of_singleton]%elem_of_app; [done|discriminate].
  - assert (E : split_once "?" (host +:+ "/") = None).
    { apply split_once_None. rewrite chars_app. intros [Hx|Hx%list_elem_of_singleton]%elem_of_app; [done|discriminate]. }
    rewrite E. change (host +:+ "/") with (host +:+ String "/" ""). by rewrite trim_end_last.
Qed.
Lemma pairing_round_trip token host fp :
  token ≠ "" → "@"%char ∉ chars token → "/"%char ∉ chars token → plain_host host → (∀ f, fp = Some f → fingerprint_ok f) →
  parse_pairing (connection_string host token fp) = Ok {| pa_token := token; pa_host := host; pa_fingerprint := fp |}.
Proof.
  intros Ht Hat Hsl Hh Hfp. unfold parse_pairing. rewrite connection_form.
  assert (Htrim : trim ("greendot://" +:+ (token +:+ String "@" (host +:+ conn_tail fp))) = "greendot://" +:+ (token +:+ String "@" (host +:+ conn_tail fp))).
  { replace ("greendot://" +:+ (token +:+ String "@" (host +:+ conn_tail fp)))
      with (String "g" (("reendot://" +:+ token +:+ String "@" host) +:+ conn_tail fp)) by (cbn; by rewrite !app_assoc_s).
    apply trim_kept; [done|by apply conn_tail_plain|by destruct fp]. }
  rewrite Htrim, (proj2 (strip_prefix_Some _ _ _) eq_refl). cbn [ok_or mbind result_bind]. rewrite split_once_at by done. cbn [ok_or mbind result_bind].
  assert (Hte : is_empty token = false) by by destruct token. rewrite Hte, (has_char_false _ _ Hsl). cbn [orb].
  rewrite (host_query _ _ Hh Hfp). destruct Hh as (Hhe & Hhs & _).
  assert (Hhe' : is_empty host = false) by by destruct host. rewrite Hhe', (has_char_false _ _ Hhs). cbn [orb].
  destruct fp as [f|]; [|done]. destruct (Hfp f eq_refl) as [Hc Hl]. cbn [fmap option_fmap option_map mbind option_bind].
  rewrite (find_fp_whole _ Hc), Hl, (lower_hex_lowercase _ Hc).
  assert (Hhex : all_chars is_ascii_hexdigit f = true) by by apply Is_true_true, (all_chars_incl _ _ _ Hc). by rewrite Hhex.
Qed.
End pairing.

(** ** The life of a client token *)

Section tokens.
Context {K : Kernel} {D : DocCodec} (file : path) {R : Random} {S : Sha256} (Hne : tmp_file file ≠ file).
Lemma authorized_spec d raw :
  authorized d (Some ("Bearer " +:+ raw)) = true ↔ ∃ t, t ∈ cd_client_token d ∧ ct_token_hash t = token_hash raw.
Proof.
  unfold authorized. cbn [mbind option_bind]. rewrite (proj2 (strip_prefix_Some _ _ _) eq_refl), existsb_exists.
  unfold list_client_tokens. setoid_rewrite <- list_elem_of_In. setoid_rewrite sort_by_perm. setoid_rewrite bool_decide_eq_true. done.
Qed.
Lemma insert_token_run name h created s id s' :
  insert_client_token file name h created s = (Ok id, s') →
  db_doc s' = add_token (db_doc s) id {| ct_id := id; ct_name := name; ct_token_hash := h; ct_created_at := created |} ∧
  id = (cd_next_client_token_id (db_doc s) + 1)%Z ∧ on_disk file s'.
Proof.
  set (make id := add_token (db_doc s) id {| ct_id := id; ct_name := name; ct_token_hash := h; ct_created_at := created |}).
  intros E0. assert (E : insertion file (existsb (λ t, bool_decide (ct_name t = name)) (cd_client_token (db_doc s)))
    ("a token named " +:+ debug_str name +:+ " already exists") (cd_next_client_token_id (db_doc s)) make s = (Ok id, s')) by exact E0.
  pose proof (insertion_run file Hne _ _ _ _ _ _ _ E) as (Ho & Hd & Hid).
  pose proof (Hid id eq_refl) as Hx. destruct Hx as [Hdup Hx]. subst id.
  destruct Hd as [[_ [=]]|[_ Hd]]. split_and!; [done|done|]. unfold insertion in E. rewrite Hdup in E.
  unfold mbind, sop_bind, incr_i64 in E. destruct (_ =? _)%Z in E; [done|]. unfold put in E.
  destruct (persist file _) as [[u|e] s1] eqn:Ep; [|done]. apply persist_run in Ep as (_ & _ & Hdisk); [|done]. by injection E as <-.
Qed.
Lemma create_token_run listen fp headers name draw created s reply s' n text :
  create_token file listen fp headers name draw created s = (Ok reply, s') → ar_new_token reply = Some (n, text) →
  let raw := "gdt_" +:+ random_token draw in
  text = connection_string (request_host listen headers) raw fp ∧
  ∃ id, insert_client_token file n (token_hash raw) created s = (Ok id, s').
Proof.
  unfold create_token. destruct (is_empty _ || _); [by intros [= <- _]|]. unfold mbind, sop_bind, sop_try.
  destruct (insert_client_token _ _ _ _ s) as [[id|[e|e]] s1] eqn:E; intros Hr Hn; try discriminate.
  - injection Hr as <- <-. injection Hn as <- <-. eauto.
  - injection Hr as <- <-. discriminate.
Qed.
Lemma minted_token_chars draw c : lower_hex_char c = false → c ≠ "g"%char → c ≠ "t"%char → c ≠ "_"%char → c ∉ chars ("gdt_" +:+ random_token draw).
Proof.
  intros Hc Hg Ht Hu. rewrite chars_app. intros [Hx|Hx]%elem_of_app; [|by apply (all_lower_hex_not c _ (random_token_chars draw))].
  revert Hx. cbn. rewrite !elem_of_cons, elem_of_nil. intros [|[E|[|[|[]]]]]; try done. by subst c.
Qed.

(** C36: the string shown once for a new token is understood by the client: it
    yields the token, the host and the pinned fingerprint, and the server accepts
    the token from then on. What is stored, in memory and on disk, is one more
    record with the hash of the token. Revoking that record, whether or not the
    write succeeds, makes the token worthless, unless another record had the same
    hash. *)
Theorem paired_client_authorized listen fp headers name draw created s reply s' n text :
  plain_host (request_host listen headers) → (∀ f, fp = Some f → fingerprint_ok f) →
  create_token file listen fp headers name draw created s = (Ok reply, s') → ar_new_token reply = Some (n, text) →
  ∃ p id, parse_pairing text = Ok p ∧ pa_host p = request_host listen headers ∧ pa_fingerprint p = fp ∧
    on_disk file s' ∧
    cd_client_token (db_doc s') = cd_client_token (db_doc s) ++
      [{| ct_id := id; ct_name := n; ct_token_hash := token_hash (pa_token p); ct_created_at := created |}] ∧
    authorized (db_doc s') (Some ("Bearer " +:+ pa_token p)) = true ∧
    ((∀ t, t ∈ cd_client_token (db_doc s) → ct_token_hash t ≠ token_hash (pa_token p)) →
     ∀ r s'', revoke_token file id s' = (r, s'') → authorized (db_doc s'') (Some ("Bearer " +:+ pa_token p)) = false).
Proof.
  intros Hh Hfp Hc Hn. destruct (create_token_run _ _ _ _ _ _ _ _ _ _ _ Hc Hn) as (-> & id & Hi).
  apply insert_token_run in Hi as (Hd & Hid & Hdisk). eexists _, id.
  split; [apply pairing_round_trip; [done|by apply minted_token_chars|by apply minted_token_chars|done|done]|]. cbn [pa_token pa_host pa_fingerprint].
  set (raw := "gdt_" +:+ random_token draw) in *.
  assert (Htok : cd_client_token (db_doc s') = cd_client_token (db_doc s) ++ [{| ct_id := id; ct_name := n; ct_token_hash := token_hash raw; ct_created_at := created |}])
    by by rewrite Hd.
  split_and!; [done|done|done|done| |].
  - apply authorized_spec. rewrite Htok. eexists. split; [apply elem_of_app; right; left|done].
  - intros Hold r s'' Hr. apply not_true_iff_false. rewrite authorized_spec. intros (t & Ht & Hth).
    assert (Hdoc : db_doc s'' = set_tokens (db_doc s') (filter (λ t, ct_id t ≠ id) (cd_client_token (db_doc s')))).
    { unfold revoke_token, mbind, sop_bind, sop_try in Hr. destruct (delete_client_token file id s') as [r1 s1] eqn:E.
      apply rewrite_doc in E. destruct r1 as [u|[e|e]]; injection Hr as _ <-; done. }
    rewrite Hdoc in Ht. cbn in Ht. apply list_elem_of_filter in Ht as [Hne' Ht]. rewrite Htok in Ht.
    apply elem_of_app in Ht as [Ht| ->%list_elem_of_singleton]; [by apply (Hold t)|done].
Qed.
End tokens.

(** ** A login, and a pairing *)

#[local] Instance demo_random : Random := λ n, vreplicate 32 (if (n =? 0)%nat then (lit 0%N : u8) else (lit 1%N : u8)).
Definition demo_auth (a : Authenticate) : result string AuthResult :=
  if bool_decide (authenticate_password a = "s3cret") then Ok (AuthOk (as_str (authenticate_username a))) else Ok (AuthErr EAuthFailed "").
Definition empty_sessions : Sessions := {| se_inner := ∅; se_draws := 0 |}.
Definition demo_login : login_reply * Sessions := login_post 3600 demo_auth true "admin" "s3cret" 10 empty_sessions.
Definition demo_visit : http_request := {| hr_method := GET; hr_headers := [("cookie", "theme=dark; gd_session=" +:+ random_token 0)] |}.
Lemma session_gate_witness :
  (require_auth 3600 demo_visit 20 demo_login.2).1 = Pass {| cu_username := "admin"; cu_csrf := random_token 1 |} ∧
  ∃ tok newer e older last,
    cookie_value (hr_headers demo_visit) SESSION_COOKIE = Some tok ∧
    [{| en_time := 10; en_what := Login demo_auth true "admin" "s3cret" 0 demo_login.1 |}] = newer ++ e :: older ∧
    issues tok (random_token 1) "admin" e ∧ recent tok (newer ++ [e]) last ∧ (20 <= last + 3600)%Z.
Proof.
  split; [vm_compute; reflexivity|].
  destruct (session_gate 3600 [{| en_time := 10; en_what := Login demo_auth true "admin" "s3cret" 0 demo_login.1 |}] demo_login.2
    demo_visit 20 {| cu_username := "admin"; cu_csrf := random_token 1 |} (require_auth 3600 demo_visit 20 demo_login.2).2 0)
    as (tok & newer & e & older & last & Hc & Hl & Hi & _ & Hr & Ht & _).
  - apply rtc_once. apply (step_login 3600 10 demo_auth true "admin" "s3cret" empty_sessions [] demo_login.1 demo_login.2).
    apply surjective_pairing.
  - vm_compute. reflexivity.
  - exists tok, newer, e, older, last. auto.
Defined.
#[local] Existing Instances demo_docs demo_sha.
Definition demo_db : db := {| db_doc := ConfigDoc_default; db_tree := ∅; db_clock := 0 |}.
Definition demo_minted : result fault access_reply * db :=
  @create_token permissive _ demo_file _ _ "[::]:8443" None [("host", "nas.local:8443")] " laptop " 0 1700000000 demo_db.
Definition demo_text : string := "greendot://gdt_" +:+ random_token 0 +:+ "@nas.local:8443/".
Lemma paired_client_authorized_witness :
  ∃ p, parse_pairing demo_text = Ok p ∧ pa_host p = "nas.local:8443" ∧
    authorized (db_doc demo_minted.2) (Some ("Bearer " +:+ pa_token p)) = true.
Proof.
  destruct (@paired_client_authorized permissive _ demo_file _ _ ltac:(vm_compute; discriminate) "[::]:8443" None [("host", "nas.local:8443")] " laptop " 0 1700000000
    demo_db {| ar_new_token := Some ("laptop", demo_text); ar_form_error := None |} demo_minted.2 "laptop" demo_text)
    as (p & id & Hp & Hh & _ & _ & _ & Ha & _).
  - split; [discriminate|]. split; apply split_once_None; vm_compute; reflexivity.
  - discriminate.
  - vm_compute. reflexivity.
  - reflexivity.
  - exists p. auto.
Defined.
