(* ===== verification/Client.v ===== *)
(** * The client: status, privileged operations, agent (greendot-client)

    What an initiator reads of its own machine, the operations its root agent
    performs, the list of targets it keeps, and the request line by which the
    command line reaches the agent. The machine is a file tree that may change
    between two looks ([settle]); the answer of /dev/nvme-fabrics, the commands, and
    serde are class parameters. *)
From Stdlib Require Import Ascii String.
From stdpp Require Import base option list strings sets gmap pretty.
From S2P Require Import Prelude Ordered Validate IpAddr Types Fs World Reconcile.
#[local] Open Scope string_scope.
#[local] Open Scope list_scope.

(** ** Status (status.rs) *)

Record NvmeController : Type := {
  nc_name : string; nc_subsysnqn : string; nc_transport : string; nc_state : string; nc_address : string;
  nc_hostnqn : option string; nc_namespaces : list string }.
Definition read_line (t : tree) (p : path) : option string := trim <$> read_to_string t p.
(** The leading digits, when there are any. *)
Fixpoint take_digits (s : string) : string * string :=
  match s with
  | String c r => if is_ascii_digit c then let '(d, r) := take_digits r in (String c d, r) else ("", s)
  | EmptyString => ("", "")
  end.
Definition split_digits (s : string) : option (string * string) :=
  match take_digits s with
  | (EmptyString, _) => None
  | d => Some d
  end.
Definition namespace_blockdev (entry : string) : option string :=
  rest ← strip_prefix "nvme" entry;
  '(ctrl, rest) ← split_digits rest;
  rest ← match strip_prefix "c" rest with
         | Some rest => snd <$> split_digits rest
         | None => Some rest
         end;
  rest ← strip_prefix "n" rest;
  '(ns, rest) ← split_digits rest;
  if is_empty rest then Some ("nvme" +:+ ctrl +:+ "n" +:+ ns) else None.
Definition controller (t : tree) (dir : path) (name : string) : option NvmeController :=
  let dir := dir ++ [name] in
  subsysnqn ← read_line t (dir ++ ["subsysnqn"]);
  Some {| nc_name := name; nc_subsysnqn := subsysnqn;
          nc_transport := default "" (read_line t (dir ++ ["transport"]));
          nc_state := default "" (read_line t (dir ++ ["state"]));
          nc_address := default "" (read_line t (dir ++ ["address"]));
          nc_hostnqn := read_line t (dir ++ ["hostnqn"]) ≫= (λ s, if nonempty s then Some s else None);
          nc_namespaces := dedup (sort ((λ dev, "/dev/" +:+ dev) <$> omap namespace_blockdev (dir_entries t dir))) |}.
Definition nvme_controllers (t : tree) (sys_class_nvme : path) : list NvmeController :=
  sort_by nc_name (omap (controller t sys_class_nvme) (dir_entries t sys_class_nvme)).
Record NfsMount : Type := { nm_source : string; nm_mountpoint : string; nm_rdma : bool }.
(** [u8::from_str_radix(s, 8)] on three characters; a leading plus is accepted. *)
Definition octal_val (c : ascii) : option N := if in_range 48 55 c then Some (code c - 48)%N else None.
Definition octal (a b c : ascii) : option N :=
  y ← octal_val b;
  z ← octal_val c;
  x ← if Ascii.eqb a "+" then Some 0%N else octal_val a;
  let n := (64 * x + 8 * y + z)%N in
  if (n <? 256)%N then Some n else None.
(** [b as char], in UTF-8. *)
Definition latin1 (n : N) : string :=
  if (n <? 128)%N then String (ascii_of_N n) ""
  else String (ascii_of_N (192 + n / 64)) (String (ascii_of_N (128 + n mod 64)) "").
Fixpoint unescape (s : string) : string :=
  match s with
  | EmptyString => ""
  | String c r =>
      if Ascii.eqb c "\" then
        match r with
        | String a (String b (String d r')) =>
            match octal a b d with
            | Some n => latin1 n +:+ unescape r'
            | None => String c (unescape r)
            end
        | _ => String c (unescape r)
        end
      else String c (unescape r)
  end.
Definition mount_line (line : string) : option NfsMount :=
  match split_whitespace line with
  | source :: mountpoint :: fstype :: opts :: _ =>
      if bool_decide (fstype = "nfs") || bool_decide (fstype = "nfs4") then
        Some {| nm_source := unescape source; nm_mountpoint := unescape mountpoint;
                nm_rdma := existsb (λ o, bool_decide (o = "proto=rdma") || bool_decide (o = "rdma")) (split "," opts) |}
      else None
  | _ => None
  end.
Definition nfs_mounts (t : tree) (proc_mounts : path) : list NfsMount :=
  match read_to_string t proc_mounts with
  | Some text => omap mount_line (lines text)
  | None => []
  end.
Fixpoint to_uppercase (s : string) : string :=
  match s with
  | EmptyString => ""
  | String c s => String (if is_ascii_lowercase c then ascii_of_N (code c - 32) else c) (to_uppercase s)
  end.
Definition active_rdma_devices (t : tree) (sys_class_infiniband : path) : list string :=
  List.filter (λ dev,
    existsb (λ port,
      match read_line t (sys_class_infiniband ++ [dev; "ports"; port; "state"]) with
      | Some s => contains "ACTIVE" (to_uppercase s)
      | None => false
      end) (dir_entries t (sys_class_infiniband ++ [dev; "ports"]))) (dir_entries t sys_class_infiniband).
Definition module_loaded (t : tree) (sys_module : path) (name : string) : bool := is_dir t (sys_module ++ [name]).
Inductive Dot : Type := Green | Yellow | Red.
Definition nvme_dot (nqn : string) (controllers : list NvmeController) : Dot * string * option NvmeController :=
  match List.find (λ c, bool_decide (nc_subsysnqn c = nqn)) controllers with
  | None => (Red, "not connected", None)
  | Some c =>
      if bool_decide (nc_state c = "live") then
        if bool_decide (nc_transport c = "rdma") then (Green, "connected over RDMA", Some c)
        else (Yellow, "connected over " +:+ nc_transport c +:+ ", not RDMA", Some c)
      else (Red, "controller " +:+ nc_state c, Some c)
  end.
Definition ends_with_str (suffix s : string) : bool :=
  bool_decide (suffix = String.substring (String.length s - String.length suffix) (String.length suffix) s).
Definition nfs_dot (host path : string) (mounts : list NfsMount) : Dot * string * option NfsMount :=
  let exact := host +:+ ":" +:+ path in
  let m := match List.find (λ m, bool_decide (nm_source m = exact)) mounts with
           | Some m => Some m
           | None => List.find (λ m, ends_with_str (":" +:+ path) (nm_source m)) mounts
           end in
  match m with
  | None => (Red, "not mounted", None)
  | Some m => if nm_rdma m then (Green, "mounted over RDMA", Some m) else (Yellow, "mounted over TCP, not RDMA", Some m)
  end.

(** ** The machine *)

Record host : Type := { ho_tree : tree; ho_clock : nat; ho_fabrics : list string; ho_ran : list (list string) }.
(** Why the write to /dev/nvme-fabrics failed. *)
Inductive fabrics_error : Type := FNotFound | FAlready | FOther (msg : string).
(** [output()] of a command: it did not start, or its success and stderr. *)
Inductive ran : Type := NotStarted (msg : string) | Finished (success : bool) (stderr : string).
Class Machine := {
  settle : nat → tree → tree;
  fabrics_answer : nat → string → option fabrics_error;
  command : nat → list string → ran }.
Definition cop (A : Type) : Type := host → result string A * host.
#[export] Instance cop_ret : MRet cop := λ A a h, (Ok a, h).
#[export] Instance cop_bind : MBind cop := λ A B f m h,
  match m h with
  | (Ok a, h') => f a h'
  | (Err e, h') => (Err e, h')
  end.
Definition cfail {A} (e : string) : cop A := λ h, (Err e, h).
Definition on_tree {A} (m : io A) : cop A := λ h,
  let '(r, t, n) := m (ho_tree h) (ho_clock h) in
  (map_err err_msg r, {| ho_tree := t; ho_clock := n; ho_fabrics := ho_fabrics h; ho_ran := ho_ran h |}).
Definition look {A} (f : tree → A) : cop A := λ h, (Ok (f (ho_tree h)), h).
(** [format!("{e:#}")] of an error with a context. *)
Definition in_context {A} (what : string) (m : cop A) : cop A := λ h, let '(r, h') := m h in (map_err (λ e, what +:+ ": " +:+ e) r, h').

Section client.
Context {K : Kernel} {M : Machine}.
(** Half a second goes by. *)
Definition sleep : cop unit := λ h,
  (Ok tt, {| ho_tree := settle (ho_clock h) (ho_tree h); ho_clock := S (ho_clock h); ho_fabrics := ho_fabrics h; ho_ran := ho_ran h |}).
Definition write_fabrics (options : string) : cop (option fabrics_error) := λ h,
  (Ok (fabrics_answer (ho_clock h) options),
   {| ho_tree := settle (ho_clock h) (ho_tree h); ho_clock := S (ho_clock h); ho_fabrics := ho_fabrics h ++ [options]; ho_ran := ho_ran h |}).
Definition spawn_command (argv : list string) : cop ran := λ h,
  (Ok (command (ho_clock h) argv),
   {| ho_tree := settle (ho_clock h) (ho_tree h); ho_clock := S (ho_clock h); ho_fabrics := ho_fabrics h; ho_ran := ho_ran h ++ [argv] |}).

(** ** Privileged operations (privops.rs) *)

Record PrivPaths : Type := { pp_fabrics : path; pp_etc_nvme : path; pp_sys_class_nvme : path }.
Definition PrivPaths_at (root : path) : PrivPaths :=
  {| pp_fabrics := root ++ ["dev"; "nvme-fabrics"]; pp_etc_nvme := root ++ ["etc"; "nvme"];
     pp_sys_class_nvme := root ++ ["sys"; "class"; "nvme"] |}.
Definition RANDOM_UUID : path := ["proc"; "sys"; "kernel"; "random"; "uuid"].
Definition ensure_hostnqn (etc_nvme : path) : cop string :=
  let p := etc_nvme ++ ["hostnqn"] in
  existing ← look (λ t, read_line t p);
  match existing with
  | Some (String _ _ as nqn) => mret nqn
  | _ =>
      uuid ← look (λ t, read_to_string t RANDOM_UUID);
      match uuid with
      | None => cfail "reading /proc/sys/kernel/random/uuid: No such file or directory"
      | Some uuid =>
          let hostnqn := "nqn.2014-08.org.nvmexpress:uuid:" +:+ trim uuid in
          _ ← in_context ("creating " +:+ show_abs etc_nvme) (on_tree (create_dir_all etc_nvme));
          _ ← in_context ("writing " +:+ show_abs p) (on_tree (write_file p (hostnqn +:+ String "010" "")));
          mret hostnqn
      end
  end.
(** The first failed write stops it. *)
Fixpoint delete_controllers (dir : path) (nqn : Nqn) (l : list NvmeController) (deleted : N) : cop N :=
  match l with
  | [] => mret deleted
  | c :: l =>
      if bool_decide (nc_subsysnqn c = as_str nqn) then
        let p := dir ++ [nc_name c; "delete_controller"] in
        _ ← in_context ("writing " +:+ show_abs p) (on_tree (write_file p "1"));
        delete_controllers dir nqn l (deleted + 1)%N
      else delete_controllers dir nqn l deleted
  end.
Definition disconnect_nvme (sys_class_nvme : path) (nqn : Nqn) : cop N :=
  l ← look (λ t, nvme_controllers t sys_class_nvme);
  delete_controllers sys_class_nvme nqn l 0%N.
Definition connect_options (nqn : Nqn) (transport : Transport) (traddr : IpAddr) (trsvcid : u16) (hostnqn : Nqn) : string :=
  "nqn=" +:+ as_str nqn +:+ ",transport=" +:+ trtype_str transport +:+ ",traddr=" +:+ show_ip traddr +:+
  ",trsvcid=" +:+ pretty (raw trsvcid) +:+ ",hostnqn=" +:+ as_str hostnqn.
(** One look at the controllers: a device, a reason to give up, or neither. *)
Inductive looked : Type := Live (dev : string) | Dead | Waiting.
Definition look_for (dir : path) (nqn : Nqn) (t : tree) : looked :=
  match List.find (λ c, bool_decide (nc_subsysnqn c = as_str nqn)) (nvme_controllers t dir) with
  | None => Waiting
  | Some c =>
      match bool_decide (nc_state c = "live"), nc_namespaces c with
      | true, dev :: _ => Live dev
      | _, _ => if bool_decide (nc_state c = "dead") || bool_decide (nc_state c = "deleting") then Dead else Waiting
      end
  end.
Fixpoint poll (n : nat) (dir : path) (nqn : Nqn) : cop (option string) :=
  match n with
  | O => mret None
  | S n =>
      l ← look (look_for dir nqn);
      match l with
      | Live dev => mret (Some dev)
      | Dead => mret None
      | Waiting => _ ← sleep; poll n dir nqn
      end
  end.
Definition cop_or {A} (m : cop A) (d : A) : cop A := λ h,
  match m h with (Ok a, h') => (Ok a, h') | (Err _, h') => (Ok d, h') end.
Definition await_live (paths : PrivPaths) (nqn : Nqn) (traddr : IpAddr) : cop string :=
  dev ← poll 20 (pp_sys_class_nvme paths) nqn;
  match dev with
  | Some dev => mret dev
  | None =>
      deleted ← cop_or (disconnect_nvme (pp_sys_class_nvme paths) nqn) 0%N;
      cfail ("controller for " +:+ as_str nqn +:+ " did not come live within 10s" +:+
             (if (0 <? deleted)%N then " (rolled back)" else "") +:+ " " +:+ em_dash +:+
             " is this host's NQN in the export's allowed initiators, and " +:+ show_ip traddr +:+ " reachable?")
  end.
Definition connect_nvme (paths : PrivPaths) (nqn : Nqn) (transport : Transport) (traddr : IpAddr) (trsvcid : u16) (hostnqn : Nqn) :
    cop string :=
  if bool_decide (transport = Loop) then cfail "loop transport is target-local only"
  else
    answer ← write_fabrics (connect_options nqn transport traddr trsvcid hostnqn);
    match answer with
    | None | Some FAlready => await_live paths nqn traddr
    | Some FNotFound =>
        cfail (show_abs (pp_fabrics paths) +:+ " does not exist " +:+ em_dash +:+ " load the fabrics module first (modprobe nvme-" +:+
               trtype_str transport +:+ ")")
    | Some (FOther e) => cfail ("connect write to " +:+ show_abs (pp_fabrics paths) +:+ " failed: " +:+ e)
    end.
Definition is_control (c : ascii) : bool := (code c <? 32)%N || (code c =? 127)%N.
(** The other white space and control characters, as UTF-8: U+0080 to U+00A0,
    U+1680, U+2000 to U+200A, U+2028, U+2029, U+202F, U+205F, U+3000. *)
Fixpoint wide_blank (s : string) : bool :=
  match s with
  | EmptyString => false
  | String a r =>
      match r with
      | String b r' =>
          ((code a =? 0xC2) && in_range 0x80 0xA0 b)%N ||
          match r' with
          | String c _ =>
              ((code a =? 0xE1) && (code b =? 0x9A) && (code c =? 0x80))%N ||
              ((code a =? 0xE2) && (code b =? 0x80) && (in_range 0x80 0x8A c || in_range 0xA8 0xA9 c || (code c =? 0xAF)))%N ||
              ((code a =? 0xE2) && (code b =? 0x81) && (code c =? 0x9F))%N ||
              ((code a =? 0xE3) && (code b =? 0x80) && (code c =? 0x80))%N
          | EmptyString => false
          end
      | EmptyString => false
      end || wide_blank r
  end.
Definition safe_mount_path (s : string) : bool :=
  starts_with "/" s && negb (contains ".." s) && negb (wide_blank s) && all_chars (λ c, negb (Ascii.eqb c ",") && negb (is_ws c) && negb (is_control c)) s.
Definition safe_mount_host (s : string) : bool :=
  negb (is_empty s) && all_chars (λ c, is_ascii_alphanumeric c || char_in ".-:[]" c) s.
Definition check (ok : bool) (msg : string) : cop unit := if ok then mret tt else cfail msg.
Definition run_argv (cmd : string) (args : list string) : cop unit :=
  out ← spawn_command (cmd :: args);
  match out with
  | NotStarted e => cfail ("running " +:+ cmd +:+ " (is it installed?): " +:+ e)
  | Finished true _ => mret tt
  | Finished false stderr => cfail (cmd +:+ " " +:+ join " " args +:+ " failed: " +:+ trim stderr)
  end.
(** A path as the components the tree is indexed by. *)
Definition components (s : string) : path := List.filter nonempty (split "/" s).
Definition mount_nfs (hostname p mountpoint : string) (rdma : bool) (port : u16) : cop unit :=
  _ ← check (safe_mount_host hostname) ("unsafe host " +:+ debug_str hostname);
  _ ← check (safe_mount_path p) ("unsafe path " +:+ debug_str p);
  _ ← check (safe_mount_path mountpoint) ("unsafe path " +:+ debug_str mountpoint);
  _ ← in_context ("creating " +:+ mountpoint) (on_tree (create_dir_all (components mountpoint)));
  let opts := if rdma then "proto=rdma,port=" +:+ pretty (raw port) else "proto=tcp" in
  run_argv "mount" ["-t"; "nfs"; "-o"; opts; hostname +:+ ":" +:+ p; mountpoint].
Definition unmount_nfs (mountpoint : string) : cop unit :=
  _ ← check (safe_mount_path mountpoint) ("unsafe path " +:+ debug_str mountpoint);
  run_argv "umount" [mountpoint].

(** ** The list of targets (config.rs) *)

Record TargetEntry : Type := { te_name : string; te_host : string; te_token : string; te_cert_sha256 : option string }.
(** serde and toml on [Doc]. *)
Class TargetsCodec := {
  toml_targets : string → result string (list TargetEntry);
  targets_toml : list TargetEntry → result string string }.
Context {TC : TargetsCodec}.
Definition targets_file (dir : path) : path := dir ++ ["targets.toml"].
Definition targets_tmp (dir : path) : path := dir ++ ["targets.toml.tmp"].
Definition load_targets (dir : path) : cop (list TargetEntry) :=
  n ← look (λ t, t !! targets_file dir);
  match n with
  | Some (File text) =>
      match toml_targets text with
      | Ok l => mret l
      | Err e => cfail ("parsing " +:+ show_abs (targets_file dir) +:+ ": " +:+ e)
      end
  | None => mret []
  | Some _ => cfail ("reading " +:+ show_abs (targets_file dir) +:+ ": Is a directory")
  end.
Definition set_mode (p : path) (mode : N) : io unit :=
  syscall (OpChmod p mode) (λ t, if present t p then None else Some (io_err KNotFound "No such file or directory")) (λ t, t).
Definition save_targets (dir : path) (l : list TargetEntry) : cop unit :=
  _ ← in_context ("creating " +:+ show_abs dir) (on_tree (create_dir_all dir));
  match targets_toml l with
  | Err e => cfail ("serializing targets: " +:+ e)
  | Ok text =>
      _ ← in_context ("writing " +:+ show_abs (targets_tmp dir)) (on_tree (write_file (targets_tmp dir) text));
      _ ← on_tree (set_mode (targets_tmp dir) (6 * 64 + 4 * 8)%N);
      in_context ("renaming into " +:+ show_abs (targets_file dir)) (on_tree (rename (targets_tmp dir) (targets_file dir)))
  end.
Definition named (key : string) (t : TargetEntry) : bool := bool_decide (te_name t = key) || bool_decide (te_host t = key).
Definition find_target (key : string) (l : list TargetEntry) : result string TargetEntry :=
  ok_or ("no target " +:+ debug_str key +:+ " " +:+ em_dash +:+ " see `greendot-client list`") (List.find (named key) l).
Definition add_target (dir : path) (l : list TargetEntry) (e : TargetEntry) : cop unit :=
  if is_empty (te_name e) || negb (all_chars (λ c, negb (Ascii.eqb c "/") && negb (Ascii.eqb c " ")) (te_name e)) then
    cfail ("invalid target name " +:+ debug_str (te_name e))
  else
    match List.find (λ t, bool_decide (te_name t = te_name e) || bool_decide (te_host t = te_host e)) l with
    | Some t =>
        cfail ("target " +:+ debug_str (te_name t) +:+ " (" +:+ te_host t +:+ ") already exists " +:+ em_dash +:+ " `remove` it first to re-pair")
    | None => save_targets dir (l ++ [e])
    end.
(** The first one with the name or host. *)
Fixpoint remove_first (key : string) (l : list TargetEntry) : option (TargetEntry * list TargetEntry) :=
  match l with
  | [] => None
  | t :: l => if named key t then Some (t, l) else '(r, l) ← remove_first key l; Some (r, t :: l)
  end.
Definition remove_target (dir : path) (l : list TargetEntry) (key : string) : cop TargetEntry :=
  match remove_first key l with
  | None => cfail ("no target " +:+ debug_str key)
  | Some (removed, l) => _ ← save_targets dir l; mret removed
  end.

(** ** The agent (agent.rs) *)

Inductive AgentOp : Type :=
| Ping
| EnsureHostnqn
| ConnectNvme (nqn : Nqn) (transport : Transport) (traddr : IpAddr) (trsvcid : u16) (hostnqn : Nqn)
| DisconnectNvme (nqn : Nqn)
| MountNfs (hostname p mountpoint : string) (rdma : bool) (port : u16)
| UnmountNfs (mountpoint : string)
| AddTarget (entry : TargetEntry)
| RemoveTarget (name : string).
Inductive scalar : Type := SBool (b : bool) | SNum (n : N) | SStr (s : string).
Abbreviation object := (gmap string scalar).
Definition execute (paths : PrivPaths) (config_dir : path) (op : AgentOp) : cop object :=
  match op with
  | Ping => mret ∅
  | EnsureHostnqn => hostnqn ← ensure_hostnqn (pp_etc_nvme paths); mret {["hostnqn" := SStr hostnqn]}
  | ConnectNvme nqn transport traddr trsvcid hostnqn =>
      device ← connect_nvme paths nqn transport traddr trsvcid hostnqn; mret {["device" := SStr device]}
  | DisconnectNvme nqn => deleted ← disconnect_nvme (pp_sys_class_nvme paths) nqn; mret {["deleted" := SNum deleted]}
  | MountNfs hostname p mountpoint rdma port =>
      _ ← mount_nfs hostname p mountpoint rdma port; mret {["mountpoint" := SStr mountpoint]}
  | UnmountNfs mountpoint => _ ← unmount_nfs mountpoint; mret ∅
  | AddTarget entry =>
      l ← load_targets config_dir;
      _ ← add_target config_dir l entry;
      mret {["name" := SStr (te_name entry)]}
  | RemoveTarget name =>
      l ← load_targets config_dir;
      removed ← remove_target config_dir l name;
      mret {["name" := SStr (te_name removed); "host" := SStr (te_host removed)]}
  end.
(** serde_json on requests and replies; a reply that is not an object has no
    members. *)
Class AgentJson := {
  op_json : AgentOp → result string string;
  json_op : string → result string AgentOp;
  object_json : object → string;
  json_object : string → result string object }.
Context {J : AgentJson}.
Definition MAX_LINE : N := 256 * 1024.
Definition newline : string := String "010" "".
(** [take(MAX_LINE)], then [read_line]: up to and with the first line end. *)
Fixpoint first_line (s : string) : string :=
  match s with
  | EmptyString => ""
  | String c r => if Ascii.eqb c "010" then newline else String c (first_line r)
  end.
Definition received (s : string) : string := first_line (String.substring 0 (N.to_nat MAX_LINE) s).
Definition ok_reply (v : object) : object := <["ok" := SBool true]> v.
Definition error_reply (e : string) : object := {["ok" := SBool false; "error" := SStr e]}.
(** [handle]: the reply line to what the peer sent. *)
Definition handle (paths : PrivPaths) (config_dir : path) (sent : string) : cop string := λ h,
  match json_op (received sent) with
  | Ok op =>
      let '(r, h') := execute paths config_dir op h in
      (Ok (object_json (match r with Ok v => ok_reply v | Err e => error_reply e end) +:+ newline), h')
  | Err e => (Ok (object_json (error_reply ("bad request: " +:+ e)) +:+ newline), h)
  end.
Definition peer_allowed (uid : N) (allow_uid : option N) (gid : option N) (groups_of : N → option (list N)) : bool :=
  (uid =? 0)%N || bool_decide (allow_uid = Some uid) ||
  match gid with
  | Some gid => match groups_of uid with Some groups => bool_decide (gid ∈ groups) | None => false end
  | None => false
  end.
(** One accepted connection; a peer that is not allowed gets nothing. *)
Definition serve_connection (paths : PrivPaths) (config_dir : path) (allowed : bool) (sent : string) : cop string :=
  if allowed then handle paths config_dir sent else mret "".
Inductive Broker : Type := Agent (allowed : bool) | Direct.
(** [connectable] and [root]: what [locate] finds. *)
Definition locate (connectable allowed root : bool) (socket : path) : result string Broker :=
  if connectable then Ok (Agent allowed)
  else if root then Ok Direct
  else Err ("the greendot-client agent is not running at " +:+ show_abs socket +:+ " and you are not root " +:+ em_dash +:+
            " `systemctl start greendot-client-agent`, or re-run under sudo").
Definition call (paths : PrivPaths) (config_dir : path) (b : Broker) (op : AgentOp) : cop object :=
  match b with
  | Direct => execute paths config_dir op
  | Agent allowed =>
      match op_json op with
      | Err e => cfail e
      | Ok text =>
          line ← serve_connection paths config_dir allowed (text +:+ newline);
          match json_object (received line) with
          | Err e => cfail ("agent sent a malformed reply: " +:+ e)
          | Ok reply =>
              match reply !! "ok" with
              | Some (SBool true) => mret reply
              | _ => cfail ("agent: " +:+ match reply !! "error" with Some (SStr e) => e | _ => "unknown error" end)
              end
          end
      end
  end.
End client.
