(* ===== verification/ClientFacts.v ===== *)
(** * The client: no smuggled options, connections that are live, and an agent that
    does what root would *)
From Stdlib Require Import Ascii String.
From stdpp Require Import base option list strings sets gmap pretty.
From S2P Require Import Prelude Ordered Validate IpAddr Types Fs World Reconcile Client.
#[local] Open Scope string_scope.
#[local] Open Scope list_scope.

(** ** The option string *)

Definition connect_fields (nqn : Nqn) (transport : Transport) (traddr : IpAddr) (trsvcid : u16) (hostnqn : Nqn) : list string :=
  ["nqn=" +:+ as_str nqn; "transport=" +:+ trtype_str transport; "traddr=" +:+ show_ip traddr;
   "trsvcid=" +:+ pretty (raw trsvcid); "hostnqn=" +:+ as_str hostnqn].
Lemma plain_no_comma p s : all_chars p s → p ","%char = false → ","%char ∉ chars s.
Proof. intros Hs Hp. by apply (all_chars_absent _ _ _ Hs). Qed.
Lemma nqn_no_comma (n : Nqn) : ","%char ∉ chars (as_str n).
Proof.
  pose proof (raw_ok n) as Hn. cbn in Hn. unfold nqn in Hn. apply andb_True in Hn as [_ Hn]. change (raw n) with (as_str n) in Hn.
  destruct (strip_prefix "nqn." (as_str n)) as [rest|] eqn:E; [|done]. apply strip_prefix_Some in E as ->.
  apply andb_True in Hn as [_ Hc]. rewrite chars_app. intros [Hx|Hx]%elem_of_app.
  - by apply (plain_no_comma component_char "nqn.").
  - by apply (plain_no_comma _ _ Hc).
Qed.
Lemma keyed_no_comma k s : ","%char ∉ chars k → ","%char ∉ chars s → ","%char ∉ chars (k +:+ s).
Proof. intros Hk Hs. rewrite chars_app. by intros [?|?]%elem_of_app. Qed.
Lemma connect_options_fields nqn transport traddr trsvcid hostnqn :
  split "," (connect_options nqn transport traddr trsvcid hostnqn) = connect_fields nqn transport traddr trsvcid hostnqn.
Proof.
  assert (E : connect_options nqn transport traddr trsvcid hostnqn = join "," (connect_fields nqn transport traddr trsvcid hostnqn)).
  { unfold connect_options, connect_fields. cbn [join]. by rewrite !app_assoc_s. }
  rewrite E. apply split_join; [done|]. unfold connect_fields.
  assert (Hk : ∀ k, all_chars (λ c, negb (Ascii.eqb c ",")) k → ","%char ∉ chars k) by (intros k Hk; by apply (plain_no_comma _ _ Hk)).
  repeat apply Forall_cons_2; [..|constructor]; (apply keyed_no_comma; [by apply Hk|]).
  - apply nqn_no_comma.
  - apply Hk. by destruct transport.
  - by apply (plain_no_comma _ _ (show_ip_chars traddr)).
  - by apply (plain_no_comma _ _ (pretty_N_digits _)).
  - apply nqn_no_comma.
Qed.

(** ** Connecting *)

Section connect.
Context {K : Kernel} {M : Machine}.
(** The file through which a controller of the NQN is deleted. *)
Definition delete_file (dir : path) (nqn : Nqn) (t : tree) (q : path) : Prop :=
  ∃ c, c ∈ nvme_controllers t dir ∧ nc_subsysnqn c = as_str nqn ∧ q = dir ++ [nc_name c; "delete_controller"].
(** Only the tree changed, and there only these files. *)
Definition touched_only (S : path → Prop) (h h' : host) : Prop :=
  ho_fabrics h' = ho_fabrics h ∧ ho_ran h' = ho_ran h ∧ ∀ q, ¬ S q → ho_tree h' !! q = ho_tree h !! q.
Lemma touched_refl S h : touched_only S h h.
Proof. done. Qed.
Lemma touched_trans S h1 h2 h3 : touched_only S h1 h2 → touched_only S h2 h3 → touched_only S h1 h3.
Proof.
  intros (F1 & R1 & T1) (F2 & R2 & T2). split_and!; [congruence|congruence|]. intros q Hq. rewrite T2 by done. by apply T1.
Qed.
Lemma write_touched S what p v h r h' :
  S p → in_context what (on_tree (write_file p v)) h = (r, h') → touched_only S h h'.
Proof.
  intros Hp. unfold in_context, on_tree. destruct (write_file p v (ho_tree h) (ho_clock h)) as [[r1 t] n] eqn:E. intros [= _ <-].
  split_and!; [done|done|]. intros q Hq. cbn. apply (keeps_write p v _ _ _ _ _ E). intros ->. by apply Hq.
Qed.
Lemma delete_touched dir nqn l deleted h r h' S :
  (∀ c, c ∈ l → nc_subsysnqn c = as_str nqn → S (dir ++ [nc_name c; "delete_controller"])) →
  delete_controllers dir nqn l deleted h = (r, h') → touched_only S h h'.
Proof.
  revert deleted h. induction l as [|c l IH]; intros deleted h HS; cbn [delete_controllers]; [by intros [= _ <-]|].
  assert (Hl : ∀ c, c ∈ l → nc_subsysnqn c = as_str nqn → S (dir ++ [nc_name c; "delete_controller"])) by (intros x Hx; apply HS; by right).
  case_bool_decide as Hc; [|by apply IH]. unfold mbind, cop_bind.
  destruct (in_context _ _ h) as [[u|e] h1] eqn:E; intros Hr; apply (write_touched S) in E; try (apply HS; [left|done]).
  - eapply touched_trans; [exact E|]. by eapply IH.
  - by injection Hr as _ <-.
Qed.
Lemma disconnect_touched dir nqn h r h' :
  disconnect_nvme dir nqn h = (r, h') → touched_only (delete_file dir nqn (ho_tree h)) h h'.
Proof.
  unfold disconnect_nvme, mbind, cop_bind, look. apply delete_touched. intros c Hc Hn. by exists c.
Qed.
(** An accepted deletion is written, and later ones of the same sweep do not undo it. *)
Lemma write_done what p v h u h' : in_context what (on_tree (write_file p v)) h = (Ok u, h') → ho_tree h' = <[p := File v]> (ho_tree h).
Proof.
  unfold in_context, on_tree. destruct (write_file p v (ho_tree h) (ho_clock h)) as [[[[]|e] t] n] eqn:E; [|done]. intros [= _ <-].
  apply (oks_write p v). by exists (ho_clock h), n.
Qed.
Definition marked (t : tree) (q : path) : Prop := t !! q = Some (File "1").
Lemma delete_marks dir nqn l deleted h n h' :
  delete_controllers dir nqn l deleted h = (Ok n, h') →
  (∀ q, marked (ho_tree h) q → marked (ho_tree h') q) ∧
  (∀ c, c ∈ l → nc_subsysnqn c = as_str nqn → marked (ho_tree h') (dir ++ [nc_name c; "delete_controller"])).
Proof.
  revert deleted h. induction l as [|c l IH]; intros deleted h; cbn [delete_controllers].
  { intros [= _ <-]. split; [done|]. by intros c ?%not_elem_of_nil. }
  case_bool_decide as Hc.
  - unfold mbind, cop_bind. destruct (in_context _ _ h) as [[u|e] h1] eqn:E; [|done]. intros Hr. apply write_done in E.
    destruct (IH _ _ Hr) as [Hk Hm]. split.
    + intros q Hq. apply Hk. unfold marked. rewrite E, lookup_insert. by case_decide.
    + intros x [->|Hx]%elem_of_cons Hn; [|by apply Hm]. apply Hk. unfold marked. by rewrite E, lookup_insert_eq.
  - intros Hr. destruct (IH _ _ Hr) as [Hk Hm]. split; [done|]. intros x [->|Hx]%elem_of_cons Hn; [done|by apply Hm].
Qed.
(** The machine after [k] half seconds. *)
Definition waited (k : nat) (h : host) : host := Nat.iter k (λ h, (sleep h).2) h.
Lemma waited_S k h : waited (S k) h = waited k (sleep h).2.
Proof. unfold waited. by rewrite Nat.iter_succ_r. Qed.
Lemma waited_kept k h : ho_fabrics (waited k h) = ho_fabrics h ∧ ho_ran (waited k h) = ho_ran h.
Proof. induction k as [|k [IHf IHr]]; [done|]. by split. Qed.
(** Polling only lets time pass, until the first look that decides. *)
Lemma poll_run n dir nqn h r h' :
  poll n dir nqn h = (r, h') →
  ∃ k d, (k <= n)%nat ∧ h' = waited k h ∧ r = Ok d ∧ (∀ j, (j < k)%nat → look_for dir nqn (ho_tree (waited j h)) = Waiting) ∧
    match d with Some dev => look_for dir nqn (ho_tree h') = Live dev | None => k = n ∨ look_for dir nqn (ho_tree h') = Dead end.
Proof.
  revert h. induction n as [|n IH]; intros h; cbn [poll].
  { intros [= <- <-]. exists O, None. split_and!; [done|done|done|lia|by left]. }
  unfold mbind, cop_bind, look. destruct (look_for dir nqn (ho_tree h)) as [dev| |] eqn:El.
  - intros [= <- <-]. exists O, (Some dev). split_and!; [lia|done|done|lia|done].
  - intros [= <- <-]. exists O, None. split_and!; [lia|done|done|lia|by right].
  - intros Hr. destruct (IH (sleep h).2 Hr) as (k & d & Hk & -> & -> & Hw & Hd). rewrite <-waited_S in *.
    exists (S k), d. split_and!; [lia|done|done| |destruct d; [done|]; destruct Hd; [left; lia|by right]].
    intros [|j] Hj; [done|]. rewrite waited_S. apply Hw. lia.
Qed.
Lemma live_controller dir nqn t dev :
  look_for dir nqn t = Live dev →
  ∃ c, c ∈ nvme_controllers t dir ∧ nc_subsysnqn c = as_str nqn ∧ nc_state c = "live" ∧ head (nc_namespaces c) = Some dev.
Proof.
  unfold look_for. destruct (List.find _ _) as [c|] eqn:E; [|done]. apply find_some in E as [Hin Hn].
  apply bool_decide_eq_true in Hn. case_bool_decide as Hs; [|by case_match].
  destruct (nc_namespaces c) as [|d l] eqn:Ens; [by case_match|]. intros [= ->]. exists c. split_and!; [by apply list_elem_of_In|done|done|by rewrite Ens].
Qed.

(** What connecting comes to once the fabrics device took the options: the looks
    before the [k]-th found nothing to decide on. *)
Definition connected (dir : path) (nqn : Nqn) (h1 : host) (dev : string) : Prop :=
  ∃ c, c ∈ nvme_controllers (ho_tree h1) dir ∧ nc_subsysnqn c = as_str nqn ∧ nc_state c = "live" ∧ head (nc_namespaces c) = Some dev.
Definition rolled_back (dir : path) (nqn : Nqn) (h1 h' : host) : Prop :=
  touched_only (delete_file dir nqn (ho_tree h1)) h1 h' ∧
  (is_ok (disconnect_nvme dir nqn h1).1 → ∀ q, delete_file dir nqn (ho_tree h1) q → marked (ho_tree h') q).
Lemma await_live_run paths nqn traddr h r h' :
  await_live paths nqn traddr h = (r, h') →
  let dir := pp_sys_class_nvme paths in
  ∃ k, (k <= 20)%nat ∧ (∀ j, (j < k)%nat → look_for dir nqn (ho_tree (waited j h)) = Waiting) ∧
    match r with
    | Ok dev => h' = waited k h ∧ connected dir nqn h' dev
    | Err _ => (k = 20 ∨ look_for dir nqn (ho_tree (waited k h)) = Dead) ∧ rolled_back dir nqn (waited k h) h'
    end.
Proof.
  intros Hr dir. unfold await_live, mbind, cop_bind in Hr. fold dir in Hr. destruct (poll 20 dir nqn h) as [r1 h1] eqn:Ep.
  apply poll_run in Ep as (k & d & Hk & -> & -> & Hw & Hd). exists k. split_and!; [done|done|]. destruct d as [dev|].
  { injection Hr as <- <-. split; [done|]. by apply live_controller. }
  unfold cop_or in Hr. destruct (disconnect_nvme dir nqn (waited k h)) as [r2 h2] eqn:Ed.
  assert (Hb : rolled_back dir nqn (waited k h) h2).
  { split; [by eapply disconnect_touched|]. rewrite Ed. destruct r2 as [n|e]; [|done]. intros _ q (c & Hc & Hn & ->).
    unfold disconnect_nvme, mbind, cop_bind, look in Ed. by apply (delete_marks _ _ _ _ _ _ _ Ed). }
  by destruct r2; injection Hr as <- <-.
Qed.

(** C38: connecting hands the fabrics device exactly one string, whose
    comma-separated fields are the NQN, the transport, the address, the service
    number and the host NQN and nothing else (loop is refused before that), and runs
    no command. If the device refuses, that is all that happens. Otherwise at most
    twenty half seconds pass, undecided until the last look: either a controller of
    that NQN is then live and its first namespace is returned, or the connection
    failed, and exactly the controllers of that NQN are told to go, all of them
    unless a write was refused. *)
Theorem connect_nvme_contract paths nqn transport traddr trsvcid hostnqn h r h' :
  connect_nvme paths nqn transport traddr trsvcid hostnqn h = (r, h') →
  let dir := pp_sys_class_nvme paths in
  let options := connect_options nqn transport traddr trsvcid hostnqn in
  let h0 := (write_fabrics options h).2 in
  (transport = Loop → is_ok r = false ∧ h' = h) ∧
  (transport ≠ Loop →
    ho_ran h' = ho_ran h ∧
    ho_fabrics h' = ho_fabrics h ++ [options] ∧
    split "," options = ["nqn=" +:+ as_str nqn; "transport=" +:+ trtype_str transport; "traddr=" +:+ show_ip traddr;
                         "trsvcid=" +:+ pretty (raw trsvcid); "hostnqn=" +:+ as_str hostnqn] ∧
    match fabrics_answer (ho_clock h) options with
    | Some FNotFound | Some (FOther _) => is_ok r = false ∧ h' = h0
    | None | Some FAlready =>
        ∃ k, (k <= 20)%nat ∧ (∀ j, (j < k)%nat → look_for dir nqn (ho_tree (waited j h0)) = Waiting) ∧
          match r with
          | Ok dev => h' = waited k h0 ∧ connected dir nqn h' dev
          | Err _ => (k = 20 ∨ look_for dir nqn (ho_tree (waited k h0)) = Dead) ∧ rolled_back dir nqn (waited k h0) h'
          end
    end).
Proof.
  intros Hc dir options h0. unfold connect_nvme in Hc. case_bool_decide as Hloop.
  { injection Hc as <- <-. by split. }
  split; [done|]. intros _. unfold mbind, cop_bind in Hc. fold options in Hc.
  change (write_fabrics options h) with (Ok (fabrics_answer (ho_clock h) options) : result string _, h0) in Hc. cbv iota in Hc.
  pose proof (connect_options_fields nqn transport traddr trsvcid hostnqn) as Hf. fold options in Hf.
  lazymatch goal with |- ho_ran _ = _ ∧ ho_fabrics _ = _ ∧ _ ∧ ?G =>
    assert (Hend : ho_ran h' = ho_ran h0 → ho_fabrics h' = ho_fabrics h0 → G → ho_ran h' = ho_ran h ∧ ho_fabrics h' = ho_fabrics h ++ [options] ∧
      split "," options = connect_fields nqn transport traddr trsvcid hostnqn ∧ G) by (intros; split_and!; done) end.
  apply Hend; clear Hend.
  all: destruct (fabrics_answer _ _) as [[| |e]|]; try (by injection Hc as <- <-).
  all: apply await_live_run in Hc as (k & Hk & Hw & Hd); destruct (waited_kept k h0) as [Hkf Hkr].
  all: try (destruct r; [destruct Hd as [-> _]; done|destruct Hd as [_ [(F & R & _) _]]; congruence]).
  all: exists k; split_and!; done.
Qed.
End connect.

(** ** The agent *)

Section agent.
Context {K : Kernel} {M : Machine} {TC : TargetsCodec} {J : AgentJson}.
(** What serde_json promises: compact output without line ends, read back with the
    line end after it; and nothing is not a value. *)
Class AgentJsonLaw : Prop := {
  op_line op text : op_json op = Ok text → "010"%char ∉ chars text ∧ json_op (text +:+ newline) = Ok op;
  object_line o : "010"%char ∉ chars (object_json o) ∧ json_object (object_json o +:+ newline) = Ok o;
  no_object : ∃ e, json_object "" = Err e }.
Context {L : AgentJsonLaw}.
Lemma first_line_whole s : "010"%char ∉ chars s → first_line (s +:+ newline) = s +:+ newline.
Proof.
  induction s as [|c s IH]; [done|]. cbn. intros [Hc Hs]%not_elem_of_cons. destruct (Ascii.eqb_spec c "010") as [->|]; [done|].
  f_equal. by apply IH.
Qed.
Lemma substring_whole n s : (String.length s <= n)%nat → String.substring 0 n s = s.
Proof. revert n. induction s as [|c s IH]; intros [|n] Hn; cbn in *; try done; [lia|]. f_equal. apply IH. lia. Qed.
Lemma received_whole s : "010"%char ∉ chars s → (slen s < MAX_LINE)%N → received (s +:+ newline) = s +:+ newline.
Proof.
  intros Hs Hl. unfold received. rewrite substring_whole; [by apply first_line_whole|].
  assert (Hlen : slen (s +:+ newline) = (slen s + 1)%N) by by rewrite slen_app. unfold slen in *. lia.
Qed.

(** Going through the agent is the same as running the operation as root.
    When request and reply fit a line, the agent does to the machine exactly what
    the operation does when run directly, and its caller gets the same reply with
    an ok mark, or the same error with the agent named. A peer that is not allowed
    changes nothing and gets an error. *)
Lemma agent_call_transparent paths config_dir op text h r h' :
  op_json op = Ok text → (slen text < MAX_LINE)%N →
  execute paths config_dir op h = (r, h') →
  (slen (object_json (match r with Ok v => ok_reply v | Err e => error_reply e end)) < MAX_LINE)%N →
  call paths config_dir Direct op h = (r, h') ∧
  call paths config_dir (Agent true) op h =
    (match r with Ok v => Ok (ok_reply v) | Err e => Err ("agent: " +:+ e) end, h') ∧
  ∃ e, call paths config_dir (Agent false) op h = (Err e, h).
Proof.
  intros Ht Hl Hx Hr. split; [done|]. destruct (op_line _ _ Ht) as [Hn Hop]. unfold call. rewrite Ht. split.
  - unfold mbind, cop_bind, serve_connection, handle. rewrite (received_whole _ Hn Hl), Hop, Hx.
    destruct (object_line (match r with Ok v => ok_reply v | Err e => error_reply e end)) as [Hon Hob].
    rewrite (received_whole _ Hon Hr), Hob. destruct r as [v|e].
    + unfold ok_reply. by rewrite lookup_insert_eq.
    + unfold error_reply. rewrite lookup_insert_eq, lookup_insert_ne by done. by rewrite lookup_singleton_eq.
  - destruct no_object as [e He]. exists ("agent sent a malformed reply: " +:+ e). 
    assert (Hrec : received "" = "") by (unfold received; rewrite substring_whole; [done|apply Nat.le_0_l]).
    unfold mbind, cop_bind, serve_connection, mret, cop_ret. by rewrite Hrec, He.
Qed.
End agent.

(** ** A connection, and a ping *)

Definition demo_sys : tree := list_to_map
  [(["sys"], Dir); (["sys"; "class"], Dir); (["sys"; "class"; "nvme"], Dir); (["sys"; "class"; "nvme"; "nvme0"], Dir);
   (["sys"; "class"; "nvme"; "nvme0"; "subsysnqn"], File ("nqn.2026-06.io.greendot:vm1" +:+ newline));
   (["sys"; "class"; "nvme"; "nvme0"; "state"], File ("live" +:+ newline));
   (["sys"; "class"; "nvme"; "nvme0"; "nvme0n1"], Dir)].
#[local] Instance demo_machine : Machine := {|
  settle _ _ := demo_sys; fabrics_answer _ _ := None; command _ _ := Finished true "" |}.
Definition demo_host : host := {| ho_tree := ∅; ho_clock := 0; ho_fabrics := []; ho_ran := [] |}.
Definition demo_nqn : Nqn := Refine "nqn.2026-06.io.greendot:vm1" I.
Definition demo_hostnqn : Nqn := Refine "nqn.2014-08.org.nvmexpress:uuid:1" I.
Definition demo_connect : result string string * host :=
  @connect_nvme permissive _ (PrivPaths_at []) demo_nqn Rdma (V4 (lit 10%N) (lit 0%N) (lit 0%N) (lit 5%N)) (lit 4420%N) demo_hostnqn demo_host.
Lemma connect_nvme_contract_witness :
  demo_connect.1 = Ok "/dev/nvme0n1" ∧
  ho_fabrics demo_connect.2 =
    ["nqn=nqn.2026-06.io.greendot:vm1,transport=rdma,traddr=10.0.0.5,trsvcid=4420,hostnqn=nqn.2014-08.org.nvmexpress:uuid:1"] ∧
  ho_ran demo_connect.2 = [].
Proof.
  split; [vm_compute; reflexivity|]. split; [vm_compute; reflexivity|].
  exact (proj1 (proj2 (@connect_nvme_contract permissive _ (PrivPaths_at []) demo_nqn Rdma (V4 (lit 10%N) (lit 0%N) (lit 0%N) (lit 5%N)) (lit 4420%N)
    demo_hostnqn demo_host demo_connect.1 demo_connect.2 (surjective_pairing _)) ltac:(discriminate))).
Defined.
#[local] Instance scalar_eq_dec : EqDecision scalar.
Proof. solve_decision. Defined.
#[local] Instance scalar_countable : Countable scalar :=
  inj_countable' (λ s, match s with SBool b => inl b | SNum n => inr (inl n) | SStr t => inr (inr t) end)
    (λ s, match s with inl b => SBool b | inr (inl n) => SNum n | inr (inr t) => SStr t end) ltac:(by intros []).
#[local] Instance demo_agent_json : AgentJson := {|
  op_json op := match op with Ping => Ok "ping" | _ => Err "unsupported" end;
  json_op s := if bool_decide (s = "ping" +:+ newline) then Ok Ping else Err "expected value";
  object_json o := pretty (Npos (encode o));
  json_object s := match split_once "010" s with
                   | Some (d, _) => match parse_digits 0 d with
                                    | Some (Npos p) => ok_or "expected value" (decode p)
                                    | _ => Err "expected value"
                                    end
                   | None => Err "EOF while parsing a value"
                   end |}.
#[local] Instance demo_agent_law : AgentJsonLaw.
Proof.
  split.
  - intros op text. destruct op; intros [= <-]. split; [by apply (all_chars_absent (λ c, negb (Ascii.eqb c "010")) "ping" "010")|reflexivity].
  - intros o. assert (Hd : "010"%char ∉ chars (pretty (Npos (encode o)))) by (apply (all_chars_absent _ _ _ (pretty_N_digits _)); reflexivity).
    split; [exact Hd|]. cbn -[pretty]. unfold newline. rewrite (proj2 (split_once_Some "010" _ _ "") (conj eq_refl Hd)).
    by rewrite parse_digits_pretty, decode_encode.
  - by eexists.
Qed.
#[local] Instance demo_targets : TargetsCodec := {| toml_targets _ := Ok []; targets_toml _ := Ok "" |}.
Lemma agent_call_transparent_witness :
  @call permissive _ _ _ (PrivPaths_at []) [] (Agent true) Ping demo_host = (Ok {["ok" := SBool true]}, demo_host).
Proof.
  destruct (@agent_call_transparent permissive _ _ _ _ (PrivPaths_at []) [] Ping "ping" demo_host (Ok ∅) demo_host) as (_ & Ha & _).
  - reflexivity.
  - vm_compute. reflexivity.
  - reflexivity.
  - vm_compute. reflexivity.
  - exact Ha.
Defined.
(** A host that begins with a dash is let through: the mount source it makes looks
    like an option. *)
Lemma flag_like_source : safe_mount_host "-oexec" = true ∧ starts_with "-" ("-oexec" +:+ ":" +:+ "/export") = true.
Proof. split; vm_compute; reflexivity. Qed.
