(* ===== verification/Inventory.v ===== *)
(** * The block devices of the host (greendot-web: fmt.rs, actual/block.rs,
    actual/lvm.rs, actual/smart.rs)

    What lsblk, the LVM report tools and smartctl say, and which devices are free
    to be used. lsblk runs in the web service; the other two need root, so they are
    requests to the helper, and a page that shows them sends those requests. The
    JSON decoders are class parameters; floating point is binary64 of the standard
    library's specification. As in ZfsView.v, an error is the text of its outermost
    context. *)
From Stdlib Require Import Ascii String ZArith SpecFloat.
From stdpp Require Import base option list strings sets gmap pretty.
From S2P Require Import Prelude Ordered Validate IpAddr Types Wire Ops Desired Task Replies Fs Store Tasks ZfsView Site.
#[local] Open Scope string_scope.
#[local] Open Scope list_scope.
#[local] Open Scope N_scope.

(** ** Floating point and byte sizes (fmt.rs) *)

Definition f64 : Type := spec_float.
Definition f64_of_N (n : N) : f64 := binary_normalize 53 1024 (Z.of_N n) 0 false.
Definition signed (negative : bool) (s : string) : string := if negative then "-" +:+ s else s.
(** [num / den] to the nearest integer, ties to even. *)
Definition half_even (num den : N) : N :=
  let q := num / den in
  let r := num mod den in
  match 2 * r ?= den with
  | Lt => q
  | Gt => q + 1
  | Eq => if N.even q then q else q + 1
  end.
(** [format!("{x:.1}")]: the exact value, rounded to tenths. *)
Definition tenths (m : positive) (e : Z) : N :=
  if (0 <=? e)%Z then 10 * Npos m * 2 ^ Z.to_N e else half_even (10 * Npos m) (2 ^ Z.to_N (- e)).
Definition fixed1 (x : f64) : string :=
  match x with
  | S754_zero s => signed s "0.0"
  | S754_infinity s => signed s "inf"
  | S754_nan => "NaN"
  | S754_finite s m e => signed s (pretty (tenths m e / 10) +:+ "." +:+ pretty (tenths m e mod 10))
  end.
Definition K1024 : f64 := f64_of_N 1024.
Fixpoint scale (value : f64) (unit : string) (units : list string) : f64 * string :=
  match units with
  | [] => (value, unit)
  | next :: units =>
      let value := SFdiv 53 1024 value K1024 in
      if SFltb value K1024 then (value, next) else scale value next units
  end.
Definition human_bytes (bytes : u64) : string :=
  if raw bytes <? 1024 then pretty (raw bytes) +:+ " B"
  else
    let '(value, unit) := scale (f64_of_N (raw bytes)) "B" ["KiB"; "MiB"; "GiB"; "TiB"; "PiB"; "EiB"] in
    fixed1 value +:+ " " +:+ unit.
(** [f64::from_str]: an optional sign, a name or a decimal number, rounded once. *)
Definition decimal (negative : bool) (m : N) (e : Z) : f64 :=
  match m with
  | 0 => S754_zero negative
  | Npos p =>
      let '(q, e', l) := SFdiv_core_binary 53 1024 (Zpos p * 10 ^ Z.max e 0)%Z 0 (10 ^ Z.max (- e) 0)%Z 0 in
      binary_round_aux 53 1024 negative q e' l
  end.
Fixpoint span_digits (s : string) : string * string :=
  match s with
  | String c r => if is_ascii_digit c then let '(d, rest) := span_digits r in (String c d, rest) else ("", s)
  | EmptyString => ("", "")
  end.
Fixpoint lower (s : string) : string :=
  match s with
  | String c r => String (if in_range 65 90 c then ascii_of_N (code c + 32) else c) (lower r)
  | EmptyString => EmptyString
  end.
Definition split_sign (s : string) : bool * string :=
  match s with
  | String "-" r => (true, r)
  | String "+" r => (false, r)
  | _ => (false, s)
  end.
Definition exponent (s : string) : option Z :=
  match s with
  | EmptyString => Some 0%Z
  | String c r =>
      if Ascii.eqb c "e" || Ascii.eqb c "E" then
        let '(negative, digits) := split_sign r in
        if is_empty digits then None
        else n ← parse_digits 0 digits; Some (if negative then - Z.of_N n else Z.of_N n)%Z
      else None
  end.
Definition parse_f64 (s : string) : option f64 :=
  let '(negative, s) := split_sign s in
  if bool_decide (lower s ∈ ["inf"; "infinity"]) then Some (S754_infinity negative)
  else if bool_decide (lower s = "nan") then Some S754_nan
  else
    let '(int, rest) := span_digits s in
    let '(frac, rest) := match rest with String "." r => span_digits r | _ => ("", rest) end in
    if is_empty (int +:+ frac) then None
    else
      e ← exponent rest;
      m ← parse_digits 0 (int +:+ frac);
      Some (decimal negative m (e - Z.of_N (slen frac))%Z).

(** ** Disks and partitions (block.rs) *)

Record Partition : Type := {
  pt_name : string; pt_number : option u32; pt_size : u64; pt_label : option string; pt_mountpoint : option string;
  pt_fstype : option string }.
Record Disk : Type := {
  dk_name : string; dk_size : u64; dk_model : option string; dk_serial : option string; dk_transport : option string;
  dk_id_link : option string; dk_mountpoint : option string; dk_fstype : option string; dk_partitions : list Partition }.
Inductive AvailKind : Type := AvZvol | AvLv | AvPartition | AvWholeDisk.
#[export] Instance AvailKind_eq_dec : EqDecision AvailKind.
Proof. solve_decision. Defined.
Record AvailDevice : Type := {
  av_path : string; av_label : string; av_kind : AvailKind; av_fstype : option string; av_size : u64 }.
Inductive LsblkDev : Type := {
  ld_name : string; ld_kind : string; ld_size : u64; ld_fstype : option string; ld_model : option string;
  ld_serial : option string; ld_tran : option string; ld_id_link : option string; ld_partlabel : option string;
  ld_mountpoint : option string; ld_children : list LsblkDev }.
Class LsblkJson := lsblk_json : string → result string (list LsblkDev).
Fixpoint trailing_digits (s : string) : string :=
  match s with
  | String _ r => if all_chars is_ascii_digit s then s else trailing_digits r
  | EmptyString => EmptyString
  end.
Definition partition_number (name : string) : option u32 := parse_uint 32 (trailing_digits name).
(** [filter(|s| !s.trim().is_empty())]. *)
Definition not_blank (o : option string) : option string :=
  s ← o; if is_empty (trim s) then None else Some s.
Definition partition_of (c : LsblkDev) : Partition := {|
  pt_name := ld_name c; pt_number := partition_number (ld_name c); pt_size := ld_size c; pt_label := ld_partlabel c;
  pt_mountpoint := ld_mountpoint c; pt_fstype := not_blank (ld_fstype c) |}.
Definition disk_of (d : LsblkDev) : Disk := {|
  dk_name := ld_name d; dk_size := ld_size d; dk_model := not_blank (ld_model d); dk_serial := not_blank (ld_serial d);
  dk_transport := not_blank (ld_tran d); dk_id_link := not_blank (ld_id_link d);
  dk_mountpoint := not_blank (ld_mountpoint d); dk_fstype := not_blank (ld_fstype d);
  dk_partitions := partition_of <$> List.filter (λ c, bool_decide (ld_kind c = "part")) (ld_children d) |}.
Definition parse_lsblk `{LsblkJson} (json : string) : result string (list Disk) :=
  root ← map_err (λ _, "parsing lsblk --json output") (lsblk_json json);
  mret (disk_of <$> List.filter (λ d, bool_decide (ld_kind d = "disk") && negb (starts_with "zd" (ld_name d))) root).

Definition device_label (p : string) (size : u64) (fstype : option string) : string :=
  let fs := match fstype with
            | Some f => if bool_decide (f = "zfs_member") then "ZFS" else if bool_decide (f = "LVM2_member") then "LVM" else f
            | None => "no filesystem"
            end in
  p +:+ " " +:+ em_dash +:+ " " +:+ human_bytes size +:+ " " +:+ fs.
Definition in_use_fstype (fstype : option string) : bool :=
  match fstype with Some f => bool_decide (f = "zfs_member") || bool_decide (f = "LVM2_member") | None => false end.
Definition is_none {A} (o : option A) : bool := match o with None => true | Some _ => false end.
(** One raw device. *)
Definition raw_device (in_use : gset string) (kind : AvailKind) (name : string) (size : u64)
    (mountpoint fstype : option string) : list AvailDevice :=
  let p := "/dev/" +:+ name in
  if is_none mountpoint && negb (in_use_fstype fstype) && negb (bool_decide (p ∈ in_use)) then
    [{| av_path := p; av_label := device_label p size fstype; av_kind := kind; av_fstype := fstype; av_size := size |}]
  else [].
Definition disk_devices (in_use : gset string) (d : Disk) : list AvailDevice :=
  match dk_partitions d with
  | [] => raw_device in_use AvWholeDisk (dk_name d) (dk_size d) (dk_mountpoint d) (dk_fstype d)
  | ps => ps ≫= λ p, raw_device in_use AvPartition (pt_name p) (pt_size p) (pt_mountpoint p) (pt_fstype p)
  end.
Definition zvol_device (in_use : gset string) (zvol : string * u64) : list AvailDevice :=
  let p := "/dev/zvol/" +:+ zvol.1 in
  if bool_decide (p ∈ in_use) then []
  else [{| av_path := p; av_label := "zvol " +:+ zvol.1 +:+ " " +:+ em_dash +:+ " " +:+ human_bytes zvol.2; av_kind := AvZvol;
           av_fstype := None; av_size := zvol.2 |}].
Definition lv_device (in_use : gset string) (lv : string * u64) : list AvailDevice :=
  if bool_decide (lv.1 ∈ in_use) then []
  else [{| av_path := lv.1;
           av_label := "LV " +:+ default lv.1 (strip_prefix "/dev/" lv.1) +:+ " " +:+ em_dash +:+ " " +:+ human_bytes lv.2;
           av_kind := AvLv; av_fstype := None; av_size := lv.2 |}].
Definition available_from_disks (disks : list Disk) (zvols lvs : list (string * u64)) (in_use : gset string) : list AvailDevice :=
  (disks ≫= disk_devices in_use) ++ (zvols ≫= zvol_device in_use) ++ (lvs ≫= lv_device in_use).

(** ** LVM (lvm.rs) *)

Record Vg : Type := { vg_name : string; vg_size : u64; vg_free : u64; vg_pv_count : u64; vg_lv_count : u64 }.
Record Pv : Type := { pv_name : string; pv_vg : option string; pv_size : u64; pv_free : u64 }.
Inductive LvKind : Type := Linear | ThinPool | Thin.
#[export] Instance LvKind_eq_dec : EqDecision LvKind.
Proof. solve_decision. Defined.
Record Lv : Type := {
  lv_vg : string; lv_name : string; lv_size : u64; lv_kind : LvKind; lv_pool : option string; lv_data_percent : option f64 }.
Record VgJson : Type := {
  vj_vg_name : string; vj_vg_size : string; vj_vg_free : string; vj_pv_count : string; vj_lv_count : string }.
Record LvJson : Type := {
  lj_vg_name : string; lj_lv_name : string; lj_lv_size : string; lj_lv_attr : string; lj_pool_lv : string;
  lj_data_percent : string }.
Record PvJson : Type := { pj_pv_name : string; pj_vg_name : string; pj_pv_size : string; pj_pv_free : string }.
(** The groups of rows of a report. *)
Class ReportJson (T : Type) := report_json : string → result string (list (list T)).
Definition lvm_num (field : string) : result string u64 :=
  ok_or ("expected a number, got " +:+ debug_str field) (parse_uint 64 (default field (head (split "." field)))).
Definition opt_str (field : string) : option string := if is_empty field then None else Some field.
Definition opt_percent (field : string) : result string (option f64) :=
  if is_empty field then Ok None
  else Some <$> ok_or ("expected a percentage, got " +:+ debug_str field) (parse_f64 field).
Definition lv_kind_of (attr : string) : LvKind :=
  match attr with
  | String "t" _ => ThinPool
  | String "V" _ => Thin
  | _ => Linear
  end.
Definition rows {T} `{ReportJson T} (out : string) : result string (list T) :=
  groups ← map_err (λ _, "parsing LVM JSON report") (report_json out);
  mret (List.concat groups).
Definition vg_of (v : VgJson) : result string Vg :=
  size ← lvm_num (vj_vg_size v);
  free ← lvm_num (vj_vg_free v);
  pvs ← lvm_num (vj_pv_count v);
  lvs ← lvm_num (vj_lv_count v);
  mret {| vg_name := vj_vg_name v; vg_size := size; vg_free := free; vg_pv_count := pvs; vg_lv_count := lvs |}.
Definition lv_of (l : LvJson) : result string Lv :=
  size ← lvm_num (lj_lv_size l);
  percent ← opt_percent (lj_data_percent l);
  mret {| lv_vg := lj_vg_name l; lv_name := lj_lv_name l; lv_size := size; lv_kind := lv_kind_of (lj_lv_attr l);
          lv_pool := opt_str (lj_pool_lv l); lv_data_percent := percent |}.
Definition pv_of (p : PvJson) : result string Pv :=
  size ← lvm_num (pj_pv_size p);
  free ← lvm_num (pj_pv_free p);
  mret {| pv_name := pj_pv_name p; pv_vg := opt_str (pj_vg_name p); pv_size := size; pv_free := free |}.
Definition parse_vgs_json `{ReportJson VgJson} (out : string) : result string (list Vg) := l ← rows out; mapM vg_of l.
Definition parse_lvs_json `{ReportJson LvJson} (out : string) : result string (list Lv) := l ← rows out; mapM lv_of l.
Definition parse_pvs_json `{ReportJson PvJson} (out : string) : result string (list Pv) := l ← rows out; mapM pv_of l.

(** ** Reading them *)

(** The decoders of the three tools. *)
Class Tools := {
  tools_lsblk :: LsblkJson;
  tools_vgs :: ReportJson VgJson;
  tools_lvs :: ReportJson LvJson;
  tools_pvs :: ReportJson PvJson }.
(** The helper's answer to the batch health read, [None] when the call fails: per
    device, [smart_status.passed] and the temperature. *)
Class SmartRead := smart_read : list request → list BlockDev → option (list (string * (option bool * option Z))).
Record Smart : Type := { sm_passed : option bool; sm_temp_c : option Z }.
Record SmartReportOut : Type := { so_stdout : string; so_stderr : string; so_installed : bool }.
Definition not_installed (o : HelperOutput) : bool :=
  match ho_error o with Some e => contains "is not installed" e | None => false end.
Definition LSBLK : list string :=
  ["lsblk"; "--json"; "--bytes"; "-o"; "NAME,TYPE,SIZE,FSTYPE,MODEL,SERIAL,TRAN,ID-LINK,PARTLABEL,MOUNTPOINT"].
Section reads.
Context {H : Helper} {Sh : Shell} {J : Tools} {SR : SmartRead}.
#[export] Instance hop_fmap : FMap hop := λ A B f m s,
  match m s with (Ok a, s') => (Ok (f a), s') | (Err e, s') => (Err e, s') end.
(** The commands see the host as it is after the requests sent so far. *)
Definition on_host {A} (f : nat → A) : hop A := λ s, (Ok (f (length (st_sent s))), s).
Definition disks_at (n : nat) : result string (list Disk) :=
  match shell n LSBLK with
  | NotInstalled | SpawnFailed _ => Err "running lsblk"
  | Exited false _ stderr => Err ("lsblk failed: " +:+ trim stderr)
  | Exited true None _ => Err "invalid utf-8 sequence"
  | Exited true (Some out) _ => parse_lsblk out
  end.
Definition disks : hop (result string (list Disk)) := on_host disks_at.
Definition report (what : LvmReport) : hop (result string (option string)) :=
  rx ← send (RLvmReportOp {| lvm_report_op_what := what |});
  let out := collect_output rx in
  mret (if not_installed out then Ok None
        else if ho_ok out then Ok (Some (ho_stdout out))
        else Err ("lvm report failed: " +:+ default (trim (ho_stderr out)) (ho_error out))).
(** [map(parse).transpose()]. *)
Definition reported {A} (parse : string → result string A) (what : LvmReport) : hop (result string (option A)) :=
  r ← report what;
  mret match r with
       | Err e => Err e
       | Ok None => Ok None
       | Ok (Some out) => Some <$> parse out
       end.
Definition volume_groups : hop (result string (option (list Vg))) := reported parse_vgs_json Vgs.
Definition physical_volumes : hop (result string (option (list Pv))) := reported parse_pvs_json Pvs.
Definition logical_volumes : hop (result string (option (list Lv))) := reported parse_lvs_json Lvs.
(** [ok().flatten().unwrap_or_default()]. *)
Definition or_empty {A} (r : result string (option (list A))) : list A :=
  match r with Ok (Some l) => l | _ => [] end.
Definition zvols_of (l : list Dataset) : list (string * u64) :=
  (λ d, (ds_name d, default (lit 0 : u64) (ds_volsize d))) <$> List.filter (λ d, bool_decide (ds_kind d = Volume)) l.
Definition lvs_of (l : list Lv) : list (string * u64) :=
  (λ l, ("/dev/" +:+ lv_vg l +:+ "/" +:+ lv_name l, lv_size l)) <$> List.filter (λ l, negb (bool_decide (lv_kind l = ThinPool))) l.
Definition available_block_devices (in_use : gset string) : hop (list AvailDevice) :=
  d ← disks;
  z ← on_host (λ n, datasets n);
  l ← logical_volumes;
  mret (available_from_disks (match d with Ok d => d | Err _ => [] end) (zvols_of (or_empty z)) (lvs_of (or_empty l)) in_use).

(** ** SMART (smart.rs) *)

(** The reply with a device twice keeps its last row. *)
Definition health (devices : list BlockDev) : hop (gmap string Smart) :=
  match devices with
  | [] => mret ∅
  | _ => λ s,
      let l := default [] (smart_read (st_sent s) devices) in
      (Ok (list_to_map (reverse ((λ d, (d.1, {| sm_passed := d.2.1; sm_temp_c := d.2.2 |})) <$> l))),
       {| st_web := st_web s; st_sent := st_sent s ++ [RSmartHealth {| smart_health_devices := devices |}]; st_jobs := st_jobs s |})
  end.
Definition dot_class (h : option Smart) : string :=
  match h ≫= sm_passed with
  | Some true => "dot-green"
  | Some false => "dot-red"
  | None => "dot-gray"
  end.
Definition degree : string := String (ascii_of_N 194) (chr 176).
Definition temp_display (h : option Smart) : string :=
  match h ≫= sm_temp_c with
  | Some c => show_Z c +:+ " " +:+ degree +:+ "C"
  | None => em_dash
  end.
Definition smart_report (device : BlockDev) : hop SmartReportOut :=
  rx ← send (RSmartReport {| smart_report_device := device |});
  let out := collect_output rx in
  mret {| so_stdout := ho_stdout out; so_stderr := ho_stderr out; so_installed := negb (not_installed out) |}.
End reads.

Example human_sizes :
  human_bytes <$> [(lit 512 : u64); (lit 1536 : u64); (lit 10737418240 : u64); (lit 3298534883328 : u64); (lit 18446744073709551615 : u64)] =
  ["512 B"; "1.5 KiB"; "10.0 GiB"; "3.0 TiB"; "16.0 EiB"].
Proof. vm_compute. reflexivity. Qed.
Example percentages : (λ t, fixed1 <$> parse_f64 t) <$> ["12.34"; "0.25"; "100.00"; "1e2"; "-.5"; "inf"; ""; "1e"; "12.3x"] =
  [Some "12.3"; Some "0.2"; Some "100.0"; Some "100.0"; Some "-0.5"; Some "inf"; None; None; None].
Proof. vm_compute. reflexivity. Qed.
