(* ===== verification/DiskPages.v ===== *)
(** * The disk pages (greendot-web/src/routes/disks.rs)

    The rows of the disk and partition pages and the forms on them. A page is read
    afresh for every response, so a response sends the helper's read requests too.
    The charts of the detail page are in Metrics. *)
From Stdlib Require Import Ascii String.
From stdpp Require Import base option list strings sets gmap pretty.
From S2P Require Import Prelude Ordered Validate IpAddr Types Wire Ops Desired Task Replies Fs Store Tasks ZfsView Site Exports Sessions Snapshots Inventory.
#[local] Open Scope string_scope.
#[local] Open Scope list_scope.
#[local] Open Scope N_scope.

(** ** Responses *)

(** A page, or a redirect away from one that no longer applies. *)
Inductive answer (V : Type) : Type := Shown (v : V) | Moved (n : nav).
Arguments Shown {V} v.
Arguments Moved {V} n.
(** The page without a form having been sent. *)
Definition quiet : notice := {| nt_flash := None; nt_error := None; nt_task := None |}.

(** ** Sizes *)

(** [zfs::parse_size]: a number and a unit. *)
Definition unit_bytes (unit : string) : option N :=
  if bool_decide (unit = "MiB") then Some (2 ^ 20)
  else if bool_decide (unit = "GiB") then Some (2 ^ 30)
  else if bool_decide (unit = "TiB") then Some (2 ^ 40)
  else None.
Definition parse_size (value unit : string) : option u64 :=
  v ← parse_uint 64 (trim value);
  mult ← unit_bytes unit;
  b ← refine (fits 64) (raw v * mult);
  if 0 <? raw b then Some b else None.
(** [a / b] of unsigned numbers, [b] not zero. *)
Definition div_uint {w} (a : uint w) (b : N) : uint w :=
  default a (refine (fits w) (raw a / b)).
Definition sum_u64 (l : list u64) : panics N :=
  let n := foldr (λ (x : u64) acc, raw x + acc) 0 l in
  if fits 64 n then Ok n else Err "attempt to add with overflow".

(** ** Rows *)

Record DeviceContext : Type := {
  dc_health : gmap string Smart; dc_members : gmap string string; dc_in_use : gset string; dc_poolable : gset string }.
Definition empty_raw (d : AvailDevice) : bool :=
  negb (bool_decide (av_kind d = AvZvol)) && negb (bool_decide (av_kind d = AvLv)) && is_none (av_fstype d).
Definition usage_for (device_path : string) (mountpoint fstype : option string) (partitions : nat) (ctx : DeviceContext) : string :=
  match mountpoint ≫= opt_str with
  | Some mp =>
      match fstype ≫= opt_str with
      | Some fs => "mounted at " +:+ mp +:+ " (" +:+ fs +:+ ")"
      | None => "mounted at " +:+ mp
      end
  | None =>
      let exported := bool_decide (device_path ∈ dc_in_use ctx) in
      match fstype with
      | Some fs =>
          if bool_decide (fs = "zfs_member") then
            match dc_members ctx !! device_path with
            | Some pool => "ZFS pool: " +:+ pool
            | None => "stale ZFS label (no imported pool) " +:+ em_dash +:+ " wipe to reuse"
            end
          else if bool_decide (fs = "LVM2_member") then "LVM physical volume"
          else if exported then "exported (" +:+ fs +:+ ")"
          else fs
      | None =>
          if exported then "exported (NVMe-oF/iSCSI)"
          else match partitions with
               | O => "available"
               | _ => "partitioned (" +:+ pretty partitions +:+ " partitions)"
               end
      end
  end.
Inductive Shrink : Type := ShExt | ShBtrfs | ShRaw | ShNo (reason : string).
Definition shrinkability (fstype : option string) (mounted : bool) : Shrink :=
  match fstype with
  | None => ShRaw
  | Some f =>
      if bool_decide (f ∈ ["ext2"; "ext3"; "ext4"]) && negb mounted then ShExt
      else if bool_decide (f = "btrfs") && negb mounted then ShBtrfs
      else if bool_decide (f ∈ ["ext2"; "ext3"; "ext4"; "btrfs"]) then ShNo ("mounted " +:+ em_dash +:+ " unmount it first")
      else if bool_decide (f = "xfs") then ShNo "XFS cannot be shrunk"
      else if bool_decide (f = "zfs_member") then ShNo "part of a ZFS pool"
      else if bool_decide (f = "LVM2_member") then ShNo "part of an LVM volume group"
      else ShNo "this filesystem cannot be shrunk"
  end.
Definition fs_display (fstype : option string) : string :=
  match fstype with
  | None => "no filesystem"
  | Some f => if bool_decide (f = "zfs_member") then "ZFS" else if bool_decide (f = "LVM2_member") then "LVM" else f
  end.
(** [to_uppercase] of the ASCII names lsblk has. *)
Fixpoint upper (s : string) : string :=
  match s with
  | String c r => String (if in_range 97 122 c then ascii_of_N (code c - 32) else c) (upper r)
  | EmptyString => EmptyString
  end.
Definition transport_display (tran : option string) : string :=
  match tran with
  | None => em_dash
  | Some t =>
      if bool_decide (t = "nvme") then "NVMe"
      else if bool_decide (t = "sata") then "SATA"
      else if bool_decide (t = "sas") then "SAS"
      else if bool_decide (t = "usb") then "USB"
      else upper t
  end.
Definition pool_for (device_path : string) (fstype : option string) (ctx : DeviceContext) : option string :=
  if bool_decide (fstype = Some "zfs_member") then dc_members ctx !! device_path else None.
Record PartRow : Type := {
  pw_name : string; pw_number : option u32; pw_size : string; pw_label : string; pw_mountpoint : string; pw_fstype : string;
  pw_shrinkable : bool; pw_shrink_reason : string; pw_device_path : string; pw_usage : string; pw_pool : option string;
  pw_poolable : bool }.
Definition part_row (p : Partition) (ctx : DeviceContext) : PartRow :=
  let device_path := "/dev/" +:+ pt_name p in
  let mountpoint := default "" (pt_mountpoint p) in
  let '(shrinkable, reason) := match shrinkability (pt_fstype p) (nonempty mountpoint) with
                               | ShNo reason => (false, reason)
                               | _ => (true, "")
                               end in
  {| pw_name := pt_name p; pw_number := pt_number p; pw_size := human_bytes (pt_size p); pw_label := default "" (pt_label p);
     pw_mountpoint := mountpoint; pw_fstype := fs_display (pt_fstype p); pw_shrinkable := shrinkable;
     pw_shrink_reason := reason; pw_device_path := device_path;
     pw_usage := usage_for device_path (pt_mountpoint p) (pt_fstype p) 0 ctx;
     pw_pool := pool_for device_path (pt_fstype p) ctx; pw_poolable := bool_decide (device_path ∈ dc_poolable ctx) |}.
Record DiskRow : Type := {
  dw_name : string; dw_size : string; dw_model : string; dw_serial : string; dw_transport : string; dw_by_id : string;
  dw_free : string; dw_no_space : bool; dw_partitions : list PartRow; dw_device_path : string; dw_dot_class : string;
  dw_temp : string; dw_usage : string; dw_pool : option string; dw_poolable : bool }.
(** [size.saturating_sub(used)]. *)
Definition sub_u64 (a : u64) (b : N) : u64 := default a (refine (fits 64) (saturating_sub (raw a) b)).
Definition disk_row (d : Disk) (ctx : DeviceContext) : panics DiskRow :=
  used ← sum_u64 (pt_size <$> dk_partitions d);
  let unallocated := sub_u64 (dk_size d) used in
  let device_path := "/dev/" +:+ dk_name d in
  let health := dc_health ctx !! dk_name d in
  Ok {| dw_name := dk_name d; dw_size := human_bytes (dk_size d); dw_model := default "" (dk_model d);
        dw_serial := default "" (dk_serial d); dw_transport := transport_display (dk_transport d);
        dw_by_id := match dk_id_link d with Some l => "/dev/disk/by-id/" +:+ l | None => "" end;
        dw_free := human_bytes unallocated; dw_no_space := raw unallocated <? 2 ^ 20;
        dw_partitions := (λ p, part_row p ctx) <$> dk_partitions d; dw_device_path := device_path;
        dw_dot_class := dot_class health; dw_temp := temp_display health;
        dw_usage := usage_for device_path (dk_mountpoint d) (dk_fstype d) (length (dk_partitions d)) ctx;
        dw_pool := pool_for device_path (dk_fstype d) ctx; dw_poolable := bool_decide (device_path ∈ dc_poolable ctx) |}.

(** ** Pages *)

Record DisksView : Type := { vs_disks : list DiskRow; vs_error : option string; vs_notice : notice }.
Record DiskDetailView : Type := {
  vd_name : string; vd_disk : option DiskRow; vd_smart_report : string; vd_smart_installed : bool; vd_error : option string;
  vd_notice : notice }.
Record PartDetailView : Type := { vp_disk : string; vp_part : option PartRow; vp_error : option string; vp_notice : notice }.
Definition newline : string := String "010" "".
Definition no_disks (e : string) : string := "could not list block devices: " +:+ e.

Section pages.
Context {Q : Sqlite} {T : Clock} {R : RowCodec} {H : Helper}.
Context {Sh : Shell} {J : Tools} {SR : SmartRead}.

Definition in_use_paths : hop (gset string) := d ← get_config; mret (list_to_set (export_device_paths d)).
Definition block_devs (l : list Disk) : list BlockDev :=
  omap (λ d, match new NtBlockDev (dk_name d) with Ok b => Some b | Err _ => None end) l.
Definition device_context (l : list Disk) : hop DeviceContext :=
  in_use ← in_use_paths;
  available ← available_block_devices in_use;
  health ← health (block_devs l);
  members ← on_host (λ n, pool_members n);
  mret {| dc_health := health; dc_members := match members with Ok (Some m) => m | _ => ∅ end; dc_in_use := in_use;
          dc_poolable := list_to_set (av_path <$> List.filter empty_raw available) |}.
Fixpoint panics_map {A B} (f : A → panics B) (l : list A) : panics (list B) :=
  match l with
  | [] => Ok []
  | a :: l => b ← f a; bs ← panics_map f l; Ok (b :: bs)
  end.
Definition gather_disks (n : notice) : hop DisksView :=
  r ← disks;
  match r with
  | Ok l =>
      ctx ← device_context l;
      rows ← hop_panics (panics_map (λ d, disk_row d ctx) l);
      mret {| vs_disks := rows; vs_error := None; vs_notice := n |}
  | Err e => mret {| vs_disks := []; vs_error := Some (no_disks e); vs_notice := n |}
  end.
Definition disk_named (name : string) (l : list Disk) : option Disk := List.find (λ d, bool_decide (dk_name d = name)) l.
Definition gather_disk_detail (name : string) (n : notice) : hop DiskDetailView :=
  let view disk report installed error :=
    {| vd_name := name; vd_disk := disk; vd_smart_report := report; vd_smart_installed := installed; vd_error := error;
       vd_notice := n |} in
  r ← disks;
  match r with
  | Err e => mret (view None "" true (Some (no_disks e)))
  | Ok l =>
      match disk_named name l with
      | None => mret (view None "" true None)
      | Some d =>
          ctx ← device_context [d];
          '(report, installed) ← match new NtBlockDev name with
                                 | Ok dev =>
                                     rep ← smart_report dev;
                                     mret (if is_empty (trim (so_stderr rep)) then so_stdout rep
                                           else so_stdout rep +:+ newline +:+ so_stderr rep, so_installed rep)
                                 | Err _ => mret ("", true)
                                 end;
          row ← hop_panics (disk_row d ctx);
          mret (view (Some row) report installed None)
      end
  end.
Definition part_numbered (number : u32) (l : list Partition) : option Partition :=
  List.find (λ p, bool_decide (pt_number p = Some number)) l.
Definition gather_part_detail (disk : string) (number : u32) (n : notice) : hop PartDetailView :=
  let view part error := {| vp_disk := disk; vp_part := part; vp_error := error; vp_notice := n |} in
  r ← disks;
  match r with
  | Err e => mret (view None (Some (no_disks e)))
  | Ok l =>
      match disk_named disk l with
      | None => mret (view None None)
      | Some d =>
          ctx ← device_context [d];
          mret (view ((λ p, part_row p ctx) <$> part_numbered number (dk_partitions d)) None)
      end
  end.

(** ** Forms *)

(** A request as a recorded task, and the page again with how it went. *)
Definition run_on {V} (gather : notice → hop V) (kind title : string) (req : request) : hop V :=
  r ← hop_try (start kind title req);
  gather match r with
         | Ok id => flashed ("started " +:+ title) (Some id)
         | Err e => failed e
         end.
(** A request after which the page no longer applies. *)
Definition leave_for {V} (to : nav) (gather : notice → hop V) (kind title : string) (req : request) : hop (answer V) :=
  r ← hop_try (start kind title req);
  match r with
  | Ok _ => mret (Moved to)
  | Err e => v ← gather (failed e); mret (Shown v)
  end.
Definition refused {V} (gather : notice → hop V) (msg : string) : hop V := gather (failed msg).
Definition bad_disk (disk : string) : string := "invalid disk name " +:+ debug_str disk.
Definition table_create (disk : string) : hop DiskDetailView :=
  let page := gather_disk_detail (trim disk) in
  match new NtBlockDev (trim disk) with
  | Err _ => refused page (bad_disk disk)
  | Ok d =>
      run_on page "gpt-create" ("new GPT on " +:+ as_str d) (RPartitionTableCreate {| partition_table_create_disk := d |})
  end.
(** An empty size is the rest of the disk. *)
Definition sectors_of (size unit : string) : option (option u64) :=
  if is_empty (trim size) then Some None
  else (λ b, Some (div_uint b 512)) <$> parse_size (trim size) unit.
Definition part_create (disk size unit label : string) : hop DiskDetailView :=
  let page := gather_disk_detail (trim disk) in
  match new NtBlockDev (trim disk) with
  | Err _ => refused page (bad_disk disk)
  | Ok d =>
      match new NtPartLabel (trim label) with
      | Err _ => refused page ("invalid partition label " +:+ debug_str label)
      | Ok l =>
          match sectors_of size unit with
          | None => refused page "invalid size"
          | Some sectors =>
              run_on page "partition-create" ("create partition on " +:+ as_str d)
                (RPartitionCreate {| partition_create_disk := d; partition_create_start_sector := None;
                                     partition_create_size_sectors := sectors; partition_create_label := l |})
          end
      end
  end.
Definition part_delete (headers : list (string * string)) (disk : string) (number : u32) : hop (answer PartDetailView) :=
  let page := gather_part_detail (trim disk) number in
  match new NtBlockDev (trim disk) with
  | Err _ => v ← refused page (bad_disk disk); mret (Shown v)
  | Ok d =>
      leave_for (nav_redirect headers ("/disks/" +:+ trim disk)) page "partition-delete"
        ("delete partition " +:+ show_uint number +:+ " on " +:+ as_str d)
        (RPartitionDelete {| partition_delete_disk := d; partition_delete_number := number |})
  end.
(** The partition and its state are read afresh; the form only names it. *)
Definition shrink_gate (d : BlockDev) (number : u32) (bytes : u64) (l : list Disk) : result string string :=
  match x ← disk_named (as_str d) l; part_numbered number (dk_partitions x) with
  | None => Err ("partition " +:+ show_uint number +:+ " on " +:+ as_str d +:+ " no longer exists")
  | Some p =>
      if raw (pt_size p) / 512 <=? raw bytes / 512 then Err "new size must be smaller than the current size"
      else
        let device := "/dev/" +:+ pt_name p in
        match shrinkability (pt_fstype p) (negb (is_none (pt_mountpoint p))) with
        | ShNo reason => Err ("cannot shrink " +:+ device +:+ ": " +:+ reason)
        | _ => Ok device
        end
  end.
Definition part_shrink (disk : string) (number : u32) (size unit : string) : hop PartDetailView :=
  let page := gather_part_detail (trim disk) number in
  match new NtBlockDev (trim disk) with
  | Err _ => refused page (bad_disk disk)
  | Ok d =>
      match parse_size size unit with
      | None => refused page "invalid size"
      | Some bytes =>
          if negb (raw bytes mod 2 ^ 20 =? 0) then refused page "size must be a whole number of MiB"
          else
            r ← disks;
            match r with
            | Err e => refused page ("could not read disks: " +:+ e)
            | Ok l =>
                match shrink_gate d number bytes l with
                | Err msg => refused page msg
                | Ok device =>
                    run_on page "partition-shrink" ("shrink " +:+ device)
                      (RPartitionShrink {| partition_shrink_disk := d; partition_shrink_number := number;
                                           partition_shrink_size_sectors := div_uint bytes 512 |})
                end
            end
      end
  end.
End pages.
