(* ===== verification/ZfsPages.v ===== *)
(** * The ZFS pages (greendot-web/src/routes/zfs.rs)

    The pool, zvol and dataset pages, which actions they offer on the devices of a
    pool, and the forms on them. As in DiskPages.v, a response reads its page
    afresh and the charts are in Metrics. Where several listings are
    read together and more than one fails, the error shown is the first one's. *)
From Stdlib Require Import Ascii String.
From stdpp Require Import base option list strings sets gmap pretty.
From S2P Require Import Prelude Ordered Validate IpAddr Types Wire Ops Desired Task Replies Fs Store Tasks ZfsView Site Exports Sessions Lio Snapshots Inventory DiskPages.
#[local] Open Scope string_scope.
#[local] Open Scope list_scope.
#[local] Open Scope N_scope.

(** ** Rows *)

Record PoolRow : Type := {
  rp_name : string; rp_size : string; rp_free : string; rp_used_percent : N; rp_frag : string; rp_health : string;
  rp_healthy : bool }.
(** [as u8] keeps the low byte. *)
Definition as_u8 (n : N) : N := n mod 256.
Definition pool_row_of (p : Pool) : PoolRow := {|
  rp_name := po_name p; rp_size := human_bytes (po_size p); rp_free := human_bytes (po_free p);
  rp_used_percent := as_u8 (saturating_mul 64 (raw (po_alloc p)) 100 / N.max (raw (po_size p)) 1);
  rp_frag := match po_frag_percent p with Some f => show_uint f +:+ "%" | None => en_dash end;
  rp_health := po_health p; rp_healthy := bool_decide (po_health p = "ONLINE") |}.
Record ZvolRow : Type := { rz_name : string; rz_pool : string; rz_rel : string; rz_used : string; rz_volsize : string }.
Record FsRow : Type := { rf_name : string; rf_used : string; rf_mountpoint : string; rf_mounted : bool; rf_mountable : bool }.
Record MemberRow : Type := {
  rm_name : string; rm_detail_url : option string; rm_class : string; rm_is_child : bool; rm_size : string; rm_health : string;
  rm_can_remove : bool; rm_can_detach : bool; rm_can_online : bool; rm_attach_target : option string }.
(** The last device of a name wins, as in a [HashMap]. *)
Definition device_detail_urls (l : list Disk) : gmap string string :=
  list_to_map (reverse (l ≫= λ d,
    ("/dev/" +:+ dk_name d, "/disks/" +:+ dk_name d) ::
    omap (λ p, (λ n, ("/dev/" +:+ pt_name p, "/disks/" +:+ dk_name d +:+ "/part/" +:+ show_uint n)) <$> pt_number p)
      (dk_partitions d))).
Definition is_device (name : string) : bool := is_ok (new NtDevicePath name).
Definition anchor_step (anchor : gmap string (string * bool)) (m : PoolMember) : gmap string (string * bool) :=
  match pm_parent m with
  | None => anchor
  | Some parent =>
      if negb (is_device (pm_name m)) then anchor
      else
        let online := bool_decide (pm_health m = Some "ONLINE") in
        match anchor !! parent with
        | Some (_, true) => anchor
        | Some (_, false) => if online then <[parent := (pm_name m, online)]> anchor else anchor
        | None => <[parent := (pm_name m, online)]> anchor
        end
  end.
Definition attach_anchor (members : list PoolMember) : gmap string string :=
  fst <$> foldl anchor_step ∅ (List.filter pm_is_leaf members).
Definition toplevel_data (m : PoolMember) : bool := bool_decide (pm_class m = ZfsView.Data) && is_none (pm_parent m).
Definition pool_has_raidz (members : list PoolMember) : bool :=
  existsb (λ m, toplevel_data m && negb (pm_is_leaf m) && (starts_with "raidz" (pm_name m) || starts_with "draid" (pm_name m))) members.
Definition data_toplevels (members : list PoolMember) : nat := length (List.filter toplevel_data members).
Definition attach_target (anchors : gmap string string) (m : PoolMember) : option string :=
  if negb (is_none (pm_parent m)) || match pm_class m with ZfsView.Cache | ZfsView.Spare => true | _ => false end then None
  else if negb (pm_is_leaf m) && starts_with "raidz" (pm_name m) then Some (pm_name m)
  else if negb (pm_is_leaf m) && starts_with "mirror-" (pm_name m) then anchors !! pm_name m
  else if pm_is_leaf m && is_device (pm_name m) then Some (pm_name m)
  else None.
Definition can_remove (has_raidz : bool) (toplevels : nat) (m : PoolMember) : bool :=
  is_none (pm_parent m) && is_ok (new NtVdevTarget (pm_name m)) &&
  match pm_class m with
  | ZfsView.Data => negb has_raidz && (1 <? N.of_nat toplevels) && (pm_is_leaf m || starts_with "mirror-" (pm_name m))
  | ZfsView.Log | ZfsView.Cache | ZfsView.Spare => true
  | ZfsView.Special | ZfsView.Dedup => negb has_raidz
  end.
Definition can_detach (m : PoolMember) : bool :=
  pm_is_leaf m && match pm_parent m with Some p => starts_with "mirror-" p | None => false end && is_device (pm_name m).
Definition can_online (m : PoolMember) : bool :=
  pm_is_leaf m && is_device (pm_name m) &&
  match pm_health m with
  | None => false
  | Some h => negb (bool_decide (h = "ONLINE") || bool_decide (h = "AVAIL"))
  end.
Definition member_label (c : MemberClass) : string :=
  match c with
  | ZfsView.Data => ""
  | ZfsView.Log => "log"
  | ZfsView.Cache => "cache"
  | ZfsView.Spare => "spare"
  | ZfsView.Special => "special"
  | ZfsView.Dedup => "dedup"
  end.
Definition member_row_of (members : list PoolMember) (dev_urls : gmap string string) (m : PoolMember) : MemberRow := {|
  rm_name := pm_name m; rm_detail_url := dev_urls !! pm_name m; rm_class := member_label (pm_class m);
  rm_is_child := negb (is_none (pm_parent m)); rm_size := match pm_size m with Some n => human_bytes n | None => en_dash end;
  rm_health := default en_dash (pm_health m); rm_can_remove := can_remove (pool_has_raidz members) (data_toplevels members) m;
  rm_can_detach := can_detach m; rm_can_online := can_online m; rm_attach_target := attach_target (attach_anchor members) m |}.
Definition member_rows (members : list PoolMember) (dev_urls : gmap string string) : list MemberRow :=
  member_row_of members dev_urls <$> members.

(** ** Property tables *)

Record PropertyTables : Type := { tb_curated : list (string * string); tb_all : list (string * string) }.
Definition no_tables : PropertyTables := {| tb_curated := []; tb_all := [] |}.
Definition POOL_PROPS : list string :=
  ["health"; "size"; "capacity"; "allocated"; "free"; "fragmentation"; "ashift"; "autotrim"; "autoexpand"; "autoreplace";
   "dedupratio"; "failmode"; "readonly"; "guid"].
Definition DATASET_PROPS : list string :=
  ["type"; "creation"; "used"; "available"; "referenced"; "compressratio"; "mountpoint"; "mounted"; "quota"; "refquota";
   "reservation"; "refreservation"; "recordsize"; "volsize"; "volblocksize"; "volmode"; "compression"; "atime"; "relatime";
   "dedup"; "sync"; "encryption"; "keystatus"; "readonly"; "snapdir"; "copies"; "written"].
Definition curate (all : list (string * string)) (keys : list string) : list (string * string) :=
  omap (λ k, List.find (λ pv, bool_decide (pv.1 = k)) all) keys.
Definition tables_of (keys : list string) (r : result string (option (list (string * string)))) : PropertyTables :=
  match r with
  | Ok (Some all) => {| tb_curated := curate all keys; tb_all := all |}
  | _ => no_tables
  end.
Record CompressionSection : Type := { cs_dataset : string; cs_page : string; cs_value : string; cs_source : string }.
Definition selected_compression (c : CompressionSection) : string :=
  if bool_decide (cs_source c = "local") then cs_value c else "".

(** ** Names *)

Definition pool_of (dataset : string) : string := default dataset (head (split "/" dataset)).
Definition zvol_rel (pool dataset : string) : string :=
  match strip_prefix pool dataset with
  | Some s => trim_start_matches "/" s
  | None => dataset
  end.

(** ** Views *)

Record ZfsIndex : Type := { zi_pools : list PoolRow; zi_not_installed : bool; zi_error : option string }.
Record DeviceOption : Type := { do_path : string; do_label : string; do_checked : bool }.
Record PoolCreateView : Type := { pc_devices : list DeviceOption; pc_not_installed : bool; pc_error : option string }.
Record PoolDetailView : Type := {
  pd_name : string; pd_pool : option PoolRow; pd_members : list MemberRow; pd_fs_rows : list FsRow; pd_parents : list string;
  pd_add_devices : list DeviceOption; pd_props : PropertyTables; pd_compression : option CompressionSection;
  pd_not_installed : bool; pd_error : option string; pd_notice : notice }.
Record ZvolDetailView : Type := {
  zd_pool : string; zd_name : string; zd_zvol : option ZvolRow; zd_props : PropertyTables;
  zd_compression : option CompressionSection; zd_not_installed : bool; zd_error : option string; zd_notice : notice }.
Record DatasetRow : Type := {
  rd_name : string; rd_kind : string; rd_used : string; rd_avail : string; rd_mountpoint : string; rd_mounted : bool }.
Record SnapRow : Type := { rs_name : string; rs_used : string; rs_created : string }.
Record DatasetDetailView : Type := {
  dd_name : string; dd_pool : string; dd_dataset : option DatasetRow; dd_zvols : list ZvolRow; dd_snapshots : list SnapRow;
  dd_props : PropertyTables; dd_not_installed : bool; dd_error : option string; dd_compression : option CompressionSection;
  dd_notice : notice }.
Definition unreadable (e : string) : string := "could not read ZFS state: " +:+ e.
(** [tokio::try_join!] of two and of three readings. *)
Definition try_join2 {A B} (a : result string A) (b : result string B) : result string (A * B) :=
  x ← a; y ← b; Ok (x, y).
Definition try_join3 {A B C} (a : result string A) (b : result string B) (c : result string C) : result string (A * B * C) :=
  x ← a; y ← b; z ← c; Ok (x, y, z).
Definition under (name : string) (d : Dataset) : bool := starts_with (name +:+ "/") (ds_name d).
Definition parents_of (name : string) (l : list Dataset) : list string :=
  ds_name <$> List.filter (λ d, bool_decide (ds_kind d = Filesystem) && (bool_decide (ds_name d = name) || under name d)) l.
Definition fs_rows_of (name : string) (l : list Dataset) : list FsRow :=
  (λ d, {| rf_name := ds_name d; rf_used := human_bytes (ds_used d); rf_mountpoint := ds_mountpoint d;
           rf_mounted := ds_mounted d; rf_mountable := negb (ds_mounted d) && starts_with "/" (ds_mountpoint d) |}) <$>
  List.filter (λ d, bool_decide (ds_kind d = Filesystem) && under name d) l.
Definition zvol_row (pool rel : string) (d : Dataset) : ZvolRow :=
  {| rz_name := ds_name d; rz_pool := pool; rz_rel := rel; rz_used := human_bytes (ds_used d);
     rz_volsize := match ds_volsize d with Some n => human_bytes n | None => "" end |}.
Definition dataset_row_of (d : Dataset) : DatasetRow :=
  {| rd_name := ds_name d; rd_kind := match ds_kind d with Filesystem => "filesystem" | Volume => "volume" end;
     rd_used := human_bytes (ds_used d); rd_avail := human_bytes (ds_avail d); rd_mountpoint := ds_mountpoint d;
     rd_mounted := ds_mounted d |}.
Definition snap_row `{Cron} (s : Snapshot) : SnapRow :=
  {| rs_name := sn_name s; rs_used := human_bytes (sn_used s); rs_created := fmt_time (sn_creation s) |}.
Definition snap_under (name : string) (s : Snapshot) : bool :=
  let ds := default (sn_name s) (head (split "@" (sn_name s))) in
  bool_decide (ds = name) || starts_with (name +:+ "/") ds.

Section pages.
Context {Q : Sqlite} {T : Clock} {R : RowCodec} {H : Helper}.
Context {Sh : Shell} {J : Tools} {SR : SmartRead} {C : Cron}.

Definition gather_zfs : hop ZfsIndex :=
  r ← on_host (λ n, pools n);
  mret match r with
       | Ok (Some l) => {| zi_pools := pool_row_of <$> l; zi_not_installed := false; zi_error := None |}
       | Ok None => {| zi_pools := []; zi_not_installed := true; zi_error := None |}
       | Err e => {| zi_pools := []; zi_not_installed := false; zi_error := Some (unreadable e) |}
       end.
Definition option_of (selected : gset string) (d : AvailDevice) : DeviceOption :=
  {| do_path := av_path d; do_label := av_label d; do_checked := bool_decide (av_path d ∈ selected) |}.
Definition gather_pool_create (selected : gset string) (error : option string) : hop PoolCreateView :=
  r ← on_host (λ n, pools n);
  match r with
  | Ok None => mret {| pc_devices := []; pc_not_installed := true; pc_error := error |}
  | _ =>
      in_use ← in_use_paths;
      available ← available_block_devices in_use;
      mret {| pc_devices := option_of selected <$> List.filter empty_raw available; pc_not_installed := false; pc_error := error |}
  end.
Definition compression_section (dataset page : string) : hop (option CompressionSection) :=
  r ← on_host (λ n, compression n dataset);
  mret match r with
       | Ok (Some (value, source)) => Some {| cs_dataset := dataset; cs_page := page; cs_value := value; cs_source := source |}
       | _ => None
       end.
Definition dataset_property_tables (name : string) (curated : list string) : hop PropertyTables :=
  tables_of curated <$> (on_host (λ n, dataset_properties n name)).
Definition pool_property_tables (name : string) : hop PropertyTables :=
  tables_of POOL_PROPS <$> (on_host (λ n, pool_properties n name)).

Definition gather_pool_detail (name : string) (nt : notice) : hop PoolDetailView :=
  let view pool members fs parents add props comp missing error :=
    {| pd_name := name; pd_pool := pool; pd_members := members; pd_fs_rows := fs; pd_parents := parents;
       pd_add_devices := add; pd_props := props; pd_compression := comp; pd_not_installed := missing; pd_error := error;
       pd_notice := nt |} in
  joined ← on_host (λ n, try_join3 (pools n) (datasets n) (pool_vdevs n));
  match joined with
  | Ok (Some ps, Some ds, Some vs) =>
      let pool := pool_row_of <$> List.find (λ p, bool_decide (po_name p = name)) ps in
      r ← disks;
      let urls := match r with Ok l => device_detail_urls l | Err _ => ∅ end in
      let members := member_rows (List.filter (λ m, bool_decide (pm_pool m = name)) vs) urls in
      let fs := fs_rows_of name ds in
      let parents := parents_of name ds in
      if is_none pool then mret (view pool members fs parents [] no_tables None false None)
      else
        props ← pool_property_tables name;
        comp ← compression_section name "pool";
        create ← gather_pool_create ∅ None;
        mret (view pool members fs parents (pc_devices create) props comp false None)
  | Ok _ => mret (view None [] [] [] [] no_tables None true None)
  | Err e => mret (view None [] [] [] [] no_tables None false (Some (unreadable e)))
  end.
Definition gather_zvol_detail (pool rest : string) (nt : notice) : hop ZvolDetailView :=
  let dataset := pool +:+ "/" +:+ rest in
  let view zvol props comp missing error :=
    {| zd_pool := pool; zd_name := dataset; zd_zvol := zvol; zd_props := props; zd_compression := comp;
       zd_not_installed := missing; zd_error := error; zd_notice := nt |} in
  r ← on_host (λ n, datasets n);
  match r with
  | Ok (Some ds) =>
      match List.find (λ d, bool_decide (ds_kind d = Volume) && bool_decide (ds_name d = dataset)) ds with
      | None => mret (view None no_tables None false None)
      | Some d =>
          props ← dataset_property_tables dataset DATASET_PROPS;
          comp ← compression_section dataset "zvol";
          mret (view (Some (zvol_row pool rest d)) props comp false None)
      end
  | Ok None => mret (view None no_tables None true None)
  | Err e => mret (view None no_tables None false (Some (unreadable e)))
  end.
Definition gather_dataset_detail (name : string) (nt : notice) : hop DatasetDetailView :=
  let view dataset zvols snaps props comp missing error :=
    {| dd_name := name; dd_pool := pool_of name; dd_dataset := dataset; dd_zvols := zvols; dd_snapshots := snaps;
       dd_props := props; dd_not_installed := missing; dd_error := error; dd_compression := comp; dd_notice := nt |} in
  joined ← on_host (λ n, try_join2 (datasets n) (snapshots n));
  match joined with
  | Ok (Some ds, Some ss) =>
      let zvols := (λ d, zvol_row (pool_of (ds_name d)) (zvol_rel (pool_of (ds_name d)) (ds_name d)) d) <$>
                   List.filter (λ d, bool_decide (ds_kind d = Volume) && under name d) ds in
      let snaps := snap_row <$> List.filter (snap_under name) ss in
      match List.find (λ d, bool_decide (ds_name d = name)) ds with
      | None => mret (view None zvols snaps no_tables None false None)
      | Some d =>
          props ← dataset_property_tables name DATASET_PROPS;
          comp ← compression_section name "dataset";
          mret (view (Some (dataset_row_of d)) zvols snaps props comp false None)
      end
  | Ok _ => mret (view None [] [] no_tables None true None)
  | Err e => mret (view None [] [] no_tables None false (Some (unreadable e)))
  end.

(** ** Compression, on any of the three pages *)

Inductive detail_page : Type := OnPool | OnDataset | OnZvol.
Inductive zfs_view : Type :=
| PoolView (v : PoolDetailView)
| DatasetView (v : DatasetDetailView)
| ZvolView (v : ZvolDetailView).
Definition gather_detail (p : detail_page) (dataset : string) (nt : notice) : hop zfs_view :=
  let pool := pool_of dataset in
  match p with
  | OnPool => PoolView <$> gather_pool_detail pool nt
  | OnDataset => DatasetView <$> gather_dataset_detail dataset nt
  | OnZvol => ZvolView <$> gather_zvol_detail pool (zvol_rel pool dataset) nt
  end.
Definition parse_prop {A} `{ZfsValue A} (value : string) : result string (option A) :=
  if is_empty value then Ok None
  else match parse_value value with
       | Some v => Ok (Some v)
       | None => Err ("invalid " +:+ PROP (A:=A) +:+ " " +:+ debug_str value)
       end.
Definition set_compression (dataset : string) (p : detail_page) (value : string) : hop zfs_view :=
  let page := gather_detail p dataset in
  match new NtDatasetName dataset with
  | Err _ => refused page "invalid dataset name"
  | Ok d =>
      match parse_prop (A:=Compression) value with
      | Err e => refused page e
      | Ok c =>
          run_on page "zfs-set-compression"
            ("set " +:+ as_str d +:+ " compression=" +:+ match c with Some c => keyword c | None => "inherit" end)
            (RZfsSetCompression {| zfs_set_compression_dataset := d; zfs_set_compression_compression := c |})
      end
  end.

(** ** Zvols *)

Record ZvolForm : Type := {
  zf_parent : string; zf_name : string; zf_size : string; zf_unit : string; zf_sparse : bool; zf_volblocksize : string;
  zf_compression : string; zf_sync : string; zf_volmode : string; zf_primarycache : string; zf_logbias : string }.
Definition zvol_request (f : ZvolForm) : result string ZvolCreate :=
  dataset ← map_err (λ _, "invalid zvol name " +:+ debug_str (zf_name f)) (new NtDatasetName (zf_parent f +:+ "/" +:+ trim (zf_name f)));
  size ← ok_or "invalid size" (parse_size (zf_size f) (zf_unit f));
  blocks ← (if is_empty (zf_volblocksize f) then Ok None
            else Some <$> ok_or "invalid volblocksize" (parse_uint 32 (zf_volblocksize f)));
  compression ← parse_prop (zf_compression f);
  sync ← parse_prop (zf_sync f);
  volmode ← parse_prop (zf_volmode f);
  cache ← parse_prop (zf_primarycache f);
  bias ← parse_prop (zf_logbias f);
  Ok {| zvol_create_dataset := dataset; zvol_create_size := size; zvol_create_volblocksize := blocks;
        zvol_create_sparse := zf_sparse f; zvol_create_compression := compression; zvol_create_sync := sync;
        zvol_create_volmode := volmode; zvol_create_primarycache := cache; zvol_create_logbias := bias |}.
Definition zvol_create (f : ZvolForm) : hop PoolDetailView :=
  let page := gather_pool_detail (pool_of (zf_parent f)) in
  match zvol_request f with
  | Err e => refused page e
  | Ok req => run_on page "zvol-create" ("create zvol " +:+ as_str (zvol_create_dataset req)) (RZvolCreate req)
  end.
Definition zvol_page (dataset : string) : notice → hop ZvolDetailView :=
  gather_zvol_detail (pool_of dataset) (zvol_rel (pool_of dataset) dataset).
Definition zvol_resize (dataset size unit : string) : hop ZvolDetailView :=
  let page := zvol_page dataset in
  match new NtDatasetName dataset with
  | Err _ => refused page "invalid dataset name"
  | Ok d =>
      match parse_size size unit with
      | None => refused page "invalid size"
      | Some n => run_on page "zvol-resize" ("resize " +:+ as_str d) (RZvolResize {| zvol_resize_dataset := d; zvol_resize_new_size := n |})
      end
  end.
Definition zvol_delete (headers : list (string * string)) (dataset : string) : hop (answer ZvolDetailView) :=
  let page := zvol_page dataset in
  match new NtDatasetName dataset with
  | Err _ => v ← refused page "invalid dataset name"; mret (Shown v)
  | Ok d =>
      leave_for (nav_redirect headers ("/zfs/pool/" +:+ pool_of dataset)) page "zvol-delete" ("delete " +:+ as_str d)
        (RZvolDelete {| zvol_delete_dataset := d |})
  end.

(** ** Filesystems *)

Definition fs_create (parent name mountpoint : string) : hop PoolDetailView :=
  let page := gather_pool_detail (pool_of parent) in
  match new NtDatasetName (parent +:+ "/" +:+ trim name) with
  | Err _ => refused page ("invalid dataset name " +:+ debug_str name)
  | Ok d =>
      let go mp := run_on page "fs-create" ("create filesystem " +:+ as_str d)
                     (RZfsFsCreate {| zfs_fs_create_dataset := d; zfs_fs_create_mountpoint := mp |}) in
      if is_empty (trim mountpoint) then go None
      else match new NtMountPoint (trim mountpoint) with
           | Ok mp => go (Some mp)
           | Err _ => refused page ("invalid mountpoint " +:+ debug_str (trim mountpoint))
           end
  end.
(** The forms that name a filesystem and nothing that can be wrong. *)
Definition on_dataset (dataset kind : string) (title : DatasetName → string) (req : DatasetName → request) : hop PoolDetailView :=
  let page := gather_pool_detail (pool_of dataset) in
  match new NtDatasetName dataset with
  | Err _ => refused page "invalid dataset name"
  | Ok d => run_on page kind (title d) (req d)
  end.
Definition fs_mount (dataset : string) : hop PoolDetailView :=
  on_dataset dataset "fs-mount" (λ d, "mount " +:+ as_str d) (λ d, RZfsMount {| zfs_mount_dataset := d |}).
Definition fs_unmount (dataset : string) : hop PoolDetailView :=
  on_dataset dataset "fs-unmount" (λ d, "unmount " +:+ as_str d) (λ d, RZfsUnmount {| zfs_unmount_dataset := d |}).
Definition fs_destroy (dataset : string) (recursive : bool) : hop PoolDetailView :=
  on_dataset dataset "fs-destroy" (λ d, "destroy " +:+ as_str d)
    (λ d, RZfsDestroy {| zfs_destroy_dataset := d; zfs_destroy_recursive := recursive |}).
Definition fs_set_mountpoint (dataset mountpoint : string) : hop PoolDetailView :=
  let page := gather_pool_detail (pool_of dataset) in
  match new NtDatasetName dataset with
  | Err _ => refused page "invalid dataset name"
  | Ok d =>
      match new NtMountPoint (trim mountpoint) with
      | Err _ => refused page ("invalid mountpoint " +:+ debug_str mountpoint)
      | Ok mp =>
          run_on page "fs-set-mountpoint" ("set " +:+ as_str d +:+ " mountpoint=" +:+ as_str mp)
            (RZfsSetMountpoint {| zfs_set_mountpoint_dataset := d; zfs_set_mountpoint_mountpoint := mp |})
      end
  end.

(** ** Devices of a pool *)

(** The devices ticked, in order; the first that is none is named. *)
Fixpoint device_paths (l : list string) : result string (list DevicePath) :=
  match l with
  | [] => Ok []
  | d :: l =>
      match new NtDevicePath (trim d) with
      | Err _ => Err ("invalid device " +:+ debug_str d)
      | Ok p => ps ← device_paths l; Ok (p :: ps)
      end
  end.
(** The last value of a key, and all of them. *)
Definition field (k : string) (fields : list (string * string)) : string :=
  default "" (last (omap (λ kv, if bool_decide (kv.1 = k) then Some kv.2 else None) fields)).
Definition field_all (k : string) (fields : list (string * string)) : list string :=
  omap (λ kv, if bool_decide (kv.1 = k) then Some kv.2 else None) fields.
Definition bad_pool (name : string) : string := "invalid pool name " +:+ debug_str name.
Definition vdev_request (name : string) (fields : list (string * string)) : result string PoolVdevAdd :=
  pool ← map_err (λ _, bad_pool name) (new NtPoolName (trim name));
  class ← ok_or "choose a vdev class" (parse_class (trim (field "class" fields)));
  layout ← ok_or "choose a vdev layout" (parse_layout (trim (field "layout" fields)));
  if negb (allows_layout class layout) then
    Err (class_label class +:+ " vdevs take a plain device list " +:+ em_dash +:+ " choose stripe")
  else
    devices ← device_paths (field_all "devices" fields);
    if no_devices devices then Err "choose at least one device"
    else if (length devices <? min_devices layout)%nat then
      Err (default "stripe" (layout_keyword layout) +:+ " needs at least " +:+ pretty (min_devices layout) +:+ " devices")
    else Ok {| pool_vdev_add_pool := pool; pool_vdev_add_class := class; pool_vdev_add_layout := layout; pool_vdev_add_devices := devices |}.
Definition pool_add_vdev (name : string) (fields : list (string * string)) : hop PoolDetailView :=
  let page := gather_pool_detail name in
  match vdev_request name fields with
  | Err e => refused page e
  | Ok req =>
      run_on page "pool-add-vdev" ("add " +:+ class_label (pool_vdev_add_class req) +:+ " vdev to " +:+ as_str (pool_vdev_add_pool req))
        (RPoolVdevAdd req)
  end.
Definition pool_attach_device (name target device : string) : hop PoolDetailView :=
  let page := gather_pool_detail name in
  match new NtPoolName (trim name), new NtVdevTarget (trim target), new NtDevicePath (trim device) with
  | Err _, _, _ => refused page (bad_pool name)
  | Ok _, Err _, _ => refused page ("invalid attach target " +:+ debug_str target)
  | Ok _, Ok _, Err _ => refused page ("invalid device " +:+ debug_str device)
  | Ok p, Ok t, Ok d =>
      run_on page "pool-attach" ("attach " +:+ as_str d +:+ " to " +:+ as_str t +:+ " in " +:+ as_str p)
        (RPoolDeviceAttach {| pool_device_attach_pool := p; pool_device_attach_target := t; pool_device_attach_device := d |})
  end.
Definition pool_remove_device (name target : string) : hop PoolDetailView :=
  let page := gather_pool_detail name in
  match new NtPoolName (trim name), new NtVdevTarget (trim target) with
  | Err _, _ => refused page (bad_pool name)
  | Ok _, Err _ => refused page ("invalid remove target " +:+ debug_str target)
  | Ok p, Ok t =>
      run_on page "pool-remove" ("remove " +:+ as_str t +:+ " from " +:+ as_str p)
        (RPoolDeviceRemove {| pool_device_remove_pool := p; pool_device_remove_target := t |})
  end.
Definition pool_detach_device (name device : string) : hop PoolDetailView :=
  let page := gather_pool_detail name in
  match new NtPoolName (trim name), new NtDevicePath (trim device) with
  | Err _, _ => refused page (bad_pool name)
  | Ok _, Err _ => refused page ("invalid device " +:+ debug_str device)
  | Ok p, Ok d =>
      run_on page "pool-detach" ("detach " +:+ as_str d +:+ " from " +:+ as_str p)
        (RPoolDeviceDetach {| pool_device_detach_pool := p; pool_device_detach_device := d |})
  end.
Definition pool_online_device (name device : string) : hop PoolDetailView :=
  let page := gather_pool_detail name in
  match new NtPoolName (trim name), new NtDevicePath (trim device) with
  | Err _, _ => refused page (bad_pool name)
  | Ok _, Err _ => refused page ("invalid device " +:+ debug_str device)
  | Ok p, Ok d =>
      run_on page "pool-online" ("online " +:+ as_str d +:+ " in " +:+ as_str p)
        (RPoolDeviceOnline {| pool_device_online_pool := p; pool_device_online_device := d |})
  end.

(** ** Creating a pool *)

Definition ashift_of (s : string) : result string (option u8) :=
  if is_empty (trim s) then Ok None
  else
    let bad := "ashift must be 9" +:+ en_dash +:+ "16" in
    match parse_uint 8 (trim s) with
    | Some n => if (9 <=? raw n) && (raw n <=? 16) then Ok (Some n) else Err bad
    | None => Err bad
    end.
Definition pool_request (fields : list (string * string)) : result string PoolCreate :=
  let name := field "name" fields in
  let vdev := field "vdev" fields in
  pool ← map_err (λ _, bad_pool name) (new NtPoolName (trim name));
  layout ← ok_or "choose a vdev layout" (parse_layout (trim vdev));
  devices ← device_paths (field_all "devices" fields);
  if (length devices <? min_devices layout)%nat then
    Err (vdev +:+ " needs at least " +:+ pretty (min_devices layout) +:+ " devices")
  else
    ashift ← ashift_of (field "ashift" fields);
    Ok {| pool_create_name := pool; pool_create_vdev := layout; pool_create_devices := devices; pool_create_ashift := ashift |}.
Definition pool_create_page (device : string) : hop PoolCreateView :=
  gather_pool_create (if is_empty device then ∅ else {[device]}) None.
Definition pool_create (headers fields : list (string * string)) : hop (answer PoolCreateView) :=
  let selected : gset string := list_to_set (field_all "devices" fields) in
  let page nt := gather_pool_create selected (nt_error nt) in
  match pool_request fields with
  | Err e => v ← refused page e; mret (Shown v)
  | Ok req =>
      leave_for (nav_redirect headers "/zfs") page "pool-create" ("create pool " +:+ as_str (pool_create_name req)) (RPoolCreate req)
  end.
End pages.
