(* ===== verification/LvmPages.v ===== *)
(** * The LVM pages (greendot-web/src/routes/lvm.rs)

    Volume groups, physical volumes and logical volumes, and the forms on their
    pages. Reading them goes through the helper; as in ZfsPages.v, of two failed
    readings the first one's error is shown. *)
From Stdlib Require Import Ascii String.
From stdpp Require Import base option list strings sets gmap pretty.
From S2P Require Import Prelude Ordered Validate IpAddr Types Wire Ops Desired Task Replies Fs Store Tasks ZfsView Site Exports Sessions Lio Snapshots Inventory DiskPages ZfsPages.
#[local] Open Scope string_scope.
#[local] Open Scope list_scope.
#[local] Open Scope N_scope.

(** ** Rows *)

Definition used_percent (size free : u64) : N :=
  as_u8 (saturating_mul 64 (saturating_sub (raw size) (raw free)) 100 / N.max (raw size) 1).
Record VgRow : Type := {
  rv_name : string; rv_size : string; rv_free : string; rv_used_percent : N; rv_pv_count : u64; rv_lv_count : u64 }.
Definition vg_row (v : Vg) : VgRow := {|
  rv_name := vg_name v; rv_size := human_bytes (vg_size v); rv_free := human_bytes (vg_free v);
  rv_used_percent := used_percent (vg_size v) (vg_free v); rv_pv_count := vg_pv_count v; rv_lv_count := vg_lv_count v |}.
Record PvRow : Type := {
  rq_name : string; rq_path_id : string; rq_vg : string; rq_size : string; rq_free : string; rq_in_vg : bool }.
Definition pv_row (p : Pv) : PvRow := {|
  rq_name := pv_name p; rq_path_id := trim_start_matches "/" (pv_name p); rq_vg := default en_dash (pv_vg p);
  rq_size := human_bytes (pv_size p); rq_free := human_bytes (pv_free p); rq_in_vg := negb (is_none (pv_vg p)) |}.
Record LvRow : Type := {
  rl_vg : string; rl_name : string; rl_full_name : string; rl_size : string; rl_type_label : string; rl_pool : string;
  rl_data_percent : string }.
Definition lv_row (l : Lv) : LvRow := {|
  rl_vg := lv_vg l; rl_name := lv_name l; rl_full_name := lv_vg l +:+ "/" +:+ lv_name l; rl_size := human_bytes (lv_size l);
  rl_type_label := match lv_kind l with Linear => "linear" | ThinPool => "thin pool" | Thin => "thin" end;
  rl_pool := default "" (lv_pool l);
  rl_data_percent := match lv_data_percent l with Some p => fixed1 p +:+ "%" | None => "" end |}.

(** ** Views *)

Record LvmView : Type := {
  lm_vgs : list VgRow; lm_pvs : list PvRow; lm_not_installed : bool; lm_error : option string; lm_notice : notice }.
Record VgDetailView : Type := {
  gv_name : string; gv_vg : option VgRow; gv_lvs : list LvRow; gv_thin_pools : list string;
  gv_extend_devices : list DeviceOption; gv_not_installed : bool; gv_error : option string; gv_notice : notice }.
Record LvDetailView : Type := {
  gl_vg : string; gl_name : string; gl_lv : option LvRow; gl_not_installed : bool; gl_error : option string; gl_notice : notice }.
Record PvDetailView : Type := { gp_pv : option PvRow; gp_not_installed : bool; gp_error : option string; gp_notice : notice }.
Record VgCreateView : Type := { gc_devices : list DeviceOption; gc_not_installed : bool; gc_error : option string }.
Definition lvm_unreadable (e : string) : string := "could not read LVM state: " +:+ e.
(** A new PV must be an empty disk or partition. *)
Definition empty_disk (d : AvailDevice) : bool :=
  match av_kind d with AvWholeDisk | AvPartition => true | _ => false end && is_none (av_fstype d).
Definition thin_pools_of (vg : string) (l : list Lv) : list string :=
  (λ l, lv_vg l +:+ "/" +:+ lv_name l) <$>
  List.filter (λ l, bool_decide (lv_vg l = vg) && bool_decide (lv_kind l = ThinPool)) l.

Section pages.
Context {Q : Sqlite} {T : Clock} {R : RowCodec} {H : Helper}.
Context {Sh : Shell} {J : Tools}.

Definition gather_lvm (n : notice) : hop LvmView :=
  let view vgs pvs missing error :=
    {| lm_vgs := vgs; lm_pvs := pvs; lm_not_installed := missing; lm_error := error; lm_notice := n |} in
  vgs ← volume_groups;
  pvs ← physical_volumes;
  mret match try_join2 vgs pvs with
       | Err e => view [] [] false (Some (lvm_unreadable e))
       | Ok (Some vgs, Some pvs) => view (vg_row <$> vgs) (pv_row <$> pvs) false None
       | Ok _ => view [] [] true None
       end.
Definition empty_disks (selected : gset string) : hop (list DeviceOption) :=
  in_use ← in_use_paths;
  available ← available_block_devices in_use;
  mret (option_of selected <$> List.filter empty_disk available).
Definition gather_vg_detail (name : string) (n : notice) : hop VgDetailView :=
  let view vg lvs thin ext missing error :=
    {| gv_name := name; gv_vg := vg; gv_lvs := lvs; gv_thin_pools := thin; gv_extend_devices := ext;
       gv_not_installed := missing; gv_error := error; gv_notice := n |} in
  vgs ← volume_groups;
  lvs ← logical_volumes;
  match try_join2 vgs lvs with
  | Err e => mret (view None [] [] [] false (Some (lvm_unreadable e)))
  | Ok (Some vgs, Some lvs) =>
      let vg := List.find (λ v, bool_decide (vg_name v = name)) vgs in
      ext ← (if is_none vg then mret [] else empty_disks ∅);
      mret (view (vg_row <$> vg) (lv_row <$> List.filter (λ l, bool_decide (lv_vg l = name)) lvs) (thin_pools_of name lvs) ext
              false None)
  | Ok _ => mret (view None [] [] [] true None)
  end.
Definition gather_lv_detail (vg name : string) (n : notice) : hop LvDetailView :=
  let view lv missing error :=
    {| gl_vg := vg; gl_name := name; gl_lv := lv; gl_not_installed := missing; gl_error := error; gl_notice := n |} in
  r ← logical_volumes;
  mret match r with
       | Ok (Some lvs) =>
           view (lv_row <$> List.find (λ l, bool_decide (lv_vg l = vg) && bool_decide (lv_name l = name)) lvs) false None
       | Ok None => view None true None
       | Err e => view None false (Some (lvm_unreadable e))
       end.
Definition gather_pv_detail (device : string) (n : notice) : hop PvDetailView :=
  let view pv missing error := {| gp_pv := pv; gp_not_installed := missing; gp_error := error; gp_notice := n |} in
  r ← physical_volumes;
  mret match r with
       | Ok (Some pvs) => view (pv_row <$> List.find (λ p, bool_decide (pv_name p = device)) pvs) false None
       | Ok None => view None true None
       | Err e => view None false (Some (lvm_unreadable e))
       end.
(** The route drops the leading slash of the device. *)
Definition pv_detail_page (id : string) : hop PvDetailView := gather_pv_detail ("/" +:+ id) quiet.
Definition gather_vg_create (selected : gset string) (error : option string) : hop VgCreateView :=
  vgs ← volume_groups;
  match vgs with
  | Ok None => mret {| gc_devices := []; gc_not_installed := true; gc_error := error |}
  | _ => l ← empty_disks selected; mret {| gc_devices := l; gc_not_installed := false; gc_error := error |}
  end.

(** ** Logical volumes *)

Record LvForm : Type := {
  lf_vg : string; lf_name : string; lf_size : string; lf_unit : string; lf_thin : bool; lf_pool : string }.
Definition lv_request (f : LvForm) : result string (request * string) :=
  name ← map_err (λ _, "invalid LV name " +:+ debug_str (lf_name f)) (new NtLvName (trim (lf_name f)));
  size ← ok_or "invalid size" (parse_size (lf_size f) (lf_unit f));
  if lf_thin f then
    '(vg, pool) ← ok_or "choose a thin pool" (split_once "/" (lf_pool f));
    match new NtVgName vg, new NtLvName pool with
    | Ok vg, Ok pool =>
        Ok (RThinLvCreate {| thin_lv_create_vg := vg; thin_lv_create_pool := pool; thin_lv_create_name := name;
                             thin_lv_create_virtual_size := size |},
            "create thin volume " +:+ as_str vg +:+ "/" +:+ as_str name)
    | _, _ => Err "invalid thin pool"
    end
  else
    vg ← map_err (λ _, "choose a volume group") (new NtVgName (trim (lf_vg f)));
    Ok (RLvCreate {| lv_create_vg := vg; lv_create_name := name; lv_create_size := size |},
        "create LV " +:+ as_str vg +:+ "/" +:+ as_str name).
Definition lv_create (f : LvForm) : hop VgDetailView :=
  let page := gather_vg_detail (trim (lf_vg f)) in
  match lv_request f with
  | Err e => refused page e
  | Ok (req, title) => run_on page "lv-create" title req
  end.
Definition thin_pool_create (vg name size unit : string) : hop VgDetailView :=
  let page := gather_vg_detail (trim vg) in
  match new NtVgName (trim vg), new NtLvName (trim name) with
  | Ok v, Ok n =>
      match parse_size size unit with
      | None => refused page "invalid size"
      | Some b =>
          run_on page "thin-pool-create" ("create thin pool " +:+ as_str v +:+ "/" +:+ as_str n)
            (RThinPoolCreate {| thin_pool_create_vg := v; thin_pool_create_name := n; thin_pool_create_size := b |})
      end
  | _, _ => refused page "invalid thin pool name"
  end.
Definition parse_lv_resize (vg name size unit : string) : result string (VgName * LvName * u64) :=
  v ← map_err (λ _, "invalid volume group") (new NtVgName (trim vg));
  n ← map_err (λ _, "invalid logical volume") (new NtLvName (trim name));
  b ← ok_or "invalid size" (parse_size size unit);
  Ok (v, n, b).
Definition lv_page (vg name : string) : notice → hop LvDetailView := gather_lv_detail (trim vg) (trim name).
Definition lv_resize (vg name size unit : string) : hop LvDetailView :=
  match parse_lv_resize vg name size unit with
  | Err e => refused (lv_page vg name) e
  | Ok (v, n, b) =>
      run_on (lv_page vg name) "lv-resize" ("grow " +:+ as_str v +:+ "/" +:+ as_str n)
        (RLvResize {| lv_resize_vg := v; lv_resize_name := n; lv_resize_new_size := b |})
  end.
Definition lv_shrink (vg name size unit : string) : hop LvDetailView :=
  match parse_lv_resize vg name size unit with
  | Err e => refused (lv_page vg name) e
  | Ok (v, n, b) =>
      run_on (lv_page vg name) "lv-shrink" ("shrink " +:+ as_str v +:+ "/" +:+ as_str n)
        (RLvShrink {| lv_shrink_vg := v; lv_shrink_name := n; lv_shrink_new_size := b |})
  end.
(** A renamed volume is shown under its new name. *)
Definition lv_rename (vg name new_name : string) : hop LvDetailView :=
  match new NtVgName (trim vg), new NtLvName (trim name), new NtLvName (trim new_name) with
  | Ok v, Ok n, Ok m =>
      run_on (gather_lv_detail (trim vg) (as_str m)) "lv-rename"
        ("rename " +:+ as_str v +:+ "/" +:+ as_str n +:+ " to " +:+ as_str m)
        (RLvRename {| lv_rename_vg := v; lv_rename_name := n; lv_rename_new_name := m |})
  | _, _, _ => refused (lv_page vg name) ("invalid name " +:+ debug_str new_name)
  end.
Definition lv_delete (headers : list (string * string)) (vg name : string) : hop (answer LvDetailView) :=
  match new NtVgName (trim vg), new NtLvName (trim name) with
  | Ok v, Ok n =>
      leave_for (nav_redirect headers ("/lvm/vg/" +:+ trim vg)) (lv_page vg name) "lv-delete"
        ("delete " +:+ as_str v +:+ "/" +:+ as_str n) (RLvDelete {| lv_delete_vg := v; lv_delete_name := n |})
  | _, _ => v ← refused (lv_page vg name) "invalid logical volume"; mret (Shown v)
  end.

(** ** Volume groups *)

Definition vg_extend (vg device : string) : hop VgDetailView :=
  let page := gather_vg_detail (trim vg) in
  match new NtVgName (trim vg), new NtDevicePath (trim device) with
  | Ok v, Ok d =>
      run_on page "vg-extend" ("extend " +:+ as_str v +:+ " with " +:+ as_str d)
        (RVgExtend {| vg_extend_vg := v; vg_extend_device := d |})
  | _, _ => refused page "invalid volume group or device"
  end.
Definition vg_reduce (headers : list (string * string)) (vg device : string) : hop (answer PvDetailView) :=
  let page := gather_pv_detail (trim device) in
  match new NtVgName (trim vg), new NtDevicePath (trim device) with
  | Ok v, Ok d =>
      leave_for (nav_redirect headers "/lvm") page "vg-reduce" ("remove " +:+ as_str d +:+ " from " +:+ as_str v)
        (RVgReduce {| vg_reduce_vg := v; vg_reduce_device := d |})
  | _, _ => v ← refused page "invalid volume group or device"; mret (Shown v)
  end.
Definition vg_remove (headers : list (string * string)) (vg : string) : hop (answer VgDetailView) :=
  let page := gather_vg_detail (trim vg) in
  match new NtVgName (trim vg) with
  | Ok v =>
      leave_for (nav_redirect headers "/lvm") page "vg-remove" ("remove volume group " +:+ as_str v)
        (RVgRemove {| vg_remove_vg := v |})
  | Err _ => v ← refused page "invalid volume group"; mret (Shown v)
  end.
Definition vg_request (fields : list (string * string)) : result string VgCreate :=
  let name := field "name" fields in
  vg ← map_err (λ _, "invalid VG name " +:+ debug_str name) (new NtVgName (trim name));
  devices ← device_paths (field_all "devices" fields);
  if no_devices devices then Err "select at least one device"
  else Ok {| vg_create_name := vg; vg_create_devices := devices |}.
Definition vg_create_page (device : string) : hop VgCreateView :=
  gather_vg_create (if is_empty device then ∅ else {[device]}) None.
Definition vg_create (headers fields : list (string * string)) : hop (answer VgCreateView) :=
  let selected : gset string := list_to_set (field_all "devices" fields) in
  let page nt := gather_vg_create selected (nt_error nt) in
  match vg_request fields with
  | Err e => v ← refused page e; mret (Shown v)
  | Ok req =>
      leave_for (nav_redirect headers "/lvm") page "vg-create" ("create volume group " +:+ as_str (vg_create_name req))
        (RVgCreate req)
  end.
End pages.
