(* ===== verification/StorageFacts.v ===== *)
(** * The storage forms: what they ask the helper for, and what they offer

    A form either is turned down with a message and nothing happens, or exactly the
    request it describes is sent and recorded as a task. The devices offered are
    the free ones, and the actions offered on a pool's devices lead
    through form and ingress to the command they stand for. *)
From Stdlib Require Import Ascii String.
From stdpp Require Import base option list strings sets gmap pretty.
From S2P Require Import Prelude TasksFacts ExportsFacts SnapshotFacts Ordered Validate IpAddr Types Wire Ops Desired Task World Commands Replies Fs Store Tasks ZfsView Site Exports Sessions Lio Snapshots Inventory DiskPages ZfsPages LvmPages.
#[local] Open Scope string_scope.
#[local] Open Scope list_scope.
#[local] Open Scope N_scope.

(** ** The forms *)

Inductive storage_form : Type :=
| FTable (disk : string)
| FPart (disk size unit label : string)
| FPartDelete (disk : string) (number : u32)
| FPartShrink (disk : string) (number : u32) (size unit : string)
| FCompression (dataset : string) (p : detail_page) (value : string)
| FZvol (f : ZvolForm)
| FZvolResize (dataset size unit : string)
| FZvolDelete (dataset : string)
| FFs (parent name mountpoint : string)
| FFsMount (dataset : string)
| FFsUnmount (dataset : string)
| FFsMountpoint (dataset mountpoint : string)
| FFsDestroy (dataset : string) (recursive : bool)
| FVdev (pool : string) (fields : list (string * string))
| FAttach (pool target device : string)
| FRemove (pool target : string)
| FDetach (pool device : string)
| FOnline (pool device : string)
| FPool (fields : list (string * string))
| FLv (f : LvForm)
| FThinPool (vg name size unit : string)
| FLvResize (vg name size unit : string)
| FLvShrink (vg name size unit : string)
| FLvRename (vg name new_name : string)
| FLvDelete (vg name : string)
| FVgExtend (vg device : string)
| FVgReduce (vg device : string)
| FVgRemove (vg : string)
| FVg (fields : list (string * string)).
(** The pages they are answered with, and the message on each. *)
Inductive storage_page : Type :=
| PgDisk (v : DiskDetailView) | PgPart (v : PartDetailView) | PgZfs (v : zfs_view) | PgPoolCreate (v : PoolCreateView)
| PgVg (v : VgDetailView) | PgLv (v : LvDetailView) | PgPv (v : PvDetailView) | PgVgCreate (v : VgCreateView).
Definition zfs_error (v : zfs_view) : option string :=
  nt_error match v with PoolView v => pd_notice v | DatasetView v => dd_notice v | ZvolView v => zd_notice v end.
Definition page_error (p : storage_page) : option string :=
  match p with
  | PgDisk v => nt_error (vd_notice v)
  | PgPart v => nt_error (vp_notice v)
  | PgZfs v => zfs_error v
  | PgPoolCreate v => pc_error v
  | PgVg v => nt_error (gv_notice v)
  | PgLv v => nt_error (gl_notice v)
  | PgPv v => nt_error (gp_notice v)
  | PgVgCreate v => gc_error v
  end.
Definition answer_map {A B} (f : A → B) (a : answer A) : answer B :=
  match a with Shown v => Shown (f v) | Moved n => Moved n end.

Section forms.
Context {Q : Sqlite} {T : Clock} {R : RowCodec} {H : Helper}.
Context {Sh : Shell} {J : Tools} {SR : SmartRead} {C : Cron}.
Context (headers : list (string * string)).

(** The routes of the three modules. *)
Definition submit (f : storage_form) : hop (answer storage_page) :=
  let disk v := Shown (PgDisk v) in
  let part v := Shown (PgPart v) in
  let pool v := Shown (PgZfs (PoolView v)) in
  let zvol v := PgZfs (ZvolView v) in
  match f with
  | FTable d => disk <$> table_create d
  | FPart d size unit label => disk <$> part_create d size unit label
  | FPartDelete d n => answer_map PgPart <$> part_delete headers d n
  | FPartShrink d n size unit => part <$> part_shrink d n size unit
  | FCompression ds p v => (λ v, Shown (PgZfs v)) <$> set_compression ds p v
  | FZvol f => pool <$> ZfsPages.zvol_create f
  | FZvolResize ds size unit => (λ v, Shown (zvol v)) <$> ZfsPages.zvol_resize ds size unit
  | FZvolDelete ds => answer_map zvol <$> ZfsPages.zvol_delete headers ds
  | FFs parent name mp => pool <$> fs_create parent name mp
  | FFsMount ds => pool <$> fs_mount ds
  | FFsUnmount ds => pool <$> fs_unmount ds
  | FFsMountpoint ds mp => pool <$> fs_set_mountpoint ds mp
  | FFsDestroy ds r => pool <$> fs_destroy ds r
  | FVdev p fields => pool <$> pool_add_vdev p fields
  | FAttach p t d => pool <$> pool_attach_device p t d
  | FRemove p t => pool <$> pool_remove_device p t
  | FDetach p d => pool <$> pool_detach_device p d
  | FOnline p d => pool <$> pool_online_device p d
  | FPool fields => answer_map PgPoolCreate <$> ZfsPages.pool_create headers fields
  | FLv f => (λ v, Shown (PgVg v)) <$> LvmPages.lv_create f
  | FThinPool vg n size unit => (λ v, Shown (PgVg v)) <$> LvmPages.thin_pool_create vg n size unit
  | FLvResize vg n size unit => (λ v, Shown (PgLv v)) <$> LvmPages.lv_resize vg n size unit
  | FLvShrink vg n size unit => (λ v, Shown (PgLv v)) <$> LvmPages.lv_shrink vg n size unit
  | FLvRename vg n m => (λ v, Shown (PgLv v)) <$> LvmPages.lv_rename vg n m
  | FLvDelete vg n => answer_map PgLv <$> LvmPages.lv_delete headers vg n
  | FVgExtend vg d => (λ v, Shown (PgVg v)) <$> LvmPages.vg_extend vg d
  | FVgReduce vg d => answer_map PgPv <$> LvmPages.vg_reduce headers vg d
  | FVgRemove vg => answer_map PgVg <$> LvmPages.vg_remove headers vg
  | FVg fields => answer_map PgVgCreate <$> LvmPages.vg_create headers fields
  end.

(** ** Pages only read *)

Definition is_read (r : request) : bool :=
  match r with RLvmReportOp _ | RSmartReport _ | RSmartHealth _ => true | _ => false end.
Definition only_read (s s' : site) : Prop :=
  st_web s' = st_web s ∧ st_jobs s' = st_jobs s ∧ ∃ l, st_sent s' = st_sent s ++ l ∧ Forall is_read l.
(** [m] only reads, does not fail otherwise than by a panic, and yields a [P]. *)
Definition reads {A} (P : A → Prop) (m : hop A) : Prop := ∀ s r s', m s = (r, s') →
  only_read s s' ∧ match r with Ok a => P a | Err (Panicked _) => True | Err (Bail _) => False end.
Lemma only_read_refl s : only_read s s.
Proof. split_and!; [done|done|]. exists []. by rewrite app_nil_r. Qed.
Lemma only_read_trans s1 s2 s3 : only_read s1 s2 → only_read s2 s3 → only_read s1 s3.
Proof.
  intros (W1 & J1 & l1 & E1 & F1) (W2 & J2 & l2 & E2 & F2). split_and!; [congruence|congruence|].
  exists (l1 ++ l2). rewrite E2, E1, app_assoc. split; [done|by apply Forall_app].
Qed.
Lemma reads_ret {A} (P : A → Prop) a : P a → reads P (mret a).
Proof. intros Ha s r s' [= <- <-]. split; [apply only_read_refl|done]. Qed.
Lemma reads_bind {A B} (P : A → Prop) (Q' : B → Prop) (m : hop A) (f : A → hop B) :
  reads P m → (∀ a, P a → reads Q' (f a)) → reads Q' (m ≫= f).
Proof.
  intros Hm Hf s r s'. unfold mbind, hop_bind. destruct (m s) as [[a|e] s1] eqn:E; apply Hm in E as [E1 E2]; intros Hr.
  - apply (Hf a E2) in Hr as [Hr1 Hr2]. split; [by eapply only_read_trans|done].
  - by injection Hr as <- <-.
Qed.
Lemma reads_fmap {A B} (P : B → Prop) (f : A → B) (m : hop A) : reads (λ a, P (f a)) m → reads P (f <$> m).
Proof. intros Hm s r s'. unfold fmap, hop_fmap. destruct (m s) as [[a|e] s1] eqn:E; apply Hm in E; by intros [= <- <-]. Qed.
Lemma reads_weaken {A} (P P' : A → Prop) m : reads P m → (∀ a, P a → P' a) → reads P' m.
Proof. intros Hm HP s r s' E. apply Hm in E as [E1 E2]. split; [done|]. destruct r as [a|[]]; auto. Qed.
Lemma reads_host {A} (f : nat → A) : reads (λ _, True) (on_host f).
Proof. intros s r s' [= <- <-]. split; [apply only_read_refl|done]. Qed.
Lemma reads_config : reads (λ _, True) get_config.
Proof. intros s r s' [= <- <-]. split; [apply only_read_refl|done]. Qed.
Lemma reads_panics {A} (p : panics A) : reads (λ _, True) (hop_panics p).
Proof. intros s r s'. unfold hop_panics. destruct p; intros [= <- <-]; (split; [apply only_read_refl|done]). Qed.
Lemma only_read_sent s r : is_read r → only_read s {| st_web := st_web s; st_sent := st_sent s ++ [r]; st_jobs := st_jobs s |}.
Proof. intros Hr. split_and!; [done|done|]. exists [r]. split; [done|by repeat constructor]. Qed.
Lemma reads_send r : is_read r → reads (λ _, True) (send r).
Proof. intros Hr s x s' [= <- <-]. split; [by apply only_read_sent|done]. Qed.
Lemma reads_health l : reads (λ _, True) (health l).
Proof. destruct l; [by apply reads_ret|]. intros s r s' [= <- <-]. split; [by apply only_read_sent|done]. Qed.

Create HintDb reads.
#[local] Hint Resolve reads_host reads_config reads_panics reads_health : reads.
Ltac reads_step :=
  lazymatch goal with
  | |- reads _ (mret _) => apply reads_ret
  | |- reads _ (send _) => apply reads_send
  | |- reads _ (_ <$> _) => apply reads_fmap
  | |- reads _ (_ ≫= _) => eapply (reads_bind (λ _, True)); [|intros ? _]
  | |- reads _ (match ?x with _ => _ end) => destruct x
  | |- reads _ (let '(_, _) := ?x in _) => destruct x
  | |- reads (λ _, True) _ => solve [auto with reads]
  end.
Ltac reading := repeat (reads_step; try done); try done; try (repeat case_match; done).
Lemma reads_disks : reads (λ _, True) disks.
Proof. apply reads_host. Qed.
Lemma reads_in_use : reads (λ _, True) in_use_paths.
Proof. unfold in_use_paths. reading. Qed.
Lemma reads_reported {A} (parse : string → result string A) what : reads (λ _, True) (reported parse what).
Proof. unfold reported, report. reading. Qed.
#[local] Hint Resolve reads_disks reads_in_use : reads.
#[local] Hint Extern 1 (reads _ volume_groups) => apply reads_reported : reads.
#[local] Hint Extern 1 (reads _ logical_volumes) => apply reads_reported : reads.
#[local] Hint Extern 1 (reads _ physical_volumes) => apply reads_reported : reads.
Lemma reads_available in_use : reads (λ _, True) (available_block_devices in_use).
Proof. unfold available_block_devices. reading. Qed.
#[local] Hint Resolve reads_available : reads.
Lemma reads_context l : reads (λ _, True) (device_context l).
Proof. unfold device_context. reading. Qed.
Lemma reads_smart d : reads (λ _, True) (smart_report d).
Proof. unfold smart_report. reading. Qed.
Lemma reads_empty_disks selected : reads (λ _, True) (empty_disks selected).
Proof. unfold empty_disks. reading. Qed.
Lemma reads_compression d p : reads (λ _, True) (compression_section d p).
Proof. unfold compression_section. reading. Qed.
Lemma reads_dataset_tables d p : reads (λ _, True) (dataset_property_tables d p).
Proof. unfold dataset_property_tables. reading. Qed.
Lemma reads_pool_tables d : reads (λ _, True) (pool_property_tables d).
Proof. unfold pool_property_tables. reading. Qed.
#[local] Hint Resolve reads_context reads_smart reads_empty_disks reads_compression reads_dataset_tables reads_pool_tables : reads.

(** A page that shows the message it is given. *)
Definition renders {V} (error : V → option string) (g : notice → hop V) : Prop :=
  ∀ n, reads (λ v, error v = nt_error n) (g n).
Lemma renders_disk name : renders (λ v, nt_error (vd_notice v)) (gather_disk_detail name).
Proof. intros n. unfold gather_disk_detail. reading. Qed.
Lemma renders_part disk number : renders (λ v, nt_error (vp_notice v)) (gather_part_detail disk number).
Proof. intros n. unfold gather_part_detail. reading. Qed.
Lemma reads_pool_create selected e : reads (λ v, pc_error v = e) (gather_pool_create selected e).
Proof. unfold gather_pool_create. reading. Qed.
Lemma reads_pool_create' selected e : reads (λ _, True) (gather_pool_create selected e).
Proof. eapply reads_weaken; [apply reads_pool_create|done]. Qed.
#[local] Hint Resolve reads_pool_create' : reads.
Lemma renders_pool name : renders (λ v, nt_error (pd_notice v)) (gather_pool_detail name).
Proof. intros n. unfold gather_pool_detail. reading. Qed.
Lemma renders_zvol pool rest : renders (λ v, nt_error (zd_notice v)) (gather_zvol_detail pool rest).
Proof. intros n. unfold gather_zvol_detail. reading. Qed.
Lemma renders_dataset name : renders (λ v, nt_error (dd_notice v)) (gather_dataset_detail name).
Proof. intros n. unfold gather_dataset_detail. reading. Qed.
Lemma renders_detail p dataset : renders zfs_error (gather_detail p dataset).
Proof.
  intros n. unfold gather_detail. destruct p; apply reads_fmap; [apply renders_pool|apply renders_dataset|apply renders_zvol].
Qed.
Lemma renders_vg name : renders (λ v, nt_error (gv_notice v)) (gather_vg_detail name).
Proof. intros n. unfold gather_vg_detail. reading. Qed.
Lemma renders_lv vg name : renders (λ v, nt_error (gl_notice v)) (gather_lv_detail vg name).
Proof. intros n. unfold gather_lv_detail. reading. Qed.
Lemma renders_pv device : renders (λ v, nt_error (gp_notice v)) (gather_pv_detail device).
Proof. intros n. unfold gather_pv_detail. reading. Qed.
Lemma renders_vg_create selected : renders gc_error (λ n, gather_vg_create selected (nt_error n)).
Proof. intros n. unfold gather_vg_create. reading. Qed.
Lemma renders_pool_create selected : renders pc_error (λ n, gather_pool_create selected (nt_error n)).
Proof. intros n. apply reads_pool_create. Qed.

(** ** What a form asks for *)

Definition amount (value unit : string) (b : u64) : Prop :=
  ∃ v m, parse_uint 64 (trim value) = Some v ∧ (unit, m) ∈ [("MiB", 2 ^ 20); ("GiB", 2 ^ 30); ("TiB", 2 ^ 40)] ∧
    raw b = raw v * m ∧ 0 < raw b.
(** A property left empty is inherited; otherwise it is one of its keywords. *)
Definition chosen {A} `{ZfsValue A} (value : string) (o : option A) : Prop :=
  match o with
  | None => value = ""
  | Some v => value ≠ "" ∧ v ∈ ALL ∧ keyword v = value
  end.
Definition ticked (fields : list (string * string)) (l : list DevicePath) : Prop :=
  Forall2 (λ d p, as_str p = trim d) (field_all "devices" fields) l.
(** The partition a disk listing has under a disk and a number. *)
Definition listed (l : result string (list Disk)) (disk : string) (number : u32) (p : Partition) : Prop :=
  ∃ ds d, l = Ok ds ∧ disk_named disk ds = Some d ∧ part_numbered number (dk_partitions d) = Some p.
Inductive asks (l : result string (list Disk)) : storage_form → request → Prop :=
| ask_table disk d : as_str d = trim disk → asks l (FTable disk) (RPartitionTableCreate {| partition_table_create_disk := d |})
| ask_part disk size unit label d lb sectors :
    as_str d = trim disk → as_str lb = trim label →
    match sectors with
    | None => trim size = ""
    | Some n => trim size ≠ "" ∧ ∃ b, amount (trim size) unit b ∧ raw n = raw b / 512
    end →
    asks l (FPart disk size unit label)
      (RPartitionCreate {| partition_create_disk := d; partition_create_start_sector := None;
                           partition_create_size_sectors := sectors; partition_create_label := lb |})
| ask_part_delete disk number d :
    as_str d = trim disk →
    asks l (FPartDelete disk number) (RPartitionDelete {| partition_delete_disk := d; partition_delete_number := number |})
| ask_part_shrink disk number size unit d b p n :
    as_str d = trim disk → amount size unit b → (2 ^ 20 | raw b) → listed l (as_str d) number p →
    (∀ reason, shrinkability (pt_fstype p) (negb (is_none (pt_mountpoint p))) ≠ ShNo reason) →
    raw n = raw b / 512 → raw n < raw (pt_size p) / 512 →
    asks l (FPartShrink disk number size unit)
      (RPartitionShrink {| partition_shrink_disk := d; partition_shrink_number := number; partition_shrink_size_sectors := n |})
| ask_compression dataset p value d c :
    as_str d = dataset → chosen value c →
    asks l (FCompression dataset p value) (RZfsSetCompression {| zfs_set_compression_dataset := d; zfs_set_compression_compression := c |})
| ask_zvol f d n blocks c sy vm pc lb :
    as_str d = zf_parent f +:+ "/" +:+ trim (zf_name f) → amount (zf_size f) (zf_unit f) n →
    match blocks with
    | None => zf_volblocksize f = ""
    | Some b => zf_volblocksize f ≠ "" ∧ parse_uint 32 (zf_volblocksize f) = Some b
    end →
    chosen (zf_compression f) c → chosen (zf_sync f) sy → chosen (zf_volmode f) vm → chosen (zf_primarycache f) pc →
    chosen (zf_logbias f) lb →
    asks l (FZvol f)
      (RZvolCreate {| zvol_create_dataset := d; zvol_create_size := n; zvol_create_volblocksize := blocks;
                      zvol_create_sparse := zf_sparse f; zvol_create_compression := c; zvol_create_sync := sy;
                      zvol_create_volmode := vm; zvol_create_primarycache := pc; zvol_create_logbias := lb |})
| ask_zvol_resize dataset size unit d b :
    as_str d = dataset → amount size unit b →
    asks l (FZvolResize dataset size unit) (RZvolResize {| zvol_resize_dataset := d; zvol_resize_new_size := b |})
| ask_zvol_delete dataset d : as_str d = dataset → asks l (FZvolDelete dataset) (RZvolDelete {| zvol_delete_dataset := d |})
| ask_fs parent name mountpoint d mp :
    as_str d = parent +:+ "/" +:+ trim name →
    match mp with None => trim mountpoint = "" | Some m => trim mountpoint ≠ "" ∧ as_str m = trim mountpoint end →
    asks l (FFs parent name mountpoint) (RZfsFsCreate {| zfs_fs_create_dataset := d; zfs_fs_create_mountpoint := mp |})
| ask_fs_mount dataset d : as_str d = dataset → asks l (FFsMount dataset) (RZfsMount {| zfs_mount_dataset := d |})
| ask_fs_unmount dataset d : as_str d = dataset → asks l (FFsUnmount dataset) (RZfsUnmount {| zfs_unmount_dataset := d |})
| ask_fs_mountpoint dataset mountpoint d mp :
    as_str d = dataset → as_str mp = trim mountpoint →
    asks l (FFsMountpoint dataset mountpoint)
      (RZfsSetMountpoint {| zfs_set_mountpoint_dataset := d; zfs_set_mountpoint_mountpoint := mp |})
| ask_fs_destroy dataset r d :
    as_str d = dataset → asks l (FFsDestroy dataset r) (RZfsDestroy {| zfs_destroy_dataset := d; zfs_destroy_recursive := r |})
| ask_vdev pool fields p class layout devices :
    as_str p = trim pool → parse_class (trim (field "class" fields)) = Some class →
    parse_layout (trim (field "layout" fields)) = Some layout → allows_layout class layout = true → ticked fields devices →
    devices ≠ [] → (min_devices layout <= length devices)%nat →
    asks l (FVdev pool fields)
      (RPoolVdevAdd {| pool_vdev_add_pool := p; pool_vdev_add_class := class; pool_vdev_add_layout := layout;
                       pool_vdev_add_devices := devices |})
| ask_attach pool target device p t d :
    as_str p = trim pool → as_str t = trim target → as_str d = trim device →
    asks l (FAttach pool target device)
      (RPoolDeviceAttach {| pool_device_attach_pool := p; pool_device_attach_target := t; pool_device_attach_device := d |})
| ask_remove pool target p t :
    as_str p = trim pool → as_str t = trim target →
    asks l (FRemove pool target) (RPoolDeviceRemove {| pool_device_remove_pool := p; pool_device_remove_target := t |})
| ask_detach pool device p d :
    as_str p = trim pool → as_str d = trim device →
    asks l (FDetach pool device) (RPoolDeviceDetach {| pool_device_detach_pool := p; pool_device_detach_device := d |})
| ask_online pool device p d :
    as_str p = trim pool → as_str d = trim device →
    asks l (FOnline pool device) (RPoolDeviceOnline {| pool_device_online_pool := p; pool_device_online_device := d |})
| ask_pool fields p layout devices ashift :
    as_str p = trim (field "name" fields) → parse_layout (trim (field "vdev" fields)) = Some layout → ticked fields devices →
    (min_devices layout <= length devices)%nat →
    match ashift with
    | None => trim (field "ashift" fields) = ""
    | Some n => trim (field "ashift" fields) ≠ "" ∧ parse_uint 8 (trim (field "ashift" fields)) = Some n ∧ 9 <= raw n ∧ raw n <= 16
    end →
    asks l (FPool fields)
      (RPoolCreate {| pool_create_name := p; pool_create_vdev := layout; pool_create_devices := devices; pool_create_ashift := ashift |})
| ask_lv f v n b :
    lf_thin f = false → as_str v = trim (lf_vg f) → as_str n = trim (lf_name f) → amount (lf_size f) (lf_unit f) b →
    asks l (FLv f) (RLvCreate {| lv_create_vg := v; lv_create_name := n; lv_create_size := b |})
| ask_thin_lv f v p n b :
    lf_thin f = true → split_once "/" (lf_pool f) = Some (as_str v, as_str p) → as_str n = trim (lf_name f) →
    amount (lf_size f) (lf_unit f) b →
    asks l (FLv f)
      (RThinLvCreate {| thin_lv_create_vg := v; thin_lv_create_pool := p; thin_lv_create_name := n; thin_lv_create_virtual_size := b |})
| ask_thin_pool vg name size unit v n b :
    as_str v = trim vg → as_str n = trim name → amount size unit b →
    asks l (FThinPool vg name size unit)
      (RThinPoolCreate {| thin_pool_create_vg := v; thin_pool_create_name := n; thin_pool_create_size := b |})
| ask_lv_resize vg name size unit v n b :
    as_str v = trim vg → as_str n = trim name → amount size unit b →
    asks l (FLvResize vg name size unit) (RLvResize {| lv_resize_vg := v; lv_resize_name := n; lv_resize_new_size := b |})
| ask_lv_shrink vg name size unit v n b :
    as_str v = trim vg → as_str n = trim name → amount size unit b →
    asks l (FLvShrink vg name size unit) (RLvShrink {| lv_shrink_vg := v; lv_shrink_name := n; lv_shrink_new_size := b |})
| ask_lv_rename vg name new_name v n m :
    as_str v = trim vg → as_str n = trim name → as_str m = trim new_name →
    asks l (FLvRename vg name new_name) (RLvRename {| lv_rename_vg := v; lv_rename_name := n; lv_rename_new_name := m |})
| ask_lv_delete vg name v n :
    as_str v = trim vg → as_str n = trim name →
    asks l (FLvDelete vg name) (RLvDelete {| lv_delete_vg := v; lv_delete_name := n |})
| ask_vg_extend vg device v d :
    as_str v = trim vg → as_str d = trim device →
    asks l (FVgExtend vg device) (RVgExtend {| vg_extend_vg := v; vg_extend_device := d |})
| ask_vg_reduce vg device v d :
    as_str v = trim vg → as_str d = trim device →
    asks l (FVgReduce vg device) (RVgReduce {| vg_reduce_vg := v; vg_reduce_device := d |})
| ask_vg_remove vg v : as_str v = trim vg → asks l (FVgRemove vg) (RVgRemove {| vg_remove_vg := v |})
| ask_vg fields v devices :
    as_str v = trim (field "name" fields) → ticked fields devices → devices ≠ [] →
    asks l (FVg fields) (RVgCreate {| vg_create_name := v; vg_create_devices := devices |}).

(** ** Sizes, properties and devices as the forms read them *)

Lemma parse_size_amount value unit b : parse_size value unit = Some b ↔ amount value unit b.
Proof.
  unfold parse_size, amount, unit_bytes. split.
  - intros Hp. apply bind_Some in Hp as (v & Hv & Hp). apply bind_Some in Hp as (m & Hm & Hp).
    apply bind_Some in Hp as (b' & Hb & Hp). apply refine_Some in Hb. case_match eqn:Hpos; [|done]. injection Hp as <-.
    exists v, m. split_and!; [done| |done|by apply N.ltb_lt].
    repeat case_bool_decide; simplify_eq; rewrite !elem_of_cons; auto.
  - intros (v & m & -> & Hin & Hb & Hpos). apply refine_Some in Hb. apply N.ltb_lt in Hpos.
    rewrite !elem_of_cons, elem_of_nil in Hin.
    destruct Hin as [Hin|[Hin|[Hin|[]]]]; injection Hin as -> ->; cbn [mbind option_bind bool_decide];
      repeat first [rewrite bool_decide_true by done|rewrite bool_decide_false by done]; cbn [mbind option_bind]; rewrite Hb; cbn [mbind option_bind]; by rewrite Hpos.
Qed.
Lemma parse_prop_chosen {A} `{ZfsValueLaw A} value (o : option A) : parse_prop value = Ok o ↔ chosen value o.
Proof.
  unfold parse_prop, chosen, parse_value. destruct (is_empty value) eqn:Ee.
  - destruct value; [|done]. split; [by intros [= <-]|]. destruct o as [v|]; [by intros (? & _)|done].
  - assert (Hne : value ≠ "") by (by intros ->). destruct (List.find _ ALL) as [v|] eqn:Ef.
    + apply find_some in Ef as [Hin Hk]. apply bool_decide_eq_true in Hk. split.
      * intros [= <-]. split_and!; [done|by apply list_elem_of_In|done].
      * destruct o as [w|]; [|done]. intros (_ & _ & Hw). do 2 f_equal. apply (inj Some). rewrite <-!(parse_keyword). congruence.
    + split; [done|]. destruct o as [w|]; [|done]. intros (_ & Hin & Hw). pose proof (find_none _ _ Ef w) as Hn.
      rewrite <-list_elem_of_In in Hn. specialize (Hn Hin). by rewrite bool_decide_eq_false in Hn.
Qed.
Lemma device_paths_ticked l ps : device_paths l = Ok ps ↔ Forall2 (λ d p, as_str p = trim d) l ps.
Proof.
  revert ps. induction l as [|d l IH]; intros ps; cbn [device_paths].
  - split; [by intros [= <-]|]. by inversion 1.
  - destruct (new NtDevicePath (trim d)) as [p|e] eqn:E.
    + apply new_Ok in E. split.
      * intros Hp. apply bind_Ok in Hp as (ps' & Hps & [= <-]). constructor; [done|by apply IH].
      * intros Hf. inversion Hf as [|? p' ? ps' Hp' Hps]; subst. apply IH in Hps. rewrite Hps. cbn. do 2 f_equal.
        apply raw_inj. change (as_str p = as_str p'). by rewrite E, Hp'.
    + split; [done|]. inversion 1 as [|? p' ? ps' Hp' Hps]; subst. apply new_Ok in Hp'. congruence.
Qed.

(** ** Sent and recorded, or turned down *)

(** The request went out, then its task was recorded and its stream left to a
    background task; if it could not be recorded, the page says why. *)
Definition dispatched (kind title : string) (req : request) (s : site) (r : result fault (answer storage_page)) (s' : site) : Prop :=
  (∃ l, st_sent s' = st_sent s ++ req :: l ∧ Forall is_read l) ∧
  match begin_task kind title (st_web s) with
  | (Ok id, w) => st_web s' = w ∧ st_jobs s' = st_jobs s ++ [StreamJob id (helper_stream (task_call (st_sent s) req))]
  | (Err e, w) => st_web s' = w ∧ st_jobs s' = st_jobs s ∧
      ∀ msg a, e = Bail msg → r = Ok a → ∃ p, a = Shown p ∧ page_error p = Some msg
  end.
Definition declined (s : site) (r : result fault (answer storage_page)) (s' : site) : Prop :=
  only_read s s' ∧ ∃ msg, ∀ a, r = Ok a → ∃ p, a = Shown p ∧ page_error p = Some msg.
Lemma refused_declined {V} (error : V → option string) (wrap : V → storage_page) (g : notice → hop V) msg s r s' :
  renders error g → (∀ v, page_error (wrap v) = error v) →
  ((λ v, Shown (wrap v)) <$> refused g msg) s = (r, s') → declined s r s'.
Proof.
  intros Hg Hw. unfold fmap, hop_fmap, refused. destruct (g (failed msg) s) as [[v|e] s1] eqn:E; apply Hg in E as [E1 E2]; intros [= <- <-];
    (split; [done|]); exists msg; [|done]. intros a [= <-]. exists (wrap v). by rewrite Hw.
Qed.
Lemma refused_declined' {V} (error : V → option string) (wrap : V → storage_page) (g : notice → hop V) msg s r s' :
  renders error g → (∀ v, page_error (wrap v) = error v) →
  (answer_map wrap <$> (v ← refused g msg; mret (Shown v))) s = (r, s') → declined s r s'.
Proof.
  intros Hg Hw Hr. apply (refused_declined error wrap g msg); [done|done|]. revert Hr.
  unfold fmap, hop_fmap, refused, mbind, hop_bind. by destruct (g (failed msg) s) as [[v|e] s1].
Qed.
Lemma start_run kind title req s :
  start kind title req s =
    match begin_task kind title (st_web s) with
    | (Ok id, w) => (Ok id, {| st_web := w; st_sent := st_sent s ++ [req];
                               st_jobs := st_jobs s ++ [StreamJob id (helper_stream (task_call (st_sent s) req))] |})
    | (Err e, w) => (Err e, {| st_web := w; st_sent := st_sent s ++ [req]; st_jobs := st_jobs s |})
    end.
Proof.
  unfold start, send, mbind, hop_bind, on_web, spawn. cbn. by destruct (begin_task kind title (st_web s)) as [[id|e] w].
Qed.
(** A page shown after the request was sent. *)
Lemma shown_dispatched {V} (error : V → option string) (wrap : V → storage_page) (g : notice → hop V) n kind title req s s1 r0 r s' :
  renders error g → (∀ v, page_error (wrap v) = error v) → start kind title req s = (r0, s1) →
  (∀ msg, r0 = Err (Bail msg) → nt_error n = Some msg) → (∀ p, r0 = Err (Panicked p) → False) →
  g n s1 = (r, s') →
  dispatched kind title req s (match r with Ok v => Ok (Shown (wrap v)) | Err e => Err e end) s'.
Proof.
  intros Hg Hw Hs Hb Hp Hr. apply Hg in Hr as [(W & Jb & l & Hl & Hreads) Hv]. rewrite start_run in Hs. unfold dispatched.
  destruct (begin_task kind title (st_web s)) as [[id|e] w]; injection Hs as <- <-; cbn in *.
  - split; [|done]. exists l. by rewrite Hl, <-app_assoc.
  - split; [exists l; by rewrite Hl, <-app_assoc|]. split_and!; [done|done|]. intros msg a -> Ha. destruct r as [v|]; [|done].
    injection Ha as <-. exists (wrap v). by rewrite Hw, Hv, (Hb msg).
Qed.
Lemma panicked_dispatched kind title req s p s1 :
  start kind title req s = (Err (Panicked p), s1) → dispatched kind title req s (Err (Panicked p)) s1.
Proof.
  rewrite start_run. unfold dispatched. destruct (begin_task kind title (st_web s)) as [[id|e] w]; intros [= -> <-]. split; [by exists []|done].
Qed.
Lemma run_on_dispatched {V} (error : V → option string) (wrap : V → storage_page) (g : notice → hop V) kind title req s r s' :
  renders error g → (∀ v, page_error (wrap v) = error v) →
  ((λ v, Shown (wrap v)) <$> run_on g kind title req) s = (r, s') → dispatched kind title req s r s'.
Proof.
  intros Hg Hw. unfold fmap, hop_fmap, run_on, mbind, hop_bind, hop_try. destruct (start kind title req s) as [[id|[msg|p]] s1] eqn:Es.
  3:{ intros [= <- <-]. by apply panicked_dispatched. }
  all: destruct (g _ s1) as [r1 s2] eqn:Eg.
  1: pose proof (shown_dispatched _ wrap _ _ _ _ _ _ _ _ _ _ Hg Hw Es ltac:(done) ltac:(done) Eg).
  2: pose proof (shown_dispatched _ wrap _ (failed msg) _ _ _ _ _ _ _ _ Hg Hw Es ltac:(by intros ? [= <-]) ltac:(done) Eg).
  all: by destruct r1; intros [= <- <-].
Qed.
Lemma leave_for_dispatched {V} (error : V → option string) (wrap : V → storage_page) to (g : notice → hop V) kind title req s r s' :
  renders error g → (∀ v, page_error (wrap v) = error v) →
  (answer_map wrap <$> leave_for to g kind title req) s = (r, s') → dispatched kind title req s r s'.
Proof.
  intros Hg Hw. unfold fmap, hop_fmap, leave_for, mbind, hop_bind, hop_try. destruct (start kind title req s) as [[id|[msg|p]] s1] eqn:Es.
  3:{ intros [= <- <-]. by apply panicked_dispatched. }
  - intros [= <- <-]. rewrite start_run in Es. unfold dispatched.
    destruct (begin_task kind title (st_web s)) as [[i|e] w]; [|done]. injection Es as <- <-. split; [by exists []|done].
  - destruct (g _ s1) as [r1 s2] eqn:Eg.
    pose proof (shown_dispatched _ wrap _ (failed msg) _ _ _ _ _ _ _ _ Hg Hw Es ltac:(by intros ? [= <-]) ltac:(done) Eg).
    by destruct r1; intros [= <- <-].
Qed.

Definition result_of (l : result string (list Disk)) (f : storage_form) (s : site) (r : result fault (answer storage_page)) (s' : site) : Prop :=
  (∃ kind title req, asks l f req ∧ dispatched kind title req s r s') ∨ ((∀ req, ¬ asks l f req) ∧ declined s r s').
(** A name that does not validate is not the text of any valid name. *)
Lemma no_name k x e (v : vstring k) : new k x = Err e → as_str v = x → False.
Proof. intros He Hv. apply new_Ok in Hv. congruence. Qed.
#[local] Hint Resolve renders_disk renders_part renders_pool renders_zvol renders_dataset renders_detail renders_vg renders_lv renders_pv
  renders_vg_create renders_pool_create : core.
Ltac names := repeat lazymatch goal with H : new _ _ = Ok _ |- _ => apply new_Ok in H | H : parse_size _ _ = Some _ |- _ => apply parse_size_amount in H end.
Ltac impossible :=
  let req := fresh in let Ha := fresh in intros req Ha; inversion Ha; subst;
  repeat match goal with
         | H : new ?k ?x = Err _, H' : as_str _ = ?x |- _ => exfalso; exact (no_name _ _ _ _ H H')
         | H : new _ (as_str _) = Err _ |- _ => rewrite new_as_str in H; discriminate
         | H : parse_size _ _ = None, H' : amount _ _ _ |- _ => apply parse_size_amount in H'; congruence
         | H : parse_prop _ = Err _, H' : chosen _ _ |- _ => apply parse_prop_chosen in H'; congruence
         end.
Ltac turned_down Hr :=
  right; split; [try (by impossible)|first [eapply refused_declined; [..|exact Hr]; by eauto|eapply refused_declined'; [..|exact Hr]; by eauto]].
Ltac sent Hr :=
  left; eexists _, _, _; split;
  [|first [eapply run_on_dispatched; [..|exact Hr]; by eauto|eapply leave_for_dispatched; [..|exact Hr]; by eauto]];
  names; try (by econstructor).
(** The branches of a handler. *)
Ltac branches Hr :=
  repeat lazymatch type of Hr with
         | (_ <$> (match ?x with _ => _ end)) _ = _ => destruct x eqn:?
         end.
Ltac plain_form :=
  let Hr := fresh "Hr" in intros Hr; branches Hr; first [by sent Hr|by turned_down Hr].

(** The requests assembled from many fields. *)
Lemma ok_or_ok {E A} (e : E) (o : option A) a : ok_or e o = Ok a ↔ o = Some a.
Proof. destruct o; cbn; split; congruence. Qed.
Lemma map_err_ok {E E' A} (f : E → E') (r : result E A) a : map_err f r = Ok a ↔ r = Ok a.
Proof. destruct r; cbn; split; congruence. Qed.
Lemma zvol_request_asks l f req : zvol_request f = Ok req ↔ asks l (FZvol f) (RZvolCreate req).
Proof.
  unfold zvol_request. split.
  - intros Hr. apply bind_Ok in Hr as (d & Hd & Hr). apply map_err_ok, new_Ok in Hd.
    apply bind_Ok in Hr as (n & Hn & Hr). apply ok_or_ok, parse_size_amount in Hn.
    apply bind_Ok in Hr as (b & Hb & Hr).
    apply bind_Ok in Hr as (c & Hc%parse_prop_chosen & Hr). apply bind_Ok in Hr as (sy & Hsy%parse_prop_chosen & Hr).
    apply bind_Ok in Hr as (vm & Hvm%parse_prop_chosen & Hr). apply bind_Ok in Hr as (pc & Hpc%parse_prop_chosen & Hr).
    apply bind_Ok in Hr as (lb & Hlb%parse_prop_chosen & Hr). injection Hr as <-. constructor; try done.
    destruct (zf_volblocksize f) as [|x t] eqn:Eb; cbn in Hb; [by injection Hb as <-|].
    destruct (parse_uint 32 (String x t)) eqn:Ep; [|done]. injection Hb as <-. done.
  - inversion 1 as [ | | | | |f' d n b c sy vm pc lb Hd Hn Hb Hc Hsy Hvm Hpc Hlb| | | | | | | | | | | | | | | | | | | | | | | | ]; subst.
    apply new_Ok in Hd. rewrite Hd. cbn. apply parse_size_amount in Hn. rewrite Hn. cbn.
    apply parse_prop_chosen in Hc, Hsy, Hvm, Hpc, Hlb. rewrite Hc, Hsy, Hvm, Hpc, Hlb.
    destruct b as [b|]; [destruct Hb as [Hne Hb]|]; [|by rewrite Hb].
    destruct (zf_volblocksize f) as [|x t]; [done|]. cbn [is_empty]. by rewrite Hb.
Qed.
Ltac back :=
  let Ha := fresh in intros Ha; inversion Ha; subst; clear Ha;
  repeat (match goal with
          | H : as_str _ = _ |- _ => apply new_Ok in H; rewrite H; clear H
          | H : amount _ _ _ |- _ => apply parse_size_amount in H; rewrite H; clear H
          | H : ticked _ _ |- _ => apply device_paths_ticked in H; rewrite H; clear H
          | H : parse_class _ = Some _ |- _ => rewrite H; clear H
          | H : parse_layout _ = Some _ |- _ => rewrite H; clear H
          | H : allows_layout _ _ = true |- _ => rewrite H; clear H
          end; cbn [mbind result_bind map_err ok_or negb]).
Lemma no_devices_nil {A} (l : list A) : no_devices l = false ↔ l ≠ [].
Proof. by destruct l. Qed.
Lemma vdev_request_asks l name fields req : vdev_request name fields = Ok req ↔ asks l (FVdev name fields) (RPoolVdevAdd req).
Proof.
  unfold vdev_request. split.
  - intros Hr. apply bind_Ok in Hr as (p & Hp & Hr). apply map_err_ok, new_Ok in Hp.
    apply bind_Ok in Hr as (c & Hc%ok_or_ok & Hr). apply bind_Ok in Hr as (la & Hla%ok_or_ok & Hr).
    destruct (negb (allows_layout c la)) eqn:Ea; [done|]. apply negb_false_iff in Ea.
    apply bind_Ok in Hr as (ds & Hds%device_paths_ticked & Hr). destruct (no_devices ds) eqn:En; [done|].
    destruct (length ds <? min_devices la)%nat eqn:El; [done|]. injection Hr as <-. apply Nat.ltb_ge in El.
    constructor; try done. by apply no_devices_nil.
  - back. rewrite (proj2 (no_devices_nil _)) by done. by rewrite (proj2 (Nat.ltb_ge _ _)).
Qed.
Lemma ashift_spec s o : ashift_of s = Ok o ↔
  match o with None => trim s = "" | Some n => trim s ≠ "" ∧ parse_uint 8 (trim s) = Some n ∧ 9 <= raw n ∧ raw n <= 16 end.
Proof.
  unfold ashift_of. destruct (trim s) as [|c t] eqn:Et; cbn [is_empty].
  - split; [by intros [= <-]|]. destruct o; [by intros [? _]|done].
  - destruct (parse_uint 8 (String c t)) as [n|]; [|split; [done|destruct o; naive_solver]].
    destruct ((9 <=? raw n) && (raw n <=? 16)) eqn:E.
    + apply andb_true_iff in E as [E1%N.leb_le E2%N.leb_le]. split; [by intros [= <-]|]. destruct o; [|done]. by intros (_ & [= <-] & _).
    + split; [done|]. destruct o; [|done]. intros (_ & [= <-] & H1%N.leb_le & H2%N.leb_le). by rewrite H1, H2 in E.
Qed.
Lemma pool_request_asks l fields req : pool_request fields = Ok req ↔ asks l (FPool fields) (RPoolCreate req).
Proof.
  unfold pool_request. split.
  - intros Hr. apply bind_Ok in Hr as (p & Hp & Hr). apply map_err_ok, new_Ok in Hp.
    apply bind_Ok in Hr as (la & Hla%ok_or_ok & Hr). apply bind_Ok in Hr as (ds & Hds%device_paths_ticked & Hr).
    destruct (length ds <? min_devices la)%nat eqn:El; [done|]. apply Nat.ltb_ge in El.
    apply bind_Ok in Hr as (a & Ha%ashift_spec & Hr). injection Hr as <-. by constructor.
  - back. rewrite (proj2 (Nat.ltb_ge _ _)) by done.
    lazymatch goal with H : match _ with _ => _ end |- _ => apply ashift_spec in H; by rewrite H end.
Qed.
Lemma vg_request_asks l fields req : vg_request fields = Ok req ↔ asks l (FVg fields) (RVgCreate req).
Proof.
  unfold vg_request. split.
  - intros Hr. apply bind_Ok in Hr as (p & Hp & Hr). apply map_err_ok, new_Ok in Hp.
    apply bind_Ok in Hr as (ds & Hds%device_paths_ticked & Hr). destruct (no_devices ds) eqn:En; [done|].
    injection Hr as <-. constructor; try done. by apply no_devices_nil.
  - back. by rewrite (proj2 (no_devices_nil _)).
Qed.
Lemma lv_request_asks l f req : (∃ title, lv_request f = Ok (req, title)) ↔ asks l (FLv f) req.
Proof.
  unfold lv_request. split.
  - intros [title Hr]. apply bind_Ok in Hr as (n & Hn & Hr). apply map_err_ok, new_Ok in Hn.
    apply bind_Ok in Hr as (b & Hb & Hr). apply ok_or_ok, parse_size_amount in Hb. destruct (lf_thin f) eqn:Et.
    + apply bind_Ok in Hr as ([vg pool] & Hs%ok_or_ok & Hr). destruct (new NtVgName vg) as [v|] eqn:Ev; [|done].
      destruct (new NtLvName pool) as [p|] eqn:Ep; [|done]. injection Hr as <- _. apply new_Ok in Ev as <-. apply new_Ok in Ep as <-. by constructor.
    + apply bind_Ok in Hr as (v & Hv & Hr). apply map_err_ok, new_Ok in Hv. injection Hr as <- _. by constructor.
  - intros Ha. inversion Ha as [| | | | | | | | | | | | | | | | | | |f' v n b Ht Hv Hn Hb|f' v p n b Ht Hs Hn Hb| | | | | | | | | ]; subst;
      apply new_Ok in Hn; apply parse_size_amount in Hb; rewrite Hn, Hb, Ht; cbn [mbind result_bind map_err ok_or].
    + apply new_Ok in Hv. rewrite Hv. by eexists.
    + rewrite Hs. cbn [mbind result_bind ok_or]. rewrite !new_as_str. by eexists.
Qed.
Lemma div_uint_raw (b : u64) : raw (div_uint b 512) = raw b / 512.
Proof.
  unfold div_uint. destruct (refine (fits 64) (raw b / 512)) eqn:E; [by apply refine_Some in E|].
  apply refine_None in E. exfalso. apply E. apply fits_spec. pose proof (uint_lt b). apply N.Div0.div_lt_upper_bound. lia.
Qed.
Lemma sectors_spec size unit o : sectors_of size unit = Some o ↔
  match o with None => trim size = "" | Some n => trim size ≠ "" ∧ ∃ b, amount (trim size) unit b ∧ raw n = raw b / 512 end.
Proof.
  unfold sectors_of. destruct (trim size) as [|c t] eqn:Et; cbn [is_empty].
  - split; [by intros [= <-]|]. destruct o; [by intros [? _]|done].
  - destruct (parse_size (String c t) unit) as [b|] eqn:E; cbn.
    + apply parse_size_amount in E as Ea. split.
      * intros [= <-]. split; [done|]. exists b. by rewrite div_uint_raw.
      * destruct o as [n|]; [|done]. intros (_ & b' & Hb'%parse_size_amount & Hn). rewrite E in Hb'. injection Hb' as <-.
        do 2 f_equal. apply raw_inj. by rewrite div_uint_raw.
    + split; [done|]. destruct o as [n|]; [|done]. intros (_ & b' & Hb'%parse_size_amount & _). congruence.
Qed.
(** What the gate of the shrink form lets through. *)
Lemma shrink_gate_spec d number bytes ds device :
  shrink_gate d number bytes ds = Ok device →
  ∃ p, listed (Ok ds) (as_str d) number p ∧ device = "/dev/" +:+ pt_name p ∧ raw bytes / 512 < raw (pt_size p) / 512 ∧
    ∀ reason, shrinkability (pt_fstype p) (negb (is_none (pt_mountpoint p))) ≠ ShNo reason.
Proof.
  unfold shrink_gate. destruct (disk_named _ ds ≫= _) as [p|] eqn:E; [|done]. apply bind_Some in E as (x & Hx & Hp).
  destruct (_ <=? _) eqn:Eq; [done|]. apply N.leb_gt in Eq. intros Hr. exists p. split; [by exists ds, x|].
  destruct (shrinkability _ _); try done; by injection Hr as <-.
Qed.
Lemma shrink_gate_refuses d number bytes ds e p :
  shrink_gate d number bytes ds = Err e → listed (Ok ds) (as_str d) number p →
  (∀ reason, shrinkability (pt_fstype p) (negb (is_none (pt_mountpoint p))) ≠ ShNo reason) → ¬ raw bytes / 512 < raw (pt_size p) / 512.
Proof.
  unfold shrink_gate. intros Hr (ds' & x & [= <-] & Hx & Hp) Hs. rewrite Hx in Hr. cbn in Hr. rewrite Hp in Hr.
  destruct (_ <=? _) eqn:Eq; [apply N.leb_le in Eq; lia|]. destruct (shrinkability _ _) eqn:Es; try done. by destruct (Hs reason).
Qed.
Lemma shrink_form disk number size unit s r s' :
  submit (FPartShrink disk number size unit) s = (r, s') →
  result_of (disks_at (length (st_sent s))) (FPartShrink disk number size unit) s r s'.
Proof.
  cbn [submit]. unfold part_shrink. intros Hr. branches Hr; try (by turned_down Hr).
  { turned_down Hr. impossible. rewrite negb_true_iff, N.eqb_neq in *.
    lazymatch goal with H : (_ | raw ?b), H' : amount _ _ ?b |- _ => apply parse_size_amount in H'; simplify_eq; apply N.Lcm0.mod_divide in H end. done. }
  assert (Eh : ∀ A (w : PartDetailView → A) k, (w <$> (disks ≫= k)) s = (w <$> k (disks_at (length (st_sent s)))) s) by done.
  rewrite Eh in Hr. clear Eh. rewrite negb_false_iff, N.eqb_eq in *. branches Hr.
  - lazymatch goal with H : shrink_gate _ _ _ _ = Ok _ |- _ => apply shrink_gate_spec in H as (p & Hp & -> & Hlt & Hs) end.
    left. eexists _, _, _. split; [|eapply run_on_dispatched; [..|exact Hr]; by eauto]. names.
    econstructor; try done; [by apply N.Lcm0.mod_divide|by rewrite div_uint_raw|by rewrite div_uint_raw].
  - turned_down Hr. impossible. names. lazymatch goal with H : amount _ _ ?b, H' : amount _ _ ?b' |- _ =>
      apply parse_size_amount in H, H'; rewrite H in H'; injection H' as <- end.
    lazymatch goal with H : as_str a = _, H' : as_str ?d = _, Hl : listed _ _ _ ?p, Hn : raw _ = _, Hlt : raw _ < _ |- _ =>
      rewrite H', <-H in Hl; rewrite Hn in Hlt; by eapply (shrink_gate_refuses _ _ _ _ _ p) end.
  - turned_down Hr. impossible. lazymatch goal with H : listed _ _ _ _ |- _ => by destruct H as (? & ? & ? & _) end.
Qed.
Lemma parse_lv_resize_Ok vg name size unit v n b :
  parse_lv_resize vg name size unit = Ok (v, n, b) ↔ as_str v = trim vg ∧ as_str n = trim name ∧ amount size unit b.
Proof.
  unfold parse_lv_resize. rewrite <-!new_Ok, <-parse_size_amount. split.
  - intros Hr. apply bind_Ok in Hr as (v' & Hv%map_err_ok & Hr). apply bind_Ok in Hr as (n' & Hn%map_err_ok & Hr).
    apply bind_Ok in Hr as (b' & Hb%ok_or_ok & Hr). by injection Hr as <- <- <-.
  - intros (-> & -> & ->). done.
Qed.
(** The forms that name things. *)
Definition names_things (f : storage_form) : bool :=
  match f with
  | FTable _ | FPartDelete _ _ | FCompression _ _ _ | FZvolResize _ _ _ | FZvolDelete _ | FFsMount _ | FFsUnmount _ | FFsMountpoint _ _
  | FFsDestroy _ _ | FAttach _ _ _ | FRemove _ _ | FDetach _ _ | FOnline _ _ | FThinPool _ _ _ _ | FLvRename _ _ _ | FLvDelete _ _
  | FVgExtend _ _ | FVgReduce _ _ | FVgRemove _ => true
  | _ => false
  end.
Lemma plain_forms l f s r s' : names_things f → submit f s = (r, s') → result_of l f s r s'.
Proof.
  destruct f; intros Hf; try done; cbn [submit];
    unfold table_create, part_delete, set_compression, ZfsPages.zvol_resize, ZfsPages.zvol_delete, zvol_page, fs_mount,
      fs_unmount, fs_set_mountpoint, fs_destroy, on_dataset, pool_attach_device, pool_remove_device, pool_detach_device,
      pool_online_device, LvmPages.thin_pool_create, LvmPages.lv_rename, LvmPages.lv_delete, LvmPages.vg_extend, LvmPages.vg_reduce,
      LvmPages.vg_remove, lv_page; clear Hf; intros Hr; branches Hr; try (by turned_down Hr); sent Hr.
  all: constructor; try done; by apply parse_prop_chosen.
Qed.
Lemma part_form l disk size unit label s r s' :
  submit (FPart disk size unit label) s = (r, s') → result_of l (FPart disk size unit label) s r s'.
Proof.
  cbn [submit]. unfold part_create. intros Hr. branches Hr; try (by turned_down Hr).
  - sent Hr. constructor; [done|done|by apply sectors_spec].
  - turned_down Hr. impossible. lazymatch goal with H : match _ with _ => _ end |- _ => apply sectors_spec in H; congruence end.
Qed.
Lemma fs_form l parent name mountpoint s r s' :
  submit (FFs parent name mountpoint) s = (r, s') → result_of l (FFs parent name mountpoint) s r s'.
Proof.
  cbn [submit]. unfold fs_create. intros Hr. branches Hr; try (by turned_down Hr).
  - sent Hr. constructor; [done|]. by destruct (trim mountpoint).
  - sent Hr. constructor; [done|]. split; [|done]. by intros E; rewrite E in *.
  - turned_down Hr. intros req Ha. inversion Ha as [| | | | | | | |? ? ? d mp Hd Hm| | | | | | | | | | | | | | | | | | | | |]; subst.
    destruct mp; [destruct Hm as [_ Hm]; by eapply no_name|by rewrite Hm in *].
Qed.
Lemma lv_resize_forms l (shrink : bool) vg name size unit s r s' :
  let f := (if shrink then FLvShrink else FLvResize) vg name size unit in submit f s = (r, s') → result_of l f s r s'.
Proof.
  intros f. subst f. destruct shrink; cbn [submit]; unfold LvmPages.lv_shrink, LvmPages.lv_resize, lv_page; intros Hr; branches Hr;
    try (sent Hr; lazymatch goal with H : parse_lv_resize _ _ _ _ = _ |- _ => apply parse_lv_resize_Ok in H as (? & ? & ?) end; by constructor);
    turned_down Hr; impossible; lazymatch goal with H : parse_lv_resize _ _ _ _ = Err _ |- _ => erewrite (proj2 (parse_lv_resize_Ok _ _ _ _ _ _ _)) in H by eauto end; done.
Qed.
(** The forms whose request is assembled first. *)
Lemma assembled_forms l f s r s' :
  match f with FZvol _ | FVdev _ _ | FPool _ | FLv _ | FVg _ => true | _ => false end → submit f s = (r, s') → result_of l f s r s'.
Proof.
  destruct f; intros Hf; try done; clear Hf; cbn [submit];
    unfold ZfsPages.zvol_create, pool_add_vdev, ZfsPages.pool_create, LvmPages.lv_create, LvmPages.vg_create; intros Hr; branches Hr; try sent Hr.
  all: try first [by apply zvol_request_asks|by apply vdev_request_asks|by apply pool_request_asks|by apply vg_request_asks|
                  by apply lv_request_asks; eexists].
  all: turned_down Hr; intros req Ha; inversion Ha; subst.
  all: first [apply zvol_request_asks in Ha|apply vdev_request_asks in Ha|apply pool_request_asks in Ha|apply vg_request_asks in Ha|
              apply lv_request_asks in Ha as [? Ha]]; congruence.
Qed.

(** A form asks for one thing at most. *)
Ltac functional_hyps :=
  repeat match goal with
         | H : as_str _ = _ |- _ => apply new_Ok in H
         | H : amount _ _ _ |- _ => apply parse_size_amount in H
         | H : chosen _ _ |- _ => apply parse_prop_chosen in H
         | H : ticked _ _ |- _ => apply device_paths_ticked in H
         end; rewrite ?new_as_str in *.
Lemma asks_one l f req req' : asks l f req → asks l f req' → req = req'.
Proof.
  intros Ha Hb. destruct f.
  all: try (inversion Ha; subst; inversion Hb; subst; functional_hyps; congruence).
  all: try (inversion Ha; subst; inversion Hb; subst;
    first [apply (zvol_request_asks l) in Ha, Hb|apply (vdev_request_asks l) in Ha, Hb|apply (pool_request_asks l) in Ha, Hb|
           apply (lv_request_asks l) in Ha as [? Ha], Hb as [? Hb]]; congruence).
  - inversion Ha; subst; inversion Hb; subst. functional_hyps. repeat lazymatch goal with H : match _ with _ => _ end |- _ => apply sectors_spec in H end. congruence.
  - inversion Ha; subst; inversion Hb; subst. functional_hyps. do 2 f_equal; [congruence|]. apply raw_inj. congruence.
  - inversion Ha as [| | | | | | | |? ? ? d mp Hd Hm| | | | | | | | | | | | | | | | | | | | |]; subst.
    inversion Hb as [| | | | | | | |? ? ? d' mp' Hd' Hm'| | | | | | | | | | | | | | | | | | | | |]; subst. functional_hyps.
    destruct mp as [m|], mp' as [m'|]; [|by destruct Hm|by destruct Hm'|congruence].
    destruct Hm as [_ Hm], Hm' as [_ Hm']. functional_hyps. congruence.
Qed.

(** C16: every storage form (disks, partitions, pools, zvols, filesystems, LVM)
    either asks for something, and then exactly the request it describes (its texts
    trimmed as written, sizes multiplied without overflow, devices in order, the
    partition as listed at that moment) is sent, recorded as a task and left to a
    background task, or it asks for nothing the program accepts, and then nothing is
    sent but the reads of the page, nothing is recorded, and the page says why. *)
Theorem storage_forms_exact f s r s' :
  submit f s = (r, s') →
  let l := disks_at (length (st_sent s)) in
  (∃ kind title req, asks l f req ∧ (∀ req', asks l f req' → req' = req) ∧ dispatched kind title req s r s') ∨ ((∀ req, ¬ asks l f req) ∧ declined s r s').
Proof.
  intros Hr l. assert (Hf : result_of l f s r s'); [|destruct Hf as [(kind & title & req & Ha & Hd)|Hf]; [|by right];
    left; exists kind, title, req; split_and!; [done|intros req' Ha'; by eapply asks_one|done]].
  destruct f; try (by apply plain_forms); try (by apply assembled_forms).
  - by apply part_form.
  - by apply shrink_form.
  - by apply fs_form.
  - by apply (lv_resize_forms _ false).
  - by apply (lv_resize_forms _ true).
Qed.

(** ** The devices offered *)

Definition listing (n : nat) : list Disk := match disks_at n with Ok l => l | Err _ => [] end.
(** Raw devices that nothing uses: no mount, no filesystem or label, no export, and
    of a disk either its partitions or, having none, itself. *)
Definition free_raw (ds : list Disk) (in_use : gset string) (p : string) : Prop :=
  p ∉ in_use ∧ ∃ d, d ∈ ds ∧
    ((dk_partitions d = [] ∧ p = "/dev/" +:+ dk_name d ∧ dk_mountpoint d = None ∧ dk_fstype d = None) ∨
     ∃ t, t ∈ dk_partitions d ∧ p = "/dev/" +:+ pt_name t ∧ pt_mountpoint t = None ∧ pt_fstype t = None).
Definition exported (s : site) : gset string := list_to_set (export_device_paths (site_doc s)).
Lemma is_none_spec {A} (o : option A) : is_none o = true ↔ o = None.
Proof. by destruct o. Qed.
Lemma raw_device_free in_use kind name size mp fs a :
  a ∈ raw_device in_use kind name size mp fs ∧ av_fstype a = None ↔
  ("/dev/" +:+ name ∉ in_use ∧ mp = None ∧ fs = None ∧
   a = {| av_path := "/dev/" +:+ name; av_label := device_label ("/dev/" +:+ name) size fs; av_kind := kind; av_fstype := fs; av_size := size |}).
Proof.
  unfold raw_device. destruct (is_none mp && _ && _) eqn:E.
  - apply andb_true_iff in E as [[Em%is_none_spec _]%andb_true_iff Eu]. apply negb_true_iff, bool_decide_eq_false in Eu.
    rewrite list_elem_of_singleton. split; [by intros [-> Hf]|]. by intros (_ & _ & -> & ->).
  - rewrite elem_of_nil. split; [naive_solver|]. intros (Hu & -> & -> & _). exfalso. cbn in E. by rewrite bool_decide_eq_false_2 in E.
Qed.
Lemma disk_devices_kind in_use d a : a ∈ disk_devices in_use d → av_kind a = AvWholeDisk ∨ av_kind a = AvPartition.
Proof.
  unfold disk_devices. destruct (dk_partitions d); [|intros (t & Ht & _)%list_elem_of_bind; revert Ht];
    unfold raw_device; case_match; rewrite ?elem_of_nil, ?list_elem_of_singleton; try done; intros ->; auto.
Qed.
Lemma disk_devices_free in_use d p :
  (∃ a, a ∈ disk_devices in_use d ∧ av_fstype a = None ∧ p = av_path a) ↔
  p ∉ in_use ∧
    ((dk_partitions d = [] ∧ p = "/dev/" +:+ dk_name d ∧ dk_mountpoint d = None ∧ dk_fstype d = None) ∨
     ∃ t, t ∈ dk_partitions d ∧ p = "/dev/" +:+ pt_name t ∧ pt_mountpoint t = None ∧ pt_fstype t = None).
Proof.
  unfold disk_devices. destruct (dk_partitions d) as [|t0 ts] eqn:Ed.
  - split.
    + intros (a & Ha & Hf & ->). destruct (proj1 (raw_device_free _ _ _ _ _ _ _) (conj Ha Hf)) as (Hu & Hm & Hs & ->). split; [done|by left].
    + intros (Hu & [(_ & -> & Hm & Hf)|(t & Ht%elem_of_nil & _)]); [|done].
      destruct (proj2 (raw_device_free _ AvWholeDisk _ (dk_size d) _ _ _) (conj Hu (conj Hm (conj Hf eq_refl)))) as [Ha Hn].
      eexists. split_and!; [exact Ha|exact Hn|done].
  - rewrite <-Ed. split.
    + intros (a & (t & Ha & Ht)%list_elem_of_bind & Hf & ->). destruct (proj1 (raw_device_free _ _ _ _ _ _ _) (conj Ha Hf)) as (Hu & Hm & Hs & ->).
      split; [done|]. right. by exists t.
    + intros (Hu & [(Hn & _)|(t & Ht & -> & Hm & Hf)]); [congruence|].
      destruct (proj2 (raw_device_free _ AvPartition _ (pt_size t) _ _ _) (conj Hu (conj Hm (conj Hf eq_refl)))) as [Ha Hn].
      eexists. split_and!; [apply list_elem_of_bind; exists t; split; [exact Ha|done]|exact Hn|done].
Qed.
Lemma other_device_kind in_use (x : string * u64) a : a ∈ zvol_device in_use x ∨ a ∈ lv_device in_use x → av_kind a = AvZvol ∨ av_kind a = AvLv.
Proof. unfold zvol_device, lv_device. repeat case_bool_decide; rewrite ?elem_of_nil, ?list_elem_of_singleton; intros [Ha|Ha]; try done; subst a; auto. Qed.
Lemma empty_raw_spec a : empty_raw a = true ↔ av_kind a ≠ AvZvol ∧ av_kind a ≠ AvLv ∧ av_fstype a = None.
Proof. unfold empty_raw. rewrite !andb_true_iff, !negb_true_iff, !bool_decide_eq_false, is_none_spec. naive_solver. Qed.
Lemma available_free ds zvols lvs in_use p :
  p ∈ av_path <$> List.filter empty_raw (available_from_disks ds zvols lvs in_use) ↔ free_raw ds in_use p.
Proof.
  rewrite list_elem_of_fmap. unfold available_from_disks, free_raw. split.
  - intros (a & -> & Ha). apply list_elem_of_In, filter_In in Ha as [Ha (Hz & Hl & Hf)%empty_raw_spec]. apply list_elem_of_In in Ha.
    rewrite !elem_of_app, !list_elem_of_bind in Ha. destruct Ha as [(d & Ha & Hd)|[(x & Hx & _)|(x & Hx & _)]].
    + destruct (proj1 (disk_devices_free in_use d (av_path a))) as [Hu Hor]; [by exists a|]. split; [done|]. by exists d.
    + by destruct (other_device_kind _ _ _ (or_introl Hx)).
    + by destruct (other_device_kind _ _ _ (or_intror Hx)).
  - intros (Hu & d & Hd & Hor). destruct (proj2 (disk_devices_free in_use d p) (conj Hu Hor)) as (a & Ha & Hf & ->). exists a. split; [done|].
    apply list_elem_of_In, filter_In. split.
    + apply list_elem_of_In. rewrite elem_of_app, list_elem_of_bind. left. by exists d.
    + apply empty_raw_spec. destruct (disk_devices_kind _ _ _ Ha) as [-> | ->]; done.
Qed.
Lemma available_run in_use s :
  ∃ zvols lvs s', available_block_devices in_use s = (Ok (available_from_disks (listing (length (st_sent s))) zvols lvs in_use), s').
Proof.
  unfold available_block_devices, disks, logical_volumes, reported, report, on_host, send, mbind, hop_bind, mret, hop_ret. by eexists _, _, _.
Qed.
Lemma options_free selected in_use s l s' :
  available_block_devices in_use s = (Ok l, s') →
  ∀ p, (p ∈ do_path <$> (option_of selected <$> List.filter empty_raw l) ↔ free_raw (listing (length (st_sent s))) in_use p) ∧
       (p ∈ do_path <$> (option_of selected <$> List.filter empty_disk l) ↔ free_raw (listing (length (st_sent s))) in_use p).
Proof.
  intros Hl p. destruct (available_run in_use s) as (zv & lv & s1 & E). rewrite E in Hl. injection Hl as <- _.
  assert (Hf : ∀ l, do_path <$> (option_of selected <$> List.filter empty_raw l) = av_path <$> List.filter empty_raw l) by (intros; by rewrite <-list_fmap_compose).
  assert (Hd : ∀ l, List.filter empty_disk l = List.filter empty_raw l) by (intros; apply filter_ext; intros [q t [] [] z]; done).
  by rewrite Hd, Hf, available_free.
Qed.
(** A list of exactly the devices free when it was made, while handling the request. *)
Definition offers (s : site) (paths : list string) : Prop :=
  ∃ n, (length (st_sent s) <= n)%nat ∧ ∀ p, p ∈ paths ↔ free_raw (listing n) (exported s) p.
Lemma offers_later s s' paths : only_read s s' → offers s' paths → offers s paths.
Proof.
  intros (W & _ & l & El & _) (n & Hn & Hp). exists n. rewrite El, length_app in Hn. split; [lia|].
  unfold exported, site_doc in *. by rewrite W in Hp.
Qed.
Lemma hop_bind_Ok {A B} (m : hop A) (f : A → hop B) s b s' :
  (m ≫= f) s = (Ok b, s') → ∃ a s1, m s = (Ok a, s1) ∧ f a s1 = (Ok b, s').
Proof. unfold mbind, hop_bind. destruct (m s) as [[a|e] s1]; [|done]. intros Hf. by exists a, s1. Qed.
Lemma hop_fmap_Ok {A B} (f : A → B) (m : hop A) s b s' : (f <$> m) s = (Ok b, s') → ∃ a, m s = (Ok a, s') ∧ b = f a.
Proof. unfold fmap, hop_fmap. destruct (m s) as [[a|e] s1]; [|done]. intros [= <- <-]. by exists a. Qed.
Lemma in_use_run s : in_use_paths s = (Ok (exported s), s).
Proof. done. Qed.
Lemma available_offer selected s a s1 :
  available_block_devices (exported s) s = (Ok a, s1) →
  offers s (do_path <$> (option_of selected <$> List.filter empty_raw a)) ∧
  offers s (do_path <$> (option_of selected <$> List.filter empty_disk a)).
Proof. intros E. split; exists (length (st_sent s)); (split; [done|]); intros p; by apply (options_free selected _ s a s1). Qed.
Lemma empty_disks_offer selected s l s' : empty_disks selected s = (Ok l, s') → offers s (do_path <$> l).
Proof.
  intros (u & s0 & Hu & Hr)%hop_bind_Ok. rewrite in_use_run in Hu. injection Hu as <- <-.
  apply hop_bind_Ok in Hr as (a & s1 & Ha & [= <- _]). by apply (available_offer selected) in Ha as [_ ?].
Qed.
Lemma pool_create_offers selected error s v s' :
  gather_pool_create selected error s = (Ok v, s') → pc_not_installed v = false → offers s (do_path <$> pc_devices v).
Proof.
  intros (r & s0 & [= <- <-] & Hr)%hop_bind_Ok Hm.
  assert (Hend : (in_use ← in_use_paths; available ← available_block_devices in_use;
      mret {| pc_devices := option_of selected <$> List.filter empty_raw available; pc_not_installed := false; pc_error := error |}) s = (Ok v, s') →
      offers s (do_path <$> pc_devices v)).
  { clear Hr. intros (u & s0 & Hu & Hr)%hop_bind_Ok. rewrite in_use_run in Hu. injection Hu as <- <-.
    apply hop_bind_Ok in Hr as (a & s1 & Ha & [= <- _]). by apply (available_offer selected) in Ha as [? _]. }
  destruct (pools _) as [[ps|]|e]; [by apply Hend| |by apply Hend]. by injection Hr as <- _.
Qed.
Lemma pool_detail_offers name nt s v s' :
  gather_pool_detail name nt s = (Ok v, s') → pd_pool v ≠ None → offers s (do_path <$> pd_add_devices v).
Proof.
  intros (j & s0 & Hj & Hr)%hop_bind_Ok Hp. unfold on_host in Hj. injection Hj as Hj <-.
  destruct j as [[[[ps|] [ds|]] [vs|]]|e]; try (injection Hr as <- _; by destruct Hp).
  assert (Hps : pools (length (st_sent s)) = Ok (Some ps)).
  { unfold try_join3 in Hj. apply bind_Ok in Hj as (x & Hx & Hj). apply bind_Ok in Hj as (y & Hy & Hj). apply bind_Ok in Hj as (z & Hz & Hj). congruence. }
  apply hop_bind_Ok in Hr as (d & s0 & [= _ <-] & Hr). destruct (is_none _) eqn:En.
  { apply is_none_spec in En. rewrite En in Hr. injection Hr as <- _. by destruct Hp. }
  apply hop_bind_Ok in Hr as (tb & s0 & Ht & Hr). apply hop_fmap_Ok in Ht as (x & [= _ <-] & _).
  apply hop_bind_Ok in Hr as (c & s0 & Hc & Hr). apply hop_bind_Ok in Hc as (y & s1 & [= _ <-] & [= _ <-]).
  apply hop_bind_Ok in Hr as (pv & s1 & Hpv & [= <- _]). cbn [pd_add_devices].
  eapply pool_create_offers; [exact Hpv|]. apply hop_bind_Ok in Hpv as (r & s2 & [= <- <-] & Hpv). rewrite Hps in Hpv.
  apply hop_bind_Ok in Hpv as (u & s2 & _ & Hpv). apply hop_bind_Ok in Hpv as (w & s3 & _ & [= <- _]). done.
Qed.
Lemma vg_create_offers selected error s v s' :
  gather_vg_create selected error s = (Ok v, s') → gc_not_installed v = false → offers s (do_path <$> gc_devices v).
Proof.
  intros (r & s0 & H0 & Hr)%hop_bind_Ok Hm. apply reads_reported in H0 as [H0 _]. apply (offers_later _ _ _ H0).
  destruct r as [[vgs|]|e]; try (apply hop_bind_Ok in Hr as (l & s1 & Hl & [= <- _]); by apply empty_disks_offer in Hl). by injection Hr as <- _.
Qed.
Lemma vg_detail_offers name nt s v s' :
  gather_vg_detail name nt s = (Ok v, s') → gv_vg v ≠ None → offers s (do_path <$> gv_extend_devices v).
Proof.
  intros (r & s0 & H0 & Hr)%hop_bind_Ok Hv. apply hop_bind_Ok in Hr as (r' & s1 & H1 & Hr).
  apply reads_reported in H0 as [H0 _]. apply reads_reported in H1 as [H1 _]. apply (offers_later _ _ _ (only_read_trans _ _ _ H0 H1)).
  destruct (try_join2 r r') as [[[vgs|] [lvs|]]|e]; try (injection Hr as <- _; by destruct Hv).
  apply hop_bind_Ok in Hr as (l & s2 & Hl & [= <- _]). cbn in *. destruct (List.find _ vgs); [|by destruct Hv].
  by apply empty_disks_offer in Hl.
Qed.
Lemma context_offers ds s ctx s' : device_context ds s = (Ok ctx, s') → offers s (elements (dc_poolable ctx)).
Proof.
  intros (u & s0 & Hu & Hr)%hop_bind_Ok. rewrite in_use_run in Hu. injection Hu as <- <-.
  apply hop_bind_Ok in Hr as (a & s1 & Ha & Hr). apply hop_bind_Ok in Hr as (h & s2 & _ & Hr).
  apply hop_bind_Ok in Hr as (m & s3 & _ & [= <- _]). cbn [dc_poolable].
  destruct (proj1 (available_offer ∅ _ _ _ Ha)) as (n & Hn & Hp). exists n. split; [done|]. intros p. rewrite <-Hp, elem_of_elements, elem_of_list_to_set.
  by rewrite <-list_fmap_compose.
Qed.

(** C17: the pool form, the add-device form of a pool page, the volume group form,
    the extend form of a volume group page and the create-pool links of the disk
    pages all offer, when the tools are installed and the pool or group is found,
    exactly the same devices: the raw disks and partitions that, as listed while the request is handled, are not mounted, carry no filesystem,
    pool or volume label and back no export, a partitioned disk never as a whole. *)
Theorem offered_devices_free s :
  (∀ selected error v s', gather_pool_create selected error s = (Ok v, s') → pc_not_installed v = false →
    offers s (do_path <$> pc_devices v)) ∧
  (∀ name nt v s', gather_pool_detail name nt s = (Ok v, s') → pd_pool v ≠ None → offers s (do_path <$> pd_add_devices v)) ∧
  (∀ selected error v s', gather_vg_create selected error s = (Ok v, s') → gc_not_installed v = false →
    offers s (do_path <$> gc_devices v)) ∧
  (∀ name nt v s', gather_vg_detail name nt s = (Ok v, s') → gv_vg v ≠ None → offers s (do_path <$> gv_extend_devices v)) ∧
  (∀ ds ctx s', device_context ds s = (Ok ctx, s') → ∃ n, (length (st_sent s) <= n)%nat ∧
    (∀ d row, disk_row d ctx = Ok row → dw_poolable row = true ↔ free_raw (listing n) (exported s) ("/dev/" +:+ dk_name d)) ∧
    (∀ p, pw_poolable (part_row p ctx) = true ↔ free_raw (listing n) (exported s) ("/dev/" +:+ pt_name p))).
Proof.
  split_and!; [by intros; eapply pool_create_offers|by intros; eapply pool_detail_offers|by intros; eapply vg_create_offers|
    by intros; eapply vg_detail_offers|].
  intros ds ctx s' (n & Hn & Hp)%context_offers. exists n. split_and!; [done| |].
  - intros d row (used & _ & [= <-])%bind_Ok. cbn. by rewrite bool_decide_eq_true, <-elem_of_elements, Hp.
  - intros p. unfold part_row. destruct (shrinkability _ _); cbn; by rewrite bool_decide_eq_true, <-elem_of_elements, Hp.
Qed.

(** ** The actions offered on a pool's devices *)

Lemma trim_name {k} (v : vstring k) : trim (as_str v) = as_str v.
Proof.
  apply trim_id. apply (all_chars_incl plain_char); [|by vm_compute]. by apply (validator_plain k), (raw_ok v).
Qed.
Lemma valid_device name : is_device name = true ↔ ∃ d : DevicePath, as_str d = name.
Proof. unfold is_device. destruct (new NtDevicePath name) eqn:E; [apply new_Ok in E; naive_solver|]. split; [done|]. intros [d Hd]. by destruct (no_name _ _ _ _ E Hd). Qed.
Lemma device_target (d : DevicePath) : ∃ t : VdevTarget, as_str t = as_str d.
Proof.
  assert (Hv : validator NtVdevTarget (as_str d)) by (cbn; unfold vdev_target; apply orb_True; left; exact (raw_ok d)).
  destruct (new NtVdevTarget (as_str d)) as [t|e] eqn:E; [exists t; by apply new_Ok|]. apply new_Err in E as [E _]. done.
Qed.
Lemma scan_leaf st rows ms : scan_rows st rows = Ok ms → Forall (λ m, pm_is_leaf m = negb (is_container (pm_name m))) ms.
Proof.
  revert st ms. induction rows as [|line rows IH]; intros st ms; cbn [scan_rows]; [by intros [= <-]|].
  case_match; [by apply IH|]. case_match; [|by apply IH]. intros ([st' m] & Hm & Hr)%bind_Ok.
  apply bind_Ok in Hr as (rest & Hrest & [= <-]). constructor; [|by eapply IH]. unfold member_row in Hm.
  apply bind_Ok in Hm as (f & _ & Hm). apply bind_Ok in Hm as (pl & _ & Hm). apply bind_Ok in Hm as (al & _ & Hm).
  apply bind_Ok in Hm as (sz & _ & Hm). by injection Hm as _ <-.
Qed.
(** A device of a vdev, in use or not. *)
Definition device_in (parent : string) (m : PoolMember) : Prop :=
  pm_is_leaf m = true ∧ pm_parent m = Some parent ∧ is_device (pm_name m) = true.
Definition online (m : PoolMember) : bool := bool_decide (pm_health m = Some "ONLINE").
(** The device a vdev is grown by: one that is online, if any is. *)
Definition anchored (seen : list PoolMember) (parent : string) (o : option (string * bool)) : Prop :=
  match o with
  | Some (x, b) => ∃ c, c ∈ seen ∧ device_in parent c ∧ x = pm_name c ∧ b = online c ∧
      (b = false → ∀ c', c' ∈ seen → device_in parent c' → online c' = false)
  | None => ∀ c', c' ∈ seen → ¬ device_in parent c'
  end.
Lemma anchored_snoc seen parent o m :
  anchored seen parent o → ¬ device_in parent m ∨ (∃ x, o = Some (x, true)) ∨ (is_Some o ∧ online m = false) → anchored (seen ++ [m]) parent o.
Proof.
  intros Ho Hm. destruct o as [[x b]|]; cbn in *.
  - destruct Ho as (c & Hc & Hd & -> & -> & Hall). exists c. split_and!; try done; [by apply elem_of_app; left|].
    intros Hb c' [Hc'| ->%list_elem_of_singleton]%elem_of_app Hd'; [by apply Hall|]. destruct Hm as [Hm|[[y Hm]|[_ Hm]]]; congruence.
  - intros c' [Hc'| ->%list_elem_of_singleton]%elem_of_app; [by apply Ho|]. destruct Hm as [Hm|[[y Hm]|[[y Hm] _]]]; done.
Qed.
Lemma anchors_scan seen l anchor :
  Forall (λ m, pm_is_leaf m = true) l → (∀ parent, anchored seen parent (anchor !! parent)) →
  ∀ parent, anchored (seen ++ l) parent (foldl anchor_step anchor l !! parent).
Proof.
  revert seen anchor. induction l as [|m l IH]; intros seen anchor Hl Ha; [by rewrite app_nil_r|].
  apply Forall_cons in Hl as [Hm Hl]. rewrite (app_assoc seen [m] l : seen ++ m :: l = _). cbn [foldl]. apply IH; [done|]. intros parent.
  unfold anchor_step. destruct (pm_parent m) as [p|] eqn:Ep; [|apply anchored_snoc; [apply Ha|left; intros (_ & E & _); congruence]].
  destruct (is_device (pm_name m)) eqn:Ed; cbn [negb]; [|apply anchored_snoc; [apply Ha|left; intros (_ & _ & E); congruence]].
  assert (Hnew : (∀ c', c' ∈ seen → device_in p c' → online c' = false) ∨ online m = true →
      anchored (seen ++ [m]) parent (<[p := (pm_name m, online m)]> anchor !! parent)).
  { intros Hold. destruct (decide (parent = p)) as [->|Hne].
    - rewrite lookup_insert_eq. exists m. split_and!; try done; [by apply elem_of_app; right; left|].
      intros Hb c' [Hc'| ->%list_elem_of_singleton]%elem_of_app Hd'; [|done]. destruct Hold; [auto|congruence].
    - rewrite lookup_insert_ne by done. apply anchored_snoc; [apply Ha|]. left. intros (_ & E & _). congruence. }
  assert (Hkeep : (∃ x, anchor !! p = Some (x, true)) ∨ (is_Some (anchor !! p) ∧ online m = false) → anchored (seen ++ [m]) parent (anchor !! parent)).
  { intros Hk. apply anchored_snoc; [apply Ha|]. destruct (decide (parent = p)) as [->|]; [by right|left; intros (_ & E & _); congruence]. }
  pose proof (Ha p) as Hap. destruct (anchor !! p) as [[x [|]]|] eqn:Ex.
  - apply Hkeep. left. by exists x.
  - fold (online m). destruct (online m) eqn:Eo; [apply Hnew; by right|]. apply Hkeep. right. split; [by eexists|done].
  - apply Hnew. left. intros c' Hc' Hd'. by destruct (Hap c').
Qed.
Lemma attach_anchor_spec members parent x :
  attach_anchor members !! parent = Some x →
  ∃ c, c ∈ members ∧ device_in parent c ∧ x = pm_name c ∧
    (online c = false → ∀ c', c' ∈ members → device_in parent c' → online c' = false).
Proof.
  unfold attach_anchor. rewrite lookup_fmap, fmap_Some. intros ([y b] & Hy & ->).
  assert (Hl : Forall (λ m, pm_is_leaf m = true) (List.filter pm_is_leaf members)).
  { apply Forall_forall. intros m Hm. by apply list_elem_of_In, filter_In in Hm as [_ ?]. }
  pose proof (anchors_scan [] (List.filter pm_is_leaf members) ∅ Hl) as Hs. specialize (Hs ltac:(intros q; rewrite lookup_empty; by intros c ?%elem_of_nil) parent).
  rewrite Hy in Hs. destruct Hs as (c & Hc & Hd & -> & -> & Hall). cbn [app] in *. apply list_elem_of_In, filter_In in Hc as [Hc _].
  exists c. split_and!; [by apply list_elem_of_In|done|done|]. intros Hb c' Hc' Hd'. apply Hall; [done| |done].
  apply list_elem_of_In, filter_In. split; [by apply list_elem_of_In|by destruct Hd'].
Qed.
(** The devices of the pool as zpool lists them. *)
Definition pool_listing (n : nat) (name : string) (ms : list PoolMember) : Prop :=
  ∃ vs, pool_vdevs n = Ok (Some vs) ∧ ms = List.filter (λ m, bool_decide (pm_pool m = name)) vs.
Lemma pool_listing_leaf n name ms m : pool_listing n name ms → m ∈ ms → pm_is_leaf m = negb (is_container (pm_name m)).
Proof.
  intros (vs & Hv & ->) Hm. apply list_elem_of_In, filter_In in Hm as [Hm%list_elem_of_In _].
  unfold pool_vdevs, parsed in Hv. apply bind_Ok in Hv as ([out|] & _ & Hv); [|done]. apply bind_Ok in Hv as (ms & Hms & [= <-]).
  unfold parse_pool_vdevs in Hms. apply scan_leaf in Hms. by apply (proj1 (Forall_forall _ _) Hms).
Qed.
Lemma pool_detail_members name nt s v s' row :
  gather_pool_detail name nt s = (Ok v, s') → row ∈ pd_members v →
  ∃ ms m urls, pool_listing (length (st_sent s)) name ms ∧ m ∈ ms ∧ row = member_row_of ms urls m.
Proof.
  intros (j & s0 & Hj & Hr)%hop_bind_Ok Hrow. unfold on_host in Hj. injection Hj as Hj <-.
  destruct j as [[[[ps|] [ds|]] [vs|]]|e]; try (injection Hr as <- _; by apply elem_of_nil in Hrow).
  assert (Hv : pool_vdevs (length (st_sent s)) = Ok (Some vs)).
  { unfold try_join3 in Hj. apply bind_Ok in Hj as (x & Hx & Hj). apply bind_Ok in Hj as (y & Hy & Hj). apply bind_Ok in Hj as (z & Hz & Hj). congruence. }
  apply hop_bind_Ok in Hr as (d & s0 & [= <- <-] & Hr).
  set (urls := match disks_at _ with Ok _ => _ | Err _ => _ end) in *.
  assert (Hm : pd_members v = member_rows (List.filter (λ m, bool_decide (pm_pool m = name)) vs) urls).
  { destruct (is_none _); [by injection Hr as <- _|].
    apply hop_bind_Ok in Hr as (tb & s2 & _ & Hr). apply hop_bind_Ok in Hr as (c & s3 & _ & Hr). by apply hop_bind_Ok in Hr as (pv & s4 & _ & [= <- _]). }
  rewrite Hm in Hrow. unfold member_rows in Hrow. apply list_elem_of_fmap in Hrow as (m & -> & Hin).
  eexists _, m, urls. split_and!; [by exists vs|done|done].
Qed.

(** The zpool command the daemon runs for a request on the devices of a pool (removal
    then waits for it to complete). *)
Definition zpool_args (req : request) : option (list string) :=
  match req with
  | RPoolDeviceRemove o => Some (ts_args (pool_device_remove (pool_device_remove_pool o) (pool_device_remove_target o)))
  | RPoolDeviceDetach _ | RPoolDeviceOnline _ | RPoolDeviceAttach _ => ts_args <$> spec_of req
  | _ => None
  end.
(** A form is accepted, the message sent for it passes the daemon's ingress as the same
    request, and that is run as the command. *)
Definition leads_to (l : result string (list Disk)) (f : storage_form) (argv : list string) : Prop :=
  ∃ req, asks l f req ∧ decode_request (encode_request req) = Ok req ∧ zpool_args req = Some argv.
Lemma attach_accepted (p : PoolName) l ms m t :
  pm_is_leaf m = negb (is_container (pm_name m)) → attach_target (attach_anchor ms) m = Some t →
  (∀ d : DevicePath, leads_to l (FAttach (as_str p) t (as_str d)) ["attach"; as_str p; t; as_str d]) ∧ pm_parent m = None ∧
  pm_class m ≠ ZfsView.Cache ∧ pm_class m ≠ ZfsView.Spare ∧
  (t = pm_name m ∨
   starts_with "mirror-" (pm_name m) = true ∧ ∃ c, c ∈ ms ∧ device_in (pm_name m) c ∧ t = pm_name c ∧
     (online c = false → ∀ c', c' ∈ ms → device_in (pm_name m) c' → online c' = false)).
Proof.
  intros Hleaf. unfold attach_target. destruct (negb (is_none (pm_parent m)) || _) eqn:E1; [done|].
  apply orb_false_iff in E1 as [Hpar%negb_false_iff%is_none_spec Hc].
  assert (Hclass : pm_class m ≠ ZfsView.Cache ∧ pm_class m ≠ ZfsView.Spare) by (by destruct (pm_class m)).
  assert (Hask : ∀ t' : VdevTarget, as_str t' = t → ∀ d : DevicePath, leads_to l (FAttach (as_str p) t (as_str d)) ["attach"; as_str p; t; as_str d]).
  { intros t' <- d. eexists. split; [apply (ask_attach _ _ _ _ p t' d); by rewrite trim_name|]. split; [by apply operation_round_trip|done]. }
  assert (Hdev : is_device t = true → ∀ d : DevicePath, leads_to l (FAttach (as_str p) t (as_str d)) ["attach"; as_str p; t; as_str d]).
  { intros [d' <-]%valid_device. destruct (device_target d') as [t' Ht']. by apply (Hask t'). }
  destruct (negb (pm_is_leaf m) && starts_with "raidz" (pm_name m)) eqn:E2.
  { intros [= <-]. apply andb_true_iff in E2 as [E2%negb_true_iff _]. rewrite Hleaf in E2. apply negb_false_iff in E2.
    unfold is_container in E2. apply andb_true_iff in E2 as [_ E2]. destruct (new NtVdevTarget (pm_name m)) as [t'|] eqn:E; [|done].
    apply new_Ok in E. destruct Hclass. split_and!; try done; [by apply (Hask t')|by left]. }
  destruct (negb (pm_is_leaf m) && starts_with "mirror-" (pm_name m)) eqn:E3.
  { intros (c & Hc' & Hd & -> & Hon)%attach_anchor_spec. apply andb_true_iff in E3 as [_ E3]. destruct Hclass. split_and!; try done; [by apply Hdev; destruct Hd as (_ & _ & ?)|].
    right. split; [done|]. by exists c. }
  destruct (pm_is_leaf m && is_device (pm_name m)) eqn:E4; [|done]. intros [= <-]. apply andb_true_iff in E4 as [_ E4].
  destruct Hclass. split_and!; try done; [by apply Hdev|by left].
Qed.

(** C18: every button on the device table of a pool works as far as the daemon is
    concerned. What a remove, detach, online or attach button sends is accepted by its
    form; the message passes the daemon's ingress as the same request; and the command
    run for it names exactly the pool shown and the row's own vdev or device (for
    attach: the anchor chosen, and the device picked). Where the buttons are: remove
    on vdevs listed at the top level, of the data class only if no raidz is listed
    there and another data vdev is; detach on a device inside a mirror; online on a
    device with a health that is neither ONLINE nor AVAIL; attach not on cache and
    spare devices nor inside a vdev, and on a mirror through one of its devices, one
    that is online if any is. (All this as the listing is read: the devices of a dRAID
    vdev, whose name is not recognised, count as top-level ones.) *)
Theorem pool_actions_accepted (p : PoolName) nt s v s' row l :
  gather_pool_detail (as_str p) nt s = (Ok v, s') → row ∈ pd_members v →
  ∃ ms m, pool_listing (length (st_sent s)) (as_str p) ms ∧ m ∈ ms ∧ rm_name row = pm_name m ∧
    (rm_can_remove row = true →
      leads_to l (FRemove (as_str p) (rm_name row)) ["remove"; as_str p; rm_name row] ∧ pm_parent m = None ∧
      (pm_class m = ZfsView.Data → pool_has_raidz ms = false ∧ (2 <= length (List.filter toplevel_data ms))%nat)) ∧
    (rm_can_detach row = true →
      leads_to l (FDetach (as_str p) (rm_name row)) ["detach"; as_str p; rm_name row] ∧ ∃ parent, device_in parent m ∧ starts_with "mirror-" parent = true) ∧
    (rm_can_online row = true →
      leads_to l (FOnline (as_str p) (rm_name row)) ["online"; as_str p; rm_name row] ∧ ∃ h, pm_health m = Some h ∧ h ≠ "ONLINE" ∧ h ≠ "AVAIL") ∧
    (∀ t, rm_attach_target row = Some t →
      (∀ d : DevicePath, leads_to l (FAttach (as_str p) t (as_str d)) ["attach"; as_str p; t; as_str d]) ∧ pm_parent m = None ∧
      pm_class m ≠ ZfsView.Cache ∧ pm_class m ≠ ZfsView.Spare ∧
      (t = pm_name m ∨
       starts_with "mirror-" (pm_name m) = true ∧ ∃ c, c ∈ ms ∧ device_in (pm_name m) c ∧ t = pm_name c ∧
         (online c = false → ∀ c', c' ∈ ms → device_in (pm_name m) c' → online c' = false))).
Proof.
  intros Hg Hrow. destruct (pool_detail_members _ _ _ _ _ _ Hg Hrow) as (ms & m & urls & Hms & Hm & ->).
  pose proof (pool_listing_leaf _ _ _ _ Hms Hm) as Hleaf. exists ms, m. unfold member_row_of.
  cbn [rm_name rm_can_remove rm_can_detach rm_can_online rm_attach_target].
  pose proof (trim_name p) as Hp. split_and!; [done|done|done| | | |].
  - unfold can_remove. intros [[Hpar%is_none_spec Ht]%andb_true_iff Hc]%andb_true_iff.
    destruct (new NtVdevTarget (pm_name m)) as [t|] eqn:E; [|done]. apply new_Ok in E. split_and!; [|done|].
    + eexists. rewrite <-E. split; [apply (ask_remove _ _ _ p t); by rewrite trim_name|]. split; [by apply operation_round_trip|done].
    + intros Hd. rewrite Hd in Hc. apply andb_true_iff in Hc as [[Hr%negb_true_iff Hn%N.ltb_lt]%andb_true_iff _]. split; [done|]. unfold data_toplevels in Hn. lia.
  - unfold can_detach. intros [[Hl Hpar]%andb_true_iff Hd]%andb_true_iff. destruct (pm_parent m) as [parent|] eqn:Ep; [|done]. split.
    + apply valid_device in Hd as [d Hd]. eexists. rewrite <-Hd. split; [apply (ask_detach _ _ _ p d); by rewrite trim_name|]. split; [by apply operation_round_trip|done].
    + by exists parent.
  - unfold can_online. intros [[Hl Hd]%andb_true_iff Hh]%andb_true_iff. split.
    + apply valid_device in Hd as [d Hd]. eexists. rewrite <-Hd. split; [apply (ask_online _ _ _ p d); by rewrite trim_name|]. split; [by apply operation_round_trip|done].
    + destruct (pm_health m) as [h|]; [|done]. apply negb_true_iff, orb_false_iff in Hh as [H1%bool_decide_eq_false H2%bool_decide_eq_false]. by exists h.
  - intros t. by apply attach_accepted.
Qed.

(** ** Shrinking: the form's gate and the helper's *)

Definition same_verdict (w : Shrink) (h : result string FsPlan) : Prop :=
  match w, h with
  | ShExt, Ok PlanExt | ShBtrfs, Ok PlanBtrfs | ShRaw, Ok PlanRaw => True
  | ShNo reason, Err reason' => reason = reason'
  | _, _ => False
  end.
Lemma one_of_single x t : one_of [x] t = bool_decide (t = x).
Proof. apply bool_decide_ext. apply list_elem_of_singleton. Qed.
Lemma verdicts_agree fstype mounted : same_verdict (shrinkability fstype mounted) (plan_fs fstype mounted).
Proof.
  unfold shrinkability, plan_fs. destruct fstype as [f|]; [|done]. rewrite !one_of_single. unfold one_of.
  repeat lazymatch goal with |- context [if ?b then _ else _] => destruct b end; done.
Qed.

(** The shrink form and the helper agree on what can be shrunk: for every
    filesystem, mounted or not, both let it through and plan the same work, or both
    refuse with the same words. A request the form sends is for a listed partition
    whose filesystem the helper accepts, with a whole number of MiB, not zero, that
    is strictly less than the partition has. *)
Lemma shrink_gates_agree :
  (∀ fstype mounted, same_verdict (shrinkability fstype mounted) (plan_fs fstype mounted)) ∧
  (∀ l disk number size unit req, asks l (FPartShrink disk number size unit) req →
    ∃ d p n plan, req = RPartitionShrink {| partition_shrink_disk := d; partition_shrink_number := number; partition_shrink_size_sectors := n |} ∧
      as_str d = trim disk ∧ listed l (as_str d) number p ∧
      plan_fs (pt_fstype p) (negb (is_none (pt_mountpoint p))) = Ok plan ∧
      raw n mod 2048 = 0 ∧ 0 < raw n ∧ 512 * raw n < raw (pt_size p)).
Proof.
  split; [apply verdicts_agree|]. intros l disk number size unit req Ha.
  inversion Ha as [| | |? ? ? ? d b p n Hd Hamt Hmib Hp Hs Hn Hlt| | | | | | | | | | | | | | | | | | | | | | | | | |]; subst.
  assert (Hplan : ∃ plan, plan_fs (pt_fstype p) (negb (is_none (pt_mountpoint p))) = Ok plan).
  { pose proof (verdicts_agree (pt_fstype p) (negb (is_none (pt_mountpoint p)))) as Hv.
    destruct (plan_fs _ _) as [plan|e]; [by exists plan|]. unfold same_verdict in Hv. destruct (shrinkability _ _) as [| | |reason] eqn:E; try done. by destruct (Hs reason). }
  destruct Hplan as [plan Hplan]. exists d, p, n, plan. destruct Hmib as [q Hq]. destruct Hamt as (v & m & _ & _ & _ & Hpos).
  rewrite Hq in Hn, Hpos. assert (En : raw n = q * 2048) by (rewrite Hn; change (2 ^ 20) with (2048 * 512); rewrite N.mul_assoc; apply N.div_mul; done).
  split_and!; try done; [by rewrite En, N.Div0.mod_mul|rewrite En; lia|].
  pose proof (N.Div0.mul_div_le (raw (pt_size p)) 512). lia.
Qed.
End forms.

(** ** A host with a free disk, a partitioned one and a pool *)

#[local] Existing Instances demo_sqlite demo_clock demo_rows demo_helper demo_cron.
Definition zrow (l : list string) : string := String.concat (String "009" "") l +:+ String "010" "".
Definition demo_vdevs : string :=
  zrow ["tank"; "10"; "5"; "5"; "0"; "ONLINE"] +:+ zrow [""; "mirror-0"; "10"; "5"; "5"; "0"; "ONLINE"] +:+
  zrow [""; "/dev/sda"; "10"; "-"; "-"; "-"; "REMOVED"] +:+ zrow [""; "/dev/sdd"; "10"; "-"; "-"; "-"; "ONLINE"].
#[local] Instance demo_shell : Shell := λ _ argv,
  match argv with
  | "zpool" :: "list" :: "-vHLPp" :: _ => Exited true (Some demo_vdevs) ""
  | "zpool" :: "list" :: _ => Exited true (Some (zrow ["tank"; "10"; "5"; "5"; "0"; "ONLINE"])) ""
  | _ => Exited true (Some "") ""
  end.
Definition demo_dev (name kind : string) (fstype mountpoint : option string) (children : list LsblkDev) : LsblkDev := {|
  ld_name := name; ld_kind := kind; ld_size := lit 1073741824; ld_fstype := fstype; ld_model := None; ld_serial := None;
  ld_tran := None; ld_id_link := None; ld_partlabel := None; ld_mountpoint := mountpoint; ld_children := children |}.
#[local] Instance demo_tools : Tools := {|
  tools_lsblk _ := Ok [demo_dev "sdb" "disk" None None [];
                       demo_dev "sdc" "disk" None None
                         [demo_dev "sdc1" "part" None None []; demo_dev "sdc2" "part" (Some "ext4") None []]];
  tools_vgs _ := Ok []; tools_lvs _ := Ok []; tools_pvs _ := Ok [] |}.
#[local] Instance demo_smart : SmartRead := λ _ _, None.
Definition demo_disk : BlockDev := Refine "sdb" I.
Lemma storage_forms_exact_witness :
  ∃ kind title, let r := submit [] (FTable " sdb ") demo_site in
    dispatched kind title (RPartitionTableCreate {| partition_table_create_disk := demo_disk |}) demo_site r.1 r.2.
Proof.
  destruct (storage_forms_exact [] (FTable " sdb ") demo_site _ _ (surjective_pairing _)) as [(kind & title & req & Ha & Hone & Hd)|[Hn _]].
  - exists kind, title. rewrite (Hone (RPartitionTableCreate {| partition_table_create_disk := demo_disk |}));
      [exact Hd|apply ask_table; vm_compute; reflexivity].
  - destruct (Hn (RPartitionTableCreate {| partition_table_create_disk := demo_disk |})). apply ask_table. vm_compute. reflexivity.
Defined.
Definition demo_offer : result fault PoolCreateView * site := gather_pool_create ∅ None demo_site.
Definition demo_offer_view : PoolCreateView :=
  match demo_offer.1 with Ok v => v | Err _ => {| pc_devices := []; pc_not_installed := true; pc_error := None |} end.
Lemma offered_devices_free_witness :
  do_path <$> pc_devices demo_offer_view = ["/dev/sdb"; "/dev/sdc1"] ∧ offers demo_site (do_path <$> pc_devices demo_offer_view).
Proof.
  split; [vm_compute; reflexivity|]. destruct (offered_devices_free demo_site) as (Hp & _). apply (Hp ∅ None demo_offer_view demo_offer.2).
  - vm_compute. reflexivity.
  - vm_compute. reflexivity.
Defined.
Definition demo_pool : PoolName := Refine "tank" I.
Definition demo_detail : result fault PoolDetailView * site := gather_pool_detail "tank" quiet demo_site.
Definition demo_members : list MemberRow := match demo_detail.1 with Ok v => pd_members v | Err _ => [] end.
Lemma pool_actions_accepted_witness :
  ((λ r, (rm_name r, rm_can_detach r, rm_can_online r, rm_attach_target r)) <$> demo_members) =
    [("mirror-0", false, false, Some "/dev/sdd"); ("/dev/sda", true, true, None); ("/dev/sdd", true, false, None)] ∧
  leads_to (Ok []) (FDetach "tank" "/dev/sda") ["detach"; "tank"; "/dev/sda"].
Proof.
  split; [vm_compute; reflexivity|].
  assert (Hv : ∃ v s', gather_pool_detail (as_str demo_pool) quiet demo_site = (Ok v, s') ∧ demo_members = pd_members v).
  { unfold demo_members, demo_detail. change (as_str demo_pool) with "tank". destruct (gather_pool_detail "tank" quiet demo_site) as [[v|e] s'] eqn:E.
    - by exists v, s'.
    - exfalso. assert (Hf : is_ok demo_detail.1 = true) by (vm_compute; reflexivity). unfold demo_detail in Hf. rewrite E in Hf. done. }
  destruct Hv as (v & s' & Hg & Hm).
  assert (Hrow : ∃ row, row ∈ pd_members v ∧ rm_name row = "/dev/sda" ∧ rm_can_detach row = true).
  { rewrite <-Hm. exists (default (member_row_of [] ∅ {| pm_pool := ""; pm_class := ZfsView.Data; pm_name := ""; pm_is_leaf := true; pm_parent := None;
      pm_size := None; pm_alloc := None; pm_health := None |}) (demo_members !! 1%nat)).
    split_and!; [apply (list_elem_of_lookup_2 _ 1); vm_compute; reflexivity|vm_compute; reflexivity|vm_compute; reflexivity]. }
  destruct Hrow as (row & Hrow & Hname & Hd).
  destruct (pool_actions_accepted demo_pool quiet demo_site v s' row (Ok []) Hg Hrow) as (ms & m & _ & _ & _ & _ & Hdet & _).
  rewrite <-Hname. exact (proj1 (Hdet Hd)).
Defined.
Lemma shrink_gates_agree_witness : plan_fs (Some "ext4") true = Err ("mounted " +:+ em_dash +:+ " unmount it first").
Proof.
  destruct shrink_gates_agree as [Hv _]. specialize (Hv (Some "ext4") true). destruct (plan_fs (Some "ext4") true) as [plan|e]; [done|].
  cbn in Hv. by rewrite <-Hv.
Defined.

(** A dRAID vdev is not recognised (its name has colons), so its devices count as
    single disks of the pool: each is offered for removal and as a mirror. *)
Lemma draid_devices_single :
  let out := zrow ["tank"; "10"; "5"; "5"; "0"; "ONLINE"] +:+ zrow [""; "draid1:2d:3c:0s-0"; "10"; "5"; "5"; "0"; "ONLINE"] +:+
             zrow [""; "/dev/sda"; "10"; "-"; "-"; "-"; "ONLINE"] +:+ zrow [""; "/dev/sdb"; "10"; "-"; "-"; "-"; "ONLINE"] in
  match parse_pool_vdevs out with
  | Ok ms => (λ r, (rm_name r, rm_can_remove r, rm_attach_target r)) <$> member_rows ms ∅ =
      [("draid1:2d:3c:0s-0", false, None); ("/dev/sda", true, Some "/dev/sda"); ("/dev/sdb", true, Some "/dev/sdb")]
  | Err _ => False
  end.
Proof. vm_compute. reflexivity. Qed.
(** A disk in use through an opened encryption layer, itself mounted, is listed as
    available: only its own mount point is looked at. *)
Lemma opened_disk_available :
  av_path <$> available_from_disks
    [disk_of (demo_dev "sde" "disk" (Some "crypto_LUKS") None [demo_dev "luks-1" "crypt" (Some "ext4") (Some "/srv") []])] [] [] ∅ =
  ["/dev/sde"].
Proof. vm_compute. reflexivity. Qed.
