(* ===== verification/Cli.v ===== *)
(** * The command line (greendot-client's main.rs, api.rs, diagnose.rs)

    What a user runs on an initiator: it reads the stored targets, asks a target's
    API, registers, and has the agent (or itself, as root) perform the privileged
    step. A command is a function on a [session]: the machine of [Client] and the
    log of what the command did, in order, with the answers it got. The network,
    the running agent and serde's decoders are class parameters. *)
From Stdlib Require Import Ascii String.
From stdpp Require Import base option list strings sets gmap pretty.
From S2P Require Import Prelude Ordered Validate IpAddr Types Fs World Reconcile Hardware Commands Csi Auth Sessions Client.
#[local] Open Scope string_scope.
#[local] Open Scope list_scope.

(** ** Replies of the API (api.rs) *)

Record TargetInfo : Type := { ti_name : string; ti_api : u32; ti_version : string }.
Record Listener : Type := { li_trtype : string; li_traddr : option IpAddr; li_trsvcid : u16 }.
Record NvmeExport : Type := {
  ne_id : Z; ne_name : string; ne_nqn : string; ne_enabled : bool; ne_authorized : bool; ne_listeners : list Listener }.
Record NfsExport : Type := {
  fe_id : Z; fe_path : string; fe_enabled : bool; fe_port : u16; fe_rdma : bool; fe_authorized : bool }.
Record Exports : Type := { ex_nvme : list NvmeExport; ex_nfs : list NfsExport }.
Record RegisterReply : Type := { rr_task_id : option Z }.
Record TaskInfo : Type := { tk_status : string; tk_error : option string }.
(** serde_json on the body of a reply. *)
Class ApiJson := {
  json_target : string → result string TargetInfo;
  json_exports : string → result string Exports;
  json_register : string → result string RegisterReply;
  json_task : string → result string TaskInfo }.

(** ** What a command does *)

Abbreviation object := (gmap string scalar).

(** A request as it leaves: the certificate pin its connection is bound to, the
    bearer token, and the body. *)
Record request : Type := {
  rq_url : string; rq_token : string; rq_pin : option (list N); rq_body : option json }.
(** ureq's result: a reply, a status of 400 or more, or no reply. *)
Inductive answer : Type := Body (text : string) | Status (code : N) (text : string) | Unreached (msg : string).
Inductive output : Type := Json (v : json) | Line (s : string).
Record AgentOpts : Type := {
  ao_socket : path; ao_group : string; ao_config_dir : path; ao_paths : PrivPaths; ao_allow_uid : option u32 }.
Inductive act : Type :=
| Loaded (l : list TargetEntry)
| Asked (r : request) (a : answer)
| Called (op : AgentOp) (r : result string object)
| Printed (o : output)
| Served (o : AgentOpts).
Record session : Type := { se_host : host; se_log : list act }.
(** An error of [anyhow], or a panic. *)
Inductive stop : Type := Error (msg : string) | Panic.
Definition cli (A : Type) : Type := session → result stop A * session.
#[export] Instance cli_ret : MRet cli := λ A a s, (Ok a, s).
#[export] Instance cli_bind : MBind cli := λ A B f m s,
  match m s with
  | (Ok a, s') => f a s'
  | (Err e, s') => (Err e, s')
  end.
Definition bail {A} (msg : string) : cli A := λ s, (Err (Error msg), s).
Definition lift {A} (r : result string A) : cli A := λ s, (map_err Error r, s).
Definition logged {A} (a : act) (x : A) : cli A := λ s, (Ok x, {| se_host := se_host s; se_log := se_log s ++ [a] |}).
Definition print_out (o : output) : cli unit := logged (Printed o) tt.
(** A look at the machine, which the command itself does not change. *)
Definition see {A} (f : tree → A) : cli A := λ s, (Ok (f (ho_tree (se_host s))), s).
(** The error as a value; a panic is none. *)
Definition attempt {A} (m : cli A) : cli (result string A) := λ s,
  match m s with
  | (Ok a, s') => (Ok (Ok a), s')
  | (Err (Error e), s') => (Ok (Err e), s')
  | (Err Panic, s') => (Err Panic, s')
  end.
Definition ctx {A} (what : string) (r : result string A) : result string A := map_err (λ e, what +:+ ": " +:+ e) r.

(** Name resolution, a TCP connection, and ureq. *)
Class Net := {
  lookup_host : nat → string → result string (list IpAddr);
  lookup_addr : nat → string → result string (list (IpAddr * u16));
  dial : nat → IpAddr * u16 → result string unit;
  http : nat → request → answer }.
(** What the command finds of the agent: the one listening on a socket, with its
    own roots, and whether it serves this user; and whether the user is root. *)
Record seat : Type := { st_paths : PrivPaths; st_config_dir : path; st_allowed : bool }.
Class Seat := {
  agent_at : nat → path → option seat;
  no_agent : path → string;
  is_root : bool;
  serve : AgentOpts → result string unit }.

Section cli.
Context {K : Kernel} {M : Machine} {TC : TargetsCodec} {J : AgentJson} {AJ : ApiJson} {W : Net} {U : Seat}.

(** ** The API (api.rs) *)

Definition ask (r : request) : cli answer := λ s,
  let a := http (length (se_log s)) r in
  (Ok a, {| se_host := snd (sleep (se_host s)); se_log := se_log s ++ [Asked r a] |}).
Definition hex_val (c : ascii) : option N :=
  if is_ascii_digit c then Some (code c - 48)%N
  else if in_range 97 102 c then Some (code c - 87)%N
  else if in_range 65 70 c then Some (code c - 55)%N else None.
(** [u8::from_str_radix(s, 16)] on two characters; a leading plus is accepted. *)
Definition hex_byte (a b : ascii) : option N :=
  y ← hex_val b;
  x ← if Ascii.eqb a "+" then Some 0%N else hex_val a;
  Some (16 * x + y)%N.
(** Cutting a string inside a character panics. *)
Definition continuation (s : string) : bool := first_char (in_range 0x80 0xBF) s.
Fixpoint hex_bytes (hex s : string) : result stop (list N) :=
  match s with
  | String a (String b r) =>
      if continuation r then Err Panic
      else
        match hex_byte a b with
        | Some n => l ← hex_bytes hex r; Ok (n :: l)
        | None => Err (Error ("bad hex in fingerprint " +:+ debug_str hex +:+ ": invalid digit found in string"))
        end
  | _ => Ok []
  end.
Definition parse_fingerprint (hex : string) : result stop (list N) :=
  if negb (slen hex =? 64)%N then Err (Error "fingerprint must be 64 hex chars") else hex_bytes hex hex.
(** [PinnedCert::verify_server_cert]: the digest of the certificate the server
    shows against the pin. *)
Definition verify_server_cert (digest : string → list N) (pin : list N) (end_entity : string) : bool :=
  bool_decide (digest end_entity = pin).
Record TargetApi : Type := { api_pin : option (list N); api_base : string; api_token : string }.
Definition api_connect (p : Pairing) : cli TargetApi := λ s,
  match pa_fingerprint p with
  | Some fp =>
      match parse_fingerprint fp with
      | Ok pin =>
          (Ok {| api_pin := Some pin; api_base := "https://" +:+ pa_host p +:+ "/api/client/v1"; api_token := pa_token p |}, s)
      | Err e => (Err e, s)
      end
  | None => (Ok {| api_pin := None; api_base := "http://" +:+ pa_host p +:+ "/api/client/v1"; api_token := pa_token p |}, s)
  end.
Definition map_answer (a : answer) : result string string :=
  match a with
  | Body text => Ok text
  | Status code text =>
      if (code =? 401)%N then
        Err ("target rejected the token (revoked?) " +:+ em_dash +:+ " create a new connection string and re-add the target")
      else Err ("target returned HTTP " +:+ pretty code +:+ ": " +:+ text)
  | Unreached t =>
      Err ("could not reach target: " +:+ t +:+ " (a certificate error means the target's TLS cert changed " +:+ em_dash +:+
           " re-add the target with a fresh connection string)")
  end.
Definition api_request (api : TargetApi) (p : string) (body : option json) : request :=
  {| rq_url := api_base api +:+ p; rq_token := api_token api; rq_pin := api_pin api; rq_body := body |}.
Definition send {T} (decode : string → result string T) (api : TargetApi) (p : string) (body : option json) : cli T :=
  a ← ask (api_request api p body);
  text ← lift (map_answer a);
  lift (decode text).
Definition get {T} (decode : string → result string T) (api : TargetApi) (p : string) : cli T := send decode api p None.
Definition post {T} (decode : string → result string T) (api : TargetApi) (p : string) (body : json) : cli T :=
  send decode api p (Some body).
Definition api_target (api : TargetApi) : cli TargetInfo :=
  info ← get json_target api "/target";
  if bool_decide (raw (ti_api info) = 1%N) then mret info
  else bail ("target speaks client API v" +:+ show_uint (ti_api info) +:+ ", this client only v1").
Definition exports (api : TargetApi) (hostnqn : option string) : cli Exports :=
  match hostnqn with
  | Some h => get json_exports api ("/exports?hostnqn=" +:+ h)
  | None => get json_exports api "/exports"
  end.
Definition register_nvme_path (id : Z) : string := "/exports/nvme/" +:+ show_Z id +:+ "/register".
Definition api_register_nvme (api : TargetApi) (id : Z) (hostnqn : string) : cli RegisterReply :=
  post json_register api (register_nvme_path id) (JObject [("hostnqn", JString hostnqn)]).
Definition register_nfs_path (id : Z) : string := "/exports/nfs/" +:+ show_Z id +:+ "/register".
Definition api_register_nfs (api : TargetApi) (id : Z) (rw : bool) : cli RegisterReply :=
  post json_register api (register_nfs_path id) (JObject [("rw", JBool rw)]).
Definition nap : cli unit := λ s, (Ok tt, {| se_host := snd (sleep (se_host s)); se_log := se_log s |}).
Definition task_path (id : Z) : string := "/tasks/" +:+ show_Z id.
Fixpoint poll_task (n : nat) (api : TargetApi) (id : Z) : cli unit :=
  match n with
  | O => bail ("target reconcile still running after 30s " +:+ em_dash +:+ " check its Tasks page")
  | S n =>
      task ← get json_task api (task_path id);
      if bool_decide (tk_status task = "success") then mret tt
      else if bool_decide (tk_status task = "failed") then
        bail ("target reconcile failed: " +:+ default "unknown" (tk_error task))
      else _ ← nap; poll_task n api id
  end.
Definition wait_task (api : TargetApi) (id : Z) : cli unit := poll_task 60 api id.

(** ** Global options and the broker (main.rs) *)

Record Global : Type := { gl_json : bool; gl_config_dir : path; gl_socket : path; gl_sys_root : path }.
Definition default_global : Global :=
  {| gl_json := false; gl_config_dir := ["etc"; "greendot-client"]; gl_socket := ["run"; "greendot-client"; "agent.sock"]; gl_sys_root := [] |}.
Definition set_global (g : Global) (flag : string) (v : path) : option Global :=
  if bool_decide (flag = "--config-dir") then
    Some {| gl_json := gl_json g; gl_config_dir := v; gl_socket := gl_socket g; gl_sys_root := gl_sys_root g |}
  else if bool_decide (flag = "--socket") then
    Some {| gl_json := gl_json g; gl_config_dir := gl_config_dir g; gl_socket := v; gl_sys_root := gl_sys_root g |}
  else if bool_decide (flag = "--sys-root") then
    Some {| gl_json := gl_json g; gl_config_dir := gl_config_dir g; gl_socket := gl_socket g; gl_sys_root := v |}
  else None.
(** The flags wherever they stand, and the other arguments in order; [None] is
    the usage message. *)
Fixpoint parse_global (args : list string) (g : Global) (rest : list string) : option (Global * list string) :=
  match args with
  | [] => Some (g, rest)
  | arg :: args =>
      if bool_decide (arg = "--json") then
        parse_global args {| gl_json := true; gl_config_dir := gl_config_dir g; gl_socket := gl_socket g; gl_sys_root := gl_sys_root g |} rest
      else if bool_decide (arg ∈ ["--config-dir"; "--socket"; "--sys-root"]) then
        match args with
        | v :: args => g ← set_global g arg (components v); parse_global args g rest
        | [] => None
        end
      else parse_global args g (rest ++ [arg])
  end.
Record SysRoots : Type := {
  sy_sys_class_nvme : path; sy_sys_class_infiniband : path; sy_sys_module : path; sy_proc_mounts : path }.
Definition SysRoots_at (root : path) : SysRoots :=
  {| sy_sys_class_nvme := root ++ ["sys"; "class"; "nvme"]; sy_sys_class_infiniband := root ++ ["sys"; "class"; "infiniband"];
     sy_sys_module := root ++ ["sys"; "module"]; sy_proc_mounts := root ++ ["proc"; "mounts"] |}.
Definition sys (g : Global) : SysRoots := SysRoots_at (gl_sys_root g).
Definition broker (g : Global) : cli Broker := λ s,
  let found := agent_at (length (se_log s)) (gl_socket g) in
  (map_err Error (locate (bool_decide (is_Some found)) (match found with Some a => st_allowed a | None => false end) is_root (gl_socket g)), s).
(** A call performed on the machine and put in the log. *)
Definition performed (op : AgentOp) (m : cop object) : cli object := λ s,
  let '(r, h) := m (se_host s) in
  (map_err Error r, {| se_host := h; se_log := se_log s ++ [Called op r] |}).
Definition broker_call (g : Global) (b : Broker) (op : AgentOp) : cli object :=
  match b with
  | Direct => performed op (call (PrivPaths_at (gl_sys_root g)) (gl_config_dir g) Direct op)
  | Agent _ => λ s,
      match agent_at (length (se_log s)) (gl_socket g) with
      | Some a => performed op (call (st_paths a) (st_config_dir a) (Agent (st_allowed a)) op) s
      | None => performed op (cfail ("connecting " +:+ show_abs (gl_socket g) +:+ ": " +:+ no_agent (gl_socket g))) s
      end
  end.
Definition load (g : Global) : cli (list TargetEntry) := λ s,
  match load_targets (gl_config_dir g) (se_host s) with
  | (Ok l, h) => (Ok l, {| se_host := h; se_log := se_log s ++ [Loaded l] |})
  | (Err e, h) => (Err (Error e), {| se_host := h; se_log := se_log s |})
  end.
Definition next (args : list string) (msg : string) : cli (string * list string) :=
  match args with
  | a :: args => mret (a, args)
  | [] => bail msg
  end.
Definition opt_value (args : list string) (flag : string) : cli (option string) :=
  match args with
  | [] => mret None
  | f :: args =>
      if bool_decide (f = flag) then
        match args with
        | v :: _ => mret (Some v)
        | [] => bail (flag +:+ " needs a value")
        end
      else bail ("unknown argument " +:+ debug_str f)
  end.
Definition host_only (host : string) : string :=
  match strip_prefix "[" host ≫= (λ _, split_once "]" host) with
  | Some (h, _) => h +:+ "]"
  | None =>
      match rsplit_once ":" host with
      | Some (h, port) => if all_chars is_ascii_digit port then h else host
      | None => host
      end
  end.
Definition is_bracket (c : ascii) : bool := char_in "[]" c.
Fixpoint trim_start_where (p : ascii → bool) (s : string) : string :=
  match s with
  | String c r => if p c then trim_start_where p r else s
  | EmptyString => ""
  end.
Fixpoint trim_end_where (p : ascii → bool) (s : string) : string :=
  match s with
  | EmptyString => ""
  | String c r => match trim_end_where p r with EmptyString => if p c then "" else String c "" | r => String c r end
  end.
Definition trim_matches (p : ascii → bool) (s : string) : string := trim_end_where p (trim_start_where p s).
Definition resolve_traddr (host : string) : cli IpAddr := λ s,
  let bare := trim_matches is_bracket (host_only host) in
  match parse_ip bare with
  | Some ip => (Ok ip, s)
  | None =>
      match lookup_host (length (se_log s)) bare with
      | Err e => (Err (Error ("resolving " +:+ debug_str bare +:+ ": " +:+ e)), s)
      | Ok [] => (Err (Error (debug_str bare +:+ " resolves to no address")), s)
      | Ok (ip :: _) => (Ok ip, s)
      end
  end.

(** ** Targets *)

Definition pairing (t : TargetEntry) : Pairing :=
  {| pa_token := te_token t; pa_host := te_host t; pa_fingerprint := te_cert_sha256 t |}.
Definition say (g : Global) (v : json) (line : string) : cli unit := print_out (if gl_json g then Json v else Line line).
Definition cmd_add (g : Global) (args : list string) : cli unit :=
  '(string, args) ← next args "add needs a connection string";
  name ← opt_value args "--name";
  p ← lift (parse_pairing string);
  api ← api_connect p;
  info ← api_target api;
  let name := default (if is_empty (ti_name info) then pa_host p else ti_name info) name in
  b ← broker g;
  _ ← broker_call g b (AddTarget {| te_name := name; te_host := pa_host p; te_token := pa_token p; te_cert_sha256 := pa_fingerprint p |});
  say g (JObject [("ok", JBool true); ("name", JString name); ("host", JString (pa_host p)); ("hostname", JString (ti_name info))])
      ("added target " +:+ name +:+ " (" +:+ pa_host p +:+ ")").
Definition scalar_json (v : option scalar) : json :=
  match v with
  | Some (SBool b) => JBool b
  | Some (SNum n) => JNumber (pretty n)
  | Some (SStr s) => JString s
  | None => JNull
  end.
Definition str_member (key : string) (o : object) : option string :=
  match o !! key with Some (SStr s) => Some s | _ => None end.
Definition cmd_remove (g : Global) (args : list string) : cli unit :=
  '(key, _) ← next args "remove needs a target name or host";
  b ← broker g;
  reply ← broker_call g b (RemoveTarget key);
  say g (JObject [("ok", JBool true); ("name", scalar_json (reply !! "name"))])
      ("removed target " +:+ default "" (str_member "name" reply) +:+ " (" +:+ default "" (str_member "host" reply) +:+ ")").
Definition read_hostnqn (g : Global) (t : tree) : option string :=
  s ← read_to_string t (gl_sys_root g ++ ["etc"; "nvme"; "hostnqn"]);
  let s := trim s in
  if nonempty s then Some s else None.

(** ** Listing *)

Definition dot_str (d : Dot) : string := match d with Green => "green" | Yellow => "yellow" | Red => "red" end.
Definition jopt (s : option string) : json := match s with Some s => JString s | None => JNull end.
Definition jport (p : u16) : json := JNumber (show_uint p).
Definition nvme_row (ctrls : list NvmeController) (e : NvmeExport) : json :=
  let '(dot, reason, ctrl) := nvme_dot (ne_nqn e) ctrls in
  JObject [("kind", JString "nvme"); ("id", JNumber (show_Z (ne_id e))); ("name", JString (ne_name e)); ("nqn", JString (ne_nqn e));
           ("enabled", JBool (ne_enabled e)); ("authorized", JBool (ne_authorized e)); ("dot", JString (dot_str dot));
           ("reason", JString reason);
           ("transport", jopt (c ← ctrl; if bool_decide (nc_state c = "live") then Some (nc_transport c) else None));
           ("device", jopt (ctrl ≫= λ c, head (nc_namespaces c)))].
Definition nfs_row (host : string) (mounts : list NfsMount) (e : NfsExport) : json :=
  let '(dot, reason, m) := nfs_dot (host_only host) (fe_path e) mounts in
  JObject [("kind", JString "nfs"); ("id", JNumber (show_Z (fe_id e))); ("name", JString (fe_path e)); ("path", JString (fe_path e));
           ("enabled", JBool (fe_enabled e)); ("authorized", JBool (fe_authorized e)); ("rdma", JBool (fe_rdma e));
           ("port", jport (fe_port e)); ("dot", JString (dot_str dot)); ("reason", JString reason);
           ("transport", jopt ((λ m, if nm_rdma m then "rdma" else "tcp") <$> m));
           ("mountpoint", jopt (nm_mountpoint <$> m))].
Definition fetch (t : TargetEntry) (hostnqn : option string) : cli (TargetInfo * Exports) :=
  api ← api_connect (pairing t);
  info ← api_target api;
  e ← exports api hostnqn;
  mret (info, e).
Definition target_row (hostnqn : option string) (ctrls : list NvmeController) (mounts : list NfsMount) (t : TargetEntry) : cli json :=
  fetched ← attempt (fetch t hostnqn);
  mret
    match fetched with
    | Ok (info, e) =>
        JObject [("name", JString (te_name t)); ("host", JString (te_host t)); ("hostname", JString (ti_name info));
                 ("reachable", JBool true); ("error", JNull);
                 ("exports", JArray ((nvme_row ctrls <$> ex_nvme e) ++ (nfs_row (te_host t) mounts <$> ex_nfs e)))]
    | Err e =>
        JObject [("name", JString (te_name t)); ("host", JString (te_host t)); ("hostname", JString "");
                 ("reachable", JBool false); ("error", JString e); ("exports", JArray [])]
    end.
Fixpoint each {A B} (f : A → cli B) (l : list A) : cli (list B) :=
  match l with
  | [] => mret []
  | a :: l => b ← f a; k ← each f l; mret (b :: k)
  end.
(** [{:n}]: padded on the right; the width counts characters. *)
Definition char_count (s : string) : nat := length (List.filter (λ c, negb (in_range 0x80 0xBF c)) (chars s)).
Fixpoint spaces (n : nat) : string := match n with O => "" | S n => " " +:+ spaces n end.
Definition pad (n : nat) (s : string) : string := s +:+ spaces (n - char_count s).
Definition member_str (key : string) (v : json) : string := default "" (as_string (json_at key v)).
(** The coloured circles U+1F7E2, U+1F7E1 and U+1F534. *)
Definition circle (dot : option string) : string :=
  if bool_decide (dot = Some "green") then chr 240 +:+ chr 159 +:+ chr 159 +:+ chr 162
  else if bool_decide (dot = Some "yellow") then chr 240 +:+ chr 159 +:+ chr 159 +:+ chr 161
  else chr 240 +:+ chr 159 +:+ chr 148 +:+ chr 180.
Definition export_line (e : json) : string :=
  let place := match as_string (json_at "device" e) with
               | Some d => d
               | None => default "" (as_string (json_at "mountpoint" e))
               end in
  "  " +:+ circle (as_string (json_at "dot" e)) +:+ " " +:+ pad 4 (member_str "kind" e) +:+ " " +:+ pad 24 (member_str "name" e) +:+ " " +:+
  member_str "reason" e +:+ " " +:+ place.
Definition target_lines (t : json) : list string :=
  let unreachable := if bool_decide (as_bool (json_at "reachable" t) = Some true) then ""
                     else " " +:+ em_dash +:+ " UNREACHABLE: " +:+ member_str "error" t in
  (member_str "name" t +:+ " (" +:+ member_str "host" t +:+ ")" +:+ unreachable)
  :: (export_line <$> default [] (as_array (json_at "exports" t))).
Definition print_lines (l : list string) : cli unit := _ ← each (λ s, print_out (Line s)) l; mret tt.
Definition cmd_list (g : Global) (args : list string) : cli unit :=
  match args with
  | extra :: _ => bail ("unknown argument " +:+ debug_str extra)
  | [] =>
      targets ← load g;
      hostnqn ← see (read_hostnqn g);
      ctrls ← see (λ t, nvme_controllers t (sy_sys_class_nvme (sys g)));
      mounts ← see (λ t, nfs_mounts t (sy_proc_mounts (sys g)));
      out ← each (target_row hostnqn ctrls mounts) targets;
      if gl_json g then print_out (Json (JObject [("ok", JBool true); ("hostnqn", jopt hostnqn); ("targets", JArray out)]))
      else
        match out with
        | [] => print_out (Line ("no targets " +:+ em_dash +:+ " add one with: greendot-client add <connection-string>"))
        | _ => print_lines (mjoin (target_lines <$> out))
        end
  end.

(** ** Block exports *)

Definition register_nvme (api : TargetApi) (id : Z) (hostnqn : string) : cli unit :=
  reply ← api_register_nvme api id hostnqn;
  match rr_task_id reply with
  | Some task => wait_task api task
  | None => mret tt
  end.
Definition forced_transport (v : option string) : cli (option string) :=
  match v with
  | None => mret None
  | Some v =>
      if bool_decide (v = "rdma") then mret (Some "rdma")
      else if bool_decide (v = "tcp") then mret (Some "tcp")
      else bail ("unknown transport " +:+ debug_str v +:+ " (rdma or tcp)")
  end.
Definition is_named (export : string) (e : NvmeExport) : bool := bool_decide (ne_name e = export) || bool_decide (ne_nqn e = export).
(** [sort_by_key(|l| l.trtype != "rdma")]. *)
Definition plan (forced : option string) (l : list Listener) : list Listener :=
  sort_by (λ l, if bool_decide (li_trtype l = "rdma") then 0%N else 1%N)
    (List.filter (λ l, match forced with Some f => bool_decide (li_trtype l = f) | None => true end) l).
Definition wire_transport (s : string) : option Transport :=
  if bool_decide (s = "rdma") then Some Rdma else if bool_decide (s = "tcp") then Some Tcp else None.
Definition connected_out (g : Global) (export : string) (l : Listener) (device : string) (fallback : option string) : cli unit :=
  if gl_json g then
    print_out (Json (JObject [("ok", JBool true); ("transport", JString (li_trtype l)); ("device", JString device);
                              ("fallback_reason", jopt fallback)]))
  else
    _ ← print_out (Line ("connected " +:+ export +:+ " over " +:+ li_trtype l +:+ " at " +:+ device));
    match fallback with
    | Some reason => print_out (Line ("  (fell back from RDMA: " +:+ reason +:+ ")"))
    | None => mret tt
    end.
(** One listener after the other until one connects. *)
Fixpoint try_listeners (g : Global) (b : Broker) (host export : string) (nqn hostnqn : Nqn) (l : list Listener)
    (fallback last : option string) : cli unit :=
  match l with
  | [] => bail (default "no usable listener" last)
  | li :: l =>
      match wire_transport (li_trtype li) with
      | None => try_listeners g b host export nqn hostnqn l fallback (Some ("unsupported transport " +:+ debug_str (li_trtype li)))
      | Some transport =>
          traddr ← match li_traddr li with Some ip => mret ip | None => resolve_traddr host end;
          r ← attempt (broker_call g b (ConnectNvme nqn transport traddr (li_trsvcid li) hostnqn));
          match r with
          | Ok reply => connected_out g export li (default "" (str_member "device" reply)) fallback
          | Err e => try_listeners g b host export nqn hostnqn l (if bool_decide (transport = Rdma) then Some e else fallback) (Some e)
          end
      end
  end.
Definition context {A} (msg : string) (o : option A) : cli A := match o with Some a => mret a | None => bail msg end.
Definition new_in (what : string) (s : string) : cli Nqn :=
  lift (ctx what (map_err show_ValidationError (new NtNqn s))).
Definition cmd_connect (g : Global) (args : list string) : cli unit :=
  '(target, args) ← next args "connect needs a target";
  '(export, args) ← next args "connect needs an export name";
  flag ← opt_value args "--transport";
  forced ← forced_transport flag;
  targets ← load g;
  t ← lift (find_target target targets);
  api ← api_connect (pairing t);
  exs ← exports api None;
  e ← context ("target has no NVMe export " +:+ debug_str export) (List.find (is_named export) (ex_nvme exs));
  if negb (ne_enabled e) then bail ("export " +:+ debug_str export +:+ " is disabled on the target")
  else if bool_decide (ne_listeners e = []) then bail ("export " +:+ debug_str export +:+ " has no network listeners")
  else
    b ← broker g;
    reply ← broker_call g b EnsureHostnqn;
    hostnqn ← context "agent hostnqn" (str_member "hostnqn" reply);
    _ ← register_nvme api (ne_id e) hostnqn;
    nqn ← new_in "target sent an invalid nqn" (ne_nqn e);
    hostnqn ← new_in "invalid local hostnqn" hostnqn;
    match plan forced (ne_listeners e) with
    | [] => bail ("export " +:+ debug_str export +:+ " offers no " +:+ default "?" forced +:+ " listener")
    | l => try_listeners g b (te_host t) export nqn hostnqn l None None
    end.
Definition export_nqn (export : string) : result string Nqn :=
  map_err show_ValidationError
    (if starts_with "nqn." export then new NtNqn export else new NtNqn (OUR_NQN_PREFIX +:+ export)).
Definition num_member (key : string) (o : object) : option N := match o !! key with Some (SNum n) => Some n | _ => None end.
Definition cmd_disconnect (g : Global) (args : list string) : cli unit :=
  '(_, args) ← next args "disconnect needs a target";
  '(export, _) ← next args "disconnect needs an export name";
  nqn ← lift (export_nqn export);
  b ← broker g;
  reply ← broker_call g b (DisconnectNvme nqn);
  let deleted := default 0%N (num_member "deleted" reply) in
  say g (JObject [("ok", JBool true); ("deleted", JNumber (pretty deleted))])
      (if (deleted =? 0)%N then export +:+ " was not connected"
       else "disconnected " +:+ export +:+ " (" +:+ pretty deleted +:+ " controller(s))").

(** ** NFS exports *)

Definition path_slug (p : string) : string := replace_char "/" "-" (trim_matches (Ascii.eqb "/") p).
Fixpoint mount_args (args : list string) (mountpoint : option string) (force_tcp : bool) : result string (option string * bool) :=
  match args with
  | [] => Ok (mountpoint, force_tcp)
  | a :: args =>
      if bool_decide (a = "--tcp") then mount_args args mountpoint true
      else if bool_decide (mountpoint = None) && starts_with "/" a then mount_args args (Some a) force_tcp
      else Err ("unknown argument " +:+ debug_str a)
  end.
Definition is_path (export : string) (e : NfsExport) : bool :=
  bool_decide (fe_path e = export) || bool_decide (path_slug (fe_path e) = export).
Definition print_mounted (g : Global) (transport mountpoint : string) (fallback : option string) : cli unit :=
  if gl_json g then
    print_out (Json (JObject [("ok", JBool true); ("transport", JString transport); ("mountpoint", JString mountpoint);
                              ("fallback_reason", jopt fallback)]))
  else
    _ ← print_out (Line ("mounted at " +:+ mountpoint +:+ " over " +:+ transport));
    match fallback with
    | Some reason => print_out (Line ("  (fell back from RDMA: " +:+ reason +:+ ")"))
    | None => mret tt
    end.
Definition mount_tcp (g : Global) (b : Broker) (op : bool → AgentOp) (mountpoint : string) (fallback : option string) : cli unit :=
  _ ← broker_call g b (op false);
  print_mounted g "tcp" mountpoint fallback.
Definition cmd_mount (g : Global) (args : list string) : cli unit :=
  '(target, args) ← next args "mount needs a target";
  '(export, args) ← next args "mount needs an export path";
  parsed ← lift (mount_args args None false);
  let '(mountpoint, force_tcp) := parsed : option string * bool in
  targets ← load g;
  t ← lift (find_target target targets);
  api ← api_connect (pairing t);
  exs ← exports api None;
  e ← context ("target has no NFS export " +:+ debug_str export) (List.find (is_path export) (ex_nfs exs));
  if negb (fe_enabled e) then bail ("export " +:+ debug_str export +:+ " is disabled on the target")
  else
    reply ← api_register_nfs api (fe_id e) true;
    _ ← match rr_task_id reply with Some task => wait_task api task | None => mret tt end;
    b ← broker g;
    let mountpoint := default ("/mnt/greendot/" +:+ te_name t +:+ "/" +:+ path_slug (fe_path e)) mountpoint in
    let op rdma := MountNfs (host_only (te_host t)) (fe_path e) mountpoint rdma (fe_port e) in
    if force_tcp then mount_tcp g b op mountpoint None
    else if negb (fe_rdma e) then mount_tcp g b op mountpoint (Some "target has no NFS RDMA listener")
    else
      r ← attempt (broker_call g b (op true));
      match r with
      | Ok _ => print_mounted g "rdma" mountpoint None
      | Err err => mount_tcp g b op mountpoint (Some err)
      end.
Definition cmd_unmount (g : Global) (args : list string) : cli unit :=
  '(target, args) ← next args "unmount needs a target";
  '(export, _) ← next args "unmount needs an export path";
  targets ← load g;
  t ← lift (find_target target targets);
  mounts ← see (λ t, nfs_mounts t (sy_proc_mounts (sys g)));
  m ← context (debug_str export +:+ " is not mounted from " +:+ te_name t) (nfs_dot (host_only (te_host t)) export mounts).2;
  b ← broker g;
  _ ← broker_call g b (UnmountNfs (nm_mountpoint m));
  say g (JObject [("ok", JBool true); ("mountpoint", JString (nm_mountpoint m))]) ("unmounted " +:+ nm_mountpoint m).

(** ** Diagnosis (diagnose.rs) *)

Record Criterion : Type := { ck_label : string; ck_ok : bool; ck_detail : string }.
Definition criterion (label : string) (ok : bool) (detail : string) : Criterion :=
  {| ck_label := label; ck_ok := ok; ck_detail := detail |}.
Definition exists_path (t : tree) (p : path) : bool := exists_at 41 t p.
Definition rdma_device_check (sy : SysRoots) (t : tree) : Criterion :=
  let devices := active_rdma_devices t (sy_sys_class_infiniband sy) in
  criterion "RDMA device with an active port" (negb (bool_decide (devices = [])))
    match devices with
    | [] => "none under /sys/class/infiniband " +:+ em_dash +:+
            " no RDMA NIC, port down, or RoCE off (the target's Settings page can enable Soft-RoCE on plain NICs)"
    | _ => join ", " devices
    end.
Definition module_check (sy : SysRoots) (t : tree) (m hint : string) : Criterion :=
  let loaded := module_loaded t (sy_sys_module sy) m in
  criterion (if bool_decide (m = "nvme_rdma") then "nvme_rdma module loaded" else "nvme_tcp module loaded") loaded (if loaded then "" else hint).
Definition nvme_path_checks (root : path) (sy : SysRoots) (t : tree) : list Criterion :=
  let fabrics := exists_path t (root ++ ["dev"; "nvme-fabrics"]) in
  [criterion "/dev/nvme-fabrics present" fabrics (if fabrics then "" else "modprobe nvme-fabrics (plus nvme-rdma / nvme-tcp)");
   module_check sy t "nvme_rdma" ("modprobe nvme-rdma " +:+ em_dash +:+ " required for RDMA connects");
   module_check sy t "nvme_tcp" ("modprobe nvme-tcp " +:+ em_dash +:+ " required for TCP fallback");
   rdma_device_check sy t].
Definition nfs_path_checks (root : path) (sy : SysRoots) (t : tree) : list Criterion :=
  let mount_nfs := existsb (λ p, exists_path t (root ++ p)) [["sbin"; "mount.nfs"]; ["usr"; "sbin"; "mount.nfs"]] in
  let rpcrdma := module_loaded t (sy_sys_module sy) "rpcrdma" || module_loaded t (sy_sys_module sy) "xprtrdma" in
  [criterion "mount.nfs installed" mount_nfs (if mount_nfs then "" else "install nfs-common");
   criterion "rpcrdma module loaded" rpcrdma
     (if rpcrdma then "" else "modprobe rpcrdma " +:+ em_dash +:+ " required for NFS-over-RDMA (TCP mounts work without)");
   rdma_device_check sy t].
Definition show_socket_addr (a : IpAddr * u16) : string :=
  match a.1 with
  | V4 _ _ _ _ => show_ip a.1 +:+ ":" +:+ show_uint a.2
  | V6 _ _ _ _ _ _ _ _ => "[" +:+ show_ip a.1 +:+ "]:" +:+ show_uint a.2
  end.
(** The host with its own port when it names one, else with the default. *)
Definition hostport (host : string) (default_port : u16) : string :=
  if bool_decide (is_Some (last (split ":" host) ≫= parse_uint 16)) && (contains "]:" host || bool_decide (length (split ":" host) = 2))
  then host else host +:+ ":" +:+ show_uint default_port.
Definition dial_check (label host : string) (default_port : u16) : cli Criterion := λ s,
  let n := length (se_log s) in
  let result :=
    match lookup_addr n (hostport host default_port) with
    | Err e => Err e
    | Ok [] => Err "no address"
    | Ok (a :: _) => match dial n a with Ok _ => Ok a | Err e => Err (show_socket_addr a +:+ ": " +:+ e) end
    end in
  (Ok match result with
      | Ok a => criterion label true ("reached " +:+ show_socket_addr a)
      | Err e => criterion label false e
      end, s).
Definition probe (g : Global) : cli Criterion :=
  r ← attempt (b ← broker g; _ ← broker_call g b Ping; mret b);
  mret
    match r with
    | Ok Direct => criterion "privileged ops available" true "running as root"
    | Ok (Agent _) => criterion "privileged ops available" true "agent socket answers"
    | Err e => criterion "privileged ops available" false e
    end.
Definition hostnqn_check (g : Global) (t : tree) : Criterion :=
  match read_hostnqn g t with
  | Some nqn => criterion "host NQN present" true nqn
  | None => criterion "host NQN present" false ("no /etc/nvme/hostnqn " +:+ em_dash +:+ " `connect` creates it on first use")
  end.
(** Reachability, the token, and the export asked for. *)
Definition target_checks (g : Global) (key : string) (export : option string) :
    cli (list Criterion * TargetEntry * option (NvmeExport + NfsExport)) :=
  targets ← load g;
  t ← lift (find_target key targets);
  reach ← dial_check "target web port reachable" (te_host t)
            (match te_cert_sha256 t with Some _ => lit 443%N | None => lit 80%N end);
  api ← api_connect (pairing t);
  info ← attempt (api_target api);
  match info with
  | Err e => mret ([reach; criterion "token accepted" false e], t, None)
  | Ok info =>
      hostnqn ← see (read_hostnqn g);
      exs ← exports api hostnqn;
      let token := criterion "token accepted" true ("target " +:+ ti_name info +:+ " (api v" +:+ show_uint (ti_api info) +:+ ")") in
      match export with
      | None => mret ([reach; token], t, None)
      | Some name =>
          match List.find (is_named name) (ex_nvme exs), List.find (is_path name) (ex_nfs exs) with
          | None, None => bail ("target has no export " +:+ debug_str name)
          | Some e, _ => mret ([reach; token], t, Some (inl e))
          | None, Some e => mret ([reach; token], t, Some (inr e))
          end
      end
  end.
Definition nvme_export_checks (g : Global) (e : NvmeExport) (t : tree) : list Criterion :=
  let rdma_listener := existsb (λ l, bool_decide (li_trtype l = "rdma")) (ne_listeners e) in
  let '(_, reason, ctrl) := nvme_dot (ne_nqn e) (nvme_controllers t (sy_sys_class_nvme (sys g))) in
  nvme_path_checks (gl_sys_root g) (sys g) t ++
  [criterion "export enabled on target" (ne_enabled e) "";
   criterion "export offers an RDMA listener" rdma_listener
     (if rdma_listener then "" else "target exports TCP only " +:+ em_dash +:+ " enable RDMA on the export");
   criterion "this host registered" (ne_authorized e)
     (if ne_authorized e then "" else "run `greendot-client connect` " +:+ em_dash +:+ " it registers this host's NQN first");
   criterion "controller live" (match ctrl with Some c => bool_decide (nc_state c = "live") | None => false end)
     match ctrl with
     | Some c =>
         if bool_decide (nc_state c = "connecting") then
           "stuck connecting " +:+ em_dash +:+ " usually an ACL rejection (register first) or an unreachable traddr (" +:+ nc_address c +:+ ")"
         else reason +:+ " (" +:+ nc_address c +:+ ")"
     | None => reason
     end].
Definition nfs_export_checks (g : Global) (host : string) (e : NfsExport) (t : tree) : list Criterion :=
  let '(_, reason, m) := nfs_dot (host_only host) (fe_path e) (nfs_mounts t (sy_proc_mounts (sys g))) in
  nfs_path_checks (gl_sys_root g) (sys g) t ++
  [criterion "export enabled on target" (fe_enabled e) "";
   criterion "target NFS RDMA listener up" (fe_rdma e)
     (if fe_rdma e then "port " +:+ show_uint (fe_port e)
      else "the target's nfsd has no RDMA listener " +:+ em_dash +:+ " see its NFS diagnose page");
   criterion "this host's IP registered" (fe_authorized e)
     (if fe_authorized e then "" else "run `greendot-client mount` " +:+ em_dash +:+ " it whitelists this host's IP first");
   criterion "mounted over RDMA" (match m with Some m => nm_rdma m | None => false end)
     match m with Some m => reason +:+ " at " +:+ nm_mountpoint m | None => reason end].
Definition criterion_json (c : Criterion) : json :=
  JObject [("label", JString (ck_label c)); ("ok", JBool (ck_ok c)); ("detail", JString (ck_detail c))].
(** The marks U+2713 and U+2717. *)
Definition criterion_line (c : Criterion) : string :=
  let mark := if ck_ok c then chr 226 +:+ chr 156 +:+ chr 147 else chr 226 +:+ chr 156 +:+ chr 151 in
  mark +:+ " " +:+ ck_label c +:+ (if is_empty (ck_detail c) then "" else " " +:+ em_dash +:+ " " +:+ ck_detail c).
Definition cmd_diagnose (g : Global) (args : list string) : cli unit :=
  match args with
  | _ :: _ :: extra :: _ => bail ("unknown argument " +:+ debug_str extra)
  | _ =>
      first ← probe g;
      second ← see (hostnqn_check g);
      match head args with
      | None => mret ([], None)
      | Some key =>
          '(cs, t, found) ← target_checks g key (head (tail args));
          mret (cs, (λ f, (te_host t, f)) <$> found)
      end ≫= λ '(cs, found),
      more ← see (λ t,
        match found with
        | Some (_, inl e) => nvme_export_checks g e t
        | Some (host, inr e) => nfs_export_checks g host e t
        | None => nvme_path_checks (gl_sys_root g) (sys g) t ++ nfs_path_checks (gl_sys_root g) (sys g) t
        end);
      let checks := first :: second :: cs ++ more in
      let all_ok := forallb ck_ok checks in
      if gl_json g then
        print_out (Json (JObject [("ok", JBool true); ("all_ok", JBool all_ok); ("checks", JArray (criterion_json <$> checks))]))
      else print_lines (criterion_line <$> checks)
  end.

(** ** The agent and the program *)

Fixpoint agent_opts (o : AgentOpts) (args : list string) : result string AgentOpts :=
  match args with
  | [] => Ok o
  | flag :: args =>
      if bool_decide (flag ∈ ["--group"; "--allow-uid"]) then
        match args with
        | [] => Err (flag +:+ " needs a value")
        | v :: args =>
            if bool_decide (flag = "--group") then
              agent_opts {| ao_socket := ao_socket o; ao_group := v; ao_config_dir := ao_config_dir o; ao_paths := ao_paths o;
                            ao_allow_uid := ao_allow_uid o |} args
            else
              match parse_uint 32 v with
              | Some uid => agent_opts {| ao_socket := ao_socket o; ao_group := ao_group o; ao_config_dir := ao_config_dir o;
                                          ao_paths := ao_paths o; ao_allow_uid := Some uid |} args
              | None => Err (parse_int_error v)
              end
        end
      else Err ("unknown flag " +:+ flag)
  end.
Definition cmd_agent (g : Global) (args : list string) : cli unit :=
  o ← lift (agent_opts {| ao_socket := gl_socket g; ao_group := "greendot-client"; ao_config_dir := gl_config_dir g;
                          ao_paths := PrivPaths_at (gl_sys_root g); ao_allow_uid := None |} args);
  _ ← logged (Served o) tt;
  lift (serve o).
Definition commands : list (string * (Global → list string → cli unit)) :=
  [("add", cmd_add); ("remove", cmd_remove); ("list", cmd_list); ("connect", cmd_connect); ("disconnect", cmd_disconnect);
   ("mount", cmd_mount); ("unmount", cmd_unmount); ("diagnose", cmd_diagnose); ("agent", cmd_agent)].
Definition command_named (name : string) : option (Global → list string → cli unit) :=
  snd <$> List.find (λ c, bool_decide (c.1 = name)) commands.
(** How the process ends: by itself, by [exit] with a code, or by a panic. *)
Inductive ending : Type := Returned | Exited (n : N) | Panicked.
Definition main (args : list string) (s : session) : ending * session :=
  match parse_global args default_global [] with
  | Some (g, cmd :: args) =>
      match command_named cmd with
      | None => (Exited 2, s)
      | Some f =>
          match f g args s with
          | (Ok _, s') => (Returned, s')
          | (Err (Error e), s') =>
              (Exited 1,
               if gl_json g then snd (print_out (Json (JObject [("ok", JBool false); ("error", JString e)])) s') else s')
          | (Err Panic, s') => (Panicked, s')
          end
      end
  | _ => (Exited 2, s)
  end.
End cli.
