(* ===== verification/CliFacts.v ===== *)
(** * The command line: tokens stay with their target, connections come after
    registration *)
From Stdlib Require Import Ascii String.
From stdpp Require Import base option list strings sets gmap pretty.
From S2P Require Import Prelude Ordered Validate IpAddr Types Fs World Reconcile Hardware Commands Csi Auth Sessions Client Cli.
#[local] Open Scope string_scope.
#[local] Open Scope list_scope.

(** ** Traces *)

(** What a computation appends to the log, and its result. *)
Definition runs {A} (m : cli A) (P : list act → result stop A → Prop) : Prop :=
  ∀ s, ∃ ext, se_log (m s).2 = se_log s ++ ext ∧ P ext (m s).1.
Lemma runs_intro {A} (m : cli A) P s r s' : runs m P → m s = (r, s') → ∃ ext, se_log s' = se_log s ++ ext ∧ P ext r.
Proof. intros H E. specialize (H s). by rewrite E in H. Qed.
Lemma runs_weaken {A} (m : cli A) (P Q : list act → result stop A → Prop) : runs m P → (∀ e r, P e r → Q e r) → runs m Q.
Proof. intros H HPQ s. destruct (H s) as (ext & E & HP). eauto. Qed.
Lemma runs_ret {A} (a : A) (P : list act → result stop A → Prop) : P [] (Ok a) → runs (mret a) P.
Proof. intros H s. exists []. by rewrite app_nil_r. Qed.
Lemma runs_bail {A} msg (P : list act → result stop A → Prop) : P [] (Err (Error msg)) → runs (bail msg) P.
Proof. intros H s. exists []. by rewrite app_nil_r. Qed.
Lemma runs_lift {A} (x : result string A) (P : list act → result stop A → Prop) : P [] (map_err Error x) → runs (lift x) P.
Proof. intros H s. exists []. by rewrite app_nil_r. Qed.
Lemma runs_context {A} msg (o : option A) (P : list act → result stop A → Prop) :
  (∀ a, o = Some a → P [] (Ok a)) → (o = None → P [] (Err (Error msg))) → runs (context msg o) P.
Proof. intros H1 H2 s. exists []. rewrite app_nil_r. destruct o; cbn; auto. Qed.
Lemma runs_see {A} (f : tree → A) (P : list act → result stop A → Prop) : (∀ t, P [] (Ok (f t))) → runs (see f) P.
Proof. intros H s. exists []. rewrite app_nil_r. split; [done|apply H]. Qed.
Lemma runs_logged {A} a (x : A) (P : list act → result stop A → Prop) : P [a] (Ok x) → runs (logged a x) P.
Proof. intros H s. by exists [a]. Qed.
Lemma runs_bind {A B} (m : cli A) (f : A → cli B) (P : list act → result stop A → Prop) (Q : list act → result stop B → Prop) :
  runs m P → (∀ e1 a, P e1 (Ok a) → runs (f a) (λ e2, Q (e1 ++ e2))) → (∀ e1 err, P e1 (Err err) → Q e1 (Err err)) →
  runs (m ≫= f) Q.
Proof.
  intros Hm Hf He s. destruct (Hm s) as (e1 & E1 & HP). change ((m ≫= f) s) with (cli_bind A B f m s). unfold cli_bind.
  destruct (m s) as [[a|err] s1]; cbn in *.
  - destruct (Hf e1 a HP s1) as (e2 & E2 & HQ). exists (e1 ++ e2). by rewrite E2, E1, app_assoc.
  - eauto.
Qed.
Lemma runs_attempt {A} (m : cli A) (P : list act → result stop (result string A) → Prop) :
  runs m (λ e r, match r with
                 | Ok a => P e (Ok (Ok a))
                 | Err (Error msg) => P e (Ok (Err msg))
                 | Err Panic => P e (Err Panic)
                 end) → runs (attempt m) P.
Proof.
  intros H s. destruct (H s) as (e & E & HP). exists e. unfold attempt. by destruct (m s) as [[a|[msg|]] s'].
Qed.

Lemma runs_printed {A} o (f : unit → cli A) (Q : list act → result stop A → Prop) :
  runs (f tt) (λ e, Q (Printed o :: e)) → runs (print_out o ≫= f) Q.
Proof.
  intros H. eapply (runs_bind _ _ (λ e r, e = [Printed o] ∧ r = Ok tt)); [by apply runs_logged|by intros e1 [] [-> _]|by intros e1 err [_ ?]].
Qed.
Lemma runs_next {A} args msg (f : string * list string → cli A) (Q : list act → result stop A → Prop) :
  (∀ a rest, args = a :: rest → runs (f (a, rest)) Q) → Q [] (Err (Error msg)) → runs (next args msg ≫= f) Q.
Proof.
  intros Hf He s. destruct args as [|a rest]; [exists []; by rewrite app_nil_r|]. exact (Hf a rest eq_refl s).
Qed.

(** A privileged call leaves itself and its result in the log. *)
Definition called (op : AgentOp) (e : list act) (r : result stop object) : Prop := ∃ res, e = [Called op res] ∧ r = map_err Error res.
Lemma runs_performed op m : runs (performed op m) (called op).
Proof. intros s. unfold performed. destruct (m (se_host s)) as [r h]. eexists. split; [done|]. by exists r. Qed.
Lemma runs_call {K : Kernel} {M : Machine} {TC : TargetsCodec} {J : AgentJson} {U : Seat} g b op : runs (broker_call g b op) (called op).
Proof.
  destruct b as [allowed|]; [|apply runs_performed]. intros s. unfold broker_call. by destruct (agent_at _ _) as [a|]; apply runs_performed.
Qed.

(** ** Properties of every act *)

(** Every act of the run satisfies [Q]. *)
Definition always (Q : act → Prop) {A} (e : list act) (_ : result stop A) : Prop := Forall Q e.
Section always.
Context (Q : act → Prop).
Lemma always_bind {A B} (m : cli A) (f : A → cli B) : runs m (always Q) → (∀ a, runs (f a) (always Q)) → runs (m ≫= f) (always Q).
Proof.
  intros Hm Hf. eapply runs_bind; [exact Hm| |done]. intros e1 a H1. eapply runs_weaken; [apply Hf|].
  intros e r He. by apply Forall_app.
Qed.
Lemma always_ret {A} (a : A) : runs (mret a) (always Q).
Proof. apply runs_ret; constructor. Qed.
Lemma always_bail {A} msg : runs (bail (A:=A) msg) (always Q).
Proof. apply runs_bail; constructor. Qed.
Lemma always_lift {A} (x : result string A) : runs (lift x) (always Q).
Proof. apply runs_lift; constructor. Qed.
Lemma always_see {A} (f : tree → A) : runs (see f) (always Q).
Proof. apply runs_see; constructor. Qed.
Lemma always_context {A} msg (o : option A) : runs (context msg o) (always Q).
Proof. apply runs_context; constructor. Qed.
Lemma always_logged {A} a (x : A) : Q a → runs (logged a x) (always Q).
Proof. intros. apply runs_logged. by repeat constructor. Qed.
Lemma always_attempt {A} (m : cli A) : runs m (always Q) → runs (attempt m) (always Q).
Proof. intros H. apply runs_attempt. eapply runs_weaken; [exact H|]. intros e [a|[msg|]]; done. Qed.
Lemma always_each {A B} (f : A → cli B) l : (∀ a, a ∈ l → runs (f a) (always Q)) → runs (each f l) (always Q).
Proof.
  induction l as [|a l IH]; intros H; cbn; [apply always_ret|]. apply always_bind; [apply H; left|]. intros b.
  apply always_bind; [apply IH; intros; apply H; by right|]. intros k. apply always_ret.
Qed.
End always.
Ltac trace_step :=
  lazymatch goal with
  | |- ∀ _, _ => intros ?
  | |- runs (let '_ := ?x in _) _ => destruct x
  | |- runs (match ?x with _ => _ end) _ => destruct x eqn:?
  | |- runs (mret _) _ => apply always_ret
  | |- runs (bail _) _ => apply always_bail
  | |- runs (lift _) _ => apply always_lift
  | |- runs (see _) _ => apply always_see
  | |- runs (context _ _) _ => apply always_context
  | |- runs (logged _ _) _ => apply always_logged; exact I
  | |- runs (print_out _) _ => apply always_logged; exact I
  | |- runs (attempt _) _ => apply always_attempt
  | |- runs (each _ _) _ => apply always_each
  | |- runs (_ ≫= _) _ => apply always_bind
  end.
Ltac trace := repeat trace_step.

(** ** Tokens *)

(** The request goes to the pairing's host with its token, over a connection
    pinned to its certificate when it has one. *)
Definition directed (p : Pairing) (q : request) : Prop :=
  rq_token q = pa_token p ∧
  match pa_fingerprint p with
  | Some fp => ∃ pin, parse_fingerprint fp = Ok pin ∧ rq_pin q = Some pin ∧ starts_with ("https://" +:+ pa_host p +:+ "/api/client/v1/") (rq_url q)
  | None => rq_pin q = None ∧ starts_with ("http://" +:+ pa_host p +:+ "/api/client/v1/") (rq_url q)
  end.
Definition to_one_of (ps : Pairing → Prop) (a : act) : Prop :=
  match a with Asked q _ => ∃ p, ps p ∧ directed p q | _ => True end.
Definition quiet (a : act) : Prop := match a with Asked _ _ => False | _ => True end.
(** An endpoint made of one of the pairings. *)
Definition api_of (ps : Pairing → Prop) (api : TargetApi) : Prop :=
  ∃ p, ps p ∧ ∀ rest body, directed p (api_request api ("/" +:+ rest) body).

Section tokens.
Context {K : Kernel} {M : Machine} {TC : TargetsCodec} {J : AgentJson} {AJ : ApiJson} {W : Net} {U : Seat}.
Context (ps : Pairing → Prop).
Lemma connect_api_of {B} p (f : TargetApi → cli B) :
  ps p → (∀ api, api_of ps api → runs (f api) (always (to_one_of ps))) → runs (api_connect p ≫= f) (always (to_one_of ps)).
Proof.
  intros Hp Hf. eapply (runs_bind _ _ (λ e r, e = [] ∧ ∀ api, r = Ok api → api_of ps api)).
  - intros s. exists []. rewrite app_nil_r. unfold api_connect.
    assert (Hs : ∀ a b c, starts_with (a +:+ b +:+ "/api/client/v1/") ((a +:+ b +:+ "/api/client/v1") +:+ ("/" +:+ c))).
    { intros a b c. apply starts_with_spec. exists c. by rewrite !app_assoc_s. }
    destruct (pa_fingerprint p) as [fp|] eqn:E; [destruct (parse_fingerprint fp) as [pin|] eqn:Ef|]; cbn; (split; [done|]; split; [done|]);
      intros api [= <-]; exists p; (split; [done|]); intros rest body; (split; [done|]); rewrite E; cbn [rq_pin rq_url api_request api_base api_pin].
    + exists pin. split_and!; [done..|]. apply Hs.
    + split; [done|]. apply Hs.
  - intros e1 api [-> Ha]. apply Hf. by apply Ha.
  - intros e1 err [-> _]. constructor.
Qed.
Lemma ask_one_of {T} (decode : string → result string T) api rest body :
  api_of ps api → runs (send decode api ("/" +:+ rest) body) (always (to_one_of ps)).
Proof.
  intros (p & Hp & Hd). unfold send. apply always_bind; [|trace].
  intros s. eexists. split; [done|]. constructor; [|constructor]. by exists p.
Qed.
Lemma broker_quiet g : runs (broker g) (always (to_one_of ps)).
Proof. intros s. exists []. rewrite app_nil_r. split; [done|constructor]. Qed.
Lemma call_quiet g b op : runs (broker_call g b op) (always (to_one_of ps)).
Proof. eapply runs_weaken; [apply runs_call|]. intros e r (res & -> & _). by repeat constructor. Qed.
Lemma dial_quiet label host port : runs (dial_check label host port) (always (to_one_of ps)).
Proof. intros s. exists []. rewrite app_nil_r. split; [done|constructor]. Qed.
Lemma resolve_quiet host : runs (resolve_traddr host) (always (to_one_of ps)).
Proof.
  intros s. exists []. rewrite app_nil_r. unfold resolve_traddr. repeat case_match; split; try done; constructor.
Qed.
Lemma nap_quiet : runs nap (always (to_one_of ps)).
Proof. intros s. exists []. rewrite app_nil_r. split; [done|constructor]. Qed.
Lemma next_quiet args msg : runs (next args msg) (always (to_one_of ps)).
Proof. unfold next. trace. Qed.
Lemma opt_quiet args flag : runs (opt_value args flag) (always (to_one_of ps)).
Proof. unfold opt_value. trace. Qed.
Lemma forced_quiet v : runs (forced_transport v) (always (to_one_of ps)).
Proof. unfold forced_transport. trace. Qed.
Lemma say_quiet g v l : runs (say g v l) (always (to_one_of ps)).
Proof. unfold say. trace. Qed.
Lemma lines_quiet l : runs (print_lines l) (always (to_one_of ps)).
Proof. unfold print_lines. trace. Qed.
Lemma target_asks api : api_of ps api → runs (api_target api) (always (to_one_of ps)).
Proof. intros H. unfold api_target. apply always_bind; [by apply (ask_one_of _ _ "target")|trace]. Qed.
Lemma exports_asks api h : api_of ps api → runs (exports api h) (always (to_one_of ps)).
Proof. intros H. destruct h as [h|]; [by apply (ask_one_of _ _ ("exports?hostnqn=" +:+ h))|by apply (ask_one_of _ _ "exports")]. Qed.
Lemma wait_asks api id : api_of ps api → runs (wait_task api id) (always (to_one_of ps)).
Proof.
  intros H. unfold wait_task. generalize 60. intros n. induction n as [|n IH]; cbn [poll_task]; [trace|].
  apply always_bind; [by apply (ask_one_of _ _ ("tasks/" +:+ show_Z id))|]. trace; [apply nap_quiet|apply IH].
Qed.
Lemma register_asks api id h : api_of ps api → runs (register_nvme api id h) (always (to_one_of ps)).
Proof.
  intros H. unfold register_nvme. apply always_bind; [by apply (ask_one_of _ _ ("exports/nvme/" +:+ show_Z id +:+ "/register"))|].
  trace. by apply wait_asks.
Qed.
Lemma register_nfs_asks api id rw : api_of ps api → runs (api_register_nfs api id rw) (always (to_one_of ps)).
Proof. intros H. by apply (ask_one_of _ _ ("exports/nfs/" +:+ show_Z id +:+ "/register")). Qed.
End tokens.

(** The requests of a run are directed at pairings of [ps], or at targets the run
    has loaded. *)
Definition confined (ps : Pairing → Prop) {A} (e : list act) (_ : result stop A) : Prop :=
  ∀ q a, Asked q a ∈ e → (∃ p, ps p ∧ directed p q) ∨ ∃ l t, Loaded l ∈ e ∧ t ∈ l ∧ directed (pairing t) q.
Definition stored (l : list TargetEntry) (p : Pairing) : Prop := ∃ t, t ∈ l ∧ p = pairing t.
Section confined.
Context {K : Kernel} {M : Machine} {TC : TargetsCodec} {J : AgentJson} {AJ : ApiJson} {W : Net} {U : Seat}.
Context (ps : Pairing → Prop).
Lemma confined_always {A} (m : cli A) : runs m (always (to_one_of ps)) → runs m (confined ps).
Proof.
  intros H. eapply runs_weaken; [exact H|]. intros e r He q a Hq. left. unfold always in He. rewrite Forall_forall in He. exact (He _ Hq).
Qed.
Lemma confined_bind {A B} (m : cli A) (f : A → cli B) :
  runs m (confined ps) → (∀ a, runs (f a) (confined ps)) → runs (m ≫= f) (confined ps).
Proof.
  intros Hm Hf. eapply runs_bind; [exact Hm| |done]. intros e1 a H1. eapply runs_weaken; [apply Hf|].
  intros e2 r H2 q x [Hq|Hq]%elem_of_app; [apply H1 in Hq|apply H2 in Hq]; destruct Hq as [?|(l & t & ? & ?)]; [by left| |by left|];
    right; exists l, t; rewrite elem_of_app; tauto.
Qed.
Lemma confined_load {A} g (f : list TargetEntry → cli A) :
  (∀ l, runs (f l) (always (to_one_of (stored l)))) → runs (load g ≫= f) (confined ps).
Proof.
  intros Hf. eapply (runs_bind _ _ (λ e r, match r with Ok l => e = [Loaded l] | Err _ => e = [] end)).
  - intros s. unfold load. destruct (load_targets _ _) as [[l|err] h]; eexists; (split; [cbn; try done; by rewrite app_nil_r|done]).
  - intros e1 l ->. eapply runs_weaken; [apply Hf|]. intros e2 r He q a Hq. right.
    apply elem_of_cons in Hq as [?|Hq]; [done|]. unfold always in He. rewrite Forall_forall in He.
    destruct (He _ Hq) as (p & (t & Ht & ->) & Hd). exists l, t. split_and!; [left|done..].
  - intros e1 err ->. intros q a Hq%elem_of_nil. done.
Qed.
Lemma found_then {A} P k l (f : TargetEntry → cli A) :
  (∀ t, t ∈ l → runs (f t) (always P)) → runs (lift (find_target k l) ≫= f) (always P).
Proof.
  intros Hf. eapply (runs_bind _ _ (λ e r, e = [] ∧ ∀ t, r = Ok t → t ∈ l)).
  - apply runs_lift. split; [done|]. intros t Ht. apply map_err_Ok in Ht. unfold find_target in Ht. apply ok_or_Ok in Ht.
    apply List.find_some in Ht as [Ht _]. by apply list_elem_of_In.
  - intros e1 t [-> Ht]. apply Hf. by apply Ht.
  - intros e1 err [-> _]. constructor.
Qed.
End confined.
Ltac token_step :=
  match goal with
  | |- runs (next _ _) _ => apply next_quiet
  | |- runs (opt_value _ _) _ => apply opt_quiet
  | |- runs (forced_transport _) _ => apply forced_quiet
  | |- runs (broker _) _ => apply broker_quiet
  | |- runs (broker_call _ _ _) _ => apply call_quiet
  | |- runs (say _ _ _) _ => apply say_quiet
  | |- runs (print_lines _) _ => apply lines_quiet
  | |- runs (resolve_traddr _) _ => apply resolve_quiet
  | |- runs (dial_check _ _ _) _ => apply dial_quiet
  | |- runs (lift (find_target _ _) ≫= _) _ => apply found_then; intros ? ?
  | |- runs (api_connect _ ≫= _) _ => apply connect_api_of; [eexists; split; [eassumption|done]|intros ? ?]
  | |- runs (api_target _) _ => apply target_asks; eassumption
  | |- runs (exports _ _) _ => apply exports_asks; eassumption
  | |- runs (wait_task _ _) _ => apply wait_asks; eassumption
  | |- runs (register_nvme _ _ _) _ => apply register_asks; eassumption
  | |- runs (api_register_nfs _ _ _) _ => apply register_nfs_asks; eassumption
  | |- _ => trace_step
  end.
Ltac tokens := repeat token_step.

Section commands.
Context {K : Kernel} {M : Machine} {TC : TargetsCodec} {J : AgentJson} {AJ : ApiJson} {W : Net} {U : Seat}.
Lemma add_confined g args : runs (cmd_add g args) (confined (λ p, ∃ s, s ∈ args ∧ parse_pairing s = Ok p)).
Proof.
  unfold cmd_add. apply confined_always. apply runs_next; [|constructor]. intros s rest ->.
  apply always_bind; [tokens|]. intros name.
  eapply (runs_bind _ _ (λ e r, e = [] ∧ ∀ p, r = Ok p → parse_pairing s = Ok p)).
  - apply runs_lift. split; [done|]. by intros p ?%map_err_Ok.
  - intros e1 p [-> Hp]. apply connect_api_of; [exists s; split; [left|by apply Hp]|]. intros api Ha. tokens.
  - intros e1 err [-> _]. constructor.
Qed.
Lemma try_quiet ps g b host export nqn hn l fb last : runs (try_listeners g b host export nqn hn l fb last) (always (to_one_of ps)).
Proof.
  revert fb last. induction l as [|li l IH]; intros fb last; cbn [try_listeners]; tokens; try apply IH.
  all: unfold connected_out; tokens.
Qed.
Lemma list_confined g args ps : runs (cmd_list g args) (confined ps).
Proof.
  unfold cmd_list. destruct args; [|by apply confined_always, always_bail]. apply confined_load. intros l. tokens.
  unfold target_row, fetch. tokens.
Qed.
Lemma connect_confined g args ps : runs (cmd_connect g args) (confined ps).
Proof.
  unfold cmd_connect. do 2 (apply confined_bind; [apply confined_always; tokens|intros [? ?]]).
  do 2 (apply confined_bind; [apply confined_always; tokens|intros ?]).
  apply confined_load. intros targets. tokens. all: unfold new_in; tokens. all: apply try_quiet.
Qed.
Lemma mount_confined g args ps : runs (cmd_mount g args) (confined ps).
Proof.
  unfold cmd_mount. do 2 (apply confined_bind; [apply confined_always; tokens|intros [? ?]]).
  apply confined_bind; [apply confined_always; tokens|intros [? ?]].
  apply confined_load. intros targets. tokens. all: unfold mount_tcp, print_mounted; tokens.
Qed.
Lemma unmount_confined g args ps : runs (cmd_unmount g args) (confined ps).
Proof.
  unfold cmd_unmount. do 2 (apply confined_bind; [apply confined_always; tokens|intros [? ?]]).
  apply confined_load. intros targets. tokens.
Qed.
Lemma diagnose_confined g args ps : runs (cmd_diagnose g args) (confined ps).
Proof.
  unfold cmd_diagnose.
  assert (H : ∀ cs (m : cli (list Criterion * option (string * (NvmeExport + NfsExport)))),
    runs m (confined ps) → (∀ x, runs (cs x) (confined ps)) → runs (m ≫= cs) (confined (A:=unit) ps)) by (intros; by apply confined_bind).
  destruct args as [|key [|ex [|extra args]]]; [..|by apply confined_always, always_bail];
    (apply confined_bind; [apply confined_always; unfold probe; tokens|intros first]);
    (apply confined_bind; [apply confined_always; tokens|intros second]);
    (apply confined_bind; [cbn [head tail]|intros [cs found]; apply confined_always; tokens]).
  { apply confined_always; tokens. }
  all: (apply confined_bind; [|intros [[? ?] ?]; apply confined_always; tokens]).
  all: unfold target_checks; apply confined_load; intros targets; tokens.
Qed.
Lemma others_confined g args ps :
  runs (cmd_remove g args) (confined ps) ∧ runs (cmd_disconnect g args) (confined ps) ∧ runs (cmd_agent g args) (confined ps).
Proof. split_and!; apply confined_always; unfold cmd_remove, cmd_disconnect, cmd_agent; tokens. Qed.
Lemma command_confined name f g args : command_named name = Some f → runs (f g args) (confined (λ p, ∃ s, s ∈ args ∧ parse_pairing s = Ok p)).
Proof.
  unfold command_named. intros ([n c] & Hf & ->)%fmap_Some. apply List.find_some in Hf as [Hf _]. cbn in Hf.
  pose proof (others_confined g args (λ p, ∃ s, s ∈ args ∧ parse_pairing s = Ok p)) as (H1 & H2 & H3).
  pose proof (λ ps, list_confined g args ps). pose proof (λ ps, connect_confined g args ps). pose proof (λ ps, mount_confined g args ps).
  pose proof (λ ps, unmount_confined g args ps). pose proof (λ ps, diagnose_confined g args ps). pose proof (add_confined g args).
  repeat destruct Hf as [[= <- <-]|Hf]; done || auto.
Qed.
Lemma parse_global_rest args g rest g' rest' :
  parse_global args g rest = Some (g', rest') → ∀ a, a ∈ rest' → a ∈ args ∨ a ∈ rest.
Proof.
  remember (length args) as n eqn:En. revert args g rest En. induction (lt_wf n) as [n _ IH]. intros [|arg args] g rest -> H a Ha; cbn in H.
  { simplify_eq. by right. }
  case_bool_decide; [|case_bool_decide].
  - destruct (IH _ (Nat.lt_succ_diag_r _) _ _ _ eq_refl H a Ha); [left; by right|by right].
  - destruct args as [|v args]; [done|]. apply bind_Some in H as (g1 & _ & H).
    destruct (IH (length args) ltac:(cbn; lia) _ _ _ eq_refl H a Ha); [left; do 2 right; done|by right].
  - destruct (IH _ (Nat.lt_succ_diag_r _) _ _ _ eq_refl H a Ha) as [?|[?|?%list_elem_of_singleton]%elem_of_app]; [left; by right|by right|].
    subst. left. left.
Qed.
End commands.

(** ** Fingerprints *)

(** The lower-case hexadecimal digits of a digest. *)
Fixpoint to_hex (l : list N) : string :=
  match l with
  | [] => ""
  | n :: l => String (hex_digit (n / 16)) (String (hex_digit (n mod 16)) (to_hex l))
  end.
Definition lower_hex (c : ascii) : bool := is_ascii_digit c || in_range 97 102 c.
Lemma hex_byte_digits a b : lower_hex a → lower_hex b → ∃ n, hex_byte a b = Some n ∧ hex_digit (n / 16) = a ∧ hex_digit (n mod 16) = b.
Proof.
  assert (H : ∀ c, lower_hex c → ∃ v, hex_val c = Some v ∧ (v < 16)%N ∧ hex_digit v = c ∧ Ascii.eqb c "+" = false).
  { intros [[] [] [] [] [] [] [] []] Hc; try done; eexists; (split; [reflexivity|]); done. }
  intros (x & Hx & Lx & <- & Ep)%H (y & Hy & Ly & <- & _)%H. unfold hex_byte. rewrite Hy, Ep, Hx. cbn.
  eexists. split; [done|]. rewrite (N.mul_comm 16), N.div_add_l, N.div_small, N.add_0_r by lia. split; [done|].
  rewrite N.add_comm, N.Div0.mod_add, N.mod_small by lia. done.
Qed.
Lemma hex_bytes_digits hex s : all_chars lower_hex s → Nat.even (String.length s) → ∃ l, hex_bytes hex s = Ok l ∧ to_hex l = s.
Proof.
  remember (String.length s) as n eqn:En. revert s En. induction (lt_wf n) as [n _ IH]. intros [|a [|b s]] -> Hs Hl; [by exists []|done|].
  cbn in Hs. apply andb_True in Hs as [Ha Hs]. apply andb_True in Hs as [Hb Hs].
  destruct (hex_byte_digits a b Ha Hb) as (x & Hx & E1 & E2). destruct (IH (String.length s) ltac:(cbn; lia) s eq_refl Hs Hl) as (l & E & Et).
  exists (x :: l). cbn [hex_bytes to_hex]. rewrite Hx, E, E1, E2, Et. split; [|done].
  assert (Hc : continuation s = false); [|by rewrite Hc]. destruct s as [|c s]; [done|]. cbn in Hs. apply andb_True in Hs as [Hc _].
  by destruct c as [[] [] [] [] [] [] [] []].
Qed.
Lemma pairing_fingerprint s p fp :
  parse_pairing s = Ok p → pa_fingerprint p = Some fp → ∃ pin, parse_fingerprint fp = Ok pin ∧ to_hex pin = fp.
Proof.
  unfold parse_pairing. intros (rest & _ & H)%bind_Ok. apply bind_Ok in H as ([token rest'] & _ & H).
  destruct (is_empty token || has_char "/" token); [done|]. 
  match type of H with (let '_ := ?x in _) = _ => destruct x as [host query] end.
  destruct (is_empty host || has_char "/" host); [done|].
  destruct (query ≫= find_fp) as [f|]; [|by injection H as <-]. destruct (negb _ || negb _) eqn:E; [done|]. injection H as <-. cbn. intros [= <-].
  apply orb_false_iff in E as [El Ec]. apply negb_false_iff in El, Ec. apply N.eqb_eq in El.
  assert (Hlen : String.length (lowercase f) = String.length f) by (clear; induction f; cbn; congruence).
  assert (Hlow : all_chars lower_hex (lowercase f)).
  { apply Is_true_true in Ec. revert Ec. clear. induction f as [|c f IH]; [done|]. cbn. intros [Hc Hf]%andb_True. apply andb_True.
    split; [by destruct c as [[] [] [] [] [] [] [] []]|by apply IH]. }
  unfold parse_fingerprint, slen in *. rewrite Hlen. replace (N.of_nat (String.length f)) with 64%N. cbn [negb N.eqb Pos.eqb].
  apply hex_bytes_digits; [done|]. rewrite Hlen. by replace (String.length f) with 64 by lia.
Qed.

Section theorems.
Context {K : Kernel} {M : Machine} {TC : TargetsCodec} {J : AgentJson} {AJ : ApiJson} {W : Net} {U : Seat}.
Definition given (args : list string) (p : Pairing) : Prop := ∃ str, str ∈ args ∧ parse_pairing str = Ok p.
Lemma confined_mono {A} (ps ps' : Pairing → Prop) e (r : result stop A) : (∀ p, ps p → ps' p) → confined ps e r → confined ps' e r.
Proof. intros Hp H q a Hq. destruct (H q a Hq) as [(p & ? & ?)|?]; [left; eauto|by right]. Qed.
Lemma main_confined args s : ∃ ext, se_log (main args s).2 = se_log s ++ ext ∧ confined (given args) ext (Ok tt).
Proof.
  assert (Hnil : ∃ ext, se_log s = se_log s ++ ext ∧ confined (given args) ext (Ok tt)).
  { exists []. rewrite app_nil_r. split; [done|]. intros q a Hq. by apply elem_of_nil in Hq. }
  unfold main. destruct (parse_global args default_global []) as [[g [|cmd rest]]|] eqn:Eg; [done| |done].
  destruct (command_named cmd) as [f|] eqn:Ef; [|done].
  destruct (command_confined cmd f g rest Ef s) as (ext & El & Hc).
  apply (confined_mono _ (given args)) in Hc.
  2:{ intros p (str & Hs & Hp). exists str. split; [|done]. destruct (parse_global_rest _ _ _ _ _ Eg str) as [?|?%elem_of_nil]; [by right|done..]. }
  destruct (f g rest s) as [[[]|[msg|]] s1]; cbn in El, Hc |- *; [by exists ext| |by exists ext].
  destruct (gl_json g); cbn; [|by exists ext]. eexists. rewrite El, <-app_assoc. split; [done|].
  intros q a [Hq|Hq%list_elem_of_singleton]%elem_of_app; [|done].
  destruct (Hc q a Hq) as [?|(l & t & Hl & ?)]; [by left|]. right. exists l, t. split; [|done]. apply elem_of_app. by left.
Qed.
(** C33: Whatever the arguments and whatever the network, the agent and the files
    answer, every request a run of the client sends carries the token of one pairing,
    one it was given in a connection string or one of the targets it has loaded, to
    that pairing's host, over a connection pinned to that pairing's certificate (or in
    the clear only when the pairing has none); and for a connection string the pin is
    byte for byte the digest the string names. *)
Theorem tokens_stay_with_their_target args s e s' :
  main args s = (e, s') →
  ∃ ext, se_log s' = se_log s ++ ext ∧
  ∀ q a, Asked q a ∈ ext →
  (∃ str p, str ∈ args ∧ parse_pairing str = Ok p ∧ directed p q ∧
            ∀ fp, pa_fingerprint p = Some fp → ∃ pin, rq_pin q = Some pin ∧ to_hex pin = fp) ∨
  (∃ l t, Loaded l ∈ ext ∧ t ∈ l ∧ directed (pairing t) q).
Proof.
  intros E. destruct (main_confined args s) as (ext & El & Hc). rewrite E in El. exists ext. split; [done|]. intros q a Hq.
  destruct (Hc q a Hq) as [(p & (str & Hs & Hp) & Hd)|?]; [left|by right]. exists str, p. split_and!; [done..|].
  intros fp Hfp. destruct (pairing_fingerprint _ _ _ Hp Hfp) as (pin & Hpin & Hhex). exists pin. split; [|done].
  destruct Hd as [_ Hd]. rewrite Hfp in Hd. destruct Hd as (pin' & E' & Hr & _). congruence.
Qed.

(** ** Connecting *)

Definition is_rdma (l : Listener) : bool := bool_decide (li_trtype l = "rdma").
Definition is_tcp (l : Listener) : bool := bool_decide (li_trtype l = "tcp").
Definition wanted (forced : option string) (l : Listener) : bool :=
  match forced with Some f => bool_decide (li_trtype l = f) | None => true end.
(** The listeners worth an attempt: RDMA first, each kind in the target's order. *)
Definition candidates (forced : option string) (l : list Listener) : list Listener :=
  let l := List.filter (wanted forced) l in List.filter is_rdma l ++ List.filter is_tcp l.
Definition supported (l : Listener) : bool := is_rdma l || is_tcp l.
Lemma sort_two {A} (p : A → bool) l :
  sort_by (λ a, if p a then 0%N else 1%N) l = List.filter p l ++ List.filter (λ a, negb (p a)) l.
Proof.
  induction l as [|a l IH]; [done|]. cbn. rewrite IH. destruct (p a) eqn:E; cbn.
  - destruct (List.filter p l) as [|b k] eqn:Ek; cbn.
    + destruct (List.filter (λ a, negb (p a)) l) as [|b k]; cbn; [done|]. by rewrite E; destruct (p b).
    + by rewrite E; destruct (p b).
  - assert (H : ∀ k k', Forall (λ b, p b = true) k → Forall (λ b, p b = false) k' →
      insert_by (λ a, if p a then 0%N else 1%N) a (k ++ k') = k ++ a :: k').
    { intros k k' Hk Hk'. induction Hk as [|b k Hb _ IHk]; cbn.
      - destruct Hk' as [|b k' Hb _]; cbn; [done|]. by rewrite E, Hb.
      - rewrite E, Hb. cbn. by rewrite IHk. }
    apply H; apply Forall_forall; intros b [_ Hb]%list_elem_of_In%filter_In; [done|]. by apply negb_true_iff.
Qed.
Lemma filter_filter {A} (p q r : A → bool) l : (∀ a, q a && p a = r a) → List.filter p (List.filter q l) = List.filter r l.
Proof. intros H. induction l as [|a l IH]; [done|]. cbn. rewrite <-H. destruct (q a); cbn; [|done]. by destruct (p a); rewrite IH. Qed.
Lemma plan_candidates forced l : List.filter supported (plan forced l) = candidates forced l.
Proof.
  unfold plan, candidates. rewrite (sort_two (λ l, bool_decide (li_trtype l = "rdma"))). rewrite List.filter_app.
  change (λ l0 : Listener, match forced with Some f => bool_decide (li_trtype l0 = f) | None => true end) with (wanted forced).
  f_equal; apply filter_filter; intros a; unfold supported, is_rdma, is_tcp; repeat case_bool_decide; try done; congruence.
Qed.

(** An attempt at a listener, at its own address when it names one. *)
Definition attempt_at (nqn hostnqn : Nqn) (li : Listener) (a : act) : Prop :=
  ∃ tr ip r, wire_transport (li_trtype li) = Some tr ∧ (∀ ip', li_traddr li = Some ip' → ip = ip') ∧
             a = Called (ConnectNvme nqn tr ip (li_trsvcid li) hostnqn) r.
Definition failed (a : act) : Prop := ∃ op e, a = Called op (Err e).
(** The error of the last RDMA attempt. *)
Definition rdma_reason (first : option string) (tries : list act) : option string :=
  foldl (λ fb a, match a with Called (ConnectNvme _ Rdma _ _ _) (Err e) => Some e | _ => fb end) first tries.
Definition connected_lines (g : Global) (export trtype device : string) (fallback : option string) : list act :=
  if gl_json g then
    [Printed (Json (JObject [("ok", JBool true); ("transport", JString trtype); ("device", JString device); ("fallback_reason", jopt fallback)]))]
  else Printed (Line ("connected " +:+ export +:+ " over " +:+ trtype +:+ " at " +:+ device)) ::
       match fallback with Some reason => [Printed (Line ("  (fell back from RDMA: " +:+ reason +:+ ")"))] | None => [] end.
(** A prefix of the candidates is tried; the run ends with the first success and
    prints it, or with none. *)
Definition tried (g : Global) (export : string) (nqn hostnqn : Nqn) (l : list Listener) (fb : option string) (e : list act) (r : result stop unit) : Prop :=
  ∃ used rest tries, l = used ++ rest ∧ Forall2 (attempt_at nqn hostnqn) used tries ∧
  match r with
  | Ok _ => ∃ before li op reply, last used = Some li ∧ tries = before ++ [Called op (Ok reply)] ∧ Forall failed before ∧
              e = tries ++ connected_lines g export (li_trtype li) (default "" (str_member "device" reply)) (rdma_reason fb before)
  | Err _ => Forall failed tries ∧ e = tries
  end.
Lemma connected_runs g export li device fb :
  runs (connected_out g export li device fb) (λ e r, r = Ok tt ∧ e = connected_lines g export (li_trtype li) device fb).
Proof.
  unfold connected_out, connected_lines. destruct (gl_json g); [by apply runs_logged|].
  apply runs_printed.
  destruct fb as [reason|]; [by apply runs_logged|by apply runs_ret].
Qed.
Lemma try_listeners_runs g b host export nqn hn l fb last0 :
  runs (try_listeners g b host export nqn hn l fb last0) (tried g export nqn hn (List.filter supported l) fb).
Proof.
  revert fb last0. induction l as [|li l IH]; intros fb last0; cbn [try_listeners List.filter].
  { apply runs_bail. exists [], [], []. by repeat constructor. }
  assert (Hw : supported li = bool_decide (is_Some (wire_transport (li_trtype li)))).
  { unfold supported, is_rdma, is_tcp, wire_transport. repeat case_bool_decide; try done; by destruct H1. }
  rewrite Hw. destruct (wire_transport (li_trtype li)) as [tr|] eqn:Et; [|apply IH].
  rewrite (bool_decide_true (is_Some _)) by by eexists.
  eapply (runs_bind _ _ (λ e r, e = [] ∧ ∀ ip, r = Ok ip → ∀ ip', li_traddr li = Some ip' → ip = ip')).
  { destruct (li_traddr li) as [ip|]; [apply runs_ret; split; [done|]; by intros ? [= <-] ? [= <-]|].
    intros s. exists []. rewrite app_nil_r. unfold resolve_traddr. repeat case_match; (split; [done|]; split; [done|]); done. }
  2:{ intros e1 err [-> _]. exists [], (li :: List.filter supported l), []. by repeat constructor. }
  intros e1 ip [-> Hip]. specialize (Hip ip eq_refl). cbn [app].
  eapply (runs_bind _ _ (λ e r, ∃ res, e = [Called (ConnectNvme nqn tr ip (li_trsvcid li) hn) res] ∧ r = Ok res)).
  { apply runs_attempt. eapply runs_weaken; [apply runs_call|]. intros e r (res & -> & ->). by destruct res; eexists. }
  2:{ intros e1 err (res & _ & ?). done. }
  intros e1 r (res & -> & [= <-]). destruct r as [reply|err].
  - eapply runs_weaken; [apply connected_runs|]. intros e r [-> ->].
    exists [li], (List.filter supported l), [Called (ConnectNvme nqn tr ip (li_trsvcid li) hn) (Ok reply)]. split_and!; [done| |].
    + constructor; [|constructor]. by exists tr, ip, (Ok reply).
    + by exists [], li, (ConnectNvme nqn tr ip (li_trsvcid li) hn), reply.
  - eapply runs_weaken; [apply IH|]. intros e r (used & rest & tries & -> & Hu & Hr).
    exists (li :: used), rest, (Called (ConnectNvme nqn tr ip (li_trsvcid li) hn) (Err err) :: tries). split_and!; [done| |].
    { constructor; [|done]. by exists tr, ip, (Err err). }
    destruct r as [[]|e0].
    + destruct Hr as (before & li' & op & reply & Hl & -> & Hb & ->).
      exists (Called (ConnectNvme nqn tr ip (li_trsvcid li) hn) (Err err) :: before), li', op, reply. split_and!.
      * rewrite last_cons, Hl. done.
      * done.
      * constructor; [by eexists _, _|done].
      * cbn. do 4 f_equal. destruct tr; done.
    + destruct Hr as [Hf ->]. split; [|done]. constructor; [by eexists _, _|done].
Qed.

(** ** Steps *)

Lemma runs_send {T} (decode : string → result string T) api p body :
  runs (send decode api p body) (λ e r, ∃ a, e = [Asked (api_request api p body) a] ∧
    ∀ x, r = Ok x → ∃ text, a = Body text ∧ decode text = Ok x).
Proof.
  unfold send. eapply (runs_bind _ _ (λ e r, ∃ a, e = [Asked (api_request api p body) a] ∧ r = Ok a)).
  - intros s. eexists. split; [done|]. by eexists.
  - intros e1 a (a' & -> & [= <-]). apply (runs_bind _ _ (λ e r, e = [] ∧ ∀ t, r = Ok t → map_answer a = Ok t)).
    + apply runs_lift. split; [done|]. by intros t ?%map_err_Ok.
    + intros e2 text [-> Ht]. apply runs_lift. exists a. split; [done|]. intros x Hx%map_err_Ok. exists text. split; [|done].
      specialize (Ht _ eq_refl). destruct a as [t|c t|t]; cbn in Ht; [congruence| |done]. by destruct (c =? 401)%N.
    + intros e2 err [-> _]. exists a. done.
  - intros e1 err (a & _ & ?). done.
Qed.
Lemma runs_load g : runs (load g) (λ e r, match r with Ok l => e = [Loaded l] | Err _ => e = [] end).
Proof. intros s. unfold load. destruct (load_targets _ _) as [[l|err] h]; eexists; (split; [cbn; try done; by rewrite app_nil_r|done]). Qed.
Lemma runs_broker g : runs (broker g) (λ e _, e = []).
Proof. intros s. exists []. by rewrite app_nil_r. Qed.
(** The endpoint of a pairing. *)
Definition api_for (p : Pairing) (api : TargetApi) : Prop := ∀ s, api_connect p s = (Ok api, s).
Lemma runs_api_connect p : runs (api_connect p) (λ e r, e = [] ∧ ∀ api, r = Ok api → api_for p api).
Proof.
  intros s. exists []. rewrite app_nil_r. unfold api_for, api_connect.
  destruct (pa_fingerprint p) as [fp|]; [destruct (parse_fingerprint fp)|]; cbn; (split; [done|]; split; [done|]); by intros api [= <-].
Qed.
Definition flag_of (args : list string) : option string := match args with _ :: v :: _ => Some v | _ => None end.
Lemma runs_opt args flag : runs (opt_value args flag) (λ e r, e = [] ∧ ∀ v, r = Ok v → v = flag_of args).
Proof.
  destruct args as [|f args]; [apply runs_ret; split; [done|]; by intros v [= <-]|]. cbn. case_bool_decide; [|by apply runs_bail].
  destruct args as [|v args]; [by apply runs_bail|]. apply runs_ret. split; [done|]. by intros ? [= <-].
Qed.
Lemma runs_forced v : runs (forced_transport v) (λ e r, e = [] ∧ ∀ f, r = Ok f → f = v).
Proof.
  destruct v as [v|]; [|apply runs_ret; split; [done|]; by intros ? [= <-]]. cbn.
  repeat case_bool_decide; subst; try (apply runs_ret; split; [done|]; by intros ? [= <-]). by apply runs_bail.
Qed.
(** The polls of a task: at most sixty, all but the last without a verdict, the last
    one a success. *)
Definition verdict (api : TargetApi) (id : Z) (P : string → Prop) (a : act) : Prop :=
  ∃ text info, a = Asked (api_request api (task_path id) None) (Body text) ∧ json_task text = Ok info ∧ P (tk_status info).
Definition waited (api : TargetApi) (task : option Z) (waits : list act) : Prop :=
  match task with
  | None => waits = []
  | Some id =>
      (length waits ≤ 60)%nat ∧
      ∃ polls final, waits = polls ++ [final] ∧ verdict api id (λ s, s = "success") final ∧
                     Forall (verdict api id (λ s, s ≠ "success" ∧ s ≠ "failed")) polls
  end.
(** No privileged call, or none but to learn the host NQN. *)
Definition uncalled (e : list act) : Prop := Forall (λ a, match a with Called _ _ => False | _ => True end) e.
Definition early (e : list act) : Prop := Forall (λ a, match a with Called op _ => op = EnsureHostnqn | _ => True end) e.
Lemma uncalled_early e : uncalled e → early e.
Proof. intros H. eapply Forall_impl; [exact H|]. by intros []. Qed.
Lemma runs_poll n api id :
  runs (poll_task n api id) (λ e r, uncalled e ∧ (r = Ok tt → (length e ≤ n)%nat ∧
    ∃ polls final, e = polls ++ [final] ∧ verdict api id (λ s, s = "success") final ∧
                   Forall (verdict api id (λ s, s ≠ "success" ∧ s ≠ "failed")) polls)).
Proof.
  induction n as [|n IH]; cbn [poll_task]; [apply runs_bail; split; [constructor|done]|].
  assert (Hu : ∀ q a, uncalled [Asked q a]) by (by repeat constructor).
  eapply runs_bind; [apply runs_send| |by intros e1 err (a & -> & _)].
  intros e1 info (a & -> & Ha). destruct (Ha _ eq_refl) as (text & -> & Hj).
  case_bool_decide as Hs; [|case_bool_decide as Hf].
  - apply runs_ret. cbn. split; [apply Hu|]. intros _. split; [cbn; lia|]. exists [], (Asked (api_request api (task_path id) None) (Body text)).
    split_and!; [done| |constructor]. by exists text, info.
  - apply runs_bail. split; [apply Hu|done].
  - eapply (runs_bind _ _ (λ e r, e = [] ∧ r = Ok tt)); [|intros e2 u [-> _]|by intros e2 err [_ ?]].
    { intros s. exists []. by rewrite app_nil_r. }
    eapply runs_weaken; [apply IH|]. intros e r [Hc Hr]. cbn. split.
    + by constructor.
    + intros Hok. destruct (Hr Hok) as (Hl & polls & final & -> & Hv & Hp). split; [cbn; lia|].
      exists (Asked (api_request api (task_path id) None) (Body text) :: polls), final. split_and!; [done..|].
      constructor; [|done]. by exists text, info.
Qed.
Lemma runs_wait api task :
  runs (match task with Some id => wait_task api id | None => mret tt end) (λ e r, uncalled e ∧ (r = Ok tt → waited api task e)).
Proof.
  destruct task as [id|]; [apply runs_poll|]. apply runs_ret. split; [constructor|done].
Qed.
Lemma runs_register api id hn :
  runs (register_nvme api id hn) (λ e r, ∃ a waits,
    e = Asked (api_request api (register_nvme_path id) (Some (JObject [("hostnqn", JString hn)]))) a :: waits ∧ uncalled waits ∧
    (r = Ok tt → ∃ reg rr, a = Body reg ∧ json_register reg = Ok rr ∧ waited api (rr_task_id rr) waits)).
Proof.
  unfold register_nvme. eapply runs_bind; [apply runs_send| |intros e1 err (a & -> & _); exists a, []; by repeat constructor].
  intros ? rr (a & -> & Ha). destruct (Ha _ eq_refl) as (reg & -> & Hr). eapply runs_weaken; [apply runs_wait|].
  intros waits r [Hu Hw]. exists (Body reg), waits. split_and!; [done..|]. intros Hok. exists reg, rr. auto.
Qed.

(** ** The order of a connect *)

Definition connect_order (g : Global) (args : list string) (ext : list act) (r : result stop unit) : Prop :=
  ∃ target export rest l t api text exs e reply reg rr nqn hostnqn waits tries,
    args = target :: export :: rest ∧ find_target target l = Ok t ∧ api_for (pairing t) api ∧
    json_exports text = Ok exs ∧ List.find (is_named export) (ex_nvme exs) = Some e ∧ ne_enabled e = true ∧
    str_member "hostnqn" reply = Some (as_str hostnqn) ∧ ne_nqn e = as_str nqn ∧
    json_register reg = Ok rr ∧ waited api (rr_task_id rr) waits ∧
    tried g export nqn hostnqn (candidates (flag_of rest) (ne_listeners e)) None tries r ∧
    ext = [Loaded l; Asked (api_request api "/exports" None) (Body text); Called EnsureHostnqn (Ok reply);
           Asked (api_request api (register_nvme_path (ne_id e)) (Some (JObject [("hostnqn", JString (as_str hostnqn))]))) (Body reg)]
          ++ waits ++ tries.
Definition connect_log (g : Global) (args : list string) (ext : list act) (r : result stop unit) : Prop :=
  (early ext ∧ r ≠ Ok tt) ∨ connect_order g args ext r.
Lemma runs_pure {A B} (m : cli A) (f : A → cli B) (P : A → Prop) (Q : list act → result stop B → Prop) :
  runs m (λ e r, e = [] ∧ ∀ a, r = Ok a → P a) → (∀ a, P a → runs (f a) Q) → (∀ err, Q [] (Err err)) → runs (m ≫= f) Q.
Proof.
  intros Hm Hf He. eapply runs_bind; [exact Hm| |by intros e1 err [-> _]]. intros e1 a [-> Ha]. apply Hf. by apply Ha.
Qed.
Lemma runs_lift_ok {A B} (x : result string A) (f : A → cli B) (Q : list act → result stop B → Prop) :
  (∀ a, x = Ok a → runs (f a) Q) → (∀ err, Q [] (Err err)) → runs (lift x ≫= f) Q.
Proof. intros Hf He. apply (runs_pure _ _ (λ a, x = Ok a)); [|done..]. apply runs_lift. split; [done|]. by intros a ?%map_err_Ok. Qed.
Lemma runs_context_ok {A B} msg (o : option A) (f : A → cli B) (Q : list act → result stop B → Prop) :
  (∀ a, o = Some a → runs (f a) Q) → (∀ err, Q [] (Err err)) → runs (context msg o ≫= f) Q.
Proof.
  intros Hf He. apply (runs_pure _ _ (λ a, o = Some a)); [|done..]. apply runs_context; intros; (split; [done|]); by intros ? [= <-].
Qed.
Lemma runs_new_in {B} what s (f : Nqn → cli B) (Q : list act → result stop B → Prop) :
  (∀ n, s = as_str n → runs (f n) Q) → (∀ err, Q [] (Err err)) → runs (new_in what s ≫= f) Q.
Proof.
  intros Hf He. apply runs_lift_ok; [|done]. intros n Hn. apply Hf. unfold ctx in Hn. apply map_err_Ok, map_err_Ok, new_Ok in Hn. done.
Qed.
Lemma early_end e : uncalled e → early (e ++ []).
Proof. rewrite app_nil_r. apply uncalled_early. Qed.
Ltac stopped := intros; left; split; [|done]; repeat (apply Forall_cons; split); try done; try apply Forall_nil; try done; auto.
Lemma connect_runs g args : runs (cmd_connect g args) (connect_log g args).
Proof.
  unfold cmd_connect. apply runs_next; [|stopped]. intros target args1 ->. apply runs_next; [|stopped]. intros export rest ->.
  eapply runs_pure; [apply runs_opt| |stopped]. intros flag ->. eapply runs_pure; [apply runs_forced| |stopped]. intros forced ->.
  eapply runs_bind; [apply runs_load| |stopped]. 2:{ cbn in *; subst. constructor. }
  intros ? l ->. apply runs_lift_ok; [|stopped]. intros t Ht.
  eapply runs_pure; [apply runs_api_connect| |stopped]. intros api Hapi.
  eapply runs_bind; [apply (runs_send _ _ "/exports")| |intros e1 err (a & -> & _); stopped].
  intros ? exs (? & -> & Ha). destruct (Ha _ eq_refl) as (text & -> & Htext). clear Ha.
  apply runs_context_ok; [|stopped]. intros e He. destruct (ne_enabled e) eqn:Een; cbn [negb]; [|apply runs_bail; stopped].
  case_bool_decide; [apply runs_bail; stopped|].
  eapply runs_bind; [apply runs_broker| |intros e1 err ->; stopped]. intros ? b ->.
  eapply runs_bind; [apply runs_call| |intros e1 err (res & -> & _); stopped].
  intros ? reply (res & -> & Hres). symmetry in Hres. apply map_err_Ok in Hres as ->.
  apply runs_context_ok; [|stopped]. intros hn Hhn.
  eapply runs_bind; [apply runs_register| |intros e1 err (a & waits & -> & Hw & _); stopped; by apply uncalled_early].
  intros ? [] (a & waits & -> & Hun & Hok). destruct (Hok eq_refl) as (reg & rr & -> & Hrr & Hw).
  apply runs_new_in; [|stopped; exact (early_end _ Hun)]. intros nqn Hnqn.
  apply runs_new_in; [|stopped; exact (early_end _ Hun)]. intros hostnqn ->.
  assert (Htry : ∀ k tries r, List.filter supported (plan (flag_of rest) (ne_listeners e)) = k → tried g export nqn hostnqn k None tries r →
    connect_log g (target :: export :: rest) ([Loaded l; Asked (api_request api "/exports" None) (Body text); Called EnsureHostnqn (Ok reply);
      Asked (api_request api (register_nvme_path (ne_id e)) (Some (JObject [("hostnqn", JString (as_str hostnqn))]))) (Body reg)] ++ waits ++ tries) r).
  { intros k tries r <- Hk. rewrite plan_candidates in Hk. right.
    exists target, export, rest, l, t, api, text, exs, e, reply, reg, rr, nqn, hostnqn, waits, tries. split_and!; done. }
  destruct (plan (flag_of rest) (ne_listeners e)) as [|li k] eqn:Ep; [apply runs_bail; stopped; exact (early_end _ Hun)|].
  eapply runs_weaken; [apply try_listeners_runs|]. intros tries r Hr. by apply (Htry _ tries r eq_refl) in Hr.
Qed.

(** ** The order of a mount *)

Definition mounted_lines (g : Global) (transport mountpoint : string) (fallback : option string) : list act :=
  if gl_json g then
    [Printed (Json (JObject [("ok", JBool true); ("transport", JString transport); ("mountpoint", JString mountpoint);
                             ("fallback_reason", jopt fallback)]))]
  else Printed (Line ("mounted at " +:+ mountpoint +:+ " over " +:+ transport)) ::
       match fallback with Some reason => [Printed (Line ("  (fell back from RDMA: " +:+ reason +:+ ")"))] | None => [] end.
Definition over_tcp (g : Global) (op : bool → AgentOp) (mountpoint : string) (fallback : option string) (e : list act) (r : result stop unit) : Prop :=
  ∃ res, r = map_err Error ((λ _, tt) <$> res) ∧
         e = Called (op false) res :: (if is_ok res then mounted_lines g "tcp" mountpoint fallback else []).
(** RDMA unless forced off or not offered, then TCP with the reason. *)
Definition mounted (g : Global) (op : bool → AgentOp) (mountpoint : string) (force_tcp rdma : bool) (e : list act) (r : result stop unit) : Prop :=
  if force_tcp then over_tcp g op mountpoint None e r
  else if rdma then
    (∃ reply, r = Ok tt ∧ e = Called (op true) (Ok reply) :: mounted_lines g "rdma" mountpoint None) ∨
    (∃ err e', e = Called (op true) (Err err) :: e' ∧ over_tcp g op mountpoint (Some err) e' r)
  else over_tcp g op mountpoint (Some "target has no NFS RDMA listener") e r.
Definition mount_order (g : Global) (args : list string) (ext : list act) (r : result stop unit) : Prop :=
  ∃ target export rest l t api text exs e reg rr waits tries mp force_tcp,
    args = target :: export :: rest ∧ mount_args rest None false = Ok (mp, force_tcp) ∧
    find_target target l = Ok t ∧ api_for (pairing t) api ∧
    json_exports text = Ok exs ∧ List.find (is_path export) (ex_nfs exs) = Some e ∧ fe_enabled e = true ∧
    json_register reg = Ok rr ∧ waited api (rr_task_id rr) waits ∧
    (let mountpoint := default ("/mnt/greendot/" +:+ te_name t +:+ "/" +:+ path_slug (fe_path e)) mp in
     mounted g (λ rdma, MountNfs (host_only (te_host t)) (fe_path e) mountpoint rdma (fe_port e)) mountpoint force_tcp (fe_rdma e) tries r) ∧
    ext = [Loaded l; Asked (api_request api "/exports" None) (Body text);
           Asked (api_request api (register_nfs_path (fe_id e)) (Some (JObject [("rw", JBool true)]))) (Body reg)] ++ waits ++ tries.
Definition mount_log (g : Global) (args : list string) (ext : list act) (r : result stop unit) : Prop :=
  (uncalled ext ∧ r ≠ Ok tt) ∨ mount_order g args ext r.
Lemma print_mounted_runs g transport mountpoint fb :
  runs (print_mounted g transport mountpoint fb) (λ e r, r = Ok tt ∧ e = mounted_lines g transport mountpoint fb).
Proof.
  unfold print_mounted, mounted_lines. destruct (gl_json g); [by apply runs_logged|].
  apply runs_printed. destruct fb as [reason|]; [by apply runs_logged|by apply runs_ret].
Qed.
Lemma mount_tcp_runs g b op mountpoint fb : runs (mount_tcp g b op mountpoint fb) (over_tcp g op mountpoint fb).
Proof.
  unfold mount_tcp. eapply runs_bind; [apply runs_call| |].
  - intros ? reply (res & -> & Hr). destruct res as [reply'|]; [|done]. eapply runs_weaken; [apply print_mounted_runs|].
    intros e r [-> ->]. by exists (Ok reply').
  - intros ? err (res & -> & Hr). destruct res as [|m]; [done|]. injection Hr as ->. by exists (Err m).
Qed.
Lemma uncalled_end e : uncalled e → uncalled (e ++ []).
Proof. by rewrite app_nil_r. Qed.
Lemma mount_runs g args : runs (cmd_mount g args) (mount_log g args).
Proof.
  unfold cmd_mount. apply runs_next; [|stopped]. intros target args1 ->. apply runs_next; [|stopped]. intros export rest ->.
  apply runs_lift_ok; [|stopped]. intros [mp force_tcp] Hargs.
  eapply runs_bind; [apply runs_load| |intros e1 err ->; stopped].
  intros ? l ->. apply runs_lift_ok; [|stopped]. intros t Ht.
  eapply runs_pure; [apply runs_api_connect| |stopped]. intros api Hapi.
  eapply runs_bind; [apply (runs_send _ _ "/exports")| |intros e1 err (a & -> & _); stopped].
  intros ? exs (? & -> & Ha). destruct (Ha _ eq_refl) as (text & -> & Htext). clear Ha.
  apply runs_context_ok; [|stopped]. intros e He. destruct (fe_enabled e) eqn:Een; cbn [negb]; [|apply runs_bail; stopped].
  eapply runs_bind; [apply runs_send| |intros e1 err (a & -> & _); stopped].
  intros ? rr (? & -> & Ha). destruct (Ha _ eq_refl) as (reg & -> & Hrr). clear Ha.
  eapply runs_bind; [apply runs_wait| |intros waits err [Hun _]; stopped; exact Hun].
  intros waits [] [Hun Hw]. specialize (Hw eq_refl).
  eapply runs_bind; [apply runs_broker| |intros e1 err ->; stopped; exact (uncalled_end _ Hun)]. intros ? b ->.
  set (mountpoint := default ("/mnt/greendot/" +:+ te_name t +:+ "/" +:+ path_slug (fe_path e)) mp).
  set (op := λ rdma, MountNfs (host_only (te_host t)) (fe_path e) mountpoint rdma (fe_port e)).
  apply (runs_weaken _ (mounted g op mountpoint force_tcp (fe_rdma e))).
  2:{ intros tries r Hm. right. exists target, export, rest, l, t, api, text, exs, e, reg, rr, waits, tries, mp, force_tcp. split_and!; done. }
  unfold mounted. destruct force_tcp; [apply mount_tcp_runs|]. destruct (fe_rdma e); cbn [negb]; [|apply mount_tcp_runs].
  eapply (runs_bind _ _ (λ e r, ∃ res, e = [Called (op true) res] ∧ r = Ok res)).
  { apply runs_attempt. eapply runs_weaken; [apply runs_call|]. intros e1 r (res & -> & ->). by destruct res; eexists. }
  2:{ intros e1 err (res & _ & ?). done. }
  intros e1 r (res & -> & [= <-]). destruct r as [reply|err].
  - eapply runs_weaken; [apply print_mounted_runs|]. intros e2 r [-> ->]. left. by exists reply.
  - eapply runs_weaken; [apply mount_tcp_runs|]. intros e2 r Hr. right. by exists err, e2.
Qed.

(** C32: A connect or a mount performs its privileged step only in this order: the
    stored target is found, its export fetched, found and enabled; this host is
    registered on that export, with the host NQN the agent gave or for reading and
    writing; if the target answered with a reconcile task, that task has been polled,
    at most sixty times, until it reported success; then the listeners are tried, the
    RDMA ones first and each kind in the target's order, up to the first that connects,
    which is printed with the reason of the last RDMA failure, and a mount falls back
    to TCP only when forced, when the target offers no RDMA or when the RDMA mount
    failed. Otherwise the command fails and has asked for nothing privileged but the
    host NQN. *)
Theorem attach_after_registration g args s :
  (∀ r s', cmd_connect g args s = (r, s') → ∃ ext, se_log s' = se_log s ++ ext ∧ connect_log g args ext r) ∧
  (∀ r s', cmd_mount g args s = (r, s') → ∃ ext, se_log s' = se_log s ++ ext ∧ mount_log g args ext r).
Proof. split; intros r s' E; eapply runs_intro; [apply connect_runs|exact E|apply mount_runs|exact E]. Qed.
End theorems.

(** ** A target reached over TCP after its RDMA listener failed *)

Definition demo_tree : tree := list_to_map
  [(["etc"; "greendot-client"; "targets.toml"], File "nas"); (["etc"; "nvme"; "hostnqn"], File "nqn.2014-08.org.nvmexpress:uuid:1");
   (["sys"; "class"; "nvme"], Dir); (["sys"; "class"; "nvme"; "nvme0"], Dir);
   (["sys"; "class"; "nvme"; "nvme0"; "subsysnqn"], File "nqn.2026-06.io.greendot:vm1");
   (["sys"; "class"; "nvme"; "nvme0"; "state"], File "live"); (["sys"; "class"; "nvme"; "nvme0"; "nvme0n1"], Dir)].
#[local] Instance demo_machine : Machine := {|
  settle _ _ := demo_tree;
  fabrics_answer _ o := if contains "transport=rdma" o then Some (FOther "no route") else None;
  command _ _ := Finished true "" |}.
Definition demo_entry : TargetEntry :=
  {| te_name := "nas"; te_host := "10.0.0.5:8443"; te_token := "tok";
     te_cert_sha256 := Some "abababababababababababababababababababababababababababababababab" |}.
#[local] Instance demo_targets : TargetsCodec := {| toml_targets _ := Ok [demo_entry]; targets_toml _ := Ok "" |}.
#[local] Instance demo_agent_json : AgentJson := {|
  op_json _ := Err "unused"; json_op _ := Err "unused"; object_json _ := ""; json_object _ := Err "unused" |}.
Definition demo_listener (trtype : string) : Listener := {| li_trtype := trtype; li_traddr := None; li_trsvcid := lit 4420%N |}.
Definition demo_export : NvmeExport :=
  {| ne_id := 7; ne_name := "vm1"; ne_nqn := "nqn.2026-06.io.greendot:vm1"; ne_enabled := true; ne_authorized := false;
     ne_listeners := [demo_listener "tcp"; demo_listener "rdma"] |}.
#[local] Instance demo_api_json : ApiJson := {|
  json_target _ := Ok {| ti_name := "nas"; ti_api := lit 1%N; ti_version := "1" |};
  json_exports _ := Ok {| ex_nvme := [demo_export]; ex_nfs := [] |};
  json_register _ := Ok {| rr_task_id := Some 3%Z |};
  json_task t := Ok {| tk_status := t; tk_error := None |} |}.
#[local] Instance demo_net : Net := {|
  lookup_host _ _ := Err "no such host"; lookup_addr _ _ := Err "no such host"; dial _ _ := Err "refused";
  http n q := if contains "/tasks/" (rq_url q) then Body (if bool_decide (n < 5)%nat then "running" else "success") else Body "reply" |}.
#[local] Instance demo_seat : Seat := {|
  agent_at _ _ := None; no_agent _ := "refused"; is_root := true; serve _ := Ok tt |}.
Definition demo_session : session :=
  {| se_host := {| ho_tree := demo_tree; ho_clock := 0; ho_fabrics := []; ho_ran := [] |}; se_log := [] |}.
Definition demo_connect : result stop unit * session := @cmd_connect permissive _ _ _ _ _ _ default_global ["nas"; "vm1"] demo_session.
Lemma attach_after_registration_witness :
  demo_connect.1 = Ok tt ∧ length (se_log demo_connect.2) = 10 ∧ connect_order default_global ["nas"; "vm1"] (se_log demo_connect.2) (Ok tt).
Proof.
  split; [vm_compute; reflexivity|]. split; [vm_compute; reflexivity|].
  assert (E1 : demo_connect.1 = Ok tt) by (vm_compute; reflexivity).
  destruct (proj1 (@attach_after_registration permissive _ _ _ _ _ _ default_global ["nas"; "vm1"] demo_session) demo_connect.1 demo_connect.2
    (surjective_pairing _)) as (ext & E & H).
  change (se_log demo_session ++ ext) with ext in E. rewrite <-E in H. rewrite E1 in H.
  destruct H as [[_ H]|H]; [destruct (H eq_refl)|exact H].
Defined.
Definition demo_main : ending * session := @main permissive _ _ _ _ _ _ ["connect"; "nas"; "vm1"] demo_session.
Lemma tokens_stay_with_their_target_witness :
  ∃ q a, Asked q a ∈ se_log demo_main.2 ∧ rq_token q = "tok" ∧ ∃ l t, Loaded l ∈ se_log demo_main.2 ∧ t ∈ l ∧ directed (pairing t) q.
Proof.
  destruct (@tokens_stay_with_their_target permissive _ _ _ _ _ _ ["connect"; "nas"; "vm1"] demo_session demo_main.1 demo_main.2
    (surjective_pairing _)) as (ext & E & H).
  change (se_log demo_session ++ ext) with ext in E. subst ext.
  assert (Hq : ∃ q a, se_log demo_main.2 !! 1 = Some (Asked q a) ∧ rq_token q = "tok") by (eexists _, _; split; vm_compute; reflexivity).
  destruct Hq as (q & a & Hq & Ht). apply list_elem_of_lookup_2 in Hq. exists q, a. split; [exact Hq|]. split; [exact Ht|].
  destruct (H q a Hq) as [(str & p & Hs & Hp & _)|Hl]; [|exact Hl].
  exfalso. repeat (apply elem_of_cons in Hs as [->|Hs]; [discriminate Hp|]). by apply elem_of_nil in Hs.
Defined.
(** A stored fingerprint of the right length that cuts a character in two makes the
    client panic instead of reporting it. *)
Lemma fingerprint_panics :
  let fp := "a" +:+ chr 195 +:+ chr 169 +:+ "ababababababababababababababababababababababababababababababa" in slen fp = 64%N ∧ parse_fingerprint fp = Err Panic.
Proof. split; vm_compute; reflexivity. Qed.
