(* ===== verification/AdminPages.v ===== *)
(** * The NIC, settings, SSH access and connection pages (routes/nic.rs,
    settings.rs, ssh_access.rs, connections.rs, actual/apt.rs)

    What these pages show and what their forms do: the intent for a NIC is written
    to the store before the helper is asked, packages are offered for installation,
    keys are handed to the daemon. The typed reads of the helper and the search
    path are class parameters. *)
From Stdlib Require Import Ascii String.
From stdpp Require Import base option list strings sets gmap pretty.
From S2P Require Import Prelude Ordered Validate IpAddr Types Wire Ops World Hardware Commands Nic Lio PipeKeys Reconcile Desired Actual Task Replies Fs Store Tasks ZfsView Dots Site Exports Sessions Snapshots Inventory DiskPages.
#[local] Open Scope string_scope.
#[local] Open Scope list_scope.
#[local] Open Scope N_scope.

(** ** Reads *)

(** The helper's answers to the typed reads, given the requests sent so far. *)
Class SiteReads := {
  nics_reply : list request → result string pb_NicInterfacesReply;
  networks_reply : list request → result string pb_NicNetworkReply;
  advice_reply : list request → result string pb_NicRdmaAdviceReply;
  rdma_reply : list request → result string pb_RdmaDevicesReply;
  sessions_reply : list request → result string pb_LioSessionsReply;
  nvmet_reply : list request → result string pb_NvmetReportReply;
  access_report : list request → option PipeAccessReportReply }.
(** The process environment: PATH, which files exist, the os-release files. *)
Class Environment := { env_path : option string; is_file : string → bool; os_tree : tree }.

(** ** NIC rows (routes/nic.rs) *)

Definition JUMBO_MTU : N := 9000.
Record NicRow : Type := {
  nr_netdev : string; nr_rdma : string; nr_addrs : string; nr_status : string; nr_dot : string; nr_roce : bool; nr_soft_roce : bool;
  nr_diagnose : bool }.
Definition nic_row (s : NicStatus) : option NicRow :=
  '(status, dot, roce, soft_roce) ←
    match nst_kind s with
    | Active => Some ("RDMA active", "dot-green", false, false)
    | Inactive => Some ("RDMA device down", "dot-yellow", false, false)
    | CapableDisabled vendor => Some ("RoCE-capable (" +:+ vendor +:+ "), disabled", "dot-red", true, false)
    | SoftRoceable => Some ("no RDMA", "dot-gray", false, true)
    | Unsupported => None
    end;
  Some {| nr_netdev := nst_netdev s; nr_rdma := default em_dash (nst_rdma s); nr_addrs := join ", " (show_ip <$> nst_addrs s);
          nr_status := status; nr_dot := dot; nr_roce := roce; nr_soft_roce := soft_roce;
          nr_diagnose := match nst_kind s with Active => false | _ => true end |}.
Record NicListRow : Type := {
  nl_netdev : string; nl_dot : string; nl_rdma : string; nl_addrs : string; nl_status : string; nl_dhcp : string; nl_link : string }.
Definition nic_list_row (nets : gmap string NicNetwork) (r : NicRow) : NicListRow :=
  let net := nets !! nr_netdev r in
  {| nl_netdev := nr_netdev r; nl_dot := nr_dot r; nl_rdma := nr_rdma r; nl_addrs := nr_addrs r; nl_status := nr_status r;
     nl_dhcp := match net with Some n => if nn_dhcp n then "yes" else "no" | None => em_dash end;
     nl_link := match net with Some n => nn_operstate n | None => em_dash end |}.
Record NicDetailView : Type := {
  nv_nic : option NicRow; nv_net : option NicNetwork; nv_netdev : string; nv_mtu_warning : option string; nv_notice : notice }.
Record NicDiagnoseView : Type := {
  ng_netdev : string; ng_status : string; ng_dot_class : string; ng_criteria : list Criterion; ng_not_found : bool }.
Definition mtu_warning (net : option NicNetwork) : option string :=
  n ← net;
  m ← nn_mtu n;
  if raw m <? JUMBO_MTU then
    Some ("MTU " +:+ show_uint m +:+ " is below a jumbo frame (" +:+ pretty JUMBO_MTU +:+ "). RDMA storage benefits from jumbo frames or larger "
          +:+ em_dash +:+ " set it on every host and switch on the path.")
  else None.
(** A later interface of the same name wins. *)
Definition by_netdev (l : list NicNetwork) : gmap string NicNetwork := foldl (λ m n, <[nn_netdev n := n]> m) ∅ l.

(** ** Packages (actual/apt.rs, settings.rs) *)

Definition starts_blank (line : string) : bool := first_char is_ws line.
Definition strip_colon (line : string) : option string :=
  if ends_with_char ":" line then Some (String.substring 0 (String.length line - 1) line) else None.
Definition policy_line (acc : gset string * option string) (line : string) : gset string * option string :=
  let '(available, current) := acc in
  if negb (starts_blank line) then (available, strip_colon line)
  else
    match current, strip_prefix "Candidate:" (trim line) with
    | Some pkg, Some candidate => (if bool_decide (trim candidate = "(none)") then available else {[pkg]} ∪ available, current)
    | _, _ => acc
    end.
Definition parse_available (out : string) : gset string := fst (foldl policy_line (∅, None) (lines out)).
Definition REQUIRED_CLIS : list string :=
  ["zfs"; "zpool"; "vgs"; "lvs"; "sfdisk"; "lsblk"; "resize2fs"; "e2fsck"; "btrfs"; "modprobe"; "rdma"; "devlink"; "nvme"; "targetctl";
   "exportfs"; "smartctl"].
Record DepRow : Type := { dp_cli : string; dp_package : string; dp_present : bool }.
Record RdmaRow : Type := { rr_name : string; rr_netdev : string; rr_state : string; rr_addrs : string }.
Record SettingsView : Type := {
  sv_listen_addr : string; sv_rdma_devs : list RdmaRow; sv_deps : list DepRow; sv_installable : list string; sv_manual : list string;
  sv_os_pretty : string; sv_install_supported : bool; sv_notice : notice }.
Definition partition_missing (missing : list string) (available : gset string) : list string * list string :=
  (List.filter (λ p, bool_decide (p ∈ available)) missing, List.filter (λ p, negb (bool_decide (p ∈ available))) missing).
Definition rdma_row (d : RdmaDev) : RdmaRow :=
  {| rr_name := rd_name d; rr_netdev := default "?" (rd_netdev d); rr_state := if rd_active d then "active" else "down";
     rr_addrs := join ", " (show_ip <$> rd_addrs d) |}.

(** ** Keys (ssh_access.rs) *)

Record KeyRow : Type := {
  kr_fingerprint : string; kr_algorithm : string; kr_label : string; kr_confirm : string; kr_forced_command_ok : bool; kr_options : string }.
Record HostKeyRow : Type := { hr_algorithm : string; hr_fingerprint : string; hr_known_hosts_line : string }.
Record SshAccessView : Type := {
  sa_user : string; sa_rows : list KeyRow; sa_host_keys : list HostKeyRow; sa_degraded : bool; sa_notice : notice }.
Definition known_hosts_host (host : string) : string := match rsplit_once ":" host with Some (h, _) => h | None => host end.
Definition key_row (k : PipeKeyEntry) : KeyRow :=
  {| kr_fingerprint := pe_fingerprint k; kr_algorithm := pe_algorithm k; kr_label := pe_comment k;
     kr_confirm := if is_empty (pe_comment k) then pe_fingerprint k else pe_comment k;
     kr_forced_command_ok := pe_forced_command_ok k; kr_options := pe_options k |}.
Definition host_key_row (host : string) (h : HostKey) : HostKeyRow :=
  {| hr_algorithm := hk_algorithm h; hr_fingerprint := hk_fingerprint h; hr_known_hosts_line := host +:+ " " +:+ hk_key_line h |}.
Definition view_from (report : PipeAccessReportReply) (host : string) (n : notice) : SshAccessView :=
  {| sa_user := pr_user report; sa_rows := key_row <$> pr_keys report; sa_host_keys := host_key_row host <$> pr_host_keys report;
     sa_degraded := existsb (λ c, negb (cr_ok c)) (pipe_access_criteria report); sa_notice := n |}.
(** [Default] of the reply. *)
Definition no_report : PipeAccessReportReply :=
  {| pr_user := ""; pr_socket_group := ""; pr_forced_command := ""; pr_forced_command_bin_ok := false; pr_host_keys := [];
     pr_user_exists := false; pr_in_socket_group := false; pr_home := (false, ""); pr_ssh_dir := (false, ""); pr_authorized_keys := (false, "");
     pr_unparsable_lines := lit 0; pr_keys := [] |}.
Definition labelled (public_key label : string) : string :=
  let label := trim label in
  if is_empty label then trim public_key
  else
    match split_whitespace public_key with
    | algorithm :: base64 :: _ => algorithm +:+ " " +:+ base64 +:+ " " +:+ label
    | _ => trim public_key
    end.

(** ** Connections (connections.rs) *)

Record IscsiRow : Type := { ir_export : string; ir_target_iqn : string; ir_initiator_iqn : string }.
Record NvmeRow : Type := { pw_listen : string; pw_peer : string; pw_state : string }.
Record ConnectionsView : Type := {
  cv_iscsi : list IscsiRow; cv_nvme : list NvmeRow; cv_nvme_unavailable : bool; cv_nfs : list NvmeRow; cv_nfs_unavailable : bool }.
Fixpoint export_of_iqn (iqn : string) (l : list IscsiExport) : panics (option IscsiExport) :=
  match l with
  | [] => Ok None
  | e :: l => i ← iscsi_iqn e; if bool_decide (as_str i = iqn) then Ok (Some e) else export_of_iqn iqn l
  end.
Definition iscsi_row (exports : list IscsiExport) (s : IscsiSession) : panics IscsiRow :=
  e ← export_of_iqn (is_target_iqn s) exports;
  Ok {| ir_export := match e with Some e => iscsi_name e | None => is_target_iqn s end;
        ir_target_iqn := is_target_iqn s; ir_initiator_iqn := is_initiator_iqn s |}.
Definition peer_row (p : RdmaPeer) : NvmeRow :=
  {| pw_listen := match rp_src_port p with Some port => rp_src_addr p +:+ ":" +:+ show_uint port | None => rp_src_addr p end;
     pw_peer := rp_dst_addr p; pw_state := rp_state p |}.
Definition rdma_ports (a : ActualNvmet) : list u16 :=
  omap (λ p, parse_uint 16 (ap_trsvcid p)) (List.filter (λ p, bool_decide (ap_trtype p = "rdma")) (an_ports a)).
Definition peers_on (ports : list u16) (peers : list RdmaPeer) : list NvmeRow :=
  peer_row <$> List.filter (λ p, match rp_src_port p with Some port => bool_decide (port ∈ ports) | None => false end) peers.

Section pages.
Context {K : Kernel} {D : DocCodec} (file : path) {Q : Sqlite} {T : Clock} {R : RowCodec} {H : Helper}.
Context {Sh : Shell} {SR : SiteReads} {E : Environment} {JP : JsonParser} {SK : SshKey}.
(** A typed read of the helper, or the default of its type when the call fails. *)
Definition read_helper {W A} `{Reply W A} (dflt : A) (f : list request → result string W) : hop A := λ s,
  (Ok (read_rpc dflt (f (st_sent s))), s).
Definition interfaces : hop (list NicStatus) := read_helper [] nics_reply.
Definition networks : hop (gmap string NicNetwork) := l ← read_helper [] networks_reply; mret (by_netdev l).
Definition gather_list : hop (list NicListRow) :=
  nets ← networks;
  nics ← interfaces;
  mret (nic_list_row nets <$> omap nic_row nics).
(** The dashboard (routes/mod.rs); its grids of dots load themselves. *)
Definition dashboard : hop (list NicRow) :=
  nics ← interfaces;
  mret (omap nic_row nics).
Definition gather_nic_detail (netdev : string) (n : notice) : hop NicDetailView :=
  nics ← interfaces;
  nets ← networks;
  mret {| nv_nic := List.find (λ r, bool_decide (nr_netdev r = netdev)) (omap nic_row nics); nv_net := nets !! netdev; nv_netdev := netdev;
          nv_mtu_warning := mtu_warning (nets !! netdev); nv_notice := n |}.
Definition gather_nic_diagnose (netdev : string) : hop NicDiagnoseView :=
  nics ← interfaces;
  match List.find (λ s, bool_decide (nst_netdev s = netdev)) nics with
  | None => mret {| ng_netdev := netdev; ng_status := ""; ng_dot_class := "dot-gray"; ng_criteria := []; ng_not_found := true |}
  | Some status =>
      advice ← read_helper ∅ advice_reply;
      let '(text, dot) := match nic_row status with Some r => (nr_status r, nr_dot r) | None => ("", "dot-gray") end in
      mret {| ng_netdev := netdev; ng_status := text; ng_dot_class := dot;
              ng_criteria := nic_diagnostics status (advice !! netdev); ng_not_found := false |}
  end.

(** ** NIC forms *)

Definition bad_netdev (netdev : string) : string := "invalid interface name " +:+ debug_str netdev.
(** [enable_rxe]: the page, and the background run it leaves: the task's id and the
    interface. *)
Definition enable_rxe (netdev : string) : hop (NicDetailView * option (Z * NetdevName)) :=
  match new NtNetdevName (trim netdev) with
  | Err _ => v ← gather_nic_detail netdev (failed (bad_netdev netdev)); mret (v, None)
  | Ok nd =>
      saved ← hop_try (on_store (set_nic_want_rxe file (as_str nd) true));
      match saved with
      | Err e => v ← gather_nic_detail (as_str nd) (failed e); mret (v, None)
      | Ok _ =>
          let title := "enable Soft-RoCE on " +:+ as_str nd in
          begun ← hop_try (on_web (begin_task "rxe-add" title));
          match begun with
          | Err e => v ← gather_nic_detail (as_str nd) (failed e); mret (v, None)
          | Ok id => v ← gather_nic_detail (as_str nd) (flashed ("started " +:+ title) (Some id)); mret (v, Some (id, nd))
          end
      end
  end.
(** The background run: the reconcile only after the link was added. *)
Definition rxe_run (id : Z) (nd : NetdevName) : hop unit :=
  rx ← send (RRxeAdd {| rxe_add_netdev := nd |});
  driven ← hop_try (on_web (drive id [] rx));
  let added := match driven with Ok o => to_ok o | Err _ => false end in
  _ ← on_web (on_hub (unregister id));
  if added then _ ← hop_try (reconcile_state file); mret tt else mret tt.
Definition set_roce (netdev : string) : hop NicDetailView :=
  match new NtNetdevName (trim netdev) with
  | Err _ => gather_nic_detail netdev (failed (bad_netdev netdev))
  | Ok nd =>
      saved ← hop_try (on_store (set_nic_want_roce file (as_str nd) true));
      match saved with
      | Err e => gather_nic_detail (as_str nd) (failed e)
      | Ok _ =>
          let title := "enable RoCE on " +:+ as_str nd in
          r ← hop_try (start "roce" title (REnableRoce {| enable_roce_netdev := nd |}));
          gather_nic_detail (as_str nd)
            match r with
            | Ok id => flashed ("started " +:+ title +:+ "; reconnect if your session dropped") (Some id)
            | Err e => failed e
            end
      end
  end.
Definition set_mtu (netdev mtu : string) : hop NicDetailView :=
  match new NtNetdevName (trim netdev) with
  | Err _ => gather_nic_detail netdev (failed (bad_netdev netdev))
  | Ok nd =>
      match parse_uint 32 (trim mtu) with
      | None => gather_nic_detail netdev (failed ("invalid MTU " +:+ debug_str mtu))
      | Some m =>
          saved ← hop_try (on_store (set_nic_mtu file (as_str nd) m));
          match saved with
          | Err e => gather_nic_detail netdev (failed ("could not save MTU setting: " +:+ e))
          | Ok _ =>
              run_on (gather_nic_detail (as_str nd)) "set-mtu" ("set MTU " +:+ show_uint m +:+ " on " +:+ as_str nd)
                (RSetMtu {| set_mtu_netdev := nd; set_mtu_mtu := m |})
          end
      end
  end.

(** ** Settings *)

Definition cli_present (cli : string) : bool :=
  match env_path with Some p => existsb (λ dir, is_file (dir +:+ "/" +:+ cli)) (split ":" p) | None => false end.
Definition dep_row (cli : string) : DepRow :=
  {| dp_cli := cli; dp_package := default "" (package_for_cli cli); dp_present := cli_present cli |}.
Definition missing_packages (deps : list DepRow) : list string :=
  dedup (sort (dp_package <$> List.filter (λ d, negb (dp_present d) && nonempty (dp_package d)) deps)).
Definition apt_available (n : nat) (packages : list string) : gset string :=
  match packages with
  | [] => ∅
  | _ =>
      match shell n (["apt-cache"; "policy"] ++ packages) with
      | Exited _ out _ => parse_available (default "" out)
      | _ => list_to_set packages
      end
  end.
Definition gather_settings (nt : notice) : hop SettingsView :=
  devs ← read_helper [] rdma_reply;
  d ← get_config;
  let deps := dep_row <$> REQUIRED_CLIS in
  let missing := missing_packages deps in
  let os := os_detect os_tree in
  let supported := match os_family os with Debian => true | UnsupportedOs => false end in
  available ← on_host (λ n, if supported then apt_available n missing else ∅);
  let '(installable, manual) := partition_missing missing available in
  mret {| sv_listen_addr := default "0.0.0.0" (get_setting d "listen_addr"); sv_rdma_devs := rdma_row <$> devs; sv_deps := deps;
          sv_installable := installable; sv_manual := manual; sv_os_pretty := os_pretty os; sv_install_supported := supported;
          sv_notice := nt |}.
Definition reconcile_now : hop SettingsView :=
  r ← hop_try (reconcile_state file);
  gather_settings
    match r with
    | Ok (Some id) => flashed "reconcile started" (Some id)
    | Ok None => flashed "already reconciled" None
    | Err e => failed e
    end.
Definition set_listen (listen_addr : string) : hop SettingsView :=
  let addr := trim listen_addr in
  match parse_ip addr with
  | None => gather_settings (failed ("invalid IP address " +:+ debug_str addr))
  | Some _ =>
      r ← hop_try (_ ← on_store (set_setting file "listen_addr" addr); reconcile_state file);
      gather_settings
        match r with
        | Ok (Some id) => flashed ("listen address set to " +:+ addr +:+ "; reconciling exports") (Some id)
        | Ok None => flashed ("listen address set to " +:+ addr) None
        | Err e => failed e
        end
  end.
Definition install_deps (packages : string) : hop SettingsView :=
  match omap (λ p, to_option (new NtPackageName p)) (split_whitespace packages) with
  | [] => gather_settings (failed "no valid packages to install")
  | ps => run_on gather_settings "install" ("install " +:+ join ", " (as_str <$> ps)) (RInstallPackages {| install_packages_packages := ps |})
  end.

(** ** SSH access *)

Context (listen : string).
Definition read_report : hop PipeAccessReportReply := λ s, (Ok (default no_report (access_report (st_sent s))), s).
Definition gather_access (headers : list (string * string)) (n : notice) : hop SshAccessView :=
  report ← read_report;
  mret (view_from report (known_hosts_host (request_host listen headers)) n).
Definition not_a_key : string :=
  "not an OpenSSH public key " +:+ em_dash +:+ " paste one line, as in `ssh-ed25519 AAAA" +:+ (chr 226 +:+ chr 128 +:+ chr 166) +:+ " admin@laptop`".
(** [add]: the page, and the key the request carries when one is sent; the helper's
    answer to it is an argument. *)
Definition add_key (answer : SshPublicKeyLine → call) (headers : list (string * string)) (public_key label : string) :
    hop (SshAccessView * option SshPublicKeyLine) :=
  match public_key_line (labelled public_key label) with
  | None => v ← gather_access headers (failed not_a_key); mret (v, None)
  | Some key =>
      let title := "Authorize SSH key " +:+ as_str (sk_fingerprint key) in
      r ← hop_try (id ← on_web (begin_task "pipe-key-add" title); _ ← spawn (StreamJob id (helper_stream (answer key))); mret id);
      v ← gather_access headers
            match r with Ok id => flashed ("started " +:+ title) (Some id) | Err e => failed e end;
      mret (v, Some key)
  end.
Definition revoke_key (headers : list (string * string)) (fingerprint : string) : hop SshAccessView :=
  match new NtSshFingerprint (trim fingerprint) with
  | Err e => gather_access headers (failed (show_ValidationError e))
  | Ok fp =>
      run_on (gather_access headers) "pipe-key-revoke" ("Revoke SSH key " +:+ as_str fp)
        (RPipeKeyRevoke {| pipe_key_revoke_fingerprint := fp |})
  end.
Definition diagnose_access : hop (string * list Criterion) := r ← read_report; mret (pr_user r, pipe_access_criteria r).

(** ** Connections *)

Definition gather_connections : hop ConnectionsView :=
  d ← get_config;
  sessions ← read_helper [] sessions_reply;
  iscsi ← hop_panics (panics_map (iscsi_row (list_iscsi_exports d)) sessions);
  let has_nvme := existsb (λ e, nvme_enabled e && nvme_want_rdma e) (list_nvme_exports d) in
  let has_nfs := existsb nfs_enabled (list_nfs_exports d) in
  if has_nvme || has_nfs then
    rx ← send (RUnit OpRdmaResources);
    let out := collect_output rx in
    let peers := peers_from_json (ho_stdout out) in
    a ← if has_nvme then read_helper {| an_subsystems := []; an_ports := [] |} nvmet_reply
        else mret {| an_subsystems := []; an_ports := [] |};
    let nvme := if has_nvme then peers_on (rdma_ports a) peers else [] in
    let nfs := if has_nfs then peers_on [NFS_RDMA_PORT] peers else [] in
    let missing (rows : list NvmeRow) := negb (ho_ok out) && match rows with [] => true | _ => false end in
    mret {| cv_iscsi := iscsi; cv_nvme := nvme; cv_nvme_unavailable := has_nvme && missing nvme;
            cv_nfs := nfs; cv_nfs_unavailable := has_nfs && missing nfs |}
  else mret {| cv_iscsi := iscsi; cv_nvme := []; cv_nvme_unavailable := false; cv_nfs := []; cv_nfs_unavailable := false |}.
End pages.
