(* ===== verification/AdminFacts.v ===== *)
(** * The admin pages: intents are stored before the helper is asked *)
From Stdlib Require Import Ascii String.
From stdpp Require Import base option list strings sets gmap pretty.
From S2P Require Import StoreFacts TasksFacts ExportsFacts StorageFacts Prelude Ordered Validate IpAddr Types Wire Ops World Hardware Commands Render Nic Lio PipeKeys Reconcile Desired Actual Task Replies Fs Store Tasks ZfsView Dots Site Exports Sessions Snapshots Inventory DiskPages AdminPages.
#[local] Open Scope string_scope.
#[local] Open Scope list_scope.

(** ** NIC forms *)

Inductive nic_form : Type := FRxe (netdev : string) | FRoce (netdev : string) | FMtu (netdev mtu : string).
(** The interface a form names, when the form is valid. *)
Definition names (f : nic_form) (nd : NetdevName) : Prop :=
  match f with
  | FRxe n | FRoce n => as_str nd = trim n
  | FMtu n m => as_str nd = trim n ∧ is_Some (parse_uint 32 (trim m))
  end.
(** What the store then says of the interface. *)
Definition wants (f : nic_form) (c : NicConfig) : Prop :=
  match f with
  | FRxe _ => nic_want_rxe c = true
  | FRoce _ => nic_want_roce c = true
  | FMtu _ m => nic_mtu c = parse_uint 32 (trim m)
  end.
(** The machine is not there yet, and what the daemon then plans. *)
Definition unmet (f : nic_form) (nd : NetdevName) (networks : list NicNetwork) (statuses : list NicStatus) (a : NicAction) : Prop :=
  let kind := nst_kind <$> List.find (λ s, bool_decide (nst_netdev s = as_str nd)) statuses in
  match f with
  | FRxe _ => kind = Some SoftRoceable ∧ a = AddRxe nd
  | FRoce _ => (∃ vendor, kind = Some (CapableDisabled vendor)) ∧ a = Render.EnableRoce nd
  | FMtu _ m => ∃ n mtu, List.find (λ n, bool_decide (nn_netdev n = as_str nd)) networks = Some n ∧
                         parse_uint 32 (trim m) = Some mtu ∧ nn_mtu n ≠ Some mtu ∧ a = Render.SetMtu nd mtu
  end.
(** What a form sends at once; the request for Soft-RoCE is made in the background. *)
Definition asked (f : nic_form) (nd : NetdevName) : list request :=
  match f with
  | FRxe _ => []
  | FRoce _ => [REnableRoce {| enable_roce_netdev := nd |}]
  | FMtu _ m => match parse_uint 32 (trim m) with Some m => [RSetMtu {| set_mtu_netdev := nd; set_mtu_mtu := m |}] | None => [] end
  end.

Lemma edit_first_in {A} (p : A → bool) f (l : list A) a :
  a ∈ l → p a = true → ∃ b, b ∈ l ∧ p b = true ∧ f b ∈ edit_first p f l.
Proof.
  induction l as [|x l IH]; intros Ha Hp; [by apply elem_of_nil in Ha|]. cbn. destruct (p x) eqn:E.
  - exists x. split_and!; [left|done|left].
  - apply elem_of_cons in Ha as [->|Ha]; [congruence|]. destruct (IH Ha Hp) as (b & Hb & Hpb & Hf).
    exists b. split_and!; [by right|done|by right].
Qed.

Section nic.
Context {K : Kernel} {D : DocCodec} (file : path) {Q : Sqlite} {T : Clock} {R : RowCodec} {H : Helper}.
Context {Sh : Shell} {SR : SiteReads}.
(** A form sent: the page's notice, and the background run it leaves. *)
Definition submit_nic (f : nic_form) : hop (notice * option (Z * NetdevName)) :=
  match f with
  | FRxe n => '(v, bg) ← enable_rxe file n; mret (nv_notice v, bg)
  | FRoce n => v ← set_roce file n; mret (nv_notice v, None)
  | FMtu n m => v ← set_mtu file n m; mret (nv_notice v, None)
  end.
Lemma detail_run netdev n s : ∃ v, gather_nic_detail netdev n s = (Ok v, s) ∧ nv_notice v = n.
Proof. unfold gather_nic_detail, interfaces, networks, read_helper, mbind, hop_bind, mret, hop_ret. eexists. split; reflexivity. Qed.
(** The document after an edit of one interface. *)
Lemma edit_nic_run netdev edit s r s' :
  tmp_file file ≠ file → (∀ c, nic_netdev (edit c) = nic_netdev c) → edit_nic_config file netdev edit s = (r, s') →
  (∃ c, edit c ∈ cd_nic_config (db_doc s') ∧ nic_netdev c = netdev) ∧
  if is_ok r then on_disk file s' else db_tree s' !! file = db_tree s !! file.
Proof.
  intros Hne He. unfold edit_nic_config, rewrite, the_doc, put, mbind, sop_bind. intros (E & _ & Ho)%(persist_run file Hne). cbn in E, Ho.
  split; [|done]. rewrite E. cbn.
  set (l := if existsb _ _ then _ else _). assert (Hl : ∃ c, c ∈ l ∧ nic_netdev c = netdev).
  { unfold l. destruct (existsb _ _) eqn:Ex.
    - apply existsb_exists in Ex as (c & Hc & Hn). apply bool_decide_eq_true in Hn. exists c. by rewrite list_elem_of_In.
    - exists (blank_nic netdev). split; [|done]. apply elem_of_app. right. by apply list_elem_of_singleton. }
  destruct Hl as (c & Hc & Hn). destruct (edit_first_in (λ c, bool_decide (nic_netdev c = netdev)) edit l c Hc) as (b & _ & Hb & Hf).
  { by apply bool_decide_eq_true. }
  exists b. split; [done|]. by apply bool_decide_eq_true in Hb.
Qed.
Lemma planned f nd c l networks statuses a :
  c ∈ l → nic_netdev c = as_str nd → wants f c → unmet f nd networks statuses a → a ∈ nic_actions l networks statuses.
Proof.
  intros Hc Hn Hw Hu. unfold nic_actions. apply list_elem_of_join. exists (nic_action c networks statuses). split; [|by apply (list_elem_of_fmap_2 (λ c, nic_action c networks statuses))].
  unfold nic_action. rewrite Hn, new_as_str. destruct f as [n|n|n m]; cbn in Hw, Hu.
  - destruct Hu as [Hk ->]. apply elem_of_app. right. rewrite Hk, Hw. by apply list_elem_of_singleton.
  - destruct Hu as [[vendor Hk] ->]. apply elem_of_app. right. rewrite Hk, Hw. by apply list_elem_of_singleton.
  - destruct Hu as (n0 & mtu & Hf & Hm & Hne & ->). apply elem_of_app. left. rewrite Hw, Hm, Hf. rewrite bool_decide_true by done.
    by apply list_elem_of_singleton.
Qed.
(** The store write a valid form begins with. *)
Definition save (f : nic_form) (nd : NetdevName) : sop unit :=
  match f with
  | FRxe _ => set_nic_want_rxe file (as_str nd) true
  | FRoce _ => set_nic_want_roce file (as_str nd) true
  | FMtu _ m => match parse_uint 32 (trim m) with Some m => set_nic_mtu file (as_str nd) m | None => mret tt end
  end.
Lemma save_nic_run f nd s r s' :
  tmp_file file ≠ file → names f nd → save f nd s = (r, s') →
  (∃ c, c ∈ cd_nic_config (db_doc s') ∧ nic_netdev c = as_str nd ∧ wants f c) ∧
  if is_ok r then on_disk file s' else db_tree s' !! file = db_tree s !! file.
Proof.
  intros Hne Hn. destruct f as [n|n|n m]; cbn [save names wants] in *.
  3: destruct Hn as [_ [mtu Hm]]; rewrite Hm.
  all: intros E; eapply edit_nic_run in E as [(c & Hc & Hnc) Ho]; [|exact Hne|by intros []]; (split; [|done]); eexists; (split; [exact Hc|]); by rewrite ?Hm.
Qed.
Definition with_db (s : site) (d : db) : site :=
  {| st_web := {| wb_db := d; wb_tasks := wb_tasks (st_web s); wb_hub := wb_hub (st_web s); wb_tick := wb_tick (st_web s) |};
     st_sent := st_sent s; st_jobs := st_jobs s |}.
Lemma saved_first {X} m (k : result string unit → hop X) s :
  (hop_try (on_store m) ≫= k) s =
  match m (wb_db (st_web s)) with
  | (Ok u, d) => k (Ok u) (with_db s d)
  | (Err (Bail e), d) => k (Err e) (with_db s d)
  | (Err (Panicked p), d) => (Err (Panicked p), with_db s d)
  end.
Proof.
  unfold mbind, hop_bind, hop_try, on_store, on_web, on_db, with_db. by destruct (m (wb_db (st_web s))) as [[u|[e|p]] d].
Qed.
(** Nothing but reconcile passes is asked for. *)
Definition passes (s s' : site) : Prop := ∃ l, st_sent s' = st_sent s ++ l ∧ Forall (λ q, q = RUnit OpReconcile) l.
Definition passes_only {A} (m : hop A) : Prop := ∀ s r s', m s = (r, s') → passes s s'.
Lemma passes_same s s' : st_sent s' = st_sent s → passes s s'.
Proof. intros E. exists []. by rewrite app_nil_r. Qed.
Lemma passes_trans s1 s2 s3 : passes s1 s2 → passes s2 s3 → passes s1 s3.
Proof. intros (l1 & E1 & F1) (l2 & E2 & F2). exists (l1 ++ l2). rewrite E2, E1, app_assoc. split; [done|by apply Forall_app]. Qed.
Lemma passes_ret {A} (a : A) : passes_only (mret a).
Proof. intros s x s' [= _ <-]. by apply passes_same. Qed.
Lemma passes_bind {A B} (m : hop A) (f : A → hop B) : passes_only m → (∀ a, passes_only (f a)) → passes_only (m ≫= f).
Proof.
  intros Hm Hf s x s'. unfold mbind, hop_bind. destruct (m s) as [[a|e] s1] eqn:E; apply Hm in E.
  - intros Hx%Hf. by eapply passes_trans.
  - by intros [= _ <-].
Qed.
Lemma passes_try {A} (m : hop A) : passes_only m → passes_only (hop_try m).
Proof. intros Hm s x s'. unfold hop_try. destruct (m s) as [[a|[e|p]] s1] eqn:E; intros [= _ <-]; by eapply Hm. Qed.
Lemma passes_web {A} (m : wop A) : passes_only (on_web m).
Proof. intros s x s'. unfold on_web. destruct (m (st_web s)). intros [= _ <-]. by apply passes_same. Qed.
Lemma passes_for {A} (l : list A) (f : A → hop unit) : (∀ a, passes_only (f a)) → passes_only (hop_for l f).
Proof. intros Hf. induction l as [|a l IH]; cbn [hop_for]; [apply passes_ret|]. apply passes_bind; [apply Hf|intros _; exact IH]. Qed.
Lemma passes_outcome n i fs a b c o : passes_only (apply_reconcile_outcome file n i fs a b c o).
Proof. repeat (apply passes_bind; [apply passes_for; intros; apply passes_web|intros _]). apply passes_web. Qed.
Lemma passes_job j : is_reconcile j = true → passes_only (run_job file j).
Proof.
  destruct j as [id rx|id n i fs a b c]; [done|intros _]. cbn [run_job]. apply passes_bind.
  - intros s x s' [= _ <-]. exists [RUnit OpReconcile]. split; [done|by repeat constructor].
  - intros rx. apply passes_bind; [apply passes_try, passes_web|intros d]. apply passes_bind; [apply passes_web|intros _].
    apply passes_bind; [apply passes_try, passes_outcome|intros _; apply passes_ret].
Qed.
Lemma passes_held l : Forall (λ j, is_reconcile j = true) l → passes_only (hop_for l (run_job file)).
Proof.
  induction 1 as [|j l Hj _ IH]; cbn [hop_for]; [apply passes_ret|]. apply passes_bind; [by apply passes_job|intros _; exact IH].
Qed.
Lemma passes_reconcile : passes_only (reconcile_state file).
Proof.
  apply passes_bind.
  - intros s x s'. unfold lock_reconcile, drop_reconcile, mbind, hop_bind. intros E. apply passes_held in E; [exact E|].
    apply List.Forall_forall. by intros j [_ Hj]%filter_In.
  - intros _. apply passes_bind; [by intros s x s' [= _ <-]; apply passes_same|intros d].
    apply passes_bind; [by intros s x s' [= _ <-]; apply passes_same|intros [[[a b] c] e]].
    destruct (a && b && c && e); [apply passes_ret|]. apply passes_bind; [apply passes_web|intros id].
    apply passes_bind; [apply passes_web|intros _]. apply passes_bind; [|intros _; apply passes_ret].
    intros s x s' [= _ <-]. by apply passes_same.
Qed.
(** The background run of a Soft-RoCE task: the link is asked for, and a reconcile
    follows only when that succeeded. *)
Definition rxe_asked (id : Z) (nd : NetdevName) : Prop := ∀ s2 r2 s3, rxe_run file id nd s2 = (r2, s3) →
  let add := RRxeAdd {| rxe_add_netdev := nd |} in
  ∃ l, st_sent s3 = st_sent s2 ++ add :: l ∧ Forall (λ q, q = RUnit OpReconcile) l ∧
    ((∃ o w, drive id [] (helper_stream (task_call (st_sent s2) add)) (st_web s2) = (Ok o, w) ∧ to_ok o = true) ∨
     l = [] ∧ st_jobs s3 = st_jobs s2).
Lemma rxe_run_asked id nd : rxe_asked id nd.
Proof.
  intros s2 r2 s3 E add. unfold rxe_run, send, hop_try, on_web, on_hub, mbind, hop_bind, mret, hop_ret in E. cbv beta iota in E.
  cbn [st_sent st_web st_jobs] in E. fold add in E. destruct (drive id [] _ (st_web s2)) as [[o|[e|p]] w] eqn:Ed; cbv beta iota in E;
    cbn [st_sent st_web st_jobs] in E; [|injection E as _ <-; exists []; split_and!; [done|done|by right]..].
  destruct (to_ok o) eqn:Eo; [|injection E as _ <-; exists []; split_and!; [done|done|by right]].
  destruct (reconcile_state file _) as [[x|[e|p]] s4] eqn:Er; cbv beta iota in E; injection E as _ <-;
    apply passes_reconcile in Er as (l & El & Hl); cbn [st_sent] in El; exists l; rewrite <- app_assoc in El;
    (split_and!; [done|done|left; by exists o, w]).
Qed.
(** A valid form after its store write: refused, or the helper asked and the task
    recorded (or not). *)
Definition intent_kept (f : nic_form) (nd : NetdevName) (s : site) (r : result fault (notice * option (Z * NetdevName))) (s' : site) : Prop :=
  db_tree (wb_db (st_web s')) !! file = db_tree (wb_db (st_web s)) !! file ∧ st_sent s' = st_sent s ∧ st_jobs s' = st_jobs s ∧
    (∀ n bg, r = Ok (n, bg) → is_Some (nt_error n) ∧ bg = None) ∨
  on_disk file (wb_db (st_web s')) ∧ st_sent s' = st_sent s ++ asked f nd ∧
    ∀ n bg, r = Ok (n, bg) →
    match nt_task n with
    | Some id => match f with
                 | FRxe _ => bg = Some (id, nd) ∧ st_jobs s' = st_jobs s ∧ rxe_asked id nd
                 | _ => bg = None ∧ ∃ rx, st_jobs s' = st_jobs s ++ [StreamJob id rx]
                 end
    | None => is_Some (nt_error n) ∧ bg = None ∧ st_jobs s' = st_jobs s
    end.
(** The rest of a handler, once the intent is saved. *)
Definition proceed (f : nic_form) (nd : NetdevName) : hop (notice * option (Z * NetdevName)) :=
  match f with
  | FRxe _ =>
      let title := "enable Soft-RoCE on " +:+ as_str nd in
      begun ← hop_try (on_web (begin_task "rxe-add" title));
      mret match begun with Ok id => (flashed ("started " +:+ title) (Some id), Some (id, nd)) | Err e => (failed e, None) end
  | FRoce _ =>
      let title := "enable RoCE on " +:+ as_str nd in
      r ← hop_try (start "roce" title (REnableRoce {| enable_roce_netdev := nd |}));
      mret (match r with Ok id => flashed ("started " +:+ title +:+ "; reconnect if your session dropped") (Some id) | Err e => failed e end, None)
  | FMtu _ m =>
      match parse_uint 32 (trim m) with
      | None => mret (failed "", None)
      | Some mtu =>
          let title := "set MTU " +:+ show_uint mtu +:+ " on " +:+ as_str nd in
          r ← hop_try (start "set-mtu" title (RSetMtu {| set_mtu_netdev := nd; set_mtu_mtu := mtu |}));
          mret (match r with Ok id => flashed ("started " +:+ title) (Some id) | Err e => failed e end, None)
      end
  end.
Definition refusal (f : nic_form) (e : string) : string := match f with FMtu _ _ => "could not save MTU setting: " +:+ e | _ => e end.
Lemma submit_spec f nd s :
  names f nd →
  submit_nic f s = (hop_try (on_store (save f nd)) ≫= λ saved,
                    match saved with Ok _ => proceed f nd | Err e => mret (failed (refusal f e), None) end) s.
Proof.
  intros Hn. destruct f as [n|n|n m]; cbn [names] in Hn.
  3: destruct Hn as [Hn [mtu Hm]].
  all: apply new_Ok in Hn; unfold submit_nic, enable_rxe, set_roce, set_mtu, run_on; rewrite Hn, ?Hm; cbn [save proceed refusal]; rewrite ?Hm.
  all: unfold gather_nic_detail, interfaces, networks, read_helper, mbind, hop_bind, hop_try, mret, hop_ret.
  all: repeat (match goal with |- context [match ?x with _ => _ end] =>
         lazymatch x with context [match _ with _ => _ end] => fail | _ => destruct x as [[?|[?|?]] ?] end end; try reflexivity).
Qed.
Lemma begin_task_store kind title w : wb_db (begin_task kind title w).2 = wb_db w.
Proof. unfold begin_task, now, insert_task, sql, mbind, wop_bind. cbn. by destruct (sql_err _). Qed.
Lemma proceed_run f nd s r s' :
  names f nd → proceed f nd s = (r, s') →
  wb_db (st_web s') = wb_db (st_web s) ∧ st_sent s' = st_sent s ++ asked f nd ∧
  ∀ n bg, r = Ok (n, bg) →
  match nt_task n with
  | Some id => match f with
               | FRxe _ => bg = Some (id, nd) ∧ st_jobs s' = st_jobs s ∧ rxe_asked id nd
               | _ => bg = None ∧ ∃ rx, st_jobs s' = st_jobs s ++ [StreamJob id rx]
               end
  | None => is_Some (nt_error n) ∧ bg = None ∧ st_jobs s' = st_jobs s
  end.
Proof.
  intros Hn. destruct f as [n|n|n m]; cbn [names proceed asked] in *.
  3: destruct Hn as [_ [mtu ->]].
  all: unfold mbind, hop_bind, hop_try, mret, hop_ret; rewrite ?start_run; unfold on_web.
  all: match goal with |- context [begin_task ?k ?t ?x] => pose proof (begin_task_store k t x) as Hd;
         destruct (begin_task k t x) as [[id|[e|p]] w] end.
  all: intros [= <- <-]; cbn in *; rewrite ?app_nil_r; (split; [done|split; [done|]]); intros n0 bg E; simplify_eq/=; eauto using rxe_run_asked.
Qed.

(** C30: A form that enables RoCE or Soft-RoCE on an interface or sets its MTU stores
    the intent before it asks for anything. A form with a bad name or number changes
    nothing. Otherwise the document names the interface with the intent, and either
    the file could not be written, it is as it was, nothing was sent or started and
    the page says so, or the intent is on disk and the form's one request is sent: at
    once for RoCE and the MTU (and the task followed, if it could be recorded); for
    Soft-RoCE nothing at once, but if the task could be recorded it is left a background
    run, which asks for exactly the link on that interface, and for nothing else but
    reconcile passes, those only if the link was added. From then on, whenever the
    machine does not have what was asked for, the daemon's plan for that document
    contains the action that brings it about. (The temporary file of a write is not the
    state file itself.) *)
Theorem nic_intent_first f s r s' :
  tmp_file file ≠ file → submit_nic f s = (r, s') →
  (¬ (∃ nd, names f nd) ∧ s' = s ∧ ∃ msg, r = Ok (failed msg, None)) ∨
  ∃ nd, names f nd ∧ intent_kept f nd s r s' ∧
        ∀ networks statuses a, unmet f nd networks statuses a → a ∈ nic_actions (list_nic_configs (site_doc s')) networks statuses.
Proof.
  intros Hne Hs. assert (Hdec : (∃ nd, names f nd) ∨ (¬ (∃ nd, names f nd) ∧ ∃ msg, submit_nic f s = (Ok (failed msg, None), s))).
  { destruct f as [n|n|n m]; cbn [names]; unfold submit_nic, enable_rxe, set_roce, set_mtu;
      (destruct (new NtNetdevName (trim n)) as [nd|e] eqn:En;
       [|right; split; [|by eexists]; intros [nd Hnd]; assert (new NtNetdevName (trim n) = Ok nd) by (apply new_Ok; tauto); congruence]).
    1-2: left; exists nd; by apply new_Ok.
    destruct (parse_uint 32 (trim m)) as [mtu|] eqn:Em; [left; exists nd; split; [by apply new_Ok|by eexists]|].
    right. split; [intros (nd' & _ & [? ?]); congruence|by eexists]. }
  destruct Hdec as [[nd Hn]|[Hno [msg E]]]; [right; exists nd; split; [done|]|left; rewrite E in Hs; injection Hs as <- <-; eauto].
  rewrite (submit_spec f nd s Hn), saved_first in Hs. destruct (save f nd (wb_db (st_web s))) as [rs d] eqn:Es.
  destruct (save_nic_run f nd _ _ _ Hne Hn Es) as [(c & Hc & Hcn & Hcw) Hdisk].
  assert (Hplan : ∀ s1, wb_db (st_web s1) = d → ∀ networks statuses a, unmet f nd networks statuses a →
    a ∈ nic_actions (list_nic_configs (site_doc s1)) networks statuses).
  { intros s1 E networks statuses a Hu. eapply planned; [|exact Hcn|exact Hcw|exact Hu]. unfold site_doc, list_nic_configs. rewrite E.
    by rewrite sort_by_perm. }
  destruct rs as [[]|[e|p]]; cbn [is_ok] in Hdisk.
  - destruct (proceed_run _ _ _ _ _ Hn Hs) as (Ed & Hsent & Hr). split; [|by apply Hplan]. right. by rewrite Ed.
  - injection Hs as <- <-. split; [|by apply Hplan]. left. split_and!; [done..|]. intros n bg [= <- <-]. split; [by eexists|done].
  - injection Hs as <- <-. split; [|by apply Hplan]. left. by split_and!.
Qed.
End nic.

(** ** Jumbo frames, and an MTU the daemon refuses *)

#[local] Existing Instances demo_sqlite demo_clock demo_rows demo_helper demo_docs.
#[local] Instance demo_reads : SiteReads := {|
  nics_reply _ := Err "down"; networks_reply _ := Err "down"; advice_reply _ := Err "down"; rdma_reply _ := Err "down";
  sessions_reply _ := Err "down"; nvmet_reply _ := Err "down"; access_report _ := None |}.
Definition eth0 : NetdevName := Refine "eth0" I.
Definition demo_network : NicNetwork :=
  {| nn_netdev := "eth0"; nn_mac := None; nn_mtu := Some (lit 1500%N : u32); nn_operstate := "UP"; nn_dhcp := false; nn_addrs := []; nn_gateway := None |}.
Definition demo_mtu (mtu : string) : result fault (notice * option (Z * NetdevName)) * site :=
  @submit_nic permissive _ demo_file _ _ _ _ (FMtu "eth0" mtu) demo_site.
Lemma nic_intent_first_witness :
  st_sent (demo_mtu "9000").2 = st_sent demo_site ++ [RSetMtu {| set_mtu_netdev := eth0; set_mtu_mtu := lit 9000%N |}] ∧
  Render.SetMtu eth0 (lit 9000%N) ∈ nic_actions (list_nic_configs (site_doc (demo_mtu "9000").2)) [demo_network] [].
Proof.
  split; [vm_compute; reflexivity|].
  destruct (@nic_intent_first permissive _ demo_file _ _ _ _ _ (FMtu "eth0" "9000") demo_site _ _ ltac:(vm_compute; discriminate)
    (surjective_pairing _)) as [[Hno _]|(nd & Hn & _ & Hp)].
  - destruct Hno. exists eth0. split; [reflexivity|by eexists].
  - assert (nd = eth0) as -> by (apply (raw_inj _); exact (proj1 Hn)). apply Hp.
    exists demo_network, (lit 9000%N : u32). split; [vm_compute; reflexivity|].
    split; [transitivity (parse_uint 32 (show_uint (lit 9000%N : u32))); [apply f_equal; vm_compute; reflexivity|apply parse_show_uint]|].
    split; [|reflexivity]. cbn [nn_mtu demo_network]. intros E%(inj Some). apply (f_equal raw) in E. discriminate E.
Defined.
(** A number outside the daemon's range is stored all the same: the request is one
    the ingress refuses, and the plan keeps the action for every later pass. *)
Lemma refused_mtu_stored :
  (λ c, (nic_netdev c, raw <$> nic_mtu c)) <$> cd_nic_config (site_doc (demo_mtu "1").2) = [("eth0", Some 1%N)] ∧
  is_ok (SetMtu_try_from {| pb_set_mtu_netdev := "eth0"; pb_set_mtu_mtu := lit 1%N |}) = false.
Proof. split; vm_compute; reflexivity. Qed.
(** An IPv6 host without a port loses its last group and its bracket. *)
Lemma known_hosts_host_cut : known_hosts_host "[fd00::1]" = "[fd00:".
Proof. vm_compute. reflexivity. Qed.
