(* ===== verification/Metrics.v ===== *)
(** * Metrics and charts (greendot-web: metrics/mod.rs, metrics/collect.rs,
    routes/charts.rs)

    The store of samples (a ring per series, the last raw readings, two accumulators
    and their rollup tables), the collectors that walk sysfs, the charts as SVG text,
    the charts page and the Prometheus exposition. Sysfs is data, the database's
    verdict on a transaction is an argument and the calendar of chrono is a class
    parameter. Counters are [u64] and wrap, as in the release profile; doubles are
    binary64 of the standard library's specification. *)
From Stdlib Require Import Ascii String ZArith SpecFloat.
From stdpp Require Import base option list strings sets gmap pretty.
From S2P Require Import Prelude Ordered Types Client Desired Actual Store Tasks ZfsView Dots Site Inventory Auth.
#[local] Open Scope string_scope.
#[local] Open Scope list_scope.
#[local] Open Scope N_scope.

(** ** Doubles: what the module uses beyond fmt.rs *)

Definition wrap_u64 (n : N) : N := n mod 2 ^ 64.
(** A difference of two [i64]. *)
Definition i64_sub (a b : Z) : Z := ((a - b + 2 ^ 63) mod 2 ^ 64 - 2 ^ 63)%Z.
Definition f64_max (a b : f64) : f64 :=
  match a, b with
  | S754_nan, _ => b
  | _, S754_nan => a
  | _, _ => match SFcompare a b with Some Gt => a | _ => b end
  end.
(** [f64::MIN]. *)
Definition f64_MIN : f64 := S754_finite true (2 ^ 53 - 1) 971.
(** [x as u64]: towards zero, saturating. *)
Definition f64_as_u64 (x : f64) : u64 :=
  let cap (n : N) : u64 := default (lit 18446744073709551615 : u64) (refine (fits 64) n) in
  match x with
  | S754_finite false m e => cap (if (0 <=? e)%Z then Npos m * 2 ^ Z.to_N e else Npos m / 2 ^ Z.to_N (- e))
  | S754_infinity false => cap (2 ^ 64)
  | _ => (lit 0 : u64)
  end.
(** [format!("{x:.0}")]: the exact value, rounded to an integer. *)
Definition fixed0 (x : f64) : string :=
  match x with
  | S754_zero s => signed s "0"
  | S754_infinity s => signed s "inf"
  | S754_nan => "NaN"
  | S754_finite s m e =>
      signed s (pretty (if (0 <=? e)%Z then Npos m * 2 ^ Z.to_N e else half_even (Npos m) (2 ^ Z.to_N (- e))))
  end.
(** [format!("{x}")]: the shortest decimal that reads back as [x], the nearest one
    when there are several, written without an exponent. The position of the last
    digit is searched downwards from one above the value. *)
Definition sf_eqb (a b : f64) : bool := match SFcompare a b with Some Eq => true | _ => false end.
Definition zeros (n : nat) : string := concat_s (replicate n "0").
Definition positional (digits : N) (k : Z) : string :=
  if (0 <=? k)%Z then pretty digits +:+ zeros (Z.to_nat k)
  else
    let width := Z.to_nat (- k) in
    let s : string := pretty digits in
    let s := zeros (S width - String.length s) +:+ s in
    String.substring 0 (String.length s - width) s +:+ "." +:+ String.substring (String.length s - width) width s.
Fixpoint shortest (fuel : nat) (k : Z) (m : positive) (e : Z) : option (N * Z) :=
  match fuel with
  | O => None
  | S fuel =>
      (* the value is num / den units of 10^k *)
      let num := (Zpos m * 2 ^ Z.max e 0 * 10 ^ Z.max (- k) 0)%Z in
      let den := (2 ^ Z.max (- e) 0 * 10 ^ Z.max k 0)%Z in
      let lo := (num / den)%Z in
      let ok c := (0 <? c)%Z && sf_eqb (decimal false (Z.to_N c) k) (S754_finite false m e) in
      match ok lo, ok (lo + 1)%Z with
      | true, true => Some (Z.to_N (if (2 * (num - lo * den) <=? den)%Z then lo else lo + 1)%Z, k)
      | true, false => Some (Z.to_N lo, k)
      | false, true => Some (Z.to_N (lo + 1), k)
      | false, false => shortest fuel (k - 1) m e
      end
  end.
Definition show_f64 (x : f64) : string :=
  match x with
  | S754_zero s => signed s "0"
  | S754_infinity s => signed s "inf"
  | S754_nan => "NaN"
  | S754_finite s m e =>
      let k := (Z.max 0 (Z.log2 (Zpos m) + 1 + e) + 1)%Z in
      signed s (match shortest 800 k m e with Some (c, k) => positional c k | None => "" end)
  end.

(** ** The store (metrics/mod.rs) *)

Definition RING_CAPACITY : nat := 120.
Definition WEEK : Z := (7 * 86400)%Z.
Definition QUARTER : Z := (90 * 86400)%Z.
Abbreviation Sample := (Z * f64)%type.
Record Row : Type := { row_series : string; row_ts : Z; row_value : f64 }.
Inductive Table : Type := samples_1m | samples_1h.
#[export] Instance Table_eq_dec : EqDecision Table.
Proof. solve_decision. Defined.
Record Metrics : Type := {
  mt_ring : gmap string (list Sample);
  mt_raw : gmap string (Z * N);
  mt_minute_acc : gmap string (f64 * N);
  mt_hour_acc : gmap string (f64 * N);
  mt_1m : list Row;
  mt_1h : list Row }.
(** A fresh process over the tables it finds. *)
Definition init (rows_1m rows_1h : list Row) : Metrics :=
  {| mt_ring := ∅; mt_raw := ∅; mt_minute_acc := ∅; mt_hour_acc := ∅; mt_1m := rows_1m; mt_1h := rows_1h |}.
(** [while buf.len() > RING_CAPACITY { buf.pop_front() }]. *)
Fixpoint trim_front (buf : list Sample) : list Sample :=
  match buf with
  | [] => []
  | _ :: rest => if (RING_CAPACITY <? length buf)%nat then trim_front rest else buf
  end.
Definition accumulate (series : string) (value : f64) (acc : gmap string (f64 * N)) : gmap string (f64 * N) :=
  let '(sum, n) := default (f64_of_Z 0, 0) (acc !! series) in
  <[series := (f64_add sum value, (n + 1) mod 2 ^ 32)]> acc.
Definition push (series : string) (ts : Z) (value : f64) (m : Metrics) : Metrics := {|
  mt_ring := <[series := trim_front (default [] (mt_ring m !! series) ++ [(ts, value)])]> (mt_ring m);
  mt_raw := mt_raw m;
  mt_minute_acc := accumulate series value (mt_minute_acc m);
  mt_hour_acc := accumulate series value (mt_hour_acc m);
  mt_1m := mt_1m m; mt_1h := mt_1h m |}.
Definition rate (prev : option (Z * N)) (current : Z * N) : option f64 :=
  '(prev_ts, prev_value) ← prev;
  let '(ts, value) := current in
  if (ts <=? prev_ts)%Z || (value <? prev_value) then None
  else Some (f64_div (f64_of_N (value - prev_value)) (f64_of_Z (i64_sub ts prev_ts))).
Definition remember (series : string) (ts : Z) (value : N) (m : Metrics) : Metrics := {|
  mt_ring := mt_ring m; mt_raw := <[series := (ts, value)]> (mt_raw m); mt_minute_acc := mt_minute_acc m;
  mt_hour_acc := mt_hour_acc m; mt_1m := mt_1m m; mt_1h := mt_1h m |}.
Definition push_counter_scaled (series : string) (ts : Z) (value : N) (scale : f64) (m : Metrics) : Metrics :=
  let prev := mt_raw m !! series in
  let m := remember series ts value m in
  match rate prev (ts, value) with
  | Some rate => push series ts (f64_mul rate scale) m
  | None => m
  end.
Definition push_counter (series : string) (ts : Z) (value : N) (m : Metrics) : Metrics :=
  push_counter_scaled series ts value (f64_of_Z 1) m.
Definition ring_series (m : Metrics) (series : string) : list Sample := default [] (mt_ring m !! series).
Definition series_names (m : Metrics) : list string := sort (map_to_list (mt_ring m)).*1.
Definition latest_raw (m : Metrics) : gmap string N := snd <$> mt_raw m.
Definition acc_of (t : Table) (m : Metrics) : gmap string (f64 * N) :=
  match t with samples_1m => mt_minute_acc m | samples_1h => mt_hour_acc m end.
Definition rows_of (t : Table) (m : Metrics) : list Row := match t with samples_1m => mt_1m m | samples_1h => mt_1h m end.
Definition drained (t : Table) (m : Metrics) : Metrics := {|
  mt_ring := mt_ring m; mt_raw := mt_raw m;
  mt_minute_acc := match t with samples_1m => ∅ | samples_1h => mt_minute_acc m end;
  mt_hour_acc := match t with samples_1m => mt_hour_acc m | samples_1h => ∅ end;
  mt_1m := mt_1m m; mt_1h := mt_1h m |}.
Definition with_rows (t : Table) (rows : list Row) (m : Metrics) : Metrics := {|
  mt_ring := mt_ring m; mt_raw := mt_raw m; mt_minute_acc := mt_minute_acc m; mt_hour_acc := mt_hour_acc m;
  mt_1m := match t with samples_1m => rows | samples_1h => mt_1m m end;
  mt_1h := match t with samples_1m => mt_1h m | samples_1h => rows end |}.
Definition keep (t : Table) : Z := match t with samples_1m => WEEK | samples_1h => QUARTER end.
(** One average per series that was pushed to, in the order the map is drained in. *)
Definition averages (acc : gmap string (f64 * N)) : list (string * f64) :=
  (λ '(series, (sum, n)), (series, f64_div sum (f64_of_N n))) <$> List.filter (λ '(_, (_, n)), 0 <? n) (map_to_list acc).
(** [fault]: the error of the first statement that fails; the transaction is then
    rolled back. *)
Definition flush (fault : option string) (t : Table) (ts : Z) (m : Metrics) : result string unit * Metrics :=
  let avgs := averages (acc_of t m) in
  let m := drained t m in
  match fault with
  | Some e => (Err e, m)
  | None =>
      let rows := rows_of t m ++ ((λ '(series, avg), {| row_series := series; row_ts := ts; row_value := avg |}) <$> avgs) in
      (Ok tt, with_rows t (List.filter (λ r, negb (row_ts r <? i64_sub ts (keep t))%Z) rows) m)
  end.
(** [ORDER BY ts], a stable sort here. *)
Fixpoint insert_ts (r : Sample) (l : list Sample) : list Sample :=
  match l with [] => [r] | x :: l' => if (r.1 <=? x.1)%Z then r :: l else x :: insert_ts r l' end.
Definition history (fault : option string) (series : string) (since now : Z) (m : Metrics) : result string (list Sample) :=
  let t := if (i64_sub now since <=? WEEK)%Z then samples_1m else samples_1h in
  match fault with
  | Some e => Err e
  | None =>
      Ok (foldr insert_ts []
            ((λ r, (row_ts r, row_value r)) <$>
             List.filter (λ r, bool_decide (row_series r = series) && (since <=? row_ts r)%Z) (rows_of t m)))
  end.

(** ** The Prometheus text (metrics/mod.rs) *)

Record PromSample : Type := { ps_name : string; ps_labels : list (string * string); ps_value : f64 }.
(** [str::replace] of a character by a text. *)
Definition replace_with (a : ascii) (by_ : string) (s : string) : string :=
  concat_s ((λ c, if Ascii.eqb c a then by_ else String c "") <$> chars s).
Definition backslash : ascii := ascii_of_N 92.
Definition newline : ascii := ascii_of_N 10.
Definition escape_label (v : string) : string :=
  replace_with newline (String backslash "n")
    (replace_with (ascii_of_N 34) (String backslash dquote)
       (replace_with backslash (String backslash (String backslash "")) v)).
Definition prom_label (kv : string * string) : string := kv.1 +:+ "=" +:+ dquote +:+ escape_label kv.2 +:+ dquote.
Definition prom_line (s : PromSample) : string :=
  ps_name s
  +:+ (match ps_labels s with [] => "" | labels => "{" +:+ join "," (prom_label <$> labels) +:+ "}" end)
  +:+ " " +:+ show_f64 (ps_value s).
Definition render_prometheus (samples : list PromSample) : string :=
  concat_s ((λ s, prom_line s +:+ String newline "") <$> samples).

(** ** Charts as SVG (metrics/mod.rs) *)

Inductive ChartUnit : Type := Bytes | Celsius | Percent | Count.
Definition for_series (series : string) : ChartUnit :=
  if ends_with_str ":temp_c" series then Celsius else if ends_with_str "_percent" series then Percent else Bytes.
(** The degree sign, the middle dot and the triangles of the legend, in UTF-8. *)
Definition degree : string := chr 194 +:+ chr 176.
Definition middot : string := chr 194 +:+ chr 183.
Definition up_triangle : string := chr 226 +:+ chr 150 +:+ chr 178.
Definition down_triangle : string := chr 226 +:+ chr 150 +:+ chr 188.
Definition unit_label (u : ChartUnit) (max : f64) : string :=
  match u with
  | Bytes => human_bytes (f64_as_u64 max)
  | Celsius => fixed0 max +:+ " " +:+ degree +:+ "C"
  | Percent => fixed0 max +:+ "%"
  | Count => if SFleb (f64_of_Z 1000) max then fixed1 (f64_div max (f64_of_Z 1000)) +:+ "k" else fixed0 max
  end.
(** [DateTime::from_timestamp(ts, 0).unwrap_or_default().format(..)]. *)
Class Chrono := chrono_format : string → Z → string.
Definition axis_time `{Chrono} (ts span : Z) : string :=
  if (2 * 86400 <? span)%Z then chrono_format "%m-%d" ts else chrono_format "%H:%M" ts.

(** An attribute, a line and a text element. *)
Definition attr (name value : string) : string := " " +:+ name +:+ "=" +:+ dquote +:+ value +:+ dquote.
Definition svg_line (cls : string) (x1 y1 x2 y2 : f64) : string :=
  "<line" +:+ attr "class" cls +:+ attr "x1" (fixed1 x1) +:+ attr "y1" (fixed1 y1) +:+ attr "x2" (fixed1 x2)
  +:+ attr "y2" (fixed1 y2) +:+ "/>".
Definition svg_text (cls : string) (x y : f64) (extra text : string) : string :=
  "<text" +:+ attr "class" cls +:+ attr "x" (fixed1 x) +:+ attr "y" (fixed1 y) +:+ extra +:+ ">" +:+ text +:+ "</text>".
Definition svg_open (width height : N) : string :=
  "<svg" +:+ attr "class" "chart" +:+ attr "viewBox" ("0 0 " +:+ pretty width +:+ " " +:+ pretty height) +:+ ">".
Definition no_data (width height : N) : string :=
  svg_open width height +:+ "<text" +:+ attr "x" "4" +:+ attr "y" (pretty (height / 2)) +:+ attr "class" "chart-label"
  +:+ ">no data yet</text></svg>".
Definition PAD_L : f64 := f64_of_Z 54.
Definition PAD_R : f64 := f64_of_Z 6.
Definition PAD_T : f64 := f64_of_Z 8.
Definition PAD_B : f64 := f64_of_Z 16.
(** The peak, at least 1e-9. *)
Definition peak (values : list f64) : f64 := f64_max (foldl f64_max f64_MIN values) (decimal false 1 (-9)).
(** A point's place along the time axis. *)
Definition x_of (px0 plot_w : f64) (t0 span t : Z) : f64 :=
  f64_add px0 (f64_mul (f64_div (f64_of_Z (i64_sub t t0)) (f64_of_Z span)) plot_w).
Definition point (x y : f64) : string := fixed1 x +:+ "," +:+ fixed1 y.
Section charts.
Context {C : Chrono}.
Definition y_tick (unit : ChartUnit) (max px0 px1 py1 plot_h : f64) (frac : f64) : string :=
  let y := f64_sub py1 (f64_mul frac plot_h) in
  svg_line "chart-grid" px0 y px1 y
  +:+ svg_text "chart-label chart-tick-y" (f64_sub px0 (f64_of_Z 4)) (f64_add y (f64_of_Z 3)) "" (unit_label unit (f64_mul max frac)).
Definition time_labels (px0 px1 h : f64) (t0 t1 span : Z) : string :=
  let y := f64_sub h (f64_of_Z 4) in
  svg_text "chart-label" px0 y "" (axis_time t0 span)
  +:+ svg_text "chart-label" px1 y (attr "text-anchor" "end") (axis_time t1 span).
Definition chart_svg (points : list Sample) (width height : N) (unit : ChartUnit) : string :=
  match points, last points with
  | first :: _ :: _, Some final =>
      let w := f64_of_N width in
      let h := f64_of_N height in
      let px0 := PAD_L in
      let px1 := f64_sub w PAD_R in
      let py1 := f64_sub h PAD_B in
      let plot_w := f64_sub px1 px0 in
      let plot_h := f64_sub py1 PAD_T in
      let t0 := first.1 in
      let t1 := final.1 in
      let max := peak points.*2 in
      let span := Z.max (i64_sub t1 t0) 1 in
      let coords := (λ '(t, v), point (x_of px0 plot_w t0 span t) (f64_sub py1 (f64_mul (f64_div v max) plot_h))) <$> points in
      svg_open width height
      +:+ concat_s (y_tick unit max px0 px1 py1 plot_h <$> [f64_of_Z 0; decimal false 5 (-1); f64_of_Z 1])
      +:+ svg_line "chart-axis" px0 py1 px1 py1
      +:+ time_labels px0 px1 h t0 t1 span
      +:+ "<polyline" +:+ attr "fill" "none" +:+ attr "points" (join " " coords) +:+ "/></svg>"
  | _, _ => no_data width height
  end.
Definition fold_Z (f : Z → Z → Z) (l : list Z) : Z := match l with [] => 0%Z | t :: l => foldl f t l end.
Definition mirror_tick (unit : ChartUnit) (px0 px1 : f64) (tick : f64 * f64 * string) : string :=
  let '(y, val, cls) := tick in
  svg_line cls px0 y px1 y
  +:+ svg_text "chart-label chart-tick-y" (f64_sub px0 (f64_of_Z 4)) (f64_add y (f64_of_Z 3)) "" (unit_label unit val).
Definition mirror_chart_svg (up down : list Sample) (up_label down_label : string) (width height : N) (unit : ChartUnit) : string :=
  if (length up <? 2)%nat && (length down <? 2)%nat then no_data width height
  else
    let w := f64_of_N width in
    let h := f64_of_N height in
    let px0 := PAD_L in
    let px1 := f64_sub w PAD_R in
    let py1 := f64_sub h PAD_B in
    let plot_w := f64_sub px1 px0 in
    let mid := f64_add PAD_T (f64_div (f64_sub py1 PAD_T) (f64_of_Z 2)) in
    let half_h := f64_sub mid PAD_T in
    let all := up ++ down in
    let t0 := fold_Z Z.min all.*1 in
    let t1 := fold_Z Z.max all.*1 in
    let span := Z.max (i64_sub t1 t0) 1 in
    let max := peak all.*2 in
    let coords pts sign :=
      join " " ((λ '(t, v), point (x_of px0 plot_w t0 span t)
                                  (f64_sub mid (f64_mul (f64_mul sign (f64_div v max)) half_h))) <$> pts) in
    let polyline cls pts sign :=
      if (2 <=? length pts)%nat then
        "<polyline" +:+ attr "class" cls +:+ attr "fill" "none" +:+ attr "points" (coords pts sign) +:+ "/>"
      else "" in
    svg_open width height
    +:+ concat_s (mirror_tick unit px0 px1 <$>
                  [(PAD_T, max, "chart-grid"); (mid, f64_of_Z 0, "chart-axis"); (py1, max, "chart-grid")])
    +:+ time_labels px0 px1 h t0 t1 span
    +:+ polyline "chart-up" up (f64_of_Z 1)
    +:+ polyline "chart-down" down (f64_of_Z (-1))
    +:+ svg_text "chart-up-label" (f64_add px0 (f64_of_Z 4)) (f64_add PAD_T (f64_of_Z 10)) "" (up_triangle +:+ " " +:+ up_label)
    +:+ svg_text "chart-down-label" (f64_add px0 (f64_of_Z 4)) (f64_sub py1 (f64_of_Z 4)) "" (down_triangle +:+ " " +:+ down_label)
    +:+ "</svg>".
End charts.

(** ** The collectors (metrics/collect.rs) *)

(** What a pass finds on disk: directories with the names that are text, the files
    that read as text, the links that exist. *)
Record sysfs : Type := {
  sf_dir : string → option (list (option string)); sf_file : string → option string; sf_link : string → bool }.
Definition sub (dir name : string) : string := dir +:+ "/" +:+ name.
Definition read_dir_names (fs : sysfs) (dir : string) : list string := omap id (default [] (sf_dir fs dir)).
Definition for_each {A} (l : list A) (f : A → Metrics → Metrics) (m : Metrics) : Metrics := foldl (λ m a, f a m) m l.
Definition find_map {A B} (f : A → option B) (l : list A) : option B := head (omap f l).
Record BlockStat : Type := {
  bs_read_bytes : N; bs_write_bytes : N; bs_read_ios : N; bs_write_ios : N; bs_in_flight : N; bs_io_ticks : N }.
Definition parse_u64 (s : string) : option N := raw <$> parse_uint 64 s.
Definition parse_block_stat (stat : string) : option BlockStat :=
  let fields := split_whitespace stat in
  let field (i : nat) : option N := s ← fields !! i; parse_u64 s in
  read_ios ← field 0%nat;
  read_sectors ← field 2%nat;
  write_ios ← field 4%nat;
  write_sectors ← field 6%nat;
  in_flight ← field 8%nat;
  io_ticks ← field 9%nat;
  Some {| bs_read_ios := read_ios; bs_read_bytes := wrap_u64 (read_sectors * 512); bs_write_ios := write_ios;
          bs_write_bytes := wrap_u64 (write_sectors * 512); bs_in_flight := in_flight; bs_io_ticks := io_ticks |}.
Definition rdma_counter_bytes (raw : string) : option N := (λ words, wrap_u64 (words * 4)) <$> parse_u64 (trim raw).
Definition kstat_field (kstat name : string) : option N :=
  find_map (λ line,
    let f := split_whitespace line in
    if bool_decide (head f = Some name) then s ← f !! 2%nat; parse_u64 s else None) (lines kstat).
Definition parse_temp_millis (raw : string) : option f64 :=
  (λ m, f64_div (f64_of_Z m) (f64_of_Z 1000)) <$> parse_i64 (trim raw).
Definition is_nvme_namespace (name : string) : bool :=
  match strip_prefix "nvme" name with
  | None => false
  | Some rest =>
      let '(ctrl, ns) := default (rest, "") (split_once "n" rest) in
      negb (is_empty ctrl) && all_chars is_ascii_digit ctrl && negb (is_empty ns) && all_chars is_ascii_digit ns
  end.
Section collect.
Context (fs : sysfs) (ts : Z).
Definition series3 (category target suffix : string) : string := category +:+ ":" +:+ target +:+ ":" +:+ suffix.
Definition push_block (dev : string) (s : BlockStat) (m : Metrics) : Metrics :=
  let m := push_counter (series3 "disk" dev "read_bps") ts (bs_read_bytes s) m in
  let m := push_counter (series3 "disk" dev "write_bps") ts (bs_write_bytes s) m in
  let m := push_counter (series3 "disk" dev "read_iops") ts (bs_read_ios s) m in
  let m := push_counter (series3 "disk" dev "write_iops") ts (bs_write_ios s) m in
  let m := push (series3 "disk" dev "queue_depth") ts (f64_of_N (bs_in_flight s)) m in
  push_counter_scaled (series3 "disk" dev "util_percent") ts (bs_io_ticks s) (decimal false 1 (-1)) m.
Definition collect_block (root : string) : Metrics → Metrics :=
  for_each (read_dir_names fs root) (λ dev m,
    if starts_with "ram" dev || starts_with "sr" dev then m
    else
      match sf_file fs (sub (sub root dev) "stat") ≫= parse_block_stat with
      | Some s => push_block dev s m
      | None => m
      end).
Definition push_reading (series : string) (reading : option N) (m : Metrics) : Metrics :=
  match reading with Some v => push_counter series ts v m | None => m end.
Definition push_gauge (series : string) (value : option f64) (m : Metrics) : Metrics :=
  match value with Some v => push series ts v m | None => m end.
Definition collect_rdma (root : string) : Metrics → Metrics :=
  for_each (read_dir_names fs root) (λ dev,
    for_each (read_dir_names fs (sub (sub root dev) "ports")) (λ port,
      let counters := sub (sub (sub (sub root dev) "ports") port) "counters" in
      for_each [("port_rcv_data", "rx"); ("port_xmit_data", "tx")] (λ '(file, dir),
        push_reading (series3 "rdma" dev (dir +:+ "_bps")) (sf_file fs (sub counters file) ≫= rdma_counter_bytes)))).
Record pool_sums : Type := { pl_read : N; pl_written : N; pl_read_ops : N; pl_write_ops : N; pl_seen : bool }.
Definition add_objset (dir : string) (a : pool_sums) (objset : string) : pool_sums :=
  if negb (starts_with "objset-" objset) then a
  else
    match sf_file fs (sub dir objset) with
    | None => a
    | Some raw =>
        match kstat_field raw "nread", kstat_field raw "nwritten" with
        | Some r, Some w =>
            {| pl_read := wrap_u64 (pl_read a + r); pl_written := wrap_u64 (pl_written a + w);
               pl_read_ops := wrap_u64 (pl_read_ops a + default 0 (kstat_field raw "reads"));
               pl_write_ops := wrap_u64 (pl_write_ops a + default 0 (kstat_field raw "writes")); pl_seen := true |}
        | _, _ => a
        end
    end.
Definition collect_pool_io (root : string) : Metrics → Metrics :=
  for_each (read_dir_names fs root) (λ pool m,
    let dir := sub root pool in
    let a := foldl (add_objset dir) {| pl_read := 0; pl_written := 0; pl_read_ops := 0; pl_write_ops := 0; pl_seen := false |}
               (read_dir_names fs dir) in
    if pl_seen a then
      let m := push_counter (series3 "pool" pool "read_bps") ts (pl_read a) m in
      let m := push_counter (series3 "pool" pool "write_bps") ts (pl_written a) m in
      let m := push_counter (series3 "pool" pool "read_iops") ts (pl_read_ops a) m in
      push_counter (series3 "pool" pool "write_iops") ts (pl_write_ops a) m
    else m).
Definition hwmon_block_device (hwmon_dir : string) : option string :=
  let device := sub hwmon_dir "device" in
  match read_dir_names fs (sub device "block") with
  | name :: _ => Some name
  | [] => List.find is_nvme_namespace (read_dir_names fs device)
  end.
Definition collect_drive_temp (hwmon_root : string) : Metrics → Metrics :=
  for_each (read_dir_names fs hwmon_root) (λ hw m,
    let dir := sub hwmon_root hw in
    let name := trim (default "" (sf_file fs (sub dir "name"))) in
    if negb (bool_decide (name = "drivetemp") || bool_decide (name = "nvme")) then m
    else
      match hwmon_block_device dir with
      | None => m
      | Some dev => push_gauge (series3 "disk" dev "temp_c") (sf_file fs (sub dir "temp1_input") ≫= parse_temp_millis) m
      end).
Definition collect_nic_traffic (net_root : string) : Metrics → Metrics :=
  for_each (read_dir_names fs net_root) (λ dev m,
    let dir := sub net_root dev in
    if bool_decide (dev = "lo") || negb (sf_link fs (sub dir "device")) then m
    else
      for_each [("rx_bytes", "rx"); ("tx_bytes", "tx")] (λ '(file, label),
        push_reading (series3 "nic" dev (label +:+ "_bps"))
          (raw ← sf_file fs (sub (sub dir "statistics") file); parse_u64 (trim raw))) m).
Definition hwmon_temp (hwdir : string) : option f64 :=
  f ← head (sort (List.filter (λ f, starts_with "temp" f && ends_with_str "_input" f) (read_dir_names fs hwdir)));
  raw ← sf_file fs (sub hwdir f);
  parse_temp_millis raw.
Definition collect_nic_temp (net_root : string) : Metrics → Metrics :=
  for_each (read_dir_names fs net_root) (λ dev m,
    if bool_decide (dev = "lo") then m
    else
      let hwmon_root := sub (sub (sub net_root dev) "device") "hwmon" in
      push_gauge (series3 "nic" dev "temp_c")
        (find_map (λ hw, hwmon_temp (sub hwmon_root hw)) (read_dir_names fs hwmon_root)) m).
Definition used_percent (p : Pool) : f64 :=
  f64_mul (f64_div (f64_of_N (raw (po_alloc p))) (f64_of_N (N.max (raw (po_size p)) 1))) (f64_of_Z 100).
Definition collect_pools (pools : result string (option (list Pool))) (m : Metrics) : Metrics :=
  match pools with
  | Ok (Some pools) => for_each pools (λ p, push (series3 "pool" (po_name p) "used_percent") ts (used_percent p)) m
  | _ => m
  end.
Definition sample_all (m : Metrics) : Metrics :=
  let m := collect_block "/sys/block" m in
  let m := collect_rdma "/sys/class/infiniband" m in
  let m := collect_drive_temp "/sys/class/hwmon" m in
  let m := collect_nic_traffic "/sys/class/net" m in
  let m := collect_nic_temp "/sys/class/net" m in
  collect_pool_io "/proc/spl/kstat/zfs" m.
End collect.
(** One turn of the collector's loop: the store with the minute and the hour that
    were flushed last. What the turn meets: its clock, sysfs, the pools and the
    verdicts on its two transactions. *)
Record turn : Type := {
  tn_ts : Z; tn_fs : sysfs; tn_pools : result string (option (list Pool)); tn_minute_fault : option string;
  tn_hour_fault : option string }.
Record Collector : Type := { cl_metrics : Metrics; cl_last_minute : Z; cl_last_hour : Z }.
Definition start (rows_1m rows_1h : list Row) : Collector :=
  {| cl_metrics := init rows_1m rows_1h; cl_last_minute := 0; cl_last_hour := 0 |}.
Definition collector_turn (c : Collector) (t : turn) : Collector :=
  let ts := tn_ts t in
  let m := sample_all (tn_fs t) ts (cl_metrics c) in
  let '(m, last_minute) :=
    if bool_decide (Z.quot ts 60 = cl_last_minute c) then (m, cl_last_minute c)
    else ((flush (tn_minute_fault t) samples_1m ts (collect_pools ts (tn_pools t) m)).2, Z.quot ts 60) in
  let '(m, last_hour) :=
    if bool_decide (Z.quot ts 3600 = cl_last_hour c) then (m, cl_last_hour c)
    else ((flush (tn_hour_fault t) samples_1h ts m).2, Z.quot ts 3600) in
  {| cl_metrics := m; cl_last_minute := last_minute; cl_last_hour := last_hour |}.
Definition collector (c : Collector) (turns : list turn) : Collector := foldl collector_turn c turns.

(** ** The charts page (routes/charts.rs) *)

Record ChartCard : Type := { cd_title : string; cd_svg : string }.
Record ChartGroup : Type := { cg_heading : string; cg_cards : list ChartCard }.
Record RangeLink : Type := { rl_label : string; rl_active : bool; rl_href : string }.
Record MetricChip : Type := { mc_label : string; mc_active : bool; mc_href : string }.
Record ChartsView : Type := {
  cv_live : bool; cv_ranges : list RangeLink; cv_chips : list MetricChip; cv_groups : list ChartGroup; cv_refresh_url : string }.
Inductive MetricKind : Type := KTraffic | KTemp | KNetwork | KUtil.
#[export] Instance MetricKind_eq_dec : EqDecision MetricKind.
Proof. solve_decision. Defined.
Definition CHIP_ORDER : list MetricKind := [KTraffic; KTemp; KNetwork; KUtil].
Definition CATEGORIES : list (string * string) := [("disk", "Disks"); ("rdma", "RDMA links"); ("nic", "NICs"); ("pool", "Pools")].
Definition kind_slug (k : MetricKind) : string :=
  match k with KTraffic => "traffic" | KTemp => "temp" | KNetwork => "network" | KUtil => "util" end.
Definition kind_label (k : MetricKind) : string :=
  match k with KTraffic => "Traffic" | KTemp => "Temperature" | KNetwork => "Network" | KUtil => "Utilization" end.
Definition from_slug (s : string) : option MetricKind := List.find (λ k, bool_decide (kind_slug k = s)) CHIP_ORDER.
Definition of_suffix (suffix : string) : option MetricKind :=
  if bool_decide (suffix ∈ ["read_bps"; "write_bps"]) then Some KTraffic
  else if bool_decide (suffix = "temp_c") then Some KTemp
  else if bool_decide (suffix ∈ ["rx_bps"; "tx_bps"]) then Some KNetwork
  else if bool_decide (suffix = "used_percent") then Some KUtil
  else None.
Definition charts_url (range : string) (kinds : list MetricKind) : string :=
  let slugs := kind_slug <$> List.filter (λ k, bool_decide (k ∈ kinds)) CHIP_ORDER in
  let parts :=
    (if bool_decide (range = "live") then [] else ["range=" +:+ range])
    ++ (match slugs with [] => [] | _ => ["metric=" +:+ join "," slugs] end) in
  match parts with [] => "/charts" | _ => "/charts?" +:+ join "&" parts end.
(** Which range a query asks for, and since when. *)
Definition range_of (query : string) (now : Z) : string * option Z :=
  if bool_decide (query = "1h") then ("1h", Some (i64_sub now 3600))
  else if bool_decide (query = "24h") then ("24h", Some (i64_sub now 86400))
  else if bool_decide (query = "7d") then ("7d", Some (i64_sub now (7 * 86400)))
  else if bool_decide (query = "90d") then ("90d", Some (i64_sub now (90 * 86400)))
  else ("live", None).
(** The series of a category that pass the filter, as target and suffix. *)
Definition chart_entry (cat : string) (active : list MetricKind) (series : string) : option (string * string) :=
  match split ":" series with
  | [c; target; suffix] =>
      if bool_decide (c = cat) then
        kind ← of_suffix suffix;
        if bool_decide (active = []) || bool_decide (kind ∈ active) then Some (target, suffix) else None
      else None
  | _ => None
  end.
(** Neighbours with the same target, together. *)
Fixpoint target_runs (entries : list (string * string)) : list (string * list string) :=
  match entries with
  | [] => []
  | (target, suffix) :: entries =>
      match target_runs entries with
      | (target', suffixes) :: rest =>
          if bool_decide (target = target') then (target, suffix :: suffixes) :: rest
          else (target, [suffix]) :: (target', suffixes) :: rest
      | [] => [(target, [suffix])]
      end
  end.
Section page.
Context {C : Chrono}.
Definition target_cards (points : string → list Sample) (cat : string) (run : string * list string) : list ChartCard :=
  let '(target, suffixes) := run in
  let has suffix := bool_decide (suffix ∈ suffixes) in
  let pts suffix := points (series3 cat target suffix) in
  let titled what svg := {| cd_title := target +:+ " " +:+ middot +:+ " " +:+ what; cd_svg := svg |} in
  (if has "read_bps" || has "write_bps"
   then [titled "traffic" (mirror_chart_svg (pts "read_bps") (pts "write_bps") "Read" "Write" 600 120 Bytes)] else [])
  ++ (if has "rx_bps" || has "tx_bps"
      then [titled "traffic" (mirror_chart_svg (pts "rx_bps") (pts "tx_bps") "Rx" "Tx" 600 120 Bytes)] else [])
  ++ (if has "temp_c" then [titled "temperature" (chart_svg (pts "temp_c") 600 120 Celsius)] else [])
  ++ (if has "used_percent" then [titled "used %" (chart_svg (pts "used_percent") 600 120 Percent)] else []).
Definition chart_group (points : string → list Sample) (names : list string) (active : list MetricKind)
    (category : string * string) : option ChartGroup :=
  let '(cat, heading) := category in
  let entries := sort_by fst (omap (chart_entry cat active) names) in
  match target_runs entries ≫= target_cards points cat with
  | [] => None
  | cards => Some {| cg_heading := heading; cg_cards := cards |}
  end.
Definition metric_chip (range : string) (active : list MetricKind) (k : MetricKind) : MetricChip :=
  let on := bool_decide (k ∈ active) in
  let next := List.filter (λ x, negb (bool_decide (x = k))) active ++ (if on then [] else [k]) in
  {| mc_label := kind_label k; mc_active := on; mc_href := charts_url range next |}.
(** [fault]: the verdict on the read of a series' history. *)
Definition charts_page (fault : string → option string) (now : Z) (range_query metric_query : string) (m : Metrics) : ChartsView :=
  let '(range, since) := range_of range_query now in
  let active := omap from_slug (split "," metric_query) in
  let points series :=
    match since with
    | None => ring_series m series
    | Some since => match history (fault series) series since now m with Ok l => l | Err _ => [] end
    end in
  {| cv_live := bool_decide (range = "live");
     cv_ranges := (λ r, {| rl_label := r; rl_active := bool_decide (r = range); rl_href := charts_url r active |})
                    <$> ["live"; "1h"; "24h"; "7d"; "90d"];
     cv_chips := {| mc_label := "All"; mc_active := bool_decide (active = []); mc_href := charts_url range [] |}
                   :: (metric_chip range active <$> CHIP_ORDER);
     cv_groups := omap (chart_group points (series_names m) active) CATEGORIES;
     cv_refresh_url := charts_url range active |}.
End page.

(** *** The charts of a NIC, of a pool and of a disk (routes/nic.rs, zfs.rs, disks.rs) *)
Section details.
Context {C : Chrono} (m : Metrics).
(** [rdma]: the device column of the NIC's row. *)
Definition nic_charts (netdev : string) (rdma : option string) : string * option string * option string :=
  let series suffix := ring_series m (series3 "nic" netdev suffix) in
  let temp := series "temp_c" in
  let roce_svg :=
    dev ← rdma;
    if bool_decide (dev = em_dash) then None
    else
      let rx := ring_series m (series3 "rdma" dev "rx_bps") in
      let tx := ring_series m (series3 "rdma" dev "tx_bps") in
      if (0 <? length rx)%nat || (0 <? length tx)%nat then Some (mirror_chart_svg rx tx "Rx" "Tx" 600 120 Bytes) else None in
  (mirror_chart_svg (series "rx_bps") (series "tx_bps") "Rx" "Tx" 600 120 Bytes, roce_svg,
   if (0 <? length temp)%nat then Some (chart_svg temp 600 120 Celsius) else None).
Definition read_write_charts (cat name : string) : string * string :=
  let series suffix := ring_series m (series3 cat name suffix) in
  (mirror_chart_svg (series "read_bps") (series "write_bps") "Read" "Write" 600 120 Bytes,
   mirror_chart_svg (series "read_iops") (series "write_iops") "Read" "Write" 600 120 Count).
Definition pool_charts (name : string) : string * string * string :=
  (read_write_charts "pool" name, chart_svg (ring_series m (series3 "pool" name "used_percent")) 600 120 Percent).
Definition disk_charts (name : string) : string * string * string * string * string :=
  let series suffix := ring_series m (series3 "disk" name suffix) in
  (read_write_charts "disk" name, chart_svg (series "queue_depth") 600 120 Count, chart_svg (series "util_percent") 600 120 Percent,
   chart_svg (series "temp_c") 600 120 Celsius).
End details.

(** ** The exposition (routes/charts.rs) *)

Definition raw_sample (kv : string * N) : option PromSample :=
  '(name, label, target) ←
    match split ":" kv.1 with
    | ["disk"; dev; "read_bps"] => Some ("greendot_disk_read_bytes_total", "device", dev)
    | ["disk"; dev; "write_bps"] => Some ("greendot_disk_written_bytes_total", "device", dev)
    | ["rdma"; dev; "rx_bps"] => Some ("greendot_rdma_received_bytes_total", "device", dev)
    | ["rdma"; dev; "tx_bps"] => Some ("greendot_rdma_transmitted_bytes_total", "device", dev)
    | ["pool"; pool; "read_bps"] => Some ("greendot_pool_read_bytes_total", "pool", pool)
    | ["pool"; pool; "write_bps"] => Some ("greendot_pool_written_bytes_total", "pool", pool)
    | _ => None
    end;
  Some {| ps_name := name; ps_labels := [(label, target)]; ps_value := f64_of_N kv.2 |}.
Definition pool_samples (p : Pool) : list PromSample :=
  (λ '(name, value), {| ps_name := name; ps_labels := [("pool", po_name p)]; ps_value := value |}) <$>
  [("greendot_pool_size_bytes", f64_of_N (raw (po_size p)));
   ("greendot_pool_allocated_bytes", f64_of_N (raw (po_alloc p)));
   ("greendot_pool_online", f64_of_Z (if bool_decide (po_health p = "ONLINE") then 1 else 0))].
Definition status_value (d : Dot) : f64 := f64_of_Z (match dot_state d with Green => 2 | Yellow => 1 | Red => 0 end).
Definition status_sample (name : string) (d : Dot) : PromSample :=
  {| ps_name := "greendot_export_status"; ps_labels := [("export", name)]; ps_value := status_value d |}.
Definition nvme_samples (d : ConfigDoc) (a : ActualNvmet) (rdma : list RdmaDev) : panics (list PromSample) :=
  mapM (λ e, status_sample (nvme_name e) <$> nvme_dot e a rdma) (List.filter nvme_enabled (list_nvme_exports d)).
Definition iscsi_samples (d : ConfigDoc) (a : ActualLio) (rdma : list RdmaDev) : panics (list PromSample) :=
  mapM (λ e, status_sample (iscsi_name e) <$> iscsi_dot e a rdma) (List.filter iscsi_enabled (list_iscsi_exports d)).
(** [(a.name, &a.labels).cmp(..)]: texts before longer ones, then the labels in turn. *)
Definition text_key (s : string) : list N := ((λ c, code c + 1) <$> chars s) ++ [0].
Definition sample_key (s : PromSample) : list N :=
  text_key (ps_name s) ++ (ps_labels s ≫= λ '(k, v), 1 :: text_key k ++ text_key v) ++ [0].
#[local] Instance key_Ordered : Ordered (list N) := id.
Definition prometheus (m : Metrics) (pools : result string (option (list Pool))) (d : ConfigDoc) (nvmet : ActualNvmet)
    (lio : ActualLio) (rdma : list RdmaDev) : panics (string * string) :=
  let counters := omap raw_sample (map_to_list (latest_raw m)) in
  let of_pools := match pools with Ok (Some l) => l ≫= pool_samples | _ => [] end in
  nvme ← nvme_samples d nvmet rdma;
  iscsi ← iscsi_samples d lio rdma;
  Ok ("text/plain; version=0.0.4", render_prometheus (sort_by sample_key (counters ++ of_pools ++ nvme ++ iscsi))).
