(* ===== verification/MetricsFacts.v ===== *)
(** * The metrics store keeps what it promises (greendot-web: metrics)

    The maps of the store refine, series by series, a specification that keeps the
    samples themselves; and a collector keeps a bounded number of samples and rows
    through any number of restarts. *)
From Stdlib Require Import Ascii String ZArith SpecFloat Sorted.
From stdpp Require Import base option list strings sets gmap pretty.
From S2P Require Import Prelude Ordered Types Client Desired Actual Store Tasks ZfsView Dots Site Inventory Auth Metrics.
#[local] Open Scope string_scope.
#[local] Open Scope list_scope.

(** ** What happens to a store, as a sequence *)

Inductive event : Type :=
| Gauge (series : string) (ts : Z) (value : f64)
| Reading (series : string) (ts : Z) (value : N) (scale : f64)
| Flush (fault : option string) (t : Table) (ts : Z).
Definition apply_event (m : Metrics) (e : event) : Metrics :=
  match e with
  | Gauge s ts v => push s ts v m
  | Reading s ts v scale => push_counter_scaled s ts v scale m
  | Flush fault t ts => (flush fault t ts m).2
  end.
Definition replay (m : Metrics) (evs : list event) : Metrics := foldl apply_event m evs.

(** ** The specification: one series, its samples kept as they are *)

Record series_spec : Type := {
  sp_prev : option (Z * N);                (* the last raw reading *)
  sp_log : list Sample;                    (* every sample so far *)
  sp_pending : Table → list Sample;        (* those since the table's last flush *)
  sp_rows : Table → list Sample }.         (* the averages the table keeps *)
Definition spec_init (rows_1m rows_1h : list Row) (s : string) : series_spec := {|
  sp_prev := None; sp_log := []; sp_pending := λ _, [];
  sp_rows := λ t, (λ r, (row_ts r, row_value r)) <$>
    List.filter (λ r, bool_decide (row_series r = s)) (match t with samples_1m => rows_1m | samples_1h => rows_1h end) |}.
Definition spec_sample (x : Sample) (sp : series_spec) : series_spec := {|
  sp_prev := sp_prev sp; sp_log := sp_log sp ++ [x]; sp_pending := λ t, sp_pending sp t ++ [x]; sp_rows := sp_rows sp |}.
Definition count (l : list Sample) : N := (N.of_nat (length l) mod 2 ^ 32)%N.
Definition total (l : list Sample) : f64 := foldl f64_add (f64_of_Z 0) l.*2.
Definition spec_average (ts : Z) (l : list Sample) : list Sample :=
  if (0 <? count l)%N then [(ts, f64_div (total l) (f64_of_N (count l)))] else [].
Definition spec_flush (fault : option string) (t : Table) (ts : Z) (sp : series_spec) : series_spec := {|
  sp_prev := sp_prev sp; sp_log := sp_log sp;
  sp_pending := λ t', if bool_decide (t' = t) then [] else sp_pending sp t';
  sp_rows := λ t',
    if bool_decide (t' = t) && bool_decide (fault = None)
    then List.filter (λ x, i64_sub ts (keep t) <=? x.1)%Z (sp_rows sp t ++ spec_average ts (sp_pending sp t))
    else sp_rows sp t' |}.
Definition spec_event (s : string) (sp : series_spec) (e : event) : series_spec :=
  match e with
  | Gauge s' ts v => if bool_decide (s' = s) then spec_sample (ts, v) sp else sp
  | Reading s' ts v scale =>
      if bool_decide (s' = s) then
        let sp' := {| sp_prev := Some (ts, v); sp_log := sp_log sp; sp_pending := sp_pending sp; sp_rows := sp_rows sp |} in
        match rate (sp_prev sp) (ts, v) with
        | Some r => spec_sample (ts, f64_mul r scale) sp'
        | None => sp'
        end
      else sp
  | Flush fault t ts => spec_flush fault t ts sp
  end.
Definition spec_replay (s : string) (sp : series_spec) (evs : list event) : series_spec := foldl (spec_event s) sp evs.

(** ** The ring *)

Definition latest (l : list Sample) : list Sample := drop (length l - RING_CAPACITY) l.
Lemma trim_front_latest l : trim_front l = latest l.
Proof.
  unfold latest. induction l as [|x l IH]; [done|]. cbn [trim_front].
  destruct (Nat.ltb_spec RING_CAPACITY (length (x :: l))) as [H|H]; cbn [length] in *.
  - rewrite IH. by replace (S (length l) - RING_CAPACITY)%nat with (S (length l - RING_CAPACITY)) by lia.
  - by replace (S (length l) - RING_CAPACITY)%nat with 0%nat by lia.
Qed.
Lemma latest_app a b : latest (latest a ++ b) = latest (a ++ b).
Proof.
  unfold latest. rewrite <- drop_app_le by lia. rewrite drop_drop. f_equal. rewrite !length_drop, !length_app. lia.
Qed.
Lemma latest_length l : (length (latest l) ≤ RING_CAPACITY)%nat.
Proof. unfold latest. rewrite length_drop. lia. Qed.

(** ** The accumulators *)

Definition summary (l : list Sample) : option (f64 * N) := match l with [] => None | _ => Some (total l, count l) end.
Lemma total_snoc l x : total (l ++ [x]) = f64_add (total l) x.2.
Proof. unfold total. by rewrite fmap_app, foldl_app. Qed.
Lemma count_snoc l x : count (l ++ [x]) = ((count l + 1) mod 2 ^ 32)%N.
Proof. unfold count. rewrite length_app, Nat2N.inj_add. cbn [length]. by rewrite N.Div0.add_mod_idemp_l. Qed.
Lemma accumulate_summary (acc : gmap string (f64 * N)) s l x :
  acc !! s = summary l → accumulate s x.2 acc !! s = summary (l ++ [x]).
Proof.
  intros H. unfold accumulate. rewrite H.
  assert (default (f64_of_Z 0, 0%N) (summary l) = (total l, count l)) as -> by (by destruct l).
  rewrite lookup_insert_eq. replace (summary (l ++ [x])) with (Some (total (l ++ [x]), count (l ++ [x]))) by (by destruct l).
  by rewrite total_snoc, count_snoc.
Qed.
Lemma accumulate_other (acc : gmap string (f64 * N)) s s' v : s' ≠ s → accumulate s' v acc !! s = acc !! s.
Proof. intros H. unfold accumulate. destruct (default _ _). by rewrite lookup_insert_ne. Qed.

(** ** The averages of a flush *)

Lemma filter_all_false {A} (p : A → bool) l : Forall (λ a, p a = false) l → List.filter p l = [].
Proof. induction 1 as [|a l Ha _ IH]; cbn; [done|]. by rewrite Ha. Qed.
Lemma filter_comm {A} (p q : A → bool) l : List.filter p (List.filter q l) = List.filter q (List.filter p l).
Proof. induction l as [|a l IH]; cbn; [done|]. destruct (p a) eqn:Ep, (q a) eqn:Eq; cbn; rewrite ?Ep, ?Eq, ?IH; done. Qed.
Lemma filter_map {A B} (f : A → B) (p : B → bool) l : List.filter p (f <$> l) = f <$> List.filter (λ a, p (f a)) l.
Proof. induction l as [|a l IH]; cbn; [done|]. destruct (p (f a)); cbn; by rewrite IH. Qed.
Lemma filter_ext {A} (p q : A → bool) l : (∀ a, p a = q a) → List.filter p l = List.filter q l.
Proof. intros H. induction l as [|a l IH]; cbn; [done|]. by rewrite H, IH. Qed.
Lemma filter_and {A} (p q : A → bool) l : List.filter (λ a, p a && q a) l = List.filter q (List.filter p l).
Proof. induction l as [|a l IH]; cbn; [done|]. destruct (p a); cbn; [destruct (q a); cbn; by rewrite IH|done]. Qed.
Definition keyed {V} (s : string) (kv : string * V) : bool := bool_decide (kv.1 = s).
Lemma filter_keyed {V} s (l : list (string * V)) :
  NoDup l.*1 → List.filter (keyed s) l = match (list_to_map l : gmap string V) !! s with Some v => [(s, v)] | None => [] end.
Proof.
  induction l as [|[k v] l IH]; cbn; intros Hnd; [by rewrite lookup_empty|]. apply NoDup_cons in Hnd as [Hk Hnd].
  unfold keyed at 1. cbn. case_bool_decide as E.
  - subst. rewrite lookup_insert_eq. f_equal. apply filter_all_false, Forall_forall. intros [k' v'] Hin. unfold keyed. cbn.
    apply bool_decide_eq_false. intros ->. apply Hk. by apply list_elem_of_fmap_2 with (f := fst) in Hin.
  - rewrite lookup_insert_ne by done. by apply IH.
Qed.
Lemma filter_map_to_list {V} s (m : gmap string V) :
  List.filter (keyed s) (map_to_list m) = match m !! s with Some v => [(s, v)] | None => [] end.
Proof. rewrite filter_keyed by apply NoDup_fst_map_to_list. by rewrite list_to_map_to_list. Qed.
(** ** The store refines the specification of each series *)

Definition rows_for (s : string) (l : list Row) : list Sample :=
  (λ r, (row_ts r, row_value r)) <$> List.filter (λ r, bool_decide (row_series r = s)) l.
Record agrees (s : string) (m : Metrics) (sp : series_spec) : Prop := {
  ag_prev : mt_raw m !! s = sp_prev sp;
  ag_ring : ring_series m s = latest (sp_log sp);
  ag_acc t : acc_of t m !! s = summary (sp_pending sp t);
  ag_rows t : rows_for s (rows_of t m) = sp_rows sp t }.
Lemma acc_push t s ts v m : acc_of t (push s ts v m) = accumulate s v (acc_of t m).
Proof. by destruct t. Qed.
Lemma rows_push t s ts v m : rows_of t (push s ts v m) = rows_of t m.
Proof. by destruct t. Qed.
Lemma push_agrees s ts v m sp : agrees s m sp → agrees s (push s ts v m) (spec_sample (ts, v) sp).
Proof.
  intros [Hp Hr Ha Hw]. split; cbn [spec_sample sp_prev sp_log sp_pending sp_rows].
  - done.
  - unfold ring_series in *. cbn [push mt_ring]. by rewrite lookup_insert_eq, trim_front_latest, Hr, latest_app.
  - intros t. rewrite acc_push. by apply (accumulate_summary _ _ _ (ts, v)).
  - intros t. by rewrite rows_push.
Qed.
Lemma push_agrees_other s s' ts v m sp : s' ≠ s → agrees s m sp → agrees s (push s' ts v m) sp.
Proof.
  intros Hne [Hp Hr Ha Hw]. split; [done| | |].
  - unfold ring_series in *. cbn [push mt_ring]. by rewrite lookup_insert_ne.
  - intros t. by rewrite acc_push, accumulate_other.
  - intros t. by rewrite rows_push.
Qed.
Lemma reading_agrees s s' ts v scale m sp :
  agrees s m sp → agrees s (push_counter_scaled s' ts v scale m) (spec_event s sp (Reading s' ts v scale)).
Proof.
  intros H. unfold push_counter_scaled. cbn [spec_event]. case_bool_decide as E.
  - subst. rewrite (ag_prev _ _ _ H).
    assert (agrees s (remember s ts v m)
      {| sp_prev := Some (ts, v); sp_log := sp_log sp; sp_pending := sp_pending sp; sp_rows := sp_rows sp |}) as H'.
    { destruct H as [Hp Hr Ha Hw]. split; [cbn; by rewrite lookup_insert_eq|done| |]; intros t; specialize (Ha t); specialize (Hw t); by destruct t. }
    destruct (rate _ _); [by apply push_agrees|done].
  - assert (agrees s (remember s' ts v m) sp) as H'.
    { destruct H as [Hp Hr Ha Hw]. split; [cbn; by rewrite lookup_insert_ne|done| |]; intros t; specialize (Ha t); specialize (Hw t); by destruct t. }
    destruct (rate _ _); [by apply push_agrees_other|done].
Qed.
Lemma rows_for_app s a b : rows_for s (a ++ b) = rows_for s a ++ rows_for s b.
Proof. unfold rows_for. by rewrite List.filter_app, fmap_app. Qed.
Lemma rows_for_kept s lo l :
  rows_for s (List.filter (λ r, negb (row_ts r <? lo)%Z) l) = List.filter (λ x : Sample, (lo <=? x.1)%Z) (rows_for s l).
Proof.
  unfold rows_for. rewrite filter_map, filter_comm. f_equal. apply filter_ext. intros r. cbn. by rewrite Z.leb_antisym.
Qed.
Definition average_rows (ts : Z) (acc : gmap string (f64 * N)) : list Row :=
  (λ '(series, avg), {| row_series := series; row_ts := ts; row_value := avg |}) <$> averages acc.
Lemma average_rows_for s ts acc :
  rows_for s (average_rows ts acc) =
  match acc !! s with
  | Some (sum, n) => if (0 <? n)%N then [(ts, f64_div sum (f64_of_N n))] else []
  | None => []
  end.
Proof.
  unfold rows_for, average_rows, averages. rewrite !filter_map.
  rewrite (filter_ext _ (keyed s)) by (by intros [k [sum n]]). rewrite filter_comm, filter_map_to_list.
  destruct (acc !! s) as [[sum n]|]; [|done]. cbn [List.filter]. by destruct (0 <? n)%N.
Qed.
Lemma rows_for_averages s ts acc l : acc !! s = summary l → rows_for s (average_rows ts acc) = spec_average ts l.
Proof. intros H. rewrite average_rows_for, H. by destruct l. Qed.
Lemma rows_of_with t t' l m : rows_of t' (with_rows t l m) = if bool_decide (t' = t) then l else rows_of t' m.
Proof. by destruct t, t'. Qed.
Lemma acc_of_drained t t' m : acc_of t' (drained t m) = if bool_decide (t' = t) then ∅ else acc_of t' m.
Proof. by destruct t, t'. Qed.
Lemma flush_rows fault t ts m t' :
  rows_of t' (flush fault t ts m).2 =
  if bool_decide (t' = t) && bool_decide (fault = None)
  then List.filter (λ r, negb (row_ts r <? i64_sub ts (keep t))%Z)
         (rows_of t m ++ average_rows ts (acc_of t m))
  else rows_of t' m.
Proof. destruct fault, t, t'; done. Qed.
Lemma flush_accs fault t ts m t' : acc_of t' (flush fault t ts m).2 = if bool_decide (t' = t) then ∅ else acc_of t' m.
Proof. destruct fault, t, t'; done. Qed.
Lemma flush_keeps fault t ts m : mt_raw (flush fault t ts m).2 = mt_raw m ∧ mt_ring (flush fault t ts m).2 = mt_ring m.
Proof. destruct fault, t; done. Qed.
Lemma flush_agrees s fault t ts m sp : agrees s m sp → agrees s (flush fault t ts m).2 (spec_flush fault t ts sp).
Proof.
  intros [Hp Hr Ha Hw]. destruct (flush_keeps fault t ts m) as [Eraw Ering]. split; cbn [spec_flush sp_prev sp_log sp_pending sp_rows].
  - by rewrite Eraw.
  - unfold ring_series. by rewrite Ering.
  - intros t'. rewrite flush_accs. case_bool_decide; [apply lookup_empty|done].
  - intros t'. rewrite flush_rows. destruct (_ && _); [|done].
    by rewrite rows_for_kept, rows_for_app, Hw, (rows_for_averages _ _ _ _ (Ha t)).
Qed.
Lemma event_agrees s m sp e : agrees s m sp → agrees s (apply_event m e) (spec_event s sp e).
Proof.
  intros H. destruct e as [s' ts v|s' ts v scale|fault t ts]; [|by apply reading_agrees|by apply flush_agrees].
  cbn. case_bool_decide as E; [subst; by apply push_agrees|by apply push_agrees_other].
Qed.
Lemma replay_agrees s evs : ∀ m sp, agrees s m sp → agrees s (replay m evs) (spec_replay s sp evs).
Proof. induction evs as [|e evs IH]; cbn; intros m sp H; [done|]. apply IH, event_agrees, H. Qed.
Lemma init_agrees s rows_1m rows_1h : agrees s (init rows_1m rows_1h) (spec_init rows_1m rows_1h s).
Proof. split; [done|done|by intros []|by intros []]. Qed.

(** ** A pass of the collectors only pushes *)

Definition sampled_at (ts : Z) (e : event) : Prop :=
  match e with Gauge _ t _ => t = ts | Reading _ t _ _ => t = ts | Flush _ _ _ => False end.
Definition samples_into (ts : Z) (m m' : Metrics) : Prop := ∃ evs, Forall (sampled_at ts) evs ∧ m' = replay m evs.
Lemma samples_refl ts m : samples_into ts m m.
Proof. by exists []. Qed.
Lemma samples_trans ts m1 m2 m3 : samples_into ts m1 m2 → samples_into ts m2 m3 → samples_into ts m1 m3.
Proof.
  intros (e1 & H1 & ->) (e2 & H2 & ->). exists (e1 ++ e2). split; [by apply Forall_app|]. unfold replay. by rewrite foldl_app.
Qed.
Lemma samples_push ts s v m : samples_into ts m (push s ts v m).
Proof. exists [Gauge s ts v]. by repeat constructor. Qed.
Lemma samples_counter ts s v scale m : samples_into ts m (push_counter_scaled s ts v scale m).
Proof. exists [Reading s ts v scale]. by repeat constructor. Qed.
Lemma samples_for_each {A} ts (f : A → Metrics → Metrics) l m :
  (∀ a m, samples_into ts m (f a m)) → samples_into ts m (for_each l f m).
Proof.
  intros H. revert m. induction l as [|a l IH]; intros m; [apply samples_refl|]. cbn. eapply samples_trans; [apply H|apply IH].
Qed.
Create HintDb sampling.
#[export] Hint Resolve samples_refl samples_push samples_counter : sampling.
Ltac sampling :=
  repeat match goal with
  | |- ∀ _, _ => intros
  | |- samples_into _ _ (for_each _ _ _) => apply samples_for_each
  | |- samples_into _ _ (let '_ := ?x in _) => destruct x
  | |- samples_into _ _ (match ?x with _ => _ end) => destruct x
  | |- samples_into _ _ ((match ?x with _ => _ end) _) => destruct x
  | |- samples_into _ _ (push_counter _ _ _ ?m) => apply samples_trans with m; [|apply samples_counter]
  | |- samples_into _ _ (push_counter_scaled _ _ _ _ ?m) => apply samples_trans with m; [|apply samples_counter]
  | |- samples_into _ _ (push _ _ _ ?m) => apply samples_trans with m; [|apply samples_push]
  end; eauto with sampling.
Lemma reading_samples ts s o m : samples_into ts m (push_reading ts s o m).
Proof. unfold push_reading. sampling. Qed.
Lemma gauge_samples ts s o m : samples_into ts m (push_gauge ts s o m).
Proof. unfold push_gauge. sampling. Qed.
#[export] Hint Resolve reading_samples gauge_samples : sampling.
Lemma block_samples fs ts root m : samples_into ts m (collect_block fs ts root m).
Proof. unfold collect_block, push_block. sampling. Qed.
Lemma rdma_samples fs ts root m : samples_into ts m (collect_rdma fs ts root m).
Proof. unfold collect_rdma. sampling. Qed.
Lemma drive_temp_samples fs ts root m : samples_into ts m (collect_drive_temp fs ts root m).
Proof. unfold collect_drive_temp. sampling. Qed.
Lemma nic_traffic_samples fs ts root m : samples_into ts m (collect_nic_traffic fs ts root m).
Proof. unfold collect_nic_traffic. sampling. Qed.
Lemma nic_temp_samples fs ts root m : samples_into ts m (collect_nic_temp fs ts root m).
Proof. unfold collect_nic_temp. sampling. Qed.
Lemma pool_io_samples fs ts root m : samples_into ts m (collect_pool_io fs ts root m).
Proof. unfold collect_pool_io. sampling. Qed.
Lemma pools_samples ts pools m : samples_into ts m (collect_pools ts pools m).
Proof. unfold collect_pools. sampling. Qed.
#[export] Hint Resolve block_samples rdma_samples drive_temp_samples nic_traffic_samples nic_temp_samples pool_io_samples
  pools_samples : sampling.
Lemma sample_all_samples fs ts m : samples_into ts m (sample_all fs ts m).
Proof. unfold sample_all. repeat (eapply samples_trans; [|eauto with sampling]). apply samples_refl. Qed.
(** A pass leaves the rows alone and keeps every ring within its capacity. *)
Definition rings_bounded (m : Metrics) : Prop := ∀ s, (length (ring_series m s) ≤ RING_CAPACITY)%nat.
Lemma ring_push_bounded s ts v m : rings_bounded m → rings_bounded (push s ts v m).
Proof.
  intros H s'. unfold ring_series. cbn [push mt_ring]. destruct (decide (s = s')) as [->|Hne].
  - rewrite lookup_insert_eq, trim_front_latest. apply latest_length.
  - rewrite lookup_insert_ne by done. apply H.
Qed.
Lemma samples_bounded ts m m' :
  samples_into ts m m' → (rings_bounded m → rings_bounded m') ∧ ∀ t, rows_of t m' = rows_of t m.
Proof.
  intros (evs & Hevs & ->). revert m. induction Hevs as [|e evs He _ IH]; intros m; [done|]. cbn.
  destruct (IH (apply_event m e)) as [Hb Hr]. destruct e as [s ts' v|s ts' v scale|]; [| |done]; cbn in *.
  - split; [intros H; by apply Hb, ring_push_bounded|]. intros t. by rewrite Hr, rows_push.
  - unfold push_counter_scaled in *. destruct (rate _ _).
    + split; [intros H; by apply Hb, ring_push_bounded|]. intros t. rewrite Hr, rows_push. by destruct t.
    + split; [intros H; by apply Hb|]. intros t. rewrite Hr. by destruct t.
Qed.

(** ** Retention *)

(** How many elements of a list repeat another one. *)
Definition repeats (l : list Z) : nat := (length l - size (list_to_set l : gset Z))%nat.
Lemma set_size_cons a (l : list Z) :
  size (list_to_set (a :: l) : gset Z) = ((if bool_decide (a ∈ l) then 0 else 1) + size (list_to_set l : gset Z))%nat.
Proof.
  cbn. case_bool_decide as Ha.
  - rewrite (subseteq_union_1_L {[a]} (list_to_set l)) by (apply singleton_subseteq_l; by apply elem_of_list_to_set). done.
  - rewrite size_union by (apply disjoint_singleton_l; by rewrite elem_of_list_to_set). by rewrite size_singleton.
Qed.
Lemma set_size_le (l : list Z) : (size (list_to_set l : gset Z) ≤ length l)%nat.
Proof. induction l as [|a l IH]; [done|]. rewrite set_size_cons. cbn [length]. case_bool_decide; lia. Qed.
Lemma repeats_sublist l k : l `sublist_of` k → (repeats l ≤ repeats k)%nat.
Proof.
  unfold repeats. induction 1 as [|x l k Hs IH|x l k Hs IH]; [done|..].
  - rewrite !set_size_cons. pose proof (set_size_le l). pose proof (set_size_le k). cbn [length].
    assert (bool_decide (x ∈ l) = true → bool_decide (x ∈ k) = true).
    { rewrite !bool_decide_eq_true. intros Hx. by eapply sublist_subseteq. }
    destruct (bool_decide (x ∈ l)), (bool_decide (x ∈ k)); try lia.
  - rewrite set_size_cons. pose proof (set_size_le k). cbn [length]. case_bool_decide; lia.
Qed.
Lemma repeats_snoc l x : repeats (l ++ [x]) = ((if bool_decide (x ∈ l) then 1 else 0) + repeats l)%nat.
Proof.
  unfold repeats. assert (Hp : size (list_to_set (l ++ [x]) : gset Z) = size (list_to_set (x :: l) : gset Z)).
  { f_equal. apply set_eq. intros y. rewrite !elem_of_list_to_set, elem_of_app, !elem_of_cons, elem_of_nil. tauto. }
  rewrite Hp, set_size_cons, length_app. pose proof (set_size_le l). cbn [length]. case_bool_decide; lia.
Qed.
Lemma bounded_count a b l : Forall (λ x, a ≤ x ≤ b)%Z l → (Z.of_nat (length l) ≤ Z.max 0 (b - a + 1) + Z.of_nat (repeats l))%Z.
Proof.
  intros Hb. assert (Hs : (size (list_to_set l : gset Z) ≤ Z.to_nat (b - a + 1))%nat).
  { rewrite <- (length_seqZ a (b - a + 1)), <- (size_list_to_set (C := gset Z) (seqZ a (b - a + 1))) by apply NoDup_seqZ.
    apply subseteq_size. intros x. rewrite !elem_of_list_to_set, elem_of_seqZ. intros Hx. rewrite Forall_forall in Hb. specialize (Hb x Hx).
    cbn in Hb. lia. }
  unfold repeats. pose proof (set_size_le l). lia.
Qed.
Lemma sublist_filter {A B} (f : A → B) (p : A → bool) (l : list A) : f <$> List.filter p l `sublist_of` f <$> l.
Proof. induction l as [|a l IH]; cbn; [done|]. destruct (p a); by constructor. Qed.
Definition period (t : Table) : Z := match t with samples_1m => 60 | samples_1h => 3600 end.
Definition last_flush (t : Table) (c : Collector) : Z :=
  match t with samples_1m => cl_last_minute c | samples_1h => cl_last_hour c end.
Definition ticks (t : Table) (s : string) (rows : list Row) : list Z := (λ x, x.1 / period t)%Z <$> rows_for s rows.
(** At most [k] rows beyond one per period, none older than the window that ends with
    the newest flush, which is not after [now] nor in a period after [last]. *)
Definition tidy (k : nat) (t : Table) (s : string) (rows : list Row) (now last : Z) : Prop :=
  ∃ newest : Z, (repeats (ticks t s rows) ≤ k)%nat ∧
    Forall (λ x, newest - keep t ≤ x.1 ≤ newest)%Z (rows_for s rows) ∧ (newest ≤ now)%Z ∧ (newest / period t ≤ last)%Z.
Lemma tidy_mono k k' t s rows now now' last last' :
  (k ≤ k')%nat → (now ≤ now')%Z → (last ≤ last')%Z → tidy k t s rows now last → tidy k' t s rows now' last'.
Proof. intros Hk Hn Hle (n & H1 & H2 & H3 & H4). exists n. split_and!; [lia|done|lia|lia]. Qed.
Lemma tidy_now k t s rows now last : tidy k t s rows now last → tidy k t s rows now (now / period t).
Proof.
  intros (n & H1 & H2 & H3 & H4). exists n. split_and!; [done..|]. apply Z.div_le_mono; [by destruct t|done].
Qed.
Lemma tidy_count k t s rows now last :
  tidy k t s rows now last → (Z.of_nat (length (rows_for s rows)) ≤ keep t / period t + 1 + Z.of_nat k)%Z.
Proof.
  intros (n & Hs & Hb & _).
  assert (keep t = keep t / period t * period t)%Z as Hk by (by destruct t).
  assert (0 < period t)%Z as Hp by (by destruct t).
  assert (0 ≤ keep t / period t)%Z as Hq by (by destruct t).
  pose proof (bounded_count (n / period t - keep t / period t) (n / period t) (ticks t s rows)) as H.
  unfold ticks in *. rewrite length_fmap in H.
  enough (Z.of_nat (length (rows_for s rows)) ≤ Z.max 0 (n / period t - (n / period t - keep t / period t) + 1) + Z.of_nat k)%Z by lia.
  etrans; [apply H|lia]. apply Forall_fmap. eapply Forall_impl; [exact Hb|]. intros x [Hlo Hhi]. cbn. split.
  - replace (n / period t - keep t / period t)%Z with (n / period t + - (keep t / period t))%Z by lia.
    rewrite <- Z.div_add by lia. apply Z.div_le_mono; lia.
  - apply Z.div_le_mono; lia.
Qed.
Lemma i64_sub_small a b : (0 ≤ a < 2 ^ 63)%Z → (0 ≤ b < 2 ^ 63)%Z → i64_sub a b = (a - b)%Z.
Proof. intros Ha Hb. unfold i64_sub. rewrite Z.mod_small by lia. lia. Qed.
Lemma average_rows_one s ts acc : rows_for s (average_rows ts acc) = [] ∨ ∃ v, rows_for s (average_rows ts acc) = [(ts, v)].
Proof. rewrite average_rows_for. destruct (acc !! s) as [[sum n]|]; [|by left]. destruct (0 <? n)%N; [right; by eexists|by left]. Qed.
(** A flush adds one row at most, and a repetition only if its period has a row. *)
Lemma flush_tidy fault t ts m k s now last :
  (0 ≤ ts < 2 ^ 63)%Z → (now ≤ ts)%Z → (last ≤ ts / period t)%Z → tidy k t s (rows_of t m) now last →
  tidy (if bool_decide (last < ts / period t)%Z then k else S k) t s (rows_of t (flush fault t ts m).2) ts (ts / period t).
Proof.
  intros Hts Hnow Hlast Ht. rewrite flush_rows, (bool_decide_eq_true_2 (t = t)) by done. destruct fault as [e|].
  { eapply tidy_mono; [..|exact Ht]; [case_bool_decide; lia|lia|lia]. }
  destruct Ht as (n & Hs & Hb & Hn & Hp). exists ts. rewrite (bool_decide_eq_true_2 (None = None)) by done. cbn [andb].
  unfold ticks. rewrite rows_for_kept, i64_sub_small by (done || (by destruct t)). rewrite rows_for_app. split_and!; [| |lia|lia].
  - etrans; [apply repeats_sublist, sublist_filter|]. rewrite fmap_app. fold (ticks t s (rows_of t m)).
    destruct (average_rows_one s ts (acc_of t m)) as [->|(v & ->)]; [rewrite app_nil_r; case_bool_decide; lia|].
    cbn [fmap list_fmap fst]. rewrite repeats_snoc. case_bool_decide as Hin; [|case_bool_decide; lia].
    rewrite bool_decide_eq_false_2; [lia|]. apply list_elem_of_fmap in Hin as (x & E & Hx). rewrite Forall_forall in Hb.
    specialize (Hb x Hx). cbn in Hb. assert (x.1 / period t ≤ n / period t)%Z by (apply Z.div_le_mono; [by destruct t|lia]). lia.
  - apply Forall_forall. intros x [Hx Hlo]%list_elem_of_In%List.filter_In. apply Z.leb_le in Hlo. split; [lia|].
    apply list_elem_of_In, elem_of_app in Hx as [Hx|Hx].
    + rewrite Forall_forall in Hb. specialize (Hb x Hx). cbn in Hb. lia.
    + destruct (average_rows_one s ts (acc_of t m)) as [E|(v & E)]; rewrite E in Hx; [by apply elem_of_nil in Hx|].
      apply list_elem_of_singleton in Hx as ->. cbn. lia.
Qed.
Lemma other_flush_rows fault t ts m t' : t' ≠ t → rows_of t' (flush fault t ts m).2 = rows_of t' m.
Proof. intros H. by rewrite flush_rows, bool_decide_eq_false_2. Qed.
Lemma flush_rings fault t ts m : rings_bounded m → rings_bounded (flush fault t ts m).2.
Proof. intros H s. unfold ring_series. rewrite (proj2 (flush_keeps fault t ts m)). apply H. Qed.

(** *** The collector's invariant *)

(** Of one table: the marks cover its rows, or it has not been flushed since a restart,
    which leaves room for one repetition. *)
Definition covered (k : nat) (t : Table) (s : string) (rows : list Row) (now last : Z) : Prop :=
  tidy k t s rows now last ∨ last = 0%Z ∧ ∃ k', k = S k' ∧ tidy k' t s rows now (now / period t).
Record kept (k : nat) (now : Z) (c : Collector) : Prop := {
  kp_rings : rings_bounded (cl_metrics c);
  kp_rows t s : covered k t s (rows_of t (cl_metrics c)) now (last_flush t c);
  kp_last t : (last_flush t c ≤ now / period t)%Z }.
Lemma covered_tidy k t s rows now last : covered k t s rows now last → tidy k t s rows now (now / period t).
Proof. intros [H|(_ & k' & -> & H)]; [by eapply tidy_now|]. eapply tidy_mono; [..|exact H]; lia. Qed.
Lemma start_rings rows_1m rows_1h : rings_bounded (cl_metrics (start rows_1m rows_1h)).
Proof. intros s. unfold ring_series. cbn [start init cl_metrics mt_ring]. rewrite lookup_empty. cbn. lia. Qed.
Lemma start_kept : kept 0 0 (start [] []).
Proof.
  split; [apply start_rings|intros t s; left|by intros []].
  exists 0%Z. destruct t; (split_and!; [done|constructor|done|done]).
Qed.
(** A restart of the process: the tables are found again, the memory is not. *)
Definition restart (c : Collector) : Collector := start (mt_1m (cl_metrics c)) (mt_1h (cl_metrics c)).
Lemma restart_kept k now c : (0 ≤ now)%Z → kept k now c → kept (S k) now (restart c).
Proof.
  intros H0 [_ Hrows _]. split; [apply start_rings|intros t s; right|].
  - split; [by destruct t|]. exists k. split; [done|]. specialize (Hrows t s). apply covered_tidy in Hrows. by destruct t.
  - intros t. replace (last_flush t (restart c)) with 0%Z by by destruct t. apply Z.div_pos; [done|by destruct t].
Qed.
(** What a turn does to a table and to its mark, when it flushes and when it does not. *)
Lemma turn_table k c now ts t t' fault m s (m' : Metrics) last' :
  (0 ≤ now ≤ ts)%Z → (ts < 2 ^ 63)%Z → (last_flush t c ≤ now / period t)%Z →
  (m', last') = (if bool_decide (Z.quot ts (period t) = last_flush t c) then (m, last_flush t c)
                 else ((flush fault t ts m).2, Z.quot ts (period t))) →
  covered k t s (rows_of t m) now (last_flush t c) →
  covered k t s (rows_of t m') ts last' ∧ (last' ≤ ts / period t)%Z ∧ (t' ≠ t → rows_of t' m' = rows_of t' m) ∧
  (rings_bounded m → rings_bounded m').
Proof.
  intros Hts Hmax Hlast E Ht. rewrite Z.quot_div_nonneg in E by (destruct t; cbn; lia).
  assert (now / period t ≤ ts / period t)%Z as Hdiv by (apply Z.div_le_mono; [by destruct t|lia]).
  case_bool_decide as Eq; injection E as -> ->.
  - split_and!; [|lia|done|done]. destruct Ht as [Ht|(H0 & k' & -> & Ht)].
    + left. eapply tidy_mono; [..|exact Ht]; lia.
    + right. split; [done|]. exists k'. split; [done|]. eapply tidy_mono; [..|exact Ht]; lia.
  - split_and!; [left|done|apply other_flush_rows|apply flush_rings]. destruct Ht as [Ht|(H0 & k' & -> & Ht)].
    + apply (flush_tidy fault _ ts) in Ht; [|lia..]. rewrite bool_decide_eq_true_2 in Ht by lia. done.
    + apply (flush_tidy fault _ ts) in Ht; [|lia..]. eapply tidy_mono; [..|exact Ht]; [case_bool_decide; lia|lia|lia].
Qed.
Lemma turn_kept k now c tn :
  (0 ≤ now ≤ tn_ts tn)%Z → (tn_ts tn < 2 ^ 63)%Z → kept k now c → kept k (tn_ts tn) (collector_turn c tn).
Proof.
  intros Hnow Hts [Hrings Hrows Hlast]. unfold collector_turn. set (ts := tn_ts tn) in *.
  destruct (samples_bounded _ _ _ (sample_all_samples (tn_fs tn) ts (cl_metrics c))) as [Hb1 Hr1].
  set (m1 := sample_all _ _ _) in *. specialize (Hb1 Hrings).
  destruct (samples_bounded _ _ _ (pools_samples ts (tn_pools tn) m1)) as [Hb2 Hr2]. specialize (Hb2 Hb1).
  set (m2 := collect_pools _ _ _) in *.
  assert (∃ m, rings_bounded m ∧ (∀ t, rows_of t m = rows_of t (cl_metrics c)) ∧
    (if bool_decide (Z.quot ts 60 = cl_last_minute c) then (m1, cl_last_minute c)
     else ((flush (tn_minute_fault tn) samples_1m ts m2).2, Z.quot ts 60)) =
    (if bool_decide (Z.quot ts 60 = cl_last_minute c) then (m, cl_last_minute c)
     else ((flush (tn_minute_fault tn) samples_1m ts m).2, Z.quot ts 60))) as (m & Hb & Hr & ->).
  { case_bool_decide; [by exists m1|exists m2]. split_and!; [done| |done]. intros t. by rewrite Hr2. }
  destruct (if bool_decide (Z.quot ts 60 = _) then _ else _) as [m3 lm] eqn:E1. symmetry in E1.
  destruct (if bool_decide (Z.quot ts 3600 = _) then _ else _) as [m4 lh] eqn:E2. symmetry in E2.
  assert (∀ s, covered k samples_1m s (rows_of samples_1m m4) ts lm ∧ covered k samples_1h s (rows_of samples_1h m4) ts lh ∧
    (lm ≤ ts / 60)%Z ∧ (lh ≤ ts / 3600)%Z ∧ rings_bounded m4) as H.
  { intros s.
    destruct (turn_table k c now ts samples_1m samples_1h _ m s _ _ Hnow Hts (Hlast _) E1) as (T1 & L1 & O1 & B1); [by rewrite Hr|].
    destruct (turn_table k c now ts samples_1h samples_1m _ m3 s _ _ Hnow Hts (Hlast _) E2) as (T2 & L2 & O2 & B2); [by rewrite O1, Hr|].
    rewrite O2 by done. split_and!; auto. }
  split; cbn; [by destruct (H "") as (? & ? & ? & ? & ?)|intros t s|intros t].
  - destruct (H s) as (? & ? & _). by destruct t.
  - destruct (H "") as (_ & _ & ? & ? & _). by destruct t.
Qed.
(** The clock of a run: it starts at [now] and does not go back. *)
Fixpoint clock_from (now : Z) (l : list Z) : Prop :=
  match l with [] => True | ts :: l => (now ≤ ts < 2 ^ 63)%Z ∧ clock_from ts l end.
Definition clock_end (now : Z) (l : list Z) : Z := default now (last l).
Lemma clock_end_cons now ts l : clock_end now (ts :: l) = clock_end ts l.
Proof. unfold clock_end. destruct l as [|x l]; [done|]. rewrite last_cons_cons. destruct (last (x :: l)) eqn:E; [done|]. by apply last_None in E. Qed.
Lemma clock_from_app now l l' : clock_from now (l ++ l') ↔ clock_from now l ∧ clock_from (clock_end now l) l'.
Proof.
  revert now. induction l as [|ts l IH]; intros now; cbn [app clock_from]; [naive_solver|]. rewrite IH, clock_end_cons. tauto.
Qed.
Lemma collector_kept k turns : ∀ now c,
  (0 ≤ now)%Z → kept k now c → clock_from now (tn_ts <$> turns) →
  (0 ≤ clock_end now (tn_ts <$> turns))%Z ∧ kept k (clock_end now (tn_ts <$> turns)) (collector c turns).
Proof.
  induction turns as [|tn turns IH]; cbn [fmap list_fmap]; intros now c H0 Hc Hs; [done|]. cbn in Hs. destruct Hs as [Hts Hs].
  rewrite clock_end_cons. apply IH; [lia| |done]. apply (turn_kept k now); [lia|lia|done].
Qed.
(** A collector through the restarts of the process, from an empty database. *)
Definition lives (first : list turn) (rest : list (list turn)) : Collector :=
  foldl (λ c turns, collector (restart c) turns) (collector (start [] []) first) rest.
Lemma lives_kept rest : ∀ k now c,
  (0 ≤ now)%Z → kept k now c → clock_from now (tn_ts <$> mjoin rest) →
  ∃ now', kept (k + length rest) now' (foldl (λ c turns, collector (restart c) turns) c rest).
Proof.
  induction rest as [|turns rest IH]; intros k now c H0 Hc Hs; cbn [foldl length]; [rewrite Nat.add_0_r; by exists now|].
  cbn [mjoin list_join] in Hs. rewrite fmap_app, clock_from_app in Hs. destruct Hs as [Hs1 Hs2].
  destruct (collector_kept (S k) turns now (restart c) H0 (restart_kept _ _ _ H0 Hc) Hs1) as [H0' Hc'].
  rewrite Nat.add_succ_r, <- Nat.add_succ_l. by eapply IH.
Qed.

(** ** What the module promises *)

(** C35: the store of metrics refines, series by series, a specification that simply
    keeps samples. Whatever is pushed, read and flushed, in any order and with any
    flush failing: the live ring of a series is its latest 120 samples in order, where
    a counter's sample is the scaled rate between two consecutive readings of that
    series; each accumulator is the sum and the number of the samples since its
    table's last flush; and the history is, ordered by time, the averages of the
    flushes that were committed, less what fell out of the table's window. *)
Theorem store_refines_series rows_1m rows_1h evs s :
  let m := replay (init rows_1m rows_1h) evs in
  let sp := spec_replay s (spec_init rows_1m rows_1h s) evs in
  ring_series m s = drop (length (sp_log sp) - 120) (sp_log sp) ∧
  latest_raw m !! s = snd <$> sp_prev sp ∧
  (∀ t, acc_of t m !! s = summary (sp_pending sp t)) ∧
  ∀ since now,
    history None s since now m =
    Ok (foldr insert_ts [] (List.filter (λ x, since <=? x.1)%Z
          (sp_rows sp (if (i64_sub now since <=? WEEK)%Z then samples_1m else samples_1h)))).
Proof.
  intros m sp. destruct (replay_agrees s evs _ _ (init_agrees s rows_1m rows_1h)) as [Hp Hr Ha Hw]. fold m sp in Hp, Hr, Ha, Hw.
  split_and!; [exact Hr| |done|].
  - unfold latest_raw. by rewrite lookup_fmap, Hp.
  - intros since now. unfold history. rewrite <- Hw. unfold rows_for. by rewrite filter_map, filter_and.
Qed.

(** C37: a collector can run for ever, through any restarts of the process. From an
    empty database, as long as the clock does not go back, and whatever sysfs, the pools
    and the database do: no live ring ever holds more than 120 samples, and no series
    ever has more rows than its tables' windows have periods, 10081 rows of a minute and
    2161 rows of an hour, and one more for each restart (the first flush after a restart
    may add a second row for the minute or the hour it falls in). *)
Theorem collector_bounded first rest s :
  clock_from 0 (tn_ts <$> (first ++ mjoin rest)) →
  let m := cl_metrics (lives first rest) in
  (length (ring_series m s) ≤ 120)%nat ∧
  (Z.of_nat (length (List.filter (λ r, bool_decide (row_series r = s)) (mt_1m m))) ≤ 10081 + Z.of_nat (length rest))%Z ∧
  (Z.of_nat (length (List.filter (λ r, bool_decide (row_series r = s)) (mt_1h m))) ≤ 2161 + Z.of_nat (length rest))%Z.
Proof.
  intros Hs m. rewrite fmap_app, clock_from_app in Hs. destruct Hs as [Hs1 Hs2].
  destruct (collector_kept 0 first 0 (start [] []) ltac:(done) start_kept Hs1) as [H0 Hc].
  destruct (lives_kept rest 0 _ _ H0 Hc Hs2) as (now & [Hrings Hrows _]). fold (lives first rest) in Hrings, Hrows. cbn [Nat.add] in Hrows.
  pose proof (tidy_count _ _ _ _ _ _ (covered_tidy _ _ _ _ _ _ (Hrows samples_1m s))) as H1.
  pose proof (tidy_count _ _ _ _ _ _ (covered_tidy _ _ _ _ _ _ (Hrows samples_1h s))) as H2.
  unfold rows_for in H1, H2. rewrite length_fmap in H1, H2. cbn [rows_of keep period] in H1, H2. fold m in H1, H2.
  change (WEEK / 60)%Z with 10080%Z in H1. change (QUARTER / 3600)%Z with 2160%Z in H2. split_and!; [apply Hrings|lia|lia].
Qed.
Definition demo_fs : sysfs := {|
  sf_dir := λ p, if bool_decide (p = "/sys/block") then Some [Some "sda"; None; Some "sr0"] else None;
  sf_file := λ p, if bool_decide (p = "/sys/block/sda/stat") then Some "10 0 100 0 5 0 200 0 3 1000 0" else None;
  sf_link := λ _, false |}.
Definition demo_turn (ts : Z) : turn :=
  {| tn_ts := ts; tn_fs := demo_fs; tn_pools := Ok None; tn_minute_fault := None; tn_hour_fault := None |}.
(** A restart within the minute of a flush: that minute gets a second row. *)
Lemma collector_bounded_witness :
  let first := demo_turn <$> [60; 65; 120; 7200]%Z in
  let m := cl_metrics (lives first [demo_turn <$> [7210; 7215]%Z]) in
  (length (ring_series m "disk:sda:queue_depth") = 2 ∧
   row_ts <$> List.filter (λ r, bool_decide (row_series r = "disk:sda:queue_depth")) (mt_1m m) = [60; 120; 7200; 7210]%Z) ∧
  (Z.of_nat (length (List.filter (λ r, bool_decide (row_series r = "disk:sda:queue_depth")) (mt_1h m))) ≤ 2162)%Z.
Proof.
  split; [split; vm_compute; reflexivity|].
  apply (collector_bounded (demo_turn <$> [60; 65; 120; 7200]%Z) [demo_turn <$> [7210; 7215]%Z] "disk:sda:queue_depth").
  cbn. lia.
Defined.

(** ** Two ports, one series

    The ports of an RDMA device are read into the same series: the reading of one port
    is the previous reading of the next. With two idle ports the second pass reports
    traffic, the distance between their counters. *)
Definition two_ports : sysfs := {|
  sf_dir := λ p,
    if bool_decide (p = "/sys/class/infiniband") then Some [Some "mlx4_0"]
    else if bool_decide (p = "/sys/class/infiniband/mlx4_0/ports") then Some [Some "1"; Some "2"] else None;
  sf_file := λ p,
    if bool_decide (p = "/sys/class/infiniband/mlx4_0/ports/1/counters/port_rcv_data") then Some "1000"
    else if bool_decide (p = "/sys/class/infiniband/mlx4_0/ports/2/counters/port_rcv_data") then Some "10" else None;
  sf_link := λ _, false |}.
Example idle_ports_report_traffic :
  let pass ts := collect_rdma two_ports ts "/sys/class/infiniband" in
  ring_series (pass 105%Z (pass 100%Z (init [] []))) "rdma:mlx4_0:rx_bps" = [(105%Z, f64_of_Z 792)].
Proof. vm_compute. reflexivity. Qed.
(** Operations per second are labelled as bytes. *)
Example iops_are_bytes : for_series "disk:sda:read_iops" = Bytes.
Proof. vm_compute. reflexivity. Qed.
