(* ===== verification/Server.v ===== *)
(** * The web server: its configuration, its start and its routing table
    (greendot-web: config.rs, main.rs, routes/mod.rs and the [router] of every page)

    Which handler a request reaches, behind which gate. Matching a path against the
    registered patterns is axum's, a class parameter; so are the TOML decoder, the PEM
    reader and rustls' verdict on a certificate. Handlers are named after their
    modules. *)
From Stdlib Require Import Ascii String.
From stdpp Require Import base option list strings sets gmap pretty.
From S2P Require Import Prelude Ordered Types Wire Desired Fs World Reconcile Store Tasks Site Exports Sessions.
#[local] Open Scope string_scope.
#[local] Open Scope list_scope.

(** ** Configuration (config.rs) *)

Definition KNOWN_KEYS : list string := [
  "listen"; "db_path"; "metrics_db_path"; "tls_cert"; "tls_key"; "helper_socket"; "state_path"; "nvmet_root"; "lio_root"].
Record WebConfig : Type := {
  wc_listen : string; wc_db_path : path; wc_metrics_db_path : path; wc_tls_cert : option path; wc_tls_key : option path;
  wc_reconcile : Config }.
Definition WebConfig_default : WebConfig := {|
  wc_listen := "127.0.0.1:8080";
  wc_db_path := ["var"; "lib"; "greendotrdma"; "state.db"];
  wc_metrics_db_path := ["var"; "lib"; "greendotrdma"; "metrics.db"];
  wc_tls_cert := None; wc_tls_key := None; wc_reconcile := Config_default |}.
(** [toml::from_str] at a table, of which only the keys are used, and at the type. *)
Class WebToml := {
  toml_keys : string → result string (list string);
  toml_web : string → result string WebConfig }.
Definition load_web `{WebToml} (cfg : option path) (t : tree) : result string WebConfig :=
  match cfg with
  | None => Ok WebConfig_default
  | Some p =>
      match open_file t p with
      | NotFound => Err (context "reading" p "No such file or directory (os error 2)")
      | ReadError m => Err (context "reading" p m)
      | Text s =>
          keys ← map_err (context "parsing" p) (toml_keys s);
          match List.find (λ k, negb (bool_decide (k ∈ KNOWN_KEYS))) keys with
          | Some unknown => Err ("unknown config key " +:+ debug_str unknown +:+ " in " +:+ show_abs p)
          | None => map_err (context "parsing" p) (toml_web s)
          end
      end
  end.
(** rustls: the first CERTIFICATE block of a PEM text, as its DER bytes, and whether a
    certificate and a key make a server. *)
Class Pem := {
  pem_certs : string → option (result string string);
  rustls_config : path → path → tree → result string unit }.
Definition cert_fingerprint `{Pem, Sha256} (p : path) (t : tree) : result string string :=
  match open_file t p with
  | NotFound => Err (context "reading" p "No such file or directory (os error 2)")
  | ReadError m => Err (context "reading" p m)
  | Text pem =>
      match pem_certs pem with
      | None => Err ("no certificate in " +:+ show_abs p)
      | Some cert => der ← map_err (context "parsing" p) cert; Ok (sha256_hex der)
      end
  end.

(** ** The start (main.rs) *)

(** The fields that are plain values; the stores, the hub and the lock are the states of
    the other files. *)
Record AppState : Type := {
  as_helper_socket : path; as_session_ttl : Z; as_secure_cookies : bool; as_tls_fingerprint : option string; as_listen : string }.
(** [databases]: the verdict on opening the two databases. *)
Definition start_web `{WebToml, Pem, Sha256} (arg : option path) (databases : result string unit) (t : tree) : result string AppState :=
  config ← load_web arg t;
  tls ← match wc_tls_cert config, wc_tls_key config with
        | Some cert, Some key =>
            _ ← map_err (λ e, "loading TLS cert " +:+ show_abs cert +:+ " / key " +:+ show_abs key +:+ ": " +:+ e) (rustls_config cert key t);
            Ok true
        | None, None => Ok false
        | _, _ => Err "tls_cert and tls_key must be set together"
        end;
  tls_fingerprint ← match wc_tls_cert config with
                    | Some cert => Some <$> cert_fingerprint cert t
                    | None => Ok None
                    end;
  _ ← databases;
  Ok {| as_helper_socket := helper_socket (wc_reconcile config); as_session_ttl := (24 * 3600 * 10 ^ 9)%Z; as_secure_cookies := tls;
        as_tls_fingerprint := tls_fingerprint; as_listen := wc_listen config |}.

(** ** The routers of the pages *)

Inductive verb : Type := Get | Post.
#[export] Instance verb_eq_dec : EqDecision verb.
Proof. solve_decision. Defined.
Record route : Type := { rt_path : string; rt_verb : verb; rt_handler : string }.
Definition get (p h : string) : route := {| rt_path := p; rt_verb := Get; rt_handler := h |}.
Definition post (p h : string) : route := {| rt_path := p; rt_verb := Post; rt_handler := h |}.
Definition zfs_router : list route := [
  get "/zfs" "zfs::zfs_page";
  get "/zfs/pool/create" "zfs::pool_create_page";
  post "/zfs/pool" "zfs::pool_create";
  get "/zfs/pool/{name}" "zfs::pool_detail_page";
  post "/zfs/pool/{name}/add-vdev" "zfs::pool_add_vdev";
  post "/zfs/pool/{name}/attach-device" "zfs::pool_attach_device";
  post "/zfs/pool/{name}/remove-device" "zfs::pool_remove_device";
  post "/zfs/pool/{name}/detach-device" "zfs::pool_detach_device";
  post "/zfs/pool/{name}/online-device" "zfs::pool_online_device";
  get "/zfs/pool/{pool}/zvol/{*rest}" "zfs::zvol_detail_page";
  get "/zfs/dataset/{*name}" "zfs::dataset_detail_page";
  post "/zfs/zvol" "zfs::zvol_create";
  post "/zfs/zvol/resize" "zfs::zvol_resize";
  post "/zfs/zvol/delete" "zfs::zvol_delete";
  post "/zfs/fs" "zfs::fs_create";
  post "/zfs/fs/mount" "zfs::fs_mount";
  post "/zfs/fs/unmount" "zfs::fs_unmount";
  post "/zfs/fs/set-mountpoint" "zfs::fs_set_mountpoint";
  post "/zfs/fs/destroy" "zfs::fs_destroy";
  post "/zfs/compression" "zfs::set_compression"].
Definition lvm_router : list route := [
  get "/lvm" "lvm::lvm_page";
  post "/lvm/lv" "lvm::lv_create";
  post "/lvm/lv/resize" "lvm::lv_resize";
  post "/lvm/lv/shrink" "lvm::lv_shrink";
  post "/lvm/lv/rename" "lvm::lv_rename";
  post "/lvm/lv/delete" "lvm::lv_delete";
  post "/lvm/thinpool" "lvm::thin_pool_create";
  post "/lvm/vg/extend" "lvm::vg_extend";
  post "/lvm/vg/reduce" "lvm::vg_reduce";
  post "/lvm/vg/delete" "lvm::vg_remove";
  get "/lvm/vg/create" "lvm::vg_create_page";
  post "/lvm/vg" "lvm::vg_create";
  get "/lvm/vg/{name}" "lvm::vg_detail_page";
  get "/lvm/vg/{vg}/lv/{name}" "lvm::lv_detail_page";
  get "/lvm/pv/{*id}" "lvm::pv_detail_page"].
Definition nvme_router : list route := [
  get "/nvme" "nvme::nvme_page";
  post "/nvme/create" "block_export::create<Nvme>";
  get "/nvme/{id}" "nvme::detail_page";
  post "/nvme/toggle" "block_export::toggle<Nvme>";
  post "/nvme/interfaces" "block_export::edit_interfaces<Nvme>";
  post "/nvme/delete" "block_export::delete<Nvme>";
  get "/nvme/{id}/diagnose" "nvme::diagnose_page";
  get "/partials/nvme" "nvme::dots_partial"].
Definition iscsi_router : list route := [
  get "/iscsi" "iscsi::iscsi_page";
  post "/iscsi/create" "block_export::create<Iscsi>";
  get "/iscsi/{id}" "iscsi::detail_page";
  post "/iscsi/toggle" "block_export::toggle<Iscsi>";
  post "/iscsi/interfaces" "block_export::edit_interfaces<Iscsi>";
  post "/iscsi/delete" "block_export::delete<Iscsi>";
  get "/iscsi/{id}/diagnose" "iscsi::diagnose_page";
  get "/partials/iscsi" "iscsi::dots_partial"].
Definition nfs_router : list route := [
  get "/nfs" "nfs::nfs_page";
  post "/nfs/create" "nfs::create";
  post "/nfs/toggle" "nfs::toggle";
  post "/nfs/delete" "nfs::delete";
  get "/nfs/{id}/diagnose" "nfs::diagnose_page";
  get "/partials/nfs" "nfs::dots_partial"].
Definition nic_router : list route := [
  get "/nic" "nic::nic_page";
  get "/nic/{netdev}" "nic::nic_detail_page";
  get "/nic/{netdev}/diagnose" "nic::nic_diagnose_page";
  post "/nic/{netdev}/roce" "nic::set_roce";
  post "/nic/{netdev}/rxe" "nic::enable_rxe";
  post "/nic/{netdev}/mtu" "nic::set_mtu"].
Definition settings_router : list route := [
  get "/settings" "settings::settings_page";
  post "/settings/reconcile" "settings::reconcile_now";
  post "/settings/listen" "settings::set_listen";
  post "/settings/install" "settings::install_deps"].
Definition disks_router : list route := [
  get "/disks" "disks::disks_page";
  get "/disks/{disk}" "disks::disk_detail_page";
  get "/disks/{disk}/part/{number}" "disks::part_detail_page";
  post "/disks/table" "disks::table_create";
  post "/disks/part/create" "disks::part_create";
  post "/disks/part/delete" "disks::part_delete";
  post "/disks/part/shrink" "disks::part_shrink"].
Definition snapshots_router : list route := [
  get "/snapshots" "snapshots::snapshots_page";
  post "/snapshots/policy/create" "snapshots::policy_create";
  get "/snapshots/policy/{id}" "snapshots::policy_detail_page";
  post "/snapshots/policy/toggle" "snapshots::policy_toggle";
  post "/snapshots/policy/delete" "snapshots::policy_delete";
  get "/snapshots/snap/{*name}" "snapshots::snap_detail_page";
  post "/snapshots/manual" "snapshots::manual_snapshot";
  post "/snapshots/delete" "snapshots::snapshot_delete"].
Definition charts_router : list route := [
  get "/charts" "charts::charts_page"].
Definition connections_router : list route := [
  get "/connections" "connections::connections_page";
  get "/partials/connections" "connections::connections_partial"].
Definition tasks_router : list route := [
  get "/tasks" "tasks::tasks_page";
  get "/tasks/{id}" "tasks::task_detail";
  get "/tasks/{id}/stream" "tasks::task_stream"].
Definition docs_router : list route := [
  get "/docs/kubernetes-csi" "docs::kubernetes_csi";
  get "/docs/democratic-csi" "docs::redirect_democratic_csi"].
Definition client_access_router : list route := [
  get "/client-access" "client_access::access_page";
  post "/client-access/create" "client_access::create";
  post "/client-access/revoke" "client_access::revoke"].
Definition ssh_access_router : list route := [
  get "/ssh-access" "ssh_access::access_page";
  post "/ssh-access/add" "ssh_access::add";
  post "/ssh-access/revoke" "ssh_access::revoke";
  get "/ssh-access/diagnose" "ssh_access::diagnose_page"].
Definition client_api_router : list route := [
  get "/target" "client_api::target_info";
  get "/exports" "client_api::exports";
  post "/exports/nvme/{id}/register" "client_api::register_nvme";
  post "/exports/nfs/{id}/register" "client_api::register_nfs";
  get "/tasks/{id}" "client_api::task_status"].

(** ** The application (routes/mod.rs) *)

(** What stands in front of a route: nothing, the session and CSRF gate, the bearer
    token gate. *)
Inductive layer : Type := Open | Session_gate | Bearer_gate.
#[export] Instance layer_eq_dec : EqDecision layer.
Proof. solve_decision. Defined.
Definition protected : list route :=
  [get "/" "dashboard"; post "/logout" "auth::logout"]
  ++ zfs_router ++ lvm_router ++ nvme_router ++ iscsi_router ++ nfs_router ++ nic_router ++ settings_router ++ disks_router
  ++ snapshots_router ++ charts_router ++ connections_router ++ tasks_router ++ docs_router ++ client_access_router
  ++ ssh_access_router.
Definition nest (prefix : string) (r : route) : route :=
  {| rt_path := prefix +:+ rt_path r; rt_verb := rt_verb r; rt_handler := rt_handler r |}.
Definition unprotected : list route := [
  get "/login" "auth::login_page";
  post "/login" "auth::login_post";
  get "/healthz" "healthz";
  get "/metrics" "charts::prometheus";
  get "/static/htmx.min.js" "asset:htmx.min.js";
  get "/static/pico.css" "asset:pico.css";
  get "/static/style.css" "asset:style.css";
  get "/static/fonts/Barlow-Regular.woff2" "asset:Barlow-Regular.woff2";
  get "/static/fonts/Barlow-SemiBold.woff2" "asset:Barlow-SemiBold.woff2";
  get "/static/fonts/BarlowSemiCondensed-SemiBold.woff2" "asset:BarlowSemiCondensed-SemiBold.woff2"].
Definition app : list (layer * route) :=
  (pair Session_gate <$> protected)
  ++ (pair Bearer_gate <$> (nest "/api/client/v1" <$> client_api_router))
  ++ (pair Open <$> unprotected).

(** ** Serving a request *)

(** The pattern, of those registered, that axum picks for a path. *)
Class Matcher := matched : list string → string → option string.
Inductive served : Type :=
| Reached (handler : string) (user : option CurrentUser)
| Turned_away (r : gate_reply)
| Api_refused
| Method_not_allowed
| No_route.
(** [get] also answers HEAD. *)
Definition answers_method (v : verb) (m : Method) : bool :=
  match v, m with
  | Get, (GET | HEAD) => true
  | Post, OtherMethod name => bool_decide (name = "POST")
  | _, _ => false
  end.
Definition by_method (routes : list (layer * route)) (m : Method) (user : option CurrentUser) : served :=
  match List.find (λ r, answers_method (rt_verb r.2) m) routes with
  | Some r => Reached (rt_handler r.2) user
  | None => Method_not_allowed
  end.
(** The layer of a path wraps its method router. *)
Definition serve_request `{Matcher, Sha256} (ttl : Z) (d : ConfigDoc) (req : http_request) (uri_path : string) (now : Z) (s : Sessions) :
    served * Sessions :=
  match matched ((λ r, rt_path r.2) <$> app) uri_path with
  | None => (No_route, s)
  | Some pattern =>
      let routes := List.filter (λ r, bool_decide (rt_path r.2 = pattern)) app in
      match routes with
      | [] => (No_route, s)
      | (Open, _) :: _ => (by_method routes (hr_method req) None, s)
      | (Bearer_gate, _) :: _ =>
          (if authorized d (header_get "authorization" (hr_headers req) ≫= to_str) then by_method routes (hr_method req) None
           else Api_refused, s)
      | (Session_gate, _) :: _ =>
          let '(r, s) := require_auth ttl req now s in
          (match r with Pass user => by_method routes (hr_method req) (Some user) | _ => Turned_away r end, s)
      end
  end.
