(* ===== verification/ServerFacts.v ===== *)
(** * Who reaches which handler, and what a start promises *)
From Stdlib Require Import Ascii String.
From stdpp Require Import base option list strings sets gmap pretty relations.
From S2P Require Import Prelude Ordered Types Wire Desired Fs World Reconcile Store StoreFacts Tasks Site Exports ExportsFacts Sessions SessionFacts Server.
#[local] Open Scope string_scope.
#[local] Open Scope list_scope.

(** ** The table *)

Definition app_handlers : list string := (λ r, rt_handler r.2) <$> app.
(** No method of a path is registered twice (axum would refuse to start), no handler
    has two routes, and a path has one layer. *)
Lemma app_table_sound :
  NoDup ((λ r, (rt_path r.2, rt_verb r.2)) <$> app) ∧ NoDup app_handlers ∧
  ∀ r r', r ∈ app → r' ∈ app → rt_path r.2 = rt_path r'.2 → r.1 = r'.1.
Proof.
  split_and!; [apply (bool_decide_unpack _); vm_compute; exact I|apply (bool_decide_unpack _); vm_compute; exact I|].
  assert (forallb (λ r, forallb (λ r', implb (bool_decide (rt_path r.2 = rt_path r'.2)) (bool_decide (r.1 = r'.1))) app) app = true) as H
    by (vm_compute; reflexivity).
  intros r r' Hr Hr' Hp. rewrite forallb_forall in H. specialize (H r (proj1 (list_elem_of_In _ _) Hr)).
  rewrite forallb_forall in H. specialize (H r' (proj1 (list_elem_of_In _ _) Hr')).
  rewrite bool_decide_eq_true_2 in H by done. by apply bool_decide_eq_true in H.
Qed.
Lemma handler_route r r' : r ∈ app → r' ∈ app → rt_handler r.2 = rt_handler r'.2 → r = r'.
Proof.
  intros Hr Hr' He. destruct app_table_sound as (_ & Hnd & _). unfold app_handlers in Hnd.
  apply list_elem_of_lookup in Hr as [i Hi]. apply list_elem_of_lookup in Hr' as [j Hj].
  assert (i = j) as ->; [|congruence]. eapply NoDup_lookup; [exact Hnd| |]; rewrite list_lookup_fmap, ?Hi, ?Hj; cbn; [done|by rewrite He].
Qed.
Lemma by_method_reached routes m user h user' :
  by_method routes m user = Reached h user' →
  user' = user ∧ ∃ r, r ∈ routes ∧ rt_handler r.2 = h ∧ answers_method (rt_verb r.2) m = true.
Proof.
  unfold by_method. destruct (List.find _ _) as [r|] eqn:E; [|done]. intros [= <- <-]. split; [done|].
  apply List.find_some in E as [Hin Ha]. exists r. by rewrite list_elem_of_In.
Qed.
Lemma filtered_route pattern l r r' rest :
  List.filter (λ r, bool_decide (rt_path r.2 = pattern)) app = (l, r) :: rest → r' ∈ (l, r) :: rest → r' ∈ app ∧ r'.1 = l.
Proof.
  intros E. rewrite <- E. intros [Hin Hp]%list_elem_of_In%List.filter_In. apply bool_decide_eq_true in Hp.
  apply list_elem_of_In in Hin. split; [done|].
  assert ((l, r) ∈ List.filter (λ r, bool_decide (rt_path r.2 = pattern)) app) as [Hl Hlp]%list_elem_of_In%List.filter_In by (rewrite E; left).
  apply bool_decide_eq_true in Hlp. apply list_elem_of_In in Hl.
  destruct app_table_sound as (_ & _ & Hs). apply (Hs r' (l, r)); [done|done|congruence].
Qed.

(** ** Behind the gates *)

Lemma app_layers r :
  r ∈ app →
  match r.1 with
  | Open => r.2 ∈ unprotected
  | Bearer_gate => rt_handler r.2 ∈ rt_handler <$> client_api_router
  | Session_gate => r.2 ∈ protected
  end.
Proof.
  unfold app. rewrite !elem_of_app, !list_elem_of_fmap. intros [(x & -> & H)|[(x & -> & H)|(x & -> & H)]]; cbn [fst snd]; [done| |done].
  apply list_elem_of_fmap in H as (y & -> & Hy). change (rt_handler (nest _ y)) with (rt_handler y).
  by apply (list_elem_of_fmap_2 rt_handler).
Qed.
Lemma bearer_header {S : Sha256} d o :
  authorized d o = true → ∃ raw t, o = Some ("Bearer " +:+ raw) ∧ t ∈ cd_client_token d ∧ ct_token_hash t = token_hash raw.
Proof.
  intros H. assert (∃ raw, o = Some ("Bearer " +:+ raw)) as [raw ->].
  { unfold authorized in H. destruct (o ≫= strip_prefix "Bearer ") as [raw|] eqn:E; [|done].
    apply bind_Some in E as (v & -> & Hv%strip_prefix_Some). exists raw. by rewrite Hv. }
  apply authorized_spec in H as (t & Ht & Hh). by exists raw, t.
Qed.
Lemma to_str_some o v : o ≫= to_str = Some v → o = Some v.
Proof. intros (x & -> & Hx)%bind_Some. unfold to_str in Hx. case_match; [|done]. by injection Hx as ->. Qed.
(** The browser's cookie comes from a login the helper confirmed and that still counts. *)
Definition vouched {R : Random} (ttl : Z) (log : list entry) (req : http_request) (now : Z) (user : CurrentUser) : Prop :=
  ∃ tok newer e older last,
    cookie_value (hr_headers req) SESSION_COOKIE = Some tok ∧ log = newer ++ e :: older ∧
    issues tok (cu_csrf user) (cu_username user) e ∧
    Forall (λ e, ¬ ends tok e ∧ ¬ ∃ csrf user, issues tok csrf user e) newer ∧
    recent tok (newer ++ [e]) last ∧ (now <= last + ttl)%Z.
Section serve.
Context {R : Random} {M : Matcher} {S : Sha256} (ttl : Z).
(** C29: whatever paths axum matches, every handler that is not on the short list of open
    routes runs behind its gate. A request that reaches one of the client API carries a
    token whose hash is in the store. A request that reaches a page carries the cookie of
    a login the helper confirmed for the user shown, not logged out or expired since; and
    when the handler is one of the forms, which are all the handlers that are registered
    for POST, it carries the CSRF token of that login. An open route leaves the sessions
    as they were. *)
Theorem handlers_behind_gates log s d req uri now h user s' draws :
  rtc (portal_step ttl) ([], {| se_inner := ∅; se_draws := draws |}) (log, s) →
  serve_request ttl d req uri now s = (Reached h user, s') →
  (h ∈ rt_handler <$> unprotected ∧ user = None ∧ s' = s) ∨
  (h ∈ rt_handler <$> client_api_router ∧ user = None ∧
   ∃ raw t, header_get "authorization" (hr_headers req) = Some ("Bearer " +:+ raw) ∧
     t ∈ cd_client_token d ∧ ct_token_hash t = token_hash raw) ∨
  (h ∈ rt_handler <$> protected ∧
   ∃ u, user = Some u ∧ vouched ttl log req now u ∧
     (h ∈ rt_handler <$> List.filter (λ r, bool_decide (rt_verb r = Post)) protected →
      header_get CSRF_HEADER (hr_headers req) = Some (cu_csrf u))).
Proof.
  intros Hrun Hs. unfold serve_request in Hs. destruct (matched _ _) as [pattern|]; [|done].
  destruct (List.filter _ app) as [|[l r0] rest] eqn:E; [done|].
  assert (∀ r, r ∈ (l, r0) :: rest → r ∈ app ∧ r.1 = l) as Happ by (intros r; by apply filtered_route with pattern).
  destruct l.
  - injection Hs as Hr <-. left. apply by_method_reached in Hr as (-> & r & Hin & <- & _). destruct (Happ r Hin) as [Ha Hl].
    apply app_layers in Ha. rewrite Hl in Ha. split_and!; [by apply list_elem_of_fmap_2|done|done].
  - right. right. destruct (require_auth ttl req now s) as [g s1] eqn:Eg. injection Hs as Hr <-. destruct g as [| |u]; [done|done|].
    apply by_method_reached in Hr as (-> & r & Hin & <- & Hm). destruct (Happ r Hin) as [Ha Hl].
    pose proof (app_layers r Ha) as Hp. rewrite Hl in Hp.
    destruct (session_gate ttl log s req now u s1 draws Hrun Eg) as (tok & newer & e & older & last & H1 & H2 & H3 & H4 & H5 & H6 & Hcsrf).
    split; [by apply list_elem_of_fmap_2|]. exists u. split_and!; [done|by exists tok, newer, e, older, last|].
    intros (f & Hf & [Hin' Hv]%list_elem_of_In%List.filter_In)%list_elem_of_fmap. apply bool_decide_eq_true in Hv.
    apply list_elem_of_In in Hin'. rewrite (handler_route r (Session_gate, f)) in Hm; [|done| |done].
    + cbn in Hm. rewrite Hv in Hm. apply Hcsrf. by destruct (hr_method req).
    + unfold app. apply elem_of_app. left. by apply list_elem_of_fmap_2.
  - right. left. destruct (authorized _ _) eqn:Ea; [|done]. injection Hs as Hr <-.
    apply by_method_reached in Hr as (-> & r & Hin & <- & _). destruct (Happ r Hin) as [Ha Hl]. apply app_layers in Ha.
    rewrite Hl in Ha. split_and!; [done|done|]. apply bearer_header in Ea as (raw & t & Ht & Hin' & Hh). exists raw, t.
    split_and!; [by apply to_str_some|done|done].
Qed.
End serve.

(** ** A form posted after a login *)

#[local] Existing Instances demo_random demo_sha.
#[local] Instance literal_paths : Matcher := λ patterns p, if bool_decide (p ∈ patterns) then Some p else None.
Definition demo_post : http_request := {|
  hr_method := OtherMethod "POST"; hr_headers := [("cookie", "gd_session=" +:+ random_token 0); (CSRF_HEADER, random_token 1)] |}.
Definition demo_admin : CurrentUser := {| cu_username := "admin"; cu_csrf := random_token 1 |}.
Definition demo_served : served * Sessions := serve_request 3600 ConfigDoc_default demo_post "/zfs/fs/destroy" 20 demo_login.2.
Lemma handlers_behind_gates_witness :
  demo_served.1 = Reached "zfs::fs_destroy" (Some demo_admin) ∧
  (serve_request 3600 ConfigDoc_default {| hr_method := OtherMethod "POST"; hr_headers := [] |} "/zfs/fs/destroy" 20 demo_login.2).1
  = Turned_away (ToLogin (SeeOther "/login")) ∧
  ∃ u, Some demo_admin = Some u ∧
    vouched 3600 [{| en_time := 10; en_what := Login demo_auth true "admin" "s3cret" 0 demo_login.1 |}] demo_post 20 u.
Proof.
  assert (H : demo_served.1 = Reached "zfs::fs_destroy" (Some demo_admin)) by (vm_compute; reflexivity).
  split; [exact H|]. split; [vm_compute; reflexivity|].
  destruct (handlers_behind_gates 3600 [{| en_time := 10; en_what := Login demo_auth true "admin" "s3cret" 0 demo_login.1 |}]
    demo_login.2 ConfigDoc_default demo_post "/zfs/fs/destroy" 20 "zfs::fs_destroy" (Some demo_admin) demo_served.2 0)
    as [(_ & Hu & _)|[(_ & Hu & _)|(_ & u & Hu & Hv & _)]]; [| |discriminate|discriminate|].
  - apply rtc_once. apply (step_login 3600 10 demo_auth true "admin" "s3cret" empty_sessions [] demo_login.1 demo_login.2).
    apply surjective_pairing.
  - rewrite <- H. unfold demo_served. apply surjective_pairing.
  - exists u. split; [exact Hu|exact Hv].
Defined.

(** ** The start *)

Section start.
Context {W : WebToml} {P : Pem} {S : Sha256}.
(** Cookies are for TLS only exactly when the pairing strings carry a fingerprint. *)
Lemma start_pins_tls arg databases t a :
  start_web arg databases t = Ok a → as_secure_cookies a = true ↔ is_Some (as_tls_fingerprint a).
Proof.
  unfold start_web. intros (c & _ & Ha)%bind_Ok. apply bind_Ok in Ha as (tls & Ht & Ha). apply bind_Ok in Ha as (fp & Hf & Ha).
  apply bind_Ok in Ha as (u & _ & Ha). injection Ha as <-. cbn. destruct (wc_tls_cert c) as [cert|], (wc_tls_key c) as [key|]; [|done|done|].
  - apply bind_Ok in Ht as (v & _ & Ht). injection Ht as <-. destruct (cert_fingerprint cert t); [|done]. injection Hf as <-. by split.
  - injection Ht as <-. injection Hf as <-. split; [done|by intros []].
Qed.
(** The key [autoload_modules] of the shared configuration, which the packaged file
    documents and the daemon reads, is not among the known keys: a file that sets it,
    and no other key before it, is refused. *)
Lemma documented_key_refused p t s keys :
  t !! p = Some (File s) → toml_keys s = Ok ("autoload_modules" :: keys) →
  load_web (Some p) t = Err ("unknown config key " +:+ debug_str "autoload_modules" +:+ " in " +:+ show_abs p).
Proof. intros Ht Hk. unfold load_web, open_file. by rewrite Ht, Hk. Qed.
End start.
